(* ===== verification/_CoqProject ===== *)
-Q . S2P
Prelude.v
StateM.v
AudioStream.v
StreamCopy.v
Heap.v
HeapMap.v
HeapSpec.v
HeapFree.v
HeapZones.v
Allocator.v
Buffer.v
Numbers.v
DataBlob.v
IntrusiveList.v
CompState.v
Pipeline.v
PipelineOps.v
PipelineWalk.v
PipelineThms.v
PipelineTask.v
PipelineLife.v
PipelineComplete.v
LlSchedule.v
LlThms.v
LlRun.v
LlInterrupt.v
LlGuarantees.v
Format.v
SampleLoop.v
PcmConvert.v
PcmFloat.v
PcmThms.v
ChannelLoop.v
Fir.v
Topology.v
TopologyInv.v
TopologyOps.v
Driver.v
SampleQueue.v
ChannelCopy.v
Mixer.v
MixerThms.v
MixerCopy.v
MixerState.v
EqComp.v
EqSetup.v
EqPeriod.v
DcBlock.v
DcBlockThms.v
DcBlockCopy.v
EqFir.v
EqFirCopy.v
EqFirSetup.v
Iir.v
EqIir.v
EqIirCopy.v
EqIirSetup.v
EqLife.v
EqIirPrepare.v
Volume.v
VolumeRamp.v
VolumeCtl.v
VolumeReach.v
VolumeCopy.v
VolumeLife.v
TopologyThms.v
Edf.v
IpcTransport.v
IpcSystem.v
IpcThms.v
RealBounds.v
Fft.v
FftThms.v
FftError.v
Maths.v
MathThms.v
LogThms.v
ExpThms.v
Trig.v
TrigThms.v
