(* ===== verification/Prelude.v ===== *)
(** * Sound Open Firmware: a verification library

    The firmware of an audio DSP: the host creates components, buffers and
    pipelines, connects them, and starts streams; a scheduler then runs the tasks of
    the pipelines periodically, and the tasks move samples from component to
    component through ring buffers. This library models the core of it on one
    processor core and proves that it does what it is meant to do. Paths are
    relative to [src/] of the repository.

    ** The parts and where they are

    - [Prelude], [StateM]: machine integers on [Z], memory as a function from
      addresses to bytes, tactics and the hint database [sof], lemmas on lists and
      integers; the state-and-fault monad [ST] with its total correctness [wp]. An
      address is a [Z], null is 0, and [None] stands for a panic, a wild access or
      missing fuel.
    - [AudioStream], [StreamCopy]: the ring buffer of
      [include/sof/audio/audio_stream.h] and the copies of [audio/component.c]. The
      ring refines a bounded byte queue; copies move bytes from queue to queue.
    - [Heap], [HeapMap], [HeapSpec], [HeapFree], [HeapZones]: [lib/alloc.c]. Block
      maps refine a set of allocated ranges; allocation is complete, freeing is its
      inverse; the zones and the public functions.
    - [Allocator]: a type class that states what the heap promises its clients; the
      heap is an instance. Everything that allocates is proved against the class.
    - [Buffer], [DataBlob]: [audio/buffer.c] and the blob handlers of
      [audio/component.c], clients of the allocator: life cycles without leaks,
      every error path, blobs that arrive and are read back in chunks.
    - [Numbers], [Format]: [math/numbers.c] and the fixed-point arithmetic of
      [include/sof/audio/format.h].
    - [IntrusiveList]: [include/sof/list.h] through its links in memory; it refines
      sequences, which the later files use in its place.
    - [CompState]: the state machine of components ([comp_set_state]).
    - [Pipeline], [PipelineOps]: [audio/pipeline/*.c]. The [world] holds components,
      buffers, pipelines, messages, memory and the allocator; [PipelineWalk] is about
      the recursion over the graph, [PipelineThms] about preparing, [PipelineTask]
      about triggers, the task and its replies, [PipelineLife] about creation and
      release, [PipelineComplete] about completion. The drivers are a parameter
      ([env]); what they promise is the class [Drivers].
    - [LlSchedule], [LlThms], [LlRun], [LlInterrupt], [LlGuarantees]:
      [schedule/ll_schedule.c], its domain and the timer domain. Histories of calls
      and interrupts as sequences of steps, with the settings of the timer among
      their events; an interrupt runs the tasks that are due and sets the timer again.
    - [SampleLoop], [PcmConvert], [PcmFloat], [PcmThms]: the loops over samples in two
      rings and [audio/pcm_converter/pcm_converter_generic.c]. The code works on the
      bit patterns of binary32 numbers; [PcmFloat] gives them their values and shows
      how the code rounds these.
    - [Topology], [TopologyInv], [TopologyOps], [TopologyThms]: [ipc/ipc-common.c],
      [ipc/ipc-helper.c] and [ipc/ipc3/helper.c], the commands that build and take
      down the graph. Every entry owns its object and its memory; any proper history
      of commands ([history_ok]) refines a registry of identifiers. The drivers are a parameter; what
      they promise is the class [TopoDrivers].
    - [Edf]: [schedule/edf_schedule.c]; the interrupt switches to an active task with
      the earliest deadline.
    - [IpcTransport], [IpcSystem], [IpcThms]: the queue of notifications and the
      processing of commands in [ipc/ipc-common.c] and [ipc/ipc3], with the main task
      of [schedule/task.c] and the driver [drivers/intel/baytrail/ipc.c]. [IpcSystem]
      puts the firmware next to a host that follows the protocol of the registers, as
      steps that interleave; the handlers of the command groups and the interrupt
      status of the hardware are parameters. Notifications arrive once, in order and,
      below the maximal size, with the latest data, unless a command has the firmware
      prepare for D3; commands are dispatched and answered once.
    - [Mixer], [MixerThms], [MixerCopy], [MixerState]: [audio/mixer.c] for IPC
      version 3, an instance of [TopoDrivers]; its loops, its period on queues of
      samples, and its state, shared by several pipelines.
    - [Driver], [SampleQueue], [ChannelLoop], [ChannelCopy]: what components
      share: private data, the commits on their buffers, streams as queues
      of samples, and the two forms of the loop that passes each channel through a
      filter of its own (by stretches, or by the number of the sample). What a filter
      promises to the loops is the class [ChannelFilter].
    - [EqComp], [EqSetup], [EqPeriod], [EqLife]: what [audio/eq_fir/eq_fir.c] and
      [audio/eq_iir/eq_iir.c] share, with the kind of filter as a parameter
      ([eq_kind]): blobs that assign responses to channels, one block for all delay
      lines, the operations of the component. What a kind promises is the class
      [EqKind]; setting up the filters, a period, and the memory of the component
      are proved against it.
    - [DcBlock], [DcBlockThms], [DcBlockCopy]: [audio/dcblock/*.c], a filter that
      removes a constant from each channel: its recurrence, how fast a constant
      decays, all operations of the component and its period.
    - [Fir], [EqFir], [EqFirCopy], [EqFirSetup]: [math/fir_generic.c] and
      the FIR equalizer of [audio/eq_fir/*.c]: filters are convolutions, a period
      filters every channel, and configuring gives each its response and delay line.
    - [Iir], [EqIir], [EqIirCopy], [EqIirSetup], [EqIirPrepare]: [math/iir.c],
      [math/iir_df2t_generic.c] and the IIR equalizer of [audio/eq_iir/eq_iir.c]:
      filters compute the difference equations of their sections, and from the
      preparation on, period by period, every channel of the sink is the output of
      the equations on all that the channel of the source has had.
    - [Volume], [VolumeRamp], [VolumeCtl], [VolumeReach], [VolumeCopy],
      [VolumeLife]: [audio/volume/volume.c] and [volume_generic.c] for IPC version 3.
      The gains of the channels are the filters of the loop; ramps stay between their
      ends and end, commands of any content keep the gains in range, a period scales
      in chunks between changes of the gain, and any order of operations keeps the
      type of the data, for ramps with updates of a frame to 50 ms.
    - [Fft], [FftThms], [FftError]: [math/fft/fft.c],
      [include/sof/math/fft.h] and the table [coefficients/fft/twiddle.h]. The loops in
      place compute the recursion on even and odd elements; over the real numbers that
      recursion is the discrete Fourier transform; table and roundings together stay
      within 3.5 units per element of it. Element 0 of the transformed signal comes from
      the output buffer, as the code does not use that of the input. Plans are made and freed without leaks.
    - [RealBounds]: complex numbers over the reals and bounds on logarithm, arc tangent
      and exponential function, evaluated on rational numbers.
    - [Maths], [MathThms], [LogThms], [ExpThms]: [math/sqrt_int16.c],
      [math/base2log.c], [math/log_e.c], [math/log_10.c], [math/power.c] and
      [math/decibels.c]; [Trig], [TrigThms]: [math/trig.c] and
      [include/sof/math/trig.h]. Each function returns for every input of its range,
      nothing overflows on the way, and the result is within a stated number of units
      of the function of the real numbers.

    ** What the theorems show

    Refinement: ring to queue, block maps to ranges, links to sequences, commands to
    a registry. Safety: no fault and no leak in any history of proper calls.
    Functional behaviour of every operation named, its errors included. Round trips:
    allocate and free, create and release, convert and convert back, write and read.
    Liveness: a timer that is set for every waiting task, ramps that end, messages
    that are delivered and commands that are answered. Type: the
    data of the volume component in any order of operations. Bounds: the distance of
    transforms, logarithms, decibels, sine and cosine from those of the real numbers,
    for all inputs; these files use the axioms of the real numbers. Each theorem with
    hypotheses has an application to a concrete state behind it, and behaviour that
    looks wrong is shown by an [Example] on a concrete state.

    ** Bounds and fuel

    Loops that are not structural take fuel. The loops over streams get one more than
    the number of bytes or samples, of which each round moves at least one; [gcd] and
    [norm_int32] the number of bits; walks over lists their length and walks over the
    graph more than the number of buffers, each of which is entered once, as
    hypotheses of the theorems; the search for the size of a Fourier transform 32
    rounds, since the size doubles in each. All theorems say that the operation returns; none
    leaves it open. Sizes are limited to what the allocator is specified for
    ([request_ok]: less than 2^30 bytes), addresses of the heap to 32 bits (those of a
    ring are integers and its pointers do not wrap around); sources of a mixer to
    128, more than any platform has.

    ** Not modelled

    The memory maps of several cores, whose shared heaps are at uncached addresses
    ([mmw_cached] excludes them). Other cores: messages between them, shared components, coherence of caches (the
    calls do nothing on one core). Interrupts and locks: the code between them is
    one step. Traces and performance counters, which have no effect on the state.
    Sizes of structures, the clock, the timer hardware, DMA and digital audio
    interfaces are parameters. The other signal processing components, the handlers
    that decode the commands of each group, power management and the
    notifier are left for later; other drivers, start-up code, assembler, intrinsics of the
    HiFi processors and host tools are not modelled, since what they do is defined by
    hardware or by other programs. *)

From stdpp Require Import base list numbers option.

#[export] Set Default Goal Selector "!".

Global Open Scope Z_scope.

(** ** Machine integers

    A C integer is a [Z]; the conversions to a fixed width are written out
    where the C code converts. *)

Definition u8 (x : Z) : Z := x mod 2 ^ 8.
Definition u16 (x : Z) : Z := x mod 2 ^ 16.
Definition u32 (x : Z) : Z := x mod 2 ^ 32.
Definition u64 (x : Z) : Z := x mod 2 ^ 64.
Definition i16 (x : Z) : Z := (x + 2 ^ 15) mod 2 ^ 16 - 2 ^ 15.
Definition i32 (x : Z) : Z := (x + 2 ^ 31) mod 2 ^ 32 - 2 ^ 31.
Definition i64 (x : Z) : Z := (x + 2 ^ 63) mod 2 ^ 64 - 2 ^ 63.

Abbreviation UINT32_MAX := 4294967295 (only parsing).
Abbreviation UINT64_MAX := 18446744073709551615 (only parsing).
Abbreviation INT32_MAX := 2147483647 (only parsing).
Abbreviation INT32_MIN := (-2147483648) (only parsing).
Abbreviation INT16_MAX := 32767 (only parsing).
Abbreviation INT16_MIN := (-32768) (only parsing).

(** Error numbers, as in newlib, the C library of the Xtensa toolchain. *)
Abbreviation EPERM := 1 (only parsing).
Abbreviation EIO := 5 (only parsing).
Abbreviation ENOMEM := 12 (only parsing).
Abbreviation EACCES := 13 (only parsing).
Abbreviation EBUSY := 16 (only parsing).
Abbreviation EEXIST := 17 (only parsing).
Abbreviation ENODEV := 19 (only parsing).
Abbreviation EINVAL := 22 (only parsing).
Abbreviation EPIPE := 32 (only parsing).
Abbreviation ENODATA := 61 (only parsing).
Abbreviation EALREADY := 120 (only parsing).

(** ** Automation *)

(** Reflect boolean comparisons on [Z] in the goal and the context. *)
Ltac zbool :=
  repeat match goal with
  | H : (_ && _)%bool = true |- _ => apply andb_true_iff in H; destruct H
  | H : (_ && _)%bool = false |- _ => apply andb_false_iff in H
  | H : (_ || _)%bool = true |- _ => apply orb_true_iff in H
  | H : (_ || _)%bool = false |- _ => apply orb_false_iff in H; destruct H
  | H : negb _ = true |- _ => apply negb_true_iff in H
  | H : negb _ = false |- _ => apply negb_false_iff in H
  | H : (_ =? _) = true |- _ => apply Z.eqb_eq in H
  | H : (_ =? _) = false |- _ => apply Z.eqb_neq in H
  | H : (_ <? _) = true |- _ => apply Z.ltb_lt in H
  | H : (_ <? _) = false |- _ => apply Z.ltb_ge in H
  | H : (_ <=? _) = true |- _ => apply Z.leb_le in H
  | H : (_ <=? _) = false |- _ => apply Z.leb_gt in H
  | H : (_ >=? _) = true |- _ => rewrite Z.geb_leb in H; apply Z.leb_le in H
  | H : (_ >=? _) = false |- _ => rewrite Z.geb_leb in H; apply Z.leb_gt in H
  | H : (_ >? _) = true |- _ => rewrite Z.gtb_ltb in H; apply Z.ltb_lt in H
  | H : (_ >? _) = false |- _ => rewrite Z.gtb_ltb in H; apply Z.ltb_ge in H
  end.

(** Case analysis on the first conditional of the goal, with its condition
    reflected. *)
Ltac case_if :=
  match goal with
  | |- context [if ?b then _ else _] =>
      match type of b with bool => destruct b eqn:?; zbool end
  end.

(** Linear arithmetic with the quotient and remainder equations. *)
Ltac mlia := Z.div_mod_to_equations; nia.

Create HintDb sof.

(** Side conditions: the hints of the library, or arithmetic. *)
Ltac sof := first [by auto with sof | lia].

Lemma u32_small x : 0 <= x < 2 ^ 32 -> u32 x = x.
Proof. intros; unfold u32; apply Z.mod_small; lia. Qed.

Lemma u32_range x : 0 <= u32 x < 2 ^ 32.
Proof. unfold u32; apply Z.mod_pos_bound; lia. Qed.

Lemma u16_small x : 0 <= x < 2 ^ 16 -> u16 x = x.
Proof. intros; unfold u16; apply Z.mod_small; lia. Qed.

Lemma u16_range x : 0 <= u16 x < 2 ^ 16.
Proof. unfold u16; apply Z.mod_pos_bound; lia. Qed.

Lemma i32_small x : - 2 ^ 31 <= x < 2 ^ 31 -> i32 x = x.
Proof. intros; unfold i32; rewrite Z.mod_small; lia. Qed.

Lemma i32_range x : - 2 ^ 31 <= i32 x < 2 ^ 31.
Proof. unfold i32; pose proof (Z.mod_pos_bound (x + 2 ^ 31) (2 ^ 32)); lia. Qed.

(** An address in the upper half of the address space is negative as an
    [intptr_t]. *)
Lemma i32_upper x : 2 ^ 31 <= x < 2 ^ 32 -> i32 x = x - 2 ^ 32.
Proof.
  intros; unfold i32.
  replace (x + 2 ^ 31) with (x - 2 ^ 31 + 1 * 2 ^ 32) by lia.
  rewrite Z_mod_plus_full, Z.mod_small; lia.
Qed.

#[export] Hint Resolve u32_range u16_range i32_range : sof.

(** ** Byte memory

    The bytes of the address space, a total function from addresses. *)

Definition mem := Z -> Z.

Definition memcpy (m : mem) (dst src n : Z) : mem := fun a =>
  if (dst <=? a) && (a <? dst + n) then m (src + (a - dst)) else m a.

Definition memset (m : mem) (dst c n : Z) : mem := fun a =>
  if (dst <=? a) && (a <? dst + n) then c else m a.

Lemma memcpy_in m dst src n i :
  0 <= i < n -> memcpy m dst src n (dst + i) = m (src + i).
Proof. intros; unfold memcpy; case_if; [f_equal; lia | lia]. Qed.

Lemma memcpy_out m dst src n a :
  a < dst \/ dst + n <= a -> memcpy m dst src n a = m a.
Proof. intros; unfold memcpy; case_if; [lia | done]. Qed.

Lemma memset_in m dst c n a :
  dst <= a < dst + n -> memset m dst c n a = c.
Proof. intros; unfold memset; case_if; [done | lia]. Qed.

Lemma memset_out m dst c n a :
  a < dst \/ dst + n <= a -> memset m dst c n a = m a.
Proof. intros; unfold memset; case_if; [lia | done]. Qed.

(** [memcpy_s]: the new memory and the return value; the ends of the two areas
    are 32-bit addresses. *)
Definition memcpy_s (m : mem) (dest dest_size src src_size : Z) : mem * Z :=
  if (dest =? 0) || (src =? 0) then (m, - EINVAL) else
  if ((dest >=? src) && (dest <? u32 (src + src_size))) ||
     ((src >=? dest) && (src <? u32 (dest + dest_size)))
  then (m, - EINVAL) else
  if src_size >? dest_size then (m, - EINVAL) else (memcpy m dest src src_size, 0).

Lemma memcpy_s_ok m dest dest_size src src_size :
  0 < dest -> 0 < src -> src <> dest -> 0 <= src_size <= dest_size ->
  src + src_size <= dest \/ dest + dest_size <= src ->
  src + src_size < 2 ^ 32 -> dest + dest_size < 2 ^ 32 ->
  memcpy_s m dest dest_size src src_size = (memcpy m dest src src_size, 0).
Proof.
  intros; unfold memcpy_s. rewrite !u32_small by lia.
  case_if; [destruct_or!; zbool; lia|].
  case_if; [destruct_or!; zbool; lia|].
  case_if; [lia|done].
Qed.

