(* ===== verification/StateM.v ===== *)
(** * State and errors

    Stateful code that can fault is a computation on a state that returns the
    new state and a result, or [None] for a panic, a wild access or a lack of
    fuel. [wp] is its total correctness: the computation returns, and its new
    state and result have a property. *)

From stdpp Require Import base option.
From S2P Require Import Prelude.

Definition ST (S B : Type) : Type := S -> option (S * B).

#[global] Instance ST_ret S : MRet (ST S) := fun B x s => Some (s, x).
#[global] Instance ST_bind S : MBind (ST S) := fun B C f m s =>
  match m s with Some (s, x) => f x s | None => None end.

Section state.
Context {S : Type}.

Definition fault {B} : ST S B := fun _ => None.

Definition lift {B} (o : option B) : ST S B := fun s => x ← o; Some (s, x).

Definition gets {B} (f : S -> B) : ST S B := fun s => Some (s, f s).

Definition modify (f : S -> S) : ST S unit := fun s => Some (f s, tt).

Lemma bind_Some {B C} (m : ST S B) (f : B -> ST S C) (s s' : S) (x : B) :
  m s = Some (s', x) -> (m ≫= f) s = f x s'.
Proof. unfold mbind, ST_bind. by intros ->. Qed.

Lemma bind_Some_inv {B C} (m : ST S B) (f : B -> ST S C) (s s' : S) (y : C) :
  (m ≫= f) s = Some (s', y) -> exists s1 x, m s = Some (s1, x) /\ f x s1 = Some (s', y).
Proof. unfold mbind, ST_bind. destruct (m s) as [[s1 x]|]; [eauto|done]. Qed.

(** ** Total correctness of a computation *)

Definition wp {B} (m : ST S B) (s : S) (P : S -> B -> Prop) : Prop :=
  exists s' x, m s = Some (s', x) /\ P s' x.

Lemma wp_bind {B C} (m : ST S B) (f : B -> ST S C) s P :
  wp m s (fun s' x => wp (f x) s' P) -> wp (m ≫= f) s P.
Proof.
  intros (s1 & x & Hm & s2 & y & Hf & HP). exists s2, y. split; [|done].
  by erewrite bind_Some by exact Hm.
Qed.

Lemma wp_ret {B} (x : B) s (P : S -> B -> Prop) : P s x -> wp (mret x) s P.
Proof. intros. by exists s, x. Qed.

Lemma wp_mono {B} (m : ST S B) s (P P' : S -> B -> Prop) :
  wp m s P -> (forall s' x, P s' x -> P' s' x) -> wp m s P'.
Proof. intros (s' & x & Hm & HP) Himp. exists s', x. auto. Qed.

Lemma wp_gets {B} (f : S -> B) s (P : S -> B -> Prop) : P s (f s) -> wp (gets f) s P.
Proof. intros. by exists s, (f s). Qed.

Lemma wp_lift {B} (o : option B) x s (P : S -> B -> Prop) : o = Some x -> P s x -> wp (lift o) s P.
Proof. intros -> HP. by exists s, x. Qed.

Lemma wp_modify f s (P : S -> unit -> Prop) : P (f s) tt -> wp (modify f) s P.
Proof. intros. by exists (f s), tt. Qed.
End state.
