(* ===== verification/AudioStream.v ===== *)
(** * Audio streams: the circular byte buffer of [include/sof/audio/audio_stream.h]

    [audio_stream] is the C structure; each inline function of the header is
    one definition. A pointer is its address, a [Z]; the result of a function
    that contains an [assert] is an [option], [None] being the panic.

    The invariant [stream_wf] ties the two counters to the two pointers, and
    [contents] reads the stream as the queue of bytes it stands for. *)

From stdpp Require Import base list numbers option.
From S2P Require Import Prelude.

(** ** Sample formats ([include/ipc/stream.h], [include/sof/audio/format.h]) *)

Abbreviation SOF_IPC_FRAME_S16_LE := 0 (only parsing).
Abbreviation SOF_IPC_FRAME_S24_4LE := 1 (only parsing).
Abbreviation SOF_IPC_FRAME_S32_LE := 2 (only parsing).
Abbreviation SOF_IPC_FRAME_FLOAT := 3 (only parsing).
Abbreviation SOF_IPC_FRAME_S24_3LE := 4 (only parsing).
Abbreviation SOF_IPC_MAX_CHANNELS := 8%nat (only parsing).
Abbreviation IPC4_TYPE_FLOAT := 4 (only parsing).

Definition get_sample_bytes (fmt : Z) : Z :=
  if fmt =? SOF_IPC_FRAME_S16_LE then 2
  else if fmt =? SOF_IPC_FRAME_S24_3LE then 3
  else 4.

Definition get_frame_bytes (fmt channels : Z) : Z :=
  u32 (get_sample_bytes fmt * channels).

(** ** The stream structure *)

Record audio_stream := mk_stream {
  s_size : Z;
  s_avail : Z;
  s_free : Z;
  s_w_ptr : Z;
  s_r_ptr : Z;
  s_addr : Z;
  s_end_addr : Z;
  s_frame_fmt : Z;
  s_valid_sample_fmt : Z;
  s_rate : Z;
  s_channels : Z;
  s_overrun_permitted : bool;
  s_underrun_permitted : bool
}.

(** The fields of [struct sof_ipc_stream_params] that the pipeline reads. *)
Record sof_ipc_stream_params := mk_params {
  sp_direction : Z;
  sp_frame_fmt : Z;
  sp_buffer_fmt : Z;
  sp_rate : Z;
  sp_channels : Z;
  sp_chmap : list Z
}.

Definition set_ptrs (s : audio_stream) (w r avail free : Z) : audio_stream :=
  mk_stream (s_size s) avail free w r (s_addr s) (s_end_addr s) (s_frame_fmt s)
    (s_valid_sample_fmt s) (s_rate s) (s_channels s)
    (s_overrun_permitted s) (s_underrun_permitted s).

(** [params] is [None] for a null pointer. *)
Definition audio_stream_set_params (s : audio_stream)
    (params : option sof_ipc_stream_params) : audio_stream * Z :=
  match params with
  | None => (s, - EINVAL)
  | Some p =>
      (mk_stream (s_size s) (s_avail s) (s_free s) (s_w_ptr s) (s_r_ptr s)
         (s_addr s) (s_end_addr s) (sp_frame_fmt p) (s_valid_sample_fmt s)
         (sp_rate p) (sp_channels p) (s_overrun_permitted s)
         (s_underrun_permitted s), 0)
  end.

Definition audio_stream_frame_bytes (s : audio_stream) : Z :=
  get_frame_bytes (s_frame_fmt s) (s_channels s).

Definition audio_stream_sample_bytes (s : audio_stream) : Z :=
  get_sample_bytes (s_frame_fmt s).

Definition audio_stream_period_bytes (s : audio_stream) (frames : Z) : Z :=
  u32 (frames * audio_stream_frame_bytes s).

Definition audio_stream_wrap (s : audio_stream) (ptr : Z) : option Z :=
  let ptr :=
    if ptr >=? s_end_addr s then s_addr s + (ptr - s_end_addr s) else ptr in
  if i32 ptr <=? i32 (s_end_addr s) then Some ptr else None.

Definition audio_stream_get_frag (s : audio_stream) (ptr idx sample_size : Z) : option Z :=
  audio_stream_wrap s (ptr + idx * sample_size).

Definition audio_stream_get_avail_bytes (s : audio_stream) : Z :=
  if s_underrun_permitted s then
    (if negb (s_avail s =? 0) then s_avail s else s_size s)
  else s_avail s.

Definition audio_stream_get_avail_samples (s : audio_stream) : Z :=
  audio_stream_get_avail_bytes s / audio_stream_sample_bytes s.

Definition audio_stream_get_avail_frames (s : audio_stream) : Z :=
  audio_stream_get_avail_bytes s / audio_stream_frame_bytes s.

Definition audio_stream_get_free_bytes (s : audio_stream) : Z :=
  if s_overrun_permitted s then
    (if negb (s_free s =? 0) then s_free s else s_size s)
  else s_free s.

Definition audio_stream_get_free_samples (s : audio_stream) : Z :=
  audio_stream_get_free_bytes s / audio_stream_sample_bytes s.

Definition audio_stream_get_free_frames (s : audio_stream) : Z :=
  audio_stream_get_free_bytes s / audio_stream_frame_bytes s.

Definition audio_stream_can_copy_bytes (source sink : audio_stream) (bytes : Z) : Z :=
  if audio_stream_get_avail_bytes source <? bytes then -1
  else if audio_stream_get_free_bytes sink <? bytes then 1
  else 0.

Definition audio_stream_get_copy_bytes (source sink : audio_stream) : Z :=
  let avail := audio_stream_get_avail_bytes source in
  let free := audio_stream_get_free_bytes sink in
  if avail >? free then free else avail.

Definition audio_stream_avail_frames (source sink : audio_stream) : Z :=
  let src_frames := audio_stream_get_avail_frames source in
  let sink_frames := audio_stream_get_free_frames sink in
  if src_frames <? sink_frames then src_frames else sink_frames.

Definition audio_stream_produce (s : audio_stream) (bytes : Z) : option audio_stream :=
  w ← audio_stream_wrap s (s_w_ptr s + bytes);
  let r := if bytes >? audio_stream_get_free_bytes s then w else s_r_ptr s in
  let avail :=
    if r <? w then u32 (w - r)
    else if r =? w then s_size s
    else u32 (s_size s - (r - w)) in
  Some (set_ptrs s w r avail (u32 (s_size s - avail))).

Definition audio_stream_consume (s : audio_stream) (bytes : Z) : option audio_stream :=
  r ← audio_stream_wrap s (s_r_ptr s + bytes);
  let w := s_w_ptr s in
  let avail :=
    if r <? w then u32 (w - r)
    else if r =? w then 0
    else u32 (s_size s - (r - w)) in
  Some (set_ptrs s w r avail (u32 (s_size s - avail))).

Definition audio_stream_reset (s : audio_stream) : audio_stream :=
  set_ptrs s (s_addr s) (s_addr s) 0 (s_size s).

Definition audio_stream_init (s : audio_stream) (buff_addr size : Z) : audio_stream :=
  audio_stream_reset
    (mk_stream size (s_avail s) (s_free s) (s_w_ptr s) (s_r_ptr s) buff_addr
       (buff_addr + size) (s_frame_fmt s) (s_valid_sample_fmt s) (s_rate s)
       (s_channels s) (s_overrun_permitted s) (s_underrun_permitted s)).

(** The cache calls of [audio_stream_invalidate] and
    [audio_stream_writeback], as the list of (address, length) regions passed
    to [dcache_invalidate_region] or [dcache_writeback_region]. *)
Definition head_tail_regions (s : audio_stream) (ptr bytes : Z) : list (Z * Z) :=
  let wraps := ptr + bytes >? s_end_addr s in
  let head_size := if wraps then u32 (s_end_addr s - ptr) else bytes in
  let tail_size := if wraps then u32 (bytes - head_size) else 0 in
  (ptr, head_size) :: (if tail_size =? 0 then [] else [(s_addr s, tail_size)]).

Definition audio_stream_invalidate (s : audio_stream) (bytes : Z) : list (Z * Z) :=
  head_tail_regions s (s_r_ptr s) bytes.

Definition audio_stream_writeback (s : audio_stream) (bytes : Z) : list (Z * Z) :=
  head_tail_regions s (s_w_ptr s) bytes.

Definition audio_stream_bytes_without_wrap (s : audio_stream) (ptr : Z) : option Z :=
  if i32 (s_end_addr s) >=? i32 ptr
  then Some (i32 (i32 (s_end_addr s) - i32 ptr)) else None.

Definition audio_stream_frames_without_wrap (s : audio_stream) (ptr : Z) : option Z :=
  bytes ← audio_stream_bytes_without_wrap s ptr;
  Some (u32 bytes / audio_stream_frame_bytes s).

Definition audio_stream_set_zero (m : mem) (s : audio_stream) (bytes : Z) : mem * Z :=
  if audio_stream_get_free_bytes s <? bytes then (m, 1)
  else
    (foldl (fun m '(a, n) => memset m a 0 n) m
       (head_tail_regions s (s_w_ptr s) bytes), 0).

(** Result: the pair of formats written through [frame_fmt] and
    [valid_fmt]. *)
Definition audio_stream_fmt_conversion (depth valid type : Z) : Z * Z :=
  let frame_fmt := Z.shiftr depth 3 - 2 in
  let valid_fmt := Z.shiftr valid 3 - 2 in
  let '(frame_fmt, valid_fmt) :=
    if (valid =? 24) && (depth =? 24)
    then (SOF_IPC_FRAME_S24_3LE, SOF_IPC_FRAME_S24_3LE)
    else (frame_fmt, valid_fmt) in
  if (type =? IPC4_TYPE_FLOAT) && (depth =? 32)
  then (SOF_IPC_FRAME_FLOAT, SOF_IPC_FRAME_FLOAT)
  else (frame_fmt, valid_fmt).

(** ** Ring positions *)

(** The address [i] bytes after [p] on the ring of [s]. *)
Definition ring (s : audio_stream) (p i : Z) : Z :=
  s_addr s + (p - s_addr s + i) mod s_size s.

(** The ring is a non-empty range of 32-bit addresses that does not cross the
    sign boundary of [intptr_t], which the assertions of the code compare. *)
Record stream_geom (s : audio_stream) : Prop := {
  geom_size : 0 < s_size s;
  geom_addr : 0 <= s_addr s;
  geom_end : s_end_addr s = s_addr s + s_size s;
  geom_32 : s_end_addr s < 2 ^ 32;
  geom_half : s_end_addr s < 2 ^ 31 \/ 2 ^ 31 <= s_addr s
}.

Definition in_ring (s : audio_stream) (p : Z) : Prop :=
  s_addr s <= p < s_end_addr s.

(** The representation invariant: both pointers lie on the ring, [free]
    complements [avail], and the write pointer is [avail] bytes ahead of the
    read pointer. *)
Record stream_wf (s : audio_stream) : Prop := {
  wf_geom : stream_geom s;
  wf_r : in_ring s (s_r_ptr s);
  wf_avail : 0 <= s_avail s <= s_size s;
  wf_free : s_free s = s_size s - s_avail s;
  wf_w : s_w_ptr s = ring s (s_r_ptr s) (s_avail s)
}.

Lemma ring_in s p i : stream_geom s -> in_ring s (ring s p i).
Proof.
  intros [Hs ? He ? ?]; unfold in_ring, ring.
  pose proof (Z.mod_pos_bound (p - s_addr s + i) (s_size s) Hs); lia.
Qed.

Lemma ring_0 s p : stream_geom s -> in_ring s p -> ring s p 0 = p.
Proof.
  intros [Hs ? He ? ?] Hp; unfold in_ring, ring in *.
  rewrite Z.mod_small; lia.
Qed.

Lemma ring_ring s p i j : ring s (ring s p i) j = ring s p (i + j).
Proof.
  unfold ring; f_equal.
  replace (s_addr s + (p - s_addr s + i) mod s_size s - s_addr s + j)
    with ((p - s_addr s + i) mod s_size s + j) by lia.
  rewrite Zplus_mod_idemp_l; f_equal; lia.
Qed.

(** Before the end of the ring a step is plain pointer arithmetic. *)
Lemma ring_linear s p i :
  stream_geom s -> in_ring s p -> 0 <= i -> p + i < s_end_addr s -> ring s p i = p + i.
Proof.
  intros [Hs ? He ? ?] Hp ? ?; unfold in_ring, ring in *.
  rewrite Z.mod_small; lia.
Qed.

Lemma ring_wrap s p i :
  stream_geom s -> in_ring s p -> s_end_addr s <= p + i < s_end_addr s + s_size s ->
  ring s p i = p + i - s_size s.
Proof.
  intros [Hs ? He ? ?] Hp ?; unfold in_ring, ring in *.
  rewrite <- (Z.mod_unique (p - s_addr s + i) (s_size s) 1 (p - s_addr s + i - s_size s));
    lia.
Qed.

Lemma ring_inj s p i j :
  stream_geom s -> 0 <= i < s_size s -> 0 <= j < s_size s ->
  ring s p i = ring s p j -> i = j.
Proof.
  intros [Hs ? He ? ?] Hi Hj Heq; unfold ring in Heq.
  assert (Hm : (p - s_addr s + i) mod s_size s = (p - s_addr s + j) mod s_size s) by lia.
  assert (Hd : (i - j) mod s_size s = 0).
  { replace (i - j) with (p - s_addr s + i - (p - s_addr s + j)) by lia.
    rewrite Zminus_mod, Hm, Z.sub_diag; apply Z.mod_0_l; lia. }
  apply Z.mod_divide in Hd; [|lia]; destruct Hd as [k Hk].
  destruct (Z.lt_trichotomy k 0) as [?|[->|?]]; nia.
Qed.

(** The conversion to [intptr_t] is monotone on a ring. *)
Lemma i32_mono s p q :
  stream_geom s -> s_addr s <= p <= s_end_addr s -> s_addr s <= q <= s_end_addr s ->
  i32 p - i32 q = p - q.
Proof.
  intros [Hs ? He ? [Hh | Hh]] ? ?.
  - rewrite !i32_small; lia.
  - rewrite !i32_upper; lia.
Qed.

(** [audio_stream_wrap] is the step on the ring, and does not panic, for any
    pointer less than one ring past the end. *)
Lemma audio_stream_wrap_ring s p i :
  stream_geom s -> in_ring s p -> 0 <= i <= s_size s ->
  audio_stream_wrap s (p + i) = Some (ring s p i).
Proof.
  intros G Hp Hi; pose proof G as [Hs ? He ? ?]; unfold audio_stream_wrap.
  assert (Hr : (if p + i >=? s_end_addr s then s_addr s + (p + i - s_end_addr s) else p + i)
    = ring s p i).
  { unfold in_ring in Hp; case_if.
    - rewrite ring_wrap; [lia | done | done | lia].
    - rewrite ring_linear; [done | done | done | lia | lia]. }
  rewrite Hr; pose proof (ring_in s p i G) as Hin; unfold in_ring in Hin.
  pose proof (i32_mono s (ring s p i) (s_end_addr s) G).
  case_if; [done | lia].
Qed.

Lemma bytes_without_wrap_ok s p :
  stream_geom s -> in_ring s p ->
  audio_stream_bytes_without_wrap s p = Some (s_end_addr s - p).
Proof.
  intros G Hp; pose proof G as [Hs ? He ? ?].
  unfold audio_stream_bytes_without_wrap, in_ring in *.
  pose proof (i32_mono s (s_end_addr s) p G) as Hm.
  case_if; [|lia].
  rewrite Hm, i32_small; [done | lia | lia | lia].
Qed.

Lemma wf_w_in s : stream_wf s -> in_ring s (s_w_ptr s).
Proof. intros W; rewrite (wf_w s W); apply ring_in, wf_geom, W. Qed.

#[export] Hint Resolve wf_geom wf_r wf_w_in ring_in : sof.

(** A pointer update keeps the invariant when the new pointers and counters
    agree. *)
Lemma set_ptrs_wf s w r avail free :
  stream_geom s -> in_ring s r -> 0 <= avail <= s_size s ->
  free = s_size s - avail -> w = ring s r avail ->
  stream_wf (set_ptrs s w r avail free).
Proof. intros [? ? ? ? ?] ? ? ? ?; constructor; [constructor | | | |]; assumption. Qed.

Lemma ring_full s p : stream_geom s -> in_ring s p -> ring s p (s_size s) = p.
Proof.
  intros [Hs ? He ? ?] Hp; unfold ring, in_ring in *.
  rewrite <- (Z.mod_unique _ (s_size s) 1 (p - s_addr s)); lia.
Qed.

Lemma ring_period s p i : stream_geom s -> ring s p (i + s_size s) = ring s p i.
Proof. intros G; rewrite <- ring_ring; apply ring_full; auto with sof. Qed.

Lemma set_ptrs_full s p :
  stream_geom s -> in_ring s p -> stream_wf (set_ptrs s p p (s_size s) 0).
Proof.
  intros G Hp; pose proof G as [? ? ? ? ?].
  apply set_ptrs_wf; auto; [lia | lia | rewrite ring_full; done].
Qed.

(** How the code recovers the fill level from the two pointers: the value
    chosen for equal pointers ([full]) decides between full and empty. *)
Lemma level_from_ptrs s r n full :
  stream_geom s -> in_ring s r -> 0 <= n <= s_size s ->
  (n = 0 \/ n = s_size s -> full = n) ->
  (let w := ring s r n in
   if r <? w then u32 (w - r) else if r =? w then full else u32 (s_size s - (r - w))) = n.
Proof.
  intros G Hr Hn Hfull; pose proof G as [Hs ? He ? ?]; cbn zeta.
  unfold in_ring in Hr.
  destruct (decide (r + n < s_end_addr s)) as [Hlin | Hwrap].
  - rewrite ring_linear by (done || lia).
    case_if; [rewrite u32_small; lia|].
    case_if; [apply Hfull; lia | lia].
  - rewrite ring_wrap by (done || lia).
    case_if; [lia|].
    case_if; [apply Hfull; lia | rewrite u32_small; lia].
Qed.

Lemma audio_stream_produce_ok s n :
  stream_wf s -> 0 < n <= s_free s ->
  audio_stream_produce s n =
    Some (set_ptrs s (ring s (s_w_ptr s) n) (s_r_ptr s) (s_avail s + n) (s_free s - n)).
Proof.
  intros W Hn; pose proof W as [G Hr Ha Hf Hw]; pose proof G as [Hs ? He ? ?].
  unfold audio_stream_produce.
  rewrite audio_stream_wrap_ring by (eauto with sof || lia); cbn.
  replace (n >? audio_stream_get_free_bytes s) with false.
  2: { unfold audio_stream_get_free_bytes; destruct (s_overrun_permitted s);
       repeat case_if; symmetry; rewrite Z.gtb_ltb; apply Z.ltb_ge; lia. }
  rewrite Hw, ring_ring.
  pose proof (level_from_ptrs s (s_r_ptr s) (s_avail s + n) (s_size s) G Hr) as L.
  cbn zeta in L; rewrite L by lia.
  rewrite u32_small by lia; do 2 f_equal; lia.
Qed.

Lemma audio_stream_consume_ok s n :
  stream_wf s -> 0 < n <= s_avail s ->
  audio_stream_consume s n =
    Some (set_ptrs s (s_w_ptr s) (ring s (s_r_ptr s) n) (s_avail s - n) (s_free s + n)).
Proof.
  intros W Hn; pose proof W as [G Hr Ha Hf Hw]; pose proof G as [Hs ? He ? ?].
  unfold audio_stream_consume.
  rewrite audio_stream_wrap_ring by (eauto with sof || lia); cbn.
  assert (Hw' : s_w_ptr s = ring s (ring s (s_r_ptr s) n) (s_avail s - n)).
  { rewrite Hw, ring_ring; f_equal; lia. }
  rewrite Hw'.
  pose proof (level_from_ptrs s (ring s (s_r_ptr s) n) (s_avail s - n) 0 G
    (ring_in _ _ _ G)) as L.
  cbn zeta in L; rewrite L by lia.
  rewrite u32_small by lia; do 2 f_equal; lia.
Qed.

(** More bytes than the stream reports free: the read pointer is dragged along
    and the stream is full. *)
Lemma audio_stream_produce_overrun s n :
  stream_wf s -> s_overrun_permitted s = false \/ s_free s <> 0 ->
  s_free s < n <= s_size s ->
  audio_stream_produce s n =
    Some (set_ptrs s (ring s (s_w_ptr s) n) (ring s (s_w_ptr s) n) (s_size s) 0).
Proof.
  intros W Ho Hn; pose proof W as [G Hr Ha Hf Hw]; pose proof G as [Hs ? He ? ?].
  unfold audio_stream_produce.
  rewrite audio_stream_wrap_ring by (eauto with sof || lia); cbn.
  replace (audio_stream_get_free_bytes s) with (s_free s).
  2: { unfold audio_stream_get_free_bytes; destruct Ho as [-> | Ho]; [done|].
       destruct (s_overrun_permitted s); [case_if; [done | lia] | done]. }
  replace (n >? s_free s) with true by (symmetry; rewrite Z.gtb_ltb; apply Z.ltb_lt; lia).
  rewrite Z.ltb_irrefl, Z.eqb_refl, Z.sub_diag; done.
Qed.

(** A full stream that permits overrun restarts with the new bytes only. *)
Lemma audio_stream_produce_restart s n :
  stream_wf s -> s_overrun_permitted s = true -> s_free s = 0 -> 0 < n <= s_size s ->
  audio_stream_produce s n =
    Some (set_ptrs s (ring s (s_r_ptr s) n) (s_r_ptr s) n (s_size s - n)).
Proof.
  intros W Ho H0 Hn; pose proof W as [G Hr Ha Hf Hw]; pose proof G as [Hs ? He ? ?].
  assert (Hrw : s_w_ptr s = s_r_ptr s).
  { rewrite Hw; replace (s_avail s) with (s_size s) by lia; apply ring_full; done. }
  unfold audio_stream_produce; rewrite Hrw.
  rewrite audio_stream_wrap_ring by (eauto with sof || lia); cbn.
  unfold audio_stream_get_free_bytes; rewrite Ho, H0; cbn.
  replace (n >? s_size s) with false by (symmetry; rewrite Z.gtb_ltb; apply Z.ltb_ge; lia).
  pose proof (level_from_ptrs s (s_r_ptr s) n (s_size s) G Hr) as L.
  cbn zeta in L; rewrite L by lia.
  rewrite u32_small by lia; done.
Qed.

(** [audio_stream_produce] is total on well-formed streams for every non-zero
    amount up to the size, overrun permitted or not. *)
Lemma produce_wf s n :
  stream_wf s -> 0 < n <= s_size s ->
  exists s', audio_stream_produce s n = Some s' /\ stream_wf s' /\
    s_addr s' = s_addr s /\ s_size s' = s_size s.
Proof.
  intros W Hn; pose proof W as [G Hr Ha Hf Hw].
  destruct (decide (n <= s_free s)) as [Hfit | Hover].
  - eexists; split; [apply audio_stream_produce_ok; [done | lia]|]; split; [|done].
    apply set_ptrs_wf; auto; [lia | lia | rewrite Hw, ring_ring; done].
  - destruct (s_overrun_permitted s) eqn:Ho; [destruct (decide (s_free s = 0))|].
    + eexists; split; [apply audio_stream_produce_restart; done|]; split; [|done].
      apply set_ptrs_wf; auto; lia.
    + eexists; split; [apply audio_stream_produce_overrun; [done | right; done | lia]|].
      split; [|done]; apply set_ptrs_full; auto with sof.
    + eexists; split; [apply audio_stream_produce_overrun; [done | left; done | lia]|].
      split; [|done]; apply set_ptrs_full; auto with sof.
Qed.

Lemma consume_wf s n :
  stream_wf s -> 0 < n <= s_avail s ->
  exists s', audio_stream_consume s n = Some s' /\ stream_wf s' /\
    s_addr s' = s_addr s /\ s_size s' = s_size s.
Proof.
  intros W Hn; pose proof W as [G Hr Ha Hf Hw].
  eexists; split; [by apply audio_stream_consume_ok|]; split; [|done].
  apply set_ptrs_wf; [done | by apply ring_in | lia | lia |].
  rewrite Hw, ring_ring; f_equal; lia.
Qed.

(** A fresh stream over a valid memory range. *)
Lemma init_wf s addr size :
  0 < size -> 0 <= addr -> addr + size < 2 ^ 32 -> addr + size < 2 ^ 31 \/ 2 ^ 31 <= addr ->
  stream_wf (audio_stream_init s addr size).
Proof.
  intros. assert (stream_geom (audio_stream_init s addr size)) by (by constructor).
  constructor; cbn; [done | unfold in_ring; cbn; lia | lia | lia |].
  rewrite ring_0; [done | done | unfold in_ring; cbn; lia].
Qed.

Lemma reset_wf s : stream_wf s -> stream_wf (audio_stream_reset s).
Proof.
  intros W; pose proof (wf_geom s W) as G; pose proof G as [? ? ? ? ?].
  apply set_ptrs_wf; [done | unfold in_ring; lia | lia | lia |].
  rewrite ring_0; [done | done | unfold in_ring; lia].
Qed.

(** ** Streams as byte queues *)

(** The bytes a reader can consume, oldest first. *)
Definition contents (m : mem) (s : audio_stream) : list Z :=
  (fun i => m (ring s (s_r_ptr s) (Z.of_nat i))) <$> seq 0 (Z.to_nat (s_avail s)).

(** [m'] is [m] after writing the bytes [d] on the ring of [s] from [p]. *)
Definition ring_written (m m' : mem) (s : audio_stream) (p : Z) (d : list Z) : Prop :=
  (forall i x, d !! i = Some x -> m' (ring s p (Z.of_nat i)) = x) /\
  (forall a, (forall i, (i < length d)%nat -> a <> ring s p (Z.of_nat i)) -> m' a = m a).

Lemma contents_length m s : length (contents m s) = Z.to_nat (s_avail s).
Proof. unfold contents; rewrite length_fmap, length_seq; done. Qed.

Lemma contents_lookup m s i :
  (i < Z.to_nat (s_avail s))%nat ->
  contents m s !! i = Some (m (ring s (s_r_ptr s) (Z.of_nat i))).
Proof.
  intros Hi; unfold contents.
  rewrite list_lookup_fmap, lookup_seq_lt by done; done.
Qed.

Lemma list_eq_lookup_lt (l k : list Z) :
  length l = length k ->
  (forall i, (i < length k)%nat -> l !! i = k !! i) -> l = k.
Proof.
  intros Hl Hi; apply list_eq; intros i.
  destruct (decide (i < length k)%nat); [auto|].
  rewrite !lookup_ge_None_2 by lia; done.
Qed.

(** After a write of [d] at the write pointer, the bytes of the old queue
    followed by [d] are on the ring, except for those the write overwrote. *)
Lemma written_lookup m m' s d i :
  stream_wf s -> ring_written m m' s (s_w_ptr s) d ->
  s_avail s + Z.of_nat (length d) - s_size s <= Z.of_nat i ->
  (i < Z.to_nat (s_avail s) + length d)%nat ->
  (contents m s ++ d) !! i = Some (m' (ring s (s_r_ptr s) (Z.of_nat i))).
Proof.
  intros W [Hin Hout] Hk Hi; pose proof W as [G Hr Ha Hf Hw].
  destruct (decide (i < Z.to_nat (s_avail s))%nat) as [Hold | Hnew].
  - rewrite lookup_app_l by (rewrite contents_length; done).
    rewrite contents_lookup by done; f_equal; symmetry; apply Hout.
    intros j Hj Heq; rewrite Hw, ring_ring in Heq.
    assert (Hsh : ring s (ring s (s_r_ptr s) (Z.of_nat i)) 0 =
                  ring s (ring s (s_r_ptr s) (Z.of_nat i)) (s_avail s + Z.of_nat j - Z.of_nat i)).
    { rewrite !ring_ring, Z.add_0_r, Heq; f_equal; lia. }
    apply ring_inj in Hsh; [lia | done | lia | lia].
  - rewrite lookup_app_r by (rewrite contents_length; lia).
    rewrite contents_length.
    destruct (lookup_lt_is_Some_2 d (i - Z.to_nat (s_avail s))) as [x Hx]; [lia|].
    rewrite Hx, <- (Hin _ _ Hx), Hw, ring_ring; do 3 f_equal; lia.
Qed.

(** Writing [d] and committing it with [audio_stream_produce] appends [d] to
    the queue. *)
Lemma produce_appends m m' s d :
  stream_wf s -> ring_written m m' s (s_w_ptr s) d ->
  (0 < length d)%nat -> Z.of_nat (length d) <= s_free s ->
  exists s', audio_stream_produce s (Z.of_nat (length d)) = Some s' /\
    stream_wf s' /\ contents m' s' = contents m s ++ d.
Proof.
  intros W Hm H0 Hd; pose proof W as [G Hr Ha Hf Hw].
  eexists; split; [apply audio_stream_produce_ok; [done | lia]|].
  split.
  - apply set_ptrs_wf; auto; [lia | lia |].
    rewrite Hw, ring_ring; done.
  - apply list_eq_lookup_lt; rewrite length_app, !contents_length; cbn; [lia|].
    intros i Hi; rewrite (written_lookup m m' s d) by (auto; lia).
    rewrite contents_lookup; [done | cbn; lia].
Qed.

(** [audio_stream_consume] removes the oldest bytes. *)
Lemma consume_drops m s n :
  stream_wf s -> 0 < n <= s_avail s ->
  exists s', audio_stream_consume s n = Some s' /\
    stream_wf s' /\ contents m s' = drop (Z.to_nat n) (contents m s).
Proof.
  intros W Hn; pose proof W as [G Hr Ha Hf Hw].
  eexists; split; [apply audio_stream_consume_ok; done|].
  split.
  - apply set_ptrs_wf; auto with sof; [lia | lia |].
    rewrite ring_ring, Hw; f_equal; lia.
  - apply list_eq_lookup_lt; rewrite length_drop, !contents_length; cbn; [lia|].
    intros i Hi; rewrite lookup_drop, !contents_lookup by (cbn; lia); cbn.
    do 2 f_equal; change (ring (set_ptrs _ _ _ _ _)) with (ring s).
    rewrite ring_ring; f_equal; lia.
Qed.

(** The regions handed to the cache operations and to [memset] are exactly the
    [bytes] ring positions that start at [ptr]. *)
Lemma regions_exact s p bytes a :
  stream_geom s -> in_ring s p -> 0 <= bytes <= s_size s ->
  Exists (fun '(b, n) => b <= a < b + n) (head_tail_regions s p bytes) <->
  exists i, 0 <= i < bytes /\ a = ring s p i.
Proof.
  intros G Hp Hb; pose proof G as [Hs ? He ? ?]; unfold in_ring in Hp.
  unfold head_tail_regions; rewrite Exists_cons.
  destruct (p + bytes >? s_end_addr s) eqn:Hw; zbool.
  - rewrite !(u32_small (s_end_addr s - p)) by lia.
    rewrite u32_small by lia.
    case_if; [lia|]; rewrite Exists_cons, Exists_nil; split.
    + intros [Ha | [Ha | []]].
      * exists (a - p); rewrite ring_linear by (done || lia); lia.
      * exists (a - p + s_size s); rewrite ring_wrap by (done || lia); lia.
    + intros (i & Hi & ->); destruct (decide (p + i < s_end_addr s)).
      * rewrite ring_linear by (done || lia); lia.
      * rewrite ring_wrap by (done || lia); lia.
  - cbn; rewrite Exists_nil; split.
    + intros [Ha | []]; exists (a - p); rewrite ring_linear by (done || lia); lia.
    + intros (i & Hi & ->); rewrite ring_linear by (done || lia); lia.
Qed.

Lemma memset_regions (l : list (Z * Z)) m a :
  foldl (fun m '(a, n) => memset m a 0 n) m l a =
  if decide (Exists (fun '(b, n) => b <= a < b + n) l) then 0 else m a.
Proof.
  revert m; induction l as [|[b n] l IH]; intros m; cbn.
  - rewrite decide_False by (rewrite Exists_nil; tauto); done.
  - rewrite IH; unfold memset.
    destruct (decide (Exists _ l)) as [Hl | Hl].
    + rewrite decide_True; [done | rewrite Exists_cons; tauto].
    + case_if.
      * rewrite decide_True; [done | rewrite Exists_cons; left; lia].
      * rewrite decide_False; [done | rewrite Exists_cons; intros [? | ?]; [lia | done]].
Qed.

(** [audio_stream_set_zero] refuses more bytes than are free, and otherwise
    writes that many zero bytes at the write pointer and nothing else. *)
Lemma audio_stream_set_zero_ok m s n :
  stream_wf s -> s_overrun_permitted s = false -> 0 <= n ->
  if n <=? s_free s then
    exists m', audio_stream_set_zero m s n = (m', 0) /\
      ring_written m m' s (s_w_ptr s) (replicate (Z.to_nat n) 0)
  else audio_stream_set_zero m s n = (m, 1).
Proof.
  intros W Ho Hn; pose proof W as [G Hr Ha Hf Hw].
  unfold audio_stream_set_zero, audio_stream_get_free_bytes; rewrite Ho.
  case_if.
  - replace (s_free s <? n) with false by (symmetry; apply Z.ltb_ge; lia).
    eexists; split; [done|]; split.
    + intros i x Hx; apply lookup_replicate in Hx as [-> Hi].
      rewrite memset_regions, decide_True; [done|].
      apply regions_exact; [done | auto with sof | lia |].
      exists (Z.of_nat i); split; [lia | done].
    + intros a Ha'; rewrite memset_regions, decide_False; [done|].
      rewrite regions_exact by (auto with sof || lia).
      intros (i & Hi & ->); rewrite length_replicate in Ha'.
      apply (Ha' (Z.to_nat i)); [lia | rewrite Z2Nat.id by lia; done].
  - replace (s_free s <? n) with true by (symmetry; apply Z.ltb_lt; lia); done.
Qed.

(** ** Refinement of a bounded byte queue

    The accesses a component makes: it stores bytes through
    [audio_stream_write_frag] one index at a time and commits them with one
    [audio_stream_produce]; it loads bytes through [audio_stream_read_frag] and
    commits with one [audio_stream_consume]. *)

Fixpoint write_frags (m : mem) (s : audio_stream) (idx : Z) (d : list Z) : option mem :=
  match d with
  | [] => Some m
  | x :: d =>
      p ← audio_stream_get_frag s (s_w_ptr s) idx 1;
      write_frags (fun a => if a =? p then x else m a) s (idx + 1) d
  end.

Fixpoint read_frags (m : mem) (s : audio_stream) (idx : Z) (n : nat) : option (list Z) :=
  match n with
  | O => Some []
  | S n =>
      p ← audio_stream_get_frag s (s_r_ptr s) idx 1;
      d ← read_frags m s (idx + 1) n;
      Some (m p :: d)
  end.

Inductive stream_op := Put (d : list Z) | Get (n : nat).

Definition exec_op (ms : mem * audio_stream) (o : stream_op) :
    option (list Z * (mem * audio_stream)) :=
  let '(m, s) := ms in
  match o with
  | Put d =>
      m ← write_frags m s 0 d;
      s ← audio_stream_produce s (Z.of_nat (length d));
      Some ([], (m, s))
  | Get n =>
      d ← read_frags m s 0 n;
      s ← audio_stream_consume s (Z.of_nat n);
      Some (d, (m, s))
  end.

(** The specification: a queue of at most [cap] bytes. *)
Definition queue_op (cap : nat) (q : list Z) (o : stream_op) : option (list Z * list Z) :=
  match o with
  | Put d =>
      if decide (0 < length d)%nat then
        if decide (length q + length d <= cap)%nat then Some ([], q ++ d) else None
      else None
  | Get n =>
      if decide (0 < n)%nat then
        if decide (n <= length q)%nat then Some (take n q, drop n q) else None
      else None
  end.

(** Runs of a list of operations, collecting what each one returns. *)
Fixpoint run_ops {A} (step : A -> stream_op -> option (list Z * A)) (a : A)
    (ops : list stream_op) : option (list (list Z) * A) :=
  match ops with
  | [] => Some ([], a)
  | o :: ops =>
      '(d, a) ← step a o;
      '(ds, a) ← run_ops step a ops;
      Some (d :: ds, a)
  end.

Lemma get_frag_ring s p idx :
  stream_geom s -> in_ring s p -> 0 <= idx <= s_size s ->
  audio_stream_get_frag s p idx 1 = Some (ring s p idx).
Proof.
  intros; unfold audio_stream_get_frag; rewrite Z.mul_1_r.
  apply audio_stream_wrap_ring; auto.
Qed.

Lemma write_frags_shift m s k d :
  stream_wf s -> 0 <= k -> k + Z.of_nat (length d) <= s_size s ->
  exists m', write_frags m s k d = Some m' /\
    (forall i x, d !! i = Some x -> m' (ring s (s_w_ptr s) (k + Z.of_nat i)) = x) /\
    (forall a, (forall i, (i < length d)%nat -> a <> ring s (s_w_ptr s) (k + Z.of_nat i)) ->
       m' a = m a).
Proof.
  intros W; pose proof (wf_geom s W) as G.
  revert m k; induction d as [|x d IH]; intros m k Hk Hd; cbn in *.
  - exists m; split; [done|]; split; [intros i x Hx; done | done].
  - rewrite get_frag_ring by (auto with sof || lia); cbn.
    destruct (IH (fun a => if a =? ring s (s_w_ptr s) k then x else m a) (k + 1))
      as (m' & Hm' & Hin & Hout); [lia | lia |].
    exists m'; split; [done|]; split.
    + intros [|i] y Hy; cbn in Hy.
      * injection Hy as <-; rewrite Z.add_0_r, Hout, Z.eqb_refl; [done|].
        intros i Hi Heq; apply ring_inj in Heq; [lia | done | lia | lia].
      * rewrite <- (Hin i y Hy); do 2 f_equal; lia.
    + intros a Ha; rewrite Hout.
      * case_if; [|done]; exfalso; apply (Ha 0%nat); [lia|].
        rewrite Z.add_0_r; done.
      * intros i Hi ->; apply (Ha (S i)); [lia | f_equal; lia].
Qed.

Lemma write_frags_written m s d :
  stream_wf s -> Z.of_nat (length d) <= s_size s ->
  exists m', write_frags m s 0 d = Some m' /\ ring_written m m' s (s_w_ptr s) d.
Proof.
  intros W Hd; destruct (write_frags_shift m s 0 d) as (m' & Hm & Hin & Hout);
    [done | lia | lia |].
  exists m'; split; [done | split].
  - intros i x Hx; apply (Hin i x Hx).
  - intros a Ha; apply Hout; intros i Hi; apply Ha, Hi.
Qed.

Lemma read_frags_shift m s k n :
  stream_wf s -> 0 <= k -> k + Z.of_nat n <= s_avail s ->
  read_frags m s k n = Some (take n (drop (Z.to_nat k) (contents m s))).
Proof.
  intros W; pose proof (wf_geom s W) as G; pose proof (wf_avail s W).
  revert k; induction n as [|n IH]; intros k Hk Hn; cbn; [done|].
  rewrite get_frag_ring by (auto with sof || lia); cbn.
  rewrite IH by lia; cbn.
  erewrite (drop_S (contents m s) _ (Z.to_nat k)) by (apply contents_lookup; lia).
  cbn; rewrite Z2Nat.id by lia.
  do 3 f_equal; f_equal; lia.
Qed.

(** One operation: the stream does what the queue does. *)
Lemma exec_op_refines m s o out q' :
  stream_wf s ->
  queue_op (Z.to_nat (s_size s)) (contents m s) o = Some (out, q') ->
  exists m' s', exec_op (m, s) o = Some (out, (m', s')) /\
    stream_wf s' /\ s_size s' = s_size s /\ contents m' s' = q'.
Proof.
  intros W; pose proof W as [G Hr Ha Hf Hw]; destruct o as [d|n]; cbn;
    repeat case_decide; intros [= <- <-]; rewrite contents_length in *.
  - destruct (write_frags_written m s d W) as (m' & Hm & Hwr); [lia|].
    destruct (produce_appends m m' s d W Hwr) as (s' & Hs & Hwf & Hc); [lia | lia |].
    exists m', s'; rewrite Hm; cbn; rewrite Hs; cbn; split_and!; try done.
    rewrite audio_stream_produce_ok in Hs by (done || lia); injection Hs as <-; done.
  - rewrite read_frags_shift by (done || lia); cbn; rewrite drop_0.
    destruct (consume_drops m s (Z.of_nat n) W) as (s' & Hs & Hwf & Hc); [lia|].
    exists m, s'; rewrite Hs; cbn; split_and!; try done.
    + rewrite audio_stream_consume_ok in Hs by (done || lia); injection Hs as <-; done.
    + rewrite Hc, Nat2Z.id; done.
Qed.

#[local] Arguments exec_op : simpl never.
#[local] Arguments queue_op : simpl never.

(** ** Properties *)

(** C1: a stream refines a bounded byte queue. Any sequence of writes and reads
    that a queue of [size] bytes admits runs on the stream without a panic,
    returns the same bytes, and ends in a well-formed stream that holds the
    queue's bytes. *)
Theorem stream_refines_queue (ops : list stream_op) (m : mem) (s : audio_stream)
    (outs : list (list Z)) (q' : list Z) :
  stream_wf s ->
  run_ops (queue_op (Z.to_nat (s_size s))) (contents m s) ops = Some (outs, q') ->
  exists m' s', run_ops exec_op (m, s) ops = Some (outs, (m', s')) /\
    stream_wf s' /\ contents m' s' = q'.
Proof.
  revert m s outs; induction ops as [|o ops IH]; intros m s outs W; cbn.
  - intros [= <- <-]; eauto.
  - destruct (queue_op _ _ o) as [[d q1]|] eqn:Ho; cbn; [|done].
    destruct (exec_op_refines m s o d q1 W Ho) as (m1 & s1 & He & W1 & Hsz & <-).
    rewrite He; cbn; rewrite <- Hsz.
    destruct (run_ops _ (contents m1 s1) ops) as [[ds q2]|] eqn:Hr; cbn; [|done].
    intros [= <- <-]; destruct (IH m1 s1 ds W1 Hr) as (m2 & s2 & -> & ? & ?); cbn; eauto.
Qed.

(** A twelve byte stream whose pointers are about to wrap. *)
Definition demo_stream : audio_stream :=
  mk_stream 12 2 10 1011 1009 1000 1012 SOF_IPC_FRAME_S16_LE 0 48000 2 false false.

Lemma demo_stream_wf : stream_wf demo_stream.
Proof. constructor; [constructor | | | |]; cbn; unfold in_ring; cbn; lia || reflexivity. Qed.

Lemma stream_refines_queue_witness :
  exists m' s', run_ops exec_op (fun a => a - 1009, demo_stream)
    [Put [7; 8; 9]; Get 4; Put [5]] = Some ([[]; [0; 1; 7; 8]; []], (m', s')) /\
    stream_wf s' /\ contents m' s' = [9; 5].
Proof.
  apply stream_refines_queue; [apply demo_stream_wf | vm_compute; reflexivity].
Defined.

(** overrun discards the oldest bytes. Writing more than fits in a stream
    that does not permit overrun leaves it full with the most recent [size]
    bytes of the old queue followed by the new bytes. *)
Theorem overrun_keeps_newest (m m' : mem) (s : audio_stream) (d : list Z) :
  stream_wf s -> s_overrun_permitted s = false ->
  ring_written m m' s (s_w_ptr s) d ->
  s_free s < Z.of_nat (length d) <= s_size s ->
  exists s', audio_stream_produce s (Z.of_nat (length d)) = Some s' /\ stream_wf s' /\
    contents m' s' =
      drop (length (contents m s ++ d) - Z.to_nat (s_size s)) (contents m s ++ d).
Proof.
  intros W Ho Hm Hd; pose proof W as [G Hr Ha Hf Hw].
  eexists; split; [apply audio_stream_produce_overrun; [done | left; done | done]|].
  split; [apply set_ptrs_full; auto with sof|].
  apply list_eq_lookup_lt; rewrite length_drop, length_app, !contents_length; cbn; [lia|].
  intros i Hi; rewrite lookup_drop, contents_lookup by (cbn; lia).
  rewrite (written_lookup m m' s d) by (auto; lia); cbn.
  do 2 f_equal; change (ring (set_ptrs _ _ _ _ _)) with (ring s).
  rewrite Hw, !ring_ring.
  etransitivity; [|apply ring_period, G]; f_equal; lia.
Qed.

Lemma overrun_keeps_newest_witness :
  exists s', audio_stream_produce
      (mk_stream 4 3 1 1003 1000 1000 1004 0 0 48000 1 false false) 2 = Some s' /\
    stream_wf s' /\ contents (fun a => if a =? 1003 then 51 else if a =? 1000 then 52 else a) s'
      = [1001; 1002; 51; 52].
Proof.
  pose (m := (fun a => a) : mem).
  pose (m' := (fun a => if a =? 1003 then 51 else if a =? 1000 then 52 else a) : mem).
  pose (s := mk_stream 4 3 1 1003 1000 1000 1004 0 0 48000 1 false false).
  destruct (overrun_keeps_newest m m' s [51; 52]) as (s' & Hs & W & Hc).
  - constructor; [constructor | | | |]; cbn; unfold in_ring; cbn; lia || reflexivity.
  - reflexivity.
  - split.
    + intros [|[|i]] x Hx; cbn in Hx; [injection Hx as <-; reflexivity ..|].
      discriminate.
    + intros a Ha; unfold m', m.
      pose proof (Ha 0%nat ltac:(cbn; lia)) as H0; pose proof (Ha 1%nat ltac:(cbn; lia)) as H1.
      vm_compute in H0, H1; repeat case_if; lia.
  - cbn; lia.
  - exists s'; split; [exact Hs | split; [exact W | exact Hc]].
Defined.
