(* ===== verification/StreamCopy.v ===== *)
(** * Copies between streams and linear memory ([src/audio/component.c])

    [audio_stream_copy], [audio_stream_copy_from_linear] and
    [audio_stream_copy_to_linear] with their [while (bytes)] loops, and
    [comp_get_copy_limits]. A loop iteration copies the longest run that wraps
    neither stream, so it runs at most [bytes + 1] times: one extra iteration
    covers a start pointer at the very end of the ring. *)

From stdpp Require Import base list numbers option.
From S2P Require Import Prelude AudioStream.

Fixpoint copy_loop (fuel : nat) (source sink : audio_stream) (m : mem)
    (src snk bytes : Z) : option mem :=
  if bytes =? 0 then Some m else
  match fuel with
  | O => None
  | S fuel =>
      bytes_src ← audio_stream_bytes_without_wrap source src;
      bytes_snk ← audio_stream_bytes_without_wrap sink snk;
      let bytes_copied := Z.min bytes_src bytes_snk in
      let bytes_copied := Z.min bytes bytes_copied in
      let m := memcpy m snk src bytes_copied in
      src ← audio_stream_wrap source (src + bytes_copied);
      snk ← audio_stream_wrap sink (snk + bytes_copied);
      copy_loop fuel source sink m src snk (bytes - bytes_copied)
  end.

(** Result: the memory and the number of samples, [None] for a failed
    assertion. *)
Definition audio_stream_copy (m : mem) (source : audio_stream) (ioffset : Z)
    (sink : audio_stream) (ooffset samples : Z) : option (mem * Z) :=
  let ssize := audio_stream_sample_bytes source in
  src ← audio_stream_wrap source (s_r_ptr source + u32 (ioffset * ssize));
  snk ← audio_stream_wrap sink (s_w_ptr sink + u32 (ooffset * ssize));
  let bytes := u32 (samples * ssize) in
  m ← copy_loop (S (Z.to_nat bytes)) source sink m src snk bytes;
  Some (m, i32 samples).

Fixpoint copy_from_linear_loop (fuel : nat) (sink : audio_stream) (m : mem)
    (src snk bytes : Z) : option mem :=
  if bytes =? 0 then Some m else
  match fuel with
  | O => None
  | S fuel =>
      bytes_snk ← audio_stream_bytes_without_wrap sink snk;
      let bytes_copied := Z.min bytes bytes_snk in
      let m := memcpy m snk src bytes_copied in
      snk ← audio_stream_wrap sink (snk + bytes_copied);
      copy_from_linear_loop fuel sink m (src + bytes_copied) snk (bytes - bytes_copied)
  end.

Definition audio_stream_copy_from_linear (m : mem) (linear_source ioffset : Z)
    (sink : audio_stream) (ooffset samples : Z) : option mem :=
  let ssize := audio_stream_sample_bytes sink in
  let src := linear_source + i32 (ioffset * ssize) in
  snk ← audio_stream_wrap sink (s_w_ptr sink + i32 (ooffset * ssize));
  let bytes := u32 (samples * ssize) in
  copy_from_linear_loop (S (Z.to_nat bytes)) sink m src snk bytes.

Fixpoint copy_to_linear_loop (fuel : nat) (source : audio_stream) (m : mem)
    (src snk bytes : Z) : option mem :=
  if bytes =? 0 then Some m else
  match fuel with
  | O => None
  | S fuel =>
      bytes_src ← audio_stream_bytes_without_wrap source src;
      let bytes_copied := Z.min bytes bytes_src in
      let m := memcpy m snk src bytes_copied in
      src ← audio_stream_wrap source (src + bytes_copied);
      copy_to_linear_loop fuel source m src (snk + bytes_copied) (bytes - bytes_copied)
  end.

Definition audio_stream_copy_to_linear (m : mem) (source : audio_stream)
    (ioffset linear_sink ooffset samples : Z) : option mem :=
  let ssize := audio_stream_sample_bytes source in
  src ← audio_stream_wrap source (s_r_ptr source + i32 (ioffset * ssize));
  let snk := linear_sink + i32 (ooffset * ssize) in
  let bytes := u32 (samples * ssize) in
  copy_to_linear_loop (S (Z.to_nat bytes)) source m src snk bytes.

Record comp_copy_limits := mk_limits {
  cl_frames : Z;
  cl_source_bytes : Z;
  cl_sink_bytes : Z;
  cl_source_frame_bytes : Z;
  cl_sink_frame_bytes : Z
}.

Definition comp_get_copy_limits (source sink : audio_stream) : comp_copy_limits :=
  let frames := i32 (audio_stream_avail_frames source sink) in
  let source_frame_bytes := i32 (audio_stream_frame_bytes source) in
  let sink_frame_bytes := i32 (audio_stream_frame_bytes sink) in
  mk_limits frames (i32 (frames * source_frame_bytes)) (i32 (frames * sink_frame_bytes))
    source_frame_bytes sink_frame_bytes.

(** ** The loops *)

Definition disjoint_rings (a b : audio_stream) : Prop :=
  s_end_addr a <= s_addr b \/ s_end_addr b <= s_addr a.

(** [n] bytes have been moved from position [p] of one ring to position [q] of
    another, and no other byte changed. *)
Definition ring_moved (source sink : audio_stream) (m m' : mem) (p q n : Z) : Prop :=
  (forall i, 0 <= i < n -> m' (ring sink q i) = m (ring source p i)) /\
  (forall a, (forall i, 0 <= i < n -> a <> ring sink q i) -> m' a = m a).

(** Moving [c] bytes contiguously and then the rest moves them all. *)
Lemma ring_moved_step source sink m m' p q n c :
  stream_geom source -> stream_geom sink -> disjoint_rings source sink ->
  in_ring source p -> in_ring sink q -> 0 <= c <= n -> n <= s_size sink ->
  p + c <= s_end_addr source -> q + c <= s_end_addr sink ->
  ring_moved source sink (memcpy m q p c) m' (ring source p c) (ring sink q c) (n - c) ->
  ring_moved source sink m m' p q n.
Proof.
  intros Gs Gk Hdis Hp Hq Hc Hn Hpc Hqc [Hin Hout]; split.
  - intros i Hi; destruct (decide (i < c)).
    + rewrite Hout.
      * rewrite !ring_linear by (done || lia); apply memcpy_in; lia.
      * intros j Hj; rewrite ring_ring; intros Heq.
        apply ring_inj in Heq; [lia | done | lia | lia].
    + specialize (Hin (i - c)); rewrite !ring_ring in Hin.
      replace (c + (i - c)) with i in Hin by lia.
      rewrite Hin by lia; apply memcpy_out.
      pose proof (ring_in source p i Gs) as Hri; unfold in_ring, disjoint_rings in *; lia.
  - intros a Ha; rewrite Hout.
    + unfold memcpy; case_if; [|done].
      exfalso; apply (Ha (a - q)); [lia|].
      rewrite ring_linear by (done || lia); lia.
    + intros j Hj; rewrite ring_ring; apply Ha; lia.
Qed.

Lemma copy_loop_ok fuel source sink m p q n :
  stream_geom source -> stream_geom sink -> disjoint_rings source sink ->
  in_ring source p -> in_ring sink q -> 0 <= n <= s_size sink ->
  (Z.to_nat n <= fuel)%nat ->
  exists m', copy_loop fuel source sink m p q n = Some m' /\
    ring_moved source sink m m' p q n.
Proof.
  intros Gs Gk Hdis; revert m p q n; induction fuel as [|fuel IH];
    intros m p q n Hp Hq Hn Hf.
  - cbn; assert (n = 0) as -> by lia; cbn; exists m.
    split; [done | split; [intros; lia | done]].
  - cbn; case_if; [subst n; exists m; split; [done | split; [intros; lia | done]]|].
    rewrite !bytes_without_wrap_ok by done; cbn.
    set (c := Z.min n (Z.min (s_end_addr source - p) (s_end_addr sink - q))).
    assert (Hc : 0 < c <= n /\ p + c <= s_end_addr source /\ q + c <= s_end_addr sink)
      by (unfold c, in_ring in *; lia).
    pose proof Gs as [? ? ? ? ?]; pose proof Gk as [? ? ? ? ?].
    rewrite !audio_stream_wrap_ring by (done || unfold in_ring in *; lia); cbn.
    destruct (IH (memcpy m q p c) (ring source p c) (ring sink q c) (n - c))
      as (m' & -> & Hm); [auto with sof | auto with sof | lia | lia |].
    exists m'; split; [done|].
    apply (ring_moved_step source sink m m' p q n c); auto; lia.
Qed.

Lemma ring_moved_written source sink m m' n :
  stream_wf source -> 0 <= n <= s_avail source ->
  ring_moved source sink m m' (s_r_ptr source) (s_w_ptr sink) n ->
  ring_written m m' sink (s_w_ptr sink) (take (Z.to_nat n) (contents m source)).
Proof.
  intros W Hn [Hin Hout]; pose proof (contents_length m source) as Hl; split.
  - intros i x Hx.
    assert (Hi : (i < Z.to_nat n)%nat).
    { apply lookup_lt_Some in Hx; rewrite length_take in Hx; lia. }
    rewrite lookup_take_lt, contents_lookup in Hx by lia.
    injection Hx as <-; apply Hin; lia.
  - intros a Ha; apply Hout; intros i Hi.
    specialize (Ha (Z.to_nat i)); rewrite length_take, Z2Nat.id in Ha by lia.
    apply Ha; lia.
Qed.

(** A write on another ring does not change what a stream holds. *)
Lemma contents_frame source sink m m' q d :
  stream_wf source -> stream_geom sink -> disjoint_rings source sink ->
  ring_written m m' sink q d -> contents m' source = contents m source.
Proof.
  intros W Gk Hdis [_ Hout]; unfold contents; apply list_fmap_ext.
  intros j i _; apply Hout; intros k _ Heq.
  pose proof (ring_in sink q (Z.of_nat k) Gk).
  pose proof (ring_in source (s_r_ptr source) (Z.of_nat i) (wf_geom _ W)).
  unfold in_ring, disjoint_rings in *; lia.
Qed.

(** a component that copies [samples] samples with [audio_stream_copy] and
    commits them on both sides moves exactly those bytes, in order, from the
    front of the source queue to the back of the sink queue. The copy loop
    terminates and no assertion fails. *)
Theorem copy_moves_queue (m : mem) (source sink : audio_stream) (samples : Z) :
  stream_wf source -> stream_wf sink -> disjoint_rings source sink ->
  let bytes := samples * audio_stream_sample_bytes source in
  0 < samples -> bytes <= s_avail source -> bytes <= s_free sink ->
  exists m' source' sink',
    audio_stream_copy m source 0 sink 0 samples = Some (m', samples) /\
    audio_stream_produce sink bytes = Some sink' /\
    audio_stream_consume source bytes = Some source' /\
    stream_wf source' /\ stream_wf sink' /\
    contents m' sink' = contents m sink ++ take (Z.to_nat bytes) (contents m source) /\
    contents m' source' = drop (Z.to_nat bytes) (contents m source).
Proof.
  intros Ws Wk Hdis bytes H0 Ha Hf.
  assert (Hbytes : bytes = samples * audio_stream_sample_bytes source) by done.
  clearbody bytes.
  assert (Hss : 2 <= audio_stream_sample_bytes source <= 4).
  { unfold audio_stream_sample_bytes, get_sample_bytes; repeat case_if; lia. }
  pose proof Ws as [Gs ? Hav ? ?]; pose proof Wk as [Gk ? Hkv Hkf ?].
  pose proof Gs as [? ? ? ? ?]; pose proof Gk as [? ? ? ? ?].
  assert (Hb : 0 < bytes) by nia.
  assert (Hsb : samples <= bytes) by nia.
  destruct (copy_loop_ok (S (Z.to_nat bytes)) source sink m (s_r_ptr source)
    (s_w_ptr sink) bytes) as (m' & Hl & Hmv); try sof.
  pose proof (ring_moved_written source sink m m' bytes Ws ltac:(lia) Hmv) as Hwr.
  pose proof (contents_length m source) as Hlen.
  destruct (produce_appends m m' sink _ Wk Hwr) as (sink' & Hp & Wk' & Hck);
    rewrite ?length_take; [lia | lia |].
  destruct (consume_drops m' source bytes Ws) as (source' & Hc & Ws' & Hcs); [lia|].
  exists m', source', sink'.
  rewrite length_take, Hlen, Nat.min_l, Z2Nat.id in Hp by lia.
  rewrite (contents_frame source sink m m' _ _ Ws Gk Hdis Hwr) in Hcs.
  split_and!; auto.
  unfold audio_stream_copy; rewrite !Z.mul_0_l, !(u32_small 0), !Z.add_0_r by lia.
  rewrite <- (Z.add_0_r (s_r_ptr source)), <- (Z.add_0_r (s_w_ptr sink)).
  rewrite !audio_stream_wrap_ring by (auto with sof || lia); cbn [mbind option_bind].
  rewrite !ring_0 by auto with sof; rewrite <- Hbytes.
  rewrite (u32_small bytes), Hl by lia; cbn; rewrite i32_small; [done | lia].
Qed.

Definition demo_sink : audio_stream :=
  mk_stream 8 3 5 2001 2006 2000 2008 SOF_IPC_FRAME_S16_LE 0 48000 2 false false.

Lemma demo_sink_wf : stream_wf demo_sink.
Proof. constructor; [constructor | | | |]; cbn; unfold in_ring; cbn; lia || reflexivity. Qed.

Lemma copy_moves_queue_witness :
  exists m' source' sink',
    audio_stream_copy (fun a => a) demo_stream 0 demo_sink 0 1 = Some (m', 1) /\
    audio_stream_produce demo_sink 2 = Some sink' /\
    audio_stream_consume demo_stream 2 = Some source' /\
    stream_wf source' /\ stream_wf sink' /\
    contents m' sink' = [2006; 2007; 2000; 1009; 1010] /\
    contents m' source' = [].
Proof.
  apply (copy_moves_queue (fun a => a) demo_stream demo_sink 1);
    [apply demo_stream_wf | apply demo_sink_wf | left; cbn; lia | cbn; lia ..].
Defined.

(** ** Linear memory *)

(** The [n] bytes of memory from address [a]. *)
Definition linear (m : mem) (a : Z) (n : nat) : list Z :=
  (fun i => m (a + Z.of_nat i)) <$> seq 0 n.

Lemma linear_lookup m a n i :
  (i < n)%nat -> linear m a n !! i = Some (m (a + Z.of_nat i)).
Proof. intros; unfold linear; rewrite list_lookup_fmap, lookup_seq_lt; done. Qed.

Lemma linear_length m a n : length (linear m a n) = n.
Proof. unfold linear; rewrite length_fmap, length_seq; done. Qed.

(** The [n] bytes from [a] lie outside the ring of [s]. *)
Definition off_ring (s : audio_stream) (a n : Z) : Prop :=
  a + n <= s_addr s \/ s_end_addr s <= a.

Lemma copy_from_linear_loop_ok fuel sink m p q n :
  stream_geom sink -> off_ring sink p n -> in_ring sink q -> 0 <= n <= s_size sink ->
  (Z.to_nat n <= fuel)%nat ->
  exists m', copy_from_linear_loop fuel sink m p q n = Some m' /\
    (forall i, 0 <= i < n -> m' (ring sink q i) = m (p + i)) /\
    (forall a, (forall i, 0 <= i < n -> a <> ring sink q i) -> m' a = m a).
Proof.
  intros Gk; pose proof Gk as [? ? ? ? ?].
  revert m p q n; induction fuel as [|fuel IH]; intros m p q n Hp Hq Hn Hf.
  - cbn; assert (n = 0) as -> by lia; cbn; exists m; split_and!; [done | lia | done].
  - cbn; case_if; [subst n; exists m; split_and!; [done | lia | done]|].
    rewrite bytes_without_wrap_ok by done; cbn.
    set (c := Z.min n (s_end_addr sink - q)).
    assert (Hc : 0 < c <= n /\ q + c <= s_end_addr sink) by (unfold c, in_ring in *; lia).
    clearbody c.
    rewrite audio_stream_wrap_ring by (done || unfold in_ring in *; lia); cbn.
    destruct (IH (memcpy m q p c) (p + c) (ring sink q c) (n - c))
      as (m' & -> & Hin & Hout); [unfold off_ring in *; lia | sof | lia | lia |].
    exists m'; split; [done|]; split.
    + intros i Hi; destruct (decide (i < c)).
      * rewrite Hout.
        -- rewrite ring_linear by (done || lia); apply memcpy_in; lia.
        -- intros j Hj; rewrite ring_ring; intros Heq.
           apply ring_inj in Heq; [lia | done | lia | lia].
      * specialize (Hin (i - c)); rewrite ring_ring in Hin.
        replace (c + (i - c)) with i in Hin by lia.
        rewrite Hin by lia; replace (p + c + (i - c)) with (p + i) by lia.
        apply memcpy_out; unfold off_ring, in_ring in *; lia.
    + intros a Ha; rewrite Hout.
      * unfold memcpy; case_if; [|done]; exfalso; apply (Ha (a - q)); [lia|].
        rewrite ring_linear by (done || lia); lia.
      * intros j Hj; rewrite ring_ring; apply Ha; lia.
Qed.

Lemma copy_to_linear_loop_ok fuel source m p q n :
  stream_geom source -> in_ring source p -> off_ring source q n -> 0 <= n ->
  (Z.to_nat n <= fuel)%nat ->
  exists m', copy_to_linear_loop fuel source m p q n = Some m' /\
    (forall i, 0 <= i < n -> m' (q + i) = m (ring source p i)) /\
    (forall a, a < q \/ q + n <= a -> m' a = m a).
Proof.
  intros Gs; pose proof Gs as [? ? ? ? ?].
  revert m p q n; induction fuel as [|fuel IH]; intros m p q n Hp Hq Hn Hf.
  - cbn; assert (n = 0) as -> by lia; cbn; exists m; split_and!; [done | lia | done].
  - cbn; case_if; [subst n; exists m; split_and!; [done | lia | done]|].
    rewrite bytes_without_wrap_ok by done; cbn.
    set (c := Z.min n (s_end_addr source - p)).
    assert (Hc : 0 < c <= n /\ p + c <= s_end_addr source) by (unfold c, in_ring in *; lia).
    clearbody c.
    rewrite audio_stream_wrap_ring by (done || unfold in_ring in *; lia); cbn.
    destruct (IH (memcpy m q p c) (ring source p c) (q + c) (n - c))
      as (m' & -> & Hin & Hout); [sof | unfold off_ring in *; lia | lia | lia |].
    exists m'; split; [done|]; split.
    + intros i Hi; destruct (decide (i < c)).
      * rewrite Hout, memcpy_in, ring_linear by (done || lia); done.
      * specialize (Hin (i - c)); rewrite ring_ring in Hin.
        replace (c + (i - c)) with i in Hin by lia.
        replace (q + i) with (q + c + (i - c)) by lia; rewrite Hin by lia.
        apply memcpy_out; pose proof (ring_in source p i Gs).
        unfold off_ring, in_ring in *; lia.
    + intros a Ha; rewrite Hout, memcpy_out by lia; done.
Qed.

Lemma sample_bytes_pos s : 2 <= audio_stream_sample_bytes s <= 4.
Proof. unfold audio_stream_sample_bytes, get_sample_bytes; repeat case_if; lia. Qed.

Lemma wrap_start s p :
  stream_geom s -> in_ring s p -> audio_stream_wrap s (p + i32 0) = Some p.
Proof.
  intros G Hp; rewrite i32_small by lia.
  pose proof (geom_size _ G); rewrite audio_stream_wrap_ring by sof.
  rewrite ring_0; done.
Qed.

Lemma from_linear_appends m s samples A bytes :
  stream_wf s -> bytes = samples * audio_stream_sample_bytes s ->
  0 < samples -> bytes <= s_free s -> off_ring s A bytes ->
  exists m', audio_stream_copy_from_linear m A 0 s 0 samples = Some m' /\
    ring_written m m' s (s_w_ptr s) (linear m A (Z.to_nat bytes)).
Proof.
  intros W Hb H0 Hf HA; pose proof (sample_bytes_pos s) as Hss.
  pose proof W as [G ? ? ? ?]; pose proof G as [? ? ? ? ?].
  assert (0 < bytes) by nia.
  unfold audio_stream_copy_from_linear; rewrite !Z.mul_0_l.
  rewrite wrap_start by sof; cbn [mbind option_bind].
  rewrite <- Hb, u32_small by lia; rewrite (i32_small 0), Z.add_0_r by lia.
  destruct (copy_from_linear_loop_ok (S (Z.to_nat bytes)) s m A (s_w_ptr s) bytes)
    as (m' & -> & Hin & Hout); try sof.
  exists m'; split; [done|]; split.
  - intros i x Hx; pose proof (lookup_lt_Some _ _ _ Hx) as Hi.
    rewrite linear_length in Hi; rewrite linear_lookup in Hx by done.
    injection Hx as <-; apply Hin; lia.
  - intros a Ha; apply Hout; intros i Hi; specialize (Ha (Z.to_nat i)).
    rewrite linear_length, Z2Nat.id in Ha by lia; apply Ha; lia.
Qed.

Lemma to_linear_takes m s samples B bytes :
  stream_wf s -> bytes = samples * audio_stream_sample_bytes s ->
  0 < samples -> bytes <= s_avail s -> off_ring s B bytes ->
  exists m', audio_stream_copy_to_linear m s 0 B 0 samples = Some m' /\
    linear m' B (Z.to_nat bytes) = take (Z.to_nat bytes) (contents m s) /\
    (forall a, a < B \/ B + bytes <= a -> m' a = m a).
Proof.
  intros W Hb H0 Hf HB; pose proof (sample_bytes_pos s) as Hss.
  pose proof W as [G ? ? ? ?]; pose proof G as [? ? ? ? ?].
  assert (0 < bytes) by nia.
  unfold audio_stream_copy_to_linear; rewrite !Z.mul_0_l.
  rewrite wrap_start by sof; cbn [mbind option_bind].
  rewrite <- Hb, u32_small by lia; rewrite (i32_small 0), Z.add_0_r by lia.
  destruct (copy_to_linear_loop_ok (S (Z.to_nat bytes)) s m (s_r_ptr s) B bytes)
    as (m' & -> & Hin & Hout); try sof.
  exists m'; split; [done|]; split; [|done].
  apply list_eq_lookup_lt; rewrite ?length_take, ?contents_length, ?linear_length; [lia|].
  intros i Hi; rewrite linear_lookup, lookup_take_lt, contents_lookup by lia.
  f_equal; apply Hin; lia.
Qed.

(** samples copied from linear memory into an empty stream, committed, and
    copied out to linear memory arrive unchanged, wherever the ring wraps. *)
Theorem linear_roundtrip (m : mem) (s : audio_stream) (samples A B : Z) :
  stream_wf s -> s_avail s = 0 -> 0 < samples ->
  let bytes := samples * audio_stream_sample_bytes s in
  bytes <= s_size s -> off_ring s A bytes -> off_ring s B bytes ->
  exists m1 s1 m2,
    audio_stream_copy_from_linear m A 0 s 0 samples = Some m1 /\
    audio_stream_produce s bytes = Some s1 /\
    audio_stream_copy_to_linear m1 s1 0 B 0 samples = Some m2 /\
    linear m2 B (Z.to_nat bytes) = linear m A (Z.to_nat bytes).
Proof.
  intros W He H0 bytes Hb HA HB.
  assert (Hbytes : bytes = samples * audio_stream_sample_bytes s) by done.
  clearbody bytes; pose proof (sample_bytes_pos s).
  assert (0 < bytes) by nia; pose proof (wf_free _ W).
  destruct (from_linear_appends m s samples A bytes W Hbytes) as (m1 & Hm1 & Hwr); try sof.
  destruct (produce_appends m m1 s _ W Hwr) as (s1 & Hs1 & W1 & Hc1);
    rewrite ?linear_length; [lia | lia |].
  rewrite linear_length, Z2Nat.id in Hs1 by lia.
  pose proof Hs1 as Hs1'; rewrite audio_stream_produce_ok in Hs1' by (done || lia).
  injection Hs1' as Hs1'.
  destruct (to_linear_takes m1 s1 samples B bytes W1) as (m2 & Hm2 & Hl & _);
    [subst s1; done | lia | subst s1; cbn; lia | subst s1; done |].
  exists m1, s1, m2; split_and!; [done | done | done |].
  rewrite Hl, Hc1; unfold contents at 1; rewrite He; cbn.
  apply take_ge; rewrite linear_length; done.
Qed.

Lemma linear_roundtrip_witness :
  exists m1 s1 m2,
    audio_stream_copy_from_linear (fun a => a mod 256) 64 0
      (mk_stream 8 0 8 2005 2005 2000 2008 2 0 48000 1 false false) 0 1 = Some m1 /\
    audio_stream_produce (mk_stream 8 0 8 2005 2005 2000 2008 2 0 48000 1 false false) 4
      = Some s1 /\
    audio_stream_copy_to_linear m1 s1 0 3000 0 1 = Some m2 /\
    linear m2 3000 4 = [64; 65; 66; 67].
Proof.
  apply (linear_roundtrip (fun a => a mod 256)
    (mk_stream 8 0 8 2005 2005 2000 2008 2 0 48000 1 false false) 1 64 3000).
  - constructor; [constructor | | | |]; cbn; unfold in_ring; cbn; lia || reflexivity.
  - reflexivity.
  - lia.
  - cbn; lia.
  - left; cbn; lia.
  - right; cbn; lia.
Defined.

(** ** Copy limits *)

Lemma frame_bytes_small s :
  0 < s_channels s < 2 ^ 16 ->
  0 < audio_stream_frame_bytes s < 2 ^ 18 /\
  audio_stream_frame_bytes s = audio_stream_sample_bytes s * s_channels s.
Proof.
  intros Hc; pose proof (sample_bytes_pos s) as Hss; unfold audio_stream_sample_bytes in *.
  unfold audio_stream_frame_bytes, get_frame_bytes.
  rewrite u32_small by nia; nia.
Qed.

Lemma avail_bytes_range s :
  stream_wf s -> 0 <= audio_stream_get_avail_bytes s <= s_size s.
Proof.
  intros W; pose proof (wf_avail _ W); pose proof (geom_size _ (wf_geom _ W)).
  unfold audio_stream_get_avail_bytes; repeat case_if; lia.
Qed.

Lemma free_bytes_range s :
  stream_wf s -> 0 <= audio_stream_get_free_bytes s <= s_size s.
Proof.
  intros W; pose proof (wf_avail _ W); pose proof (wf_free _ W).
  pose proof (geom_size _ (wf_geom _ W)).
  unfold audio_stream_get_free_bytes; repeat case_if; lia.
Qed.

Lemma size_small s : stream_wf s -> s_size s < 2 ^ 31.
Proof. intros [[? ? ? ? ?] ? ? ? ?]; lia. Qed.

(** the limits computed by [comp_get_copy_limits] do not overflow, fit in
    what the source reports available and the sink reports free, and are the
    largest whole number of frames that fits. *)
Theorem copy_limits_maximal (source sink : audio_stream) :
  stream_wf source -> stream_wf sink ->
  0 < s_channels source < 2 ^ 16 -> 0 < s_channels sink < 2 ^ 16 ->
  let cl := comp_get_copy_limits source sink in
  let avail := audio_stream_get_avail_bytes source in
  let free := audio_stream_get_free_bytes sink in
  0 <= cl_frames cl /\
  cl_source_bytes cl = cl_frames cl * audio_stream_frame_bytes source /\
  cl_sink_bytes cl = cl_frames cl * audio_stream_frame_bytes sink /\
  cl_source_bytes cl <= avail /\ cl_sink_bytes cl <= free /\
  (avail < (cl_frames cl + 1) * audio_stream_frame_bytes source \/
   free < (cl_frames cl + 1) * audio_stream_frame_bytes sink).
Proof.
  intros Ws Wk Hcs Hck; cbn zeta; unfold comp_get_copy_limits; cbn.
  unfold audio_stream_avail_frames, audio_stream_get_avail_frames,
    audio_stream_get_free_frames.
  pose proof (avail_bytes_range _ Ws) as Ha; pose proof (free_bytes_range _ Wk) as Hf.
  pose proof (size_small _ Ws); pose proof (size_small _ Wk).
  destruct (frame_bytes_small _ Hcs) as [Hs _]; destruct (frame_bytes_small _ Hck) as [Hk _].
  set (a := audio_stream_get_avail_bytes source) in *.
  set (f := audio_stream_get_free_bytes sink) in *.
  set (bs := audio_stream_frame_bytes source) in *.
  set (bk := audio_stream_frame_bytes sink) in *; clearbody a f bs bk.
  rewrite (i32_small bs), (i32_small bk) by lia.
  pose proof (Z.div_mod a bs ltac:(lia)); pose proof (Z.mod_pos_bound a bs ltac:(lia)).
  pose proof (Z.div_mod f bk ltac:(lia)); pose proof (Z.mod_pos_bound f bk ltac:(lia)).
  assert (0 <= a / bs) by (apply Z.div_pos; lia).
  assert (0 <= f / bk) by (apply Z.div_pos; lia).
  case_if; rewrite (i32_small (_ / _)), !i32_small by nia; split_and!; try nia.
Qed.

Lemma copy_limits_maximal_witness :
  let cl := comp_get_copy_limits demo_stream demo_sink in
  0 <= cl_frames cl /\ cl_source_bytes cl = cl_frames cl * 4 /\
  cl_sink_bytes cl = cl_frames cl * 4 /\
  cl_source_bytes cl <= 2 /\ cl_sink_bytes cl <= 5 /\
  (2 < (cl_frames cl + 1) * 4 \/ 5 < (cl_frames cl + 1) * 4).
Proof.
  apply (copy_limits_maximal demo_stream demo_sink);
    [apply demo_stream_wf | apply demo_sink_wf | cbn; lia | cbn; lia].
Defined.
