(* ===== verification/Heap.v ===== *)
(** * The firmware heap: definitions ([src/lib/alloc.c], [include/sof/lib/mm_heap.h])

    A heap is an array of block maps; a block map is an array of equally sized
    blocks with one header each. The map array of a heap is the list [hp_map]
    (its C length [blocks] is the length of the list), the header array of a
    map is the list [bm_block], whose C length [count] is kept as a field
    because the code computes with it.

    [None] is [panic()], or an access outside one of the two arrays; the null
    pointer is [0]. Spin locks and trace output are left out, as is the
    [CONFIG_DEBUG_BLOCK_FREE] pattern code. What the platform headers choose is
    the record [platform]. *)

From stdpp Require Import base list numbers option.
From S2P Require Import Prelude.

Record block_hdr := mk_hdr {
  h_size : Z;
  h_used : Z;
  h_unaligned_ptr : Z
}.

Record block_map := mk_map {
  bm_block_size : Z;
  bm_count : Z;
  bm_free_count : Z;
  bm_first_free : Z;
  bm_block : list block_hdr;
  bm_base : Z
}.

Record mm_info := mk_info {
  i_used : Z;
  i_free : Z
}.

Record mm_heap := mk_heap {
  hp_map : list block_map;
  hp_heap : Z;
  hp_size : Z;
  hp_caps : Z;
  hp_info : mm_info
}.

Record mm := mk_mm {
  mm_system : list mm_heap;
  mm_system_runtime : list mm_heap;
  mm_system_shared : list mm_heap;
  mm_runtime_shared : list mm_heap;
  mm_runtime : list mm_heap;
  mm_buffer : list mm_heap;
  mm_heap_trace_updated : Z
}.

(** The macros of [platform/lib/memory.h], the configuration and the running
    core. *)
Record platform := mk_platform {
  PLATFORM_DCACHE_ALIGN : Z;
  multi_core : bool;
  uncache_to_cache : Z -> Z;
  cache_to_uncache : Z -> Z;
  is_uncached : Z -> bool;
  platform_rfree_prepare : Z -> Z;
  cpu_get_id : nat
}.

Abbreviation PLATFORM_PRIMARY_CORE_ID := 0%nat (only parsing).

Abbreviation SOF_MEM_ZONE_SYS := 0 (only parsing).
Abbreviation SOF_MEM_ZONE_SYS_RUNTIME := 1 (only parsing).
Abbreviation SOF_MEM_ZONE_RUNTIME := 2 (only parsing).
Abbreviation SOF_MEM_ZONE_BUFFER := 3 (only parsing).
Abbreviation SOF_MEM_ZONE_RUNTIME_SHARED := 4 (only parsing).
Abbreviation SOF_MEM_ZONE_SYS_SHARED := 5 (only parsing).

Abbreviation SOF_MEM_FLAG_NO_COPY := 2 (only parsing).
Abbreviation SOF_MEM_FLAG_COHERENT := 4 (only parsing).

Abbreviation SOF_MEM_CAPS_RAM := 1 (only parsing).
Abbreviation SOF_MEM_CAPS_DMA := 32 (only parsing).
Abbreviation SOF_MEM_CAPS_CACHE := 64 (only parsing).

Definition is_power_of_2 (x : Z) : bool :=
  negb (x =? 0) && (Z.land x (x - 1) =? 0).

Definition ALIGN_UP (val align : Z) : option Z :=
  if is_power_of_2 align
  then Some (Z.land (u32 (val + align - 1)) (u32 (Z.lnot (align - 1))))
  else None.

Definition set_level (h : mm_heap) (level : nat) (m : block_map) (info : mm_info) : mm_heap :=
  mk_heap (<[level := m]> (hp_map h)) (hp_heap h) (hp_size h) (hp_caps h) info.

(** [sizeof(struct block_map)], [sizeof(struct block_hdr)] and
    [sizeof(struct mm_heap)] on a 32-bit target. *)
Definition block_get_size (map : block_map) : Z :=
  u32 (16 + bm_count map * (bm_block_size map + 8)).

Definition heap_get_size (heap : mm_heap) : Z :=
  foldl (fun size map => u32 (size + block_get_size map)) 28 (hp_map heap).

Definition set_base (m : block_map) (base : Z) : block_map :=
  mk_map (bm_block_size m) (bm_count m) (bm_free_count m) (bm_first_free m) (bm_block m) base.

(** The inner loop of [init_heap_map]: [map[j]]'s base follows [map[j-1]]. *)
Fixpoint init_bases (base : Z) (maps : list block_map) : list block_map :=
  match maps with
  | [] => []
  | m :: maps => set_base m base :: init_bases (u32 (base + bm_block_size m * bm_count m)) maps
  end.

Definition init_heap_map (heaps : list mm_heap) : list mm_heap :=
  (fun h => mk_heap (init_bases (hp_heap h) (hp_map h)) (hp_heap h) (hp_size h)
     (hp_caps h) (hp_info h)) <$> heaps.

(** ** System heap: a bump allocator *)

Definition rmalloc_sys (pl : platform) (heap : mm_heap) (flags caps bytes : Z) :
    option (mm_heap * Z) :=
  if negb (Z.land (hp_caps heap) caps =? caps) then None else
  let used := i_used (hp_info heap) in
  let rest := used mod PLATFORM_DCACHE_ALIGN pl in
  let alignment := if negb (rest =? 0) then PLATFORM_DCACHE_ALIGN pl - rest else 0 in
  if u32 (alignment + bytes) >? i_free (hp_info heap) then None else
  let used := u32 (used + alignment) in
  let ptr := u32 (hp_heap heap + used) in
  Some (mk_heap (hp_map heap) (hp_heap heap) (hp_size heap) (hp_caps heap)
          (mk_info (u32 (used + bytes)) (u32 (i_free (hp_info heap) - u32 (alignment + bytes)))),
        ptr).

(** ** Block allocation *)

(** The pointer [align_ptr] returns; the caller stores the unaligned pointer in
    the block header, as the C function does through [hdr]. *)
Definition align_ptr (alignment ptr : Z) : option Z :=
  if alignment <=? 1 then Some ptr else ALIGN_UP ptr alignment.

(** The index of the first header that is not in use, counted from [i]. *)
Fixpoint find_unused (hs : list block_hdr) (i : Z) : option Z :=
  match hs with
  | [] => None
  | h :: hs => if h_used h =? 0 then Some i else find_unused hs (i + 1)
  end.

(** The headers of [map] from index [i] to the end of the map. *)
Definition hdrs_from (block : list block_hdr) (count i : Z) : list block_hdr :=
  drop (Z.to_nat i) (take (Z.to_nat count) block).

Definition alloc_block_index (heap : mm_heap) (level : nat) (alignment index : Z) :
    option (mm_heap * Z) :=
  map ← hp_map heap !! level;
  let index := if index <? 0 then bm_first_free map else index in
  let free_count := u16 (bm_free_count map - 1) in
  _ ← bm_block map !! Z.to_nat index;
  let unaligned := u32 (bm_base map + index * bm_block_size map) in
  ptr ← align_ptr alignment unaligned;
  let block := <[Z.to_nat index := mk_hdr 1 1 unaligned]> (bm_block map) in
  let info := mk_info (u32 (i_used (hp_info heap) + bm_block_size map))
                      (u32 (i_free (hp_info heap) - bm_block_size map)) in
  let first_free :=
    if index =? bm_first_free map then
      default (bm_first_free map)
        (find_unused (hdrs_from block (bm_count map) (bm_first_free map)) (bm_first_free map))
    else bm_first_free map in
  Some (set_level heap level
          (mk_map (bm_block_size map) (bm_count map) free_count first_free block (bm_base map))
          info, ptr).

Definition alloc_block (heap : mm_heap) (level : nat) (caps alignment : Z) :
    option (mm_heap * Z) :=
  alloc_block_index heap level alignment (-1).

(** ** Contiguous blocks *)

(** The local variables of the search loop of [alloc_cont_blocks]. *)
Record cont_scan := mk_scan {
  cs_found : Z;
  cs_count : Z;
  cs_total : Z;
  cs_start : Z;
  cs_blk_start : Z;
  cs_aligned : Z
}.

(** One iteration of the search loop for the block [current] with header
    [hdr]. *)
Definition cont_body (map : block_map) (bytes alignment current : Z) (hdr : block_hdr)
    (st : cont_scan) : option cont_scan :=
  if negb (h_used hdr =? 0) then
    Some (mk_scan 0 0 bytes (cs_start st) (cs_blk_start st) (cs_aligned st))
  else if cs_found st =? 0 then
    let blk_start := u32 (bm_base map + current * bm_block_size map) in
    if negb (alignment =? 0) then
      aligned ← ALIGN_UP blk_start alignment;
      if negb (Z.land blk_start (alignment - 1) =? 0) &&
         (aligned >=? u32 (blk_start + bm_block_size map))
      then Some (mk_scan (cs_found st) (cs_count st) (cs_total st) current blk_start aligned)
      else Some (mk_scan (u32 (cs_found st + bm_block_size map)) (cs_count st + 1)
                   (u32 (cs_total st + (aligned - blk_start))) current blk_start aligned)
    else Some (mk_scan (u32 (cs_found st + bm_block_size map)) (cs_count st + 1)
                 (cs_total st) current blk_start blk_start)
  else Some (mk_scan (u32 (cs_found st + bm_block_size map)) (cs_count st + 1)
               (cs_total st) (cs_start st) (cs_blk_start st) (cs_aligned st)).

Fixpoint cont_loop (map : block_map) (bytes alignment current : Z) (hs : list block_hdr)
    (st : cont_scan) : option cont_scan :=
  match hs with
  | [] => Some st
  | h :: hs =>
      if cs_found st <? cs_total st then
        st ← cont_body map bytes alignment current h st;
        cont_loop map bytes alignment (current + 1) hs st
      else Some st
  end.

(** The length of the longest prefix of headers in use. *)
Fixpoint used_prefix (hs : list block_hdr) : Z :=
  match hs with
  | [] => 0
  | h :: hs => if negb (h_used h =? 0) then 1 + used_prefix hs else 0
  end.

Definition mark_used (ptr : Z) (h : block_hdr) : block_hdr := mk_hdr (h_size h) 1 ptr.

(** [f] applied to the headers [start .. start + count - 1]. *)
Definition map_range (f : block_hdr -> block_hdr) (start count : nat)
    (block : list block_hdr) : list block_hdr :=
  take start block ++ (f <$> take count (drop start block)) ++ drop (start + count) block.

Definition alloc_cont_blocks (heap : mm_heap) (level : nat) (caps bytes alignment : Z) :
    option (mm_heap * Z) :=
  map ← hp_map heap !! level;
  if u32 ((bm_count map - bm_first_free map) * bm_block_size map) <? bytes
  then Some (heap, 0) else
  st ← cont_loop map bytes alignment (bm_first_free map)
         (hdrs_from (bm_block map) (bm_count map) (bm_first_free map))
         (mk_scan 0 0 bytes 0 0 0);
  if cs_found st <? cs_total st then Some (heap, 0) else
  let start := cs_start st in
  let count := cs_count st in
  hdr ← bm_block map !! Z.to_nat start;
  let block := <[Z.to_nat start :=
                   mk_hdr (u16 count) (h_used hdr) (h_unaligned_ptr hdr)]> (bm_block map) in
  let info := mk_info (u32 (i_used (hp_info heap) + count * bm_block_size map))
                      (u32 (i_free (hp_info heap) - count * bm_block_size map)) in
  let first_free :=
    if bm_first_free map =? start then
      u16 (bm_first_free map + count +
           used_prefix (hdrs_from block (bm_count map) (bm_first_free map + count)))
    else bm_first_free map in
  let block := map_range (mark_used (cs_blk_start st)) (Z.to_nat start) (Z.to_nat count) block in
  Some (set_level heap level
          (mk_map (bm_block_size map) (bm_count map) (u16 (bm_free_count map - count))
             first_free block (bm_base map)) info,
        cs_aligned st).

(** ** Finding heaps *)

(** The functions below return the index of the heap in the array they
    search. *)
Fixpoint find_in_heap_arr (heaps : list mm_heap) (i : nat) (ptr : Z) : option nat :=
  match heaps with
  | [] => None
  | h :: hs =>
      if (ptr >=? hp_heap h) && (ptr <? u32 (hp_heap h + hp_size h))
      then Some i else find_in_heap_arr hs (S i) ptr
  end.

Fixpoint get_heap_from_caps (heaps : list mm_heap) (i : nat) (caps : Z) : option nat :=
  match heaps with
  | [] => None
  | h :: hs =>
      if Z.land (hp_caps h) caps =? caps then Some i else get_heap_from_caps hs (S i) caps
  end.

(** Which array of [struct mm] a heap is in. *)
Inductive heap_array := SystemRuntime | Runtime | RuntimeShared | Buffer.

Definition get_array (memmap : mm) (a : heap_array) : list mm_heap :=
  match a with
  | SystemRuntime => mm_system_runtime memmap
  | Runtime => mm_runtime memmap
  | RuntimeShared => mm_runtime_shared memmap
  | Buffer => mm_buffer memmap
  end.

Definition set_array (memmap : mm) (a : heap_array) (hs : list mm_heap) : mm :=
  let '(mk_mm sys srt ssh rsh rt buf tr) := memmap in
  match a with
  | SystemRuntime => mk_mm sys hs ssh rsh rt buf tr
  | Runtime => mk_mm sys srt ssh rsh hs buf tr
  | RuntimeShared => mk_mm sys srt ssh hs rt buf tr
  | Buffer => mk_mm sys srt ssh rsh rt hs tr
  end.

Definition get_heap_from_ptr (pl : platform) (memmap : mm) (ptr : Z) :
    option (heap_array * nat) :=
  let core := cpu_get_id pl in
  match find_in_heap_arr (take 1 (drop core (mm_system_runtime memmap))) core ptr with
  | Some i => Some (SystemRuntime, i)
  | None =>
  match find_in_heap_arr (mm_runtime memmap) 0 ptr with
  | Some i => Some (Runtime, i)
  | None =>
  match (if multi_core pl then find_in_heap_arr (mm_runtime_shared memmap) 0 ptr else None) with
  | Some i => Some (RuntimeShared, i)
  | None =>
  match find_in_heap_arr (mm_buffer memmap) 0 ptr with
  | Some i => Some (Buffer, i)
  | None => None
  end end end end.

(** ** Allocation of one block *)

(** The loop of [get_ptr_from_heap] over the levels still to be tried.
    [temp_bytes] is an [int] that equals [bytes] at the start of every
    iteration, since both [continue] statements reset it. *)
Fixpoint get_ptr_loop (heap : mm_heap) (caps bytes alignment : Z) (levels : list nat) :
    option (mm_heap * Z) :=
  match levels with
  | [] => Some (heap, 0)
  | i :: levels =>
      map ← hp_map heap !! i;
      let temp_bytes := i32 bytes in
      let temp_bytes :=
        if negb (alignment =? 0) &&
           negb (u32 (bm_base map + bm_block_size map * bm_first_free map) mod alignment =? 0)
        then i32 (u32 (temp_bytes + alignment)) else temp_bytes in
      if bm_block_size map <? temp_bytes then get_ptr_loop heap caps bytes alignment levels
      else if bm_free_count map =? 0 then get_ptr_loop heap caps bytes alignment levels
      else alloc_block heap i caps alignment
  end.

Definition get_ptr_from_heap (heap : mm_heap) (flags caps bytes alignment : Z) :
    option (mm_heap * Z) :=
  if negb (Z.land alignment (alignment - 1) =? 0) then None
  else get_ptr_loop heap caps bytes alignment (seq 0 (length (hp_map heap))).

(** ** Freeing *)

(** The index of the first map of [maps], counted from [i], whose end lies
    after [ptr]. *)
Fixpoint find_map (maps : list block_map) (i : nat) (ptr : Z) : option nat :=
  match maps with
  | [] => None
  | m :: ms =>
      if ptr <? u32 (bm_base m + bm_block_size m * bm_count m)
      then Some i else find_map ms (S i) ptr
  end.

Definition free_hdr : block_hdr := mk_hdr 0 0 0.

(** The body of [free_block] once the heap and the map of [free_ptr] are
    known. The loop over [block .. used_blocks - 1] is [map_range] on the
    headers and [hdr->size] increments on the counters. *)
Definition free_in_map (heap : mm_heap) (level : nat) (block_map : block_map) (free_ptr : Z) :
    option mm_heap :=
  let block := u32 (free_ptr - bm_base block_map) `div` bm_block_size block_map in
  hdr ← bm_block block_map !! Z.to_nat block;
  let redirect := negb (h_unaligned_ptr hdr =? free_ptr) && negb (h_unaligned_ptr hdr =? 0) in
  let free_ptr := if redirect then h_unaligned_ptr hdr else free_ptr in
  let block :=
    if redirect then u32 (free_ptr - bm_base block_map) `div` bm_block_size block_map
    else block in
  hdr ← bm_block block_map !! Z.to_nat block;
  if negb (u32 (bm_base block_map + bm_block_size block_map * block) =? free_ptr) then None else
  let heap_is_full := bm_free_count block_map =? 0 in
  if Z.of_nat (length (bm_block block_map)) <? block + h_size hdr then None else
  let size := h_size hdr in
  let blocks := map_range (fun _ => free_hdr) (Z.to_nat block) (Z.to_nat size)
                  (bm_block block_map) in
  let info := mk_info (u32 (i_used (hp_info heap) - size * bm_block_size block_map))
                      (u32 (i_free (hp_info heap) + size * bm_block_size block_map)) in
  let first_free :=
    if (block <? bm_first_free block_map) || heap_is_full
    then u16 block else bm_first_free block_map in
  Some (set_level heap level
          (mk_map (bm_block_size block_map) (bm_count block_map)
             (u16 (bm_free_count block_map + size)) first_free blocks (bm_base block_map)) info).

(** Freeing inside the heap found for [free_ptr]; a pointer past the last map
    is reported and ignored. *)
Definition free_in_heap (heap : mm_heap) (free_ptr : Z) : option mm_heap :=
  match find_map (hp_map heap) 0 free_ptr with
  | None => Some heap
  | Some level => map ← hp_map heap !! level; free_in_map heap level map free_ptr
  end.

(** [heap[i]] of array [a] updated by [f]. *)
Definition update_heap (memmap : mm) (a : heap_array) (i : nat)
    (f : mm_heap -> option mm_heap) : option mm :=
  h ← get_array memmap a !! i;
  h' ← f h;
  Some (set_array memmap a (<[i := h']> (get_array memmap a))).

Definition free_block (pl : platform) (memmap : mm) (ptr : Z) : option mm :=
  let cached_ptr := uncache_to_cache pl ptr in
  let uncached_ptr := cache_to_uncache pl ptr in
  match get_heap_from_ptr pl memmap cached_ptr with
  | Some (a, i) => update_heap memmap a i (fun h => free_in_heap h cached_ptr)
  | None =>
      match get_heap_from_ptr pl memmap uncached_ptr with
      | Some (a, i) => update_heap memmap a i (fun h => free_in_heap h uncached_ptr)
      | None => Some memmap
      end
  end.

Definition set_trace_updated (memmap : mm) : mm :=
  mk_mm (mm_system memmap) (mm_system_runtime memmap) (mm_system_shared memmap)
    (mm_runtime_shared memmap) (mm_runtime memmap) (mm_buffer memmap) 1.

(** The system heap a freed pointer is checked against. *)
Definition rfree_sys_heap (pl : platform) (memmap : mm) (ptr : Z) : option mm_heap :=
  if multi_core pl then
    if is_uncached pl ptr then mm_system_shared memmap !! 0%nat
    else mm_system memmap !! cpu_get_id pl
  else mm_system memmap !! 0%nat.

Definition rfree (pl : platform) (memmap : mm) (ptr : Z) : option mm :=
  if ptr =? 0 then Some memmap else
  let ptr := platform_rfree_prepare pl ptr in
  heap ← rfree_sys_heap pl memmap ptr;
  if (ptr >=? hp_heap heap) && (ptr <? u32 (hp_heap heap + hp_size heap)) then None else
  set_trace_updated <$> free_block pl memmap ptr.

(** ** Zones *)

(** Runs an allocating function on [heap[i]] of array [a]. *)
Definition alloc_in (memmap : mm) (a : heap_array) (i : nat)
    (f : mm_heap -> option (mm_heap * Z)) : option (mm * Z) :=
  h ← get_array memmap a !! i;
  r ← f h;
  Some (set_array memmap a (<[i := r.1]> (get_array memmap a)), r.2).

Definition rmalloc_sys_runtime (pl : platform) (memmap : mm) (flags caps : Z) (core : nat)
    (bytes : Z) : option (mm * Z) :=
  h ← mm_system_runtime memmap !! core;
  if negb (Z.land (hp_caps h) caps =? caps) then None else
  alloc_in memmap SystemRuntime core (fun h =>
    get_ptr_from_heap h flags caps bytes (PLATFORM_DCACHE_ALIGN pl)).

Definition rmalloc_runtime (pl : platform) (memmap : mm) (flags caps bytes : Z) :
    option (mm * Z) :=
  let get h := get_ptr_from_heap h flags caps bytes (PLATFORM_DCACHE_ALIGN pl) in
  match get_heap_from_caps (mm_runtime memmap) 0 caps with
  | Some i => alloc_in memmap Runtime i get
  | None =>
      match get_heap_from_caps (mm_buffer memmap) 0 caps with
      | Some i => alloc_in memmap Buffer i get
      | None => Some (memmap, 0)
      end
  end.

Definition rmalloc_runtime_shared (pl : platform) (memmap : mm) (flags caps bytes : Z) :
    option (mm * Z) :=
  match get_heap_from_caps (mm_runtime_shared memmap) 0 caps with
  | Some i => alloc_in memmap RuntimeShared i (fun h =>
                get_ptr_from_heap h flags caps bytes (PLATFORM_DCACHE_ALIGN pl))
  | None => Some (memmap, 0)
  end.

Definition set_system (memmap : mm) (hs : list mm_heap) : mm :=
  mk_mm hs (mm_system_runtime memmap) (mm_system_shared memmap) (mm_runtime_shared memmap)
    (mm_runtime memmap) (mm_buffer memmap) (mm_heap_trace_updated memmap).

Definition set_system_shared (memmap : mm) (hs : list mm_heap) : mm :=
  mk_mm (mm_system memmap) (mm_system_runtime memmap) hs (mm_runtime_shared memmap)
    (mm_runtime memmap) (mm_buffer memmap) (mm_heap_trace_updated memmap).

(** [rmalloc_sys] on [memmap->system + core]. *)
Definition sys_alloc (pl : platform) (memmap : mm) (core : nat) (flags caps bytes : Z) :
    option (mm * Z) :=
  h ← mm_system memmap !! core;
  r ← rmalloc_sys pl h flags caps bytes;
  Some (set_system memmap (<[core := r.1]> (mm_system memmap)), r.2).

(** [rmalloc_sys] on [memmap->system_shared]. *)
Definition sys_shared_alloc (pl : platform) (memmap : mm) (flags caps bytes : Z) :
    option (mm * Z) :=
  h ← mm_system_shared memmap !! 0%nat;
  r ← rmalloc_sys pl h flags caps bytes;
  Some (set_system_shared memmap (<[0%nat := r.1]> (mm_system_shared memmap)), r.2).

Definition malloc_unlocked (pl : platform) (memmap : mm) (zone flags caps bytes : Z) :
    option (mm * Z) :=
  r ← (if zone =? SOF_MEM_ZONE_SYS then sys_alloc pl memmap (cpu_get_id pl) flags caps bytes
       else if zone =? SOF_MEM_ZONE_SYS_RUNTIME then
         rmalloc_sys_runtime pl memmap flags caps (cpu_get_id pl) bytes
       else if zone =? SOF_MEM_ZONE_RUNTIME then rmalloc_runtime pl memmap flags caps bytes
       else if zone =? SOF_MEM_ZONE_RUNTIME_SHARED then
         if multi_core pl then rmalloc_runtime_shared pl memmap flags caps bytes
         else rmalloc_runtime pl memmap flags caps bytes
       else if zone =? SOF_MEM_ZONE_SYS_SHARED then
         if multi_core pl then sys_shared_alloc pl memmap flags caps bytes
         else sys_alloc pl memmap 0 flags caps bytes
       else None);
  Some (set_trace_updated r.1, r.2).

Definition rmalloc := malloc_unlocked.

Definition rzalloc (pl : platform) (memmap : mm) (m : mem) (zone flags caps bytes : Z) :
    option (mm * mem * Z) :=
  r ← rmalloc pl memmap zone flags caps bytes;
  Some (r.1, if r.2 =? 0 then m else memset m r.2 0 bytes, r.2).

Definition rzalloc_core_sys (pl : platform) (memmap : mm) (m : mem) (core : nat) (bytes : Z) :
    option (mm * mem * Z) :=
  r ← sys_alloc pl memmap core 0 0 bytes;
  Some (r.1, if r.2 =? 0 then m else memset m r.2 0 bytes, r.2).

(** ** Buffers *)

(** The scan of [alloc_heap_buffer] over the headers [j], [j + 1], ... of one
    map for a free block that holds [bytes] aligned bytes: the index found.
    [None] is the panic of [ALIGN_UP]. *)
Fixpoint single_scan (map : block_map) (bytes alignment j free_start : Z)
    (hs : list block_hdr) : option (option Z) :=
  match hs with
  | [] => Some None
  | h :: hs =>
      let next := single_scan map bytes alignment (j + 1) (u32 (free_start + bm_block_size map)) hs in
      if negb (h_used h =? 0) then next else
      aligned ← ALIGN_UP free_start alignment;
      if u32 (aligned + bytes) >? u32 (free_start + bm_block_size map) then next
      else Some (Some j)
  end.

(** "will request fit in single block" *)
Fixpoint single_loop (heap : mm_heap) (caps bytes alignment : Z) (levels : list nat) :
    option (mm_heap * Z) :=
  match levels with
  | [] => Some (heap, 0)
  | i :: levels =>
      map ← hp_map heap !! i;
      if (bm_block_size map <? bytes) || (bm_free_count map =? 0) then
        single_loop heap caps bytes alignment levels
      else if alignment <=? 1 then alloc_block heap i caps alignment
      else
        found ← single_scan map bytes alignment (bm_first_free map)
                  (u32 (bm_base map + bm_block_size map * bm_first_free map))
                  (hdrs_from (bm_block map) (bm_count map) (bm_first_free map));
        match found with
        | None => single_loop heap caps bytes alignment levels
        | Some j =>
            r ← alloc_block_index heap i alignment j;
            if negb (r.2 =? 0) then Some r else single_loop r.1 caps bytes alignment levels
        end
  end.

(** "request spans > 1 block" *)
Fixpoint cont_levels (heap : mm_heap) (caps bytes alignment : Z) (levels : list nat) :
    option (mm_heap * Z) :=
  match levels with
  | [] => Some (heap, 0)
  | i :: levels =>
      map ← hp_map heap !! i;
      if bm_block_size map <? bytes then
        r ← alloc_cont_blocks heap i caps bytes alignment;
        if negb (r.2 =? 0) then Some r else cont_levels r.1 caps bytes alignment levels
      else cont_levels heap caps bytes alignment levels
  end.

Definition alloc_heap_buffer (heap : mm_heap) (flags caps bytes alignment : Z) :
    option (mm_heap * Z) :=
  if negb (Z.land alignment (alignment - 1) =? 0) then None else
  r ← single_loop heap caps bytes alignment (seq 0 (length (hp_map heap)));
  if negb (r.2 =? 0) then Some r else
  let heap := r.1 in
  let bytes := u32 (bytes + alignment) in
  if hp_size heap <? bytes then Some (heap, 0)
  else cont_levels heap caps bytes alignment (reverse (seq 0 (length (hp_map heap)))).

(** The loop of [_balloc_unlocked] over the buffer heaps from index [i]; [n] is
    the number of heaps left. *)
Fixpoint balloc_loop (memmap : mm) (flags caps bytes alignment : Z) (n i : nat) :
    option (mm * Z) :=
  match n with
  | O => Some (memmap, 0)
  | S n =>
      match get_heap_from_caps (drop i (mm_buffer memmap)) i caps with
      | None => Some (memmap, 0)
      | Some k =>
          r ← alloc_in memmap Buffer k (fun h => alloc_heap_buffer h flags caps bytes alignment);
          if negb (r.2 =? 0) then Some r
          else balloc_loop r.1 flags caps bytes alignment n (S k)
      end
  end.

Definition balloc_unlocked (pl : platform) (memmap : mm) (flags caps bytes alignment : Z) :
    option (mm * Z) :=
  r ← balloc_loop memmap flags caps bytes alignment (length (mm_buffer memmap)) 0;
  let ptr := r.2 in
  if ptr =? 0 then Some r else
  Some (r.1, if negb (Z.land flags SOF_MEM_FLAG_COHERENT =? 0) && multi_core pl
             then cache_to_uncache pl ptr else uncache_to_cache pl ptr).

Definition rballoc_align := balloc_unlocked.

Definition rbrealloc_align (pl : platform) (memmap : mm) (m : mem)
    (ptr flags caps bytes old_bytes alignment : Z) : option (mm * mem * Z) :=
  let copy_bytes := Z.min bytes old_bytes in
  if bytes =? 0 then Some (memmap, m, 0) else
  r ← balloc_unlocked pl memmap flags caps bytes alignment;
  let new_ptr := r.2 in
  let m :=
    if negb (new_ptr =? 0) && negb (ptr =? 0) && (Z.land flags SOF_MEM_FLAG_NO_COPY =? 0)
    then (memcpy_s m new_ptr copy_bytes ptr copy_bytes).1 else m in
  if negb (new_ptr =? 0) then
    memmap ← rfree pl r.1 ptr;
    Some (memmap, m, new_ptr)
  else Some (r.1, m, new_ptr).

(** ** Whole heaps *)

Definition free_heap (pl : platform) (memmap : mm) (zone : Z) : option mm :=
  if (cpu_get_id pl =? PLATFORM_PRIMARY_CORE_ID)%nat || negb (zone =? SOF_MEM_ZONE_SYS)
  then None else
  h ← mm_system memmap !! cpu_get_id pl;
  Some (set_system memmap (<[cpu_get_id pl :=
    mk_heap (hp_map h) (hp_heap h) (hp_size h) (hp_caps h) (mk_info 0 (hp_size h))]>
    (mm_system memmap))).

Definition init_heap (pl : platform) (system_heap_start : Z) (memmap : mm) : option mm :=
  h ← mm_system memmap !! 0%nat;
  if negb (hp_heap h =? system_heap_start) then None else
  Some (mk_mm (mm_system memmap) (init_heap_map (mm_system_runtime memmap))
          (mm_system_shared memmap)
          (if multi_core pl then init_heap_map (mm_runtime_shared memmap)
           else mm_runtime_shared memmap)
          (init_heap_map (mm_runtime memmap)) (init_heap_map (mm_buffer memmap))
          (mm_heap_trace_updated memmap)).

(** [*out] and the return value; [out] is not null. *)
Definition heap_info (pl : platform) (memmap : mm) (zone : Z) (index : nat) :
    option mm_info * Z :=
  let heaps :=
    if zone =? SOF_MEM_ZONE_SYS then mm_system memmap
    else if zone =? SOF_MEM_ZONE_SYS_RUNTIME then mm_system_runtime memmap
    else if zone =? SOF_MEM_ZONE_RUNTIME then mm_runtime memmap
    else if zone =? SOF_MEM_ZONE_BUFFER then mm_buffer memmap
    else if multi_core pl && (zone =? SOF_MEM_ZONE_SYS_SHARED) then mm_system_shared memmap
    else if multi_core pl && (zone =? SOF_MEM_ZONE_RUNTIME_SHARED) then mm_runtime_shared memmap
    else [] in
  match heaps !! index with
  | Some heap => (Some (hp_info heap), 0)
  | None => (None, - EINVAL)
  end.
