(* ===== verification/HeapMap.v ===== *)
(** * Block maps as sequences of segments

    The abstraction of one block map of [Heap]: the header array is the layout
    of a list of segments, each a free block or an allocated group of
    consecutive blocks. The file proves what the header updates of
    [alloc_block_index], [alloc_cont_blocks] and [free_block] do to the segment
    list. *)

From stdpp Require Import base list numbers option.
From S2P Require Import Prelude Heap.

(** [Used k] is a group of [k + 1] blocks. *)
Inductive seg := Free | Used (k : nat).

Definition seg_len (s : seg) : nat := match s with Free => 1 | Used k => S k end.

Fixpoint segs_len (segs : list seg) : nat :=
  match segs with [] => 0 | s :: segs => seg_len s + segs_len segs end.

Fixpoint segs_free (segs : list seg) : nat :=
  match segs with
  | [] => 0
  | Free :: segs => S (segs_free segs)
  | Used _ :: segs => segs_free segs
  end.

Definition seg_hdrs (base bs : Z) (i : nat) (s : seg) : list block_hdr :=
  match s with
  | Free => [free_hdr]
  | Used k => mk_hdr (Z.of_nat (S k)) 1 (base + Z.of_nat i * bs) ::
                replicate k (mk_hdr 0 1 (base + Z.of_nat i * bs))
  end.

Fixpoint layout (base bs : Z) (i : nat) (segs : list seg) : list block_hdr :=
  match segs with
  | [] => []
  | s :: segs => seg_hdrs base bs i s ++ layout base bs (i + seg_len s) segs
  end.

(** The address ranges (start, bytes) of the allocated groups. *)
Fixpoint regions (base bs : Z) (i : nat) (segs : list seg) : list (Z * Z) :=
  match segs with
  | [] => []
  | Free :: segs => regions base bs (S i) segs
  | Used k :: segs =>
      (base + Z.of_nat i * bs, Z.of_nat (S k) * bs) :: regions base bs (i + S k) segs
  end.

(** [first_free] is the first free block; when the map is full it is any
    position of the map, or its end. *)
Inductive first_free_ok (segs : list seg) (i : Z) : Prop :=
| first_free_full : segs_free segs = 0%nat -> 0 <= i <= Z.of_nat (segs_len segs) ->
    first_free_ok segs i
| first_free_at pre post : segs = pre ++ Free :: post -> segs_free pre = 0%nat ->
    i = Z.of_nat (segs_len pre) -> first_free_ok segs i.

Record map_wf (m : block_map) (segs : list seg) : Prop := {
  mw_block : bm_block m = layout (bm_base m) (bm_block_size m) 0 segs;
  mw_count : bm_count m = Z.of_nat (segs_len segs);
  mw_count_u16 : bm_count m < 2^16;
  mw_bs : 0 < bm_block_size m < 2^16;
  mw_base : 0 < bm_base m;
  mw_end : bm_base m + bm_block_size m * bm_count m < 2^32;
  mw_free : bm_free_count m = Z.of_nat (segs_free segs);
  mw_first : first_free_ok segs (bm_first_free m)
}.

(** ** Segment lists *)

Lemma segs_len_app a b : segs_len (a ++ b) = (segs_len a + segs_len b)%nat.
Proof. induction a; simpl; lia. Qed.

Lemma segs_free_app a b : segs_free (a ++ b) = (segs_free a + segs_free b)%nat.
Proof. induction a as [|[|] a IH]; simpl; lia. Qed.

Lemma segs_len_frees n : segs_len (replicate n Free) = n.
Proof. induction n; simpl; lia. Qed.

Lemma segs_free_frees n : segs_free (replicate n Free) = n.
Proof. induction n; simpl; lia. Qed.

Lemma segs_free_le segs : (segs_free segs <= segs_len segs)%nat.
Proof. induction segs as [|[|] s IH]; simpl; lia. Qed.

Lemma layout_app base bs i a b :
  layout base bs i (a ++ b) = layout base bs i a ++ layout base bs (i + segs_len a) b.
Proof.
  revert i; induction a as [|s a IH]; intros i; simpl.
  - f_equal; lia.
  - rewrite IH, <-app_assoc. do 3 f_equal; lia.
Qed.

Lemma length_layout base bs i segs : length (layout base bs i segs) = segs_len segs.
Proof.
  revert i; induction segs as [|[|k] segs IH]; intros i; simpl; [done|by rewrite IH|].
  by rewrite length_app, length_replicate, IH.
Qed.

Lemma layout_frees base bs i n : layout base bs i (replicate n Free) = replicate n free_hdr.
Proof. revert i; induction n as [|n IH]; intros i; simpl; [done|]; by rewrite IH. Qed.

Lemma regions_app base bs i a b :
  regions base bs i (a ++ b) = regions base bs i a ++ regions base bs (i + segs_len a) b.
Proof.
  revert i; induction a as [|[|k] a IH]; intros i; simpl.
  - f_equal; lia.
  - rewrite IH. do 2 f_equal; lia.
  - rewrite IH. do 3 f_equal; lia.
Qed.

Lemma regions_frees base bs i n : regions base bs i (replicate n Free) = [].
Proof. revert i; induction n as [|n IH]; intros i; simpl; [done|]; apply IH. Qed.

(** A header that is not in use belongs to a free segment. *)
Lemma layout_free_split base bs i segs j h :
  layout base bs i segs !! j = Some h -> h_used h = 0 ->
  exists pre post, segs = pre ++ Free :: post /\ segs_len pre = j.
Proof.
  revert i j; induction segs as [|s segs IH]; intros i j; simpl; [done|].
  intros Hj Hu.
  destruct (decide (j < seg_len s)%nat) as [Hlt|Hge].
  - destruct s as [|k]; simpl in *.
    + exists [], segs. split; [done|simpl; lia].
    + exfalso. destruct j as [|j]; simpl in Hj; simplify_eq/=.
      rewrite lookup_app_l in Hj by (rewrite length_replicate; lia).
      apply lookup_replicate in Hj as [-> _]. done.
  - rewrite lookup_app_r in Hj by (destruct s; simpl in *; rewrite ?length_replicate; lia).
    apply IH in Hj as (pre & post & -> & Hl); [|done].
    exists (s :: pre), post. split; [done|].
    destruct s; simpl in *; rewrite ?length_replicate in Hl; lia.
Qed.

(** The free segment in front is the only segment that starts with a header not
    in use. *)
Lemma layout_head_free base bs i segs h hs :
  layout base bs i segs = h :: hs -> h_used h = 0 ->
  exists post, segs = Free :: post /\ h = free_hdr /\ hs = layout base bs (S i) post.
Proof.
  destruct segs as [|[|k] segs]; simpl; intros [= <- <-]; simpl; [|done].
  intros _. eexists; split_and!; [done..|]. by rewrite Nat.add_1_r.
Qed.

Lemma segs_free_split segs :
  segs_free segs = 0%nat \/
  exists pre post, segs = pre ++ Free :: post /\ segs_free pre = 0%nat.
Proof.
  induction segs as [|[|k] segs IH]; simpl; [by left|right; by exists [], segs|].
  destruct IH as [IH|(pre & post & -> & H)]; [by left|right].
  by exists (Used k :: pre), post.
Qed.

(** A free segment is the first one or comes after it. *)
Lemma first_free_split pre post a b :
  pre ++ Free :: post = a ++ Free :: b -> segs_free pre = 0%nat ->
  (a = pre /\ b = post) \/ exists mid, a = pre ++ Free :: mid /\ post = mid ++ Free :: b.
Proof.
  revert a; induction pre as [|s pre IH]; intros a Heq H; destruct a as [|s' a]; simplify_eq/=.
  - by left.
  - right. by exists a.
  - destruct s'; [done|].
    destruct (IH a) as [[-> ->]|(mid & -> & ->)]; [done..|by left|right; by exists mid].
Qed.

Lemma first_free_ok_free segs i :
  first_free_ok segs i -> segs_free segs <> 0%nat ->
  exists pre post, segs = pre ++ Free :: post /\ segs_free pre = 0%nat /\
    i = Z.of_nat (segs_len pre).
Proof. intros []; [done|eauto 10]. Qed.

Lemma first_free_ok_range segs i :
  first_free_ok segs i -> 0 <= i <= Z.of_nat (segs_len segs).
Proof. intros [? ?|pre post -> ? ->]; [done|rewrite segs_len_app; lia]. Qed.

(** ** Power-of-two alignment *)

Lemma is_power_of_2_spec x :
  0 <= x -> is_power_of_2 x = true -> exists k, 0 <= k /\ x = 2 ^ k.
Proof.
  intros Hx H. unfold is_power_of_2 in H. zbool.
  exists (Z.log2 x). split; [apply Z.log2_nonneg|].
  destruct (Z.log2_spec x) as [Hlo Hhi]; [lia|].
  destruct (Z.eq_dec x (2 ^ Z.log2 x)) as [|Hne]; [done|exfalso].
  assert (Z.log2 (x - 1) = Z.log2 x) as Hlog by (apply Z.log2_unique; [apply Z.log2_nonneg|lia]).
  assert (Z.testbit (Z.land x (x - 1)) (Z.log2 x) = true) as Hbit.
  { rewrite Z.land_spec, Z.bit_log2 by lia. rewrite <-Hlog at 1. rewrite Z.bit_log2; [done|].
    assert (0 < 2 ^ Z.log2 x) by (apply Z.pow_pos_nonneg; [lia|apply Z.log2_nonneg]). lia. }
  rewrite H0, Z.bits_0 in Hbit. done.
Qed.

Lemma land_pow2_mask y k :
  0 <= k -> 0 <= y < 2 ^ 32 -> Z.land y (u32 (Z.lnot (2 ^ k - 1))) = y - y mod 2 ^ k.
Proof.
  intros Hk Hy. unfold u32. rewrite <-Z.land_ones by lia.
  rewrite (Z.land_comm (Z.lnot _)), Z.land_assoc, (Z.land_ones y), (Z.mod_small y) by lia.
  replace (2 ^ k - 1) with (Z.ones k) by (rewrite Z.ones_equiv; lia).
  rewrite <-Z.ldiff_land, Z.ldiff_ones_r, Z.shiftl_mul_pow2, Z.shiftr_div_pow2 by lia.
  pose proof (Z.div_mod y (2 ^ k)). assert (0 < 2 ^ k) by (apply Z.pow_pos_nonneg; lia). lia.
Qed.

(** [ALIGN_UP] is the least multiple of [align] that is not below [val], as long
    as the addition does not wrap. *)
Lemma ALIGN_UP_spec val align :
  0 <= val -> is_power_of_2 align = true -> 0 < align -> val + align - 1 < 2 ^ 32 ->
  exists a, ALIGN_UP val align = Some a /\ (align | a) /\ val <= a < val + align /\
    forall b, (align | b) -> val <= b -> a <= b.
Proof.
  intros Hv Hp Ha Hb. unfold ALIGN_UP. rewrite Hp.
  apply is_power_of_2_spec in Hp as (k & Hk & ->); [|lia].
  rewrite u32_small by lia. rewrite land_pow2_mask by lia.
  eexists; split; [done|].
  set (y := val + 2 ^ k - 1).
  pose proof (Z.mod_pos_bound y (2 ^ k) ltac:(lia)).
  pose proof (Z.div_mod y (2 ^ k) ltac:(lia)).
  split_and!; [exists (y / 2 ^ k); lia|subst y; lia|subst y; lia|].
  intros b [c ->] Hc. assert (y / 2 ^ k <= c); [|nia].
  apply Z.lt_succ_r, Z.div_lt_upper_bound; subst y; lia.
Qed.

(** An aligned value is its own alignment. *)
Lemma ALIGN_UP_aligned val align :
  0 <= val -> is_power_of_2 align = true -> 0 < align -> val + align - 1 < 2 ^ 32 ->
  (align | val) -> ALIGN_UP val align = Some val.
Proof.
  intros Hv Hp Ha Hb Hd. destruct (ALIGN_UP_spec val align) as (a & -> & _ & Hr & Hl); [done..|].
  f_equal. specialize (Hl val Hd). lia.
Qed.

(** ** Allocating one block *)

(** What the operations never change in a map. *)
Definition same_geom (m m' : block_map) : Prop :=
  bm_block_size m' = bm_block_size m /\ bm_count m' = bm_count m /\ bm_base m' = bm_base m.

Definition take_info (heap : mm_heap) (bytes : Z) : mm_info :=
  mk_info (u32 (i_used (hp_info heap) + bytes)) (u32 (i_free (hp_info heap) - bytes)).

Lemma hdrs_from_wf m segs i :
  map_wf m segs -> hdrs_from (bm_block m) (bm_count m) i = drop (Z.to_nat i) (bm_block m).
Proof.
  intros H. unfold hdrs_from. rewrite take_ge; [done|].
  rewrite (mw_block _ _ H), length_layout, (mw_count _ _ H). lia.
Qed.

Lemma layout_insert_used base bs pre post :
  <[segs_len pre := mk_hdr 1 1 (base + Z.of_nat (segs_len pre) * bs)]>
    (layout base bs 0 (pre ++ Free :: post)) = layout base bs 0 (pre ++ Used 0 :: post).
Proof.
  rewrite !layout_app, insert_app_r_alt by (rewrite length_layout; lia).
  by rewrite length_layout, Nat.sub_diag.
Qed.

Lemma drop_layout base bs pre post :
  drop (segs_len pre) (layout base bs 0 (pre ++ post)) = layout base bs (segs_len pre) post.
Proof. rewrite layout_app, drop_app_length'; [done|by rewrite length_layout]. Qed.

Lemma find_unused_app_used base bs i pre hs z :
  segs_free pre = 0%nat ->
  find_unused (layout base bs i pre ++ hs) z = find_unused hs (z + Z.of_nat (segs_len pre)).
Proof.
  revert i z; induction pre as [|[|k] pre IH]; intros i z H; simpl in *; [f_equal; lia|done|].
  rewrite <-app_assoc.
  assert (forall tl z', find_unused (replicate k (mk_hdr 0 1 (base + Z.of_nat i * bs)) ++ tl) z'
            = find_unused tl (z' + Z.of_nat k)) as Hrep.
  { clear. induction k as [|k IH]; intros tl z'; simpl; [f_equal; lia|].
    rewrite IH. f_equal; lia. }
  rewrite Hrep, IH by done. f_equal; lia.
Qed.

(** The next [first_free] after the block at [pre] was taken. *)
Lemma find_unused_first base bs pre post :
  segs_free pre = 0%nat ->
  first_free_ok (pre ++ Used 0 :: post)
    (default (Z.of_nat (segs_len pre))
       (find_unused (layout base bs (segs_len pre) (Used 0 :: post)) (Z.of_nat (segs_len pre)))).
Proof.
  intros Hpre. destruct (segs_free_split post) as [H|(a & b & -> & H)].
  - rewrite <-(app_nil_r (layout _ _ _ _)), find_unused_app_used by done. simpl.
    apply first_free_full; [rewrite segs_free_app; simpl; lia|rewrite segs_len_app; simpl; lia].
  - change (Used 0 :: a ++ Free :: b) with ((Used 0 :: a) ++ Free :: b).
    rewrite layout_app, find_unused_app_used by done. simpl.
    eapply (first_free_at _ _ (pre ++ Used 0 :: a)).
    + by rewrite <-app_assoc.
    + rewrite segs_free_app. simpl. lia.
    + rewrite segs_len_app. simpl. lia.
Qed.

Lemma map_block_addr m segs i :
  map_wf m segs -> 0 <= i <= bm_count m ->
  u32 (bm_base m + i * bm_block_size m) = bm_base m + i * bm_block_size m.
Proof.
  intros [] Hi. apply u32_small. split; [nia|].
  enough (i * bm_block_size m <= bm_block_size m * bm_count m) by lia. nia.
Qed.

Lemma map_block_addr' m segs i :
  map_wf m segs -> 0 <= i <= bm_count m ->
  u32 (bm_base m + bm_block_size m * i) = bm_base m + i * bm_block_size m.
Proof. intros. rewrite (Z.mul_comm (bm_block_size m)). by eapply map_block_addr. Qed.

Lemma layout_lookup_free base bs pre post :
  layout base bs 0 (pre ++ Free :: post) !! segs_len pre = Some free_hdr.
Proof. rewrite layout_app, lookup_app_r; rewrite length_layout, ?Nat.sub_diag; done || lia. Qed.

Lemma alloc_block_index_spec heap level m pre post alignment index ptr :
  hp_map heap !! level = Some m -> map_wf m (pre ++ Free :: post) ->
  index = Z.of_nat (segs_len pre) \/ (index < 0 /\ bm_first_free m = Z.of_nat (segs_len pre)) ->
  align_ptr alignment (bm_base m + Z.of_nat (segs_len pre) * bm_block_size m) = Some ptr ->
  exists m', alloc_block_index heap level alignment index =
      Some (set_level heap level m' (take_info heap (bm_block_size m)), ptr) /\
    map_wf m' (pre ++ Used 0 :: post) /\ same_geom m m'.
Proof.
  intros Hm Hwf Hidx Hptr. unfold alloc_block_index. rewrite Hm. cbn [mbind option_bind].
  replace (if index <? 0 then bm_first_free m else index) with (Z.of_nat (segs_len pre))
    by (case_if; lia).
  rewrite Nat2Z.id. pose proof Hwf as [].
  assert (segs_len (pre ++ Free :: post) = S (segs_len pre + segs_len post)) as Hlen
    by (rewrite segs_len_app; simpl; lia).
  rewrite mw_block0, layout_lookup_free. cbn [mbind option_bind].
  rewrite (map_block_addr m (pre ++ Free :: post)) by (done || lia).
  rewrite Hptr. cbn [mbind option_bind].
  rewrite layout_insert_used. eexists; split_and!; [done| |done..].
  constructor; simpl; try done.
  - rewrite mw_count0, Hlen, segs_len_app. simpl. lia.
  - rewrite mw_free0, !segs_free_app. simpl.
    pose proof (segs_free_le (pre ++ Free :: post)) as Hle.
    rewrite segs_free_app in Hle. simpl in Hle. rewrite u16_small; lia.
  - destruct (first_free_ok_free _ _ mw_first0) as (a & b & Heq & Ha & ->).
    { rewrite segs_free_app. simpl. lia. }
    destruct (first_free_split a b pre post) as [[-> ->]|(mid & -> & ->)]; [done..| |].
    + rewrite Z.eqb_refl. unfold hdrs_from.
      rewrite take_ge by (rewrite length_layout, mw_count0, !segs_len_app; simpl; lia).
      rewrite Nat2Z.id, drop_layout. by apply find_unused_first.
    + case_if; [rewrite segs_len_app in *; simpl in *; lia|].
      eapply (first_free_at _ _ a); [|done..]. by rewrite <-app_assoc.
Qed.

(** ** Allocating consecutive blocks *)

(** Block [i] of the map is not in use. *)
Definition free_at (m : block_map) (i : Z) : Prop :=
  0 <= i < bm_count m /\ exists h, bm_block m !! Z.to_nat i = Some h /\ h_used h = 0.

(** [a] has the requested alignment. *)
Definition aligned_to (alignment a : Z) : Prop := alignment = 0 \/ (alignment | a).

(** The range [a, a + bytes) is aligned, starts in block [s] and lies in the
    free blocks [s .. e - 1]. *)
Record room (m : block_map) (bytes alignment a s e : Z) : Prop := {
  room_aligned : aligned_to alignment a;
  room_start : bm_base m + s * bm_block_size m <= a < bm_base m + (s + 1) * bm_block_size m;
  room_end : a + bytes <= bm_base m + e * bm_block_size m;
  room_order : s < e;
  room_free : forall i, s <= i < e -> free_at m i
}.

(** The alignment argument is acceptable for addresses up to [limit]. *)
Definition alignment_ok (alignment limit : Z) : Prop :=
  (alignment = 0 \/ (0 < alignment /\ is_power_of_2 alignment = true)) /\
  limit + alignment <= 2 ^ 32.

(** A run of free blocks found by the search. *)
Record run_ok (m : block_map) (bytes alignment current : Z) (st : cont_scan) : Prop := {
  ro_end : cs_start st + cs_count st = current;
  ro_start : 0 <= cs_start st;
  ro_free : forall i, cs_start st <= i < current -> free_at m i;
  ro_blk : cs_blk_start st = bm_base m + cs_start st * bm_block_size m;
  ro_aligned : aligned_to alignment (cs_aligned st);
  ro_in : cs_blk_start st <= cs_aligned st < cs_blk_start st + bm_block_size m;
  ro_least : forall a, aligned_to alignment a -> cs_blk_start st <= a -> cs_aligned st <= a;
  ro_total : cs_total st = bytes + (cs_aligned st - cs_blk_start st)
}.

Record scan_inv (m : block_map) (bytes alignment current : Z) (st : cont_scan) : Prop := {
  si_found : cs_found st = cs_count st * bm_block_size m;
  si_count : 0 <= cs_count st;
  si_idle : cs_count st = 0 -> cs_total st = bytes;
  si_run : 0 < cs_count st -> run_ok m bytes alignment current st;
  si_complete : forall a s e, room m bytes alignment a s e ->
    current <= s \/ (0 < cs_count st /\ cs_start st <= s)
}.

(** Both forms of the alignment of a block start in one statement. *)
Lemma block_alignment alignment v :
  0 <= v -> alignment_ok alignment (v + 1) ->
  exists a, (if negb (alignment =? 0) then ALIGN_UP v alignment else Some v) = Some a /\
    aligned_to alignment a /\ v <= a < v + Z.max 1 alignment /\
    (forall b, aligned_to alignment b -> v <= b -> a <= b) /\
    (alignment <> 0 -> Z.land v (alignment - 1) = 0 -> a = v).
Proof.
  intros Hv [[->|[Hp H2]] Hb]; simpl.
  - exists v. split_and!; [done|by left|lia|lia|lia|done].
  - replace (alignment =? 0) with false by (symmetry; apply Z.eqb_neq; lia). simpl.
    destruct (ALIGN_UP_spec v alignment) as (a & -> & Hd & Hr & Hl); [lia|done|lia|lia|].
    exists a. split_and!; [done|by right|lia|lia| |].
    + intros b [->|Hb'] ?; [lia|auto].
    + intros _ Hland. apply is_power_of_2_spec in H2 as (k & Hk & ->); [|lia].
      replace (2 ^ k - 1) with (Z.ones k) in Hland by (rewrite Z.ones_equiv; lia).
      rewrite Z.land_ones in Hland by lia.
      assert (a <= v); [|lia]. apply Hl; [|lia]. by apply Z.mod_divide; [lia|].
Qed.

Lemma free_at_hdr m i h :
  0 <= i < bm_count m -> bm_block m !! Z.to_nat i = Some h -> h_used h = 0 -> free_at m i.
Proof. intros; split; eauto. Qed.

Lemma used_not_free m i h : bm_block m !! Z.to_nat i = Some h -> h_used h <> 0 -> ~ free_at m i.
Proof. intros Hi Hu [_ (h' & Hh & ?)]. congruence. Qed.

(** No allocation found so far can be continued across [current], when the run
    is not long enough. *)
Lemma short_run m bytes alignment current st a s e :
  scan_inv m bytes alignment current st -> cs_found st < cs_total st -> 0 < bm_block_size m ->
  room m bytes alignment a s e -> s < current -> current < e.
Proof.
  intros [Hf Hc Hi Hr Hcomp] Hlt Hbs Hroom Hs.
  destruct (Hcomp _ _ _ Hroom) as [?|[Hpos Hst]]; [lia|].
  destruct (Hr Hpos), Hroom.
  assert (cs_aligned st <= a) by (apply ro_least0; [done|nia]). nia.
Qed.

(** The four ways one iteration moves on: over a block in use, ... *)
Lemma scan_restart m bytes alignment current h st :
  bm_block m !! Z.to_nat current = Some h -> h_used h <> 0 -> 0 < bm_block_size m ->
  scan_inv m bytes alignment current st -> cs_found st < cs_total st ->
  scan_inv m bytes alignment (current + 1)
    (mk_scan 0 0 bytes (cs_start st) (cs_blk_start st) (cs_aligned st)).
Proof.
  intros Hh Hu Hbs Hinv Hlt. constructor; simpl; try lia.
  intros a s e Hroom. left.
  destruct (decide (s <= current)) as [Hle|]; [exfalso|lia].
  assert (current < e).
  { destruct (decide (s = current)) as [->|]; [by destruct Hroom|].
    eapply short_run; eauto; lia. }
  eapply used_not_free; [done|done|]. apply (room_free _ _ _ _ _ _ Hroom). lia.
Qed.

(** ... over a free block without an aligned address, ... *)
Lemma scan_skip m bytes alignment current st a blk :
  blk = bm_base m + current * bm_block_size m -> blk + bm_block_size m <= a ->
  (forall b, aligned_to alignment b -> blk <= b -> a <= b) ->
  scan_inv m bytes alignment current st -> cs_count st = 0 ->
  scan_inv m bytes alignment (current + 1)
    (mk_scan (cs_found st) (cs_count st) (cs_total st) current blk a).
Proof.
  intros -> Ha Hl [Hf Hc Hi Hr Hcomp] H0. constructor; simpl; try lia.
  intros a' s e Hroom. destruct (Hcomp _ _ _ Hroom); [|lia].
  destruct (decide (s = current)) as [->|]; [exfalso|lia].
  destruct Hroom. assert (a <= a') by (apply Hl; [done|lia]). lia.
Qed.

(** ... starting a run, ... *)
Lemma scan_begin m bytes alignment current st a blk found count total :
  found = bm_block_size m -> count = 1 -> total = bytes + (a - blk) ->
  0 <= current -> free_at m current ->
  blk = bm_base m + current * bm_block_size m -> blk <= a < blk + bm_block_size m ->
  aligned_to alignment a -> (forall b, aligned_to alignment b -> blk <= b -> a <= b) ->
  scan_inv m bytes alignment current st -> cs_count st = 0 ->
  scan_inv m bytes alignment (current + 1) (mk_scan found count total current blk a).
Proof.
  intros -> -> -> Hcur Hfree Hblk Hin Hd Hl [Hf Hc Hi Hr Hcomp] H0.
  constructor; simpl; try lia.
  - intros _. constructor; simpl; try done; try lia.
    intros i ?. by replace i with current by lia.
  - intros a' s e Hroom. destruct (Hcomp _ _ _ Hroom); [|lia]. right; lia.
Qed.

(** ... and extending one. *)
Lemma scan_extend m bytes alignment current st :
  free_at m current -> scan_inv m bytes alignment current st -> 0 < cs_count st ->
  scan_inv m bytes alignment (current + 1)
    (mk_scan (cs_found st + bm_block_size m) (cs_count st + 1) (cs_total st)
       (cs_start st) (cs_blk_start st) (cs_aligned st)).
Proof.
  intros Hfree [Hf Hc Hi Hr Hcomp] Hpos. destruct (Hr Hpos).
  constructor; simpl; try lia.
  - intros _. constructor; simpl; try done; [lia|].
    intros i ?. destruct (decide (i = current)) as [->|]; [done|apply ro_free0; lia].
  - intros a s e Hroom. destruct (Hcomp _ _ _ Hroom); right; lia.
Qed.

Lemma cont_body_inv m segs bytes alignment current h st :
  map_wf m segs -> 0 <= current < bm_count m -> bm_block m !! Z.to_nat current = Some h ->
  0 <= bytes -> bytes + alignment <= 2 ^ 32 ->
  alignment_ok alignment (bm_base m + bm_block_size m * bm_count m) ->
  scan_inv m bytes alignment current st -> cs_found st < cs_total st ->
  exists st', cont_body m bytes alignment current h st = Some st' /\
    scan_inv m bytes alignment (current + 1) st'.
Proof.
  intros Hwf Hcur Hh Hb0 Hb Hal Hinv Hlt. pose proof (mw_bs _ _ Hwf). pose proof (mw_end _ _ Hwf).
  pose proof (mw_base _ _ Hwf). unfold cont_body. case_if; [eauto using scan_restart with lia|].
  assert (free_at m current) as Hfree by (by eapply free_at_hdr).
  pose proof (si_found _ _ _ _ _ Hinv) as Hf. pose proof (si_count _ _ _ _ _ Hinv) as Hc.
  destruct (decide (cs_count st = 0)) as [Hz0|Hpos].
  - replace (cs_found st =? 0) with true by (symmetry; apply Z.eqb_eq; lia).
    rewrite (map_block_addr m segs) by (done || lia).
    pose proof (si_idle _ _ _ _ _ Hinv Hz0) as Htot.
    remember (bm_base m + current * bm_block_size m) as v eqn:Ev.
    assert (v + bm_block_size m <= bm_base m + bm_block_size m * bm_count m) as Hv by nia.
    destruct (block_alignment alignment v) as (a & Ha & Hd & Hra & Hl & Hz); [nia| |].
    { destruct Hal; split; [done|lia]. }
    destruct (alignment =? 0) eqn:E; simpl in Ha |- *; zbool.
    + injection Ha as <-. eexists; split; [done|].
      eapply scan_begin; eauto; rewrite ?u32_small; lia.
    + rewrite Ha. cbn [mbind option_bind]. rewrite (u32_small (v + _)) by lia.
      case_if; (eexists; split; [done|]); [eapply scan_skip; eauto; lia|].
      assert (a < v + bm_block_size m).
      { destruct Heqb0 as [Hz'|]; [|zbool; lia]. zbool. rewrite Hz by done. lia. }
      eapply scan_begin; eauto; rewrite ?u32_small; destruct Hal; lia.
  - replace (cs_found st =? 0) with false by (symmetry; apply Z.eqb_neq; nia).
    destruct (si_run _ _ _ _ _ Hinv) as []; [lia|].
    eexists; split; [done|]. rewrite u32_small by nia. apply scan_extend; [done..|lia].
Qed.

Lemma cont_loop_inv m segs bytes alignment :
  map_wf m segs -> 0 <= bytes -> bytes + alignment <= 2 ^ 32 ->
  alignment_ok alignment (bm_base m + bm_block_size m * bm_count m) ->
  forall hs current st, 0 <= current -> drop (Z.to_nat current) (bm_block m) = hs ->
  current <= bm_count m ->
  scan_inv m bytes alignment current st ->
  exists st' current', cont_loop m bytes alignment current hs st = Some st' /\
    scan_inv m bytes alignment current' st' /\ current' <= bm_count m /\
    (cs_found st' < cs_total st' -> current' = bm_count m).
Proof.
  intros Hwf Hb0 Hb Hal. pose proof (mw_block _ _ Hwf) as Hblk.
  pose proof (length_layout (bm_base m) (bm_block_size m) 0 segs) as Hlen.
  rewrite <-Hblk, <-(Nat2Z.id (length _)) in Hlen. pose proof (mw_count _ _ Hwf) as Hcount.
  intros hs. induction hs as [|h hs IH]; intros current st Hc0 Hdrop Hc Hinv; simpl.
  - exists st, current. split_and!; try done. intros _.
    apply (f_equal length) in Hdrop. rewrite length_drop in Hdrop. simpl in Hdrop. lia.
  - assert (bm_block m !! Z.to_nat current = Some h) as Hh.
    { rewrite <-(Nat.add_0_r (Z.to_nat current)), <-lookup_drop, Hdrop. done. }
    pose proof (lookup_lt_Some _ _ _ Hh) as Hlt.
    case_if; [|exists st, current; split_and!; try done; lia].
    destruct (cont_body_inv m segs bytes alignment current h st) as (st' & -> & Hinv');
      [done|lia|done..|]. cbn [mbind option_bind].
    apply IH; [lia| |lia|done].
    replace (Z.to_nat (current + 1)) with (1 + Z.to_nat current)%nat by lia.
    by rewrite Nat.add_comm, <-drop_drop, Hdrop.
Qed.

(** A run of free headers is a run of free segments. *)
Lemma layout_free_prefix base bs i segs n :
  (forall j, (j < n)%nat -> exists h, layout base bs i segs !! j = Some h /\ h_used h = 0) ->
  exists post, segs = replicate n Free ++ post.
Proof.
  revert i segs; induction n as [|n IH]; intros i segs Hall; [by exists segs|].
  destruct (Hall 0%nat) as (h & Hh & Hu); [lia|].
  destruct (layout base bs i segs) as [|h' hs] eqn:E; simplify_eq/=.
  destruct (layout_head_free base bs i segs h hs) as (post & -> & -> & ->); [done..|].
  destruct (IH (S i) post) as [post' ->]; [|by exists post'].
  intros j Hj. apply (Hall (S j)). lia.
Qed.

Lemma layout_free_run base bs segs s n :
  (0 < n)%nat ->
  (forall j, (s <= j < s + n)%nat -> exists h, layout base bs 0 segs !! j = Some h /\ h_used h = 0) ->
  exists pre post, segs = pre ++ replicate n Free ++ post /\ segs_len pre = s.
Proof.
  intros Hn Hall. destruct (Hall s) as (h & Hh & Hu); [lia|].
  destruct (layout_free_split _ _ _ _ _ _ Hh Hu) as (pre & post & -> & Hs).
  destruct (layout_free_prefix base bs (segs_len pre) (Free :: post) n) as [post' Hp].
  { intros j Hj. destruct (Hall (s + j)%nat) as (h' & Hh' & Hu'); [lia|].
    exists h'. split; [|done]. rewrite layout_app, lookup_app_r in Hh' by (rewrite length_layout; lia).
    rewrite length_layout in Hh'. by replace (s + j - segs_len pre)%nat with j in Hh' by lia. }
  exists pre, post'. by rewrite Hp.
Qed.

Lemma map_range_app f a b c :
  map_range f (length a) (length b) (a ++ b ++ c) = a ++ (f <$> b) ++ c.
Proof.
  unfold map_range. rewrite take_app_length, drop_app_length, take_app_length.
  by rewrite <-drop_drop, !drop_app_length.
Qed.

(** The header updates of [alloc_cont_blocks] turn [k + 1] free segments into
    one group. *)
Lemma layout_take_group base bs pre k post :
  map_range (mark_used (base + Z.of_nat (segs_len pre) * bs)) (segs_len pre) (S k)
    (<[segs_len pre := mk_hdr (Z.of_nat (S k)) 0 0]>
       (layout base bs 0 (pre ++ replicate (S k) Free ++ post))) =
  layout base bs 0 (pre ++ Used k :: post).
Proof.
  rewrite !layout_app, layout_frees, insert_app_r_alt by (rewrite length_layout; lia).
  rewrite length_layout, Nat.sub_diag, segs_len_frees. simpl.
  set (p := base + Z.of_nat (segs_len pre) * bs).
  pose proof (map_range_app (mark_used p) (layout base bs 0 pre)
    (mk_hdr (Z.of_nat (S k)) 0 0 :: replicate k free_hdr)
    (layout base bs (segs_len pre + S k) post)) as H.
  simpl in H. rewrite length_layout, length_replicate in H. rewrite H. clear H.
  do 3 f_equal. rewrite fmap_replicate. done.
Qed.

(** The header updates of [free_block] do the converse. *)
Lemma layout_free_group base bs pre k post :
  map_range (fun _ => free_hdr) (segs_len pre) (S k) (layout base bs 0 (pre ++ Used k :: post)) =
  layout base bs 0 (pre ++ replicate (S k) Free ++ post).
Proof.
  rewrite !layout_app, layout_frees, segs_len_frees. simpl.
  set (p := base + Z.of_nat (segs_len pre) * bs).
  pose proof (map_range_app (fun _ => free_hdr) (layout base bs 0 pre)
    (mk_hdr (Z.of_nat (S k)) 1 p :: replicate k (mk_hdr 0 1 p))
    (layout base bs (segs_len pre + S k) post)) as H.
  simpl in H. rewrite length_layout, length_replicate in H. rewrite H. clear H.
  do 3 f_equal. rewrite fmap_replicate. done.
Qed.

Lemma used_prefix_app_used base bs i pre hs :
  segs_free pre = 0%nat ->
  used_prefix (layout base bs i pre ++ hs) = Z.of_nat (segs_len pre) + used_prefix hs.
Proof.
  revert i; induction pre as [|[|k] pre IH]; intros i H; simpl in *; [lia|done|].
  rewrite <-app_assoc.
  assert (forall tl, used_prefix (replicate k (mk_hdr 0 1 (base + Z.of_nat i * bs)) ++ tl)
            = Z.of_nat k + used_prefix tl) as Hrep.
  { clear. induction k as [|k IH]; intros tl; [done|]. simpl replicate. simpl app.
    cbn [used_prefix h_used negb Z.eqb]. rewrite IH. lia. }
  rewrite Hrep, IH by done. lia.
Qed.

(** The next [first_free] after a group at [pre] was taken. *)
Lemma used_prefix_first base bs pre k post :
  segs_free pre = 0%nat ->
  first_free_ok (pre ++ Used k :: post)
    (Z.of_nat (segs_len pre) + Z.of_nat (S k) +
     used_prefix (layout base bs (segs_len pre + S k) post)) /\
  used_prefix (layout base bs (segs_len pre + S k) post) <= Z.of_nat (segs_len post).
Proof.
  intros Hpre. destruct (segs_free_split post) as [H|(a & b & -> & H)].
  - rewrite <-(app_nil_r (layout _ _ _ _)), used_prefix_app_used by done. simpl. split; [|lia].
    apply first_free_full; [rewrite segs_free_app; simpl; lia|rewrite segs_len_app; simpl; lia].
  - rewrite layout_app, used_prefix_app_used by done. simpl.
    split; [|rewrite segs_len_app; simpl; lia].
    eapply (first_free_at _ _ (pre ++ Used k :: a)).
    + by rewrite <-app_assoc.
    + rewrite segs_free_app. simpl. lia.
    + rewrite segs_len_app. simpl. lia.
Qed.

Lemma free_at_after_first m segs i : map_wf m segs -> free_at m i -> bm_first_free m <= i.
Proof.
  intros Hwf [Hi (h & Hh & Hu)]. rewrite (mw_block _ _ Hwf) in Hh.
  destruct (layout_free_split _ _ _ _ _ _ Hh Hu) as (a & b & -> & Ha).
  destruct (mw_first _ _ Hwf) as [H0 _|pre post Heq Hpre ->].
  - rewrite segs_free_app in H0. simpl in H0. lia.
  - symmetry in Heq. destruct (first_free_split pre post a b) as [[-> _]|(mid & -> & _)]; [done..|lia|].
    rewrite segs_len_app in Ha. lia.
Qed.

(** A full run gives the group of segments to take. *)
Lemma run_segs m segs bytes alignment current st :
  map_wf m segs -> run_ok m bytes alignment current st -> 0 < cs_count st ->
  exists pre k post, segs = pre ++ replicate (S k) Free ++ post /\
    cs_start st = Z.of_nat (segs_len pre) /\ cs_count st = Z.of_nat (S k).
Proof.
  intros Hwf [] Hpos.
  destruct (layout_free_run (bm_base m) (bm_block_size m) segs (Z.to_nat (cs_start st))
              (Z.to_nat (cs_count st))) as (pre & post & Hs & Hl); [lia| |].
  - intros j Hj. destruct (ro_free0 (Z.of_nat j)) as [_ (h & Hh & Hu)]; [lia|].
    rewrite Nat2Z.id, (mw_block _ _ Hwf) in Hh. eauto.
  - exists pre, (Z.to_nat (cs_count st) - 1)%nat, post.
    replace (S (Z.to_nat (cs_count st) - 1)) with (Z.to_nat (cs_count st)) by lia.
    split_and!; [done|lia|lia].
Qed.

(** The map [alloc_cont_blocks] leaves when it takes [k + 1] blocks at [pre]. *)
Lemma take_group_wf m pre k post :
  map_wf m (pre ++ replicate (S k) Free ++ post) ->
  let start := Z.of_nat (segs_len pre) in
  let count := Z.of_nat (S k) in
  let block := <[Z.to_nat start := mk_hdr (u16 count) 0 0]> (bm_block m) in
  map_wf
    (mk_map (bm_block_size m) (bm_count m) (u16 (bm_free_count m - count))
       (if bm_first_free m =? start
        then u16 (bm_first_free m + count +
                  used_prefix (hdrs_from block (bm_count m) (bm_first_free m + count)))
        else bm_first_free m)
       (map_range (mark_used (bm_base m + start * bm_block_size m))
          (Z.to_nat start) (Z.to_nat count) block) (bm_base m)) (pre ++ Used k :: post).
Proof.
  intros Hwf start count block. pose proof Hwf as [].
  assert (segs_len (pre ++ replicate (S k) Free ++ post) = segs_len pre + (S k + segs_len post))%nat
    as Hlen by (rewrite !segs_len_app, segs_len_frees; done).
  assert (segs_free (pre ++ replicate (S k) Free ++ post) = segs_free pre + (S k + segs_free post))%nat
    as Hfree by (rewrite !segs_free_app, segs_free_frees; done).
  assert (u16 count = count) as Ecount by (apply u16_small; lia).
  pose proof (segs_free_le (pre ++ replicate (S k) Free ++ post)) as Hle.
  subst block. rewrite Ecount. subst start count. rewrite !Nat2Z.id, mw_block0.
  constructor; cbn [bm_block bm_count bm_block_size bm_base bm_free_count bm_first_free]; try done.
  - by rewrite layout_take_group.
  - rewrite mw_count0, Hlen, segs_len_app. simpl. lia.
  - rewrite u16_small by lia. rewrite mw_free0, Hfree, !segs_free_app. simpl. lia.
  - destruct (first_free_ok_free _ _ mw_first0) as (a & b & Heq & Ha & Hff);
      [rewrite Hfree; lia|].
    symmetry in Heq.
    destruct (first_free_split a b pre (replicate k Free ++ post)) as [[-> _]|(mid & -> & _)];
      [done..| |].
    + rewrite Hff, Z.eqb_refl.
      destruct (used_prefix_first (bm_base m) (bm_block_size m) a k post Ha) as [Hok Hup].
      unfold hdrs_from. rewrite take_ge by (rewrite length_insert, length_layout; lia).
      rewrite drop_insert_lt by lia.
      replace (Z.to_nat (Z.of_nat (segs_len a) + Z.of_nat (S k)))
        with (segs_len (a ++ replicate (S k) Free)) by (rewrite segs_len_app, segs_len_frees; lia).
      rewrite app_assoc, drop_layout, segs_len_app, segs_len_frees.
      rewrite u16_small; [done|]. destruct (first_free_ok_range _ _ Hok). rewrite Hlen in mw_count0. lia.
    + rewrite segs_len_app in *. simpl segs_len in *.
      case_if; [lia|]. eapply (first_free_at _ _ a); [|done..]. by rewrite <-app_assoc.
Qed.

Lemma alloc_cont_blocks_spec heap level m segs caps bytes alignment :
  hp_map heap !! level = Some m -> map_wf m segs ->
  0 < bytes -> bytes + alignment <= 2 ^ 32 ->
  alignment_ok alignment (bm_base m + bm_block_size m * bm_count m) ->
  (alloc_cont_blocks heap level caps bytes alignment = Some (heap, 0) /\
   forall a s e, ~ room m bytes alignment a s e) \/
  (exists pre k post m' ptr, segs = pre ++ replicate (S k) Free ++ post /\
    alloc_cont_blocks heap level caps bytes alignment =
      Some (set_level heap level m' (take_info heap (Z.of_nat (S k) * bm_block_size m)), ptr) /\
    map_wf m' (pre ++ Used k :: post) /\ same_geom m m' /\ aligned_to alignment ptr /\
    bm_base m + Z.of_nat (segs_len pre) * bm_block_size m <= ptr /\
    ptr + bytes <= bm_base m + Z.of_nat (segs_len pre + S k) * bm_block_size m).
Proof.
  intros Hm Hwf Hb0 Hb Hal. unfold alloc_cont_blocks. rewrite Hm. cbn [mbind option_bind].
  pose proof (first_free_ok_range _ _ (mw_first _ _ Hwf)) as Hff.
  rewrite <-(mw_count _ _ Hwf) in Hff. pose proof (mw_bs _ _ Hwf). pose proof (mw_end _ _ Hwf).
  pose proof (mw_base _ _ Hwf).
  assert (forall a s e, room m bytes alignment a s e -> bm_first_free m <= s) as Hfirst.
  { intros a s e []. eapply free_at_after_first; [done|]. apply room_free0. lia. }
  rewrite u32_small by nia. case_if.
  { left. split; [done|]. intros a s e Hroom. pose proof (Hfirst _ _ _ Hroom). destruct Hroom.
    destruct (room_free0 (e - 1)) as [? _]; [lia|]. nia. }
  rewrite (hdrs_from_wf m segs) by done.
  destruct (cont_loop_inv m segs bytes alignment Hwf) with
    (hs := drop (Z.to_nat (bm_first_free m)) (bm_block m)) (current := bm_first_free m)
    (st := mk_scan 0 0 bytes 0 0 0) as (st & cur & -> & Hinv & Hcur & Hdone);
    [lia|lia|done|lia|done|lia| |].
  { constructor; simpl; try lia. intros. left. eauto. }
  cbn [mbind option_bind]. case_if.
  { left. split; [done|]. intros a s e Hroom. rewrite Hdone in Hinv by done.
    pose proof (short_run _ _ _ _ _ _ _ _ Hinv Heqb0 ltac:(lia) Hroom) as Hs. destruct Hroom.
    destruct (room_free0 s) as [? _]; [lia|]. destruct (room_free0 (e - 1)) as [? _]; lia. }
  right. destruct Hinv as [Hf Hc Hi Hr _].
  assert (0 < cs_count st) as Hpos by (destruct (decide (cs_count st = 0)); lia).
  destruct (Hr Hpos) as [].
  destruct (run_segs m segs bytes alignment cur st) as (pre & k & post & -> & Hst & Hcnt); [done..|].
  rewrite Hst, Hcnt, ro_blk0, Hst.
  assert (bm_block m !! Z.to_nat (Z.of_nat (segs_len pre)) = Some free_hdr) as ->.
  { rewrite (mw_block _ _ Hwf), Nat2Z.id. apply layout_lookup_free. }
  eexists pre, k, post, _, _. split_and!; [done|done|by apply take_group_wf|done|done|lia|lia].
Qed.

(** ** Freeing *)

Definition give_info (heap : mm_heap) (bytes : Z) : mm_info :=
  mk_info (u32 (i_used (hp_info heap) - bytes)) (u32 (i_free (hp_info heap) + bytes)).

(** Every header of a group holds the address of the group. *)
Lemma layout_lookup_group base bs pre k post i :
  (i <= k)%nat ->
  layout base bs 0 (pre ++ Used k :: post) !! (segs_len pre + i)%nat =
  Some (mk_hdr (if decide (i = 0%nat) then Z.of_nat (S k) else 0) 1
          (base + Z.of_nat (segs_len pre) * bs)).
Proof.
  intros Hi. rewrite layout_app, lookup_app_r by (rewrite length_layout; lia).
  rewrite length_layout. replace (segs_len pre + i - segs_len pre)%nat with i by lia.
  destruct i as [|i]; [done|]. simpl.
  rewrite lookup_app_l by (rewrite length_replicate; lia). by rewrite lookup_replicate_2 by lia.
Qed.

Lemma group_wf_free m pre k post :
  map_wf m (pre ++ Used k :: post) ->
  map_wf
    (mk_map (bm_block_size m) (bm_count m) (u16 (bm_free_count m + Z.of_nat (S k)))
       (if (Z.of_nat (segs_len pre) <? bm_first_free m) || (bm_free_count m =? 0)
        then u16 (Z.of_nat (segs_len pre)) else bm_first_free m)
       (map_range (fun _ => free_hdr) (segs_len pre) (S k) (bm_block m)) (bm_base m))
    (pre ++ replicate (S k) Free ++ post).
Proof.
  intros Hwf. pose proof Hwf as []. rewrite mw_block0, layout_free_group.
  rewrite segs_len_app in mw_count0. rewrite segs_free_app in mw_free0.
  simpl in mw_count0, mw_free0. pose proof (segs_free_le pre). pose proof (segs_free_le post).
  constructor; cbn [bm_block bm_count bm_block_size bm_base bm_free_count bm_first_free]; try done.
  - rewrite mw_count0, !segs_len_app, segs_len_frees. lia.
  - rewrite u16_small by lia. rewrite mw_free0, !segs_free_app, segs_free_frees. lia.
  - case_if.
    + rewrite u16_small by lia. eapply (first_free_at _ _ pre _); [done| |done].
      destruct Heqb as [?|?]; zbool; [|lia].
      destruct mw_first0 as [Hz _|a b Heq Ha Hff]; [rewrite segs_free_app in Hz; lia|].
      destruct (segs_free_split pre) as [|(c & d & -> & Hc)]; [done|exfalso].
      rewrite <-app_assoc in Heq. simpl in Heq. symmetry in Heq.
      destruct (first_free_split a b c (d ++ Used k :: post)) as [[-> _]|(mid & -> & _)]; [done..| |];
        rewrite !segs_len_app in *; simpl in *; lia.
    + destruct (first_free_ok_free _ _ mw_first0) as (a & b & Heq & Ha & Hff);
        [rewrite segs_free_app; simpl; lia|].
      apply app_eq_app in Heq as (l & [[-> Hl]|[-> Hl]]).
      * destruct l as [|x l]; simplify_eq/=. eapply (first_free_at _ _ a); [|done..].
        by rewrite <-app_assoc.
      * destruct l as [|x l]; simplify_eq/=. rewrite segs_len_app in *. simpl in *. lia.
Qed.

Lemma free_in_map_spec heap level m pre k post ptr :
  map_wf m (pre ++ Used k :: post) ->
  bm_base m + Z.of_nat (segs_len pre) * bm_block_size m <= ptr <
    bm_base m + Z.of_nat (segs_len pre + S k) * bm_block_size m ->
  exists m', free_in_map heap level m ptr =
      Some (set_level heap level m' (give_info heap (Z.of_nat (S k) * bm_block_size m))) /\
    map_wf m' (pre ++ replicate (S k) Free ++ post) /\ same_geom m m'.
Proof.
  intros Hwf Hptr. pose proof Hwf as []. unfold free_in_map.
  rewrite segs_len_app in mw_count0. simpl in mw_count0.
  set (p := bm_base m + Z.of_nat (segs_len pre) * bm_block_size m) in *.
  assert (bm_block_size m * bm_count m =
    Z.of_nat (segs_len pre + S k) * bm_block_size m + bm_block_size m * Z.of_nat (segs_len post))
    as Hend by nia.
  rewrite u32_small by nia.
  destruct (Z.div_mod (ptr - bm_base m) (bm_block_size m)) as []; [lia|].
  set (b := (ptr - bm_base m) / bm_block_size m) in *.
  assert (Z.of_nat (segs_len pre) <= b <= Z.of_nat (segs_len pre + k)) as Hb.
  { split; [apply Z.div_le_lower_bound; subst p; lia|].
    apply Z.lt_succ_r, Z.div_lt_upper_bound; lia. }
  assert (bm_block m !! Z.to_nat b =
    Some (mk_hdr (if decide (Z.to_nat b - segs_len pre = 0)%nat then Z.of_nat (S k) else 0) 1 p)) as ->.
  { replace (Z.to_nat b) with (segs_len pre + (Z.to_nat b - segs_len pre))%nat at 1 by lia.
    rewrite mw_block0. by rewrite layout_lookup_group by lia. }
  cbn [mbind option_bind h_unaligned_ptr].
  replace (p =? 0) with false by (symmetry; apply Z.eqb_neq; subst p; nia).
  replace (if negb (p =? ptr) && negb false then p else ptr) with p by (simpl; case_if; lia).
  replace (if negb (p =? ptr) && negb false then u32 (p - bm_base m) / bm_block_size m else b)
    with (Z.of_nat (segs_len pre)).
  2:{ assert (u32 (p - bm_base m) / bm_block_size m = Z.of_nat (segs_len pre)) as Hq.
      { rewrite u32_small by (subst p; nia). subst p.
        rewrite Z.add_simpl_l, Z.div_mul; lia. }
      destruct (p =? ptr) eqn:E; simpl; zbool; [|done]. subst b. rewrite <-E.
      rewrite <-Hq, u32_small by (subst p; nia). done. }
  rewrite Nat2Z.id.
  assert (bm_block m !! segs_len pre = Some (mk_hdr (Z.of_nat (S k)) 1 p)) as ->.
  { rewrite mw_block0, <-(Nat.add_0_r (segs_len pre)). by rewrite layout_lookup_group by lia. }
  cbn [mbind option_bind h_size].
  rewrite (map_block_addr' m (pre ++ Used k :: post)) by (done || lia).
  fold p. rewrite Z.eqb_refl. cbn [negb].
  rewrite mw_block0, length_layout, segs_len_app, <-mw_block0.
  replace (_ <? _) with false by (symmetry; apply Z.ltb_ge; simpl; lia).
  rewrite Nat2Z.id. eexists. split_and!; [done|by apply group_wf_free|done..].
Qed.

(** Freeing a free block again changes nothing. *)
Lemma free_in_map_double heap level m pre post :
  hp_map heap !! level = Some m -> map_wf m (pre ++ Free :: post) ->
  0 <= i_used (hp_info heap) < 2 ^ 32 -> 0 <= i_free (hp_info heap) < 2 ^ 32 ->
  free_in_map heap level m (bm_base m + Z.of_nat (segs_len pre) * bm_block_size m) = Some heap.
Proof.
  intros Hm Hwf Hu Hf. pose proof Hwf as []. unfold free_in_map.
  rewrite segs_len_app in mw_count0. simpl in mw_count0.
  rewrite (Z.add_simpl_l (bm_base m)), u32_small by nia. rewrite Z.div_mul, Nat2Z.id by lia.
  assert (bm_block m !! segs_len pre = Some free_hdr) as Hl
    by (rewrite mw_block0; apply layout_lookup_free).
  rewrite Hl. cbn [mbind option_bind h_unaligned_ptr free_hdr]. rewrite andb_false_r, Nat2Z.id, Hl.
  cbn [mbind option_bind h_size free_hdr].
  rewrite (map_block_addr' m (pre ++ Free :: post)) by (done || lia). rewrite Z.eqb_refl. cbn [negb].
  rewrite mw_block0 at 1. rewrite length_layout, segs_len_app.
  replace (_ <? _) with false by (symmetry; apply Z.ltb_ge; simpl; lia).
  assert (bm_first_free m <= Z.of_nat (segs_len pre)) as Hff.
  { eapply free_at_after_first; [done|]. split; [lia|]. rewrite Nat2Z.id, Hl. eauto. }
  replace (_ || _) with false.
  2:{ symmetry. apply orb_false_iff. rewrite Z.ltb_ge, Z.eqb_neq, mw_free0, segs_free_app.
      simpl. lia. }
  rewrite segs_free_app in mw_free0. simpl in mw_free0.
  pose proof (segs_free_le pre). pose proof (segs_free_le post).
  rewrite !Z.mul_0_l, Z.sub_0_r, !Z.add_0_r, !u32_small by lia. rewrite u16_small by lia.
  unfold map_range. simpl. rewrite Nat.add_0_r, take_drop.
  destruct heap as [maps ? ? ? [? ?]], m. unfold set_level. simpl in *. by rewrite list_insert_id.
Qed.
