(* ===== verification/HeapSpec.v ===== *)
(** * The allocated ranges of a heap

    [allocated] reads the address ranges handed out by a heap off its block
    headers. The file states the heap invariant and proves that allocation adds
    one range, apart from all others, that freeing removes exactly the range a
    pointer is in, and that an allocation fails only when no map has room. *)

From stdpp Require Import base list numbers option sets sorting.
From S2P Require Import Prelude Heap HeapMap.

(** ** Abstraction *)

Fixpoint hdr_regions (base bs : Z) (i : nat) (hs : list block_hdr) : list (Z * Z) :=
  match hs with
  | [] => []
  | h :: hs =>
      if h_size h =? 0 then hdr_regions base bs (S i) hs
      else (base + Z.of_nat i * bs, h_size h * bs) :: hdr_regions base bs (S i) hs
  end.

Definition map_allocated (m : block_map) : list (Z * Z) :=
  hdr_regions (bm_base m) (bm_block_size m) 0 (bm_block m).

(** The ranges (start, bytes) a heap has handed out. *)
Definition allocated (h : mm_heap) : list (Z * Z) := hp_map h ≫= map_allocated.

Definition region_bytes (rs : list (Z * Z)) : Z := foldr (fun r n => r.2 + n) 0 rs.

(** The maps lie one after the other from [base] and end at or before
    [limit]. *)
Fixpoint chained (base : Z) (maps : list block_map) (limit : Z) : Prop :=
  match maps with
  | [] => base <= limit
  | m :: ms => bm_base m = base /\ chained (base + bm_block_size m * bm_count m) ms limit
  end.

Record heap_inv (h : mm_heap) (segss : list (list seg)) : Prop := {
  hi_maps : Forall2 map_wf (hp_map h) segss;
  hi_chain : chained (hp_heap h) (hp_map h) (hp_heap h + hp_size h);
  hi_limit : hp_heap h + hp_size h < 2 ^ 32;
  hi_heap : 0 < hp_heap h;
  hi_used : i_used (hp_info h) = region_bytes (allocated h);
  hi_free : i_used (hp_info h) + i_free (hp_info h) = hp_size h
}.

Definition heap_wf (h : mm_heap) : Prop := exists segss, heap_inv h segss.

(** Range [r] ends before range [r'] starts. *)
Definition before (r r' : Z * Z) : Prop := r.1 + r.2 <= r'.1.

(** ** Reading ranges off headers *)

Lemma hdr_regions_app base bs i a b :
  hdr_regions base bs i (a ++ b) = hdr_regions base bs i a ++ hdr_regions base bs (i + length a) b.
Proof.
  revert i; induction a as [|h a IH]; intros i; simpl; [f_equal; lia|].
  rewrite IH. replace (S i + length a)%nat with (i + S (length a))%nat by lia. by case_if.
Qed.

Lemma hdr_regions_none base bs i h n :
  h_size h = 0 -> hdr_regions base bs i (replicate n h) = [].
Proof. intros H; revert i; induction n as [|n IH]; intros i; simpl; [done|]. rewrite H; apply IH. Qed.

Lemma hdr_regions_layout base bs i segs :
  hdr_regions base bs i (layout base bs i segs) = regions base bs i segs.
Proof.
  revert i; induction segs as [|[|k] segs IH]; intros i; [done|..]; cbn [layout seg_hdrs].
  - simpl. by rewrite Nat.add_1_r, IH.
  - rewrite hdr_regions_app. cbn [hdr_regions h_size].
    replace (Z.of_nat (S k) =? 0) with false by (symmetry; apply Z.eqb_neq; lia).
    rewrite hdr_regions_none by done. cbn [length seg_len]. rewrite length_replicate, IH. done.
Qed.

Lemma map_allocated_regions m segs :
  map_wf m segs -> map_allocated m = regions (bm_base m) (bm_block_size m) 0 segs.
Proof. intros H. unfold map_allocated. by rewrite (mw_block _ _ H), hdr_regions_layout. Qed.

Lemma region_bytes_app a b : region_bytes (a ++ b) = region_bytes a + region_bytes b.
Proof. induction a as [|r a IH]; simpl; [done|]. rewrite IH. lia. Qed.

Lemma region_bytes_perm a b : a ≡ₚ b -> region_bytes a = region_bytes b.
Proof. induction 1; simpl; lia. Qed.

(** ** The ranges are apart and inside the heap *)

Lemma regions_bound base bs i segs :
  0 < bs -> Forall (fun r => base + Z.of_nat i * bs <= r.1 /\ 0 < r.2 /\
    r.1 + r.2 <= base + Z.of_nat (i + segs_len segs) * bs) (regions base bs i segs).
Proof.
  intros Hbs. revert i; induction segs as [|[|k] segs IH]; intros i; simpl; [done| |].
  - eapply Forall_impl; [apply IH|]. intros r; simpl. nia.
  - constructor; simpl; [nia|]. eapply Forall_impl; [apply IH|]. intros r; simpl. nia.
Qed.

Lemma regions_sorted base bs i segs : 0 < bs -> StronglySorted before (regions base bs i segs).
Proof.
  intros Hbs. revert i; induction segs as [|[|k] segs IH]; intros i; simpl; [constructor|done|].
  constructor; [done|]. eapply Forall_impl; [by apply regions_bound|].
  intros r; unfold before; simpl. nia.
Qed.

Lemma StronglySorted_app_before a b :
  StronglySorted before a -> StronglySorted before b ->
  (forall x y, x ∈ a -> y ∈ b -> before x y) -> StronglySorted before (a ++ b).
Proof.
  induction 1 as [|x a Ha IH Hx]; intros Hb Hab; simpl; [done|].
  constructor; [apply IH; [done|]; intros; apply Hab; set_solver|].
  apply Forall_app; split; [done|]. apply Forall_forall. intros; apply Hab; set_solver.
Qed.

Lemma map_allocated_bound m segs r :
  map_wf m segs -> r ∈ map_allocated m ->
  bm_base m <= r.1 /\ 0 < r.2 /\ r.1 + r.2 <= bm_base m + bm_block_size m * bm_count m.
Proof.
  intros Hwf. rewrite (map_allocated_regions _ _ Hwf). intros Hr. destruct Hwf.
  pose proof (regions_bound (bm_base m) (bm_block_size m) 0 segs ltac:(lia)) as Hb.
  rewrite Forall_forall in Hb. specialize (Hb r Hr). simpl in Hb. lia.
Qed.

Lemma chained_le base maps segss limit :
  Forall2 map_wf maps segss -> chained base maps limit -> base <= limit.
Proof.
  intros H; revert base. induction H as [|m segs maps segss Hm _ IH]; intros base; simpl; [done|].
  intros [_ Hc]. apply IH in Hc. destruct Hm. nia.
Qed.

Lemma chained_bound base maps segss limit r :
  Forall2 map_wf maps segss -> chained base maps limit -> r ∈ maps ≫= map_allocated ->
  base <= r.1 /\ 0 < r.2 /\ r.1 + r.2 <= limit.
Proof.
  intros H; revert base. induction H as [|m segs maps segss Hm Hms IH]; intros base; simpl.
  - intros _ Hr. by apply elem_of_nil in Hr.
  - intros [Hbase Hch] Hr. apply elem_of_app in Hr as [Hr|Hr].
    + pose proof (map_allocated_bound _ _ _ Hm Hr) as (? & ? & ?).
      pose proof (chained_le _ _ _ _ Hms Hch). lia.
    + destruct (IH _ Hch Hr) as (? & ? & ?). destruct Hm. split_and!; nia.
Qed.

Lemma chained_sorted base maps segss limit :
  Forall2 map_wf maps segss -> chained base maps limit ->
  StronglySorted before (maps ≫= map_allocated).
Proof.
  intros H; revert base. induction H as [|m segs maps segss Hm Hms IH]; intros base; simpl.
  - constructor.
  - intros [Hbase Hch]. apply StronglySorted_app_before; [|by eapply IH|].
    + rewrite (map_allocated_regions _ _ Hm). apply regions_sorted. destruct Hm. lia.
    + intros x y Hx Hy. pose proof (map_allocated_bound _ _ _ Hm Hx).
      pose proof (chained_bound _ _ _ _ _ Hms Hch Hy). unfold before. lia.
Qed.

(** ** Updating one map *)

Lemma chained_insert base maps limit level m m' :
  maps !! level = Some m -> same_geom m m' -> chained base maps limit ->
  chained base (<[level := m']> maps) limit.
Proof.
  intros Hl (Hbs & Hc & Hb). revert base level Hl.
  induction maps as [|m0 maps IH]; intros base [|level]; simpl; [done..| |].
  - intros [= ->] [? ?]. by rewrite Hb, Hbs, Hc.
  - intros Hl [? ?]. eauto.
Qed.

Lemma chained_lookup base maps segss limit level m :
  Forall2 map_wf maps segss -> chained base maps limit -> maps !! level = Some m ->
  base <= bm_base m /\ bm_base m + bm_block_size m * bm_count m <= limit.
Proof.
  intros H; revert base level. induction H as [|m0 segs maps segss Hm Hms IH]; intros base level; [done|].
  simpl. intros [Hb Hc] Hl. destruct level as [|level]; simplify_eq/=.
  - pose proof (chained_le _ _ _ _ Hms Hc). lia.
  - destruct (IH _ _ Hc Hl). destruct Hm. nia.
Qed.

(** Replacing a map replaces its ranges. *)
Lemma allocated_set_level h level m m' info :
  hp_map h !! level = Some m ->
  exists before_ after_, allocated h = before_ ++ map_allocated m ++ after_ /\
    allocated (set_level h level m' info) = before_ ++ map_allocated m' ++ after_.
Proof.
  intros Hl. unfold allocated, set_level; simpl.
  exists (take level (hp_map h) ≫= map_allocated), (drop (S level) (hp_map h) ≫= map_allocated).
  split.
  - rewrite <-(take_drop_middle _ _ _ Hl) at 1. by rewrite bind_app, bind_cons.
  - rewrite insert_take_drop by (by eapply lookup_lt_Some). by rewrite bind_app, bind_cons.
Qed.

Lemma regions_group_perm base bs pre k post :
  regions base bs 0 (pre ++ Used k :: post) ≡ₚ
  (base + Z.of_nat (segs_len pre) * bs, Z.of_nat (S k) * bs) ::
    regions base bs 0 (pre ++ replicate (S k) Free ++ post).
Proof.
  rewrite !regions_app, regions_frees, segs_len_frees. cbn [regions app].
  by rewrite <-Permutation_middle.
Qed.

Lemma heap_inv_lookup h segss level m :
  heap_inv h segss -> hp_map h !! level = Some m ->
  exists segs, segss !! level = Some segs /\ map_wf m segs /\
    bm_base m + bm_block_size m * bm_count m <= hp_heap h + hp_size h.
Proof.
  intros [] Hl. destruct (Forall2_lookup_l _ _ _ _ _ hi_maps0 Hl) as (segs & ? & ?).
  exists segs. split_and!; try done. by eapply chained_lookup.
Qed.

(** What fits in the heap is at most its size. *)
Lemma sorted_bytes lo hi rs :
  StronglySorted before rs -> Forall (fun r => lo <= r.1 /\ 0 < r.2 /\ r.1 + r.2 <= hi) rs ->
  lo <= hi -> region_bytes rs <= hi - lo.
Proof.
  intros H. revert lo. induction H as [|r rs Hs IH Hr]; intros lo Hall Hle; simpl; [lia|].
  inversion_clear Hall as [|? ? (H1 & H2 & H3) Hall']. specialize (IH (r.1 + r.2)).
  enough (region_bytes rs <= hi - (r.1 + r.2)) by lia. apply IH; [|lia].
  rewrite Forall_forall in *. intros y Hy. specialize (Hr y Hy). specialize (Hall' y Hy).
  unfold before in Hr. lia.
Qed.

Lemma region_bytes_nonneg rs : Forall (fun r : Z * Z => 0 < r.2) rs -> 0 <= region_bytes rs.
Proof. induction 1; simpl; lia. Qed.

(** The accounting of a well-formed heap stays in range. *)
Lemma maps_bytes base maps segss limit :
  Forall2 map_wf maps segss -> chained base maps limit ->
  0 <= region_bytes (maps ≫= map_allocated) <= limit - base.
Proof.
  intros H Hc. split.
  - apply region_bytes_nonneg, Forall_forall. intros r Hr.
    by destruct (chained_bound _ _ _ _ _ H Hc Hr) as (_ & ? & _).
  - apply sorted_bytes; [by eapply chained_sorted| |by eapply chained_le].
    apply Forall_forall. intros r Hr. by eapply chained_bound.
Qed.

(** Taking [k + 1] free blocks of a map adds their range. *)
Lemma heap_take h segss level m m' pre k post :
  heap_inv h segss -> hp_map h !! level = Some m ->
  map_wf m (pre ++ replicate (S k) Free ++ post) -> map_wf m' (pre ++ Used k :: post) ->
  same_geom m m' ->
  let h' := set_level h level m' (take_info h (Z.of_nat (S k) * bm_block_size m)) in
  let r := (bm_base m + Z.of_nat (segs_len pre) * bm_block_size m,
            Z.of_nat (S k) * bm_block_size m) in
  heap_inv h' (<[level := pre ++ Used k :: post]> segss) /\ allocated h' ≡ₚ r :: allocated h.
Proof.
  intros Hinv Hl Hm Hm' Hg h' r. pose proof Hinv as [].
  assert (allocated h' ≡ₚ r :: allocated h) as Hperm.
  { destruct (allocated_set_level h level m m'
      (take_info h (Z.of_nat (S k) * bm_block_size m)) Hl) as (b & a & -> & E).
    fold h' in E. rewrite E, (map_allocated_regions _ _ Hm), (map_allocated_regions _ _ Hm').
    destruct Hg as (-> & _ & ->). rewrite regions_group_perm. cbn [app].
    symmetry. apply Permutation_middle. }
  split; [|done].
  assert (Forall2 map_wf (hp_map h') (<[level := pre ++ Used k :: post]> segss)) as HF
    by (by apply Forall2_insert).
  assert (chained (hp_heap h) (hp_map h') (hp_heap h + hp_size h)) as Hch
    by (by eapply chained_insert).
  pose proof (maps_bytes _ _ _ _ HF Hch) as Hb. fold (allocated h') in Hb.
  apply region_bytes_perm in Hperm. simpl in Hperm.
  pose proof (maps_bytes _ _ _ _ hi_maps0 hi_chain0) as Hb0. fold (allocated h) in Hb0.
  destruct Hm. constructor; try done; rewrite ?Hperm; unfold h', take_info;
    cbn [hp_info set_level i_used i_free hp_size hp_heap]; rewrite !u32_small; lia.
Qed.

(** Giving a group back removes its range. *)
Lemma heap_give h segss level m m' pre k post :
  heap_inv h segss -> hp_map h !! level = Some m ->
  map_wf m (pre ++ Used k :: post) -> map_wf m' (pre ++ replicate (S k) Free ++ post) ->
  same_geom m m' ->
  let h' := set_level h level m' (give_info h (Z.of_nat (S k) * bm_block_size m)) in
  let r := (bm_base m + Z.of_nat (segs_len pre) * bm_block_size m,
            Z.of_nat (S k) * bm_block_size m) in
  heap_inv h' (<[level := pre ++ replicate (S k) Free ++ post]> segss) /\
  allocated h ≡ₚ r :: allocated h'.
Proof.
  intros Hinv Hl Hm Hm' Hg h' r. pose proof Hinv as [].
  assert (allocated h ≡ₚ r :: allocated h') as Hperm.
  { destruct (allocated_set_level h level m m'
      (give_info h (Z.of_nat (S k) * bm_block_size m)) Hl) as (b & a & -> & E).
    fold h' in E. rewrite E, (map_allocated_regions _ _ Hm), (map_allocated_regions _ _ Hm').
    destruct Hg as (-> & _ & ->). rewrite regions_group_perm. cbn [app].
    symmetry. apply Permutation_middle. }
  split; [|done].
  assert (Forall2 map_wf (hp_map h') (<[level := pre ++ replicate (S k) Free ++ post]> segss)) as HF
    by (by apply Forall2_insert).
  assert (chained (hp_heap h) (hp_map h') (hp_heap h + hp_size h)) as Hch
    by (by eapply chained_insert).
  pose proof (maps_bytes _ _ _ _ HF Hch) as Hb. fold (allocated h') in Hb.
  apply region_bytes_perm in Hperm. simpl in Hperm.
  pose proof (maps_bytes _ _ _ _ hi_maps0 hi_chain0) as Hb0. fold (allocated h) in Hb0.
  assert (region_bytes (allocated h') = i_used (hp_info h) - Z.of_nat (S k) * bm_block_size m)
    as Hrest by lia.
  destruct Hm. constructor; try done; rewrite ?Hrest; unfold h', give_info;
    cbn [hp_info set_level i_used i_free hp_size hp_heap]; rewrite !u32_small; lia.
Qed.

(** ** Allocation takes one group *)

(** [h'] is [h] after a group of its blocks was taken; [p] is the aligned
    address of [bytes] bytes in the group. *)
Inductive taken (h : mm_heap) (bytes alignment : Z) (h' : mm_heap) (p : Z) : Prop :=
| taken_intro level m m' pre k post :
    hp_map h !! level = Some m ->
    map_wf m (pre ++ replicate (S k) Free ++ post) -> map_wf m' (pre ++ Used k :: post) ->
    same_geom m m' ->
    h' = set_level h level m' (take_info h (Z.of_nat (S k) * bm_block_size m)) ->
    aligned_to alignment p ->
    bm_base m + Z.of_nat (segs_len pre) * bm_block_size m <= p <
      bm_base m + Z.of_nat (segs_len pre + S k) * bm_block_size m ->
    p + bytes <= bm_base m + Z.of_nat (segs_len pre + S k) * bm_block_size m ->
    taken h bytes alignment h' p.

Lemma taken_nonnull h bytes alignment h' p : taken h bytes alignment h' p -> p <> 0.
Proof. intros [level m m' pre k post Hl [] ? ? ? ? ? ?]. nia. Qed.

(** The effect of [taken] on the ranges. *)
Lemma taken_allocated h bytes alignment h' p :
  heap_wf h -> taken h bytes alignment h' p ->
  heap_wf h' /\ exists r, allocated h' ≡ₚ r :: allocated h /\ r.1 <= p < r.1 + r.2 /\
    p + bytes <= r.1 + r.2.
Proof.
  intros [segss Hinv] [level m m' pre k post Hl Hm Hm' Hg -> Ha Hp Hb].
  destruct (heap_take h segss level m m' pre k post) as [Hinv' Hperm]; [done..|].
  split; [by eexists|]. eexists; split; [exact Hperm|]. simpl. nia.
Qed.

Lemma align_ptr_spec alignment v :
  0 <= v -> alignment_ok alignment (v + 1) ->
  exists a, align_ptr alignment v = Some a /\ aligned_to alignment a /\
    v <= a < v + Z.max 1 alignment /\ (aligned_to alignment v -> a = v) /\
    (1 < alignment -> ALIGN_UP v alignment = Some a).
Proof.
  intros Hv Hok. destruct (block_alignment alignment v Hv Hok) as (a & Ha & Hd & Hr & Hl & _).
  unfold align_ptr. destruct Hok as [Hcase Hb]. case_if.
  - exists v. split_and!; try done; try lia.
    destruct Hcase as [->|[? _]]; [by left|right; exists v; nia].
  - replace (alignment =? 0) with false in Ha by (symmetry; apply Z.eqb_neq; lia).
    exists a. split_and!; try done; try lia.
    intros Hav. specialize (Hl v Hav). lia.
Qed.

Lemma first_free_seg m segs :
  map_wf m segs -> bm_free_count m <> 0 ->
  exists pre post, segs = pre ++ Free :: post /\ bm_first_free m = Z.of_nat (segs_len pre).
Proof.
  intros Hwf Hne. destruct (first_free_ok_free _ _ (mw_first _ _ Hwf)) as (pre & post & ? & _ & ?).
  - rewrite (mw_free _ _ Hwf) in Hne. lia.
  - eauto.
Qed.

(** Taking the free block at [pre], when it holds [bytes] aligned bytes. *)
Lemma alloc_index_taken h segss level m pre post bytes alignment index :
  heap_inv h segss -> hp_map h !! level = Some m -> map_wf m (pre ++ Free :: post) ->
  index = Z.of_nat (segs_len pre) \/ (index < 0 /\ bm_first_free m = Z.of_nat (segs_len pre)) ->
  alignment_ok alignment (hp_heap h + hp_size h) ->
  let v := bm_base m + Z.of_nat (segs_len pre) * bm_block_size m in
  (forall a, align_ptr alignment v = Some a -> v <= a ->
     a < v + bm_block_size m /\ a + bytes <= v + bm_block_size m) ->
  exists h' p, alloc_block_index h level alignment index = Some (h', p) /\
    taken h bytes alignment h' p.
Proof.
  intros Hinv Hl Hm Hidx [Hcase Hok] v Hfit.
  destruct (heap_inv_lookup _ _ _ _ Hinv Hl) as (segs & _ & _ & Hend). pose proof Hm as [].
  rewrite segs_len_app in mw_count. simpl in mw_count.
  destruct (align_ptr_spec alignment v) as (a & Ha & Hd & Hr & _); [subst v; nia| |].
  { split; [done|subst v; nia]. }
  destruct (alloc_block_index_spec h level m pre post alignment index a) as (m' & -> & Hm' & Hg);
    [done..|].
  eexists _, _; split; [done|]. destruct (Hfit a) as [H1 H2]; [done|lia|]. subst v.
  eapply (taken_intro _ _ _ _ _ level m m' pre 0 post); try done.
  - by rewrite Z.mul_1_l.
  - lia.
  - lia.
Qed.

(** ** [get_ptr_from_heap] *)

(** The size a block must have, counting the slack for the alignment. *)
Definition needed (m : block_map) (bytes alignment : Z) : Z :=
  if negb (alignment =? 0) &&
     negb ((bm_base m + bm_block_size m * bm_first_free m) mod alignment =? 0)
  then bytes + alignment else bytes.

Lemma alignment_ok_nonneg alignment limit : alignment_ok alignment limit -> 0 <= alignment.
Proof. intros [[->|[? _]] _]; lia. Qed.

Lemma get_ptr_loop_spec h segss caps bytes alignment levels :
  heap_inv h segss -> 0 <= bytes -> bytes + alignment < 2 ^ 31 ->
  alignment_ok alignment (hp_heap h + hp_size h) ->
  Forall (fun i => i < length (hp_map h))%nat levels ->
  exists h' p, get_ptr_loop h caps bytes alignment levels = Some (h', p) /\
    (taken h bytes alignment h' p \/
     (h' = h /\ p = 0 /\ forall i m, i ∈ levels -> hp_map h !! i = Some m ->
        bm_free_count m = 0 \/ bm_block_size m < needed m bytes alignment)).
Proof.
  intros Hinv Hb0 Hb Hok. pose proof (alignment_ok_nonneg _ _ Hok) as Ha0.
  induction 1 as [|i levels Hi Hlv IH]; simpl.
  { eexists _, _; split; [done|]. right. split_and!; [done..|]. set_solver. }
  destruct (lookup_lt_is_Some_2 _ _ Hi) as [m Hm]. rewrite Hm. cbn [mbind option_bind].
  destruct (heap_inv_lookup _ _ _ _ Hinv Hm) as (segs & _ & Hwf & Hend).
  pose proof (first_free_ok_range _ _ (mw_first _ _ Hwf)) as Hff.
  rewrite <-(mw_count _ _ Hwf) in Hff. rewrite (map_block_addr' m segs) by done.
  rewrite (i32_small bytes) by lia.
  replace (if _ && _ then _ else _) with (needed m bytes alignment).
  2:{ unfold needed. rewrite (Z.mul_comm (bm_block_size m)).
      destruct (_ && _); [|done]. rewrite u32_small, i32_small by lia. done. }
  case_if; [|case_if].
  3:{ destruct (first_free_seg _ _ Hwf) as (pre & post & -> & Hpre); [done|].
      destruct (alloc_index_taken h segss i m pre post bytes alignment (-1)) as (h' & p & E & Ht);
        [done..|right; lia|done| |eauto].
      intros a Ha Hva. rewrite Hpre in *. unfold needed in *.
      set (v := bm_base m + Z.of_nat (segs_len pre) * bm_block_size m) in *.
      pose proof Hwf as [].
      destruct (align_ptr_spec alignment v) as (a' & Ha' & Hd & Hr & Hv & _); [subst v; nia| |].
      { destruct Hok. split; [done|]. rewrite segs_len_app in mw_count. simpl in mw_count.
        subst v; nia. }
      simplify_eq. rewrite Hpre, (Z.mul_comm (bm_block_size m)) in Heqb. fold v in Heqb.
      destruct (alignment =? 0) eqn:E0; simpl in Heqb; zbool.
      - rewrite (Hv ltac:(by left)). lia.
      - destruct (v mod alignment =? 0) eqn:E1; simpl in Heqb; zbool; [|lia].
        rewrite Hv; [lia|]. right. by apply Z.mod_divide. }
  all: destruct IH as (h' & p & -> & [Ht|(-> & -> & Hno)]); eexists _, _;
    (split; [done|]); [by left|right]; split_and!; [done..|];
    intros j m0 Hj Hm0; apply elem_of_cons in Hj as [->|Hj]; [simplify_eq; lia|by eapply Hno].
Qed.

Lemma alignment_pow2 alignment limit :
  alignment_ok alignment limit -> Z.land alignment (alignment - 1) = 0.
Proof. intros [[->|[_ H]] _]; [done|]. unfold is_power_of_2 in H. by zbool. Qed.

(** ** [alloc_heap_buffer] *)

(** Block [i] is free and holds [bytes] aligned bytes. *)
Definition fits_block (m : block_map) (bytes alignment i : Z) : Prop :=
  free_at m i /\ exists a, aligned_to alignment a /\
    bm_base m + i * bm_block_size m <= a /\ a + bytes <= bm_base m + (i + 1) * bm_block_size m.

Lemma single_scan_spec m segs bytes alignment :
  map_wf m segs -> 0 < bytes <= bm_block_size m -> 1 < alignment ->
  alignment_ok alignment (bm_base m + bm_block_size m * bm_count m) ->
  forall hs j, 0 <= j <= bm_count m -> drop (Z.to_nat j) (bm_block m) = hs ->
  exists r, single_scan m bytes alignment j (bm_base m + j * bm_block_size m) hs = Some r /\
    match r with
    | Some i => j <= i /\ fits_block m bytes alignment i
    | None => forall i, j <= i -> ~ fits_block m bytes alignment i
    end.
Proof.
  intros Hwf Hb Ha Hok hs. pose proof Hwf as [].
  assert (Z.of_nat (length (bm_block m)) = bm_count m) as Hlen
    by (rewrite mw_block, length_layout; lia).
  induction hs as [|h hs IH]; intros j Hj Hdrop; cbn [single_scan].
  - exists None. split; [done|]. intros i Hi [[? _] _].
    apply (f_equal length) in Hdrop. rewrite length_drop in Hdrop. simpl in Hdrop. lia.
  - assert (bm_block m !! Z.to_nat j = Some h) as Hh.
    { rewrite <-(Nat.add_0_r (Z.to_nat j)), <-lookup_drop, Hdrop. done. }
    pose proof (lookup_lt_Some _ _ _ Hh) as Hlt.
    assert (bm_base m + j * bm_block_size m + bm_block_size m = bm_base m + (j + 1) * bm_block_size m)
      as Enext by lia.
    rewrite Enext, (map_block_addr m segs (j + 1)) by (done || lia).
    destruct (IH (j + 1)) as (r & -> & Hr); [lia| |].
    { replace (Z.to_nat (j + 1)) with (Z.to_nat j + 1)%nat by lia. by rewrite <-drop_drop, Hdrop. }
    assert (~ fits_block m bytes alignment j -> match r with
      | Some i => j <= i /\ fits_block m bytes alignment i
      | None => forall i, j <= i -> ~ fits_block m bytes alignment i end) as Hnext.
    { intros Hj'. destruct r as [i|]; [split; [lia|apply Hr]|]. intros i Hi.
      destruct (decide (i = j)) as [->|]; [done|apply Hr; lia]. }
    case_if.
    { exists r. split; [done|]. apply Hnext. intros [Hf _]. by eapply used_not_free. }
    destruct Hok as [[?|[_ Hp]] Hlim]; [lia|].
    destruct (ALIGN_UP_spec (bm_base m + j * bm_block_size m) alignment)
      as (a & -> & Hd & Har & Hl); [nia|done|lia|nia|]. cbn [mbind option_bind].
    rewrite u32_small by nia. case_if.
    + exists r. split; [done|]. apply Hnext. intros [_ (b & [->|Hb'] & Hb1 & Hb2)]; [lia|].
      specialize (Hl b Hb' Hb1). lia.
    + exists (Some j). split; [done|]. split; [lia|]. split; [by eapply free_at_hdr; [lia| |]|].
      exists a. split_and!; [by right|lia|lia].
Qed.

Lemma free_at_seg m segs i :
  map_wf m segs -> free_at m i ->
  exists pre post, segs = pre ++ Free :: post /\ i = Z.of_nat (segs_len pre).
Proof.
  intros Hwf [Hi (h & Hh & Hu)]. rewrite (mw_block _ _ Hwf) in Hh.
  destruct (layout_free_split _ _ _ _ _ _ Hh Hu) as (pre & post & -> & Hl).
  exists pre, post. split; [done|lia].
Qed.

(** The least aligned address is the one [align_ptr] returns. *)
Lemma align_ptr_least alignment v a b :
  0 <= v -> alignment_ok alignment (v + 1) -> align_ptr alignment v = Some a ->
  aligned_to alignment b -> v <= b -> a <= b.
Proof.
  intros Hv Hok Ha Hb Hvb. unfold align_ptr in Ha. case_match; zbool; simplify_eq; [done|].
  destruct Hok as [[->|[_ Hp]] ?]; [lia|].
  destruct (ALIGN_UP_spec v alignment) as (a' & Ha' & _ & _ & Hl); [lia|done|lia|lia|].
  simplify_eq. destruct Hb as [?|?]; [lia|auto].
Qed.

(** A block that fits can be taken. *)
Lemma fits_taken h segss level m i bytes alignment :
  heap_inv h segss -> hp_map h !! level = Some m -> 0 < bytes ->
  alignment_ok alignment (hp_heap h + hp_size h) -> fits_block m bytes alignment i ->
  exists h' p, alloc_block_index h level alignment i = Some (h', p) /\ taken h bytes alignment h' p.
Proof.
  intros Hinv Hl Hb Hok [Hfree (b & Hal & Hb1 & Hb2)].
  destruct (heap_inv_lookup _ _ _ _ Hinv Hl) as (segs & _ & Hwf & Hend).
  destruct (free_at_seg _ _ _ Hwf Hfree) as (pre & post & -> & ->).
  eapply alloc_index_taken; [done..|by left|done|].
  intros a Ha Hva. destruct Hfree as [Hi _]. pose proof Hwf as [].
  assert (a <= b); [|lia]. eapply align_ptr_least; [| |exact Ha|done|done]; [nia|].
  destruct Hok; split; [done|nia].
Qed.

Lemma single_loop_spec h segss caps bytes alignment levels :
  heap_inv h segss -> 0 < bytes -> alignment_ok alignment (hp_heap h + hp_size h) ->
  Forall (fun i => i < length (hp_map h))%nat levels ->
  exists h' p, single_loop h caps bytes alignment levels = Some (h', p) /\
    (taken h bytes alignment h' p \/
     (h' = h /\ p = 0 /\ forall l m i, l ∈ levels -> hp_map h !! l = Some m ->
        bytes <= bm_block_size m -> ~ fits_block m bytes alignment i)).
Proof.
  intros Hinv Hb Hok. induction 1 as [|l levels Hi Hlv IH]; cbn [single_loop].
  { eexists _, _; split; [done|]. right. split_and!; [done..|]. set_solver. }
  destruct (lookup_lt_is_Some_2 _ _ Hi) as [m Hm]. rewrite Hm. cbn [mbind option_bind].
  destruct (heap_inv_lookup _ _ _ _ Hinv Hm) as (segs & _ & Hwf & Hend).
  assert ((bytes <= bm_block_size m -> forall i, ~ fits_block m bytes alignment i) ->
    exists h' p, single_loop h caps bytes alignment levels = Some (h', p) /\
    (taken h bytes alignment h' p \/
     (h' = h /\ p = 0 /\ forall l' m i, l' ∈ l :: levels -> hp_map h !! l' = Some m ->
        bytes <= bm_block_size m -> ~ fits_block m bytes alignment i))) as Hnext.
  { intros Hno. destruct IH as (h' & p & -> & [Ht|(-> & -> & Hno')]); eexists _, _;
      (split; [done|]); [by left|right]. split_and!; [done..|].
    intros l' m' i Hl' Hm' Hle. apply elem_of_cons in Hl' as [->|Hl']; [simplify_eq; auto|eauto]. }
  case_if.
  { apply Hnext. intros Hle i [Hfree _]. destruct Heqb as [?|Hfc]; zbool; [lia|].
    destruct (free_at_seg _ _ _ Hwf Hfree) as (pre & post & -> & _).
    rewrite (mw_free _ _ Hwf), segs_free_app in Hfc. simpl in Hfc. lia. }
  pose proof (first_free_ok_range _ _ (mw_first _ _ Hwf)) as Hff.
  rewrite <-(mw_count _ _ Hwf) in Hff. case_if.
  - destruct (first_free_seg _ _ Hwf) as (pre & post & -> & Hpre); [done|].
    destruct (alloc_index_taken h segss l m pre post bytes alignment (-1)) as (h' & p & E & Ht);
      [done..|right; lia|done| |eauto].
    intros a Ha _. unfold align_ptr in Ha. case_match; zbool; simplify_eq; lia.
  - rewrite (hdrs_from_wf m segs), (map_block_addr' m segs) by done.
    destruct (single_scan_spec m segs bytes alignment Hwf) with (j := bm_first_free m)
      (hs := drop (Z.to_nat (bm_first_free m)) (bm_block m)) as (r & -> & Hr); [lia|lia| |done..|].
    { destruct Hok; split; [done|lia]. }
    cbn [mbind option_bind]. destruct r as [i|].
    + destruct (fits_taken h segss l m i bytes alignment) as (h' & p & -> & Ht); [done..|apply Hr|].
      cbn [mbind option_bind snd fst]. pose proof (taken_nonnull _ _ _ _ _ Ht).
      replace (p =? 0) with false by (symmetry; by apply Z.eqb_neq). eauto.
    + apply Hnext. intros _ i Hfit. apply (Hr i); [|done].
      destruct Hfit as [Hfree _]. by eapply free_at_after_first.
Qed.

Lemma cont_levels_spec h segss caps bytes alignment levels :
  heap_inv h segss -> 0 <= bytes -> bytes + alignment <= 2 ^ 32 ->
  alignment_ok alignment (hp_heap h + hp_size h) ->
  Forall (fun i => i < length (hp_map h))%nat levels ->
  exists h' p, cont_levels h caps bytes alignment levels = Some (h', p) /\
    (taken h bytes alignment h' p \/
     (h' = h /\ p = 0 /\ forall l m a s e, l ∈ levels -> hp_map h !! l = Some m ->
        bm_block_size m < bytes -> ~ room m bytes alignment a s e)).
Proof.
  intros Hinv Hb0 Hb Hok. induction 1 as [|l levels Hi Hlv IH]; cbn [cont_levels].
  { eexists _, _; split; [done|]. right. split_and!; [done..|]. set_solver. }
  destruct (lookup_lt_is_Some_2 _ _ Hi) as [m Hm]. rewrite Hm. cbn [mbind option_bind].
  destruct (heap_inv_lookup _ _ _ _ Hinv Hm) as (segs & _ & Hwf & Hend).
  assert ((bm_block_size m < bytes -> forall a s e, ~ room m bytes alignment a s e) ->
    exists h' p, cont_levels h caps bytes alignment levels = Some (h', p) /\
    (taken h bytes alignment h' p \/
     (h' = h /\ p = 0 /\ forall l' m a s e, l' ∈ l :: levels -> hp_map h !! l' = Some m ->
        bm_block_size m < bytes -> ~ room m bytes alignment a s e))) as Hnext.
  { intros Hno. destruct IH as (h' & p & -> & [Ht|(-> & -> & Hno')]); eexists _, _;
      (split; [done|]); [by left|right]. split_and!; [done..|].
    intros l' m' a s e Hl' Hm' Hle. apply elem_of_cons in Hl' as [->|Hl']; [simplify_eq; auto|eauto]. }
  case_if; [|apply Hnext; lia]. pose proof (mw_bs _ _ Hwf).
  destruct (alloc_cont_blocks_spec h l m segs caps bytes alignment)
    as [[-> Hno]|(pre & k & post & m' & p & -> & -> & Hm' & Hg & Hal & Hlo & Hhi)];
    [done..|lia|done| | |].
  - destruct Hok; split; [done|lia].
  - cbn. by apply Hnext.
  - cbn [mbind option_bind fst snd].
    assert (taken h bytes alignment
      (set_level h l m' (take_info h (Z.of_nat (S k) * bm_block_size m))) p) as Ht
      by (eapply taken_intro; try done; lia).
    pose proof (taken_nonnull _ _ _ _ _ Ht).
    replace (p =? 0) with false by (symmetry; by apply Z.eqb_neq). eauto.
Qed.

(** A larger request gives room for a smaller one. *)
Lemma taken_mono h bytes bytes' alignment h' p :
  taken h bytes alignment h' p -> bytes' <= bytes -> taken h bytes' alignment h' p.
Proof. intros [] ?. eapply taken_intro; eauto. lia. Qed.

Lemma seq_levels n : Forall (fun i => i < n)%nat (seq 0 n).
Proof. apply Forall_forall. intros i. rewrite elem_of_seq. lia. Qed.

(** The whole of [alloc_heap_buffer]. *)
Lemma alloc_heap_buffer_spec h segss flags caps bytes alignment :
  heap_inv h segss -> 0 < bytes -> bytes + alignment < 2 ^ 32 ->
  alignment_ok alignment (hp_heap h + hp_size h) ->
  exists h' p, alloc_heap_buffer h flags caps bytes alignment = Some (h', p) /\
    (taken h bytes alignment h' p \/
     (h' = h /\ p = 0 /\ forall m, m ∈ hp_map h ->
       (bytes <= bm_block_size m -> forall i, ~ fits_block m bytes alignment i) /\
       (bm_block_size m < bytes + alignment -> forall a s e,
          ~ room m (bytes + alignment) alignment a s e))).
Proof.
  intros Hinv Hb0 Hb Hok. pose proof (alignment_ok_nonneg _ _ Hok) as Ha0.
  unfold alloc_heap_buffer. rewrite (alignment_pow2 _ _ Hok). cbn [negb Z.eqb].
  destruct (single_loop_spec h segss caps bytes alignment (seq 0 (length (hp_map h))))
    as (h' & p & -> & Hs); [done..|apply seq_levels|]. cbn [mbind option_bind fst snd].
  destruct Hs as [Ht|(-> & -> & Hno)].
  { pose proof (taken_nonnull _ _ _ _ _ Ht).
    replace (p =? 0) with false by (symmetry; by apply Z.eqb_neq). eauto. }
  assert (forall m, m ∈ hp_map h -> bytes <= bm_block_size m ->
            forall i, ~ fits_block m bytes alignment i) as Hsingle.
  { intros m Hm Hle i. apply list_elem_of_lookup in Hm as [l Hl].
    apply (Hno l m i); [|done..]. apply elem_of_seq. apply lookup_lt_Some in Hl. lia. }
  cbn [negb Z.eqb]. rewrite u32_small by lia. case_if.
  { eexists _, _; split; [done|]. right. split_and!; [done..|]. intros m Hm. split; [auto|].
    intros _ a s e Hroom. apply list_elem_of_lookup in Hm as [l Hl].
    destruct (heap_inv_lookup _ _ _ _ Hinv Hl) as (segs & _ & Hwf & Hend).
    pose proof (chained_lookup _ _ _ _ _ _ (hi_maps _ _ Hinv) (hi_chain _ _ Hinv) Hl) as [Hlo _].
    destruct Hroom, Hwf. destruct (room_free (e - 1)) as [? _]; [lia|].
    destruct (room_free s) as [? _]; [lia|]. nia. }
  pose proof (hi_heap _ _ Hinv). pose proof (hi_limit _ _ Hinv). destruct Hok as [Hcase Hlim].
  destruct (cont_levels_spec h segss caps (bytes + alignment) alignment
    (reverse (seq 0 (length (hp_map h))))) as (h' & p & -> & Hc); [done|lia|lia|done| |].
  { apply Forall_reverse, seq_levels. }
  eexists _, _; split; [done|]. destruct Hc as [Ht|(-> & -> & Hno')].
  - left. eapply taken_mono; [done|lia].
  - right. split_and!; [done..|]. intros m Hm. split; [auto|]. intros Hlt a s e.
    apply list_elem_of_lookup in Hm as [l Hl]. apply (Hno' l m a s e); [|done..].
    rewrite elem_of_reverse, elem_of_seq. apply lookup_lt_Some in Hl. lia.
Qed.
