(* ===== verification/HeapFree.v ===== *)
(** * Freeing, and the heap as a set of ranges

    Freeing a pointer inside an allocated range removes that range and nothing
    else; freeing what an allocation returned restores the heap; the errors of
    [free_block]. The properties of the block heaps are at the end. *)

From stdpp Require Import base list numbers option sets sorting.
From S2P Require Import Prelude Heap HeapMap HeapSpec.

(** ** Finding the map of a pointer *)

Lemma find_map_level base maps segss limit level m i ptr :
  Forall2 map_wf maps segss -> chained base maps limit -> maps !! level = Some m ->
  bm_base m <= ptr < bm_base m + bm_block_size m * bm_count m ->
  find_map maps i ptr = Some (i + level)%nat.
Proof.
  intros HF; revert base level i. induction HF as [|m0 segs maps segss Hm HF IH];
    intros base level i Hc Hl Hp; [done|]. simpl in Hc. destruct Hc as [Hbase Hc]. pose proof Hm as [].
  cbn [find_map]. rewrite u32_small by nia. destruct level as [|level]; simplify_eq/=.
  - case_if; [f_equal; lia|lia].
  - destruct (chained_lookup _ _ _ _ _ _ HF Hc Hl) as [? _]. case_if; [lia|].
    rewrite (IH _ _ _ Hc Hl Hp). f_equal; lia.
Qed.

Lemma regions_elem base bs i segs r :
  r ∈ regions base bs i segs ->
  exists pre k post, segs = pre ++ Used k :: post /\
    r = (base + Z.of_nat (i + segs_len pre) * bs, Z.of_nat (S k) * bs).
Proof.
  revert i; induction segs as [|[|k] segs IH]; intros i Hr; simpl in Hr.
  - by apply elem_of_nil in Hr.
  - destruct (IH _ Hr) as (pre & k & post & -> & ->). exists (Free :: pre), k, post.
    split; [done|]. simpl. do 3 f_equal. lia.
  - apply elem_of_cons in Hr as [->|Hr].
    + exists [], k, segs. split; [done|]. simpl. do 3 f_equal; lia.
    + destruct (IH _ Hr) as (pre & k' & post & -> & ->). exists (Used k :: pre), k', post.
      split; [done|]. simpl. do 3 f_equal. lia.
Qed.

(** An allocated range is a group of one map. *)
Lemma allocated_group h segss r :
  heap_inv h segss -> r ∈ allocated h ->
  exists level m pre k post, hp_map h !! level = Some m /\ map_wf m (pre ++ Used k :: post) /\
    r = (bm_base m + Z.of_nat (segs_len pre) * bm_block_size m, Z.of_nat (S k) * bm_block_size m).
Proof.
  intros Hinv Hr. unfold allocated in Hr. apply list_elem_of_bind in Hr as (m & Hr & Hm).
  apply list_elem_of_lookup in Hm as [level Hl].
  destruct (heap_inv_lookup _ _ _ _ Hinv Hl) as (segs & _ & Hwf & _).
  rewrite (map_allocated_regions _ _ Hwf) in Hr.
  destruct (regions_elem _ _ _ _ _ Hr) as (pre & k & post & -> & ->).
  by exists level, m, pre, k, post.
Qed.

Lemma group_in_map m pre k post ptr :
  map_wf m (pre ++ Used k :: post) ->
  bm_base m + Z.of_nat (segs_len pre) * bm_block_size m <= ptr <
    bm_base m + Z.of_nat (segs_len pre + S k) * bm_block_size m ->
  bm_base m <= ptr < bm_base m + bm_block_size m * bm_count m.
Proof. intros [] Hp. rewrite segs_len_app in mw_count. simpl in mw_count. nia. Qed.

(** Freeing a pointer into a group gives the group back. *)
Lemma free_group h segss level m pre k post ptr :
  heap_inv h segss -> hp_map h !! level = Some m -> map_wf m (pre ++ Used k :: post) ->
  bm_base m + Z.of_nat (segs_len pre) * bm_block_size m <= ptr <
    bm_base m + Z.of_nat (segs_len pre + S k) * bm_block_size m ->
  exists m', free_in_heap h ptr =
      Some (set_level h level m' (give_info h (Z.of_nat (S k) * bm_block_size m))) /\
    map_wf m' (pre ++ replicate (S k) Free ++ post) /\ same_geom m m'.
Proof.
  intros Hinv Hl Hwf Hp. unfold free_in_heap.
  rewrite (find_map_level _ _ _ _ _ _ 0 ptr (hi_maps _ _ Hinv) (hi_chain _ _ Hinv) Hl)
    by (by eapply group_in_map).
  rewrite Nat.add_0_l, Hl. cbn [mbind option_bind]. by apply free_in_map_spec.
Qed.

Lemma free_in_heap_spec h r ptr :
  heap_wf h -> r ∈ allocated h -> r.1 <= ptr < r.1 + r.2 ->
  exists h', free_in_heap h ptr = Some h' /\ heap_wf h' /\ allocated h ≡ₚ r :: allocated h'.
Proof.
  intros [segss Hinv] Hr Hp.
  destruct (allocated_group _ _ _ Hinv Hr) as (level & m & pre & k & post & Hl & Hm & ->).
  simpl in Hp. destruct (free_group h segss level m pre k post ptr) as (m' & -> & Hm' & Hg);
    [done..|lia|].
  destruct (heap_give h segss level m m' pre k post) as [Hinv' Hperm]; [done..|].
  eexists; split_and!; [done|by eexists|done].
Qed.

(** ** Freeing undoes allocating *)

(** With a free block left, the segments determine the map. *)
Lemma map_wf_unique m m' segs :
  map_wf m segs -> map_wf m' segs -> same_geom m m' -> segs_free segs <> 0%nat -> m' = m.
Proof.
  intros H H' (Hbs & Hc & Hb) Hne. destruct H, H'.
  destruct (first_free_ok_free _ _ mw_first Hne) as (a & b & Hab & Ha & Hff).
  destruct (first_free_ok_free _ _ mw_first0 Hne) as (a' & b' & Hab' & Ha' & Hff').
  assert (a' = a) as ->.
  { rewrite Hab in Hab'. destruct (first_free_split a b a' b') as [[-> _]|(mid & -> & _)]; [done..|].
    rewrite segs_free_app in Ha'. simpl in Ha'. lia. }
  destruct m, m'; simpl in *. congruence.
Qed.

Lemma set_level_undo h level m m' info :
  hp_map h !! level = Some m -> info = hp_info h ->
  forall info', set_level (set_level h level m' info') level m info = h.
Proof.
  intros Hl -> info'. destruct h. unfold set_level. simpl in *.
  by rewrite list_insert_insert_eq, list_insert_id.
Qed.

Lemma heap_info_range h segss :
  heap_inv h segss -> 0 <= i_used (hp_info h) < 2 ^ 32 /\ 0 <= i_free (hp_info h) < 2 ^ 32.
Proof.
  intros [Hm Hch Hlim Hheap Hu Hf]. pose proof (maps_bytes _ _ _ _ Hm Hch) as Hb.
  fold (allocated h) in Hb. lia.
Qed.

Lemma taken_free h bytes alignment h' p q :
  heap_wf h -> taken h bytes alignment h' p -> p = q \/ p <= q < p + bytes ->
  free_in_heap h' q = Some h.
Proof.
  intros [segss Hinv] [level m m' pre k post Hl Hm Hm' Hg -> Ha Hp Hb] Hq.
  assert (bm_base m + Z.of_nat (segs_len pre) * bm_block_size m <= q <
    bm_base m + Z.of_nat (segs_len pre + S k) * bm_block_size m) as Hq' by lia. clear Hp Hq.
  destruct (heap_take h segss level m m' pre k post) as [Hinv' _]; [done..|].
  set (h' := set_level h level m' _) in *.
  assert (hp_map h' !! level = Some m') as Hl'.
  { apply list_lookup_insert_eq. by eapply lookup_lt_Some. }
  destruct Hg as (Hbs & Hc & Hbase). rewrite <-Hbs, <-Hbase in Hq'.
  destruct (free_group h' _ level m' pre k post q Hinv' Hl' Hm' Hq') as (m'' & -> & Hm'' & Hg').
  assert (m'' = m) as ->.
  { eapply map_wf_unique; [exact Hm|exact Hm''| |].
    - destruct Hg' as (? & ? & ?). split_and!; congruence.
    - rewrite !segs_free_app, segs_free_frees. lia. }
  f_equal. apply set_level_undo; [done|].
  destruct (heap_info_range _ _ Hinv) as [Hu Hf]. rewrite Hbs.
  unfold h', give_info, take_info, u32. cbn [set_level hp_info i_used i_free].
  rewrite Zminus_mod_idemp_l, Zplus_mod_idemp_l, Z.add_simpl_r, Z.sub_add, !Z.mod_small by lia.
  by destruct (hp_info h).
Qed.

(** ** The heap as a set of ranges

    The abstract allocator: its state is the collection of ranges handed out,
    a step adds a range that is apart from all others, removes one, or fails. *)

Inductive heap_op :=
| OpMalloc (flags caps bytes alignment : Z)
| OpBalloc (flags caps bytes alignment : Z)
| OpFree (ptr : Z).

Definition exec_heap_op (h : mm_heap) (op : heap_op) : option (mm_heap * Z) :=
  match op with
  | OpMalloc flags caps bytes alignment => get_ptr_from_heap h flags caps bytes alignment
  | OpBalloc flags caps bytes alignment => alloc_heap_buffer h flags caps bytes alignment
  | OpFree ptr => h ← free_in_heap h ptr; Some (h, 0)
  end.

(** A request the allocator accepts: a power of two alignment, no overflow in
    the size computation, and frees only of pointers into live ranges. *)
Definition op_ok (h : mm_heap) (op : heap_op) : Prop :=
  match op with
  | OpMalloc _ _ bytes alignment | OpBalloc _ _ bytes alignment =>
      0 < bytes /\ bytes + alignment < 2 ^ 31 /\ alignment_ok alignment (hp_heap h + hp_size h)
  | OpFree ptr => exists r, r ∈ allocated h /\ r.1 <= ptr < r.1 + r.2
  end.

Definition apart (r r' : Z * Z) : Prop := before r r' \/ before r' r.

Inductive range_step (rs : list (Z * Z)) : heap_op -> Z -> list (Z * Z) -> Prop :=
| step_alloc op bytes alignment p r rs' :
    (exists flags caps, op = OpMalloc flags caps bytes alignment \/
                        op = OpBalloc flags caps bytes alignment) ->
    p <> 0 -> aligned_to alignment p -> r.1 <= p -> p + bytes <= r.1 + r.2 ->
    Forall (apart r) rs -> rs' ≡ₚ r :: rs -> range_step rs op p rs'
| step_null op bytes alignment :
    (exists flags caps, op = OpMalloc flags caps bytes alignment \/
                        op = OpBalloc flags caps bytes alignment) ->
    range_step rs op 0 rs
| step_free ptr r rs' :
    r.1 <= ptr < r.1 + r.2 -> rs ≡ₚ r :: rs' -> range_step rs (OpFree ptr) 0 rs'.

(** The ranges of a well-formed heap are pairwise apart and inside it. *)
Lemma allocated_apart h :
  heap_wf h -> StronglySorted before (allocated h) /\
    Forall (fun r => hp_heap h <= r.1 /\ 0 < r.2 /\ r.1 + r.2 <= hp_heap h + hp_size h) (allocated h).
Proof.
  intros [segss []]. split; [by eapply chained_sorted|].
  apply Forall_forall. intros r Hr. by eapply chained_bound.
Qed.

Lemma sorted_perm_apart rs r rs' :
  StronglySorted before rs -> rs ≡ₚ r :: rs' -> Forall (apart r) rs'.
Proof.
  intros Hs. revert r rs'. induction Hs as [|x rs Hs IH Hx]; intros r rs' Hp.
  { by apply Permutation_nil_cons in Hp. }
  rewrite Forall_forall in Hx.
  assert (r ∈ x :: rs) as Hr by (rewrite Hp; set_solver).
  apply elem_of_cons in Hr as [->|Hr].
  - apply Permutation_cons_inv in Hp. apply Forall_forall. intros y Hy. left. apply Hx. by rewrite Hp.
  - apply elem_of_Permutation in Hr as [rs1 Hrs1].
    assert (rs' ≡ₚ x :: rs1) as ->.
    { rewrite Hrs1 in Hp. apply (Permutation_cons_inv (a := r)). rewrite <-Hp. constructor. }
    constructor; [right; apply Hx; rewrite Hrs1; set_solver|]. by apply IH.
Qed.

Lemma taken_step h op bytes alignment h' p :
  heap_wf h -> taken h bytes alignment h' p ->
  (exists flags caps, op = OpMalloc flags caps bytes alignment \/
                      op = OpBalloc flags caps bytes alignment) ->
  heap_wf h' /\ range_step (allocated h) op p (allocated h').
Proof.
  intros Hwf Ht Hop. destruct (taken_allocated _ _ _ _ _ Hwf Ht) as [Hwf' (r & Hp & Hin & Hb)].
  split; [done|]. eapply step_alloc; eauto; [by eapply taken_nonnull|by destruct Ht|lia|].
  eapply sorted_perm_apart; [|done]. by apply allocated_apart.
Qed.

Lemma get_ptr_from_heap_spec h flags caps bytes alignment :
  heap_wf h -> 0 <= bytes -> bytes + alignment < 2 ^ 31 ->
  alignment_ok alignment (hp_heap h + hp_size h) ->
  exists h' p, get_ptr_from_heap h flags caps bytes alignment = Some (h', p) /\
    (taken h bytes alignment h' p \/
     (h' = h /\ p = 0 /\ forall m, m ∈ hp_map h ->
        bm_free_count m = 0 \/ bm_block_size m < needed m bytes alignment)).
Proof.
  intros [segss Hinv] Hb0 Hb Hok. unfold get_ptr_from_heap.
  rewrite (alignment_pow2 _ _ Hok). cbn [negb Z.eqb].
  destruct (get_ptr_loop_spec h segss caps bytes alignment (seq 0 (length (hp_map h))))
    as (h' & p & -> & [Ht|(-> & -> & Hno)]); [done..|apply seq_levels|eauto|].
  eexists _, _; split; [done|]. right. split_and!; [done..|]. intros m Hm.
  apply list_elem_of_lookup in Hm as [l Hl]. apply (Hno l m); [|done].
  apply elem_of_seq. apply lookup_lt_Some in Hl. lia.
Qed.

(** ** Initialisation *)

(** [BLOCK_DEF] of [mm_heap.h], over a zeroed header array. *)
Definition BLOCK_DEF (sz : Z) (cnt : nat) : block_map :=
  mk_map sz (Z.of_nat cnt) (Z.of_nat cnt) 0 (replicate cnt free_hdr) 0.

Definition defs_bytes (defs : list (Z * nat)) : Z :=
  foldr (fun d n => d.1 * Z.of_nat d.2 + n) 0 defs.

(** A heap as the platform's memory map declares it. *)
Definition declared (defs : list (Z * nat)) (heap size caps : Z) : mm_heap :=
  mk_heap ((fun d => BLOCK_DEF d.1 d.2) <$> defs) heap size caps (mk_info 0 size).

Definition defs_ok (defs : list (Z * nat)) : Prop :=
  Forall (fun d => 0 < d.1 < 2 ^ 16 /\ Z.of_nat d.2 < 2 ^ 16) defs.

Lemma defs_bytes_nonneg defs : defs_ok defs -> 0 <= defs_bytes defs.
Proof. induction 1 as [|[sz cnt] defs]; simpl in *; nia. Qed.

Lemma init_bases_wf base defs limit :
  defs_ok defs -> 0 < base -> base + defs_bytes defs <= limit -> limit < 2 ^ 32 ->
  Forall2 map_wf (init_bases base ((fun d => BLOCK_DEF d.1 d.2) <$> defs))
    ((fun d => replicate d.2 Free) <$> defs) /\
  chained base (init_bases base ((fun d => BLOCK_DEF d.1 d.2) <$> defs)) limit /\
  init_bases base ((fun d => BLOCK_DEF d.1 d.2) <$> defs) ≫= map_allocated = [].
Proof.
  intros Hd. revert base. induction Hd as [|[sz cnt] defs [Hsz Hcnt] Hd IH]; intros base Hb Hl Hlim;
    simpl in *; [split_and!; [constructor|lia|done]|].
  pose proof (defs_bytes_nonneg _ Hd). rewrite u32_small by nia.
  destruct (IH (base + sz * Z.of_nat cnt)) as (H1 & H2 & H3); [nia|lia|done|].
  split_and!.
  - constructor; [|done]. constructor; simpl; rewrite ?segs_len_frees, ?segs_free_frees; try done; try nia.
    + by rewrite layout_frees.
    + destruct cnt as [|cnt]; [apply first_free_full; simpl; lia|].
      by eapply (first_free_at _ _ [] (replicate cnt Free)).
  - done.
  - done.
  - refine (f_equal2 app (y1 := []) _ H3). by apply hdr_regions_none.
Qed.

Lemma init_heap_map_spec defs heap size caps h :
  defs_ok defs -> 0 < heap -> defs_bytes defs <= size -> heap + size < 2 ^ 32 ->
  init_heap_map [declared defs heap size caps] = [h] -> heap_wf h /\ allocated h = [].
Proof.
  intros Hd Hh Hs Hl [= <-].
  destruct (init_bases_wf heap defs (heap + size)) as (H1 & H2 & H3); [done|lia..|].
  split; [|done]. eexists. constructor; simpl; try done; try lia.
  unfold allocated. simpl. by rewrite H3.
Qed.

(** ** Errors of [free_block] *)

(** A pointer into a free block, but not to its start. *)
Lemma free_in_map_misaligned heap level m pre post off :
  map_wf m (pre ++ Free :: post) -> 0 < off < bm_block_size m ->
  free_in_map heap level m (bm_base m + Z.of_nat (segs_len pre) * bm_block_size m + off) = None.
Proof.
  intros Hwf Hoff. pose proof Hwf as []. unfold free_in_map.
  rewrite segs_len_app in mw_count. simpl in mw_count.
  replace (bm_base m + Z.of_nat (segs_len pre) * bm_block_size m + off - bm_base m)
    with (Z.of_nat (segs_len pre) * bm_block_size m + off) by lia.
  rewrite u32_small by nia.
  assert ((Z.of_nat (segs_len pre) * bm_block_size m + off) / bm_block_size m =
    Z.of_nat (segs_len pre)) as ->.
  { rewrite Z.div_add_l, Z.div_small; lia. }
  rewrite Nat2Z.id.
  assert (bm_block m !! segs_len pre = Some free_hdr) as Hl
    by (rewrite mw_block; apply layout_lookup_free).
  rewrite Hl. cbn [mbind option_bind h_unaligned_ptr free_hdr]. rewrite andb_false_r, Nat2Z.id, Hl.
  cbn [mbind option_bind]. rewrite (map_block_addr' m (pre ++ Free :: post)) by (done || lia).
  case_if; [done|lia].
Qed.

Lemma find_map_none base maps segss limit i ptr :
  Forall2 map_wf maps segss -> chained base maps limit ->
  (forall m, m ∈ maps -> bm_base m + bm_block_size m * bm_count m <= ptr) ->
  find_map maps i ptr = None.
Proof.
  intros HF; revert base i. induction HF as [|m segs maps segss Hm HF IH]; intros base i Hc Hp; [done|].
  destruct Hc as [Hbase Hc]. cbn [find_map]. pose proof Hm as [].
  specialize (Hp m) as Hpm. rewrite u32_small by nia. case_if; [specialize (Hpm ltac:(by left)); lia|].
  eapply IH; [done|]. intros m' Hm'. apply Hp. by right.
Qed.

(** ** Properties of the block heaps *)

Fixpoint run_heap (h : mm_heap) (ops : list heap_op) : option (mm_heap * list Z) :=
  match ops with
  | [] => Some (h, [])
  | op :: ops =>
      r ← exec_heap_op h op;
      rs ← run_heap r.1 ops;
      Some (rs.1, r.2 :: rs.2)
  end.

(** Every request of a sequence is acceptable in the state it is made in. *)
Fixpoint ops_ok (h : mm_heap) (ops : list heap_op) : Prop :=
  match ops with
  | [] => True
  | op :: ops => op_ok h op /\
      match exec_heap_op h op with Some r => ops_ok r.1 ops | None => True end
  end.

Inductive range_steps : list (Z * Z) -> list heap_op -> list Z -> list (Z * Z) -> Prop :=
| steps_nil rs : range_steps rs [] [] rs
| steps_cons rs op p rs' ops ps rs'' :
    range_step rs op p rs' -> range_steps rs' ops ps rs'' ->
    range_steps rs (op :: ops) (p :: ps) rs''.

Lemma heap_step_refines h op :
  heap_wf h -> op_ok h op ->
  exists h' p, exec_heap_op h op = Some (h', p) /\ heap_wf h' /\
    range_step (allocated h) op p (allocated h').
Proof.
  intros Hwf Hok. destruct op as [flags caps bytes alignment|flags caps bytes alignment|ptr].
  - destruct Hok as (Hb0 & Hb & Hal).
    destruct (get_ptr_from_heap_spec h flags caps bytes alignment) as (h' & p & E & Hr);
      [done|lia|done..|].
    exists h', p. split; [done|]. destruct Hr as [Ht|(-> & -> & _)]; [eapply taken_step; eauto|].
    split; [done|eapply step_null; eauto].
  - destruct Hok as (Hb0 & Hb & Hal). destruct Hwf as [segss Hinv].
    destruct (alloc_heap_buffer_spec h segss flags caps bytes alignment) as (h' & p & E & Hr);
      [done|lia|lia|done|].
    exists h', p. split; [done|]. assert (heap_wf h) by (by eexists).
    destruct Hr as [Ht|(-> & -> & _)]; [eapply taken_step; eauto|].
    split; [done|eapply step_null; eauto].
  - destruct Hok as (r & Hr & Hp).
    destruct (free_in_heap_spec h r ptr) as (h' & E & Hwf' & Hperm); [done..|].
    exists h', 0. simpl. rewrite E. split_and!; [done..|]. by eapply step_free.
Qed.

(** C2: The heap refines the abstract allocator. Any sequence of acceptable
    requests to a well-formed heap (single-block and buffer allocations, frees
    of pointers into live ranges) runs without a panic, keeps the heap
    well-formed, and acts on the allocated ranges as the abstract allocator:
    an allocation returns an aligned pointer to the requested number of bytes
    inside a new range apart from every live one, or null with nothing changed;
    a free removes exactly the range the pointer is in. *)
Theorem heap_refines_ranges h ops :
  heap_wf h -> ops_ok h ops ->
  exists h' ps, run_heap h ops = Some (h', ps) /\ heap_wf h' /\
    range_steps (allocated h) ops ps (allocated h').
Proof.
  revert h; induction ops as [|op ops IH]; intros h Hwf Hok; simpl in *.
  - eexists _, _; split_and!; [done..|constructor].
  - destruct Hok as [Hop Hok]. destruct (heap_step_refines h op Hwf Hop) as (h1 & p & E & Hwf1 & Hst).
    rewrite E in Hok |- *. simpl in *. destruct (IH h1 Hwf1 Hok) as (h' & ps & -> & Hwf' & Hs).
    eexists _, _; split_and!; [done..|]. by econstructor.
Qed.

(** A heap with four 64-byte and four 384-byte blocks at 0x1000. *)
Definition demo_heap : mm_heap :=
  default (declared [] 0 0 0)
    (head (init_heap_map [declared [(64, 4%nat); (384, 4%nat)] 4096 2048 SOF_MEM_CAPS_RAM])).

Lemma demo_heap_wf : heap_wf demo_heap.
Proof.
  eapply (init_heap_map_spec [(64, 4%nat); (384, 4%nat)] 4096 2048 SOF_MEM_CAPS_RAM);
    [by repeat constructor|done..].
Qed.

(** [ops_ok] by evaluation. *)
Definition alignment_okb (alignment limit : Z) : bool :=
  ((alignment =? 0) || ((0 <? alignment) && is_power_of_2 alignment)) &&
  (limit + alignment <=? 2 ^ 32).

Definition op_okb (h : mm_heap) (op : heap_op) : bool :=
  match op with
  | OpMalloc _ _ bytes alignment | OpBalloc _ _ bytes alignment =>
      (0 <? bytes) && (bytes + alignment <? 2 ^ 31) &&
      alignment_okb alignment (hp_heap h + hp_size h)
  | OpFree ptr => existsb (fun r => (r.1 <=? ptr) && (ptr <? r.1 + r.2)) (allocated h)
  end.

Fixpoint ops_okb (h : mm_heap) (ops : list heap_op) : bool :=
  match ops with
  | [] => true
  | op :: ops => op_okb h op &&
      match exec_heap_op h op with Some r => ops_okb r.1 ops | None => true end
  end.

Lemma alignment_okb_ok alignment limit :
  alignment_okb alignment limit = true -> alignment_ok alignment limit.
Proof.
  unfold alignment_okb, alignment_ok. intros H. zbool. split; [|done].
  destruct H; zbool; [by left|by right].
Qed.

Lemma op_okb_ok h op : op_okb h op = true -> op_ok h op.
Proof.
  destruct op; simpl; intros H; zbool; [by auto using alignment_okb_ok..|].
  apply existsb_exists in H as (r & Hr & Hp). zbool. exists r. split; [|lia].
  by apply list_elem_of_In.
Qed.

Lemma ops_okb_ok h ops : ops_okb h ops = true -> ops_ok h ops.
Proof.
  revert h; induction ops as [|op ops IH]; intros h; simpl; [done|]. intros H. zbool.
  split; [by apply op_okb_ok|]. destruct (exec_heap_op h op); auto.
Qed.

(** A run that takes a buffer of two blocks, one small block, frees the buffer
    and takes another one. *)
Definition demo_ops : list heap_op :=
  [OpBalloc 0 1 700 128; OpMalloc 0 1 60 64; OpFree 4400; OpBalloc 0 1 300 256].

Lemma heap_refines_ranges_witness :
  exists h' ps, run_heap demo_heap demo_ops = Some (h', ps) /\ heap_wf h' /\
    range_steps (allocated demo_heap) demo_ops ps (allocated h').
Proof.
  apply heap_refines_ranges; [apply demo_heap_wf|]. apply ops_okb_ok. vm_compute. reflexivity.
Defined.

(** A buffer allocation fails only when there is no room. If
    [alloc_heap_buffer] returns null then it changed nothing, no map with large
    enough blocks has a free block that holds the aligned request, and no map
    with smaller blocks has a run of free blocks that holds the request
    enlarged by the alignment. *)
Theorem alloc_heap_buffer_complete h h' flags caps bytes alignment :
  heap_wf h -> 0 < bytes -> bytes + alignment < 2 ^ 32 ->
  alignment_ok alignment (hp_heap h + hp_size h) ->
  alloc_heap_buffer h flags caps bytes alignment = Some (h', 0) ->
  h' = h /\ forall m, m ∈ hp_map h ->
    (bytes <= bm_block_size m -> forall i, ~ fits_block m bytes alignment i) /\
    (bm_block_size m < bytes + alignment -> forall a s e,
       ~ room m (bytes + alignment) alignment a s e).
Proof.
  intros [segss Hinv] Hb0 Hb Hok E.
  destruct (alloc_heap_buffer_spec h segss flags caps bytes alignment) as (h1 & p & E' & Hr); [done..|].
  rewrite E in E'. simplify_eq. destruct Hr as [Ht|(-> & _ & H)]; [|done].
  by apply taken_nonnull in Ht.
Qed.

Lemma alloc_heap_buffer_complete_witness :
  demo_heap = demo_heap /\ forall m, m ∈ hp_map demo_heap ->
    (1600 <= bm_block_size m -> forall i, ~ fits_block m 1600 64 i) /\
    (bm_block_size m < 1600 + 64 -> forall a s e, ~ room m (1600 + 64) 64 a s e).
Proof.
  apply (alloc_heap_buffer_complete _ _ 0 1); [apply demo_heap_wf|lia..| |vm_compute; reflexivity].
  apply alignment_okb_ok. vm_compute. reflexivity.
Defined.

(** Freeing undoes allocating. Whatever a successful single-block or buffer
    allocation returned, freeing it (through any pointer into the requested
    bytes) restores the heap exactly: headers, counters and statistics. *)
Theorem heap_alloc_free_inverse h op bytes alignment h' p q :
  heap_wf h -> op_ok h op ->
  (exists flags caps, op = OpMalloc flags caps bytes alignment \/
                      op = OpBalloc flags caps bytes alignment) ->
  exec_heap_op h op = Some (h', p) -> p <> 0 -> p <= q < p + bytes ->
  free_in_heap h' q = Some h.
Proof.
  intros Hwf Hok (flags & caps & [-> | ->]) E Hp Hq; destruct Hok as (Hb0 & Hb & Hal).
  - destruct (get_ptr_from_heap_spec h flags caps bytes alignment) as (h1 & p1 & E1 & Hr);
      [done|lia|done..|].
    simpl in E. simplify_eq. destruct Hr as [Ht|(_ & ? & _)]; [|done]. eapply taken_free; eauto.
  - pose proof Hwf as [segss Hinv].
    destruct (alloc_heap_buffer_spec h segss flags caps bytes alignment) as (h1 & p1 & E1 & Hr);
      [done|lia|lia|done|].
    simpl in E. simplify_eq. destruct Hr as [Ht|(_ & ? & _)]; [|done]. eapply taken_free; eauto.
Qed.

Lemma heap_alloc_free_inverse_witness :
  exists h', exec_heap_op demo_heap (OpBalloc 0 1 700 128) = Some (h', 4352) /\
    free_in_heap h' 5000 = Some demo_heap.
Proof.
  eexists; split; [vm_compute; reflexivity|].
  apply (heap_alloc_free_inverse demo_heap (OpBalloc 0 1 700 128) 700 128 _ 4352);
    [apply demo_heap_wf|apply op_okb_ok; vm_compute; reflexivity|by eauto|
     vm_compute; reflexivity|lia..].
Defined.

(** The error cases of freeing in a well-formed heap. Freeing the start of a
    block that is already free changes nothing (a double free is harmless);
    a pointer into a free block that is not its start panics; a pointer behind
    the last map changes nothing. *)
Theorem free_in_heap_errors h level m i off :
  heap_wf h -> hp_map h !! level = Some m -> free_at m i -> 0 < off < bm_block_size m ->
  free_in_heap h (bm_base m + i * bm_block_size m) = Some h /\
  free_in_heap h (bm_base m + i * bm_block_size m + off) = None /\
  forall ptr, (forall m, m ∈ hp_map h -> bm_base m + bm_block_size m * bm_count m <= ptr) ->
    free_in_heap h ptr = Some h.
Proof.
  intros [segss Hinv] Hl Hfree Hoff.
  destruct (heap_inv_lookup _ _ _ _ Hinv Hl) as (segs & _ & Hwf & _).
  destruct (free_at_seg _ _ _ Hwf Hfree) as (pre & post & -> & ->).
  destruct Hfree as [Hi _]. destruct (heap_info_range _ _ Hinv).
  unfold free_in_heap. split_and!.
  - rewrite (find_map_level _ _ _ _ _ _ 0 _ (hi_maps _ _ Hinv) (hi_chain _ _ Hinv) Hl) by nia.
    rewrite Nat.add_0_l, Hl. by eapply free_in_map_double.
  - rewrite (find_map_level _ _ _ _ _ _ 0 _ (hi_maps _ _ Hinv) (hi_chain _ _ Hinv) Hl) by nia.
    rewrite Nat.add_0_l, Hl. by eapply free_in_map_misaligned.
  - intros ptr Hp.
    by rewrite (find_map_none _ _ _ _ 0 ptr (hi_maps _ _ Hinv) (hi_chain _ _ Hinv)).
Qed.

Lemma free_in_heap_errors_witness :
  exists m, hp_map demo_heap !! 1%nat = Some m /\
    free_in_heap demo_heap (4352 + 2 * 384) = Some demo_heap /\
    free_in_heap demo_heap (4352 + 2 * 384 + 5) = None.
Proof.
  eexists; split; [vm_compute; reflexivity|].
  destruct (free_in_heap_errors demo_heap 1
    (mk_map 384 4 4 0 (replicate 4 free_hdr) 4352) 2 5) as (H1 & H2 & _);
    [apply demo_heap_wf|vm_compute; reflexivity| |simpl; lia|split; [exact H1|exact H2]].
  split; [simpl; lia|]. exists free_hdr. split; reflexivity.
Defined.
