(* ===== verification/HeapZones.v ===== *)
(** * The memory map: zones, capabilities and the public allocation API

    Lifts the results on one heap to the arrays of heaps of [struct mm]:
    [rmalloc], [rballoc_align], [rfree] and [rbrealloc_align], and the system
    zone's bump allocator. *)

From stdpp Require Import base list numbers option sets sorting.
From S2P Require Import Prelude Heap HeapMap HeapSpec HeapFree.

#[export] Instance heap_array_eq_dec : EqDecision heap_array.
Proof. solve_decision. Defined.

Definition heap_at (memmap : mm) (a : heap_array) (i : nat) : option mm_heap :=
  get_array memmap a !! i.

Definition in_heap (h : mm_heap) (p : Z) : Prop := hp_heap h <= p < hp_heap h + hp_size h.

(** An address of one of the block heaps. *)
Definition heap_addr (memmap : mm) (p : Z) : Prop :=
  exists a i h, heap_at memmap a i = Some h /\ in_heap h p.

(** The heaps [free_block] looks at on this core. *)
Definition visible (pl : platform) (a : heap_array) (i : nat) : Prop :=
  (a = SystemRuntime -> i = cpu_get_id pl) /\ (a = RuntimeShared -> multi_core pl = true).

(** The ranges handed out by all block heaps. *)
Definition mm_live (memmap : mm) : list (Z * Z) :=
  (mm_system_runtime memmap ++ mm_runtime memmap ++ mm_runtime_shared memmap ++ mm_buffer memmap)
    ≫= allocated.

(** The memory map is well formed: its heaps are, no address is in two heaps or
    in a system heap as well, and the platform's address aliases agree on the
    block heaps: heap addresses are cached addresses, an uncached alias maps
    back, and aliases of heap addresses are not system heap addresses. *)
Record mm_wf (pl : platform) (memmap : mm) : Prop := {
  mmw_heap : forall a i h, heap_at memmap a i = Some h ->
    heap_wf h /\ alignment_ok (PLATFORM_DCACHE_ALIGN pl) (hp_heap h + hp_size h);
  mmw_disj : forall a i h a' i' h' p, heap_at memmap a i = Some h -> heap_at memmap a' i' = Some h' ->
    in_heap h p -> in_heap h' p -> a = a' /\ i = i';
  mmw_sys : forall h, h ∈ mm_system memmap ++ mm_system_shared memmap ->
    hp_heap h + hp_size h < 2 ^ 32 /\ 0 <= hp_heap h /\ 0 <= hp_size h;
  mmw_sys_disj : forall h p, h ∈ mm_system memmap ++ mm_system_shared memmap ->
    heap_addr memmap p -> ~ in_heap h p /\ ~ in_heap h (cache_to_uncache pl p);
  mmw_cached : forall p, heap_addr memmap p -> uncache_to_cache pl p = p;
  mmw_alias : forall p, heap_addr memmap p ->
    uncache_to_cache pl (cache_to_uncache pl p) = p /\ cache_to_uncache pl p <> 0;
  mmw_prepare : forall p, platform_rfree_prepare pl p = p;
  mmw_core : is_Some (mm_system memmap !! cpu_get_id pl) /\ is_Some (mm_system memmap !! 0%nat) /\
    (multi_core pl = true -> is_Some (mm_system_shared memmap !! 0%nat))
}.

(** ** Finding heaps *)

Lemma find_in_heap_arr_none heaps j p :
  (forall h, h ∈ heaps -> heap_wf h /\ ~ in_heap h p) -> find_in_heap_arr heaps j p = None.
Proof.
  revert j; induction heaps as [|h heaps IH]; intros j H; simpl; [done|].
  destruct (H h ltac:(by left)) as [[segss []] Hn]. unfold in_heap in Hn.
  rewrite u32_small by (pose proof (chained_le _ _ _ _ hi_maps hi_chain); lia).
  case_if; [lia|]. apply IH. intros h' Hh'. apply H. by right.
Qed.

Lemma find_in_heap_arr_some heaps j i h p :
  heaps !! i = Some h -> (forall h, h ∈ heaps -> heap_wf h) -> in_heap h p ->
  (forall i' h', heaps !! i' = Some h' -> in_heap h' p -> i' = i) ->
  find_in_heap_arr heaps j p = Some (j + i)%nat.
Proof.
  revert j i; induction heaps as [|h0 heaps IH]; intros j i Hi Hwf Hp Hu; [done|]. simpl.
  destruct (Hwf h0 ltac:(by left)) as [segss []].
  rewrite u32_small by (pose proof (chained_le _ _ _ _ hi_maps hi_chain); lia).
  destruct i as [|i]; simpl in Hi; simplify_eq.
  - unfold in_heap in Hp. case_if; [f_equal; lia|destruct Heqb; zbool; lia].
  - case_if.
    + specialize (Hu 0%nat h0 eq_refl). unfold in_heap in Hu. lia.
    + rewrite (IH (S j) i Hi); [f_equal; lia|intros; apply Hwf; by right|done|].
      intros i' h' Hi' Hp'. by injection (Hu (S i') h' Hi' Hp').
Qed.

Section mm.
Context (pl : platform).

Lemma mm_heaps_wf memmap a h : mm_wf pl memmap -> h ∈ get_array memmap a -> heap_wf h.
Proof. intros Hwf [i Hi]%list_elem_of_lookup. by destruct (mmw_heap _ _ Hwf a i h Hi). Qed.

Lemma array_none memmap a a' i h p :
  mm_wf pl memmap -> heap_at memmap a i = Some h -> in_heap h p -> a' <> a ->
  forall j, find_in_heap_arr (get_array memmap a') j p = None.
Proof.
  intros Hwf Hi Hp Hne j. apply find_in_heap_arr_none. intros h' Hh'.
  split; [by eapply mm_heaps_wf|]. intros Hp'. apply list_elem_of_lookup in Hh' as [i' Hi'].
  destruct (mmw_disj _ _ Hwf _ _ _ _ _ _ _ Hi Hi' Hp Hp') as [? _]. congruence.
Qed.

Lemma array_some memmap a i h p :
  mm_wf pl memmap -> heap_at memmap a i = Some h -> in_heap h p ->
  find_in_heap_arr (get_array memmap a) 0 p = Some i.
Proof.
  intros Hwf Hi Hp. rewrite (find_in_heap_arr_some _ 0 i h); [done|done| |done|].
  - intros h' Hh'. by eapply mm_heaps_wf.
  - intros i' h' Hi' Hp'. by destruct (mmw_disj _ _ Hwf _ _ _ _ _ _ _ Hi' Hi Hp' Hp).
Qed.

Lemma runtime_core_none memmap a i h p :
  mm_wf pl memmap -> heap_at memmap a i = Some h -> in_heap h p -> a <> SystemRuntime ->
  find_in_heap_arr (take 1 (drop (cpu_get_id pl) (mm_system_runtime memmap))) (cpu_get_id pl) p = None.
Proof.
  intros Hwf Hi Hp Hne. apply find_in_heap_arr_none. intros h' Hh'.
  assert (h' ∈ get_array memmap SystemRuntime) as Hin.
  { apply list_elem_of_lookup in Hh' as [k Hk]. rewrite lookup_take_Some, lookup_drop in Hk.
    destruct Hk as [Hk _]. by apply list_elem_of_lookup_2 in Hk. }
  split; [by eapply mm_heaps_wf|]. intros Hp'. apply list_elem_of_lookup in Hin as [i' Hi'].
  destruct (mmw_disj _ _ Hwf _ _ _ _ _ _ _ Hi Hi' Hp Hp') as [? _]. congruence.
Qed.

(** [get_heap_from_ptr] finds the heap an address is in. *)
Lemma get_heap_from_ptr_spec memmap a i h p :
  mm_wf pl memmap -> heap_at memmap a i = Some h -> in_heap h p -> visible pl a i ->
  get_heap_from_ptr pl memmap p = Some (a, i).
Proof.
  intros Hwf Hi Hp [Hv1 Hv2]. unfold get_heap_from_ptr.
  pose proof (array_none memmap a Runtime i h p Hwf Hi Hp) as Hrt.
  pose proof (array_none memmap a RuntimeShared i h p Hwf Hi Hp) as Hrs.
  pose proof (array_none memmap a Buffer i h p Hwf Hi Hp) as Hbuf.
  pose proof (array_some memmap a i h p Hwf Hi Hp) as Hsome. simpl in Hrt, Hrs, Hbuf.
  destruct (decide (a = SystemRuntime)) as [->|Hne].
  - pose proof (mm_heaps_wf memmap SystemRuntime h Hwf (list_elem_of_lookup_2 _ _ _ Hi)) as Hhwf.
    rewrite Hv1 in Hi |- * by done. unfold heap_at in Hi. simpl in Hi.
    assert (take 1 (drop (cpu_get_id pl) (mm_system_runtime memmap)) = [h]) as ->.
    { by rewrite (drop_S _ _ _ Hi). }
    rewrite (find_in_heap_arr_some _ _ 0 h); [by rewrite Nat.add_0_r|done| |done|].
    + by intros h' ->%list_elem_of_singleton.
    + intros [|i'] h' Hi' _; [done|]. by destruct i'.
  - rewrite (runtime_core_none memmap a i h p) by done.
    destruct a; simpl in Hsome; [done|by rewrite Hsome|..].
    + rewrite Hrt, (Hv2 eq_refl), Hsome by done. done.
    + rewrite Hrt, Hsome by done. destruct (multi_core pl); [by rewrite Hrs|done].
Qed.

(** ** Replacing a heap *)

Lemma get_set_array memmap a a' hs :
  get_array (set_array memmap a hs) a' = if decide (a = a') then hs else get_array memmap a'.
Proof. by destruct memmap, a, a'. Qed.

Lemma set_array_sys memmap a hs :
  mm_system (set_array memmap a hs) = mm_system memmap /\
  mm_system_shared (set_array memmap a hs) = mm_system_shared memmap.
Proof. by destruct memmap, a. Qed.

Definition set_heap (memmap : mm) (a : heap_array) (i : nat) (h : mm_heap) : mm :=
  set_array memmap a (<[i := h]> (get_array memmap a)).

Lemma heap_at_set memmap a i h h' a' i' h'' :
  heap_at memmap a i = Some h -> heap_at (set_heap memmap a i h') a' i' = Some h'' ->
  (a' = a /\ i' = i /\ h'' = h') \/ heap_at memmap a' i' = Some h''.
Proof.
  intros Hi. unfold heap_at, set_heap. rewrite get_set_array.
  destruct (decide (a = a')) as [->|]; [|by right].
  intros [(-> & -> & _)|[_ ?]]%list_lookup_insert_Some; [by left|by right].
Qed.

(** The place of a heap never changes. *)
Definition same_place (h h' : mm_heap) : Prop :=
  hp_heap h' = hp_heap h /\ hp_size h' = hp_size h /\ hp_caps h' = hp_caps h.

Lemma heap_addr_set memmap a i h h' p :
  heap_at memmap a i = Some h -> same_place h h' ->
  heap_addr (set_heap memmap a i h') p -> heap_addr memmap p.
Proof.
  intros Hi (H1 & H2 & _) (a' & i' & h'' & Hi' & Hp). unfold in_heap in Hp.
  destruct (heap_at_set _ _ _ _ _ _ _ _ Hi Hi') as [(-> & -> & ->)|Hold].
  - exists a, i, h. unfold in_heap. by rewrite <-H1, <-H2.
  - by exists a', i', h''.
Qed.

Lemma mm_wf_set memmap a i h h' :
  mm_wf pl memmap -> heap_at memmap a i = Some h -> heap_wf h' -> same_place h h' ->
  mm_wf pl (set_heap memmap a i h').
Proof.
  intros Hwf Hi Hh' Hsame. pose proof Hsame as (H1 & H2 & _). pose proof Hwf as [].
  assert (forall a1 i1 h1, heap_at (set_heap memmap a i h') a1 i1 = Some h1 ->
    exists h0, heap_at memmap a1 i1 = Some h0 /\ hp_heap h1 = hp_heap h0 /\ hp_size h1 = hp_size h0 /\
      heap_wf h1) as Hold.
  { intros a1 i1 h1 Hi1. destruct (heap_at_set _ _ _ _ _ _ _ _ Hi Hi1) as [(-> & -> & ->)|Ho]; [eauto 10|].
    exists h1. split_and!; [done..|]. by destruct (mmw_heap0 _ _ _ Ho). }
  assert (forall p, heap_addr (set_heap memmap a i h') p -> heap_addr memmap p) as Haddr
    by (intros p; by eapply heap_addr_set).
  destruct (set_array_sys memmap a (<[i := h']> (get_array memmap a))) as [Hs1 Hs2].
  constructor; unfold set_heap in *; rewrite ?Hs1, ?Hs2; auto.
  - intros a1 i1 h1 Hi1. destruct (Hold _ _ _ Hi1) as (h0 & Hi0 & -> & -> & ?).
    split; [done|]. by destruct (mmw_heap0 _ _ _ Hi0).
  - intros a1 i1 h1 a2 i2 h2 p Hi1 Hi2 Hp1 Hp2. unfold in_heap in *.
    destruct (Hold _ _ _ Hi1) as (h10 & Hi10 & E1 & E2 & _).
    destruct (Hold _ _ _ Hi2) as (h20 & Hi20 & E3 & E4 & _).
    eapply mmw_disj0; [exact Hi10|exact Hi20|..]; unfold in_heap; [rewrite <-E1, <-E2|rewrite <-E3, <-E4]; done.
Qed.

Lemma bind_insert {A B} (f : A -> list B) xs i x y :
  xs !! i = Some x -> exists b c, xs ≫= f = b ++ f x ++ c /\ <[i := y]> xs ≫= f = b ++ f y ++ c.
Proof.
  intros Hi. exists (take i xs ≫= f), (drop (S i) xs ≫= f). split.
  - rewrite <-(take_drop_middle _ _ _ Hi) at 1. by rewrite bind_app, bind_cons.
  - rewrite insert_take_drop by (by eapply lookup_lt_Some). by rewrite bind_app, bind_cons.
Qed.

Lemma mm_live_set memmap a i h h' :
  heap_at memmap a i = Some h ->
  exists b c, mm_live memmap = b ++ allocated h ++ c /\
    mm_live (set_heap memmap a i h') = b ++ allocated h' ++ c.
Proof.
  intros Hi. destruct (bind_insert allocated _ _ _ h' Hi) as (b & c & E1 & E2).
  destruct memmap as [sys srt ssh rsh rt buf tr], a; unfold mm_live, set_heap in *; simpl in *;
    rewrite !bind_app, E1, E2.
  - exists b, (c ++ (rt ≫= allocated) ++ (rsh ≫= allocated) ++ (buf ≫= allocated)).
    by rewrite <-!app_assoc.
  - exists ((srt ≫= allocated) ++ b), (c ++ (rsh ≫= allocated) ++ (buf ≫= allocated)).
    by rewrite <-!app_assoc.
  - exists ((srt ≫= allocated) ++ (rt ≫= allocated) ++ b), (c ++ (buf ≫= allocated)).
    by rewrite <-!app_assoc.
  - exists ((srt ≫= allocated) ++ (rt ≫= allocated) ++ (rsh ≫= allocated) ++ b), c.
    by rewrite <-!app_assoc.
Qed.

Lemma mm_live_add memmap a i h h' r :
  heap_at memmap a i = Some h -> allocated h' ≡ₚ r :: allocated h ->
  mm_live (set_heap memmap a i h') ≡ₚ r :: mm_live memmap.
Proof.
  intros Hi Hp. destruct (mm_live_set memmap a i h h' Hi) as (b & c & -> & ->).
  rewrite Hp. symmetry. apply Permutation_middle.
Qed.

Lemma taken_place h bytes alignment h' p : taken h bytes alignment h' p -> same_place h h'.
Proof. by intros [level m m' pre k post Hl Hm Hm' Hg -> Ha Hp Hb]. Qed.

Lemma taken_in_heap h bytes alignment h' p :
  heap_wf h -> taken h bytes alignment h' p -> in_heap h p.
Proof.
  intros [segss Hinv] [level m m' pre k post Hl Hm Hm' Hg -> Ha Hp Hb].
  destruct (chained_lookup _ _ _ _ _ _ (hi_maps _ _ Hinv) (hi_chain _ _ Hinv) Hl) as [Hlo Hhi].
  destruct Hm. rewrite segs_len_app, segs_len_app, segs_len_frees in mw_count. unfold in_heap. nia.
Qed.

(** [memmap'] is [memmap] after one of its heaps, with the requested
    capabilities, granted the [bytes] bytes at the heap address [q]. *)
Inductive granted (memmap : mm) (caps bytes alignment : Z) (memmap' : mm) (q : Z) : Prop :=
| granted_intro a i h h' :
    heap_at memmap a i = Some h -> visible pl a i -> Z.land (hp_caps h) caps = caps ->
    taken h bytes alignment h' q -> memmap' = set_heap memmap a i h' ->
    granted memmap caps bytes alignment memmap' q.

Lemma granted_live memmap caps bytes alignment memmap' q :
  mm_wf pl memmap -> granted memmap caps bytes alignment memmap' q ->
  mm_wf pl memmap' /\ heap_addr memmap' q /\ heap_addr memmap q /\
  exists r, mm_live memmap' ≡ₚ r :: mm_live memmap /\ r.1 <= q < r.1 + r.2 /\
    q + bytes <= r.1 + r.2.
Proof.
  intros Hwf [a i h h' Hi Hv Hc Ht ->]. destruct (mmw_heap _ _ Hwf _ _ _ Hi) as [Hh _].
  destruct (taken_allocated _ _ _ _ _ Hh Ht) as [Hh' (r & Hr & Hq)].
  pose proof (taken_in_heap _ _ _ _ _ Hh Ht) as Hin.
  pose proof (taken_place _ _ _ _ _ Ht) as Hpl. split_and!.
  - by eapply mm_wf_set.
  - exists a, i, h'. split.
    + unfold heap_at, set_heap. rewrite get_set_array, decide_True by done.
      apply list_lookup_insert_eq. by eapply lookup_lt_Some.
    + destruct Hpl as (E1 & E2 & _). unfold in_heap in *. by rewrite E1, E2.
  - by exists a, i, h.
  - exists r. split; [|done]. by eapply mm_live_add.
Qed.

(** ** Freeing *)

Lemma free_in_heap_place h p h' : free_in_heap h p = Some h' -> same_place h h'.
Proof.
  unfold free_in_heap. destruct (find_map _ _ _) as [l|]; [|by intros [= ->]].
  destruct (hp_map h !! l) as [m|]; [|done]. cbn [mbind option_bind]. unfold free_in_map.
  destruct (bm_block m !! _); [|done]. cbn [mbind option_bind].
  destruct (bm_block m !! _); [|done]. cbn [mbind option_bind].
  do 2 match goal with |- (if ?b then None else _) = _ -> _ => destruct b; [done|] end.
  by intros [= <-].
Qed.

(** A pointer [p] of the API stands for the heap address [q]. *)
Definition api_ptr (memmap : mm) (p q : Z) : Prop :=
  heap_addr memmap q /\ (p = q \/ p = cache_to_uncache pl q).

Lemma api_ptr_nonnull memmap p q : mm_wf pl memmap -> api_ptr memmap p q -> p <> 0.
Proof.
  intros Hwf [Hq [->| ->]]; [|by destruct (mmw_alias _ _ Hwf q Hq)].
  destruct Hq as (a & i & h & Hi & Hin). destruct (mmw_heap _ _ Hwf _ _ _ Hi) as [[segss []] _].
  unfold in_heap in Hin. lia.
Qed.

Lemma rfree_free_block memmap p q :
  mm_wf pl memmap -> api_ptr memmap p q ->
  rfree pl memmap p = set_trace_updated <$> free_block pl memmap p.
Proof.
  intros Hwf Hpq. pose proof (api_ptr_nonnull _ _ _ Hwf Hpq) as Hne. unfold rfree.
  replace (p =? 0) with false by (symmetry; by apply Z.eqb_neq). rewrite (mmw_prepare _ _ Hwf).
  assert (exists h, rfree_sys_heap pl memmap p = Some h /\
    h ∈ mm_system memmap ++ mm_system_shared memmap) as (h & -> & Hh).
  { destruct (mmw_core _ _ Hwf) as ([h1 H1] & [h2 H2] & H3). unfold rfree_sys_heap.
    destruct (multi_core pl); [destruct (H3 eq_refl) as [h3 H3']; case_match|];
      eexists; (split; [eassumption|]); apply elem_of_app;
      eauto using list_elem_of_lookup_2. }
  cbn [mbind option_bind]. destruct (mmw_sys _ _ Hwf h Hh) as (Hlim & H0 & H1).
  rewrite u32_small by lia. destruct Hpq as [Hq Hp].
  destruct (mmw_sys_disj _ _ Hwf h q Hh Hq) as [Hn1 Hn2]. unfold in_heap in *.
  case_if; [|done]. destruct Hp as [->| ->]; lia.
Qed.

Lemma free_block_spec memmap p q a i h :
  mm_wf pl memmap -> heap_at memmap a i = Some h -> in_heap h q -> visible pl a i ->
  p = q \/ p = cache_to_uncache pl q ->
  free_block pl memmap p = h' ← free_in_heap h q; Some (set_heap memmap a i h').
Proof.
  intros Hwf Hi Hq Hv Hp. assert (heap_addr memmap q) as Haddr by (by exists a, i, h).
  unfold free_block.
  assert (uncache_to_cache pl p = q) as ->.
  { destruct Hp as [->| ->]; [by apply (mmw_cached _ _ Hwf)|by apply (mmw_alias _ _ Hwf)]. }
  rewrite (get_heap_from_ptr_spec memmap a i h q) by done.
  unfold update_heap. unfold heap_at in Hi. by rewrite Hi.
Qed.

(** Freeing a pointer into a live range of a visible heap. *)
Lemma rfree_spec memmap p q a i h r :
  mm_wf pl memmap -> heap_at memmap a i = Some h -> visible pl a i ->
  r ∈ allocated h -> r.1 <= q < r.1 + r.2 -> p = q \/ p = cache_to_uncache pl q ->
  exists memmap', rfree pl memmap p = Some (set_trace_updated memmap') /\ mm_wf pl memmap' /\
    mm_live memmap ≡ₚ r :: mm_live memmap'.
Proof.
  intros Hwf Hi Hv Hr Hq Hp. destruct (mmw_heap _ _ Hwf _ _ _ Hi) as [Hh _].
  assert (in_heap h q) as Hin.
  { destruct (allocated_apart h Hh) as [_ Hb]. rewrite Forall_forall in Hb.
    specialize (Hb r Hr). unfold in_heap. lia. }
  destruct (free_in_heap_spec h r q Hh Hr Hq) as (h' & E & Hh' & Hperm).
  rewrite (rfree_free_block memmap p q), (free_block_spec memmap p q a i h) by
    (done || (split; [by exists a, i, h|done])).
  rewrite E. eexists; split_and!; [done|eapply mm_wf_set; [done..|by eapply free_in_heap_place]|].
  destruct (mm_live_set memmap a i h h' Hi) as (b & c & -> & ->).
  rewrite Hperm. symmetry. apply Permutation_middle.
Qed.

Lemma set_heap_undo memmap a i h h' :
  heap_at memmap a i = Some h -> set_heap (set_heap memmap a i h') a i h = memmap.
Proof.
  intros Hi. destruct memmap, a; unfold set_heap, heap_at in *; simpl in *;
    by rewrite list_insert_insert_eq, list_insert_id.
Qed.

(** Freeing what was granted restores the memory map. *)
Lemma granted_rfree memmap caps bytes alignment memmap' p q :
  mm_wf pl memmap -> granted memmap caps bytes alignment memmap' q ->
  p = q \/ p = cache_to_uncache pl q ->
  rfree pl memmap' p = Some (set_trace_updated memmap).
Proof.
  intros Hwf Hg Hp. destruct (granted_live _ _ _ _ _ _ Hwf Hg) as (Hwf' & Ha' & _).
  destruct Hg as [a i h h' Hi Hv Hc Ht ->]. destruct (mmw_heap _ _ Hwf _ _ _ Hi) as [Hh _].
  pose proof (taken_in_heap _ _ _ _ _ Hh Ht) as Hin.
  pose proof (taken_place _ _ _ _ _ Ht) as (E1 & E2 & _).
  assert (heap_at (set_heap memmap a i h') a i = Some h') as Hi'.
  { unfold heap_at, set_heap. rewrite get_set_array, decide_True by done.
    apply list_lookup_insert_eq. by eapply lookup_lt_Some. }
  rewrite (rfree_free_block _ p q), (free_block_spec _ p q a i h'); try done.
  - rewrite (taken_free h bytes alignment h' q q); [|done..|by left]. simpl.
    by rewrite set_heap_undo.
  - unfold in_heap in *. by rewrite E1, E2.
Qed.

(** ** Allocating *)

Lemma get_heap_from_caps_some heaps i caps k :
  get_heap_from_caps heaps i caps = Some k ->
  exists j h, k = (i + j)%nat /\ heaps !! j = Some h /\ Z.land (hp_caps h) caps = caps.
Proof.
  revert i; induction heaps as [|h heaps IH]; intros i; simpl; [done|]. case_if.
  - intros [= <-]. exists 0%nat, h. split_and!; [lia|done..].
  - intros (j & h' & -> & Hj & Hc)%IH. exists (S j), h'. split_and!; [lia|done..].
Qed.

Lemma alloc_in_eq memmap a i h f :
  heap_at memmap a i = Some h ->
  alloc_in memmap a i f = r ← f h; Some (set_heap memmap a i r.1, r.2).
Proof. unfold alloc_in, heap_at. by intros ->. Qed.

Lemma set_heap_same memmap a i h : heap_at memmap a i = Some h -> set_heap memmap a i h = memmap.
Proof.
  intros Hi. destruct memmap, a; unfold set_heap, heap_at in *; simpl in *; by rewrite list_insert_id.
Qed.

Lemma balloc_loop_spec memmap flags caps bytes alignment n i :
  mm_wf pl memmap -> 0 < bytes -> bytes + alignment < 2 ^ 32 ->
  (forall h, h ∈ mm_buffer memmap -> alignment_ok alignment (hp_heap h + hp_size h)) ->
  exists memmap' p, balloc_loop memmap flags caps bytes alignment n i = Some (memmap', p) /\
    ((p = 0 /\ memmap' = memmap) \/ (p <> 0 /\ granted memmap caps bytes alignment memmap' p)).
Proof.
  intros Hwf Hb0 Hb Hal. revert i. induction n as [|n IH]; intros i; cbn [balloc_loop]; [eauto 10|].
  destruct (get_heap_from_caps _ i caps) as [k|] eqn:E; [|eauto 10].
  apply get_heap_from_caps_some in E as (j & h & -> & Hj & Hc). rewrite lookup_drop in Hj.
  assert (heap_at memmap Buffer (i + j) = Some h) as Hi by done.
  rewrite (alloc_in_eq _ _ _ _ _ Hi). destruct (mmw_heap _ _ Hwf _ _ _ Hi) as [[segss Hinv] _].
  destruct (alloc_heap_buffer_spec h segss flags caps bytes alignment) as (h' & p & -> & Hr);
    [done..|by eapply Hal, list_elem_of_lookup_2|].
  cbn [mbind option_bind fst snd]. destruct Hr as [Ht|(-> & -> & _)].
  - pose proof (taken_nonnull _ _ _ _ _ Ht) as Hp.
    replace (p =? 0) with false by (symmetry; by apply Z.eqb_neq).
    eexists _, _; split; [done|]. right. split; [done|]. by eapply granted_intro.
  - cbn [negb Z.eqb]. rewrite set_heap_same by done. apply IH.
Qed.

(** What [rballoc_align] returns. *)
Lemma rballoc_align_spec memmap flags caps bytes alignment :
  mm_wf pl memmap -> 0 < bytes -> bytes + alignment < 2 ^ 32 ->
  (forall h, h ∈ mm_buffer memmap -> alignment_ok alignment (hp_heap h + hp_size h)) ->
  exists memmap' p, rballoc_align pl memmap flags caps bytes alignment = Some (memmap', p) /\
    ((p = 0 /\ memmap' = memmap) \/
     (p <> 0 /\ exists q, granted memmap caps bytes alignment memmap' q /\
        (p = q \/ (p = cache_to_uncache pl q /\ Z.land flags SOF_MEM_FLAG_COHERENT <> 0 /\
                   multi_core pl = true)))).
Proof.
  intros Hwf Hb0 Hb Hal. unfold rballoc_align, balloc_unlocked.
  destruct (balloc_loop_spec memmap flags caps bytes alignment (length (mm_buffer memmap)) 0)
    as (memmap' & p & -> & Hr); [done..|]. cbn [mbind option_bind fst snd].
  destruct Hr as [[-> ->]|[Hp Hg]]; [eauto 10|].
  replace (p =? 0) with false by (symmetry; by apply Z.eqb_neq).
  destruct (granted_live _ _ _ _ _ _ Hwf Hg) as (_ & _ & Haddr & _).
  eexists _, _; split; [done|]. right. case_if.
  - split; [by apply (mmw_alias _ _ Hwf)|]. exists p. split; [done|]. by right.
  - rewrite (mmw_cached _ _ Hwf) by done. split; [done|]. exists p. split; [done|by left].
Qed.

(** The block zones of [rmalloc]. *)
Definition block_zone (memmap : mm) (zone caps : Z) : Prop :=
  zone = SOF_MEM_ZONE_RUNTIME \/ zone = SOF_MEM_ZONE_RUNTIME_SHARED \/
  (zone = SOF_MEM_ZONE_SYS_RUNTIME /\
   exists h, mm_system_runtime memmap !! cpu_get_id pl = Some h /\ Z.land (hp_caps h) caps = caps).

Lemma get_ptr_granted memmap a i h flags caps bytes :
  mm_wf pl memmap -> heap_at memmap a i = Some h -> visible pl a i ->
  Z.land (hp_caps h) caps = caps -> 0 <= bytes -> bytes + PLATFORM_DCACHE_ALIGN pl < 2 ^ 31 ->
  exists memmap' p,
    alloc_in memmap a i (fun h =>
      get_ptr_from_heap h flags caps bytes (PLATFORM_DCACHE_ALIGN pl)) = Some (memmap', p) /\
    ((p = 0 /\ memmap' = memmap) \/
     (p <> 0 /\ granted memmap caps bytes (PLATFORM_DCACHE_ALIGN pl) memmap' p)).
Proof.
  intros Hwf Hi Hv Hc Hb0 Hb. rewrite (alloc_in_eq _ _ _ _ _ Hi).
  destruct (mmw_heap _ _ Hwf _ _ _ Hi) as [Hh Hal].
  destruct (get_ptr_from_heap_spec h flags caps bytes (PLATFORM_DCACHE_ALIGN pl))
    as (h' & p & -> & Hr); [done..|]. cbn [mbind option_bind fst snd].
  eexists _, _; split; [done|]. destruct Hr as [Ht|(-> & -> & _)].
  - right. split; [by eapply taken_nonnull|]. by eapply granted_intro.
  - left. by rewrite set_heap_same.
Qed.

Lemma rmalloc_runtime_spec memmap flags caps bytes :
  mm_wf pl memmap -> 0 <= bytes -> bytes + PLATFORM_DCACHE_ALIGN pl < 2 ^ 31 ->
  exists memmap' p, rmalloc_runtime pl memmap flags caps bytes = Some (memmap', p) /\
    ((p = 0 /\ memmap' = memmap) \/
     (p <> 0 /\ granted memmap caps bytes (PLATFORM_DCACHE_ALIGN pl) memmap' p)).
Proof.
  intros Hwf Hb0 Hb. unfold rmalloc_runtime.
  destruct (get_heap_from_caps (mm_runtime memmap) 0 caps) as [k|] eqn:E;
    [|destruct (get_heap_from_caps (mm_buffer memmap) 0 caps) as [k|] eqn:E'; [|eauto 10]].
  - apply get_heap_from_caps_some in E as (j & h & -> & Hj & Hc). by apply (get_ptr_granted _ _ _ h).
  - apply get_heap_from_caps_some in E' as (j & h & -> & Hj & Hc). by apply (get_ptr_granted _ _ _ h).
Qed.

Lemma rmalloc_spec memmap zone flags caps bytes :
  mm_wf pl memmap -> block_zone memmap zone caps ->
  0 <= bytes -> bytes + PLATFORM_DCACHE_ALIGN pl < 2 ^ 31 ->
  exists memmap' p, rmalloc pl memmap zone flags caps bytes = Some (set_trace_updated memmap', p) /\
    ((p = 0 /\ memmap' = memmap) \/
     (p <> 0 /\ granted memmap caps bytes (PLATFORM_DCACHE_ALIGN pl) memmap' p)).
Proof.
  intros Hwf Hz Hb0 Hb. unfold rmalloc, malloc_unlocked.
  pose proof (rmalloc_runtime_spec memmap flags caps bytes Hwf Hb0 Hb) as (m1 & p1 & E1 & H1).
  destruct Hz as [->|[->|[-> (h & Hh & Hc)]]]; cbn [Z.eqb Pos.eqb].
  - rewrite E1. by exists m1, p1.
  - destruct (multi_core pl) eqn:Hmc; [|rewrite E1; by exists m1, p1].
    unfold rmalloc_runtime_shared.
    destruct (get_heap_from_caps (mm_runtime_shared memmap) 0 caps) as [k|] eqn:E; [|by eauto 10].
    apply get_heap_from_caps_some in E as (j & h & -> & Hj & Hc). rewrite Nat.add_0_l.
    destruct (get_ptr_granted memmap RuntimeShared j h flags caps bytes) as (m2 & p2 & -> & H2);
      [done..|by exists m2, p2].
  - unfold rmalloc_sys_runtime. rewrite Hh. cbn [mbind option_bind].
    replace (_ =? caps) with true by (symmetry; by apply Z.eqb_eq). cbn [negb].
    destruct (get_ptr_granted memmap SystemRuntime (cpu_get_id pl) h flags caps bytes)
      as (m2 & p2 & -> & H2); [done..|by exists m2, p2].
Qed.

(** ** Fresh ranges and reallocation *)

Lemma mm_live_elem memmap r :
  r ∈ mm_live memmap -> exists a i h, heap_at memmap a i = Some h /\ r ∈ allocated h.
Proof.
  intros (h & Hr & Hh)%list_elem_of_bind.
  assert (exists a, h ∈ get_array memmap a) as [a Ha].
  { rewrite !elem_of_app in Hh. destruct Hh as [|[|[|]]];
      [by exists SystemRuntime|by exists Runtime|by exists RuntimeShared|by exists Buffer]. }
  apply list_elem_of_lookup in Ha as [i Hi]. by exists a, i, h.
Qed.

Lemma allocated_in_heap h r :
  heap_wf h -> r ∈ allocated h -> 0 < r.2 /\ forall x, r.1 <= x < r.1 + r.2 -> in_heap h x.
Proof.
  intros Hh Hr. destruct (allocated_apart h Hh) as [_ Hb]. rewrite Forall_forall in Hb.
  specialize (Hb r Hr). unfold in_heap. split; [lia|]. intros; lia.
Qed.

(** A granted range is apart from every range that was live. *)
Lemma granted_fresh memmap caps bytes alignment memmap' q :
  mm_wf pl memmap -> granted memmap caps bytes alignment memmap' q ->
  exists r, mm_live memmap' ≡ₚ r :: mm_live memmap /\ r.1 <= q < r.1 + r.2 /\
    q + bytes <= r.1 + r.2 /\ Forall (apart r) (mm_live memmap).
Proof.
  intros Hwf [a i h h' Hi Hv Hc Ht ->]. destruct (mmw_heap _ _ Hwf _ _ _ Hi) as [Hh _].
  destruct (taken_allocated _ _ _ _ _ Hh Ht) as [Hh' (r & Hr & Hq & Hb)].
  exists r. split_and!; [by eapply mm_live_add|lia..|].
  apply Forall_forall. intros r0 Hr0. apply mm_live_elem in Hr0 as (a0 & i0 & h0 & Hi0 & Hr0).
  destruct (mmw_heap _ _ Hwf _ _ _ Hi0) as [Hh0 _].
  destruct (decide (a0 = a /\ i0 = i)) as [[-> ->]|Hne].
  - rewrite Hi in Hi0. injection Hi0 as <-.
    pose proof (sorted_perm_apart _ _ _ (proj1 (allocated_apart h' Hh')) Hr) as Hap.
    rewrite Forall_forall in Hap. auto.
  - destruct (allocated_in_heap h0 r0 Hh0 Hr0) as [H0 Hin0].
    assert (r ∈ allocated h') as Hr' by (rewrite Hr; by left).
    destruct (allocated_in_heap h' r Hh' Hr') as [H1 Hin1].
    destruct (taken_place _ _ _ _ _ Ht) as (E1 & E2 & _). unfold in_heap in Hin1.
    rewrite E1, E2 in Hin1. unfold apart, before.
    destruct (decide (r.1 + r.2 <= r0.1 \/ r0.1 + r0.2 <= r.1)) as [|Hov]; [done|exfalso].
    assert (exists x, (r.1 <= x < r.1 + r.2) /\ (r0.1 <= x < r0.1 + r0.2)) as (x & Hx & Hx0)
      by (exists (Z.max r.1 r0.1); lia).
    destruct (mmw_disj _ _ Hwf _ _ _ _ _ _ x Hi0 Hi) as [-> ->]; [by apply Hin0|by apply Hin1|].
    by apply Hne.
Qed.

(** A range stays allocated where it was when another one is granted. *)
Lemma granted_keeps memmap caps bytes alignment memmap' q a i h r :
  mm_wf pl memmap -> granted memmap caps bytes alignment memmap' q ->
  heap_at memmap a i = Some h -> r ∈ allocated h ->
  exists h', heap_at memmap' a i = Some h' /\ r ∈ allocated h'.
Proof.
  intros Hwf [a0 i0 h0 h0' Hi0 Hv Hc Ht ->] Hi Hr.
  destruct (mmw_heap _ _ Hwf _ _ _ Hi0) as [Hh0 _].
  destruct (taken_allocated _ _ _ _ _ Hh0 Ht) as [_ (r0 & Hperm & _)].
  unfold heap_at, set_heap. rewrite get_set_array. destruct (decide (a0 = a)) as [->|]; [|by exists h].
  destruct (decide (i0 = i)) as [->|].
  - rewrite Hi0 in Hi. injection Hi as <-. exists h0'. split.
    + apply list_lookup_insert_eq. by eapply lookup_lt_Some.
    + rewrite Hperm. by right.
  - exists h. by rewrite list_lookup_insert_ne.
Qed.
End mm.

(** The successful allocations of the API: [rmalloc] from a block zone and
    [rballoc_align]. *)
Inductive api_alloc (pl : platform) (memmap : mm) (caps bytes : Z) (memmap' : mm) (p : Z) : Prop :=
| api_rmalloc zone flags :
    block_zone pl memmap zone caps -> bytes + PLATFORM_DCACHE_ALIGN pl < 2 ^ 31 ->
    rmalloc pl memmap zone flags caps bytes = Some (memmap', p) ->
    api_alloc pl memmap caps bytes memmap' p
| api_rballoc flags alignment :
    bytes + alignment < 2 ^ 32 ->
    (forall h, h ∈ mm_buffer memmap -> alignment_ok alignment (hp_heap h + hp_size h)) ->
    rballoc_align pl memmap flags caps bytes alignment = Some (memmap', p) ->
    api_alloc pl memmap caps bytes memmap' p.

Lemma set_trace_wf pl memmap : mm_wf pl memmap -> mm_wf pl (set_trace_updated memmap).
Proof. by destruct memmap; intros []; constructor. Qed.

Lemma set_trace_wf_inv pl memmap : mm_wf pl (set_trace_updated memmap) -> mm_wf pl memmap.
Proof. by destruct memmap; intros []; constructor. Qed.

Lemma free_block_trace pl memmap p :
  free_block pl (set_trace_updated memmap) p = set_trace_updated <$> free_block pl memmap p.
Proof.
  assert (forall q, get_heap_from_ptr pl (set_trace_updated memmap) q = get_heap_from_ptr pl memmap q)
    as Hg by (by destruct memmap).
  assert (forall a i f, update_heap (set_trace_updated memmap) a i f =
    set_trace_updated <$> update_heap memmap a i f) as Hu.
  { intros a i f. unfold update_heap. destruct memmap, a; simpl;
      (match goal with |- context [?l !! i] => destruct (l !! i) as [h|]; [|done] end);
      simpl; by destruct (f h). }
  unfold free_block. rewrite !Hg. destruct (get_heap_from_ptr pl memmap _) as [[a i]|]; [by rewrite Hu|].
  destruct (get_heap_from_ptr pl memmap _) as [[a i]|]; [by rewrite Hu|done].
Qed.

Lemma rfree_trace pl memmap p :
  p <> 0 -> rfree pl (set_trace_updated memmap) p = rfree pl memmap p.
Proof.
  intros Hp. unfold rfree. replace (p =? 0) with false by (symmetry; by apply Z.eqb_neq).
  replace (rfree_sys_heap pl (set_trace_updated memmap) (platform_rfree_prepare pl p))
    with (rfree_sys_heap pl memmap (platform_rfree_prepare pl p)) by (by destruct memmap).
  destruct (rfree_sys_heap _ _ _) as [h|]; [|done]. cbn [mbind option_bind].
  case_if; [done|]. rewrite free_block_trace.
  destruct (free_block _ _ _) as [m|]; [|done]. by destruct m.
Qed.

Lemma mm_live_trace memmap : mm_live (set_trace_updated memmap) = mm_live memmap.
Proof. by destruct memmap. Qed.

(** An API allocation grants a range, up to the trace flag. *)
Lemma api_alloc_granted pl memmap caps bytes memmap' p :
  mm_wf pl memmap -> 0 < bytes -> api_alloc pl memmap caps bytes memmap' p -> p <> 0 ->
  exists m0 alignment q, granted pl memmap caps bytes alignment m0 q /\
    (memmap' = m0 \/ memmap' = set_trace_updated m0) /\ (p = q \/ p = cache_to_uncache pl q).
Proof.
  intros Hwf Hb0 [zone flags Hz Hb E|flags alignment Hb Hal E] Hp.
  - destruct (rmalloc_spec pl memmap zone flags caps bytes) as (m0 & p' & E' & Hr); [done|done|lia|done|].
    rewrite E in E'. simplify_eq. destruct Hr as [[? _]|[_ Hg]]; [done|].
    eexists m0, _, p'. split_and!; [exact Hg|by right|by left].
  - destruct (rballoc_align_spec pl memmap flags caps bytes alignment) as (m0 & p' & E' & Hr); [done..|].
    rewrite E in E'. simplify_eq. destruct Hr as [[? _]|[_ (q & Hg & Hq)]]; [done|].
    exists m0, alignment, q. split_and!; [exact Hg|by left|]. destruct Hq as [|[? _]]; auto.
Qed.

(** C40: Allocation and freeing through the public API. A non-null result of
    [rmalloc] (block zones) or [rballoc_align] addresses the requested bytes in
    a range that is apart from every live range of every heap; all other live
    ranges stay as they are, the memory map stays well-formed, and [rfree] of
    the returned pointer (cached or uncached) puts the memory map back. *)
Theorem api_alloc_free pl memmap caps bytes memmap' p :
  mm_wf pl memmap -> 0 < bytes -> api_alloc pl memmap caps bytes memmap' p -> p <> 0 ->
  mm_wf pl memmap' /\
  (exists r, mm_live memmap' ≡ₚ r :: mm_live memmap /\ r.1 <= uncache_to_cache pl p /\
     uncache_to_cache pl p + bytes <= r.1 + r.2 /\ Forall (apart r) (mm_live memmap)) /\
  rfree pl memmap' p = Some (set_trace_updated memmap).
Proof.
  intros Hwf Hb0 Hap Hp.
  destruct (api_alloc_granted _ _ _ _ _ _ Hwf Hb0 Hap Hp) as (m0 & al & q & Hg & Hm & Hq).
  destruct (granted_live _ _ _ _ _ _ _ Hwf Hg) as (Hwf0 & _ & Haddr & _).
  destruct (granted_fresh _ _ _ _ _ _ _ Hwf Hg) as (r & Hr & Hrq & Hrb & Hfr).
  pose proof (granted_rfree _ _ _ _ _ _ _ _ Hwf Hg Hq) as Hfree.
  assert (uncache_to_cache pl p = q) as ->.
  { destruct Hq as [->| ->]; [by apply (mmw_cached _ _ Hwf)|by apply (mmw_alias _ _ Hwf)]. }
  destruct Hm as [->| ->]; split_and!; try done; [|by apply set_trace_wf| |by rewrite rfree_trace].
  - exists r. split_and!; [done|lia..|done].
  - exists r. rewrite mm_live_trace. split_and!; [done|lia..|done].
Qed.

(** ** A platform and a memory map *)

(** Single core, no address aliases: [platform/baytrail]. *)
Definition baytrail : platform :=
  mk_platform 4 false (fun p => p) (fun p => p) (fun _ => false) (fun p => p) 0.

Definition demo_mm_raw : mm :=
  mk_mm [declared [] 65536 4096 SOF_MEM_CAPS_RAM]
    [declared [(64, 8%nat)] 4096 1024 SOF_MEM_CAPS_RAM] [] []
    [declared [(128, 20%nat); (512, 2%nat)] 8192 3584 SOF_MEM_CAPS_RAM]
    [declared [(384, 8%nat)] 16384 4096 (SOF_MEM_CAPS_RAM + SOF_MEM_CAPS_DMA)] 0.

Definition demo_mm : mm := default demo_mm_raw (init_heap baytrail 65536 demo_mm_raw).

Lemma demo_heap_at a i h :
  heap_at demo_mm a i = Some h ->
  i = 0%nat /\ ((a = SystemRuntime /\ hp_heap h = 4096 /\ hp_size h = 1024) \/
                (a = Runtime /\ hp_heap h = 8192 /\ hp_size h = 3584) \/
                (a = Buffer /\ hp_heap h = 16384 /\ hp_size h = 4096)) /\ heap_wf h.
Proof.
  destruct a, i as [|i]; intros Hi; try done; injection Hi as <-; (split; [done|]); split;
    try (simpl; by auto).
  - by eapply (init_heap_map_spec [(64, 8%nat)] 4096 1024 SOF_MEM_CAPS_RAM); [repeat constructor|..].
  - by eapply (init_heap_map_spec [(128, 20%nat); (512, 2%nat)] 8192 3584 SOF_MEM_CAPS_RAM);
      [repeat constructor|..].
  - by eapply (init_heap_map_spec [(384, 8%nat)] 16384 4096 (SOF_MEM_CAPS_RAM + SOF_MEM_CAPS_DMA));
      [repeat constructor|..].
Qed.

Lemma demo_mm_wf : mm_wf baytrail demo_mm.
Proof.
  constructor.
  - intros a i h Hi. destruct (demo_heap_at _ _ _ Hi) as (_ & Hr & Hwf). split; [done|].
    split; [by right|]. simpl. lia.
  - intros a i h a' i' h' p Hi Hi' Hp Hp'.
    destruct (demo_heap_at _ _ _ Hi) as (-> & Hr & _). destruct (demo_heap_at _ _ _ Hi') as (-> & Hr' & _).
    unfold in_heap in *. split; [|done].
    destruct Hr as [(-> & ? & ?)|[(-> & ? & ?)|(-> & ? & ?)]],
      Hr' as [(-> & ? & ?)|[(-> & ? & ?)|(-> & ? & ?)]]; done || lia.
  - intros h [->|Hh]%elem_of_cons; [simpl; lia|by apply elem_of_nil in Hh].
  - intros h p [->|Hh]%elem_of_cons (a & i & h' & Hi & Hp); [|by apply elem_of_nil in Hh].
    destruct (demo_heap_at _ _ _ Hi) as (_ & Hr & _). unfold in_heap in *. simpl. lia.
  - done.
  - intros p (a & i & h & Hi & Hp). split; [done|]. simpl.
    destruct (demo_heap_at _ _ _ Hi) as (_ & Hr & _). unfold in_heap in *. lia.
  - done.
  - split_and!; [by eexists..|done].
Qed.

Lemma api_alloc_free_witness :
  exists memmap', rballoc_align baytrail demo_mm 0 SOF_MEM_CAPS_DMA 1000 64 = Some (memmap', 16384) /\
    mm_wf baytrail memmap' /\ rfree baytrail memmap' 16384 = Some (set_trace_updated demo_mm).
Proof.
  eexists; split; [vm_compute; reflexivity|].
  destruct (api_alloc_free baytrail demo_mm SOF_MEM_CAPS_DMA 1000
    (default demo_mm_raw (fst <$> rballoc_align baytrail demo_mm 0 SOF_MEM_CAPS_DMA 1000 64)) 16384)
    as (H1 & _ & H2); [apply demo_mm_wf|lia| |lia|split; [exact H1|exact H2]].
  eapply (api_rballoc _ _ _ _ _ _ 0 64); [lia| |vm_compute; reflexivity].
  intros h [->|Hh]%elem_of_cons; [|by apply elem_of_nil in Hh].
  apply alignment_okb_ok. vm_compute. reflexivity.
Defined.

Lemma mm_live_bounds pl memmap r :
  mm_wf pl memmap -> r ∈ mm_live memmap -> 0 < r.1 /\ 0 < r.2 /\ r.1 + r.2 < 2 ^ 32.
Proof.
  intros Hwf (a & i & h & Hi & Hr)%mm_live_elem. destruct (mmw_heap _ _ Hwf _ _ _ Hi) as [Hh _].
  destruct (allocated_apart h Hh) as [_ Hb]. rewrite Forall_forall in Hb. specialize (Hb r Hr).
  destruct Hh as [segss []]. lia.
Qed.

Lemma heap_at_live memmap a i h r : heap_at memmap a i = Some h -> r ∈ allocated h -> r ∈ mm_live memmap.
Proof.
  intros Hi Hr. destruct (mm_live_set memmap a i h h Hi) as (b & c & -> & _).
  rewrite !elem_of_app. auto.
Qed.

(** Reallocation. [rbrealloc_align] of a live pointer either returns null
    and changes neither heap nor memory, or returns a range apart from every
    live one, holding the first [min(bytes, old_bytes)] bytes of the old
    contents unless copying was declined, with every byte outside the new range
    unchanged and exactly the old range given back. *)
Theorem rbrealloc_moves pl memmap m ptr flags caps bytes old_bytes alignment a i h r :
  mm_wf pl memmap -> 0 < bytes -> bytes + alignment < 2 ^ 32 ->
  0 <= old_bytes -> ptr + old_bytes <= r.1 + r.2 ->
  Z.land flags SOF_MEM_FLAG_COHERENT = 0 \/ multi_core pl = false ->
  (forall h, h ∈ mm_buffer memmap -> alignment_ok alignment (hp_heap h + hp_size h)) ->
  heap_at memmap a i = Some h -> visible pl a i -> r ∈ allocated h -> r.1 <= ptr < r.1 + r.2 ->
  exists memmap' m' new,
    rbrealloc_align pl memmap m ptr flags caps bytes old_bytes alignment = Some (memmap', m', new) /\
    ((new = 0 /\ memmap' = memmap /\ m' = m) \/
     (new <> 0 /\ mm_wf pl memmap' /\
      (forall x, x < new \/ new + bytes <= x -> m' x = m x) /\
      (Z.land flags SOF_MEM_FLAG_NO_COPY = 0 ->
         forall k, 0 <= k < Z.min bytes old_bytes -> m' (new + k) = m (ptr + k)) /\
      exists r', r'.1 <= uncache_to_cache pl new /\ uncache_to_cache pl new + bytes <= r'.1 + r'.2 /\
        Forall (apart r') (mm_live memmap) /\
        r' :: mm_live memmap ≡ₚ r :: mm_live memmap')).
Proof.
  intros Hwf Hb0 Hb Hob Hfit Hco Hal Hi Hv Hr Hptr. unfold rbrealloc_align.
  replace (bytes =? 0) with false by (symmetry; apply Z.eqb_neq; lia).
  destruct (rballoc_align_spec pl memmap flags caps bytes alignment) as (m1 & new & E & Hres); [done..|].
  unfold rballoc_align in E. rewrite E. cbn [mbind option_bind fst snd].
  destruct Hres as [[-> ->]|[Hnew (q & Hg & Hq)]]; [by eauto 10|].
  replace (new =? 0) with false by (symmetry; by apply Z.eqb_neq). cbn [negb andb].
  assert (new = q) as -> by (destruct Hq as [|(_ & ? & ?)]; [done|by destruct Hco; congruence]).
  destruct (granted_live _ _ _ _ _ _ _ Hwf Hg) as (Hwf1 & _ & Haddr & _).
  destruct (granted_fresh _ _ _ _ _ _ _ Hwf Hg) as (r' & Hr' & Hrq & Hrb & Hfr).
  destruct (granted_keeps _ _ _ _ _ _ _ _ _ _ _ Hwf Hg Hi Hr) as (h1 & Hi1 & Hr1).
  destruct (rfree_spec pl m1 ptr ptr a i h1 r) as (m2 & E2 & Hwf2 & Hlive); [done..|by left|].
  rewrite E2. cbn [mbind option_bind].
  destruct (mm_live_bounds _ _ r Hwf (heap_at_live _ _ _ _ _ Hi Hr)) as (? & _ & ?).
  destruct (mm_live_bounds _ _ r' Hwf1) as (? & _ & ?); [rewrite Hr'; by left|].
  replace (ptr =? 0) with false by (symmetry; apply Z.eqb_neq; lia). cbn [negb andb].
  rewrite Forall_forall in Hfr. pose proof (Hfr r (heap_at_live _ _ _ _ _ Hi Hr)) as Hap.
  unfold apart, before in Hap. rewrite memcpy_s_ok by lia.
  eexists _, _, _; split; [done|]. right. rewrite (mmw_cached _ _ Hwf) by done.
  split_and!; [done|by apply set_trace_wf|..].
  - intros x Hx. case_if; [|done]. apply memcpy_out. lia.
  - intros Hc k Hk. rewrite Hc. by apply memcpy_in.
  - exists r'. rewrite mm_live_trace. rewrite <-Forall_forall in Hfr. split_and!; [lia..|done|].
    by rewrite <-Hr', Hlive.
Qed.

(** The runtime heap's first 100 bytes, moved to the buffer heap. *)
Definition demo_mm_live : mm :=
  default demo_mm_raw (fst <$> rmalloc baytrail demo_mm SOF_MEM_ZONE_RUNTIME 0 1 100).

Lemma rbrealloc_moves_witness :
  exists memmap' m' new,
    rbrealloc_align baytrail demo_mm_live (fun x => x) 8192 0 32 500 100 64 =
      Some (memmap', m', new) /\ new <> 0 /\ m' (new + 7) = 8199.
Proof.
  assert (api_alloc baytrail demo_mm 1 100 demo_mm_live 8192) as Hap.
  { eapply (api_rmalloc _ _ _ _ _ _ SOF_MEM_ZONE_RUNTIME 0); [by left|simpl; lia|vm_compute; reflexivity]. }
  destruct (rbrealloc_moves baytrail demo_mm_live (fun x => x) 8192 0 32 500 100 64 Runtime 0
    (default demo_heap (heap_at demo_mm_live Runtime 0)) (8192, 128))
    as (mm' & m' & new & E & Hres);
    [|lia|lia|lia|simpl; lia|by left| |reflexivity|done|vm_compute; left|simpl; lia|].
  - destruct (api_alloc_granted baytrail demo_mm 1 100 demo_mm_live 8192 demo_mm_wf ltac:(lia) Hap ltac:(lia))
      as (m0 & al & q & Hg & Hm & _).
    destruct (granted_live _ _ _ _ _ _ _ demo_mm_wf Hg) as (Hwf0 & _).
    destruct Hm as [->| ->]; [done|by apply set_trace_wf].
  - intros h [->|Hh]%elem_of_cons; [|by apply elem_of_nil in Hh].
    apply alignment_okb_ok. vm_compute. reflexivity.
  - exists mm', m', new. split; [done|].
    assert (new = 16384) as Hn.
    { assert (Some new = (fun x => x.2) <$>
        rbrealloc_align baytrail demo_mm_live (fun x => x) 8192 0 32 500 100 64) as H
        by (by rewrite E). vm_compute in H. by injection H. }
    destruct Hres as [(? & _)|(_ & _ & _ & Hc & _)]; [lia|].
    split; [lia|]. rewrite Hc; [done|done|lia].
Defined.

(** ** The system zone *)

(** The system zone is a bump allocator. From a heap whose used and free
    bytes add up to its size, [rmalloc_sys] panics exactly when the
    capabilities are missing or the cache-line aligned request does not fit;
    otherwise it returns a pointer at a cache-line multiple from the heap's
    base, behind everything returned before, with the [bytes] bytes inside the
    heap, and keeps the accounting. *)
Theorem rmalloc_sys_bump pl h flags caps bytes :
  0 < PLATFORM_DCACHE_ALIGN pl < 2 ^ 16 -> 0 <= bytes < 2 ^ 31 ->
  0 <= hp_heap h -> hp_heap h + hp_size h < 2 ^ 32 ->
  0 <= i_used (hp_info h) -> 0 <= i_free (hp_info h) ->
  i_used (hp_info h) + i_free (hp_info h) = hp_size h ->
  let start := - (- i_used (hp_info h) / PLATFORM_DCACHE_ALIGN pl) * PLATFORM_DCACHE_ALIGN pl in
  (rmalloc_sys pl h flags caps bytes = None <->
     Z.land (hp_caps h) caps <> caps \/ hp_size h < start + bytes) /\
  (forall h' p, rmalloc_sys pl h flags caps bytes = Some (h', p) ->
     p = hp_heap h + start /\ i_used (hp_info h) <= start /\
     i_used (hp_info h') = start + bytes /\ p + bytes <= hp_heap h + hp_size h /\
     i_used (hp_info h') + i_free (hp_info h') = hp_size h').
Proof.
  intros Hal Hb Hh Hlim Hu Hf Hsum start. unfold rmalloc_sys.
  set (A := PLATFORM_DCACHE_ALIGN pl) in *. set (u := i_used (hp_info h)) in *.
  set (pad := if negb (u mod A =? 0) then A - u mod A else 0).
  assert (start = u + pad /\ 0 <= pad < A) as [Hst Hpad].
  { subst start pad. pose proof (Z.div_mod u A ltac:(lia)). pose proof (Z.mod_pos_bound u A ltac:(lia)).
    destruct (u mod A =? 0) eqn:E; zbool; cbn [negb].
    - rewrite Z.div_opp_l_z by lia. split; [nia|lia].
    - rewrite Z.div_opp_l_nz by lia. split; [nia|lia]. }
  clearbody start pad. destruct (Z.land (hp_caps h) caps =? caps) eqn:Ec; cbn [negb]; zbool.
  - rewrite (u32_small (pad + bytes)) by lia. case_if.
    + split; [|done]. split; [|done]. intros _. right. lia.
    + rewrite (u32_small (u + pad)), !u32_small by lia. split; [split; [done|lia]|].
      intros h' p [= <- <-]. simpl. lia.
  - split; [|done]. split; [|done]. intros _. by left.
Qed.

Lemma rmalloc_sys_bump_witness :
  rmalloc_sys baytrail (declared [] 65536 4096 1) 0 1 5000 = None /\
  exists h', rmalloc_sys baytrail (declared [] 65536 4096 1) 0 1 30 = Some (h', 65536) /\
    i_used (hp_info h') + i_free (hp_info h') = hp_size h'.
Proof.
  split.
  - apply (rmalloc_sys_bump baytrail (declared [] 65536 4096 1) 0 1 5000); simpl; try lia.
    right. vm_compute. reflexivity.
  - eexists; split; [vm_compute; reflexivity|].
    destruct (rmalloc_sys_bump baytrail (declared [] 65536 4096 1) 0 1 30) as [_ H];
      [simpl; lia..|]. by eapply H; vm_compute.
Defined.
