(* ===== verification/Allocator.v ===== *)
(** * What the allocator promises its clients

    The interface buffers and data blobs are verified against: a state, the
    operations of [include/sof/lib/alloc.h] they call, and the laws of those
    operations in terms of the live ranges. The heap of [src/lib/alloc.c] is an
    instance on a single-core platform. *)

From stdpp Require Import base list numbers option sets.
From S2P Require Import Prelude Heap HeapMap HeapSpec HeapFree HeapZones.

(** A request within the limits of the allocator. *)
Definition request_ok (bytes alignment : Z) : Prop :=
  0 < bytes < 2 ^ 30 /\ 0 <= alignment <= 2 ^ 20 /\
  (alignment = 0 \/ is_power_of_2 alignment = true).

Definition request_okb (bytes alignment : Z) : bool :=
  (0 <? bytes) && (bytes <? 2 ^ 30) && (0 <=? alignment) && (alignment <=? 2 ^ 20) &&
  ((alignment =? 0) || is_power_of_2 alignment).

Lemma request_okb_ok bytes alignment : request_okb bytes alignment = true -> request_ok bytes alignment.
Proof.
  unfold request_okb, request_ok. intros H. zbool. split_and!; try lia.
  destruct H0; zbool; auto.
Qed.

(** [p] addresses [bytes] bytes of range [r]. *)
Definition covers (r : Z * Z) (p bytes : Z) : Prop := r.1 <= p /\ p + bytes <= r.1 + r.2.

Class Allocator (A : Type) := {
  al_inv : A -> Prop;
  al_live : A -> list (Z * Z);
  (** [rballoc_align] *)
  al_balloc : A -> Z -> Z -> Z -> Z -> option (A * Z);
  (** [rmalloc] in [SOF_MEM_ZONE_RUNTIME] *)
  al_malloc : A -> Z -> Z -> Z -> option (A * Z);
  (** [rfree] *)
  al_free : A -> Z -> option A;
  (** [rbrealloc_align] *)
  al_brealloc : A -> mem -> Z -> Z -> Z -> Z -> Z -> Z -> option (A * mem * Z);
  (** [PLATFORM_DCACHE_ALIGN] *)
  al_dcache : Z;
  al_dcache_ok : request_ok 1 al_dcache;
  (** The address range of the heaps. *)
  al_lo : Z;
  al_hi : Z;
  al_balloc_spec a flags caps bytes alignment :
    al_inv a -> request_ok bytes alignment ->
    exists a' p, al_balloc a flags caps bytes alignment = Some (a', p) /\ al_inv a' /\
      ((p = 0 /\ al_live a' = al_live a) \/
       (p <> 0 /\ exists r, al_live a' ≡ₚ r :: al_live a /\ covers r p bytes /\
          Forall (apart r) (al_live a)));
  al_malloc_spec a flags caps bytes :
    al_inv a -> request_ok bytes 0 ->
    exists a' p, al_malloc a flags caps bytes = Some (a', p) /\ al_inv a' /\
      ((p = 0 /\ al_live a' = al_live a) \/
       (p <> 0 /\ exists r, al_live a' ≡ₚ r :: al_live a /\ covers r p bytes /\
          Forall (apart r) (al_live a)));
  al_free_spec a r p :
    al_inv a -> r ∈ al_live a -> r.1 <= p < r.1 + r.2 ->
    exists a', al_free a p = Some a' /\ al_inv a' /\ al_live a ≡ₚ r :: al_live a';
  al_free_null a : al_free a 0 = Some a;
  al_brealloc_spec a m ptr flags caps bytes old_bytes alignment r :
    al_inv a -> request_ok bytes alignment -> 0 <= old_bytes -> ptr + old_bytes <= r.1 + r.2 ->
    r ∈ al_live a -> r.1 <= ptr < r.1 + r.2 ->
    exists a' m' new,
      al_brealloc a m ptr flags caps bytes old_bytes alignment = Some (a', m', new) /\ al_inv a' /\
      ((new = 0 /\ al_live a' = al_live a /\ m' = m) \/
       (new <> 0 /\
        (forall x, x < new \/ new + bytes <= x -> m' x = m x) /\
        (Z.land flags SOF_MEM_FLAG_NO_COPY = 0 ->
           forall k, 0 <= k < Z.min bytes old_bytes -> m' (new + k) = m (ptr + k)) /\
        exists r', covers r' new bytes /\ Forall (apart r') (al_live a) /\
          r' :: al_live a ≡ₚ r :: al_live a'));
  al_live_bounds a r : al_inv a -> r ∈ al_live a ->
    0 < r.1 /\ 0 < r.2 /\ r.1 + r.2 < 2 ^ 32 /\ (r.1 + r.2 < 2 ^ 31 \/ 2 ^ 31 <= r.1) /\
    al_lo <= r.1 /\ r.1 + r.2 <= al_hi
}.

(** ** The heap is an allocator *)

Section instance.
Context (pl : platform) (Hdc : request_ok 1 (PLATFORM_DCACHE_ALIGN pl)) (lo hi : Z).

(** A well-formed memory map on a single core whose addresses have no aliases
    and leave room for the largest alignment. *)
Record single_core (memmap : mm) : Prop := {
  sc_wf : mm_wf pl memmap;
  sc_visible : forall a i h, heap_at memmap a i = Some h -> visible pl a i;
  sc_room : forall a i h, heap_at memmap a i = Some h -> hp_heap h + hp_size h + 2 ^ 20 <= 2 ^ 32;
  sc_half : forall a i h, heap_at memmap a i = Some h ->
    hp_heap h + hp_size h < 2 ^ 31 \/ 2 ^ 31 <= hp_heap h;
  sc_bounds : forall a i h, heap_at memmap a i = Some h ->
    lo <= hp_heap h /\ hp_heap h + hp_size h <= hi;
  sc_alias : forall p, uncache_to_cache pl p = p;
  sc_multi : multi_core pl = false
}.

(** An operation that keeps the places of the heaps keeps [single_core]. *)
Lemma single_core_set memmap a i h h' :
  single_core memmap -> heap_at memmap a i = Some h -> same_place h h' ->
  mm_wf pl (set_heap memmap a i h') -> single_core (set_heap memmap a i h').
Proof.
  intros [] Hi (E1 & E2 & _) Hwf. constructor; try done.
  - intros a1 i1 h1 Hi1. destruct (heap_at_set _ _ _ _ _ _ _ _ Hi Hi1) as [(-> & -> & ->)|Ho]; eauto.
  - intros a1 i1 h1 Hi1. destruct (heap_at_set _ _ _ _ _ _ _ _ Hi Hi1) as [(-> & -> & ->)|Ho]; eauto.
    rewrite E1, E2. eauto.
  - intros a1 i1 h1 Hi1. destruct (heap_at_set _ _ _ _ _ _ _ _ Hi Hi1) as [(-> & -> & ->)|Ho]; eauto.
    rewrite E1, E2. eauto.
  - intros a1 i1 h1 Hi1. destruct (heap_at_set _ _ _ _ _ _ _ _ Hi Hi1) as [(-> & -> & ->)|Ho]; eauto.
    rewrite E1, E2. eauto.
Qed.

Lemma single_core_trace memmap : single_core memmap -> single_core (set_trace_updated memmap).
Proof. destruct memmap. intros []. constructor; try done. by apply set_trace_wf. Qed.

Lemma granted_single memmap caps bytes alignment memmap' q :
  single_core memmap -> granted pl memmap caps bytes alignment memmap' q ->
  single_core memmap' /\ q <> 0 /\ exists r, mm_live memmap' ≡ₚ r :: mm_live memmap /\
    covers r q bytes /\ Forall (apart r) (mm_live memmap).
Proof.
  intros Hs Hg. pose proof (sc_wf _ Hs) as Hwf.
  destruct (granted_live _ _ _ _ _ _ _ Hwf Hg) as (Hwf' & _).
  destruct (granted_fresh _ _ _ _ _ _ _ Hwf Hg) as (r & Hr & Hq & Hb & Hfr).
  destruct Hg as [a i h h' Hi Hv Hc Ht ->]. split_and!.
  - eapply single_core_set; [done|done|by eapply taken_place|done].
  - by eapply taken_nonnull.
  - exists r. unfold covers. split_and!; [done|lia..|done].
Qed.

Lemma single_core_alignment memmap alignment h bytes :
  single_core memmap -> request_ok bytes alignment -> h ∈ mm_buffer memmap ->
  alignment_ok alignment (hp_heap h + hp_size h).
Proof.
  intros Hs (_ & Ha & Hp) [i Hi]%list_elem_of_lookup.
  pose proof (sc_room _ Hs Buffer i h Hi) as Hr. split; [|lia].
  destruct Hp as [->|Hp]; [by left|]. destruct (decide (alignment = 0)) as [->|]; [by left|].
  right. split; [lia|done].
Qed.

Lemma heap_balloc_spec memmap flags caps bytes alignment :
  single_core memmap -> request_ok bytes alignment ->
  exists memmap' p, rballoc_align pl memmap flags caps bytes alignment = Some (memmap', p) /\
    single_core memmap' /\
    ((p = 0 /\ mm_live memmap' = mm_live memmap) \/
     (p <> 0 /\ exists r, mm_live memmap' ≡ₚ r :: mm_live memmap /\ covers r p bytes /\
        Forall (apart r) (mm_live memmap))).
Proof.
  intros Hs Hr. pose proof Hr as (Hb & Ha & Hp).
  destruct (rballoc_align_spec pl memmap flags caps bytes alignment) as (m' & p & E & Hres);
    [by apply sc_wf|lia|lia|intros; by eapply single_core_alignment|].
  exists m', p. split; [done|]. destruct Hres as [[-> ->]|[Hp0 (q & Hg & Hq)]]; [by split; [|left]|].
  destruct (granted_single _ _ _ _ _ _ Hs Hg) as (Hs' & _ & Hr').
  split; [done|]. right. split; [done|]. destruct Hq as [->|(_ & _ & Hm)]; [done|].
  by rewrite (sc_multi _ Hs) in Hm.
Qed.

Lemma heap_malloc_spec memmap flags caps bytes :
  single_core memmap -> request_ok bytes 0 ->
  exists memmap' p, rmalloc pl memmap SOF_MEM_ZONE_RUNTIME flags caps bytes = Some (memmap', p) /\
    single_core memmap' /\
    ((p = 0 /\ mm_live memmap' = mm_live memmap) \/
     (p <> 0 /\ exists r, mm_live memmap' ≡ₚ r :: mm_live memmap /\ covers r p bytes /\
        Forall (apart r) (mm_live memmap))).
Proof.
  intros Hs (Hb & _). destruct Hdc as (_ & Hal & _).
  destruct (rmalloc_spec pl memmap SOF_MEM_ZONE_RUNTIME flags caps bytes) as (m' & p & E & Hres);
    [by apply sc_wf|by left|lia|lia|].
  exists (set_trace_updated m'), p. rewrite mm_live_trace. split; [done|].
  destruct Hres as [[-> ->]|[Hp0 Hg]]; [split; [by apply single_core_trace|by left]|].
  destruct (granted_single _ _ _ _ _ _ Hs Hg) as (Hs' & _ & Hr').
  split; [by apply single_core_trace|]. by right.
Qed.

Lemma heap_free_spec memmap r p :
  single_core memmap -> r ∈ mm_live memmap -> r.1 <= p < r.1 + r.2 ->
  exists memmap', rfree pl memmap p = Some memmap' /\ single_core memmap' /\
    mm_live memmap ≡ₚ r :: mm_live memmap'.
Proof.
  intros Hs Hr Hp. pose proof (sc_wf _ Hs) as Hwf.
  destruct (mm_live_elem _ _ Hr) as (a & i & h & Hi & Hr').
  destruct (mmw_heap _ _ Hwf _ _ _ Hi) as [Hh _].
  destruct (allocated_in_heap h r Hh Hr') as [_ Hin].
  pose proof (sc_visible _ Hs _ _ _ Hi) as Hv.
  destruct (free_in_heap_spec h r p Hh Hr' Hp) as (h' & E & Hh' & Hperm).
  pose proof (free_in_heap_place _ _ _ E) as Hpl.
  assert (heap_addr memmap p) as Haddr by (exists a, i, h; auto).
  rewrite (rfree_free_block pl memmap p p), (free_block_spec pl memmap p p a i h), E by
    (done || (split; [done|by left]) || (by left) || auto).
  eexists; split_and!; [done| |].
  - apply single_core_trace. eapply single_core_set; [done..|]. by eapply mm_wf_set.
  - rewrite mm_live_trace. destruct (mm_live_set memmap a i h h' Hi) as (b & c & -> & ->).
    rewrite Hperm. symmetry. apply Permutation_middle.
Qed.

Lemma heap_live_bounds memmap r : single_core memmap -> r ∈ mm_live memmap ->
  0 < r.1 /\ 0 < r.2 /\ r.1 + r.2 < 2 ^ 32 /\ (r.1 + r.2 < 2 ^ 31 \/ 2 ^ 31 <= r.1) /\
  lo <= r.1 /\ r.1 + r.2 <= hi.
Proof.
  intros Hs Hr. destruct (mm_live_elem _ _ Hr) as (a & i & h & Hi & Hr').
  destruct (mmw_heap _ _ (sc_wf _ Hs) _ _ _ Hi) as [Hh _].
  pose proof (sc_half _ Hs _ _ _ Hi) as Hhalf. pose proof (sc_room _ Hs _ _ _ Hi).
  pose proof (sc_bounds _ Hs _ _ _ Hi).
  destruct (allocated_apart h Hh) as [_ Hb]. rewrite Forall_forall in Hb. specialize (Hb r Hr').
  destruct Hh as [segss []]. lia.
Qed.

Lemma heap_brealloc_spec memmap m ptr flags caps bytes old_bytes alignment r :
  single_core memmap -> request_ok bytes alignment -> 0 <= old_bytes ->
  ptr + old_bytes <= r.1 + r.2 -> r ∈ mm_live memmap -> r.1 <= ptr < r.1 + r.2 ->
  exists memmap' m' new,
    rbrealloc_align pl memmap m ptr flags caps bytes old_bytes alignment = Some (memmap', m', new) /\
    single_core memmap' /\
    ((new = 0 /\ mm_live memmap' = mm_live memmap /\ m' = m) \/
     (new <> 0 /\
      (forall x, x < new \/ new + bytes <= x -> m' x = m x) /\
      (Z.land flags SOF_MEM_FLAG_NO_COPY = 0 ->
         forall k, 0 <= k < Z.min bytes old_bytes -> m' (new + k) = m (ptr + k)) /\
      exists r', covers r' new bytes /\ Forall (apart r') (mm_live memmap) /\
        r' :: mm_live memmap ≡ₚ r :: mm_live memmap')).
Proof.
  intros Hs Hok Hob Hfit Hr Hp. unfold rbrealloc_align. pose proof Hok as ((Hb & _) & _).
  replace (bytes =? 0) with false by (symmetry; apply Z.eqb_neq; lia).
  destruct (heap_balloc_spec memmap flags caps bytes alignment Hs Hok) as (m1 & new & E & Hs1 & Hres).
  unfold rballoc_align in E. rewrite E. cbn [mbind option_bind fst snd].
  destruct Hres as [[-> Hl]|[Hn (r' & Hr' & Hc & Hfr)]].
  { eexists _, _, _; split_and!; [done..|]. by left. }
  replace (new =? 0) with false by (symmetry; by apply Z.eqb_neq).
  pose proof (heap_live_bounds _ _ Hs Hr) as (Hpos & _ & H32 & _).
  replace (ptr =? 0) with false by (symmetry; apply Z.eqb_neq; lia). cbn [negb andb].
  destruct (heap_free_spec m1 r ptr Hs1) as (m2 & -> & Hs2 & Hl2); [rewrite Hr'; by right|done|].
  cbn [mbind option_bind]. destruct Hc as [Hc1 Hc2].
  assert (r' ∈ mm_live m1) as Hr'1 by (rewrite Hr'; by left).
  pose proof (heap_live_bounds _ _ Hs1 Hr'1) as (Hpos' & _ & H32' & _).
  rewrite Forall_forall in Hfr. pose proof (Hfr r Hr) as Hap. unfold apart, before in Hap.
  rewrite <-Forall_forall in Hfr. rewrite memcpy_s_ok by lia.
  eexists _, _, _; split_and!; [done..|]. right. split_and!; [done|..].
  - intros x Hx. case_if; [|done]. apply memcpy_out. lia.
  - intros Hcopy k Hk. rewrite Hcopy. by apply memcpy_in.
  - exists r'. split_and!; [done..|]. by rewrite <-Hr', Hl2.
Qed.

Definition heap_allocator : Allocator mm := {|
  al_inv := single_core;
  al_live := mm_live;
  al_balloc := rballoc_align pl;
  al_malloc memmap flags caps bytes := rmalloc pl memmap SOF_MEM_ZONE_RUNTIME flags caps bytes;
  al_free := rfree pl;
  al_brealloc := rbrealloc_align pl;
  al_dcache := PLATFORM_DCACHE_ALIGN pl;
  al_dcache_ok := Hdc;
  al_lo := lo;
  al_hi := hi;
  al_balloc_spec := heap_balloc_spec;
  al_malloc_spec := heap_malloc_spec;
  al_free_spec := heap_free_spec;
  al_free_null memmap := eq_refl;
  al_brealloc_spec := heap_brealloc_spec;
  al_live_bounds := heap_live_bounds
|}.
End instance.

Lemma demo_mm_single : single_core baytrail 4096 65536 demo_mm.
Proof.
  constructor; try done; [apply demo_mm_wf| | | |]; intros a i h Hi;
    destruct (demo_heap_at _ _ _ Hi) as (-> & Hr & _).
  - split; [done|]. destruct Hr as [(-> & _)|[(-> & _)|(-> & _)]]; done.
  - lia.
  - lia.
  - lia.
Qed.

Lemma baytrail_dcache : request_ok 1 (PLATFORM_DCACHE_ALIGN baytrail).
Proof. apply request_okb_ok. vm_compute. reflexivity. Qed.
