(* ===== verification/Buffer.v ===== *)
(** * Component buffers ([src/audio/buffer.c], [include/sof/audio/buffer.h])

    A component buffer is a descriptor with an audio stream over a data range.
    Both the descriptor and the data come from the allocator, which the model
    knows only through the interface of [Allocator]. The notifier calls of the
    code are the events an operation returns. [buffer_acquire] and
    [buffer_release] (cache maintenance and locking of a shared buffer) do not
    change the descriptor's contents and are left out. *)

From stdpp Require Import base list numbers option sets.
From S2P Require Import Prelude Heap HeapFree HeapZones Allocator AudioStream.

(** [b_self] is the address of the descriptor. *)
Record comp_buffer := mk_buffer {
  b_self : Z;
  b_stream : audio_stream;
  b_id : Z;
  b_pipeline_id : Z;
  b_caps : Z;
  b_core : Z;
  b_source : Z;
  b_sink : Z;
  b_buffer_fmt : Z;
  b_chmap : list Z;
  b_hw_params_configured : bool;
  b_walking : bool
}.

(** The notifications of a buffer: identity, payload. *)
Inductive buffer_event :=
| BufferProduce (transaction_amount transaction_begin_address : Z)
| BufferConsume (transaction_amount transaction_begin_address : Z)
| BufferFree.

Abbreviation SOF_IPC_MAX_CHANNELS := 8%nat (only parsing).
Abbreviation BUFF_PARAMS_FRAME_FMT := 1 (only parsing).
Abbreviation BUFF_PARAMS_BUFFER_FMT := 2 (only parsing).
Abbreviation BUFF_PARAMS_RATE := 4 (only parsing).
Abbreviation BUFF_PARAMS_CHANNELS := 8 (only parsing).

Definition set_stream (b : comp_buffer) (s : audio_stream) : comp_buffer :=
  mk_buffer (b_self b) s (b_id b) (b_pipeline_id b) (b_caps b) (b_core b) (b_source b) (b_sink b)
    (b_buffer_fmt b) (b_chmap b) (b_hw_params_configured b) (b_walking b).

Definition set_addr (s : audio_stream) (addr : Z) : audio_stream :=
  mk_stream (s_size s) (s_avail s) (s_free s) (s_w_ptr s) (s_r_ptr s) addr (s_end_addr s)
    (s_frame_fmt s) (s_valid_sample_fmt s) (s_rate s) (s_channels s)
    (s_overrun_permitted s) (s_underrun_permitted s).

Definition buffer_init (b : comp_buffer) (size caps : Z) : comp_buffer :=
  mk_buffer (b_self b) (audio_stream_init (b_stream b) (s_addr (b_stream b)) size)
    (b_id b) (b_pipeline_id b) caps (b_core b) (b_source b) (b_sink b) (b_buffer_fmt b)
    (b_chmap b) (b_hw_params_configured b) (b_walking b).

(** The descriptor as [rzalloc] leaves it. *)
Definition zero_buffer (self : Z) : comp_buffer :=
  mk_buffer self (mk_stream 0 0 0 0 0 0 0 0 0 0 0 false false) 0 0 0 0 0 0 0
    (replicate SOF_IPC_MAX_CHANNELS 0) false false.

Definition buffer_zero (m : mem) (b : comp_buffer) : mem :=
  memset m (s_addr (b_stream b)) 0 (s_size (b_stream b)).

Definition buffer_set_params (b : comp_buffer) (params : option sof_ipc_stream_params)
    (force_update : bool) : comp_buffer * Z :=
  match params with
  | None => (b, - EINVAL)
  | Some p =>
      if b_hw_params_configured b && negb force_update then (b, 0) else
      let '(s, ret) := audio_stream_set_params (b_stream b) (Some p) in
      if ret <? 0 then (set_stream b s, - EINVAL) else
      (mk_buffer (b_self b) s (b_id b) (b_pipeline_id b) (b_caps b) (b_core b) (b_source b)
         (b_sink b) (sp_buffer_fmt p) (take SOF_IPC_MAX_CHANNELS (sp_chmap p)) true (b_walking b), 0)
  end.

Definition buffer_params_match (b : comp_buffer) (params : sof_ipc_stream_params) (flag : Z) : bool :=
  if negb (Z.land flag BUFF_PARAMS_FRAME_FMT =? 0) &&
     negb (s_frame_fmt (b_stream b) =? sp_frame_fmt params) then false
  else if negb (Z.land flag BUFF_PARAMS_RATE =? 0) &&
     negb (s_rate (b_stream b) =? sp_rate params) then false
  else if negb (Z.land flag BUFF_PARAMS_CHANNELS =? 0) &&
     negb (s_channels (b_stream b) =? sp_channels params) then false
  else true.

Definition comp_update_buffer_produce (b : comp_buffer) (bytes : Z) :
    option (comp_buffer * list buffer_event) :=
  let cb_data := BufferProduce bytes (s_w_ptr (b_stream b)) in
  if bytes =? 0 then Some (b, []) else
  s ← audio_stream_produce (b_stream b) bytes;
  Some (set_stream b s, [cb_data]).

Definition comp_update_buffer_consume (b : comp_buffer) (bytes : Z) :
    option (comp_buffer * list buffer_event) :=
  let cb_data := BufferConsume bytes (s_r_ptr (b_stream b)) in
  if bytes =? 0 then Some (b, []) else
  s ← audio_stream_consume (b_stream b) bytes;
  Some (set_stream b s, [cb_data]).

(** The cache maintenance of the stream data: the ranges touched, none unless
    the buffer is shared between cores. *)
Definition buffer_stream_invalidate (shared : bool) (b : comp_buffer) (bytes : Z) : list (Z * Z) :=
  if negb shared then [] else audio_stream_invalidate (b_stream b) bytes.

Definition buffer_stream_writeback (shared : bool) (b : comp_buffer) (bytes : Z) : list (Z * Z) :=
  if negb shared then [] else audio_stream_writeback (b_stream b) bytes.

Definition buffer_reset_pos (m : mem) (b : comp_buffer) : mem * comp_buffer :=
  let b := set_stream b (audio_stream_reset (b_stream b)) in
  (buffer_zero m b, b).

Definition buffer_reset_params (b : comp_buffer) : comp_buffer :=
  mk_buffer (b_self b) (b_stream b) (b_id b) (b_pipeline_id b) (b_caps b) (b_core b) (b_source b)
    (b_sink b) (b_buffer_fmt b) (b_chmap b) false (b_walking b).

Section buffer.
Context {A : Type} `{!Allocator A}.

(** [sizeof(struct comp_buffer)]. *)
Context (sizeof_buffer : Z) (Hsizeof : request_ok sizeof_buffer 0).

Definition buffer_alloc (a : A) (m : mem) (size caps align : Z) :
    option (A * mem * option comp_buffer) :=
  if size =? 0 then Some (a, m, None) else
  r ← al_malloc a 0 SOF_MEM_CAPS_RAM sizeof_buffer;
  let '(a, self) := r in
  if self =? 0 then Some (a, m, None) else
  let m := memset m self 0 sizeof_buffer in
  r ← al_balloc a 0 caps size align;
  let '(a, addr) := r in
  if addr =? 0 then
    a ← al_free a self;
    Some (a, m, None)
  else
    let b := zero_buffer self in
    let b := set_stream b (set_addr (b_stream b) addr) in
    Some (a, m, Some (buffer_init b size caps)).

Definition buffer_set_size (a : A) (m : mem) (b : comp_buffer) (size : Z) :
    option (A * mem * comp_buffer * Z) :=
  if size =? 0 then Some (a, m, b, - EINVAL) else
  if size =? s_size (b_stream b) then Some (a, m, b, 0) else
  r ← al_brealloc a m (s_addr (b_stream b)) SOF_MEM_FLAG_NO_COPY (b_caps b) size
        (s_size (b_stream b)) al_dcache;
  let '(a, m, new_ptr) := r in
  if (new_ptr =? 0) && (size >? s_size (b_stream b)) then Some (a, m, b, - ENOMEM) else
  let b := if negb (new_ptr =? 0) then set_stream b (set_addr (b_stream b) new_ptr) else b in
  Some (a, m, buffer_init b size (b_caps b), 0).

Definition buffer_free (a : A) (b : comp_buffer) : option (A * list buffer_event) :=
  a ← al_free a (s_addr (b_stream b));
  a ← al_free a (b_self b);
  Some (a, [BufferFree]).

(** ** Ownership

    A buffer owns the ranges [rs] of its descriptor and [rd] of its data; [rest]
    is live memory of others. *)
Record owns (a : A) (b : comp_buffer) (rs rd : Z * Z) (rest : list (Z * Z)) : Prop := {
  ow_inv : al_inv a;
  ow_live : al_live a ≡ₚ rs :: rd :: rest;
  ow_self : covers rs (b_self b) sizeof_buffer;
  ow_data : covers rd (s_addr (b_stream b)) (s_size (b_stream b));
  ow_wf : stream_wf (b_stream b);
  ow_apart : apart rs rd /\ Forall (apart rs) rest /\ Forall (apart rd) rest
}.

(** A stream can be set up anywhere inside a live range. *)
Lemma covered_init_wf a r s addr size :
  al_inv a -> r ∈ al_live a -> covers r addr size -> 0 < size ->
  stream_wf (audio_stream_init s addr size).
Proof.
  intros Hi Hr [H1 H2] Hs. destruct (al_live_bounds a r Hi Hr) as (? & ? & ? & ? & _).
  apply init_wf; lia.
Qed.

Lemma apart_sym r r' : apart r r' -> apart r' r.
Proof. unfold apart; tauto. Qed.

Lemma buffer_alloc_spec a m size caps align :
  al_inv a -> size = 0 \/ request_ok size align ->
  exists a' m' ob, buffer_alloc a m size caps align = Some (a', m', ob) /\ al_inv a' /\
    match ob with
    | None => al_live a' ≡ₚ al_live a
    | Some b => exists rs rd, owns a' b rs rd (al_live a) /\ s_size (b_stream b) = size /\
        s_avail (b_stream b) = 0 /\ b_walking b = false
    end.
Proof.
  intros Ha Hsize. unfold buffer_alloc. case_if; [by eexists _, _, _|].
  destruct Hsize as [?|Hreq]; [done|].
  destruct (al_malloc_spec a 0 SOF_MEM_CAPS_RAM sizeof_buffer Ha Hsizeof)
    as (a1 & self & -> & Ha1 & Hs). cbn [mbind option_bind].
  destruct Hs as [[-> Hl1]|[Hself (rs & Hl1 & Hcs & Hfs)]]; [by eexists _, _, _; rewrite Hl1|].
  replace (self =? 0) with false by (symmetry; by apply Z.eqb_neq).
  destruct (al_balloc_spec a1 0 caps size align Ha1 Hreq) as (a2 & addr & -> & Ha2 & Hd).
  cbn [mbind option_bind]. destruct Hd as [[-> Hl2]|[Haddr (rd & Hl2 & Hcd & Hfd)]].
  - destruct Hsizeof as [Hsz _]. destruct Hcs as [H1 H2].
    destruct (al_free_spec a2 rs self Ha2) as (a3 & Hf & Ha3 & Hl3);
      [rewrite Hl2, Hl1; by left|lia|]. cbn. rewrite Hf. cbn.
    eexists _, _, _; split_and!; [done..|].
    apply (Permutation_cons_inv (a := rs)). by rewrite <-Hl3, Hl2, Hl1.
  - replace (addr =? 0) with false by (symmetry; by apply Z.eqb_neq).
    eexists _, _, _; split_and!; [done..|]. exists rs, rd.
    rewrite Hl1, Forall_cons in Hfd. destruct Hfd as [Hds Hfd].
    split; [|done]. constructor; cbn; try done.
    + rewrite Hl2, Hl1. constructor.
    + eapply covered_init_wf; [done| |done|destruct Hreq; lia]. rewrite Hl2; by left.
    + split_and!; [by apply apart_sym|done..].
Qed.

Lemma buffer_free_ranges a b rs rd rest :
  al_inv a -> al_live a ≡ₚ rs :: rd :: rest -> covers rs (b_self b) sizeof_buffer ->
  covers rd (s_addr (b_stream b)) (s_size (b_stream b)) -> stream_wf (b_stream b) ->
  exists a', buffer_free a b = Some (a', [BufferFree]) /\ al_inv a' /\ al_live a' ≡ₚ rest.
Proof.
  intros Ha Hl [Hs1 Hs2] [Hd1 Hd2] Hwf. destruct (wf_geom _ Hwf). unfold buffer_free.
  destruct (al_free_spec a rd (s_addr (b_stream b)) Ha) as (a1 & -> & Ha1 & Hl1);
    [rewrite Hl; by right; left|lia|]. cbn [mbind option_bind].
  assert (al_live a1 ≡ₚ rs :: rest) as Hl1'.
  { apply (Permutation_cons_inv (a := rd)). rewrite <-Hl1, Hl. constructor. }
  destruct Hsizeof as [Hsz _].
  destruct (al_free_spec a1 rs (b_self b) Ha1) as (a2 & -> & Ha2 & Hl2);
    [rewrite Hl1'; by left|lia|]. cbn [mbind option_bind].
  exists a2. split_and!; [done..|]. apply (Permutation_cons_inv (a := rs)). by rewrite <-Hl2.
Qed.

Lemma buffer_free_spec a b rs rd rest :
  owns a b rs rd rest ->
  exists a', buffer_free a b = Some (a', [BufferFree]) /\ al_inv a' /\ al_live a' ≡ₚ rest.
Proof. intros []. by eapply buffer_free_ranges. Qed.

(** Every outcome of a resize; the descriptor keeps its range. *)
Lemma buffer_set_size_spec a m b rs rd rest size :
  owns a b rs rd rest -> size = 0 \/ request_ok size al_dcache ->
  exists a' m' b' ret rd', buffer_set_size a m b size = Some (a', m', b', ret) /\
    owns a' b' rs rd' rest /\ b_self b' = b_self b /\
    ((ret = - EINVAL /\ size = 0 /\ b' = b /\ rd' = rd) \/
     (ret = - ENOMEM /\ s_size (b_stream b) < size /\ b' = b /\ rd' = rd) \/
     (ret = 0 /\ s_size (b_stream b') = size)).
Proof.
  intros Hown Hsize. pose proof Hown as [Ha Hl Hs [Hd1 Hd2] Hwf (Hap1 & Hap2 & Hap3)].
  destruct (wf_geom _ Hwf) as [Hpos _ _ _ _]. unfold buffer_set_size.
  case_if; [eexists _, _, _, _, rd; split_and!; [done..|by left]|].
  case_if; [eexists _, _, _, _, rd; split_and!; [done..|by right; right]|].
  destruct Hsize as [?|Hreq]; [done|]. destruct Hreq as [Hsz Hreq'].
  destruct (al_brealloc_spec a m (s_addr (b_stream b)) SOF_MEM_FLAG_NO_COPY (b_caps b) size
    (s_size (b_stream b)) al_dcache rd Ha) as (a1 & m1 & new & -> & Ha1 & Hres);
    [done|lia|lia|rewrite Hl; by right; left|lia|]. cbn [mbind option_bind].
  destruct Hres as [(-> & Hl1 & ->)|(Hnew & _ & _ & rd' & Hc & Hfr & Hl1)]; cbn [Z.eqb negb andb].
  - case_if.
    + eexists _, _, _, _, rd; split_and!; [done| |done|by right; left].
      constructor; rewrite ?Hl1; done.
    + eexists _, _, _, _, rd; split_and!; [done| |done|by right; right].
      constructor; cbn; rewrite ?Hl1; try done; [split; [done|lia]|].
      eapply (covered_init_wf a rd); [done|rewrite Hl; by right; left|split; [done|lia]|lia].
  - replace (new =? 0) with false by (symmetry; by apply Z.eqb_neq). cbn [negb andb].
    assert (al_live a1 ≡ₚ rs :: rd' :: rest) as Hl1'.
    { apply (Permutation_cons_inv (a := rd)). rewrite <-Hl1, Hl.
      rewrite (Permutation_swap rd' rs), (Permutation_swap rd' rd). by rewrite (Permutation_swap rs rd). }
    rewrite Hl, !Forall_cons in Hfr. destruct Hfr as (Hf1 & Hf2 & Hf3).
    eexists _, _, _, _, rd'; split_and!; [done| |done|by right; right].
    constructor; cbn; try done.
    + eapply (covered_init_wf a1 rd'); [done|rewrite Hl1'; by right; left|done|lia].
    + split_and!; [by apply apart_sym|done..].
Qed.

(** ** Life of a buffer *)

Inductive buffer_op :=
| SetSize (size : Z)
| Produce (bytes : Z)
| Consume (bytes : Z)
| ResetPos
| SetParams (params : option sof_ipc_stream_params) (force_update : bool)
| ResetParams
| Zero.

Definition exec_buffer_op (a : A) (m : mem) (b : comp_buffer) (op : buffer_op) :
    option (A * mem * comp_buffer) :=
  match op with
  | SetSize size => r ← buffer_set_size a m b size; let '(a, m, b, _) := r in Some (a, m, b)
  | Produce bytes => r ← comp_update_buffer_produce b bytes; Some (a, m, r.1)
  | Consume bytes => r ← comp_update_buffer_consume b bytes; Some (a, m, r.1)
  | ResetPos => let '(m, b) := buffer_reset_pos m b in Some (a, m, b)
  | SetParams params force => Some (a, m, (buffer_set_params b params force).1)
  | ResetParams => Some (a, m, buffer_reset_params b)
  | Zero => Some (a, buffer_zero m b, b)
  end.

(** What the callers of a buffer keep to: no more is produced than the buffer
    holds in all and no more consumed than is available. *)
Definition buffer_op_ok (b : comp_buffer) (op : buffer_op) : Prop :=
  match op with
  | SetSize size => size = 0 \/ request_ok size al_dcache
  | Produce bytes => 0 <= bytes <= s_size (b_stream b)
  | Consume bytes => 0 <= bytes <= s_avail (b_stream b)
  | _ => True
  end.

Lemma set_params_wf s p :
  stream_wf s -> stream_wf (audio_stream_set_params s (Some p)).1.
Proof. by intros [[] ? ? ? ?]; constructor; [constructor|..]. Qed.

Lemma owns_stream a b rs rd rest b' :
  owns a b rs rd rest -> stream_wf (b_stream b') -> b_self b' = b_self b ->
  s_addr (b_stream b') = s_addr (b_stream b) -> s_size (b_stream b') = s_size (b_stream b) ->
  owns a b' rs rd rest.
Proof. intros [] ? E1 E2 E3. constructor; rewrite ?E1, ?E2, ?E3; done. Qed.

Lemma exec_buffer_op_owns a m b rs rd rest op :
  owns a b rs rd rest -> buffer_op_ok b op ->
  exists a' m' b' rd', exec_buffer_op a m b op = Some (a', m', b') /\ owns a' b' rs rd' rest.
Proof.
  intros Hown Hok. pose proof (ow_wf _ _ _ _ _ Hown) as Hwf.
  destruct op as [size|bytes|bytes| |params force| |]; cbn [exec_buffer_op buffer_op_ok] in *.
  - destruct (buffer_set_size_spec a m b rs rd rest size Hown Hok)
      as (a' & m' & b' & ret & rd' & -> & Hown' & _). by eexists _, _, _, rd'.
  - unfold comp_update_buffer_produce. case_if; [by eexists _, _, _, rd|].
    destruct (produce_wf (b_stream b) bytes) as (s & -> & Hs & E1 & E2); [done|lia|].
    eexists _, _, _, rd; split; [done|]. by eapply owns_stream.
  - unfold comp_update_buffer_consume. case_if; [by eexists _, _, _, rd|].
    destruct (consume_wf (b_stream b) bytes) as (s & -> & Hs & E1 & E2); [done|lia|].
    eexists _, _, _, rd; split; [done|]. by eapply owns_stream.
  - eexists _, _, _, rd; split; [done|]. eapply owns_stream; [done| |done..].
    by apply reset_wf.
  - eexists _, _, _, rd; split; [done|]. unfold buffer_set_params.
    destruct params as [p|]; [|done]. destruct (_ && _); [done|].
    eapply owns_stream; [done| |done..]. by apply (set_params_wf _ p).
  - eexists _, _, _, rd; split; [done|]. by eapply owns_stream.
  - by eexists _, _, _, rd.
Qed.

Fixpoint run_buffer (a : A) (m : mem) (b : comp_buffer) (ops : list buffer_op) :
    option (A * mem * comp_buffer) :=
  match ops with
  | [] => Some (a, m, b)
  | op :: ops => r ← exec_buffer_op a m b op; let '(a, m, b) := r in run_buffer a m b ops
  end.

Fixpoint buffer_ops_ok (a : A) (m : mem) (b : comp_buffer) (ops : list buffer_op) : Prop :=
  match ops with
  | [] => True
  | op :: ops => buffer_op_ok b op /\
      match exec_buffer_op a m b op with
      | Some (a, m, b) => buffer_ops_ok a m b ops
      | None => True
      end
  end.

(** [buffer_ops_ok] by evaluation. *)
Definition buffer_op_okb (b : comp_buffer) (op : buffer_op) : bool :=
  match op with
  | SetSize size => (size =? 0) || request_okb size al_dcache
  | Produce bytes => (0 <=? bytes) && (bytes <=? s_size (b_stream b))
  | Consume bytes => (0 <=? bytes) && (bytes <=? s_avail (b_stream b))
  | _ => true
  end.

Fixpoint buffer_ops_okb (a : A) (m : mem) (b : comp_buffer) (ops : list buffer_op) : bool :=
  match ops with
  | [] => true
  | op :: ops => buffer_op_okb b op &&
      match exec_buffer_op a m b op with
      | Some (a, m, b) => buffer_ops_okb a m b ops
      | None => true
      end
  end.

Lemma buffer_ops_okb_ok a m b ops : buffer_ops_okb a m b ops = true -> buffer_ops_ok a m b ops.
Proof.
  revert a m b; induction ops as [|op ops IH]; intros a m b; simpl; [done|]. intros H. zbool.
  split; [|destruct (exec_buffer_op a m b op) as [[[? ?] ?]|]; auto].
  destruct op; simpl in *; try done; zbool; try lia.
  destruct H; zbool; auto using request_okb_ok.
Qed.

Lemma run_buffer_owns a m b rs rd rest ops :
  owns a b rs rd rest -> buffer_ops_ok a m b ops ->
  exists a' m' b' rd', run_buffer a m b ops = Some (a', m', b') /\ owns a' b' rs rd' rest.
Proof.
  revert a m b rd; induction ops as [|op ops IH]; intros a m b rd Hown Hok; simpl in *.
  - by eexists _, _, _, rd.
  - destruct Hok as [Hop Hok].
    destruct (exec_buffer_op_owns a m b rs rd rest op Hown Hop) as (a1 & m1 & b1 & rd1 & E & Hown1).
    rewrite E in Hok |- *. cbn. by eapply IH.
Qed.

(** C3: The life of a buffer against the allocator's interface. [buffer_alloc]
    never panics; when it fails, the live memory is what it was (the descriptor
    is not leaked). When it succeeds, any sequence of resizes (failing ones
    included), commits within the buffer's bounds, resets and parameter changes
    runs without a panic and keeps a well-formed stream inside a data range of
    the buffer's own, apart from all other live memory, and the final
    [buffer_free] leaves exactly the memory that was live before the
    allocation: nothing is leaked or freed twice. *)
Theorem buffer_lifecycle a m size caps align :
  al_inv a -> size = 0 \/ request_ok size align ->
  exists a1 m1 ob, buffer_alloc a m size caps align = Some (a1, m1, ob) /\
    match ob with
    | None => al_live a1 ≡ₚ al_live a
    | Some b => forall ops, buffer_ops_ok a1 m1 b ops ->
        exists a2 m2 b2 rd, run_buffer a1 m1 b ops = Some (a2, m2, b2) /\
          stream_wf (b_stream b2) /\
          covers rd (s_addr (b_stream b2)) (s_size (b_stream b2)) /\
          Forall (apart rd) (al_live a) /\
          exists a3, buffer_free a2 b2 = Some (a3, [BufferFree]) /\ al_live a3 ≡ₚ al_live a
    end.
Proof.
  intros Ha Hsize.
  destruct (buffer_alloc_spec a m size caps align Ha Hsize) as (a1 & m1 & ob & E & Ha1 & Hob).
  exists a1, m1, ob. split; [done|]. destruct ob as [b|]; [|done].
  destruct Hob as (rs & rd & Hown & _). intros ops Hops.
  destruct (run_buffer_owns a1 m1 b rs rd _ ops Hown Hops) as (a2 & m2 & b2 & rd2 & E2 & Hown2).
  exists a2, m2, b2, rd2. pose proof Hown2 as [].
  destruct (buffer_free_spec _ _ _ _ _ Hown2) as (a3 & Hf & _ & Hl3).
  split_and!; try done; [by destruct ow_apart0 as (_ & _ & ?)|eauto].
Qed.

(** Resizing on every branch: size zero is rejected with [-EINVAL], a larger
    size that cannot be allocated with [-ENOMEM], both without any change to
    the buffer; otherwise the result is 0, the buffer is empty with the new
    size, and its data range covers that size and is apart from all memory of
    others. *)
Theorem buffer_set_size_outcomes a m b rs rd rest size :
  owns a b rs rd rest -> size = 0 \/ request_ok size al_dcache ->
  exists a' m' b' ret rd', buffer_set_size a m b size = Some (a', m', b', ret) /\
    owns a' b' rs rd' rest /\
    (size = 0 -> ret = - EINVAL) /\
    (ret <> 0 -> b' = b /\ rd' = rd /\ (size = 0 \/ s_size (b_stream b) < size)) /\
    (ret = 0 -> s_size (b_stream b') = size /\ (size <> s_size (b_stream b) -> s_avail (b_stream b') = 0)).
Proof.
  intros Hown Hsize.
  destruct (buffer_set_size_spec a m b rs rd rest size Hown Hsize)
    as (a' & m' & b' & ret & rd' & E & Hown' & _ & Hcase).
  exists a', m', b', ret, rd'. split_and!; [done..| | |].
  - intros ->. unfold buffer_set_size in E. simpl in E. by simplify_eq.
  - intros Hret. destruct Hcase as [(-> & ? & ? & ?)|[(-> & ? & ? & ?)|(-> & _)]]; auto. done.
  - intros ->. split; [by destruct Hcase as [[? _]|[[? _]|[_ ?]]]|]. intros Hne.
    unfold buffer_set_size in E. case_match; [by simplify_eq|]. case_match; [zbool; done|].
    destruct (al_brealloc _ _ _ _ _ _ _ _) as [[[? ?] ?]|]; [|done]. cbn in E.
    case_match; by simplify_eq.
Qed.
End buffer.

(** The two properties on the heap of [src/lib/alloc.c]. *)
#[local] Instance demo_allocator : Allocator mm := heap_allocator baytrail baytrail_dcache 4096 65536.

Lemma demo_sizeof : request_ok 120 0.
Proof. apply request_okb_ok. vm_compute. reflexivity. Qed.

Definition demo_buffer_ops : list buffer_op :=
  [Produce 400; SetSize 1000; Produce 100; Consume 40; SetSize 5000; ResetParams].

Lemma buffer_lifecycle_witness :
  exists a1 m1 ob, buffer_alloc 120 demo_mm (fun _ => 7) 600 SOF_MEM_CAPS_DMA 4 = Some (a1, m1, ob) /\
    match ob with
    | None => False
    | Some b => exists a2 m2 b2 a3, run_buffer a1 m1 b demo_buffer_ops = Some (a2, m2, b2) /\
        stream_wf (b_stream b2) /\
        buffer_free a2 b2 = Some (a3, [BufferFree]) /\ al_live a3 ≡ₚ al_live demo_mm
    end.
Proof.
  destruct (@buffer_lifecycle mm demo_allocator 120 demo_sizeof demo_mm (fun _ => 7) 600
    SOF_MEM_CAPS_DMA 4 demo_mm_single) as (a1 & m1 & ob & E & Hob).
  { right. apply request_okb_ok. vm_compute. reflexivity. }
  exists a1, m1, ob. split; [done|].
  assert (match ob with Some b => buffer_ops_okb a1 m1 b demo_buffer_ops | None => false end = true)
    as Hok.
  { transitivity (match buffer_alloc 120 demo_mm (fun _ => 7) 600 SOF_MEM_CAPS_DMA 4 with
      | Some (a, m, Some b) => buffer_ops_okb a m b demo_buffer_ops | _ => false end).
    - by rewrite E. 
    - vm_compute. reflexivity. }
  destruct ob as [b|]; [|done].
  destruct (Hob demo_buffer_ops (buffer_ops_okb_ok _ _ _ _ Hok))
    as (a2 & m2 & b2 & rd & E2 & Hwf & _ & _ & a3 & E3 & Hl).
  by exists a2, m2, b2, a3.
Defined.

Lemma buffer_set_size_outcomes_witness :
  exists a b rs rd, owns 120 a b rs rd (al_live demo_mm) /\
    exists a' m' b' rd', buffer_set_size a (fun _ => 7) b 0 = Some (a', m', b', - EINVAL) /\
      owns 120 a' b' rs rd' (al_live demo_mm).
Proof.
  destruct (@buffer_alloc_spec mm demo_allocator 120 demo_sizeof demo_mm (fun _ => 7) 600
    SOF_MEM_CAPS_DMA 4 demo_mm_single) as (a1 & m1 & ob & E & _ & Hob).
  { right. apply request_okb_ok. vm_compute. reflexivity. }
  assert (match ob with Some _ => true | None => false end = true) as Hsome.
  { transitivity (match buffer_alloc 120 demo_mm (fun _ => 7) 600 SOF_MEM_CAPS_DMA 4 with
      | Some (_, _, Some _) => true | _ => false end); [by rewrite E|vm_compute; reflexivity]. }
  destruct ob as [b|]; [|done]. destruct Hob as (rs & rd & Hown & _).
  exists a1, b, rs, rd. split; [done|].
  destruct (buffer_set_size_outcomes 120 a1 (fun _ => 7) b rs rd (al_live demo_mm) 0 Hown
    (or_introl eq_refl)) as (a' & m' & b' & ret & rd' & Es & Hown' & Hret & _).
  rewrite (Hret eq_refl) in Es. by exists a', m', b', rd'.
Defined.
