(* ===== verification/Numbers.v ===== *)
(** * Integer helpers ([src/math/numbers.c], [include/sof/math/numbers.h])

    Binary greatest common divisor, vector searches, normalisation and CRC-32.
    The loops of [gcd] and [norm_int32] are bounded by fuel: a 32-bit value has
    at most 32 factors of two, and the subtraction loop of [gcd] halves the
    product of its two operands, so 64 rounds are enough; the theorems show that
    the bounds are never reached. *)

From stdpp Require Import base list numbers option.
From S2P Require Import Prelude.

(** ** Greatest common divisor *)

(** [while ((x & 1) == 0) x >>= 1;] *)
Fixpoint strip2 (fuel : nat) (x : Z) : Z :=
  match fuel with
  | O => x
  | S fuel => if Z.land x 1 =? 0 then strip2 fuel (Z.shiftr x 1) else x
  end.

(** The loop that counts the common factors of two. *)
Fixpoint common2 (fuel : nat) (a b k : Z) : Z * Z * Z :=
  match fuel with
  | O => (a, b, k)
  | S fuel =>
      if Z.land (Z.lor a b) 1 =? 0 then common2 fuel (Z.shiftr a 1) (Z.shiftr b 1) (k + 1)
      else (a, b, k)
  end.

(** The [do ... while (b != 0)] loop; [None] when the fuel is used up. *)
Fixpoint gcd_loop (fuel : nat) (a b : Z) : option Z :=
  match fuel with
  | O => None
  | S fuel =>
      let b := strip2 32 b in
      let '(a, b) := if a >? b then (b, a) else (a, b) in
      let b := b - a in
      if b =? 0 then Some a else gcd_loop fuel a b
  end.

Definition gcd (a b : Z) : option Z :=
  if a =? 0 then Some b else
  if b =? 0 then Some a else
  let a := if a <? 0 then i32 (- a) else a in
  let b := if b <? 0 then i32 (- b) else b in
  let '(a, b, k) := common2 32 a b 0 in
  let a := strip2 32 a in
  a ← gcd_loop 64 a b;
  Some (i32 (Z.shiftl a k)).

(** ** Vector searches *)

(** The loop of [find_equal_int16] from index [i] on: the indexes stored. *)
Fixpoint find_equal_loop (vec : list Z) (n max_results i nresults : Z) : list Z :=
  match vec with
  | [] => []
  | v :: vec =>
      if v =? n then
        if nresults + 1 =? max_results then [i16 i]
        else i16 i :: find_equal_loop vec n max_results (i + 1) (nresults + 1)
      else find_equal_loop vec n max_results (i + 1) nresults
  end.

(** [idx[]] up to the number of results, and the number of results. *)
Definition find_equal_int16 (vec : list Z) (n max_results : Z) : list Z * Z :=
  let idx := find_equal_loop vec n max_results 0 0 in
  (idx, Z.of_nat (length idx)).

Definition find_min_int16 (vec : list Z) : option Z :=
  match vec with
  | [] => None
  | v :: vec => Some (i16 (foldl (fun min v => if v <? min then v else min) v vec))
  end.

Definition SATP_INT32 (x : Z) : Z := if x >? INT32_MAX then INT32_MAX else x.

(** [amax] is 64 bits wide, but [-vec[i]] is computed in 32 bits. *)
Definition find_max_abs_int32 (vec : list Z) : option Z :=
  match vec with
  | [] => None
  | v :: vec =>
      let amax := if v >? 0 then v else i32 (- v) in
      let amax := foldl (fun amax v =>
        let amax := if v >? amax then v else amax in
        if i32 (- v) >? amax then i32 (- v) else amax) amax vec in
      Some (i32 (SATP_INT32 amax))
  end.

(** ** Normalisation *)

Fixpoint norm_loop (fuel : nat) (val c : Z) : Z :=
  match fuel with
  | O => c
  | S fuel =>
      if negb (val =? -1) && negb (val =? 0) then norm_loop fuel (Z.shiftr val 1) (c + 1) else c
  end.

Definition norm_int32 (val : Z) : Z := 31 - norm_loop 32 val 0.

(** ** CRC-32 *)

Definition crc_bit (cur : Z) : Z :=
  if negb (Z.land cur 1 =? 0) then Z.lxor (Z.shiftr cur 1) 0xEDB88320 else Z.shiftr cur 1.

Definition crc_byte (crc byte : Z) : Z :=
  let cur := Z.land (Z.lxor crc byte) 0xFF in
  Z.lxor (Nat.iter 8 crc_bit cur) (Z.shiftr crc 8).

Definition crc32 (base : Z) (data : list Z) : Z :=
  u32 (Z.lnot (foldl crc_byte (u32 (Z.lnot base)) data)).

(** ** Other helpers *)

Definition ceil_divide (a b : Z) : Z :=
  let c := Z.quot a b in
  if (Z.land (u32 (Z.lxor a b)) (2 ^ 31) =? 0) && negb (c * b =? a) then c + 1 else c.

Definition cross_product_s16 (a b c d e f : Z) : Z * Z * Z :=
  (b * f - c * e, c * d - a * f, a * e - b * d).

(** ** Theory of [gcd] *)

Lemma land1_even x : (Z.land x 1 =? 0) = Z.even x.
Proof.
  change 1 with (Z.ones 1). rewrite Z.land_ones, Zmod_even by lia. by destruct (Z.even x).
Qed.

Lemma even_half x : Z.even x = true -> x = 2 * Z.shiftr x 1.
Proof. intros [y ->]%Zeven_bool_iff%Zeven_ex_iff. rewrite Z.shiftr_div_pow2; [mlia|lia]. Qed.

Lemma gcd_odd_2 a b : Z.odd a = true -> Z.gcd a (2 * b) = Z.gcd a b.
Proof.
  intros Ha. apply Z.gcd_unique; [apply Z.gcd_nonneg|apply Z.gcd_divide_l| |].
  - apply Z.divide_mul_r, Z.gcd_divide_r.
  - intros q Hqa Hq. apply Z.gcd_greatest; [done|]. apply Z.gauss with 2; [done|].
    apply Z.gcd_unique; [lia|apply Z.divide_1_l..|]. intros d Hdq Hd2.
    assert (d | a) as [c ->] by (by transitivity q).
    destruct Hd2 as [e He]. assert (Z.odd d = true) as Hd.
    { rewrite Z.odd_mul in Ha. by apply andb_true_iff in Ha as [_ ?]. }
    assert (d = 1 \/ d = -1 \/ d = 2 \/ d = -2) as [Hd1|[Hd1|[Hd1|Hd1]]] by (destruct (Z.lt_trichotomy e 0); nia);
      subst d; done || (by exists (-1)).
Qed.

(** Removing the factors of two of a positive number below [2 ^ n]. *)
Lemma strip2_spec n x :
  0 < x < 2 ^ Z.of_nat n ->
  exists j, 0 <= j /\ x = 2 ^ j * strip2 n x /\ Z.odd (strip2 n x) = true /\
    0 < strip2 n x <= x /\ (Z.even x = true -> strip2 n x <= x / 2).
Proof.
  revert x; induction n as [|n IH]; intros x Hx; [simpl in Hx; lia|]. cbn [strip2]. rewrite land1_even.
  destruct (Z.even x) eqn:E.
  - pose proof (even_half x E) as Hh. set (y := Z.shiftr x 1) in *.
    destruct (IH y) as (j & Hj & Hy & Ho & Hle & _).
    { rewrite Nat2Z.inj_succ, Z.pow_succ_r in Hx by lia. lia. }
    exists (j + 1). rewrite Z.pow_add_r by lia. split_and!; [lia|lia|done|lia|lia|].
    intros _. rewrite Hh, Z.mul_comm, Z.div_mul by lia. lia.
  - exists 0. rewrite <-Z.negb_even, E. split_and!; try done; lia.
Qed.

Lemma gcd_strip a n x :
  Z.odd a = true -> 0 < x < 2 ^ Z.of_nat n -> Z.gcd a (strip2 n x) = Z.gcd a x.
Proof.
  intros Ha Hx. destruct (strip2_spec n x Hx) as (j & Hj & Heq & _). rewrite Heq at 2.
  generalize (strip2 n x). clear Heq. intros y. pattern j. apply natlike_ind; [f_equal; lia| |done].
  intros i Hi IH. rewrite Z.pow_succ_r, <-Z.mul_assoc, gcd_odd_2; done.
Qed.

Lemma common2_spec n a b k :
  0 < a < 2 ^ Z.of_nat n -> 0 < b -> 0 <= k ->
  exists a' b' k', common2 n a b k = (a', b', k') /\ k <= k' /\
    a = 2 ^ (k' - k) * a' /\ b = 2 ^ (k' - k) * b' /\ 0 < a' <= a /\ 0 < b' <= b /\
    (Z.odd a' || Z.odd b' = true).
Proof.
  revert a b k; induction n as [|n IH]; intros a b k Ha Hb Hk; [simpl in Ha; lia|].
  cbn [common2]. rewrite land1_even, <-Z.negb_odd, <-!Z.bit0_odd, Z.lor_spec, !Z.bit0_odd.
  destruct (Z.odd a || Z.odd b) eqn:E; cbn [negb].
  - exists a, b, k. rewrite Z.sub_diag. split_and!; try done; lia.
  - apply orb_false_iff in E as [Ea Eb].
    pose proof (even_half a ltac:(by rewrite <-Z.negb_odd, Ea)) as Ha2.
    pose proof (even_half b ltac:(by rewrite <-Z.negb_odd, Eb)) as Hb2.
    rewrite Nat2Z.inj_succ, Z.pow_succ_r in Ha by lia.
    destruct (IH (Z.shiftr a 1) (Z.shiftr b 1) (k + 1)) as (a' & b' & k' & -> & Hk' & E1 & E2 & ? & ? & ?);
      [lia..|].
    exists a', b', k'. replace (k' - k) with (Z.succ (k' - (k + 1))) by lia.
    rewrite Z.pow_succ_r by lia. split_and!; try done; lia.
Qed.

#[local] Arguments strip2 : simpl never.
#[local] Arguments common2 : simpl never.

Lemma gcd_loop_spec n fuel a b :
  Z.odd a = true -> 0 < a -> 0 < b < 2 ^ 32 -> a < 2 ^ 32 ->
  a * strip2 32 b < 2 ^ Z.of_nat n -> (n <= fuel)%nat ->
  gcd_loop fuel a b = Some (Z.gcd a b).
Proof.
  revert fuel a b; induction n as [|n IH]; intros fuel a b Ha Ha0 Hb Ha32 Hp Hf.
  { destruct (strip2_spec 32 b Hb) as (_ & _ & _ & _ & Hs & _). change (2 ^ Z.of_nat 0) with 1 in Hp. nia. }
  destruct fuel as [|fuel]; [lia|]. cbn [gcd_loop]. rewrite <-(gcd_strip a 32 b Ha Hb).
  destruct (strip2_spec 32 b Hb) as (_ & _ & _ & Ho & Hs & _).
  set (c := strip2 32 b) in *. clearbody c.
  assert (forall x y, 0 < x < 2 ^ 32 -> 0 < y < 2 ^ 32 -> x <= y -> x * y = a * c ->
    Z.odd x = true -> Z.odd y = true -> Z.gcd x y = Z.gcd a c ->
    (if y - x =? 0 then Some x else gcd_loop fuel x (y - x)) = Some (Z.gcd a c)) as Hstep.
  { intros x y Hx Hy Hxy Hprod Hox Hoy <-. case_if.
    - replace y with x by lia. rewrite Z.gcd_diag. f_equal. lia.
    - rewrite <-(Z.gcd_sub_diag_r x y).
      apply IH; [done|lia|lia|lia| |lia].
      destruct (strip2_spec 32 (y - x)) as (_ & _ & _ & _ & Hs' & He); [lia|].
      specialize (He ltac:(by rewrite Z.even_sub, <-!Z.negb_odd, Hox, Hoy)).
      rewrite Nat2Z.inj_succ, Z.pow_succ_r in Hp by lia.
      assert (2 * strip2 32 (y - x) <= y - x) by mlia. nia. }
  case_if; apply Hstep; try done; try lia. apply Z.gcd_comm.
Qed.

(** The binary GCD returns what its comment says: [gcd(0, b)] is [b],
    [gcd(a, 0)] is [a], and for all other arguments, negative ones included but
    not [INT32_MIN], the loops end and the result is the greatest common
    divisor. *)
Theorem gcd_correct a b :
  - 2 ^ 31 < a < 2 ^ 31 -> - 2 ^ 31 < b < 2 ^ 31 ->
  gcd a b = Some (if a =? 0 then b else if b =? 0 then a else Z.gcd a b).
Proof.
  intros Ha Hb. unfold gcd. case_if; [done|]. case_if; [done|].
  assert (forall x, - 2 ^ 31 < x < 2 ^ 31 -> (if x <? 0 then i32 (- x) else x) = Z.abs x) as Habs.
  { intros x Hx. case_if; [rewrite i32_small|]; lia. }
  rewrite !Habs, <-(Z.gcd_abs_l a), <-(Z.gcd_abs_r _ b) by done.
  set (x := Z.abs a). set (y := Z.abs b).
  assert (0 < x < 2 ^ 31 /\ 0 < y < 2 ^ 31) as [Hx Hy] by lia. clearbody x y.
  destruct (common2_spec 32 x y 0) as (x' & y' & k & -> & Hk & Ex & Ey & Hx' & Hy' & Hodd); [lia..|].
  rewrite Z.sub_0_r in Ex, Ey.
  destruct (strip2_spec 32 x') as (j & Hj & Exs & Ho & Hs & _); [simpl; lia|].
  rewrite (gcd_loop_spec 62) with (b := y'); [|done|lia|lia|lia| |lia].
  - cbn [mbind option_bind]. f_equal. rewrite Z.shiftl_mul_pow2 by done.
    assert (Z.gcd (strip2 32 x') y' = Z.gcd x' y') as ->.
    { destruct (Z.odd y') eqn:Ey'.
      - rewrite Z.gcd_comm, (Z.gcd_comm x'). apply gcd_strip; [done|simpl; lia].
      - rewrite orb_false_r in Hodd. unfold strip2. rewrite land1_even, <-Z.negb_odd, Hodd. done. }
    assert (Z.gcd x y = Z.gcd x' y' * 2 ^ k) as <-.
    { rewrite Ex, Ey, Z.gcd_mul_mono_l, Z.abs_eq by lia. lia. }
    assert (0 < Z.gcd x y <= x).
    { split; [|apply Z.divide_pos_le; [lia|apply Z.gcd_divide_l]].
      assert (Z.gcd x y <> 0) by (intros [? _]%Z.gcd_eq_0; lia). pose proof (Z.gcd_nonneg x y). lia. }
    apply i32_small. lia.
  - destruct (strip2_spec 32 y') as (_ & _ & _ & _ & Hsy & _); [simpl; lia|].
    change (2 ^ Z.of_nat 62) with (2 ^ 31 * 2 ^ 31). nia.
Qed.

Lemma gcd_correct_witness : gcd (-48) 36 = Some 12 /\ gcd 48000 44100 = Some 300.
Proof.
  split; [exact (gcd_correct (-48) 36 ltac:(lia) ltac:(lia))|
          exact (gcd_correct 48000 44100 ltac:(lia) ltac:(lia))].
Defined.

(** ** Normalisation *)

Lemma norm_loop_spec n v c :
  - 2 ^ Z.of_nat n <= v < 2 ^ Z.of_nat n ->
  exists k, 0 <= k <= Z.of_nat n /\ norm_loop n v c = c + k /\ - 2 ^ k <= v < 2 ^ k /\
    (0 < k -> v < - 2 ^ (k - 1) \/ 2 ^ (k - 1) <= v).
Proof.
  revert v c; induction n as [|n IH]; intros v c Hv; cbn [norm_loop].
  - exists 0. simpl in Hv. split_and!; lia.
  - case_if.
    + pose proof (Z.div_mod v 2 ltac:(lia)). pose proof (Z.mod_pos_bound v 2 ltac:(lia)).
      rewrite Z.shiftr_div_pow2 by lia. change (2 ^ 1) with 2.
      rewrite Nat2Z.inj_succ, Z.pow_succ_r in Hv by lia.
      destruct (IH (v / 2) (c + 1)) as (k & Hk & -> & Hr & Hm); [lia|].
      exists (k + 1). rewrite Z.add_simpl_r. rewrite Z.pow_add_r by lia.
      split_and!; [lia|lia|lia|lia|lia|]. intros _.
      destruct (decide (k = 0)) as [->|Hk0]; [lia|].
      replace k with (Z.succ (k - 1)) by lia. rewrite Z.pow_succ_r by lia. lia.
    + exists 0. change (2 ^ 0) with 1. assert (v = -1 \/ v = 0) by (destruct_or!; zbool; auto).
      split_and!; lia.
Qed.

(** [norm_int32] is the largest left shift that does not overflow, and 31
    for zero. *)
Theorem norm_int32_maximal v :
  - 2 ^ 31 <= v < 2 ^ 31 ->
  0 <= norm_int32 v <= 31 /\
  - 2 ^ 31 <= v * 2 ^ norm_int32 v < 2 ^ 31 /\
  (v = 0 -> norm_int32 v = 31) /\
  (v <> 0 -> forall n, norm_int32 v < n -> ~ (- 2 ^ 31 <= v * 2 ^ n < 2 ^ 31)).
Proof.
  intros Hv. unfold norm_int32.
  destruct (norm_loop_spec 32 v 0) as (k & Hk & -> & Hr & Hm); [simpl; lia|]. rewrite Z.add_0_l.
  assert (k <= 31) as Hk31.
  { destruct (decide (k = 32)) as [->|]; [|lia]. specialize (Hm ltac:(lia)). simpl in Hm. lia. }
  assert (2 ^ 31 = 2 ^ k * 2 ^ (31 - k)) as E by (rewrite <-Z.pow_add_r by lia; f_equal; lia).
  assert (0 < 2 ^ (31 - k)) by (apply Z.pow_pos_nonneg; lia).
  split_and!; [lia..|nia|nia| |].
  - intros ->. destruct (decide (k = 0)) as [->|]; [done|]. specialize (Hm ltac:(lia)).
    assert (0 < 2 ^ (k - 1)) by (apply Z.pow_pos_nonneg; lia). lia.
  - intros Hv0 n Hn Hbad. assert (2 ^ 31 * 2 ^ (n - 1 - (31 - k)) = 2 ^ k * 2 ^ (n - 1)) as E2.
    { rewrite E, <-Z.mul_assoc, <-Z.pow_add_r by lia. do 2 f_equal. lia. }
    assert (1 <= 2 ^ (n - 1 - (31 - k))) by (apply (Z.pow_le_mono_r 2 0); lia).
    replace n with (Z.succ (n - 1)) in Hbad by lia. rewrite Z.pow_succ_r in Hbad by lia.
    set (p := 2 ^ (n - 1)) in *. assert (0 < p) by (subst p; apply Z.pow_pos_nonneg; lia).
    destruct (decide (k = 0)) as [->|Hk0]; [simpl in *; nia|]. specialize (Hm ltac:(lia)).
    replace k with (Z.succ (k - 1)) in E2 by lia. rewrite Z.pow_succ_r in E2 by lia.
    set (q := 2 ^ (k - 1)) in *. clearbody p q. destruct Hm; nia.
Qed.

Lemma norm_int32_maximal_witness :
  norm_int32 5 = 28 /\ - 2 ^ 31 <= 5 * 2 ^ norm_int32 5 < 2 ^ 31 /\
  ~ (- 2 ^ 31 <= 5 * 2 ^ 29 < 2 ^ 31).
Proof.
  destruct (norm_int32_maximal 5 ltac:(lia)) as (_ & H1 & _ & H2).
  split_and!; [reflexivity|apply H1..|]. apply H2; [lia|vm_compute; reflexivity].
Defined.

(** ** CRC-32 *)

Lemma lxor_u32 a b : 0 <= a < 2 ^ 32 -> 0 <= b < 2 ^ 32 -> 0 <= Z.lxor a b < 2 ^ 32.
Proof.
  intros Ha Hb. split; [apply Z.lxor_nonneg; lia|].
  destruct (Z.eq_dec (Z.lxor a b) 0) as [->|Hne]; [lia|].
  assert (0 <= Z.lxor a b) by (apply Z.lxor_nonneg; lia).
  apply Z.log2_lt_pow2; [lia|]. pose proof (Z.log2_lxor a b ltac:(lia) ltac:(lia)).
  assert (forall x, 0 <= x < 2 ^ 32 -> Z.log2 x < 32) as Hl.
  { intros x Hx. destruct (decide (x = 0)) as [->|]; [done|]. apply Z.log2_lt_pow2; lia. }
  pose proof (Hl a Ha). pose proof (Hl b Hb). lia.
Qed.

Lemma crc_bit_range x : 0 <= x < 2 ^ 32 -> 0 <= crc_bit x < 2 ^ 32.
Proof.
  intros Hx. assert (0 <= Z.shiftr x 1 < 2 ^ 32) by (rewrite Z.shiftr_div_pow2 by lia; mlia).
  unfold crc_bit. case_if; [|done]. apply lxor_u32; [done|lia].
Qed.

Lemma crc_byte_range crc byte : 0 <= crc < 2 ^ 32 -> 0 <= crc_byte crc byte < 2 ^ 32.
Proof.
  intros Hc. unfold crc_byte. apply lxor_u32; [|rewrite Z.shiftr_div_pow2 by lia; mlia].
  change 255 with (Z.ones 8). rewrite Z.land_ones by lia.
  pose proof (Z.mod_pos_bound (Z.lxor crc byte) (2 ^ 8) ltac:(lia)).
  assert (forall n x, 0 <= x < 2 ^ 32 -> 0 <= Nat.iter n crc_bit x < 2 ^ 32) as Hit.
  { induction n as [|n IH]; intros x Hx; simpl; [done|]. by apply crc_bit_range, IH. }
  apply Hit. lia.
Qed.

Lemma u32_lnot_lnot x : 0 <= x < 2 ^ 32 -> u32 (Z.lnot (u32 (Z.lnot x))) = x.
Proof.
  intros Hx. unfold u32, Z.lnot.
  replace (Z.pred (- x)) with (2 ^ 32 - 1 - x + (-1) * 2 ^ 32) by lia.
  rewrite Z_mod_plus_full, (Z.mod_small (2 ^ 32 - 1 - x)) by lia.
  replace (Z.pred (- (2 ^ 32 - 1 - x))) with (x + (-1) * 2 ^ 32) by lia.
  by rewrite Z_mod_plus_full, Z.mod_small.
Qed.

(** CRC-32 can be computed piecewise: continuing the checksum of a prefix
    over the rest gives the checksum of the whole, wherever the data is cut;
    the checksum is a 32-bit value. *)
Theorem crc32_incremental base d1 d2 :
  crc32 (crc32 base d1) d2 = crc32 base (d1 ++ d2) /\ 0 <= crc32 base d1 < 2 ^ 32.
Proof.
  split; [|apply u32_range]. unfold crc32. rewrite foldl_app, u32_lnot_lnot; [done|].
  assert (0 <= u32 (Z.lnot base) < 2 ^ 32) as H by apply u32_range.
  revert H. generalize (u32 (Z.lnot base)).
  induction d1 as [|b d1 IH]; intros c Hc; simpl; [done|]. by apply IH, crc_byte_range.
Qed.

(** The check value of CRC-32 for the digits 1 to 9. *)
Example crc32_check : crc32 0 [49; 50; 51; 52; 53; 54; 55; 56; 57] = 0xCBF43926.
Proof. vm_compute. reflexivity. Qed.

(** ** Vector searches *)

Definition list_max (l : list Z) (m : Z) : Z := foldl Z.max m l.

(** [find_max_abs_int32] is the largest absolute value of the vector, if no
    element is [INT32_MIN]. *)
Theorem find_max_abs_correct v vec :
  Forall (fun x => - 2 ^ 31 < x < 2 ^ 31) (v :: vec) ->
  find_max_abs_int32 (v :: vec) = Some (list_max (Z.abs <$> vec) (Z.abs v)).
Proof.
  intros Hall. apply list.Forall_cons in Hall as [Hv Hvec]. unfold find_max_abs_int32.
  replace (if v >? 0 then v else i32 (- v)) with (Z.abs v) by (case_if; rewrite ?i32_small; lia).
  assert (0 <= Z.abs v < 2 ^ 31) as Ha by lia. revert Ha. generalize (Z.abs v). intros m Hm.
  f_equal. revert m Hm. induction Hvec as [|x vec Hx Hvec IH]; intros m Hm.
  - simpl. unfold SATP_INT32. case_if; rewrite i32_small; lia.
  - cbn [foldl list_max fmap list_fmap]. rewrite (i32_small (- x)) by lia.
    replace (if - x >? _ then _ else _) with (Z.max m (Z.abs x))
      by (destruct (x >? m) eqn:?; zbool; case_if; lia).
    apply IH. lia.
Qed.

Lemma find_max_abs_correct_witness : find_max_abs_int32 [3; -17; 9] = Some 17.
Proof. exact (find_max_abs_correct 3 [-17; 9] ltac:(repeat constructor; lia)). Defined.

(** The negation is computed in 32 bits, so a leading [INT32_MIN] is its own
    "absolute value". *)
Example find_max_abs_min : find_max_abs_int32 [INT32_MIN] = Some INT32_MIN.
Proof. vm_compute. reflexivity. Qed.
