(* ===== verification/DataBlob.v ===== *)
(** * Configuration blobs of components ([src/audio/component.c])

    Large component configurations arrive in chunks and replace the current
    configuration once complete. The handler keeps the current blob and the one
    being received, both from the allocator, known through its interface. The
    null pointer is [0]; [None] is a failed assertion. *)

From stdpp Require Import base list numbers option sets.
From S2P Require Import Prelude Heap HeapFree HeapZones Allocator Numbers.

Record comp_data_blob_handler := mk_blob {
  bh_self : Z;
  bh_data_size : Z;
  bh_new_data_size : Z;
  bh_data : Z;
  bh_data_new : Z;
  bh_data_ready : bool;
  bh_data_pos : Z
}.

(** What the handler reads of [struct sof_ipc_ctrl_data]; [cd_data] is the
    address of the payload, [cd_data_size] its header's [size]. *)
Record sof_ipc_ctrl_data := mk_cdata {
  cd_num_elems : Z;
  cd_elems_remaining : Z;
  cd_msg_index : Z;
  cd_data_size : Z;
  cd_data : Z
}.

Abbreviation COMP_STATE_READY := 1 (only parsing).

(** The bytes at [p]. *)
Definition load (m : mem) (p : Z) (n : nat) : list Z := (fun i => m (p + Z.of_nat i)) <$> seq 0 n.

Definition comp_is_new_data_blob_available (h : comp_data_blob_handler) : bool :=
  negb (bh_data_new h =? 0) && bh_data_ready h.

Section blob.
Context {A : Type} `{!Allocator A}.

(** [rballoc]: the default alignment. *)
Definition rballoc (a : A) (flags caps bytes : Z) : option (A * Z) :=
  al_balloc a flags caps bytes al_dcache.

Definition comp_free_data_blob (a : A) (h : comp_data_blob_handler) :
    option (A * comp_data_blob_handler) :=
  if bh_data h =? 0 then Some (a, h) else
  a ← al_free a (bh_data h);
  a ← al_free a (bh_data_new h);
  Some (a, mk_blob (bh_self h) 0 (bh_new_data_size h) 0 0 (bh_data_ready h) (bh_data_pos h)).

(** The result: size, checksum and address of the blob. *)
Definition comp_get_data_blob (a : A) (m : mem) (h : comp_data_blob_handler) :
    option (A * comp_data_blob_handler * (Z * option Z * Z)) :=
  r ← (if comp_is_new_data_blob_available h then
         a ← al_free a (bh_data h);
         Some (a, mk_blob (bh_self h) (bh_new_data_size h) 0 (bh_data_new h) 0 false 0)
       else Some (a, h));
  let '(a, h) := r in
  let crc := if bh_data h =? 0 then None
             else Some (crc32 0 (load m (bh_data h) (Z.to_nat (bh_data_size h)))) in
  Some (a, h, (bh_data_size h, crc, bh_data h)).

Definition comp_init_data_blob (a : A) (m : mem) (h : comp_data_blob_handler)
    (size init_data : Z) : option (A * mem * comp_data_blob_handler * Z) :=
  r ← comp_free_data_blob a h;
  let '(a, h) := r in
  if size =? 0 then Some (a, m, h, 0) else
  r ← rballoc a 0 SOF_MEM_CAPS_RAM size;
  let '(a, data) := r in
  let h := mk_blob (bh_self h) (bh_data_size h) (bh_new_data_size h) data (bh_data_new h)
             (bh_data_ready h) (bh_data_pos h) in
  if data =? 0 then Some (a, m, h, - ENOMEM) else
  m ← (if negb (init_data =? 0) then
         let '(m, ret) := memcpy_s m data size init_data size in
         if negb (ret =? 0) then None else Some m
       else Some (memset m data 0 size));
  Some (a, m, mk_blob (bh_self h) size 0 data 0 (bh_data_ready h) (bh_data_pos h), 0).

(** The first chunk allocates the new blob: an error or early success, or the
    handler to go on with. *)
Definition set_cmd_first (a : A) (h : comp_data_blob_handler) (cdata : sof_ipc_ctrl_data) :
    option (A * comp_data_blob_handler * option Z) :=
  if negb (cd_msg_index cdata =? 0) then Some (a, h, None) else
  if cd_data_size cdata =? 0 then Some (a, h, Some 0) else
  r ← rballoc a 0 SOF_MEM_CAPS_RAM (cd_data_size cdata);
  let '(a, data_new) := r in
  if data_new =? 0 then
    Some (a, mk_blob (bh_self h) (bh_data_size h) (bh_new_data_size h) (bh_data h) 0
            (bh_data_ready h) (bh_data_pos h), Some (- ENOMEM))
  else
    Some (a, mk_blob (bh_self h) (bh_data_size h) (cd_data_size cdata) (bh_data h) data_new false 0,
          None).

(** The last chunk makes the new blob current, or marks it ready. *)
Definition set_cmd_last (a : A) (h : comp_data_blob_handler) (dev_state : Z) :
    option (A * comp_data_blob_handler) :=
  r ← (if dev_state =? COMP_STATE_READY then
         a ← al_free a (bh_data h);
         Some (a, mk_blob (bh_self h) (bh_data_size h) (bh_new_data_size h) 0 (bh_data_new h)
                    (bh_data_ready h) (bh_data_pos h))
       else Some (a, h));
  let '(a, h) := r in
  if bh_data h =? 0 then
    Some (a, mk_blob (bh_self h) (bh_new_data_size h) 0 (bh_data_new h) 0 false 0)
  else
    Some (a, mk_blob (bh_self h) (bh_data_size h) (bh_new_data_size h) (bh_data h) (bh_data_new h)
               true (bh_data_pos h)).

(** Copying one chunk into the new blob. *)
Definition set_cmd_chunk (a : A) (m : mem) (h : comp_data_blob_handler) (dev_state : Z)
    (cdata : sof_ipc_ctrl_data) : option (A * mem * comp_data_blob_handler * Z) :=
  if bh_data_new h =? 0 then Some (a, m, h, - ENOMEM) else
  let '(m, ret) := memcpy_s m (u32 (bh_data_new h + bh_data_pos h))
                     (u32 (bh_new_data_size h - bh_data_pos h))
                     (cd_data cdata) (cd_num_elems cdata) in
  if negb (ret =? 0) then None else
  let h := mk_blob (bh_self h) (bh_data_size h) (bh_new_data_size h) (bh_data h)
             (bh_data_new h) (bh_data_ready h) (u32 (bh_data_pos h + cd_num_elems cdata)) in
  if negb (cd_elems_remaining cdata =? 0) then Some (a, m, h, 0) else
  r ← set_cmd_last a h dev_state;
  Some (r.1, m, r.2, 0).

Definition comp_data_blob_set_cmd (a : A) (m : mem) (h : comp_data_blob_handler) (dev_state : Z)
    (cdata : sof_ipc_ctrl_data) : option (A * mem * comp_data_blob_handler * Z) :=
  if negb (bh_data_new h =? 0) && (cd_msg_index cdata =? 0) then Some (a, m, h, - EBUSY) else
  r ← set_cmd_first a h cdata;
  let '(a, h, done) := r in
  match done with
  | Some ret => Some (a, m, h, ret)
  | None => set_cmd_chunk a m h dev_state cdata
  end.

(** The return value and the blob size reported in the header. *)
Definition comp_data_blob_get_cmd (m : mem) (h : comp_data_blob_handler) (cdata : sof_ipc_ctrl_data)
    (size : Z) : option (mem * comp_data_blob_handler * (Z * Z)) :=
  if bh_data h =? 0 then Some (m, h, (0, 0)) else
  let pos := if cd_msg_index cdata =? 0 then 0 else bh_data_pos h in
  let set_pos p := mk_blob (bh_self h) (bh_data_size h) (bh_new_data_size h) (bh_data h)
                     (bh_data_new h) (bh_data_ready h) p in
  if cd_num_elems cdata >? u32 size then Some (m, set_pos pos, (- EINVAL, cd_data_size cdata)) else
  let '(m, ret) := memcpy_s m (cd_data cdata) (u32 size) (u32 (bh_data h + pos))
                     (cd_num_elems cdata) in
  if negb (ret =? 0) then None else
  Some (m, set_pos (u32 (pos + cd_num_elems cdata)), (0, bh_data_size h)).

(** [sizeof(struct comp_data_blob_handler)]. *)
Context (sizeof_blob : Z) (Hsizeof : request_ok sizeof_blob 0).

Definition comp_data_blob_handler_new (a : A) : option (A * option comp_data_blob_handler) :=
  r ← al_malloc a 0 SOF_MEM_CAPS_RAM sizeof_blob;
  let '(a, self) := r in
  Some (a, if self =? 0 then None else Some (mk_blob self 0 0 0 0 false 0)).

Definition comp_data_blob_handler_free (a : A) (h : comp_data_blob_handler) : option A :=
  r ← comp_free_data_blob a h;
  al_free r.1 (bh_self h).

(** ** Ownership *)

(** [p] is null and [rs] empty, or [p] points at [size] bytes of the range
    [rs]. *)
Definition opt_range (p size : Z) (rs : list (Z * Z)) : Prop :=
  (p = 0 /\ rs = []) \/
  (p <> 0 /\ exists r, rs = [r] /\ covers r p size /\ r.1 <= p < r.1 + r.2).

(** The handler owns its own range [rs], the current blob's range [od], the
    range [on] of the blob being received; [rest] belongs to others. *)
Record blob_owns (a : A) (h : comp_data_blob_handler) (rs : Z * Z) (od on rest : list (Z * Z)) :
    Prop := {
  bo_inv : al_inv a;
  bo_live : al_live a ≡ₚ rs :: od ++ on ++ rest;
  bo_self : rs.1 <= bh_self h < rs.1 + rs.2;
  bo_data : opt_range (bh_data h) (bh_data_size h) od;
  bo_new : opt_range (bh_data_new h) (bh_new_data_size h) on
}.

(** Freeing a pointer that may be null. *)
Lemma free_opt a p size rs rest :
  al_inv a -> al_live a ≡ₚ rs ++ rest -> opt_range p size rs ->
  exists a', al_free a p = Some a' /\ al_inv a' /\ al_live a' ≡ₚ rest.
Proof.
  intros Ha Hl [[-> ->]|(Hp & r & -> & _ & Hr)].
  - rewrite al_free_null. by exists a.
  - destruct (al_free_spec a r p Ha) as (a' & -> & Ha' & Hl'); [rewrite Hl; by left|done|].
    exists a'. split_and!; [done..|]. apply (Permutation_cons_inv (a := r)). by rewrite <-Hl', Hl.
Qed.

(** ** Receiving a blob *)

(** The host writes a chunk to the mailbox. *)
Definition store (m : mem) (p : Z) (d : list Z) : mem := fun x =>
  if (p <=? x) && (x <? p + Z.of_nat (length d)) then default 0 (d !! Z.to_nat (x - p)) else m x.

Lemma store_out m p d x : x < p \/ p + Z.of_nat (length d) <= x -> store m p d x = m x.
Proof. intros. unfold store. case_if; [lia|done]. Qed.

Lemma load_length m p n : length (load m p n) = n.
Proof. unfold load. by rewrite length_fmap, length_seq. Qed.

Lemma load_lookup m p n i : (i < n)%nat -> load m p n !! i = Some (m (p + Z.of_nat i)).
Proof. intros Hi. unfold load. rewrite list_lookup_fmap, lookup_seq_lt by done. done. Qed.

Lemma load_app m p n k : load m p (n + k) = load m p n ++ load m (p + Z.of_nat n) k.
Proof.
  unfold load. rewrite seq_app, fmap_app. f_equal. apply list_eq. intros i.
  rewrite !list_lookup_fmap. simpl.
  destruct (decide (i < k)%nat); [rewrite !lookup_seq_lt by done; simpl; do 2 f_equal; lia|].
  rewrite !lookup_seq_ge by lia. done.
Qed.

Lemma load_ext m m' p n :
  (forall i, 0 <= i < Z.of_nat n -> m' (p + i) = m (p + i)) -> load m' p n = load m p n.
Proof.
  intros H. unfold load. apply list_fmap_ext. intros i x Hx. apply lookup_seq in Hx as [-> Hi].
  apply H. lia.
Qed.

Lemma load_store m p d : load (store m p d) p (length d) = d.
Proof.
  apply list_eq. intros i. destruct (decide (i < length d)%nat) as [Hi|Hi].
  - rewrite load_lookup by done. unfold store. case_if; [|lia].
    replace (p + Z.of_nat i - p) with (Z.of_nat i) by lia. rewrite Nat2Z.id.
    destruct (lookup_lt_is_Some_2 _ _ Hi) as [x ->]. done.
  - rewrite !lookup_ge_None_2 by (rewrite ?load_length; lia). done.
Qed.

Lemma load_memcpy m dst src n : load (memcpy m dst src (Z.of_nat n)) dst n = load m src n.
Proof.
  apply list_eq. intros i. destruct (decide (i < n)%nat) as [Hi|Hi].
  - rewrite !load_lookup by done. f_equal. apply memcpy_in. lia.
  - rewrite !lookup_ge_None_2 by (rewrite ?load_length; lia). done.
Qed.

Definition chunks_len (cs : list (list Z)) : nat := length (concat cs).

(** The host's messages for the chunks [cs], the first of which has index
    [idx], of a blob of [total] bytes; the host stops at an error. *)
Fixpoint send (mailbox : Z) (a : A) (m : mem) (h : comp_data_blob_handler) (dev_state total idx : Z)
    (cs : list (list Z)) : option (A * mem * comp_data_blob_handler * Z) :=
  match cs with
  | [] => Some (a, m, h, 0)
  | c :: cs =>
      let m := store m mailbox c in
      r ← comp_data_blob_set_cmd a m h dev_state
            (mk_cdata (Z.of_nat (length c)) (Z.of_nat (chunks_len cs)) idx total mailbox);
      let '(a, m, h, ret) := r in
      if negb (ret =? 0) then Some (a, m, h, ret) else
      send mailbox a m h dev_state total (idx + 1) cs
  end.

(** A mailbox of [mbsize] bytes outside the heaps. *)
Definition mailbox_ok (mailbox mbsize : Z) : Prop :=
  0 < mailbox /\ mailbox + mbsize < 2 ^ 32 /\ (mailbox + mbsize <= al_lo \/ al_hi <= mailbox).

(** The handler while it receives: [p] and range [r] of the new blob, the bytes
    [got] that have arrived. *)
Record receiving (a : A) (m : mem) (h : comp_data_blob_handler) (rs : Z * Z) (od rest : list (Z * Z))
    (r : Z * Z) (total : Z) (got : list Z) : Prop := {
  rc_owns : blob_owns a h rs od [r] rest;
  rc_size : bh_new_data_size h = total;
  rc_total : 0 < total < 2 ^ 30;
  rc_pos : bh_data_pos h = Z.of_nat (length got);
  rc_fit : Z.of_nat (length got) <= total;
  rc_got : load m (bh_data_new h) (length got) = got
}.

(** The address of the new blob, with what the allocator says about it. *)
Lemma receiving_range a m h rs od rest r total got :
  receiving a m h rs od rest r total got ->
  0 < bh_data_new h /\ al_lo <= bh_data_new h /\ bh_data_new h + total <= al_hi /\
  bh_data_new h + total < 2 ^ 32.
Proof.
  intros [[Hi Hl _ _ Hn] Hs Ht _ _ _].
  destruct Hn as [[_ ?]|(Hp & r' & [= <-] & [H1 H2] & H3)]; [done|].
  assert (r ∈ al_live a) as Hr by (rewrite Hl; right; apply elem_of_app; right; by left).
  destruct (al_live_bounds a r Hi Hr) as (? & ? & ? & _ & ? & ?). rewrite Hs in H2. lia.
Qed.

(** One chunk: the copy does not panic and appends the chunk. *)
Lemma set_cmd_chunk_spec mailbox mbsize a m h rs od rest r total got c dev_state rem idx :
  mailbox_ok mailbox mbsize -> 0 < Z.of_nat (length c) <= mbsize ->
  receiving a m h rs od rest r total got -> Z.of_nat (length got + length c) <= total ->
  exists m' h', receiving a m' h' rs od rest r total (got ++ c) /\
    bh_data h' = bh_data h /\ bh_data_ready h' = bh_data_ready h /\
    (forall x, al_lo <= x < al_hi -> x < bh_data_new h \/ bh_data_new h + total <= x -> m' x = m x) /\
    set_cmd_chunk a (store m mailbox c) h dev_state
      (mk_cdata (Z.of_nat (length c)) rem idx total mailbox) =
    if negb (rem =? 0) then Some (a, m', h', 0)
    else r ← set_cmd_last a h' dev_state; Some (r.1, m', r.2, 0).
Proof.
  intros (Hmb0 & Hmb1 & Hmb) Hc Hrc Hfit. pose proof (receiving_range _ _ _ _ _ _ _ _ _ Hrc) as (Hp & Hlo & Hhi & H32).
  pose proof Hrc as [[Hi Hl Hself Hd Hn] Hs Ht Hpos Hgf Hgot].
  unfold set_cmd_chunk. replace (bh_data_new h =? 0) with false by (symmetry; apply Z.eqb_neq; lia).
  cbn [cd_data cd_num_elems cd_elems_remaining]. rewrite Hs, Hpos, !u32_small by lia.
  rewrite memcpy_s_ok by lia. cbn [negb Z.eqb].
  set (dst := bh_data_new h + Z.of_nat (length got)).
  set (m' := memcpy _ _ _ _).
  set (h' := mk_blob _ _ _ _ _ _ _).
  exists m', h'. split_and!; try done.
  - constructor; cbn; [constructor; cbn; try done; by rewrite <-Hs|done|done|..];
      rewrite ?length_app; [lia|lia|].
    rewrite load_app. f_equal.
    + rewrite <-Hgot at 2. apply load_ext. intros i Hi'. subst m'.
      rewrite memcpy_out, store_out by lia. done.
    + subst m'. rewrite load_memcpy. apply load_store.
  - intros x Hx Hout. subst m'. rewrite memcpy_out, store_out by lia. done.
Qed.

(** The last chunk has arrived: the next [comp_get_data_blob] returns the blob,
    the old one has been freed. *)
Lemma set_cmd_last_get a m h rs od rest r total blob dev_state :
  receiving a m h rs od rest r total blob -> total = Z.of_nat (length blob) ->
  exists a1 h1 a2 h2, set_cmd_last a h dev_state = Some (a1, h1) /\
    comp_get_data_blob a1 m h1 =
      Some (a2, h2, (total, Some (crc32 0 blob), bh_data_new h)) /\
    load m (bh_data_new h) (length blob) = blob /\
    bh_data_new h2 = 0 /\ blob_owns a2 h2 rs [r] [] rest.
Proof.
  intros Hrc Ht. pose proof (receiving_range _ _ _ _ _ _ _ _ _ Hrc) as (Hp & _).
  destruct Hrc as [[Hi Hl Hself Hd Hn] Hs Htot Hpos Hgf Hgot]. subst total.
  assert (exists a2, al_free a (bh_data h) = Some a2 /\ al_inv a2 /\ al_live a2 ≡ₚ rs :: [r] ++ rest)
    as (a2 & Hfree & Ha2 & Hl2).
  { eapply free_opt; [done| |exact Hd]. rewrite Hl. apply Permutation_middle. }
  assert (opt_range 0 0 []) as Hnull by (by left).
  assert (forall a', al_inv a' -> al_live a' ≡ₚ rs :: [r] ++ rest ->
    blob_owns a' (mk_blob (bh_self h) (bh_new_data_size h) 0 (bh_data_new h) 0 false 0) rs [r] [] rest)
    as Hown by (intros; by constructor).
  assert (load m (bh_data_new h) (Z.to_nat (bh_new_data_size h)) = blob) as Hload.
  { rewrite Ht, Nat2Z.id. done. }
  assert (bh_data_new h <> 0) as Hnz by lia.
  unfold set_cmd_last, comp_get_data_blob, comp_is_new_data_blob_available. case_if.
  - rewrite Hfree. cbn. eexists _, _, _, _. split; [done|].
    split; [cbn; rewrite (proj2 (Z.eqb_neq _ _) Hnz), Hload; done|]. split_and!; [done..|by apply Hown].
  - cbn. destruct (bh_data h =? 0) eqn:Hd0; zbool.
    + eexists _, _, _, _. split; [done|].
      split; [cbn; rewrite (proj2 (Z.eqb_neq _ _) Hnz), Hload; done|]. split_and!; [done..|].
      apply Hown; [done|]. rewrite Hd0, al_free_null in Hfree. by simplify_eq.
    + eexists _, _, _, _. split; [done|].
      split; [cbn; rewrite (proj2 (Z.eqb_neq _ _) Hnz); cbn; rewrite Hfree; cbn; rewrite (proj2 (Z.eqb_neq _ _) Hnz), Hload; done|].
      split_and!; [done..|by apply Hown].
Qed.

(** [p] holds [blob] as the current configuration after the next
    [comp_get_data_blob]. *)
Definition delivers (a : A) (m : mem) (h : comp_data_blob_handler) (rs : Z * Z)
    (rest : list (Z * Z)) (blob : list Z) : Prop :=
  exists a2 h2 p r,
    comp_get_data_blob a m h =
      Some (a2, h2, (Z.of_nat (length blob), Some (crc32 0 blob), p)) /\
    load m p (length blob) = blob /\ bh_data_new h2 = 0 /\ blob_owns a2 h2 rs [r] [] rest.

Lemma send_chunks mailbox mbsize rs od rest r total dev_state :
  mailbox_ok mailbox mbsize ->
  forall cs c a m h got idx, 0 <= idx ->
  Forall (fun c => 0 < Z.of_nat (length c) <= mbsize) (c :: cs) ->
  receiving a m h rs od rest r total got ->
  Z.of_nat (length got + chunks_len (c :: cs)) = total ->
  exists a' m' h',
    (x ← set_cmd_chunk a (store m mailbox c) h dev_state
          (mk_cdata (Z.of_nat (length c)) (Z.of_nat (chunks_len cs)) idx total mailbox);
     let '(a, m, h, ret) := x in
     if negb (ret =? 0) then Some (a, m, h, ret)
     else send mailbox a m h dev_state total (idx + 1) cs) = Some (a', m', h', 0) /\
    delivers a' m' h' rs rest (got ++ concat (c :: cs)).
Proof.
  intros Hmb. induction cs as [|c' cs IH]; intros c a m h got idx Hidx Hcs Hrc Htot;
    apply list.Forall_cons in Hcs as [Hc Hcs]; unfold chunks_len in *; cbn [concat] in *;
    rewrite ?length_app in Htot.
  - destruct (set_cmd_chunk_spec mailbox mbsize a m h rs od rest r total got c dev_state 0 idx)
      as (m' & h' & Hrc' & Hd & _ & _ & E); [done..|lia|]. simpl in E. change (Z.of_nat (length (@nil Z))) with 0. rewrite E.
    simpl in Htot. rewrite app_nil_r.
    destruct (set_cmd_last_get a m' h' rs od rest r total (got ++ c) dev_state Hrc')
      as (a1 & h1 & a2 & h2 & -> & E2 & Hl & Hn & Ho); [rewrite length_app; lia|].
    cbn. eexists _, _, _; split; [done|]. exists a2, h2, (bh_data_new h'), r.
    replace (Z.of_nat (length (got ++ c))) with total by (rewrite length_app; lia). done.
  - pose proof Hcs as Hcs'. apply list.Forall_cons in Hcs' as [Hc' _].
    destruct (set_cmd_chunk_spec mailbox mbsize a m h rs od rest r total got c dev_state
      (Z.of_nat (length (c' ++ concat cs))) idx)
      as (m' & h' & Hrc' & _ & _ & _ & E); [done..|lia|].
    rewrite E. replace (_ =? 0) with false by (symmetry; apply Z.eqb_neq; rewrite length_app; lia).
    cbn [negb mbind option_bind send Z.eqb]. unfold comp_data_blob_set_cmd, set_cmd_first.
    cbn [cd_msg_index]. replace (idx + 1 =? 0) with false by (symmetry; apply Z.eqb_neq; lia).
    rewrite andb_false_r. cbn [negb mbind option_bind].
    destruct (IH c' a m' h' (got ++ c) (idx + 1)) as (a2 & m2 & h2 & E2 & Hdel);
      [lia|done|done|cbn [concat]; rewrite !length_app; lia|].
    exists a2, m2, h2. split; [exact E2|]. by rewrite <-app_assoc in Hdel.
Qed.

Lemma blob_new_owns a :
  al_inv a ->
  exists a' oh, comp_data_blob_handler_new a = Some (a', oh) /\ al_inv a' /\
    match oh with
    | None => al_live a' = al_live a
    | Some h => exists rs, blob_owns a' h rs [] [] (al_live a)
    end.
Proof.
  intros Ha. unfold comp_data_blob_handler_new.
  destruct (al_malloc_spec a 0 SOF_MEM_CAPS_RAM sizeof_blob Ha Hsizeof) as (a1 & p & -> & Ha1 & Hr).
  cbn [mbind option_bind]. eexists _, _; split_and!; [done..|].
  destruct Hr as [[-> Hl]|(Hp & rs & Hl & [Hc1 Hc2] & _)]; [done|].
  replace (p =? 0) with false by (symmetry; by apply Z.eqb_neq).
  exists rs. destruct Hsizeof as [Hsz _]. constructor; cbn; try done; [lia|by left|by left].
Qed.

(** C4: Updating a configuration. When the host sends a blob in chunks, cut in
    any way, to a handler with no update in progress, then either the
    allocation fails and the first message returns [-ENOMEM] with handler and
    live memory as before, or every message returns 0 and the next
    [comp_get_data_blob] returns the complete blob with its size and CRC-32, in
    memory of the handler's own; the previous blob has been freed, nothing is
    leaked. This holds in every component state and with or without a previous
    blob. *)
Theorem blob_update_delivers mailbox mbsize a m h rs od rest c cs dev_state :
  mailbox_ok mailbox mbsize ->
  Forall (fun c => 0 < Z.of_nat (length c) <= mbsize) (c :: cs) ->
  blob_owns a h rs od [] rest ->
  request_ok (Z.of_nat (chunks_len (c :: cs))) al_dcache ->
  exists a' m' h' ret,
    send mailbox a m h dev_state (Z.of_nat (chunks_len (c :: cs))) 0 (c :: cs) =
      Some (a', m', h', ret) /\
    ((ret = - ENOMEM /\ h' = h /\ al_live a' = al_live a) \/
     (ret = 0 /\ delivers a' m' h' rs rest (concat (c :: cs)))).
Proof.
  intros Hmb Hcs [Hi Hl Hself Hd Hn] Hreq.
  destruct Hn as [[Hn0 _]|(_ & ? & ? & _)]; [|done].
  set (total := Z.of_nat (chunks_len (c :: cs))) in *. pose proof Hreq as [Ht _].
  cbn [send]. unfold comp_data_blob_set_cmd at 1. rewrite Hn0. cbn [negb Z.eqb andb].
  unfold set_cmd_first, rballoc. cbn [cd_msg_index cd_data_size Z.eqb negb].
  replace (total =? 0) with false by (symmetry; apply Z.eqb_neq; lia).
  destruct (al_balloc_spec a 0 SOF_MEM_CAPS_RAM total al_dcache Hi Hreq)
    as (a1 & p & -> & Hi1 & Hres). cbn [mbind option_bind].
  destruct Hres as [[-> Hl1]|(Hp & r & Hl1 & Hcov & _)].
  - cbn. eexists _, _, _, _; split; [done|]. left. split_and!; [done| |done].
    destruct h; simpl in *. by subst.
  - replace (p =? 0) with false by (symmetry; by apply Z.eqb_neq). cbn [mbind option_bind].
    set (h1 := mk_blob _ _ _ _ _ _ _).
    assert (receiving a1 m h1 rs od rest r total []) as Hrc.
    { constructor; cbn; try done; try lia. constructor; cbn; try done.
      - rewrite Hl1, Hl. cbn. rewrite (Permutation_swap rs r). constructor. apply Permutation_middle.
      - right. split; [done|]. exists r. split; [done|]. split; [exact Hcov|]. destruct Hcov. lia. }
    destruct (send_chunks mailbox mbsize rs od rest r total dev_state Hmb cs c a1 m h1 [] 0)
      as (a2 & m2 & h2 & E & Hdel); [lia|done|done|done|].
    exists a2, m2, h2, 0. split; [exact E|]. by right.
Qed.

Lemma blob_handler_free_ok a h rs od on rest :
  blob_owns a h rs od on rest ->
  exists a', comp_data_blob_handler_free a h = Some a' /\ al_inv a' /\
    al_live a' ≡ₚ (if bh_data h =? 0 then on ++ rest else rest).
Proof.
  intros [Hi Hl Hself Hd Hn]. unfold comp_data_blob_handler_free, comp_free_data_blob.
  assert (opt_range (bh_self h) 0 [rs]) as Hs.
  { destruct (al_live_bounds a rs Hi) as (? & _); [rewrite Hl; by left|].
    right. split; [lia|]. exists rs. split; [done|]. unfold covers. lia. }
  destruct (bh_data h =? 0) eqn:E; cbn [mbind option_bind fst].
  - zbool. destruct Hd as [[_ ->]|(? & _)]; [|done]. eapply free_opt; [done| |exact Hs]. by rewrite Hl.
  - destruct (free_opt a (bh_data h) (bh_data_size h) od ([rs] ++ on ++ rest))
      as (a1 & -> & Hi1 & Hl1); [done|rewrite Hl; apply Permutation_middle|done|]. cbn [mbind option_bind].
    destruct (free_opt a1 (bh_data_new h) (bh_new_data_size h) on ([rs] ++ rest))
      as (a2 & -> & Hi2 & Hl2); [done|rewrite Hl1; cbn; apply Permutation_middle|done|].
    cbn [mbind option_bind fst]. by eapply free_opt.
Qed.

(** Freeing a handler releases its own memory and the current blob, and the
    blob being received as well if there is a current blob. Without a current
    blob, memory of a blob being received stays allocated. *)
Theorem blob_handler_free_exact a h rs od on rest :
  blob_owns a h rs od on rest ->
  exists a', comp_data_blob_handler_free a h = Some a' /\ al_inv a' /\
    al_live a' ≡ₚ (if bh_data h =? 0 then on ++ rest else rest).
Proof. apply blob_handler_free_ok. Qed.

Lemma load_memset m p n : load (memset m p 0 (Z.of_nat n)) p n = replicate n 0.
Proof.
  apply list_eq. intros i. destruct (decide (i < n)%nat) as [Hi|Hi].
  - rewrite load_lookup, lookup_replicate_2 by done. f_equal. apply memset_in. lia.
  - rewrite !lookup_ge_None_2 by (rewrite ?load_length, ?length_replicate; lia). done.
Qed.

(** Installing an initial configuration: the old one is freed, the new one is
    the given data, or zeros. *)
Lemma comp_init_data_blob_spec a m h rs od rest size init_data :
  blob_owns a h rs od [] rest -> request_ok size al_dcache ->
  init_data = 0 \/ mailbox_ok init_data size ->
  exists a' m' h' ret, comp_init_data_blob a m h size init_data = Some (a', m', h', ret) /\
    ((ret = - ENOMEM /\ bh_data h' = 0 /\ m' = m /\ blob_owns a' h' rs [] [] rest) \/
     (ret = 0 /\ bh_data h' <> 0 /\ bh_data_size h' = size /\
      (exists r, blob_owns a' h' rs [r] [] rest) /\
      load m' (bh_data h') (Z.to_nat size) =
        if init_data =? 0 then replicate (Z.to_nat size) 0 else load m init_data (Z.to_nat size))).
Proof.
  intros [Hi Hl Hself Hd Hn] Hreq Hinit. pose proof Hreq as [Hsz _].
  destruct Hn as [[Hn0 _]|(_ & ? & ? & _)]; [|done]. unfold comp_init_data_blob.
  assert (exists a1, comp_free_data_blob a h =
    Some (a1, mk_blob (bh_self h) (if bh_data h =? 0 then bh_data_size h else 0) (bh_new_data_size h)
                0 0 (bh_data_ready h) (bh_data_pos h)) /\ al_inv a1 /\ al_live a1 ≡ₚ rs :: rest)
    as (a1 & -> & Hi1 & Hl1).
  { unfold comp_free_data_blob. destruct (bh_data h =? 0) eqn:E.
    - zbool. destruct Hd as [[_ ->]|[? _]]; [|done]. exists a. split_and!; [|done|done].
      destruct h; simpl in *. by subst.
    - destruct (free_opt a (bh_data h) (bh_data_size h) od (rs :: rest)) as (a1 & -> & Hi1 & Hl1);
        [done|rewrite Hl; apply Permutation_middle|done|]. rewrite Hn0. cbn.
      rewrite al_free_null. by exists a1. }
  cbn [mbind option_bind]. replace (size =? 0) with false by (symmetry; apply Z.eqb_neq; lia).
  unfold rballoc. destruct (al_balloc_spec a1 0 SOF_MEM_CAPS_RAM size al_dcache Hi1 Hreq)
    as (a2 & p & -> & Hi2 & Hres). cbn [mbind option_bind].
  assert (opt_range 0 0 []) as Hnull by (by left).
  destruct Hres as [[-> Hl2]|(Hp & r & Hl2 & [Hc1 Hc2] & _)].
  { cbn. eexists _, _, _, _; split; [done|]. left. split_and!; try done.
    constructor; cbn; try done; [by rewrite Hl2|by left..]. }
  replace (p =? 0) with false by (symmetry; by apply Z.eqb_neq).
  assert (r ∈ al_live a2) as Hin by (rewrite Hl2; by left).
  destruct (al_live_bounds a2 r Hi2 Hin) as (? & ? & ? & _ & ? & ?).
  assert (exists m', (if negb (init_data =? 0) then
       let '(m, ret) := memcpy_s m p size init_data size in
       if negb (ret =? 0) then None else Some m
     else Some (memset m p 0 size)) = Some m' /\
     load m' p (Z.to_nat size) =
       if init_data =? 0 then replicate (Z.to_nat size) 0 else load m init_data (Z.to_nat size))
    as (m' & -> & Hload).
  { destruct (init_data =? 0) eqn:E; cbn [negb]; zbool.
    - eexists; split; [done|]. by rewrite <-(load_memset m p (Z.to_nat size)), Z2Nat.id by lia.
    - destruct Hinit as [?|(Hm0 & Hm1 & Hm)]; [done|]. rewrite memcpy_s_ok by lia. cbn.
      eexists; split; [done|].
      by rewrite <-(load_memcpy m p init_data (Z.to_nat size)), Z2Nat.id by lia. }
  cbn [mbind option_bind]. eexists _, _, _, _; split; [done|]. right. cbn. split_and!; try done.
  exists r. constructor; cbn; try done.
  - rewrite Hl2, Hl1. constructor.
  - right. split; [done|]. exists r. split; [done|]. unfold covers. lia.
Qed.

(** The host reads [ns] bytes at a time; the messages start at index [idx]. *)
Fixpoint receive (mailbox : Z) (m : mem) (h : comp_data_blob_handler) (size idx : Z)
    (ns : list nat) : option (mem * comp_data_blob_handler * list Z) :=
  match ns with
  | [] => Some (m, h, [])
  | n :: ns =>
      r ← comp_data_blob_get_cmd m h (mk_cdata (Z.of_nat n) 0 idx 0 mailbox) size;
      let '(m, h, (ret, _)) := r in
      if negb (ret =? 0) then None else
      r ← receive mailbox m h size (idx + 1) ns;
      let '(m', h, d) := r in
      Some (m', h, load m mailbox n ++ d)
  end.

Lemma receive_from mailbox size m0 h0 p r total :
  mailbox_ok mailbox size -> 0 < size < 2 ^ 31 -> bh_data h0 = p -> p <> 0 ->
  covers r p total -> al_lo <= r.1 -> r.1 + r.2 <= al_hi -> 0 < r.1 -> r.1 + r.2 < 2 ^ 32 ->
  forall ns m h idx pos, 0 <= idx ->
  (idx = 0 -> pos = 0%nat) -> bh_data h = p -> (idx <> 0 -> bh_data_pos h = Z.of_nat pos) ->
  (forall x, r.1 <= x < r.1 + r.2 -> m x = m0 x) ->
  Forall (fun n => (0 < n)%nat /\ Z.of_nat n <= size) ns -> Z.of_nat (pos + sum_list ns) <= total ->
  exists m' h', receive mailbox m h size idx ns =
      Some (m', h', load m0 (p + Z.of_nat pos) (sum_list ns)) /\
    (forall x, x < mailbox \/ mailbox + size <= x -> m' x = m x).
Proof.
  intros Hmb Hsize _ Hp [Hc1 Hc2] Hlo Hhi Hr0 Hr32 ns.
  induction ns as [|n ns IH]; intros m h idx pos Hidx Hidx0 Hd Hpos Hm Hns Hfit; cbn [receive].
  { by eexists _, _. }
  apply list.Forall_cons in Hns as [[Hn Hns1] Hns]. cbn [sum_list_with id] in Hfit.
  unfold comp_data_blob_get_cmd. rewrite Hd.
  replace (p =? 0) with false by (symmetry; by apply Z.eqb_neq).
  cbn [cd_msg_index cd_num_elems cd_data].
  replace (if idx =? 0 then 0 else bh_data_pos h) with (Z.of_nat pos).
  2:{ case_if; [rewrite Hidx0 by done; done|by rewrite Hpos]. }
  destruct Hmb as (Hmb0 & Hmb1 & Hmb).
  rewrite (u32_small size), (u32_small (p + _)) by lia. case_if; [lia|].
  rewrite memcpy_s_ok by lia. cbn [negb Z.eqb mbind option_bind]. rewrite u32_small by lia.
  set (m1 := memcpy _ _ _ _). set (h1 := mk_blob _ _ _ _ _ _ _).
  destruct (IH m1 h1 (idx + 1) (pos + n)%nat) as (m' & h' & -> & Hout);
    [lia|lia|done|cbn; lia| |done|lia|].
  { intros x Hx. subst m1. rewrite memcpy_out by lia. by apply Hm. }
  cbn [mbind option_bind]. eexists _, _; split; [|intros x Hx; rewrite Hout by done; subst m1; apply memcpy_out; lia].
  do 2 f_equal. cbn [sum_list_with id]. rewrite load_app. f_equal.
  - subst m1. rewrite load_memcpy. apply load_ext. intros i Hi. apply Hm. lia.
  - f_equal. lia.
Qed.

(** Reading a configuration back. A host that reads the current blob in
    pieces of any sizes up to the message size receives exactly the blob's
    bytes, and nothing outside the mailbox is written. *)
Theorem blob_read_back mailbox size a m h rs od on rest blob ns :
  mailbox_ok mailbox size -> 0 < size < 2 ^ 31 ->
  blob_owns a h rs od on rest -> bh_data h <> 0 ->
  bh_data_size h = Z.of_nat (length blob) -> load m (bh_data h) (length blob) = blob ->
  Forall (fun n => (0 < n)%nat /\ Z.of_nat n <= size) ns -> sum_list ns = length blob ->
  exists m' h', receive mailbox m h size 0 ns = Some (m', h', blob) /\
    (forall x, x < mailbox \/ mailbox + size <= x -> m' x = m x).
Proof.
  intros Hmb Hsize [Hi Hl _ Hd _] Hp Hs Hload Hns Hsum.
  destruct Hd as [[? _]|(_ & r & -> & Hcov & Hr)]; [done|].
  assert (r ∈ al_live a) as Hin by (rewrite Hl; right; by left).
  destruct (al_live_bounds a r Hi Hin) as (? & ? & ? & _ & ? & ?).
  destruct (receive_from mailbox size m h (bh_data h) r (bh_data_size h)) with
    (ns := ns) (m := m) (h := h) (idx := 0) (pos := 0%nat) as (m' & h' & -> & Hout); try done; [lia|].
  rewrite Z.add_0_r, Hsum, Hload. by eexists _, _.
Qed.
End blob.

(** ** On the heap of [src/lib/alloc.c] *)

#[local] Instance blob_allocator : Allocator mm := heap_allocator baytrail baytrail_dcache 4096 65536.

Lemma blob_sizeof : request_ok 28 0.
Proof. apply request_okb_ok. vm_compute. reflexivity. Qed.

Definition demo_blob_mm : mm := default demo_mm (fst <$> comp_data_blob_handler_new 28 demo_mm).
Definition demo_blob : comp_data_blob_handler :=
  default (mk_blob 0 0 0 0 0 false 0) (comp_data_blob_handler_new 28 demo_mm ≫= snd).

Lemma demo_blob_owns : exists rs, blob_owns demo_blob_mm demo_blob rs [] [] (al_live demo_mm).
Proof.
  destruct (@blob_new_owns mm blob_allocator 28 blob_sizeof demo_mm demo_mm_single)
    as (a' & oh & E & _ & Hoh). unfold demo_blob_mm, demo_blob. rewrite E.
  destruct oh as [h|]; [done|]. exfalso.
  assert ((comp_data_blob_handler_new 28 demo_mm ≫= snd) <> None) as Hne by (vm_compute; done).
  by rewrite E in Hne.
Qed.

Lemma demo_mailbox : mailbox_ok 70000 64.
Proof. split; [done|]. split; [done|]. right. vm_compute. done. Qed.

Lemma blob_update_delivers_witness :
  exists rs a' m' h' ret,
    send 70000 demo_blob_mm (fun _ => 0) demo_blob COMP_STATE_READY 5 0 [[1; 2; 3]; [4; 5]] =
      Some (a', m', h', ret) /\
    ((ret = - ENOMEM /\ h' = demo_blob /\ al_live a' = al_live demo_blob_mm) \/
     (ret = 0 /\ delivers a' m' h' rs (al_live demo_mm) [1; 2; 3; 4; 5])).
Proof.
  destruct demo_blob_owns as [rs Hown]. exists rs.
  apply (@blob_update_delivers mm blob_allocator 70000 64 demo_blob_mm (fun _ => 0) demo_blob rs []
    (al_live demo_mm) [1; 2; 3] [[4; 5]] COMP_STATE_READY demo_mailbox); [|exact Hown|].
  - repeat (apply list.Forall_cons; split; [simpl; lia|]). by apply list.Forall_nil.
  - apply request_okb_ok. vm_compute. reflexivity.
Defined.

Lemma blob_handler_free_exact_witness :
  exists a', comp_data_blob_handler_free demo_blob_mm demo_blob = Some a' /\
    al_live a' ≡ₚ al_live demo_mm.
Proof.
  destruct demo_blob_owns as [rs Hown].
  destruct (blob_handler_free_exact _ _ _ _ _ _ Hown) as (a' & E & _ & Hl). by exists a'.
Defined.

Lemma blob_read_back_witness :
  exists a m h m' h', comp_init_data_blob demo_blob_mm (fun x => x) demo_blob 5 70000 =
      Some (a, m, h, 0) /\
    receive 80000 m h 64 0 [4; 1]%nat = Some (m', h', [70000; 70001; 70002; 70003; 70004]).
Proof.
  destruct demo_blob_owns as [rs Hown].
  destruct (@comp_init_data_blob_spec mm blob_allocator demo_blob_mm (fun x => x) demo_blob rs []
    (al_live demo_mm) 5 70000 Hown) as (a & m & h & ret & E & Hres).
  { apply request_okb_ok. vm_compute. reflexivity. }
  { right. split; [done|]. split; [done|]. right. vm_compute. done. }
  assert (Some ret = (fun x => x.2) <$>
    comp_init_data_blob demo_blob_mm (fun x => x) demo_blob 5 70000) as Hret by (by rewrite E).
  vm_compute in Hret. injection Hret as ->.
  destruct Hres as [[? _]|(_ & Hp & Hs & (r & Hown') & Hload)]; [done|].
  destruct (@blob_read_back mm blob_allocator 80000 64 a m h rs [r] [] (al_live demo_mm)
    [70000; 70001; 70002; 70003; 70004] [4; 1]%nat) as (m' & h' & Er & _);
    [split; [done|split; [done|right; vm_compute; done]]|done|done|done|done|exact Hload| |done|].
  - repeat (apply list.Forall_cons; split; [lia|]). by apply list.Forall_nil.
  - by exists a, m, h, m', h'.
Defined.

(** The position of an update and of a readout is one variable. A readout of the
    current blob between the chunks of an update moves the position, and the
    next chunk is copied past the end of the new blob: here the second chunk of
    an 8-byte update lands 40 bytes into an allocation of 8 bytes, in memory
    that is not the blob's. *)
Definition readout_between_chunks : option (Z * Z * Z) :=
  r ← comp_init_data_blob demo_blob_mm (fun _ => 0) demo_blob 40 0;
  let '(a, m, h, _) := r in
  r ← comp_data_blob_set_cmd a (store m 70000 [1; 2; 3; 4]) h 5 (mk_cdata 4 4 0 8 70000);
  let '(a, m, h, _) := r in
  r ← comp_data_blob_get_cmd m h (mk_cdata 40 0 0 0 80000) 64;
  let '(m, h, _) := r in
  let p := bh_data_new h in
  r ← comp_data_blob_set_cmd a (store m 70000 [5; 6; 7; 8]) h 5 (mk_cdata 4 0 1 8 70000);
  let '(a, m, h, ret) := r in
  Some (ret, m (p + 4), m (p + 40)).

Example readout_disturbs_update : readout_between_chunks = Some (0, 0, 5).
Proof. vm_compute. reflexivity. Qed.
