(* ===== verification/IntrusiveList.v ===== *)
(** * Intrusive doubly linked lists ([include/sof/list.h])

    The links of all list items in memory are two maps from item addresses, the
    [next] and [prev] fields. The theorems show that the operations implement
    operations on sequences; the other files represent lists by such
    sequences. *)

From stdpp Require Import base list numbers option sets.
From S2P Require Import Prelude.

Record links := mk_links {
  nx : Z -> Z;
  pv : Z -> Z
}.

Definition set_next (L : links) (i v : Z) : links :=
  mk_links (fun j => if j =? i then v else nx L j) (pv L).

Definition set_prev (L : links) (i v : Z) : links :=
  mk_links (nx L) (fun j => if j =? i then v else pv L j).

(** ** Operations, one assignment after the other *)

Definition list_init (L : links) (list : Z) : links :=
  let L := set_next L list list in
  set_prev L list list.

Definition list_item_prepend (L : links) (item list : Z) : links :=
  let next := nx L list in
  let L := set_prev L next item in
  let L := set_next L item next in
  let L := set_prev L item list in
  set_next L list item.

Definition list_item_append (L : links) (item list : Z) : links :=
  let tail := pv L list in
  let L := set_next L tail item in
  let L := set_next L item list in
  let L := set_prev L item tail in
  set_prev L list item.

Definition list_item_del (L : links) (item : Z) : links :=
  let L := set_prev L (nx L item) (pv L item) in
  let L := set_next L (pv L item) (nx L item) in
  list_init L item.

Definition list_item_is_last (L : links) (item list : Z) : bool := nx L item =? list.

Definition list_is_empty (L : links) (item : Z) : bool := nx L item =? item.

(** [list_for_item]: the items visited, with a bound on their number. *)
Fixpoint list_for_item (fuel : nat) (L : links) (item head : Z) : option (list Z) :=
  match fuel with
  | O => None
  | S fuel =>
      if item =? head then Some []
      else l ← list_for_item fuel L (nx L item) head; Some (item :: l)
  end.

(** The two loops of [list_relink]. *)
Fixpoint relink_next (fuel : nat) (L : links) (li new_list old_list : Z) : option links :=
  match fuel with
  | O => None
  | S fuel =>
      if li =? new_list then Some L else
      let L := if nx L li =? old_list then set_next L li new_list else L in
      relink_next fuel L (nx L li) new_list old_list
  end.

Fixpoint relink_prev (fuel : nat) (L : links) (li new_list old_list : Z) : option links :=
  match fuel with
  | O => None
  | S fuel =>
      if li =? new_list then Some L else
      let L := if pv L li =? old_list then set_prev L li new_list else L in
      relink_prev fuel L (pv L li) new_list old_list
  end.

Definition list_relink (fuel : nat) (L : links) (new_list old_list : Z) : option links :=
  if nx L new_list =? old_list then Some (list_init L new_list) else
  L ← relink_next fuel L (nx L new_list) new_list old_list;
  relink_prev fuel L (pv L new_list) new_list old_list.

(** ** Sequences of linked items *)

(** Each two consecutive items are linked in both directions. *)
Fixpoint adj (L : links) (c : list Z) : Prop :=
  match c with
  | x :: (y :: _) as c' => nx L x = y /\ pv L y = x /\ adj L c'
  | _ => True
  end.

Arguments adj : simpl nomatch.

(** The list with head [h] and items [l]. *)
Definition is_list (L : links) (h : Z) (l : list Z) : Prop :=
  NoDup (h :: l) /\ adj L (h :: l ++ [h]).

(** The same items read backwards. *)
Definition flip_links (L : links) : links := mk_links (pv L) (nx L).

Lemma adj_cons L x y c : adj L (x :: y :: c) <-> nx L x = y /\ pv L y = x /\ adj L (y :: c).
Proof. done. Qed.

Lemma adj_app L l1 x l2 : adj L (l1 ++ x :: l2) <-> adj L (l1 ++ [x]) /\ adj L (x :: l2).
Proof.
  induction l1 as [|a l1 IH]; [simpl; tauto|].
  destruct l1 as [|b l1]; [simpl; tauto|].
  simpl app in *. rewrite !adj_cons, IH. tauto.
Qed.

Lemma adj_frame L L' c :
  (forall i, i ∈ removelast c -> nx L' i = nx L i) -> (forall i, i ∈ tail c -> pv L' i = pv L i) ->
  adj L c -> adj L' c.
Proof.
  induction c as [|x [|y c] IH]; [done..|]. intros Hn Hp (? & ? & ?). rewrite adj_cons.
  rewrite Hn, Hp by (by left). split_and!; [done..|]. apply IH; [| |done].
  - intros i Hi. apply Hn. by right.
  - intros i Hi. apply Hp. simpl in *. by right.
Qed.

Lemma adj_flip L c : adj (flip_links L) (reverse c) <-> adj L c.
Proof.
  induction c as [|x [|y c] IH]; [done..|].
  rewrite adj_cons, <- IH, !reverse_cons, <- app_assoc. simpl app.
  rewrite adj_app, adj_cons. simpl. tauto.
Qed.

Lemma is_list_flip L h l : is_list (flip_links L) h (reverse l) <-> is_list L h l.
Proof.
  unfold is_list. rewrite <- (adj_flip L (h :: l ++ [h])), reverse_cons, reverse_snoc.
  assert (NoDup (h :: reverse l) <-> NoDup (h :: l)) as ->; [|done].
  by rewrite (reverse_Permutation l).
Qed.

(** A circular list can be read from any of its items. *)
Lemma is_list_rotate L h l1 x l2 : is_list L h (l1 ++ x :: l2) -> is_list L x (l2 ++ h :: l1).
Proof.
  intros [Hnd Ha]. split.
  - assert (x :: l2 ++ h :: l1 ≡ₚ h :: l1 ++ x :: l2) as ->; [|done].
    change (x :: l2 ++ h :: l1) with ((x :: l2) ++ (h :: l1)). by rewrite Permutation_app_comm.
  - rewrite <- app_assoc in *. simpl in *. rewrite app_comm_cons, adj_app in *.
    tauto.
Qed.

Lemma removelast_snoc {A} (l : list A) (x : A) : removelast (l ++ [x]) = l.
Proof. rewrite removelast_app; [by rewrite app_nil_r|done]. Qed.

(** Case analysis on the reads of changed links. *)
Ltac links := simpl in *; rewrite ?Z.eqb_refl; repeat (case_match; zbool); try done; try set_solver.

Lemma list_init_spec L h : is_list (list_init L h) h [].
Proof. split; [apply NoDup_singleton|]. links. Qed.

Lemma prepend_spec L h l item :
  is_list L h l -> item ∉ h :: l -> is_list (list_item_prepend L item h) h (item :: l).
Proof.
  intros [Hnd Ha] Hit. apply NoDup_cons in Hnd as [Hh Hl]. split.
  { constructor; [set_solver|]. constructor; set_solver. }
  destruct (l ++ [h]) as [|y c] eqn:E; [by destruct l|].
  assert (y :: c ⊆ h :: l) as Hsub by (rewrite <- E; set_solver).
  assert (removelast (y :: c) = l) as Hrl by (rewrite <- E; apply removelast_snoc).
  assert (NoDup (y :: c)) as Hnd.
  { rewrite <- E. rewrite (Permutation_app_comm l [h]). by constructor. }
  apply NoDup_cons in Hnd as [Hy _]. destruct Ha as (Hn & Hp & Ha).
  unfold list_item_prepend. rewrite Hn. simpl app. rewrite E, !adj_cons.
  split_and!; [links..|].
  eapply adj_frame; [| |exact Ha]; simpl tail; rewrite ?Hrl; intros i Hi; links.
Qed.

Lemma append_flip L item h :
  list_item_append L item h = flip_links (list_item_prepend (flip_links L) item h).
Proof. done. Qed.

Lemma append_spec L h l item :
  is_list L h l -> item ∉ h :: l -> is_list (list_item_append L item h) h (l ++ [item]).
Proof.
  intros Hl Hit. rewrite append_flip, <- is_list_flip. simpl.
  rewrite reverse_snoc. apply prepend_spec; [by apply is_list_flip|].
  by rewrite (reverse_Permutation l).
Qed.

(** Appending to an item, as to a list head, inserts before it. *)
Lemma append_before_spec L h l1 cur l2 item :
  is_list L h (l1 ++ cur :: l2) -> item ∉ h :: l1 ++ cur :: l2 ->
  is_list (list_item_append L item cur) h (l1 ++ item :: cur :: l2).
Proof.
  intros Hl Hit. apply is_list_rotate in Hl.
  apply append_spec with (item := item) in Hl; [|set_solver].
  rewrite <- app_assoc in Hl. simpl in Hl. apply is_list_rotate in Hl.
  rewrite <- app_assoc in Hl. done.
Qed.

(** Prepending to an item inserts behind it. *)
Lemma prepend_after_spec L h l1 cur l2 item :
  is_list L h (l1 ++ cur :: l2) -> item ∉ h :: l1 ++ cur :: l2 ->
  is_list (list_item_prepend L item cur) h (l1 ++ cur :: item :: l2).
Proof.
  intros Hl Hit. apply is_list_rotate in Hl.
  apply prepend_spec with (item := item) in Hl; [|set_solver].
  rewrite app_comm_cons in Hl. by apply is_list_rotate in Hl.
Qed.

(** Two linked sequences joined by a link. *)
Lemma adj_join L l z y r :
  adj L (l ++ [z]) -> nx L z = y -> pv L y = z -> adj L (y :: r) -> adj L (l ++ z :: y :: r).
Proof. intros. rewrite adj_app. by rewrite adj_cons. Qed.

Lemma del_join L l z x y r :
  x ∉ l ++ [z] -> x ∉ y :: r -> NoDup (l ++ [z]) -> NoDup (y :: r) ->
  y ∉ tail (l ++ [z]) -> z ∉ removelast (y :: r) ->
  adj L (l ++ z :: x :: y :: r) -> adj (list_item_del L x) (l ++ z :: y :: r).
Proof.
  intros Hx1 Hx2 Hnd1 Hnd2 Hyt Hzr Ha.
  rewrite (Permutation_app_comm l [z]) in Hnd1. apply NoDup_cons in Hnd1 as [Hz _].
  apply NoDup_cons in Hnd2 as [Hy _].
  apply adj_app in Ha as [H1 (Hn & Hp & Hn' & Hp' & H2)].
  assert (x <> z /\ x <> y) as [? ?] by set_solver.
  unfold list_item_del. rewrite Hn', Hp.
  assert (pv (set_prev L y z) x = z /\ nx (set_prev L y z) x = y) as [-> ->] by links.
  apply adj_join; [|links..|].
  - assert (tail (l ++ [z]) ⊆ l ++ [z]) by (destruct l; simpl; set_solver).
    eapply adj_frame; [| |exact H1]; [rewrite removelast_snoc|]; intros i Hi; links.
  - assert (removelast (y :: r) ⊆ y :: r).
    { intros i Hi. destruct (exists_last (l := y :: r)) as (r' & w & E); [done|].
      rewrite E, removelast_snoc in *. set_solver. }
    eapply adj_frame; [| |exact H2].
    + intros i Hi. assert (i <> z) by set_solver. assert (i <> x) by set_solver. clear Hi. links.
    + simpl tail. intros i Hi. links.
Qed.

Lemma del_spec L h l1 x l2 :
  is_list L h (l1 ++ x :: l2) -> is_list (list_item_del L x) h (l1 ++ l2).
Proof.
  intros [Hnd Ha]. split.
  { rewrite <- (Permutation_middle l1 l2 x) in Hnd. rewrite Permutation_swap in Hnd.
    by apply NoDup_cons in Hnd as [_ Hnd]. }
  assert (x ∉ h :: l1 /\ x ∉ l2 ++ [h]) as [Hx1 Hx2].
  { rewrite <- (Permutation_middle l1 l2 x), Permutation_swap in Hnd.
    apply NoDup_cons in Hnd as [Hx _]. set_solver. }
  rewrite <- app_assoc in *. simpl in *. rewrite app_comm_cons in Ha. rewrite app_comm_cons.
  assert (NoDup (h :: l1)) as Hnd1.
  { rewrite app_comm_cons in Hnd. by apply NoDup_app in Hnd as (? & _ & _). }
  assert (NoDup (l2 ++ [h])) as Hnd2.
  { rewrite (Permutation_app_comm l2 [h]). simpl. apply NoDup_cons in Hnd as [Hh Hnd].
    apply NoDup_app in Hnd as (_ & _ & Hnd). apply NoDup_cons in Hnd as [_ Hnd].
    constructor; [set_solver|done]. }
  assert (forall w, w ∈ h :: l1 -> w ∉ l2) as Hdis.
  { rewrite app_comm_cons in Hnd. apply NoDup_app in Hnd as (_ & Hd & _). set_solver. }
  assert (h ∉ l1) by (by apply NoDup_cons in Hnd1 as [? _]).
  destruct (exists_last (l := h :: l1)) as (l & z & E1); [done|].
  assert (z ∈ h :: l1) as Hz by (rewrite E1; set_solver).
  destruct (l2 ++ [h]) as [|y r] eqn:E2; [by destruct l2|].
  assert (y ∈ l2 ++ [h]) as Hy by (rewrite E2; set_solver).
  assert (y ∉ l1) by (intros Hyl; apply elem_of_app in Hy as [Hy|Hy]; set_solver).
  assert (z ∉ l2) by auto. clear Hdis Hy Hz Hnd.
  rewrite E1, <- app_assoc in *. apply del_join; [done..| | |done].
  - by rewrite <- E1.
  - by rewrite <- E2, removelast_snoc.
Qed.

(** The [next] links alone, which the iteration follows. *)
Fixpoint next_chain (L : links) (c : list Z) : Prop :=
  match c with
  | x :: (y :: _) as c' => nx L x = y /\ next_chain L c'
  | _ => True
  end.

Arguments next_chain : simpl nomatch.

Lemma adj_next_chain L c : adj L c -> next_chain L c.
Proof. induction c as [|x [|y c] IH]; [done..|]. intros (? & _ & ?). split; [done|by apply IH]. Qed.

Lemma list_for_item_spec L h c f :
  h ∉ c -> next_chain L (c ++ [h]) -> (length c < f)%nat ->
  list_for_item f L (default h (head c)) h = Some c.
Proof.
  revert f; induction c as [|x c IH]; intros [|f] Hh Ha Hf; simpl in Hf; try lia.
  - simpl. by rewrite Z.eqb_refl.
  - simpl list_for_item. destruct (Z.eqb_spec x h) as [->|]; [set_solver|].
    assert (nx L x = default h (head c) /\ next_chain L (c ++ [h])) as [-> Ha'].
    { destruct c; simpl in *; tauto. }
    rewrite IH; [done|set_solver|done|lia].
Qed.

Lemma relink_next_spec L c z new old f :
  new ∉ c ++ [z] -> old ∉ c ++ [z] -> new <> old -> adj L (c ++ [z; old]) -> (length c + 1 < f)%nat ->
  relink_next f L (default z (head c)) new old = Some (set_next L z new).
Proof.
  revert f; induction c as [|x c IH]; intros [|f] Hnew Hold Hne Ha Hf; simpl in Hf; try lia.
  - simpl in *. destruct Ha as (Hn & _). rewrite (proj2 (Z.eqb_neq z new)) by set_solver.
    rewrite Hn, Z.eqb_refl. simpl. rewrite Z.eqb_refl. destruct f; [lia|].
    simpl. by rewrite Z.eqb_refl.
  - simpl. rewrite (proj2 (Z.eqb_neq x new)) by set_solver.
    assert (nx L x = default z (head c) /\ adj L (c ++ [z; old])) as [Hn Ha'].
    { destruct c; simpl in *; tauto. }
    rewrite Hn. rewrite (proj2 (Z.eqb_neq _ old)).
    + rewrite Hn. apply IH; [set_solver..|done|done|lia].
    + destruct c; simpl; set_solver.
Qed.

Lemma relink_prev_flip f L li new old :
  relink_prev f L li new old = flip_links <$> relink_next f (flip_links L) li new old.
Proof.
  revert L li; induction f as [|f IH]; intros L li; simpl; [done|].
  destruct (li =? new); [by destruct L|]. destruct (pv L li =? old); rewrite IH; done.
Qed.

(** The loops reach the last and the first item of the list. *)
Lemma relink_next_last L old l z new f :
  is_list L old (l ++ [z]) -> new ∉ old :: l ++ [z] -> (length l + 1 < f)%nat ->
  relink_next f L (nx L old) new old = Some (set_next L z new).
Proof.
  intros [Hnd Ha] Hnew Hf. apply NoDup_cons in Hnd as [Hold Hnd].
  rewrite <- app_assoc in Ha. simpl in Ha.
  assert (nx L old = default z (head l) /\ adj L (l ++ [z; old])) as [-> Hl].
  { destruct l; simpl in *; tauto. }
  apply relink_next_spec; [set_solver..|done|done].
Qed.

Lemma relink_prev_first L old y l new f :
  is_list L old (y :: l) -> new ∉ old :: y :: l -> (length l + 1 < f)%nat ->
  relink_prev f L (pv L old) new old = Some (set_prev L y new).
Proof.
  intros Hl Hnew Hf. rewrite relink_prev_flip.
  apply is_list_flip in Hl. rewrite reverse_cons in Hl.
  pose proof (relink_next_last _ _ _ _ new f Hl) as Hr. simpl in Hr. rewrite Hr; [done| |].
  - rewrite (reverse_Permutation l). set_solver.
  - by rewrite length_reverse.
Qed.

Lemma relink_prev_set_next f L i v li new old :
  relink_prev f (set_next L i v) li new old =
  (fun L' => set_next L' i v) <$> relink_prev f L li new old.
Proof.
  revert L li; induction f as [|f IH]; intros L li; simpl; [done|].
  destruct (li =? new); [done|]. destruct (pv L li =? old); [|apply IH].
  change (set_prev (set_next L i v) li new) with (set_next (set_prev L li new) i v). apply IH.
Qed.

(** The head of a list moved from [old] to [new], whose fields were copied. *)
Lemma relink_spec L old l new f :
  is_list L old l -> new ∉ old :: l -> nx L new = nx L old -> pv L new = pv L old ->
  (length l < f)%nat ->
  exists L', list_relink f L new old = Some L' /\ is_list L' new l.
Proof.
  intros Hl Hnew Hn Hp Hf. unfold list_relink. destruct l as [|y l].
  { destruct Hl as (_ & Ha & _). rewrite Hn, Ha, Z.eqb_refl. eexists; split; [done|apply list_init_spec]. }
  assert (nx L old = y) as Hy by (destruct Hl as (_ & Ha & _); done).
  rewrite Hn, (proj2 (Z.eqb_neq (nx L old) old)) by (destruct Hl as [Hnd _]; apply NoDup_cons in Hnd; set_solver).
  destruct (exists_last (l := y :: l)) as (c & z & E); [done|].
  rewrite E in Hl, Hnew, Hf. rewrite length_app in Hf. simpl in Hf.
  rewrite (relink_next_last L old c z new f) by (done || lia). simpl.
  assert (length l = length c) as Hlc.
  { apply (f_equal length) in E. rewrite length_app in E. simpl in E. lia. }
  rewrite relink_prev_set_next, Hp, (relink_prev_first L old y l) by (rewrite ?E, ?Hlc; done).
  simpl. eexists; split; [done|]. destruct Hl as [Hnd Ha].
  apply NoDup_cons in Hnd as [Hold Hnd]. rewrite E. split; [by constructor; [set_solver|]|].
  rewrite <- app_assoc in *. simpl in *. rewrite app_comm_cons, adj_app in Ha.
  rewrite app_comm_cons, adj_app. destruct Ha as [Ha (Hz1 & Hz2 & _)].
  rewrite <- app_comm_cons, <- E in *. rewrite adj_cons in *.
  destruct Ha as (_ & Hpy & Ha). assert (new <> y /\ new <> z) as [? ?].
  { assert (z ∈ y :: l) by (rewrite E; set_solver). set_solver. }
  rewrite adj_cons. simpl. rewrite !Z.eqb_refl, (proj2 (Z.eqb_neq new y)), (proj2 (Z.eqb_neq new z)) by done.
  simpl. split; [|split_and!; (congruence || done)]. split_and!; [congruence..|].
  apply NoDup_cons in Hnd as Hnd'. eapply adj_frame; [| |exact Ha].
  - assert (z ∉ c) by (rewrite E, (Permutation_app_comm c [z]) in Hnd; by apply NoDup_cons in Hnd as [? _]).
    rewrite E, removelast_snoc. intros i Hi. links.
  - simpl tail. intros i Hi. links.
Qed.

(** ** Sequences of operations *)

(** The operations on the list with head [h]. *)
Inductive list_op :=
  | Prepend (item : Z)
  | Append (item : Z)
  | InsertBefore (item cur : Z)
  | Delete (item : Z).

Definition run_op (h : Z) (L : links) (o : list_op) : links :=
  match o with
  | Prepend i => list_item_prepend L i h
  | Append i => list_item_append L i h
  | InsertBefore i cur => list_item_append L i cur
  | Delete i => list_item_del L i
  end.

(** The sequence after an operation: [insert_before] and [delete] act at the
    first occurrence. *)
Fixpoint insert_before (i cur : Z) (l : list Z) : list Z :=
  match l with
  | [] => []
  | x :: l => if x =? cur then i :: x :: l else x :: insert_before i cur l
  end.

Fixpoint delete (i : Z) (l : list Z) : list Z :=
  match l with
  | [] => []
  | x :: l => if x =? i then l else x :: delete i l
  end.

Definition seq_op (l : list Z) (o : list_op) : list Z :=
  match o with
  | Prepend i => i :: l
  | Append i => l ++ [i]
  | InsertBefore i cur => insert_before i cur l
  | Delete i => delete i l
  end.

(** An inserted item is on no list of interest, a deleted one is on this list. *)
Definition op_ok (h : Z) (others l : list Z) (o : list_op) : Prop :=
  match o with
  | Prepend i | Append i => i ∉ h :: l ++ others
  | InsertBefore i cur => i ∉ h :: l ++ others /\ cur ∈ l
  | Delete i => i ∈ l
  end.

Fixpoint ops_ok (h : Z) (others l : list Z) (os : list list_op) : Prop :=
  match os with
  | [] => True
  | o :: os => op_ok h others l o /\ ops_ok h others (seq_op l o) os
  end.

#[global] Instance op_ok_dec h others l o : Decision (op_ok h others l o).
Proof. destruct o; simpl; apply _. Defined.

#[global] Instance ops_ok_dec h others l os : Decision (ops_ok h others l os).
Proof. revert l; induction os as [|o os IH]; intros l; simpl; apply _. Defined.

Lemma insert_before_eq i cur l1 l2 :
  cur ∉ l1 -> insert_before i cur (l1 ++ cur :: l2) = l1 ++ i :: cur :: l2.
Proof.
  induction l1 as [|x l1 IH]; intros H; simpl; [by rewrite Z.eqb_refl|].
  case_if; [set_solver|]. by rewrite IH by set_solver.
Qed.

Lemma delete_eq i l1 l2 : i ∉ l1 -> delete i (l1 ++ i :: l2) = l1 ++ l2.
Proof.
  induction l1 as [|x l1 IH]; intros H; simpl; [by rewrite Z.eqb_refl|].
  case_if; [set_solver|]. by rewrite IH by set_solver.
Qed.

Lemma run_op_spec L h others l o :
  is_list L h l -> op_ok h others l o -> is_list (run_op h L o) h (seq_op l o).
Proof.
  destruct o as [i|i|i cur|i]; simpl; intros Hl Hok.
  - apply prepend_spec; set_solver.
  - apply append_spec; set_solver.
  - destruct Hok as [Hi Hc]. apply list_elem_of_split_l in Hc as (l1 & l2 & -> & Hc).
    rewrite insert_before_eq by done. apply append_before_spec; set_solver.
  - apply list_elem_of_split_l in Hok as (l1 & l2 & -> & Hc).
    rewrite delete_eq by done. by apply del_spec.
Qed.

(** The links of a list stay within the list. *)
Lemma is_list_next L h l x : is_list L h l -> x ∈ h :: l -> nx L x ∈ h :: l.
Proof.
  intros Hl Hx. apply elem_of_cons in Hx as [->|Hx].
  - destruct Hl as [_ Ha]. destruct l; simpl in Ha; destruct Ha as [-> _]; set_solver.
  - apply list_elem_of_split in Hx as (l1 & l2 & ->). apply is_list_rotate in Hl as [_ Ha].
    destruct l2; simpl in Ha; destruct Ha as [-> _]; set_solver.
Qed.

Lemma is_list_prev L h l x : is_list L h l -> x ∈ h :: l -> pv L x ∈ h :: l.
Proof.
  intros Hl Hx. apply is_list_flip in Hl.
  pose proof (is_list_next (flip_links L) h (reverse l) x Hl) as H. simpl in H.
  rewrite (reverse_Permutation l) in H. auto.
Qed.

(** An operation changes links of the list and of the inserted item only. *)
Lemma run_op_frame L h others l o i :
  is_list L h l -> op_ok h others l o -> i ∈ others -> i ∉ h :: l ->
  nx (run_op h L o) i = nx L i /\ pv (run_op h L o) i = pv L i.
Proof.
  intros Hl Hok Hi Hn.
  assert (forall x, x ∈ h :: l -> i <> nx L x /\ i <> pv L x /\ i <> x) as Hne.
  { intros x Hx. pose proof (is_list_next _ _ _ _ Hl Hx). pose proof (is_list_prev _ _ _ _ Hl Hx).
    split_and!; set_solver. }
  destruct (Hne h) as (? & ? & ?); [by left|].
  assert (forall x, i <> x -> (i =? x) = false) as E by (intros; by apply Z.eqb_neq).
  destruct o as [it|it|it cur|it]; simpl in *; rewrite ?(E it) by set_solver.
  - rewrite !E by done. done.
  - rewrite !E by done. done.
  - destruct Hok as [_ Hc]. destruct (Hne cur) as (? & ? & ?); [by right|]. rewrite !E by done. done.
  - destruct (Hne it) as (? & ? & ?); [by right|]. rewrite !E by (try done; case_if; done). done.
Qed.

Lemma is_list_frame L L' h l :
  (forall i, i ∈ h :: l -> nx L' i = nx L i /\ pv L' i = pv L i) -> is_list L h l -> is_list L' h l.
Proof.
  intros He [Hnd Ha]. split; [done|]. eapply adj_frame; [| |exact Ha].
  - rewrite app_comm_cons, removelast_snoc. intros i Hi. by apply He.
  - simpl tail. intros i Hi. apply He. set_solver.
Qed.

Lemma seq_op_elem h others l o i : op_ok h others l o -> i ∈ seq_op l o -> i ∈ others -> i ∈ l.
Proof.
  destruct o as [it|it|it cur|it]; simpl; intros Hok Hi Ho.
  - set_solver.
  - set_solver.
  - destruct Hok as [Hit Hc]. apply list_elem_of_split_l in Hc as (l1 & l2 & -> & Hc).
    rewrite insert_before_eq in Hi by done. set_solver.
  - apply list_elem_of_split_l in Hok as (l1 & l2 & -> & Hc).
    rewrite delete_eq in Hi by done. set_solver.
Qed.

Lemma is_list_queries L h l :
  is_list L h l ->
  list_is_empty L h = bool_decide (l = []) /\
  (forall x, x ∈ l -> list_item_is_last L x h = bool_decide (last l = Some x)).
Proof.
  intros Hl. unfold list_is_empty, list_item_is_last. split.
  - destruct Hl as [Hnd Ha]. apply NoDup_cons in Hnd as [Hh _].
    destruct l as [|y l]; simpl in Ha; destruct Ha as [-> _]; [by rewrite Z.eqb_refl|].
    apply Z.eqb_neq. set_solver.
  - intros x Hx. apply list_elem_of_split in Hx as (l1 & l2 & ->).
    apply is_list_rotate in Hl as [Hnd Ha].
    assert (nx L x = default h (head l2)) as -> by (destruct l2; simpl in *; tauto).
    rewrite last_app. simpl. destruct l2 as [|y l2 _] using rev_ind.
    + rewrite Z.eqb_refl. by rewrite bool_decide_true.
    + assert (default h (head (l2 ++ [y])) <> h).
      { apply NoDup_cons in Hnd as [_ Hnd]. destruct l2; simpl in *; apply NoDup_cons in Hnd; set_solver. }
      rewrite (proj2 (Z.eqb_neq _ _)) by done. rewrite last_cons, last_snoc.
      rewrite bool_decide_false; [done|]. intros [= ->]. apply NoDup_cons in Hnd. set_solver.
Qed.

Lemma run_ops_spec L h h' l l' os :
  is_list L h l -> is_list L h' l' -> (h :: l) ## (h' :: l') -> ops_ok h (h' :: l') l os ->
  is_list (foldl (run_op h) L os) h (foldl seq_op l os) /\ is_list (foldl (run_op h) L os) h' l'.
Proof.
  revert L l; induction os as [|o os IH]; intros L l Hl Hl' Hd Hok; [done|].
  destruct Hok as [Ho Hos]. simpl. apply IH; [by eapply run_op_spec| | |done].
  - eapply is_list_frame; [|exact Hl']. intros i Hi. eapply run_op_frame; [done..|]. set_solver.
  - intros i Hi Hi'. apply elem_of_cons in Hi as [->|Hi]; [set_solver|].
    pose proof (seq_op_elem _ _ _ _ _ Ho Hi Hi'). set_solver.
Qed.

(** C39: Any sequence of operations on a list acts as the same operations on the
    sequence of its items: prepend at the front, append at the back or before
    a given item, delete of any item. The [list_for_item] loop then ends and
    visits exactly these items in order, [list_is_empty] and
    [list_item_is_last] answer accordingly, and no other list changes. *)
Theorem list_ops_refine_sequences (L : links) (h h' : Z) (l l' : list Z) (os : list list_op) (fuel : nat) :
  is_list L h l -> is_list L h' l' -> (h :: l) ## (h' :: l') -> ops_ok h (h' :: l') l os ->
  (length (foldl seq_op l os) < fuel)%nat ->
  let L' := foldl (run_op h) L os in
  let r := foldl seq_op l os in
  is_list L' h r /\ is_list L' h' l' /\
  list_for_item fuel L' (nx L' h) h = Some r /\
  list_is_empty L' h = bool_decide (r = []) /\
  (forall x, x ∈ r -> list_item_is_last L' x h = bool_decide (last r = Some x)).
Proof.
  intros Hl Hl' Hd Hok Hf L' r. destruct (run_ops_spec L h h' l l' os) as [Hr Hr']; [done..|].
  fold L' r in Hr, Hr'. split_and!; [done..| |by apply is_list_queries|by apply is_list_queries].
  destruct Hr as [Hnd Ha]. apply NoDup_cons in Hnd as [Hh _].
  assert (nx L' h = default h (head r) /\ adj L' (r ++ [h])) as [-> Ha'].
  { destruct r; simpl in *; tauto. }
  apply list_for_item_spec; [done|by apply adj_next_chain|done].
Qed.

Definition demo_links : links :=
  list_item_append (list_item_append (list_init (list_init (mk_links id id) 1) 100) 2 1) 101 100.

Lemma demo_links_lists : is_list demo_links 1 [2] /\ is_list demo_links 100 [101].
Proof.
  assert (is_list (list_init (list_init (mk_links id id) 1) 100) 1 []) as H1.
  { split; [apply NoDup_singleton|done]. }
  assert (is_list (list_init (list_init (mk_links id id) 1) 100) 100 []) as H2 by apply list_init_spec.
  destruct (run_ops_spec _ 1 100 [] [] [Append 2] H1 H2) as [H3 H4]; [set_solver|vm_compute; set_solver|].
  destruct (run_ops_spec _ 100 1 [] [2] [Append 101] H4 H3) as [H5 H6]; [set_solver|vm_compute; set_solver|].
  done.
Qed.

Lemma list_ops_refine_sequences_witness :
  list_for_item 10 (foldl (run_op 1) demo_links [Append 3; Prepend 4; InsertBefore 5 3; Delete 2]) 4 1
  = Some [4; 5; 3].
Proof.
  destruct demo_links_lists as [H1 H2].
  apply (list_ops_refine_sequences demo_links 1 100 [2] [101]
           [Append 3; Prepend 4; InsertBefore 5 3; Delete 2] 10 H1 H2); [set_solver| |simpl; lia].
  apply (bool_decide_unpack _). vm_compute. exact I.
Defined.

(** After a list head was copied to a new address, [list_relink] ends and
    makes the copy the head of the same list. *)
Theorem list_relink_moves_head (L : links) (old new : Z) (l : list Z) (fuel : nat) :
  is_list L old l -> new ∉ old :: l -> (length l < fuel)%nat ->
  exists L', list_relink fuel (set_prev (set_next L new (nx L old)) new (pv L old)) new old = Some L' /\
             is_list L' new l.
Proof.
  intros Hl Hnew Hf. assert (new <> old) by set_solver. apply relink_spec; [|done| | |done].
  - eapply is_list_frame; [|exact Hl]. intros i Hi. simpl. case_if; set_solver.
  - simpl. rewrite Z.eqb_refl. by rewrite (proj2 (Z.eqb_neq old new)) by done.
  - simpl. rewrite Z.eqb_refl. by rewrite (proj2 (Z.eqb_neq old new)) by done.
Qed.

Lemma list_relink_moves_head_witness :
  exists L', list_relink 5 (set_prev (set_next demo_links 7 (nx demo_links 1)) 7 (pv demo_links 1)) 7 1 = Some L' /\
             is_list L' 7 [2].
Proof.
  destruct demo_links_lists as [H1 H2]. apply (list_relink_moves_head demo_links 1 7 [2] 5 H1); [set_solver|simpl; lia].
Defined.

(** ** Appending an item that is on the list already *)

Lemma next_chain_frame L L' c :
  (forall i, i ∈ removelast c -> nx L' i = nx L i) -> next_chain L c -> next_chain L' c.
Proof.
  induction c as [|x [|y c] IH]; [done..|]. intros Hn [? ?]. split.
  - rewrite Hn by by left. done.
  - apply IH; [|done]. intros i Hi. apply Hn. by right.
Qed.

Lemma next_chain_app L l1 x l2 :
  next_chain L (l1 ++ x :: l2) <-> next_chain L (l1 ++ [x]) /\ next_chain L (x :: l2).
Proof.
  induction l1 as [|a [|b l1] IH]; [simpl; tauto..|].
  change (nx L a = b /\ next_chain L ((b :: l1) ++ x :: l2) <->
    (nx L a = b /\ next_chain L ((b :: l1) ++ [x])) /\ next_chain L (x :: l2)). rewrite IH. tauto.
Qed.

(** The item becomes the last one that the iteration visits; the items behind it
    are lost. *)
Lemma append_again L h l1 x l2 fuel :
  is_list L h (l1 ++ x :: l2) -> (length l1 + 1 < fuel)%nat ->
  let L' := list_item_append L x h in
  list_for_item fuel L' (nx L' h) h = Some (l1 ++ [x]).
Proof.
  intros Hl Hf L'.
  assert (pv L h ∈ x :: l2) as Htail.
  { apply is_list_flip in Hl as [_ Ha]. rewrite reverse_app, reverse_cons in Ha. simpl in Ha.
    destruct (reverse l2) as [|y l3] eqn:E; simpl in Ha; destruct Ha as [-> _]; [by left|].
    right. apply elem_of_reverse. rewrite E. by left. }
  destruct Hl as [Hnd Ha]. pose proof (adj_next_chain _ _ Ha) as Hc. apply NoDup_cons in Hnd as [Hh Hnd].
  apply NoDup_app in Hnd as (_ & Hdis & Hnd). apply NoDup_cons in Hnd as [Hx _].
  assert (nx L' x = h) as Hxh by (unfold L', list_item_append; simpl; by rewrite Z.eqb_refl).
  assert (forall i, i ∈ h :: l1 -> nx L' i = nx L i) as Hsame.
  { intros i Hi. assert (i <> x /\ i <> pv L h) as [? ?].
    { apply elem_of_cons in Hi as [->|Hi].
      - split; intros E; apply Hh, elem_of_app; right; [rewrite E; by left|by rewrite E].
      - pose proof (Hdis i Hi) as Hi'. split; intros E; apply Hi'; [rewrite E; by left|by rewrite E]. }
    unfold L', list_item_append. simpl. by rewrite !(proj2 (Z.eqb_neq _ _)) by done. }
  rewrite <- app_assoc in Hc. simpl in Hc. rewrite app_comm_cons, next_chain_app in Hc. destruct Hc as [Hc _].
  assert (nx L h = default h (head (l1 ++ [x])) /\ next_chain L (l1 ++ [x])) as [Hn Hc1].
  { destruct l1; simpl in *; tauto. }
  rewrite Hsame by by left. rewrite Hn.
  apply list_for_item_spec; [|rewrite <- app_assoc; simpl; apply next_chain_app; split|].
  - intros Hin. apply Hh. apply elem_of_app in Hin as [?|?]; set_solver.
  - eapply next_chain_frame; [|exact Hc1]. rewrite removelast_snoc. intros i Hi. apply Hsame. by right.
  - done.
  - rewrite length_app. simpl. lia.
Qed.
