(* ===== verification/CompState.v ===== *)
(** * The component state machine ([comp_set_state] in [src/audio/component.c])

    A component's state changes only through [comp_set_state], driven by the
    trigger commands. The diagram of the allowed transitions is an inductive
    relation, and the histories of the states are characterised. *)

From stdpp Require Import base list numbers option.
From S2P Require Import Prelude.

Abbreviation COMP_STATE_INIT := 0 (only parsing).
Abbreviation COMP_STATE_READY := 1 (only parsing).
Abbreviation COMP_STATE_SUSPEND := 2 (only parsing).
Abbreviation COMP_STATE_PREPARE := 3 (only parsing).
Abbreviation COMP_STATE_PAUSED := 4 (only parsing).
Abbreviation COMP_STATE_ACTIVE := 5 (only parsing).
Abbreviation COMP_STATE_PRE_ACTIVE := 6 (only parsing).

Abbreviation COMP_TRIGGER_STOP := 0 (only parsing).
Abbreviation COMP_TRIGGER_START := 1 (only parsing).
Abbreviation COMP_TRIGGER_PAUSE := 2 (only parsing).
Abbreviation COMP_TRIGGER_RELEASE := 3 (only parsing).
Abbreviation COMP_TRIGGER_RESET := 4 (only parsing).
Abbreviation COMP_TRIGGER_PREPARE := 5 (only parsing).
Abbreviation COMP_TRIGGER_XRUN := 6 (only parsing).
Abbreviation COMP_TRIGGER_PRE_START := 7 (only parsing).
Abbreviation COMP_TRIGGER_PRE_RELEASE := 8 (only parsing).
Abbreviation COMP_TRIGGER_NO_ACTION := 11 (only parsing).

Abbreviation COMP_STATUS_STATE_ALREADY_SET := 1 (only parsing).

Definition comp_get_requested_state (cmd : Z) : Z :=
  if (cmd =? COMP_TRIGGER_START) || (cmd =? COMP_TRIGGER_RELEASE) then COMP_STATE_ACTIVE
  else if (cmd =? COMP_TRIGGER_PREPARE) || (cmd =? COMP_TRIGGER_STOP) then COMP_STATE_PREPARE
  else if cmd =? COMP_TRIGGER_PAUSE then COMP_STATE_PAUSED
  else if (cmd =? COMP_TRIGGER_XRUN) || (cmd =? COMP_TRIGGER_RESET) then COMP_STATE_READY
  else if (cmd =? COMP_TRIGGER_PRE_START) || (cmd =? COMP_TRIGGER_PRE_RELEASE) then
    COMP_STATE_PRE_ACTIVE
  else COMP_STATE_INIT.

(** The new state and the return value. *)
Definition comp_set_state (state cmd : Z) : Z * Z :=
  let requested_state := comp_get_requested_state cmd in
  if state =? requested_state then (state, COMP_STATUS_STATE_ALREADY_SET) else
  if cmd =? COMP_TRIGGER_START then
    if negb (state =? COMP_STATE_PRE_ACTIVE) then (state, - EINVAL) else (requested_state, 0)
  else if cmd =? COMP_TRIGGER_RELEASE then
    if negb (state =? COMP_STATE_PRE_ACTIVE) then (state, - EINVAL) else (requested_state, 0)
  else if cmd =? COMP_TRIGGER_STOP then
    if negb (state =? COMP_STATE_ACTIVE) && negb (state =? COMP_STATE_PAUSED) then (state, - EINVAL)
    else (requested_state, 0)
  else if cmd =? COMP_TRIGGER_PAUSE then
    if negb (state =? COMP_STATE_ACTIVE) then (state, - EINVAL) else (requested_state, 0)
  else if cmd =? COMP_TRIGGER_RESET then (requested_state, 0)
  else if cmd =? COMP_TRIGGER_PREPARE then
    if negb (state =? COMP_STATE_READY) then (state, - EINVAL) else (requested_state, 0)
  else if cmd =? COMP_TRIGGER_PRE_START then
    if negb (state =? COMP_STATE_PREPARE) then (state, - EINVAL) else (requested_state, 0)
  else if cmd =? COMP_TRIGGER_PRE_RELEASE then
    if negb (state =? COMP_STATE_PAUSED) then (state, - EINVAL) else (requested_state, 0)
  else (state, 0).

(** ** The state diagram *)

Inductive edge : Z -> Z -> Z -> Prop :=
| EPrepare : edge COMP_STATE_READY COMP_TRIGGER_PREPARE COMP_STATE_PREPARE
| EPreStart : edge COMP_STATE_PREPARE COMP_TRIGGER_PRE_START COMP_STATE_PRE_ACTIVE
| EPreRelease : edge COMP_STATE_PAUSED COMP_TRIGGER_PRE_RELEASE COMP_STATE_PRE_ACTIVE
| EStart : edge COMP_STATE_PRE_ACTIVE COMP_TRIGGER_START COMP_STATE_ACTIVE
| ERelease : edge COMP_STATE_PRE_ACTIVE COMP_TRIGGER_RELEASE COMP_STATE_ACTIVE
| EPause : edge COMP_STATE_ACTIVE COMP_TRIGGER_PAUSE COMP_STATE_PAUSED
| EStopActive : edge COMP_STATE_ACTIVE COMP_TRIGGER_STOP COMP_STATE_PREPARE
| EStopPaused : edge COMP_STATE_PAUSED COMP_TRIGGER_STOP COMP_STATE_PREPARE
| EReset s : s <> COMP_STATE_READY -> edge s COMP_TRIGGER_RESET COMP_STATE_READY.

#[export] Hint Constructors edge : sof.

(** Case analysis on the commands and states that the code tests. *)
Ltac cmd_cases :=
  repeat match goal with
  | |- context [?x =? ?y] => destruct (Z.eqb_spec x y); subst; cbn [andb orb negb]
  end.

(** Every change of state follows an edge of the diagram, and every other
    command leaves the state alone. *)
Lemma comp_set_state_edge s cmd s' r :
  comp_set_state s cmd = (s', r) -> edge s cmd s' /\ r = 0 \/ s' = s /\ (forall t, edge s cmd t -> t = s).
Proof.
  unfold comp_set_state, comp_get_requested_state.
  cmd_cases; intros [= <- <-];
    first [left; split; [solve [auto with sof]|done]
          |right; split; [done|intros t Ht; inversion Ht; subst; congruence]].
Qed.

Lemma comp_state_cases s cmd :
  snd (comp_set_state s cmd) = 0 \/ snd (comp_set_state s cmd) < 0 \/
  snd (comp_set_state s cmd) = COMP_STATUS_STATE_ALREADY_SET.
Proof. unfold comp_set_state. repeat case_if; simpl; auto with lia. Qed.

Fixpoint run_cmds (s : Z) (cmds : list Z) : Z :=
  match cmds with
  | [] => s
  | c :: cmds => run_cmds (fst (comp_set_state s c)) cmds
  end.

Lemma run_cmds_snoc s cmds c : run_cmds s (cmds ++ [c]) = fst (comp_set_state (run_cmds s cmds) c).
Proof. revert s; induction cmds as [|a cmds IH]; intros s; simpl; [done|apply IH]. Qed.

(** The commands after the last reset. *)
Definition since_reset (cmds : list Z) : list Z :=
  foldl (fun acc c => if c =? COMP_TRIGGER_RESET then [] else acc ++ [c]) [] cmds.

Lemma since_reset_snoc cmds c :
  since_reset (cmds ++ [c]) = if c =? COMP_TRIGGER_RESET then [] else since_reset cmds ++ [c].
Proof. unfold since_reset. by rewrite foldl_app. Qed.

(** The commands that a state tells about, in the order they were given. *)
Definition history (s : Z) (h : list Z) : Prop :=
  s = COMP_STATE_READY \/
  s = COMP_STATE_PREPARE /\ [COMP_TRIGGER_PREPARE] `sublist_of` h \/
  s = COMP_STATE_PRE_ACTIVE /\ [COMP_TRIGGER_PREPARE; COMP_TRIGGER_PRE_START] `sublist_of` h \/
  (s = COMP_STATE_ACTIVE \/ s = COMP_STATE_PAUSED) /\
  (exists go, (go = COMP_TRIGGER_START \/ go = COMP_TRIGGER_RELEASE) /\
     [COMP_TRIGGER_PREPARE; COMP_TRIGGER_PRE_START; go] `sublist_of` h).

Lemma sublist_snoc (l k : list Z) (x : Z) : l `sublist_of` k -> l ++ [x] `sublist_of` k ++ [x].
Proof. intros. by apply sublist_app. Qed.

Lemma sublist_more (l k : list Z) (x : Z) : l `sublist_of` k -> l `sublist_of` k ++ [x].
Proof. intros. by apply sublist_inserts_r. Qed.

#[local] Hint Resolve sublist_more : sof.

Lemma prefix_sublist (l k h : list Z) : l ++ k `sublist_of` h -> l `sublist_of` h.
Proof. intros. etrans; [|done]. by apply sublist_inserts_r. Qed.

(** Rejected and repeated commands do not disturb the history. *)
Lemma history_more s h cmd : history s h -> history s (h ++ [cmd]).
Proof.
  intros [?|[[? ?]|[[? ?]|[? (go & ? & ?)]]]]; unfold history; [by left|right; left; auto with sof|..].
  - right; right; left; auto with sof.
  - right; right; right; eauto with sof.
Qed.

Lemma history_step s cmd s' h :
  edge s cmd s' -> history s h -> history s' (if cmd =? COMP_TRIGGER_RESET then [] else h ++ [cmd]).
Proof.
  intros He Hh.
  destruct He; simpl; destruct Hh as [?|[[? Hs]|[[? Hs]|[[?|?] (go & Hgo & Hs)]]]]; try done;
    unfold history.
  - right; left. split; [done|]. apply (sublist_snoc []), sublist_nil_l.
  - right; right; left. split; [done|]. by apply (sublist_snoc [_]).
  - right; right; left. split; [done|]. apply sublist_more. by apply (prefix_sublist [COMP_TRIGGER_PREPARE; COMP_TRIGGER_PRE_START] [go]).
  - right; right; right. split; [by left|]. eexists; split; [by left|]. by apply (sublist_snoc [_; _]).
  - right; right; right. split; [by left|]. eexists; split; [by right|]. by apply (sublist_snoc [_; _]).
  - right; right; right. split; [by right|]. eauto with sof.
  - right; left. split; [done|]. apply sublist_more. by apply (prefix_sublist [COMP_TRIGGER_PREPARE] [COMP_TRIGGER_PRE_START; go]).
  - right; left. split; [done|]. apply sublist_more. by apply (prefix_sublist [COMP_TRIGGER_PREPARE] [COMP_TRIGGER_PRE_START; go]).
  - by left.
  - by left.
  - by left.
  - by left.
Qed.

Lemma run_cmds_history cmds : history (run_cmds COMP_STATE_READY cmds) (since_reset cmds).
Proof.
  induction cmds as [|c cmds IH] using rev_ind; [by left|].
  rewrite run_cmds_snoc, since_reset_snoc.
  destruct (comp_set_state (run_cmds COMP_STATE_READY cmds) c) as [s' r] eqn:E. simpl.
  apply comp_set_state_edge in E as [[He _]|[-> Hn]]; [by eapply history_step|].
  case_if; [|by apply history_more].
  left. subst c. destruct (Z.eq_dec (run_cmds COMP_STATE_READY cmds) COMP_STATE_READY) as [|Hne]; [done|].
  symmetry. apply Hn. by constructor.
Qed.

(** The component state machine. A command changes the state exactly along
    the edges of the diagram and then returns 0; otherwise the state stays, with
    the status "already set" when it is the requested one and [-EINVAL] or, for
    a command without a state, 0 when it is not. After any commands from the
    ready state, an active or paused component has seen prepare, pre-start and
    then start or release since the last reset, in this order, and the initial
    and suspended states never occur. *)
Theorem comp_state_machine (s cmd : Z) (cmds : list Z) :
  (forall s', edge s cmd s' <-> comp_set_state s cmd = (s', 0) /\ s' <> s) /\
  (snd (comp_set_state s cmd) <> 0 -> fst (comp_set_state s cmd) = s) /\
  (snd (comp_set_state s cmd) = COMP_STATUS_STATE_ALREADY_SET <-> comp_get_requested_state cmd = s) /\
  history (run_cmds COMP_STATE_READY cmds) (since_reset cmds).
Proof.
  split_and!; [| | |apply run_cmds_history].
  - intros s'. split.
    + intros He. inversion He; subst; try (split; [reflexivity|lia]).
      split; [|lia]. unfold comp_set_state. cmd_cases; simpl; done.
    + intros [E Hne]. apply comp_set_state_edge in E as [[He _]|[-> _]]; done.
  - intros Hr. destruct (comp_set_state s cmd) as [s' r] eqn:E. simpl in *.
    apply comp_set_state_edge in E as [[_ ->]|[-> _]]; done.
  - unfold comp_set_state. destruct (Z.eqb_spec s (comp_get_requested_state cmd)) as [->|Hne]; [done|].
    split; [|done]. cmd_cases; simpl; lia.
Qed.

Example comp_state_playback :
  run_cmds COMP_STATE_READY
    [COMP_TRIGGER_START; COMP_TRIGGER_PREPARE; COMP_TRIGGER_PRE_START; COMP_TRIGGER_START;
     COMP_TRIGGER_PAUSE; COMP_TRIGGER_PRE_RELEASE; COMP_TRIGGER_RELEASE] = COMP_STATE_ACTIVE.
Proof. reflexivity. Qed.
