(* ===== verification/Pipeline.v ===== *)
(** * Pipelines: state, component calls and graph walk
    ([include/sof/audio/pipeline.h], [include/sof/audio/component_ext.h],
    [src/audio/pipeline/pipeline-graph.c], [src/ipc/ipc-helper.c])

    Components, buffers and pipelines live in maps from their addresses; the
    buffer lists of a component are sequences of buffer addresses (see
    [IntrusiveList]). The code runs in a state and error monad, where an error
    is the use of a dangling pointer, a failed [assert], or missing fuel. The
    component drivers, the scheduler and the platform are parameters. Calls whose
    effect is outside the audio graph are recorded in a trace. *)

From stdpp Require Import base list numbers option gmap.
From S2P Require Import Prelude StateM AudioStream Heap Allocator Buffer Numbers CompState.

Abbreviation PPL_STATUS_PATH_STOP := 1 (only parsing).
Abbreviation PPL_STATUS_SCHEDULED := 2 (only parsing).
Abbreviation PPL_DIR_DOWNSTREAM := 0 (only parsing).
Abbreviation PPL_DIR_UPSTREAM := 1 (only parsing).
Abbreviation PPL_CONN_DIR_COMP_TO_BUFFER := 0 (only parsing).
Abbreviation PPL_CONN_DIR_BUFFER_TO_COMP := 1 (only parsing).
Abbreviation SOF_IPC_STREAM_PLAYBACK := 0 (only parsing).
Abbreviation SOF_IPC_STREAM_CAPTURE := 1 (only parsing).
Abbreviation SOF_TIME_DOMAIN_DMA := 0 (only parsing).
Abbreviation SOF_TIME_DOMAIN_TIMER := 1 (only parsing).
Abbreviation SOF_COMP_HOST := 1 (only parsing).
Abbreviation SOF_COMP_DAI := 2 (only parsing).
Abbreviation SOF_COMP_SG_DAI := 4 (only parsing).
Abbreviation COMP_ENDPOINT_HOST := 0 (only parsing).
Abbreviation COMP_ENDPOINT_DAI := 1 (only parsing).
Abbreviation COMP_ENDPOINT_NODE := 2 (only parsing).

(** ** Data *)

Record comp_dev := mk_dev {
  d_state : Z;
  d_frames : Z;
  d_pipeline : Z;
  d_period : Z;
  d_priority : Z;
  d_is_shared : bool;
  d_id : Z;
  d_pipe_id : Z;
  d_type : Z;
  d_core : Z;
  d_direction : Z;
  d_bsource_list : list Z;
  d_bsink_list : list Z
}.

Record trigger := mk_trigger {
  t_cmd : Z;
  t_host : Z;
  t_delay : Z;
  t_aborted : bool
}.

Record pipeline := mk_pipeline {
  p_comp_id : Z;
  p_pipeline_id : Z;
  p_sched_id : Z;
  p_core : Z;
  p_period : Z;
  p_priority : Z;
  p_period_mips : Z;
  p_frames_per_sched : Z;
  p_xrun_limit_usecs : Z;
  p_time_domain : Z;
  p_xrun_bytes : Z;
  p_status : Z;
  p_pipe_task : Z;
  p_sched_next : Z;
  p_sched_prev : Z;
  p_sched_comp : Z;
  p_source_comp : Z;
  p_sink_comp : Z;
  p_posn_offset : Z;
  p_msg : Z;
  p_trigger : trigger
}.

(** The fields of [struct sof_ipc_stream_posn] that pipelines fill in. *)
Record stream_posn := mk_posn {
  pn_comp_id : Z;
  pn_timestamp_ns : Z;
  pn_xrun_comp_id : Z;
  pn_xrun_size : Z;
  pn_stamps : list Z
}.

(** [struct pipeline_data], with the objects its pointers [params] and [posn]
    point to. *)
Record pipeline_data := mk_data {
  pd_start : Z;
  pd_params : sof_ipc_stream_params;
  pd_posn : stream_posn;
  pd_p : Z;
  pd_cmd : Z;
  pd_delay_ms : Z
}.

Record ipc_msg := mk_msg {
  m_header : Z;
  m_tx_size : Z;
  m_tx_data : Z
}.

(** Calls to the scheduler, the IPC layer and the platform. *)
Inductive event :=
| ScheduleTask (task start period : Z)
| ScheduleTaskBefore (task start period before : Z)
| ScheduleTaskAfter (task start period after : Z)
| ScheduleTaskCancel (task : Z)
| ScheduleTaskFree (task : Z)
| PanicOnDelay (enabled : bool)
| MsgReply (error : Z)
| MailboxStreamWrite (offset : Z) (posn : stream_posn)
| MsgSend (msg : Z) (posn : stream_posn)
| WaitDelayMs (ms : Z)
| BufferNotify (buffer : Z) (ev : buffer_event).

Record world (A : Type) := mk_world {
  w_devs : gmap Z comp_dev;
  w_bufs : gmap Z comp_buffer;
  w_ppls : gmap Z pipeline;
  w_mem : mem;
  w_alloc : A;
  w_posn : list bool;
  w_msgs : gmap Z ipc_msg;
  w_data : pipeline_data;
  w_pipelines : list Z;
  w_trace : list event
}.
Arguments mk_world {A}.
Arguments w_devs {A}. Arguments w_bufs {A}. Arguments w_ppls {A}. Arguments w_mem {A}.
Arguments w_alloc {A}. Arguments w_posn {A}. Arguments w_msgs {A}. Arguments w_data {A}.
Arguments w_pipelines {A}. Arguments w_trace {A}.

(** ** Field updates *)

Definition set_state (s : Z) (d : comp_dev) : comp_dev :=
  mk_dev s (d_frames d) (d_pipeline d) (d_period d) (d_priority d) (d_is_shared d) (d_id d)
    (d_pipe_id d) (d_type d) (d_core d) (d_direction d) (d_bsource_list d) (d_bsink_list d).

Definition set_frames (n : Z) (d : comp_dev) : comp_dev :=
  mk_dev (d_state d) n (d_pipeline d) (d_period d) (d_priority d) (d_is_shared d) (d_id d)
    (d_pipe_id d) (d_type d) (d_core d) (d_direction d) (d_bsource_list d) (d_bsink_list d).

Definition set_direction (dir : Z) (d : comp_dev) : comp_dev :=
  mk_dev (d_state d) (d_frames d) (d_pipeline d) (d_period d) (d_priority d) (d_is_shared d) (d_id d)
    (d_pipe_id d) (d_type d) (d_core d) dir (d_bsource_list d) (d_bsink_list d).

Definition set_parent (p period priority : Z) (d : comp_dev) : comp_dev :=
  mk_dev (d_state d) (d_frames d) p period priority (d_is_shared d) (d_id d)
    (d_pipe_id d) (d_type d) (d_core d) (d_direction d) (d_bsource_list d) (d_bsink_list d).

Definition set_lists (sources sinks : list Z) (d : comp_dev) : comp_dev :=
  mk_dev (d_state d) (d_frames d) (d_pipeline d) (d_period d) (d_priority d) (d_is_shared d) (d_id d)
    (d_pipe_id d) (d_type d) (d_core d) (d_direction d) sources sinks.

(** The run-time status, the task and the neighbours of a pipeline. *)
Definition set_run (xrun status : Z) (tr : trigger) (p : pipeline) : pipeline :=
  mk_pipeline (p_comp_id p) (p_pipeline_id p) (p_sched_id p) (p_core p) (p_period p) (p_priority p)
    (p_period_mips p) (p_frames_per_sched p) (p_xrun_limit_usecs p) (p_time_domain p)
    xrun status (p_pipe_task p) (p_sched_next p) (p_sched_prev p) (p_sched_comp p)
    (p_source_comp p) (p_sink_comp p) (p_posn_offset p) (p_msg p) tr.

Definition set_status (s : Z) (p : pipeline) : pipeline := set_run (p_xrun_bytes p) s (p_trigger p) p.
Definition set_xrun (n : Z) (p : pipeline) : pipeline := set_run n (p_status p) (p_trigger p) p.
Definition set_trigger (t : trigger) (p : pipeline) : pipeline :=
  set_run (p_xrun_bytes p) (p_status p) t p.
Definition set_cmd (cmd : Z) (p : pipeline) : pipeline :=
  set_trigger (mk_trigger cmd (t_host (p_trigger p)) (t_delay (p_trigger p)) (t_aborted (p_trigger p))) p.
Definition set_delay (n : Z) (p : pipeline) : pipeline :=
  set_trigger (mk_trigger (t_cmd (p_trigger p)) (t_host (p_trigger p)) n (t_aborted (p_trigger p))) p.
Definition set_host (host : Z) (p : pipeline) : pipeline :=
  set_trigger (mk_trigger (t_cmd (p_trigger p)) host (t_delay (p_trigger p)) (t_aborted (p_trigger p))) p.
Definition set_aborted (b : bool) (p : pipeline) : pipeline :=
  set_trigger (mk_trigger (t_cmd (p_trigger p)) (t_host (p_trigger p)) (t_delay (p_trigger p)) b) p.

Definition set_links (task next prev source sink : Z) (p : pipeline) : pipeline :=
  mk_pipeline (p_comp_id p) (p_pipeline_id p) (p_sched_id p) (p_core p) (p_period p) (p_priority p)
    (p_period_mips p) (p_frames_per_sched p) (p_xrun_limit_usecs p) (p_time_domain p)
    (p_xrun_bytes p) (p_status p) task next prev (p_sched_comp p)
    source sink (p_posn_offset p) (p_msg p) (p_trigger p).

Definition set_task (t : Z) (p : pipeline) : pipeline :=
  set_links t (p_sched_next p) (p_sched_prev p) (p_source_comp p) (p_sink_comp p) p.
Definition set_sched_next (q : Z) (p : pipeline) : pipeline :=
  set_links (p_pipe_task p) q (p_sched_prev p) (p_source_comp p) (p_sink_comp p) p.
Definition set_sched_prev (q : Z) (p : pipeline) : pipeline :=
  set_links (p_pipe_task p) (p_sched_next p) q (p_source_comp p) (p_sink_comp p) p.
Definition set_ends (source sink : Z) (p : pipeline) : pipeline :=
  set_links (p_pipe_task p) (p_sched_next p) (p_sched_prev p) source sink p.

Definition set_walking (v : bool) (b : comp_buffer) : comp_buffer :=
  mk_buffer (b_self b) (b_stream b) (b_id b) (b_pipeline_id b) (b_caps b) (b_core b) (b_source b)
    (b_sink b) (b_buffer_fmt b) (b_chmap b) (b_hw_params_configured b) v.

Definition set_comps (source sink : Z) (b : comp_buffer) : comp_buffer :=
  mk_buffer (b_self b) (b_stream b) (b_id b) (b_pipeline_id b) (b_caps b) (b_core b) source
    sink (b_buffer_fmt b) (b_chmap b) (b_hw_params_configured b) (b_walking b).

(** ** The computations *)

Notation M A := (ST (world A)).

Section state.
Context {A : Type}.

Definition with_devs (w : world A) m := mk_world m (w_bufs w) (w_ppls w) (w_mem w) (w_alloc w)
  (w_posn w) (w_msgs w) (w_data w) (w_pipelines w) (w_trace w).
Definition with_bufs (w : world A) m := mk_world (w_devs w) m (w_ppls w) (w_mem w) (w_alloc w)
  (w_posn w) (w_msgs w) (w_data w) (w_pipelines w) (w_trace w).
Definition with_ppls (w : world A) m := mk_world (w_devs w) (w_bufs w) m (w_mem w) (w_alloc w)
  (w_posn w) (w_msgs w) (w_data w) (w_pipelines w) (w_trace w).
Definition with_mem (w : world A) m := mk_world (w_devs w) (w_bufs w) (w_ppls w) m (w_alloc w)
  (w_posn w) (w_msgs w) (w_data w) (w_pipelines w) (w_trace w).
Definition with_alloc (w : world A) (a : A) := mk_world (w_devs w) (w_bufs w) (w_ppls w) (w_mem w) a
  (w_posn w) (w_msgs w) (w_data w) (w_pipelines w) (w_trace w).
Definition with_posn (w : world A) p := mk_world (w_devs w) (w_bufs w) (w_ppls w) (w_mem w) (w_alloc w)
  p (w_msgs w) (w_data w) (w_pipelines w) (w_trace w).
Definition with_msgs (w : world A) m := mk_world (w_devs w) (w_bufs w) (w_ppls w) (w_mem w) (w_alloc w)
  (w_posn w) m (w_data w) (w_pipelines w) (w_trace w).
Definition with_data (w : world A) d := mk_world (w_devs w) (w_bufs w) (w_ppls w) (w_mem w) (w_alloc w)
  (w_posn w) (w_msgs w) d (w_pipelines w) (w_trace w).
Definition with_pipelines (w : world A) l := mk_world (w_devs w) (w_bufs w) (w_ppls w) (w_mem w)
  (w_alloc w) (w_posn w) (w_msgs w) (w_data w) l (w_trace w).
Definition with_trace (w : world A) t := mk_world (w_devs w) (w_bufs w) (w_ppls w) (w_mem w)
  (w_alloc w) (w_posn w) (w_msgs w) (w_data w) (w_pipelines w) t.

(** Reads and writes through a pointer. *)
Definition get_dev (a : Z) : M A comp_dev := fun w => d ← w_devs w !! a; Some (w, d).
Definition get_buf (a : Z) : M A comp_buffer := fun w => b ← w_bufs w !! a; Some (w, b).
Definition get_ppl (a : Z) : M A pipeline := fun w => p ← w_ppls w !! a; Some (w, p).

Definition get_msg (a : Z) : M A ipc_msg := fun w => m ← w_msgs w !! a; Some (w, m).

Definition mod_dev (a : Z) (f : comp_dev -> comp_dev) : M A unit := fun w =>
  d ← w_devs w !! a; Some (with_devs w (<[a := f d]> (w_devs w)), tt).
Definition mod_buf (a : Z) (f : comp_buffer -> comp_buffer) : M A unit := fun w =>
  b ← w_bufs w !! a; Some (with_bufs w (<[a := f b]> (w_bufs w)), tt).
Definition mod_ppl (a : Z) (f : pipeline -> pipeline) : M A unit := fun w =>
  p ← w_ppls w !! a; Some (with_ppls w (<[a := f p]> (w_ppls w)), tt).
Definition mod_data (f : pipeline_data -> pipeline_data) : M A unit := fun w =>
  Some (with_data w (f (w_data w)), tt).
Definition emit (e : event) : M A unit := fun w => Some (with_trace w (w_trace w ++ [e]), tt).

Definition set_params (p : sof_ipc_stream_params) : M A unit :=
  mod_data (fun d => mk_data (pd_start d) p (pd_posn d) (pd_p d) (pd_cmd d) (pd_delay_ms d)).
Definition set_posn (n : stream_posn) : M A unit :=
  mod_data (fun d => mk_data (pd_start d) (pd_params d) n (pd_p d) (pd_cmd d) (pd_delay_ms d)).
Definition set_start (s : Z) : M A unit :=
  mod_data (fun d => mk_data s (pd_params d) (pd_posn d) (pd_p d) (pd_cmd d) (pd_delay_ms d)).
Definition set_delay_ms (n : Z) : M A unit :=
  mod_data (fun d => mk_data (pd_start d) (pd_params d) (pd_posn d) (pd_p d) (pd_cmd d) n).

Lemma get_dev_Some w a d : w_devs w !! a = Some d -> get_dev a w = Some (w, d).
Proof. unfold get_dev. by intros ->. Qed.
Lemma get_buf_Some w a b : w_bufs w !! a = Some b -> get_buf a w = Some (w, b).
Proof. unfold get_buf. by intros ->. Qed.
Lemma get_ppl_Some w a p : w_ppls w !! a = Some p -> get_ppl a w = Some (w, p).
Proof. unfold get_ppl. by intros ->. Qed.
Lemma mod_dev_Some w a d f :
  w_devs w !! a = Some d -> mod_dev a f w = Some (with_devs w (<[a := f d]> (w_devs w)), tt).
Proof. unfold mod_dev. by intros ->. Qed.
Lemma mod_buf_Some w a b f :
  w_bufs w !! a = Some b -> mod_buf a f w = Some (with_bufs w (<[a := f b]> (w_bufs w)), tt).
Proof. unfold mod_buf. by intros ->. Qed.
Lemma mod_ppl_Some w a p f :
  w_ppls w !! a = Some p -> mod_ppl a f w = Some (with_ppls w (<[a := f p]> (w_ppls w)), tt).
Proof. unfold mod_ppl. by intros ->. Qed.

(** [err < 0 || err == PPL_STATUS_PATH_STOP] *)
Definition stops (err : Z) : bool := (err <? 0) || (err =? PPL_STATUS_PATH_STOP).

(** ** The walk *)

(** [comp_func] gets [pipeline_for_each_comp] on the same context, the component,
    the calling buffer (0 for none) and the direction. Every context of the
    program has a [comp_func]. *)
Record walk_context := mk_walk {
  comp_func : (Z -> Z -> M A Z) -> Z -> Z -> Z -> M A Z;
  buff_func : option (Z -> M A unit);
  skip_incomplete : bool
}.

Definition comp_buffer_list (d : comp_dev) (dir : Z) : list Z :=
  if dir =? PPL_DIR_DOWNSTREAM then d_bsink_list d else d_bsource_list d.

Definition buffer_get_comp (b : comp_buffer) (dir : Z) : Z :=
  if dir =? PPL_DIR_DOWNSTREAM then b_sink b else b_source b.

(** The loop over the buffers of a component; [visit] is the call of
    [comp_func]. *)
Fixpoint walk_buffers (ctx : walk_context) (visit : Z -> Z -> M A Z) (dir : Z) (l : list Z) : M A Z :=
  match l with
  | [] => mret 0
  | buffer :: l =>
      b ← get_buf buffer;
      if b_walking b then walk_buffers ctx visit dir l else
      match buff_func ctx with Some f => f buffer | None => mret tt end ;;
      b ← get_buf buffer;
      let buffer_comp := buffer_get_comp b dir in
      if buffer_comp =? 0 then walk_buffers ctx visit dir l else
      c ← get_dev buffer_comp;
      if skip_incomplete ctx && (d_pipeline c =? 0) then walk_buffers ctx visit dir l else
      mod_buf buffer (set_walking true) ;;
      err ← visit buffer_comp buffer;
      mod_buf buffer (set_walking false) ;;
      if stops err then mret err else walk_buffers ctx visit dir l
  end.

Fixpoint pipeline_for_each_comp (fuel : nat) (ctx : walk_context) (current dir : Z) : M A Z :=
  match fuel with
  | O => fault
  | S fuel =>
      d ← get_dev current;
      walk_buffers ctx
        (fun comp buffer => comp_func ctx (pipeline_for_each_comp fuel ctx) comp buffer dir)
        dir (comp_buffer_list d dir)
  end.

(** [walk_ctx.comp_func(start, NULL, &walk_ctx, dir)] *)
Definition walk (fuel : nat) (ctx : walk_context) (start dir : Z) : M A Z :=
  comp_func ctx (pipeline_for_each_comp fuel ctx) start 0 dir.

End state.
Arguments walk_context : clear implicits.

(** ** Drivers, scheduler and platform *)

(** The operations of a component's driver; [None] is a null pointer. *)
Record comp_ops (A : Type) := mk_ops {
  ops_params : option (sof_ipc_stream_params -> M A (sof_ipc_stream_params * Z));
  ops_dai_get_hw_params : option (sof_ipc_stream_params -> Z -> M A (sof_ipc_stream_params * Z));
  ops_trigger : option (Z -> M A Z);
  ops_prepare : option (M A Z);
  ops_reset : option (M A Z);
  ops_copy : option (M A Z)
}.
Arguments mk_ops {A}.
Arguments ops_params {A}. Arguments ops_dai_get_hw_params {A}. Arguments ops_trigger {A}.
Arguments ops_prepare {A}. Arguments ops_reset {A}. Arguments ops_copy {A}.

Record env (A : Type) := mk_env {
  (** the driver of the component at an address *)
  drv : Z -> comp_ops A;
  cpu_id : Z;
  (** [idc_send_msg] with the parameters, trigger, prepare and reset messages *)
  idc_params : Z -> sof_ipc_stream_params -> M A Z;
  idc_trigger : Z -> Z -> M A Z;
  idc_prepare : Z -> M A Z;
  idc_reset : Z -> M A Z;
  (** [dai_get_init_delay_ms] of the component's DAI *)
  dai_init_delay_ms : Z -> Z;
  host_timestamp : Z -> stream_posn -> M A stream_posn;
  dai_timestamp : Z -> stream_posn -> M A stream_posn;
  (** [schedule_task_init_ll] of a task: type and pipeline *)
  schedule_task_init_ll : Z -> Z -> Z -> M A Z;
  task_is_active : Z -> M A bool;
  sizeof_pipeline : Z;
  sizeof_pipeline_task : Z;
  sizeof_ipc_msg : Z;
  sizeof_posn : Z
}.
Arguments mk_env {A}.
Arguments drv {A}. Arguments cpu_id {A}. Arguments idc_params {A}. Arguments idc_trigger {A}.
Arguments idc_prepare {A}. Arguments idc_reset {A}. Arguments dai_init_delay_ms {A}.
Arguments host_timestamp {A}. Arguments dai_timestamp {A}.
Arguments schedule_task_init_ll {A}. Arguments task_is_active {A}. Arguments sizeof_pipeline {A}.
Arguments sizeof_pipeline_task {A}. Arguments sizeof_ipc_msg {A}. Arguments sizeof_posn {A}.

Section component.
Context {A : Type} (e : env A).

Definition comp_get_endpoint_type (d : comp_dev) : Z :=
  if d_type d =? SOF_COMP_HOST then COMP_ENDPOINT_HOST
  else if d_type d =? SOF_COMP_DAI then COMP_ENDPOINT_DAI
  else COMP_ENDPOINT_NODE.

Definition comp_is_single_pipeline (current previous : comp_dev) : bool :=
  d_pipe_id current =? d_pipe_id previous.

Definition comp_is_active (d : comp_dev) : bool := d_state d =? COMP_STATE_ACTIVE.

Definition pipeline_is_same_sched_comp (current previous : pipeline) : bool :=
  p_sched_comp current =? p_sched_comp previous.

Definition pipeline_is_timer_driven (p : pipeline) : bool :=
  p_time_domain p =? SOF_TIME_DOMAIN_TIMER.

(** [dev->is_shared && !cpu_is_me(dev->ipc_config.core)] *)
Definition comp_is_remote (d : comp_dev) : bool := d_is_shared d && negb (d_core d =? cpu_id e).

Definition component_set_nearest_period_frames (current rate : Z) : M A unit :=
  mod_dev current (fun d =>
    set_frames
      (if rate =? 44100 then u32 (48000 * d_period d) / 1000000
       else if rate =? 88200 then u32 (96000 * d_period d) / 1000000
       else if rate =? 176400 then u32 (192000 * d_period d) / 1000000
       else u32 (ceil_divide (i32 (u32 (rate * d_period d))) 1000000)) d).

Definition comp_update_params (flag : Z) (params : sof_ipc_stream_params) (b : comp_buffer) :
    sof_ipc_stream_params :=
  mk_params (sp_direction params)
    (if negb (Z.land flag BUFF_PARAMS_FRAME_FMT =? 0) then s_frame_fmt (b_stream b) else sp_frame_fmt params)
    (if negb (Z.land flag BUFF_PARAMS_BUFFER_FMT =? 0) then b_buffer_fmt b else sp_buffer_fmt params)
    (if negb (Z.land flag BUFF_PARAMS_RATE =? 0) then s_rate (b_stream b) else sp_rate params)
    (if negb (Z.land flag BUFF_PARAMS_CHANNELS =? 0) then s_channels (b_stream b) else sp_channels params)
    (sp_chmap params).

(** The loop of [comp_verify_params] over the buffers. *)
Fixpoint verify_buffers (flag : Z) (params : sof_ipc_stream_params) (l : list Z) :
    M A sof_ipc_stream_params :=
  match l with
  | [] => mret params
  | buf :: l =>
      b ← get_buf buf;
      let params := comp_update_params flag params b in
      mod_buf buf (fun b => fst (buffer_set_params b (Some params) true)) ;;
      verify_buffers flag params l
  end.

Definition comp_verify_params (dev flag : Z) (params : sof_ipc_stream_params) :
    M A (sof_ipc_stream_params * Z) :=
  d ← get_dev dev;
  let source_list := comp_buffer_list d PPL_DIR_UPSTREAM in
  let sink_list := comp_buffer_list d PPL_DIR_DOWNSTREAM in
  if negb (Bool.eqb (bool_decide (source_list = [])) (bool_decide (sink_list = []))) then
    buf ← lift (head (if negb (bool_decide (source_list = [])) then source_list else sink_list));
    params ← verify_buffers flag params [buf];
    b ← get_buf buf;
    component_set_nearest_period_frames dev (s_rate (b_stream b)) ;;
    mret (params, 0)
  else
    params ← verify_buffers flag params (comp_buffer_list d (d_direction d));
    sinkb ← lift (head sink_list);
    b ← get_buf sinkb;
    component_set_nearest_period_frames dev (s_rate (b_stream b)) ;;
    mret (params, 0).

Definition comp_params (dev : Z) (params : sof_ipc_stream_params) :
    M A (sof_ipc_stream_params * Z) :=
  d ← get_dev dev;
  if comp_is_remote d then ret ← idc_params e dev params; mret (params, ret) else
  match ops_params (drv e dev) with
  | Some f => f params
  | None => comp_verify_params dev 0 params
  end.

Definition comp_dai_get_hw_params (dev : Z) (params : sof_ipc_stream_params) (dir : Z) :
    M A (sof_ipc_stream_params * Z) :=
  match ops_dai_get_hw_params (drv e dev) with
  | Some f => f params dir
  | None => mret (params, - EINVAL)
  end.

Definition comp_trigger (dev cmd : Z) : M A Z :=
  d ← get_dev dev;
  match ops_trigger (drv e dev) with
  | None => fault
  | Some f => if comp_is_remote d then idc_trigger e dev cmd else f cmd
  end.

Definition comp_prepare (dev : Z) : M A Z :=
  d ← get_dev dev;
  match ops_prepare (drv e dev) with
  | Some f => if comp_is_remote d then idc_prepare e dev else f
  | None => mret 0
  end.

Definition comp_reset (dev : Z) : M A Z :=
  d ← get_dev dev;
  match ops_reset (drv e dev) with
  | Some f => if comp_is_remote d then idc_reset e dev else f
  | None => mret 0
  end.

Definition comp_copy (dev : Z) : M A Z :=
  d ← get_dev dev;
  match ops_copy (drv e dev) with
  | None => fault
  | Some f => if d_core d =? cpu_id e then f else mret 0
  end.
End component.
