(* ===== verification/PipelineOps.v ===== *)
(** * Pipeline operations ([src/audio/pipeline/pipeline-graph.c],
    [pipeline-params.c], [pipeline-stream.c], [pipeline-schedule.c],
    [pipeline-xrun.c])

    The construction of pipelines and the operations that walk their graph. All
    walks of one operation share the fuel; [PipelineWalk] shows how much is
    enough. Trace messages, cache maintenance and interrupt masking are left
    out. *)

From stdpp Require Import base list numbers option gmap.
From S2P Require Import Prelude StateM AudioStream Heap Allocator Buffer CompState Pipeline.

Abbreviation SOF_SCHEDULE_LL_TIMER := 1 (only parsing).
Abbreviation SOF_SCHEDULE_LL_DMA := 2 (only parsing).
Abbreviation SOF_TASK_STATE_RUNNING := 3 (only parsing).
Abbreviation SOF_TASK_STATE_COMPLETED := 5 (only parsing).
Abbreviation SOF_TASK_STATE_RESCHEDULE := 8 (only parsing).

Section ops.
Context {A : Type} `{!Allocator A} (e : env A) (fuel : nat).

(** ** pipeline-graph.c *)

(** The allocator calls; on a single core the shared runtime zone is the runtime
    zone. *)
Definition zalloc (bytes : Z) : M A Z := fun w =>
  r ← al_malloc (w_alloc w) 0 SOF_MEM_CAPS_RAM bytes;
  let w := with_alloc w r.1 in
  Some (if r.2 =? 0 then w else with_mem w (memset (w_mem w) r.2 0 bytes), r.2).

Definition free (ptr : Z) : M A unit := fun w =>
  a ← al_free (w_alloc w) ptr; Some (with_alloc w a, tt).

(** The index of the first free slot. *)
Fixpoint first_free (l : list bool) (i : nat) : option nat :=
  match l with
  | [] => None
  | true :: l => first_free l (S i)
  | false :: _ => Some i
  end.

(** [-EINVAL], or 0 and the offset. *)
Definition pipeline_posn_offset_get : M A (Z * Z) := fun w =>
  match first_free (w_posn w) 0 with
  | Some i => Some (with_posn w (<[i := true]> (w_posn w)), (0, u32 (Z.of_nat i * sizeof_posn e)))
  | None => Some (w, (- EINVAL, 0))
  end.

Definition pipeline_posn_offset_put (posn_offset : Z) : M A unit := fun w =>
  let i := posn_offset / sizeof_posn e in
  if i <? Z.of_nat (length (w_posn w)) then
    Some (with_posn w (<[Z.to_nat i := false]> (w_posn w)), tt)
  else None.

Definition ipc_msg_init (header size : Z) : M A Z :=
  msg ← zalloc (sizeof_ipc_msg e);
  if msg =? 0 then mret 0 else
  tx_data ← zalloc size;
  if tx_data =? 0 then free msg ;; mret 0 else
  modify (fun w => with_msgs w (<[msg := mk_msg header size tx_data]> (w_msgs w))) ;;
  mret msg.

Definition ipc_msg_free (msg : Z) : M A unit :=
  if msg =? 0 then mret tt else
  m ← get_msg msg;
  free (m_tx_data m) ;;
  free msg ;;
  modify (fun w => with_msgs w (delete msg (w_msgs w))).

(** The pipeline as [rzalloc] and the initialisation leave it. *)
Definition init_pipeline (pipeline_id priority comp_id posn_offset msg : Z) : pipeline :=
  mk_pipeline comp_id pipeline_id 0 0 0 priority 0 0 0 0 0 COMP_STATE_INIT 0 0 0 0 0 0 posn_offset msg
    (mk_trigger COMP_TRIGGER_NO_ACTION 0 0 false).

Definition ipc_build_stream_posn (posn : stream_posn) (id : Z) : stream_posn :=
  mk_posn id (pn_timestamp_ns posn) (pn_xrun_comp_id posn) (pn_xrun_size posn) (pn_stamps posn).

(** [stream_hdr] is the header [ipc_build_stream_posn] makes for the component. *)
Definition pipeline_new (stream_hdr : Z -> Z) (pipeline_id priority comp_id : Z) : M A Z :=
  p ← zalloc (sizeof_pipeline e);
  if p =? 0 then mret 0 else
  r ← pipeline_posn_offset_get;
  if r.1 <? 0 then free p ;; mret 0 else
  msg ← ipc_msg_init (stream_hdr comp_id) (sizeof_posn e);
  if msg =? 0 then free p ;; mret 0 else
  modify (fun w => with_ppls w (<[p := init_pipeline pipeline_id priority comp_id r.2 msg]> (w_ppls w))) ;;
  mret p.

Definition pipeline_free (p : Z) : M A Z :=
  pl ← get_ppl p;
  (if p_pipe_task pl =? 0 then mret tt
   else emit (ScheduleTaskFree (p_pipe_task pl)) ;; free (p_pipe_task pl)) ;;
  ipc_msg_free (p_msg pl) ;;
  pipeline_posn_offset_put (p_posn_offset pl) ;;
  free p ;;
  modify (fun w => with_ppls w (delete p (w_ppls w))) ;;
  mret 0.

(** The buffer joins the front of the component's list. *)
Definition pipeline_connect (comp buffer dir : Z) : M A Z :=
  mod_dev comp (fun d =>
    if dir =? PPL_CONN_DIR_COMP_TO_BUFFER then set_lists (d_bsource_list d) (buffer :: d_bsink_list d) d
    else set_lists (buffer :: d_bsource_list d) (d_bsink_list d) d) ;;
  mod_buf buffer (fun b =>
    if dir =? PPL_CONN_DIR_COMP_TO_BUFFER then set_comps comp (b_sink b) b
    else set_comps (b_source b) comp b) ;;
  mret 0.

(** [list_item_del] takes the buffer off the list it is on; the pointer of the
    buffer to the component stays. *)
Definition pipeline_disconnect (comp buffer dir : Z) : M A unit :=
  mod_dev comp (fun d =>
    if dir =? PPL_CONN_DIR_COMP_TO_BUFFER then
      set_lists (d_bsource_list d) (filter (fun x => x <> buffer) (d_bsink_list d)) d
    else set_lists (filter (fun x => x <> buffer) (d_bsource_list d)) (d_bsink_list d) d).

Definition pipeline_comp_complete (rec : Z -> Z -> M A Z) (current calling_buf dir : Z) : M A Z :=
  data ← gets w_data;
  d ← get_dev current;
  start ← get_dev (pd_start data);
  if negb (comp_is_single_pipeline d start) then mret 0 else
  p ← get_ppl (pd_p data);
  mod_dev current (set_parent (pd_p data) (p_period p) (p_priority p)) ;;
  rec current dir.

Definition complete_ctx : walk_context A := mk_walk pipeline_comp_complete None false.

(** A walk with new [pipeline_data] and an empty list of pipelines. *)
Definition walk_with (data : pipeline_data) (ctx : walk_context A) (start dir : Z) : M A Z :=
  modify (fun w => with_pipelines (with_data w data) []) ;;
  walk fuel ctx start dir.

(** The [pipeline_data] and the walk context of an operation are its local
    variables. *)
Definition frame {B} (m : M A B) : M A B := fun w =>
  match m w with
  | Some (w', x) => Some (with_pipelines (with_data w' (w_data w)) (w_pipelines w), x)
  | None => None
  end.

(** Fields that an operation does not set. *)
Context (data0 : pipeline_data).

Definition start_data (start p : Z) : pipeline_data :=
  mk_data start (pd_params data0) (pd_posn data0) p (pd_cmd data0) (pd_delay_ms data0).

Definition pipeline_complete (p source sink : Z) : M A Z :=
  frame (
  pl ← get_ppl p;
  if negb (p_status pl =? COMP_STATE_INIT) then mret (- EINVAL) else
  ret ← walk_with (start_data source p) complete_ctx source PPL_DIR_DOWNSTREAM;
  mod_ppl p (fun pl => set_status COMP_STATE_READY (set_ends source sink pl)) ;;
  mret ret).

(** "If pipeline connected to the starting one is in improper direction (CAPTURE
    towards DAI, PLAYBACK towards HOST), stop propagation." *)
Definition improper_direction (current : comp_dev) (stream_direction : Z) : M A bool :=
  p ← get_ppl (d_pipeline current);
  sink ← get_dev (p_sink_comp p);
  let end_type := comp_get_endpoint_type sink in
  mret (((stream_direction =? SOF_IPC_STREAM_PLAYBACK) &&
         ((end_type =? COMP_ENDPOINT_HOST) || (end_type =? COMP_ENDPOINT_NODE))) ||
        ((stream_direction =? SOF_IPC_STREAM_CAPTURE) &&
         ((end_type =? COMP_ENDPOINT_DAI) || (end_type =? COMP_ENDPOINT_NODE)))).

Definition pipeline_comp_reset (rec : Z -> Z -> M A Z) (current calling_buf dir : Z) : M A Z :=
  data ← gets w_data;
  d ← get_dev current;
  p ← get_ppl (pd_p data);
  source ← get_dev (p_source_comp p);
  cp ← get_ppl (d_pipeline d);
  let is_single_ppl := comp_is_single_pipeline d source in
  let is_same_sched := pipeline_is_same_sched_comp cp p in
  stop ← (if negb is_single_ppl && negb is_same_sched then improper_direction d dir else mret false);
  if stop : bool then mret 0 else
  err ← comp_reset e current;
  if stops err then mret err else rec current dir.

Definition reset_ctx : walk_context A :=
  mk_walk pipeline_comp_reset (Some (fun b => mod_buf b buffer_reset_params)) true.

Definition pipeline_reset (p host : Z) : M A Z :=
  frame (
  h ← get_dev host;
  ret ← walk_with (start_data (pd_start data0) p) reset_ctx host (d_direction h);
  if ret <? 0 then mret ret else
  mod_ppl p (set_status COMP_STATE_READY) ;;
  mret ret).

(** ** pipeline-params.c *)

Definition pipeline_comp_params_neg (rec : Z -> Z -> M A Z) (current calling_buf dir : Z) : M A Z :=
  data ← gets w_data;
  d ← get_dev current;
  if negb (d_state d =? COMP_STATE_INIT) && negb (d_state d =? COMP_STATE_READY) then
    b ← get_buf calling_buf;
    if buffer_params_match b (pd_params data) (Z.lor BUFF_PARAMS_FRAME_FMT BUFF_PARAMS_RATE) then mret 0
    else mret (- EINVAL)
  else if calling_buf =? 0 then mret 0 else
  b ← get_buf calling_buf;
  let r := buffer_set_params b (Some (pd_params data)) true in
  mod_buf calling_buf (fun _ => r.1) ;;
  mret r.2.

Definition param_neg_ctx : walk_context A := mk_walk pipeline_comp_params_neg None true.

Definition pipeline_comp_params (rec : Z -> Z -> M A Z) (current calling_buf dir : Z) : M A Z :=
  data ← gets w_data;
  d ← get_dev current;
  start ← get_dev (pd_start data);
  stop ← (if negb (comp_is_single_pipeline d start)
          then improper_direction d (sp_direction (pd_params data)) else mret false);
  if stop : bool then mret 0 else
  if d_state d =? COMP_STATE_ACTIVE then mret 0 else
  err ← pipeline_for_each_comp fuel param_neg_ctx current (if dir =? 0 then 1 else 0);
  if stops err then mret err else
  data ← gets w_data;
  mod_dev current (set_direction (sp_direction (pd_params data))) ;;
  r ← comp_params e current (pd_params data);
  set_params r.1 ;;
  if stops r.2 then mret r.2 else rec current dir.

(** "save params changes made by component" *)
Definition pipeline_update_buffer_pcm_params (buffer : Z) : M A unit :=
  b ← get_buf buffer;
  data ← gets w_data;
  set_params (mk_params (sp_direction (pd_params data)) (s_frame_fmt (b_stream b)) (b_buffer_fmt b)
    (s_rate (b_stream b)) (s_channels (b_stream b)) (take SOF_IPC_MAX_CHANNELS (b_chmap b))).

Definition param_ctx : walk_context A :=
  mk_walk pipeline_comp_params (Some pipeline_update_buffer_pcm_params) true.

Definition pipeline_comp_hw_params (rec : Z -> Z -> M A Z) (current calling_buf dir : Z) : M A Z :=
  ret ← rec current dir;
  if ret <? 0 then mret ret else
  d ← get_dev current;
  data ← gets w_data;
  ret ← (if d_type d =? SOF_COMP_DAI then
           r ← comp_dai_get_hw_params e current (pd_params data) dir;
           set_params r.1 ;; mret r.2
         else mret ret);
  if ret <? 0 then mret ret else
  if calling_buf =? 0 then mret ret else
  data ← gets w_data;
  b ← get_buf calling_buf;
  let r := buffer_set_params b (Some (pd_params data)) false in
  mod_buf calling_buf (fun _ => r.1) ;;
  mret r.2.

Definition hw_param_ctx : walk_context A := mk_walk pipeline_comp_hw_params None true.

(** The data of the two walks; [hw_params] is a local variable without initial
    value. The second result is [params] after the call. *)
Definition params_data (host : Z) (params : sof_ipc_stream_params) : pipeline_data :=
  mk_data host params (pd_posn data0) 0 0 0.

Definition pipeline_params (hw_params : sof_ipc_stream_params) (p host : Z)
    (params : sof_ipc_stream_params) : M A (Z * sof_ipc_stream_params) :=
  let dir := sp_direction params in
  frame (
  ret ← walk_with (params_data host hw_params) hw_param_ctx host dir;
  if ret <? 0 then mret (ret, params) else
  ret ← walk_with (params_data host params) param_ctx host dir;
  data ← gets w_data;
  mret (ret, pd_params data)).

Definition pipeline_task_init (p type : Z) : M A Z :=
  task ← zalloc (sizeof_pipeline_task e);
  if task =? 0 then mret 0 else
  ret ← schedule_task_init_ll e task type p;
  if ret <? 0 then free task ;; mret 0 else
  pl ← get_ppl p;
  get_dev (p_sched_comp pl) ;;
  mret task.

Definition pipeline_comp_task_init (p : Z) : M A Z :=
  pl ← get_ppl p;
  if negb (p_pipe_task pl =? 0) then mret 0 else
  task ← pipeline_task_init p
    (if pipeline_is_timer_driven pl then SOF_SCHEDULE_LL_TIMER else SOF_SCHEDULE_LL_DMA);
  mod_ppl p (set_task task) ;;
  if task =? 0 then mret (- ENOMEM) else mret 0.

Definition pipeline_comp_prepare (rec : Z -> Z -> M A Z) (current calling_buf dir : Z) : M A Z :=
  data ← gets w_data;
  d ← get_dev current;
  start ← get_dev (pd_start data);
  stop ← (if negb (comp_is_single_pipeline d start) then improper_direction d dir else mret false);
  if stop : bool then mret 0 else
  err ← pipeline_comp_task_init (d_pipeline d);
  if err <? 0 then mret err else
  err ← comp_prepare e current;
  if stops err then mret err else rec current dir.

Definition buffer_reset_pos_at (buffer : Z) : M A unit :=
  b ← get_buf buffer;
  m ← gets w_mem;
  let r := buffer_reset_pos m b in
  modify (fun w => with_mem w r.1) ;;
  mod_buf buffer (fun _ => r.2).

Definition prepare_ctx : walk_context A :=
  mk_walk pipeline_comp_prepare (Some buffer_reset_pos_at) true.

Definition pipeline_prepare (p dev : Z) : M A Z :=
  frame (
  d ← get_dev dev;
  ret ← walk_with (start_data dev (pd_p data0)) prepare_ctx dev (d_direction d);
  if ret <? 0 then mret ret else
  mod_ppl p (set_status COMP_STATE_PREPARE) ;;
  mret ret).

(** ** pipeline-schedule.c: scheduling *)

Definition pipeline_schedule_cancel (p : Z) : M A unit :=
  pl ← get_ppl p;
  emit (ScheduleTaskCancel (p_pipe_task pl)) ;;
  emit (PanicOnDelay true).

(** Whether the pipeline [q] (0 for none) has an active task. *)
Definition neighbour_active (q : Z) : M A bool :=
  if q =? 0 then mret false else
  pl ← get_ppl q;
  task_is_active e (p_pipe_task pl).

Definition pipeline_schedule_copy (p start : Z) : M A unit :=
  pl ← get_ppl p;
  (if pipeline_is_timer_driven pl then mret tt else emit (PanicOnDelay false)) ;;
  next ← neighbour_active (p_sched_next pl);
  if next : bool then
    q ← get_ppl (p_sched_next pl);
    emit (ScheduleTaskBefore (p_pipe_task pl) start (p_period pl) (p_pipe_task q))
  else
    prev ← neighbour_active (p_sched_prev pl);
    if prev : bool then
      q ← get_ppl (p_sched_prev pl);
      emit (ScheduleTaskAfter (p_pipe_task pl) start (p_period pl) (p_pipe_task q))
    else emit (ScheduleTask (p_pipe_task pl) start (p_period pl)).

Definition pipeline_schedule_config (p sched_id core period period_mips frames_per_sched time_domain : Z) :
    M A unit :=
  mod_ppl p (fun pl =>
    mk_pipeline (p_comp_id pl) (p_pipeline_id pl) sched_id core period (p_priority pl)
      period_mips frames_per_sched (p_xrun_limit_usecs pl) time_domain (p_xrun_bytes pl)
      (p_status pl) (p_pipe_task pl) (p_sched_next pl) (p_sched_prev pl) (p_sched_comp pl)
      (p_source_comp pl) (p_sink_comp pl) (p_posn_offset pl) (p_msg pl) (p_trigger pl)).

(** [list_item_append(&p->list, &ctx->pipelines)]: an item that is on the list
    already becomes its last one and the items after it are lost
    ([IntrusiveList.append_again]). *)
Fixpoint append_item (p : Z) (l : list Z) : list Z :=
  match l with
  | [] => [p]
  | q :: l => if q =? p then [p] else q :: append_item p l
  end.

Definition pipeline_comp_trigger_sched_comp (p comp : Z) : M A unit :=
  pl ← get_ppl p;
  d ← get_dev comp;
  sched ← get_dev (p_sched_comp pl);
  skip ← (if d_id sched =? d_id d then mret false else
          sp ← get_ppl (d_pipeline sched);
          if p_pipeline_id pl =? p_pipeline_id sp then mret true else
          sink ← get_dev (p_sink_comp pl);
          mret (negb (d_id sink =? d_id d)));
  if skip : bool then mret tt else
  modify (fun w => with_pipelines w (append_item p (w_pipelines w))).

(** The loops of [pipeline_schedule_triggered] over the collected pipelines. *)
Definition schedule_stop (cmd p : Z) : M A unit :=
  pl ← get_ppl p;
  if pipeline_is_timer_driven pl && negb (p_status pl =? COMP_STATE_PAUSED) then
    data ← gets w_data;
    mod_ppl p (fun pl => set_host (pd_start data) (set_cmd cmd pl)) ;;
    set_start 0
  else
    pipeline_schedule_cancel p ;;
    mod_ppl p (set_status COMP_STATE_PAUSED).

Definition schedule_start (cmd p : Z) : M A unit :=
  mod_ppl p (set_xrun 0) ;;
  pl ← get_ppl p;
  (if pipeline_is_timer_driven pl then
     data ← gets w_data;
     mod_ppl p (fun pl => set_host (pd_start data) (set_cmd cmd pl)) ;;
     set_start 0
   else mod_ppl p (set_status COMP_STATE_ACTIVE)) ;;
  pipeline_schedule_copy p 0.

Definition schedule_xrun (p : Z) : M A unit :=
  mod_ppl p (fun pl => if p_xrun_bytes pl =? 0 then set_xrun 1 pl else pl).

Fixpoint for_pipelines (f : Z -> M A unit) (l : list Z) : M A unit :=
  match l with
  | [] => mret tt
  | p :: l => f p ;; for_pipelines f l
  end.

Definition pipeline_schedule_triggered (cmd : Z) : M A unit :=
  l ← gets w_pipelines;
  if (cmd =? COMP_TRIGGER_PAUSE) || (cmd =? COMP_TRIGGER_STOP) then for_pipelines (schedule_stop cmd) l
  else if (cmd =? COMP_TRIGGER_PRE_RELEASE) || (cmd =? COMP_TRIGGER_PRE_START) then
    for_pipelines (schedule_start cmd) l
  else if cmd =? COMP_TRIGGER_XRUN then for_pipelines schedule_xrun l
  else mret tt.

(** ** pipeline-stream.c: copy and trigger *)

Definition pipeline_should_report_enodata_on_trigger (rsrc : comp_dev) (dir : Z) : M A bool :=
  data ← gets w_data;
  start ← get_dev (pd_start data);
  sp ← get_ppl (d_pipeline start);
  if negb (dir =? SOF_IPC_STREAM_CAPTURE) then mret false else
  if negb (pd_cmd data =? COMP_TRIGGER_START) && negb (pd_cmd data =? COMP_TRIGGER_RELEASE) then mret false else
  is_dai ← (if p_source_comp sp =? 0 then mret false else
            s ← get_dev (p_source_comp sp); mret (d_type s =? SOF_COMP_DAI));
  if is_dai : bool then mret false else
  mret (negb (d_state rsrc =? COMP_STATE_ACTIVE)).

Definition pipeline_comp_copy (rec : Z -> Z -> M A Z) (current calling_buf dir : Z) : M A Z :=
  data ← gets w_data;
  d ← get_dev current;
  start ← get_dev (pd_start data);
  if negb (comp_is_single_pipeline d start) then mret 0 else
  if negb (comp_is_active d) then mret 0 else
  err ← (if dir =? PPL_DIR_DOWNSTREAM then comp_copy e current else mret 0);
  if stops err then mret err else
  err ← rec current dir;
  if stops err then mret err else
  if dir =? PPL_DIR_UPSTREAM then comp_copy e current else mret err.

Definition copy_ctx : walk_context A := mk_walk pipeline_comp_copy None true.

Definition pipeline_copy (p : Z) : M A Z :=
  frame (
  pl ← get_ppl p;
  source ← get_dev (p_source_comp pl);
  let playback := d_direction source =? SOF_IPC_STREAM_PLAYBACK in
  let dir := if playback then PPL_DIR_UPSTREAM else PPL_DIR_DOWNSTREAM in
  let start := if playback then p_sink_comp pl else p_source_comp pl in
  walk_with (start_data start p) copy_ctx start dir).

Definition pipeline_comp_list (rec : Z -> Z -> M A Z) (current calling_buf dir : Z) : M A Z :=
  data ← gets w_data;
  d ← get_dev current;
  start ← get_dev (pd_start data);
  cp ← get_ppl (d_pipeline d);
  sp ← get_ppl (d_pipeline start);
  if negb (comp_is_single_pipeline d start) && negb (pipeline_is_same_sched_comp cp sp) then mret 0 else
  pipeline_comp_trigger_sched_comp (d_pipeline d) current ;;
  rec current dir.

Definition list_ctx : walk_context A := mk_walk pipeline_comp_list None true.

(** The data of a trigger: the fields not named are zero. *)
Definition trigger_data (start cmd : Z) : pipeline_data :=
  mk_data start (mk_params 0 0 0 0 0 []) (mk_posn 0 0 0 0 []) 0 cmd 0.

(** "Make sure the first pipeline has the highest priority" *)
Fixpoint link_pipelines (upstream : Z) (l : list Z) : M A unit :=
  match l with
  | [] => mret tt
  | current :: l =>
      c ← get_ppl current;
      sched ← get_dev (p_sched_comp c);
      (if d_direction sched =? SOF_IPC_STREAM_PLAYBACK then
         mod_ppl current (set_sched_prev upstream) ;;
         if upstream =? 0 then mret tt else mod_ppl upstream (set_sched_next current)
       else
         mod_ppl current (set_sched_next upstream) ;;
         if upstream =? 0 then mret tt else mod_ppl upstream (set_sched_prev current)) ;;
      link_pipelines current l
  end.

Definition pipeline_trigger_list (p host cmd : Z) : M A Z :=
  frame (
  h ← get_dev host;
  ret ← walk_with (trigger_data host cmd) list_ctx host (d_direction h);
  if ret <? 0 then mret ret else
  l ← gets w_pipelines;
  (if cmd =? COMP_TRIGGER_PRE_START then link_pipelines 0 l else mret tt) ;;
  pipeline_schedule_triggered cmd ;;
  mret ret).

(** The first buffer that leads to an active or prepared pipeline. *)
Fixpoint find_running (dir : Z) (l : list Z) : M A (option Z) :=
  match l with
  | [] => mret None
  | buffer :: l =>
      b ← get_buf buffer;
      c ← get_dev (buffer_get_comp b dir);
      p ← get_ppl (d_pipeline c);
      if (p_status p =? COMP_STATE_ACTIVE) || (p_status p =? COMP_STATE_PREPARE)
      then mret (Some (d_pipeline c)) else find_running dir l
  end.

(** The host at which the loop ends. *)
Fixpoint pipeline_trigger_xrun (n : nat) (host : Z) : M A Z :=
  match n with
  | O => fault
  | S n =>
      h ← get_dev host;
      let dir := if d_direction h =? PPL_DIR_DOWNSTREAM then PPL_DIR_UPSTREAM else PPL_DIR_DOWNSTREAM in
      if bool_decide (comp_buffer_list h dir = []) then mret host else
      found ← find_running dir (comp_buffer_list h dir);
      match found with
      | None => mret host
      | Some p =>
          pl ← get_ppl p;
          pipeline_trigger_xrun n
            (if d_direction h =? PPL_DIR_DOWNSTREAM then p_source_comp pl else p_sink_comp pl)
      end
  end.

Definition pipeline_comp_trigger (rec : Z -> Z -> M A Z) (current calling_buf dir : Z) : M A Z :=
  data ← gets w_data;
  d ← get_dev current;
  start ← get_dev (pd_start data);
  let cmd := pd_cmd data in
  let is_single_ppl := comp_is_single_pipeline d start in
  let pre := (cmd =? COMP_TRIGGER_PRE_RELEASE) || (cmd =? COMP_TRIGGER_PRE_START) in
  let halt := (cmd =? COMP_TRIGGER_PAUSE) || (cmd =? COMP_TRIGGER_STOP) in
  let go := (cmd =? COMP_TRIGGER_RELEASE) || (cmd =? COMP_TRIGGER_START) in
  if negb pre && negb halt && negb go then mret (- EINVAL) else
  (if pre && (comp_get_endpoint_type d =? COMP_ENDPOINT_DAI)
   then set_delay_ms (dai_init_delay_ms e current) else mret tt) ;;
  cp ← get_ppl (d_pipeline d);
  sp ← get_ppl (d_pipeline start);
  let is_same_sched := pipeline_is_same_sched_comp cp sp in
  if negb is_single_ppl && negb is_same_sched then
    enodata ← pipeline_should_report_enodata_on_trigger d dir;
    mret (if enodata : bool then - ENODATA else 0)
  else
  err ← comp_trigger e current cmd;
  if err <? 0 then mret err else
  if err =? PPL_STATUS_PATH_STOP then mod_ppl (d_pipeline d) (set_aborted true) ;; mret err else
  (if halt && pipeline_is_timer_driven cp
   then mod_ppl (d_pipeline d) (set_status COMP_STATE_PAUSED) else mret tt) ;;
  (if pipeline_is_timer_driven cp then mret tt
   else pipeline_comp_trigger_sched_comp (d_pipeline d) current) ;;
  rec current dir.

Definition trigger_ctx : walk_context A := mk_walk pipeline_comp_trigger None true.

(** ** pipeline-xrun.c: recovery on a trigger *)

Definition pipeline_xrun_handle_trigger (p cmd : Z) : M A Z :=
  pl ← get_ppl p;
  if (p_xrun_bytes pl =? 0) || negb (p_status pl =? COMP_STATE_PAUSED) then mret 0 else
  if cmd =? COMP_TRIGGER_START then
    ret ← pipeline_prepare p (p_source_comp pl);
    if ret <? 0 then mret ret else
    mod_ppl p (set_xrun 0) ;; mret ret
  else if cmd =? COMP_TRIGGER_STOP then mret PPL_STATUS_PATH_STOP
  else mret 0.

(** ** pipeline-stream.c: running a trigger *)

Definition final_cmd (cmd : Z) : Z :=
  if cmd =? COMP_TRIGGER_PRE_START then COMP_TRIGGER_START
  else if cmd =? COMP_TRIGGER_PRE_RELEASE then COMP_TRIGGER_RELEASE
  else cmd.

(** The second stage of [PRE_START] and [PRE_RELEASE]. *)
Definition trigger_final_stage (p host cmd : Z) : M A Z :=
  data ← gets w_data;
  pl ← get_ppl p;
  if negb (pd_delay_ms data =? 0) && pipeline_is_timer_driven pl then
    if p_period pl =? 0 then fault else
    mod_ppl p (fun pl => set_cmd (final_cmd cmd)
      (set_delay (u32 (pd_delay_ms data * 1000 + p_period pl - 1) / p_period pl) pl)) ;;
    mret 0
  else
    modify (fun w => with_pipelines (with_data w
      (mk_data (pd_start data) (pd_params data) (pd_posn data) (pd_p data) (final_cmd cmd)
         (pd_delay_ms data))) []) ;;
    (if pd_delay_ms data =? 0 then mret tt else emit (WaitDelayMs (pd_delay_ms data))) ;;
    h ← get_dev host;
    ret ← walk fuel trigger_ctx host (d_direction h);
    let ret := if ret =? PPL_STATUS_PATH_STOP then 0 else ret in
    pl ← get_ppl p;
    if pipeline_is_timer_driven pl then mret ret else
    pipeline_schedule_triggered cmd ;;
    mret ret.

Definition pipeline_trigger_run (p host cmd : Z) : M A Z :=
  frame (
  mod_ppl p (set_aborted false) ;;
  pl ← get_ppl p;
  ret ← (if p_xrun_bytes pl =? 0 then mret 0 else pipeline_xrun_handle_trigger p cmd);
  if ret <? 0 then mret ret else
  if negb (p_xrun_bytes pl =? 0) && (ret =? PPL_STATUS_PATH_STOP) then
    mret (if pipeline_is_timer_driven pl then 1 else 0)
  else
  h ← get_dev host;
  ret ← walk_with (trigger_data host cmd) trigger_ctx host (d_direction h);
  if ret <? 0 then pipeline_schedule_triggered cmd ;; mret ret else
  if final_cmd cmd =? cmd then pipeline_schedule_triggered cmd ;; mret ret else
  trigger_final_stage p host cmd).

Definition pipeline_trigger (p host cmd : Z) : M A Z :=
  mod_ppl p (set_aborted false) ;;
  pl ← get_ppl p;
  let halt := (cmd =? COMP_TRIGGER_PAUSE) || (cmd =? COMP_TRIGGER_STOP) in
  if halt && ((p_status pl =? COMP_STATE_PAUSED) || negb (p_xrun_bytes pl =? 0)) then
    ret ← pipeline_trigger_run p host cmd;
    mret (if ret <? 0 then ret else 0)
  else if halt || (cmd =? COMP_TRIGGER_XRUN) || (cmd =? COMP_TRIGGER_PRE_RELEASE) ||
          (cmd =? COMP_TRIGGER_PRE_START) then
    host ← (if cmd =? COMP_TRIGGER_XRUN then pipeline_trigger_xrun fuel host else mret host);
    ret ← pipeline_trigger_list p host cmd;
    mret (if ret <? 0 then ret else PPL_STATUS_SCHEDULED)
  else mret 0.

Definition pipeline_comp_timestamp (rec : Z -> Z -> M A Z) (current calling_buf dir : Z) : M A Z :=
  data ← gets w_data;
  d ← get_dev current;
  if negb (comp_is_active d) then mret 0 else
  if negb (current =? pd_start data) && ((d_type d =? SOF_COMP_DAI) || (d_type d =? SOF_COMP_SG_DAI)) then
    posn ← dai_timestamp e current (pd_posn data);
    set_posn posn ;;
    mret PPL_STATUS_PATH_STOP
  else rec current dir.

Definition timestamp_ctx : walk_context A := mk_walk pipeline_comp_timestamp None true.

(** [posn] after the call. *)
Definition pipeline_get_timestamp (p host : Z) (posn : stream_posn) : M A stream_posn :=
  frame (
  posn ← host_timestamp e host posn;
  h ← get_dev host;
  walk_with (mk_data host (pd_params data0) posn (pd_p data0) (pd_cmd data0) (pd_delay_ms data0))
    timestamp_ctx host (d_direction h) ;;
  data ← gets w_data;
  pl ← get_ppl p;
  let posn := pd_posn data in
  mret (mk_posn (pn_comp_id posn) (u32 (p_period pl * 1000)) (pn_xrun_comp_id posn) (pn_xrun_size posn)
    (pn_stamps posn))).

(** ** pipeline-xrun.c *)

(** [NO_XRUN_RECOVERY] is set. *)
Definition pipeline_xrun_recover (p : Z) : M A Z := mret (- EINVAL).

Definition pipeline_xrun_set_limit (p xrun_limit_usecs : Z) : M A Z :=
  mod_ppl p (fun pl =>
    mk_pipeline (p_comp_id pl) (p_pipeline_id pl) (p_sched_id pl) (p_core pl) (p_period pl) (p_priority pl)
      (p_period_mips pl) (p_frames_per_sched pl) xrun_limit_usecs (p_time_domain pl) (p_xrun_bytes pl)
      (p_status pl) (p_pipe_task pl) (p_sched_next pl) (p_sched_prev pl) (p_sched_comp pl)
      (p_source_comp pl) (p_sink_comp pl) (p_posn_offset pl) (p_msg pl) (p_trigger pl)) ;;
  mret 0.

Definition pipeline_comp_xrun (rec : Z -> Z -> M A Z) (current calling_buf dir : Z) : M A Z :=
  data ← gets w_data;
  d ← get_dev current;
  (if d_type d =? SOF_COMP_HOST then
     posn ← host_timestamp e current (pd_posn data);
     set_posn posn ;;
     pl ← get_ppl (pd_p data);
     emit (MailboxStreamWrite (p_posn_offset pl) posn) ;;
     emit (MsgSend (p_msg pl) posn)
   else mret tt) ;;
  rec current dir.

Definition xrun_ctx : walk_context A := mk_walk pipeline_comp_xrun None true.

Definition pipeline_xrun (p dev bytes : Z) : M A unit :=
  frame (
  pl ← get_ppl p;
  if negb (p_xrun_bytes pl =? 0) then mret tt else
  d ← get_dev dev;
  if negb (d_state d =? COMP_STATE_ACTIVE) then mret tt else
  pipeline_trigger p (p_source_comp pl) COMP_TRIGGER_XRUN ;;
  mod_ppl p (set_xrun bytes) ;;
  let posn := mk_posn (d_id d) 0 (d_id d) bytes [] in
  d ← get_dev dev;
  walk_with (mk_data (pd_start data0) (pd_params data0) posn p (pd_cmd data0) (pd_delay_ms data0))
    xrun_ctx dev (d_direction d) ;;
  mret tt).

(** ** pipeline-schedule.c: the pipeline task *)

(** The end of [pipeline_task_cmd]: the reply and the task state. *)
Definition task_reply (p error state : Z) : M A Z :=
  mod_ppl p (set_cmd COMP_TRIGGER_NO_ACTION) ;;
  emit (MsgReply error) ;;
  mret state.

(** The status that a completed command sets first. *)
Definition cmd_status (cmd status : Z) : Z :=
  if (cmd =? COMP_TRIGGER_START) || (cmd =? COMP_TRIGGER_RELEASE) then COMP_STATE_ACTIVE
  else if (cmd =? COMP_TRIGGER_PRE_START) || (cmd =? COMP_TRIGGER_PRE_RELEASE) then COMP_STATE_PRE_ACTIVE
  else if (cmd =? COMP_TRIGGER_STOP) || (cmd =? COMP_TRIGGER_PAUSE) then COMP_STATE_PAUSED
  else status.

Definition pipeline_task_cmd (p : Z) : M A Z :=
  pl ← get_ppl p;
  let cmd := t_cmd (p_trigger pl) in
  if t_host (p_trigger pl) =? 0 then
    mod_ppl p (set_cmd COMP_TRIGGER_NO_ACTION) ;;
    if (cmd =? COMP_TRIGGER_STOP) || (cmd =? COMP_TRIGGER_PAUSE) then
      mret (if t_aborted (p_trigger pl) then SOF_TASK_STATE_RUNNING else SOF_TASK_STATE_COMPLETED)
    else
    (if (cmd =? COMP_TRIGGER_PRE_START) || (cmd =? COMP_TRIGGER_PRE_RELEASE)
     then mod_ppl p (set_status COMP_STATE_ACTIVE) else mret tt) ;;
    mret SOF_TASK_STATE_RESCHEDULE
  else
  err ← pipeline_trigger_run p (t_host (p_trigger pl)) cmd;
  if err <? 0 then task_reply p err SOF_TASK_STATE_COMPLETED else
  mod_ppl p (fun pl => set_status (cmd_status cmd (p_status pl)) pl) ;;
  pl ← get_ppl p;
  if err =? PPL_STATUS_PATH_STOP then task_reply p 0 SOF_TASK_STATE_COMPLETED
  else if negb (t_cmd (p_trigger pl) =? cmd) then
    if negb (t_delay (p_trigger pl) =? 0) then mret SOF_TASK_STATE_RESCHEDULE
    else task_reply p 0 SOF_TASK_STATE_RESCHEDULE
  else if p_status pl =? COMP_STATE_PAUSED then
    if t_aborted (p_trigger pl) then
      mod_ppl p (set_status COMP_STATE_ACTIVE) ;;
      task_reply p 0 SOF_TASK_STATE_RUNNING
    else task_reply p 0 SOF_TASK_STATE_COMPLETED
  else
    mod_ppl p (set_status COMP_STATE_ACTIVE) ;;
    task_reply p 0 SOF_TASK_STATE_RESCHEDULE.

(** The copy at the end of [pipeline_task]. *)
Definition task_copy (p : Z) : M A Z :=
  pl ← get_ppl p;
  if p_status pl =? COMP_STATE_PAUSED then mret SOF_TASK_STATE_COMPLETED else
  err ← pipeline_copy p;
  if err <? 0 then
    err ← pipeline_xrun_recover p;
    mret (if err <? 0 then SOF_TASK_STATE_COMPLETED else SOF_TASK_STATE_RESCHEDULE)
  else mret SOF_TASK_STATE_RESCHEDULE.

Definition pipeline_task (p : Z) : M A Z :=
  pl ← get_ppl p;
  xrun ← (if p_xrun_bytes pl =? 0 then mret false else
          (if t_cmd (p_trigger pl) =? COMP_TRIGGER_NO_ACTION then mret tt else
           mod_ppl p (set_cmd COMP_TRIGGER_NO_ACTION) ;;
           emit (MsgReply (- EPIPE))) ;;
          err ← pipeline_xrun_recover p;
          mret (err <? 0));
  if xrun : bool then mret SOF_TASK_STATE_COMPLETED else
  pl ← get_ppl p;
  if negb (t_delay (p_trigger pl) =? 0) then
    mod_ppl p (set_delay (t_delay (p_trigger pl) - 1)) ;;
    mret SOF_TASK_STATE_RESCHEDULE
  else if negb (t_cmd (p_trigger pl) =? COMP_TRIGGER_NO_ACTION) then
    err ← pipeline_task_cmd p;
    if negb (err =? SOF_TASK_STATE_RUNNING) then mret err else task_copy p
  else task_copy p.

End ops.
