(* ===== verification/PipelineWalk.v ===== *)
(** * Walking the pipeline graph ([pipeline_for_each_comp])

    The recursion over the graph is bounded by the [walking] flags of the
    buffers: it ends on every graph, cyclic ones included, restores the flags,
    and unless it is stopped it reaches every component on a path from the
    start. These facts are proved for any context whose [comp_func] meets a
    contract; [PipelineThms] shows that the contexts of the program do. *)

From stdpp Require Import base list numbers option gmap sets.
From S2P Require Import Prelude StateM Buffer Pipeline.

Section walk.
Context {A : Type}.

(** Whether the components keep their parent pipelines. *)
Context {fixed : bool}.
Implicit Types w : world A.

(** ** What a walk leaves unchanged *)

Definition dev_view (d : comp_dev) := (d_id d, d_pipe_id d, d_type d, d_bsource_list d, d_bsink_list d).
Definition buf_view (b : comp_buffer) := (b_source b, b_sink b).
Definition ppl_view (p : pipeline) :=
  (p_pipeline_id p, p_sched_comp p, p_source_comp p, p_sink_comp p, p_time_domain p, p_period p,
   p_sched_next p, p_sched_prev p, t_cmd (p_trigger p), t_host (p_trigger p), t_delay (p_trigger p)).
Definition data_view (d : pipeline_data) := (pd_start d, pd_p d, pd_cmd d).

(** The parent pipeline of a component stays, or, where this is allowed, it
    becomes another existing one. *)
Definition parents_kept w w' : Prop :=
  forall a d d', w_devs w !! a = Some d -> w_devs w' !! a = Some d' ->
    d_pipeline d' = d_pipeline d \/ fixed = false /\ is_Some (w_ppls w !! d_pipeline d').

(** The graph and the data of the walk stay. *)
Record shape w w' : Prop := {
  sh_devs : dev_view <$> w_devs w' = dev_view <$> w_devs w;
  sh_bufs : buf_view <$> w_bufs w' = buf_view <$> w_bufs w;
  sh_ppls : ppl_view <$> w_ppls w' = ppl_view <$> w_ppls w;
  sh_data : data_view (w_data w') = data_view (w_data w);
  sh_parents : parents_kept w w'
}.

(** The [walking] flags stay as well. *)
Definition keeps w w' : Prop := shape w w' /\ b_walking <$> w_bufs w' = b_walking <$> w_bufs w.

Lemma fmap_is_Some {B C} (f : B -> C) (m m' : gmap Z B) i :
  f <$> m' = f <$> m -> is_Some (m' !! i) <-> is_Some (m !! i).
Proof. intros E. rewrite <- !(fmap_is_Some f), <- !lookup_fmap. by rewrite E. Qed.

Lemma fmap_lookup {B C} (f : B -> C) (m m' : gmap Z B) i x :
  f <$> m' = f <$> m -> m !! i = Some x -> exists x', m' !! i = Some x' /\ f x' = f x.
Proof.
  intros E H. apply (f_equal (lookup i)) in E. rewrite !lookup_fmap, H in E.
  destruct (m' !! i) as [x'|]; simpl in E; [|done]. simplify_eq. eauto.
Qed.

Lemma fmap_lookup_r {B C} (f : B -> C) (m m' : gmap Z B) i x :
  f <$> m' = f <$> m -> m' !! i = Some x -> exists x', m !! i = Some x' /\ f x = f x'.
Proof. intros E H. symmetry in E. destruct (fmap_lookup f _ _ _ _ E H) as (x' & ? & ?). eauto. Qed.

#[global] Instance shape_preorder : PreOrder shape.
Proof.
  split.
  - intros w. constructor; try done. intros a d d' H H'. simplify_eq. by left.
  - intros w1 w2 w3 [D1 B1 P1 X1 Q1] [D2 B2 P2 X2 Q2]. constructor; [congruence..|].
    intros a d d' Hd Hd'. destruct (fmap_lookup _ _ _ _ _ D1 Hd) as (d2 & Hd2 & _).
    destruct (Q2 _ _ _ Hd2 Hd') as [->|[? Hp]]; [by apply (Q1 a)|].
    right. split; [done|]. by apply (fmap_is_Some _ _ _ _ P1).
Qed.

#[global] Instance keeps_preorder : PreOrder keeps.
Proof.
  split.
  - intros w. by split.
  - intros w1 w2 w3 [S1 E1] [S2 E2]. split; [by trans w2|congruence].
Qed.

Definition is_dev w (a : Z) : Prop := is_Some (w_devs w !! a).
Definition is_buf w (a : Z) : Prop := is_Some (w_bufs w !! a).
Definition is_ppl w (a : Z) : Prop := is_Some (w_ppls w !! a).

Lemma shape_is_dev w w' a : shape w w' -> is_dev w a -> is_dev w' a.
Proof. intros S. apply (fmap_is_Some _ _ _ _ (sh_devs _ _ S)). Qed.
Lemma shape_is_buf w w' a : shape w w' -> is_buf w a -> is_buf w' a.
Proof. intros S. apply (fmap_is_Some _ _ _ _ (sh_bufs _ _ S)). Qed.
Lemma shape_is_ppl w w' a : shape w w' -> is_ppl w a -> is_ppl w' a.
Proof. intros S. apply (fmap_is_Some _ _ _ _ (sh_ppls _ _ S)). Qed.

(** The component has a parent pipeline. *)
Definition complete w (a : Z) : Prop := exists d, w_devs w !! a = Some d /\ d_pipeline d <> 0.

(** No dangling pointers in the graph. *)
Record graph_ok w : Prop := {
  go_lists a d b : w_devs w !! a = Some d -> b ∈ d_bsource_list d \/ b ∈ d_bsink_list d -> is_buf w b;
  go_ends a b c : w_bufs w !! a = Some b -> c = b_source b \/ c = b_sink b -> c <> 0 -> is_dev w c;
  go_parent a d : w_devs w !! a = Some d -> d_pipeline d <> 0 -> is_ppl w (d_pipeline d);
  go_null : ~ is_ppl w 0
}.

Lemma shape_graph_ok w w' : shape w w' -> graph_ok w -> graph_ok w'.
Proof.
  intros S G. constructor.
  - intros a d b Hd Hb. apply (shape_is_buf w); [done|].
    destruct (fmap_lookup_r _ _ _ _ _ (sh_devs _ _ S) Hd) as (d0 & H0 & [= _ _ _ E1 E2]).
    apply (go_lists _ G a d0); [done|]. by rewrite <- E1, <- E2.
  - intros a b c Hb Hc H0. apply (shape_is_dev w); [done|].
    destruct (fmap_lookup_r _ _ _ _ _ (sh_bufs _ _ S) Hb) as (b0 & Hb0 & [= E1 E2]).
    apply (go_ends _ G a b0); [done|by rewrite <- E1, <- E2|done].
  - intros a d Hd H0. apply (shape_is_ppl w); [done|].
    destruct (fmap_lookup_r _ _ _ _ _ (sh_devs _ _ S) Hd) as (d0 & Hd0 & _).
    destruct (sh_parents _ _ S _ _ _ Hd0 Hd) as [E|[_ E]]; [rewrite E in *; by apply (go_parent _ G a)|done].
  - intros H. apply (go_null _ G). by apply (fmap_is_Some _ _ _ _ (sh_ppls _ _ S)).
Qed.

Lemma shape_complete w w' a : shape w w' -> graph_ok w -> complete w a -> complete w' a.
Proof.
  intros S G (d & Hd & H0). destruct (fmap_lookup _ _ _ _ _ (sh_devs _ _ S) Hd) as (d' & Hd' & _).
  exists d'. split; [done|]. destruct (sh_parents _ _ S _ _ _ Hd Hd') as [->|[_ Hp]]; [done|].
  intros E. rewrite E in Hp. by apply (go_null _ G).
Qed.

(** ** Flags *)

Definition flag w (b : Z) (bf : comp_buffer) (v : bool) : world A :=
  with_bufs w (<[b := set_walking v bf]> (w_bufs w)).

Lemma flag_shape w b bf v : w_bufs w !! b = Some bf -> shape w (flag w b bf v).
Proof.
  intros Hb. constructor; try done.
  - simpl. rewrite fmap_insert. apply insert_id. by rewrite lookup_fmap, Hb.
  - intros a d d' H H'. simpl in H'. simplify_eq. by left.
Qed.

(** The number of buffers that a walk can still enter. *)
Definition open_buffers w : nat := size (filter (fun kv => kv.2 = false) (b_walking <$> w_bufs w)).

Lemma keeps_open w w' : keeps w w' -> open_buffers w' = open_buffers w.
Proof. intros [_ E]. unfold open_buffers. by rewrite E. Qed.

Lemma flag_open w b bf :
  w_bufs w !! b = Some bf -> b_walking bf = false -> (open_buffers (flag w b bf true) < open_buffers w)%nat.
Proof.
  intros Hb Hw. unfold open_buffers. simpl. rewrite fmap_insert. simpl.
  rewrite map_filter_insert_False by done. rewrite map_filter_delete.
  assert (filter (fun kv : Z * bool => kv.2 = false) (b_walking <$> w_bufs w) !! b = Some false) as Hf.
  { apply map_lookup_filter_Some. rewrite lookup_fmap, Hb. simpl. by rewrite Hw. }
  rewrite map_size_delete_Some by (rewrite Hf; eauto).
  destruct (size _) eqn:E; [|simpl; lia].
  apply map_size_empty_inv in E. by rewrite E in Hf.
Qed.

(** Setting and resetting the flag around a walk that keeps the flags. *)
Lemma flag_bracket w b bf w2 bf2 :
  w_bufs w !! b = Some bf -> b_walking bf = false -> keeps (flag w b bf true) w2 ->
  w_bufs w2 !! b = Some bf2 -> keeps w (flag w2 b bf2 false).
Proof.
  intros Hb Hw [S E] Hb2. split.
  - trans (flag w b bf true); [by apply flag_shape|]. trans w2; [done|]. by apply flag_shape.
  - simpl in *. rewrite fmap_insert, E, fmap_insert. simpl.
    rewrite insert_insert_eq. apply insert_id. by rewrite lookup_fmap, Hb; simpl; rewrite Hw.
Qed.

(** ** The contract of a context *)

Section contract.
Context (ctx : walk_context A) (dir : Z).

(** [Good]: what the operation needs of the graph. [enters]: the components that
    the operation does not pass over. [Q]: what it achieves for a component. *)
Context (Good : world A -> Prop) (enters Q : world A -> Z -> Prop).

(** Nothing achieved is undone. *)
Definition step w w' : Prop := keeps w w' /\ (Good w -> Good w') /\ forall c, Q w c -> Q w' c.

#[global] Instance step_preorder : PreOrder step.
Proof.
  split; [by intros w|]. intros w1 w2 w3 (K1 & G1 & H1) (K2 & G2 & H2). split; [by trans w2|auto].
Qed.

Record contract : Prop := {
  ct_graph w : Good w -> graph_ok w;
  ct_good w b bf v : w_bufs w !! b = Some bf -> Good w -> Good (flag w b bf v);
  ct_enters w w' c : shape w w' -> enters w c -> enters w' c;
  ct_flag w b bf v c : Q w c -> Q (flag w b bf v) c;
  ct_buff f b w : buff_func ctx = Some f -> Good w -> is_buf w b ->
    exists w', f b w = Some (w', tt) /\ step w w';
  ct_comp rec cur buf w :
    Good w -> is_dev w cur -> (skip_incomplete ctx = true -> complete w cur) ->
    (buf = 0 \/ is_buf w buf) ->
    (forall w1, step w w1 -> exists w2 r, rec cur dir w1 = Some (w2, r) /\ step w1 w2) ->
    exists w' r, comp_func ctx rec cur buf dir w = Some (w', r) /\ step w w' /\
      (stops r = false -> enters w cur -> Q w' cur /\
         exists w1 w2 r1, step w w1 /\ rec cur dir w1 = Some (w2, r1) /\ stops r1 = false /\ step w2 w')
}.

Context (C : contract).

Lemma step_good w w' : step w w' -> Good w -> Good w'.
Proof. intros (_ & H & _). exact H. Qed.

Lemma step_flag w b bf w2 bf2 :
  w_bufs w !! b = Some bf -> b_walking bf = false -> step (flag w b bf true) w2 ->
  w_bufs w2 !! b = Some bf2 -> step w (flag w2 b bf2 false).
Proof.
  intros Hb Hw (K & G & H) Hb2. split; [by eapply flag_bracket|]. split.
  - intros Hg. apply (ct_good C); [done|]. apply G. by apply (ct_good C).
  - intros c Hc. apply (ct_flag C). apply H. by apply (ct_flag C).
Qed.

(** The buffers of a component that the walk enters: open, connected to the
    component [c]. *)
Definition leads w (b c : Z) : Prop :=
  exists bf, w_bufs w !! b = Some bf /\ b_walking bf = false /\ buffer_get_comp bf dir = c /\ c <> 0 /\
    (skip_incomplete ctx = true -> complete w c).

Lemma keeps_leads w w' b c : keeps w w' -> graph_ok w -> leads w b c -> leads w' b c.
Proof.
  intros [S E] G (bf & Hb & Hw & Hc & H0 & Hs).
  destruct (fmap_lookup _ _ _ _ _ (sh_bufs _ _ S) Hb) as (bf' & Hb' & [= E1 E2]).
  exists bf'. split_and!; [done| | |done|intros; eapply shape_complete; eauto].
  - apply (f_equal (lookup b)) in E. rewrite !lookup_fmap, Hb, Hb' in E. simpl in E. congruence.
  - unfold buffer_get_comp in *. by rewrite E1, E2.
Qed.

(** The call of [visit] for a buffer, in the state before it and with its
    result. *)
Definition visited (visit : Z -> Z -> M A Z) w w' (b c : Z) : Prop :=
  exists w0 bf w2 r2 bf2, step w w0 /\ w_bufs w0 !! b = Some bf /\
    visit c b (flag w0 b bf true) = Some (w2, r2) /\ stops r2 = false /\
    w_bufs w2 !! b = Some bf2 /\ step (flag w2 b bf2 false) w'.

Lemma visited_weaken visit w1 w2 w3 w4 b c :
  step w1 w2 -> visited visit w2 w3 b c -> step w3 w4 -> visited visit w1 w4 b c.
Proof.
  intros H12 (w0 & bf & wa & r & bf2 & ? & ? & ? & ? & ? & ?) H34.
  exists w0, bf, wa, r, bf2. split_and!; [by trans w2|done..|by trans w3].
Qed.

(** The visit of one buffer, with its flag set and reset. *)
Lemma visit_bracket (visit : Z -> Z -> M A Z) w b bf c (k : Z -> M A Z) :
  w_bufs w !! b = Some bf -> b_walking bf = false ->
  (exists w2 r, visit c b (flag w b bf true) = Some (w2, r) /\ step (flag w b bf true) w2) ->
  exists w3 r, (visit c b ≫= fun err => mod_buf b (set_walking false) ≫= fun _ => k err) (flag w b bf true) = k r w3 /\
    step w w3 /\
    exists w2 bf2, visit c b (flag w b bf true) = Some (w2, r) /\ w_bufs w2 !! b = Some bf2 /\
      w3 = flag w2 b bf2 false.
Proof.
  intros Hb Hw (w2 & r & Hr & H2).
  destruct (shape_is_buf (flag w b bf true) w2 b) as [bf2 Hb2];
    [apply H2|unfold is_buf; simpl; rewrite lookup_insert_eq; eauto|].
  exists (flag w2 b bf2 false), r. split_and!; [|by eapply step_flag|eauto 6].
  erewrite bind_Some by exact Hr. by erewrite bind_Some by (by apply mod_buf_Some).
Qed.

(** A component that the loop passes on to is a good visit. *)
Lemma visit_pre (visit : Z -> Z -> M A Z) n w b bf c :
  Good w -> (open_buffers w <= n)%nat -> w_bufs w !! b = Some bf -> b_walking bf = false ->
  is_dev w c -> (skip_incomplete ctx = true -> complete w c) ->
  (forall w1 c b, Good w1 -> is_dev w1 c -> (skip_incomplete ctx = true -> complete w1 c) ->
     is_buf w1 b -> (open_buffers w1 < n)%nat ->
     exists w2 r, visit c b w1 = Some (w2, r) /\ step w1 w2) ->
  exists w2 r, visit c b (flag w b bf true) = Some (w2, r) /\ step (flag w b bf true) w2.
Proof.
  intros HG Hn Hb Hw Hc Hs Hv. pose proof (flag_shape w b bf true Hb) as S.
  pose proof (flag_open w b bf Hb Hw). apply Hv; [by apply (ct_good C)|done| | |lia].
  - intros Hsk. eapply shape_complete; [done|by apply (ct_graph C)|auto].
  - apply (shape_is_buf w); [done|by exists bf].
Qed.

Lemma walk_buffers_spec visit n l w :
  Good w -> Forall (is_buf w) l -> (open_buffers w <= n)%nat ->
  (forall w1 c b, Good w1 -> is_dev w1 c -> (skip_incomplete ctx = true -> complete w1 c) ->
     is_buf w1 b -> (open_buffers w1 < n)%nat ->
     exists w2 r, visit c b w1 = Some (w2, r) /\ step w1 w2) ->
  exists w' r, walk_buffers ctx visit dir l w = Some (w', r) /\ step w w' /\
    (stops r = false -> forall b c, b ∈ l -> leads w b c -> visited visit w w' b c).
Proof.
  intros HG HF Hn Hv. revert w HG HF Hn. induction l as [|b l IH]; intros w HG HF Hn.
  { exists w, 0. split_and!; [done..|]. intros _ b c Hb. by apply elem_of_nil in Hb. }
  apply list.Forall_cons in HF as [[bf Hb] HF].
  assert (forall w1, step w w1 -> exists w' r, walk_buffers ctx visit dir l w1 = Some (w', r) /\ step w w' /\
    (stops r = false -> forall b c, b ∈ l -> leads w b c -> visited visit w w' b c) /\ step w1 w') as IH'.
  { intros w1 H1. assert (shape w w1) as S by apply H1.
    destruct (IH w1) as (w' & r & Hr & Hs & Hvis).
    - by apply (step_good w).
    - eapply Forall_impl; [exact HF|]. intros x. by apply shape_is_buf.
    - rewrite (keeps_open w); [done|apply H1].
    - exists w', r. split_and!; [done|by trans w1| |done]. intros Hst x c Hx Hl.
      apply (visited_weaken visit w w1 w' w'); [done| |done]. apply Hvis; [done..|].
      apply (keeps_leads w); [apply H1|by apply (ct_graph C)|done]. }
  simpl. erewrite bind_Some by (by apply get_buf_Some).
  assert (forall w1, step w w1 -> (forall c, ~ leads w b c) -> exists w' r,
    walk_buffers ctx visit dir l w1 = Some (w', r) /\ step w w' /\
    (stops r = false -> forall x c, x ∈ b :: l -> leads w x c -> visited visit w w' x c)) as Hskip.
  { intros w1 H1 Hno. destruct (IH' w1 H1) as (w' & r & ? & ? & Hvis & _). exists w', r.
    split_and!; [done..|]. intros Hst x c Hx Hl.
    apply elem_of_cons in Hx as [->|Hx]; [by destruct (Hno c)|by apply Hvis]. }
  destruct (b_walking bf) eqn:Hw.
  { apply Hskip; [done|]. intros c (bf' & ? & ? & _). congruence. }
  assert (exists w1, match buff_func ctx with Some f => f b | None => mret tt end w = Some (w1, tt) /\
    step w w1) as (w1 & Hf & H1).
  { destruct (buff_func ctx) as [f|] eqn:Ef; [|by exists w]. apply (ct_buff C f); [done..|by exists bf]. }
  erewrite bind_Some by exact Hf.
  assert (shape w w1) as S1 by apply H1.
  destruct (fmap_lookup _ _ _ _ _ (sh_bufs _ _ S1) Hb) as (bf1 & Hb1 & [= E1 E2]).
  assert (b_walking bf1 = false) as Hw1.
  { destruct H1 as [[_ E] _]. apply (f_equal (lookup b)) in E.
    rewrite !lookup_fmap, Hb, Hb1 in E. simpl in E. congruence. }
  erewrite bind_Some by (by apply get_buf_Some). simpl.
  set (c := buffer_get_comp bf1 dir).
  assert (buffer_get_comp bf dir = c) as Ec by (unfold c, buffer_get_comp; by rewrite E1, E2).
  destruct (Z.eqb_spec c 0) as [Hc0|Hc0].
  { apply Hskip; [done|]. intros c' (bf' & ? & _ & ? & ? & _). congruence. }
  assert (graph_ok w1) as G1 by (apply (ct_graph C), (step_good w); done).
  destruct (go_ends _ G1 b bf1 c Hb1) as [dc Hdc]; [unfold c, buffer_get_comp; case_if; auto|done|].
  erewrite bind_Some by (by apply get_dev_Some).
  destruct (skip_incomplete ctx && (d_pipeline dc =? 0)) eqn:Hsk.
  { apply Hskip; [done|]. intros c' (bf' & ? & _ & ? & _ & Hcomp). zbool.
    assert (c' = c) as -> by congruence.
    destruct (shape_complete w w1 c S1) as (d' & ? & ?); [by apply (ct_graph C)|by apply Hcomp|congruence]. }
  erewrite bind_Some by (by apply mod_buf_Some). fold (flag w1 b bf1 true).
  destruct (visit_bracket visit w1 b bf1 c (fun err => if stops err then mret err else walk_buffers ctx visit dir l))
    as (w3 & r & -> & H3 & w2 & bf2 & Hr & Hb2 & Ew3); [done..| |].
  { apply (visit_pre visit n); [by apply (step_good w)| |done|done|by exists dc| |done].
    { rewrite (keeps_open w); [done|apply H1]. }
    intros Hs. exists dc. split; [done|]. rewrite Hs in Hsk. simpl in Hsk. by zbool. }
  destruct (stops r) eqn:Hst.
  { exists w3, r. split_and!; [done|by trans w1|congruence]. }
  destruct (IH' w3) as (w' & r' & ? & ? & Hvis & H3'); [by trans w1|].
  exists w', r'. split_and!; [done..|]. intros Hst' x c' Hx Hl.
  apply elem_of_cons in Hx as [->|Hx]; [|by apply Hvis].
  destruct Hl as (bf' & ? & _ & ? & _). assert (c' = c) as -> by congruence.
  exists w1, bf1, w2, r, bf2. split_and!; [done..|by rewrite <- Ew3].
Qed.

Lemma lists_are_bufs w cur d :
  Good w -> w_devs w !! cur = Some d -> Forall (is_buf w) (comp_buffer_list d dir).
Proof.
  intros HG Hd. apply Forall_forall. intros b Hb. apply (go_lists _ (ct_graph C w HG) cur d); [done|].
  unfold comp_buffer_list in Hb. case_match; auto.
Qed.

Lemma for_each_total fuel w cur :
  Good w -> is_dev w cur -> (open_buffers w < fuel)%nat ->
  exists w' r, pipeline_for_each_comp fuel ctx cur dir w = Some (w', r) /\ step w w'.
Proof.
  revert w cur; induction fuel as [|fuel IH]; intros w cur HG [d Hd] Hf; [lia|].
  simpl. erewrite bind_Some by (by apply get_dev_Some).
  edestruct (walk_buffers_spec
    (fun comp buffer => comp_func ctx (pipeline_for_each_comp fuel ctx) comp buffer dir)
    (open_buffers w) (comp_buffer_list d dir) w) as (w' & r & Hr & Hs & _); [done| |done| |by eauto].
  - by apply (lists_are_bufs w cur).
  - intros w1 c b HG1 Hc Hcomp Hb Hn.
    destruct (ct_comp C (pipeline_for_each_comp fuel ctx) c b w1) as (w2 & r2 & ? & ? & _);
      [done..|by right| |by eauto].
    intros w2 H2. apply IH; [by apply (step_good w1)|eapply shape_is_dev; [apply H2|done]|].
    rewrite (keeps_open w1); [lia|apply H2].
Qed.

(** The buffer ends in the component [c], which the walk does not skip. *)
Definition link w (b c : Z) : Prop :=
  exists bf, w_bufs w !! b = Some bf /\ buffer_get_comp bf dir = c /\ c <> 0 /\
    (skip_incomplete ctx = true -> complete w c).

Definition is_open w (b : Z) : Prop := exists bf, w_bufs w !! b = Some bf /\ b_walking bf = false.

(** A path through the buffers [bs] whose components are all entered. *)
Inductive path w : Z -> list Z -> Z -> Prop :=
| path_here c : path w c [] c
| path_next cur d b c bs c' :
    w_devs w !! cur = Some d -> b ∈ comp_buffer_list d dir -> link w b c -> enters w c ->
    path w c bs c' -> path w cur (b :: bs) c'.

Lemma shape_link w w' b c : shape w w' -> graph_ok w -> link w b c -> link w' b c.
Proof.
  intros S G (bf & Hb & Hc & H0 & Hs).
  destruct (fmap_lookup _ _ _ _ _ (sh_bufs _ _ S) Hb) as (bf' & Hb' & [= E1 E2]).
  exists bf'. split_and!; [done| |done|intros; eapply shape_complete; eauto].
  unfold buffer_get_comp in *. by rewrite E1, E2.
Qed.

Lemma shape_path w w' cur bs c : shape w w' -> graph_ok w -> path w cur bs c -> path w' cur bs c.
Proof.
  intros S G. induction 1 as [|cur d b c bs c' Hd Hb Hl He _ IH]; [constructor|].
  destruct (fmap_lookup _ _ _ _ _ (sh_devs _ _ S) Hd) as (d' & Hd' & [= _ _ _ E1 E2]).
  apply (path_next w' cur d' b c); [done| |by eapply shape_link|by eapply (ct_enters C)|done].
  unfold comp_buffer_list in *. by rewrite E1, E2.
Qed.

Lemma flag_is_open w b bf w' x :
  keeps (flag w b bf true) w' -> x <> b -> is_open w x -> is_open w' x.
Proof.
  intros [S E] Hne (bf' & Hx & Hw). apply (f_equal (lookup x)) in E.
  simpl in E. rewrite !lookup_fmap, lookup_insert_ne, Hx in E by done. simpl in E.
  destruct (w_bufs w' !! x) as [bf''|] eqn:Hx'; simpl in E; [|done].
  exists bf''. split; [done|congruence].
Qed.

Lemma keeps_is_open w w' x : keeps w w' -> is_open w x -> is_open w' x.
Proof.
  intros [S E] (bf' & Hx & Hw). apply (f_equal (lookup x)) in E. rewrite !lookup_fmap, Hx in E.
  destruct (w_bufs w' !! x) as [bf''|] eqn:Hx'; simpl in E; [|done].
  exists bf''. split; [done|congruence].
Qed.

Lemma visit_total fuel w c b :
  Good w -> is_dev w c -> (skip_incomplete ctx = true -> complete w c) -> b = 0 \/ is_buf w b ->
  (open_buffers w < fuel)%nat ->
  exists w2 r, comp_func ctx (pipeline_for_each_comp fuel ctx) c b dir w = Some (w2, r) /\ step w w2 /\
    (stops r = false -> enters w c -> Q w2 c /\
       exists w1 w1' r1, step w w1 /\ pipeline_for_each_comp fuel ctx c dir w1 = Some (w1', r1) /\
         stops r1 = false /\ step w1' w2).
Proof.
  intros HG Hc Hcomp Hb Hn. apply (ct_comp C); [done..|]. intros w1 H1.
  apply for_each_total; [by apply (step_good w)|eapply shape_is_dev; [apply H1|done]|].
  rewrite (keeps_open w); [done|apply H1].
Qed.

(** A successful walk calls [comp_func] successfully for every buffer that leads
    on. *)
Lemma for_each_visits fuel w cur d w' r b c :
  Good w -> w_devs w !! cur = Some d -> (open_buffers w < S fuel)%nat ->
  pipeline_for_each_comp (S fuel) ctx cur dir w = Some (w', r) -> stops r = false ->
  b ∈ comp_buffer_list d dir -> leads w b c ->
  visited (fun comp buffer => comp_func ctx (pipeline_for_each_comp fuel ctx) comp buffer dir) w w' b c.
Proof.
  intros HG Hd Hf Hr Hst Hb Hl. simpl in Hr. erewrite bind_Some in Hr by (by apply get_dev_Some).
  edestruct (walk_buffers_spec
    (fun comp buffer => comp_func ctx (pipeline_for_each_comp fuel ctx) comp buffer dir)
    (open_buffers w) (comp_buffer_list d dir) w) as (w2 & r2 & Hr2 & Hs & Hv); [done| |done| |].
  - by apply (lists_are_bufs w cur).
  - intros w1 x y HG1 Hx Hcomp Hy Hn.
    destruct (visit_total fuel w1 x y) as (? & ? & ? & ? & _); [done..|by right|lia|by eauto].
  - rewrite Hr in Hr2. simplify_eq. by apply Hv.
Qed.

(** The visit of one buffer that leads on: its component is treated, and the
    walk goes on there with the buffer closed. *)
Lemma for_each_next fuel w cur d w' r b c :
  Good w -> w_devs w !! cur = Some d -> (open_buffers w < S fuel)%nat ->
  pipeline_for_each_comp (S fuel) ctx cur dir w = Some (w', r) -> stops r = false ->
  b ∈ comp_buffer_list d dir -> link w b c -> is_open w b -> enters w c ->
  Q w' c /\ exists w1 w1' r1, Good w1 /\ shape w w1 /\ (open_buffers w1 < fuel)%nat /\
    (forall x, x <> b -> is_open w x -> is_open w1 x) /\
    pipeline_for_each_comp fuel ctx c dir w1 = Some (w1', r1) /\ stops r1 = false /\
    (forall x, Q w1' x -> Q w' x).
Proof.
  intros HG Hd Hf Hr Hst Hb Hl Hob He.
  assert (leads w b c) as Hlead.
  { destruct Hl as (bf & ? & ? & ? & ?), Hob as (bf' & ? & ?). simplify_eq. by exists bf. }
  destruct (for_each_visits fuel w cur d w' r b c) as (w0 & bf & w2 & r2 & bf2 & H0 & Hbf & Hv & Hst2 & _ & H2);
    [done..|].
  assert (b_walking bf = false) as Hw.
  { destruct (keeps_is_open w w0 b) as (bf' & ? & ?); [apply H0|done|congruence]. }
  set (wf := flag w0 b bf true) in *.
  assert (shape w wf) as Sf by (trans w0; [apply H0|by apply flag_shape]).
  assert (graph_ok w) as G by by apply (ct_graph C).
  assert (open_buffers wf < fuel)%nat as Hof.
  { pose proof (flag_open w0 b bf Hbf Hw). rewrite (keeps_open w w0) in * by apply H0. unfold wf. lia. }
  assert (Good wf) as HGf by (apply (ct_good C); [done|by apply (step_good w)]).
  destruct (visit_total fuel wf c b) as (w2' & r2' & Hv' & _ & Hpost); [done| | | |done|].
  { destruct Hl as (bf' & Hb' & Hc1 & Hc0 & _). apply (shape_is_dev w); [done|].
    apply (go_ends _ G b bf'); [done| |done]. unfold buffer_get_comp in Hc1. case_match; auto. }
  { intros Hsk. destruct Hl as (_ & _ & _ & _ & Hcp). eapply shape_complete; [done|done|auto]. }
  { right. apply (shape_is_buf w); [done|]. destruct Hob as (bf' & ? & _). by exists bf'. }
  rewrite Hv in Hv'. simplify_eq.
  destruct Hpost as [HQ (w1 & w1' & r1 & H1 & Hr1 & Hst1 & H1')]; [done|by eapply (ct_enters C)|].
  split; [by apply H2, (ct_flag C)|]. exists w1, w1', r1. split_and!; [| | | |done|done|].
  - by apply (step_good wf).
  - trans wf; [done|apply H1].
  - rewrite (keeps_open wf w1); [done|apply H1].
  - intros x Hx Hox. eapply flag_is_open; [apply H1|done|]. by eapply keeps_is_open; [apply H0|].
  - intros x Hx. by apply H2, (ct_flag C), H1'.
Qed.

Lemma for_each_covers fuel w cur w' r bs c :
  Good w -> (open_buffers w < fuel)%nat -> path w cur bs c -> bs <> [] -> NoDup bs ->
  Forall (is_open w) bs ->
  pipeline_for_each_comp fuel ctx cur dir w = Some (w', r) -> stops r = false -> Q w' c.
Proof.
  revert w cur w' r bs; induction fuel as [|fuel IH]; intros w cur w' r bs HG Hf Hp Hne Hnd Ho Hr Hst; [lia|].
  destruct Hp as [|cur d b c1 bs c Hd Hb Hl He Hp]; [done|].
  apply NoDup_cons in Hnd as [Hbs Hnd]. apply list.Forall_cons in Ho as [Hob Ho].
  destruct (for_each_next fuel w cur d w' r b c1) as [HQ (w1 & w1' & r1 & G1 & S1 & Hn & Ho1 & Hr1 & Hst1 & HQ1)];
    [done..|].
  inversion Hp; subst; [done|]. apply HQ1.
  eapply IH; [exact G1|done|eapply shape_path; [done|by apply (ct_graph C)|exact Hp]|done|done| |exact Hr1|done].
  apply Forall_forall. intros x Hx. rewrite Forall_forall in Ho. apply Ho1; [set_solver|by apply Ho].
Qed.

(** ** The whole walk *)

(** Paths without repeated buffers suffice. *)
Lemma path_app w cur bs1 c bs2 c' : path w cur bs1 c -> path w c bs2 c' -> path w cur (bs1 ++ bs2) c'.
Proof. induction 1; intros; simpl; [done|]. econstructor; eauto. Qed.

Lemma path_split w cur bs1 b bs2 c' :
  path w cur (bs1 ++ b :: bs2) c' ->
  exists d, (exists cur', path w cur bs1 cur' /\ exists dc, w_devs w !! cur' = Some dc /\ b ∈ comp_buffer_list dc dir) /\
    link w b d /\ enters w d /\ path w d bs2 c'.
Proof.
  revert cur; induction bs1 as [|x bs1 IH]; intros cur; simpl; intros Hp.
  - inversion Hp; subst. eexists. split_and!; [|done..]. exists cur. split; [constructor|eauto].
  - inversion Hp; subst. edestruct IH as (d' & (cur' & ? & ?) & ? & ? & ?); [done|].
    exists d'. split_and!; [|done..]. exists cur'. split; [econstructor; eauto|done].
Qed.

Lemma link_fun w b c c' : link w b c -> link w b c' -> c = c'.
Proof. intros (bf & ? & ? & _) (bf' & ? & ? & _). congruence. Qed.

Lemma path_simple w cur bs c :
  path w cur bs c -> exists bs', path w cur bs' c /\ NoDup bs' /\ bs' ⊆ bs.
Proof.
  induction 1 as [c|cur d b c1 bs c Hd Hb Hl He _ (bs' & Hp & Hnd & Hsub)].
  { exists []. split_and!; [constructor..|done]. }
  destruct (decide (b ∈ bs')) as [Hin|Hnin].
  - apply list_elem_of_split in Hin as (l1 & l2 & ->).
    apply path_split in Hp as (d' & _ & Hl' & _ & Hp). apply (link_fun w b c1) in Hl'; [|done]. subst d'.
    exists (b :: l2). split_and!; [by econstructor| |set_solver].
    by apply NoDup_app in Hnd as (_ & _ & ?).
  - exists (b :: bs'). split_and!; [by econstructor|by constructor|set_solver].
Qed.

Lemma path_open w cur bs c :
  (forall b bf, w_bufs w !! b = Some bf -> b_walking bf = false) -> path w cur bs c ->
  Forall (is_open w) bs.
Proof.
  intros Hall. induction 1 as [|cur d b c1 bs c Hd Hb (bf & Hbf & _) He _ IH]; [done|].
  constructor; [|done]. exists bf. eauto.
Qed.

(** From a state without flags, the walk ends, keeps the graph and all flags,
    and unless it is stopped it treats every component on a path from the start. *)
Lemma walk_spec fuel w start :
  Good w -> is_dev w start -> (skip_incomplete ctx = true -> complete w start) ->
  (open_buffers w < fuel)%nat ->
  (forall b bf, w_bufs w !! b = Some bf -> b_walking bf = false) ->
  exists w' r, walk fuel ctx start dir w = Some (w', r) /\ step w w' /\
    (stops r = false -> enters w start -> forall bs c, path w start bs c -> Q w' c).
Proof.
  intros HG Hs Hc Hf Hall.
  destruct (visit_total fuel w start 0) as (w' & r & Hr & Hst & Hpost); [done..|by left|done|].
  exists w', r. split_and!; [done..|]. intros Hstop He bs c Hp.
  destruct (Hpost Hstop He) as [HQ (w1 & w1' & r1 & H1 & Hr1 & Hst1 & H1')].
  apply path_simple in Hp as ([|b bs'] & Hp & Hnd & _); [by inversion Hp; subst|].
  apply H1'. apply (for_each_covers fuel w1 start w1' r1 (b :: bs')); [by apply (step_good w)| | |done|done| |done|done].
  - rewrite (keeps_open w); [done|apply H1].
  - eapply shape_path; [apply H1|by apply (ct_graph C)|exact Hp].
  - eapply Forall_impl; [by eapply path_open|]. intros x. apply keeps_is_open, H1.
Qed.

Lemma open_buffers_size w : (open_buffers w <= size (w_bufs w))%nat.
Proof.
  unfold open_buffers. rewrite <- (map_size_fmap b_walking (w_bufs w)).
  apply map_subseteq_size, map_filter_subseteq.
Qed.
End contract.
End walk.
Arguments parents_kept {A} fixed.
Arguments shape {A} fixed.
Arguments keeps {A} fixed.
Arguments step {A} fixed.
Arguments contract {A} fixed.
