(* ===== verification/PipelineThms.v ===== *)
(** * Pipeline operations: what they achieve

    The contract between the pipeline code and the component drivers, and the
    theorems that the walks of [pipeline_prepare], [pipeline_reset] and
    [pipeline_trigger_run] reach every component they should. *)

From stdpp Require Import base list numbers option gmap sets.
From S2P Require Import Prelude StateM AudioStream Heap HeapZones Allocator Buffer CompState Pipeline PipelineOps PipelineWalk.

Section wp.
Context {A : Type}.
Implicit Types w : world A.

Lemma wp_get_dev a d w (P : world A -> comp_dev -> Prop) :
  w_devs w !! a = Some d -> P w d -> wp (get_dev a) w P.
Proof. intros. exists w, d. split; [by apply get_dev_Some|done]. Qed.

Lemma wp_get_buf a b w (P : world A -> comp_buffer -> Prop) :
  w_bufs w !! a = Some b -> P w b -> wp (get_buf a) w P.
Proof. intros. exists w, b. split; [by apply get_buf_Some|done]. Qed.

Lemma wp_get_ppl a p w (P : world A -> pipeline -> Prop) :
  w_ppls w !! a = Some p -> P w p -> wp (get_ppl a) w P.
Proof. intros. exists w, p. split; [by apply get_ppl_Some|done]. Qed.

Lemma wp_mod_dev a d f w (P : world A -> unit -> Prop) :
  w_devs w !! a = Some d -> P (with_devs w (<[a := f d]> (w_devs w))) tt -> wp (mod_dev a f) w P.
Proof. intros. eexists _, tt. split; [by apply mod_dev_Some|done]. Qed.

Lemma wp_mod_buf a b f w (P : world A -> unit -> Prop) :
  w_bufs w !! a = Some b -> P (with_bufs w (<[a := f b]> (w_bufs w))) tt -> wp (mod_buf a f) w P.
Proof. intros. eexists _, tt. split; [by apply mod_buf_Some|done]. Qed.

Lemma wp_mod_ppl a p f w (P : world A -> unit -> Prop) :
  w_ppls w !! a = Some p -> P (with_ppls w (<[a := f p]> (w_ppls w))) tt -> wp (mod_ppl a f) w P.
Proof. intros. eexists _, tt. split; [by apply mod_ppl_Some|done]. Qed.

Lemma wp_frame {B} (m : M A B) w (P : world A -> B -> Prop) :
  wp m w (fun w' x => P (with_pipelines (with_data w' (w_data w)) (w_pipelines w)) x) ->
  wp (frame m) w P.
Proof. intros (w' & x & Hm & HP). unfold frame. eexists _, x. by rewrite Hm. Qed.
End wp.

(** One step of a computation: a bind, then the operation. *)
Ltac wp_step :=
  match goal with
  | |- wp (_ ≫= _) _ _ => apply wp_bind
  | |- wp (mret _) _ _ => apply wp_ret
  | |- wp (gets _) _ _ => apply wp_gets
  | |- wp (modify _) _ _ => apply wp_modify
  | |- wp (get_dev _) _ _ => eapply wp_get_dev; [eassumption|]
  | |- wp (get_buf _) _ _ => eapply wp_get_buf; [eassumption|]
  | |- wp (get_ppl _) _ _ => eapply wp_get_ppl; [eassumption|]
  | |- wp (mod_dev _ _) _ _ => eapply wp_mod_dev; [eassumption|]
  | |- wp (mod_buf _ _) _ _ => eapply wp_mod_buf; [eassumption|]
  | |- wp (mod_ppl _ _) _ _ => eapply wp_mod_ppl; [eassumption|]
  end; cbv beta.

(** The operations of running pipelines keep the parents. *)
Notation shape := (PipelineWalk.shape true).
Notation keeps := (PipelineWalk.keeps true).
Notation step := (PipelineWalk.step true).
Notation contract := (PipelineWalk.contract true).

Section drivers.
Context {A : Type} `{!Allocator A}.
Implicit Types w : world A.

(** ** States in which pipelines run *)

(** Complete pipelines, with their scheduling, source and sink components. *)
Record ready w : Prop := {
  rd_graph : graph_ok w;
  rd_ends p pl : w_ppls w !! p = Some pl ->
    complete w (p_sched_comp pl) /\ complete w (p_source_comp pl) /\ complete w (p_sink_comp pl);
  rd_neighbours p pl q : w_ppls w !! p = Some pl -> q = p_sched_next pl \/ q = p_sched_prev pl ->
    q <> 0 -> is_ppl w q;
  rd_alloc : al_inv (w_alloc w)
}.

Lemma shape_ready w w' : shape w w' -> al_inv (w_alloc w') -> ready w -> ready w'.
Proof.
  intros S Ha R. constructor; [by eapply shape_graph_ok, rd_graph| | |done]; intros p pl.
  - intros Hp. destruct (fmap_lookup_r _ _ _ _ _ (sh_ppls _ _ S) Hp) as (pl0 & Hp0 & [= _ E1 E2 E3 _ _ _ _ _ _ _]).
    destruct (rd_ends _ R p pl0 Hp0) as (H1 & H2 & H3). rewrite E1, E2, E3. split_and!.
    + eapply shape_complete; [done|apply rd_graph, R|done].
    + eapply shape_complete; [done|apply rd_graph, R|done].
    + eapply shape_complete; [done|apply rd_graph, R|done].
  - intros q Hp Hq H0. destruct (fmap_lookup_r _ _ _ _ _ (sh_ppls _ _ S) Hp) as (pl0 & Hp0 & [= _ _ _ _ _ _ E1 E2 _ _ _]).
    eapply (shape_is_ppl w); [done|]. rewrite E1, E2 in Hq. by eapply rd_neighbours.
Qed.

Definition state_of w (c : Z) : option Z := d_state <$> w_devs w !! c.

(** ** The contract of the drivers *)

(** The replies sent to the host. *)
Definition is_reply (ev : event) : bool := match ev with MsgReply _ => true | _ => false end.

Definition replies w : nat := length (List.filter is_reply (w_trace w)).

(** An operation of the component [a] keeps the graph, the pipelines, the data of
    the walk and the trace, and changes no other component's state. *)
Record op_frame w w' (a : Z) : Prop := {
  of_keeps : keeps w w';
  of_ppls : w_ppls w' = w_ppls w;
  of_data : w_data w' = w_data w;
  of_list : w_pipelines w' = w_pipelines w;
  of_trace : w_trace w' = w_trace w;
  of_others c : c <> a -> state_of w' c = state_of w c;
  of_alloc : al_inv (w_alloc w) -> al_inv (w_alloc w')
}.

(** It puts the component into the state [s] or leaves its state, and it has
    done the former when it returns success. *)
Definition op_ok (f : M A Z) (a s : Z) : Prop := forall w, ready w -> complete w a ->
  wp f w (fun w' r => op_frame w w' a /\
    (state_of w' a = state_of w a \/ state_of w' a = Some s) /\
    (stops r = false -> state_of w' a = Some s)).

(** A copy moves data only; it may report an xrun. *)
Definition copy_ok (f : M A Z) (a : Z) : Prop := forall w, ready w -> complete w a ->
  wp f w (fun w' _ => keeps w w' /\ replies w' = replies w /\ w_pipelines w' = w_pipelines w /\
    (al_inv (w_alloc w) -> al_inv (w_alloc w'))).

Definition trigger_cmd (cmd : Z) : Prop :=
  cmd ∈ [COMP_TRIGGER_PRE_RELEASE; COMP_TRIGGER_PRE_START; COMP_TRIGGER_PAUSE; COMP_TRIGGER_STOP;
         COMP_TRIGGER_RELEASE; COMP_TRIGGER_START].

(** What the drivers and the scheduler promise to the pipelines. *)
Class Drivers (e : env A) : Prop := {
  dr_trigger a : exists f, ops_trigger (drv e a) = Some f /\
    forall cmd, trigger_cmd cmd -> op_ok (f cmd) a (comp_get_requested_state cmd);
  dr_trigger_remote a cmd : trigger_cmd cmd -> op_ok (idc_trigger e a cmd) a (comp_get_requested_state cmd);
  dr_prepare a f : ops_prepare (drv e a) = Some f -> op_ok f a COMP_STATE_PREPARE;
  dr_prepare_remote a : op_ok (idc_prepare e a) a COMP_STATE_PREPARE;
  dr_reset a f : ops_reset (drv e a) = Some f -> op_ok f a COMP_STATE_READY;
  dr_reset_remote a : op_ok (idc_reset e a) a COMP_STATE_READY;
  dr_copy a : exists f, ops_copy (drv e a) = Some f /\ copy_ok f a;
  dr_task_init task type p w : ready w ->
    wp (schedule_task_init_ll e task type p) w (fun w' _ => w' = w);
  dr_active task w : wp (task_is_active e task) w (fun w' _ => w' = w);
  dr_sizes : request_ok (sizeof_pipeline_task e) 0
}.

(** The state that a component without the operation keeps. *)
Definition reached (has_op : Z -> Prop) (s : Z) w (c : Z) : Prop :=
  ~ has_op c \/ state_of w c = Some s.

(** ** Small changes that keep the graph *)

Lemma keeps_eq w w' :
  w_devs w' = w_devs w -> w_bufs w' = w_bufs w -> w_ppls w' = w_ppls w ->
  data_view (w_data w') = data_view (w_data w) -> keeps w w'.
Proof.
  intros Ed Eb Ep Ex. split; [|by rewrite Eb]. constructor; [by rewrite Ed|by rewrite Eb|by rewrite Ep|done|].
  intros a d d' H1 H2. rewrite Ed in H2. simplify_eq. by left.
Qed.

Lemma mod_ppl_keeps w p pl pl' :
  w_ppls w !! p = Some pl -> ppl_view pl' = ppl_view pl -> keeps w (with_ppls w (<[p := pl']> (w_ppls w))).
Proof.
  intros Hp Hv. split; [|done]. constructor; try done.
  - simpl. rewrite fmap_insert. apply insert_id. by rewrite lookup_fmap, Hp, Hv.
  - intros a d d' H1 H2. simpl in H2. simplify_eq. by left.
Qed.

Lemma mod_buf_keeps w b bf bf' :
  w_bufs w !! b = Some bf -> buf_view bf' = buf_view bf -> b_walking bf' = b_walking bf ->
  keeps w (with_bufs w (<[b := bf']> (w_bufs w))).
Proof.
  intros Hb Hv Hw. split.
  - constructor; try done.
    + simpl. rewrite fmap_insert. apply insert_id. by rewrite lookup_fmap, Hb, Hv.
    + intros a d d' H1 H2. simpl in H2. simplify_eq. by left.
  - simpl. rewrite fmap_insert. apply insert_id. by rewrite lookup_fmap, Hb, Hw.
Qed.

Lemma mod_dev_keeps w a d d' :
  w_devs w !! a = Some d -> dev_view d' = dev_view d ->
  d_pipeline d' = d_pipeline d ->
  keeps w (with_devs w (<[a := d']> (w_devs w))).
Proof.
  intros Ha Hv Hp. split; [|done]. constructor; try done.
  - simpl. rewrite fmap_insert. apply insert_id. by rewrite lookup_fmap, Ha, Hv.
  - intros x d1 d2 H1 H2. simpl in H2. destruct (decide (x = a)) as [->|Hne].
    + rewrite lookup_insert_eq in H2. simplify_eq. by left.
    + rewrite lookup_insert_ne in H2 by done. simplify_eq. by left.
Qed.

Lemma complete_ppl w a d : ready w -> complete w a -> w_devs w !! a = Some d -> exists pl, w_ppls w !! d_pipeline d = Some pl.
Proof. intros R (d' & Hd' & H0) Hd. simplify_eq. by apply (go_parent _ (rd_graph _ R) a). Qed.

Lemma op_frame_ready w w' a : op_frame w w' a -> ready w -> ready w'.
Proof. intros F R. eapply shape_ready; [apply F|apply F, R|done]. Qed.

(** The collected pipelines exist and are not driven by the timer. *)
Definition listed w : Prop :=
  Forall (fun p => exists pl, w_ppls w !! p = Some pl /\ pipeline_is_timer_driven pl = false) (w_pipelines w).

Lemma shape_listed w w' : shape w w' -> w_pipelines w' = w_pipelines w -> listed w -> listed w'.
Proof.
  intros S E. unfold listed. rewrite E. intros Hl. eapply Forall_impl; [exact Hl|]. intros p (pl & Hp & Ht).
  destruct (fmap_lookup _ _ _ _ _ (sh_ppls _ _ S) Hp) as (pl' & Hp' & [= _ _ _ _ E1 _ _ _ _ _ _]).
  exists pl'. split; [done|]. unfold pipeline_is_timer_driven in *. by rewrite E1.
Qed.

(** Changes below the components: memory, tasks, the status of pipelines, the
    collected pipelines and scheduler calls. *)
Record calm w w' : Prop := {
  cm_keeps : keeps w w';
  cm_devs : w_devs w' = w_devs w;
  cm_replies : replies w' = replies w;
  cm_alloc : al_inv (w_alloc w) -> al_inv (w_alloc w');
  cm_list : listed w -> listed w'
}.

#[global] Instance calm_preorder : PreOrder calm.
Proof.
  split; [by intros w|]. intros w1 w2 w3 [] []. constructor; [by trans w2|congruence..|auto|auto].
Qed.

Lemma calm_intro w w' :
  keeps w w' -> w_devs w' = w_devs w -> w_trace w' = w_trace w -> w_pipelines w' = w_pipelines w ->
  (al_inv (w_alloc w) -> al_inv (w_alloc w')) -> calm w w'.
Proof.
  intros K Ed Et El Ha. constructor; [done|done|by unfold replies; rewrite Et|done|].
  intros Hl. by eapply shape_listed; [apply K| |].
Qed.

Lemma calm_ready w w' : calm w w' -> ready w -> ready w'.
Proof. intros Q R. eapply shape_ready; [apply Q|apply Q, R|done]. Qed.

Lemma mod_ppl_calm w p pl pl' :
  w_ppls w !! p = Some pl -> ppl_view pl' = ppl_view pl -> calm w (with_ppls w (<[p := pl']> (w_ppls w))).
Proof. intros. apply calm_intro; try done. by eapply mod_ppl_keeps. Qed.

(** ** Allocation inside the operations *)

Lemma zalloc_ok w bytes :
  al_inv (w_alloc w) -> request_ok bytes 0 ->
  wp (zalloc bytes) w (fun w' p => calm w w' /\ w_ppls w' = w_ppls w /\
    (p = 0 \/ exists r, r ∈ al_live (w_alloc w') /\ covers r p bytes)).
Proof.
  intros Ha Hb. destruct (al_malloc_spec (w_alloc w) 0 SOF_MEM_CAPS_RAM bytes Ha Hb) as (a' & p & E & Ha' & Hp).
  unfold wp, zalloc. rewrite E. simpl. eexists _, p. split; [done|].
  destruct (p =? 0); (split_and!; [apply calm_intro; try done; by apply keeps_eq|done|]);
    (destruct Hp as [[? _]|[_ (r & Hl & Hc & _)]]; [by left|right; exists r; split; [simpl; rewrite Hl; by left|done]]).
Qed.

Lemma free_ok w p r :
  al_inv (w_alloc w) -> r ∈ al_live (w_alloc w) -> r.1 <= p < r.1 + r.2 ->
  wp (free p) w (fun w' _ => calm w w' /\ w_ppls w' = w_ppls w).
Proof.
  intros Ha Hr Hp. destruct (al_free_spec (w_alloc w) r p Ha Hr Hp) as (a' & E & Ha' & _).
  unfold wp, free. rewrite E. simpl. eexists _, tt. split; [done|].
  split; [apply calm_intro; try done; by apply keeps_eq|done].
Qed.

Section env.
Context (e : env A) `{!Drivers e}.

Lemma task_init_ok p pl type w :
  ready w -> w_ppls w !! p = Some pl ->
  wp (pipeline_task_init e p type) w (fun w' _ => calm w w' /\ w_ppls w' = w_ppls w).
Proof.
  intros R Hp. unfold pipeline_task_init. wp_step. pose proof dr_sizes as Hsz.
  eapply wp_mono; [by apply zalloc_ok; [apply R|]|]. intros w1 task (Q1 & E1 & Ht).
  case_if; [by wp_step|]. destruct Ht as [?|(r & Hr & Hc)]; [done|].
  pose proof (calm_ready _ _ Q1 R) as R1.
  wp_step. eapply wp_mono; [by apply dr_task_init|]. intros w1' ret ->. case_if.
  - wp_step. eapply wp_mono; [apply (free_ok w1 task r); [apply R1|done|]|].
    + destruct Hc, Hsz. lia.
    + intros w2 _ [Q2 E2]. wp_step. split; [by trans w1|congruence].
  - rewrite <- E1 in Hp. destruct (rd_ends _ R1 p pl Hp) as ((d & Hd & _) & _). repeat wp_step. done.
Qed.

Lemma comp_task_init_ok p pl w :
  ready w -> w_ppls w !! p = Some pl ->
  wp (pipeline_comp_task_init e p) w (fun w' r => calm w w').
Proof.
  intros R Hp. unfold pipeline_comp_task_init. repeat wp_step. case_if; [by wp_step|].
  repeat wp_step. eapply wp_mono; [by eapply task_init_ok|]. intros w1 task [Q1 E1].
  rewrite <- E1 in Hp. do 2 wp_step. set (w2 := with_ppls _ _).
  assert (calm w w2) by (trans w1; [done|by eapply mod_ppl_calm]).
  case_if; by wp_step.
Qed.

(** ** The dispatch of the component operations *)

Lemma comp_prepare_ok a w :
  ready w -> complete w a ->
  wp (comp_prepare e a) w (fun w' r => op_frame w w' a /\
    (state_of w' a = state_of w a \/ state_of w' a = Some COMP_STATE_PREPARE) /\
    (stops r = false -> reached (fun c => is_Some (ops_prepare (drv e c))) COMP_STATE_PREPARE w' a)).
Proof.
  intros R Hc. destruct Hc as (d & Hd & H0). assert (complete w a) as Hc by by exists d.
  unfold comp_prepare. do 2 wp_step. destruct (ops_prepare (drv e a)) as [f|] eqn:E.
  - assert (op_ok (if comp_is_remote e d then idc_prepare e a else f) a COMP_STATE_PREPARE) as H.
    { case_if; [apply dr_prepare_remote|by apply dr_prepare]. }
    eapply wp_mono; [by apply H|]. intros w' r (F & Hs & Hr). split_and!; [done..|]. right. auto.
  - wp_step. split_and!; [|by left|]; [by constructor|]. intros _. left. rewrite E. by intros [].
Qed.

Lemma improper_direction_ok d a dir w :
  ready w -> complete w a -> w_devs w !! a = Some d ->
  wp (improper_direction d dir) w (fun w' _ => w' = w).
Proof.
  intros R Hc Hd. destruct (complete_ppl w a d R Hc Hd) as [pl Hp].
  destruct (rd_ends _ R _ _ Hp) as (_ & _ & (sk & Hsk & _)). unfold improper_direction. by repeat wp_step.
Qed.

(** ** Walks with a start component *)

(** The walk has a complete start component, the command [cmd], and [n] replies
    have been sent. *)
Definition started (cmd : Z) (n : nat) w : Prop :=
  ready w /\ complete w (pd_start (w_data w)) /\ pd_cmd (w_data w) = cmd /\ replies w = n /\ listed w.

(** The components of the start component's pipeline. *)
Definition same_pipe w (c : Z) : Prop :=
  exists d s, w_devs w !! c = Some d /\ w_devs w !! pd_start (w_data w) = Some s /\ d_pipe_id d = d_pipe_id s.

Lemma shape_started cmd n w w' :
  shape w w' -> al_inv (w_alloc w') -> replies w' = replies w -> listed w' -> started cmd n w -> started cmd n w'.
Proof.
  intros S Ha En Hl (R & Hs & Hc & Hn & _). pose proof (sh_data _ _ S) as E. injection E as E1 E2 E3.
  split_and!; [by eapply shape_ready| |congruence..|done]. rewrite E1.
  eapply shape_complete; [done|apply R|done].
Qed.

Lemma shape_same_pipe w w' c : shape w w' -> same_pipe w c -> same_pipe w' c.
Proof.
  intros S (d & s & Hd & Hs & E). pose proof (sh_data _ _ S) as Ex. injection Ex as Ex _ _.
  destruct (fmap_lookup _ _ _ _ _ (sh_devs _ _ S) Hd) as (d' & Hd' & [= _ E1 _ _ _]).
  destruct (fmap_lookup _ _ _ _ _ (sh_devs _ _ S) Hs) as (s' & Hs' & [= _ E2 _ _ _]).
  exists d', s'. rewrite Ex. split_and!; [done..|congruence].
Qed.

Section steps.
Context (cmd : Z) (n : nat) (has : Z -> Prop) (s : Z).

Lemma calm_step w w' : calm w w' -> step (started cmd n) (reached has s) w w'.
Proof.
  intros Q. split; [apply Q|]. split.
  - intros HG. eapply shape_started; [apply Q|apply Q, HG|apply Q|apply Q, HG|done].
  - intros c. unfold reached, state_of. by rewrite (cm_devs _ _ Q).
Qed.

Lemma frame_step w w' a :
  op_frame w w' a -> state_of w' a = state_of w a \/ state_of w' a = Some s ->
  step (started cmd n) (reached has s) w w'.
Proof.
  intros F Hs. split; [apply F|]. split.
  - intros HG. eapply shape_started; [apply F|apply F, HG| | |done].
    + unfold replies. by rewrite (of_trace _ _ _ F).
    + eapply shape_listed; [apply F|apply F|apply HG].
  - intros c [Hc|Hc]; [by left|]. right. destruct (decide (c = a)) as [->|Hne].
    + destruct Hs as [E|E]; congruence.
    + by rewrite (of_others _ _ _ F).
Qed.

(** Flags do not matter. *)
Lemma flag_started w b bf v : w_bufs w !! b = Some bf -> started cmd n w -> started cmd n (flag w b bf v).
Proof.
  intros Hb HG. pose proof (flag_shape (fixed := true) w b bf v Hb) as S.
  eapply shape_started; [done|apply HG|done| |done]. by eapply shape_listed; [|done|apply HG].
Qed.

(** What a visit of a walk establishes. *)
Definition visit_post (rec : Z -> Z -> M A Z) (enters : world A -> Z -> Prop) w cur dir w' r : Prop :=
  step (started cmd n) (reached has s) w w' /\
  (stops r = false -> enters w cur -> reached has s w' cur /\
    exists w1 w2 r1, step (started cmd n) (reached has s) w w1 /\ rec cur dir w1 = Some (w2, r1) /\
      stops r1 = false /\ step (started cmd n) (reached has s) w2 w').
End steps.

Abbreviation prepared := (reached (fun c => is_Some (ops_prepare (drv e c))) COMP_STATE_PREPARE).

Section prepare.
Context (cmd : Z) (n : nat).
Abbreviation pstep := (step (started cmd n) prepared).

(** One visit of the prepare walk. *)
Lemma prepare_visit rec cur buf dir w d :
  started cmd n w -> w_devs w !! cur = Some d -> complete w cur ->
  (forall w1, pstep w w1 -> exists w2 r, rec cur dir w1 = Some (w2, r) /\ pstep w1 w2) ->
  wp (pipeline_comp_prepare e rec cur buf dir) w
    (visit_post cmd n (fun c => is_Some (ops_prepare (drv e c))) COMP_STATE_PREPARE rec same_pipe w cur dir).
Proof.
  intros (R & Hs & _) Hd Hc Hrec. pose proof Hs as (st & Hst & _).
  unfold pipeline_comp_prepare. repeat wp_step.
  assert (wp (if negb (comp_is_single_pipeline d st) then improper_direction d dir else mret false) w
    (fun w' stop => w' = w /\ (same_pipe w cur -> stop = false))) as Hstop.
  { destruct (comp_is_single_pipeline d st) eqn:E; simpl; [by wp_step|].
    eapply wp_mono; [by eapply improper_direction_ok|]. intros w' x ->. split; [done|].
    intros (d' & s' & ? & ? & Hpid). simplify_eq. unfold comp_is_single_pipeline in E. zbool. done. }
  eapply wp_mono; [exact Hstop|]. intros w' stop [-> Hsp]. cbv beta.
  destruct stop; [wp_step; split; [done|]; intros _ Hin; by specialize (Hsp Hin)|].
  destruct (complete_ppl w cur d R Hc Hd) as [pl Hp].
  wp_step. eapply wp_mono; [by eapply comp_task_init_ok|]. intros w1 err Q1.
  assert (pstep w w1) as S1 by by apply calm_step.
  case_if; [wp_step; split; [done|]; intros Hst1; unfold stops in Hst1; zbool; lia|].
  wp_step. eapply wp_mono; [apply comp_prepare_ok; [by apply (calm_ready w)|]|].
  { eapply shape_complete; [apply Q1|apply R|done]. }
  intros w2 err2 (F2 & Hmv & Hok). assert (pstep w w2) as S2 by (trans w1; [done|by eapply frame_step]).
  destruct (stops err2) eqn:Hstops; [wp_step; split; [done|congruence]|].
  destruct (Hrec w2 S2) as (w3 & r & Hr & S3).
  exists w3, r. split; [done|]. split; [by trans w2|].
  intros Hst3 _. split; [by apply S3, Hok|]. by exists w2, w3, r.
Qed.

Lemma prepare_contract dir : contract (prepare_ctx e) dir (started cmd n) same_pipe prepared.
Proof.
  constructor.
  - intros w [R _]. apply R.
  - intros w b bf v. apply flag_started.
  - intros w w' c. apply shape_same_pipe.
  - done.
  - intros f b w [= <-] _ [bf Hb].
    assert (wp (buffer_reset_pos_at b) w (fun w' _ => calm w w')) as (w' & [] & ? & Q).
    { unfold buffer_reset_pos_at. do 5 wp_step. repeat wp_step.
      trans (with_mem w (buffer_reset_pos (w_mem w) bf).1); [apply calm_intro; try done; by apply keeps_eq|].
      apply calm_intro; try done. by apply (mod_buf_keeps (with_mem w _) b bf). }
    exists w'. split; [done|by apply calm_step].
  - intros rec cur buf w HG [d Hd] Hc Hbuf Hrec. specialize (Hc eq_refl).
    by apply (prepare_visit rec cur buf dir w d).
Qed.
End prepare.

Section trigger.
Context (cmd : Z) (n : nat) (Hcmd : trigger_cmd cmd).
Abbreviation triggered := (reached (fun _ => True) (comp_get_requested_state cmd)).
Abbreviation tstep := (step (started cmd n) triggered).

(** The components of the start component's pipeline and of the pipelines that
    are scheduled with it. *)
Definition grouped w (c : Z) : Prop :=
  exists d s dp sp, w_devs w !! c = Some d /\ w_devs w !! pd_start (w_data w) = Some s /\
    w_ppls w !! d_pipeline d = Some dp /\ w_ppls w !! d_pipeline s = Some sp /\
    (d_pipe_id d = d_pipe_id s \/ p_sched_comp dp = p_sched_comp sp).

Lemma shape_parent w w' a d d' :
  shape w w' -> w_devs w !! a = Some d -> w_devs w' !! a = Some d' -> d_pipeline d' = d_pipeline d.
Proof. intros S H1 H2. by destruct (sh_parents _ _ S a d d' H1 H2) as [|[? _]]. Qed.

Lemma shape_grouped w w' c : shape w w' -> grouped w c -> grouped w' c.
Proof.
  intros S (d & s & dp & sp & Hd & Hs & Hdp & Hsp & E).
  pose proof (sh_data _ _ S) as Ex. injection Ex as Ex _ _.
  destruct (fmap_lookup _ _ _ _ _ (sh_devs _ _ S) Hd) as (d' & Hd' & [= _ E1 _ _ _]).
  destruct (fmap_lookup _ _ _ _ _ (sh_devs _ _ S) Hs) as (s' & Hs' & [= _ E2 _ _ _]).
  destruct (fmap_lookup _ _ _ _ _ (sh_ppls _ _ S) Hdp) as (dp' & Hdp' & [= _ E3 _ _ _ _ _ _ _ _ _]).
  destruct (fmap_lookup _ _ _ _ _ (sh_ppls _ _ S) Hsp) as (sp' & Hsp' & [= _ E4 _ _ _ _ _ _ _ _ _]).
  exists d', s', dp', sp'. rewrite Ex, (shape_parent w w' c d d'), (shape_parent w w' (pd_start (w_data w)) s s') by done.
  split_and!; [done..|]. by rewrite E1, E2, E3, E4.
Qed.

Lemma comp_trigger_ok a w :
  ready w -> complete w a ->
  wp (comp_trigger e a cmd) w (fun w' r => op_frame w w' a /\
    (state_of w' a = state_of w a \/ state_of w' a = Some (comp_get_requested_state cmd)) /\
    (stops r = false -> state_of w' a = Some (comp_get_requested_state cmd))).
Proof.
  intros R Hc. pose proof Hc as (d & Hd & H0). unfold comp_trigger. do 2 wp_step.
  destruct (dr_trigger a) as (f & -> & Hf).
  assert (op_ok (if comp_is_remote e d then idc_trigger e a cmd else f cmd) a (comp_get_requested_state cmd)) as H.
  { case_if; [by apply dr_trigger_remote|by apply Hf]. }
  by apply H.
Qed.

Lemma enodata_ok rsrc dir w :
  ready w -> complete w (pd_start (w_data w)) ->
  wp (pipeline_should_report_enodata_on_trigger rsrc dir) w (fun w' _ => w' = w).
Proof.
  intros R Hs. pose proof Hs as (s & Hst & _). destruct (complete_ppl w _ s R Hs Hst) as [sp Hsp].
  unfold pipeline_should_report_enodata_on_trigger. repeat wp_step.
  case_if; [by wp_step|]. case_if; [by wp_step|]. wp_step.
  destruct (rd_ends _ R _ _ Hsp) as (_ & (src & Hsrc & _) & _).
  eapply wp_mono with (P := fun w' _ => w' = w).
  - case_if; [by wp_step|]. by repeat wp_step.
  - intros w' b ->. case_if; by wp_step.
Qed.

Lemma trigger_sched_ok p pl a d w :
  ready w -> w_ppls w !! p = Some pl -> w_devs w !! a = Some d ->
  wp (pipeline_comp_trigger_sched_comp p a) w (fun w' _ =>
    w' = w \/ w' = with_pipelines w (append_item p (w_pipelines w))).
Proof.
  intros R Hp Hd. destruct (rd_ends _ R _ _ Hp) as (Hsc & _ & (sk & Hsk & _)).
  pose proof Hsc as (sc & Hscd & _). destruct (complete_ppl w _ sc R Hsc Hscd) as [scp Hscp].
  unfold pipeline_comp_trigger_sched_comp. repeat wp_step.
  eapply wp_mono with (P := fun w' _ => w' = w).
  - case_if; [by wp_step|]. repeat wp_step. case_if; [by wp_step|]. by repeat wp_step.
  - intros w' b ->. case_if; wp_step; [by left|by right].
Qed.

Lemma append_item_Forall (P : Z -> Prop) p l : P p -> Forall P l -> Forall P (append_item p l).
Proof. intros Hp. induction 1; simpl; [by constructor|]. case_if; by constructor. Qed.

Lemma append_calm w p pl :
  w_ppls w !! p = Some pl -> pipeline_is_timer_driven pl = false ->
  calm w (with_pipelines w (append_item p (w_pipelines w))).
Proof.
  intros Hp Ht. constructor; try done; [by apply keeps_eq|].
  intros Hl. apply append_item_Forall; [by exists pl|done].
Qed.

(** The bookkeeping after a component was triggered. *)
Lemma trigger_after_ok (halt : bool) p cp a d w (k : M A Z) P :
  ready w -> w_ppls w !! p = Some cp -> w_devs w !! a = Some d ->
  (forall w', calm w w' -> wp k w' P) ->
  wp ((if halt && pipeline_is_timer_driven cp then mod_ppl p (set_status COMP_STATE_PAUSED) else mret tt) ≫=
      fun _ => (if pipeline_is_timer_driven cp then mret tt else pipeline_comp_trigger_sched_comp p a) ≫=
      fun _ => k) w P.
Proof.
  intros R Hp Hd Hk. wp_step. destruct (halt && pipeline_is_timer_driven cp) eqn:E.
  - apply andb_true_iff in E as [_ E]. rewrite E. do 3 wp_step. apply Hk. by eapply mod_ppl_calm.
  - do 2 wp_step. case_if; [wp_step; by apply Hk|]. eapply wp_mono; [by eapply trigger_sched_ok|].
    intros w' _ [->| ->]; apply Hk; [done|by eapply append_calm].
Qed.

Lemma known_cmd :
  negb ((cmd =? COMP_TRIGGER_PRE_RELEASE) || (cmd =? COMP_TRIGGER_PRE_START)) &&
  negb ((cmd =? COMP_TRIGGER_PAUSE) || (cmd =? COMP_TRIGGER_STOP)) &&
  negb ((cmd =? COMP_TRIGGER_RELEASE) || (cmd =? COMP_TRIGGER_START)) = false.
Proof.
  unfold trigger_cmd in Hcmd. rewrite !elem_of_cons, elem_of_nil in Hcmd.
  destruct Hcmd as [->|[->|[->|[->|[->|[->|[]]]]]]]; done.
Qed.

Lemma delay_ok (b : bool) ms w :
  wp (if b then set_delay_ms ms else mret tt) w (fun w' _ => calm w w' /\
    w_ppls w' = w_ppls w /\ pd_start (w_data w') = pd_start (w_data w)).
Proof.
  destruct b; [|by wp_step]. eexists _, tt. split; [done|]. split_and!; [|done..].
  apply calm_intro; try done. by apply keeps_eq.
Qed.

(** One visit of the trigger walk. *)
Lemma trigger_visit rec cur buf dir w d :
  started cmd n w -> w_devs w !! cur = Some d -> complete w cur ->
  (forall w1, tstep w w1 -> exists w2 r, rec cur dir w1 = Some (w2, r) /\ tstep w1 w2) ->
  wp (pipeline_comp_trigger e rec cur buf dir) w
    (visit_post cmd n (fun _ => True) (comp_get_requested_state cmd) rec grouped w cur dir).
Proof.
  intros (R & Hs & Hdc & _) Hd Hc Hrec. pose proof Hs as (st & Hst & _).
  destruct (complete_ppl w cur d R Hc Hd) as [cp Hcp].
  destruct (complete_ppl w _ st R Hs Hst) as [sp Hsp].
  unfold pipeline_comp_trigger. do 6 wp_step. rewrite Hdc, known_cmd.
  wp_step. eapply wp_mono; [apply delay_ok|]. intros w1 _ (C1 & Ep & Es).
  assert (tstep w w1) as S1 by by apply calm_step.
  pose proof (calm_ready _ _ C1 R) as R1. rewrite <- Ep in Hcp, Hsp. rewrite <- (cm_devs _ _ C1) in Hd, Hst.
  do 4 wp_step.
  destruct (negb (comp_is_single_pipeline d st) && negb (pipeline_is_same_sched_comp cp sp)) eqn:Hout.
  { wp_step. eapply wp_mono; [apply enodata_ok; [done|]|].
    - rewrite Es. eapply shape_complete; [apply C1|apply R|done].
    - intros w' x ->. wp_step. split; [done|]. intros _ (d' & s' & dp & sp' & Hd' & Hs' & Hdp & Hsp' & E).
      rewrite <- (cm_devs _ _ C1) in Hd', Hs'. rewrite <- Ep in Hdp, Hsp'. simplify_eq.
      unfold comp_is_single_pipeline, pipeline_is_same_sched_comp in Hout. zbool. lia. }
  wp_step. eapply wp_mono; [apply comp_trigger_ok; [done|]|].
  { eapply shape_complete; [apply C1|apply R|done]. }
  intros w2 err (F2 & Hmv & Hok).
  assert (tstep w w2) as S2 by (trans w1; [done|by eapply frame_step]).
  rewrite <- (of_ppls _ _ _ F2) in Hcp.
  destruct (Z.ltb_spec err 0) as [Hneg|Hpos].
  { wp_step. split; [done|]. intros Hst'. unfold stops in Hst'. zbool. lia. }
  destruct (Z.eqb_spec err PPL_STATUS_PATH_STOP) as [->|Hne].
  { repeat wp_step. split; [|done]. trans w2; [done|]. by eapply calm_step, mod_ppl_calm. }
  destruct (fmap_lookup _ _ _ _ _ (sh_devs _ _ (proj1 (of_keeps _ _ _ F2))) Hd) as (d2 & Hd2 & _).
  eapply trigger_after_ok; [by eapply op_frame_ready|done..|]. intros w3 C3.
  assert (tstep w w3) as S3 by (trans w2; [done|by apply calm_step]).
  destruct (Hrec w3 S3) as (w4 & r & Hr & S4).
  exists w4, r. split; [done|]. split; [by trans w3|]. intros Hst4 _. split.
  - apply S4. right. unfold state_of. rewrite (cm_devs _ _ C3). apply Hok. unfold stops. zbool.
    apply orb_false_iff. split; [by apply Z.ltb_ge|by apply Z.eqb_neq].
  - by exists w3, w4, r.
Qed.

Lemma trigger_contract dir : contract (trigger_ctx e) dir (started cmd n) grouped triggered.
Proof.
  constructor; try done.
  - intros w [R _]. apply R.
  - intros w b bf v. apply flag_started.
  - intros w w' c. apply shape_grouped.
  - intros rec cur buf w HG [d Hd] Hc Hbuf Hrec. specialize (Hc eq_refl).
    by apply (trigger_visit rec cur buf dir w d).
Qed.
End trigger.

(** ** Operations *)

(** The components reached from a component through buffers and complete
    components that satisfy [ok]. *)
Inductive connected (w : world A) (dir : Z) (ok : comp_dev -> Prop) : Z -> Z -> Prop :=
| connected_here c : connected w dir ok c c
| connected_next cur d b bf dc c :
    w_devs w !! cur = Some d -> b ∈ comp_buffer_list d dir -> w_bufs w !! b = Some bf ->
    buffer_get_comp bf dir <> 0 -> w_devs w !! buffer_get_comp bf dir = Some dc ->
    d_pipeline dc <> 0 -> ok dc -> connected w dir ok (buffer_get_comp bf dir) c ->
    connected w dir ok cur c.

Lemma connected_path ctx dir (enters : world A -> Z -> Prop) ok w w0 start c :
  w_devs w0 = w_devs w -> w_bufs w0 = w_bufs w ->
  (forall a d, w_devs w !! a = Some d -> d_pipeline d <> 0 -> ok d -> enters w0 a) ->
  connected w dir ok start c -> exists bs, path ctx dir enters w0 start bs c.
Proof.
  intros Ed Eb He. induction 1 as [c|cur d b bf dc c Hd Hb Hbf H0 Hdc Hp Hok _ [bs IH]].
  - exists []. constructor.
  - exists (b :: bs). apply (path_next ctx dir enters w0 cur d b (buffer_get_comp bf dir)); try done.
    + by rewrite Ed.
    + exists bf. rewrite Eb. split_and!; [done..|]. intros _. exists dc. by rewrite Ed.
    + by eapply He.
Qed.

Definition no_flags w : Prop := forall b bf, w_bufs w !! b = Some bf -> b_walking bf = false.

Lemma started_with data w :
  ready w -> complete w (pd_start data) ->
  started (pd_cmd data) (replies w) (with_pipelines (with_data w data) []).
Proof.
  intros [G E N Al] Hc. split_and!; [|done..|by constructor]. by constructor; [destruct G; constructor|..].
Qed.

(** The end of a frame restores the data of the caller. *)
Lemma keeps_frame w w' data :
  keeps (with_pipelines (with_data w data) []) w' ->
  keeps w (with_pipelines (with_data w' (w_data w)) (w_pipelines w)).
Proof. intros [[Hd Hb Hp _ Hq] Hw]. by split; [constructor|]. Qed.

Definition status_of w (p : Z) : option Z := p_status <$> w_ppls w !! p.

(** ** The scheduling of collected pipelines *)

Lemma emit_calm ev w : is_reply ev = false -> wp (emit ev) w (fun w' _ => calm w w' /\ w_ppls w' = w_ppls w).
Proof.
  intros Hev. eexists _, tt. split; [done|]. split; [|done]. constructor; try done; [by apply keeps_eq|].
  unfold replies. simpl. rewrite List.filter_app. simpl. by rewrite Hev, app_nil_r.
Qed.

Lemma schedule_copy_ok p pl start w :
  ready w -> w_ppls w !! p = Some pl -> wp (pipeline_schedule_copy e p start) w (fun w' _ => calm w w').
Proof.
  intros R Hp. unfold pipeline_schedule_copy. repeat wp_step.
  assert (forall q, q = p_sched_next pl \/ q = p_sched_prev pl -> forall w1, w_ppls w1 = w_ppls w ->
    wp (neighbour_active e q) w1 (fun w' b => w' = w1 /\ (b = true -> is_ppl w q))) as Hn.
  { intros q Hq w1 E1. unfold neighbour_active. case_if; [by wp_step|].
    destruct (rd_neighbours _ R p pl q Hp Hq) as [ql Hql]; [done|]. rewrite <- E1 in Hql.
    repeat wp_step. eapply wp_mono; [apply dr_active|]. intros w' b ->. split; [done|].
    intros _. exists ql. by rewrite <- E1. }
  apply wp_mono with (P := fun w1 _ => calm w w1 /\ w_ppls w1 = w_ppls w).
  { case_if; [by wp_step|by apply emit_calm]. }
  intros w1 _ [C1 E1]. wp_step. eapply wp_mono; [by apply Hn; [left|]|]. intros w1' next [-> Hnx].
  destruct next.
  { destruct (Hnx eq_refl) as [ql Hql]. rewrite <- E1 in Hql. repeat wp_step.
    eapply wp_mono; [by apply emit_calm|]. intros w2 _ [C2 _]. by trans w1. }
  wp_step. eapply wp_mono; [by apply Hn; [right|]|]. intros w1' prev [-> Hpv]. destruct prev.
  - destruct (Hpv eq_refl) as [ql Hql]. rewrite <- E1 in Hql. repeat wp_step.
    eapply wp_mono; [by apply emit_calm|]. intros w2 _ [C2 _]. by trans w1.
  - eapply wp_mono; [by apply emit_calm|]. intros w2 _ [C2 _]. by trans w1.
Qed.

Lemma for_pipelines_ok f l w :
  ready w -> Forall (fun p => exists pl, w_ppls w !! p = Some pl /\ pipeline_is_timer_driven pl = false) l ->
  (forall p pl w1, ready w1 -> w_ppls w1 !! p = Some pl -> pipeline_is_timer_driven pl = false ->
     wp (f p) w1 (fun w' _ => calm w1 w')) ->
  wp (for_pipelines f l) w (fun w' _ => calm w w').
Proof.
  intros R Hl Hf. revert w R Hl. induction l as [|p l IH]; intros w R Hl; simpl; [by wp_step|].
  apply list.Forall_cons in Hl as [(pl & Hp & Ht) Hl]. wp_step.
  eapply wp_mono; [by eapply Hf|]. intros w1 [] C1. eapply wp_mono; [apply IH|].
  - by apply (calm_ready w).
  - change (listed (with_pipelines w1 l)). eapply (shape_listed (with_pipelines w l)); [|done|done].
    destruct (cm_keeps _ _ C1) as [[Hd Hb Hq Hx Hr] _]. by constructor.
  - intros w2 [] C2. by trans w1.
Qed.

Lemma schedule_triggered_ok cmd w :
  ready w -> listed w -> wp (pipeline_schedule_triggered e cmd) w (fun w' _ => calm w w').
Proof.
  intros R Hl. unfold pipeline_schedule_triggered. repeat wp_step.
  case_if; [|case_if; [|case_if; [|by wp_step]]]; (apply for_pipelines_ok; [done|done|]);
    intros p pl w1 R1 Hp Ht.
  - unfold schedule_stop. repeat wp_step. rewrite Ht. simpl. unfold pipeline_schedule_cancel. repeat wp_step.
    eapply wp_mono; [by apply emit_calm|]. intros w2 _ [C2 E2].
    eapply wp_mono; [by apply emit_calm|]. intros w3 _ [C3 E3]. rewrite <- E2, <- E3 in Hp. wp_step.
    trans w3; [by trans w2|]. by eapply mod_ppl_calm.
  - unfold schedule_start. repeat wp_step. set (w2 := with_ppls w1 _).
    assert (calm w1 w2) as C2 by by eapply mod_ppl_calm.
    assert (w_ppls w2 !! p = Some (set_xrun 0 pl)) as Hp2 by apply lookup_insert_eq.
    repeat wp_step. assert (pipeline_is_timer_driven (set_xrun 0 pl) = false) as -> by done.
    wp_step. set (w3 := with_ppls w2 _).
    assert (calm w2 w3) as C3 by by eapply mod_ppl_calm.
    eapply wp_mono; [eapply (schedule_copy_ok p); [|apply lookup_insert_eq]|].
    + apply (calm_ready w1); [by trans w2|done].
    + intros w4 [] C4. trans w3; [by trans w2|done].
  - unfold schedule_xrun. wp_step. eapply mod_ppl_calm; [done|]. by case_if.
Qed.

(** C6: [pipeline_prepare] ends on every graph without dangling pointers, cyclic
    ones included, and leaves the graph and all walking flags as they were. Unless
    it returns an error, the pipeline's status is then "prepare". When the walk
    was not stopped, every component with a prepare operation that
    is connected to the start in its direction within its pipeline is prepared. *)
Theorem pipeline_prepare_all (fuel : nat) (data0 : pipeline_data) (p dev : Z) (d : comp_dev) (w : world A) :
  ready w -> w_devs w !! dev = Some d -> d_pipeline d <> 0 -> is_ppl w p -> no_flags w ->
  (size (w_bufs w) < fuel)%nat ->
  exists w' r, pipeline_prepare e fuel data0 p dev w = Some (w', r) /\ keeps w w' /\
    (0 <= r -> status_of w' p = Some COMP_STATE_PREPARE) /\
    (stops r = false ->
      forall c, connected w (d_direction d) (fun dc => d_pipe_id dc = d_pipe_id d) dev c ->
      reached (fun c => is_Some (ops_prepare (drv e c))) COMP_STATE_PREPARE w' c).
Proof.
  intros R Hd H0 Hp Hnf Hf. apply wp_frame. repeat wp_step. unfold walk_with. repeat wp_step.
  set (data := start_data data0 dev (pd_p data0)). set (w0 := with_pipelines (with_data w data) []).
  assert (started _ _ w0) as HG by (apply started_with; [done|by exists d]).
  destruct (walk_spec _ _ _ _ _ (prepare_contract (pd_cmd data) (replies w) (d_direction d)) fuel w0 dev)
    as (w1 & r & Hr & (K1 & HG1 & _) & Hcov); [done|by exists d|by exists d| |done|].
  { pose proof (open_buffers_size w0). simpl in *. lia. }
  eexists w1, r. split; [exact Hr|].
  assert (stops r = false -> forall c, connected w (d_direction d) (fun dc => d_pipe_id dc = d_pipe_id d) dev c ->
    prepared w1 c) as Hall.
  { intros Hst c Hc. eapply connected_path in Hc as [bs Hpath];
      [eapply (Hcov Hst); [by exists d, d|exact Hpath]|done|done|].
    intros a da Ha _ Hok. by exists da, d. }
  case_if; wp_step.
  - split_and!; [by eapply keeps_frame|lia|done].
  - destruct (shape_is_ppl (fixed := true) w0 w1 p) as [pl Hpl]; [apply K1|done|]. repeat wp_step.
    split_and!; [| |done].
    + eapply (keeps_frame w _ data). trans w1; [done|by eapply mod_ppl_keeps].
    + intros _. unfold status_of. simpl. by rewrite lookup_insert_eq.
Qed.
End env.
End drivers.

(** ** A driver that follows the contract *)

(** The usual driver: [comp_set_state] decides; a state that is already set stops
    the walk. *)
Definition state_op {A} (a cmd : Z) : M A Z :=
  d ← get_dev a;
  let r := comp_set_state (d_state d) cmd in
  mod_dev a (set_state r.1) ;;
  mret (if r.2 <? 0 then r.2 else if r.2 =? COMP_STATUS_STATE_ALREADY_SET then PPL_STATUS_PATH_STOP else 0).

Definition state_ops {A} (a : Z) : comp_ops A :=
  mk_ops None None (Some (state_op a)) (Some (state_op a COMP_TRIGGER_PREPARE))
    (Some (state_op a COMP_TRIGGER_RESET)) (Some (mret 0)).

Definition state_env {A} : env A :=
  mk_env state_ops 0 (fun a p => mret 0) state_op (fun a => state_op a COMP_TRIGGER_PREPARE)
    (fun a => state_op a COMP_TRIGGER_RESET) (fun _ => 0) (fun _ n => mret n) (fun _ n => mret n)
    (fun _ _ _ => mret 0) (fun _ => mret false) 64 32 16 16.

(** The commands that change the state. *)
Lemma comp_set_state_done s cmd s' :
  trigger_cmd cmd \/ cmd = COMP_TRIGGER_PREPARE \/ cmd = COMP_TRIGGER_RESET ->
  comp_set_state s cmd = (s', 0) -> s' = comp_get_requested_state cmd.
Proof.
  unfold trigger_cmd. rewrite !elem_of_cons, elem_of_nil.
  intros [[->|[->|[->|[->|[->|[->|[]]]]]]]|[->| ->]]; unfold comp_set_state; cbn;
    repeat case_if; intros [= <-]; done.
Qed.

Lemma state_op_ok {A} `{!Allocator A} (a cmd : Z) :
  trigger_cmd cmd \/ cmd = COMP_TRIGGER_PREPARE \/ cmd = COMP_TRIGGER_RESET ->
  op_ok (A := A) (state_op a cmd) a (comp_get_requested_state cmd).
Proof.
  intros Hcmd w R (d & Hd & H0). unfold state_op. repeat wp_step.
  destruct (comp_set_state (d_state d) cmd) as [s' r] eqn:E. simpl.
  assert (forall c, state_of (with_devs w (<[a := set_state s' d]> (w_devs w))) c =
    if decide (c = a) then Some s' else state_of w c) as Hst.
  { intros c. unfold state_of. simpl. case_decide as Hc; [subst; by rewrite lookup_insert_eq|].
    by rewrite lookup_insert_ne by done. }
  split_and!.
  - constructor; try done; [by eapply mod_dev_keeps|]. intros c Hc. rewrite Hst. by rewrite decide_False.
  - rewrite Hst, decide_True by done. pose proof E as E'.
    apply comp_set_state_edge in E' as [[_ ->]|[-> _]]; [right; f_equal; by eapply comp_set_state_done|].
    left. unfold state_of. by rewrite Hd.
  - rewrite Hst, decide_True by done. intros Hs. f_equal.
    apply (comp_set_state_done (d_state d)); [done|]. rewrite E. f_equal.
    assert (r = 0 \/ r < 0 \/ r = 1) as Hr.
    { destruct (comp_state_cases (d_state d) cmd) as [H|[H|H]]; rewrite E in H; simpl in H; auto. }
    destruct Hr as [|[Hr| ->]]; [done| |done]. rewrite (proj2 (Z.ltb_lt _ _) Hr) in Hs. unfold stops in Hs.
    rewrite (proj2 (Z.ltb_lt _ _) Hr) in Hs. done.
Qed.

#[global] Instance state_drivers {A} `{!Allocator A} : Drivers (A := A) state_env.
Proof.
  constructor.
  - intros a. eexists. split; [done|]. intros cmd Hcmd. apply state_op_ok. by left.
  - intros a cmd Hcmd. apply state_op_ok. by left.
  - intros a f [= <-]. apply (state_op_ok a COMP_TRIGGER_PREPARE). auto.
  - intros a. apply (state_op_ok a COMP_TRIGGER_PREPARE). auto.
  - intros a f [= <-]. apply (state_op_ok a COMP_TRIGGER_RESET). auto.
  - intros a. apply (state_op_ok a COMP_TRIGGER_RESET). auto.
  - intros a. eexists. split; [done|]. intros w R Hc. by exists w, 0.
  - intros task type p w R. by exists w, 0.
  - intros task w. by exists w, false.
  - apply request_okb_ok. done.
Qed.

(** ** A small pipeline: host, volume, DAI, and a variant with a feedback loop *)

Definition demo_dev (id pid dir type : Z) (sources sinks : list Z) : comp_dev :=
  mk_dev COMP_STATE_READY 0 pid 1000 0 false id 1 type 0 dir sources sinks.

Definition demo_buf (id source sink : Z) : comp_buffer :=
  set_comps source sink (zero_buffer id).

Definition demo_ppl (status : Z) (tr : trigger) : pipeline :=
  mk_pipeline 0 1 0 0 1000 0 0 0 0 SOF_TIME_DOMAIN_TIMER 0 status 0 0 0 1 1 3 0 0 tr.

Definition demo_world_of (loop : list Z) (tr : trigger) : world mm := mk_world
  {[1 := demo_dev 1 50 0 SOF_COMP_HOST loop [100]; 2 := demo_dev 2 50 0 5 [100] [101];
    3 := demo_dev 3 50 0 SOF_COMP_DAI [101] loop]}
  {[100 := demo_buf 100 1 2; 101 := demo_buf 101 2 3; 102 := demo_buf 102 3 1]}
  {[50 := demo_ppl COMP_STATE_READY tr]}
  (fun _ => 0) demo_mm [] ∅
  (mk_data 0 (mk_params 0 0 0 0 0 []) (mk_posn 0 0 0 0 []) 0 0 0) [] [].

Definition demo_world : world mm := demo_world_of [] (mk_trigger COMP_TRIGGER_NO_ACTION 0 0 false).

#[local] Instance demo_allocator : Allocator mm := heap_allocator baytrail baytrail_dcache 4096 65536.

(** The entries of a small map. *)
Ltac small_map H :=
  repeat (apply lookup_insert_Some in H as [[<- <-]|[_ H]]);
  first [apply lookup_singleton_Some in H as [<- <-]|by rewrite lookup_empty in H|idtac].

Lemma demo_ready tr : ready (demo_world_of [] tr).
Proof.
  assert (forall a, a = 1 \/ a = 2 \/ a = 3 -> complete (demo_world_of [] tr) a) as Hd.
  { intros a [->|[->| ->]]; eexists; split; try reflexivity; done. }
  constructor.
  - constructor.
    + intros a d b Ha Hb. simpl in Ha. small_map Ha; simpl in Hb; set_unfold; destruct_or!; subst; first [done|by eexists].
    + intros a b c Ha Hc H0. simpl in Ha. destruct (Hd c) as (d & ? & _); [|by exists d].
      small_map Ha; simpl in Hc; lia.
    + intros a d Ha _. simpl in Ha. small_map Ha; by eexists.
    + by intros [].
  - intros p pl Hp. simpl in Hp. small_map Hp. simpl. split_and!; apply Hd; auto.
  - intros p pl q Hp Hq H0. simpl in Hp. small_map Hp. simpl in Hq. lia.
  - apply demo_mm_single.
Qed.

Lemma demo_no_flags tr : no_flags (demo_world_of [] tr).
Proof. intros b bf Hb. simpl in Hb. small_map Hb; done. Qed.

(** The states of the components after an operation, and its result. *)
Definition outcome (r : option (world mm * Z)) : option (Z * list (option Z)) :=
  x ← r; Some (x.2, (state_of x.1) <$> [1; 2; 3]).

Lemma pipeline_prepare_all_witness :
  outcome (pipeline_prepare state_env 4 (w_data demo_world) 50 1 demo_world) =
    Some (0, [Some COMP_STATE_PREPARE; Some COMP_STATE_PREPARE; Some COMP_STATE_PREPARE]) /\
  forall w' r, pipeline_prepare state_env 4 (w_data demo_world) 50 1 demo_world = Some (w', r) -> keeps demo_world w'.
Proof.
  split; [vm_compute; reflexivity|].
  edestruct (pipeline_prepare_all state_env 4 (w_data demo_world) 50 1
    (demo_dev 1 50 0 SOF_COMP_HOST [] [100]) demo_world) as (w' & r & H & K & _);
    [apply demo_ready|reflexivity|done|by eexists|apply demo_no_flags|vm_compute; lia|].
  intros w1 r1 H1. rewrite H in H1. by injection H1 as <- <-.
Defined.

(** With a feedback loop the walk ends at the first component prepared already. *)
Example prepare_feedback_loop :
  outcome (pipeline_prepare state_env 4 (w_data demo_world) 50 1
    (demo_world_of [102] (mk_trigger COMP_TRIGGER_NO_ACTION 0 0 false))) =
  Some (PPL_STATUS_PATH_STOP, [Some COMP_STATE_PREPARE; Some COMP_STATE_PREPARE; Some COMP_STATE_PREPARE]).
Proof. vm_compute. reflexivity. Qed.

(** A component whose state is set already ends the walk for its siblings too:
    the second branch of this demultiplexer stays unprepared, while the pipeline
    is marked as prepared. *)
Definition demo_fork : world mm := mk_world
  {[1 := demo_dev 1 50 0 SOF_COMP_HOST [] [100; 101]; 2 := set_state COMP_STATE_PREPARE (demo_dev 2 50 0 5 [100] []);
    3 := demo_dev 3 50 0 SOF_COMP_DAI [101] []]}
  {[100 := demo_buf 100 1 2; 101 := demo_buf 101 1 3]}
  (w_ppls demo_world) (w_mem demo_world) (w_alloc demo_world) (w_posn demo_world) ∅ (w_data demo_world) [] [].

Example prepare_skips_branch :
  outcome (pipeline_prepare state_env 4 (w_data demo_world) 50 1 demo_fork) =
    Some (PPL_STATUS_PATH_STOP, [Some COMP_STATE_PREPARE; Some COMP_STATE_PREPARE; Some COMP_STATE_READY]) /\
  (x ← pipeline_prepare state_env 4 (w_data demo_world) 50 1 demo_fork; status_of x.1 50) =
    Some COMP_STATE_PREPARE.
Proof. vm_compute. by split. Qed.
