(* ===== verification/PipelineTask.v ===== *)
(** * Triggers and the pipeline task

    What [pipeline_trigger_run] does to the components, and what
    [pipeline_task] does with the commands it is handed. *)

From stdpp Require Import base list numbers option gmap sets.
From S2P Require Import Prelude StateM AudioStream Heap HeapZones Allocator Buffer CompState Pipeline PipelineOps PipelineWalk PipelineThms.

Section task.
Context {A : Type} `{!Allocator A} (e : env A) `{!Drivers e} (fuel : nat) (data0 : pipeline_data).
Implicit Types w : world A.

(** States between the operations. *)
Record idle w : Prop := {
  id_ready : ready w;
  id_flags : no_flags w;
  id_fuel : (size (w_bufs w) < fuel)%nat
}.

Lemma keeps_idle w w' : keeps w w' -> al_inv (w_alloc w') -> idle w -> idle w'.
Proof.
  intros [S E] Ha [R Hf Hn]. constructor; [by eapply shape_ready| |].
  - intros b bf Hb. destruct (fmap_lookup_r _ _ _ _ _ E Hb) as (bf' & Hb' & Hw). rewrite Hw. by eapply Hf.
  - apply (f_equal size) in E. rewrite !map_size_fmap in E. lia.
Qed.

Lemma idle_with w data l : idle w -> idle (with_pipelines (with_data w data) l).
Proof. intros [[[G1 G2 G3 G4] En Nb Al] Hf Hn]. constructor; [|done..]. by constructor; [constructor|..]. Qed.

(** A change of a pipeline that is not structural. *)
Lemma idle_mod_ppl w p pl pl' :
  w_ppls w !! p = Some pl ->
  (p_sched_comp pl', p_source_comp pl', p_sink_comp pl', p_sched_next pl', p_sched_prev pl') =
  (p_sched_comp pl, p_source_comp pl, p_sink_comp pl, p_sched_next pl, p_sched_prev pl) ->
  idle w -> idle (with_ppls w (<[p := pl']> (w_ppls w))).
Proof.
  intros Hp [= E1 E2 E3 E4 E5] [[G En Nb Al] Hf Hn].
  assert (forall q, is_ppl (with_ppls w (<[p := pl']> (w_ppls w))) q <-> is_ppl w q) as Hq.
  { intros q. unfold is_ppl. simpl. rewrite lookup_insert_is_Some. split; [intros [<-|[_ ?]]; [by exists pl|done]|].
    intros Hq. destruct (decide (p = q)); auto. }
  assert (forall q ql, <[p := pl']> (w_ppls w) !! q = Some ql -> exists ql0, w_ppls w !! q = Some ql0 /\
    p_sched_comp ql = p_sched_comp ql0 /\ p_source_comp ql = p_source_comp ql0 /\ p_sink_comp ql = p_sink_comp ql0 /\
    p_sched_next ql = p_sched_next ql0 /\ p_sched_prev ql = p_sched_prev ql0) as Hl.
  { intros q ql Hl. destruct (decide (p = q)) as [<-|Hne].
    - rewrite lookup_insert_eq in Hl. simplify_eq. exists pl. split_and!; congruence.
    - rewrite lookup_insert_ne in Hl by done. by exists ql. }
  constructor; [|done|done]. constructor; [| | |done].
  - destruct G as [G1 G2 G3 G4]. constructor; [done|done| |by rewrite Hq].
    intros a d Hd H0. apply Hq. by apply (G3 a).
  - intros q ql Hql. destruct (Hl q ql Hql) as (ql0 & H0 & -> & -> & -> & _). by apply En with q.
  - intros q ql x Hql Hx H0. destruct (Hl q ql Hql) as (ql0 & Hq0 & _ & _ & _ & E6 & E7).
    apply Hq. apply (Nb q ql0); [done| |done]. by rewrite <- E6, <- E7.
Qed.

(** ** One walk of a trigger *)

Definition group (w : world A) (h : comp_dev) (dc : comp_dev) : Prop :=
  d_pipe_id dc = d_pipe_id h \/
  exists dp hp, w_ppls w !! d_pipeline dc = Some dp /\ w_ppls w !! d_pipeline h = Some hp /\
    p_sched_comp dp = p_sched_comp hp.

Lemma trigger_walk_ok cmd data host h w :
  trigger_cmd cmd -> idle w -> w_devs w !! host = Some h -> d_pipeline h <> 0 ->
  pd_start data = host -> pd_cmd data = cmd ->
  wp (walk fuel (trigger_ctx e) host (d_direction h)) (with_pipelines (with_data w data) []) (fun w1 r =>
    keeps (with_pipelines (with_data w data) []) w1 /\ started cmd (replies w) w1 /\
    (stops r = false -> forall c, connected w (d_direction h) (group w h) host c ->
       state_of w1 c = Some (comp_get_requested_state cmd))).
Proof.
  intros Hcmd [R Hf Hn] Hh H0 Hs Hc. set (w0 := with_pipelines (with_data w data) []).
  assert (started cmd (replies w) w0) as HG.
  { rewrite <- Hc. apply started_with; [done|]. rewrite Hs. by exists h. }
  destruct (walk_spec _ _ _ _ _ (trigger_contract e cmd (replies w) Hcmd (d_direction h)) fuel w0 host)
    as (w1 & r & Hr & (K1 & HG1 & _) & Hcov); [done|by exists h|by exists h| |done|].
  { pose proof (open_buffers_size w0). simpl in *. lia. }
  exists w1, r. split_and!; [done..|by apply HG1|]. intros Hst c Hcon.
  assert (forall a d, w_devs w !! a = Some d -> d_pipeline d <> 0 -> group w h d -> grouped w0 a) as Hgr.
  { intros a d Hd Hp0 Hok. unfold grouped. simpl. rewrite Hs.
    destruct (go_parent _ (rd_graph _ R) a d Hd Hp0) as [dp Hdp].
    destruct (go_parent _ (rd_graph _ R) host h Hh H0) as [hp Hhp].
    exists d, h, dp, hp. split_and!; [done..|].
    destruct Hok as [?|(dp' & hp' & ? & ? & ?)]; [by left|right; congruence]. }
  destruct (connected_path (trigger_ctx e) _ grouped (group w h) w w0 host c eq_refl eq_refl Hgr Hcon) as [bs Hpath].
  assert (grouped w0 host) as Hg by (apply (Hgr host h); [done|done|by left]).
  destruct (Hcov Hst Hg bs c Hpath) as [Hno|]; [by destruct Hno|done].
Qed.

(** ** Running a trigger *)

(** The state after a trigger: nothing structural has changed, no reply was
    sent, and the pipeline's pending command is the same unless the second stage
    of the command was delayed. *)
Definition ran w (p cmd : Z) w' (r : Z) : Prop :=
  idle w' /\ replies w' = replies w /\
  (keeps w w' \/
   final_cmd cmd <> cmd /\ r = 0 /\
   exists pl pl', w_ppls w !! p = Some pl /\ w_ppls w' !! p = Some pl' /\
     t_host (p_trigger pl') = t_host (p_trigger pl) /\ t_cmd (p_trigger pl') = final_cmd cmd).

Lemma final_cmd_ok cmd : trigger_cmd cmd -> trigger_cmd (final_cmd cmd).
Proof.
  unfold trigger_cmd. rewrite !elem_of_cons, elem_of_nil.
  intros [->|[->|[->|[->|[->|[->|[]]]]]]]; vm_compute; tauto.
Qed.

(** The end of an operation that kept the graph. *)
Lemma ran_keeps w p cmd data w1 r :
  idle w -> keeps (with_pipelines (with_data w data) []) w1 -> replies w1 = replies w -> al_inv (w_alloc w1) ->
  ran w p cmd (with_pipelines (with_data w1 (w_data w)) (w_pipelines w)) r.
Proof.
  intros Hi K Hr Ha. apply keeps_frame in K. split_and!; [by eapply keeps_idle|done|by left].
Qed.

(** The scheduling at the end of a trigger. *)
Lemma finish_ok w cmd cmd' data w1 (r : Z) :
  idle w -> keeps (with_pipelines (with_data w data) []) w1 -> started cmd' (replies w) w1 ->
  wp (pipeline_schedule_triggered e cmd ≫= fun _ => mret r) w1 (fun w2 x => x = r /\
    keeps (with_pipelines (with_data w data) []) w2 /\ replies w2 = replies w /\ al_inv (w_alloc w2) /\
    w_devs w2 = w_devs w1).
Proof.
  intros Hi K (R & _ & _ & Hn & Hl). wp_step. eapply wp_mono; [by apply schedule_triggered_ok|].
  intros w2 [] C2. wp_step. split_and!; [done|by trans w1; [|apply C2]|by rewrite (cm_replies _ _ C2)|apply C2, R|apply C2].
Qed.

(** Two stages one after the other. *)
Lemma ran_chain w p cmd data w1 tr data2 w2 r :
  idle w -> keeps (with_pipelines (with_data w data) []) w1 ->
  keeps (with_pipelines (with_data (with_trace w1 tr) data2) []) w2 ->
  replies w2 = replies w -> al_inv (w_alloc w2) ->
  ran w p cmd (with_pipelines (with_data w2 (w_data w)) (w_pipelines w)) r.
Proof.
  intros Hi K1 K2 Hr Ha. apply keeps_frame in K2.
  assert (keeps w1 (with_trace w1 tr)) as Kt by by apply keeps_eq.
  change (ran w p cmd (with_pipelines (with_data
    (with_pipelines (with_data w2 (w_data (with_trace w1 tr))) (w_pipelines (with_trace w1 tr))) (w_data w)) (w_pipelines w)) r).
  apply (ran_keeps w p cmd data); [done| |done|done]. trans w1; [done|]. by trans (with_trace w1 tr).
Qed.

(** The second stage, from the state [w1] after the walk of the first. *)
Lemma final_stage_ok w p pl host h cmd data w1 :
  trigger_cmd cmd -> final_cmd cmd <> cmd -> idle w -> w_ppls w !! p = Some pl -> p_period pl <> 0 ->
  w_devs w !! host = Some h -> d_pipeline h <> 0 -> pd_start data = host ->
  keeps (with_pipelines (with_data w data) []) w1 -> started cmd (replies w) w1 ->
  wp (trigger_final_stage e fuel p host cmd) w1 (fun w2 r =>
    ran w p cmd (with_pipelines (with_data w2 (w_data w)) (w_pipelines w)) r).
Proof.
  intros Hcmd Hfin Hi Hp Hper Hh H0 Hst K (R1 & _ & _ & Hn1 & Hl1).
  pose proof (keeps_frame _ _ _ K) as K'.
  destruct (fmap_lookup _ _ _ _ _ (sh_ppls _ _ (proj1 K)) Hp) as (pl1 & Hp1 & [= _ _ _ _ _ Eper _ _ _ Ehost _]).
  destruct (fmap_lookup _ _ _ _ _ (sh_devs _ _ (proj1 K)) Hh) as (h1 & Hh1 & _).
  pose proof (shape_parent _ _ _ _ _ (proj1 K) Hh Hh1) as Epar.
  assert (idle w1) as Hi1 by (eapply keeps_idle; [exact K|apply R1|by apply idle_with]).
  pose proof (sh_data _ _ (proj1 K)) as Ed. injection Ed as Es _ _. simpl in Es.
  unfold trigger_final_stage. do 4 wp_step. case_if.
  { rewrite (proj2 (Z.eqb_neq _ _)) by congruence. do 3 wp_step.
    set (pl2 := set_cmd _ _). split_and!; [|done|right].
    - by apply (idle_with _ _ _ (idle_mod_ppl w1 p pl1 pl2 Hp1 eq_refl Hi1)).
    - split_and!; [done..|]. exists pl, pl2. split_and!; [done|apply lookup_insert_eq|by rewrite <- Ehost|done]. }
  do 2 wp_step. set (data2 := mk_data _ _ _ _ (final_cmd cmd) _).
  apply wp_bind. apply wp_mono with (P := fun w2 _ => exists tr,
    w2 = with_pipelines (with_data (with_trace w1 tr) data2) [] /\ replies (with_trace w1 tr) = replies w1).
  { case_if; [wp_step; exists (w_trace w1); by destruct w1|]. eexists _, tt. split; [done|].
    eexists. split; [done|]. unfold replies. simpl. rewrite List.filter_app. simpl. by rewrite app_nil_r. }
  intros w2 [] (tr & -> & Htr). set (w1t := with_trace w1 tr) in *.
  assert (idle w1t) as Hit by (eapply keeps_idle; [by apply (keeps_eq w1)|apply R1|done]).
  assert (w_devs w1t !! host = Some h1) as Hh1t by done.
  wp_step. eapply wp_get_dev; [exact Hh1t|]. wp_step.
  eapply wp_mono; [apply (trigger_walk_ok (final_cmd cmd) data2 host h1 w1t); [by apply final_cmd_ok|done|done| |simpl; congruence|done]|].
  { congruence. }
  intros w3 r3 (K3 & G3 & _). pose proof G3 as (R3 & _ & _ & Hn3 & _).
  destruct (fmap_lookup _ _ _ _ _ (sh_ppls _ _ (proj1 K3)) Hp1) as (pl3 & Hp3 & _).
  do 2 wp_step. case_if.
  - wp_step. eapply ran_chain; [done|done|exact K3|congruence|apply R3].
  - eapply wp_mono; [eapply (finish_ok w1t); [done|exact K3|exact G3]|].
    intros w4 x (-> & K4 & Hn4 & Ha4 & _). eapply ran_chain; [done|done|exact K4|congruence|done].
Qed.

Lemma connected_mono w w0 dir (ok ok' : comp_dev -> Prop) a c :
  w_devs w0 = w_devs w -> w_bufs w0 = w_bufs w -> (forall d, ok d -> ok' d) ->
  connected w dir ok a c -> connected w0 dir ok' a c.
Proof.
  intros Ed Eb Hok. induction 1; [constructor|]. eapply connected_next; rewrite ?Ed, ?Eb; eauto.
Qed.

Lemma keeps_group w w0 h dc : keeps w w0 -> group w h dc -> group w0 h dc.
Proof.
  intros K [E|(dp & hp & Hdp & Hhp & E)]; [by left|right].
  destruct (fmap_lookup _ _ _ _ _ (sh_ppls _ _ (proj1 K)) Hdp) as (dp' & ? & [= _ E1 _ _ _ _ _ _ _ _ _]).
  destruct (fmap_lookup _ _ _ _ _ (sh_ppls _ _ (proj1 K)) Hhp) as (hp' & ? & [= _ E2 _ _ _ _ _ _ _ _ _]).
  exists dp', hp'. split_and!; [done..|congruence].
Qed.

Lemma ran_from w w0 p cmd w' r :
  keeps w w0 -> replies w0 = replies w -> ran w0 p cmd w' r -> ran w p cmd w' r.
Proof.
  intros K Hn (Hi & Hr & Hc). split_and!; [done|congruence|].
  destruct Hc as [Hc|(? & ? & pl & pl' & Hp & ? & Eh & ?)]; [left; by trans w0|right].
  destruct (fmap_lookup_r _ _ _ _ _ (sh_ppls _ _ (proj1 K)) Hp) as (pl0 & Hp0 & [= _ _ _ _ _ _ _ _ _ Eh0 _]).
  split_and!; [done..|]. exists pl0, pl'. split_and!; [done|done|congruence|done].
Qed.

(** A pipeline that an xrun has stopped. *)
Definition stopped_by_xrun (pl : pipeline) : Prop := p_xrun_bytes pl <> 0 /\ p_status pl = COMP_STATE_PAUSED.

Lemma handle_trigger_passes p pl cmd w :
  w_ppls w !! p = Some pl ->
  ~ stopped_by_xrun pl \/ cmd <> COMP_TRIGGER_START /\ cmd <> COMP_TRIGGER_STOP ->
  wp (if p_xrun_bytes pl =? 0 then mret 0 else pipeline_xrun_handle_trigger e fuel data0 p cmd) w
    (fun w' r => w' = w /\ r = 0).
Proof.
  intros Hp Hx. case_if; [by wp_step|]. unfold pipeline_xrun_handle_trigger, stopped_by_xrun in *. do 2 wp_step.
  case_if; [by wp_step|]. zbool. case_if; [lia|]. case_if; [lia|]. by wp_step.
Qed.

Lemma trigger_run_ok p pl host h cmd w :
  trigger_cmd cmd -> idle w -> w_ppls w !! p = Some pl ->
  ~ stopped_by_xrun pl \/ cmd <> COMP_TRIGGER_START /\ cmd <> COMP_TRIGGER_STOP ->
  final_cmd cmd = cmd \/ p_period pl <> 0 ->
  w_devs w !! host = Some h -> d_pipeline h <> 0 ->
  wp (pipeline_trigger_run e fuel data0 p host cmd) w (fun w' r => ran w p cmd w' r /\
    (final_cmd cmd = cmd -> stops r = false ->
     forall c, connected w (d_direction h) (group w h) host c ->
       state_of w' c = Some (comp_get_requested_state cmd))).
Proof.
  intros Hcmd Hi Hp Hx Hper Hh H0. apply wp_frame. repeat wp_step.
  set (pl0 := set_aborted false pl). set (w0 := with_ppls w (<[p := pl0]> (w_ppls w))).
  assert (calm w w0) as C0 by by eapply mod_ppl_calm.
  assert (idle w0) as Hi0 by (eapply keeps_idle; [apply C0|apply Hi|done]).
  assert (w_ppls w0 !! p = Some pl0) as Hp0 by apply lookup_insert_eq.
  eapply wp_get_ppl; [exact Hp0|]. wp_step.
  eapply wp_mono; [by apply (handle_trigger_passes p pl0 cmd w0)|]. intros w0' r0 [-> ->]. simpl.
  rewrite andb_false_r. wp_step. eapply (wp_get_dev _ h); [done|]. wp_step. unfold walk_with. do 2 wp_step.
  set (data := trigger_data host cmd).
  eapply wp_mono; [by apply (trigger_walk_ok cmd data host h w0)|]. intros w1 r (K1 & G1 & Hcov).
  change (w_data w) with (w_data w0). change (w_pipelines w) with (w_pipelines w0).
  assert (wp (pipeline_schedule_triggered e cmd ≫= fun _ => mret r) w1 (fun w' x =>
    ran w p cmd (with_pipelines (with_data w' (w_data w0)) (w_pipelines w0)) x /\ x = r /\ w_devs w' = w_devs w1)) as Hfin.
  { eapply wp_mono; [by eapply (finish_ok w0)|]. intros w2 x (-> & K2 & Hn2 & Ha2 & Ed). split_and!; [|done..].
    eapply ran_from; [apply C0|apply C0|]. by eapply ran_keeps. }
  case_if; [|case_if].
  - eapply wp_mono; [exact Hfin|]. intros w2 x (Hr2 & -> & _). split; [done|]. intros _ Hst.
    unfold stops in Hst. zbool. lia.
  - eapply wp_mono; [exact Hfin|]. intros w2 x (Hr2 & -> & Ed). split; [done|]. intros _ Hst c Hc.
    unfold state_of. simpl. rewrite Ed. apply Hcov; [done|].
    apply (connected_mono w w0 _ (group w h)); [done|done| |done]. intros d. apply keeps_group, C0.
  - destruct Hper as [?|Hper]; [done|]. eapply wp_mono; [by apply (final_stage_ok w0 p pl0 host h cmd data w1)|]. intros w2 x Hr2. split; [|done].
    eapply ran_from; [apply C0|apply C0|done].
Qed.

(** ** Copying *)

Abbreviation anything := (fun (_ : world A) (_ : Z) => True).

Lemma comp_copy_ok a w :
  ready w -> complete w a ->
  wp (comp_copy e a) w (fun w' _ => keeps w w' /\ replies w' = replies w /\ w_pipelines w' = w_pipelines w /\
    (al_inv (w_alloc w) -> al_inv (w_alloc w'))).
Proof.
  intros R Hc. pose proof Hc as (d & Hd & H0). unfold comp_copy. do 2 wp_step.
  destruct (dr_copy a) as (f & -> & Hf). case_if; [by apply Hf|by wp_step].
Qed.

Lemma copy_contract cmd n dir : contract (copy_ctx e) dir (started cmd n) (fun _ _ => False) anything.
Proof.
  constructor; try done.
  - intros w [R _]. apply R.
  - intros w b bf v. apply flag_started.
  - intros rec cur buf w HG [d Hd] Hc _ Hrec. specialize (Hc eq_refl).
    apply (wp_mono (pipeline_comp_copy e rec cur buf dir) w (fun w' _ => step (started cmd n) anything w w'));
      [|intros w' r Hw'; split; [done|by intros]].
    pose proof HG as (_ & (st & Hst & _) & _).
    assert (forall w1, step (started cmd n) anything w w1 ->
      wp (comp_copy e cur) w1 (fun w' _ => step (started cmd n) anything w w')) as Hcopy.
    { intros w1 S1. assert (started cmd n w1) as HG1 by by apply S1.
      eapply wp_mono; [apply comp_copy_ok; [apply HG1|]|].
      - eapply shape_complete; [apply S1|apply HG|done].
      - intros w2 _ (K2 & Hn2 & Hl2 & Ha2). trans w1; [done|]. split; [done|]. split; [|done]. intros _.
        eapply shape_started; [apply K2|apply Ha2, HG1|done| |done]. eapply shape_listed; [apply K2|done|apply HG1]. }
    unfold pipeline_comp_copy. do 6 wp_step.
    case_if; [by wp_step|]. case_if; [by wp_step|]. wp_step.
    eapply wp_mono with (P := fun w1 _ => step (started cmd n) anything w w1); [case_if; [by apply Hcopy|by wp_step]|].
    intros w1 err S1. case_if; [by wp_step|]. wp_step.
    destruct (Hrec w1 S1) as (w2 & r & Hr & S2). exists w2, r. split; [done|].
    assert (step (started cmd n) anything w w2) by by trans w1.
    case_if; [by wp_step|]. case_if; [by apply Hcopy|by wp_step].
Qed.

Lemma pipeline_copy_ok p pl w :
  idle w -> w_ppls w !! p = Some pl ->
  wp (pipeline_copy e fuel data0 p) w (fun w' _ => keeps w w' /\ replies w' = replies w /\ idle w').
Proof.
  intros Hi Hp. pose proof (id_ready _ Hi) as R. apply wp_frame.
  destruct (rd_ends _ R p pl Hp) as (_ & Hsrc & Hsnk). pose proof Hsrc as (src & Hs & _).
  do 4 wp_step. set (pb := d_direction src =? SOF_IPC_STREAM_PLAYBACK).
  set (start := if pb then p_sink_comp pl else p_source_comp pl).
  set (dir := if pb then PPL_DIR_UPSTREAM else PPL_DIR_DOWNSTREAM).
  assert (complete w start) as Hstart by (unfold start; case_if; done).
  unfold walk_with. do 2 wp_step. set (data := start_data data0 start p). set (w0 := with_pipelines (with_data w data) []).
  assert (started (pd_cmd data) (replies w) w0) as HG by by apply started_with.
  destruct (walk_spec _ _ _ _ _ (copy_contract (pd_cmd data) (replies w) dir) fuel w0 start)
    as (w1 & r & Hr & (K1 & HG1 & _) & _); [done|destruct Hstart as (d & Hd & _); by exists d|done| |apply Hi|].
  { pose proof (open_buffers_size w0). pose proof (id_fuel _ Hi). simpl in *. lia. }
  exists w1, r. split; [done|]. pose proof (keeps_frame _ _ _ K1) as K. specialize (HG1 HG).
  split_and!; [done|apply HG1|]. eapply keeps_idle; [done|apply HG1|done].
Qed.

(** ** The task *)

(** 1 when the pipeline holds a command of the host that is not answered yet. *)
Definition owes (pl : pipeline) : nat :=
  if (t_cmd (p_trigger pl) =? COMP_TRIGGER_NO_ACTION) || (t_host (p_trigger pl) =? 0) then 0 else 1.

Definition owed w (p : Z) : nat := from_option owes 0%nat (w_ppls w !! p).

Lemma keeps_owed w w' p : keeps w w' -> owed w' p = owed w p.
Proof.
  intros K. unfold owed. destruct (w_ppls w !! p) as [pl|] eqn:Hp.
  - destruct (fmap_lookup _ _ _ _ _ (sh_ppls _ _ (proj1 K)) Hp) as (pl' & -> & [= _ _ _ _ _ _ _ _ E1 E2 _]).
    simpl. unfold owes. by rewrite E1, E2.
  - destruct (w_ppls w' !! p) as [pl'|] eqn:Hp'; [|done].
    destruct (fmap_lookup_r _ _ _ _ _ (sh_ppls _ _ (proj1 K)) Hp') as (? & ? & _). congruence.
Qed.

(** The state after (a part of) the task: [k] is the number of replies sent and
    owed. *)
Definition settled (p : Z) (k : nat) w : Prop :=
  idle w /\ is_ppl w p /\ (replies w + owed w p)%nat = k.

(** A change of the pipeline with the same pending command. *)
Lemma settled_mod p k pl pl' w :
  w_ppls w !! p = Some pl ->
  (p_sched_comp pl', p_source_comp pl', p_sink_comp pl', p_sched_next pl', p_sched_prev pl') =
  (p_sched_comp pl, p_source_comp pl, p_sink_comp pl, p_sched_next pl, p_sched_prev pl) ->
  owes pl' = owes pl ->
  settled p k w -> settled p k (with_ppls w (<[p := pl']> (w_ppls w))).
Proof.
  intros Hp Hv Ho (Hi & _ & Hk). split_and!; [by eapply idle_mod_ppl|by exists pl'; apply lookup_insert_eq|].
  unfold owed in *. simpl. rewrite lookup_insert_eq. rewrite Hp in Hk. simpl in *. by rewrite Ho.
Qed.

(** A reply to the pending command, owed or not. *)
Lemma settled_reply p k k' pl err w :
  settled p k w -> w_ppls w !! p = Some pl -> (k' + owes pl = k + 1)%nat ->
  let w1 := with_ppls w (<[p := set_cmd COMP_TRIGGER_NO_ACTION pl]> (w_ppls w)) in
  settled p k' (with_trace w1 (w_trace w1 ++ [MsgReply err])).
Proof.
  intros (Hi & _ & Hk) Hp Ho w1. set (pl' := set_cmd COMP_TRIGGER_NO_ACTION pl) in *.
  assert (idle w1) as Hi1 by by eapply idle_mod_ppl. split_and!.
  - eapply keeps_idle; [by apply (keeps_eq w1)|apply Hi1|done].
  - exists pl'. apply lookup_insert_eq.
  - unfold owed in *. simpl. rewrite lookup_insert_eq. rewrite Hp in Hk. simpl in *. rewrite <- Hk in Ho.
    unfold replies in *. simpl. rewrite List.filter_app, length_app. simpl. unfold owes. simpl. lia.
Qed.

Lemma task_reply_ok p k err st w :
  settled p k w -> owed w p = 1%nat -> wp (task_reply p err st) w (fun w' x => x = st /\ settled p k w').
Proof.
  intros Hs Ho. pose proof Hs as (_ & [pl Hp] & _). unfold owed in Ho. rewrite Hp in Ho.
  unfold task_reply. do 3 wp_step. eexists _, tt. split; [done|]. wp_step. split; [done|].
  eapply settled_reply; [done..|]. simpl in Ho. lia.
Qed.

Lemma task_copy_ok p k w :
  settled p k w ->
  wp (task_copy e fuel data0 p) w (fun w' st => settled p k w' /\
    (st = SOF_TASK_STATE_COMPLETED \/ st = SOF_TASK_STATE_RESCHEDULE)).
Proof.
  intros Hs. pose proof Hs as (Hi & [pl Hp] & Hk). unfold task_copy. do 2 wp_step.
  case_if; [wp_step; auto|]. wp_step. eapply wp_mono; [by eapply pipeline_copy_ok|].
  intros w1 err (K1 & Hn1 & Hi1).
  assert (settled p k w1) as Hs1.
  { split_and!; [done|eapply shape_is_ppl; [apply K1|by exists pl]|by rewrite (keeps_owed w w1), Hn1]. }
  case_if; [unfold pipeline_xrun_recover|]; repeat wp_step; simpl; auto.
Qed.

(** The command of a pipeline without host is not answered here. *)
Lemma task_cmd_nohost_ok p k pl w :
  settled p k w -> w_ppls w !! p = Some pl -> t_host (p_trigger pl) = 0 ->
  wp (pipeline_task_cmd e fuel data0 p) w (fun w' st => settled p k w' /\
    (st = SOF_TASK_STATE_RUNNING \/ st = SOF_TASK_STATE_COMPLETED \/ st = SOF_TASK_STATE_RESCHEDULE)).
Proof.
  intros Hs Hp Hh. unfold pipeline_task_cmd. do 2 wp_step. rewrite Hh, Z.eqb_refl. do 2 wp_step.
  assert (forall c, owes (set_cmd c pl) = owes pl) as Ho.
  { intros c. unfold owes. simpl. by rewrite Hh, !orb_true_r. }
  set (w1 := with_ppls w _). assert (settled p k w1) as Hs1 by (eapply settled_mod; [done..|apply Ho|done]).
  case_if; [wp_step; case_if; auto|]. wp_step.
  eapply wp_mono with (P := fun w2 _ => settled p k w2); [|intros w2 [] Hs2; wp_step; auto].
  assert (w_ppls w1 !! p = Some (set_cmd COMP_TRIGGER_NO_ACTION pl)) as Hp1 by apply lookup_insert_eq.
  case_if; wp_step; [|done]. by eapply settled_mod.
Qed.

Lemma trigger_cmd_action cmd : trigger_cmd cmd -> (cmd =? COMP_TRIGGER_NO_ACTION) = false.
Proof.
  unfold trigger_cmd. rewrite !elem_of_cons, elem_of_nil.
  by intros [->|[->|[->|[->|[->|[->|[]]]]]]].
Qed.

Lemma ran_settled p k cmd pl w w' r :
  trigger_cmd cmd -> settled p k w -> w_ppls w !! p = Some pl -> owes pl = 1%nat -> ran w p cmd w' r ->
  settled p k w' /\ owed w' p = 1%nat.
Proof.
  intros Hcmd (Hi & _ & Hk) Hp Ho (Hi' & Hn & Hc).
  assert (owed w p = 1%nat) as Ho1 by (unfold owed; by rewrite Hp).
  assert (is_ppl w' p /\ owed w' p = 1%nat) as [Hp' Ho'].
  { destruct Hc as [K|(_ & _ & pl0 & pl' & Hp0 & Hp' & Eh & Ec)].
    - split; [eapply shape_is_ppl; [apply K|by exists pl]|by rewrite (keeps_owed w w')].
    - split; [by exists pl'|]. unfold owed. rewrite Hp'. simpl. rewrite Hp in Hp0. injection Hp0 as <-. unfold owes in *.
      rewrite Ec, Eh, trigger_cmd_action by by apply final_cmd_ok.
      destruct (t_host (p_trigger pl) =? 0); [by rewrite orb_true_r in Ho|done]. }
  split; [|done]. split_and!; [done..|]. by rewrite Hn, Ho', <- Ho1.
Qed.

(** The command of the host is answered, or its second stage is delayed. *)
Lemma task_cmd_host_ok p k pl h w :
  settled p k w -> w_ppls w !! p = Some pl -> t_host (p_trigger pl) <> 0 ->
  w_devs w !! t_host (p_trigger pl) = Some h -> d_pipeline h <> 0 ->
  trigger_cmd (t_cmd (p_trigger pl)) -> p_xrun_bytes pl = 0 -> p_period pl <> 0 ->
  wp (pipeline_task_cmd e fuel data0 p) w (fun w' st => settled p k w' /\
    (st = SOF_TASK_STATE_RUNNING \/ st = SOF_TASK_STATE_COMPLETED \/ st = SOF_TASK_STATE_RESCHEDULE)).
Proof.
  intros Hs Hp Hh Hd Hd0 Hcmd Hx Hper. unfold pipeline_task_cmd. do 2 wp_step.
  rewrite (proj2 (Z.eqb_neq _ _) Hh). wp_step.
  assert (owes pl = 1%nat) as Ho.
  { unfold owes. by rewrite trigger_cmd_action, (proj2 (Z.eqb_neq _ _) Hh). }
  eapply wp_mono; [apply (trigger_run_ok p pl _ h); [done|apply Hs|done|left; by intros [? _]|by right|done..]|]. intros w1 err [Hran _].
  destruct (ran_settled p k _ pl w w1 err Hcmd Hs Hp Ho Hran) as [Hs1 Ho1].
  assert (forall w2 er st, settled p k w2 -> owed w2 p = 1%nat ->
    (st = SOF_TASK_STATE_RUNNING \/ st = SOF_TASK_STATE_COMPLETED \/ st = SOF_TASK_STATE_RESCHEDULE) ->
    wp (task_reply p er st) w2 (fun w' st => settled p k w' /\
    (st = SOF_TASK_STATE_RUNNING \/ st = SOF_TASK_STATE_COMPLETED \/ st = SOF_TASK_STATE_RESCHEDULE))) as Hreply.
  { intros w2 er st H1 H2 Hst. eapply wp_mono; [by apply task_reply_ok|]. by intros w3 x [-> ?]. }
  case_if; [apply Hreply; auto|].
  destruct Hs1 as (Hi1 & [pl1 Hp1] & Hk1). do 3 wp_step.
  set (pl2 := set_status _ pl1). set (w2 := with_ppls w1 _).
  assert (w_ppls w2 !! p = Some pl2) as Hp2 by apply lookup_insert_eq.
  assert (forall s, owed (with_ppls w2 (<[p := set_status s pl2]> (w_ppls w2))) p = 1%nat) as Ho3.
  { intros s. unfold owed in *. rewrite Hp1 in Ho1. simpl in *. by rewrite lookup_insert_eq. }
  assert (owed w2 p = 1%nat) as Ho2.
  { unfold owed in *. rewrite Hp2. rewrite Hp1 in Ho1. done. }
  assert (settled p k w2) as Hs2 by (eapply settled_mod; [done..|]; by split_and!; [|by exists pl1|]).
  wp_step. case_if; [apply Hreply; auto|]. case_if; [case_if; [wp_step; auto|apply Hreply; auto]|].
  case_if; [case_if; [do 2 wp_step|]|do 2 wp_step]; apply Hreply; auto; by eapply settled_mod.
Qed.

(** A stop of a pipeline that an xrun has stopped reaches no component. *)
Lemma trigger_run_stopped p pl host w :
  w_ppls w !! p = Some pl -> stopped_by_xrun pl ->
  pipeline_trigger_run e fuel data0 p host COMP_TRIGGER_STOP w =
    Some (with_ppls w (<[p := set_aborted false pl]> (w_ppls w)), if pipeline_is_timer_driven pl then 1 else 0).
Proof.
  intros Hp [Hx Hst]. cut (wp (pipeline_trigger_run e fuel data0 p host COMP_TRIGGER_STOP) w (fun w' r =>
    w' = with_ppls w (<[p := set_aborted false pl]> (w_ppls w)) /\ r = if pipeline_is_timer_driven pl then 1 else 0)).
  { intros (w' & r & Hr & -> & ->). exact Hr. }
  apply wp_frame. repeat wp_step. set (pl0 := set_aborted false pl). set (w0 := with_ppls w (<[p := pl0]> (w_ppls w))).
  assert (w_ppls w0 !! p = Some pl0) as Hp0 by apply lookup_insert_eq.
  assert ((p_xrun_bytes pl0 =? 0) = false) as Ex by (apply Z.eqb_neq; exact Hx).
  eapply wp_get_ppl; [exact Hp0|]. rewrite Ex. wp_step. unfold pipeline_xrun_handle_trigger. wp_step.
  eapply wp_get_ppl; [exact Hp0|]. rewrite Ex. replace (p_status pl0) with COMP_STATE_PAUSED by done. simpl.
  wp_step. simpl. wp_step. by destruct w.
Qed.

(** C8: Running a start, release, pause or stop command on the components, except
    a start of a pipeline that an xrun has stopped, which is prepared first. The
    operation ends and keeps the graph, its flags and the pending commands, and
    sends no reply. A stop of a pipeline that an xrun has stopped reaches no
    component. Otherwise the command walks over the pipeline and all pipelines
    scheduled with it, and when no component stops the walk, every component
    connected to the start in these pipelines has taken the state that the command
    requests. *)
Theorem pipeline_trigger_run_all (p : Z) (pl : pipeline) (host : Z) (h : comp_dev) (cmd : Z) (w : world A) :
  cmd ∈ [COMP_TRIGGER_START; COMP_TRIGGER_RELEASE; COMP_TRIGGER_PAUSE; COMP_TRIGGER_STOP] ->
  idle w -> w_ppls w !! p = Some pl -> ~ (stopped_by_xrun pl /\ cmd = COMP_TRIGGER_START) ->
  w_devs w !! host = Some h -> d_pipeline h <> 0 ->
  exists w' r, pipeline_trigger_run e fuel data0 p host cmd w = Some (w', r) /\
    idle w' /\ keeps w w' /\ replies w' = replies w /\
    (stopped_by_xrun pl -> cmd = COMP_TRIGGER_STOP ->
      w_devs w' = w_devs w /\ r = if pipeline_is_timer_driven pl then 1 else 0) /\
    (~ (stopped_by_xrun pl /\ cmd = COMP_TRIGGER_STOP) -> stops r = false ->
     forall c, connected w (d_direction h) (group w h) host c ->
       state_of w' c = Some (comp_get_requested_state cmd)).
Proof.
  intros Hc Hi Hp Hx Hh H0. rewrite !elem_of_cons, elem_of_nil in Hc.
  assert (trigger_cmd cmd /\ final_cmd cmd = cmd) as [Hcmd Hfin].
  { unfold trigger_cmd. rewrite !elem_of_cons. destruct Hc as [->|[->|[->|[->|[]]]]]; auto 10. }
  assert (stopped_by_xrun pl /\ cmd = COMP_TRIGGER_STOP \/
    (~ stopped_by_xrun pl \/ cmd <> COMP_TRIGGER_START /\ cmd <> COMP_TRIGGER_STOP)) as [[Hs ->]|Hn].
  { unfold stopped_by_xrun in *. destruct (decide (p_xrun_bytes pl = 0)); [naive_solver|].
    destruct (decide (p_status pl = COMP_STATE_PAUSED)); [|naive_solver].
    destruct (decide (cmd = COMP_TRIGGER_START)), (decide (cmd = COMP_TRIGGER_STOP)); naive_solver. }
  - eexists _, _. split; [by apply trigger_run_stopped|].
    assert (calm w (with_ppls w (<[p := set_aborted false pl]> (w_ppls w)))) as C0 by by eapply mod_ppl_calm.
    split_and!; [eapply keeps_idle; [apply C0|apply Hi|done]|apply C0|by rewrite (cm_replies _ _ C0)|done|naive_solver].
  - destruct (trigger_run_ok p pl host h cmd w) as (w' & r & Hr & (Hi' & Hn' & Hk) & Hcov); [by auto..|].
    exists w', r. split_and!; [done|done|by destruct Hk as [|[? _]]|done| |auto].
    intros Hs ->. destruct Hn as [?|[_ ?]]; [done|lia].
Qed.

(** The reply that a pipeline in an xrun sends for a command without a host. *)
Definition extra_reply (pl : pipeline) : nat :=
  if negb (p_xrun_bytes pl =? 0) && negb (t_cmd (p_trigger pl) =? COMP_TRIGGER_NO_ACTION) &&
     (t_host (p_trigger pl) =? 0) then 1 else 0.

(** C7: Whatever the task of a pipeline finds (a pending command, a delayed second
    stage, an xrun, data to copy), it returns "completed" or "reschedule", and the
    replies sent and owed together are as many as before: the command of the host
    is answered exactly once. The one exception is counted: a pipeline in an xrun
    with a pending command that came without a host, as one of several pipelines
    triggered together, sends one reply that is not owed. *)
Theorem pipeline_task_answers (p : Z) (pl : pipeline) (w : world A) :
  idle w -> w_ppls w !! p = Some pl -> p_period pl <> 0 ->
  (t_cmd (p_trigger pl) = COMP_TRIGGER_NO_ACTION \/
   trigger_cmd (t_cmd (p_trigger pl)) /\ (t_host (p_trigger pl) = 0 \/ complete w (t_host (p_trigger pl)))) ->
  exists w' st, pipeline_task e fuel data0 p w = Some (w', st) /\
    (st = SOF_TASK_STATE_COMPLETED \/ st = SOF_TASK_STATE_RESCHEDULE) /\
    idle w' /\ (replies w' + owed w' p = replies w + owed w p + extra_reply pl)%nat.
Proof.
  intros Hi Hp Hper Hcmd. set (k := (replies w + owed w p)%nat).
  assert (settled p k w) as Hs by (split_and!; [done|by exists pl|done]).
  cut (wp (pipeline_task e fuel data0 p) w (fun w' st => settled p (k + extra_reply pl) w' /\
    (st = SOF_TASK_STATE_COMPLETED \/ st = SOF_TASK_STATE_RESCHEDULE))).
  { intros (w' & st & Hr & (Hi' & _ & Hk) & Hst). by exists w', st. }
  unfold pipeline_task. do 3 wp_step. destruct (Z.eqb_spec (p_xrun_bytes pl) 0) as [Hx0|Hx0].
  - assert (extra_reply pl = 0%nat) as -> by (unfold extra_reply; by rewrite Hx0). rewrite Nat.add_0_r. wp_step. do 2 wp_step. case_if.
    + do 3 wp_step. split; [|by right]. by eapply settled_mod.
    + case_if; [|by apply task_copy_ok]. wp_step. destruct Hcmd as [?|[Hcmd Hhost]]; [done|].
      eapply wp_mono with (P := fun w' st => settled p k w' /\
        (st = SOF_TASK_STATE_RUNNING \/ st = SOF_TASK_STATE_COMPLETED \/ st = SOF_TASK_STATE_RESCHEDULE)).
      * destruct (Z.eq_dec (t_host (p_trigger pl)) 0) as [E|E]; [by eapply task_cmd_nohost_ok|].
        destruct Hhost as [?|(h & Hd & H0)]; [done|]. by eapply task_cmd_host_ok.
      * intros w1 st [Hs1 Hst]. case_if; [|by apply task_copy_ok]. wp_step. split; [done|].
        destruct Hst as [|[|]]; [lia|auto..].
  - wp_step. eapply wp_mono with (P := fun w1 _ => settled p (k + extra_reply pl) w1);
      [|intros w1 [] Hs1; unfold pipeline_xrun_recover; do 3 wp_step; simpl; wp_step; auto].
    unfold extra_reply. rewrite (proj2 (Z.eqb_neq _ _) Hx0). simpl.
    case_if; [simpl; rewrite Nat.add_0_r; by wp_step|]. destruct Hcmd as [?|[Hcmd _]]; [done|]. simpl.
    do 2 wp_step. eexists _, tt. split; [done|]. eapply settled_reply; [done..|].
    unfold owes. rewrite trigger_cmd_action by done. simpl. case_if; lia.
Qed.
End task.

(** ** Examples *)

#[local] Instance demo_allocator : Allocator mm := heap_allocator baytrail baytrail_dcache 4096 65536.

(** The same pipeline with all components in the state [s]. *)
Definition in_state (s : Z) (w : world mm) : world mm := with_devs w (set_state s <$> w_devs w).

Lemma in_state_keeps s w : keeps w (in_state s w).
Proof.
  split; [|done]. constructor; try done.
  - unfold in_state. simpl. rewrite <- map_fmap_compose. by apply map_fmap_ext.
  - intros a d d' Hd Hd'. simpl in Hd'. rewrite lookup_fmap, Hd in Hd'. injection Hd' as <-. by left.
Qed.

Lemma demo_idle s tr : idle 4 (in_state s (demo_world_of [] tr)).
Proof.
  eapply keeps_idle; [apply in_state_keeps|apply demo_mm_single|].
  constructor; [apply demo_ready|apply demo_no_flags|vm_compute; lia].
Qed.

Definition active_world : world mm :=
  in_state COMP_STATE_ACTIVE (demo_world_of [] (mk_trigger COMP_TRIGGER_NO_ACTION 0 0 false)).

Lemma pipeline_trigger_run_all_witness :
  outcome (pipeline_trigger_run state_env 4 (w_data demo_world) 50 1 COMP_TRIGGER_STOP active_world) =
    Some (0, [Some COMP_STATE_PREPARE; Some COMP_STATE_PREPARE; Some COMP_STATE_PREPARE]) /\
  forall w' r, pipeline_trigger_run state_env 4 (w_data demo_world) 50 1 COMP_TRIGGER_STOP active_world = Some (w', r) ->
    keeps active_world w'.
Proof.
  split; [vm_compute; reflexivity|].
  destruct (pipeline_trigger_run_all state_env 4 (w_data demo_world) 50
    (demo_ppl COMP_STATE_READY (mk_trigger COMP_TRIGGER_NO_ACTION 0 0 false)) 1
    (set_state COMP_STATE_ACTIVE (demo_dev 1 50 0 SOF_COMP_HOST [] [100])) COMP_TRIGGER_STOP active_world)
    as (w' & r & H & _ & K & _); [set_solver|apply demo_idle|reflexivity|by intros [[? _] _]|reflexivity|done|].
  intros w1 r1 H1. rewrite H in H1. by injection H1 as <- <-.
Defined.

(** The task runs a pending pre-start of the host. *)
Definition pending_world : world mm :=
  in_state COMP_STATE_PREPARE (demo_world_of [] (mk_trigger COMP_TRIGGER_PRE_START 1 0 false)).

Lemma pipeline_task_answers_witness :
  outcome (pipeline_task state_env 4 (w_data demo_world) 50 pending_world) =
    Some (SOF_TASK_STATE_RESCHEDULE, [Some COMP_STATE_ACTIVE; Some COMP_STATE_ACTIVE; Some COMP_STATE_ACTIVE]) /\
  owed pending_world 50 = 1%nat /\
  forall w' st, pipeline_task state_env 4 (w_data demo_world) 50 pending_world = Some (w', st) ->
    (replies w' + owed w' 50 = 1)%nat.
Proof.
  split; [vm_compute; reflexivity|]. split; [reflexivity|].
  destruct (pipeline_task_answers state_env 4 (w_data demo_world) 50
    (demo_ppl COMP_STATE_READY (mk_trigger COMP_TRIGGER_PRE_START 1 0 false)) pending_world)
    as (w' & st & H & _ & _ & Hk); [apply demo_idle|reflexivity|done| |].
  - right. split; [unfold trigger_cmd; set_solver|]. right. by eexists.
  - intros w1 st1 H1. rewrite H in H1. injection H1 as <- <-. rewrite Hk. reflexivity.
Defined.

(** Two pipelines that are scheduled together and both in xrun: the task of the
    second one, which has no host, answers the host's command as well. *)
Definition two_pipelines : world mm :=
  with_ppls pending_world
    {[50 := set_xrun 1 (demo_ppl COMP_STATE_PREPARE (mk_trigger COMP_TRIGGER_PRE_START 1 0 false));
      51 := set_xrun 1 (demo_ppl COMP_STATE_PREPARE (mk_trigger COMP_TRIGGER_PRE_START 0 0 false))]}.

Example xrun_answers_twice :
  (owed two_pipelines 50 + owed two_pipelines 51 = 1)%nat /\
  (x ← pipeline_task state_env 4 (w_data demo_world) 50 two_pipelines;
   y ← pipeline_task state_env 4 (w_data demo_world) 51 x.1; Some (w_trace y.1)) =
  Some [MsgReply (- EPIPE); MsgReply (- EPIPE)].
Proof. vm_compute. by split. Qed.
