(* ===== verification/PipelineLife.v ===== *)
(** * Creating and freeing pipelines

    [pipeline_new] and [pipeline_free] manage three pieces of memory and a slot
    of the position table. *)

From stdpp Require Import base list numbers option gmap sets.
From S2P Require Import Prelude StateM Heap HeapMap HeapSpec HeapFree HeapZones Allocator Buffer CompState Pipeline PipelineOps PipelineThms.

Section life.
Context {A : Type} `{!Allocator A} (e : env A).
Implicit Types w : world A.

(** The sizes of the objects are proper requests, and the offsets of the table
    fit 32 bits. *)
Record sizes_ok w : Prop := {
  so_pipeline : request_ok (sizeof_pipeline e) 0;
  so_msg : request_ok (sizeof_ipc_msg e) 0;
  so_posn : request_ok (sizeof_posn e) 0;
  so_table : Z.of_nat (length (w_posn w)) * sizeof_posn e < 2 ^ 32
}.

Definition inside (r : Z * Z) (p : Z) : Prop := r.1 <= p < r.1 + r.2.

(** Every pipeline and message is in live memory. *)
Record objects_live w : Prop := {
  ol_inv : al_inv (w_alloc w);
  ol_ppls p : is_Some (w_ppls w !! p) -> exists r, r ∈ al_live (w_alloc w) /\ inside r p;
  ol_msgs p : is_Some (w_msgs w !! p) -> exists r, r ∈ al_live (w_alloc w) /\ inside r p
}.

(** The same objects with the allocator [a] and the memory [m]. *)
Definition with_heap w (a : A) (m : mem) : world A := with_mem (with_alloc w a) m.

Lemma zalloc_live w bytes :
  al_inv (w_alloc w) -> request_ok bytes 0 ->
  wp (zalloc bytes) w (fun w' p => exists a m, w' = with_heap w a m /\ al_inv a /\
    ((p = 0 /\ al_live a = al_live (w_alloc w)) \/
     (p <> 0 /\ exists r, al_live a ≡ₚ r :: al_live (w_alloc w) /\ inside r p /\
        Forall (apart r) (al_live (w_alloc w))))).
Proof.
  intros Ha Hb. destruct (al_malloc_spec (w_alloc w) 0 SOF_MEM_CAPS_RAM bytes Ha Hb) as (a' & p & E & Ha' & Hp).
  unfold wp, zalloc. rewrite E. simpl. eexists _, p. split; [done|].
  exists a', (if p =? 0 then w_mem w else memset (w_mem w) p 0 bytes). split_and!; [by destruct (p =? 0)|done|].
  destruct Hp as [?|[? (r & ? & [? ?] & ?)]]; [by left|right]. split; [done|]. exists r. split_and!; [done| |done].
  destruct Hb as [? _]. unfold inside. lia.
Qed.

Lemma free_live w r p :
  al_inv (w_alloc w) -> r ∈ al_live (w_alloc w) -> inside r p ->
  wp (free p) w (fun w' _ => exists a, w' = with_alloc w a /\ al_inv a /\ al_live (w_alloc w) ≡ₚ r :: al_live a).
Proof.
  intros Ha Hr Hp. destruct (al_free_spec (w_alloc w) r p Ha Hr Hp) as (a' & E & Ha' & Hl).
  unfold wp, free. rewrite E. simpl. eexists _, tt. split; [done|]. by exists a'.
Qed.

(** Fresh memory holds no object. *)
Lemma fresh_lookup {B} (m : gmap Z B) live r p :
  (forall q, is_Some (m !! q) -> exists r, r ∈ live /\ inside r q) -> Forall (apart r) live -> inside r p ->
  m !! p = None.
Proof.
  intros Hm Hf Hp. destruct (m !! p) eqn:E; [|done]. exfalso.
  destruct (Hm p) as (r' & Hr' & Hp'); [by rewrite E|]. rewrite Forall_forall in Hf.
  pose proof (Hf r' Hr') as Hap. unfold apart, before, inside in *. lia.
Qed.

Lemma ipc_msg_init_ok header size w :
  al_inv (w_alloc w) -> request_ok (sizeof_ipc_msg e) 0 -> request_ok size 0 ->
  wp (ipc_msg_init e header size) w (fun w' msg => exists a m, al_inv a /\
    ((msg = 0 /\ w' = with_heap w a m /\ al_live a ≡ₚ al_live (w_alloc w)) \/
     (msg <> 0 /\ exists rm rt tx, al_live a ≡ₚ rt :: rm :: al_live (w_alloc w) /\ inside rm msg /\ inside rt tx /\
        Forall (apart rm) (al_live (w_alloc w)) /\
        w' = with_msgs (with_heap w a m) (<[msg := mk_msg header size tx]> (w_msgs w))))).
Proof.
  intros Ha Hm Hs. unfold ipc_msg_init. wp_step. eapply wp_mono; [by apply zalloc_live|].
  intros w1 msg (a1 & m1 & -> & Ha1 & [[-> Hl1]|[Hmsg (rm & Hl1 & Him & Hap)]]).
  { simpl. wp_step. exists a1, m1. split; [done|left]. by rewrite Hl1. }
  rewrite (proj2 (Z.eqb_neq _ _) Hmsg). wp_step. eapply wp_mono; [by apply zalloc_live|].
  intros w2 tx (a2 & m2 & -> & Ha2 & [[-> Hl2]|[Htx (rt & Hl2 & Hit & _)]]); simpl in *.
  - wp_step. eapply wp_mono; [apply (free_live _ rm msg); [done|simpl; rewrite Hl2, Hl1; by left|done]|].
    intros w3 [] (a3 & -> & Ha3 & Hl3). wp_step. exists a3, m2. split; [done|left]. split_and!; [done..|].
    apply (Permutation_cons_inv (a := rm)). simpl in Hl3. by rewrite <- Hl3, Hl2, Hl1.
  - rewrite (proj2 (Z.eqb_neq _ _) Htx). do 3 wp_step. exists a2, m2. split; [done|right]. split; [done|].
    exists rm, rt, tx. split_and!; [by rewrite Hl2, Hl1|done..].
Qed.

Lemma first_free_Some l i k : first_free l k = Some i -> exists j, i = (k + j)%nat /\ l !! j = Some false.
Proof.
  revert k; induction l as [|b l IH]; intros k; simpl; [done|]. destruct b.
  - intros H. apply IH in H as (j & -> & ?). exists (S j). split; [lia|done].
  - intros [= <-]. exists 0%nat. split; [lia|done].
Qed.

(** The slot of an offset is found again. *)
Lemma posn_put_get i w :
  0 < sizeof_posn e -> Z.of_nat (length (w_posn w)) * sizeof_posn e < 2 ^ 32 -> w_posn w !! i = Some true ->
  wp (pipeline_posn_offset_put e (u32 (Z.of_nat i * sizeof_posn e))) w (fun w' _ =>
    w' = with_posn w (<[i := false]> (w_posn w))).
Proof.
  intros Hs Ht Hi. pose proof (lookup_lt_Some _ _ _ Hi) as Hlt.
  assert (u32 (Z.of_nat i * sizeof_posn e) / sizeof_posn e = Z.of_nat i) as E.
  { rewrite u32_small by nia. apply Z.div_mul. lia. }
  unfold wp, pipeline_posn_offset_put. rewrite E, (proj2 (Z.ltb_lt _ _)) by lia.
  eexists _, tt. split; [done|]. by rewrite Nat2Z.id.
Qed.

Lemma pipeline_free_ok w p pl m rp rm rt L i :
  w_ppls w !! p = Some pl -> p_pipe_task pl = 0 -> p_msg pl <> 0 -> w_msgs w !! p_msg pl = Some m ->
  p_posn_offset pl = u32 (Z.of_nat i * sizeof_posn e) -> w_posn w !! i = Some true -> sizes_ok w ->
  al_inv (w_alloc w) -> al_live (w_alloc w) ≡ₚ rt :: rm :: rp :: L ->
  inside rt (m_tx_data m) -> inside rm (p_msg pl) -> inside rp p ->
  wp (pipeline_free e p) w (fun w' r => r = 0 /\ exists a, al_inv a /\ al_live a ≡ₚ L /\
    w' = with_ppls (with_posn (with_msgs (with_alloc w a) (delete (p_msg pl) (w_msgs w)))
           (<[i := false]> (w_posn w))) (delete p (w_ppls w))).
Proof.
  intros Hp Ht Hm0 Hm Hoff Hi Hsz Ha Hl Hrt Hrm Hrp. unfold pipeline_free. do 3 wp_step.
  rewrite Ht. simpl. wp_step. wp_step. unfold ipc_msg_free. rewrite (proj2 (Z.eqb_neq _ _) Hm0).
  wp_step. eexists w, m. split; [unfold get_msg; by rewrite Hm|]. do 1 wp_step.
  eapply wp_mono; [apply (free_live w rt (m_tx_data m)); [done|rewrite Hl; by left|done]|].
  intros w1 [] (a1 & -> & Ha1 & Hl1). rewrite Hl in Hl1. apply Permutation_cons_inv in Hl1. wp_step.
  eapply wp_mono; [apply (free_live _ rm (p_msg pl)); [done|simpl; rewrite <- Hl1; by left|done]|].
  intros w2 [] (a2 & -> & Ha2 & Hl2). simpl in Hl2. rewrite <- Hl1 in Hl2. apply Permutation_cons_inv in Hl2.
  do 2 wp_step. rewrite Hoff. destruct Hsz as [_ _ [Hs1 _] Hs2].
  eapply wp_mono; [apply (posn_put_get i); [lia|done|done]|]. intros w3 [] ->. wp_step.
  eapply wp_mono; [apply (free_live _ rp p); [done|simpl; rewrite <- Hl2; by left|done]|].
  intros w4 [] (a3 & -> & Ha3 & Hl3). simpl in Hl3. rewrite <- Hl2 in Hl3. apply Permutation_cons_inv in Hl3.
  do 3 wp_step. split; [done|]. exists a3. split_and!; [done|by symmetry|done].
Qed.

Lemma pipeline_new_ok stream_hdr pipeline_id priority comp_id w :
  sizes_ok w -> al_inv (w_alloc w) ->
  wp (pipeline_new e stream_hdr pipeline_id priority comp_id) w (fun w' p => exists a m, al_inv a /\
    ((p = 0 /\ al_live a ≡ₚ al_live (w_alloc w) /\
      exists posn, w' = with_heap (with_posn w posn) a m /\ length posn = length (w_posn w) /\
        forall i, w_posn w !! i = Some true -> posn !! i = Some true) \/
     (p <> 0 /\ exists i msg tx rp rm rt, w_posn w !! i = Some false /\ msg <> 0 /\
        al_live a ≡ₚ rt :: rm :: rp :: al_live (w_alloc w) /\ inside rt tx /\ inside rm msg /\ inside rp p /\
        Forall (apart rp) (al_live (w_alloc w)) /\ Forall (apart rm) (al_live (w_alloc w)) /\
        w' = with_ppls (with_msgs (with_heap (with_posn w (<[i := true]> (w_posn w))) a m)
               (<[msg := mk_msg (stream_hdr comp_id) (sizeof_posn e) tx]> (w_msgs w)))
               (<[p := init_pipeline pipeline_id priority comp_id (Z.of_nat i * sizeof_posn e) msg]> (w_ppls w))))).
Proof.
  intros [S1 S2 S3 S4] Ha. unfold pipeline_new. wp_step. eapply wp_mono; [by apply zalloc_live|].
  intros w1 p (a1 & m1 & -> & Ha1 & [[-> Hl1]|[Hp (rp & Hl1 & Hip & Hap)]]).
  { simpl. wp_step. exists a1, m1. split; [done|left]. rewrite Hl1. split_and!; [done..|]. by exists (w_posn w); split_and!; [destruct w|..]. }
  rewrite (proj2 (Z.eqb_neq _ _) Hp). wp_step. unfold pipeline_posn_offset_get. unfold wp at 1. simpl.
  destruct (first_free (w_posn w) 0) as [i|] eqn:Ef.
  2:{ eexists _, _. split; [done|]. simpl. wp_step.
      eapply wp_mono; [apply (free_live _ rp p); [done|simpl; rewrite Hl1; by left|done]|].
      intros w2 [] (a2 & -> & Ha2 & Hl2). wp_step. exists a2, m1. split; [done|left]. split; [done|]. split.
      - apply (Permutation_cons_inv (a := rp)). simpl in Hl2. by rewrite <- Hl2, Hl1.
      - by exists (w_posn w); split_and!; [destruct w|..]. }
  apply first_free_Some in Ef as (j & Ej & Hj). simpl in Ej. subst i. pose proof (lookup_lt_Some _ _ _ Hj).
  eexists _, _. split; [done|]. simpl. pose proof (proj1 S3). rewrite u32_small by nia.
  wp_step. eapply wp_mono; [by apply ipc_msg_init_ok|]. simpl.
  intros w2 msg (a2 & m2 & Ha2 & [(-> & -> & Hl2)|(Hm & rm & rt & tx & Hl2 & Him & Hit & Hapm & ->)]); simpl in *.
  - wp_step. eapply wp_mono; [apply (free_live _ rp p); [done|simpl; rewrite Hl2, Hl1; by left|done]|].
    intros w3 [] (a3 & -> & Ha3 & Hl3). wp_step. exists a3, m2. split; [done|left]. split; [done|]. split.
    + apply (Permutation_cons_inv (a := rp)). simpl in Hl3. by rewrite <- Hl3, Hl2, Hl1.
    + exists (<[j := true]> (w_posn w)). split_and!; [done|by rewrite length_insert|]. intros i Hi.
      destruct (decide (i = j)) as [->|]; [congruence|by rewrite list_lookup_insert_ne].
  - rewrite (proj2 (Z.eqb_neq _ _) Hm). do 3 wp_step. exists a2, m2. split; [done|right]. split; [done|].
    exists j, msg, tx, rp, rm, rt. rewrite Hl1, Forall_cons in Hapm. destruct Hapm.
    split_and!; [done|done|by rewrite Hl2, Hl1|done..].
Qed.

(** C10: [pipeline_new] either fails with all memory returned and no pipeline or
    message left, or it creates a pipeline that owns a free slot of the position
    table; freeing that pipeline then returns exactly its memory and its slot, so
    that every table is as it was before. *)
Theorem pipeline_new_free (stream_hdr : Z -> Z) (pipeline_id priority comp_id : Z) (w : world A) :
  sizes_ok w -> objects_live w ->
  exists w' p, pipeline_new e stream_hdr pipeline_id priority comp_id w = Some (w', p) /\
    ((p = 0 /\ al_live (w_alloc w') ≡ₚ al_live (w_alloc w) /\ w_ppls w' = w_ppls w /\ w_msgs w' = w_msgs w) \/
     (p <> 0 /\ exists i msg,
        w_posn w !! i = Some false /\ w_posn w' = <[i := true]> (w_posn w) /\
        w_ppls w' = <[p := init_pipeline pipeline_id priority comp_id (Z.of_nat i * sizeof_posn e) msg]> (w_ppls w) /\
        exists w'', pipeline_free e p w' = Some (w'', 0) /\
          al_live (w_alloc w'') ≡ₚ al_live (w_alloc w) /\ w_ppls w'' = w_ppls w /\ w_msgs w'' = w_msgs w /\
          w_posn w'' = w_posn w /\ w_devs w'' = w_devs w /\ w_bufs w'' = w_bufs w)).
Proof.
  intros Hsz Hol. pose proof Hol as [Ha Hp Hm].
  destruct (pipeline_new_ok stream_hdr pipeline_id priority comp_id w Hsz Ha)
    as (w' & p & E & a & m & Ha' & [(-> & Hl & posn & -> & _)|(Hp0 & i & msg & tx & rp & rm & rt & Hi & Hm0 & Hl & Hrt & Hrm & Hrp & Hap & Ham & ->)]);
    eexists _, _; (split; [exact E|]); [by left|right].
  split; [done|]. exists i, msg. split_and!; [done..|].
  set (w1 := with_ppls _ _). assert (sizes_ok w1) as Hsz1.
  { destruct Hsz. constructor; [done..|]. subst w1. simpl. by rewrite length_insert. }
  pose proof (lookup_lt_Some _ _ _ Hi). destruct Hsz as [_ _ [? _] ?].
  destruct (pipeline_free_ok w1 p (init_pipeline pipeline_id priority comp_id (Z.of_nat i * sizeof_posn e) msg)
    (mk_msg (stream_hdr comp_id) (sizeof_posn e) tx) rp rm rt (al_live (w_alloc w)) i)
    as (w'' & r & Ef & -> & a2 & Ha2 & Hl2 & ->); subst w1; simpl in *;
    [apply lookup_insert_eq|done|done|apply lookup_insert_eq|rewrite u32_small by nia; done|
     by apply list_lookup_insert_eq|done..|].
  eexists. split; [exact Ef|]. simpl. split_and!; [done| | | |done|done].
  - apply delete_insert_id. by apply (fresh_lookup _ (al_live (w_alloc w)) rp).
  - apply delete_insert_id. by apply (fresh_lookup _ (al_live (w_alloc w)) rm).
  - by rewrite list_insert_insert_eq, list_insert_id.
Qed.
End life.

#[local] Instance life_allocator : Allocator mm := heap_allocator baytrail baytrail_dcache 4096 65536.

(** A machine without pipelines; the first of three slots of the table is taken. *)
Definition demo_empty : world mm :=
  mk_world ∅ ∅ ∅ (fun _ => 0) demo_mm [true; false; false] ∅ (w_data demo_world) [] [].

Lemma pipeline_new_free_witness :
  exists w' p, pipeline_new state_env (fun id => id) 7 3 9 demo_empty = Some (w', p) /\ p <> 0 /\
    w_posn w' = [true; true; false] /\
    exists w'', pipeline_free state_env p w' = Some (w'', 0) /\ w_posn w'' = [true; false; false].
Proof.
  assert ((fun x => (x.2 =? 0, w_posn x.1)) <$> pipeline_new state_env (fun id => id) 7 3 9 demo_empty =
    Some (false, [true; true; false])) as E' by (vm_compute; reflexivity).
  destruct (pipeline_new_free state_env (fun id => id) 7 3 9 demo_empty)
    as (w' & p & E & [(-> & _)|(Hp & i & msg & Hi & Hw & _ & w'' & Ef & _ & _ & _ & Hw'' & _)]).
  - constructor; [apply request_okb_ok; vm_compute; reflexivity..|simpl; lia].
  - constructor; [apply demo_mm_single| |]; intros p [? Hp]; simpl in Hp; by rewrite lookup_empty in Hp.
  - exfalso. set (o := pipeline_new _ _ _ _ _ _) in *. clearbody o. by subst o.
  - exists w', p. set (o := pipeline_new _ _ _ _ _ _) in *. clearbody o. subst o. injection E' as ? ?.
    split_and!; [done..|by exists w''].
Defined.

(** When the message cannot be allocated, here because a position does not fit
    any heap, the slot of the table stays taken. *)
Definition large_posn_env : env mm :=
  mk_env state_ops 0 (fun a p => mret 0) state_op (fun a => state_op a COMP_TRIGGER_PREPARE)
    (fun a => state_op a COMP_TRIGGER_RESET) (fun _ => 0) (fun _ n => mret n) (fun _ n => mret n)
    (fun _ _ _ => mret 0) (fun _ => mret false) 64 32 16 100000.

Example pipeline_new_leaks_slot :
  (x ← pipeline_new large_posn_env (fun id => id) 7 3 9 demo_empty; Some (x.2, w_posn x.1)) =
  Some (0, [true; true; false]).
Proof. vm_compute. reflexivity. Qed.
