(* ===== verification/PipelineComplete.v ===== *)
(** * Completing a pipeline

    [pipeline_complete] walks downstream from the source component and makes the
    pipeline the parent of every component it reaches. *)

From stdpp Require Import base list numbers option gmap sets.
From S2P Require Import Prelude StateM AudioStream Heap HeapFree HeapZones Allocator Buffer CompState Pipeline.
From S2P Require Import PipelineOps PipelineWalk PipelineThms PipelineLife.

Section complete.
Context {A : Type} `{!Allocator A}.
Implicit Types w : world A.

(** The parts of an object that its owner relies on. *)
Definition buf_part (b : comp_buffer) := (b_self b, b_stream b).
Definition ppl_part (p : pipeline) := (p_pipe_task p, p_msg p, p_posn_offset p).

(** What completing a pipeline does not touch. *)
Definition fixed_parts w :=
  (w_alloc w, w_posn w, w_msgs w, d_is_shared <$> w_devs w, d_state <$> w_devs w, buf_part <$> w_bufs w).

(** The components downstream of a component, within a pipeline. *)
Inductive downstream w (pipe_id : Z) : Z -> Z -> Prop :=
| downstream_here c : downstream w pipe_id c c
| downstream_next cur d b bf dc c :
    w_devs w !! cur = Some d -> b ∈ d_bsink_list d -> w_bufs w !! b = Some bf -> b_sink bf <> 0 ->
    w_devs w !! b_sink bf = Some dc -> d_pipe_id dc = pipe_id -> downstream w pipe_id (b_sink bf) c ->
    downstream w pipe_id cur c.

Definition has_parent w (p period priority c : Z) : Prop :=
  exists d, w_devs w !! c = Some d /\ d_pipeline d = p /\ d_period d = period /\ d_priority d = priority.

Section walk.
Context (p start : Z) (pl : pipeline) (ppls : gmap Z pipeline) (Hppls : ppls !! p = Some pl) (parts : A * list bool * gmap Z ipc_msg * gmap Z bool * gmap Z Z * gmap Z (Z * audio_stream)).

Abbreviation shape := (PipelineWalk.shape false).
Abbreviation keeps := (PipelineWalk.keeps false).

Definition completing w : Prop :=
  graph_ok w /\ fixed_parts w = parts /\ pd_start (w_data w) = start /\ pd_p (w_data w) = p /\ is_dev w start /\
  w_ppls w = ppls /\ p <> 0.

Definition in_pipe w (c : Z) : Prop :=
  exists d s, w_devs w !! c = Some d /\ w_devs w !! start = Some s /\ d_pipe_id d = d_pipe_id s.

Abbreviation Q := (fun w => has_parent w p (p_period pl) (p_priority pl)).
Abbreviation cstep := (PipelineWalk.step false completing Q).

Lemma set_parent_step w c d :
  completing w -> w_devs w !! c = Some d ->
  cstep w (with_devs w (<[c := set_parent p (p_period pl) (p_priority pl) d]> (w_devs w))).
Proof.
  intros (G & Hp & Hs & Hpp & Hst & Hpl & H0) Hd. set (w' := with_devs _ _).
  assert (keeps w w') as Kp.
  { split; [|done]. constructor; try done.
    - simpl. rewrite fmap_insert. apply insert_id. by rewrite lookup_fmap, Hd.
    - intros a d1 d2 H1 H2. simpl in H2. apply lookup_insert_Some in H2 as [[<- <-]|[_ H2]]; [|simplify_eq; by left].
      right. split; [done|]. simpl. rewrite Hpl. by exists pl. }
  split; [done|]. split.
  - intros _. split_and!; [eapply shape_graph_ok; [apply Kp|done]| |done|done|by apply (shape_is_dev (fixed := false) w), Hst; apply Kp|done|done].
    rewrite <- Hp. unfold fixed_parts. simpl. rewrite !fmap_insert.
    rewrite !insert_id; [done|by rewrite lookup_fmap, Hd|by rewrite lookup_fmap, Hd].
  - intros c' (d' & Hd' & E). destruct (decide (c' = c)) as [->|Hne].
    + eexists. split; [apply lookup_insert_eq|]. done.
    + exists d'. simpl. by rewrite lookup_insert_ne.
Qed.

Lemma complete_visit rec cur buf w :
  completing w -> is_dev w cur ->
  (forall w1, cstep w w1 -> exists w2 r, rec cur PPL_DIR_DOWNSTREAM w1 = Some (w2, r) /\ cstep w1 w2) ->
  exists w' r, pipeline_comp_complete rec cur buf PPL_DIR_DOWNSTREAM w = Some (w', r) /\ cstep w w' /\
    (stops r = false -> in_pipe w cur -> Q w' cur /\
       exists w1 w2 r1, cstep w w1 /\ rec cur PPL_DIR_DOWNSTREAM w1 = Some (w2, r1) /\ stops r1 = false /\ cstep w2 w').
Proof.
  intros HG [d Hd] Hrec. pose proof HG as (G & _ & Hs & Hpp & [s Hst] & Hpl & _).
  assert (w_ppls w !! p = Some pl) as Hlook by by rewrite Hpl.
  change (wp (pipeline_comp_complete rec cur buf PPL_DIR_DOWNSTREAM) w (fun w' r => cstep w w' /\
    (stops r = false -> in_pipe w cur -> Q w' cur /\
       exists w1 w2 r1, cstep w w1 /\ rec cur PPL_DIR_DOWNSTREAM w1 = Some (w2, r1) /\ stops r1 = false /\ cstep w2 w'))).
  unfold pipeline_comp_complete. do 4 wp_step. rewrite Hs, Hpp. do 2 wp_step.
  destruct (comp_is_single_pipeline d s) eqn:E; simpl; unfold comp_is_single_pipeline in E.
  2:{ wp_step. split; [done|]. intros _ (d' & s' & ? & ? & Ee). simplify_eq. lia. }
  do 4 wp_step. pose proof (set_parent_step w cur d HG Hd) as S1. destruct (Hrec _ S1) as (w2 & r & Hr & S2).
  exists w2, r. split; [exact Hr|]. split; [by etrans|]. intros Hst2 _. split.
  - apply S2. eexists. split; [apply lookup_insert_eq|done].
  - eexists _, w2, r. split_and!; [exact S1|exact Hr|done|done].
Qed.

Lemma complete_contract : PipelineWalk.contract false complete_ctx PPL_DIR_DOWNSTREAM completing in_pipe Q.
Proof.
  constructor.
  - by intros w [G _].
  - intros w b bf v Hb (G & Hp & H). pose proof (flag_shape (fixed := false) w b bf v Hb) as S.
    split; [by eapply shape_graph_ok|]. split; [|done]. rewrite <- Hp. unfold fixed_parts. simpl. f_equal.
    rewrite fmap_insert. apply insert_id. by rewrite lookup_fmap, Hb.
  - intros w w' c S (d & s & Hd & Hs & E).
    destruct (fmap_lookup _ _ _ _ _ (sh_devs _ _ S) Hd) as (d' & Hd' & [= _ E1 _ _ _]).
    destruct (fmap_lookup _ _ _ _ _ (sh_devs _ _ S) Hs) as (s' & Hs' & [= _ E2 _ _ _]).
    exists d', s'. split_and!; [done..|congruence].
  - done.
  - done.
  - intros rec cur buf w HG Hc _ _ Hrec. by apply complete_visit.
Qed.

Lemma downstream_path w w0 s c cur :
  w_devs w0 = w_devs w -> w_bufs w0 = w_bufs w -> w_devs w !! start = Some s ->
  downstream w (d_pipe_id s) cur c -> exists bs, path complete_ctx PPL_DIR_DOWNSTREAM in_pipe w0 cur bs c.
Proof.
  intros Ed Eb Hs. induction 1 as [c|cur d b bf dc c Hd Hb Hbf H0 Hdc Hp _ [bs IH]].
  - exists []. constructor.
  - exists (b :: bs). apply (path_next complete_ctx PPL_DIR_DOWNSTREAM in_pipe w0 cur d b (b_sink bf)); try done.
    + by rewrite Ed.
    + exists bf. rewrite Eb. by split_and!.
    + exists dc, s. by rewrite Ed.
Qed.
End walk.

(** The walk is never stopped. *)
Lemma walk_buffers_zero (ctx : walk_context A) visit dir l w w' r :
  (forall c b w w' r, visit c b w = Some (w', r) -> r = 0) -> walk_buffers ctx visit dir l w = Some (w', r) -> r = 0.
Proof.
  intros Hv. revert w. induction l as [|b l IH]; intros w; simpl; [by intros [= _ <-]|].
  intros (w1 & bf & _ & H)%bind_Some_inv. destruct (b_walking bf); [by eapply IH|].
  apply bind_Some_inv in H as (w2 & [] & _ & H). apply bind_Some_inv in H as (w3 & bf3 & _ & H).
  destruct (_ =? 0); [by eapply IH|]. apply bind_Some_inv in H as (w4 & d & _ & H). destruct (_ && _); [by eapply IH|].
  apply bind_Some_inv in H as (w5 & [] & _ & H). apply bind_Some_inv in H as (w6 & err & Herr & H).
  apply Hv in Herr as ->. apply bind_Some_inv in H as (w7 & [] & _ & H). by eapply IH.
Qed.

Lemma comp_complete_zero rec cur buf dir w w' r :
  (forall cur dir w w' r, rec cur dir w = Some (w', r) -> r = 0) ->
  pipeline_comp_complete (A := A) rec cur buf dir w = Some (w', r) -> r = 0.
Proof.
  intros Hrec. unfold pipeline_comp_complete.
  intros (w1 & data & _ & H)%bind_Some_inv. apply bind_Some_inv in H as (w2 & d & _ & H).
  apply bind_Some_inv in H as (w3 & s & _ & H). destruct (negb _); [by injection H as _ <-|].
  apply bind_Some_inv in H as (w4 & p & _ & H). apply bind_Some_inv in H as (w5 & [] & _ & H). by eapply Hrec.
Qed.

Lemma walk_complete_zero fuel start dir w w' r : walk (A := A) fuel complete_ctx start dir w = Some (w', r) -> r = 0.
Proof.
  assert (forall cur dir w w' r, pipeline_for_each_comp (A := A) fuel complete_ctx cur dir w = Some (w', r) -> r = 0) as Hrec.
  { clear start dir w w' r. induction fuel as [|fuel IH]; intros cur dir w w' r; [done|]. simpl.
    intros (w1 & d & _ & H)%bind_Some_inv. eapply walk_buffers_zero; [|exact H].
    intros c b w2 w2' r2 H2. eapply (comp_complete_zero (pipeline_for_each_comp fuel complete_ctx)); [exact IH|exact H2]. }
  intros H. eapply (comp_complete_zero (pipeline_for_each_comp fuel complete_ctx) _ 0); [exact Hrec|exact H].
Qed.

(** What completing leaves as it was; other pipelines and the flags too. *)
Record completed w w' (p : Z) : Prop := {
  cp_parts : fixed_parts w' = fixed_parts w;
  cp_flags : b_walking <$> w_bufs w' = b_walking <$> w_bufs w;
  cp_ppls q : q <> p -> w_ppls w' !! q = w_ppls w !! q;
  cp_ppl : ppl_part <$> w_ppls w' !! p = ppl_part <$> w_ppls w !! p
}.

Lemma complete_ok (fuel : nat) (data0 : pipeline_data) (p source sink : Z) (s : comp_dev) (pl : pipeline) (w : world A) :
  graph_ok w -> no_flags w -> w_devs w !! source = Some s -> w_ppls w !! p = Some pl -> (size (w_bufs w) < fuel)%nat ->
  exists w' r, pipeline_complete fuel data0 p source sink w = Some (w', r) /\ completed w w' p /\
    (p_status pl <> COMP_STATE_INIT -> r = - EINVAL /\ w' = w) /\
    (p_status pl = COMP_STATE_INIT ->
      r = 0 /\ w_ppls w' !! p = Some (set_status COMP_STATE_READY (set_ends source sink pl)) /\
      forall c, downstream w (d_pipe_id s) source c -> has_parent w' p (p_period pl) (p_priority pl) c).
Proof.
  intros G Hnf Hs Hpl Hf.
  assert (completed w w p) as Hid by by constructor.
  unfold pipeline_complete. apply wp_frame. do 2 wp_step.
  destruct (p_status pl =? COMP_STATE_INIT) eqn:Est; simpl.
  2:{ wp_step. split_and!; [done| |lia]. intros _. split; [done|]. by destruct w. }
  unfold walk_with. do 3 wp_step. set (w0 := with_pipelines _ _).
  assert (p <> 0) as H0 by (intros ->; apply (go_null _ G); by exists pl).
  assert (completing p source (w_ppls w) (fixed_parts w) w0) as HG.
  { split_and!; try done; [|by exists s]. destruct G. by constructor. }
  destruct (walk_spec _ _ _ _ _ (complete_contract p source pl (w_ppls w) Hpl (fixed_parts w)) fuel w0 source)
    as (w1 & r & Hr & (K1 & HG1 & _) & Hcov); [done|by exists s|done| |done|].
  { pose proof (open_buffers_size w0). simpl in *. lia. }
  exists w1, r. split; [exact Hr|]. destruct (HG1 HG) as (_ & Hparts & _ & _ & _ & Hpl1 & _).
  assert (w_ppls w1 !! p = Some pl) as Hlook by by rewrite Hpl1. do 3 wp_step. split_and!.
  - constructor; simpl; [exact Hparts|apply K1| |by rewrite lookup_insert_eq, Hpl].
    intros q Hq. by rewrite lookup_insert_ne, Hpl1.
  - lia.
  - intros _. pose proof (walk_complete_zero _ _ _ _ _ _ Hr) as Hr0. split; [done|]. split; [apply lookup_insert_eq|].
    intros c Hc. assert (stops r = false) as Hst by by rewrite Hr0.
    destruct (downstream_path source w w0 s c source) as [bs Hbs]; [done..|]. eapply (Hcov Hst); [by exists s, s|exact Hbs].
Qed.

(** C9: [pipeline_complete] of a new pipeline ends on every graph without dangling
    pointers, cyclic ones included, and returns 0. Every component downstream of the source within its
    pipeline then has the pipeline as its parent, with its period and priority; the
    pipeline knows its ends and is ready. A pipeline that is not new is refused
    without any change. *)
Theorem pipeline_complete_all (fuel : nat) (data0 : pipeline_data) (p source sink : Z) (s : comp_dev) (pl : pipeline) (w : world A) :
  graph_ok w -> no_flags w -> w_devs w !! source = Some s -> w_ppls w !! p = Some pl -> (size (w_bufs w) < fuel)%nat ->
  exists w' r, pipeline_complete fuel data0 p source sink w = Some (w', r) /\ completed w w' p /\
    (p_status pl <> COMP_STATE_INIT -> r = - EINVAL /\ w' = w) /\
    (p_status pl = COMP_STATE_INIT ->
      r = 0 /\ w_ppls w' !! p = Some (set_status COMP_STATE_READY (set_ends source sink pl)) /\
      forall c, downstream w (d_pipe_id s) source c -> has_parent w' p (p_period pl) (p_priority pl) c).
Proof. apply complete_ok. Qed.
End complete.

(** Host, volume and DAI that have no pipeline yet, with a loop from the DAI back. *)
Definition demo_new : world mm := mk_world
  {[1 := demo_dev 1 0 0 SOF_COMP_HOST [102] [100]; 2 := demo_dev 2 0 0 5 [100] [101];
    3 := demo_dev 3 0 0 SOF_COMP_DAI [101] [102]]}
  (w_bufs demo_world) {[50 := demo_ppl COMP_STATE_INIT (mk_trigger COMP_TRIGGER_NO_ACTION 0 0 false)]}
  (fun _ => 0) demo_mm [] ∅ (w_data demo_world) [] [].

Lemma demo_new_graph : graph_ok demo_new.
Proof.
  constructor.
  - intros a d b Ha Hb. simpl in Ha. small_map Ha; simpl in Hb; set_unfold; destruct_or!; subst; first [done|by eexists].
  - intros a b c Ha Hc H0. simpl in Ha. small_map Ha; simpl in Hc; destruct Hc as [->| ->]; by eexists.
  - intros a d Ha H0. simpl in Ha. small_map Ha; done.
  - by intros [].
Qed.

Lemma pipeline_complete_all_witness :
  exists w' r, pipeline_complete 4 (w_data demo_world) 50 1 3 demo_new = Some (w', r) /\ r = 0 /\
    has_parent w' 50 1000 0 3.
Proof.
  destruct (pipeline_complete_all 4 (w_data demo_world) 50 1 3 (demo_dev 1 0 0 SOF_COMP_HOST [102] [100])
    (demo_ppl COMP_STATE_INIT (mk_trigger COMP_TRIGGER_NO_ACTION 0 0 false)) demo_new)
    as (w' & r & H & _ & _ & Hc); [apply demo_new_graph|apply demo_no_flags|reflexivity|reflexivity|vm_compute; lia|].
  destruct (Hc eq_refl) as (-> & _ & Hd). exists w', 0. split; [exact H|]. split; [done|]. apply Hd.
  eapply (downstream_next _ _ 1 _ 100); [reflexivity|by left|reflexivity|done|reflexivity|done|].
  eapply (downstream_next _ _ _ _ 101); [reflexivity|by left|reflexivity|done|reflexivity|done|]. constructor.
Defined.
