(* ===== verification/LlSchedule.v ===== *)
(** * The low-latency scheduler

    [src/schedule/ll_schedule.c], the domain operations of
    [ll_schedule_domain.h] and the timer domain of [timer_domain.c], for the
    scheduler of one core.

    A task is named by the address of its list item; the tasks of a scheduler are
    an intrusive list with its links in memory. The calls into the timer driver
    are recorded in a trace; the time is an arbitrary function of the number of
    times it was read. *)

From stdpp Require Import base list numbers option gmap.
From S2P Require Import Prelude StateM IntrusiveList.

(** ** Data *)

Abbreviation SOF_SCHEDULE_EDF := 0 (only parsing).
Abbreviation SOF_SCHEDULE_LL_TIMER := 1 (only parsing).
Abbreviation SOF_SCHEDULE_COUNT := 3 (only parsing).

Abbreviation SOF_TASK_STATE_INIT := 0 (only parsing).
Abbreviation SOF_TASK_STATE_QUEUED := 1 (only parsing).
Abbreviation SOF_TASK_STATE_PENDING := 2 (only parsing).
Abbreviation SOF_TASK_STATE_RUNNING := 3 (only parsing).
Abbreviation SOF_TASK_STATE_PREEMPTED := 4 (only parsing).
Abbreviation SOF_TASK_STATE_COMPLETED := 5 (only parsing).
Abbreviation SOF_TASK_STATE_FREE := 6 (only parsing).
Abbreviation SOF_TASK_STATE_CANCEL := 7 (only parsing).
Abbreviation SOF_TASK_STATE_RESCHEDULE := 8 (only parsing).

Abbreviation SOF_TASK_SKIP_COUNT := 65535 (only parsing).
Abbreviation LL_TIMER_SET_OVERHEAD_TICKS := 1000 (only parsing).
Abbreviation SOF_SCHEDULER_FREE_IRQ_ONLY := 1 (only parsing).
Abbreviation CLOCK_NOTIFY_POST := 1 (only parsing).

(** [t_registrable] is the field of the [pipeline_task] around the task. *)
Record task := mk_task {
  t_start : Z;
  t_type : Z;
  t_priority : Z;
  t_core : Z;
  t_flags : Z;
  t_state : Z;
  t_priv_data : Z;
  t_registrable : bool
}.

Record ll_task_pdata := mk_pdata {
  lp_period : Z;
  lp_ratio : Z;
  lp_skip_cnt : Z
}.

Record ll_schedule_domain := mk_domain {
  dm_next_tick : Z;
  dm_new_target_tick : Z;
  dm_total_num_tasks : Z;
  dm_enabled_cores : Z;
  dm_ticks_per_ms : Z;
  dm_type : Z;
  dm_clk : Z;
  dm_synchronous : bool;
  dm_full_sync : bool;
  dm_enabled : Z -> bool
}.

Inductive ll_event :=
  | TaskRun (task : Z)
  | TaskCancel (task : Z)
  | TimerRegister (core arg : Z)
  | TimerUnregister (core arg : Z)
  | TimerEnable (core : Z)
  | TimerDisable (core : Z)
  | TimerSet (ticks : Z)
  | TimerClear
  | LlPostRun
  | Rfree (ptr : Z)
  | NotifierUnregister (clk : Z).

(** [l_arg] is the [arg] of the timer domain for each core, [l_reads] counts the
    reads of the time. *)
Record sched := mk_sched {
  l_tasks : gmap Z task;
  l_pdata : gmap Z ll_task_pdata;
  l_links : links;
  l_num_tasks : Z;
  l_domain : ll_schedule_domain;
  l_arg : Z -> Z;
  l_reads : nat;
  l_trace : list ll_event
}.

Abbreviation LL := (ST sched).

(** ** Updates *)

Definition set_start (v : Z) (t : task) : task := mk_task v (t_type t) (t_priority t) (t_core t)
  (t_flags t) (t_state t) (t_priv_data t) (t_registrable t).
Definition set_state (v : Z) (t : task) : task := mk_task (t_start t) (t_type t) (t_priority t) (t_core t)
  (t_flags t) v (t_priv_data t) (t_registrable t).
Definition set_priv_data (v : Z) (t : task) : task := mk_task (t_start t) (t_type t) (t_priority t)
  (t_core t) (t_flags t) (t_state t) v (t_registrable t).

Definition set_period (v : Z) (p : ll_task_pdata) : ll_task_pdata := mk_pdata v (lp_ratio p) (lp_skip_cnt p).
Definition set_ratio (v : Z) (p : ll_task_pdata) : ll_task_pdata := mk_pdata (lp_period p) v (lp_skip_cnt p).
Definition set_skip_cnt (v : Z) (p : ll_task_pdata) : ll_task_pdata := mk_pdata (lp_period p) (lp_ratio p) v.

Definition set_next_tick (v : Z) (d : ll_schedule_domain) := mk_domain v (dm_new_target_tick d)
  (dm_total_num_tasks d) (dm_enabled_cores d) (dm_ticks_per_ms d) (dm_type d) (dm_clk d)
  (dm_synchronous d) (dm_full_sync d) (dm_enabled d).
Definition set_new_target_tick (v : Z) (d : ll_schedule_domain) := mk_domain (dm_next_tick d) v
  (dm_total_num_tasks d) (dm_enabled_cores d) (dm_ticks_per_ms d) (dm_type d) (dm_clk d)
  (dm_synchronous d) (dm_full_sync d) (dm_enabled d).
Definition set_total (v : Z) (d : ll_schedule_domain) := mk_domain (dm_next_tick d) (dm_new_target_tick d)
  v (dm_enabled_cores d) (dm_ticks_per_ms d) (dm_type d) (dm_clk d)
  (dm_synchronous d) (dm_full_sync d) (dm_enabled d).
Definition set_enabled (core : Z) (b : bool) (cores : Z) (d : ll_schedule_domain) :=
  mk_domain (dm_next_tick d) (dm_new_target_tick d) (dm_total_num_tasks d) cores (dm_ticks_per_ms d)
    (dm_type d) (dm_clk d) (dm_synchronous d) (dm_full_sync d)
    (fun c => if c =? core then b else dm_enabled d c).
Definition set_ticks_per_ms (v : Z) (d : ll_schedule_domain) := mk_domain (dm_next_tick d)
  (dm_new_target_tick d) (dm_total_num_tasks d) (dm_enabled_cores d) v (dm_type d) (dm_clk d)
  (dm_synchronous d) (dm_full_sync d) (dm_enabled d).

Definition with_tasks (s : sched) m := mk_sched m (l_pdata s) (l_links s) (l_num_tasks s) (l_domain s)
  (l_arg s) (l_reads s) (l_trace s).
Definition with_pdata (s : sched) m := mk_sched (l_tasks s) m (l_links s) (l_num_tasks s) (l_domain s)
  (l_arg s) (l_reads s) (l_trace s).
Definition with_links (s : sched) L := mk_sched (l_tasks s) (l_pdata s) L (l_num_tasks s) (l_domain s)
  (l_arg s) (l_reads s) (l_trace s).
Definition with_num_tasks (s : sched) n := mk_sched (l_tasks s) (l_pdata s) (l_links s) n (l_domain s)
  (l_arg s) (l_reads s) (l_trace s).
Definition with_domain (s : sched) d := mk_sched (l_tasks s) (l_pdata s) (l_links s) (l_num_tasks s) d
  (l_arg s) (l_reads s) (l_trace s).
Definition with_arg (s : sched) a := mk_sched (l_tasks s) (l_pdata s) (l_links s) (l_num_tasks s)
  (l_domain s) a (l_reads s) (l_trace s).
Definition with_reads (s : sched) n := mk_sched (l_tasks s) (l_pdata s) (l_links s) (l_num_tasks s)
  (l_domain s) (l_arg s) n (l_trace s).
Definition with_trace (s : sched) t := mk_sched (l_tasks s) (l_pdata s) (l_links s) (l_num_tasks s)
  (l_domain s) (l_arg s) (l_reads s) t.

(** ** Primitive steps *)

Definition get_task (a : Z) : LL task := fun s => t ← l_tasks s !! a; Some (s, t).
Definition mod_task (a : Z) (f : task -> task) : LL unit := fun s =>
  t ← l_tasks s !! a; Some (with_tasks s (<[a := f t]> (l_tasks s)), tt).
Definition get_pdata (a : Z) : LL ll_task_pdata := fun s => p ← l_pdata s !! a; Some (s, p).
Definition mod_pdata (a : Z) (f : ll_task_pdata -> ll_task_pdata) : LL unit := fun s =>
  p ← l_pdata s !! a; Some (with_pdata s (<[a := f p]> (l_pdata s)), tt).
Definition mod_domain (f : ll_schedule_domain -> ll_schedule_domain) : LL unit :=
  modify (fun s => with_domain s (f (l_domain s))).
Definition mod_links (f : links -> links) : LL unit := modify (fun s => with_links s (f (l_links s))).
Definition emit (ev : ll_event) : LL unit := modify (fun s => with_trace s (l_trace s ++ [ev])).

(** [atomic_add] and [atomic_sub] return the old value. *)
Definition add_num_tasks (v : Z) : LL Z := fun s =>
  Some (with_num_tasks s (i32 (l_num_tasks s + v)), l_num_tasks s).
Definition add_total (v : Z) : LL unit :=
  mod_domain (fun d => set_total (i32 (dm_total_num_tasks d + v)) d).

(** The platform: the core, the addresses of the scheduler's data and of its list
    head, the time at each read, the timer hardware and the result of registering
    the timer interrupt. *)
Record platform := mk_platform {
  cpu_get_id : Z;
  pf_sch : Z;
  pf_tasks : Z;
  pf_clock : nat -> Z;
  platform_timer_set : Z -> Z;
  pf_timer_register : Z
}.

(** ** Scheduling domains *)

Record ll_schedule_domain_ops := mk_domain_ops {
  op_register : Z -> Z -> LL Z;
  op_unregister : Z -> Z -> LL Z;
  op_enable : option (Z -> LL unit);
  op_disable : option (Z -> LL unit);
  op_set : option (Z -> LL unit);
  op_clear : option (LL unit);
  (** the result and the scheduling component, which the operation may set *)
  op_is_pending : Z -> Z -> LL (bool * Z)
}.

Section domain.
Context (ops : ll_schedule_domain_ops).

Definition domain_set (start : Z) : LL unit :=
  match op_set ops with
  | Some f => f start
  | None => mod_domain (set_next_tick start)
  end.

Definition domain_clear : LL unit :=
  match op_clear ops with Some f => f | None => mret tt end ;;
  mod_domain (set_next_tick UINT64_MAX).

Definition domain_register (task arg : Z) : LL Z :=
  ret ← op_register ops task arg;
  (if ret =? 0 then add_total 1 else mret tt) ;;
  mret ret.

Definition domain_unregister (task num_tasks : Z) : LL unit :=
  (if task =? 0 then mret tt else add_total (- 1)) ;;
  ret ← op_unregister ops task num_tasks;
  if (ret <? 0) && negb (task =? 0) then add_total 1 else mret tt.

Definition domain_enable (core : Z) : LL unit :=
  d ← gets l_domain;
  match op_enable ops with
  | Some f =>
      if dm_enabled d core then mret tt else
      f core ;;
      mod_domain (fun d => set_enabled core true (i32 (dm_enabled_cores d + 1)) d)
  | None => mret tt
  end.

Definition domain_disable (core : Z) : LL unit :=
  d ← gets l_domain;
  match op_disable ops with
  | Some f =>
      if dm_enabled d core then
        f core ;;
        mod_domain (fun d => set_enabled core false (i32 (dm_enabled_cores d - 1)) d)
      else mret tt
  | None => mret tt
  end.

Definition domain_is_pending (task comp : Z) : LL (bool * Z) := op_is_pending ops task comp.
End domain.

Definition domain_init (type clk : Z) (synchronous : bool) (ticks_per_ms : Z) : ll_schedule_domain :=
  mk_domain UINT64_MAX UINT64_MAX 0 0 ticks_per_ms type clk synchronous false (fun _ => false).

(** ** The timer domain *)

Section timer.
Context (pf : platform).

Definition platform_timer_get : LL Z := fun s => Some (with_reads s (S (l_reads s)), pf_clock pf (l_reads s)).

Definition timer_domain_register (task arg : Z) : LL Z :=
  a ← gets l_arg;
  let core := cpu_get_id pf in
  if negb (a core =? 0) then mret 0 else
  modify (fun s => with_arg s (fun c => if c =? core then arg else l_arg s c)) ;;
  emit (TimerRegister core arg) ;;
  mret (pf_timer_register pf).

Definition timer_domain_unregister (task num_tasks : Z) : LL Z :=
  if negb (task =? 0) then mret 0 else
  a ← gets l_arg;
  let core := cpu_get_id pf in
  if (a core =? 0) || negb (num_tasks =? 0) then mret 0 else
  emit (TimerUnregister core (a core)) ;;
  modify (fun s => with_arg s (fun c => if c =? core then 0 else l_arg s c)) ;;
  mret 0.

Definition timer_domain_set (start : Z) : LL unit :=
  time ← platform_timer_get;
  let ticks_req := Z.max start (u64 (time + LL_TIMER_SET_OVERHEAD_TICKS)) in
  emit (TimerSet ticks_req) ;;
  let ticks_set := u64 (platform_timer_set pf ticks_req) in
  mod_domain (set_next_tick ticks_set).

Definition timer_domain_is_pending (task comp : Z) : LL (bool * Z) :=
  t ← get_task task;
  time ← platform_timer_get;
  mret (t_start t <=? time, comp).

Definition timer_domain_ops : ll_schedule_domain_ops :=
  mk_domain_ops timer_domain_register timer_domain_unregister (Some (fun core => emit (TimerEnable core)))
    (Some (fun core => emit (TimerDisable core))) (Some timer_domain_set) (Some (emit TimerClear))
    timer_domain_is_pending.
End timer.

(** ** The scheduler

    [run] is what the tasks do: [task->ops.run] of each. *)

Section scheduler.
Context (pf : platform) (ops : ll_schedule_domain_ops) (run : Z -> LL Z) (fuel : nat).

(** The tasks of the list, for the loops that do not change the links. *)
Definition list_tasks : LL (list Z) := fun s =>
  l ← list_for_item fuel (l_links s) (nx (l_links s) (pf_tasks pf)) (pf_tasks pf); Some (s, l).

Definition task_run (task : Z) : LL Z := emit (TaskRun task) ;; run task.

Fixpoint pending_scan (l : list Z) (sched_comp pending_count : Z) : LL (Z * Z) :=
  match l with
  | [] => mret (sched_comp, pending_count)
  | task :: l =>
      t ← get_task task;
      if negb (t_state t =? SOF_TASK_STATE_QUEUED) && negb (t_state t =? SOF_TASK_STATE_RESCHEDULE)
      then pending_scan l sched_comp pending_count else
      r ← domain_is_pending ops task sched_comp;
      if r.1 : bool then
        mod_task task (set_state SOF_TASK_STATE_PENDING) ;;
        pending_scan l r.2 (u32 (pending_count + 1))
      else pending_scan l r.2 pending_count
  end.

Fixpoint pending_loop (n : nat) (pending_count : Z) : LL Z :=
  match n with
  | O => fault
  | S n =>
      l ← list_tasks;
      r ← pending_scan l 0 pending_count;
      if r.1 =? 0 then mret r.2 else pending_loop n r.2
  end.

Definition schedule_ll_is_pending : LL bool :=
  pending_count ← pending_loop fuel 0; mret (pending_count >? 0).

Definition schedule_ll_task_update_start (task : Z) : LL unit :=
  t ← get_task task;
  pdata ← get_pdata (t_priv_data t);
  d ← gets l_domain;
  let next := u64 (dm_ticks_per_ms d * lp_period pdata) / 1000 in
  mod_task task (set_start (u64 (t_start t + next))).

Definition schedule_ll_task_done (task : Z) : LL unit :=
  mod_links (fun L => list_item_del L task) ;;
  old ← add_num_tasks (- 1);
  domain_unregister ops task (u32 (old - 1)).

Fixpoint execute_loop (n : nat) (wlist : Z) : LL unit :=
  match n with
  | O => fault
  | S n =>
      if wlist =? pf_tasks pf then mret tt else
      t ← get_task wlist;
      if negb (t_state t =? SOF_TASK_STATE_PENDING) then
        L ← gets l_links; execute_loop n (nx L wlist)
      else
        mod_task wlist (set_state SOF_TASK_STATE_RUNNING) ;;
        state ← task_run wlist;
        mod_task wlist (set_state state) ;;
        L ← gets l_links;
        (if state =? SOF_TASK_STATE_COMPLETED then schedule_ll_task_done wlist
         else schedule_ll_task_update_start wlist) ;;
        execute_loop n (nx L wlist)
  end.

Definition schedule_ll_tasks_execute : LL unit :=
  L ← gets l_links; execute_loop fuel (nx L (pf_tasks pf)).

(** The tick and the task of the earliest task to be rescheduled. *)
Fixpoint earliest (l : list Z) (next_tick task_take : Z) : LL (Z * Z) :=
  match l with
  | [] => mret (next_tick, task_take)
  | task :: l =>
      t ← get_task task;
      if negb (t_state t =? SOF_TASK_STATE_RESCHEDULE) then earliest l next_tick task_take else
      if t_start t <? next_tick then earliest l (t_start t) task else earliest l next_tick task_take
  end.

Definition schedule_ll_client_reschedule : LL unit :=
  d ← gets l_domain;
  if dm_total_num_tasks d =? 0 then mret tt else
  l ← list_tasks;
  r ← earliest l (dm_new_target_tick d) 0;
  if r.2 =? 0 then mret tt else mod_domain (set_new_target_tick r.1).

(** Until the tasks have run the domain is disabled on this core. *)
Definition tasks_run_begin : LL unit :=
  domain_disable ops (cpu_get_id pf) ;;
  d ← gets l_domain;
  if dm_enabled_cores d =? 0 then domain_clear ops else mret tt.

Definition tasks_run_end : LL unit :=
  time ← platform_timer_get pf;
  d ← gets l_domain;
  (if dm_new_target_tick d <? time then mod_domain (set_new_target_tick UINT64_MAX) else mret tt) ;;
  schedule_ll_client_reschedule ;;
  d ← gets l_domain;
  (if dm_new_target_tick d <? dm_next_tick d then domain_set ops (dm_new_target_tick d) else mret tt) ;;
  num_tasks ← gets l_num_tasks;
  if num_tasks =? 0 then mret tt else domain_enable ops (cpu_get_id pf).

Definition schedule_ll_tasks_run : LL unit :=
  tasks_run_begin ;;
  pending ← schedule_ll_is_pending;
  (if pending : bool then schedule_ll_tasks_execute else mret tt) ;;
  emit LlPostRun ;;
  tasks_run_end.

(** The start of a new task. *)
Definition set_task_start (task period reference task_start_ticks task_start : Z) : LL unit :=
  d ← gets l_domain;
  if negb (reference =? 0) then
    r ← get_task reference; mod_task task (set_start (t_start r))
  else if dm_next_tick d =? UINT64_MAX then
    domain_set ops task_start ;;
    d ← gets l_domain; mod_task task (set_start (dm_next_tick d))
  else if period =? 0 then
    mod_task task (set_start task_start) ;;
    if task_start <? dm_next_tick d then domain_set ops task_start else mret tt
  else if u64 (task_start + task_start_ticks) <? dm_next_tick d then
    if task_start_ticks =? 0 then fault else
    let offset := u64 (dm_next_tick d - task_start) mod task_start_ticks in
    domain_set ops (u64 (task_start + offset)) ;;
    d ← gets l_domain; mod_task task (set_start (dm_next_tick d))
  else mod_task task (set_start (dm_next_tick d)).

Definition schedule_ll_domain_set (task start period reference : Z) : LL Z :=
  ret ← domain_register ops task (pf_sch pf);
  if ret <? 0 then mret ret else
  d ← gets l_domain;
  let task_start_us := if period =? 0 then start else period in
  let task_start_ticks := u64 (dm_ticks_per_ms d * task_start_us) / 1000 in
  time ← platform_timer_get pf;
  set_task_start task period reference task_start_ticks (u64 (task_start_ticks + time)) ;;
  add_num_tasks 1 ;;
  domain_enable ops (cpu_get_id pf) ;;
  mret ret.

Definition schedule_ll_domain_clear (task : Z) : LL unit :=
  old ← add_num_tasks (- 1);
  (if old =? 1 then domain_disable ops (cpu_get_id pf) else mret tt) ;;
  num_tasks ← gets l_num_tasks;
  domain_unregister ops task (u32 num_tasks).

(** The item before which a task of the priority belongs: the first task with a
    larger number, or the head. *)
Fixpoint insert_position (priority : Z) (l : list Z) : LL Z :=
  match l with
  | [] => mret (pf_tasks pf)
  | curr_task :: l =>
      t ← get_task curr_task;
      if priority <? t_priority t then mret curr_task else insert_position priority l
  end.

Definition schedule_ll_task_insert (task : Z) : LL unit :=
  t ← get_task task;
  l ← list_tasks;
  pos ← insert_position (t_priority t) l;
  mod_links (fun L => list_item_append L task pos).

Definition schedule_ll_task_insert_before (task before : Z) : LL unit :=
  mod_links (fun L => list_item_append L task before).

Definition schedule_ll_task_insert_after (task after : Z) : LL unit :=
  mod_links (fun L => list_item_prepend L task after).

Fixpoint find_registrable (l : list Z) : LL Z :=
  match l with
  | [] => mret 0
  | curr_task :: l => t ← get_task curr_task; if t_registrable t then mret curr_task else find_registrable l
  end.

(** [-EINVAL] for a task with a period shorter than that of the registrable task. *)
Fixpoint update_ratios (l : list Z) (period reg_pdata : Z) : LL Z :=
  match l with
  | [] => mret 0
  | curr_task :: l =>
      t ← get_task curr_task;
      pdata ← get_pdata (t_priv_data t);
      reg ← get_pdata reg_pdata;
      if lp_period pdata <? lp_period reg then mret (- EINVAL) else
      if lp_period reg =? 0 then fault else
      mod_pdata (t_priv_data t) (set_ratio (u16 (period / lp_period reg))) ;;
      update_ratios l period reg_pdata
  end.

Definition full_sync_ratios (task period : Z) (l : list Z) : LL Z :=
  t ← get_task task;
  mod_pdata (t_priv_data t) (set_ratio 1) ;;
  mod_pdata (t_priv_data t) (set_skip_cnt (u16 SOF_TASK_SKIP_COUNT)) ;;
  registrable_task ← find_registrable l;
  if registrable_task =? 0 then mret 0 else
  r ← get_task registrable_task;
  update_ratios l period (t_priv_data r).

Definition schedule_ll_task_common (task start period reference : Z) (before : bool) : LL Z :=
  l ← list_tasks;
  if existsb (Z.eqb task) l then mret 0 else
  t ← get_task task;
  mod_pdata (t_priv_data t) (set_period period) ;;
  d ← gets l_domain;
  err ← (if dm_full_sync d then full_sync_ratios task period l else mret 0);
  if negb (err =? 0) then mret err else
  (if reference =? 0 then schedule_ll_task_insert task
   else if before then schedule_ll_task_insert_before task reference
   else schedule_ll_task_insert_after task reference) ;;
  mod_task task (set_state SOF_TASK_STATE_QUEUED) ;;
  ret ← schedule_ll_domain_set task start period reference;
  (if ret <? 0 then mod_links (fun L => list_item_del L task) else mret tt) ;;
  mret ret.

Definition schedule_ll_task (task start period : Z) : LL Z := schedule_ll_task_common task start period 0 false.

Definition schedule_ll_task_before (task start period before : Z) : LL Z :=
  schedule_ll_task_common task start period before true.

Definition schedule_ll_task_after (task start period after : Z) : LL Z :=
  schedule_ll_task_common task start period after false.

Definition schedule_task_init (task type priority core flags : Z) : LL Z :=
  if type >=? SOF_SCHEDULE_COUNT then mret (- EINVAL) else
  mod_task task (fun t => mk_task (t_start t) type priority core flags SOF_TASK_STATE_INIT (t_priv_data t)
    (t_registrable t)) ;;
  mret 0.

(** [ll_pdata] is the memory that [rzalloc] returns. *)
Definition schedule_task_init_ll (ll_pdata task type priority core flags : Z) : LL Z :=
  ret ← schedule_task_init task type priority core flags;
  if ret <? 0 then mret ret else
  t ← get_task task;
  if negb (t_priv_data t =? 0) then mret (- EEXIST) else
  if ll_pdata =? 0 then mret (- ENOMEM) else
  modify (fun s => with_pdata s (<[ll_pdata := mk_pdata 0 0 0]> (l_pdata s))) ;;
  mod_task task (set_priv_data ll_pdata) ;;
  mret 0.

Definition schedule_ll_task_free (task : Z) : LL Z :=
  mod_task task (set_state SOF_TASK_STATE_FREE) ;;
  t ← get_task task;
  emit (Rfree (t_priv_data t)) ;;
  modify (fun s => with_pdata s (base.delete (t_priv_data t) (l_pdata s))) ;;
  mod_task task (set_priv_data 0) ;;
  mret 0.

Definition schedule_ll_task_cancel (task : Z) : LL Z :=
  emit (TaskCancel task) ;;
  l ← list_tasks;
  (if existsb (Z.eqb task) l then
     schedule_ll_domain_clear task ;;
     mod_task task (set_state SOF_TASK_STATE_CANCEL) ;;
     mod_links (fun L => list_item_del L task)
   else mret tt) ;;
  mret 0.

Definition reschedule_ll_task (task start : Z) : LL Z :=
  d ← gets l_domain;
  now ← platform_timer_get pf;
  let time := u64 (u64 (dm_ticks_per_ms d * start) / 1000 + now) in
  l ← list_tasks;
  (if existsb (Z.eqb task) l then mod_task task (set_start time) else mret tt) ;;
  mret 0.

Definition scheduler_free_ll (flags : Z) : LL unit :=
  domain_unregister ops 0 0 ;;
  d ← gets l_domain;
  if Z.land flags SOF_SCHEDULER_FREE_IRQ_ONLY =? 0 then emit (NotifierUnregister (dm_clk d)) else mret tt.

Fixpoint recalculate (l : list Z) (current old_ticks_per_msec : Z) : LL unit :=
  match l with
  | [] => mret tt
  | task :: l =>
      t ← get_task task;
      d ← gets l_domain;
      if old_ticks_per_msec =? 0 then fault else
      let delta_ms := u64 (t_start t - current) / old_ticks_per_msec in
      mod_task task (set_start
        (if delta_ms =? 0 then u64 (current + Z.shiftr (dm_ticks_per_ms d) 3)
         else u64 (current + dm_ticks_per_ms d * delta_ms))) ;;
      recalculate l current old_ticks_per_msec
  end.

Definition ll_scheduler_recalculate_tasks (old_ticks_per_msec : Z) : LL unit :=
  current ← platform_timer_get pf;
  l ← list_tasks;
  recalculate l current old_ticks_per_msec.

(** [ticks_per_ms] is what [clock_ms_to_ticks] returns for the new frequency. *)
Definition ll_scheduler_notify (message old_ticks_per_msec ticks_per_ms : Z) : LL unit :=
  if message =? CLOCK_NOTIFY_POST then
    mod_domain (set_ticks_per_ms ticks_per_ms) ;;
    ll_scheduler_recalculate_tasks old_ticks_per_msec
  else mret tt.
End scheduler.

(** The scheduler as [scheduler_init_ll] leaves it on a domain. *)
Definition scheduler_init_ll (pf : platform) (tasks : gmap Z task) (L : links)
    (domain : ll_schedule_domain) : sched :=
  mk_sched tasks ∅ (list_init L (pf_tasks pf)) 0 domain (fun _ => 0) 0 [].
