(* ===== verification/LlThms.v ===== *)
(** * The low-latency scheduler: what it guarantees

    The theorems are about the scheduler on the timer domain. *)

From stdpp Require Import base list numbers option gmap.
From S2P Require Import Prelude StateM IntrusiveList LlSchedule.

(** ** Steps of the computations *)

Lemma wp_get_task a t s (P : sched -> task -> Prop) :
  l_tasks s !! a = Some t -> P s t -> wp (get_task a) s P.
Proof. intros H HP. exists s, t. unfold get_task. by rewrite H. Qed.

Lemma wp_mod_task a t f s (P : sched -> unit -> Prop) :
  l_tasks s !! a = Some t -> P (with_tasks s (<[a := f t]> (l_tasks s))) tt -> wp (mod_task a f) s P.
Proof. intros H HP. eexists _, tt. unfold mod_task. by rewrite H. Qed.

Lemma wp_get_pdata a p s (P : sched -> ll_task_pdata -> Prop) :
  l_pdata s !! a = Some p -> P s p -> wp (get_pdata a) s P.
Proof. intros H HP. exists s, p. unfold get_pdata. by rewrite H. Qed.

Lemma wp_mod_pdata a p f s (P : sched -> unit -> Prop) :
  l_pdata s !! a = Some p -> P (with_pdata s (<[a := f p]> (l_pdata s))) tt -> wp (mod_pdata a f) s P.
Proof. intros H HP. eexists _, tt. unfold mod_pdata. by rewrite H. Qed.

Lemma wp_add_num_tasks v s (P : sched -> Z -> Prop) :
  P (with_num_tasks s (i32 (l_num_tasks s + v))) (l_num_tasks s) -> wp (add_num_tasks v) s P.
Proof. intros HP. by eexists _, _. Qed.

Lemma wp_timer_get pf s (P : sched -> Z -> Prop) :
  P (with_reads s (S (l_reads s))) (pf_clock pf (l_reads s)) -> wp (platform_timer_get pf) s P.
Proof. intros HP. by eexists _, _. Qed.

Lemma wp_if {S B} (b : bool) (m1 m2 : ST S B) s P :
  (b = true -> wp m1 s P) -> (b = false -> wp m2 s P) -> wp (if b then m1 else m2) s P.
Proof. destruct b; auto. Qed.

Ltac wp_step :=
  match goal with
  | |- wp (_ ≫= _) _ _ => apply wp_bind
  | |- wp (mret _) _ _ => apply wp_ret
  | |- wp (gets _) _ _ => apply wp_gets
  | |- wp (modify _) _ _ => apply wp_modify
  | |- wp (emit _) _ _ => apply wp_modify
  | |- wp (mod_links _) _ _ => apply wp_modify
  | |- wp (mod_domain _) _ _ => apply wp_modify
  | |- wp (add_total _) _ _ => apply wp_modify
  | |- wp (add_num_tasks _) _ _ => apply wp_add_num_tasks
  | |- wp (platform_timer_get _) _ _ => apply wp_timer_get
  | |- wp (get_task _) _ _ => eapply wp_get_task; [eassumption|]
  | |- wp (mod_task _ _) _ _ => eapply wp_mod_task; [eassumption|]
  | |- wp (get_pdata _) _ _ => eapply wp_get_pdata; [eassumption|]
  | |- wp (mod_pdata _ _) _ _ => eapply wp_mod_pdata; [eassumption|]
  end; cbv beta zeta.

(** The tasks that ran and those that were cancelled, in the order of the trace. *)
Definition ran (tr : list ll_event) : list Z := omap (fun e => match e with TaskRun t => Some t | _ => None end) tr.
Definition cancelled (tr : list ll_event) : list Z :=
  omap (fun e => match e with TaskCancel t => Some t | _ => None end) tr.

(** A step of the domain: the tasks and their number stay. *)
Record domain_step (s s' : sched) : Prop := {
  ds_tasks : l_tasks s' = l_tasks s;
  ds_pdata : l_pdata s' = l_pdata s;
  ds_links : l_links s' = l_links s;
  ds_num : l_num_tasks s' = l_num_tasks s;
  ds_total : dm_total_num_tasks (l_domain s') = dm_total_num_tasks (l_domain s);
  ds_ticks : dm_ticks_per_ms (l_domain s') = dm_ticks_per_ms (l_domain s);
  ds_sync : dm_full_sync (l_domain s') = dm_full_sync (l_domain s);
  ds_reads : (l_reads s <= l_reads s')%nat;
  ds_ran : ran (l_trace s') = ran (l_trace s);
  ds_cancelled : cancelled (l_trace s') = cancelled (l_trace s)
}.

#[global] Instance domain_step_preorder : PreOrder domain_step.
Proof.
  split; [by split|]. intros s1 s2 s3 [] []. split; try congruence. lia.
Qed.

Lemma ran_snoc tr e : ran (tr ++ [e]) = ran tr ++ ran [e].
Proof. apply omap_app. Qed.

Lemma cancelled_snoc tr e : cancelled (tr ++ [e]) = cancelled tr ++ cancelled [e].
Proof. apply omap_app. Qed.

(** A state with one step more in the trace or the domain. *)
Ltac domain_step :=
  split; simpl; rewrite ?ran_snoc, ?cancelled_snoc, ?app_nil_r; simpl; rewrite ?app_nil_r; try done; try lia.

Section domain.
Context (pf : platform).
Local Abbreviation ops := (timer_domain_ops pf).

Lemma domain_enable_ok core s :
  wp (domain_enable ops core) s (fun s' _ => domain_step s s' /\ dm_enabled (l_domain s') core = true /\
    dm_next_tick (l_domain s') = dm_next_tick (l_domain s) /\
    dm_new_target_tick (l_domain s') = dm_new_target_tick (l_domain s)).
Proof.
  unfold domain_enable. do 2 wp_step. simpl. apply wp_if; intros E.
  - wp_step. by split.
  - do 3 wp_step. simpl. rewrite Z.eqb_refl. split; [domain_step|done].
Qed.

Lemma domain_disable_ok core s :
  wp (domain_disable ops core) s (fun s' _ => domain_step s s' /\ dm_enabled (l_domain s') core = false /\
    dm_next_tick (l_domain s') = dm_next_tick (l_domain s) /\
    dm_new_target_tick (l_domain s') = dm_new_target_tick (l_domain s)).
Proof.
  unfold domain_disable. do 2 wp_step. simpl. apply wp_if; intros E.
  - do 3 wp_step. simpl. rewrite Z.eqb_refl. split; [domain_step|done].
  - wp_step. by split.
Qed.

Lemma domain_clear_ok s :
  wp (domain_clear ops) s (fun s' _ => domain_step s s' /\ dm_enabled (l_domain s') = dm_enabled (l_domain s) /\
    dm_next_tick (l_domain s') = UINT64_MAX /\
    dm_new_target_tick (l_domain s') = dm_new_target_tick (l_domain s)).
Proof. unfold domain_clear. simpl. do 3 wp_step. split; [domain_step|done]. Qed.

(** The tick that the timer is set to for a start at a time. *)
Definition armed (start time : Z) : Z :=
  u64 (platform_timer_set pf (Z.max start (u64 (time + LL_TIMER_SET_OVERHEAD_TICKS)))).

Lemma domain_set_ok start s :
  wp (domain_set ops start) s (fun s' _ => domain_step s s' /\ dm_enabled (l_domain s') = dm_enabled (l_domain s) /\
    dm_next_tick (l_domain s') = armed start (pf_clock pf (l_reads s)) /\
    dm_new_target_tick (l_domain s') = dm_new_target_tick (l_domain s) /\ l_reads s' = S (l_reads s)).
Proof.
  unfold domain_set. simpl. unfold timer_domain_set. repeat wp_step. split; [domain_step|done].
Qed.

Lemma domain_unregister_ok task num s :
  task <> 0 ->
  wp (domain_unregister ops task num) s (fun s' _ =>
    s' = with_domain s (set_total (i32 (dm_total_num_tasks (l_domain s) - 1)) (l_domain s))).
Proof.
  intros H. unfold domain_unregister. simpl. unfold timer_domain_unregister.
  rewrite (proj2 (Z.eqb_neq _ _) H). simpl. repeat wp_step. simpl. by wp_step.
Qed.

(** Registering the interrupt succeeds, or fails the first time. *)
Lemma domain_register_ok task arg s :
  pf_timer_register pf <= 0 ->
  wp (domain_register ops task arg) s (fun s' ret => ret <= 0 /\
    (ret < 0 -> domain_step s s' /\ l_domain s' = l_domain s) /\
    (ret = 0 -> domain_step (with_domain s (set_total (i32 (dm_total_num_tasks (l_domain s) + 1)) (l_domain s))) s' /\
       l_domain s' = set_total (i32 (dm_total_num_tasks (l_domain s) + 1)) (l_domain s))).
Proof.
  intros H. unfold domain_register. simpl. unfold timer_domain_register. do 3 wp_step.
  apply wp_if; intros E; repeat wp_step.
  - simpl. repeat wp_step. split; [done|]. split; [lia|]. intros _. split; [domain_step|done].
  - apply wp_if; intros E'; repeat wp_step; zbool; (split; [done|]).
    + rewrite E'. split; [lia|]. intros _. split; [domain_step|done].
    + split; [|done]. intros _. split; [domain_step|done].
Qed.
End domain.

(** ** The invariant *)

Section inv.
Context (pf : platform) (others : Z) (N fuel : nat).

(** The scheduler holds the tasks [l], [N] tasks exist, and [others] tasks are
    registered on the domain by other cores. *)
Record ll_ok (s : sched) (l : list Z) : Prop := {
  lo_list : is_list (l_links s) (pf_tasks pf) l;
  lo_known t tk : l_tasks s !! t = Some tk -> t <> 0 /\ t <> pf_tasks pf /\
    (t_priv_data tk <> 0 -> is_Some (l_pdata s !! t_priv_data tk));
  lo_own t t' tk tk' : l_tasks s !! t = Some tk -> l_tasks s !! t' = Some tk' ->
    t_priv_data tk = t_priv_data tk' -> t_priv_data tk <> 0 -> t = t';
  lo_in t : t ∈ l -> exists tk, l_tasks s !! t = Some tk /\ t_priv_data tk <> 0;
  lo_num : l_num_tasks s = Z.of_nat (length l);
  lo_total : dm_total_num_tasks (l_domain s) = others + Z.of_nat (length l);
  lo_size : size (l_tasks s) = N;
  lo_sync : dm_full_sync (l_domain s) = false
}.

(** Limits of the counters and of the fuel. *)
Record bounds_ok : Prop := {
  bo_others : 0 <= others;
  bo_total : others + Z.of_nat N < 2 ^ 31 - 1;
  bo_fuel : (S N * S (S N) < fuel)%nat;
  bo_register : pf_timer_register pf <= 0
}.

Implicit Types s : sched.

Lemma ll_ok_frame s s' l :
  l_tasks s' = l_tasks s -> l_pdata s' = l_pdata s -> l_links s' = l_links s -> l_num_tasks s' = l_num_tasks s ->
  dm_total_num_tasks (l_domain s') = dm_total_num_tasks (l_domain s) ->
  dm_full_sync (l_domain s') = dm_full_sync (l_domain s) -> ll_ok s l -> ll_ok s' l.
Proof. intros E1 E2 E3 E4 E5 E6 []. split; rewrite ?E1, ?E2, ?E3, ?E4, ?E5, ?E6; done. Qed.

Lemma ll_ok_relink s s' l :
  l_tasks s' = l_tasks s -> l_pdata s' = l_pdata s -> is_list (l_links s') (pf_tasks pf) l ->
  l_num_tasks s' = l_num_tasks s ->
  dm_total_num_tasks (l_domain s') = dm_total_num_tasks (l_domain s) ->
  dm_full_sync (l_domain s') = dm_full_sync (l_domain s) -> ll_ok s l -> ll_ok s' l.
Proof. intros E1 E2 E3 E4 E5 E6 []. split; rewrite ?E1, ?E2, ?E4, ?E5, ?E6; done. Qed.

Lemma domain_step_ok s s' l : domain_step s s' -> ll_ok s l -> ll_ok s' l.
Proof. intros []. by apply ll_ok_frame. Qed.

Lemma ll_ok_length s l : ll_ok s l -> (length l <= N)%nat.
Proof.
  intros [[Hnd _] _ _ Hin _ _ Hsz _]. apply NoDup_cons in Hnd as [_ Hnd].
  rewrite <- Hsz, <- size_dom, <- (size_list_to_set (C := gset Z) l Hnd). apply subseteq_size.
  intros t Ht. apply elem_of_list_to_set in Ht. destruct (Hin t Ht) as (tk & Htk & _).
  by eapply elem_of_dom_2.
Qed.

(** An update of a task that keeps its private data. *)
Lemma ll_ok_mod_task s l t tk f :
  ll_ok s l -> l_tasks s !! t = Some tk -> t_priv_data (f tk) = t_priv_data tk ->
  ll_ok (with_tasks s (<[t := f tk]> (l_tasks s))) l.
Proof.
  intros [Hl Hk Ho Hin Hn Ht Hsz Hsy] Htk Hf.
  assert (forall u uk, <[t := f tk]> (l_tasks s) !! u = Some uk ->
    exists vk, l_tasks s !! u = Some vk /\ t_priv_data uk = t_priv_data vk) as Hold.
  { intros u uk Hu. apply lookup_insert_Some in Hu as [[<- <-]|[_ Hu]]; eauto. }
  split; simpl; try done.
  - intros u uk Hu. destruct (Hold u uk Hu) as (vk & Hv & E). rewrite E. eauto.
  - intros u u' uk uk' Hu Hu' He H0. destruct (Hold u uk Hu) as (vk & Hv & E).
    destruct (Hold u' uk' Hu') as (vk' & Hv' & E'). eapply Ho; [done..| |]; congruence.
  - intros u Hu. destruct (Hin u Hu) as (uk & Huk & H0). destruct (decide (t = u)) as [<-|Hne].
    + rewrite lookup_insert_eq. eexists. split; [done|]. rewrite Hf. congruence.
    + rewrite lookup_insert_ne by done. eauto.
  - rewrite map_size_insert_Some; [done|by exists tk].
Qed.

(** An update of private data. *)
Lemma ll_ok_mod_pdata s l p q : ll_ok s l -> is_Some (l_pdata s !! p) -> ll_ok (with_pdata s (<[p := q]> (l_pdata s))) l.
Proof.
  intros [Hl Hk Ho Hin Hn Ht Hsz Hsy] Hp. split; simpl; try done.
  intros t tk Htk. destruct (Hk t tk Htk) as (? & ? & Hs). split_and!; [done..|].
  intros H1. apply lookup_insert_is_Some'. right. auto.
Qed.

Lemma is_list_succ L h l1 x l2 : is_list L h (l1 ++ x :: l2) -> nx L x = default h (head l2).
Proof.
  intros H. apply is_list_rotate in H as [_ Ha]. destruct l2; simpl in Ha; by destruct Ha as [-> _].
Qed.

Lemma is_list_first L h l : is_list L h l -> nx L h = default h (head l).
Proof. intros [_ Ha]. destruct l; simpl in Ha; by destruct Ha as [-> _]. Qed.

Context (B : bounds_ok).

Lemma list_tasks_ok s l : ll_ok s l -> list_tasks pf fuel s = Some (s, l).
Proof.
  intros Hok. pose proof (ll_ok_length s l Hok) as Hlen. destruct Hok as [Hl _ _ _ _ _ _ _].
  unfold list_tasks. rewrite (is_list_first _ _ _ Hl). destruct Hl as [Hnd Ha]. destruct B as [_ _ Hf _].
  rewrite (list_for_item_spec _ _ l); [done| | |lia].
  - by apply NoDup_cons in Hnd as [? _].
  - apply adj_next_chain in Ha. destruct (l ++ [pf_tasks pf]) eqn:E; [done|]. by destruct Ha.
Qed.

Lemma wp_list_tasks s l P : ll_ok s l -> P s l -> wp (list_tasks pf fuel) s P.
Proof. intros Hok HP. exists s, l. by rewrite (list_tasks_ok _ _ Hok). Qed.
End inv.

(** ** The effect of a call *)

Definition state_of (s : sched) (t : Z) : option Z := t_state <$> l_tasks s !! t.

(** How a call changes the list: not at all, by one new task, or by the removal of
    a cancelled one. *)
Inductive list_step (s' : sched) (l : list Z) : list Z -> Prop :=
  | ls_same : list_step s' l l
  | ls_insert t l1 l2 : l = l1 ++ l2 -> t ∉ l -> state_of s' t = Some SOF_TASK_STATE_QUEUED ->
      list_step s' l (l1 ++ t :: l2)
  | ls_remove t l1 l2 : l = l1 ++ t :: l2 -> t ∈ cancelled (l_trace s') -> list_step s' l (l1 ++ l2).

Section calls.
Context (pf : platform) (others : Z) (N fuel : nat).
Local Abbreviation ops := (timer_domain_ops pf).
Local Abbreviation ll_ok := (ll_ok pf others N).
Implicit Types s : sched.

Record call_step s l s' l' : Prop := {
  cs_ok : ll_ok s' l';
  cs_list : list_step s' l l';
  cs_states t : t ∈ l -> t ∈ l' -> state_of s' t = state_of s t;
  cs_dom : dom (l_tasks s') = dom (l_tasks s);
  cs_reads : (l_reads s <= l_reads s')%nat;
  cs_ran : ran (l_trace s') = ran (l_trace s);
  cs_cancelled t : t ∈ cancelled (l_trace s) -> t ∈ cancelled (l_trace s')
}.

Lemma domain_step_call s s' l : domain_step s s' -> ll_ok s l -> call_step s l s' l.
Proof.
  intros H Hok. pose proof H as []. split; try done.
  - by eapply domain_step_ok.
  - constructor.
  - intros t _ _. unfold state_of. congruence.
  - congruence.
  - intros t. congruence.
Qed.

Context (B : bounds_ok pf others N fuel).

Lemma existsb_elem t (l : list Z) : existsb (Z.eqb t) l = bool_decide (t ∈ l).
Proof.
  apply eq_true_iff_eq. rewrite bool_decide_eq_true, existsb_exists. split.
  - intros (x & Hx & He). apply Z.eqb_eq in He. subst x. by apply list_elem_of_In.
  - intros H. exists t. split; [by apply list_elem_of_In|apply Z.eqb_refl].
Qed.

(** The list without one of its tasks. *)
Lemma ll_ok_remove s l1 t l2 s' :
  ll_ok s (l1 ++ t :: l2) -> l_tasks s' = l_tasks s -> l_pdata s' = l_pdata s ->
  l_links s' = list_item_del (l_links s) t -> l_num_tasks s' = i32 (l_num_tasks s - 1) ->
  dm_total_num_tasks (l_domain s') = i32 (dm_total_num_tasks (l_domain s) - 1) ->
  dm_full_sync (l_domain s') = dm_full_sync (l_domain s) -> ll_ok s' (l1 ++ l2).
Proof.
  intros Hok E1 E2 E3 E4 E5 E6. pose proof (ll_ok_length _ _ _ _ _ Hok) as Hlen.
  destruct Hok as [Hl Hk Ho Hin Hn Ht Hsz Hsy]. destruct B as [B1 B2 _ _].
  rewrite length_app in *. simpl in *.
  split; rewrite ?E1, ?E2, ?E3, ?E4, ?E5, ?E6; try done.
  - by apply del_spec.
  - intros u Hu. apply Hin. set_solver.
  - rewrite Hn, length_app, i32_small by lia. lia.
  - rewrite Ht, length_app, i32_small by lia. lia.
Qed.

Lemma cancel_ok t s l :
  ll_ok s l ->
  wp (schedule_ll_task_cancel pf ops fuel t) s (fun s' r => r = 0 /\ exists l', call_step s l s' l' /\
    forall u, u ∈ l' <-> u ∈ l /\ u <> t).
Proof.
  intros Hok. unfold schedule_ll_task_cancel. do 3 wp_step.
  set (s1 := with_trace s _). assert (ll_ok s1 l) as Hok1 by by eapply ll_ok_frame, Hok.
  assert (t ∈ cancelled (l_trace s1)) as Hc. { subst s1. simpl. rewrite cancelled_snoc. set_solver. }
  assert (ran (l_trace s1) = ran (l_trace s)) as Hr.
  { subst s1. simpl. by rewrite ran_snoc, app_nil_r. }
  assert (forall u, u ∈ cancelled (l_trace s) -> u ∈ cancelled (l_trace s1)) as Hcs.
  { subst s1. simpl. rewrite cancelled_snoc. set_solver. }
  eapply wp_list_tasks; [done..|]. rewrite existsb_elem.
  case_bool_decide as Hin.
  2:{ do 3 wp_step. split; [done|]. exists l. split; [split; try done; constructor|set_solver]. }
  apply list_elem_of_split in Hin as (l1 & l2 & ->).
  destruct (lo_in _ _ _ _ _ Hok t) as (tk & Htk & _); [set_solver|].
  destruct (lo_known _ _ _ _ _ Hok t tk Htk) as (Ht0 & _).
  unfold schedule_ll_domain_clear. do 4 wp_step. set (s2 := with_num_tasks s1 _).
  assert (exists s3, domain_step s2 s3 /\
    wp (if l_num_tasks s1 =? 1 then domain_disable ops (cpu_get_id pf) else mret tt) s2 (fun s' _ => s' = s3))
    as (s3 & D3 & W3).
  { case_if.
    - destruct (domain_disable_ok pf (cpu_get_id pf) s2) as (s3 & [] & E & D & _). exists s3. split; [done|].
      by exists s3, tt.
    - exists s2. split; [done|]. by wp_step. }
  wp_step. eapply wp_mono; [exact W3|]. intros ? [] ->. do 2 wp_step.
  eapply wp_mono; [by apply domain_unregister_ok|]. intros s4 [] ->. pose proof D3 as [D31 D32 D33 D34 D35 D36 D37 D38 D39 D310].
  do 1 wp_step. eapply wp_mod_task; [simpl; rewrite D31; exact Htk|]. do 2 wp_step. split; [done|].
  exists (l1 ++ l2). set (s5 := with_links _ _).
  assert (t ∉ l1 ++ l2) as Hnt.
  { destruct (lo_list _ _ _ _ _ Hok) as [Hnd _]. apply NoDup_cons in Hnd as [_ Hnd].
    rewrite <- Permutation_middle in Hnd. by apply NoDup_cons in Hnd as [? _]. }
  split; [|set_solver]. split.
  - apply (ll_ok_remove (with_tasks s1 (<[t := set_state SOF_TASK_STATE_CANCEL tk]> (l_tasks s1))) l1 t l2);
      [by apply ll_ok_mod_task|subst s5; simpl; rewrite ?D31, ?D32, ?D33, ?D34, ?D35, ?D37; done..].
  - econstructor; [done|]. subst s5. simpl. by rewrite D310.
  - intros u Hu Hu'. unfold state_of. subst s5. simpl. rewrite D31. simpl. rewrite lookup_insert_ne by set_solver. done.
  - subst s5. simpl. rewrite D31. simpl. rewrite dom_insert_L. apply subseteq_union_1_L, singleton_subseteq_l.
    by eapply elem_of_dom_2.
  - subst s5. simpl. simpl in D38. done.
  - subst s5. simpl. by rewrite D39.
  - subst s5. simpl. rewrite D310. apply Hcs.
Qed.

Lemma call_step_pre s s1 l s' l' : domain_step s s1 -> call_step s1 l s' l' -> call_step s l s' l'.
Proof.
  intros [D1 D2 D3 D4 D5 D6 D7 D8 D9 D10] [C1 C2 C3 C4 C5 C6 C7].
  split; [done|done| |congruence|lia|congruence|intros t; rewrite <- D10; auto].
  intros t Ht Ht'. rewrite (C3 t Ht Ht'). unfold state_of. by rewrite D1.
Qed.

Lemma call_step_post s s1 l s' l' : call_step s l s1 l' -> domain_step s1 s' -> call_step s l s' l'.
Proof.
  intros [C1 C2 C3 C4 C5 C6 C7] D. pose proof D as [D1 D2 D3 D4 D5 D6 D7 D8 D9 D10].
  split; [by eapply domain_step_ok| | |congruence|lia|congruence|intros t; rewrite D10; auto].
  - destruct C2 as [|t l1 l2 ? ? ?|t l1 l2 ? ?]; [constructor|econstructor..]; [done..| |done|congruence].
    unfold state_of. by rewrite D1.
  - intros t Ht Ht'. unfold state_of. rewrite D1. by apply C3.
Qed.

(** An update of a task that leaves the state of a scheduled task. *)
Lemma call_step_retask s l t tk f :
  ll_ok s l -> l_tasks s !! t = Some tk -> t_priv_data (f tk) = t_priv_data tk ->
  (t ∈ l -> t_state (f tk) = t_state tk) ->
  call_step s l (with_tasks s (<[t := f tk]> (l_tasks s))) l.
Proof.
  intros Hok Htk Hf Hs. split; try done.
  - by apply ll_ok_mod_task.
  - constructor.
  - intros u Hu _. unfold state_of. simpl. destruct (decide (t = u)) as [<-|Hne].
    + rewrite lookup_insert_eq, Htk. simpl. by rewrite Hs.
    + by rewrite lookup_insert_ne by done.
  - simpl. rewrite dom_insert_L. apply subseteq_union_1_L, singleton_subseteq_l. by eapply elem_of_dom_2.
Qed.

Lemma reschedule_ok t start s l :
  ll_ok s l -> wp (reschedule_ll_task pf fuel t start) s (fun s' r => r = 0 /\ call_step s l s' l).
Proof.
  intros Hok. unfold reschedule_ll_task. do 5 wp_step. set (s1 := with_reads s _).
  assert (domain_step s s1) as D by (subst s1; domain_step).
  assert (ll_ok s1 l) as Hok1 by by eapply domain_step_ok.
  eapply wp_list_tasks; [done..|]. rewrite existsb_elem. case_bool_decide as Hin.
  - destruct (lo_in _ _ _ _ _ Hok1 t Hin) as (tk & Htk & _). do 3 wp_step. split; [done|].
    eapply call_step_pre; [exact D|]. by apply call_step_retask.
  - do 3 wp_step. split; [done|]. by eapply domain_step_call.
Qed.

(** A task that is not scheduled is replaced, with its private data. *)
Lemma call_step_replace s l t tk tk' m s' :
  ll_ok s l -> l_tasks s !! t = Some tk -> t ∉ l ->
  (t_priv_data tk' <> 0 -> is_Some (m !! t_priv_data tk') /\
    forall u uk, l_tasks s !! u = Some uk -> t_priv_data uk = t_priv_data tk' -> u = t) ->
  (forall u uk, l_tasks s !! u = Some uk -> u <> t -> t_priv_data uk <> 0 -> is_Some (m !! t_priv_data uk)) ->
  domain_step (with_pdata (with_tasks s (<[t := tk']> (l_tasks s))) m) s' -> call_step s l s' l.
Proof.
  intros Hok Htk Hn H1 H2. eapply call_step_post. pose proof Hok as [Hl Hk Ho Hin Hnum Ht Hsz Hsy].
  split; try done.
  - split; simpl; try done.
    + intros u uk Hu. apply lookup_insert_Some in Hu as [[<- <-]|[Hne Hu]].
      * destruct (Hk t tk Htk) as (? & ? & _). split_and!; [done..|]. intros. by apply H1.
      * destruct (Hk u uk Hu) as (? & ? & _). split_and!; [done..|]. intros. by eapply H2.
    + intros u u' uk uk' Hu Hu' He H0.
      apply lookup_insert_Some in Hu as [[<- <-]|[Hne Hu]]; apply lookup_insert_Some in Hu' as [[<- <-]|[Hne' Hu']].
      * done.
      * symmetry. by eapply (H1 H0).
      * rewrite He in H0. by eapply (H1 H0).
      * by eapply Ho.
    + intros u Hu. rewrite lookup_insert_ne by set_solver. auto.
    + rewrite map_size_insert_Some; [done|by exists tk].
  - constructor.
  - intros u Hu _. unfold state_of. simpl. by rewrite lookup_insert_ne by set_solver.
  - simpl. rewrite dom_insert_L. apply subseteq_union_1_L, singleton_subseteq_l. by eapply elem_of_dom_2.
Qed.

Lemma free_task_ok t tk s l :
  ll_ok s l -> l_tasks s !! t = Some tk -> t ∉ l ->
  wp (schedule_ll_task_free t) s (fun s' r => r = 0 /\ call_step s l s' l).
Proof.
  intros Hok Htk Hn. unfold schedule_ll_task_free. do 3 wp_step.
  eapply wp_get_task; [apply lookup_insert_eq|]. do 5 wp_step.
  eapply wp_mod_task; [apply lookup_insert_eq|]. wp_step. split; [done|]. simpl.
  eapply (call_step_replace s l t tk (set_priv_data 0 (set_state SOF_TASK_STATE_FREE tk)) _ _ Hok Htk Hn); [done| |].
  2:{ by domain_step; rewrite insert_insert_eq. }
  intros u uk Hu Hne H0. simpl. rewrite lookup_delete_ne; [by apply (lo_known _ _ _ _ _ Hok u uk Hu)|].
  intros E. apply Hne. eapply (lo_own _ _ _ _ _ Hok); [exact Hu|exact Htk|congruence|done].
Qed.

Lemma init_task_ok ll_pdata t tk type priority core flags s l :
  ll_ok s l -> l_tasks s !! t = Some tk -> t ∉ l -> l_pdata s !! ll_pdata = None ->
  wp (schedule_task_init_ll ll_pdata t type priority core flags) s (fun s' r => call_step s l s' l /\
    (r = 0 -> exists tk', l_tasks s' !! t = Some tk' /\ t_priority tk' = priority /\ t_priv_data tk' <> 0)).
Proof.
  intros Hok Htk Hn Hfresh. unfold schedule_task_init_ll, schedule_task_init. wp_step.
  apply wp_if; intros E; do 1 wp_step.
  { simpl. wp_step. split; [by eapply domain_step_call|done]. }
  wp_step. wp_step. simpl.
  set (tk1 := mk_task _ _ _ _ _ _ _ _). wp_step. eapply wp_get_task; [apply lookup_insert_eq|].
  assert (forall tk', t_priv_data tk' = t_priv_data tk ->
    call_step s l (with_tasks s (<[t := tk']> (l_tasks s))) l) as Hsame.
  { intros tk' E'. by apply (call_step_retask s l t tk (fun _ => tk')). }
  apply wp_if; intros E1; [wp_step; by split; [apply Hsame|]|].
  apply wp_if; intros E2; [wp_step; by split; [apply Hsame|]|]. zbool. simpl in E1.
  do 3 wp_step. eapply wp_mod_task; [apply lookup_insert_eq|]. wp_step. split.
  - eapply (call_step_replace s l t tk (set_priv_data ll_pdata tk1) (<[ll_pdata := mk_pdata 0 0 0]> (l_pdata s)) _ Hok Htk Hn).
    + intros _. simpl. split; [rewrite lookup_insert_eq; by eexists|]. intros u uk Hu Hp. exfalso.
      destruct (lo_known _ _ _ _ _ Hok u uk Hu) as (_ & _ & Hs). rewrite Hp, Hfresh in Hs.
      destruct Hs; done.
    + intros u uk Hu Hne H0. apply lookup_insert_is_Some'. right. by apply (lo_known _ _ _ _ _ Hok u uk Hu).
    + by domain_step; rewrite insert_insert_eq.
  - intros _. exists (set_priv_data ll_pdata tk1). simpl. by rewrite lookup_insert_eq.
Qed.

(** ** Scheduling a task *)

Definition priority_of (s : sched) (t : Z) : Z := default 0 (t_priority <$> l_tasks s !! t).

(** Where a task is inserted: behind all tasks of its priority or a more urgent
    one, or next to the reference. *)
Definition placed s (priority reference : Z) (before : bool) (l1 l2 : list Z) : Prop :=
  if reference =? 0 then
    Forall (fun u => priority_of s u <= priority) l1 /\ (forall u, head l2 = Some u -> priority < priority_of s u)
  else if before then head l2 = Some reference else last l1 = Some reference.

Lemma insert_position_ok priority s l :
  (forall u, u ∈ l -> is_Some (l_tasks s !! u)) ->
  wp (insert_position pf priority l) s (fun s' pos => s' = s /\ exists l1 l2, l = l1 ++ l2 /\
    pos = default (pf_tasks pf) (head l2) /\ placed s priority 0 false l1 l2).
Proof.
  induction l as [|u l IH]; intros Hk; simpl.
  { wp_step. split; [done|]. by exists [], []. }
  destruct (Hk u) as [tk Htk]; [by left|]. wp_step. wp_step.
  assert (priority_of s u = t_priority tk) as Hp by (unfold priority_of; by rewrite Htk).
  apply wp_if; intros E; zbool.
  - wp_step. split; [done|]. exists [], (u :: l). split_and!; [done..|]. split; [constructor|].
    intros ? [= <-]. lia.
  - eapply wp_mono; [apply IH; intros; apply Hk; by right|].
    intros s' pos (-> & l1 & l2 & -> & -> & [F H]). split; [done|]. exists (u :: l1), l2.
    split_and!; [done..|]. split; [constructor; [lia|done]|done].
Qed.

Lemma insert_ok t tk reference (before : bool) s l :
  ll_ok s l -> l_tasks s !! t = Some tk -> t ∉ l -> reference = 0 \/ reference ∈ l ->
  wp (if reference =? 0 then schedule_ll_task_insert pf fuel t
      else if before then schedule_ll_task_insert_before t reference
      else schedule_ll_task_insert_after t reference) s (fun s' _ => exists l1 l2 L, l = l1 ++ l2 /\
    s' = with_links s L /\ is_list L (pf_tasks pf) (l1 ++ t :: l2) /\
    placed s (t_priority tk) reference before l1 l2).
Proof.
  intros Hok Htk Hn Href. pose proof (lo_list _ _ _ _ _ Hok) as Hl.
  assert (t ∉ pf_tasks pf :: l) as Hni.
  { destruct (lo_known _ _ _ _ _ Hok t tk Htk) as (_ & ? & _). set_solver. }
  case_if.
  - subst reference. unfold schedule_ll_task_insert. do 3 wp_step. eapply wp_list_tasks; [done..|]. wp_step.
    eapply wp_mono; [apply insert_position_ok|].
    { intros u Hu. destruct (lo_in _ _ _ _ _ Hok u Hu) as (uk & ? & _). by exists uk. }
    intros s' pos (-> & l1 & l2 & -> & -> & P). wp_step. exists l1, l2, (list_item_append (l_links s) t (default (pf_tasks pf) (head l2))).
    split_and!; [done..| |done]. destruct l2 as [|u l2]; simpl.
    + rewrite app_nil_r in *. by apply append_spec.
    + by apply append_before_spec.
  - destruct Href as [|Hr]; [done|]. apply list_elem_of_split in Hr as (l1 & l2 & ->).
    unfold placed. rewrite (proj2 (Z.eqb_neq _ _)) by done. unfold schedule_ll_task_insert_before, schedule_ll_task_insert_after. destruct before; wp_step.
    + exists l1, (reference :: l2). eexists. split_and!; [done..| |done]. by apply append_before_spec.
    + exists (l1 ++ [reference]), l2. eexists. rewrite <- !app_assoc. simpl. split_and!; [done..| |].
      * by apply prepend_after_spec.
      * by rewrite last_snoc.
Qed.

(** The list with one task more. *)
Lemma ll_ok_insert s l1 t tk l2 s' :
  ll_ok s (l1 ++ l2) -> l_tasks s !! t = Some tk -> t_priv_data tk <> 0 -> t ∉ l1 ++ l2 ->
  l_tasks s' = l_tasks s -> l_pdata s' = l_pdata s -> is_list (l_links s') (pf_tasks pf) (l1 ++ t :: l2) ->
  l_num_tasks s' = i32 (l_num_tasks s + 1) ->
  dm_total_num_tasks (l_domain s') = i32 (dm_total_num_tasks (l_domain s) + 1) ->
  dm_full_sync (l_domain s') = dm_full_sync (l_domain s) -> ll_ok s' (l1 ++ t :: l2).
Proof.
  intros Hok Htk H0 Hni E1 E2 E3 E4 E5 E6. pose proof (ll_ok_length _ _ _ _ _ Hok) as Hlen.
  destruct Hok as [Hl Hk Ho Hin Hn Ht Hsz Hsy]. destruct B as [B1 B2 _ _].
  rewrite length_app in *.
  split; rewrite ?E1, ?E2, ?E4, ?E5, ?E6; try done.
  - intros u Hu. rewrite <- Permutation_middle in Hu. apply elem_of_cons in Hu as [->|Hu]; [by exists tk|auto].
  - rewrite Hn, length_app, i32_small by lia. simpl. lia.
  - rewrite Ht, length_app, i32_small by lia. simpl. lia.
Qed.

(** The start of a new task without reference, and the timer: it fires not later
    than the start, or has been set for the start. *)
Definition start_armed (since : nat) s (start : Z) : Prop :=
  dm_next_tick (l_domain s) <= start \/
  exists n, (since <= n < l_reads s)%nat /\ dm_next_tick (l_domain s) = armed pf start (pf_clock pf n).

Lemma set_task_start_ok t tk period reference ticks start s :
  l_tasks s !! t = Some tk -> reference = 0 \/ is_Some (l_tasks s !! reference) -> period = 0 \/ ticks <> 0 ->
  wp (set_task_start ops t period reference ticks start) s (fun s' _ => exists v,
    domain_step (with_tasks s (<[t := set_start v tk]> (l_tasks s))) s' /\
    (reference = 0 -> start_armed (l_reads s) s' v)).
Proof.
  intros Htk Href Hp. unfold set_task_start. do 2 wp_step.
  assert (forall v s1, domain_step s s1 -> (reference = 0 -> start_armed (l_reads s) s1 v) ->
    wp (mod_task t (set_start v)) s1 (fun s' _ => exists v,
      domain_step (with_tasks s (<[t := set_start v tk]> (l_tasks s))) s' /\ (reference = 0 -> start_armed (l_reads s) s' v)))
    as Hset.
  { intros v s1 D Ha. pose proof D as [D1 D2 D3 D4 D5 D6 D7 D8 D9 D10].
    eapply wp_mod_task; [rewrite D1; exact Htk|]. exists v. split; [|exact Ha].
    split; simpl; try done. by rewrite D1. }
  apply wp_if; intros E1; zbool.
  { destruct Href as [?|[rk Hr]]; [done|]. do 2 wp_step. apply Hset; [done|]. intros. lia. }
  apply wp_if; intros E2; zbool.
  { wp_step. eapply wp_mono; [apply domain_set_ok|]. intros s1 [] (D & _ & _ & _). do 2 wp_step.
    apply Hset; [done|]. intros _. left. lia. }
  apply wp_if; intros E3; zbool.
  { do 2 wp_step. apply wp_if; intros E4; zbool; simpl in *.
    - eapply wp_mono; [apply domain_set_ok|]. intros s1 [] (D & _ & Hn & _ & Hr). exists start.
      split; [done|]. intros _. right. exists (l_reads s). split; [simpl in Hr; lia|done].
    - wp_step. exists start. split; [done|]. intros _. left. simpl. lia. }
  apply wp_if; intros E4; zbool.
  2:{ apply Hset; [done|]. intros _. left. lia. }
  apply wp_if; intros E5; zbool; [lia|]. wp_step. eapply wp_mono; [apply domain_set_ok|].
  intros s1 [] (D & _ & _ & _). do 2 wp_step. apply Hset; [done|]. intros _. left. lia.
Qed.

(** A task that was not scheduled has changed. *)
Lemma call_step_new s l t tk tk' s' l' :
  ll_ok s l -> l_tasks s !! t = Some tk -> t ∉ l -> l_tasks s' = <[t := tk']> (l_tasks s) ->
  ll_ok s' l' -> list_step s' l l' -> (l_reads s <= l_reads s')%nat -> ran (l_trace s') = ran (l_trace s) ->
  cancelled (l_trace s') = cancelled (l_trace s) -> call_step s l s' l'.
Proof.
  intros Hok Htk Hn E Hok' Hls Hr Hran Hc. split; try done.
  - intros u Hu _. unfold state_of. rewrite E, lookup_insert_ne by set_solver. done.
  - rewrite E, dom_insert_L. apply subseteq_union_1_L, singleton_subseteq_l. by eapply elem_of_dom_2.
  - intros u. by rewrite Hc.
Qed.

(** What scheduling a task does that is not scheduled yet. *)
Record scheduled t reference before s l s' l1 l2 : Prop := {
  sc_split : l = l1 ++ l2;
  sc_placed tk : l_tasks s !! t = Some tk -> placed s (t_priority tk) reference before l1 l2;
  sc_step : call_step s l s' (l1 ++ t :: l2);
  sc_priority u : priority_of s' u = priority_of s u;
  sc_state : state_of s' t = Some SOF_TASK_STATE_QUEUED;
  sc_enabled : dm_enabled (l_domain s') (cpu_get_id pf) = true;
  sc_armed tk : l_tasks s' !! t = Some tk -> reference = 0 -> start_armed (l_reads s) s' (t_start tk)
}.

Lemma schedule_common_ok t tk start period reference before s l :
  ll_ok s l -> l_tasks s !! t = Some tk -> t_priv_data tk <> 0 -> reference = 0 \/ reference ∈ l ->
  period = 0 \/ u64 (dm_ticks_per_ms (l_domain s) * period) / 1000 <> 0 ->
  wp (schedule_ll_task_common pf ops fuel t start period reference before) s (fun s' r =>
    (t ∈ l /\ r = 0 /\ s' = s) \/
    (t ∉ l /\ r < 0 /\ call_step s l s' l) \/
    (t ∉ l /\ r = 0 /\ exists l1 l2, scheduled t reference before s l s' l1 l2)).
Proof.
  intros Hok Htk H0 Href Hper. unfold schedule_ll_task_common. wp_step.
  eapply wp_list_tasks; [done..|]. rewrite existsb_elem. case_bool_decide as Hin.
  { wp_step. by left. }
  destruct (lo_known _ _ _ _ _ Hok t tk Htk) as (Ht0 & _ & Hpd). destruct (Hpd H0) as [pd Hpd'].
  do 4 wp_step. set (s0 := with_pdata s _).
  assert (ll_ok s0 l) as Hok0 by (apply ll_ok_mod_pdata; [done|by exists pd]).
  do 3 wp_step. simpl. rewrite (lo_sync _ _ _ _ _ Hok). wp_step. simpl. wp_step.
  eapply wp_mono; [by apply insert_ok|]. intros sA [] (l1 & l2 & L & -> & -> & HL & Hpl). do 2 wp_step.
  set (tk1 := set_state _ tk). set (sB := with_tasks _ _).
  unfold schedule_ll_domain_set. do 2 wp_step. eapply wp_mono; [apply domain_register_ok; apply B|].
  intros sC ret (Hret & Hneg & Hzero). apply wp_if; intros E; zbool.
  - destruct (Hneg E) as [[D1 D2 D3 D4 D5 D6 D7 D8 D9 D10] _]. wp_step. rewrite (proj2 (Z.ltb_lt _ _) E).
    do 3 wp_step. right. left. split; [done|]. split; [done|].
    apply (call_step_new s (l1 ++ l2) t tk tk1); simpl in *; try done.
    + apply (ll_ok_relink pf others N (with_tasks s0 (<[t := tk1]> (l_tasks s0)))); simpl in *; rewrite ?D3; try done.
      * by apply del_spec.
      * by apply (ll_ok_mod_task pf others N s0 _ t tk (fun _ => tk1)).
    + constructor.
  - assert (ret = 0) as -> by lia. destruct (Hzero eq_refl) as [[D1 D2 D3 D4 D5 D6 D7 D8 D9 D10] Hd].
    simpl in D1. do 5 wp_step.
    eapply wp_mono; [apply (set_task_start_ok t tk1)|].
    { simpl. rewrite D1. apply lookup_insert_eq. }
    { destruct Href as [?|Hr]; [by left|right]. simpl. rewrite D1.
      destruct (lo_in _ _ _ _ _ Hok reference Hr) as (rk & Hrk & _). apply lookup_insert_is_Some'. right. by exists rk. }
    { rewrite Hd. simpl. destruct Hper as [?|Hper]; [by left|right]. case_if; [|done]. subst period.
      exfalso. apply Hper. by rewrite Z.mul_0_r. }
    intros sD [] (v & DD & Ha). do 3 wp_step. eapply wp_mono; [apply domain_enable_ok|].
    intros sE [] (DE & He & Hnt & _). do 2 wp_step. simpl. do 2 wp_step. right. right. split; [done|]. split; [done|].
    exists l1, l2. simpl in DD. rewrite D1, insert_insert_eq in DD. set (tk2 := set_start v tk1) in *.
    destruct DD as [F1 F2 F3 F4 F5 F6 F7 F8 F9 F10]. destruct DE as [G1 G2 G3 G4 G5 G6 G7 G8 G9 G10].
    simpl in *. assert (l_tasks sE = <[t := tk2]> (l_tasks s)) as ET by congruence.
    split; [done| | | |unfold state_of; by rewrite ET, lookup_insert_eq|done|].
    + intros tk' Htk'. rewrite Htk in Htk'. by injection Htk' as <-.
    + eapply (call_step_new s _ t tk tk2); simpl in *; try done; [|..|lia|congruence|congruence].
      * apply (ll_ok_insert (with_tasks s0 (<[t := tk2]> (l_tasks s0))) l1 t tk2 l2); simpl; try done.
        -- by apply (ll_ok_mod_task pf others N s0 _ t tk (fun _ => tk2)).
        -- apply lookup_insert_eq.
        -- congruence.
        -- by rewrite G3, F3, D3.
        -- rewrite G4, F4. by rewrite D4.
        -- rewrite G5, F5. by rewrite Hd.
        -- congruence.
      * apply (ls_insert _ _ t l1 l2); [done..|]. unfold state_of. by rewrite ET, lookup_insert_eq.
    + intros u. unfold priority_of. rewrite ET. destruct (decide (t = u)) as [<-|].
      * by rewrite lookup_insert_eq, Htk.
      * by rewrite lookup_insert_ne.
    + intros tk' Htk' Hr0. rewrite ET, lookup_insert_eq in Htk'. injection Htk' as <-. simpl.
      destruct (Ha Hr0) as [Hl|(n & Hn & Hl)]; [left; lia|right]. exists n. split; [lia|congruence].
Qed.

(** ** Changes of the clock *)

Lemma call_step_same s l s1 s' l' : call_step s l s1 l -> call_step s1 l s' l' -> call_step s l s' l'.
Proof.
  intros [C1 C2 C3 C4 C5 C6 C7] [D1 D2 D3 D4 D5 D6 D7].
  split; [done|done| |congruence|lia|congruence|auto].
  intros t Ht Ht'. rewrite D3 by done. by apply C3.
Qed.

Lemma recalculate_ok current old s l l' :
  ll_ok s l -> l' ⊆ l -> old <> 0 ->
  wp (recalculate l' current old) s (fun s' _ => call_step s l s' l /\ l_domain s' = l_domain s).
Proof.
  intros Hok Hsub Hold. revert s Hok. induction l' as [|t l' IH]; intros s Hok; simpl.
  { wp_step. split; [by apply domain_step_call|done]. }
  destruct (lo_in _ _ _ _ _ Hok t) as (tk & Htk & _); [set_solver|]. do 4 wp_step.
  rewrite (proj2 (Z.eqb_neq _ _) Hold). do 2 wp_step.
  assert (forall v, call_step s l (with_tasks s (<[t := set_start v tk]> (l_tasks s))) l) as C.
  { intros v. by apply call_step_retask. }
  eapply wp_mono; [apply IH; [set_solver|apply C]|]. intros s' [] [C' ->]. split; [|done].
  by eapply call_step_same.
Qed.

Lemma notify_ok message old ticks s l :
  ll_ok s l -> old <> 0 ->
  wp (ll_scheduler_notify pf fuel message old ticks) s (fun s' _ => call_step s l s' l).
Proof.
  intros Hok Hold. unfold ll_scheduler_notify. apply wp_if; intros E; [|wp_step; by apply domain_step_call].
  do 2 wp_step. unfold ll_scheduler_recalculate_tasks. do 3 wp_step. set (s1 := with_reads _ _).
  assert (call_step s l s1 l) as C.
  { split; try done.
    - by eapply ll_ok_frame, Hok.
    - constructor.
    - subst s1. simpl. lia. }
  eapply wp_list_tasks; [done|apply C|]. eapply wp_mono; [apply (recalculate_ok _ old s1 l l); [apply C|done..]|].
  intros s' [] [C' _]. by eapply call_step_same.
Qed.
End calls.

(** ** The timer

    [dm_next_tick] follows what the timer was last set to. *)

(** The setting of the timer after the events [tr], when it was [o] before: the
    tick it was last asked for, [None] after it was cleared. *)
Fixpoint timer_after (o : option Z) (tr : list ll_event) : option Z :=
  match tr with
  | [] => o
  | TimerSet ticks :: tr => timer_after (Some ticks) tr
  | TimerClear :: tr => timer_after None tr
  | _ :: tr => timer_after o tr
  end.

Lemma timer_after_app o tr1 tr2 : timer_after o (tr1 ++ tr2) = timer_after (timer_after o tr1) tr2.
Proof. revert o. induction tr1 as [|[] tr1 IH]; intros o; simpl; auto. Qed.

Section timer.
Context (pf : platform).
Local Abbreviation ops := (timer_domain_ops pf).
Implicit Types s : sched.

(** The tick that the domain notes for a setting of the timer. *)
Definition tick_of (o : option Z) : Z :=
  match o with Some ticks => u64 (platform_timer_set pf ticks) | None => UINT64_MAX end.

Definition timer_step s s' : Prop := exists evs, l_trace s' = l_trace s ++ evs /\
  forall o, dm_next_tick (l_domain s) = tick_of o -> dm_next_tick (l_domain s') = tick_of (timer_after o evs).

#[global] Instance timer_step_preorder : PreOrder timer_step.
Proof.
  split.
  - intros s. exists []. by rewrite app_nil_r.
  - intros s1 s2 s3 (e1 & T1 & N1) (e2 & T2 & N2). exists (e1 ++ e2). split; [by rewrite T2, T1, app_assoc|].
    intros o Ho. rewrite timer_after_app. auto.
Qed.

Lemma timer_step_quiet s s' : l_trace s' = l_trace s -> dm_next_tick (l_domain s') = dm_next_tick (l_domain s) -> timer_step s s'.
Proof. intros Ht Hn. exists []. rewrite app_nil_r. split; [done|]. simpl. congruence. Qed.

(** Computations that keep the timer and the domain in step. *)
Definition tracks {B} (m : LL B) : Prop := forall s s' x, m s = Some (s', x) -> timer_step s s'.

Lemma tracks_bind {B C} (m : LL B) (f : B -> LL C) : tracks m -> (forall x, tracks (f x)) -> tracks (m ≫= f).
Proof. intros Hm Hf s s' y (s1 & x & E1 & E2)%bind_Some_inv. etrans; [by eapply Hm|by eapply Hf]. Qed.

Lemma tracks_same {B} (m : LL B) : (forall s s' x, m s = Some (s', x) -> s' = s) -> tracks m.
Proof. intros H s s' x E. by rewrite (H _ _ _ E). Qed.

Lemma tracks_ret {B} (x : B) : tracks (mret x).
Proof. apply tracks_same. by intros s s' y [= -> _]. Qed.

Lemma tracks_gets {B} (f : sched -> B) : tracks (gets f).
Proof. apply tracks_same. by intros s s' y [= -> _]. Qed.

Lemma tracks_fault {B} : tracks (fault : LL B).
Proof. done. Qed.

Lemma tracks_get_task t : tracks (get_task t).
Proof. apply tracks_same. intros s s' x. unfold get_task. destruct (l_tasks s !! t); [|done]. by intros [= -> _]. Qed.

Lemma tracks_get_pdata t : tracks (get_pdata t).
Proof. apply tracks_same. intros s s' x. unfold get_pdata. destruct (l_pdata s !! t); [|done]. by intros [= -> _]. Qed.

Lemma tracks_list_tasks fuel : tracks (list_tasks pf fuel).
Proof. apply tracks_same. intros s s' x. unfold list_tasks. destruct (list_for_item _ _ _ _); [|done]. by intros [= -> _]. Qed.

Lemma tracks_mod_task t f : tracks (mod_task t f).
Proof.
  intros s s' x. unfold mod_task. destruct (l_tasks s !! t); [|done]. intros [= <- _]. by apply timer_step_quiet.
Qed.

Lemma tracks_mod_pdata t f : tracks (mod_pdata t f).
Proof.
  intros s s' x. unfold mod_pdata. destruct (l_pdata s !! t); [|done]. intros [= <- _]. by apply timer_step_quiet.
Qed.

Lemma tracks_modify f :
  (forall s, l_trace (f s) = l_trace s /\ dm_next_tick (l_domain (f s)) = dm_next_tick (l_domain s)) -> tracks (modify f).
Proof. intros H s s' x [= <- _]. apply timer_step_quiet; apply H. Qed.

Lemma tracks_timer_get : tracks (platform_timer_get pf).
Proof. intros s s' x [= <- _]. by apply timer_step_quiet. Qed.

Lemma tracks_add_num v : tracks (add_num_tasks v).
Proof. intros s s' x [= <- _]. by apply timer_step_quiet. Qed.

Lemma tracks_emit ev : (forall o, timer_after o [ev] = o) -> tracks (emit ev).
Proof. intros H s s' x [= <- _]. exists [ev]. split; [done|]. intros o. by rewrite H. Qed.

Lemma tracks_domain_set start : tracks (domain_set ops start).
Proof. intros s s' x [= <- _]. eexists [_]. split; [done|]. done. Qed.

Lemma tracks_domain_clear : tracks (domain_clear ops).
Proof. intros s s' x [= <- _]. eexists [_]. split; [done|]. done. Qed.
End timer.

Create HintDb timer.
#[export] Hint Resolve tracks_ret tracks_gets tracks_fault tracks_get_task tracks_get_pdata tracks_list_tasks
  tracks_mod_task tracks_mod_pdata tracks_timer_get tracks_add_num tracks_domain_set tracks_domain_clear : timer.

(** Split a computation into its steps. *)
Ltac tracks :=
  repeat first
    [ solve [auto with timer nocore]
    | apply tracks_bind; [|intros ?]
    | apply tracks_emit; done
    | apply tracks_modify; done
    | match goal with
      | |- tracks _ (if ?b then _ else _) => destruct b
      | |- tracks _ (match ?o with Some _ => _ | None => _ end) => destruct o
      end ].
