(* ===== verification/LlRun.v ===== *)
(** * The low-latency scheduler: running the tasks

    A timer interrupt runs every due task once, in the order of the list. The
    tasks may schedule, cancel and reschedule tasks while they run; what they may
    not do is to cancel themselves. *)

From stdpp Require Import base list numbers option gmap.
From S2P Require Import Prelude StateM IntrusiveList LlSchedule LlThms.

(** ** Calls of the scheduler interface *)

Inductive ll_call :=
  | TaskInit (ll_pdata task type priority core flags : Z)
  | Schedule (task start period : Z)
  | ScheduleBefore (task start period before : Z)
  | ScheduleAfter (task start period after : Z)
  | Cancel (task : Z)
  | Reschedule (task start : Z)
  | Free (task : Z)
  | ClockChange (message old_ticks_per_msec ticks_per_ms : Z).

Section calls.
Context (pf : platform) (others : Z) (N fuel : nat).
Local Abbreviation ops := (timer_domain_ops pf).
Local Abbreviation ll_ok := (ll_ok pf others N).
Local Abbreviation call_step := (call_step pf others N).
Implicit Types s : sched.

Definition exec_call (c : ll_call) : LL Z :=
  match c with
  | TaskInit p t type priority core flags => schedule_task_init_ll p t type priority core flags
  | Schedule t start period => schedule_ll_task pf ops fuel t start period
  | ScheduleBefore t start period before => schedule_ll_task_before pf ops fuel t start period before
  | ScheduleAfter t start period after => schedule_ll_task_after pf ops fuel t start period after
  | Cancel t => schedule_ll_task_cancel pf ops fuel t
  | Reschedule t start => reschedule_ll_task pf fuel t start
  | Free t => schedule_ll_task_free t
  | ClockChange message old ticks => ll_scheduler_notify pf fuel message old ticks ;; mret 0
  end.

(** The calls keep the timer and the domain in step. *)

Lemma tracks_enable core : tracks pf (domain_enable ops core).
Proof. unfold domain_enable, mod_domain. simpl. tracks. Qed.

Lemma tracks_disable core : tracks pf (domain_disable ops core).
Proof. unfold domain_disable, mod_domain. simpl. tracks. Qed.

Lemma tracks_register task arg : tracks pf (domain_register ops task arg).
Proof. unfold domain_register, add_total, mod_domain. simpl. unfold timer_domain_register. tracks. Qed.

Lemma tracks_unregister task num : tracks pf (domain_unregister ops task num).
Proof. unfold domain_unregister, add_total, mod_domain. simpl. unfold timer_domain_unregister. tracks. Qed.

Hint Resolve tracks_enable tracks_disable tracks_register tracks_unregister : timer.

Lemma tracks_full_sync t period l : tracks pf (full_sync_ratios t period l).
Proof.
  assert (forall l, tracks pf (find_registrable l)) as H1 by (intros l0; induction l0; simpl; tracks).
  assert (forall l p, tracks pf (update_ratios l period p)) as H2 by (intros l0 p; induction l0; simpl; tracks).
  unfold full_sync_ratios. tracks; auto.
Qed.

Lemma tracks_schedule t start period reference before :
  tracks pf (schedule_ll_task_common pf ops fuel t start period reference before).
Proof.
  assert (forall p l, tracks pf (insert_position pf p l)) as H1 by (intros p l; induction l; simpl; tracks).
  pose proof tracks_full_sync as H2.
  unfold schedule_ll_task_common, schedule_ll_domain_set, schedule_ll_task_insert, schedule_ll_task_insert_before,
    schedule_ll_task_insert_after, set_task_start, mod_links. tracks; auto.
Qed.

Lemma tracks_exec_call c : tracks pf (exec_call c).
Proof.
  pose proof tracks_schedule as H. destruct c; simpl; [|by apply H..| | | |].
  - unfold schedule_task_init_ll, schedule_task_init. tracks.
  - unfold schedule_ll_task_cancel, schedule_ll_domain_clear, mod_links. tracks.
  - unfold reschedule_ll_task. tracks.
  - unfold schedule_ll_task_free. tracks.
  - assert (forall l c o, tracks pf (recalculate l c o)) as H1 by (intros l0 c o; induction l0; simpl; tracks).
    unfold ll_scheduler_notify, ll_scheduler_recalculate_tasks, mod_domain. tracks; auto.
Qed.

(** A task that has been initialised, and a period of at least one tick. *)
Definition schedulable s (t period : Z) : Prop :=
  match l_tasks s !! t with Some tk => t_priv_data tk <> 0 | None => False end /\
  (period = 0 \/ u64 (dm_ticks_per_ms (l_domain s) * period) / 1000 <> 0).

Definition call_ok s (l : list Z) (c : ll_call) : Prop :=
  match c with
  | TaskInit p t _ _ _ _ => is_Some (l_tasks s !! t) /\ t ∉ l /\ l_pdata s !! p = None
  | Schedule t _ period => schedulable s t period
  | ScheduleBefore t _ period r | ScheduleAfter t _ period r => schedulable s t period /\ r ∈ l
  | Cancel _ | Reschedule _ _ => True
  | Free t => is_Some (l_tasks s !! t) /\ t ∉ l
  | ClockChange _ old _ => old <> 0
  end.

#[global] Instance call_ok_dec s l c : Decision (call_ok s l c).
Proof. unfold call_ok, schedulable. destruct c; try apply _; destruct (l_tasks s !! task); apply _. Defined.

Context (B : bounds_ok pf others N fuel).

Lemma exec_schedule_ok t start period reference before s l c :
  ll_ok s l -> schedulable s t period -> reference = 0 \/ reference ∈ l -> c <> Cancel t ->
  wp (schedule_ll_task_common pf ops fuel t start period reference before) s (fun s' _ =>
    exists l', call_step s l s' l' /\ forall u, u ∈ l -> c <> Cancel u -> u ∈ l').
Proof.
  intros Hok [H0 Hp] Hr Hc. destruct (l_tasks s !! t) as [tk|] eqn:Htk; [|done]. eapply wp_mono; [by eapply schedule_common_ok|].
  intros s' r [(_ & _ & ->)|[(_ & _ & C)|(_ & _ & l1 & l2 & [-> _ C _ _ _ _])]].
  - exists l. split; [by apply domain_step_call|done].
  - by exists l.
  - exists (l1 ++ t :: l2). split; [done|]. set_solver.
Qed.

Lemma exec_call_ok c s l :
  ll_ok s l -> call_ok s l c ->
  wp (exec_call c) s (fun s' _ => exists l', call_step s l s' l' /\ forall u, u ∈ l -> c <> Cancel u -> u ∈ l').
Proof.
  intros Hok Hc. destruct c as [p t ty pr co fl|t st pe|t st pe r|t st pe r|t|t st|t|m o k]; simpl in *.
  - destruct Hc as ([tk Htk] & Hn & Hf). eapply wp_mono; [by apply (init_task_ok pf others N fuel B p t tk)|].
    intros s' r [C _]. by exists l.
  - apply exec_schedule_ok; [done|done|by left|done].
  - destruct Hc. apply exec_schedule_ok; [done|done|by right|done].
  - destruct Hc. apply exec_schedule_ok; [done|done|by right|done].
  - eapply wp_mono; [by apply (cancel_ok pf others N)|]. intros s' r (_ & l' & C & H). exists l'. split; [done|].
    intros u Hu Hne. apply H. split; [done|]. congruence.
  - eapply wp_mono; [by apply (reschedule_ok pf others N)|]. intros s' r [_ C]. by exists l.
  - destruct Hc as [[tk Htk] Hn]. eapply wp_mono; [by apply (free_task_ok pf others N fuel B t tk s l)|].
    intros s' r [_ C]. by exists l.
  - wp_step. eapply wp_mono; [by apply (notify_ok pf others N)|]. intros s' r C. wp_step. by exists l.
Qed.
End calls.

(** ** What remains pending while a task runs *)

Definition is_pending s (t : Z) : Prop := state_of s t = Some SOF_TASK_STATE_PENDING.
#[global] Instance is_pending_dec s t : Decision (is_pending s t).
Proof. unfold is_pending. apply _. Defined.

Definition pend (s : sched) (l : list Z) : list Z := filter (is_pending s) l.

Lemma pend_app s l1 l2 : pend s (l1 ++ l2) = pend s l1 ++ pend s l2.
Proof. apply filter_app. Qed.

Lemma pend_ext s s' l : (forall t, t ∈ l -> state_of s' t = state_of s t) -> pend s' l = pend s l.
Proof.
  induction l as [|t l IH]; intros H; [done|]. unfold pend in *. rewrite !filter_cons.
  rewrite IH by (intros; apply H; by right).
  assert (is_pending s' t <-> is_pending s t) as E by (unfold is_pending; rewrite H by (by left); done).
  repeat case_decide; tauto.
Qed.

Lemma elem_of_pend s l t : t ∈ pend s l <-> t ∈ l /\ is_pending s t.
Proof. unfold pend. rewrite list_elem_of_filter. tauto. Qed.

(** The states in which a task waits in the list. *)
Definition waiting s (t : Z) : Prop :=
  state_of s t = Some SOF_TASK_STATE_QUEUED \/ state_of s t = Some SOF_TASK_STATE_RESCHEDULE.

(** A cut of the list in front of or behind a task. *)
Lemma app_cut (pre : list Z) self post l1 l2 :
  pre ++ self :: post = l1 ++ l2 ->
  (exists k, l1 = pre ++ self :: k /\ post = k ++ l2) \/ (exists k, pre = l1 ++ k /\ l2 = k ++ self :: post).
Proof.
  intros H. apply app_eq_app in H as (k & [[-> H]|[-> H]]).
  - right. by exists k.
  - destruct k as [|x k]; simpl in H.
    + right. exists []. by rewrite !app_nil_r.
    + injection H as <- ->. left. by exists k.
Qed.

Lemma pend_queued s l1 t l2 :
  state_of s t = Some SOF_TASK_STATE_QUEUED -> pend s (l1 ++ t :: l2) = pend s (l1 ++ l2).
Proof.
  intros H. rewrite !pend_app. f_equal. unfold pend. rewrite filter_cons_False; [done|]. unfold is_pending. by rewrite H.
Qed.

Lemma pend_removed s l1 t l2 : sublist (pend s (l1 ++ l2)) (pend s (l1 ++ t :: l2)).
Proof. rewrite !pend_app. apply sublist_app; [done|]. unfold pend. rewrite filter_cons. case_decide; [by constructor|done]. Qed.

Section progress.
Context (pf : platform) (others : Z) (N fuel : nat).
Local Abbreviation ops := (timer_domain_ops pf).
Local Abbreviation ll_ok := (ll_ok pf others N).
Local Abbreviation call_step := (call_step pf others N).
Implicit Types s : sched.

(** From a state with [pre] and [post] around the running task to another one. *)
Record progress self s pre post s' pre' post' : Prop := {
  pg_ok : ll_ok s' (pre' ++ self :: post');
  pg_self : state_of s' self = state_of s self;
  pg_pre : sublist (pend s' pre') (pend s pre);
  pg_post : sublist (pend s' post') (pend s post);
  pg_gone u : u ∈ pend s post -> u ∈ pend s' post' \/ u ∈ cancelled (l_trace s');
  pg_waiting : (forall u, u ∈ pre ++ post -> waiting s u \/ is_pending s u) ->
    forall u, u ∈ pre' ++ post' -> waiting s' u \/ is_pending s' u;
  pg_dom : dom (l_tasks s') = dom (l_tasks s);
  pg_reads : (l_reads s <= l_reads s')%nat;
  pg_ran : ran (l_trace s') = ran (l_trace s);
  pg_cancelled t : t ∈ cancelled (l_trace s) -> t ∈ cancelled (l_trace s')
}.

Lemma progress_refl self s pre post : ll_ok s (pre ++ self :: post) -> progress self s pre post s pre post.
Proof. intros Hok. split; auto. Qed.

Lemma progress_trans self s pre post s1 pre1 post1 s' pre' post' :
  progress self s pre post s1 pre1 post1 -> progress self s1 pre1 post1 s' pre' post' ->
  progress self s pre post s' pre' post'.
Proof.
  intros [A1 A2 A3 A4 A5 A6 A7 A8 A9 A10] [B1 B2 B3 B4 B5 B6 B7 B8 B9 B10].
  split; [done|congruence|by etrans|by etrans| |auto|congruence|lia|congruence|auto].
  intros u Hu. destruct (A5 u Hu) as [Hp|Hc]; auto.
Qed.

(** The part of a list that a step changes, on one side of the running task. *)
Inductive side s' (old : list Z) : list Z -> Prop :=
  | side_same : side s' old old
  | side_insert t l1 l2 : old = l1 ++ l2 -> state_of s' t = Some SOF_TASK_STATE_QUEUED -> side s' old (l1 ++ t :: l2)
  | side_remove t l1 l2 : old = l1 ++ t :: l2 -> t ∈ cancelled (l_trace s') -> side s' old (l1 ++ l2).

Lemma list_step_sides s' pre self post l' :
  list_step s' (pre ++ self :: post) l' -> self ∈ l' -> NoDup (pre ++ self :: post) ->
  exists pre' post', l' = pre' ++ self :: post' /\ side s' pre pre' /\ side s' post post'.
Proof.
  intros Hl Hself Hnd. destruct Hl as [|t l1 l2 E Ht Hs|t l1 l2 E Hc].
  - exists pre, post. split_and!; [done|constructor..].
  - apply app_cut in E as [(k & -> & ->)|(k & -> & ->)].
    + exists pre, (k ++ t :: l2). rewrite <- app_assoc. split_and!; [done|constructor|by econstructor].
    + exists (l1 ++ t :: k), post. rewrite <- app_assoc. split_and!; [done|by econstructor|constructor].
  - pose proof E as E0. apply app_cut in E as [(k & -> & ->)|(k & -> & E)].
    + exists pre, (k ++ l2). rewrite <- app_assoc. split_and!; [done|constructor|by econstructor].
    + destruct k as [|x k]; simpl in E; injection E as -> ->.
      * exfalso. rewrite app_nil_r in Hnd. rewrite <- Permutation_middle in Hnd.
        by apply NoDup_cons in Hnd as [? _].
      * exists (l1 ++ k), post. rewrite <- app_assoc. split_and!; [done|by econstructor|constructor].
Qed.

Lemma side_pend s s' old new :
  side s' old new -> (forall u, u ∈ old -> u ∈ new -> state_of s' u = state_of s u) -> NoDup old ->
  sublist (pend s' new) (pend s old) /\
  (forall u, u ∈ pend s old -> u ∈ pend s' new \/ u ∈ cancelled (l_trace s')) /\
  (forall u, u ∈ new -> u ∈ old \/ state_of s' u = Some SOF_TASK_STATE_QUEUED).
Proof.
  intros H Hs Hnd. destruct H as [|t l1 l2 -> Ht|t l1 l2 -> Ht].
  - rewrite (pend_ext s s') by auto. auto.
  - rewrite pend_queued by done. rewrite (pend_ext s s') by set_solver. split_and!; [done|auto|].
    intros u. rewrite elem_of_app, elem_of_cons. set_solver.
  - rewrite (pend_ext s s') by set_solver. split_and!; [apply pend_removed| |set_solver].
    intros u. rewrite !elem_of_pend. set_solver.
Qed.

Lemma call_progress self s pre post s' l' :
  ll_ok s (pre ++ self :: post) -> call_step s (pre ++ self :: post) s' l' -> self ∈ l' ->
  exists pre' post', l' = pre' ++ self :: post' /\ progress self s pre post s' pre' post'.
Proof.
  intros Hok [C1 C2 C3 C4 C5 C6 C7] Hself.
  destruct (lo_list _ _ _ _ _ Hok) as [Hnd _]. apply NoDup_cons in Hnd as [_ Hnd].
  destruct (list_step_sides s' pre self post l' C2 Hself Hnd) as (pre' & post' & -> & S1 & S2).
  pose proof Hnd as (N1 & _ & N2)%NoDup_app. apply NoDup_cons in N2 as [_ N2].
  destruct (side_pend s s' pre pre' S1) as (P1 & P2 & P3); [set_solver|done|].
  destruct (side_pend s s' post post' S2) as (Q1 & Q2 & Q3); [set_solver|done|].
  exists pre', post'. split; [done|]. split; try done.
  - apply C3; set_solver.
  - intros Hw u Hu. assert (u ∈ pre ++ post \/ state_of s' u = Some SOF_TASK_STATE_QUEUED) as [Ho|Hq].
    { apply elem_of_app in Hu as [Hu|Hu]; [destruct (P3 u Hu)|destruct (Q3 u Hu)]; set_solver. }
    + assert (state_of s' u = state_of s u) as E by (apply C3; set_solver).
      unfold waiting, is_pending. rewrite E. by apply Hw.
    + left. by left.
Qed.
End progress.

(** ** What the tasks promise *)

Section tasks.
Context (pf : platform) (others : Z) (N fuel : nat).
Local Abbreviation ops := (timer_domain_ops pf).
Local Abbreviation ll_ok := (ll_ok pf others N).
Local Abbreviation progress := (progress pf others N).
Local Abbreviation exec_call := (exec_call pf fuel).
Implicit Types s : sched.

Fixpoint exec_calls (cs : list ll_call) : LL unit :=
  match cs with
  | [] => mret tt
  | c :: cs => exec_call c ;; exec_calls cs
  end.

(** The calls a task makes while it runs: proper ones, and none that cancels
    itself. *)
Fixpoint script_ok (self : Z) s (cs : list ll_call) : Prop :=
  match cs with
  | [] => True
  | c :: cs => c <> Cancel self /\ (forall l, ll_ok s l -> call_ok s l c) /\
      (forall s' r, exec_call c s = Some (s', r) -> script_ok self s' cs)
  end.

(** Running a task makes such calls, which may depend on the state, and ends with
    the wish to be run again or to be done. *)
Class Tasks (run : Z -> LL Z) : Prop :=
  run_script : forall s l t, ll_ok s l -> t ∈ l -> state_of s t = Some SOF_TASK_STATE_RUNNING ->
    exists cs state, run t s = (exec_calls cs ;; mret state) s /\ script_ok t s cs /\
      (state = SOF_TASK_STATE_COMPLETED \/ state = SOF_TASK_STATE_RESCHEDULE).

Context (B : bounds_ok pf others N fuel) (run : Z -> LL Z) `{!Tasks run}.

Lemma exec_calls_ok self cs s pre post :
  ll_ok s (pre ++ self :: post) -> script_ok self s cs ->
  wp (exec_calls cs) s (fun s' _ => exists pre' post', progress self s pre post s' pre' post').
Proof.
  revert s pre post. induction cs as [|c cs IH]; intros s pre post Hok Hs; simpl.
  { wp_step. exists pre, post. by apply progress_refl. }
  destruct Hs as (Hne & Hc & Hs).
  destruct (exec_call_ok pf others N fuel B c s _ Hok (Hc _ Hok)) as (s1 & r & E & l' & C & Hin).
  destruct (call_progress pf others N self s pre post s1 l' Hok C) as (pre1 & post1 & -> & P1).
  { apply Hin; [set_solver|done]. }
  apply wp_bind. exists s1, r. split; [done|].
  eapply wp_mono; [apply IH; [apply P1|by eapply Hs]|]. intros s' [] (pre' & post' & P2).
  exists pre', post'. by eapply progress_trans.
Qed.

Lemma tracks_exec_calls cs : tracks pf (exec_calls cs).
Proof. pose proof (tracks_exec_call pf fuel) as H. induction cs; simpl; tracks; auto. Qed.

Lemma task_run_ok self s pre post :
  ll_ok s (pre ++ self :: post) -> state_of s self = Some SOF_TASK_STATE_RUNNING ->
  wp (task_run run self) s (fun s' state =>
    (state = SOF_TASK_STATE_COMPLETED \/ state = SOF_TASK_STATE_RESCHEDULE) /\ timer_step pf s s' /\
    exists pre' post', progress self (with_trace s (l_trace s ++ [TaskRun self])) pre post s' pre' post').
Proof.
  intros Hok Hst. unfold task_run. do 2 wp_step. set (s1 := with_trace s _).
  assert (ll_ok s1 (pre ++ self :: post)) as Hok1 by by eapply ll_ok_frame, Hok.
  destruct (run_script s1 _ self Hok1) as (cs & state & E & Hs & Hstate); [set_solver|done|].
  destruct (exec_calls_ok self cs s1 pre post Hok1 Hs) as (s' & [] & E' & P).
  exists s', state. split; [rewrite E; by erewrite bind_Some by exact E'|]. split; [done|]. split; [|done].
  trans s1; [by apply (tracks_emit pf (TaskRun self) ltac:(done) s s1 tt)|by eapply tracks_exec_calls].
Qed.

(** The end of a run: the task leaves the list, or gets its next start. *)
Lemma ll_finish_ok self state s pre post (k : Z -> LL unit) P :
  ll_ok s (pre ++ self :: post) -> state = SOF_TASK_STATE_COMPLETED \/ state = SOF_TASK_STATE_RESCHEDULE ->
  (forall s' pre', ll_ok s' (pre' ++ post) -> pre' = pre \/ (pre' = pre ++ [self] /\ waiting s' self) ->
     (forall u, u ∈ pre ++ post -> state_of s' u = state_of s u) -> dom (l_tasks s') = dom (l_tasks s) ->
     l_reads s' = l_reads s -> l_trace s' = l_trace s -> dm_next_tick (l_domain s') = dm_next_tick (l_domain s) -> wp (k (default (pf_tasks pf) (head post))) s' P) ->
  wp (mod_task self (set_state state) ;;
      L ← gets l_links;
      (if state =? SOF_TASK_STATE_COMPLETED then schedule_ll_task_done ops self
       else schedule_ll_task_update_start self) ;;
      k (nx L self)) s P.
Proof.
  intros Hok Hst Hk. destruct (lo_in _ _ _ _ _ Hok self) as (tk & Htk & H0); [set_solver|].
  destruct (lo_known _ _ _ _ _ Hok self tk Htk) as (Hne & _ & Hpd). destruct (Hpd H0) as [pd Hpd'].
  pose proof (ll_ok_mod_task pf others N s _ self tk (set_state state) Hok Htk eq_refl) as Hok1.
  assert (self ∉ pre ++ post) as Hself.
  { destruct (lo_list _ _ _ _ _ Hok) as [Hnd _]. apply NoDup_cons in Hnd as [_ Hnd].
    rewrite <- Permutation_middle in Hnd. by apply NoDup_cons in Hnd as [? _]. }
  assert (forall tk', dom (<[self := tk']> (l_tasks s)) = dom (l_tasks s)) as Hdom.
  { intros tk'. rewrite dom_insert_L. apply subseteq_union_1_L, singleton_subseteq_l. by eapply elem_of_dom_2. }
  do 5 wp_step. simpl. rewrite (is_list_succ _ _ _ _ _ (lo_list _ _ _ _ _ Hok)). apply wp_if; intros E; zbool.
  - unfold schedule_ll_task_done. do 4 wp_step. eapply wp_mono; [by apply domain_unregister_ok|]. intros s' [] ->.
    apply (Hk _ pre); try done; [|by left| |apply Hdom].
    + by apply (ll_ok_remove pf others N fuel B _ pre self post _ Hok1).
    + intros u Hu. unfold state_of. simpl. by rewrite lookup_insert_ne by set_solver.
  - unfold schedule_ll_task_update_start. wp_step. eapply wp_get_task; [apply lookup_insert_eq|]. do 4 wp_step.
    eapply wp_mod_task; [apply lookup_insert_eq|]. set (v := u64 _). apply (Hk _ (pre ++ [self])); simpl; try done.
    + rewrite <- app_assoc. simpl. rewrite insert_insert_eq.
      by apply (ll_ok_mod_task pf others N s _ self tk (fun t => set_start v (set_state state t))).
    + right. split; [done|]. right. unfold state_of. simpl. rewrite lookup_insert_eq. simpl. f_equal. lia.
    + intros u Hu. unfold state_of. simpl. by rewrite !lookup_insert_ne by set_solver.
    + rewrite insert_insert_eq. apply Hdom.
Qed.

Record executed s (todo : list Z) s' (l' xs : list Z) : Prop := {
  ex_ok : ll_ok s' l';
  ex_waiting u : u ∈ l' -> waiting s' u;
  ex_ran : ran (l_trace s') = ran (l_trace s) ++ xs;
  ex_order : sublist xs todo;
  ex_all u : u ∈ todo -> u ∈ xs \/ u ∈ cancelled (l_trace s');
  ex_cancelled u : u ∈ cancelled (l_trace s) -> u ∈ cancelled (l_trace s');
  ex_reads : (l_reads s <= l_reads s')%nat;
  ex_dom : dom (l_tasks s') = dom (l_tasks s);
  ex_timer : timer_step pf s s'
}.

Definition exec_measure s (post : list Z) : nat := (length (pend s post) * S N + length post)%nat.

(** One task more in front of what the rest of the loop runs. *)
Lemma executed_cons s self post0 s1 post1 s' l' xs s3 :
  ran (l_trace s1) = ran (l_trace s) ++ [self] ->
  (forall u, u ∈ cancelled (l_trace s) -> u ∈ cancelled (l_trace s1)) ->
  sublist (pend s1 post1) (pend s post0) ->
  (forall u, u ∈ pend s post0 -> u ∈ pend s1 post1 \/ u ∈ cancelled (l_trace s1)) ->
  (l_reads s <= l_reads s1)%nat -> dom (l_tasks s1) = dom (l_tasks s) ->
  pend s3 post1 = pend s1 post1 -> l_trace s3 = l_trace s1 -> l_reads s3 = l_reads s1 ->
  dom (l_tasks s3) = dom (l_tasks s1) -> timer_step pf s s3 ->
  executed s3 (pend s3 post1) s' l' xs -> executed s (self :: pend s post0) s' l' (self :: xs).
Proof.
  intros H1 H2 H3 H4 H5 H6 E1 E2 E3 E4 E5 [X1 X2 X3 X4 X5 X6 X7 X8 X9]. rewrite E1, ?E2 in *.
  split; try done.
  - by rewrite X3, H1, <- app_assoc.
  - apply sublist_skip. by etrans.
  - intros u Hu. apply elem_of_cons in Hu as [->|Hu]; [left; by left|].
    destruct (H4 u Hu) as [Hp|Hc]; [|auto]. destruct (X5 u Hp) as [?|?]; [left; by right|by right].
  - auto.
  - lia.
  - congruence.
  - by trans s3.
Qed.

(** The loop body for a pending task, with the rest of the loop. *)
Lemma execute_one_ok self tk s pre post (k : Z -> LL unit) P :
  ll_ok s (pre ++ self :: post) -> l_tasks s !! self = Some tk -> pend s pre = [] ->
  (forall u, u ∈ pre ++ post -> waiting s u \/ is_pending s u) ->
  (forall s3 pre3 post3, ll_ok s3 (pre3 ++ post3) -> pend s3 pre3 = [] ->
     (forall u, u ∈ pre3 ++ post3 -> waiting s3 u \/ is_pending s3 u) ->
     (length (pend s3 post3) <= length (pend s post))%nat ->
     (forall s' l' xs, executed s3 (pend s3 post3) s' l' xs -> executed s (self :: pend s post) s' l' (self :: xs)) ->
     wp (k (default (pf_tasks pf) (head post3))) s3 P) ->
  wp (mod_task self (set_state SOF_TASK_STATE_RUNNING) ;;
      state ← task_run run self;
      mod_task self (set_state state) ;;
      L ← gets l_links;
      (if state =? SOF_TASK_STATE_COMPLETED then schedule_ll_task_done ops self
       else schedule_ll_task_update_start self) ;;
      k (nx L self)) s P.
Proof.
  intros Hok Htk Hpre Hw Hk. do 2 wp_step. set (sA := with_tasks s _).
  assert (ll_ok sA (pre ++ self :: post)) as HokA by by apply ll_ok_mod_task.
  assert (self ∉ pre ++ post) as Hself.
  { destruct (lo_list _ _ _ _ _ Hok) as [Hnd _]. apply NoDup_cons in Hnd as [_ Hnd].
    rewrite <- Permutation_middle in Hnd. by apply NoDup_cons in Hnd as [? _]. }
  assert (forall u, u ∈ pre ++ post -> state_of sA u = state_of s u) as HsA.
  { intros u Hu. unfold state_of. subst sA. simpl. by rewrite lookup_insert_ne by set_solver. }
  assert (dom (l_tasks sA) = dom (l_tasks s)) as HdA.
  { subst sA. simpl. rewrite dom_insert_L. apply subseteq_union_1_L, singleton_subseteq_l. by eapply elem_of_dom_2. }
  wp_step. eapply wp_mono; [apply (task_run_ok self sA pre post HokA)|].
  { unfold state_of. subst sA. simpl. by rewrite lookup_insert_eq. }
  set (sT := with_trace sA _). intros s1 state (Hstate & T1 & pre1 & post1 & [P1 P2 P3 P4 P5 P6 P7 P8 P9 P10]).
  assert (forall m, m ⊆ pre ++ post -> pend sT m = pend s m) as EA.
  { intros m Hm. apply pend_ext. intros u Hu. apply HsA. set_solver. }
  rewrite EA in P3, P4, P5 by set_solver. rewrite Hpre in P3. apply sublist_nil_r in P3.
  apply (ll_finish_ok self state s1 pre1 post1); [done..|]. intros s3 pre3 Hok3 Hpre3 Hs3 Hd3 Hr3 Ht3 Hn3.
  assert (forall m, m ⊆ pre1 ++ post1 -> pend s3 m = pend s1 m) as E3.
  { intros m Hm. apply pend_ext. intros u Hu. apply Hs3. set_solver. }
  assert (forall u, u ∈ pre1 ++ post1 -> waiting s3 u \/ is_pending s3 u) as Hw3.
  { intros u Hu. unfold waiting, is_pending. rewrite Hs3 by done. apply P6; [|done].
    intros v Hv. unfold waiting, is_pending. rewrite (HsA v Hv : state_of sT v = _). by apply Hw. }
  apply (Hk s3 pre3 post1); [done|..].
  - destruct Hpre3 as [->|[-> Hws]]; [by rewrite E3 by set_solver|].
    rewrite pend_app, E3, P3 by set_solver. simpl. unfold pend. rewrite filter_cons_False; [done|].
    unfold is_pending. by destruct Hws as [->| ->].
  - destruct Hpre3 as [->|[-> Hws]]; [done|]. intros u Hu. destruct (decide (u = self)) as [->|]; [by left|].
    apply Hw3. set_solver.
  - rewrite E3 by set_solver. by apply sublist_length.
  - intros s' l' xs. apply (executed_cons s self post s1 post1); try done.
    + rewrite P9. subst sT. simpl. by rewrite ran_snoc.
    + intros u Hu. apply P10. subst sT. simpl. rewrite cancelled_snoc. set_solver.
    + rewrite P7. exact HdA.
    + apply E3. set_solver.
    + trans sA; [by apply timer_step_quiet|]. trans s1; [done|]. by apply timer_step_quiet.
Qed.

Lemma execute_loop_ok n s pre post :
  ll_ok s (pre ++ post) -> pend s pre = [] -> (forall u, u ∈ pre ++ post -> waiting s u \/ is_pending s u) ->
  (exec_measure s post < n)%nat ->
  wp (execute_loop pf ops run n (default (pf_tasks pf) (head post))) s (fun s' _ => exists l' xs,
    executed s (pend s post) s' l' xs).
Proof.
  revert s pre post. induction n as [|n IH]; intros s pre post Hok Hpre Hw Hn; [lia|]. simpl.
  destruct post as [|self post]; simpl.
  { rewrite Z.eqb_refl. wp_step. exists pre, []. rewrite app_nil_r in *. split; try done.
    - intros u Hu. destruct (Hw u Hu) as [?|Hp]; [done|]. exfalso.
      assert (u ∈ pend s pre) as Hin by by apply elem_of_pend. rewrite Hpre in Hin. set_solver.
    - by rewrite app_nil_r.
    - set_solver. }
  destruct (lo_in _ _ _ _ _ Hok self) as (tk & Htk & _); [set_solver|].
  destruct (lo_known _ _ _ _ _ Hok self tk Htk) as (_ & Hh & _). rewrite (proj2 (Z.eqb_neq _ _) Hh).
  do 2 wp_step. assert (state_of s self = Some (t_state tk)) as Hst by (unfold state_of; by rewrite Htk).
  unfold exec_measure, pend in Hn. rewrite filter_cons in Hn. simpl in Hn. apply wp_if; intros E; zbool.
  - assert (~ is_pending s self) as Hnp by (unfold is_pending; rewrite Hst; congruence).
    rewrite decide_False in Hn by done. do 2 wp_step. rewrite (is_list_succ _ _ _ _ _ (lo_list _ _ _ _ _ Hok)).
    unfold pend at 1. rewrite filter_cons_False by done.
    apply (IH s (pre ++ [self])); rewrite <- ?app_assoc; [done| |done|unfold exec_measure, pend; lia].
    rewrite pend_app, Hpre. simpl. unfold pend. by rewrite filter_cons_False.
  - assert (is_pending s self) as Hip by (unfold is_pending; rewrite Hst; congruence).
    rewrite decide_True in Hn by done. simpl in Hn. unfold pend at 1. rewrite filter_cons_True by done. fold (pend s post).
    apply (execute_one_ok self tk s pre post); [done..|set_solver|]. intros s3 pre3 post3 Hok3 Hp3 Hw3 Hl3 Hx.
    eapply wp_mono; [apply (IH s3 pre3); [done..|]|].
    + unfold exec_measure. pose proof (ll_ok_length _ _ _ _ _ Hok3) as Hlen. rewrite length_app in Hlen.
      unfold pend in *. nia.
    + intros s' [] (l' & xs & X). exists l', (self :: xs). by apply Hx.
Qed.
End tasks.
