(* ===== verification/LlInterrupt.v ===== *)
(** * The low-latency scheduler: the timer interrupt

    One interrupt marks the due tasks, runs them and sets the timer for the next
    interrupt; histories of interrupts and calls keep the invariant. *)

From stdpp Require Import base list numbers option gmap.
From S2P Require Import Prelude StateM IntrusiveList LlSchedule LlThms LlRun.

Section interrupt.
Context (pf : platform) (others : Z) (N fuel : nat).
Local Abbreviation ops := (timer_domain_ops pf).
Local Abbreviation ll_ok := (ll_ok pf others N).
Implicit Types s : sched.

(** ** Which tasks are due *)

Definition start_of s (t : Z) : Z := default 0 (t_start <$> l_tasks s !! t).

(** The scan of [l0] has marked the tasks whose start had come when they were
    looked at. *)
Record scanned s (l0 : list Z) s' : Prop := {
  sn_frame : s' = with_reads (with_tasks s (l_tasks s')) (l_reads s');
  sn_reads : (l_reads s <= l_reads s')%nat;
  sn_dom : dom (l_tasks s') = dom (l_tasks s);
  sn_priv t : t_priv_data <$> l_tasks s' !! t = t_priv_data <$> l_tasks s !! t;
  sn_start t : start_of s' t = start_of s t;
  sn_other t : t ∉ l0 -> state_of s' t = state_of s t;
  sn_marked t : t ∈ l0 -> exists n, (l_reads s <= n < l_reads s')%nat /\
    if decide (start_of s t <= pf_clock pf n) then is_pending s' t else state_of s' t = state_of s t
}.

Lemma scanned_cons s t tk l0 s1 s' (b : bool) :
  l_tasks s !! t = Some tk -> t ∉ l0 -> b = (t_start tk <=? pf_clock pf (l_reads s)) ->
  s1 = (if b then with_tasks (with_reads s (S (l_reads s))) (<[t := set_state SOF_TASK_STATE_PENDING tk]> (l_tasks s))
        else with_reads s (S (l_reads s))) ->
  scanned s1 l0 s' -> scanned s (t :: l0) s'.
Proof.
  intros Htk Hn Hb Hs1 [F1 F2 F3 F4' F4 F5 F6].
  assert (l_reads s1 = S (l_reads s)) as Hr by (subst s1; by destruct b).
  assert (forall u, start_of s1 u = start_of s u) as Hst.
  { intros u. subst s1. destruct b; [|done]. unfold start_of. simpl. destruct (decide (t = u)) as [<-|].
    - by rewrite lookup_insert_eq, Htk.
    - by rewrite lookup_insert_ne. }
  assert (forall u, u <> t -> state_of s1 u = state_of s u) as Hso.
  { intros u Hu. subst s1. destruct b; [|done]. unfold state_of. simpl. by rewrite lookup_insert_ne. }
  assert (start_of s t = t_start tk) as Hstart by (unfold start_of; by rewrite Htk).
  split.
  - rewrite F1. subst s1. by destruct b.
  - lia.
  - rewrite F3. subst s1. destruct b; [|done]. simpl. rewrite dom_insert_L.
    apply subseteq_union_1_L, singleton_subseteq_l. by eapply elem_of_dom_2.
  - intros u. rewrite F4'. subst s1. destruct b; [|done]. simpl. destruct (decide (t = u)) as [<-|].
    + by rewrite lookup_insert_eq, Htk.
    + by rewrite lookup_insert_ne.
  - intros u. by rewrite F4.
  - intros u Hu. rewrite F5, Hso by set_solver. done.
  - intros u Hu. apply elem_of_cons in Hu as [->|Hu].
    + exists (l_reads s). split; [lia|]. rewrite Hstart. unfold is_pending. rewrite F5 by done.
      subst s1 b. case_decide as Hd; unfold state_of; simpl; case_if; try lia; simpl; [by rewrite lookup_insert_eq|done].
    + destruct (F6 u Hu) as (n & Hrn & Hm). exists n. split; [lia|]. rewrite Hst in Hm.
      rewrite Hso in Hm by set_solver. done.
Qed.

Lemma pending_scan_ok s l0 comp count :
  NoDup l0 -> (forall t, t ∈ l0 -> waiting s t) -> 0 <= count -> count + Z.of_nat (length l0) < 2 ^ 32 ->
  wp (pending_scan ops l0 comp count) s (fun s' r => scanned s l0 s' /\
    r = (comp, count + Z.of_nat (length (pend s' l0)))).
Proof.
  revert s count. induction l0 as [|t l0 IH]; intros s count Hnd Hw Hc Hlen; simpl.
  { wp_step. split; [|f_equal; simpl; lia]. split; try done; [by destruct s|set_solver]. }
  apply NoDup_cons in Hnd as [Hn Hnd]. simpl in Hlen.
  assert (exists tk, l_tasks s !! t = Some tk /\ (t_state tk = SOF_TASK_STATE_QUEUED \/ t_state tk = SOF_TASK_STATE_RESCHEDULE))
    as (tk & Htk & Hst).
  { specialize (Hw t ltac:(by left)). unfold waiting, state_of in Hw. destruct (l_tasks s !! t) as [tk|]; simpl in Hw.
    - exists tk. split; [done|]. destruct Hw as [[= ->]|[= ->]]; auto.
    - by destruct Hw. }
  do 2 wp_step. apply wp_if; intros E; [exfalso; zbool; lia|]. clear E.
  unfold domain_is_pending. simpl. unfold timer_domain_is_pending. repeat wp_step. simpl.
  apply wp_if; intros E; zbool.
  - wp_step. eapply wp_mod_task; [exact Htk|]. rewrite u32_small by lia. simpl.
    set (s1 := with_tasks _ _).
    eapply wp_mono; [apply (IH s1); [done| |lia..]|].
    { intros u Hu. subst s1. unfold waiting, state_of. simpl. rewrite lookup_insert_ne by set_solver. apply Hw. by right. }
    intros s' r [Sc ->]. assert (scanned s (t :: l0) s') as Sc'.
    { apply (scanned_cons s t tk l0 s1 s' true); [done|done|symmetry; by apply Z.leb_le|done|done]. }
    split; [done|]. f_equal. unfold pend. rewrite filter_cons_True; [simpl; lia|].
    unfold is_pending. rewrite (sn_other _ _ _ Sc) by done. unfold state_of. subst s1. simpl. by rewrite lookup_insert_eq.
  - set (s1 := with_reads _ _). eapply wp_mono; [apply (IH s1); [done| |lia..]|].
    { intros u Hu. apply (Hw u). by right. }
    intros s' r [Sc ->]. assert (scanned s (t :: l0) s') as Sc'.
    { apply (scanned_cons s t tk l0 s1 s' false); [done|done|symmetry; by apply Z.leb_gt|done|done]. }
    split; [done|]. f_equal. unfold pend. rewrite filter_cons_False; [done|].
    unfold is_pending. rewrite (sn_other _ _ _ Sc) by done. unfold state_of. simpl. rewrite Htk. simpl.
    intros [= ?]. lia.
Qed.

Lemma scanned_ok s l l0 s' : scanned s l0 s' -> ll_ok s l -> ll_ok s' l.
Proof.
  intros [F1 F2 F3 F4 _ _ _] [Hl Hk Ho Hin Hn Ht Hsz Hsy].
  assert (forall t tk, l_tasks s' !! t = Some tk -> exists tk0, l_tasks s !! t = Some tk0 /\
    t_priv_data tk = t_priv_data tk0) as Hold.
  { intros t tk H. specialize (F4 t). rewrite H in F4. destruct (l_tasks s !! t) as [tk0|]; [|done].
    exists tk0. split; [done|]. by injection F4. }
  split; try (rewrite F1; done).
  - intros t tk H. destruct (Hold t tk H) as (tk0 & H0 & E). rewrite E, F1. simpl. eauto.
  - intros t t' tk tk' H H' E E0. destruct (Hold t tk H) as (tk0 & H0 & E1), (Hold t' tk' H') as (tk0' & H0' & E1').
    eapply Ho; [done..| |]; congruence.
  - intros t Hin'. destruct (Hin t Hin') as (tk0 & H0 & E0). specialize (F4 t). rewrite H0 in F4.
    destruct (l_tasks s' !! t) as [tk|]; [|done]. exists tk. split; [done|]. simpl in F4. congruence.
  - by rewrite <- size_dom, F3, size_dom.
Qed.

Context (B : bounds_ok pf others N fuel).

Lemma is_pending_ok s l :
  ll_ok s l -> (forall t, t ∈ l -> waiting s t) ->
  wp (schedule_ll_is_pending pf ops fuel) s (fun s' b => scanned s l s' /\
    (b = false -> pend s' l = [])).
Proof.
  intros Hok Hw. unfold schedule_ll_is_pending. wp_step. pose proof (ll_ok_length _ _ _ _ _ Hok) as Hlen.
  pose proof B as [B1 B2 B3 _]. destruct fuel as [|f] eqn:Ef; [lia|]. simpl. wp_step.
  rewrite <- Ef in *. eapply wp_list_tasks; [done..|]. wp_step.
  destruct (lo_list _ _ _ _ _ Hok) as [Hnd _]. apply NoDup_cons in Hnd as [_ Hnd].
  eapply wp_mono; [apply pending_scan_ok; [done|done|lia|lia]|]. intros s' r [Sc ->]. simpl. do 2 wp_step.
  split; [done|]. intros E. zbool. destruct (pend s' l); [done|]. simpl in E. lia.
Qed.

(** ** Setting the timer *)

(** No other core waits for the timer. *)
Definition only_core s : Prop :=
  dm_enabled_cores (l_domain s) = if dm_enabled (l_domain s) (cpu_get_id pf) then 1 else 0.

(** The interrupt begins with a cleared timer when no other core waits for it. *)
Lemma tasks_run_begin_ok s : wp (tasks_run_begin pf ops) s (fun s' _ => domain_step s s' /\
  (only_core s -> dm_next_tick (l_domain s') = UINT64_MAX /\
    exists evs, l_trace s' = l_trace s ++ evs /\ forall o, timer_after o evs = None)).
Proof.
  unfold tasks_run_begin. wp_step. eapply wp_mono with (P := fun s1 _ => domain_step s s1 /\
    (only_core s -> dm_enabled_cores (l_domain s1) = 0 /\ exists evs, l_trace s1 = l_trace s ++ evs)).
  { unfold domain_disable, only_core. do 2 wp_step. simpl. apply wp_if; intros E; rewrite E.
    - do 3 wp_step. split; [domain_step|]. intros Ho. simpl. rewrite Ho. split; [done|]. by eexists [_].
    - wp_step. split; [done|]. intros Ho. split; [done|]. exists []. by rewrite app_nil_r. }
  intros s1 [] (D & Hc). do 2 wp_step. apply wp_if; intros Ez; zbool.
  - unfold domain_clear. simpl. do 3 wp_step. split; [etrans; [exact D|domain_step]|]. intros Ho.
    destruct (Hc Ho) as (_ & evs & Ht). split; [done|]. simpl. rewrite Ht. exists (evs ++ [TimerClear]).
    split; [by rewrite app_assoc|]. intros o. by rewrite timer_after_app.
  - wp_step. split; [done|]. intros Ho. destruct (Hc Ho). done.
Qed.

Lemma earliest_ok s l next_tick take :
  (forall t, t ∈ l -> is_Some (l_tasks s !! t)) ->
  wp (earliest l next_tick take) s (fun s' r => s' = s /\ r.1 <= next_tick /\
    (forall t, t ∈ l -> state_of s t = Some SOF_TASK_STATE_RESCHEDULE -> r.1 <= start_of s t) /\
    (r = (next_tick, take) \/ r.2 ∈ l)).
Proof.
  revert next_tick take. induction l as [|t l IH]; intros nt take Hk; simpl.
  { wp_step. split_and!; [done|simpl; lia|set_solver|by left]. }
  destruct (Hk t) as [tk Htk]; [by left|]. do 2 wp_step.
  assert (state_of s t = Some (t_state tk) /\ start_of s t = t_start tk) as [Hst Hsta].
  { unfold state_of, start_of. by rewrite Htk. }
  assert (forall u, u ∈ l -> is_Some (l_tasks s !! u)) as Hk' by (intros; apply Hk; by right).
  repeat (apply wp_if; intros ?); zbool;
    (eapply wp_mono; [by apply IH|]); intros s' r (-> & H1 & H2 & H3);
    (split; [done|]); (split; [lia|]); split.
  all: try (intros u [->|Hu]%elem_of_cons Hs; [|by apply H2]).
  - rewrite Hst in Hs. by injection Hs.
  - destruct H3 as [->|]; [by left|right; by right].
  - lia.
  - right. destruct H3 as [->|]; [by left|by right].
  - lia.
  - destruct H3 as [->|]; [by left|right; by right].
Qed.

Lemma client_reschedule_ok s l :
  ll_ok s l ->
  wp (schedule_ll_client_reschedule pf fuel) s (fun s' _ => exists v,
    s' = with_domain s (set_new_target_tick v (l_domain s)) /\
    forall t, t ∈ l -> state_of s t = Some SOF_TASK_STATE_RESCHEDULE -> v <= start_of s t).
Proof.
  intros Hok. unfold schedule_ll_client_reschedule. do 2 wp_step.
  assert (s = with_domain s (set_new_target_tick (dm_new_target_tick (l_domain s)) (l_domain s))) as Eid.
  { destruct s as [? ? ? ? d]. by destruct d. }
  apply wp_if; intros E; zbool.
  { wp_step. exists (dm_new_target_tick (l_domain s)). split; [done|]. intros t Ht. exfalso.
    pose proof (lo_total _ _ _ _ _ Hok). destruct B as [B1 _ _ _]. destruct l; [set_solver|]. simpl in *. lia. }
  wp_step. eapply wp_list_tasks; [done..|]. wp_step.
  eapply wp_mono; [apply earliest_ok|].
  { intros t Ht. destruct (lo_in _ _ _ _ _ Hok t Ht) as (tk & ? & _). by exists tk. }
  intros s' r (-> & H1 & H2 & H3). apply wp_if; intros E2; zbool; wp_step.
  - destruct H3 as [->|H3]; [by eexists|]. exfalso. destruct (lo_in _ _ _ _ _ Hok _ H3) as (tk & Htk & _).
    by destruct (lo_known _ _ _ _ _ Hok _ tk Htk).
  - by exists r.1.
Qed.

(** The timer fires not later than at the start, or it is set for the start or an
    earlier tick, where the timer needs some time to be set. *)
Definition timer_armed (since : nat) s (start : Z) : Prop :=
  dm_next_tick (l_domain s) <= start \/
  exists n tick, (since <= n < l_reads s)%nat /\ tick <= start /\ dm_next_tick (l_domain s) = armed pf tick (pf_clock pf n).

(** The timer was set at the end of the interrupt, for the start or an earlier
    tick. *)
Definition timer_renewed (since : nat) s s' (start : Z) : Prop :=
  exists n tick evs, (since <= n < l_reads s')%nat /\ tick <= start /\ l_trace s' = l_trace s ++ evs /\
    forall o, timer_after o evs = Some (Z.max tick (u64 (pf_clock pf n + LL_TIMER_SET_OVERHEAD_TICKS))).

Lemma tracks_run_end : tracks pf (tasks_run_end pf ops fuel).
Proof.
  assert (forall l n t, tracks pf (earliest l n t)) as H1.
  { intros l. induction l as [|x l IH]; intros n t; simpl; tracks; apply IH. }
  pose proof (tracks_enable pf) as H2.
  unfold tasks_run_end, schedule_ll_client_reschedule, mod_domain. tracks; auto.
Qed.

Lemma enable_trace core s s' x : domain_enable ops core s = Some (s', x) ->
  exists evs, l_trace s' = l_trace s ++ evs /\ forall o, timer_after o evs = o.
Proof.
  unfold domain_enable, mbind, ST_bind, gets. simpl. destruct (dm_enabled (l_domain s) core); intros [= <- _].
  - exists []. by rewrite app_nil_r.
  - by eexists [_].
Qed.

Lemma tasks_run_end_ok s l :
  ll_ok s l ->
  wp (tasks_run_end pf ops fuel) s (fun s' _ => (domain_step s s' /\
    (forall t, t ∈ l -> state_of s t = Some SOF_TASK_STATE_RESCHEDULE ->
      dm_next_tick (l_domain s') <= start_of s t \/ timer_renewed (l_reads s) s s' (start_of s t))) /\
    (l <> [] -> dm_enabled (l_domain s') (cpu_get_id pf) = true) /\
    (forall t, t ∈ l -> state_of s t = Some SOF_TASK_STATE_RESCHEDULE -> timer_armed (l_reads s) s' (start_of s t))).
Proof.
  intros Hok. unfold tasks_run_end. do 4 wp_step. set (s0 := with_reads s _).
  assert (domain_step s s0) as D0 by (subst s0; domain_step). do 1 wp_step.
  assert (exists s1, domain_step s s1 /\ l_reads s1 = S (l_reads s) /\
    wp (if dm_new_target_tick (l_domain s0) <? pf_clock pf (l_reads s) then mod_domain (set_new_target_tick UINT64_MAX)
        else mret tt) s0 (fun s' _ => s' = s1)) as (s1 & D1 & R1 & W1).
  { case_if.
    - eexists. split; [|split; [|by wp_step]]; [|done]. etrans; [exact D0|]. domain_step.
    - exists s0. split; [done|]. split; [done|]. by wp_step. }
  eapply wp_mono; [exact W1|]. intros ? [] ->. pose proof (domain_step_ok _ _ _ _ _ _ D1 Hok) as Hok1. wp_step.
  eapply wp_mono; [by apply client_reschedule_ok|]. intros s2 [] (v & -> & Hv). set (s2 := with_domain _ _).
  assert (domain_step s s2) as D2 by (etrans; [exact D1|]; subst s2; domain_step). do 3 wp_step. simpl.
  assert (l_trace s2 = l_trace s) as T2.
  { subst s2. simpl. clear - W1. destruct W1 as (s' & x & W1 & ->). revert W1. subst s0. case_if; by intros [= <- _]. }
  assert (exists s3, domain_step s2 s3 /\ (forall start, v <= start -> timer_armed (l_reads s) s3 start /\
      (dm_next_tick (l_domain s3) <= start \/ timer_renewed (l_reads s) s s3 start)) /\
    wp (if v <? dm_next_tick (l_domain s1) then domain_set ops v else mret tt) s2 (fun s' _ => s' = s3))
    as (s3 & D3 & A3 & W3).
  { case_if.
    - destruct (domain_set_ok pf v s2) as (s3 & [] & E & D & _ & Hn & _ & Hr). exists s3. split; [done|].
      split; [|by exists s3, tt]. intros start Hs. subst s2. simpl in *. split; right.
      + exists (l_reads s1), v. split; [lia|]. done.
      + injection E as <-. simpl in *. exists (l_reads s1), v. eexists [_]. split; [simpl; lia|]. split; [done|].
        rewrite <- T2. done.
    - exists s2. split; [done|]. split; [|by wp_step]. intros start Hs. subst s2. simpl. split; left; simpl; lia. }
  eapply wp_mono; [exact W3|]. intros ? [] ->. do 2 wp_step.
  assert (forall t, t ∈ l -> state_of s t = Some SOF_TASK_STATE_RESCHEDULE -> timer_armed (l_reads s) s3 (start_of s t) /\
    (dm_next_tick (l_domain s3) <= start_of s t \/ timer_renewed (l_reads s) s s3 (start_of s t))) as Ht.
  { intros t Ht Hs. apply A3. unfold state_of, start_of in *. rewrite <- (ds_tasks _ _ D1) in *. by apply Hv. }
  apply wp_if; intros E; zbool.
  - wp_step. split; [split; [by etrans|intros; by apply Ht]|]. split; [|intros; by apply Ht]. intros Hne. exfalso.
    rewrite (ds_num _ _ D3), (ds_num _ _ D2), (lo_num _ _ _ _ _ Hok) in E. destruct l; [done|]. simpl in E. lia.
  - destruct (domain_enable_ok pf (cpu_get_id pf) s3) as (s4 & [] & E4 & D4 & En & Hnt & _). exists s4, tt. split; [done|].
    pose proof (ds_reads _ _ D4). destruct (enable_trace _ _ _ _ E4) as (ev & Tv & Av). split; [split|split; [done|]].
    + by do 2 (etrans; [done|]).
    + intros t Hin Hs. rewrite Hnt. destruct (proj2 (Ht t Hin Hs)) as [?|(n & tk & es & ? & ? & Te & Ae)]; [by left|right].
      exists n, tk, (es ++ ev). split; [lia|]. split; [done|]. split; [by rewrite Tv, Te, app_assoc|].
      intros o. by rewrite timer_after_app, Av.
    + intros t Hin Hs. unfold timer_armed. rewrite Hnt.
      destruct (proj1 (Ht t Hin Hs)) as [?|(n & tk & ? & ? & ?)]; [by left|right]. exists n, tk. split; [lia|done].
Qed.

(** ** The interrupt *)

Context (run : Z -> LL Z) `{!Tasks pf others N fuel run}.
Context (Hclock : forall n m, (n <= m)%nat -> pf_clock pf n <= pf_clock pf m).

(** The events of the interrupt leave the timer set for the start: by then, or for
    the start or an earlier tick as soon as the timer can be set. *)
Definition timer_set_for s s' (evs : list ll_event) (start : Z) : Prop :=
  exists ticks, timer_after None evs = Some ticks /\
    dm_next_tick (l_domain s') = u64 (platform_timer_set pf ticks) /\
    (u64 (platform_timer_set pf ticks) <= start \/
     exists n tick, (l_reads s <= n < l_reads s')%nat /\ tick <= start /\
       ticks = Z.max tick (u64 (pf_clock pf n + LL_TIMER_SET_OVERHEAD_TICKS))).

(** [due] are the tasks that had to run, [xs] those that did. *)
Record interrupted s l s' l' (due xs : list Z) : Prop := {
  in_ok : ll_ok s' l';
  in_waiting t : t ∈ l' -> waiting s' t;
  in_due : sublist due l;
  in_early t : t ∈ l -> start_of s t <= pf_clock pf (l_reads s) -> t ∈ due;
  in_late t : t ∈ due -> start_of s t <= pf_clock pf (l_reads s');
  in_ran : ran (l_trace s') = ran (l_trace s) ++ xs;
  in_order : sublist xs due;
  in_all t : t ∈ due -> t ∈ xs \/ t ∈ cancelled (l_trace s');
  in_enabled : l' <> [] -> dm_enabled (l_domain s') (cpu_get_id pf) = true;
  in_armed t : t ∈ l' -> state_of s' t = Some SOF_TASK_STATE_RESCHEDULE -> timer_armed (l_reads s) s' (start_of s' t);
  in_dom : dom (l_tasks s') = dom (l_tasks s);
  in_timer : timer_step pf s s';
  in_rearmed : only_core s -> exists evs, l_trace s' = l_trace s ++ evs /\
    forall t, t ∈ l' -> state_of s' t = Some SOF_TASK_STATE_RESCHEDULE -> start_of s' t < UINT64_MAX ->
      timer_set_for s s' evs (start_of s' t)
}.

(** The tasks are run, if any is pending. *)
Lemma run_pending_ok s l (b : bool) :
  ll_ok s l -> (forall t, t ∈ l -> waiting s t \/ is_pending s t) -> (b = false -> pend s l = []) ->
  wp (if b then schedule_ll_tasks_execute pf ops run fuel else mret tt) s (fun s' _ => exists l' xs,
    executed pf others N s (pend s l) s' l' xs).
Proof.
  intros Hok Hw Hb. destruct b.
  - unfold schedule_ll_tasks_execute. do 2 wp_step. rewrite (is_list_first _ _ _ (lo_list _ _ _ _ _ Hok)).
    apply (execute_loop_ok pf others N fuel B run fuel s [] l); [done|done|done|].
    pose proof (ll_ok_length _ _ _ _ _ Hok). pose proof (length_filter (is_pending s) l).
    destruct B as [_ _ B3 _]. unfold exec_measure, pend. nia.
  - wp_step. exists l, []. specialize (Hb eq_refl). split; try done.
    + intros t Ht. destruct (Hw t Ht) as [?|Hp]; [done|]. exfalso.
      assert (t ∈ pend s l) as Hin by by apply elem_of_pend. rewrite Hb in Hin. set_solver.
    + by rewrite app_nil_r.
    + by rewrite Hb.
    + rewrite Hb. set_solver.
Qed.

(** The scan against the clock. *)
Lemma scanned_due s l s' t :
  scanned s l s' -> waiting s t -> t ∈ l ->
  (start_of s t <= pf_clock pf (l_reads s) -> is_pending s' t) /\
  (is_pending s' t -> start_of s t <= pf_clock pf (l_reads s')) /\
  (waiting s' t \/ is_pending s' t).
Proof.
  intros Sc Hw Ht. destruct (sn_marked _ _ _ Sc t Ht) as (n & [Hn1 Hn2] & Hm).
  pose proof (Hclock _ _ Hn1). pose proof (Hclock n (l_reads s') ltac:(lia)).
  case_decide as Hd; [split_and!; [intros _; exact Hm|intros _; lia|right; exact Hm]|]. split_and!; [lia| |left].
  - unfold is_pending. rewrite Hm. by destruct Hw as [->| ->].
  - unfold waiting. by rewrite Hm.
Qed.

Lemma tracks_run_begin : tracks pf (tasks_run_begin pf ops).
Proof. pose proof (tracks_disable pf). unfold tasks_run_begin. tracks; auto. Qed.

(** The setting of the timer at the end of an interrupt that began with a cleared
    timer. *)
Lemma rearmed_ok s s1 s4 s5 evs start :
  dm_next_tick (l_domain s1) = UINT64_MAX -> l_trace s1 = l_trace s ++ evs -> (forall o, timer_after o evs = None) ->
  timer_step pf s1 s4 -> timer_step pf s4 s5 -> (l_reads s <= l_reads s4)%nat -> start < UINT64_MAX ->
  dm_next_tick (l_domain s5) <= start \/ timer_renewed (l_reads s4) s4 s5 start ->
  forall evs', l_trace s5 = l_trace s ++ evs' -> timer_set_for s s5 evs' start.
Proof.
  intros Hn Ht Hc (e1 & T1 & N1) (e2 & T2 & N2) Hr Hs Hcase evs' Ht'.
  assert (evs' = evs ++ e1 ++ e2) as ->.
  { rewrite T2, T1, Ht, <- !app_assoc in Ht'. by apply app_inv_head in Ht'. }
  specialize (N2 _ (N1 None Hn)). unfold timer_set_for. rewrite !timer_after_app, Hc.
  set (o := timer_after (timer_after None e1) e2) in *. destruct Hcase as [Hle|(n & tick & es & Hrd & Htk & Te & Ae)].
  - destruct o as [ticks|]; simpl in N2; [|lia]. exists ticks. split; [done|]. split; [done|]. left. by rewrite <- N2.
  - assert (es = e2) as -> by (rewrite T2 in Te; by apply app_inv_head in Te).
    unfold o in *. rewrite Ae in *. eexists. split; [done|]. split; [exact N2|]. right. exists n, tick. split; [lia|done].
Qed.

Lemma interrupt_ok s l :
  ll_ok s l -> (forall t, t ∈ l -> waiting s t) ->
  wp (schedule_ll_tasks_run pf ops run fuel) s (fun s' _ => exists l' due xs, interrupted s l s' l' due xs).
Proof.
  intros Hok Hw. unfold schedule_ll_tasks_run. destruct (tasks_run_begin_ok s) as (s1 & [] & E0 & D1 & Hbeg).
  pose proof (tracks_run_begin _ _ _ E0) as T1. apply wp_bind. exists s1, tt. split; [done|]. pose proof (domain_step_ok _ _ _ _ _ _ D1 Hok) as Hok1.
  assert (forall t, start_of s1 t = start_of s t /\ (waiting s1 t <-> waiting s t)) as E1.
  { intros t. unfold start_of, waiting, state_of. by rewrite (ds_tasks _ _ D1). }
  assert (forall t, t ∈ l -> waiting s1 t) as Hw1 by (intros; apply E1; auto).
  wp_step. eapply wp_mono; [by apply (is_pending_ok s1 l Hok1)|].
  intros s2 b [Sc Hb]. pose proof (scanned_ok _ _ _ _ Sc Hok1) as Hok2. wp_step.
  eapply wp_mono; [apply (run_pending_ok s2 l b Hok2); [|done]|].
  { intros t Ht. by destruct (scanned_due s1 l s2 t Sc (Hw1 t Ht) Ht) as (_ & _ & ?). }
  intros s3 [] (l' & xs & [X1 X2 X3 X4 X5 X6 X7 X8 X9]). do 2 wp_step. set (s4 := with_trace s3 _).
  assert (domain_step s3 s4) as D4 by (subst s4; domain_step).
  assert (ll_ok s4 l') as Hok4 by by eapply domain_step_ok.
  destruct (tasks_run_end_ok s4 l' Hok4) as (s5 & [] & E5 & (D5 & Rn) & En & Ar). exists s5, tt. split; [done|].
  pose proof (tracks_run_end _ _ _ E5) as T5.
  assert (timer_step pf s1 s4) as T4.
  { trans s2; [rewrite (sn_frame _ _ _ Sc); by apply timer_step_quiet|]. trans s3; [done|].
    by apply (tracks_emit pf LlPostRun ltac:(done) s3 s4 tt). } assert (domain_step s3 s5) as [F1 F2 F3 F4 F5 F6 F7 F8 F9 F10] by by etrans.
  pose proof (ds_reads _ _ D1). pose proof (sn_reads _ _ _ Sc).
  assert (l_trace s2 = l_trace s1) as Et by (by rewrite (sn_frame _ _ _ Sc)).
  exists l', (pend s2 l), xs. split; try done.
  - by eapply domain_step_ok, X1.
  - intros t Ht. unfold waiting, state_of. rewrite F1. by apply X2.
  - apply sublist_filter.
  - intros t Ht Hs. apply elem_of_pend. split; [done|]. apply (scanned_due s1 l s2 t Sc (Hw1 t Ht) Ht).
    rewrite (proj1 (E1 t)). etrans; [exact Hs|]. by apply Hclock.
  - intros t [Ht Hp]%elem_of_pend. rewrite <- (proj1 (E1 t)). etrans; [by apply (scanned_due s1 l s2 t Sc (Hw1 t Ht))|].
    apply Hclock. lia.
  - rewrite F9, X3, Et. f_equal. apply (ds_ran _ _ D1).
  - intros t Ht. destruct (X5 t Ht) as [?|?]; [by left|right]. by rewrite F10.
  - intros t Ht Hst. destruct (Ar t Ht) as [Hl|(n & v & Hn & Hv & Hl)].
    + unfold state_of in *. simpl. by rewrite <- F1.
    + left. unfold start_of in *. rewrite F1. exact Hl.
    + right. exists n, v. unfold start_of in *. rewrite F1. simpl in Hn. split; [lia|done].
  - rewrite F1, X8, (sn_dom _ _ _ Sc), (ds_tasks _ _ D1). done.
  - trans s1; [done|]. by trans s4.
  - intros Ho. destruct (Hbeg Ho) as (Hn1 & ev & Tv & Av).
    assert (timer_step pf s s5) as (evs & Te & _) by (trans s1; [done|]; by trans s4).
    exists evs. split; [done|]. intros t Ht Hst Hmax. assert (start_of s5 t = start_of s4 t) as Es.
    { unfold start_of. by rewrite (ds_tasks _ _ D5). }
    rewrite Es in *. eapply (rearmed_ok s s1 s4 s5); [done..|simpl; lia|done| |done].
    apply Rn; [done|]. unfold state_of in *. by rewrite <- (ds_tasks _ _ D5).
Qed.

(** ** Histories *)

Inductive ll_step :=
  | Call (c : ll_call)
  | Interrupt.

Definition exec_step (st : ll_step) : LL unit :=
  match st with
  | Call c => exec_call pf fuel c ;; mret tt
  | Interrupt => schedule_ll_tasks_run pf ops run fuel
  end.

Fixpoint exec_steps (sts : list ll_step) : LL unit :=
  match sts with
  | [] => mret tt
  | st :: sts => exec_step st ;; exec_steps sts
  end.

(** Proper calls, at any time; interrupts, at any time. *)
Fixpoint history_ok s (sts : list ll_step) : Prop :=
  match sts with
  | [] => True
  | st :: sts =>
      match st with Call c => forall l, ll_ok s l -> call_ok s l c | Interrupt => True end /\
      (forall s' r, exec_step st s = Some (s', r) -> history_ok s' sts)
  end.

Lemma call_waiting s l s' l' :
  call_step pf others N s l s' l' -> (forall t, t ∈ l -> waiting s t) -> forall t, t ∈ l' -> waiting s' t.
Proof.
  intros [C1 C2 C3 _ _ _ _] Hw t Ht. destruct (decide (t ∈ l)) as [Hin|Hin].
  - unfold waiting. rewrite C3 by done. by apply Hw.
  - destruct C2 as [|u l1 l2 -> ? ?|u l1 l2 -> ?]; [done| |set_solver]. left. by replace t with u by set_solver.
Qed.

Lemma exec_steps_ok s l sts :
  ll_ok s l -> (forall t, t ∈ l -> waiting s t) -> history_ok s sts ->
  wp (exec_steps sts) s (fun s' _ => timer_step pf s s' /\ exists l', ll_ok s' l' /\ forall t, t ∈ l' -> waiting s' t).
Proof.
  revert s l. induction sts as [|st sts IH]; intros s l Hok Hw Hs; simpl.
  { wp_step. split; [done|]. by exists l. }
  destruct Hs as [Hc Hs].
  assert (wp (exec_step st) s (fun s' _ => timer_step pf s s' /\ exists l', ll_ok s' l' /\ forall t, t ∈ l' -> waiting s' t))
    as (s1 & [] & E & T1 & l1 & Hok1 & Hw1).
  { destruct st as [c|]; simpl.
    - destruct (exec_call_ok pf others N fuel B c s l Hok) as (s' & r & E & l' & C & _); [by apply Hc|].
      wp_step. exists s', r. split; [done|]. wp_step. split; [by eapply tracks_exec_call|].
      exists l'. split; [apply C|by eapply call_waiting].
    - eapply wp_mono; [by apply interrupt_ok|]. intros s' [] (l' & due & xs & X). split; [apply X|]. exists l'. split; apply X. }
  wp_step. exists s1, tt. split; [done|]. eapply wp_mono; [apply (IH s1 l1); [done..|by eapply Hs]|].
  intros s2 [] (T2 & H2). split; [by trans s1|done].
Qed.

(** The scheduler before its first task. *)
Lemma init_ok tasks L domain :
  (forall t tk, tasks !! t = Some tk -> t <> 0 /\ t <> pf_tasks pf /\ t_priv_data tk = 0) ->
  size tasks = N -> dm_total_num_tasks domain = others -> dm_full_sync domain = false ->
  ll_ok (scheduler_init_ll pf tasks L domain) [].
Proof.
  intros Ht Hs Hd Hf. split; simpl; try done.
  - apply list_init_spec.
  - intros t tk H. destruct (Ht t tk H) as (? & ? & ->). done.
  - intros t t' tk tk' H. by destruct (Ht t tk H) as (? & ? & ->).
  - set_solver.
  - lia.
Qed.

(** Whether a history is proper, by running it. *)
Fixpoint history_okb s (sts : list ll_step) : bool :=
  match sts with
  | [] => true
  | st :: sts =>
      match st with
      | Call c => match list_tasks pf fuel s with Some (_, l) => bool_decide (call_ok s l c) | None => false end
      | Interrupt => true
      end &&
      match exec_step st s with Some (s', _) => history_okb s' sts | None => true end
  end.

Lemma history_okb_ok s sts : history_okb s sts = true -> history_ok s sts.
Proof.
  revert s. induction sts as [|st sts IH]; intros s; simpl; [done|].
  intros [H1 H2]%andb_true_iff. split.
  - destruct st as [c|]; [|done]. intros l Hok. rewrite (list_tasks_ok _ _ _ _ B _ _ Hok) in H1. by case_bool_decide.
  - intros s' r E. rewrite E in H2. auto.
Qed.
End interrupt.
