(* ===== verification/LlGuarantees.v ===== *)
(** * The low-latency scheduler: guarantees

    The theorems on the scheduler, with a small system of three tasks on which
    they are exercised, and histories in which it does less than one expects. *)

From stdpp Require Import base list numbers option gmap sorting.
From S2P Require Import Prelude StateM IntrusiveList LlSchedule LlThms LlRun LlInterrupt.

Section guarantees.
Context (pf : platform) (others : Z) (N fuel : nat) (B : bounds_ok pf others N fuel).
Implicit Types s : sched.

(** Behind the first less urgent task of a sorted list all tasks are less urgent. *)
Lemma priority_tail s l1 l2 p :
  StronglySorted (fun u v => priority_of s u <= priority_of s v) (l1 ++ l2) ->
  (forall u, head l2 = Some u -> p < priority_of s u) -> Forall (fun u => p < priority_of s u) l2.
Proof.
  intros Hs Hh. destruct l2 as [|u l2]; [constructor|]. specialize (Hh u eq_refl).
  apply StronglySorted_app in Hs as (_ & _ & Hs). inversion Hs as [|? ? _ F]; subst.
  constructor; [done|]. eapply Forall_impl; [exact F|]. simpl. lia.
Qed.

Lemma sorted_insert (f : Z -> Z) l1 t l2 :
  StronglySorted (fun u v => f u <= f v) (l1 ++ l2) -> Forall (fun u => f u <= f t) l1 ->
  Forall (fun u => f t < f u) l2 -> StronglySorted (fun u v => f u <= f v) (l1 ++ t :: l2).
Proof.
  intros (H1 & H2 & H3)%StronglySorted_app F1 F2. rewrite Forall_forall in F1, F2. apply StronglySorted_app. split_and!; [|done|].
  - intros x y Hx [->|Hy]%elem_of_cons; auto.
  - constructor; [done|]. apply Forall_forall. intros x Hx. specialize (F2 x Hx). lia.
Qed.

(** C14: Scheduling a task that is not scheduled either fails, with the list of
    tasks unchanged, or inserts it in front of the first less urgent task, so that
    a list sorted by priority stays sorted and tasks of one priority are served in
    the order of their arrival; the task is queued, the domain is enabled on the
    core and notes a tick by the start of the task, or the timer is set for it; the
    tick that the domain notes follows the settings of the timer. *)
Theorem ll_schedule_by_priority (t start period : Z) (tk : task) (s : sched) (l : list Z) :
  ll_ok pf others N s l -> l_tasks s !! t = Some tk -> t_priv_data tk <> 0 -> t ∉ l ->
  period = 0 \/ u64 (dm_ticks_per_ms (l_domain s) * period) / 1000 <> 0 ->
  StronglySorted (fun u v => priority_of s u <= priority_of s v) l ->
  exists s' r l', schedule_ll_task pf (timer_domain_ops pf) fuel t start period s = Some (s', r) /\
    ll_ok pf others N s' l' /\ timer_step pf s s' /\
    ((r < 0 /\ l' = l) \/
     (r = 0 /\ exists l1 l2, l = l1 ++ l2 /\ l' = l1 ++ t :: l2 /\
        Forall (fun u => priority_of s' u <= t_priority tk) l1 /\ Forall (fun u => t_priority tk < priority_of s' u) l2 /\
        StronglySorted (fun u v => priority_of s' u <= priority_of s' v) l' /\
        state_of s' t = Some SOF_TASK_STATE_QUEUED /\ dm_enabled (l_domain s') (cpu_get_id pf) = true /\
        start_armed pf (l_reads s) s' (start_of s' t))).
Proof.
  intros Hok Htk H0 Hn Hper Hsort.
  destruct (schedule_common_ok pf others N fuel B t tk start period 0 false s l Hok Htk H0 (or_introl eq_refl) Hper)
    as (s' & r & E & [[? _]|[(_ & Hr & C)|(_ & -> & l1 & l2 & [-> Pl C Hpr St En Ar])]]); [done| |].
  - exists s', r, l. split; [exact E|]. split; [apply C|]. split; [by eapply tracks_schedule|by left].
  - exists s', 0, (l1 ++ t :: l2). split; [exact E|]. split; [apply C|]. split; [by eapply tracks_schedule|right]. split; [done|]. exists l1, l2.
    destruct (Pl tk Htk) as [P1 P2]. pose proof (priority_tail s l1 l2 (t_priority tk) Hsort P2) as P3.
    assert (priority_of s t = t_priority tk) as Pt by (unfold priority_of; by rewrite Htk).
    split_and!; [done|done| | | |done|done|].
    + eapply Forall_impl; [exact P1|]. intros u. by rewrite Hpr.
    + eapply Forall_impl; [exact P3|]. intros u. by rewrite Hpr.
    + rewrite <- (list_fmap_id (l1 ++ t :: l2)). eapply (StronglySorted_fmap id); [|apply (sorted_insert (priority_of s))].
      * intros u v. by rewrite !Hpr.
      * done.
      * by rewrite Pt.
      * by rewrite Pt.
    + destruct (cs_ok _ _ _ _ _ _ _ C) as [_ _ _ Hin _ _ _ _]. destruct (Hin t) as (tk' & Htk' & _); [set_solver|].
      unfold start_of. rewrite Htk'. by apply Ar.
Qed.

Context (run : Z -> LL Z) `{!Tasks pf others N fuel run}.
Context (Hclock : forall n m, (n <= m)%nat -> pf_clock pf n <= pf_clock pf m).

(** C11: A timer interrupt ends, and every task whose start has come by then runs
    exactly once, in the order of the list, unless a task that runs before it
    cancels it; no task runs before its start. *)
Theorem ll_run_executes_due (s : sched) (l : list Z) :
  ll_ok pf others N s l -> (forall t, t ∈ l -> waiting s t) -> l_trace s = [] ->
  exists s' l' due, schedule_ll_tasks_run pf (timer_domain_ops pf) run fuel s = Some (s', tt) /\
    ll_ok pf others N s' l' /\ (forall t, t ∈ l' -> waiting s' t) /\
    sublist due l /\
    (forall t, t ∈ l -> start_of s t <= pf_clock pf (l_reads s) -> t ∈ due) /\
    (forall t, t ∈ due -> start_of s t <= pf_clock pf (l_reads s')) /\
    sublist (ran (l_trace s')) due /\
    (forall t, t ∈ due -> t ∈ ran (l_trace s') \/ t ∈ cancelled (l_trace s')).
Proof.
  intros Hok Hw Htr. destruct (interrupt_ok pf others N fuel B run Hclock s l Hok Hw)
    as (s' & [] & E & l' & due & xs & [X1 X2 X3 X4 X5 X6 X7 X8 _ _ _ _ _]).
  rewrite Htr in X6. simpl in X6. exists s', l', due. rewrite X6. done.
Qed.

(** C13: After a timer interrupt the domain is enabled again on the core if tasks
    are left, and for every task that is to be run again it notes a tick by its
    start, or the one that the timer was set to for it. When no other core waits
    for the timer, the interrupt itself has left the timer set for every such task:
    the last setting of the timer among its events is for a tick by the start of
    the task, or for the start or an earlier tick as early as the timer can be set.
    (A start of [UINT64_MAX] means never.) *)
Theorem ll_run_rearms (s : sched) (l : list Z) :
  ll_ok pf others N s l -> (forall t, t ∈ l -> waiting s t) ->
  exists s' l', schedule_ll_tasks_run pf (timer_domain_ops pf) run fuel s = Some (s', tt) /\
    ll_ok pf others N s' l' /\ (l' <> [] -> dm_enabled (l_domain s') (cpu_get_id pf) = true) /\
    (forall t, t ∈ l' -> state_of s' t = Some SOF_TASK_STATE_RESCHEDULE ->
      dm_next_tick (l_domain s') <= start_of s' t \/
      exists n tick, (l_reads s <= n < l_reads s')%nat /\ tick <= start_of s' t /\
        dm_next_tick (l_domain s') =
          u64 (platform_timer_set pf (Z.max tick (u64 (pf_clock pf n + LL_TIMER_SET_OVERHEAD_TICKS))))) /\
    (only_core pf s -> exists evs, l_trace s' = l_trace s ++ evs /\
      forall t, t ∈ l' -> state_of s' t = Some SOF_TASK_STATE_RESCHEDULE -> start_of s' t < UINT64_MAX ->
        exists ticks, timer_after None evs = Some ticks /\
          dm_next_tick (l_domain s') = u64 (platform_timer_set pf ticks) /\
          (u64 (platform_timer_set pf ticks) <= start_of s' t \/
           exists n tick, (l_reads s <= n < l_reads s')%nat /\ tick <= start_of s' t /\
             ticks = Z.max tick (u64 (pf_clock pf n + LL_TIMER_SET_OVERHEAD_TICKS)))).
Proof.
  intros Hok Hw. destruct (interrupt_ok pf others N fuel B run Hclock s l Hok Hw)
    as (s' & [] & E & l' & due & xs & [X1 _ _ _ _ _ _ _ X9 X10 _ _ X13]).
  exists s', l'. done.
Qed.

(** C12: Any history of calls and interrupts on a fresh scheduler runs without a
    fault; at its end the links form a list of distinct tasks, each queued or to be
    rescheduled, the two counters hold their number, and the tick that the domain
    notes is that of the last setting of the timer, or none if it was cleared. *)
Theorem ll_history_safe (tasks : gmap Z task) (L : links) (domain : ll_schedule_domain) (sts : list ll_step) :
  (forall t tk, tasks !! t = Some tk -> t <> 0 /\ t <> pf_tasks pf /\ t_priv_data tk = 0) ->
  size tasks = N -> dm_total_num_tasks domain = others -> dm_full_sync domain = false ->
  history_ok pf others N fuel run (scheduler_init_ll pf tasks L domain) sts ->
  exists s l, exec_steps pf fuel run sts (scheduler_init_ll pf tasks L domain) = Some (s, tt) /\
    is_list (l_links s) (pf_tasks pf) l /\ (forall t, t ∈ l -> waiting s t) /\
    l_num_tasks s = Z.of_nat (length l) /\
    dm_total_num_tasks (l_domain s) = others + Z.of_nat (length l) /\
    (dm_next_tick domain = UINT64_MAX -> dm_next_tick (l_domain s) = tick_of pf (timer_after None (l_trace s))).
Proof.
  intros Ht Hs Hd Hf Hh. pose proof (init_ok pf others N fuel B run Hclock tasks L domain Ht Hs Hd Hf) as Hok.
  destruct (exec_steps_ok pf others N fuel B run Hclock _ [] sts Hok) as (s & [] & E & (evs & Te & Ne) & l & Hok' & Hw); [set_solver|done|].
  exists s, l. rewrite Te. simpl. destruct Hok'. split_and!; try done. exact (Ne None).
Qed.
End guarantees.

(** ** A small system

    Three tasks at 10, 20 and 30; a read of the time takes 1000 ticks. The second
    task cancels the third one and is done; the others are periodic. *)

Definition demo_platform : platform := mk_platform 0 500 1 (fun n => 1000 * Z.of_nat n) (fun ticks => ticks) 0.

Definition demo_task (priority : Z) : task := mk_task 0 SOF_SCHEDULE_LL_TIMER priority 0 0 SOF_TASK_STATE_INIT 0 false.

Definition demo_tasks : gmap Z task := {[10 := demo_task 2; 20 := demo_task 1; 30 := demo_task 3]}.

Definition demo_run (t : Z) : LL Z :=
  if t =? 20 then exec_calls demo_platform 30 [Cancel 30] ;; mret SOF_TASK_STATE_COMPLETED
  else exec_calls demo_platform 30 [] ;; mret SOF_TASK_STATE_RESCHEDULE.

Definition demo_domain : ll_schedule_domain := domain_init SOF_SCHEDULE_LL_TIMER 0 false 1000.

Definition demo_init : sched := scheduler_init_ll demo_platform demo_tasks (mk_links (fun _ => 0) (fun _ => 0)) demo_domain.

(** The tasks are initialised and scheduled with a period of one millisecond. *)
Definition demo_setup : list ll_step :=
  Call (TaskInit 100 10 1 2 0 0) :: Call (TaskInit 200 20 1 1 0 0) :: Call (TaskInit 300 30 1 3 0 0) ::
  Call (Schedule 10 0 1000) :: Call (Schedule 20 0 1000) :: [Call (Schedule 30 0 1000)].

Lemma demo_bounds : bounds_ok demo_platform 0 3 30.
Proof. split; simpl; lia. Qed.

#[local] Instance demo_run_tasks : Tasks demo_platform 0 3 30 demo_run.
Proof.
  intros s l t _ _ _. unfold demo_run. case_if.
  - subst t. exists [Cancel 30], SOF_TASK_STATE_COMPLETED. split; [done|]. split; [|by left].
    simpl. split_and!; done.
  - exists [], SOF_TASK_STATE_RESCHEDULE. split; [done|]. split; [done|by right].
Qed.

Lemma demo_clock n m : (n <= m)%nat -> pf_clock demo_platform n <= pf_clock demo_platform m.
Proof. simpl. lia. Qed.

(** What one sees of a state. *)
Definition view (s : sched) : list (option Z) * Z * Z * list Z * list Z :=
  ((state_of s) <$> [10; 20; 30], l_num_tasks s, dm_next_tick (l_domain s), ran (l_trace s), cancelled (l_trace s)).

Definition demo_view (sts : list ll_step) : option (list (option Z) * Z * Z * list Z * list Z) :=
  x ← exec_steps demo_platform 30 demo_run sts demo_init; Some (view x.1).

Example demo_interrupt :
  demo_view (demo_setup ++ [Interrupt]) =
  Some ([Some SOF_TASK_STATE_RESCHEDULE; Some SOF_TASK_STATE_COMPLETED; Some SOF_TASK_STATE_CANCEL], 1, 9000,
    [20; 10], [30]).
Proof. vm_compute. reflexivity. Qed.

(** A task that waits for its first start is not looked at when the timer is set
    for the next interrupt: after the second task has run, the timer is off and
    the first one, due at 52000, waits for ever. *)
Example oneshot_starves :
  demo_view (take 3 demo_setup ++ [Call (Schedule 10 50000 0); Call (Schedule 20 2000 0); Interrupt]) =
  Some ([Some SOF_TASK_STATE_QUEUED; Some SOF_TASK_STATE_COMPLETED; Some SOF_TASK_STATE_INIT], 1, UINT64_MAX,
    [20], [30]).
Proof. vm_compute. reflexivity. Qed.

(** A task that cancels itself is linked to itself, and the loop over the pending
    tasks never leaves it. *)
Lemma execute_stuck pf ops run n s t tk :
  l_tasks s !! t = Some tk -> t_state tk <> SOF_TASK_STATE_PENDING -> nx (l_links s) t = t -> t <> pf_tasks pf ->
  execute_loop pf ops run n t s = None.
Proof.
  intros Htk Hst Hn Hh. induction n as [|n IH]; [done|]. simpl. rewrite (proj2 (Z.eqb_neq _ _) Hh).
  erewrite bind_Some by (unfold get_task; rewrite Htk; done). rewrite (proj2 (Z.eqb_neq _ _) Hst). simpl.
  erewrite bind_Some by done. by rewrite Hn.
Qed.

Example self_cancel_stuck :
  exec_steps demo_platform 1000 (fun t => exec_calls demo_platform 30 [Cancel t] ;; mret SOF_TASK_STATE_COMPLETED)
    (demo_setup ++ [Interrupt]) demo_init = None.
Proof. vm_compute. reflexivity. Qed.

(** ** The guarantees on the small system *)

Definition demo_after (sts : list ll_step) : sched :=
  default demo_init (fst <$> exec_steps demo_platform 30 demo_run sts demo_init).

Definition demo_sched : sched := demo_after demo_setup.

Lemma demo_init_ok : ll_ok demo_platform 0 3 demo_init [].
Proof.
  apply (init_ok demo_platform 0 3 30 demo_bounds demo_run demo_clock); try done. intros t tk Ht. unfold demo_tasks in Ht.
  repeat (apply lookup_insert_Some in Ht as [[<- <-]|[_ Ht]]; [done|]).
  by apply lookup_singleton_Some in Ht as [<- <-].
Qed.

Lemma demo_after_ok sts l :
  history_okb demo_platform 30 demo_run demo_init sts = true ->
  snd <$> list_tasks demo_platform 30 (demo_after sts) = Some l ->
  ll_ok demo_platform 0 3 (demo_after sts) l /\ forall t, t ∈ l -> waiting (demo_after sts) t.
Proof.
  intros Hh Hl.
  destruct (exec_steps_ok demo_platform 0 3 30 demo_bounds demo_run demo_clock demo_init [] sts demo_init_ok)
    as (s & [] & E & _ & l' & Hok & Hw).
  - set_solver.
  - by apply (history_okb_ok demo_platform 0 3 30 demo_bounds demo_run).
  - assert (s = demo_after sts) as -> by (unfold demo_after; by rewrite E). clear E.
    pose proof (list_tasks_ok _ _ _ _ demo_bounds _ _ Hok) as El. rewrite El in Hl. injection Hl as ->.
    split; [exact Hok|exact Hw].
Qed.

Lemma demo_sched_ok :
  ll_ok demo_platform 0 3 demo_sched [20; 10; 30] /\ forall t, t ∈ [20; 10; 30] -> waiting demo_sched t.
Proof. apply demo_after_ok; vm_compute; reflexivity. Qed.

Lemma ll_run_executes_due_witness :
  exists s' l' due, schedule_ll_tasks_run demo_platform (timer_domain_ops demo_platform) demo_run 30
      (with_trace demo_sched []) = Some (s', tt) /\
    ll_ok demo_platform 0 3 s' l' /\ sublist due [20; 10; 30] /\ sublist (ran (l_trace s')) due /\ 20 ∈ due.
Proof.
  destruct demo_sched_ok as [Hok Hw].
  destruct (ll_run_executes_due demo_platform 0 3 30 demo_bounds demo_run demo_clock (with_trace demo_sched []) [20; 10; 30])
    as (s' & l' & due & E & Hok' & _ & Hd & He & _ & Hr & _).
  - by eapply ll_ok_frame, Hok.
  - exact Hw.
  - reflexivity.
  - exists s', l', due. split; [exact E|]. split; [exact Hok'|]. split; [exact Hd|]. split; [exact Hr|].
    apply He; [by left|]. vm_compute. discriminate.
Defined.

Lemma ll_run_rearms_witness :
  exists s' l', schedule_ll_tasks_run demo_platform (timer_domain_ops demo_platform) demo_run 30 demo_sched = Some (s', tt) /\
    ll_ok demo_platform 0 3 s' l' /\ (l' <> [] -> dm_enabled (l_domain s') 0 = true) /\
    exists evs, l_trace s' = l_trace demo_sched ++ evs.
Proof.
  destruct demo_sched_ok as [Hok Hw].
  destruct (ll_run_rearms demo_platform 0 3 30 demo_bounds demo_run demo_clock demo_sched [20; 10; 30] Hok Hw)
    as (s' & l' & E & Hok' & En & _ & Hr).
  assert (only_core demo_platform demo_sched) as Ho by (vm_compute; reflexivity).
  destruct (Hr Ho) as (evs & Ht & _).
  exists s', l'. split; [exact E|]. split; [exact Hok'|]. split; [exact En|]. by exists evs.
Defined.

Lemma ll_history_safe_witness :
  exists s l, exec_steps demo_platform 30 demo_run (demo_setup ++ [Interrupt; Interrupt]) demo_init = Some (s, tt) /\
    is_list (l_links s) 1 l /\ l_num_tasks s = Z.of_nat (length l).
Proof.
  destruct (ll_history_safe demo_platform 0 3 30 demo_bounds demo_run demo_clock demo_tasks
    (mk_links (fun _ => 0) (fun _ => 0)) demo_domain (demo_setup ++ [Interrupt; Interrupt]))
    as (s & l & E & Hl & _ & Hn & _).
  - intros t tk Ht. unfold demo_tasks in Ht.
    repeat (apply lookup_insert_Some in Ht as [[<- <-]|[_ Ht]]; [done|]).
    by apply lookup_singleton_Some in Ht as [<- <-].
  - reflexivity.
  - reflexivity.
  - reflexivity.
  - apply (history_okb_ok demo_platform 0 3 30 demo_bounds demo_run). vm_compute. reflexivity.
  - exists s, l. split; [exact E|]. split; [exact Hl|exact Hn].
Defined.

(** The third task is scheduled behind the others. *)
Lemma ll_schedule_by_priority_witness :
  exists s' r l', schedule_ll_task demo_platform (timer_domain_ops demo_platform) 30 30 0 1000
      (demo_after (take 5 demo_setup)) = Some (s', r) /\
    ll_ok demo_platform 0 3 s' l' /\ ((r < 0 /\ l' = [20; 10]) \/ (r = 0 /\ exists l1 l2, l' = l1 ++ 30 :: l2)).
Proof.
  assert (ll_ok demo_platform 0 3 (demo_after (take 5 demo_setup)) [20; 10]) as Hok
    by (apply demo_after_ok; vm_compute; reflexivity).
  destruct (ll_schedule_by_priority demo_platform 0 3 30 demo_bounds 30 0 1000
    (mk_task 0 SOF_SCHEDULE_LL_TIMER 3 0 0 SOF_TASK_STATE_INIT 300 false) (demo_after (take 5 demo_setup)) [20; 10])
    as (s' & r & l' & E & Hok' & _ & H).
  - exact Hok.
  - vm_compute. reflexivity.
  - discriminate.
  - set_solver.
  - right. vm_compute. discriminate.
  - repeat constructor; vm_compute; discriminate.
  - exists s', r, l'. split; [exact E|]. split; [exact Hok'|].
    destruct H as [[? ?]|(? & l1 & l2 & _ & ? & _)]; [left; by split|right]. split; [done|]. by exists l1, l2.
Defined.
