(* ===== verification/Format.v ===== *)
(** * Fixed-point arithmetic

    [src/include/sof/audio/format.h] and [format_generic.h]: saturation and
    fractional multiplication with rounding, at the widths of the C code. *)

From stdpp Require Import base numbers option.
From S2P Require Import Prelude.

Abbreviation INT24_MAXVALUE := 8388607 (only parsing).
Abbreviation INT24_MINVALUE := (-8388608) (only parsing).

(** ** Definitions *)

Definition sat_int32 (x : Z) : Z :=
  if x >? INT32_MAX then INT32_MAX else if x <? INT32_MIN then INT32_MIN else i32 x.

(** The arguments of the next two are of type [int32_t]. *)
Definition sat_int24 (x : Z) : Z :=
  if x >? INT24_MAXVALUE then INT24_MAXVALUE else if x <? INT24_MINVALUE then INT24_MINVALUE else x.

Definition sat_int16 (x : Z) : Z :=
  if x >? INT16_MAX then INT16_MAX else if x <? INT16_MIN then INT16_MIN else i16 x.

Definition Q_SHIFT_RND (x src_q dst_q : Z) : Z := Z.shiftr (Z.shiftr x (src_q - dst_q - 1) + 1) 1.

Definition q_mults_32x32 (x y shift_bits : Z) : Z := Z.shiftr (i64 (x * y)) shift_bits.

Definition q_multsr_32x32 (x y shift_bits : Z) : Z := Z.shiftr (i64 (Z.shiftr (i64 (x * y)) (shift_bits - 1) + 1)) 1.

Definition q_mults_16x16 (x y shift_bits : Z) : Z := Z.shiftr (i32 (x * y)) shift_bits.

Definition q_multsr_16x16 (x y shift_bits : Z) : Z :=
  i16 (Z.shiftr (i32 (Z.shiftr (i32 (x * y)) (shift_bits - 1) + 1)) 1).

Definition q_multsr_sat_32x32 (x y shift_bits : Z) : Z := sat_int32 (q_multsr_32x32 x y shift_bits).

(** The 64-bit value is converted to the 32-bit parameter of the saturation. *)
Definition q_multsr_sat_32x32_24 (x y shift_bits : Z) : Z := sat_int24 (i32 (q_multsr_32x32 x y shift_bits)).

Definition q_multsr_sat_32x32_16 (x y shift_bits : Z) : Z := sat_int16 (i32 (q_multsr_32x32 x y shift_bits)).

Definition q_multsr_sat_16x16 (x y shift_bits : Z) : Z :=
  sat_int16 (Z.shiftr (i32 (Z.shiftr (i32 (x * y)) (shift_bits - 1) + 1)) 1).

Definition sign_extend_s24 (x : Z) : Z := Z.shiftr (i32 (Z.shiftl x 8)) 8.

(** ** Ranges *)

Definition is_s16 (x : Z) : Prop := - 2 ^ 15 <= x < 2 ^ 15.
Definition is_s24 (x : Z) : Prop := - 2 ^ 23 <= x < 2 ^ 23.
Definition is_s32 (x : Z) : Prop := - 2 ^ 31 <= x < 2 ^ 31.

Lemma i16_small x : is_s16 x -> i16 x = x.
Proof. unfold is_s16, i16. intros. rewrite Z.mod_small; lia. Qed.

Lemma i64_small x : - 2 ^ 63 <= x < 2 ^ 63 -> i64 x = x.
Proof. intros. unfold i64. rewrite Z.mod_small; lia. Qed.

Lemma i16_range x : is_s16 (i16 x).
Proof. unfold is_s16, i16. pose proof (Z.mod_pos_bound (x + 2 ^ 15) (2 ^ 16)). lia. Qed.

(** The closest value of a range. *)
Definition clamp (lo hi x : Z) : Z := Z.max lo (Z.min hi x).

Lemma sat_int32_clamp x : sat_int32 x = clamp INT32_MIN INT32_MAX x.
Proof. unfold sat_int32, clamp. repeat case_if; rewrite ?i32_small; lia. Qed.

Lemma sat_int24_clamp x : sat_int24 x = clamp INT24_MINVALUE INT24_MAXVALUE x.
Proof. unfold sat_int24, clamp. repeat case_if; lia. Qed.

Lemma sat_int16_clamp x : sat_int16 x = clamp INT16_MIN INT16_MAX x.
Proof. unfold sat_int16, clamp. repeat case_if; rewrite ?i16_small; unfold is_s16; lia. Qed.

(** A shift right with rounding is the nearest quotient, ties upwards. *)
Definition nearest (x k : Z) : Z := (x + 2 ^ (k - 1)) / 2 ^ k.

Lemma shift_round x k : 1 <= k -> Z.shiftr (Z.shiftr x (k - 1) + 1) 1 = nearest x k.
Proof.
  intros Hk. unfold nearest. rewrite !Z.shiftr_div_pow2 by lia.
  replace (2 ^ k) with (2 ^ (k - 1) * 2 ^ 1) by (rewrite <- Z.pow_add_r by lia; f_equal; lia).
  assert (0 < 2 ^ (k - 1)) by (apply Z.pow_pos_nonneg; lia).
  rewrite <- Z.div_div by lia. f_equal.
  replace (x + 2 ^ (k - 1)) with (x + 1 * 2 ^ (k - 1)) by lia. by rewrite Z.div_add by lia.
Qed.

Lemma nearest_bounds x k : 1 <= k -> 2 ^ k * nearest x k - 2 ^ (k - 1) <= x < 2 ^ k * nearest x k + 2 ^ (k - 1).
Proof.
  intros Hk. unfold nearest. assert (2 ^ k = 2 * 2 ^ (k - 1)) as E.
  { replace k with (1 + (k - 1)) at 1 by lia. by rewrite Z.pow_add_r by lia. }
  pose proof (Z.pow_pos_nonneg 2 (k - 1) ltac:(lia) ltac:(lia)).
  pose proof (Z.mul_div_le (x + 2 ^ (k - 1)) (2 ^ k) ltac:(lia)).
  pose proof (Z.mul_succ_div_gt (x + 2 ^ (k - 1)) (2 ^ k) ltac:(lia)). lia.
Qed.

Lemma Q_SHIFT_RND_nearest x src_q dst_q : dst_q < src_q -> Q_SHIFT_RND x src_q dst_q = nearest x (src_q - dst_q).
Proof. intros. unfold Q_SHIFT_RND. apply shift_round. lia. Qed.

(** ** Multiplication *)

Lemma q_multsr_32x32_nearest x y k : is_s32 x -> is_s32 y -> 1 <= k <= 63 -> q_multsr_32x32 x y k = nearest (x * y) k.
Proof.
  unfold is_s32. intros Hx Hy Hk. unfold q_multsr_32x32. rewrite (i64_small (x * y)) by nia.
  rewrite i64_small; [apply shift_round; lia|]. rewrite Z.shiftr_div_pow2 by lia.
  assert (0 < 2 ^ (k - 1)) by (apply Z.pow_pos_nonneg; lia).
  assert (- 2 ^ 62 <= x * y <= 2 ^ 62) by nia.
  split.
  - enough (- 2 ^ 62 <= x * y / 2 ^ (k - 1)) by lia. apply Z.div_le_lower_bound; nia.
  - enough (x * y / 2 ^ (k - 1) <= 2 ^ 62) by lia. apply Z.div_le_upper_bound; nia.
Qed.

(** The fractional multiplications with saturation return the product divided
    by a power of two, rounded to the nearest integer and limited to the range of
    the result; the ones that limit to 24 and 16 bits do so only if the rounded
    quotient fits 32 bits. *)
Theorem q_multsr_sat_nearest (x y k : Z) :
  is_s32 x -> is_s32 y -> 1 <= k <= 63 ->
  q_multsr_sat_32x32 x y k = clamp INT32_MIN INT32_MAX (nearest (x * y) k) /\
  q_multsr_sat_32x32_24 x y k = clamp INT24_MINVALUE INT24_MAXVALUE (i32 (nearest (x * y) k)) /\
  q_multsr_sat_32x32_16 x y k = clamp INT16_MIN INT16_MAX (i32 (nearest (x * y) k)) /\
  (is_s32 (nearest (x * y) k) -> i32 (nearest (x * y) k) = nearest (x * y) k) /\
  2 * Z.abs (2 ^ k * nearest (x * y) k - x * y) <= 2 ^ k /\
  (- 2 ^ 31 <= x * y < 2 ^ 31 - 1 -> k <= 31 -> q_multsr_sat_16x16 x y k = clamp INT16_MIN INT16_MAX (nearest (x * y) k)).
Proof.
  intros Hx Hy Hk. unfold q_multsr_sat_32x32, q_multsr_sat_32x32_24, q_multsr_sat_32x32_16.
  rewrite q_multsr_32x32_nearest, sat_int32_clamp, sat_int24_clamp, sat_int16_clamp by done.
  split_and!; [done|done|done|apply i32_small| |].
  - pose proof (nearest_bounds (x * y) k ltac:(lia)) as Hn.
    assert (2 ^ k = 2 * 2 ^ (k - 1)) by (replace k with (1 + (k - 1)) at 1 by lia; by rewrite Z.pow_add_r by lia). lia.
  - intros Hp Hk'. unfold q_multsr_sat_16x16. rewrite sat_int16_clamp. f_equal. unfold is_s32 in *.
    rewrite (i32_small (x * y)) by lia. rewrite i32_small; [apply shift_round; lia|].
    rewrite Z.shiftr_div_pow2 by lia. assert (0 < 2 ^ (k - 1)) by (apply Z.pow_pos_nonneg; lia).
    generalize dependent (2 ^ (k - 1)). generalize dependent (x * y). intros p Hp d Hd. split.
    + enough (- 2 ^ 31 <= p / d) by lia. apply Z.div_le_lower_bound; nia.
    + enough (p / d <= 2 ^ 31 - 2) by lia. apply Z.div_le_upper_bound; nia.
Qed.

Lemma q_multsr_sat_nearest_witness :
  q_multsr_sat_32x32 1000000000 1500000000 30 = 1396983862 /\
  q_multsr_sat_32x32 1000000000 1500000000 30 = clamp INT32_MIN INT32_MAX (nearest (1000000000 * 1500000000) 30).
Proof.
  split; [vm_compute; reflexivity|].
  refine (proj1 (q_multsr_sat_nearest 1000000000 1500000000 30 _ _ _)); unfold is_s32; lia.
Defined.

(** Without room in 32 bits the saturation to 24 bits does not saturate. *)
Example q_multsr_sat_24_wraps :
  q_multsr_sat_32x32_24 INT32_MAX INT32_MAX 23 = -512 /\ nearest (INT32_MAX * INT32_MAX) 23 = 549755813376.
Proof. vm_compute. by split. Qed.

(** ** Bit patterns *)

Lemma i32_pattern x : i32 (x mod 2 ^ 32) = i32 x.
Proof. unfold i32. by rewrite Zplus_mod_idemp_l. Qed.

Lemma i16_pattern x : i16 (x mod 2 ^ 16) = i16 x.
Proof. unfold i16. by rewrite Zplus_mod_idemp_l. Qed.

Lemma i16_mod x : i16 x mod 2 ^ 16 = x mod 2 ^ 16.
Proof. unfold i16. rewrite Zminus_mod_idemp_l. f_equal. lia. Qed.

Lemma i32_mod x : i32 x mod 2 ^ 32 = x mod 2 ^ 32.
Proof. unfold i32. rewrite Zminus_mod_idemp_l. f_equal. lia. Qed.

Lemma sign_extend_small x : is_s24 x -> sign_extend_s24 x = x.
Proof.
  unfold is_s24, sign_extend_s24. intros H. rewrite Z.shiftl_mul_pow2 by lia. rewrite i32_small by lia.
  rewrite Z.shiftr_div_pow2 by lia. by rewrite Z.div_mul.
Qed.

Lemma sign_extend_range x : is_s24 (sign_extend_s24 x).
Proof.
  unfold is_s24, sign_extend_s24. pose proof (i32_range (Z.shiftl x 8)). rewrite Z.shiftr_div_pow2 by lia.
  split; [apply Z.div_le_lower_bound; lia|apply Z.div_lt_upper_bound; lia].
Qed.

Lemma sign_extend_shiftl x : i32 (Z.shiftl x 8) = Z.shiftl (sign_extend_s24 x) 8.
Proof.
  unfold sign_extend_s24. rewrite Z.shiftr_div_pow2, !Z.shiftl_mul_pow2 by lia.
  assert ((2 ^ 8 | i32 (x * 2 ^ 8))) as [k Hk].
  { unfold i32. apply Z.divide_sub_r; [|by exists (2 ^ 23)]. rewrite Z.mod_eq by lia.
    apply Z.divide_sub_r; [apply Z.divide_add_r; [by exists x|by exists (2 ^ 23)]|].
    apply Z.divide_mul_l. by exists (2 ^ 24). }
  rewrite Hk, Z.div_mul by lia. done.
Qed.

(** Rounding undoes a shift to the left. *)
Lemma nearest_shiftl x k : 1 <= k -> nearest (Z.shiftl x k) k = x.
Proof.
  intros Hk. unfold nearest. rewrite Z.shiftl_mul_pow2 by lia.
  assert (2 ^ k = 2 * 2 ^ (k - 1)) by (replace k with (1 + (k - 1)) at 1 by lia; by rewrite Z.pow_add_r by lia).
  assert (0 < 2 ^ (k - 1)) by (apply Z.pow_pos_nonneg; lia).
  rewrite Z.add_comm, Z.div_add by lia. rewrite Z.div_small by lia. lia.
Qed.

(** Fields of a word side by side. *)
Lemma lor_fields k n r : 0 <= n -> 0 <= r < 2 ^ n -> Z.lor (Z.shiftl k n) r = k * 2 ^ n + r.
Proof.
  intros Hn Hr. rewrite <- Z.shiftl_mul_pow2 by lia.
  assert (Z.land (Z.shiftl k n) r = 0) as E.
  { apply Z.bits_inj'. intros i Hi. rewrite Z.land_spec, Z.bits_0. destruct (Z.lt_ge_cases i n).
    - by rewrite Z.shiftl_spec_low.
    - destruct (decide (r = 0)) as [->|]; [by rewrite Z.bits_0, andb_false_r|].
      rewrite (Z.bits_above_log2 r i), andb_false_r; [done|lia|].
      apply Z.log2_lt_pow2; [lia|]. eapply Z.lt_le_trans; [apply Hr|]. apply Z.pow_le_mono_r; lia. }
  rewrite <- Z.lxor_lor by done. by rewrite <- Z.add_nocarry_lxor by done.
Qed.

Lemma land_ones_mod x n : 0 <= n -> Z.land x (2 ^ n - 1) = x mod 2 ^ n.
Proof. intros. rewrite <- Z.land_ones by done. by rewrite Z.ones_equiv, Z.sub_1_r. Qed.
