(* ===== verification/SampleLoop.v ===== *)
(** * Loops over the samples of two streams

    The processing functions of the components read samples of one stream and
    write samples of another. They run over stretches on which neither ring
    wraps; this file has that loop, for any function on one sample, and shows that
    it does the same as going through the rings sample by sample. *)

From stdpp Require Import base list numbers option.
From S2P Require Import Prelude AudioStream StreamCopy Format.

(** ** Samples in memory: little-endian bytes *)

Fixpoint load_le (n : nat) (m : mem) (p : Z) : Z :=
  match n with
  | O => 0
  | S n => u8 (m p) + 2 ^ 8 * load_le n m (p + 1)
  end.

Definition store_le (n : nat) (m : mem) (p v : Z) : mem := fun a =>
  if (p <=? a) && (a <? p + Z.of_nat n) then u8 (Z.shiftr v (8 * (a - p))) else m a.

Definition load_s16 (m : mem) (p : Z) : Z := i16 (load_le 2 m p).
Definition load_s32 (m : mem) (p : Z) : Z := i32 (load_le 4 m p).

(** ** The loop *)

(** The work on one sample: new memory from the memory and the two addresses. *)
Definition sample_op := mem -> Z -> Z -> mem.

(** How many samples of a width fit a number of bytes: a shift for 2 and 4. *)
Definition bytes_to_samples (width bytes : Z) : Z :=
  if width =? 2 then Z.shiftr bytes 1 else if width =? 4 then Z.shiftr bytes 2 else bytes / width.

Section loop.
Context (op : sample_op) (sb db : Z).

Fixpoint sample_chunk (n : nat) (m : mem) (src dst : Z) : mem :=
  match n with
  | O => m
  | S n => sample_chunk n (op m src dst) (src + sb) (dst + db)
  end.

Fixpoint sample_loop (fuel : nat) (source sink : audio_stream) (m : mem)
    (src dst processed samples : Z) : option mem :=
  match fuel with
  | O => None
  | S fuel =>
      if processed <? samples then
        src ← audio_stream_wrap source src;
        dst ← audio_stream_wrap sink dst;
        let n := i32 (samples - processed) in
        bytes ← audio_stream_bytes_without_wrap source src;
        let n := Z.min n (bytes_to_samples sb bytes) in
        bytes ← audio_stream_bytes_without_wrap sink dst;
        let n := Z.min n (bytes_to_samples db bytes) in
        let m := sample_chunk (Z.to_nat n) m src dst in
        sample_loop fuel source sink m (src + sb * n) (dst + db * n) (processed + n) samples
      else Some m
  end.

(** The same sample by sample: [n] samples from the one of index [i]. *)
Fixpoint sample_ref (source sink : audio_stream) (p q : Z) (n : nat) (i : Z) (m : mem) : mem :=
  match n with
  | O => m
  | S n => sample_ref source sink p q n (i + 1) (op m (ring source p (sb * i)) (ring sink q (db * i)))
  end.

Lemma sample_ref_app source sink p q n1 n2 i m :
  sample_ref source sink p q (n1 + n2) i m =
  sample_ref source sink p q n2 (i + Z.of_nat n1) (sample_ref source sink p q n1 i m).
Proof.
  revert i m. induction n1 as [|n1 IH]; intros i m; simpl; [f_equal; lia|]. rewrite IH. f_equal. lia.
Qed.

(** On a stretch that does not wrap a chunk is the same. *)
Lemma sample_chunk_ref source sink p q n i m src dst :
  stream_geom source -> stream_geom sink -> 0 < sb -> 0 < db ->
  src = ring source p (sb * i) -> dst = ring sink q (db * i) ->
  src + sb * Z.of_nat n <= s_end_addr source -> dst + db * Z.of_nat n <= s_end_addr sink ->
  sample_chunk n m src dst = sample_ref source sink p q n i m.
Proof.
  intros Gs Gk Hsb Hdb. revert i m src dst. induction n as [|n IH]; intros i m src dst Es Ed Hs Hd; [done|].
  simpl. rewrite <- Es, <- Ed. destruct n as [|n]; [done|].
  pose proof (ring_in source p (sb * i) Gs) as Is. pose proof (ring_in sink q (db * i) Gk) as Id. rewrite <- Es in Is.
  rewrite <- Ed in Id. apply IH; [| |lia|lia].
  - replace (sb * (i + 1)) with (sb * i + sb) by lia. rewrite <- ring_ring, <- Es. symmetry. apply ring_linear; [done|done|lia|nia].
  - replace (db * (i + 1)) with (db * i + db) by lia. rewrite <- ring_ring, <- Ed. symmetry. apply ring_linear; [done|done|lia|nia].
Qed.

Lemma bytes_to_samples_div width bytes : bytes_to_samples width bytes = bytes / width.
Proof.
  unfold bytes_to_samples. case_if; [subst; by rewrite Z.shiftr_div_pow2|].
  case_if; [subst; by rewrite Z.shiftr_div_pow2|done].
Qed.

(** Samples of a width do not cross the end of the ring. *)
Definition aligned (s : audio_stream) (p width : Z) : Prop := (width | s_size s) /\ (width | p - s_addr s).

Lemma aligned_rest s p width i :
  stream_geom s -> 0 < width -> aligned s p width ->
  width * ((s_end_addr s - ring s p (width * i)) / width) = s_end_addr s - ring s p (width * i) /\
  1 <= (s_end_addr s - ring s p (width * i)) / width.
Proof.
  intros G Hw [H1 H2]. pose proof (ring_in s p (width * i) G) as Hin. pose proof (geom_end _ G) as He. unfold in_ring in Hin.
  assert ((width | s_end_addr s - ring s p (width * i))) as [k Hk].
  { unfold ring. rewrite He. replace (s_addr s + s_size s - (s_addr s + (p - s_addr s + width * i) mod s_size s))
      with (s_size s - (p - s_addr s + width * i) mod s_size s) by lia.
    apply Z.divide_sub_r; [done|]. rewrite Z.mod_eq by (pose proof (geom_size _ G); lia).
    apply Z.divide_sub_r; [apply Z.divide_add_r; [done|by exists i; lia]|]. by apply Z.divide_mul_l. }
  rewrite Hk, Z.div_mul by lia. split; [lia|]. nia.
Qed.

Lemma sample_loop_ref fuel source sink p q m src dst processed samples :
  stream_geom source -> stream_geom sink -> 0 < sb -> 0 < db ->
  aligned source p sb -> aligned sink q db ->
  audio_stream_wrap source src = Some (ring source p (sb * processed)) ->
  audio_stream_wrap sink dst = Some (ring sink q (db * processed)) ->
  0 <= processed <= samples -> samples < 2 ^ 31 -> (Z.to_nat (samples - processed) < fuel)%nat ->
  sample_loop fuel source sink m src dst processed samples =
  Some (sample_ref source sink p q (Z.to_nat (samples - processed)) processed m).
Proof.
  intros Gs Gk Hsb Hdb As Ak. revert m src dst processed.
  induction fuel as [|fuel IH]; intros m src dst processed Ws Wd Hp Hs Hf; [lia|]. simpl. case_if.
  2:{ by replace (Z.to_nat (samples - processed)) with 0%nat by lia. }
  rewrite Ws, Wd. simpl. rewrite !bytes_without_wrap_ok by sof. simpl. rewrite !bytes_to_samples_div, i32_small by lia.
  destruct (aligned_rest source p sb processed Gs Hsb As) as [Es1 Es2].
  destruct (aligned_rest sink q db processed Gk Hdb Ak) as [Ed1 Ed2].
  set (src' := ring source p (sb * processed)) in *. set (dst' := ring sink q (db * processed)) in *.
  set (n := Z.min _ _). assert (1 <= n <= samples - processed) as Hn by lia.
  assert (src' + sb * n <= s_end_addr source) as Ls by nia. assert (dst' + db * n <= s_end_addr sink) as Ld by nia.
  rewrite (sample_chunk_ref source sink p q (Z.to_nat n) processed m src' dst') by (done || lia).
  pose proof (ring_in source p (sb * processed) Gs) as Is. pose proof (ring_in sink q (db * processed) Gk) as Id.
  fold src' in Is. fold dst' in Id. unfold in_ring in Is, Id.
  pose proof (geom_end _ Gs). pose proof (geom_end _ Gk).
  assert (audio_stream_wrap source (src' + sb * n) = Some (ring source p (sb * (processed + n)))) as Ws'.
  { rewrite audio_stream_wrap_ring by (done || nia). subst src'. rewrite ring_ring. do 2 f_equal. lia. }
  assert (audio_stream_wrap sink (dst' + db * n) = Some (ring sink q (db * (processed + n)))) as Wd'.
  { rewrite audio_stream_wrap_ring by (done || nia). subst dst'. rewrite ring_ring. do 2 f_equal. lia. }
  rewrite IH by (done || lia).
  replace (Z.to_nat (samples - processed)) with (Z.to_nat n + Z.to_nat (samples - (processed + n)))%nat by lia.
  rewrite sample_ref_app. by rewrite Z2Nat.id by lia.
Qed.
End loop.

(** ** Loads and stores *)

Lemma load_store_part n m p v k j :
  (j + k <= n)%nat ->
  load_le k (store_le n m p v) (p + Z.of_nat j) = Z.shiftr v (8 * Z.of_nat j) mod 2 ^ (8 * Z.of_nat k).
Proof.
  revert j. induction k as [|k IH]; intros j Hj; [by rewrite Z.mod_1_r|]. cbn [load_le].
  replace (p + Z.of_nat j + 1) with (p + Z.of_nat (S j)) by lia. rewrite IH by lia.
  unfold store_le at 1. case_if; [|lia]. replace (8 * (p + Z.of_nat j - p)) with (8 * Z.of_nat j) by lia.
  set (x := Z.shiftr v (8 * Z.of_nat j)).
  replace (Z.shiftr v (8 * Z.of_nat (S j))) with (x / 2 ^ 8).
  2:{ subst x. rewrite <- Z.shiftr_div_pow2, Z.shiftr_shiftr by lia. f_equal. lia. }
  replace (8 * Z.of_nat (S k)) with (8 + 8 * Z.of_nat k) by lia. rewrite Z.pow_add_r by lia.
  rewrite Z.rem_mul_r by (try apply Z.pow_pos_nonneg; lia). unfold u8. by rewrite Z.mod_mod by lia.
Qed.

Lemma le_load_store n m p v : load_le n (store_le n m p v) p = v mod 2 ^ (8 * Z.of_nat n).
Proof. pose proof (load_store_part n m p v n 0 ltac:(lia)) as H. by rewrite Z.add_0_r in H. Qed.

Lemma le_load_ext n m m' p : (forall a, p <= a < p + Z.of_nat n -> m' a = m a) -> load_le n m' p = load_le n m p.
Proof.
  revert p. induction n as [|n IH]; intros p H; [done|]. simpl. rewrite H by lia. rewrite IH; [done|].
  intros a Ha. apply H. lia.
Qed.

Lemma le_store_out n m p v a : a < p \/ p + Z.of_nat n <= a -> store_le n m p v a = m a.
Proof. intros. unfold store_le. case_if; [lia|done]. Qed.

Lemma load_range n m p : 0 <= load_le n m p < 2 ^ (8 * Z.of_nat n).
Proof.
  revert p. induction n as [|n IH]; intros p; simpl load_le; [lia|]. specialize (IH (p + 1)).
  replace (8 * Z.of_nat (S n)) with (8 + 8 * Z.of_nat n) by lia. rewrite Z.pow_add_r by lia.
  pose proof (Z.mod_pos_bound (m p) (2 ^ 8) ltac:(lia)). unfold u8. nia.
Qed.

(** Zero bytes are zero samples. *)
Lemma load_zero k m p : (forall a, p <= a < p + Z.of_nat k -> m a = 0) -> load_le k m p = 0.
Proof.
  revert p. induction k as [|k IH]; intros p H; [done|]. simpl. rewrite H, IH by (intros; apply H; lia) || lia. done.
Qed.

(** The samples of a stream from a position. *)
Definition stream_samples (width : nat) (m : mem) (s : audio_stream) (p : Z) (n : nat) : list Z :=
  (fun i => load_le width m (ring s p (Z.of_nat width * Z.of_nat i))) <$> seq 0 n.

(** An operation that reads a sample of [sb] bytes and writes one of [db] bytes. *)
Definition store_op (sb db : nat) (f : Z -> Z) : sample_op := fun m src dst => store_le db m dst (f (load_le sb m src)).

(** The bytes of one sample lie one behind the other. *)
Lemma sample_bytes s r w i j :
  stream_geom s -> (0 < w)%nat -> aligned s r (Z.of_nat w) -> 0 <= j < Z.of_nat w ->
  ring s r (Z.of_nat w * i) + j = ring s r (Z.of_nat w * i + j) /\
  ring s r (Z.of_nat w * i) + Z.of_nat w <= s_end_addr s.
Proof.
  intros G Hw Ha Hj. destruct (aligned_rest s r (Z.of_nat w) i G ltac:(lia) Ha) as [E1 E2].
  assert (Z.of_nat w <= s_end_addr s - ring s r (Z.of_nat w * i)) by nia.
  rewrite <- (ring_ring s r (Z.of_nat w * i) j), (ring_linear s (ring s r (Z.of_nat w * i)) j); [lia|done|by apply ring_in|lia|lia].
Qed.

Section stored.
Context (w : nat) (sink : audio_stream) (q : Z).
Hypothesis Gk : stream_geom sink.
Hypothesis Hw : (0 < w)%nat.
Hypothesis Ak : aligned sink q (Z.of_nat w).

(** The first [n] samples from [q] are those of [F], and nothing else changed. *)
Definition stored (F : nat -> Z) (m m' : mem) (n : nat) : Prop :=
  (forall i, (i < n)%nat -> load_le w m' (ring sink q (Z.of_nat w * Z.of_nat i)) = F i mod 2 ^ (8 * Z.of_nat w)) /\
  (forall a, (forall j, 0 <= j < Z.of_nat w * Z.of_nat n -> a <> ring sink q j) -> m' a = m a).

Lemma stored_0 F m : stored F m m 0.
Proof. split; [lia|done]. Qed.

Lemma stored_step F m m' n v :
  Z.of_nat w * Z.of_nat (S n) <= s_size sink -> stored F m m' n -> v = F n ->
  stored F m (store_le w m' (ring sink q (Z.of_nat w * Z.of_nat n)) v) (S n).
Proof.
  intros Hn [H1 H2] ->. set (d := ring sink q (Z.of_nat w * Z.of_nat n)).
  assert (forall j, 0 <= j < Z.of_nat w -> d + j = ring sink q (Z.of_nat w * Z.of_nat n + j)) as Hd.
  { intros j Hj. by apply sample_bytes. }
  split.
  - intros i Hi. destruct (decide (i = n)) as [->|Hne]; [apply le_load_store|].
    rewrite <- H1 by lia. apply le_load_ext. intros a Ha. apply le_store_out.
    enough (~ (d <= a < d + Z.of_nat w)) by lia. intros Hin. pose proof (Hd (a - d) ltac:(lia)) as E1.
    destruct (sample_bytes sink q w (Z.of_nat i) (a - ring sink q (Z.of_nat w * Z.of_nat i)) Gk Hw Ak ltac:(lia)) as [E2 _].
    assert (ring sink q (Z.of_nat w * Z.of_nat n + (a - d)) =
      ring sink q (Z.of_nat w * Z.of_nat i + (a - ring sink q (Z.of_nat w * Z.of_nat i)))) as E by lia.
    assert (Z.of_nat w * (Z.of_nat i + 1) <= Z.of_nat w * Z.of_nat n) by (apply Z.mul_le_mono_nonneg_l; lia).
    apply ring_inj in E; [lia|done|lia|lia].
  - intros a Ha. rewrite le_store_out; [apply H2; intros j Hj; apply Ha; lia|].
    enough (~ (d <= a < d + Z.of_nat w)) by lia. intros Hin. apply (Ha (Z.of_nat w * Z.of_nat n + (a - d))); [lia|].
    rewrite <- Hd by lia. lia.
Qed.

(** The samples of another ring are still the same. *)
Lemma stored_other F m m' n sb source p i :
  stored F m m' n -> stream_geom source -> (0 < sb)%nat -> aligned source p (Z.of_nat sb) -> disjoint_rings source sink ->
  load_le sb m' (ring source p (Z.of_nat sb * i)) = load_le sb m (ring source p (Z.of_nat sb * i)).
Proof.
  intros [_ H2] Gs Hsb As Hdis. apply le_load_ext. intros a Ha. apply H2. intros j Hj ->.
  pose proof (ring_in sink q j Gk). pose proof (ring_in source p (Z.of_nat sb * i) Gs).
  destruct (sample_bytes source p sb i 0 Gs Hsb As ltac:(lia)) as [_ ?].
  unfold in_ring, disjoint_rings in *. lia.
Qed.
End stored.

Section store.
Context (sb db : nat) (f : Z -> Z) (source sink : audio_stream) (p q : Z).
Hypothesis Gs : stream_geom source.
Hypothesis Gk : stream_geom sink.
Hypothesis Hdb : (0 < db)%nat.
Hypothesis As : aligned source p (Z.of_nat sb).
Hypothesis Ak : aligned sink q (Z.of_nat db).
Hypothesis Hdis : disjoint_rings source sink.

Lemma sample_ref_stores n m :
  (0 < sb)%nat -> Z.of_nat db * Z.of_nat n <= s_size sink ->
  stored db sink q (fun i => f (load_le sb m (ring source p (Z.of_nat sb * Z.of_nat i)))) m
    (sample_ref (store_op sb db f) (Z.of_nat sb) (Z.of_nat db) source sink p q n 0 m) n.
Proof.
  intros Hsb. induction n as [|n IH]; intros Hn; [by apply stored_0|].
  rewrite <- (Nat.add_1_r n) at 1. rewrite sample_ref_app, Z.add_0_l. cbn [sample_ref]. unfold store_op at 1.
  specialize (IH ltac:(lia)). apply stored_step; try done. f_equal. eapply stored_other; try exact IH; done.
Qed.

Lemma sample_ref_map n m :
  (0 < sb)%nat -> Z.of_nat db * Z.of_nat n <= s_size sink ->
  stream_samples db (sample_ref (store_op sb db f) (Z.of_nat sb) (Z.of_nat db) source sink p q n 0 m) sink q n =
  (fun x => f x mod 2 ^ (8 * Z.of_nat db)) <$> stream_samples sb m source p n.
Proof.
  intros Hsb Hn. destruct (sample_ref_stores n m Hsb Hn) as [H _]. unfold stream_samples.
  rewrite <- list_fmap_compose. apply list_fmap_ext. intros k i Hi. apply lookup_seq in Hi as [-> Hi]. by apply H.
Qed.
End store.
