(* ===== verification/PcmConvert.v ===== *)
(** * PCM format conversion

    [src/audio/pcm_converter/pcm_converter_generic.c] and [pcm_converter.c], with
    all formats configured. Floating-point samples are handled as the bit patterns
    of IEEE binary32, as in the code. *)

From stdpp Require Import base list numbers option.
From S2P Require Import Prelude AudioStream StreamCopy Format SampleLoop.

(** ** Conversions of one sample *)

(** The patterns of memory are read as [i16] or [i32]. *)
Definition s16_to_s24 (x : Z) : Z := Z.shiftl (i16 x) 8.
Definition s24_to_s16 (x : Z) : Z := sat_int16 (Q_SHIFT_RND (sign_extend_s24 (i32 x)) 23 15).
Definition s16_to_s32 (x : Z) : Z := Z.shiftl (i16 x) 16.
Definition s32_to_s16 (x : Z) : Z := sat_int16 (Q_SHIFT_RND (i32 x) 31 15).
Definition s24_to_s32 (x : Z) : Z := Z.shiftl (i32 x) 8.
Definition s32_to_s24 (x : Z) : Z := sat_int24 (Q_SHIFT_RND (i32 x) 31 23).

Definition s16_c16_to_s16_c32 (x : Z) : Z := i16 x.
Definition s16_c32_to_s16_c16 (x : Z) : Z := Z.land (i32 x) 65535.
Definition s16_c32_to_s32_c32 (x : Z) : Z := Z.shiftl (i32 x) 16.
Definition s32_c32_to_s16_c32 (x : Z) : Z := sat_int16 (Q_SHIFT_RND (i32 x) 31 15).
Definition s16_c32_to_s24_c32 (x : Z) : Z := Z.shiftl (i32 x) 8.
Definition s24_c32_to_s16_c32 (x : Z) : Z :=
  sat_int16 (Q_SHIFT_RND (sign_extend_s24 (Z.land (i32 x) 16777215)) 23 15).

(** Three bytes to a 32-bit word and back, byte by byte. *)
Definition s24_c24_to_s24_c32 : sample_op := fun m src dst =>
  let m := store_le 4 m dst
    (i32 (Z.lor (Z.lor (Z.shiftl (u8 (m (src + 2))) 24) (Z.shiftl (u8 (m (src + 1))) 16)) (Z.shiftl (u8 (m src)) 8))) in
  store_le 4 m dst (Z.shiftr (load_s32 m dst) 8).

Definition s24_c32_to_s24_c24 : sample_op := fun m src dst =>
  let m := store_le 1 m dst (Z.land (load_s32 m src) 255) in
  let m := store_le 1 m (dst + 1) (Z.land (Z.shiftr (load_s32 m src) 8) 255) in
  store_le 1 m (dst + 2) (Z.land (Z.shiftr (load_s32 m src) 16) 255).

(** ** Floating point *)

Definition pcm_shift (d a : Z) : Z :=
  let a := if a >? 32 then 32 else if a <? -32 then -32 else a in
  let dd := if a >=? 0 then Z.shiftl d a else Z.shiftr d (- a) in
  let dd := if dd >? INT32_MAX then INT32_MAX else dd in
  i32 dd.

Definition PCM_ABS32 (x : Z) : Z := u32 (Z.lxor x (Z.shiftr x 31) + Z.shiftr (u32 x) 31).

(** [__builtin_clz] of a value that is not 0. *)
Definition clz (x : Z) : Z := 31 - Z.log2 x.

Definition pcm_convert_f_to_i (src pow : Z) : Z :=
  let exponent := Z.shiftr src 23 in
  let exponent := Z.land exponent 255 + pow - 127 in
  let mantissa := Z.lor (2 ^ 23) (Z.land (2 ^ 23 - 1) src) in
  let dst := pcm_shift mantissa (exponent - 23) in
  let dst :=
    if (exponent - 22 <? 9) || (Z.land (u32 src) (2 ^ 31) =? 2 ^ 31)
    then i32 (dst + Z.land (pcm_shift mantissa (exponent - 22)) 1) else dst in
  i32 (Z.lxor dst (Z.shiftr src 31) + Z.shiftr (u32 src) 31).

Definition pcm_convert_i_to_f (src pow : Z) : Z :=
  if src =? 0 then 0 else
  let sign := Z.land (u32 src) (2 ^ 31) in
  let abs_clz := clz (PCM_ABS32 src) in
  let exponent := Z.land (127 + 31 - abs_clz - pow) 255 in
  let mantissa := i32 (PCM_ABS32 src) in
  let mantissa := Z.land (pcm_shift mantissa (23 - 31 + abs_clz)) (2 ^ 23 - 1) in
  i32 (Z.lor (Z.lor sign (Z.shiftl exponent 23)) mantissa).

Definition s16_to_f (x : Z) : Z := pcm_convert_i_to_f (i16 x) 15.
Definition f_to_s16 (x : Z) : Z := sat_int16 (pcm_convert_f_to_i (i32 x) 15).
Definition s24_to_f (x : Z) : Z := pcm_convert_i_to_f (sign_extend_s24 (i32 x)) 23.
Definition f_to_s24 (x : Z) : Z := sat_int24 (pcm_convert_f_to_i (i32 x) 23).
Definition s32_to_f (x : Z) : Z := pcm_convert_i_to_f (i32 x) 31.
Definition f_to_s32 (x : Z) : Z := pcm_convert_f_to_i (i32 x) 31.

(** ** Conversion of streams *)

(** The memory and the return value. *)
Definition pcm_converter := mem -> audio_stream -> Z -> audio_stream -> Z -> Z -> option (mem * Z).

Definition pcm_convert (op : sample_op) (sb db : Z) : pcm_converter :=
  fun m source ioffset sink ooffset samples =>
  m ← sample_loop op sb db (S (Z.to_nat samples)) source sink m (s_r_ptr source + sb * ioffset)
        (s_w_ptr sink + db * ooffset) 0 samples;
  Some (m, i32 samples).

Definition pcm_convert_s16_to_s24 : pcm_converter := pcm_convert (store_op 2 4 s16_to_s24) 2 4.
Definition pcm_convert_s24_to_s16 : pcm_converter := pcm_convert (store_op 4 2 s24_to_s16) 4 2.
Definition pcm_convert_s16_to_s32 : pcm_converter := pcm_convert (store_op 2 4 s16_to_s32) 2 4.
Definition pcm_convert_s32_to_s16 : pcm_converter := pcm_convert (store_op 4 2 s32_to_s16) 4 2.
Definition pcm_convert_s24_to_s32 : pcm_converter := pcm_convert (store_op 4 4 s24_to_s32) 4 4.
Definition pcm_convert_s32_to_s24 : pcm_converter := pcm_convert (store_op 4 4 s32_to_s24) 4 4.
Definition pcm_convert_s16_c16_to_s16_c32 : pcm_converter := pcm_convert (store_op 2 4 s16_c16_to_s16_c32) 2 4.
Definition pcm_convert_s16_c32_to_s16_c16 : pcm_converter := pcm_convert (store_op 4 2 s16_c32_to_s16_c16) 4 2.
Definition pcm_convert_s16_c32_to_s32_c32 : pcm_converter := pcm_convert (store_op 4 4 s16_c32_to_s32_c32) 4 4.
Definition pcm_convert_s32_c32_to_s16_c32 : pcm_converter := pcm_convert (store_op 4 4 s32_c32_to_s16_c32) 4 4.
Definition pcm_convert_s16_c32_to_s24_c32 : pcm_converter := pcm_convert (store_op 4 4 s16_c32_to_s24_c32) 4 4.
Definition pcm_convert_s24_c32_to_s16_c32 : pcm_converter := pcm_convert (store_op 4 4 s24_c32_to_s16_c32) 4 4.
Definition pcm_convert_s24_c24_to_s24_c32 : pcm_converter := pcm_convert s24_c24_to_s24_c32 3 4.
Definition pcm_convert_s24_c32_to_s24_c24 : pcm_converter := pcm_convert s24_c32_to_s24_c24 4 3.

(** [ffs] of a sample size, minus one, as a shift. *)
Definition log2_size (size : Z) : Z := if size =? 4 then 2 else if size =? 2 then 1 else 0.

Fixpoint linear_loop (op : sample_op) (sb db : Z) (fuel : nat) (source sink : audio_stream) (m : mem)
    (r_ptr w_ptr i samples : Z) : option mem :=
  match fuel with
  | O => None
  | S fuel =>
      if i <? samples then
        let s_size_in := audio_stream_sample_bytes source in
        let s_size_out := audio_stream_sample_bytes sink in
        b1 ← audio_stream_bytes_without_wrap source r_ptr;
        b2 ← audio_stream_bytes_without_wrap sink w_ptr;
        let chunk := Z.min (Z.shiftr b1 (log2_size s_size_in)) (Z.shiftr b2 (log2_size s_size_out)) in
        let chunk := Z.min chunk (i32 (samples - i)) in
        let m := sample_chunk op sb db (Z.to_nat chunk) m r_ptr w_ptr in
        r_ptr ← audio_stream_wrap source (r_ptr + chunk * s_size_in);
        w_ptr ← audio_stream_wrap sink (w_ptr + chunk * s_size_out);
        linear_loop op sb db fuel source sink m r_ptr w_ptr (i + chunk) samples
      else Some m
  end.

(** [op] on samples of [sb] and [db] bytes is the converter on linear memory. *)
Definition pcm_convert_as_linear (op : sample_op) (sb db : Z) : pcm_converter :=
  fun m source ioffset sink ooffset samples =>
  r_ptr ← audio_stream_get_frag source (s_r_ptr source) ioffset (audio_stream_sample_bytes source);
  w_ptr ← audio_stream_get_frag sink (s_w_ptr sink) ooffset (audio_stream_sample_bytes sink);
  if audio_stream_get_avail_samples source <? u32 (samples + ioffset) then Some (m, - EINVAL) else
  if audio_stream_get_free_samples sink <? u32 (samples + ooffset) then Some (m, - EINVAL) else
  m ← linear_loop op sb db (S (Z.to_nat samples)) source sink m r_ptr w_ptr 0 samples;
  Some (m, i32 samples).

Definition pcm_convert_s16_to_f : pcm_converter := pcm_convert_as_linear (store_op 2 4 s16_to_f) 2 4.
Definition pcm_convert_f_to_s16 : pcm_converter := pcm_convert_as_linear (store_op 4 2 f_to_s16) 4 2.
Definition pcm_convert_s24_to_f : pcm_converter := pcm_convert_as_linear (store_op 4 4 s24_to_f) 4 4.
Definition pcm_convert_f_to_s24 : pcm_converter := pcm_convert_as_linear (store_op 4 4 f_to_s24) 4 4.
Definition pcm_convert_s32_to_f : pcm_converter := pcm_convert_as_linear (store_op 4 4 s32_to_f) 4 4.
Definition pcm_convert_f_to_s32 : pcm_converter := pcm_convert_as_linear (store_op 4 4 f_to_s32) 4 4.

(** *** Packing for the HDA link: pairs of samples to three 16-bit words *)

Definition gtw_pair (m : mem) (src dst : Z) : mem :=
  let m := store_le 2 m dst (Z.land (Z.shiftr (load_s32 m src) 8) 65535) in
  let m := store_le 2 m (dst + 2)
    (Z.lor (Z.land (load_s32 m src) (Z.shiftl 255 8)) (Z.land (Z.shiftr (load_s32 m (src + 4)) 16) 255)) in
  store_le 2 m (dst + 4) (Z.land (load_s32 m (src + 4)) 65535).

Fixpoint gtw_pairs (k : nat) (m : mem) (src dst : Z) : mem :=
  match k with
  | O => m
  | S k => gtw_pairs k (gtw_pair m src dst) (src + 8) (dst + 6)
  end.

(** The memory, the pointers and the size of the last chunk, if there is one. *)
Fixpoint gtw_loop (fuel : nat) (source sink : audio_stream) (m : mem) (src dst processed samples : Z)
    (last : option Z) : option (mem * Z * Z * option Z) :=
  match fuel with
  | O => None
  | S fuel =>
      if processed <? samples then
        src ← audio_stream_wrap source src;
        dst ← audio_stream_wrap sink dst;
        let n := i32 (samples - processed) in
        bytes ← audio_stream_bytes_without_wrap source src;
        let n := Z.min n (bytes_to_samples 4 bytes) in
        bytes ← audio_stream_bytes_without_wrap sink dst;
        let n := Z.min n (bytes_to_samples 3 bytes) in
        let k := (n + 1) / 2 in
        let m := gtw_pairs (Z.to_nat k) m src dst in
        gtw_loop fuel source sink m (src + 8 * k) (dst + 6 * k) (processed + n) samples (Some n)
      else Some (m, src, dst, last)
  end.

(** Without samples the code tests an uninitialised variable. *)
Definition pcm_convert_s24_c32_to_s24_c24_link_gtw : pcm_converter :=
  fun m source ioffset sink ooffset samples =>
  if negb (ooffset =? 0) then None else
  r ← gtw_loop (S (Z.to_nat samples)) source sink m (s_r_ptr source + 4 * ioffset) (s_w_ptr sink) 0 samples None;
  let '(m, src, dst, last) := r in
  n ← last;
  let m :=
    if 2 * ((n + 1) / 2) >? n then
      let m := store_le 2 m dst (Z.land (Z.shiftr (load_s32 m src) 8) 65535) in
      store_le 2 m (dst + 2) (Z.land (load_s32 m src) (Z.shiftl 255 8))
    else m in
  Some (m, i32 samples).

(** ** Choosing the function *)

Definition pcm_func_map : list (Z * Z * pcm_converter) :=
  [(SOF_IPC_FRAME_S16_LE, SOF_IPC_FRAME_S16_LE, audio_stream_copy);
   (SOF_IPC_FRAME_S24_4LE, SOF_IPC_FRAME_S24_4LE, audio_stream_copy);
   (SOF_IPC_FRAME_S24_3LE, SOF_IPC_FRAME_S24_3LE, audio_stream_copy);
   (SOF_IPC_FRAME_S16_LE, SOF_IPC_FRAME_S24_4LE, pcm_convert_s16_to_s24);
   (SOF_IPC_FRAME_S24_4LE, SOF_IPC_FRAME_S16_LE, pcm_convert_s24_to_s16);
   (SOF_IPC_FRAME_S32_LE, SOF_IPC_FRAME_S32_LE, audio_stream_copy);
   (SOF_IPC_FRAME_S16_LE, SOF_IPC_FRAME_S32_LE, pcm_convert_s16_to_s32);
   (SOF_IPC_FRAME_S32_LE, SOF_IPC_FRAME_S16_LE, pcm_convert_s32_to_s16);
   (SOF_IPC_FRAME_S24_4LE, SOF_IPC_FRAME_S32_LE, pcm_convert_s24_to_s32);
   (SOF_IPC_FRAME_S32_LE, SOF_IPC_FRAME_S24_4LE, pcm_convert_s32_to_s24);
   (SOF_IPC_FRAME_FLOAT, SOF_IPC_FRAME_FLOAT, audio_stream_copy);
   (SOF_IPC_FRAME_S16_LE, SOF_IPC_FRAME_FLOAT, pcm_convert_s16_to_f);
   (SOF_IPC_FRAME_FLOAT, SOF_IPC_FRAME_S16_LE, pcm_convert_f_to_s16);
   (SOF_IPC_FRAME_S24_4LE, SOF_IPC_FRAME_FLOAT, pcm_convert_s24_to_f);
   (SOF_IPC_FRAME_FLOAT, SOF_IPC_FRAME_S24_4LE, pcm_convert_f_to_s24);
   (SOF_IPC_FRAME_S32_LE, SOF_IPC_FRAME_FLOAT, pcm_convert_s32_to_f);
   (SOF_IPC_FRAME_FLOAT, SOF_IPC_FRAME_S32_LE, pcm_convert_f_to_s32)].

Fixpoint find_func (map : list (Z * Z * pcm_converter)) (fmt_in fmt_out : Z) : option pcm_converter :=
  match map with
  | [] => None
  | (source, sink, func) :: map =>
      if negb (fmt_in =? source) then find_func map fmt_in fmt_out
      else if negb (fmt_out =? sink) then find_func map fmt_in fmt_out
      else Some func
  end.

Definition pcm_get_conversion_function (fmt_in fmt_out : Z) : option pcm_converter :=
  find_func pcm_func_map fmt_in fmt_out.

(** *** Containers larger than the samples *)

Abbreviation ipc4_gtw_host := 2 (only parsing).
Abbreviation ipc4_gtw_link := 8 (only parsing).
Abbreviation ipc4_gtw_alh := 16 (only parsing).
Abbreviation ipc4_gtw_all := 63 (only parsing).

Record pcm_func_vc := mk_func_vc {
  vc_source : Z;
  vc_valid_src_bits : Z;
  vc_sink : Z;
  vc_valid_sink_bits : Z;
  vc_type : Z;
  vc_func : pcm_converter
}.

Definition pcm_func_vc_map : list pcm_func_vc :=
  let S16 := SOF_IPC_FRAME_S16_LE in let S24 := SOF_IPC_FRAME_S24_4LE in
  let S24_3 := SOF_IPC_FRAME_S24_3LE in let S32 := SOF_IPC_FRAME_S32_LE in
  let all_but types := Z.land ipc4_gtw_all (Z.lnot types) in
  [mk_func_vc S16 S16 S32 S16 ipc4_gtw_all pcm_convert_s16_c16_to_s16_c32;
   mk_func_vc S32 S16 S16 S16 ipc4_gtw_all pcm_convert_s16_c32_to_s16_c16;
   mk_func_vc S32 S16 S32 S32 ipc4_gtw_all pcm_convert_s16_c32_to_s32_c32;
   mk_func_vc S32 S32 S32 S16 ipc4_gtw_all pcm_convert_s32_c32_to_s16_c32;
   mk_func_vc S32 S16 S32 S24 ipc4_gtw_all pcm_convert_s16_c32_to_s24_c32;
   mk_func_vc S32 S24 S32 S16 ipc4_gtw_all pcm_convert_s24_c32_to_s16_c32;
   mk_func_vc S32 S24 S32 S24 (all_but (Z.lor (Z.lor ipc4_gtw_link ipc4_gtw_alh) ipc4_gtw_host)) audio_stream_copy;
   mk_func_vc S32 S24 S32 S24 (Z.lor ipc4_gtw_link ipc4_gtw_alh) pcm_convert_s24_to_s32;
   mk_func_vc S32 S24 S32 S24 ipc4_gtw_host pcm_convert_s32_to_s24;
   mk_func_vc S16 S16 S32 S24 (all_but (Z.lor ipc4_gtw_link ipc4_gtw_alh)) pcm_convert_s16_to_s24;
   mk_func_vc S16 S16 S32 S24 (Z.lor ipc4_gtw_link ipc4_gtw_alh) pcm_convert_s16_to_s32;
   mk_func_vc S32 S24 S16 S16 ipc4_gtw_all pcm_convert_s24_to_s16;
   mk_func_vc S24_3 S24_3 S32 S24 ipc4_gtw_all pcm_convert_s24_c24_to_s24_c32;
   mk_func_vc S32 S24 S24_3 S24_3 (all_but ipc4_gtw_link) pcm_convert_s24_c32_to_s24_c24;
   mk_func_vc S32 S24 S24_3 S24_3 ipc4_gtw_link pcm_convert_s24_c32_to_s24_c24_link_gtw;
   mk_func_vc S32 S16 S32 S16 ipc4_gtw_all audio_stream_copy].

Fixpoint find_func_vc (map : list pcm_func_vc) (in_bits valid_in_bits out_bits valid_out_bits type : Z) : option pcm_converter :=
  match map with
  | [] => None
  | e :: map =>
      let continue := find_func_vc map in_bits valid_in_bits out_bits valid_out_bits type in
      if negb (in_bits =? vc_source e) then continue
      else if negb (valid_in_bits =? vc_valid_src_bits e) then continue
      else if negb (out_bits =? vc_sink e) then continue
      else if negb (valid_out_bits =? vc_valid_sink_bits e) then continue
      else if Z.land type (vc_type e) =? 0 then continue
      else Some (vc_func e)
  end.

Definition pcm_get_conversion_vc_function (in_bits valid_in_bits out_bits valid_out_bits type : Z) : option pcm_converter :=
  find_func_vc pcm_func_vc_map in_bits valid_in_bits out_bits valid_out_bits type.

(** ** The loops go through the rings sample by sample *)

Section loops.
Context (sb db : nat) (f : Z -> Z) (source sink : audio_stream).
Local Abbreviation op := (store_op sb db f).
Local Abbreviation sbz := (Z.of_nat sb).
Local Abbreviation dbz := (Z.of_nat db).
Hypothesis Gs : stream_geom source.
Hypothesis Gk : stream_geom sink.

Lemma linear_loop_ref fuel p q m i samples :
  audio_stream_sample_bytes source = sbz -> audio_stream_sample_bytes sink = dbz ->
  sbz = 2 \/ sbz = 4 -> dbz = 2 \/ dbz = 4 ->
  aligned source p sbz -> aligned sink q dbz ->
  0 <= i <= samples -> samples < 2 ^ 31 -> (Z.to_nat (samples - i) < fuel)%nat ->
  linear_loop op sbz dbz fuel source sink m (ring source p (sbz * i)) (ring sink q (dbz * i)) i samples =
  Some (sample_ref op sbz dbz source sink p q (Z.to_nat (samples - i)) i m).
Proof.
  intros Es Ed Hsb Hdb As Ak. revert m i.
  induction fuel as [|fuel IH]; intros m i Hi Hs Hf; [lia|]. cbn [linear_loop]. case_if.
  2:{ by replace (Z.to_nat (samples - i)) with 0%nat by lia. }
  rewrite !bytes_without_wrap_ok by sof. simpl. rewrite Es, Ed.
  assert (forall w b, w = 2 \/ w = 4 -> Z.shiftr b (log2_size w) = b / w) as Hdiv.
  { intros w b [->| ->]; unfold log2_size; simpl; by rewrite Z.shiftr_div_pow2. }
  rewrite !Hdiv by done. rewrite (i32_small (samples - i)) by lia.
  destruct (aligned_rest source p sbz i Gs ltac:(lia) As) as [Es1 Es2].
  destruct (aligned_rest sink q dbz i Gk ltac:(lia) Ak) as [Ed1 Ed2].
  set (src := ring source p (sbz * i)) in *. set (dst := ring sink q (dbz * i)) in *.
  set (n := Z.min (Z.min _ _) _). assert (1 <= n <= samples - i) as Hn by lia.
  assert (src + n * sbz <= s_end_addr source) as Ls by nia. assert (dst + n * dbz <= s_end_addr sink) as Ld by nia.
  rewrite (sample_chunk_ref op sbz dbz source sink p q (Z.to_nat n) i m src dst) by (done || lia).
  pose proof (ring_in source p (sbz * i) Gs) as Is. pose proof (ring_in sink q (dbz * i) Gk) as Id.
  fold src in Is. fold dst in Id. unfold in_ring in Is, Id.
  pose proof (geom_end _ Gs). pose proof (geom_end _ Gk).
  rewrite !audio_stream_wrap_ring by (done || nia). simpl. subst src dst. rewrite !ring_ring.
  replace (sbz * i + n * sbz) with (sbz * (i + n)) by lia. replace (dbz * i + n * dbz) with (dbz * (i + n)) by lia.
  rewrite IH by lia.
  replace (Z.to_nat (samples - i)) with (Z.to_nat n + Z.to_nat (samples - (i + n)))%nat by lia.
  rewrite sample_ref_app. by rewrite Z2Nat.id by lia.
Qed.
End loops.

(** What a converter does: [n] samples from the read pointer of the source reach
    the write pointer of the sink through [f]; no other byte changes. *)
Definition converts (sb db : nat) (f : Z -> Z) (conv : pcm_converter) : Prop :=
  forall m source sink n, stream_wf source -> stream_wf sink -> disjoint_rings source sink ->
    audio_stream_sample_bytes source = Z.of_nat sb -> audio_stream_sample_bytes sink = Z.of_nat db ->
    aligned source (s_r_ptr source) (Z.of_nat sb) -> aligned sink (s_w_ptr sink) (Z.of_nat db) ->
    Z.of_nat sb * Z.of_nat n <= s_avail source -> Z.of_nat db * Z.of_nat n <= s_free sink ->
    exists m', conv m source 0 sink 0 (Z.of_nat n) = Some (m', Z.of_nat n) /\
      stream_samples db m' sink (s_w_ptr sink) n =
        (fun x => f x mod 2 ^ (8 * Z.of_nat db)) <$> stream_samples sb m source (s_r_ptr source) n /\
      forall a, (forall j, 0 <= j < Z.of_nat db * Z.of_nat n -> a <> ring sink (s_w_ptr sink) j) -> m' a = m a.

Lemma free_size s n : stream_wf s -> n <= s_free s -> n <= s_size s.
Proof. intros [_ _ ? -> _]. lia. Qed.

Lemma samples_small (w n : nat) s : stream_wf s -> (0 < w)%nat -> Z.of_nat w * Z.of_nat n <= s_size s -> Z.of_nat n < 2 ^ 31.
Proof. intros W Hw Hn. pose proof (size_small s W). nia. Qed.

Lemma pcm_convert_converts sb db f :
  (0 < sb)%nat -> (0 < db)%nat -> converts sb db f (pcm_convert (store_op sb db f) (Z.of_nat sb) (Z.of_nat db)).
Proof.
  intros Hsb Hdb m source sink n Ws Wk Hdis _ _ As Ak Ha Hf. pose proof (free_size _ _ Wk Hf) as Hsz.
  pose proof (samples_small _ _ _ Wk Hdb Hsz) as Hn. unfold pcm_convert.
  rewrite (sample_loop_ref _ _ _ _ source sink (s_r_ptr source) (s_w_ptr sink)); [|sof..| | |lia|lia|lia].
  2,3: rewrite !Z.mul_0_r, !audio_stream_wrap_ring by (sof || pose proof (geom_size _ (wf_geom _ Ws));
    pose proof (geom_size _ (wf_geom _ Wk)); lia); done.
  simpl. rewrite Z.sub_0_r, Nat2Z.id, i32_small by lia. eexists. split; [done|]. split.
  - apply sample_ref_map; sof.
  - apply sample_ref_stores; sof.
Qed.

Lemma as_linear_converts sb db f :
  Z.of_nat sb = 2 \/ Z.of_nat sb = 4 -> Z.of_nat db = 2 \/ Z.of_nat db = 4 ->
  converts sb db f (pcm_convert_as_linear (store_op sb db f) (Z.of_nat sb) (Z.of_nat db)).
Proof.
  intros Hsb Hdb m source sink n Ws Wk Hdis Es Ed As Ak Ha Hf. pose proof (free_size _ _ Wk Hf) as Hsz.
  pose proof (samples_small db n sink Wk ltac:(lia) Hsz) as Hn. unfold pcm_convert_as_linear, audio_stream_get_frag.
  remember (S (Z.to_nat (Z.of_nat n))) as fuel eqn:Ef. pose proof (geom_size _ (wf_geom _ Ws)). pose proof (geom_size _ (wf_geom _ Wk)).
  rewrite Es, Ed. simpl. rewrite !audio_stream_wrap_ring by first [done|sof]. simpl.
  assert (Z.of_nat n <= audio_stream_get_avail_samples source /\ Z.of_nat n <= audio_stream_get_free_samples sink) as [H1 H2].
  { unfold audio_stream_get_avail_samples, audio_stream_get_free_samples, audio_stream_get_avail_bytes,
      audio_stream_get_free_bytes. rewrite Es, Ed.
    pose proof (wf_avail _ Ws). pose proof (wf_free _ Wk).
    split; (apply Z.div_le_lower_bound; [lia|]); repeat case_if; lia. }
  rewrite !Z.add_0_r, u32_small by lia. do 2 (case_if; [lia|]).
  pose proof (linear_loop_ref sb db f source sink (wf_geom _ Ws) (wf_geom _ Wk) fuel
    (s_r_ptr source) (s_w_ptr sink) m 0 (Z.of_nat n) Es Ed Hsb Hdb As Ak ltac:(lia) ltac:(lia) ltac:(lia)) as E.
  rewrite !Z.mul_0_r in E. rewrite !Z.mul_0_l, E. simpl. rewrite Z.sub_0_r, Nat2Z.id, i32_small by lia.
  eexists. split; [done|]. split.
  - apply sample_ref_map; sof.
  - apply sample_ref_stores; sof.
Qed.

(** ** Round trips through floating point *)

Lemma shiftr_sign x : - 2 ^ 31 <= x < 2 ^ 31 -> Z.shiftr x 31 = if x <? 0 then -1 else 0.
Proof.
  intros Hx. rewrite Z.shiftr_div_pow2 by lia. destruct (x <? 0) eqn:E.
  - symmetry. apply (Z.div_unique x (2 ^ 31) (-1) (x + 2 ^ 31)); lia.
  - apply Z.div_small. lia.
Qed.

Lemma shiftr_sign_u32 x : - 2 ^ 31 <= x < 2 ^ 31 -> Z.shiftr (u32 x) 31 = if x <? 0 then 1 else 0.
Proof.
  intros Hx. rewrite Z.shiftr_div_pow2 by lia. unfold u32. destruct (x <? 0) eqn:E.
  - rewrite <- (Z.mod_unique x (2 ^ 32) (-1) (x + 2 ^ 32)) by lia.
    symmetry. apply (Z.div_unique (x + 2 ^ 32) (2 ^ 31) 1 (x + 2 ^ 31)); lia.
  - rewrite Z.mod_small by lia. apply Z.div_small. lia.
Qed.

Lemma PCM_ABS32_abs x : - 2 ^ 31 < x < 2 ^ 31 -> PCM_ABS32 x = Z.abs x.
Proof.
  intros Hx. unfold PCM_ABS32. rewrite shiftr_sign, shiftr_sign_u32 by lia. destruct (x <? 0) eqn:E.
  - rewrite Z.lxor_m1_r. unfold Z.lnot. rewrite u32_small; lia.
  - rewrite Z.lxor_0_r, u32_small; lia.
Qed.

(** The word of a sign, an exponent and a fraction. *)
Definition float_word (sg e frac : Z) : Z := i32 (sg * 2 ^ 31 + e * 2 ^ 23 + frac).

Lemma pcm_shift_left d a : 0 <= a <= 32 -> 0 <= Z.shiftl d a <= INT32_MAX -> pcm_shift d a = Z.shiftl d a.
Proof.
  intros Ha Hd. unfold pcm_shift. replace (a >? 32) with false by lia. replace (a <? -32) with false by lia.
  replace (a >=? 0) with true by lia. cbv zeta. replace (Z.shiftl d a >? INT32_MAX) with false by lia.
  apply i32_small. lia.
Qed.

Lemma pcm_shift_right d a : 0 < a <= 32 -> 0 <= Z.shiftr d a <= INT32_MAX -> pcm_shift d (- a) = Z.shiftr d a.
Proof.
  intros Ha Hd. unfold pcm_shift. replace (- a >? 32) with false by lia. replace (- a <? -32) with false by lia.
  replace (- a >=? 0) with false by lia. rewrite Z.opp_involutive. cbv zeta.
  replace (Z.shiftr d a >? INT32_MAX) with false by lia. apply i32_small. lia.
Qed.

(** The fraction of a magnitude below [2 ^ 24], with the leading one. *)
Lemma mantissa_bounds a : 0 < a < 2 ^ 24 ->
  0 <= Z.log2 a <= 23 /\ 2 ^ 23 <= a * 2 ^ (23 - Z.log2 a) < 2 ^ 24.
Proof.
  intros Ha. pose proof (Z.log2_nonneg a). assert (Z.log2 a < 24) by (apply Z.log2_lt_pow2; lia).
  destruct (Z.log2_spec a) as [H1 H2]; [lia|]. split; [lia|].
  assert (0 < 2 ^ (23 - Z.log2 a)) by (apply Z.pow_pos_nonneg; lia).
  assert (2 ^ 23 = 2 ^ Z.log2 a * 2 ^ (23 - Z.log2 a)) as E1 by (rewrite <- Z.pow_add_r by lia; f_equal; lia).
  assert (2 ^ 24 = 2 ^ Z.succ (Z.log2 a) * 2 ^ (23 - Z.log2 a)) as E2 by (rewrite <- Z.pow_add_r by lia; f_equal; lia).
  rewrite E1, E2. nia.
Qed.

Lemma sign_bit x : - 2 ^ 31 <= x < 2 ^ 31 -> Z.land (u32 x) (2 ^ 31) = Z.shiftl (if x <? 0 then 1 else 0) 31.
Proof.
  intros Hx. apply Z.bits_inj'. intros i Hi. rewrite Z.land_spec, Z.pow2_bits_eqb by lia.
  rewrite Z.shiftl_spec by lia. destruct (Z.eqb_spec 31 i) as [<-|Hne].
  - rewrite andb_true_r. rewrite <- (Z.add_0_l 31) at 1. rewrite <- Z.shiftr_spec, shiftr_sign_u32 by lia. done.
  - rewrite andb_false_r. destruct (x <? 0); [|by rewrite Z.bits_0].
    destruct (Z.lt_ge_cases i 31); [by rewrite Z.testbit_neg_r by lia|].
    rewrite (Z.bits_above_log2 1); simpl; lia || done.
Qed.

Lemma i_to_f_word x pow :
  0 < Z.abs x < 2 ^ 24 -> 0 <= pow <= 31 ->
  pcm_convert_i_to_f x pow = float_word (if x <? 0 then 1 else 0) (127 + Z.log2 (Z.abs x) - pow)
    (Z.abs x * 2 ^ (23 - Z.log2 (Z.abs x)) - 2 ^ 23).
Proof.
  intros Hx Hp. destruct (mantissa_bounds (Z.abs x) Hx) as [HL HM]. unfold pcm_convert_i_to_f.
  destruct (x =? 0) eqn:E0; [lia|]. cbv zeta.
  rewrite PCM_ABS32_abs by lia. set (a := Z.abs x) in *. set (L := Z.log2 a) in *. unfold clz. fold L.
  replace (127 + 31 - (31 - L) - pow) with (127 + L - pow) by lia. replace (23 - 31 + (31 - L)) with (23 - L) by lia.
  rewrite (i32_small a) by lia. rewrite pcm_shift_left by (try lia; rewrite Z.shiftl_mul_pow2 by lia; lia).
  rewrite (Z.shiftl_mul_pow2 a) by lia. set (M := a * 2 ^ (23 - L)) in *.
  rewrite (land_ones_mod M 23) by lia. change 255 with (2 ^ 8 - 1). rewrite (land_ones_mod _ 8), Z.mod_small by lia.
  rewrite <- (Z.mod_unique M (2 ^ 23) 1 (M - 2 ^ 23)) by lia. unfold float_word. f_equal.
  rewrite sign_bit by lia. rewrite <- Z.lor_assoc, (lor_fields _ 23) by lia. rewrite lor_fields by lia. lia.
Qed.

Lemma float_word_fields sg e frac :
  0 <= sg <= 1 -> 0 <= e < 256 -> 0 <= frac < 2 ^ 23 ->
  let w := float_word sg e frac in
  - 2 ^ 31 <= w < 2 ^ 31 /\ (w <? 0) = (sg =? 1) /\ Z.land (Z.shiftr w 23) 255 = e /\
  Z.lor (2 ^ 23) (Z.land (2 ^ 23 - 1) w) = 2 ^ 23 + frac.
Proof.
  intros Hs He Hf. cbv zeta. unfold float_word.
  assert (i32 (sg * 2 ^ 31 + e * 2 ^ 23 + frac) = (e - 256 * sg) * 2 ^ 23 + frac) as ->.
  { unfold i32. rewrite <- (Z.mod_unique _ (2 ^ 32) sg (sg * 2 ^ 31 + e * 2 ^ 23 + frac + 2 ^ 31 - sg * 2 ^ 32)); lia. }
  split_and!; [lia|lia|lia| |].
  - rewrite Z.shiftr_div_pow2 by lia. rewrite <- (Z.div_unique _ (2 ^ 23) (e - 256 * sg) frac) by lia.
    rewrite (land_ones_mod _ 8) by lia. symmetry. apply (Z.mod_unique _ _ (- sg)); lia.
  - rewrite Z.land_comm, land_ones_mod by lia. rewrite <- (Z.mod_unique _ (2 ^ 23) (e - 256 * sg) frac) by lia.
    apply (lor_fields 1 23); lia.
Qed.

(** Shifting the fraction back: its value, and no bit lost below it. *)
Lemma mantissa_shift a L s : 0 < a < 2 ^ 24 -> L = Z.log2 a -> s = L - 23 \/ s = L - 22 ->
  pcm_shift (a * 2 ^ (23 - L)) s = a * 2 ^ (s - L + 23).
Proof.
  intros Ha -> Hs. destruct (mantissa_bounds a Ha) as [HL HM]. destruct (Z.lt_ge_cases s 0).
  - replace s with (- - s) at 1 by lia.
    assert (Z.shiftr (a * 2 ^ (23 - Z.log2 a)) (- s) = a * 2 ^ (s - Z.log2 a + 23)) as E.
    { rewrite Z.shiftr_div_pow2 by lia. replace (23 - Z.log2 a) with (s - Z.log2 a + 23 + - s) by lia.
      rewrite Z.pow_add_r, Z.mul_assoc by lia. apply Z.div_mul. apply Z.pow_nonzero; lia. }
    rewrite pcm_shift_right; [done|lia|]. rewrite E. destruct Hs as [-> | ->].
    + replace (_ + 23) with 0 by lia. lia.
    + replace (_ + 23) with 1 by lia. lia.
  - assert (Z.shiftl (a * 2 ^ (23 - Z.log2 a)) s = a * 2 ^ (s - Z.log2 a + 23)) as E.
    { rewrite Z.shiftl_mul_pow2, <- Z.mul_assoc, <- Z.pow_add_r by lia. do 2 f_equal. lia. }
    rewrite pcm_shift_left; [done|lia|]. rewrite E. destruct Hs as [-> | ->].
    + replace (_ + 23) with 0 by lia. lia.
    + replace (_ + 23) with 1 by lia. lia.
Qed.

Lemma f_to_i_zero pow : 0 <= pow <= 31 -> pcm_convert_f_to_i 0 pow = 0.
Proof.
  intros Hp. unfold pcm_convert_f_to_i. change (Z.land (Z.shiftr 0 23) 255) with 0. unfold pcm_shift. cbv zeta.
  replace (0 + pow - 127 - 22 <? 9) with true by lia. replace (0 + pow - 127 - 22 <? -32) with true by lia.
  replace (0 + pow - 127 - 23 <? -32) with true by lia. replace (0 + pow - 127 - 22 >? 32) with false by lia.
  by replace (0 + pow - 127 - 23 >? 32) with false by lia.
Qed.

(** An integer of 24 bits survives single precision, whatever the position
    of its binary point. *)
Lemma f_to_i_to_f x pow :
  Z.abs x < 2 ^ 24 -> 0 <= pow <= 31 -> pcm_convert_f_to_i (pcm_convert_i_to_f x pow) pow = x.
Proof.
  intros Hx Hp. destruct (decide (x = 0)) as [->|Hn].
  { by apply f_to_i_zero. }
  rewrite i_to_f_word by lia. destruct (mantissa_bounds (Z.abs x)) as [HL HM]; [lia|].
  set (a := Z.abs x) in *. set (L := Z.log2 a) in *. set (sg := if x <? 0 then 1 else 0).
  destruct (float_word_fields sg (127 + L - pow) (a * 2 ^ (23 - L) - 2 ^ 23)) as (Hw & Hs & He & Hm);
    [unfold sg; destruct (x <? 0); lia|lia|lia|].
  unfold pcm_convert_f_to_i. set (w := float_word _ _ _) in *. clearbody w. rewrite He, Hm. cbv zeta.
  replace (2 ^ 23 + _) with (a * 2 ^ (23 - L)) by lia. replace (127 + L - pow + pow - 127) with L by lia.
  rewrite !(mantissa_shift a L) by (lia || done). replace (L - 22 <? 9) with true by lia.
  replace (L - 23 - L + 23) with 0 by lia. replace (L - 22 - L + 23) with 1 by lia. simpl orb. cbv iota.
  change 1 with (2 ^ 1 - 1) at 2. rewrite land_ones_mod by lia. rewrite Z.mod_mul by lia.
  rewrite shiftr_sign, shiftr_sign_u32, Hs by lia. rewrite (i32_small (_ + 0)) by lia.
  unfold sg. destruct (x <? 0) eqn:E; simpl Z.eqb; cbv iota.
  - rewrite Z.lxor_m1_r. unfold Z.lnot. rewrite i32_small; lia.
  - rewrite Z.lxor_0_r. rewrite i32_small; lia.
Qed.
