(* ===== verification/PcmFloat.v ===== *)
(** * Floating-point samples as numbers

    [_pcm_convert_f_to_i] and [_pcm_convert_i_to_f] of
    [src/audio/pcm_converter/pcm_converter_generic.c] work on the bit patterns of
    IEEE binary32. Here a pattern has its value, and the two functions are shown to
    round these values. *)

From stdpp Require Import base list numbers option.
From S2P Require Import Prelude Format PcmConvert.

(** ** The value of a pattern *)

Definition float_exponent (w : Z) : Z := (w / 2 ^ 23) mod 2 ^ 8.
Definition float_fraction (w : Z) : Z := w mod 2 ^ 23.

(** The magnitude of a number in units of [2 ^ -149], the smallest positive value of
    the format, of which every finite number is a multiple. An infinity and what is
    not a number have here the value that their exponent and fraction would give,
    which is [2 ^ 128] or more. *)
Definition float_magnitude (w : Z) : Z :=
  if float_exponent w =? 0 then float_fraction w
  else (2 ^ 23 + float_fraction w) * 2 ^ (float_exponent w - 1).

Definition float_value (w : Z) : Z := if w <? 0 then - float_magnitude w else float_magnitude w.

(** The nearest integer to [x / 2 ^ k]; halves are rounded away from 0. *)
Definition nearest_away (x k : Z) : Z := Z.sgn x * nearest (Z.abs x) k.

(** The integer without what 24 significant bits cannot hold, toward 0. *)
Definition trunc24 (x : Z) : Z :=
  let u := 2 ^ Z.max 0 (Z.log2 (Z.abs x) - 23) in Z.quot x u * u.

(** The rounding bit of a magnitude from [2 ^ 30] on is taken from a saturated
    shift and is always set. *)
Definition one_too_far (v : Z) : Z := if (2 ^ 30 <=? Z.abs v) && (Z.abs v <? 2 ^ 31) then v + Z.sgn v else v.

(** ** From integers *)

Lemma PCM_ABS32_s32 x : is_s32 x -> PCM_ABS32 x = Z.abs x.
Proof.
  intros [H1 H2]. destruct (decide (x = - 2 ^ 31)) as [->|]; [reflexivity|]. apply PCM_ABS32_abs. lia.
Qed.

(** The leading 24 bits of a magnitude. *)
Definition leading (a : Z) : Z :=
  if Z.log2 a <=? 23 then a * 2 ^ (23 - Z.log2 a) else a / 2 ^ (Z.log2 a - 23).

Lemma leading_bounds a : 0 < a <= 2 ^ 31 -> 0 <= Z.log2 a <= 31 /\ 2 ^ 23 <= leading a < 2 ^ 24.
Proof.
  intros Ha. pose proof (Z.log2_nonneg a) as HL. assert (Z.log2 a < 32) by (apply Z.log2_lt_pow2; lia).
  split; [lia|]. unfold leading. destruct (Z.leb_spec (Z.log2 a) 23).
  - apply mantissa_bounds. split; [lia|]. apply Z.log2_lt_pow2; lia.
  - destruct (Z.log2_spec a) as [H1 H2]; [lia|]. pose proof (Z.pow_pos_nonneg 2 (Z.log2 a - 23) ltac:(lia) ltac:(lia)).
    replace (Z.log2 a) with (23 + (Z.log2 a - 23)) in H1 by lia. rewrite Z.pow_add_r in H1 by lia.
    replace (Z.succ (Z.log2 a)) with (24 + (Z.log2 a - 23)) in H2 by lia. rewrite Z.pow_add_r in H2 by lia.
    split; [apply Z.div_le_lower_bound; lia|apply Z.div_lt_upper_bound; lia].
Qed.

Lemma leading_shift a : 0 < a <= 2 ^ 31 ->
  Z.land (pcm_shift (i32 a) (23 - Z.log2 a)) (2 ^ 23 - 1) = leading a - 2 ^ 23.
Proof.
  intros Ha. destruct (decide (a = 2 ^ 31)) as [->|Hn]; [reflexivity|].
  destruct (leading_bounds a Ha) as [HL HM]. rewrite i32_small by lia.
  assert (pcm_shift a (23 - Z.log2 a) = leading a) as ->.
  { unfold leading in *. destruct (Z.leb_spec (Z.log2 a) 23).
    - rewrite pcm_shift_left; rewrite ?Z.shiftl_mul_pow2; lia.
    - replace (23 - Z.log2 a) with (- (Z.log2 a - 23)) by lia.
      rewrite pcm_shift_right; rewrite ?Z.shiftr_div_pow2; lia. }
  rewrite land_ones_mod by lia. symmetry. apply (Z.mod_unique _ _ 1); lia.
Qed.

Lemma i_to_f_leading x pow :
  is_s32 x -> x <> 0 -> 0 <= pow <= 31 ->
  pcm_convert_i_to_f x pow = float_word (if x <? 0 then 1 else 0) (127 + Z.log2 (Z.abs x) - pow) (leading (Z.abs x) - 2 ^ 23).
Proof.
  intros Hx Hn Hp. assert (0 < Z.abs x <= 2 ^ 31) as Ha by (unfold is_s32 in Hx; lia).
  destruct (leading_bounds _ Ha) as [HL HM]. unfold pcm_convert_i_to_f. rewrite (proj2 (Z.eqb_neq _ _) Hn). cbv zeta.
  rewrite PCM_ABS32_s32 by done. unfold clz. set (L := Z.log2 (Z.abs x)) in *.
  replace (127 + 31 - (31 - L) - pow) with (127 + L - pow) by lia. replace (23 - 31 + (31 - L)) with (23 - L) by lia.
  rewrite leading_shift by done. change 255 with (2 ^ 8 - 1). rewrite (land_ones_mod _ 8), Z.mod_small by lia.
  unfold float_word. f_equal. rewrite sign_bit by (unfold is_s32 in Hx; lia).
  rewrite <- Z.lor_assoc, (lor_fields _ 23) by lia. rewrite lor_fields by lia. lia.
Qed.

Lemma float_word_value sg e frac :
  0 <= sg <= 1 -> 1 <= e < 256 -> 0 <= frac < 2 ^ 23 ->
  float_value (float_word sg e frac) = (if sg =? 1 then -1 else 1) * ((2 ^ 23 + frac) * 2 ^ (e - 1)).
Proof.
  intros Hs He Hf. destruct (float_word_fields sg e frac) as (_ & Hw & Hee & Hm); [lia..|].
  unfold float_value, float_magnitude, float_exponent, float_fraction. set (w := float_word sg e frac) in *. clearbody w.
  change 255 with (2 ^ 8 - 1) in Hee. rewrite land_ones_mod, Z.shiftr_div_pow2 in Hee by lia. rewrite Hee.
  rewrite Z.land_comm, land_ones_mod in Hm by lia. change (2 ^ 23) with (Z.shiftl 1 23) in Hm at 1.
  rewrite lor_fields in Hm by (lia || by apply Z.mod_pos_bound). rewrite Hw.
  rewrite (proj2 (Z.eqb_neq e 0)) by lia. replace (w mod 2 ^ 23) with frac by lia. destruct (sg =? 1); lia.
Qed.

Lemma leading_trunc x : x <> 0 ->
  (if x <? 0 then -1 else 1) * (leading (Z.abs x) * 2 ^ Z.log2 (Z.abs x)) = trunc24 x * 2 ^ 23.
Proof.
  intros Hn. unfold trunc24, leading. set (L := Z.log2 (Z.abs x)). pose proof (Z.log2_nonneg (Z.abs x)) as HL. fold L in HL.
  assert (x = (if x <? 0 then -1 else 1) * Z.abs x) as Ex by (destruct (Z.ltb_spec x 0); lia).
  destruct (Z.leb_spec L 23).
  - rewrite Z.max_l, Z.quot_1_r, Z.mul_1_r by lia. rewrite <- Z.mul_assoc, <- Z.pow_add_r by lia.
    replace (23 - L + L) with 23 by lia. lia.
  - rewrite Z.max_r by lia. replace L with (L - 23 + 23) at 2 by lia. rewrite Z.pow_add_r by lia.
    pose proof (Z.pow_pos_nonneg 2 (L - 23) ltac:(lia) ltac:(lia)) as Hu. set (u := 2 ^ (L - 23)) in *.
    assert (Z.quot x u = (if x <? 0 then -1 else 1) * (Z.abs x / u)) as ->; [|lia].
    rewrite Ex at 1. destruct (x <? 0).
    + replace (-1 * Z.abs x) with (- Z.abs x) by lia. rewrite Z.quot_opp_l, Z.quot_div_nonneg by lia. lia.
    + rewrite !Z.mul_1_l. apply Z.quot_div_nonneg; lia.
Qed.

(** The float of an integer has its leading 24 bits. *)
Lemma i_to_f_value x pow :
  is_s32 x -> 0 <= pow <= 31 ->
  float_value (pcm_convert_i_to_f x pow) = trunc24 x * 2 ^ (149 - pow).
Proof.
  intros Hx Hp. destruct (decide (x = 0)) as [->|Hn]; [reflexivity|].
  assert (0 < Z.abs x <= 2 ^ 31) as Ha by (unfold is_s32 in Hx; lia). destruct (leading_bounds _ Ha) as [HL HM].
  rewrite i_to_f_leading by done. rewrite float_word_value by (destruct (x <? 0); lia).
  replace (2 ^ 23 + _) with (leading (Z.abs x)) by lia.
  replace (149 - pow) with (23 + (126 - pow)) by lia. rewrite Z.pow_add_r by lia.
  rewrite (Z.mul_assoc (trunc24 x)), <- leading_trunc by done.
  replace (127 + Z.log2 (Z.abs x) - pow - 1) with (Z.log2 (Z.abs x) + (126 - pow)) by lia.
  rewrite Z.pow_add_r by lia. destruct (x <? 0); simpl Z.eqb; cbv iota; lia.
Qed.

Lemma i_to_f_sign x pow : is_s32 x -> 0 <= pow <= 31 -> (pcm_convert_i_to_f x pow <? 0) = (x <? 0).
Proof.
  intros Hx Hp. destruct (decide (x = 0)) as [->|Hn]; [reflexivity|].
  assert (0 < Z.abs x <= 2 ^ 31) as Ha by (unfold is_s32 in Hx; lia). destruct (leading_bounds _ Ha) as [HL HM].
  rewrite i_to_f_leading by done.
  destruct (float_word_fields (if x <? 0 then 1 else 0) (127 + Z.log2 (Z.abs x) - pow) (leading (Z.abs x) - 2 ^ 23))
    as (_ & -> & _); [destruct (x <? 0); lia|lia|lia|]. by destruct (x <? 0).
Qed.

Lemma trunc24_small x : Z.abs x < 2 ^ 24 -> trunc24 x = x.
Proof.
  intros Hx. unfold trunc24. rewrite Z.max_l; [rewrite Z.quot_1_r; lia|].
  destruct (decide (x = 0)) as [->|]; [simpl; lia|]. enough (Z.log2 (Z.abs x) < 24) by lia. apply Z.log2_lt_pow2; lia.
Qed.

(** ** To integers *)

Lemma nearest_scaled a j k : 0 <= j < k -> nearest (a * 2 ^ j) k = nearest a (k - j).
Proof.
  intros Hj. unfold nearest. replace (2 ^ k) with (2 ^ (k - j) * 2 ^ j) by (rewrite <- Z.pow_add_r by lia; f_equal; lia).
  replace (2 ^ (k - 1)) with (2 ^ (k - j - 1) * 2 ^ j) by (rewrite <- Z.pow_add_r by lia; f_equal; lia).
  rewrite <- Z.mul_add_distr_r. apply Z.div_mul_cancel_r; apply Z.pow_nonzero; lia.
Qed.

Lemma nearest_exact a j k : 1 <= k <= j -> nearest (a * 2 ^ j) k = a * 2 ^ (j - k).
Proof.
  intros Hj. rewrite <- (nearest_shiftl (a * 2 ^ (j - k)) k) by lia. f_equal.
  rewrite Z.shiftl_mul_pow2, <- Z.mul_assoc, <- Z.pow_add_r by lia. do 2 f_equal. lia.
Qed.

Lemma nearest_tiny a k : 0 <= a < 2 ^ 24 -> 25 <= k -> nearest a k = 0.
Proof.
  intros Ha Hk. unfold nearest. apply Z.div_small. pose proof (Z.pow_le_mono_r 2 24 (k - 1)).
  assert (2 ^ k = 2 * 2 ^ (k - 1)) by (rewrite <- Z.pow_succ_r by lia; f_equal; lia). lia.
Qed.

(** The shifted magnitude and the bit below it. *)
Lemma nearest_bits a k : 1 <= k -> Z.shiftr a k + Z.land (Z.shiftr a (k - 1)) 1 = nearest a k.
Proof.
  intros Hk. rewrite <- shift_round by done. change 1 with (2 ^ 1 - 1) at 2. rewrite land_ones_mod by lia.
  replace k with (k - 1 + 1) at 1 by lia. rewrite <- Z.shiftr_shiftr by lia.
  set (b := Z.shiftr a (k - 1)). rewrite !Z.shiftr_div_pow2 by lia. change (2 ^ 1) with 2. mlia.
Qed.

(** What the code makes of a mantissa and the exponent of its lowest bit. *)
Definition shift_rounded (neg : bool) (m s : Z) : Z :=
  if (s + 1 <? 9) || neg then i32 (pcm_shift m s + Z.land (pcm_shift m (s + 1)) 1) else pcm_shift m s.

Lemma pcm_shift_far m s : 0 <= m < 2 ^ 24 -> s <= - 24 -> pcm_shift m s = 0.
Proof.
  intros Hm Hs. unfold pcm_shift. cbv zeta. replace (s >? 32) with false by lia.
  assert (forall a, 24 <= a -> Z.shiftr m a = 0) as H0.
  { intros a Ha. rewrite Z.shiftr_div_pow2 by lia. apply Z.div_small. pose proof (Z.pow_le_mono_r 2 24 a). lia. }
  destruct (s <? -32); [change (-32 >=? 0) with false|replace (s >=? 0) with false by lia]; cbv iota; by rewrite H0 by lia.
Qed.

Lemma pcm_shift_down m s : 0 <= m < 2 ^ 24 -> s <= 0 -> pcm_shift m s = Z.shiftr m (- s).
Proof.
  intros Hm Hs. destruct (Z.le_gt_cases s (-24)).
  { rewrite pcm_shift_far by done. rewrite Z.shiftr_div_pow2 by lia. symmetry. apply Z.div_small.
    pose proof (Z.pow_le_mono_r 2 24 (- s)). lia. }
  destruct (decide (s = 0)) as [->|]; [by rewrite pcm_shift_left; rewrite ?Z.shiftl_0_r; try lia|].
  replace s with (- - s) at 1 by lia. apply pcm_shift_right; [lia|]. rewrite Z.shiftr_div_pow2 by lia.
  pose proof (Z.pow_pos_nonneg 2 (- s) ltac:(lia) ltac:(lia)). split; [apply Z.div_pos; lia|].
  apply Z.div_le_upper_bound; [lia|]. nia.
Qed.

Lemma pcm_shift_up m s : 2 ^ 23 <= m < 2 ^ 24 -> 0 <= s -> pcm_shift m s = Z.min (m * 2 ^ s) INT32_MAX.
Proof.
  intros Hm Hs. assert (forall t, 8 <= t -> 2 ^ 31 <= m * 2 ^ t) as Hbig.
  { intros t Ht. pose proof (Z.pow_le_mono_r 2 8 t). nia. }
  unfold pcm_shift. cbv zeta. replace (s <? -32) with false by lia. destruct (Z.gtb_spec s 32).
  - change (32 >=? 0) with true. cbv iota. rewrite Z.shiftl_mul_pow2 by lia. specialize (Hbig s ltac:(lia)) as H1.
    specialize (Hbig 32 ltac:(lia)) as H2. rewrite (proj2 (Z.gtb_lt _ _)) by lia. rewrite Z.min_r by lia. done.
  - replace (s >=? 0) with true by lia. rewrite Z.shiftl_mul_pow2 by lia. case_if; zbool.
    + rewrite Z.min_r by lia. done.
    + rewrite Z.min_l by lia. apply i32_small. pose proof (Z.pow_pos_nonneg 2 s). nia.
Qed.

Lemma shift_rounded_small m s : 2 ^ 23 <= m < 2 ^ 24 -> s < 0 ->
  forall neg, shift_rounded neg m s = nearest m (- s) /\ 0 <= nearest m (- s) <= 2 ^ 23.
Proof.
  intros Hm Hs neg. unfold shift_rounded. rewrite (proj2 (Z.ltb_lt _ _)) by lia. simpl.
  rewrite !pcm_shift_down by lia. replace (- (s + 1)) with (- s - 1) by lia. rewrite nearest_bits by lia.
  assert (0 <= nearest m (- s) <= 2 ^ 23) as Hr; [|split; [apply i32_small; lia|done]].
  pose proof (nearest_bounds m (- s) ltac:(lia)) as [B1 B2].
  assert (2 ^ (- s) = 2 * 2 ^ (- s - 1)) as E by (rewrite <- Z.pow_succ_r by lia; f_equal; lia). rewrite E in *.
  pose proof (Z.pow_pos_nonneg 2 (- s - 1) ltac:(lia) ltac:(lia)). set (h := 2 ^ (- s - 1)) in *. nia.
Qed.

Lemma shift_rounded_mid m s : 2 ^ 23 <= m < 2 ^ 24 -> 0 <= s <= 7 ->
  forall neg, shift_rounded neg m s = one_too_far (m * 2 ^ s) /\ 0 <= m * 2 ^ s <= 2 ^ 31 - 128.
Proof.
  intros Hm Hs neg. unfold shift_rounded. rewrite (proj2 (Z.ltb_lt _ _)) by lia. simpl. rewrite !pcm_shift_up by lia.
  assert (s = 7 \/ 0 <= s <= 6) as [-> |Hs'] by lia.
  - change (2 ^ (7 + 1)) with 256. change (2 ^ 7) with 128. rewrite Z.min_l, Z.min_r by lia.
    change (Z.land INT32_MAX 1) with 1. rewrite i32_small by lia. split; [|lia]. unfold one_too_far.
    rewrite Z.abs_eq by lia. rewrite (proj2 (Z.leb_le _ _)), (proj2 (Z.ltb_lt _ _)) by lia. simpl. lia.
  - assert (1 <= 2 ^ s <= 64) as Hp by (split; [apply (Z.pow_le_mono_r 2 0 s); lia|apply (Z.pow_le_mono_r 2 s 6); lia]).
    rewrite Z.pow_add_r by lia. rewrite !Z.min_l by nia. change 1 with (2 ^ 1 - 1) at 2. rewrite land_ones_mod by lia.
    rewrite Z.mul_assoc, Z.mod_mul, Z.add_0_r by done. rewrite i32_small by nia. split; [|nia]. unfold one_too_far.
    rewrite Z.abs_eq by nia. by rewrite (proj2 (Z.leb_gt _ _)) by nia.
Qed.

Lemma shift_rounded_big m s neg : 2 ^ 23 <= m < 2 ^ 24 -> 8 <= s ->
  shift_rounded neg m s = (if neg then - 2 ^ 31 else INT32_MAX) /\ 2 ^ 31 <= m * 2 ^ s.
Proof.
  intros Hm Hs. unfold shift_rounded. rewrite (proj2 (Z.ltb_ge _ _)) by lia. simpl.
  assert (forall t, 8 <= t -> 2 ^ 31 <= m * 2 ^ t) as Hbig.
  { intros t Ht. pose proof (Z.pow_le_mono_r 2 8 t). nia. }
  split; [|by apply Hbig]. rewrite !pcm_shift_up, !Z.min_r by (lia || (specialize (Hbig (s + 1)); lia) || (specialize (Hbig s); lia)).
  by destruct neg.
Qed.

Definition with_sign (neg : bool) (v : Z) : Z := if neg then - v else v.

Lemma f_to_i_shift w pow :
  is_s32 w -> pcm_convert_f_to_i w pow =
  i32 (with_sign (w <? 0) (shift_rounded (w <? 0) (2 ^ 23 + float_fraction w) (float_exponent w + pow - 150))).
Proof.
  intros Hw. pose proof (Z.mod_pos_bound w (2 ^ 23) ltac:(lia)) as Hf.
  assert (Z.land (Z.shiftr w 23) 255 = float_exponent w) as He.
  { rewrite (land_ones_mod _ 8), Z.shiftr_div_pow2 by lia. reflexivity. }
  assert (Z.lor (2 ^ 23) (Z.land (2 ^ 23 - 1) w) = 2 ^ 23 + float_fraction w) as Hm.
  { rewrite (Z.land_comm _ w), land_ones_mod by lia. rewrite (lor_fields 1 23) by lia. reflexivity. }
  unfold pcm_convert_f_to_i, shift_rounded, with_sign. rewrite He, Hm.
  rewrite sign_bit, shiftr_sign, shiftr_sign_u32 by (unfold is_s32 in Hw; lia).
  generalize (float_exponent w) as e, (2 ^ 23 + float_fraction w) as m. intros e m. cbv zeta.
  replace (e + pow - 127 - 23) with (e + pow - 150) by lia. replace (e + pow - 127 - 22) with (e + pow - 150 + 1) by lia.
  destruct (w <? 0).
  - assert ((Z.shiftl 1 31 =? 2 ^ 31) = true) as -> by reflexivity. rewrite !orb_true_r, Z.lxor_m1_r.
    unfold Z.lnot. f_equal. lia.
  - assert ((Z.shiftl 0 31 =? 2 ^ 31) = false) as -> by reflexivity. rewrite !orb_false_r, Z.lxor_0_r.
    f_equal. lia.
Qed.

Lemma nearest_magnitude w n : 118 <= n <= 149 ->
  nearest (float_magnitude w) n =
  (let m := 2 ^ 23 + float_fraction w in let s := float_exponent w - 1 - n in
   if float_exponent w =? 0 then 0 else if s <? 0 then nearest m (- s) else m * 2 ^ s).
Proof.
  intros Hn. cbv zeta. unfold float_magnitude. pose proof (Z.mod_pos_bound w (2 ^ 23) ltac:(lia)) as Hf. fold (float_fraction w) in Hf.
  pose proof (Z.mod_pos_bound (w / 2 ^ 23) (2 ^ 8) ltac:(lia)) as He. fold (float_exponent w) in He.
  destruct (Z.eqb_spec (float_exponent w) 0); [apply nearest_tiny; lia|]. destruct (Z.ltb_spec (float_exponent w - 1 - n) 0).
  - rewrite nearest_scaled by lia. f_equal. lia.
  - rewrite nearest_exact by lia. done.
Qed.

Lemma nearest_away_value w n : 0 <= float_magnitude w -> 1 <= n ->
  nearest_away (float_value w) n = with_sign (w <? 0) (nearest (float_magnitude w) n).
Proof.
  intros Hm Hn. unfold nearest_away, float_value, with_sign. destruct (decide (float_magnitude w = 0)) as [E|E].
  - rewrite E. assert (nearest 0 n = 0) as E0 by (rewrite <- (Z.shiftl_0_l n) at 1; by apply nearest_shiftl).
    by destruct (w <? 0); simpl; rewrite E0.
  - destruct (w <? 0); rewrite ?Z.abs_opp, Z.abs_eq, ?Z.sgn_opp, Z.sgn_pos by lia; lia.
Qed.

(** The integer of a float is its value, rounded and saturated; from [2 ^ 30] to
    [2 ^ 31] it is one too far from 0. *)
Lemma f_to_i_value w pow :
  is_s32 w -> 0 <= pow <= 31 ->
  pcm_convert_f_to_i w pow = clamp (- 2 ^ 31) (2 ^ 31 - 1) (one_too_far (nearest_away (float_value w) (149 - pow))).
Proof.
  intros Hw Hp. pose proof (Z.mod_pos_bound w (2 ^ 23) ltac:(lia)) as Hf. fold (float_fraction w) in Hf.
  pose proof (Z.mod_pos_bound (w / 2 ^ 23) (2 ^ 8) ltac:(lia)) as He. fold (float_exponent w) in He.
  rewrite f_to_i_shift by done. rewrite nearest_away_value; [|unfold float_magnitude; case_if; zbool; [lia|]; pose proof (Z.pow_nonneg 2 (float_exponent w - 1)); nia|lia].
  rewrite nearest_magnitude by lia. cbv zeta. replace (float_exponent w - 1 - (149 - pow)) with (float_exponent w + pow - 150) by lia.
  set (m := 2 ^ 23 + float_fraction w). set (s := float_exponent w + pow - 150). assert (2 ^ 23 <= m < 2 ^ 24) as Hm by lia.
  clearbody m. destruct (Z.ltb_spec s 0) as [Hs|Hs].
  - assert ((if float_exponent w =? 0 then 0 else nearest m (- s)) = nearest m (- s)) as ->.
    { destruct (Z.eqb_spec (float_exponent w) 0); [|done]. symmetry. apply nearest_tiny; lia. }
    destruct (shift_rounded_small m s Hm Hs (w <? 0)) as [-> Hr]. set (r := nearest m (- s)) in *. clearbody r.
    rewrite i32_small by (unfold with_sign; case_if; lia). unfold one_too_far, clamp, with_sign. destruct (w <? 0); case_if; lia.
  - rewrite (proj2 (Z.eqb_neq _ _)) by lia. destruct (Z.le_gt_cases s 7) as [H7|H8].
    + destruct (shift_rounded_mid m s Hm (conj Hs H7) (w <? 0)) as [-> Hr]. set (r := m * 2 ^ s) in *. clearbody r.
      rewrite i32_small by (unfold with_sign, one_too_far; repeat case_if; lia).
      unfold one_too_far, clamp, with_sign. destruct (w <? 0); repeat case_if; lia.
    + destruct (shift_rounded_big m s (w <? 0) Hm ltac:(lia)) as [-> Hr]. set (r := m * 2 ^ s) in *. clearbody r.
      unfold one_too_far, clamp, with_sign. destruct (w <? 0).
      * assert (i32 (- - 2 ^ 31) = - 2 ^ 31) as -> by reflexivity. case_if; lia.
      * assert (i32 INT32_MAX = INT32_MAX) as -> by reflexivity. case_if; lia.
Qed.
