(* ===== verification/PcmThms.v ===== *)
(** * What the PCM converters do to the samples

    The table of [src/audio/pcm_converter/pcm_converter_generic.c] holds, for each
    pair of different formats, a function that takes every sample to the one that
    the two formats ask for; and a conversion to a format with at least as many
    significant bits loses nothing. *)

From stdpp Require Import base list numbers option.
From S2P Require Import Prelude AudioStream StreamCopy Format SampleLoop PcmConvert PcmFloat.

(** ** Formats and the value of a sample *)

Inductive pcm_fmt := FMT_S16 | FMT_S24 | FMT_S32 | FMT_FLOAT.

#[export] Instance pcm_fmt_eq_dec : EqDecision pcm_fmt.
Proof. solve_decision. Defined.

Definition fmt_code (f : pcm_fmt) : Z :=
  match f with
  | FMT_S16 => SOF_IPC_FRAME_S16_LE
  | FMT_S24 => SOF_IPC_FRAME_S24_4LE
  | FMT_S32 => SOF_IPC_FRAME_S32_LE
  | FMT_FLOAT => SOF_IPC_FRAME_FLOAT
  end.

Definition fmt_width (f : pcm_fmt) : nat := match f with FMT_S16 => 2 | _ => 4 end.

(** Bits after the binary point of an integer format. *)
Definition fmt_frac (f : pcm_fmt) : Z := match f with FMT_S16 => 15 | FMT_S24 => 23 | _ => 31 end.

(** The integer in a pattern of an integer format; the top byte of a 24-bit sample
    does not count. *)
Definition fmt_value (f : pcm_fmt) (x : Z) : Z :=
  match f with FMT_S16 => i16 x | FMT_S24 => sign_extend_s24 (i32 x) | _ => i32 x end.

Definition fmt_clamp (f : pcm_fmt) (v : Z) : Z := clamp (- 2 ^ fmt_frac f) (2 ^ fmt_frac f - 1) v.

(** The sample [y] stands for the sample [x] in another format. Between integers,
    more fraction bits are zeros, fewer are rounded to the nearest value in range.
    A float of 16 or 24 bits is exact, a float of 32 bits has the leading 24 bits of
    the integer. The integer of a float is the nearest one in range, halves away
    from 0; but a 32-bit integer from [2 ^ 30] to [2 ^ 31] is one too far from 0. *)
Definition stands_for (fi fo : pcm_fmt) (x y : Z) : Prop :=
  match fi, fo with
  | FMT_FLOAT, FMT_S32 => y = fmt_clamp FMT_S32 (one_too_far (nearest_away (float_value (i32 x)) (149 - 31)))
  | FMT_FLOAT, _ => y = fmt_clamp fo (nearest_away (float_value (i32 x)) (149 - fmt_frac fo))
  | FMT_S32, FMT_FLOAT =>
      is_s32 y /\ float_value y = trunc24 (i32 x) * 2 ^ (149 - 31) /\ (y <? 0) = (i32 x <? 0)
  | _, FMT_FLOAT =>
      is_s32 y /\ float_value y = fmt_value fi x * 2 ^ (149 - fmt_frac fi) /\ (y <? 0) = (fmt_value fi x <? 0)
  | _, _ => y =
      if fmt_frac fi <=? fmt_frac fo then Z.shiftl (fmt_value fi x) (fmt_frac fo - fmt_frac fi)
      else fmt_clamp fo (nearest (fmt_value fi x) (fmt_frac fi - fmt_frac fo))
  end.

(** The sample that the functions of the table compute. *)
Definition sample_spec (fi fo : pcm_fmt) (x : Z) : Z :=
  match fi, fo with
  | FMT_FLOAT, _ => fmt_clamp fo (pcm_convert_f_to_i (i32 x) (fmt_frac fo))
  | _, FMT_FLOAT => pcm_convert_i_to_f (fmt_value fi x) (fmt_frac fi)
  | _, _ =>
      if fmt_frac fi <=? fmt_frac fo then Z.shiftl (fmt_value fi x) (fmt_frac fo - fmt_frac fi)
      else fmt_clamp fo (nearest (fmt_value fi x) (fmt_frac fi - fmt_frac fo))
  end.

Definition pattern (f : pcm_fmt) (x : Z) : Z := x mod 2 ^ (8 * Z.of_nat (fmt_width f)).

(** ** The functions on one sample *)

Lemma fmt_clamp_s32 v : is_s32 v -> fmt_clamp FMT_S32 v = v.
Proof. unfold is_s32, fmt_clamp, clamp. simpl. lia. Qed.

Lemma f_to_i_range x pow : is_s32 (pcm_convert_f_to_i x pow).
Proof. apply i32_range. Qed.

(** A shift of the 32-bit pattern drops the byte that the sign extension replaces. *)
Lemma s24_to_s32_value x : pattern FMT_S32 (s24_to_s32 x) = pattern FMT_S32 (Z.shiftl (sign_extend_s24 (i32 x)) 8).
Proof.
  unfold pattern, s24_to_s32. rewrite <- sign_extend_shiftl. symmetry. apply (i32_mod (Z.shiftl (i32 x) 8)).
Qed.

Lemma converts_ext sb db f g conv :
  (forall x, f x mod 2 ^ (8 * Z.of_nat db) = g x mod 2 ^ (8 * Z.of_nat db)) -> converts sb db f conv -> converts sb db g conv.
Proof.
  intros E H m source sink n Ws Wk Hd E1 E2 A1 A2 L1 L2.
  destruct (H m source sink n Ws Wk Hd E1 E2 A1 A2 L1 L2) as (m' & Hc & Hs & Hm). exists m'. split_and!; [done| |done].
  rewrite Hs. apply list_fmap_ext. intros _ x _. apply E.
Qed.

Lemma table_converts (fi fo : pcm_fmt) :
  fi <> fo ->
  exists conv, pcm_get_conversion_function (fmt_code fi) (fmt_code fo) = Some conv /\
    converts (fmt_width fi) (fmt_width fo) (sample_spec fi fo) conv.
Proof.
  intros Hne.
  destruct fi, fo; try done; (eexists; split; [reflexivity|]); simpl fmt_width;
    (eapply converts_ext; [|first [apply pcm_convert_converts; lia | apply as_linear_converts; lia]]);
    intros x; unfold sample_spec; simpl Z.leb; cbv iota; unfold fmt_clamp; simpl fmt_frac; simpl fmt_value;
    unfold s24_to_s16, s32_to_s16, s32_to_s24, f_to_s16, f_to_s24, f_to_s32;
    rewrite ?sat_int16_clamp, ?sat_int24_clamp, ?Q_SHIFT_RND_nearest by lia; try reflexivity.
  - apply s24_to_s32_value.
  - pose proof (fmt_clamp_s32 _ (f_to_i_range (i32 x) 31)) as E. unfold fmt_clamp in E. simpl fmt_frac in E. by rewrite E.
Qed.

Lemma i_to_f_range x pow : is_s32 (pcm_convert_i_to_f x pow).
Proof. unfold pcm_convert_i_to_f. case_if; [unfold is_s32; lia|apply i32_range]. Qed.

Lemma fmt_value_range f x : - 2 ^ fmt_frac f <= fmt_value f x < 2 ^ fmt_frac f.
Proof. destruct f; simpl; [apply i16_range|apply sign_extend_range|apply i32_range|apply i32_range]. Qed.

Lemma clamp_clamp lo hi a b v : a <= lo -> lo <= hi -> hi <= b -> clamp lo hi (clamp a b v) = clamp lo hi v.
Proof. unfold clamp. lia. Qed.

(** The narrower formats saturate where the last bit is wrong. *)
Lemma clamp_one_too_far k v : 0 <= k <= 23 -> clamp (- 2 ^ k) (2 ^ k - 1) (one_too_far v) = clamp (- 2 ^ k) (2 ^ k - 1) v.
Proof.
  intros Hk. pose proof (Z.pow_le_mono_r 2 k 23). pose proof (Z.pow_pos_nonneg 2 k).
  unfold one_too_far, clamp. case_if; [|done]. lia.
Qed.

Lemma f_to_i_stands_for fo x : fmt_frac fo <= 23 ->
  fmt_clamp fo (pcm_convert_f_to_i (i32 x) (fmt_frac fo)) =
  fmt_clamp fo (nearest_away (float_value (i32 x)) (149 - fmt_frac fo)).
Proof.
  intros Hf. assert (15 <= fmt_frac fo) by (destruct fo; simpl; lia). rewrite f_to_i_value by (apply i32_range || lia).
  pose proof (Z.pow_le_mono_r 2 (fmt_frac fo) 23). pose proof (Z.pow_pos_nonneg 2 (fmt_frac fo)). unfold fmt_clamp.
  rewrite clamp_clamp by lia. apply clamp_one_too_far. lia.
Qed.

Lemma i_to_f_stands_for fi x : fmt_frac fi <= 23 ->
  float_value (pcm_convert_i_to_f (fmt_value fi x) (fmt_frac fi)) = fmt_value fi x * 2 ^ (149 - fmt_frac fi) /\
  (pcm_convert_i_to_f (fmt_value fi x) (fmt_frac fi) <? 0) = (fmt_value fi x <? 0).
Proof.
  intros Hf. assert (15 <= fmt_frac fi) by (destruct fi; simpl; lia). pose proof (fmt_value_range fi x) as Hv.
  pose proof (Z.pow_le_mono_r 2 (fmt_frac fi) 23). assert (is_s32 (fmt_value fi x)) by (unfold is_s32; lia).
  rewrite i_to_f_sign, i_to_f_value, trunc24_small by (done || lia). done.
Qed.

Lemma s32_to_f_stands_for x :
  float_value (pcm_convert_i_to_f (i32 x) 31) = trunc24 (i32 x) * 2 ^ (149 - 31) /\
  (pcm_convert_i_to_f (i32 x) 31 <? 0) = (i32 x <? 0).
Proof. rewrite i_to_f_sign, i_to_f_value by (apply i32_range || lia). done. Qed.

Lemma f_to_s32_stands_for x :
  fmt_clamp FMT_S32 (pcm_convert_f_to_i (i32 x) 31) =
  fmt_clamp FMT_S32 (one_too_far (nearest_away (float_value (i32 x)) (149 - 31))).
Proof.
  unfold fmt_clamp. change (fmt_frac FMT_S32) with 31. rewrite f_to_i_value by (apply i32_range || lia). apply clamp_clamp; lia.
Qed.

Lemma spec_stands_for fi fo x : fi <> fo -> stands_for fi fo x (sample_spec fi fo x).
Proof.
  intros Hn. destruct fi, fo; try done; unfold stands_for, sample_spec;
    first [split; [apply i_to_f_range|]; first [exact (s32_to_f_stands_for x) | apply i_to_f_stands_for; done]
          |exact (f_to_s32_stands_for x)|apply f_to_i_stands_for; done].
Qed.

(** C29: For every two different sample formats the table has a conversion function,
    and it turns each sample of the source into the sample that stands for it in the
    format of the sink, in order, across the wraps of both rings, and writes no other
    byte. The value of a float is that of its IEEE pattern, an infinity and what is
    not a number counting as beyond the range: integers are rounded to the nearest
    value in range, halves up, and floats likewise with halves away from 0, except
    that a 32-bit result of magnitude [2 ^ 30] or more that is in range is one too
    far from 0; floats of 16- and 24-bit samples are exact, those of 32-bit samples
    are truncated to 24 significant bits. *)
Theorem pcm_table_converts (fi fo : pcm_fmt) :
  fi <> fo ->
  exists conv f, pcm_get_conversion_function (fmt_code fi) (fmt_code fo) = Some conv /\
    converts (fmt_width fi) (fmt_width fo) f conv /\ forall x, stands_for fi fo x (f x).
Proof.
  intros Hn. destruct (table_converts fi fo Hn) as (conv & E & Hc). exists conv, (sample_spec fi fo).
  split; [done|]. split; [done|]. intros x. by apply spec_stands_for.
Qed.

(** The float 0.5 becomes [2 ^ 30 + 1]. *)
Example f_to_s32_one_too_far : f_to_s32 0x3F000000 = 0x40000001 /\ f_to_s32 0xBF000000 = - 0x40000001.
Proof. vm_compute. done. Qed.

(** ** Round trips *)

(** Every value of the first format has an exact value in the second. *)
Definition lossless (fi fm : pcm_fmt) : bool :=
  match fi, fm with
  | FMT_S16, (FMT_S24 | FMT_S32 | FMT_FLOAT) | FMT_S24, (FMT_S32 | FMT_FLOAT) => true
  | _, _ => false
  end.

Lemma fmt_value_pattern f v : - 2 ^ fmt_frac f <= v < 2 ^ fmt_frac f -> fmt_value f (pattern f v) = v.
Proof.
  destruct f; simpl; intros Hv.
  - change (pattern _ v) with (v mod 2 ^ 16). rewrite i16_pattern. by apply i16_small.
  - change (pattern _ v) with (v mod 2 ^ 32). rewrite i32_pattern, i32_small by lia. by apply sign_extend_small.
  - change (pattern _ v) with (v mod 2 ^ 32). rewrite i32_pattern. by apply i32_small.
  - change (pattern _ v) with (v mod 2 ^ 32). rewrite i32_pattern. by apply i32_small.
Qed.

Lemma fmt_clamp_in f v : - 2 ^ fmt_frac f <= v < 2 ^ fmt_frac f -> fmt_clamp f v = v.
Proof. unfold fmt_clamp, clamp. lia. Qed.

(** To more fraction bits and back. *)
Lemma widen_round_trip fi fm x :
  fmt_frac fi < fmt_frac fm ->
  fmt_clamp fi (nearest (fmt_value fm (pattern fm (Z.shiftl (fmt_value fi x) (fmt_frac fm - fmt_frac fi))))
    (fmt_frac fm - fmt_frac fi)) = fmt_value fi x.
Proof.
  intros Hf. pose proof (fmt_value_range fi x) as Hr. rewrite fmt_value_pattern.
  - rewrite nearest_shiftl by lia. by apply fmt_clamp_in.
  - rewrite Z.shiftl_mul_pow2 by lia. assert (0 <= fmt_frac fi) by (destruct fi; simpl; lia).
    replace (2 ^ fmt_frac fm) with (2 ^ fmt_frac fi * 2 ^ (fmt_frac fm - fmt_frac fi)) by (rewrite <- Z.pow_add_r by lia; f_equal; lia).
    pose proof (Z.pow_pos_nonneg 2 (fmt_frac fm - fmt_frac fi)). nia.
Qed.

Lemma float_round_trip fi x :
  fmt_frac fi <= 23 -> fmt_clamp fi (pcm_convert_f_to_i
    (i32 (pattern FMT_FLOAT (pcm_convert_i_to_f (fmt_value fi x) (fmt_frac fi)))) (fmt_frac fi)) = fmt_value fi x.
Proof.
  intros Hf. pose proof (fmt_value_range fi x) as Hr. unfold pattern. simpl fmt_width.
  change (8 * Z.of_nat 4) with 32. rewrite i32_pattern, (i32_small (pcm_convert_i_to_f _ _)) by apply i_to_f_range.
  assert (0 <= fmt_frac fi) by (destruct fi; simpl; lia). pose proof (Z.pow_le_mono_r 2 (fmt_frac fi) 23).
  rewrite f_to_i_to_f by lia. by apply fmt_clamp_in.
Qed.

Lemma spec_round_trip fi fm x :
  lossless fi fm = true -> sample_spec fm fi (pattern fm (sample_spec fi fm x)) = fmt_value fi x.
Proof.
  intros H. destruct fi, fm; try done; unfold sample_spec; simpl Z.leb; cbv iota;
    first [apply float_round_trip; simpl; lia | apply widen_round_trip; simpl; lia].
Qed.

Lemma fmt_sample_bytes s f : s_frame_fmt s = fmt_code f -> audio_stream_sample_bytes s = Z.of_nat (fmt_width f).
Proof. unfold audio_stream_sample_bytes. intros ->. by destruct f. Qed.

(** C38: Samples converted to a format with at least as many significant bits,
    handed over through an empty buffer, and converted back are the samples of the
    source; of 24-bit samples the unused top byte comes back as sign. *)
Theorem pcm_round_trip (fi fm : pcm_fmt) (m : mem) (source mid out : audio_stream) (n : nat) :
  lossless fi fm = true ->
  s_frame_fmt source = fmt_code fi -> s_frame_fmt mid = fmt_code fm -> s_frame_fmt out = fmt_code fi ->
  stream_wf source -> stream_wf mid -> stream_wf out -> disjoint_rings source mid -> disjoint_rings mid out ->
  aligned source (s_r_ptr source) (Z.of_nat (fmt_width fi)) -> aligned mid (s_w_ptr mid) (Z.of_nat (fmt_width fm)) ->
  aligned out (s_w_ptr out) (Z.of_nat (fmt_width fi)) ->
  s_avail mid = 0 -> (0 < n)%nat ->
  Z.of_nat (fmt_width fi) * Z.of_nat n <= s_avail source -> Z.of_nat (fmt_width fm) * Z.of_nat n <= s_free mid ->
  Z.of_nat (fmt_width fi) * Z.of_nat n <= s_free out ->
  exists conv back m1 mid' m2,
    pcm_get_conversion_function (fmt_code fi) (fmt_code fm) = Some conv /\
    pcm_get_conversion_function (fmt_code fm) (fmt_code fi) = Some back /\
    conv m source 0 mid 0 (Z.of_nat n) = Some (m1, Z.of_nat n) /\
    audio_stream_produce mid (Z.of_nat (fmt_width fm) * Z.of_nat n) = Some mid' /\
    back m1 mid' 0 out 0 (Z.of_nat n) = Some (m2, Z.of_nat n) /\
    stream_samples (fmt_width fi) m2 out (s_w_ptr out) n =
      (fun x => pattern fi (fmt_value fi x)) <$> stream_samples (fmt_width fi) m source (s_r_ptr source) n.
Proof.
  intros Hl Fs Fm Fo Ws Wm Wo D1 D2 A1 A2 A3 He Hn L1 L2 L3.
  destruct (table_converts fi fm) as (conv & Ec & Hc); [by intros ->; destruct fm|].
  destruct (table_converts fm fi) as (back & Eb & Hb); [by intros ->; destruct fi|].
  assert (s_w_ptr mid = s_r_ptr mid) as Ew by (rewrite (wf_w _ Wm), He; apply ring_0; sof).
  destruct (Hc m source mid n) as (m1 & E1 & S1 & _); [first [done|by apply fmt_sample_bytes]..|].
  assert (1 <= fmt_width fm)%nat by (destruct fm; simpl; lia).
  pose proof (audio_stream_produce_ok mid (Z.of_nat (fmt_width fm) * Z.of_nat n) Wm ltac:(nia)) as Ep.
  destruct (produce_wf mid (Z.of_nat (fmt_width fm) * Z.of_nat n) Wm) as (mid' & Ep' & Wm' & _).
  { split; [nia|]. by apply free_size. }
  rewrite Ep in Ep'. injection Ep' as <-. set (mid' := set_ptrs _ _ _ _ _) in *.
  destruct (Hb m1 mid' out n) as (m2 & E2 & S2 & _); [done|done|exact D2|by apply fmt_sample_bytes|by apply fmt_sample_bytes| |done| |done|].
  { simpl. rewrite <- Ew. exact A2. }
  { simpl. rewrite He. lia. }
  exists conv, back, m1, mid', m2. split_and!; try done. rewrite S2.
  change (stream_samples (fmt_width fm) m1 mid' (s_r_ptr mid') n) with (stream_samples (fmt_width fm) m1 mid (s_r_ptr mid) n).
  rewrite <- Ew, S1, <- list_fmap_compose. apply list_fmap_ext. intros _ x _. simpl.
  unfold pattern at 1. f_equal. by apply spec_round_trip.
Qed.

Lemma pcm_table_converts_witness :
  exists conv f, pcm_get_conversion_function SOF_IPC_FRAME_S24_4LE SOF_IPC_FRAME_FLOAT = Some conv /\
    converts 4 4 f conv /\ forall x, stands_for FMT_S24 FMT_FLOAT x (f x).
Proof. apply (pcm_table_converts FMT_S24 FMT_FLOAT). discriminate. Defined.

(** Three 16-bit samples, the ring of the floats wraps after one. *)
Definition demo_source : audio_stream := mk_stream 8 6 2 1000 1002 1000 1008 SOF_IPC_FRAME_S16_LE 0 48000 2 false false.
Definition demo_mid : audio_stream := mk_stream 16 0 16 2012 2012 2000 2016 SOF_IPC_FRAME_FLOAT 0 48000 2 false false.
Definition demo_out : audio_stream := mk_stream 8 0 8 3004 3004 3000 3008 SOF_IPC_FRAME_S16_LE 0 48000 2 false false.

Lemma demo_pcm_wf : stream_wf demo_source /\ stream_wf demo_mid /\ stream_wf demo_out.
Proof. split_and!; constructor; try constructor; cbn; unfold in_ring; cbn; lia || reflexivity. Qed.

Lemma pcm_round_trip_witness :
  exists conv back m1 mid' m2,
    pcm_get_conversion_function SOF_IPC_FRAME_S16_LE SOF_IPC_FRAME_FLOAT = Some conv /\
    pcm_get_conversion_function SOF_IPC_FRAME_FLOAT SOF_IPC_FRAME_S16_LE = Some back /\
    conv (fun a => a * a) demo_source 0 demo_mid 0 3 = Some (m1, 3) /\
    audio_stream_produce demo_mid 12 = Some mid' /\
    back m1 mid' 0 demo_out 0 3 = Some (m2, 3) /\
    stream_samples 2 m2 demo_out 3004 3 = [47588; 27024; 8516].
Proof.
  destruct demo_pcm_wf as (W1 & W2 & W3).
  apply (pcm_round_trip FMT_S16 FMT_FLOAT (fun a => a * a) demo_source demo_mid demo_out 3 eq_refl eq_refl eq_refl eq_refl
    W1 W2 W3 ltac:(left; cbn; lia) ltac:(left; cbn; lia)
    ltac:(split; [by exists 4|by exists 1]) ltac:(split; [by exists 4|by exists 3]) ltac:(split; [by exists 4|by exists 2])
    eq_refl ltac:(lia) ltac:(cbn; lia) ltac:(cbn; lia) ltac:(cbn; lia)).
Defined.

(** ** Packing for the HDA link

    The second word of a pair takes its high byte from bits 8 to 15 of the first
    sample, not from its low byte: [&] binds less tightly than [<<]. *)
Example link_gtw_loses_byte :
  let source := mk_stream 8 8 0 1000 1000 1000 1008 SOF_IPC_FRAME_S24_4LE 0 48000 2 false false in
  let sink := mk_stream 12 0 12 2000 2000 2000 2012 SOF_IPC_FRAME_S24_3LE 0 48000 2 false false in
  let m := store_le 4 (store_le 4 (fun _ => 0) 1000 0x123456) 1004 0x789abc in
  ('(m', r) ← pcm_convert_s24_c32_to_s24_c24_link_gtw m source 0 sink 0 2;
   Some (load_le 2 m' 2000, load_le 2 m' 2002, load_le 2 m' 2004, r)) = Some (0x1234, 0x3478, 0x9abc, 2).
Proof. vm_compute. reflexivity. Qed.
