(* ===== verification/ChannelLoop.v ===== *)
(** * Processing the channels of a stream one by one

    The loops of the components that treat each channel with a state of its own:
    [src/audio/eq_fir/eq_fir_generic.c], [src/audio/eq_iir/eq_iir.c] and
    [src/audio/volume/volume_generic.c]. They go through the rings in stretches that
    do not wrap, channel by channel, or in [src/audio/dcblock/dcblock_generic.c] by the
    number of the sample. The work on one sample is a parameter; an
    interface says what it does to the state of its channel, and the loop is
    correct for every implementation of the interface. *)

From stdpp Require Import base list numbers option functions.
From S2P Require Import Prelude AudioStream StreamCopy Format SampleLoop.

(** ** The loops *)

Section channels.
(** The work on one sample, from the memory, the state of the channel and the sample
    as it is in memory; samples have [ws] bytes in the source and [wk] in the sink. *)
Context {T : Type} (step : mem -> T -> Z -> option (mem * T * Z)) (ws wk : nat).

(** One channel of [nch]: [n] samples. *)
Fixpoint channel_run (n : nat) (m : mem) (t : T) (x0 y0 nch : Z) : option (mem * T) :=
  match n with
  | O => Some (m, t)
  | S n =>
      r ← step m t (load_le ws m x0);
      let '(m, t, z) := r in
      channel_run n (store_le wk m y0 z) t (x0 + Z.of_nat ws * nch) (y0 + Z.of_nat wk * nch) nch
  end.

(** The channels from [j] on, [k] of them, of [nch]; [n] samples in all. The inner
    loop counts in steps of [nch]. *)
Fixpoint channels_run (k j : nat) (m : mem) (ts : list T) (x y n nch : Z) : option (mem * list T) :=
  match k with
  | O => Some (m, ts)
  | S k =>
      t ← ts !! j;
      r ← channel_run (Z.to_nat ((n + nch - 1) / nch)) m t (x + Z.of_nat ws * Z.of_nat j) (y + Z.of_nat wk * Z.of_nat j) nch;
      channels_run k (S j) r.1 (<[j := r.2]> ts) x y n nch
  end.

Fixpoint stream_loop (fuel : nat) (source sink : audio_stream) (m : mem) (ts : list T) (x y nch remaining_samples : Z) :
    option (mem * list T) :=
  match fuel with
  | O => None
  | S fuel =>
      if remaining_samples =? 0 then Some (m, ts) else
      bytes ← audio_stream_bytes_without_wrap source x;
      let n := Z.min remaining_samples (bytes_to_samples (Z.of_nat ws) bytes) in
      bytes ← audio_stream_bytes_without_wrap sink y;
      let n := Z.min n (bytes_to_samples (Z.of_nat wk) bytes) in
      r ← channels_run (Z.to_nat nch) 0 m ts x y n nch;
      x ← audio_stream_wrap source (x + Z.of_nat ws * n);
      y ← audio_stream_wrap sink (y + Z.of_nat wk * n);
      stream_loop fuel source sink r.1 r.2 x y nch (remaining_samples - n)
  end.

Definition stream_run (m : mem) (ts : list T) (source sink : audio_stream) (frames nch : Z) : option (mem * list T) :=
  let remaining_samples := i32 (frames * nch) in
  stream_loop (S (Z.abs_nat remaining_samples)) source sink m ts (s_r_ptr source) (s_w_ptr sink) nch remaining_samples.
End channels.

(** ** The interface *)

(** What the work on a sample is, on abstract states [H]: the output and the next
    state are functions of the state and the input. Of the memory it writes the
    bytes that it owns and depends on the bytes that it reads. *)
Class ChannelFilter {T : Type} (step : mem -> T -> Z -> option (mem * T * Z)) (H : Type) := {
  fl_rep : mem -> T -> H -> Prop;
  fl_value : H -> Z -> Z;
  fl_next : H -> Z -> H;
  fl_owns : T -> Z -> Prop;
  fl_reads : T -> Z -> Prop;
  fl_owns_reads t a : fl_owns t a -> fl_reads t a;
  fl_rep_ext m m' t h : (forall a, fl_reads t a -> m' a = m a) -> fl_rep m t h -> fl_rep m' t h;
  fl_step m t h x : fl_rep m t h -> exists m' t', step m t x = Some (m', t', fl_value h x) /\ fl_rep m' t' (fl_next h x) /\
    (forall a, fl_owns t' a <-> fl_owns t a) /\ (forall a, fl_reads t' a <-> fl_reads t a) /\
    (forall a, ~ fl_owns t a -> m' a = m a)
}.

(** ** Samples of frames *)

Lemma aligned_part w nch s r : aligned s r (Z.of_nat w * Z.of_nat nch) -> aligned s r (Z.of_nat w).
Proof. intros [H1 H2]. split; (eapply Z.divide_trans; [|eassumption]); by exists (Z.of_nat nch); lia. Qed.

(** The bytes of a sample, as positions in the ring. *)
Lemma at_bytes (w nch : nat) s r (i j : nat) a :
  (0 < w)%nat -> stream_geom s -> aligned s r (Z.of_nat w * Z.of_nat nch) ->
  let idx := Z.of_nat i * Z.of_nat nch + Z.of_nat j in
  ring s r (Z.of_nat w * idx) <= a < ring s r (Z.of_nat w * idx) + Z.of_nat w ->
  in_ring s a /\ a = ring s r (Z.of_nat w * idx + (a - ring s r (Z.of_nat w * idx))).
Proof.
  intros Hw G Al idx Ha. destruct (sample_bytes s r w idx (a - ring s r (Z.of_nat w * idx)) G Hw (aligned_part w nch s r Al) ltac:(lia)) as [E H].
  split; [|lia]. pose proof (ring_in s r (Z.of_nat w * idx) G). unfold in_ring in *. lia.
Qed.

Lemma index_inj (nch i j i' j' : nat) :
  (j < nch)%nat -> (j' < nch)%nat -> Z.of_nat i * Z.of_nat nch + Z.of_nat j = Z.of_nat i' * Z.of_nat nch + Z.of_nat j' -> i = i' /\ j = j'.
Proof. intros Hj Hj' E. assert (i = i') as -> by nia. split; [done|lia]. Qed.

(** Frames [t] to [t + c] lie one behind the other. *)
Definition linear (w nch : nat) (at_ : nat -> nat -> Z) (x : Z) (t c : nat) : Prop :=
  forall i j, (j < nch)%nat -> (t <= i < t + c)%nat ->
  at_ i j = x + Z.of_nat w * Z.of_nat j + Z.of_nat w * Z.of_nat nch * Z.of_nat (i - t).

(** From frame [t] on the ring has [c] whole frames before its end, and they lie one
    behind the other. *)
Lemma frames_left (w nch : nat) s r t :
  (0 < w)%nat -> (0 < nch)%nat -> stream_geom s -> aligned s r (Z.of_nat w * Z.of_nat nch) ->
  let at_ i j := ring s r (Z.of_nat w * (Z.of_nat i * Z.of_nat nch + Z.of_nat j)) in
  exists c, (0 < c)%nat /\ audio_stream_bytes_without_wrap s (at_ t 0%nat) = Some (Z.of_nat w * (Z.of_nat c * Z.of_nat nch)) /\
    forall c', (c' <= c)%nat -> linear w nch at_ (at_ t 0%nat) t c' /\
      audio_stream_wrap s (at_ t 0%nat + Z.of_nat w * (Z.of_nat c' * Z.of_nat nch)) = Some (at_ (t + c')%nat 0%nat).
Proof.
  intros Hw Hnch G Al at_. set (W := Z.of_nat w * Z.of_nat nch) in *. assert (0 < W) as HW by nia.
  destruct (aligned_rest s r W (Z.of_nat t) G HW Al) as [E1 E2].
  assert (at_ t 0%nat = ring s r (W * Z.of_nat t)) as Et by (unfold at_, W; f_equal; lia).
  set (c := (s_end_addr s - ring s r (W * Z.of_nat t)) / W) in *.
  pose proof (ring_in s r (W * Z.of_nat t) G) as Hin. pose proof (geom_end _ G) as He. rewrite Et.
  exists (Z.to_nat c). split_and!; [lia|rewrite bytes_without_wrap_ok by done; f_equal; unfold W in *; nia|].
  intros c' Hc'. assert (W * Z.of_nat c' <= W * c) by nia. split.
  - intros i j Hj Hi. unfold at_. replace (Z.of_nat w * (Z.of_nat i * Z.of_nat nch + Z.of_nat j))
      with (W * Z.of_nat t + (Z.of_nat w * Z.of_nat j + W * Z.of_nat (i - t))) by (unfold W; nia).
    assert (Z.of_nat w * Z.of_nat j + W * Z.of_nat (i - t) < W * Z.of_nat c').
    { assert (W * Z.of_nat (i - t) + W <= W * Z.of_nat c') by nia. enough (Z.of_nat w * Z.of_nat j < W) by lia. unfold W. nia. }
    rewrite <- ring_ring, ring_linear; [lia|done|done|nia|lia].
  - unfold in_ring in Hin.
    replace (Z.of_nat w * (Z.of_nat c' * Z.of_nat nch)) with (W * Z.of_nat c') by (unfold W; lia).
    rewrite audio_stream_wrap_ring; [|done|done|lia]. rewrite ring_ring. unfold at_, W. do 2 f_equal. nia.
Qed.

(** ** All channels *)

Section loop.
#[local] Set Default Proof Using "All".
Context {T H : Type} (step : mem -> T -> Z -> option (mem * T * Z)) `{F : !ChannelFilter step H}.
Context (ws wk nch : nat) (source sink : audio_stream) (p q : Z).
Context (m0 : mem) (ts0 : list T) (hs0 : nat -> H) (N : nat).
Hypothesis Hws : (0 < ws)%nat.
Hypothesis Hwk : (0 < wk)%nat.
Hypothesis Hnch : (0 < nch)%nat.
Hypothesis Gs : stream_geom source.
Hypothesis Gk : stream_geom sink.
Hypothesis As : aligned source p (Z.of_nat ws * Z.of_nat nch).
Hypothesis Ak : aligned sink q (Z.of_nat wk * Z.of_nat nch).
Hypothesis Hdis : disjoint_rings source sink.
Hypothesis Hfit : Z.of_nat wk * (Z.of_nat nch * Z.of_nat N) <= s_size sink.

(** Sample [j] of frame [i]. *)
Definition src_at (i j : nat) : Z := ring source p (Z.of_nat ws * (Z.of_nat i * Z.of_nat nch + Z.of_nat j)).
Definition snk_at (i j : nat) : Z := ring sink q (Z.of_nat wk * (Z.of_nat i * Z.of_nat nch + Z.of_nat j)).

(** The channels are in the states [hs0], and what they own is apart from what the
    others read and from the rings. *)
Record channels_ok : Prop := {
  co_rep j : (j < nch)%nat -> exists t, ts0 !! j = Some t /\ fl_rep m0 t (hs0 j);
  co_apart j j' t t' a : (j < nch)%nat -> (j' < nch)%nat -> ts0 !! j = Some t -> ts0 !! j' = Some t' ->
    fl_owns t a -> fl_reads t' a -> j = j';
  co_source j t a : (j < nch)%nat -> ts0 !! j = Some t -> fl_owns t a -> ~ in_ring source a;
  co_sink j t a : (j < nch)%nat -> ts0 !! j = Some t -> fl_reads t a -> ~ in_ring sink a
}.
Hypothesis Hok : channels_ok.

(** The input of channel [j], its state after [i] frames and its output. *)
Definition chan_in (j i : nat) : Z := load_le ws m0 (src_at i j).

Fixpoint chan_state (j i : nat) : H :=
  match i with O => hs0 j | S i => fl_next (chan_state j i) (chan_in j i) end.

Definition chan_out (j i : nat) : Z := fl_value (chan_state j i) (chan_in j i).

(** A byte that some channel owns. *)
Definition owned (a : Z) : Prop := exists (j : nat) t, (j < nch)%nat /\ ts0 !! j = Some t /\ fl_owns t a.

(** The same bytes. *)
Definition same_bytes (t t' : T) : Prop := (forall a, fl_owns t' a <-> fl_owns t a) /\ (forall a, fl_reads t' a <-> fl_reads t a).

(** Channel [j] has done its first [cnt j] frames. *)
Record progress (cnt : nat -> nat) (ts : list T) (m : mem) : Prop := {
  pg_len : length ts = length ts0;
  pg_rest j : (nch <= j)%nat -> ts !! j = ts0 !! j;
  pg_chan j t : (j < nch)%nat -> ts0 !! j = Some t ->
    exists t', ts !! j = Some t' /\ fl_rep m t' (chan_state j (cnt j)) /\ same_bytes t t';
  pg_out i j : (j < nch)%nat -> (i < cnt j)%nat -> load_le wk m (snk_at i j) = chan_out j i mod 2 ^ (8 * Z.of_nat wk);
  pg_mem a : (forall i j, (j < nch)%nat -> (i < cnt j)%nat -> ~ snk_at i j <= a < snk_at i j + Z.of_nat wk) ->
    ~ owned a -> m a = m0 a
}.

(** *** Addresses *)

Lemma src_byte i j a : src_at i j <= a < src_at i j + Z.of_nat ws -> in_ring source a.
Proof. intros Ha. by apply (at_bytes ws nch source p i j). Qed.

Lemma snk_byte i j a : snk_at i j <= a < snk_at i j + Z.of_nat wk -> in_ring sink a.
Proof. intros Ha. by apply (at_bytes wk nch sink q i j). Qed.

Lemma source_not_sink a : in_ring source a -> ~ in_ring sink a.
Proof. unfold in_ring, disjoint_rings in *. lia. Qed.

Lemma owned_not_sink a : owned a -> ~ in_ring sink a.
Proof. intros (j & t & Hj & Ht & Ha). eapply (co_sink Hok); [done..|]. by apply fl_owns_reads. Qed.

(** Samples of the sink do not overlap. *)
Lemma snk_disjoint i j i' j' a :
  (j < nch)%nat -> (j' < nch)%nat -> (i < N)%nat -> (i' < N)%nat ->
  snk_at i j <= a < snk_at i j + Z.of_nat wk -> snk_at i' j' <= a < snk_at i' j' + Z.of_nat wk -> i = i' /\ j = j'.
Proof.
  intros Hj Hj' Hi Hi' Ha Ha'. apply (index_inj nch); [done..|]. unfold snk_at in *.
  set (idx := Z.of_nat i * Z.of_nat nch + Z.of_nat j) in *. set (idx' := Z.of_nat i' * Z.of_nat nch + Z.of_nat j') in *.
  destruct (at_bytes wk nch sink q i j a Hwk Gk Ak Ha) as [_ E]. destruct (at_bytes wk nch sink q i' j' a Hwk Gk Ak Ha') as [_ E'].
  fold idx in E. fold idx' in E'. set (k := a - ring sink q (Z.of_nat wk * idx)) in *.
  set (k' := a - ring sink q (Z.of_nat wk * idx')) in *. rewrite E in E' at 1.
  assert (0 <= idx < Z.of_nat nch * Z.of_nat N) by nia. assert (0 <= idx' < Z.of_nat nch * Z.of_nat N) by nia.
  apply ring_inj in E'; [nia|done|nia|nia].
Qed.

(** *** One sample *)

(** The memory still has the inputs. *)
Lemma progress_in cnt ts m i j : progress cnt ts m -> load_le ws m (src_at i j) = chan_in j i.
Proof.
  intros P. apply le_load_ext. intros a Ha. pose proof (src_byte _ _ _ Ha) as Hs. apply (pg_mem _ _ _ P).
  - intros i' j' _ _ Hk. apply snk_byte in Hk. by eapply source_not_sink.
  - intros (j' & t & Hj & Ht & Ho). by eapply (co_source Hok).
Qed.

(** Channel [j] has worked on its sample, and its output is stored. *)
Lemma progress_store cnt ts m j t m1 t1 :
  progress cnt ts m -> (j < nch)%nat -> (cnt j < N)%nat -> ts0 !! j = Some t ->
  fl_rep m1 t1 (chan_state j (S (cnt j))) -> same_bytes t t1 ->
  (forall a, ~ fl_owns t a -> m1 a = m a) -> (forall j', (cnt j' <= N)%nat) ->
  progress (<[j := S (cnt j)]> cnt) (<[j := t1]> ts) (store_le wk m1 (snk_at (cnt j) j) (chan_out j (cnt j))).
Proof.
  intros P Hj Hcnt Ht Hrep Hsame Hm1 HN. destruct (pg_chan _ _ _ P j t Hj Ht) as (t' & Et & _ & _).
  pose proof (lookup_lt_Some _ _ _ Et) as Hlen. set (v := chan_out j (cnt j)). set (d := snk_at (cnt j) j).
  assert (forall a, ~ in_ring sink a -> store_le wk m1 d v a = m1 a) as Hout.
  { intros a Ha. apply le_store_out. enough (~ d <= a < d + Z.of_nat wk) by lia. intros Hin. by apply snk_byte in Hin. }
  constructor.
  - rewrite length_insert. apply P.
  - intros j' Hj'. rewrite list_lookup_insert_ne by lia. by apply P.
  - intros j' u Hj' Hu. destruct (decide (j' = j)) as [->|Hne].
    + simplify_eq. rewrite fn_lookup_insert, list_lookup_insert_eq by done. exists t1. split_and!; [done| |done].
      eapply fl_rep_ext; [|exact Hrep]. intros a Ha. apply Hout. apply Hsame in Ha. by eapply (co_sink Hok).
    + rewrite fn_lookup_insert_ne, list_lookup_insert_ne by done. destruct (pg_chan _ _ _ P j' u Hj' Hu) as (u' & E1 & E2 & E3).
      exists u'. split_and!; [done| |done]. eapply fl_rep_ext; [|exact E2]. intros a Ha. apply E3 in Ha. rewrite Hout.
      * apply Hm1. intros Ha'. apply Hne. symmetry. by eapply (co_apart Hok).
      * by eapply (co_sink Hok).
  - intros i j' Hj' Hi. destruct (decide (j' = j /\ i = cnt j)) as [[-> ->]|Hne]; [apply le_load_store|].
    assert (i < cnt j')%nat as Hi' by (destruct (decide (j' = j)) as [->|];
      [rewrite fn_lookup_insert in Hi; lia|by rewrite fn_lookup_insert_ne in Hi by done]).
    rewrite <- (pg_out _ _ _ P i j' Hj' Hi'). apply le_load_ext. intros a Ha. rewrite le_store_out.
    + apply Hm1. intros Ho. apply (owned_not_sink a); [by exists j, t|]. by eapply snk_byte.
    + enough (~ d <= a < d + Z.of_nat wk) by lia. intros Hd. apply Hne. pose proof (HN j').
      destruct (snk_disjoint i j' (cnt j) j a) as [-> ->]; done || lia.
  - intros a Ha Hd. rewrite le_store_out.
    + rewrite Hm1 by (intros ?; apply Hd; by exists j, t). apply (pg_mem _ _ _ P); [|done]. intros i j' Hj' Hi.
      apply Ha; [done|]. destruct (decide (j' = j)) as [->|]; [rewrite fn_lookup_insert; lia|by rewrite fn_lookup_insert_ne].
    + enough (~ d <= a < d + Z.of_nat wk) by lia. apply Ha; [done|]. rewrite fn_lookup_insert. lia.
Qed.

Lemma progress_step cnt ts m j t :
  progress cnt ts m -> (j < nch)%nat -> (cnt j < N)%nat -> ts !! j = Some t -> (forall j', (cnt j' <= N)%nat) ->
  exists m1 t1 z, step m t (load_le ws m (src_at (cnt j) j)) = Some (m1, t1, z) /\
    progress (<[j := S (cnt j)]> cnt) (<[j := t1]> ts) (store_le wk m1 (snk_at (cnt j) j) z).
Proof.
  intros P Hj Hcnt Ht HN. rewrite (progress_in _ _ _ _ _ P). destruct (co_rep Hok j Hj) as (u & Hu & _).
  destruct (pg_chan _ _ _ P j u Hj Hu) as (t' & Ht' & Hrep & [So Sr]). simplify_eq.
  destruct (fl_step m t _ (chan_in j (cnt j)) Hrep) as (m1 & t1 & E & Hrep1 & Ho & Hr & Hm1).
  eexists m1, t1, _. split; [exact E|]. eapply (progress_store cnt ts m j u); try done.
  - split; intros a; [by rewrite Ho, So|by rewrite Hr, Sr].
  - intros a Ha. apply Hm1. by rewrite So.
Qed.

(** *** A stretch that does not wrap *)

Lemma progress_ext cnt cnt' ts m : (forall j, (j < nch)%nat -> cnt j = cnt' j) -> progress cnt ts m -> progress cnt' ts m.
Proof.
  intros Hc [P1 P2 P3 P4 P5]. constructor; try done.
  - intros j' f' Hj' Hf'. rewrite <- Hc by done. by apply P3.
  - intros i j' Hj' Hi. rewrite <- Hc in Hi by done. by apply P4.
  - intros a Ha. apply P5. intros i j' Hj' Hi. apply Ha; [done|]. by rewrite <- Hc by done.
Qed.

Lemma channel_run_ok n cnt ts m j t x0 y0 :
  progress cnt ts m -> (j < nch)%nat -> ts !! j = Some t -> (cnt j + n <= N)%nat -> (forall j', (cnt j' <= N)%nat) ->
  (forall i, (cnt j <= i < cnt j + n)%nat -> src_at i j = x0 + Z.of_nat ws * Z.of_nat nch * Z.of_nat (i - cnt j)) ->
  (forall i, (cnt j <= i < cnt j + n)%nat -> snk_at i j = y0 + Z.of_nat wk * Z.of_nat nch * Z.of_nat (i - cnt j)) ->
  exists m' t', channel_run step ws wk n m t x0 y0 (Z.of_nat nch) = Some (m', t') /\
    progress (<[j := (cnt j + n)%nat]> cnt) (<[j := t']> ts) m'.
Proof.
  revert cnt ts m t x0 y0. induction n as [|n IH]; intros cnt ts m t x0 y0 P Hj Ht Hn HN Hx Hy.
  { rewrite !Nat.add_0_r. exists m, t. split; [done|]. rewrite list_insert_id by done.
    eapply progress_ext; [|exact P]. intros j' _.
    destruct (decide (j' = j)) as [->|]; [by rewrite fn_lookup_insert|by rewrite fn_lookup_insert_ne]. }
  cbn [channel_run]. destruct (progress_step cnt ts m j t P Hj ltac:(lia) Ht HN) as (m1 & t1 & z & E & P1).
  assert (src_at (cnt j) j = x0) as Ex by (rewrite Hx by lia; rewrite Nat.sub_diag; lia).
  assert (snk_at (cnt j) j = y0) as Ey by (rewrite Hy by lia; rewrite Nat.sub_diag; lia).
  rewrite Ex in E. rewrite Ey in P1. rewrite E. cbn [mbind option_bind].
  set (cnt1 := <[j := S (cnt j)]> cnt) in *. assert (cnt1 j = S (cnt j)) as Ec by apply fn_lookup_insert.
  destruct (IH cnt1 _ _ t1 (x0 + Z.of_nat ws * Z.of_nat nch) (y0 + Z.of_nat wk * Z.of_nat nch) P1 Hj) as (m' & t' & E' & P').
  - apply list_lookup_insert_eq. by eapply lookup_lt_Some.
  - lia.
  - intros j'. unfold cnt1. destruct (decide (j' = j)) as [->|]; [rewrite fn_lookup_insert; lia|by rewrite fn_lookup_insert_ne].
  - intros i Hi. rewrite Hx by lia. nia.
  - intros i Hi. rewrite Hy by lia. nia.
  - rewrite Ec in P'. replace (S (cnt j) + n)%nat with (cnt j + S n)%nat in * by lia. exists m', t'. split; [exact E'|].
    rewrite list_insert_insert_eq in P'. eapply progress_ext; [|exact P']. intros j' _. unfold cnt1.
    destruct (decide (j' = j)) as [->|]; [by rewrite !fn_lookup_insert|by rewrite !fn_lookup_insert_ne].
Qed.

(** Frames [i] to [i + c], channel by channel. *)
Lemma channels_run_ok k j cnt ts m x y i c :
  progress cnt ts m -> (k + j = nch)%nat -> (i + c <= N)%nat -> linear ws nch src_at x i c -> linear wk nch snk_at y i c ->
  (forall j', cnt j' = if decide (j' < j)%nat then (i + c)%nat else i) ->
  exists m' ts', channels_run step ws wk k j m ts x y (Z.of_nat c * Z.of_nat nch) (Z.of_nat nch) = Some (m', ts') /\
    progress (fun j' => if decide (j' < nch)%nat then (i + c)%nat else i) ts' m'.
Proof.
  revert j cnt ts m. induction k as [|k IH]; intros j cnt ts m P Hk Hc Hx Hy Hcnt.
  { eexists m, ts. split; [done|]. eapply progress_ext; [|exact P]. intros j' _. by replace nch with j by lia. }
  cbn [channels_run]. destruct (co_rep Hok j ltac:(lia)) as (u & Hu & _).
  destruct (pg_chan _ _ _ P j u ltac:(lia) Hu) as (t & Ht & _). rewrite Ht. cbn [mbind option_bind].
  assert (cnt j = i) as Ej by (rewrite Hcnt, decide_False; lia).
  replace (Z.to_nat ((Z.of_nat c * Z.of_nat nch + Z.of_nat nch - 1) / Z.of_nat nch)) with c.
  2:{ rewrite <- (Z.div_unique (Z.of_nat c * Z.of_nat nch + Z.of_nat nch - 1) (Z.of_nat nch) (Z.of_nat c) (Z.of_nat nch - 1)); lia. }
  destruct (channel_run_ok c cnt ts m j t (x + Z.of_nat ws * Z.of_nat j) (y + Z.of_nat wk * Z.of_nat j) P) as (m1 & t1 & E1 & P1);
    [lia|done|lia| | | |].
  { intros j'. rewrite Hcnt. case_decide; lia. }
  1,2: intros i' Hi; rewrite Ej in Hi |- *; first [apply Hx; lia | apply Hy; lia].
  rewrite E1. cbn [mbind option_bind fst snd]. eapply IH; [exact P1|lia|done..|]. intros j'.
  destruct (decide (j' = j)) as [->|]; [rewrite fn_lookup_insert, decide_True by lia; lia|].
  rewrite fn_lookup_insert_ne, Hcnt by done. repeat case_decide; lia.
Qed.

(** *** The loop *)

Lemma stream_loop_ok fuel i ts m :
  progress (fun _ => i) ts m -> (i <= N)%nat -> (N - i < fuel)%nat ->
  exists m' ts', stream_loop step ws wk fuel source sink m ts (src_at i 0) (snk_at i 0) (Z.of_nat nch)
      (Z.of_nat ((N - i) * nch)) = Some (m', ts') /\
    progress (fun _ => N) ts' m'.
Proof.
  revert i ts m. induction fuel as [|fuel IH]; intros i ts m P Hi Hf; [lia|]. cbn [stream_loop]. case_if.
  { assert (i = N) as -> by nia. by eexists _, _. }
  destruct (frames_left ws nch source p i Hws Hnch Gs As) as (cs & Hcs & Ebs & Hs).
  destruct (frames_left wk nch sink q i Hwk Hnch Gk Ak) as (ck & Hck & Ebk & Hk).
  fold (src_at i 0) in Ebs. fold (snk_at i 0) in Ebk. rewrite Ebs. cbn [mbind option_bind]. rewrite Ebk. cbn [mbind option_bind].
  rewrite !bytes_to_samples_div, (Z.mul_comm (Z.of_nat ws) (_ * _)), (Z.mul_comm (Z.of_nat wk) (_ * _)), !Z.div_mul by lia.
  set (c := Nat.min (N - i) (Nat.min cs ck)).
  replace (Z.min (Z.min _ _) _) with (Z.of_nat c * Z.of_nat nch) by (unfold c; nia).
  destruct (Hs c ltac:(lia)) as [Ls Ws]. destruct (Hk c ltac:(lia)) as [Lk Wk].
  rewrite Nat2Z.id. destruct (channels_run_ok nch 0 (fun _ => i) ts m (src_at i 0) (snk_at i 0) i c) as (m1 & ts1 & E1 & P1);
    [done|lia|lia|done|done|done|].
  rewrite E1. cbn [mbind option_bind fst snd].
  fold (src_at i 0) (src_at (i + c) 0) in Ws. fold (snk_at i 0) (snk_at (i + c) 0) in Wk.
  rewrite Ws. cbn [mbind option_bind]. rewrite Wk. cbn [mbind option_bind].
  destruct (IH (i + c)%nat ts1 m1) as (m' & ts' & E & P'); [|lia|lia|].
  { eapply progress_ext; [|exact P1]. intros j Hj. simpl. by case_decide. }
  exists m', ts'. split; [|done]. rewrite <- E. f_equal. nia.
Qed.

Lemma progress_start : progress (fun _ => 0%nat) ts0 m0.
Proof.
  constructor; try done; [|lia]. intros j t Hj Ht. destruct (co_rep Hok j Hj) as (t' & Ht' & Hrep). simplify_eq. by exists t.
Qed.

Lemma stream_run_ok :
  s_r_ptr source = p -> s_w_ptr sink = q -> in_ring source p -> in_ring sink q -> Z.of_nat (N * nch) < 2 ^ 31 ->
  exists m' ts', stream_run step ws wk m0 ts0 source sink (Z.of_nat N) (Z.of_nat nch) = Some (m', ts') /\
    progress (fun _ => N) ts' m'.
Proof.
  intros Ep Eq Hp Hq HN. unfold stream_run. rewrite i32_small by lia. rewrite <- Nat2Z.inj_mul, Zabs2Nat.id, Ep, Eq.
  destruct (stream_loop_ok (S (N * nch)) 0 ts0 m0 progress_start) as (m' & ts' & E & P); [lia|nia|].
  exists m', ts'. split; [|done]. rewrite <- E. rewrite Nat.sub_0_r. f_equal.
  - unfold src_at. simpl. by rewrite Z.mul_0_r, ring_0.
  - unfold snk_at. simpl. by rewrite Z.mul_0_r, ring_0.
Qed.

(** *** What is in the sink *)

(** Sample [k] of the sink: frame by frame. *)
Definition frame_sample (k : nat) : Z := chan_out (k mod nch) (k / nch).

(** The old memory in the ring of the sink, the new one outside. *)
Definition sink_base (m : mem) : mem := fun a => if (s_addr sink <=? a) && (a <? s_end_addr sink) then m0 a else m a.

Lemma progress_stored ts m :
  progress (fun _ => N) ts m -> stored wk sink q frame_sample (sink_base m) m (N * nch).
Proof.
  intros P. assert (forall k, (k < N * nch)%nat -> (k / nch < N /\ k mod nch < nch)%nat) as Hk.
  { intros k Hk. split; [apply Nat.Div0.div_lt_upper_bound; lia|apply Nat.mod_upper_bound; lia]. }
  assert (forall k, Z.of_nat k = Z.of_nat (k / nch) * Z.of_nat nch + Z.of_nat (k mod nch)) as Hdm.
  { intros k. pose proof (Nat.div_mod_eq k nch). nia. }
  split.
  - intros k Hlt. destruct (Hk k Hlt) as [H1 H2]. rewrite (Hdm k). by apply (pg_out _ _ _ P).
  - intros a Ha. unfold sink_base. case_if; [|done]. apply (pg_mem _ _ _ P).
    + intros i j Hj Hi Hin. destruct (at_bytes wk nch sink q i j a Hwk Gk Ak Hin) as [_ E]. unfold snk_at in Hin.
      assert (Z.of_nat i * Z.of_nat nch + Z.of_nat j + 1 <= Z.of_nat (N * nch)) by nia.
      eapply Ha; [|exact E]. split; [nia|]. apply Z.lt_le_trans with (Z.of_nat wk * (Z.of_nat i * Z.of_nat nch + Z.of_nat j + 1)); [lia|nia].
    + intros Hd. apply (owned_not_sink a Hd). unfold in_ring. lia.
Qed.

(** No byte outside the ring of the sink and the bytes owned has changed. *)
Lemma progress_outside ts m a : progress (fun _ => N) ts m -> ~ in_ring sink a -> ~ owned a -> m a = m0 a.
Proof. intros P Ha Hd. apply (pg_mem _ _ _ P); [|done]. intros i j _ _ Hin. by apply snk_byte in Hin. Qed.
End loop.

(** ** The channels afterwards *)

Section after.
Context {T H : Type} (step : mem -> T -> Z -> option (mem * T * Z)) `{F : !ChannelFilter step H}.
Context (ws wk nch : nat) (source sink : audio_stream) (p q : Z) (m0 : mem) (ts0 : list T) (hs0 : nat -> H) (N : nat).
Hypothesis Hok : channels_ok step nch source sink m0 ts0 hs0.
Notation progress_of := (progress step ws wk nch source sink p q m0 ts0 hs0).

Lemma channel_after ts m j t' :
  progress_of (fun _ => N) ts m -> (j < nch)%nat -> ts !! j = Some t' ->
  exists t, ts0 !! j = Some t /\ fl_rep m t' (chan_state step ws nch source p m0 hs0 j N) /\ same_bytes step t t'.
Proof.
  intros P Hj Ht'. destruct (co_rep _ _ _ _ _ _ _ Hok j Hj) as (t & Ht & _).
  destruct (pg_chan _ _ _ _ _ _ _ _ _ _ _ _ _ _ P j t Hj Ht) as (u & Hu & Hrep & Hs). simplify_eq. by exists t.
Qed.

Lemma owned_after ts m a : progress_of (fun _ => N) ts m -> owned step nch ts a -> owned step nch ts0 a.
Proof.
  intros P (j & t' & Hj & Ht' & Ha). destruct (channel_after ts m j t' P Hj Ht') as (t & Ht & _ & [So _]).
  exists j, t. split_and!; [done..|]. by apply So.
Qed.

Lemma channels_after ts m source' sink' hs' :
  progress_of (fun _ => N) ts m ->
  (forall a, in_ring source' a <-> in_ring source a) -> (forall a, in_ring sink' a <-> in_ring sink a) ->
  (forall j, (j < nch)%nat -> hs' j = chan_state step ws nch source p m0 hs0 j N) ->
  channels_ok step nch source' sink' m ts hs'.
Proof.
  intros P Hs Hk Hh. constructor.
  - intros j Hj. destruct (co_rep _ _ _ _ _ _ _ Hok j Hj) as (t & Ht & _).
    destruct (pg_chan _ _ _ _ _ _ _ _ _ _ _ _ _ _ P j t Hj Ht) as (u & Hu & Hrep & _). exists u. by rewrite Hh.
  - intros j j' t t' a Hj Hj' Ht Ht' Ha Ha'.
    destruct (channel_after ts m j t P Hj Ht) as (u & Hu & _ & [So _]).
    destruct (channel_after ts m j' t' P Hj' Ht') as (u' & Hu' & _ & [_ Sr]).
    eapply (co_apart _ _ _ _ _ _ _ Hok); [done|done|exact Hu|exact Hu'|by apply So|by apply Sr].
  - intros j t a Hj Ht Ha. rewrite Hs. destruct (channel_after ts m j t P Hj Ht) as (u & Hu & _ & [So _]).
    eapply (co_source _ _ _ _ _ _ _ Hok); [done|exact Hu|by apply So].
  - intros j t a Hj Ht Ha. rewrite Hk. destruct (channel_after ts m j t P Hj Ht) as (u & Hu & _ & [_ Sr]).
    eapply (co_sink _ _ _ _ _ _ _ Hok); [done|exact Hu|by apply Sr].
Qed.
End after.

(** ** Loops by the number of the sample *)

Section frags.
Context {T : Type} (step : mem -> T -> Z -> option (mem * T * Z)) (ws wk : nat).

(** [n] samples of one channel of [nch], from the index [idx] on; [p] and [q] are the
    positions in the two rings that the indices start from. *)
Fixpoint frag_channel (n : nat) (m : mem) (t : T) (source sink : audio_stream) (p q idx nch : Z) : option (mem * T) :=
  match n with
  | O => Some (m, t)
  | S n =>
      x ← audio_stream_get_frag source p idx (Z.of_nat ws);
      y ← audio_stream_get_frag sink q idx (Z.of_nat wk);
      r ← step m t (load_le ws m x);
      let '(m, t, z) := r in
      frag_channel n (store_le wk m y z) t source sink p q (i32 (idx + nch)) nch
  end.

(** The channels from [j] on, [k] of them. *)
Fixpoint frag_channels (k j n : nat) (m : mem) (ts : list T) (source sink : audio_stream) (p q nch : Z) : option (mem * list T) :=
  match k with
  | O => Some (m, ts)
  | S k =>
      t ← ts !! j;
      r ← frag_channel n m t source sink p q (Z.of_nat j) nch;
      frag_channels k (S j) n r.1 (<[j := r.2]> ts) source sink p q nch
  end.
End frags.

Section loop.
#[local] Set Default Proof Using "All".
Context {T H : Type} (step : mem -> T -> Z -> option (mem * T * Z)) `{F : !ChannelFilter step H}.
Context (ws wk nch : nat) (source sink : audio_stream) (p q : Z).
Context (m0 : mem) (ts0 : list T) (hs0 : nat -> H) (N : nat).
Hypothesis Hws : (0 < ws)%nat.
Hypothesis Hwk : (0 < wk)%nat.
Hypothesis Hnch : (0 < nch)%nat.
Hypothesis Gs : stream_geom source.
Hypothesis Gk : stream_geom sink.
Hypothesis As : aligned source p (Z.of_nat ws * Z.of_nat nch).
Hypothesis Ak : aligned sink q (Z.of_nat wk * Z.of_nat nch).
Hypothesis Hdis : disjoint_rings source sink.
Hypothesis Hfits : Z.of_nat ws * (Z.of_nat nch * Z.of_nat N) <= s_size source.
Hypothesis Hfit : Z.of_nat wk * (Z.of_nat nch * Z.of_nat N) <= s_size sink.
Hypothesis Hp : in_ring source p.
Hypothesis Hq : in_ring sink q.
Hypothesis HN : Z.of_nat ((S N) * nch) < 2 ^ 31.
Hypothesis Hok : channels_ok step nch source sink m0 ts0 hs0.
Notation progress_of := (progress step ws wk nch source sink p q m0 ts0 hs0).

Lemma get_frag_at (w : nat) s r i j :
  stream_geom s -> in_ring s r -> (j < nch)%nat -> (i < N)%nat -> Z.of_nat w * (Z.of_nat nch * Z.of_nat N) <= s_size s ->
  audio_stream_get_frag s r (Z.of_nat i * Z.of_nat nch + Z.of_nat j) (Z.of_nat w) =
  Some (ring s r (Z.of_nat w * (Z.of_nat i * Z.of_nat nch + Z.of_nat j))).
Proof.
  intros G Hr Hj Hi Hfit'. unfold audio_stream_get_frag. rewrite Z.mul_comm. apply audio_stream_wrap_ring; [done|done|].
  assert (Z.of_nat i * Z.of_nat nch + Z.of_nat j <= Z.of_nat nch * Z.of_nat N) by nia. nia.
Qed.

Lemma frag_channel_ok n cnt ts m j t :
  progress_of cnt ts m -> (j < nch)%nat -> ts !! j = Some t -> (cnt j + n = N)%nat -> (forall j', (cnt j' <= N)%nat) ->
  exists m' t', frag_channel step ws wk n m t source sink p q (Z.of_nat (cnt j) * Z.of_nat nch + Z.of_nat j) (Z.of_nat nch) = Some (m', t') /\
    progress_of (<[j := N]> cnt) (<[j := t']> ts) m'.
Proof.
  revert cnt ts m t. induction n as [|n IH]; intros cnt ts m t P Hj Ht Hn Hcnt.
  { exists m, t. split; [done|]. rewrite list_insert_id by done. eapply progress_ext; [..|exact P]; try done. intros j' _.
    destruct (decide (j' = j)) as [->|]; [rewrite fn_lookup_insert; lia|by rewrite fn_lookup_insert_ne]. }
  cbn [frag_channel]. rewrite (get_frag_at ws source p), (get_frag_at wk sink q) by (done || lia). cbn [mbind option_bind].
  destruct (progress_step step ws wk nch source sink p q m0 ts0 hs0 N Hws Hwk Hnch Gs Gk As Ak Hdis Hfit Hok cnt ts m j t P Hj ltac:(lia) Ht Hcnt)
    as (m1 & t1 & z & E & P1). unfold src_at in E. rewrite E. cbn [mbind option_bind].
  set (cnt1 := <[j := S (cnt j)]> cnt) in *. assert (cnt1 j = S (cnt j)) as Ec by apply fn_lookup_insert.
  destruct (IH cnt1 _ _ t1 P1 Hj) as (m' & t' & E' & P').
  - apply list_lookup_insert_eq. by eapply lookup_lt_Some.
  - lia.
  - intros j'. unfold cnt1. destruct (decide (j' = j)) as [->|]; [rewrite fn_lookup_insert; lia|by rewrite fn_lookup_insert_ne].
  - exists m', t'. split.
    + rewrite <- E', Ec. unfold snk_at. f_equal. rewrite i32_small; nia.
    + rewrite list_insert_insert_eq in P'. eapply progress_ext; [..|exact P']; try done. intros j' _. unfold cnt1.
      destruct (decide (j' = j)) as [->|]; [by rewrite !fn_lookup_insert|by rewrite !fn_lookup_insert_ne].
Qed.

Lemma frag_channels_ok k j cnt ts m :
  progress_of cnt ts m -> (k + j = nch)%nat -> (forall j', cnt j' = if decide (j' < j)%nat then N else 0%nat) ->
  exists m' ts', frag_channels step ws wk k j N m ts source sink p q (Z.of_nat nch) = Some (m', ts') /\ progress_of (fun _ => N) ts' m'.
Proof.
  revert j cnt ts m. induction k as [|k IH]; intros j cnt ts m P Hk Hcnt.
  { exists m, ts. split; [done|]. eapply progress_ext; [..|exact P]; try done. intros j' Hj'. rewrite Hcnt, decide_True by lia. done. }
  cbn [frag_channels]. destruct (co_rep _ _ _ _ _ _ _ Hok j ltac:(lia)) as (u & Hu & _).
  destruct (pg_chan _ _ _ _ _ _ _ _ _ _ _ _ _ _ P j u ltac:(lia) Hu) as (t & Ht & _). rewrite Ht. cbn [mbind option_bind].
  assert (cnt j = 0%nat) as Ej by (rewrite Hcnt, decide_False; lia).
  destruct (frag_channel_ok N cnt ts m j t P ltac:(lia) Ht ltac:(lia)) as (m1 & t1 & E1 & P1).
  { intros j'. rewrite Hcnt. case_decide; lia. }
  rewrite Ej, Z.mul_0_l, Z.add_0_l in E1. rewrite E1. cbn [mbind option_bind fst snd]. eapply IH; [exact P1|lia|]. intros j'.
  destruct (decide (j' = j)) as [->|]; [rewrite fn_lookup_insert, decide_True by lia; lia|].
  rewrite fn_lookup_insert_ne, Hcnt by done. repeat case_decide; lia.
Qed.

Lemma frag_run_ok :
  exists m' ts', frag_channels step ws wk nch 0 N m0 ts0 source sink p q (Z.of_nat nch) = Some (m', ts') /\ progress_of (fun _ => N) ts' m'.
Proof.
  apply (frag_channels_ok nch 0 (fun _ => 0%nat)); [|lia|intros; by rewrite decide_False by lia].
  by apply (progress_start step ws wk nch source sink p q m0 ts0 hs0 N).
Qed.
End loop.
