(* ===== verification/Fir.v ===== *)
(** * Finite impulse response filters

    [src/math/fir_generic.c] with [include/sof/math/fir_generic.h] and
    [include/user/fir.h]: a delay line that is a ring of 32-bit samples, and
    coefficients of 16 bits. The filter is the convolution of its input with the
    coefficients. *)

From stdpp Require Import base list numbers option.
From S2P Require Import Prelude AudioStream Format SampleLoop.

Abbreviation SOF_FIR_MAX_LENGTH := 256 (only parsing).
Abbreviation sizeof_fir_coef_data := 20 (only parsing).

(** ** The filter *)

Record fir_state_32x16 := mk_fir {
  fir_rwi : Z;
  fir_taps : Z;
  fir_length : Z;
  fir_out_shift : Z;
  fir_coef : Z;
  fir_delay : Z
}.

Definition fir_reset (fir : fir_state_32x16) : fir_state_32x16 :=
  mk_fir 0 (fir_taps fir) 0 0 0 (fir_delay fir).

(** [config] is the address of a [struct sof_fir_coef_data]. *)
Definition fir_delay_size (m : mem) (config : Z) : Z :=
  let length := load_s16 m config in
  if (length >? SOF_FIR_MAX_LENGTH) || (length <? 1) then - EINVAL else length * 4.

Definition fir_init_coef (m : mem) (fir : fir_state_32x16) (config : Z) : fir_state_32x16 :=
  let length := load_s16 m config in
  mk_fir 0 length length (load_s16 m (config + 2)) (config + sizeof_fir_coef_data) (fir_delay fir).

(** The filter with its delay line, and the start of the next one. *)
Definition fir_init_delay (fir : fir_state_32x16) (data : Z) : fir_state_32x16 * Z :=
  (mk_fir (fir_rwi fir) (fir_taps fir) (fir_length fir) (fir_out_shift fir) (fir_coef fir) data,
   data + 4 * fir_length fir).

(** The loop over [n] taps: coefficients upwards, data downwards. *)
Fixpoint fir_loop (n : nat) (m : mem) (coef data y : Z) : Z :=
  match n with
  | O => y
  | S n => fir_loop n m (coef + 2) (data - 4) (i64 (y + load_s16 m coef * load_s32 m data))
  end.

Definition set_rwi (fir : fir_state_32x16) (rwi : Z) : fir_state_32x16 :=
  mk_fir rwi (fir_taps fir) (fir_length fir) (fir_out_shift fir) (fir_coef fir) (fir_delay fir).

(** A filter without delay line faults. *)
Definition fir_32x16 (m : mem) (fir : fir_state_32x16) (x : Z) : option (mem * fir_state_32x16 * Z) :=
  let data := fir_delay fir + 4 * fir_rwi fir in
  if fir_length fir =? 0 then Some (m, fir, x) else
  if fir_delay fir =? 0 then None else
  let m := store_le 4 m data x in
  let n1 := fir_rwi fir + 1 in
  let rwi := if n1 =? fir_length fir then 0 else n1 in
  let y :=
    if n1 >? fir_length fir then fir_loop (Z.to_nat (fir_length fir)) m (fir_coef fir) data 0
    else
      let y := fir_loop (Z.to_nat n1) m (fir_coef fir) data 0 in
      let n2 := fir_length fir - n1 in
      fir_loop (Z.to_nat n2) m (fir_coef fir + 2 * n1) (fir_delay fir + 4 * (fir_length fir - 1)) y in
  Some (m, set_rwi fir rwi, sat_int32 (Z.shiftr y (15 + fir_out_shift fir))).

(** ** What it computes *)

(** The inner product of coefficients and samples. *)
Definition dot (cs xs : list Z) : Z := foldr Z.add 0 (zip_with Z.mul cs xs).

Lemma dot_app cs1 cs2 xs1 xs2 :
  length cs1 = length xs1 -> dot (cs1 ++ cs2) (xs1 ++ xs2) = dot cs1 xs1 + dot cs2 xs2.
Proof.
  intros Hl. unfold dot. rewrite zip_with_app by done. induction (zip_with Z.mul cs1 xs1) as [|z l IH]; simpl; lia.
Qed.

(** The coefficients at an address, and the samples that a loop meets. *)
Definition coefs (m : mem) (coef : Z) (n : nat) : list Z := (fun i => load_s16 m (coef + 2 * Z.of_nat i)) <$> seq 0 n.
Definition taps (m : mem) (data : Z) (n : nat) : list Z := (fun i => load_s32 m (data - 4 * Z.of_nat i)) <$> seq 0 n.

Lemma coefs_S m coef n : coefs m coef (S n) = load_s16 m coef :: coefs m (coef + 2) n.
Proof.
  unfold coefs. simpl. f_equal; [f_equal; lia|]. rewrite <- fmap_S_seq, <- list_fmap_compose.
  apply list_fmap_ext. intros _ i _. simpl. f_equal. lia.
Qed.

Lemma taps_S m data n : taps m data (S n) = load_s32 m data :: taps m (data - 4) n.
Proof.
  unfold taps. simpl. f_equal; [f_equal; lia|]. rewrite <- fmap_S_seq, <- list_fmap_compose.
  apply list_fmap_ext. intros _ i _. simpl. f_equal. lia.
Qed.

Lemma product_bound m coef data : Z.abs (load_s16 m coef * load_s32 m data) <= 2 ^ 46.
Proof.
  pose proof (i16_range (load_le 2 m coef)) as H1. pose proof (i32_range (load_le 4 m data)) as H2.
  unfold load_s16, load_s32. unfold is_s32, is_s16 in *. rewrite Z.abs_mul.
  replace (2 ^ 46) with (2 ^ 15 * 2 ^ 31) by lia. apply Z.mul_le_mono_nonneg; lia.
Qed.

Lemma dot_bound m coef data n : Z.abs (dot (coefs m coef n) (taps m data n)) <= Z.of_nat n * 2 ^ 46.
Proof.
  revert coef data. induction n as [|n IH]; intros coef data; [done|]. rewrite coefs_S, taps_S.
  specialize (IH (coef + 2) (data - 4)). pose proof (product_bound m coef data). unfold dot in *. simpl in *. lia.
Qed.

(** The accumulator of 64 bits does not wrap. *)
Lemma fir_loop_dot n m coef data y :
  Z.abs y + Z.of_nat n * 2 ^ 46 < 2 ^ 63 -> fir_loop n m coef data y = y + dot (coefs m coef n) (taps m data n).
Proof.
  revert coef data y. induction n as [|n IH]; intros coef data y Hy; [simpl; unfold dot; simpl; lia|].
  cbn [fir_loop]. pose proof (product_bound m coef data). rewrite i64_small by lia.
  rewrite IH by lia. rewrite coefs_S, taps_S. unfold dot. simpl. lia.
Qed.

(** The next output: [h] has the newest sample first. *)
Definition fir_out (cs : list Z) (out_shift : Z) (h : list Z) : Z := sat_int32 (Z.shiftr (dot cs h) (15 + out_shift)).

(** A filter with its delay line apart from its coefficients; the shift is one
    that C defines. *)
Record fir_wf (fir : fir_state_32x16) : Prop := {
  fw_length : 0 < fir_length fir <= SOF_FIR_MAX_LENGTH;
  fw_rwi : 0 <= fir_rwi fir < fir_length fir;
  fw_delay : 0 < fir_delay fir;
  fw_shift : 0 <= 15 + fir_out_shift fir < 64;
  fw_apart : fir_coef fir + 2 * fir_length fir <= fir_delay fir \/ fir_delay fir + 4 * fir_length fir <= fir_coef fir
}.

(** The delay line holds the last samples, newest first. *)
Definition fir_hist (m : mem) (fir : fir_state_32x16) (h : list Z) : Prop :=
  length h = Z.to_nat (fir_length fir) /\
  forall i x, h !! i = Some x -> load_s32 m (fir_delay fir + 4 * ((fir_rwi fir - 1 - Z.of_nat i) mod fir_length fir)) = x.

Definition in_delay (fir : fir_state_32x16) (a : Z) : Prop :=
  fir_delay fir <= a < fir_delay fir + 4 * fir_length fir.

(** The new sample at the front, the oldest one gone. *)
Definition push (x : Z) (h : list Z) : list Z := take (length h) (x :: h).

Lemma push_lookup x h i y : push x h !! i = Some y -> (i < length h)%nat /\ match i with O => y = x | S i => h !! i = Some y end.
Proof.
  intros H. pose proof (lookup_lt_Some _ _ _ H) as Hi. unfold push in *. rewrite length_take in Hi. rewrite lookup_take_lt in H by lia.
  split; [simpl in Hi; lia|]. destruct i; simpl in H; [congruence|done].
Qed.

Lemma length_push x h : length (push x h) = length h.
Proof. unfold push. rewrite length_take. simpl. lia. Qed.

Lemma store_s32_same m p x : is_s32 x -> load_s32 (store_le 4 m p x) p = x.
Proof. intros Hx. unfold load_s32. rewrite le_load_store. change (8 * Z.of_nat 4) with 32. rewrite i32_pattern. by apply i32_small. Qed.

Lemma store_s32_other m p q x : q + 4 <= p \/ p + 4 <= q -> load_s32 (store_le 4 m p x) q = load_s32 m q.
Proof. intros H. unfold load_s32. f_equal. apply le_load_ext. intros a Ha. apply le_store_out. lia. Qed.

(** Storing the sample and moving the index on. *)
Lemma fir_hist_push m fir h x :
  fir_wf fir -> fir_hist m fir h -> is_s32 x ->
  fir_hist (store_le 4 m (fir_delay fir + 4 * fir_rwi fir) x)
    (set_rwi fir (if fir_rwi fir + 1 =? fir_length fir then 0 else fir_rwi fir + 1)) (push x h).
Proof.
  intros [Hl Hr _ _ _] [Hlen Hh] Hx. split; [by rewrite length_push|]. intros i y Hi. simpl.
  set (L := fir_length fir) in *. set (r := fir_rwi fir) in *.
  assert (((if r + 1 =? L then 0 else r + 1) - 1 - Z.of_nat i) mod L = (r - Z.of_nat i) mod L) as ->.
  { destruct (Z.eqb_spec (r + 1) L); [|f_equal; lia]. replace (0 - 1 - Z.of_nat i) with (r - Z.of_nat i + (-1) * L) by lia.
    by rewrite Z.mod_add by lia. }
  apply push_lookup in Hi as [Hi Hy]. destruct i as [|i]; [subst y|].
  - rewrite Z.sub_0_r, Z.mod_small by lia. by apply store_s32_same.
  - rewrite store_s32_other; [rewrite <- (Hh _ _ Hy); do 4 f_equal; lia|].
    assert ((r - Z.of_nat (S i)) mod L <> r).
    { intros E. assert (0 <= Z.of_nat (S i) < L) by lia. destruct (Z.le_gt_cases (Z.of_nat (S i)) r).
      - rewrite Z.mod_small in E by lia. lia.
      - replace (r - Z.of_nat (S i)) with (r - Z.of_nat (S i) + L + (-1) * L) in E by lia.
        rewrite Z.mod_add, Z.mod_small in E by lia. lia. }
    lia.
Qed.

(** The two loops meet the samples in order. *)
Lemma hist_taps m fir h (rwi : Z) :
  fir_length fir <= SOF_FIR_MAX_LENGTH -> 0 <= rwi < fir_length fir ->
  length h = Z.to_nat (fir_length fir) ->
  (forall i x, h !! i = Some x -> load_s32 m (fir_delay fir + 4 * ((rwi - Z.of_nat i) mod fir_length fir)) = x) ->
  h = taps m (fir_delay fir + 4 * rwi) (Z.to_nat (rwi + 1)) ++
      taps m (fir_delay fir + 4 * (fir_length fir - 1)) (Z.to_nat (fir_length fir - (rwi + 1))).
Proof.
  intros Hl Hr Hlen Hh. unfold taps. apply list_eq_lookup_lt.
  - rewrite length_app, !length_fmap, !length_seq. lia.
  - intros i Hi. rewrite length_app, !length_fmap, !length_seq in Hi. destruct (lookup_lt_is_Some_2 h i) as [x Hx]; [lia|].
    rewrite Hx, <- (Hh i x Hx). destruct (decide (i < Z.to_nat (rwi + 1))%nat) as [Hlt|Hge].
    + rewrite lookup_app_l by (rewrite length_fmap, length_seq; lia). rewrite list_lookup_fmap, lookup_seq_lt by lia. simpl.
      rewrite Z.mod_small by lia. do 2 f_equal. lia.
    + rewrite lookup_app_r by (rewrite length_fmap, length_seq; lia). rewrite length_fmap, length_seq.
      rewrite list_lookup_fmap, lookup_seq_lt by lia. simpl. f_equal. f_equal.
      replace (rwi - Z.of_nat i) with (rwi - Z.of_nat i + fir_length fir + (-1) * fir_length fir) by lia.
      rewrite Z.mod_add, Z.mod_small by lia. lia.
Qed.

Lemma coefs_ext m m' coef n :
  (forall a, coef <= a < coef + 2 * Z.of_nat n -> m' a = m a) -> coefs m' coef n = coefs m coef n.
Proof.
  intros H. apply list_fmap_ext. intros _ i Hi%list_elem_of_lookup_2%elem_of_seq. unfold load_s16. f_equal. apply le_load_ext.
  intros a Ha. apply H. lia.
Qed.

Lemma coefs_app m coef n1 n2 : coefs m coef (n1 + n2) = coefs m coef n1 ++ coefs m (coef + 2 * Z.of_nat n1) n2.
Proof.
  revert coef. induction n1 as [|n1 IH]; intros coef; [simpl; by rewrite Z.add_0_r|].
  change (S n1 + n2)%nat with (S (n1 + n2)). rewrite !coefs_S, IH.
  by replace (coef + 2 * Z.of_nat (S n1)) with (coef + 2 + 2 * Z.of_nat n1) by lia.
Qed.

Definition fir_next (fir : fir_state_32x16) : fir_state_32x16 :=
  set_rwi fir (if fir_rwi fir + 1 =? fir_length fir then 0 else fir_rwi fir + 1).

Lemma fir_next_wf fir : fir_wf fir -> fir_wf (fir_next fir).
Proof. intros []. constructor; simpl; try done. case_if; lia. Qed.

(** One sample: the state moves on and the output is that of the definition. *)
Lemma fir_step m fir h x :
  fir_wf fir -> fir_hist m fir h -> is_s32 x ->
  exists m', fir_32x16 m fir x = Some (m', fir_next fir,
      fir_out (coefs m (fir_coef fir) (Z.to_nat (fir_length fir))) (fir_out_shift fir) (push x h)) /\
    fir_hist m' (fir_next fir) (push x h) /\ (forall a, ~ in_delay fir a -> m' a = m a).
Proof.
  intros W Hh Hx. pose proof W as [Hl Hr Hd Hsh Hap]. exists (store_le 4 m (fir_delay fir + 4 * fir_rwi fir) x).
  pose proof (fir_hist_push m fir h x W Hh Hx) as Hp. set (m' := store_le 4 m _ x) in *.
  assert (forall a, ~ in_delay fir a -> m' a = m a) as Hout by (intros a Ha; apply le_store_out; unfold in_delay in Ha; lia).
  split_and!; [|done|done]. unfold fir_32x16. replace (fir_length fir =? 0) with false by lia.
  replace (fir_delay fir =? 0) with false by lia. replace (fir_rwi fir + 1 >? fir_length fir) with false by lia.
  fold m'. unfold fir_next. do 2 f_equal. unfold fir_out. do 2 f_equal.
  rewrite (fir_loop_dot (Z.to_nat (fir_rwi fir + 1))) by lia.
  pose proof (dot_bound m' (fir_coef fir) (fir_delay fir + 4 * fir_rwi fir) (Z.to_nat (fir_rwi fir + 1))) as Hb.
  rewrite fir_loop_dot by lia. destruct Hp as [Hlen Hlk].
  rewrite (hist_taps m' fir (push x h) (fir_rwi fir)); [|lia|lia|exact Hlen|].
  - rewrite <- (coefs_ext m m') by (intros a Ha; apply Hout; unfold in_delay; lia).
    replace (Z.to_nat (fir_length fir)) with (Z.to_nat (fir_rwi fir + 1) + Z.to_nat (fir_length fir - (fir_rwi fir + 1)))%nat by lia.
    rewrite coefs_app, dot_app by (unfold coefs, taps; by rewrite !length_fmap, !length_seq). rewrite Z2Nat.id by lia. lia.
  - intros i y Hi. rewrite <- (Hlk i y Hi). simpl. do 3 f_equal.
    destruct (Z.eqb_spec (fir_rwi fir + 1) (fir_length fir)) as [E|E]; [|f_equal; lia].
    replace (fir_rwi fir - Z.of_nat i) with (0 - 1 - Z.of_nat i + 1 * fir_length fir) by lia. by rewrite Z.mod_add by lia.
Qed.

(** ** Streams of samples *)

Fixpoint fir_run (m : mem) (fir : fir_state_32x16) (xs : list Z) : option (mem * fir_state_32x16 * list Z) :=
  match xs with
  | [] => Some (m, fir, [])
  | x :: xs =>
      r ← fir_32x16 m fir x;
      let '(m, fir, y) := r in
      r ← fir_run m fir xs;
      Some (r.1.1, r.1.2, y :: r.2)
  end.

(** The outputs for inputs after a history. *)
Fixpoint fir_outs (cs : list Z) (out_shift : Z) (h xs : list Z) : list Z :=
  match xs with
  | [] => []
  | x :: xs => fir_out cs out_shift (push x h) :: fir_outs cs out_shift (push x h) xs
  end.

Lemma fir_run_outs m fir h xs :
  fir_wf fir -> fir_hist m fir h -> Forall is_s32 xs ->
  exists m' fir', fir_run m fir xs = Some (m', fir',
      fir_outs (coefs m (fir_coef fir) (Z.to_nat (fir_length fir))) (fir_out_shift fir) h xs) /\
    forall a, ~ in_delay fir a -> m' a = m a.
Proof.
  intros W Hh Hx. revert m fir h W Hh. induction Hx as [|x xs Hx Hxs IH]; intros m fir h W Hh; [by exists m, fir|].
  destruct (fir_step m fir h x W Hh Hx) as (m1 & E & Hh1 & Hm1). simpl. rewrite E. simpl.
  destruct (IH m1 (fir_next fir) (push x h) (fir_next_wf _ W) Hh1) as (m2 & fir2 & E2 & Hm2). rewrite E2. simpl.
  exists m2, fir2. split; [|intros a Ha; by rewrite Hm2, Hm1]. do 4 f_equal. apply coefs_ext. intros a Ha. apply Hm1.
  pose proof (fw_apart _ W). unfold in_delay. simpl in Ha. lia.
Qed.

Lemma push_take xs h n : push xs (take n h) = take (length (take n h)) (xs :: h).
Proof.
  unfold push. rewrite length_take. destruct (Nat.min n (length h)) as [|k] eqn:E; [done|]. simpl. f_equal.
  rewrite take_take. f_equal. lia.
Qed.

Lemma dot_take cs xs : dot cs (take (length cs) xs) = dot cs xs.
Proof. unfold dot. f_equal. revert xs. induction cs as [|c cs IH]; intros [|x xs]; simpl; [done..|]. by rewrite IH. Qed.

(** From a delay line of zeros the output is the convolution. *)
Lemma fir_outs_lookup cs out_shift before xs k x :
  xs !! k = Some x ->
  fir_outs cs out_shift (take (length cs) (before ++ replicate (length cs) 0)) xs !! k =
  Some (fir_out cs out_shift (reverse (take (S k) xs) ++ before ++ replicate (length cs) 0)).
Proof.
  revert before k. induction xs as [|y xs IH]; intros before k Hk; [done|]. simpl.
  assert (push y (take (length cs) (before ++ replicate (length cs) 0)) =
    take (length cs) ((y :: before) ++ replicate (length cs) 0)) as E.
  { rewrite push_take. f_equal. rewrite length_take, length_app, length_replicate. lia. }
  rewrite E. destruct k as [|k]; simpl in *.
  - f_equal. unfold fir_out. by rewrite dot_take.
  - etransitivity; [exact (IH (y :: before) k Hk)|]. by rewrite (reverse_cons _ y), <- app_assoc.
Qed.

(** C32: A filter whose delay line is cleared is the convolution of its input with its
    coefficients: output [k] is the sum over the taps of coefficient times the input
    that many samples earlier (0 before the first one), scaled and saturated, for
    inputs of any length, wherever the ring of the delay line stands; the
    accumulator never overflows, and nothing but the delay line is written. *)
Theorem fir_convolves m fir xs :
  fir_wf fir -> fir_hist m fir (replicate (Z.to_nat (fir_length fir)) 0) -> Forall is_s32 xs ->
  let cs := coefs m (fir_coef fir) (Z.to_nat (fir_length fir)) in
  exists m' fir' ys, fir_run m fir xs = Some (m', fir', ys) /\ length ys = length xs /\
    (forall k y, ys !! k = Some y ->
       y = sat_int32 (Z.shiftr (dot cs (reverse (take (S k) xs) ++ replicate (length cs) 0)) (15 + fir_out_shift fir))) /\
    (forall a, ~ in_delay fir a -> m' a = m a).
Proof.
  intros W Hh Hx cs. destruct (fir_run_outs m fir _ xs W Hh Hx) as (m' & fir' & E & Hm). fold cs in E.
  assert (length cs = Z.to_nat (fir_length fir)) as El by (subst cs; unfold coefs; by rewrite length_fmap, length_seq).
  assert (forall h, length (fir_outs cs (fir_out_shift fir) h xs) = length xs) as Hlen
    by (intros h; clear -xs; revert h; induction xs as [|x xs IH]; intros h; simpl; auto).
  eexists m', fir', _. split_and!; [exact E|apply Hlen| |done].
  intros k y Hy. pose proof (lookup_lt_Some _ _ _ Hy) as Hk. rewrite Hlen in Hk.
  destruct (lookup_lt_is_Some_2 xs k Hk) as [x Hkx]. pose proof (fir_outs_lookup cs (fir_out_shift fir) [] xs k x Hkx) as H.
  simpl in H. rewrite El, take_ge in H by (rewrite length_replicate; lia). rewrite Hy in H. injection H as ->. by rewrite El.
Qed.

(** ** Examples *)

(** Two taps, 0.5 and 0.25, at 1000. *)
Definition demo_fir_mem : mem := fun a => if a =? 1001 then 64 else if a =? 1003 then 32 else 0.
Definition demo_fir : fir_state_32x16 := mk_fir 1 2 2 0 1000 2000.

Lemma demo_fir_wf : fir_wf demo_fir.
Proof. constructor; simpl; lia. Qed.

Lemma demo_fir_hist : fir_hist demo_fir_mem demo_fir (replicate 2 0).
Proof. split; [done|]. intros i x [-> Hi]%lookup_replicate. destruct i as [|[|i]]; [vm_compute; reflexivity..|lia]. Qed.

Lemma fir_convolves_witness :
  exists m' fir' ys, fir_run demo_fir_mem demo_fir [1000; 0; 0] = Some (m', fir', ys) /\ length ys = 3%nat /\
    (forall k y, ys !! k = Some y -> y = sat_int32 (Z.shiftr (dot [16384; 8192] (reverse (take (S k) [1000; 0; 0]) ++ [0; 0])) 15)) /\
    (forall a, ~ in_delay demo_fir a -> m' a = demo_fir_mem a).
Proof.
  apply (fir_convolves demo_fir_mem demo_fir [1000; 0; 0]); [apply demo_fir_wf|apply demo_fir_hist|].
  repeat constructor; unfold is_s32; lia.
Defined.

Example demo_impulse_response : (r ← fir_run demo_fir_mem demo_fir [1000; 0; 0]; Some r.2) = Some [500; 250; 0].
Proof. vm_compute. reflexivity. Qed.
