(* ===== verification/Topology.v ===== *)
(** * The topology: what the host creates, connects and frees

    [src/ipc/ipc-common.c], [src/ipc/ipc-helper.c], [src/ipc/ipc3/helper.c],
    [include/sof/ipc/topology.h], [include/ipc/topology.h] and the driver list of
    [src/audio/component.c]. The firmware keeps a list of entries, one per
    component, buffer and pipeline, under the identifiers the host chooses. *)

From stdpp Require Import base list numbers option gmap.
From S2P Require Import Prelude StateM AudioStream Heap Allocator Buffer CompState Pipeline PipelineOps.

Abbreviation COMP_TYPE_COMPONENT := 1 (only parsing).
Abbreviation COMP_TYPE_BUFFER := 2 (only parsing).
Abbreviation COMP_TYPE_PIPELINE := 3 (only parsing).
Abbreviation SOF_COMP_NONE := 0 (only parsing).
Abbreviation SOF_COMP_SG_HOST := 3 (only parsing).
Abbreviation SOF_COMP_VOLUME := 5 (only parsing).
Abbreviation SOF_COMP_MUX := 7 (only parsing).
Abbreviation SOF_COMP_SRC := 8 (only parsing).
Abbreviation SOF_COMP_TONE := 10 (only parsing).
Abbreviation SOF_COMP_BUFFER := 12 (only parsing).
Abbreviation SOF_COMP_EQ_IIR := 13 (only parsing).
Abbreviation SOF_COMP_EQ_FIR := 14 (only parsing).
Abbreviation SOF_COMP_KEYWORD_DETECT := 15 (only parsing).
Abbreviation SOF_COMP_KPB := 16 (only parsing).
Abbreviation SOF_COMP_SELECTOR := 17 (only parsing).
Abbreviation SOF_COMP_DEMUX := 18 (only parsing).
Abbreviation SOF_COMP_ASRC := 19 (only parsing).
Abbreviation SOF_COMP_DCBLOCK := 20 (only parsing).
Abbreviation SOF_COMP_SMART_AMP := 21 (only parsing).
Abbreviation SOF_COMP_CODEC_ADAPTOR := 22 (only parsing).
Abbreviation SOF_BUF_OVERRUN_PERMITTED := 1 (only parsing).
Abbreviation SOF_BUF_UNDERRUN_PERMITTED := 2 (only parsing).
Abbreviation UUID_SIZE := 16 (only parsing).
Abbreviation sizeof_sof_ipc_comp := 28 (only parsing).
Abbreviation sizeof_sof_ipc_comp_config := 36 (only parsing).

(** ** What the host sends *)

(** The descriptor of a component: [struct sof_ipc_comp], the extended data at
    [hdr.size - ext_data_length], [struct sof_ipc_comp_config] behind it, and the
    32-bit words behind that. *)
Record sof_ipc_comp := mk_ipc_comp {
  cm_hdr_size : Z;
  cm_id : Z;
  cm_type : Z;
  cm_pipeline_id : Z;
  cm_core : Z;
  cm_ext_data_length : Z;
  cm_ext : list Z;
  cm_config_size : Z;
  cm_periods_sink : Z;
  cm_periods_source : Z;
  cm_frame_fmt : Z;
  cm_xrun_action : Z;
  cm_body : list Z
}.

Record sof_ipc_buffer := mk_ipc_buffer {
  ib_comp : sof_ipc_comp;
  ib_size : Z;
  ib_caps : Z;
  ib_flags : Z
}.

Record sof_ipc_pipe_new := mk_pipe_new {
  pp_comp_id : Z;
  pp_pipeline_id : Z;
  pp_sched_id : Z;
  pp_core : Z;
  pp_period : Z;
  pp_priority : Z;
  pp_period_mips : Z;
  pp_frames_per_sched : Z;
  pp_xrun_limit_usecs : Z;
  pp_time_domain : Z
}.

(** ** What a driver gets *)

Record comp_ipc_config := mk_ipc_config {
  cf_core : Z;
  cf_id : Z;
  cf_pipeline_id : Z;
  cf_type : Z;
  cf_frame_fmt : Z;
  cf_periods_sink : Z;
  cf_periods_source : Z;
  cf_xrun_action : Z
}.

(** [union ipc_config_specific]. *)
Inductive ipc_config_specific :=
| SpecZero
| SpecHost (direction no_irq dmac_config : Z)
| SpecDai (dai_index direction type : Z)
| SpecVolume (channels initial_ramp max_value min_value ramp : Z)
| SpecSrc (rate_mask sink_rate source_rate : Z)
| SpecTone (ampl_mult amplitude freq_mult frequency length period ramp_step repeats sample_rate : Z)
| SpecAsrc (source_rate sink_rate asynchronous_mode operation_mode : Z)
| SpecProcess (type size : Z) (data : list Z).

Definition comp_common_builder (comp : sof_ipc_comp) : comp_ipc_config :=
  if negb (cm_type comp =? SOF_COMP_BUFFER) then
    mk_ipc_config (cm_core comp) (cm_id comp) (cm_pipeline_id comp) (cm_type comp) (cm_frame_fmt comp)
      (cm_periods_sink comp) (cm_periods_source comp) (cm_xrun_action comp)
  else mk_ipc_config (cm_core comp) (cm_id comp) (cm_pipeline_id comp) (cm_type comp) 0 0 0 0.

Definition word (comp : sof_ipc_comp) (i : nat) : Z := nth i (cm_body comp) 0.

Definition comp_specific_builder (comp : sof_ipc_comp) : ipc_config_specific :=
  let w := word comp in
  let type := cm_type comp in
  if (type =? SOF_COMP_HOST) || (type =? SOF_COMP_SG_HOST) then SpecHost (w 0%nat) (w 1%nat) (w 2%nat)
  else if (type =? SOF_COMP_DAI) || (type =? SOF_COMP_SG_DAI) then SpecDai (w 1%nat) (w 0%nat) (w 2%nat)
  else if type =? SOF_COMP_VOLUME then SpecVolume (w 0%nat) (w 4%nat) (w 2%nat) (w 1%nat) (w 3%nat)
  else if type =? SOF_COMP_SRC then SpecSrc (w 2%nat) (w 1%nat) (w 0%nat)
  else if type =? SOF_COMP_TONE then
    SpecTone (w 4%nat) (w 2%nat) (w 3%nat) (w 1%nat) (w 5%nat) (w 6%nat) (w 8%nat) (w 7%nat) (w 0%nat)
  else if type =? SOF_COMP_ASRC then SpecAsrc (w 0%nat) (w 1%nat) (w 2%nat) (w 3%nat)
  else if bool_decide (type ∈ [SOF_COMP_EQ_IIR; SOF_COMP_EQ_FIR; SOF_COMP_KEYWORD_DETECT; SOF_COMP_KPB;
       SOF_COMP_SELECTOR; SOF_COMP_DEMUX; SOF_COMP_MUX; SOF_COMP_DCBLOCK; SOF_COMP_SMART_AMP;
       SOF_COMP_CODEC_ADAPTOR; SOF_COMP_NONE])
  then SpecProcess (w 1%nat) (w 0%nat) (drop 9 (cm_body comp))
  else SpecZero.

(** ** State *)

(** An entry of the driver list: type, UUID and the driver. *)
Record comp_driver_info := mk_driver_info {
  di_type : Z;
  di_uid : list Z;
  di_drv : Z
}.

(** [ic_ptr] is the union of the three pointers. *)
Record ipc_comp_dev := mk_icd {
  ic_type : Z;
  ic_core : Z;
  ic_id : Z;
  ic_ptr : Z
}.

(** [tp_drv] is what the drivers keep for their components. The entry list is a
    sequence of addresses (see [IntrusiveList]). *)
Record topo (A D : Type) := mk_topo {
  tp_world : world A;
  tp_drv : D;
  tp_drivers : list comp_driver_info;
  tp_icds : gmap Z ipc_comp_dev;
  tp_comp_list : list Z
}.
Arguments mk_topo {A D}. Arguments tp_world {A D}. Arguments tp_drv {A D}. Arguments tp_drivers {A D}.
Arguments tp_icds {A D}. Arguments tp_comp_list {A D}.

(** The drivers: [ops.create] of a driver and [ops.free] of the driver of a
    component, on the world and their own state. *)
Record driver_ops (A D : Type) := mk_driver_ops {
  ops_create : Z -> comp_ipc_config -> ipc_config_specific -> ST (world A * D) Z;
  ops_free : Z -> ST (world A * D) unit
}.
Arguments mk_driver_ops {A D}. Arguments ops_create {A D}. Arguments ops_free {A D}.

Notation T A D := (ST (topo A D)).

Section topology.
Context {A D : Type} `{!Allocator A} (e : env A) (fuel : nat) (data0 : pipeline_data).
Context (sizeof_buffer sizeof_ipc_comp_dev CONFIG_CORE_COUNT : Z) (stream_hdr : Z -> Z).
Context (dops : driver_ops A D).

(** [ipc_process_on_core]: the command is sent to another core. *)
Context (ipc_process_on_core : Z -> T A D Z).

Definition with_world (t : topo A D) (w : world A) : topo A D :=
  mk_topo w (tp_drv t) (tp_drivers t) (tp_icds t) (tp_comp_list t).
Definition with_icds (t : topo A D) (icds : gmap Z ipc_comp_dev) (l : list Z) : topo A D :=
  mk_topo (tp_world t) (tp_drv t) (tp_drivers t) icds l.
Definition with_drivers (t : topo A D) (l : list comp_driver_info) : topo A D :=
  mk_topo (tp_world t) (tp_drv t) l (tp_icds t) (tp_comp_list t).

Definition on_world {B} (m : M A B) : T A D B := fun t =>
  match m (tp_world t) with Some (w, x) => Some (with_world t w, x) | None => None end.

Definition on_driver {B} (m : ST (world A * D) B) : T A D B := fun t =>
  match m (tp_world t, tp_drv t) with
  | Some ((w, d), x) => Some (mk_topo w d (tp_drivers t) (tp_icds t) (tp_comp_list t), x)
  | None => None
  end.

Definition get_icd (icd : Z) : T A D ipc_comp_dev := fun t => i ← tp_icds t !! icd; Some (t, i).

Definition cpu_is_me (core : Z) : bool := core =? cpu_id e.

(** ** The driver list *)

Definition comp_register (drv : comp_driver_info) : T A D Z :=
  modify (fun t => with_drivers t (drv :: tp_drivers t)) ;; mret 0.

Definition comp_unregister (drv : Z) : T A D unit :=
  modify (fun t => with_drivers t (filter (fun i => di_drv i <> drv) (tp_drivers t))).

(** The first entry with a property. *)
Definition find_driver (p : comp_driver_info -> bool) (l : list comp_driver_info) : option Z :=
  di_drv <$> List.find p l.

Definition get_drv (comp : sof_ipc_comp) : T A D (option Z) :=
  drivers ← gets tp_drivers;
  if cm_ext_data_length comp =? 0 then mret (find_driver (fun i => di_type i =? cm_type comp) drivers) else
  if cm_hdr_size comp <? u32 (sizeof_sof_ipc_comp + cm_ext_data_length comp) then mret None else
  if cm_ext_data_length comp <? UUID_SIZE then mret None else
  mret (find_driver (fun i => bool_decide (di_uid i = take (Z.to_nat UUID_SIZE) (cm_ext comp))) drivers).

(** ** Components *)

Definition comp_new (comp : sof_ipc_comp) : T A D Z :=
  drv ← get_drv comp;
  match drv with
  | None => mret 0
  | Some drv =>
      if negb (cm_config_size comp =? sizeof_sof_ipc_comp_config) then mret 0 else
      cdev ← on_driver (ops_create dops drv (comp_common_builder comp) (comp_specific_builder comp));
      if cdev =? 0 then mret 0 else
      on_world (mod_dev cdev (set_lists [] [])) ;;
      mret cdev
  end.

(** A component that another core uses is outside the model. *)
Definition comp_free (dev : Z) : T A D unit :=
  d ← on_world (get_dev dev);
  if d_is_shared d then fault else on_driver (ops_free dops dev).

(** ** The entries *)

Fixpoint find_icd (p : ipc_comp_dev -> T A D bool) (l : list Z) : T A D Z :=
  match l with
  | [] => mret 0
  | icd :: l => i ← get_icd icd; found ← p i; if found : bool then mret icd else find_icd p l
  end.

Definition ipc_get_comp_by_id (id : Z) : T A D Z :=
  l ← gets tp_comp_list; find_icd (fun i => mret (ic_id i =? id)) l.

Definition ipc_comp_pipe_id (i : ipc_comp_dev) : T A D Z :=
  if ic_type i =? COMP_TYPE_COMPONENT then d ← on_world (get_dev (ic_ptr i)); mret (i32 (d_pipe_id d))
  else if ic_type i =? COMP_TYPE_BUFFER then b ← on_world (get_buf (ic_ptr i)); mret (i32 (b_pipeline_id b))
  else if ic_type i =? COMP_TYPE_PIPELINE then p ← on_world (get_ppl (ic_ptr i)); mret (i32 (p_pipeline_id p))
  else mret (- EINVAL).

Definition ipc_get_comp_by_ppl_id (type ppl_id : Z) : T A D Z :=
  l ← gets tp_comp_list;
  find_icd (fun i =>
    if negb (ic_type i =? type) then mret false else
    if negb (cpu_is_me (ic_core i)) then mret false else
    id ← ipc_comp_pipe_id i; mret (u32 id =? ppl_id)) l.

(** A component of the pipeline without buffers on one side; or else one whose
    first buffer on that side leads to another pipeline. *)
Definition ipc_get_ppl_comp (pipeline_id dir : Z) : T A D Z :=
  l ← gets tp_comp_list;
  icd ← find_icd (fun i =>
    if negb (ic_type i =? COMP_TYPE_COMPONENT) then mret false else
    if negb (cpu_is_me (ic_core i)) then mret false else
    d ← on_world (get_dev (ic_ptr i));
    mret ((d_pipe_id d =? pipeline_id) && bool_decide (comp_buffer_list d dir = []))) l;
  if negb (icd =? 0) then mret icd else
  find_icd (fun i =>
    if negb (ic_type i =? COMP_TYPE_COMPONENT) then mret false else
    if negb (cpu_is_me (ic_core i)) then mret false else
    d ← on_world (get_dev (ic_ptr i));
    if negb (d_pipe_id d =? pipeline_id) then mret false else
    buffer ← lift (head (comp_buffer_list d dir));
    b ← on_world (get_buf buffer);
    let buff_comp := buffer_get_comp b dir in
    if buff_comp =? 0 then mret false else
    c ← on_world (get_dev buff_comp);
    mret (negb (d_pipe_id c =? pipeline_id))) l.

Definition ipc_get_ppl_src_comp (ppl_id : Z) : T A D Z := ipc_get_ppl_comp ppl_id PPL_DIR_UPSTREAM.
Definition ipc_get_ppl_sink_comp (ppl_id : Z) : T A D Z := ipc_get_ppl_comp ppl_id PPL_DIR_DOWNSTREAM.

(** A new entry at the end of the list. *)
Definition add_icd (icd : Z) (i : ipc_comp_dev) : T A D unit :=
  modify (fun t => with_icds t (<[icd := i]> (tp_icds t)) (tp_comp_list t ++ [icd])).

(** [list_item_del] and [rfree] of an entry. *)
Definition del_icd (icd : Z) : T A D unit :=
  modify (fun t => with_icds t (delete icd (tp_icds t)) (filter (fun x => x <> icd) (tp_comp_list t))) ;;
  on_world (free icd).

Definition ipc_comp_new (comp : sof_ipc_comp) : T A D Z :=
  if CONFIG_CORE_COUNT <=? cm_core comp then mret (- EINVAL) else
  icd ← ipc_get_comp_by_id (cm_id comp);
  if negb (icd =? 0) then mret (- EINVAL) else
  cd ← comp_new comp;
  if cd =? 0 then mret (- EINVAL) else
  icd ← on_world (zalloc sizeof_ipc_comp_dev);
  if icd =? 0 then
    on_world (free cd) ;;
    on_world (modify (fun w => with_devs w (delete cd (w_devs w)))) ;;
    mret (- ENOMEM)
  else
  add_icd icd (mk_icd COMP_TYPE_COMPONENT (u16 (cm_core comp)) (cm_id comp) cd) ;;
  mret 0.

Definition ipc_comp_free (comp_id : Z) : T A D Z :=
  icd ← ipc_get_comp_by_id comp_id;
  if icd =? 0 then mret (- ENODEV) else
  i ← get_icd icd;
  if negb (ic_type i =? COMP_TYPE_COMPONENT) then mret (- EINVAL) else
  if negb (cpu_is_me (ic_core i)) then ipc_process_on_core (ic_core i) else
  d ← on_world (get_dev (ic_ptr i));
  if negb (d_state d =? COMP_STATE_READY) then mret (- EINVAL) else
  comp_free (ic_ptr i) ;;
  del_icd icd ;;
  mret 0.

(** ** Buffers *)

Definition set_desc (desc : sof_ipc_buffer) (b : comp_buffer) : comp_buffer :=
  let s := b_stream b in
  mk_buffer (b_self b)
    (mk_stream (s_size s) (s_avail s) (s_free s) (s_w_ptr s) (s_r_ptr s) (s_addr s) (s_end_addr s)
       (s_frame_fmt s) (s_valid_sample_fmt s) (s_rate s) (s_channels s)
       (negb (Z.land (ib_flags desc) SOF_BUF_OVERRUN_PERMITTED =? 0))
       (negb (Z.land (ib_flags desc) SOF_BUF_UNDERRUN_PERMITTED =? 0)))
    (cm_id (ib_comp desc)) (cm_pipeline_id (ib_comp desc)) (b_caps b) (cm_core (ib_comp desc)) (b_source b)
    (b_sink b) (b_buffer_fmt b) (b_chmap b) (b_hw_params_configured b) (b_walking b).

Definition buffer_new (desc : sof_ipc_buffer) : M A Z := fun w =>
  r ← buffer_alloc sizeof_buffer (w_alloc w) (w_mem w) (ib_size desc) (ib_caps desc) al_dcache;
  let '(a, m, ob) := r in
  let w := with_mem (with_alloc w a) m in
  match ob with
  | None => Some (w, 0)
  | Some b => Some (with_bufs w (<[b_self b := set_desc desc b]> (w_bufs w)), b_self b)
  end.

(** [buffer_free] of the buffer at an address. *)
Definition buffer_free_at (buffer : Z) : M A unit := fun w =>
  b ← w_bufs w !! buffer;
  r ← buffer_free (w_alloc w) b;
  Some (with_bufs (with_alloc w r.1) (delete buffer (w_bufs w)), tt).

Definition ipc_buffer_new (desc : sof_ipc_buffer) : T A D Z :=
  ibd ← ipc_get_comp_by_id (cm_id (ib_comp desc));
  if negb (ibd =? 0) then mret (- EINVAL) else
  buffer ← on_world (buffer_new desc);
  if buffer =? 0 then mret (- ENOMEM) else
  ibd ← on_world (zalloc sizeof_ipc_comp_dev);
  if ibd =? 0 then on_world (buffer_free_at buffer) ;; mret (- ENOMEM) else
  add_icd ibd (mk_icd COMP_TYPE_BUFFER (u16 (cm_core (ib_comp desc))) (cm_id (ib_comp desc)) buffer) ;;
  mret 0.

(** The components at the ends of the buffer that are registered and not in state
    READY, 0 for none: sink and source. *)
Fixpoint active_ends (buffer : Z) (l : list Z) (sink source : Z) : T A D (Z * Z) :=
  match l with
  | [] => mret (sink, source)
  | icd :: l =>
      i ← get_icd icd;
      if negb (ic_type i =? COMP_TYPE_COMPONENT) then active_ends buffer l sink source else
      b ← on_world (get_buf buffer);
      sink ← (if b_sink b =? ic_ptr i then
                d ← on_world (get_dev (b_sink b));
                mret (if negb (d_state d =? COMP_STATE_READY) then b_sink b else sink)
              else mret sink);
      source ← (if b_source b =? ic_ptr i then
                  d ← on_world (get_dev (b_source b));
                  mret (if negb (d_state d =? COMP_STATE_READY) then b_source b else source)
                else mret source);
      active_ends buffer l sink source
  end.

Definition ipc_buffer_free (buffer_id : Z) : T A D Z :=
  ibd ← ipc_get_comp_by_id buffer_id;
  if ibd =? 0 then mret (- ENODEV) else
  i ← get_icd ibd;
  if negb (ic_type i =? COMP_TYPE_BUFFER) then mret (- EINVAL) else
  if negb (cpu_is_me (ic_core i)) then ipc_process_on_core (ic_core i) else
  l ← gets tp_comp_list;
  r ← active_ends (ic_ptr i) l 0 0;
  let '(sink, source) := r in
  if negb (sink =? 0) && negb (source =? 0) then mret (- EINVAL) else
  (if negb (sink =? 0) then on_world (pipeline_disconnect sink (ic_ptr i) PPL_CONN_DIR_BUFFER_TO_COMP) else mret tt) ;;
  (if negb (source =? 0) then on_world (pipeline_disconnect source (ic_ptr i) PPL_CONN_DIR_COMP_TO_BUFFER) else mret tt) ;;
  on_world (buffer_free_at (ic_ptr i)) ;;
  del_icd ibd ;;
  mret 0.

(** ** Pipelines *)

Definition set_sched_comp (c : Z) (p : pipeline) : pipeline :=
  mk_pipeline (p_comp_id p) (p_pipeline_id p) (p_sched_id p) (p_core p) (p_period p) (p_priority p)
    (p_period_mips p) (p_frames_per_sched p) (p_xrun_limit_usecs p) (p_time_domain p)
    (p_xrun_bytes p) (p_status p) (p_pipe_task p) (p_sched_next p) (p_sched_prev p) c
    (p_source_comp p) (p_sink_comp p) (p_posn_offset p) (p_msg p) (p_trigger p).

Definition ipc_pipeline_new (desc : sof_ipc_pipe_new) : T A D Z :=
  ipc_pipe ← ipc_get_comp_by_id (pp_comp_id desc);
  if negb (ipc_pipe =? 0) then mret (- EINVAL) else
  ipc_pipe ← ipc_get_comp_by_ppl_id COMP_TYPE_PIPELINE (pp_pipeline_id desc);
  if negb (ipc_pipe =? 0) then mret (- EINVAL) else
  pipe ← on_world (pipeline_new e stream_hdr (pp_pipeline_id desc) (pp_priority desc) (pp_comp_id desc));
  if pipe =? 0 then mret (- ENOMEM) else
  on_world (pipeline_schedule_config pipe (pp_sched_id desc) (pp_core desc) (pp_period desc)
    (pp_period_mips desc) (pp_frames_per_sched desc) (pp_time_domain desc)) ;;
  ret ← on_world (pipeline_xrun_set_limit pipe (pp_xrun_limit_usecs desc));
  if negb (ret =? 0) then on_world (pipeline_free e pipe) ;; mret ret else
  ipc_pipe ← on_world (zalloc sizeof_ipc_comp_dev);
  if ipc_pipe =? 0 then on_world (pipeline_free e pipe) ;; mret (- ENOMEM) else
  add_icd ipc_pipe (mk_icd COMP_TYPE_PIPELINE (u16 (pp_core desc)) (pp_comp_id desc) pipe) ;;
  mret 0.

Definition ipc_pipeline_free (comp_id : Z) : T A D Z :=
  ipc_pipe ← ipc_get_comp_by_id comp_id;
  if ipc_pipe =? 0 then mret (- ENODEV) else
  i ← get_icd ipc_pipe;
  if negb (ic_type i =? COMP_TYPE_PIPELINE) then mret (- EINVAL) else
  if negb (cpu_is_me (ic_core i)) then ipc_process_on_core (ic_core i) else
  ret ← on_world (pipeline_free e (ic_ptr i));
  if ret <? 0 then mret ret else
  del_icd ipc_pipe ;;
  mret 0.

(** The type of the entry is not checked. *)
Definition ipc_pipeline_complete (comp_id : Z) : T A D Z :=
  ipc_pipe ← ipc_get_comp_by_id comp_id;
  if ipc_pipe =? 0 then mret (- EINVAL) else
  pi ← get_icd ipc_pipe;
  if negb (cpu_is_me (ic_core pi)) then ipc_process_on_core (ic_core pi) else
  let p := ic_ptr pi in
  pl ← on_world (get_ppl p);
  ipc_ppl_source ← ipc_get_ppl_src_comp (p_pipeline_id pl);
  if ipc_ppl_source =? 0 then mret (- EINVAL) else
  ipc_ppl_sink ← ipc_get_ppl_sink_comp (p_pipeline_id pl);
  if ipc_ppl_sink =? 0 then mret (- EINVAL) else
  sched ← ipc_get_comp_by_id (p_sched_id pl);
  icd ← get_icd (if sched =? 0 then ipc_ppl_sink else sched);
  if negb (ic_type icd =? COMP_TYPE_COMPONENT) then mret (- EINVAL) else
  if negb (ic_core icd =? ic_core pi) then mret (- EINVAL) else
  on_world (mod_ppl p (set_sched_comp (ic_ptr icd))) ;;
  source ← get_icd ipc_ppl_source;
  sink ← get_icd ipc_ppl_sink;
  on_world (pipeline_complete fuel data0 p (ic_ptr source) (ic_ptr sink)).

(** ** Connections *)

(** A connection between cores, which makes the component shared, is outside the
    model. *)
Definition ipc_connect (comp buffer : ipc_comp_dev) (dir : Z) : T A D Z :=
  if negb (cpu_is_me (ic_core comp)) then ipc_process_on_core (ic_core comp) else
  if negb (ic_core buffer =? ic_core comp) then fault else
  on_world (pipeline_connect (ic_ptr comp) (ic_ptr buffer) dir).

Definition ipc_comp_to_buffer_connect (comp buffer : ipc_comp_dev) : T A D Z :=
  ipc_connect comp buffer PPL_CONN_DIR_COMP_TO_BUFFER.

Definition ipc_buffer_to_comp_connect (buffer comp : ipc_comp_dev) : T A D Z :=
  ipc_connect comp buffer PPL_CONN_DIR_BUFFER_TO_COMP.

Definition ipc_comp_connect (source_id sink_id : Z) : T A D Z :=
  icd_source ← ipc_get_comp_by_id source_id;
  if icd_source =? 0 then mret (- EINVAL) else
  icd_sink ← ipc_get_comp_by_id sink_id;
  if icd_sink =? 0 then mret (- EINVAL) else
  source ← get_icd icd_source;
  sink ← get_icd icd_sink;
  if (ic_type source =? COMP_TYPE_BUFFER) && (ic_type sink =? COMP_TYPE_COMPONENT) then
    ipc_buffer_to_comp_connect source sink
  else if (ic_type source =? COMP_TYPE_COMPONENT) && (ic_type sink =? COMP_TYPE_BUFFER) then
    ipc_comp_to_buffer_connect source sink
  else mret (- EINVAL).
End topology.
