(* ===== verification/TopologyInv.v ===== *)
(** * Ownership in the topology

    Every entry of the list the host manages owns an object with its memory, and
    entries own different things. This file has the invariant and the lemmas that
    add, remove and keep entries; the operations follow in [TopologyOps]. *)

From stdpp Require Import base list numbers option gmap sets.
From S2P Require Import Prelude StateM AudioStream Heap HeapMap HeapSpec HeapFree HeapZones Allocator Buffer.
From S2P Require Import CompState Pipeline PipelineOps PipelineWalk PipelineThms PipelineLife PipelineComplete.
From S2P Require Import Topology.

(** What an entry can own: entries, components, buffers, pipelines and messages by
    address, slots of the position table by index. *)
Inductive key :=
| KIcd (p : Z)
| KDev (p : Z)
| KBuf (p : Z)
| KPpl (p : Z)
| KMsg (p : Z)
| KSlot (i : nat).

#[export] Instance key_eq_dec : EqDecision key.
Proof. solve_decision. Defined.

Definition key_addr (k : key) : option Z :=
  match k with KIcd p | KDev p | KBuf p | KPpl p | KMsg p => Some p | KSlot _ => None end.

(** An entry with the things and the memory that it owns. *)
Record entry := mk_entry {
  en_icd : Z;
  en_dev : ipc_comp_dev;
  en_keys : list key;
  en_ranges : list (Z * Z)
}.

Definition en_id (x : entry) : Z := ic_id (en_dev x).

(** What drivers promise: creating a component gives it memory of its own, freeing
    it returns exactly that memory; neither touches anything else. *)
Class TopoDrivers {A D : Type} `{!Allocator A} (dops : driver_ops A D) := {
  (** a component has this memory *)
  dr_own : D -> Z -> list (Z * Z) -> Prop;
  dr_create drv cfg spec w d : al_inv (w_alloc w) ->
    wp (ops_create dops drv cfg spec) (w, d) (fun s p => exists a m d', al_inv a /\
      ((p = 0 /\ al_live a ≡ₚ al_live (w_alloc w) /\ s = (with_heap w a m, d') /\
          (forall q rs, dr_own d q rs -> dr_own d' q rs)) \/
       (p <> 0 /\ exists dev r rs, al_live a ≡ₚ (r :: rs) ++ al_live (w_alloc w) /\ inside r p /\
          Forall (apart r) (al_live (w_alloc w)) /\ d_is_shared dev = false /\
          s = (with_devs (with_heap w a m) (<[p := dev]> (w_devs w)), d') /\
          dr_own d' p (r :: rs) /\ (forall q rs, q <> p -> dr_own d q rs -> dr_own d' q rs))));
  dr_free w d p rs rest : al_inv (w_alloc w) -> is_Some (w_devs w !! p) -> dr_own d p rs ->
    al_live (w_alloc w) ≡ₚ rs ++ rest ->
    wp (ops_free dops p) (w, d) (fun s _ => exists a m d', al_inv a /\ al_live a ≡ₚ rest /\
      s = (with_devs (with_heap w a m) (delete p (w_devs w)), d') /\
      (forall q rs, q <> p -> dr_own d q rs -> dr_own d' q rs))
}.

Section inv.
Context {A D : Type} `{!Allocator A} (e : env A) (sizeof_buffer : Z).
Context (dops : driver_ops A D) `{!TopoDrivers dops}.
Implicit Types t : topo A D.

Definition same t t' (k : key) : Prop :=
  match k with
  | KIcd p => tp_icds t' !! p = tp_icds t !! p
  | KDev p => d_is_shared <$> w_devs (tp_world t') !! p = d_is_shared <$> w_devs (tp_world t) !! p /\
      (forall rs, dr_own (tp_drv t) p rs -> dr_own (tp_drv t') p rs)
  | KBuf p => buf_part <$> w_bufs (tp_world t') !! p = buf_part <$> w_bufs (tp_world t) !! p
  | KPpl p => ppl_part <$> w_ppls (tp_world t') !! p = ppl_part <$> w_ppls (tp_world t) !! p
  | KMsg p => w_msgs (tp_world t') !! p = w_msgs (tp_world t) !! p
  | KSlot i => w_posn (tp_world t') !! i = w_posn (tp_world t) !! i
  end.

(** The object of an entry. *)
Inductive object_ok t (i : ipc_comp_dev) : list key -> list (Z * Z) -> Prop :=
| component_ok d r rs :
    ic_type i = COMP_TYPE_COMPONENT -> w_devs (tp_world t) !! ic_ptr i = Some d -> d_is_shared d = false ->
    dr_own (tp_drv t) (ic_ptr i) (r :: rs) -> inside r (ic_ptr i) ->
    object_ok t i [KDev (ic_ptr i)] (r :: rs)
| buffer_ok b rs rd :
    ic_type i = COMP_TYPE_BUFFER -> w_bufs (tp_world t) !! ic_ptr i = Some b -> b_self b = ic_ptr i ->
    covers rs (b_self b) sizeof_buffer -> inside rs (b_self b) ->
    covers rd (s_addr (b_stream b)) (s_size (b_stream b)) -> stream_wf (b_stream b) ->
    object_ok t i [KBuf (ic_ptr i)] [rs; rd]
| pipeline_ok pl m n rt rm rp :
    ic_type i = COMP_TYPE_PIPELINE -> w_ppls (tp_world t) !! ic_ptr i = Some pl -> p_pipe_task pl = 0 ->
    p_msg pl <> 0 -> w_msgs (tp_world t) !! p_msg pl = Some m ->
    p_posn_offset pl = u32 (Z.of_nat n * sizeof_posn e) -> w_posn (tp_world t) !! n = Some true ->
    inside rt (m_tx_data m) -> inside rm (p_msg pl) -> inside rp (ic_ptr i) ->
    object_ok t i [KPpl (ic_ptr i); KMsg (p_msg pl); KSlot n] [rt; rm; rp].

Record entry_ok t (x : entry) : Prop := {
  eo_icd : tp_icds t !! en_icd x = Some (en_dev x);
  eo_null : en_icd x <> 0;
  eo_core : ic_core (en_dev x) = cpu_id e;
  eo_object : exists r ks rs, inside r (en_icd x) /\ object_ok t (en_dev x) ks rs /\
    en_keys x = KIcd (en_icd x) :: ks /\ en_ranges x = r :: rs
}.

Lemma object_same t t' i ks rs : object_ok t i ks rs -> Forall (same t t') ks -> object_ok t' i ks rs.
Proof.
  intros [d r rs' Ht Hd Hs Ho Hi|b rs' rd Ht Hb Hself Hc Hi Hcd Hwf|pl m n rt rm rp Ht Hp Hk Hm0 Hm Hoff Hn Hrt Hrm Hrp] Hf.
  - apply Forall_inv in Hf as [E1 E2]. rewrite Hd in E1. apply fmap_Some in E1 as (d' & Hd' & E1).
    econstructor; [done|exact Hd'|congruence|by apply E2|done].
  - apply Forall_inv in Hf as E. simpl in E. rewrite Hb in E. apply fmap_Some in E as (b' & Hb' & [= E1 E2]).
    rewrite E1, E2 in *. econstructor; [done|exact Hb'|done..].
  - rewrite !Forall_cons in Hf. destruct Hf as (E1 & E2 & E3 & _). simpl in *.
    rewrite Hp in E1. apply fmap_Some in E1 as (pl' & Hp' & [= F1 F2 F3]). rewrite F1 in *. rewrite F2 in *. rewrite F3 in *.
    econstructor; [done|exact Hp'|done|done|by rewrite E2|done|by rewrite E3|done..].
Qed.

Lemma entry_same t t' x : entry_ok t x -> Forall (same t t') (en_keys x) -> entry_ok t' x.
Proof.
  intros [H1 H2 H3 (r & ks & rs & Hi & Ho & Ek & Er)] Hf. rewrite Ek, Forall_cons in Hf. destruct Hf as [E Hf].
  constructor; [by rewrite E|done|done|]. exists r, ks, rs. split_and!; [done| |done|done]. by eapply object_same.
Qed.

(** Things with an address are in the memory of the entry. *)
Lemma entry_addr t x k p : entry_ok t x -> k ∈ en_keys x -> key_addr k = Some p -> exists r, r ∈ en_ranges x /\ inside r p.
Proof.
  intros [_ _ _ (r & ks & rs & Hi & Ho & -> & ->)] Hk Ha. apply elem_of_cons in Hk as [->|Hk].
  { injection Ha as <-. exists r. by split; [left|]. }
  destruct Ho; rewrite ?elem_of_cons, elem_of_nil in Hk; destruct_or?; try done; subst k; simpl in Ha;
    try done; injection Ha as <-; eexists; (split; [|first [eassumption|by rewrite <- H1]]); set_solver.
Qed.

Lemma entry_slot t x i : entry_ok t x -> KSlot i ∈ en_keys x -> w_posn (tp_world t) !! i = Some true.
Proof.
  intros [_ _ _ (r & ks & rs & Hi & Ho & -> & _)] Hk. apply elem_of_cons in Hk as [?|Hk]; [done|].
  destruct Ho; rewrite ?elem_of_cons, elem_of_nil in Hk; destruct_or?; simplify_eq. done.
Qed.

(** ** The invariant *)

Definition keys_of (L : list entry) : list key := L ≫= en_keys.
Definition ranges_of (L : list entry) : list (Z * Z) := L ≫= en_ranges.

(** The entries [L] are on the list; their memory and [base] is what is live. *)
Record topo_ok (base : list (Z * Z)) (L : list entry) t : Prop := {
  tk_inv : al_inv (w_alloc (tp_world t));
  tk_table : Z.of_nat (length (w_posn (tp_world t))) * sizeof_posn e < 2 ^ 32;
  tk_flags : no_flags (tp_world t);
  tk_list : tp_comp_list t = en_icd <$> L;
  tk_entries : Forall (entry_ok t) L;
  tk_keys : NoDup (keys_of L);
  tk_ids : NoDup (en_id <$> L);
  tk_live : al_live (w_alloc (tp_world t)) ≡ₚ ranges_of L ++ base
}.

Lemma keys_of_elem L x k : x ∈ L -> k ∈ en_keys x -> k ∈ keys_of L.
Proof. intros Hx Hk. apply list_elem_of_bind. by exists x. Qed.

Lemma entries_same t t' L : Forall (entry_ok t) L -> (forall k, k ∈ keys_of L -> same t t' k) -> Forall (entry_ok t') L.
Proof.
  rewrite !Forall_forall. intros HL Hs x Hx. eapply entry_same; [by apply HL|]. apply Forall_forall. intros k Hk.
  apply Hs. by eapply keys_of_elem.
Qed.

(** An address in new memory belongs to no entry. *)
Lemma fresh_key base L t r k p :
  topo_ok base L t -> Forall (apart r) (al_live (w_alloc (tp_world t))) -> inside r p -> key_addr k = Some p -> k ∉ keys_of L.
Proof.
  intros K Hr Hp Hk (x & Hkx & Hx)%list_elem_of_bind. pose proof (tk_entries _ _ _ K) as HL. rewrite Forall_forall in HL.
  destruct (entry_addr t x k p (HL x Hx) Hkx Hk) as (r' & Hr' & Hp').
  rewrite (tk_live _ _ _ K), Forall_app in Hr. destruct Hr as [Hr _]. rewrite Forall_forall in Hr.
  assert (r' ∈ ranges_of L) as Hin by (apply list_elem_of_bind; by exists x).
  pose proof (Hr r' Hin) as Hap. unfold apart, before, inside in *. lia.
Qed.

Lemma free_slot base L t i : topo_ok base L t -> w_posn (tp_world t) !! i = Some false -> KSlot i ∉ keys_of L.
Proof.
  intros K Hi (x & Hkx & Hx)%list_elem_of_bind. pose proof (tk_entries _ _ _ K) as HL. rewrite Forall_forall in HL.
  pose proof (entry_slot t x i (HL x Hx) Hkx). congruence.
Qed.

Lemma topo_keep base base' L t t' :
  topo_ok base L t -> al_inv (w_alloc (tp_world t')) ->
  length (w_posn (tp_world t')) = length (w_posn (tp_world t)) -> no_flags (tp_world t') ->
  (forall k, k ∈ keys_of L -> same t t' k) -> tp_comp_list t' = tp_comp_list t ->
  al_live (w_alloc (tp_world t')) ++ base ≡ₚ al_live (w_alloc (tp_world t)) ++ base' -> topo_ok base' L t'.
Proof.
  intros [K1 K2 K3 K4 K5 K6 K7 K8] Ha Hl Hf Hs Hc Hlive.
  constructor; [done|by rewrite Hl|done|congruence|by eapply entries_same|done|done|].
  rewrite K8 in Hlive. apply (Permutation_app_inv_r base). rewrite Hlive, <- !app_assoc.
  apply Permutation_app_head, Permutation_app_comm.
Qed.

Lemma topo_add base L t t' x :
  topo_ok base L t -> al_inv (w_alloc (tp_world t')) ->
  length (w_posn (tp_world t')) = length (w_posn (tp_world t)) -> no_flags (tp_world t') ->
  entry_ok t' x -> (forall k, k ∈ keys_of L -> same t t' k) -> Forall (fun k => k ∉ keys_of L) (en_keys x) ->
  NoDup (en_keys x) -> en_id x ∉ en_id <$> L -> tp_comp_list t' = tp_comp_list t ++ [en_icd x] ->
  al_live (w_alloc (tp_world t')) ≡ₚ en_ranges x ++ al_live (w_alloc (tp_world t)) -> topo_ok base (L ++ [x]) t'.
Proof.
  intros [K1 K2 K3 K4 K5 K6 K7 K8] Ha Hl Hf Hx Hs Hk Hnd Hid Hc Hlive. rewrite Forall_forall in Hk.
  constructor; [done|by rewrite Hl|done| | | | |].
  - by rewrite Hc, K4, fmap_app.
  - apply Forall_app. split; [by eapply entries_same|by constructor].
  - unfold keys_of. rewrite bind_app. simpl. rewrite app_nil_r. apply NoDup_app. split_and!; [done| |done].
    intros k HkL Hkx. by apply (Hk k).
  - rewrite fmap_app. apply NoDup_app. split_and!; [done| |apply NoDup_singleton].
    intros i Hi Hi'. apply list_elem_of_singleton in Hi' as ->. done.
  - rewrite Hlive, K8. unfold ranges_of. rewrite bind_app. simpl. rewrite app_nil_r.
    rewrite app_assoc. apply Permutation_app_tail, Permutation_app_comm.
Qed.

Lemma topo_del base L1 x L2 t t' :
  topo_ok base (L1 ++ x :: L2) t -> al_inv (w_alloc (tp_world t')) ->
  length (w_posn (tp_world t')) = length (w_posn (tp_world t)) -> no_flags (tp_world t') ->
  (forall k, k ∉ en_keys x -> same t t' k) -> tp_comp_list t' = filter (fun i => i <> en_icd x) (tp_comp_list t) ->
  al_live (w_alloc (tp_world t)) ≡ₚ en_ranges x ++ al_live (w_alloc (tp_world t')) -> topo_ok base (L1 ++ L2) t'.
Proof.
  intros [K1 K2 K3 K4 K5 K6 K7 K8] Ha Hl Hf Hs Hc Hlive.
  unfold keys_of, ranges_of in *. rewrite bind_app in K6. simpl in K6. rewrite bind_app in K8. simpl in K8.
  apply Forall_app in K5 as [K51 [Kx K52]%Forall_cons].
  apply NoDup_app in K6 as (N1 & N12 & N2). apply NoDup_app in N2 as (Nx & Nx2 & N2).
  assert (forall k, k ∈ keys_of (L1 ++ L2) -> k ∉ en_keys x) as Hout.
  { intros k. unfold keys_of. rewrite bind_app, elem_of_app. intros [H|H] Hx; [apply (N12 k H)|by apply (Nx2 k Hx)].
    apply elem_of_app. by left. }
  assert (KIcd (en_icd x) ∈ en_keys x) as Hix by (destruct Kx as [_ _ _ (r & ks & rs & _ & _ & -> & _)]; by left).
  constructor; [done|by rewrite Hl|done| | | | |].
  - rewrite Hc, K4, !fmap_app, filter_app. simpl. rewrite filter_cons_False by (intros []; done).
    assert (forall L, (forall y, y ∈ L -> y ∈ L1 ++ L2) -> Forall (entry_ok t) L ->
      filter (fun i => i <> en_icd x) (en_icd <$> L) = en_icd <$> L) as Hfil.
    { intros L HL Hok. induction Hok as [|y L [_ _ _ (r & ks & rs & _ & _ & Ey & _)] _ IH]; [done|]. simpl.
      rewrite filter_cons_True; [f_equal; apply IH; intros z Hz; apply HL; by right|]. intros E.
      apply (Hout (KIcd (en_icd y))); [eapply keys_of_elem; [apply HL; by left|rewrite Ey; by left]|by rewrite E]. }
    rewrite !Hfil; [done|set_solver|done|set_solver|done].
  - apply (entries_same t); [by apply Forall_app|]. intros k Hk. by apply Hs, Hout.
  - unfold keys_of. rewrite bind_app. apply NoDup_app. split_and!; [done| |done]. intros k H1 H2.
    apply (N12 k H1). apply elem_of_app. by right.
  - rewrite fmap_app in K7. simpl in K7. rewrite fmap_app. rewrite <- Permutation_middle in K7. by apply NoDup_cons in K7 as [_ ?].
  - unfold ranges_of. rewrite bind_app. apply (Permutation_app_inv_l (en_ranges x)). rewrite <- Hlive, K8.
    rewrite !app_assoc. do 2 apply Permutation_app_tail. apply Permutation_app_comm.
Qed.
End inv.
