(* ===== verification/TopologyOps.v ===== *)
(** * The operations on the topology keep the ownership

    Each command of the host against the invariant of [TopologyInv]: what it
    returns, which entry it adds or removes, and that it accounts for all memory. *)

From stdpp Require Import base list numbers option gmap sets.
From S2P Require Import Prelude StateM AudioStream Heap HeapMap HeapSpec HeapFree HeapZones Allocator Buffer.
From S2P Require Import CompState Pipeline PipelineOps PipelineWalk PipelineThms PipelineLife PipelineComplete.
From S2P Require Import Topology TopologyInv.

Section steps.
Context {A D : Type} `{!Allocator A}.
Implicit Types t : topo A D.

Lemma wp_on_world {B} (m : M A B) t (P : topo A D -> B -> Prop) :
  wp m (tp_world t) (fun w x => P (with_world t w) x) -> wp (on_world m) t P.
Proof. intros (w & x & E & HP). eexists _, x. unfold on_world. by rewrite E. Qed.

Lemma wp_on_driver {B} (m : ST (world A * D) B) t (P : topo A D -> B -> Prop) :
  wp m (tp_world t, tp_drv t)
    (fun s x => P (mk_topo s.1 s.2 (tp_drivers t) (tp_icds t) (tp_comp_list t)) x) -> wp (on_driver m) t P.
Proof. intros ([w d] & x & E & HP). eexists _, x. unfold on_driver. by rewrite E. Qed.

Lemma wp_get_icd icd i t (P : topo A D -> ipc_comp_dev -> Prop) :
  tp_icds t !! icd = Some i -> P t i -> wp (get_icd icd) t P.
Proof. intros E HP. eexists _, i. unfold get_icd. by rewrite E. Qed.

Lemma with_world_id t : with_world t (tp_world t) = t.
Proof. by destruct t. Qed.

(** Reading an object does not change the state. *)
Lemma wp_read {B} (m : M A B) x t (P : topo A D -> B -> Prop) :
  m (tp_world t) = Some (tp_world t, x) -> P t x -> wp (on_world m) t P.
Proof. intros E HP. apply wp_on_world. exists (tp_world t), x. by rewrite with_world_id. Qed.
End steps.

Ltac topo_step :=
  match goal with
  | |- wp (_ ≫= _) _ _ => apply wp_bind
  | |- wp (mret _) _ _ => apply wp_ret
  | |- wp (gets _) _ _ => apply wp_gets
  | |- wp (modify _) _ _ => apply wp_modify
  | |- wp (on_world (get_dev _)) _ _ => eapply wp_read; [by eapply get_dev_Some|]
  | |- wp (on_world (get_buf _)) _ _ => eapply wp_read; [by eapply get_buf_Some|]
  | |- wp (on_world (get_ppl _)) _ _ => eapply wp_read; [by eapply get_ppl_Some|]
  | |- wp (on_world _) _ _ => apply wp_on_world
  | |- wp (on_driver _) _ _ => apply wp_on_driver
  | |- wp (get_icd _) _ _ => eapply wp_get_icd; [eassumption|]
  | |- wp (get_dev _) _ _ => eapply wp_get_dev; [eassumption|]
  | |- wp (get_buf _) _ _ => eapply wp_get_buf; [eassumption|]
  | |- wp (get_ppl _) _ _ => eapply wp_get_ppl; [eassumption|]
  | |- wp (mod_dev _ _) _ _ => eapply wp_mod_dev; [eassumption|]
  | |- wp (mod_buf _ _) _ _ => eapply wp_mod_buf; [eassumption|]
  | |- wp (mod_ppl _ _) _ _ => eapply wp_mod_ppl; [eassumption|]
  end; cbv beta.

(** Every lemma of the section takes all of its parameters. *)
#[local] Set Default Proof Using "All".

Section ops.
Context {A D : Type} `{!Allocator A} (e : env A) (fuel : nat) (data0 : pipeline_data).
Context (sizeof_buffer sizeof_ipc_comp_dev CONFIG_CORE_COUNT : Z) (stream_hdr : Z -> Z).
Context (dops : driver_ops A D) `{!TopoDrivers dops} (ipc_process_on_core : Z -> T A D Z).
Context (Hbuffer : request_ok sizeof_buffer 0) (Hentry : request_ok sizeof_ipc_comp_dev 0).
Context (Hpipeline : request_ok (sizeof_pipeline e) 0) (Hmsg : request_ok (sizeof_ipc_msg e) 0)
  (Hposn : request_ok (sizeof_posn e) 0).
Implicit Types t : topo A D.

Abbreviation topo_ok := (topo_ok e sizeof_buffer dops).
Abbreviation entry_ok := (entry_ok e sizeof_buffer dops).
Abbreviation object_ok := (object_ok e sizeof_buffer dops).
Abbreviation same := (same dops).

(** ** Searching the list *)

Lemma find_icd_ok (p : ipc_comp_dev -> T A D bool) t L (f : entry -> bool -> Prop) :
  Forall (entry_ok t) L -> (forall x, x ∈ L -> wp (p (en_dev x)) t (fun t' b => t' = t /\ f x b)) ->
  wp (find_icd p (en_icd <$> L)) t (fun t' r => t' = t /\
    ((r = 0 /\ Forall (fun x => f x false) L) \/
     exists L1 x L2, L = L1 ++ x :: L2 /\ f x true /\ r = en_icd x)).
Proof.
  induction 1 as [|x L Hx HL IH]; intros Hp; simpl; [topo_step; split; [done|left; split; [done|constructor]]|].
  pose proof (eo_icd _ _ _ _ _ Hx) as Hi. do 2 topo_step. topo_step.
  eapply wp_mono; [apply Hp; by left|]. intros ? b [-> Hb]. destruct b.
  - topo_step. split; [done|right]. by exists [], x, L.
  - eapply wp_mono; [apply IH; intros y Hy; apply Hp; by right|].
    intros t' r [-> [[-> Hf]|(L1 & y & L2 & -> & Hy & ->)]]; (split; [done|]); [left|right].
    + split; [done|by constructor].
    + by exists (x :: L1), y, L2.
Qed.

Lemma get_by_id_ok base L t id :
  topo_ok base L t ->
  wp (ipc_get_comp_by_id id) t (fun t' r => t' = t /\
    ((r = 0 /\ id ∉ en_id <$> L) \/
     exists L1 x L2, L = L1 ++ x :: L2 /\ en_id x = id /\ r = en_icd x /\ r <> 0 /\ entry_ok t x)).
Proof.
  intros K. unfold ipc_get_comp_by_id. do 2 topo_step. rewrite (tk_list _ _ _ _ _ _ K).
  eapply wp_mono; [apply (find_icd_ok _ t L (fun x b => b = (en_id x =? id)));
    [apply K|intros x _; topo_step; by split]|].
  intros t' r [-> [[-> Hf]|(L1 & x & L2 & -> & Hx & ->)]]; (split; [done|]); [left|right].
  - split; [done|]. intros (x & -> & Hx)%list_elem_of_fmap. rewrite Forall_forall in Hf.
    specialize (Hf x Hx). cbv beta in Hf. by rewrite Z.eqb_refl in Hf.
  - pose proof (tk_entries _ _ _ _ _ _ K) as HL. apply Forall_app in HL as [_ [Hxok _]%Forall_cons].
    exists L1, x, L2. split_and!; [done|lia|done|apply Hxok|done].
Qed.

(** ** New entries *)

(** What remains of a component that could not be registered is not on the list
    any more: [leak]. *)
Definition new_post base L (id type : Z) t t' (r : Z) : Prop :=
  (r = 0 /\ id ∉ en_id <$> L /\ exists x, en_id x = id /\ ic_type (en_dev x) = type /\ topo_ok base (L ++ [x]) t') \/
  (r < 0 /\ (id ∈ en_id <$> L -> r = - EINVAL) /\
   exists leak, topo_ok (leak ++ base) L t' /\ (type <> COMP_TYPE_COMPONENT \/ r <> - ENOMEM -> leak = [])).

Lemma zalloc_entry base L t :
  topo_ok base L t ->
  wp (zalloc sizeof_ipc_comp_dev) (tp_world t) (fun w p => exists a m, w = with_heap (tp_world t) a m /\ al_inv a /\
    ((p = 0 /\ al_live a = al_live (w_alloc (tp_world t))) \/
     (p <> 0 /\ exists r, al_live a ≡ₚ r :: al_live (w_alloc (tp_world t)) /\ inside r p /\
        Forall (apart r) (al_live (w_alloc (tp_world t)))))).
Proof. intros K. apply zalloc_live; [apply K|done]. Qed.

(** The object is there, with memory [rs]; the entry for it is the last step. *)
Lemma add_entry base L t t1 t2 icd i ks rs a m r0 :
  topo_ok base L t -> object_ok t1 i ks rs -> (forall k, k ∉ ks -> same t t1 k) -> Forall (fun k => k ∉ keys_of L) ks ->
  NoDup ks -> Forall (fun k => match k with KIcd _ => False | _ => True end) ks ->
  length (w_posn (tp_world t1)) = length (w_posn (tp_world t)) -> no_flags (tp_world t1) ->
  tp_icds t1 = tp_icds t -> tp_comp_list t1 = tp_comp_list t -> ic_core i = cpu_id e -> ic_id i ∉ en_id <$> L ->
  al_live (w_alloc (tp_world t1)) ≡ₚ rs ++ al_live (w_alloc (tp_world t)) ->
  icd <> 0 -> al_inv a -> al_live a ≡ₚ r0 :: al_live (w_alloc (tp_world t1)) -> inside r0 icd ->
  Forall (apart r0) (al_live (w_alloc (tp_world t1))) ->
  t2 = with_icds (with_world t1 (with_heap (tp_world t1) a m)) (<[icd := i]> (tp_icds t1)) (tp_comp_list t1 ++ [icd]) ->
  topo_ok base (L ++ [mk_entry icd i (KIcd icd :: ks) (r0 :: rs)]) t2.
Proof.
  intros K Ho Hs Hk Hnd Hni Hlen Hfl Ei El Hc Hid Hlive H0 Ha Hla Hin Hap ->.
  assert (KIcd icd ∉ keys_of L) as Hfresh.
  { apply (fresh_key e sizeof_buffer dops base L t r0 _ icd); [done| |done|done]. rewrite Hlive in Hap. by apply Forall_app in Hap as [_ ?]. }
  assert (forall k, match k with KIcd _ => False | _ => True end -> same t1
    (with_icds (with_world t1 (with_heap (tp_world t1) a m)) (<[icd := i]> (tp_icds t1)) (tp_comp_list t1 ++ [icd])) k) as Hs2.
  { intros [] Hk'; done. }
  apply (topo_add e sizeof_buffer dops base L t); simpl; [done|done|done|done| | | | |done|by rewrite El| ].
  - constructor; simpl; [apply lookup_insert_eq|done|done|]. exists r0, ks, rs. split_and!; [done| |done|done].
    eapply object_same; [exact Ho|]. eapply Forall_impl; [exact Hni|]. apply Hs2.
  - intros k HkL. assert (k ∉ ks) as Hkk by (intros ?; rewrite Forall_forall in Hk; by apply (Hk k)).
    specialize (Hs k Hkk). destruct k; simpl in *; try done. rewrite lookup_insert_ne by (intros ->; done). by rewrite Ei.
  - by constructor.
  - constructor; [|done]. intros Hbad. rewrite Forall_forall in Hni. by specialize (Hni _ Hbad).
  - by rewrite Hla, Hlive.
Qed.

Definition driver_world t w d : topo A D := mk_topo w d (tp_drivers t) (tp_icds t) (tp_comp_list t).

Lemma get_drv_ok comp t : wp (get_drv comp) t (fun t' _ => t' = t).
Proof. unfold get_drv. do 2 topo_step. repeat (case_if; [by topo_step|]). by topo_step. Qed.

Lemma comp_new_ok comp t :
  al_inv (w_alloc (tp_world t)) ->
  wp (comp_new dops comp) t (fun t' p => exists a m d', al_inv a /\
    ((p = 0 /\ al_live a ≡ₚ al_live (w_alloc (tp_world t)) /\ t' = driver_world t (with_heap (tp_world t) a m) d' /\
      (forall q rs, dr_own (tp_drv t) q rs -> dr_own d' q rs)) \/
     (p <> 0 /\ exists dev r rs, al_live a ≡ₚ (r :: rs) ++ al_live (w_alloc (tp_world t)) /\ inside r p /\
        Forall (apart r) (al_live (w_alloc (tp_world t))) /\ d_is_shared dev = false /\
        t' = driver_world t (with_devs (with_heap (tp_world t) a m) (<[p := dev]> (w_devs (tp_world t)))) d' /\
        dr_own d' p (r :: rs) /\ (forall q rs, q <> p -> dr_own (tp_drv t) q rs -> dr_own d' q rs)))).
Proof.
  intros Ha. assert (forall t0, t0 = t -> exists a m d', al_inv a /\ al_live a ≡ₚ al_live (w_alloc (tp_world t)) /\
    t0 = driver_world t (with_heap (tp_world t) a m) d' /\
    (forall q rs, dr_own (tp_drv t) q rs -> dr_own d' q rs)) as Hsame.
  { intros t0 ->. exists (w_alloc (tp_world t)), (w_mem (tp_world t)), (tp_drv t). split_and!; [done|done| |done].
    by destruct t as [[] ? ? ? ?]. }
  unfold comp_new. topo_step. eapply wp_mono; [apply get_drv_ok|]. intros ? drv ->. destruct drv as [drv|].
  2:{ topo_step. destruct (Hsame t eq_refl) as (a & m & d' & H1 & H2 & H3 & H4). exists a, m, d'. split; [done|by left]. }
  case_if.
  { topo_step. destruct (Hsame t eq_refl) as (a & m & d' & H1 & H2 & H3 & H4). exists a, m, d'. split; [done|by left]. }
  do 2 topo_step. eapply wp_mono; [by apply dr_create|].
  intros s p (a & m & d' & Ha' & [(-> & Hl & -> & Ho)|(Hp & dev & r & rs & Hl & Hin & Hap & Hsh & -> & Hop & Ho)]); simpl.
  - topo_step. exists a, m, d'. split; [done|by left].
  - rewrite (proj2 (Z.eqb_neq _ _) Hp). do 2 topo_step.
    eapply wp_mod_dev; [simpl; apply lookup_insert_eq|]. topo_step. exists a, m, d'. split; [done|right]. split; [done|].
    exists (set_lists [] [] dev), r, rs. split_and!; [done..| |done|done]. unfold driver_world, with_world. simpl. by rewrite insert_insert_eq.
Qed.

Lemma leak_nil base : ([] : list (Z * Z)) ++ base = base.
Proof. done. Qed.

Lemma comp_entry_new_ok base L t comp :
  topo_ok base L t -> CONFIG_CORE_COUNT <= cm_core comp \/ u16 (cm_core comp) = cpu_id e ->
  wp (ipc_comp_new sizeof_ipc_comp_dev CONFIG_CORE_COUNT dops comp) t (new_post base L (cm_id comp) COMP_TYPE_COMPONENT t).
Proof.
  intros K Hcore. assert (forall r, r = - EINVAL -> new_post base L (cm_id comp) COMP_TYPE_COMPONENT t t r) as Hinval.
  { intros r ->. right. split_and!; [lia|done|]. by exists []. }
  unfold ipc_comp_new. case_if; [topo_step; by apply Hinval|]. destruct Hcore as [?|Hcore]; [lia|].
  topo_step. eapply wp_mono; [by eapply get_by_id_ok|].
  intros ? icd0 [-> [[-> Hid]|(L1 & x & L2 & _ & _ & -> & H0 & _)]].
  2:{ rewrite (proj2 (Z.eqb_neq _ _) H0). simpl. topo_step. by apply Hinval. }
  simpl. topo_step. eapply wp_mono; [apply comp_new_ok, K|].
  intros t1 cd (a & m & d' & Ha & [(-> & Hl & -> & Ho)|(Hcd & dev & r & rs & Hl & Hin & Hap & Hsh & -> & Hop & Ho)]); simpl.
  { topo_step. right. split_and!; [lia|done|]. exists []. split; [|done].
    apply (topo_keep e sizeof_buffer dops base base L t); [done|done|done|apply K| |done|by rewrite Hl].
    intros [] _; try done. by split; [|apply Ho]. }
  rewrite (proj2 (Z.eqb_neq _ _) Hcd).
  assert (KDev cd ∉ keys_of L) as Hfresh by by eapply (fresh_key e sizeof_buffer dops).
  set (t1 := driver_world _ _ _).
  assert (forall k, k ∉ [KDev cd] -> same t t1 k) as Hs.
  { intros [] Hk; try done. assert (p <> cd) by (intros ->; apply Hk; by left). simpl.
    rewrite lookup_insert_ne by done. by split; [|intros ?; apply Ho]. }
  do 2 topo_step. eapply wp_mono; [apply zalloc_live; [done|done]|].
  intros w2 icd (a2 & m2 & -> & Ha2 & [[-> Hl2]|[Hicd (r0 & Hl2 & Hin0 & Hap0)]]).
  - simpl. do 2 topo_step. eapply wp_mono; [apply (free_live _ r cd); [done|simpl; rewrite Hl2; subst t1; simpl; rewrite Hl; by left|done]|].
    intros w3 [] (a3 & -> & Ha3 & Hl3). do 4 topo_step. right. split_and!; [lia|done|]. exists rs. split; [|naive_solver].
    apply (topo_keep e sizeof_buffer dops base _ L t); simpl; [done|done|done|apply K| |done|].
    + intros k Hk. assert (k ∉ [KDev cd]) as Hk' by (intros ->%list_elem_of_singleton; done). specialize (Hs k Hk').
      destruct k; try done. simpl in Hs |- *. assert (p <> cd) by (intros ->; apply Hk'; by left).
      destruct Hs as [E1 E2]. rewrite lookup_insert_ne in E1 by done. by rewrite lookup_delete_ne, lookup_insert_ne.
    + simpl in Hl3. rewrite Hl2 in Hl3. subst t1. simpl in Hl3. rewrite Hl in Hl3. apply Permutation_cons_inv in Hl3. rewrite <- Hl3.
      rewrite (app_assoc (al_live _) rs base). apply Permutation_app_tail, Permutation_app_comm.
  - rewrite (proj2 (Z.eqb_neq _ _) Hicd). unfold add_icd. do 3 topo_step. left. split_and!; [done|done|].
    eexists (mk_entry _ (mk_icd COMP_TYPE_COMPONENT (u16 (cm_core comp)) (cm_id comp) cd) _ _). split_and!; [done|done|].
    eapply (add_entry base L t t1) with (ks := [KDev cd]) (rs := r :: rs) (r0 := r0) (a := a2) (m := m2);
      try done; try by repeat constructor.
    + econstructor; simpl; [done|apply lookup_insert_eq|done|done|done].
    + apply NoDup_singleton.
    + apply K.
Qed.

(** ** Buffers *)

Lemma set_desc_wf desc b : stream_wf (b_stream b) -> stream_wf (b_stream (set_desc desc b)).
Proof. intros [[] ? ? ? ?]. by constructor; [constructor|..]. Qed.

Lemma buffer_new_ok desc w :
  al_inv (w_alloc w) -> ib_size desc = 0 \/ request_ok (ib_size desc) al_dcache ->
  wp (buffer_new sizeof_buffer desc) w (fun w' p => exists a m, al_inv a /\
    ((p = 0 /\ w' = with_heap w a m /\ al_live a ≡ₚ al_live (w_alloc w)) \/
     (p <> 0 /\ exists b rs rd, b_self b = p /\ b_walking b = false /\ covers rs p sizeof_buffer /\ inside rs p /\
        covers rd (s_addr (b_stream b)) (s_size (b_stream b)) /\ stream_wf (b_stream b) /\
        al_live a ≡ₚ [rs; rd] ++ al_live (w_alloc w) /\ Forall (apart rs) (al_live (w_alloc w)) /\
        w' = with_bufs (with_heap w a m) (<[p := b]> (w_bufs w))))).
Proof.
  intros Ha Hs. destruct (buffer_alloc_spec sizeof_buffer Hbuffer (w_alloc w) (w_mem w) (ib_size desc) (ib_caps desc) al_dcache Ha Hs)
    as (a & m & ob & E & Ha' & Hob). unfold wp, buffer_new. rewrite E. simpl. destruct ob as [b|].
  - destruct Hob as (rs & rd & [_ Hl Hcs Hcd Hwf (_ & Hap & _)] & _ & _ & Hwk). eexists _, _. split; [done|].
    exists a, m. split; [done|right]. assert (inside rs (b_self b)) as Hin.
    { destruct Hcs, Hbuffer. unfold inside. lia. }
    assert (rs ∈ al_live a) as Hrs by (rewrite Hl; by left). destruct (al_live_bounds a rs Ha' Hrs) as (? & _).
    split; [unfold inside in Hin; lia|]. exists (set_desc desc b), rs, rd. split_and!; try done. by apply set_desc_wf.
  - eexists _, _. split; [done|]. exists a, m. split; [done|by left].
Qed.

Lemma buffer_free_at_ok w p b rs rd rest :
  w_bufs w !! p = Some b -> al_inv (w_alloc w) -> al_live (w_alloc w) ≡ₚ rs :: rd :: rest ->
  covers rs (b_self b) sizeof_buffer -> covers rd (s_addr (b_stream b)) (s_size (b_stream b)) -> stream_wf (b_stream b) ->
  wp (buffer_free_at p) w (fun w' _ => exists a, al_inv a /\ al_live a ≡ₚ rest /\
    w' = with_bufs (with_alloc w a) (delete p (w_bufs w))).
Proof.
  intros Hb Ha Hl Hs Hd Hwf.
  destruct (buffer_free_ranges sizeof_buffer Hbuffer (w_alloc w) b rs rd rest Ha Hl Hs Hd Hwf) as (a & E & Ha' & Hl').
  unfold wp, buffer_free_at. rewrite Hb. simpl. rewrite E. simpl. eexists _, tt. split; [done|]. by exists a.
Qed.

Lemma buffer_entry_new_ok base L t desc :
  topo_ok base L t -> ib_size desc = 0 \/ request_ok (ib_size desc) al_dcache ->
  u16 (cm_core (ib_comp desc)) = cpu_id e ->
  wp (ipc_buffer_new sizeof_buffer sizeof_ipc_comp_dev desc) t (new_post base L (cm_id (ib_comp desc)) COMP_TYPE_BUFFER t).
Proof.
  intros K Hsize Hcore. unfold ipc_buffer_new. topo_step. eapply wp_mono; [by eapply get_by_id_ok|].
  intros ? icd0 [-> [[-> Hid]|(L1 & x & L2 & _ & _ & -> & H0 & _)]].
  2:{ rewrite (proj2 (Z.eqb_neq _ _) H0). simpl. topo_step. right. split_and!; [lia|done|]. by exists []. }
  simpl. do 2 topo_step. eapply wp_mono; [apply buffer_new_ok; [apply K|done]|].
  intros w1 p (a & m & Ha & [(-> & -> & Hl)|(Hp & b & rs & rd & Hself & Hwk & Hcs & Hin & Hcd & Hwf & Hl & Hap & ->)]).
  { simpl. topo_step. right. split_and!; [lia|done|]. exists []. split; [|done].
    apply (topo_keep e sizeof_buffer dops base base L t); [done|done|done|apply K| |done|by simpl; rewrite Hl].
    by intros [] _. }
  rewrite (proj2 (Z.eqb_neq _ _) Hp).
  assert (KBuf p ∉ keys_of L) as Hfresh by by eapply (fresh_key e sizeof_buffer dops).
  set (t1 := with_world t _).
  assert (forall k, k ∉ [KBuf p] -> same t t1 k) as Hs.
  { intros [] Hk; try done. simpl. rewrite lookup_insert_ne; [done|]. intros ->. apply Hk. by left. }
  do 2 topo_step. eapply wp_mono; [apply zalloc_live; [done|done]|].
  intros w2 icd (a2 & m2 & -> & Ha2 & [[-> Hl2]|[Hicd (r0 & Hl2 & Hin0 & Hap0)]]).
  - simpl. do 2 topo_step.
    eapply wp_mono; [apply (buffer_free_at_ok _ p b rs rd (al_live (w_alloc (tp_world t))));
      [apply lookup_insert_eq|done|simpl; rewrite Hl2; subst t1; simpl; by rewrite Hl|by rewrite Hself|done|done]|].
    intros w3 [] (a3 & Ha3 & Hl3 & ->). topo_step. right. split_and!; [lia|done|]. exists []. split; [|done].
    apply (topo_keep e sizeof_buffer dops base base L t); simpl; [done|done|done| | |done|by rewrite Hl3].
    + intros q b' Hq. simpl in Hq. rewrite delete_insert_eq in Hq. apply lookup_delete_Some in Hq as [_ Hq]. by eapply K.
    + intros [] Hk; try done. simpl. rewrite lookup_delete_ne, lookup_insert_ne; [done|by intros ->..].
  - rewrite (proj2 (Z.eqb_neq _ _) Hicd). unfold add_icd. do 3 topo_step. left. split_and!; [done|done|].
    eexists (mk_entry _ (mk_icd COMP_TYPE_BUFFER (u16 (cm_core (ib_comp desc))) (cm_id (ib_comp desc)) p) _ _). split_and!; [done|done|].
    eapply (add_entry base L t t1) with (ks := [KBuf p]) (rs := [rs; rd]) (r0 := r0) (a := a2) (m := m2);
      try done; try by repeat constructor.
    + econstructor; simpl; [done|apply lookup_insert_eq|done|by rewrite Hself|by rewrite Hself|done|done].
    + apply NoDup_singleton.
    + intros q b'. simpl. intros [[_ <-]|[_ Hq]]%lookup_insert_Some; [done|by eapply K].
Qed.

(** ** Pipelines *)

Lemma by_ppl_id_ok base L t ppl_id :
  topo_ok base L t ->
  wp (ipc_get_comp_by_ppl_id e COMP_TYPE_PIPELINE ppl_id) t (fun t' r => t' = t /\ (r = 0 \/ exists x, x ∈ L /\ r = en_icd x)).
Proof.
  intros K. unfold ipc_get_comp_by_ppl_id. do 2 topo_step. rewrite (tk_list _ _ _ _ _ _ K).
  eapply wp_mono; [apply (find_icd_ok _ t L (fun _ _ => True)); [apply K|]|].
  - intros x Hx. pose proof (tk_entries _ _ _ _ _ _ K) as HL. rewrite Forall_forall in HL.
    destruct (HL x Hx) as [_ _ _ (r & ks & rs & _ & Ho & _)].
    destruct (ic_type (en_dev x) =? COMP_TYPE_PIPELINE) eqn:Et; simpl; [|by topo_step].
    case_if; [by topo_step|]. assert (ic_type (en_dev x) = COMP_TYPE_PIPELINE) as Et' by lia.
    unfold ipc_comp_pipe_id. rewrite Et'. simpl.
    destruct Ho as [| |pl]; try lia. do 4 topo_step. by topo_step.
  - intros t' r [-> [[-> _]|(L1 & x & L2 & -> & _ & ->)]]; (split; [done|]); [by left|right]. exists x. split; [set_solver|done].
Qed.

Lemma sizes_of base L t : topo_ok base L t -> sizes_ok e (tp_world t).
Proof. intros K. by constructor; [..|apply K]. Qed.

Lemma pipeline_entry_new_ok base L t desc :
  topo_ok base L t -> u16 (pp_core desc) = cpu_id e ->
  wp (ipc_pipeline_new e sizeof_ipc_comp_dev stream_hdr desc) t (new_post base L (pp_comp_id desc) COMP_TYPE_PIPELINE t).
Proof.
  intros K Hcore. unfold ipc_pipeline_new. topo_step. eapply wp_mono; [by eapply get_by_id_ok|].
  intros ? icd0 [-> [[-> Hid]|(L1 & x & L2 & _ & _ & -> & H0 & _)]].
  2:{ rewrite (proj2 (Z.eqb_neq _ _) H0). simpl. topo_step. right. split_and!; [lia|done|]. by exists []. }
  simpl. topo_step. eapply wp_mono; [by eapply by_ppl_id_ok|]. intros ? icd1 [-> _].
  case_if; [topo_step; right; split_and!; [lia|done|]; by exists []|].
  do 2 topo_step. eapply wp_mono; [apply pipeline_new_ok; [by eapply sizes_of|apply K]|].
  intros w1 p (a & m & Ha & [(-> & Hl & posn & -> & Elen & Hposn')|
    (Hp & i & msg & tx & rp & rm & rt & Hi & Hm0 & Hl & Hrt & Hrm & Hrp & Happ & Hapm & ->)]).
  { simpl. topo_step. right. split_and!; [lia|done|]. exists []. split; [|done].
    apply (topo_keep e sizeof_buffer dops base base L t); [done|done|done|apply K| |done|by simpl; rewrite Hl].
    intros [] Hk; try done. simpl. apply list_elem_of_bind in Hk as (x & Hkx & Hx).
    pose proof (tk_entries _ _ _ _ _ _ K) as HL. rewrite Forall_forall in HL.
    pose proof (entry_slot e sizeof_buffer dops t x i (HL x Hx) Hkx) as Ei. rewrite Ei. by apply Hposn'. }
  rewrite (proj2 (Z.eqb_neq _ _) Hp). pose proof (tk_table _ _ _ _ _ _ K) as Htab. pose proof (lookup_lt_Some _ _ _ Hi) as Hlt.
  assert (KPpl p ∉ keys_of L) as F1 by by eapply (fresh_key e sizeof_buffer dops _ _ _ rp).
  assert (KMsg msg ∉ keys_of L) as F2 by by eapply (fresh_key e sizeof_buffer dops _ _ _ rm).
  assert (KSlot i ∉ keys_of L) as F3 by by eapply (free_slot e sizeof_buffer dops).
  do 2 topo_step. eapply wp_mod_ppl; [simpl; apply lookup_insert_eq|]. do 2 topo_step.
  unfold pipeline_xrun_set_limit. topo_step. eapply wp_mod_ppl; [simpl; apply lookup_insert_eq|]. topo_step. simpl.
  rewrite insert_insert_eq, insert_insert_eq. set (pl := mk_pipeline _ _ _ _ _ _ _ _ (pp_xrun_limit_usecs desc) _ _ _ _ _ _ _ _ _ _ _ _).
  set (t1 := with_world _ _).
  assert (forall k, k ∉ [KPpl p; KMsg msg; KSlot i] -> same t t1 k) as Hs.
  { intros [] Hk; try done; simpl; rewrite ?lookup_insert_ne, ?list_lookup_insert_ne; set_solver. }
  do 2 topo_step. eapply wp_mono; [apply zalloc_live; [done|done]|].
  intros w2 icd (a2 & m2 & -> & Ha2 & [[-> Hl2]|[Hicd (r0 & Hl2 & Hin0 & Hap0)]]).
  - simpl. do 2 topo_step.
    eapply wp_mono; [apply (pipeline_free_ok e _ p pl (mk_msg (stream_hdr (pp_comp_id desc)) (sizeof_posn e) tx) rp rm rt
      (al_live (w_alloc (tp_world t))) i)|]; simpl; try done.
    { apply lookup_insert_eq. }
    { apply lookup_insert_eq. }
    { rewrite u32_small; [done|]. pose proof (proj1 Hposn). nia. }
    { by apply list_lookup_insert_eq. }
    { constructor; try done. simpl. by rewrite length_insert. }
    { rewrite Hl2. subst t1. simpl. exact Hl. }
    intros w3 r (-> & a3 & Ha3 & Hl3 & ->). topo_step. right. split_and!; [lia|done|]. exists []. split; [|done].
    apply (topo_keep e sizeof_buffer dops base base L t); simpl; [done|done|by rewrite !length_insert|apply K| |done|by rewrite Hl3].
    intros [] Hk; try done; simpl; rewrite ?lookup_delete_ne, ?lookup_insert_ne, ?list_lookup_insert_ne; done || set_solver.
  - rewrite (proj2 (Z.eqb_neq _ _) Hicd). unfold add_icd. do 3 topo_step. left. split_and!; [done|done|].
    eexists (mk_entry _ (mk_icd COMP_TYPE_PIPELINE (u16 (pp_core desc)) (pp_comp_id desc) p) _ _). split_and!; [done|done|].
    eapply (add_entry base L t t1) with (ks := [KPpl p; KMsg msg; KSlot i]) (rs := [rt; rm; rp]) (r0 := r0) (a := a2) (m := m2);
      try done; try by repeat constructor.
    + change msg with (p_msg pl). eapply pipeline_ok; simpl;
        [done|apply lookup_insert_eq|done|done|apply lookup_insert_eq| |by apply list_lookup_insert_eq|done..].
      rewrite u32_small; [done|]. pose proof (proj1 Hposn). nia.
    + repeat constructor; set_solver.
    + simpl. by rewrite length_insert.
    + apply K.
Qed.

(** ** Freeing *)

Definition free_post base L (id type : Z) t t' (r : Z) : Prop :=
  (id ∉ en_id <$> L /\ r = - ENODEV /\ t' = t) \/
  exists L1 x L2, L = L1 ++ x :: L2 /\ en_id x = id /\
    ((ic_type (en_dev x) <> type /\ r = - EINVAL /\ t' = t) \/
     (ic_type (en_dev x) = type /\ type <> COMP_TYPE_PIPELINE /\ r = - EINVAL /\ t' = t) \/
     (ic_type (en_dev x) = type /\ r = 0 /\ topo_ok base (L1 ++ L2) t')).

Lemma live_split base L1 x L2 t r0 rs :
  topo_ok base (L1 ++ x :: L2) t -> en_ranges x = r0 :: rs ->
  al_live (w_alloc (tp_world t)) ≡ₚ rs ++ r0 :: ranges_of (L1 ++ L2) ++ base.
Proof.
  intros K E. rewrite (tk_live _ _ _ _ _ _ K). unfold ranges_of. rewrite !bind_app. simpl. rewrite E.
  rewrite <- app_assoc. simpl. rewrite <- !Permutation_middle. apply perm_skip.
  rewrite <- !app_assoc. rewrite !(app_assoc _ _ base). rewrite app_assoc. apply Permutation_app_tail.
  rewrite !app_assoc. apply Permutation_app_tail, Permutation_app_comm.
Qed.

(** The object is gone; the entry follows. *)
Lemma del_entry base L1 x L2 t t1 r0 ks rs :
  topo_ok base (L1 ++ x :: L2) t -> inside r0 (en_icd x) -> en_keys x = KIcd (en_icd x) :: ks -> en_ranges x = r0 :: rs ->
  (forall k, k ∉ ks -> same t t1 k) -> tp_icds t1 = tp_icds t -> tp_comp_list t1 = tp_comp_list t ->
  length (w_posn (tp_world t1)) = length (w_posn (tp_world t)) -> no_flags (tp_world t1) ->
  al_inv (w_alloc (tp_world t1)) -> al_live (w_alloc (tp_world t1)) ≡ₚ r0 :: ranges_of (L1 ++ L2) ++ base ->
  wp (del_icd (en_icd x)) t1 (fun t' _ => topo_ok base (L1 ++ L2) t').
Proof.
  intros K Hin Ek Er Hs Ei El Hlen Hfl Ha Hl. unfold del_icd. do 3 topo_step.
  eapply wp_mono; [apply (free_live _ r0); [done|simpl; rewrite Hl; by left|done]|].
  intros w [] (a & -> & Ha' & Hl'). simpl in Hl'. rewrite Hl in Hl'. apply Permutation_cons_inv in Hl'.
  apply (topo_del e sizeof_buffer dops base L1 x L2 t); simpl; [done|done|done|done| |by rewrite El|].
  - intros k Hk. rewrite Ek in Hk. assert (k ∉ ks) as Hk' by set_solver. specialize (Hs k Hk').
    destruct k; simpl in *; try done. rewrite lookup_delete_ne by set_solver. by rewrite Ei.
  - rewrite (live_split base L1 x L2 t r0 rs K Er), Er, <- Hl'. simpl. rewrite <- Permutation_middle. done.
Qed.

Lemma comp_entry_free_ok base L t id :
  topo_ok base L t -> wp (ipc_comp_free e dops ipc_process_on_core id) t (free_post base L id COMP_TYPE_COMPONENT t).
Proof.
  intros K. unfold ipc_comp_free. topo_step. eapply wp_mono; [by eapply get_by_id_ok|].
  intros ? icd [-> [[-> Hid]|(L1 & x & L2 & -> & Hx & -> & H0 & Hok)]]; [simpl; topo_step; by left|].
  rewrite (proj2 (Z.eqb_neq _ _) H0). pose proof Hok as [Hi _ Hc (r0 & ks & rs & Hin & Ho & Ek & Er)]. do 2 topo_step.
  destruct (ic_type (en_dev x) =? COMP_TYPE_COMPONENT) eqn:Et; simpl.
  2:{ topo_step. right. exists L1, x, L2. split_and!; [done|done|]. left. split; [lia|done]. }
  unfold cpu_is_me. rewrite Hc, Z.eqb_refl. simpl.
  pose proof (live_split base L1 x L2 t r0 rs K Er) as Hlive.
  destruct Ho as [d r rs' _ Hd Hsh Hown Hr| |]; [|lia..]. do 2 topo_step.
  case_if; [topo_step; right; exists L1, x, L2; split_and!; [done|done|]; right; left; split_and!; [lia|done..]|].
  topo_step. unfold comp_free. do 2 topo_step. rewrite Hsh. topo_step.
  eapply wp_mono; [eapply dr_free; [apply K|by eexists|done|exact Hlive]|].
  intros s [] (a & m & d' & Ha & Hl & -> & Hown'). topo_step.
  eapply wp_mono; [eapply (del_entry base L1 x L2 t); try done|]; simpl.
  - intros [] Hk; try done. assert (p <> ic_ptr (en_dev x)) by (intros ->; apply Hk; by left). simpl.
    rewrite lookup_delete_ne by done. by split; [|intros ?; apply Hown'].
  - apply K.
  - intros t' [] K'. topo_step. right. exists L1, x, L2. split_and!; [done|done|]. do 2 right. split_and!; [lia|done..].
Qed.

Lemma active_ends_ok base L t p b l sink source :
  topo_ok base L t -> w_bufs (tp_world t) !! p = Some b -> Forall (fun x => x ∈ L) l ->
  (sink = 0 \/ is_Some (w_devs (tp_world t) !! sink)) -> (source = 0 \/ is_Some (w_devs (tp_world t) !! source)) ->
  wp (active_ends p (en_icd <$> l) sink source) t (fun t' r => t' = t /\
    (r.1 = 0 \/ is_Some (w_devs (tp_world t) !! r.1)) /\ (r.2 = 0 \/ is_Some (w_devs (tp_world t) !! r.2))).
Proof.
  intros K Hb Hl. revert sink source. induction Hl as [|x l Hx Hl IH]; intros sink source Hsk Hsr; simpl; [by topo_step|].
  pose proof (tk_entries _ _ _ _ _ _ K) as HL. rewrite Forall_forall in HL.
  destruct (HL x Hx) as [Hi _ _ (r0 & ks & rs & _ & Ho & _)]. do 2 topo_step.
  destruct (ic_type (en_dev x) =? COMP_TYPE_COMPONENT) eqn:Et; simpl; [|by apply IH].
  destruct Ho as [d r rs' _ Hd _ _ _| |]; [|lia..]. do 3 topo_step.
  assert (forall (c old : Z) P, (old = 0 \/ is_Some (w_devs (tp_world t) !! old)) ->
    (forall v, (v = 0 \/ is_Some (w_devs (tp_world t) !! v)) -> P t v) ->
    wp (if c =? ic_ptr (en_dev x) then
          d ← on_world (get_dev c); mret (if negb (d_state d =? COMP_STATE_READY) then c else old)
        else mret old) t P) as Hend.
  { intros c old P Hold HP. destruct (c =? ic_ptr (en_dev x)) eqn:Ec; [|topo_step; by apply HP].
    assert (c = ic_ptr (en_dev x)) as -> by lia. do 3 topo_step. apply HP. case_if; [right; by eexists|done]. }
  apply Hend; [done|]. intros v1 H1. topo_step. apply Hend; [done|]. intros v2 H2. by apply IH.
Qed.

(** Other component lists. *)
Definition relisted t t' : Prop := exists devs,
  t' = with_world t (with_devs (tp_world t) devs) /\ d_is_shared <$> devs = d_is_shared <$> w_devs (tp_world t).

Lemma relisted_same t t' k : relisted t t' -> same t t' k.
Proof.
  intros (devs & -> & E). destruct k; try done. simpl. split; [|done]. by rewrite <- !lookup_fmap, E.
Qed.

Lemma relisted_dev t t' c : relisted t t' -> is_Some (w_devs (tp_world t) !! c) -> is_Some (w_devs (tp_world t') !! c).
Proof. intros (devs & -> & E). simpl. by apply (fmap_is_Some d_is_shared). Qed.

Lemma disconnect_ok (c p dir : Z) t :
  c = 0 \/ is_Some (w_devs (tp_world t) !! c) ->
  wp (if negb (c =? 0) then on_world (pipeline_disconnect c p dir) else mret tt) t (fun t' _ => relisted t t').
Proof.
  intros Hc. assert (relisted t t) as Hid by (exists (w_devs (tp_world t)); by destruct t as [[] ? ? ? ?]).
  destruct (c =? 0) eqn:E0; simpl; [by topo_step|]. destruct Hc as [->|[d Hd]]; [done|].
  topo_step. unfold pipeline_disconnect. topo_step. eexists. split; [done|]. rewrite fmap_insert. apply insert_id.
  rewrite lookup_fmap, Hd. simpl. by case_if.
Qed.

Lemma buffer_entry_free_ok base L t id :
  topo_ok base L t -> wp (ipc_buffer_free e ipc_process_on_core id) t (free_post base L id COMP_TYPE_BUFFER t).
Proof.
  intros K. unfold ipc_buffer_free. topo_step. eapply wp_mono; [by eapply get_by_id_ok|].
  intros ? icd [-> [[-> Hid]|(L1 & x & L2 & -> & Hx & -> & H0 & Hok)]]; [simpl; topo_step; by left|].
  rewrite (proj2 (Z.eqb_neq _ _) H0). pose proof Hok as [Hi _ Hc (r0 & ks & rs & Hin & Ho & Ek & Er)]. do 2 topo_step.
  destruct (ic_type (en_dev x) =? COMP_TYPE_BUFFER) eqn:Et; simpl.
  2:{ topo_step. right. exists L1, x, L2. split_and!; [done|done|]. left. split; [lia|done]. }
  unfold cpu_is_me. rewrite Hc, Z.eqb_refl. simpl. do 3 topo_step. rewrite (tk_list _ _ _ _ _ _ K).
  pose proof (live_split base L1 x L2 t r0 rs K Er) as Hlive.
  destruct Ho as [|b rs' rd _ Hb Hself Hcs Hins Hcd Hwf|]; [lia| |lia].
  eapply wp_mono; [eapply (active_ends_ok _ _ t _ b _ 0 0 K Hb); [by apply Forall_forall|by left|by left]|].
  intros ? [sink source] (-> & Hsk & Hsr). simpl in Hsk, Hsr.
  case_if; [topo_step; right; exists L1, x, L2; split_and!; [done|done|]; right; left; split_and!; [lia|done..]|].
  topo_step. eapply wp_mono; [by apply disconnect_ok|]. intros t1 [] R1. topo_step.
  eapply wp_mono; [apply disconnect_ok; destruct Hsr; [by left|right; by eapply relisted_dev]|]. intros t2 [] R2.
  assert (relisted t t2) as R.
  { destruct R1 as (d1 & -> & E1), R2 as (d2 & -> & E2). exists d2. split; [done|]. simpl in E2. by rewrite E2. }
  destruct R as (devs & -> & E). do 2 topo_step.
  eapply wp_mono; [eapply (buffer_free_at_ok _ _ b rs' rd); [done|apply K|exact Hlive|done..]|].
  intros w [] (a & Ha & Hl & ->). topo_step.
  eapply wp_mono; [eapply (del_entry base L1 x L2 t); try done|]; simpl.
  - intros [] Hk; try done; simpl.
    + split; [|done]. by rewrite <- !lookup_fmap, E.
    + rewrite lookup_delete_ne; [done|]. intros <-. apply Hk. by left.
  - intros q b'. simpl. intros [_ Hq]%lookup_delete_Some. by eapply K.
  - intros t' [] K'. topo_step. right. exists L1, x, L2. split_and!; [done|done|]. do 2 right. split_and!; [lia|done..].
Qed.

Lemma pipeline_entry_free_ok base L t id :
  topo_ok base L t -> wp (ipc_pipeline_free e ipc_process_on_core id) t (free_post base L id COMP_TYPE_PIPELINE t).
Proof.
  intros K. unfold ipc_pipeline_free. topo_step. eapply wp_mono; [by eapply get_by_id_ok|].
  intros ? icd [-> [[-> Hid]|(L1 & x & L2 & -> & Hx & -> & H0 & Hok)]]; [simpl; topo_step; by left|].
  rewrite (proj2 (Z.eqb_neq _ _) H0). pose proof Hok as [Hi _ Hc (r0 & ks & rs & Hin & Ho & Ek & Er)]. do 2 topo_step.
  destruct (ic_type (en_dev x) =? COMP_TYPE_PIPELINE) eqn:Et; simpl.
  2:{ topo_step. right. exists L1, x, L2. split_and!; [done|done|]. left. split; [lia|done]. }
  unfold cpu_is_me. rewrite Hc, Z.eqb_refl. simpl. pose proof (live_split base L1 x L2 t r0 rs K Er) as Hlive.
  destruct Ho as [| |pl m n rt rm rp _ Hp Ht Hm0 Hm Hoff Hn Hrt Hrm Hrp]; [lia..|]. do 2 topo_step.
  eapply wp_mono; [eapply (pipeline_free_ok e _ _ pl m rp rm rt _ n); try done; [by eapply sizes_of|apply K|exact Hlive]|].
  intros w r (-> & a & Ha & Hl & ->). simpl. topo_step.
  eapply wp_mono; [eapply (del_entry base L1 x L2 t); try done|]; simpl.
  - intros [] Hk; try done; simpl; rewrite ?lookup_delete_ne, ?list_lookup_insert_ne; done || set_solver.
  - by rewrite length_insert.
  - apply K.
  - intros t' [] K'. topo_step. right. exists L1, x, L2. split_and!; [done|done|]. do 2 right. split_and!; [lia|done..].
Qed.

(** ** Connections *)

(** Changes to the graph that no owner notices. *)
Record regraphed t t' : Prop := {
  rg_same k : same t t' k;
  rg_list : tp_comp_list t' = tp_comp_list t;
  rg_alloc : w_alloc (tp_world t') = w_alloc (tp_world t);
  rg_posn : w_posn (tp_world t') = w_posn (tp_world t);
  rg_flags : b_walking <$> w_bufs (tp_world t') = b_walking <$> w_bufs (tp_world t)
}.

Lemma regraphed_ok base L t t' : topo_ok base L t -> regraphed t t' -> topo_ok base L t'.
Proof.
  intros K [Hs Hl Ha Hp Hf].
  apply (topo_keep e sizeof_buffer dops base base L t); [done|rewrite Ha; apply K|by rewrite Hp| |by intros k _|done|by rewrite Ha].
  intros b bf Hb. destruct (fmap_lookup_r _ _ _ _ _ Hf Hb) as (bf' & Hb' & ->). by apply (tk_flags _ _ _ _ _ _ K b).
Qed.

Lemma mod_dev_regraphed t c d d' :
  w_devs (tp_world t) !! c = Some d -> d_is_shared d' = d_is_shared d ->
  regraphed t (with_world t (with_devs (tp_world t) (<[c := d']> (w_devs (tp_world t))))).
Proof.
  intros Hd E. constructor; try done. intros k. apply relisted_same. eexists. split; [done|].
  rewrite fmap_insert. apply insert_id. by rewrite lookup_fmap, Hd, E.
Qed.

Lemma connect_world_ok t comp buffer dir d b :
  w_devs (tp_world t) !! comp = Some d -> w_bufs (tp_world t) !! buffer = Some b ->
  wp (on_world (pipeline_connect comp buffer dir)) t (fun t' r => r = 0 /\ regraphed t t').
Proof.
  intros Hd Hb. topo_step. unfold pipeline_connect. do 2 topo_step. topo_step.
  eapply wp_mod_buf; [exact Hb|]. topo_step. split; [done|].
  assert (forall P, (if dir =? PPL_CONN_DIR_COMP_TO_BUFFER then set_comps comp (b_sink b) b else set_comps (b_source b) comp b) = P ->
    buf_part P = buf_part b /\ b_walking P = b_walking b) as Hpart by (intros P <-; by case_if).
  destruct (Hpart _ eq_refl) as [E1 E2]. constructor; try done.
  - intros k. destruct k; try done; simpl.
    + split; [|done]. rewrite <- !lookup_fmap, fmap_insert, insert_id; [done|]. rewrite lookup_fmap, Hd. simpl. by case_if.
    + rewrite <- !lookup_fmap, fmap_insert, insert_id; [done|]. by rewrite lookup_fmap, Hb, E1.
  - simpl. rewrite fmap_insert. apply insert_id. by rewrite lookup_fmap, Hb, E2.
Qed.

Lemma component_dev t x : entry_ok t x -> ic_type (en_dev x) = COMP_TYPE_COMPONENT ->
  exists d, w_devs (tp_world t) !! ic_ptr (en_dev x) = Some d.
Proof. intros [_ _ _ (r & ks & rs & _ & Ho & _)] Et. destruct Ho; [by eexists|lia..]. Qed.

Lemma buffer_buf t x : entry_ok t x -> ic_type (en_dev x) = COMP_TYPE_BUFFER ->
  exists b, w_bufs (tp_world t) !! ic_ptr (en_dev x) = Some b.
Proof. intros [_ _ _ (r & ks & rs & _ & Ho & _)] Et. destruct Ho; [lia|by eexists|lia]. Qed.

Lemma pipeline_ppl t x : entry_ok t x -> ic_type (en_dev x) = COMP_TYPE_PIPELINE ->
  exists p, w_ppls (tp_world t) !! ic_ptr (en_dev x) = Some p.
Proof. intros [_ _ _ (r & ks & rs & _ & Ho & _)] Et. destruct Ho; [lia..|by eexists]. Qed.

Lemma connect_entries_ok t comp buffer dir :
  entry_ok t comp -> entry_ok t buffer -> ic_type (en_dev comp) = COMP_TYPE_COMPONENT -> ic_type (en_dev buffer) = COMP_TYPE_BUFFER ->
  wp (ipc_connect e ipc_process_on_core (en_dev comp) (en_dev buffer) dir) t (fun t' r => r = 0 /\ regraphed t t').
Proof.
  intros Hc Hb Tc Tb. unfold ipc_connect, cpu_is_me. rewrite (eo_core _ _ _ _ _ Hc), (eo_core _ _ _ _ _ Hb), Z.eqb_refl. simpl.
  destruct (component_dev t comp Hc Tc) as [d Hd]. destruct (buffer_buf t buffer Hb Tb) as [b Hbf]. by eapply connect_world_ok.
Qed.

(** The types of two entries that can be connected. *)
Definition joins (s k : entry) : Prop :=
  (ic_type (en_dev s) = COMP_TYPE_BUFFER /\ ic_type (en_dev k) = COMP_TYPE_COMPONENT) \/
  (ic_type (en_dev s) = COMP_TYPE_COMPONENT /\ ic_type (en_dev k) = COMP_TYPE_BUFFER).

Lemma comp_connect_ok base L t source_id sink_id :
  topo_ok base L t ->
  wp (ipc_comp_connect e ipc_process_on_core source_id sink_id) t (fun t' r => topo_ok base L t' /\
    ((r = 0 /\ exists s k, s ∈ L /\ k ∈ L /\ en_id s = source_id /\ en_id k = sink_id /\ joins s k) \/
     (r = - EINVAL /\ forall s k, s ∈ L -> k ∈ L -> en_id s = source_id -> en_id k = sink_id -> ~ joins s k))).
Proof.
  intros K. unfold ipc_comp_connect. topo_step. eapply wp_mono; [by eapply get_by_id_ok|].
  assert (forall id x, id ∉ en_id <$> L -> x ∈ L -> en_id x = id -> False) as Hnone.
  { intros id x Hid Hx <-. apply Hid. by apply list_elem_of_fmap_2. }
  assert (forall x y, x ∈ L -> y ∈ L -> en_id x = en_id y -> x = y) as Hinj.
  { intros x y [i Hi]%list_elem_of_lookup [j Hj]%list_elem_of_lookup E.
    assert (i = j) as ->; [|congruence]. eapply (NoDup_lookup (en_id <$> L)); [apply K|by rewrite list_lookup_fmap, Hi|].
    rewrite list_lookup_fmap, Hj. simpl. by rewrite E. }
  intros ? icd [-> [[-> Hid]|(L1 & s & L2 & EL & Hs & -> & H0 & Hsok)]].
  { simpl. topo_step. split; [done|right]. split; [done|]. intros s k Hs _ E _ _. by eapply Hnone. }
  rewrite (proj2 (Z.eqb_neq _ _) H0). topo_step. eapply wp_mono; [by eapply get_by_id_ok|].
  intros ? icd [-> [[-> Hid]|(L3 & k & L4 & EL' & Hk & -> & H1 & Hkok)]].
  { simpl. topo_step. split; [done|right]. split; [done|]. intros s' k _ Hk _ E _. by eapply Hnone. }
  rewrite (proj2 (Z.eqb_neq _ _) H1). pose proof (eo_icd _ _ _ _ _ Hsok). pose proof (eo_icd _ _ _ _ _ Hkok). do 4 topo_step.
  assert (s ∈ L /\ k ∈ L) as [Hsin Hkin] by (split; [rewrite EL|rewrite EL']; set_solver).
  unfold ipc_buffer_to_comp_connect, ipc_comp_to_buffer_connect.
  destruct ((ic_type (en_dev s) =? COMP_TYPE_BUFFER) && _) eqn:E1;
    [|destruct ((ic_type (en_dev s) =? COMP_TYPE_COMPONENT) && _) eqn:E2].
  - zbool. eapply wp_mono; [by apply connect_entries_ok|]. intros t' r [-> Hr]. split; [by eapply regraphed_ok|left].
    split; [done|]. exists s, k. split_and!; try done. by left.
  - zbool. eapply wp_mono; [by apply connect_entries_ok|]. intros t' r [-> Hr]. split; [by eapply regraphed_ok|left].
    split; [done|]. exists s, k. split_and!; try done. by right.
  - topo_step. split; [done|right]. split; [done|]. intros s' k' Hs' Hk' Es Ek.
    rewrite (Hinj s' s Hs' Hsin), (Hinj k' k Hk' Hkin) by congruence. unfold joins. lia.
Qed.

(** ** Completion *)

Lemma ppl_comp_ok base L t pipeline_id dir :
  topo_ok base L t -> graph_ok (tp_world t) ->
  wp (ipc_get_ppl_comp e pipeline_id dir) t (fun t' r => t' = t /\
    (r = 0 \/ r <> 0 /\ exists x, x ∈ L /\ r = en_icd x /\ ic_type (en_dev x) = COMP_TYPE_COMPONENT)).
Proof.
  intros K G. pose proof (tk_entries _ _ _ _ _ _ K) as HL. pose proof HL as HL'. rewrite Forall_forall in HL'.
  unfold ipc_get_ppl_comp. do 3 topo_step. rewrite (tk_list _ _ _ _ _ _ K).
  (* the first search fails only if the components of the pipeline have buffers *)
  eapply wp_mono; [apply (find_icd_ok _ t L (fun x (b : bool) => if b then ic_type (en_dev x) = COMP_TYPE_COMPONENT
    else forall d, ic_type (en_dev x) = COMP_TYPE_COMPONENT -> w_devs (tp_world t) !! ic_ptr (en_dev x) = Some d ->
      d_pipe_id d = pipeline_id -> comp_buffer_list d dir <> [])); [done|]|].
  { intros x Hx. destruct (ic_type (en_dev x) =? COMP_TYPE_COMPONENT) eqn:Et; simpl; [|topo_step; split; [done|lia]].
    unfold cpu_is_me. rewrite (eo_core _ _ _ _ _ (HL' x Hx)), Z.eqb_refl. simpl.
    destruct (component_dev t x (HL' x Hx)) as [d Hd]; [lia|]. do 3 topo_step. split; [done|].
    destruct (_ && _) eqn:E; [lia|]. intros d' _ Hd' Hp En. simplify_eq.
    rewrite Z.eqb_refl, bool_decide_eq_true_2 in E by done. done. }
  intros ? r [-> [[-> Hf]|(L1 & x & L2 & -> & Hx & ->)]].
  2:{ assert (x ∈ L1 ++ x :: L2) as Hin by set_solver. pose proof (eo_null _ _ _ _ _ (HL' x Hin)) as H0.
      rewrite (proj2 (Z.eqb_neq _ _) H0). simpl. topo_step. split; [done|right]. split; [done|]. by exists x. }
  simpl. rewrite Forall_forall in Hf.
  eapply wp_mono; [apply (find_icd_ok _ t L (fun x (b : bool) => b = true -> ic_type (en_dev x) = COMP_TYPE_COMPONENT)); [done|]|].
  { intros x Hx. destruct (ic_type (en_dev x) =? COMP_TYPE_COMPONENT) eqn:Et; simpl; [|topo_step; split; [done|by intros]].
    unfold cpu_is_me. rewrite (eo_core _ _ _ _ _ (HL' x Hx)), Z.eqb_refl. simpl.
    destruct (component_dev t x (HL' x Hx)) as [d Hd]; [lia|]. do 2 topo_step.
    destruct (d_pipe_id d =? pipeline_id) eqn:Ep; simpl; [|topo_step; split; [done|lia]].
    destruct (comp_buffer_list d dir) as [|b bl] eqn:El; [by destruct (Hf x Hx d); [lia|done|lia|]|].
    assert (is_buf (tp_world t) b) as [bf Hb].
    { apply (go_lists _ G _ d b Hd). unfold comp_buffer_list in El. destruct (dir =? _); rewrite El; [right|left]; by left. }
    topo_step. eexists t, b. split; [done|]. do 2 topo_step.
    destruct (buffer_get_comp bf dir =? 0) eqn:E0; [topo_step; split; [done|lia]|].
    assert (is_dev (tp_world t) (buffer_get_comp bf dir)) as [dc Hdc].
    { eapply (go_ends _ G b bf); [done| |lia]. unfold buffer_get_comp. case_if; [by right|by left]. }
    do 3 topo_step. split; [done|lia]. }
  intros ? r [-> [[-> _]|(L1 & x & L2 & -> & Hx & ->)]]; (split; [done|]); [by left|right].
  assert (x ∈ L1 ++ x :: L2) as Hin by set_solver. split; [by apply HL'|]. exists x. split_and!; [done|done|by apply Hx].
Qed.

Lemma completed_regraphed t p w' : completed (tp_world t) w' p -> regraphed t (with_world t w').
Proof.
  intros [Hp Hf Hq Hpp]. injection Hp as Ea Eposn Em Es _ Eb. constructor; simpl; try done.
  intros []; simpl; try done.
  - split; [|done]. by rewrite <- !lookup_fmap, Es.
  - by rewrite <- !lookup_fmap, Eb.
  - destruct (decide (p0 = p)) as [->|Hne]; [done|by rewrite Hq].
  - by rewrite Em.
  - by rewrite Eposn.
Qed.

Lemma entry_complete_ok base L t id :
  topo_ok base L t -> graph_ok (tp_world t) -> (size (w_bufs (tp_world t)) < fuel)%nat ->
  (forall x, x ∈ L -> en_id x = id -> ic_type (en_dev x) = COMP_TYPE_PIPELINE) ->
  wp (ipc_pipeline_complete e fuel data0 ipc_process_on_core id) t (fun t' _ => topo_ok base L t').
Proof.
  intros K G Hf Hid. unfold ipc_pipeline_complete. topo_step. eapply wp_mono; [by eapply get_by_id_ok|].
  intros ? icd [-> [[-> Hno]|(L1 & x & L2 & -> & Hx & -> & H0 & Hok)]]; [simpl; by topo_step|].
  rewrite (proj2 (Z.eqb_neq _ _) H0). pose proof (eo_icd _ _ _ _ _ Hok). do 2 topo_step.
  unfold cpu_is_me. rewrite (eo_core _ _ _ _ _ Hok), Z.eqb_refl. simpl.
  destruct (pipeline_ppl t x Hok) as [pl Hp]; [apply Hid; [set_solver|done]|]. do 2 topo_step.
  pose proof (tk_entries _ _ _ _ _ _ K) as HL. rewrite Forall_forall in HL.
  topo_step. eapply wp_mono; [by eapply ppl_comp_ok|]. intros ? src [-> [->|(Hs0 & xs & Hxs & -> & Hts)]]; [simpl; by topo_step|].
  rewrite (proj2 (Z.eqb_neq _ _) Hs0). topo_step. eapply wp_mono; [by eapply ppl_comp_ok|].
  intros ? snk [-> [->|(Hk0 & xk & Hxk & -> & Htk)]]; [simpl; by topo_step|]. rewrite (proj2 (Z.eqb_neq _ _) Hk0).
  topo_step. eapply wp_mono; [by eapply get_by_id_ok|]. intros ? sched [-> Hsched].
  assert (exists y, y ∈ L1 ++ x :: L2 /\ (if sched =? 0 then en_icd xk else sched) = en_icd y) as (y & Hy & ->).
  { destruct Hsched as [[-> _]|(L3 & y & L4 & EL & _ & -> & Hy0 & _)]; [by exists xk|].
    rewrite (proj2 (Z.eqb_neq _ _) Hy0). exists y. split; [rewrite EL; set_solver|done]. }
  pose proof (eo_icd _ _ _ _ _ (HL y Hy)). do 2 topo_step. case_if; [by topo_step|]. case_if; [by topo_step|].
  do 2 topo_step. eapply wp_mod_ppl; [exact Hp|]. set (t1 := with_world _ _).
  assert (regraphed t t1) as R1.
  { constructor; try done. intros []; try done. simpl. rewrite <- !lookup_fmap, fmap_insert, insert_id; [done|].
    by rewrite lookup_fmap, Hp. }
  pose proof (eo_icd _ _ _ _ _ (HL xs Hxs)) as Hixs. pose proof (eo_icd _ _ _ _ _ (HL xk Hxk)) as Hixk.
  topo_step. eapply wp_get_icd; [exact Hixs|]. topo_step. eapply wp_get_icd; [exact Hixk|]. topo_step.
  destruct (component_dev t xs (HL xs Hxs) Hts) as [ds Hds].
  destruct (complete_ok fuel data0 (ic_ptr (en_dev x)) (ic_ptr (en_dev xs)) (ic_ptr (en_dev xk)) ds
    (set_sched_comp (ic_ptr (en_dev y)) pl) (tp_world t1)) as (w' & r & E & Hc & _);
    [|apply K|exact Hds|apply lookup_insert_eq|exact Hf|].
  { destruct G as [G1 G2 G3 G4]. constructor; try done.
    - intros a d Ha Hn. unfold is_ppl. simpl. destruct (decide (d_pipeline d = ic_ptr (en_dev x))) as [->|Hne];
        [rewrite lookup_insert_eq; by eexists|rewrite lookup_insert_ne by done; by apply (G3 a)].
    - unfold is_ppl. simpl. rewrite lookup_insert_ne; [done|]. intros E. apply G4. rewrite <- E. by exists pl. }
  exists w', r. split; [exact E|]. apply (regraphed_ok base (L1 ++ x :: L2) t1); [by eapply regraphed_ok|].
  by eapply completed_regraphed.
Qed.

Lemma state_change_ok base L t id s :
  topo_ok base L t ->
  wp (icd ← ipc_get_comp_by_id id; if icd =? 0 then mret 0 else i ← get_icd icd;
      if negb (ic_type i =? COMP_TYPE_COMPONENT) then mret 0 else
      on_world (mod_dev (ic_ptr i) (Pipeline.set_state s)) ;; mret 0) t (fun t' _ => topo_ok base L t').
Proof.
  intros K. topo_step. eapply wp_mono; [by eapply get_by_id_ok|].
  intros ? icd [-> [[-> Hno]|(L1 & x & L2 & -> & Hx & -> & H0 & Hok)]]; [simpl; by topo_step|].
  rewrite (proj2 (Z.eqb_neq _ _) H0). pose proof (eo_icd _ _ _ _ _ Hok). do 2 topo_step. case_if; [by topo_step|].
  destruct (component_dev t x Hok) as [d Hd]; [lia|]. do 3 topo_step. topo_step.
  eapply regraphed_ok; [done|]. by eapply mod_dev_regraphed.
Qed.
End ops.
