(* ===== verification/Driver.v ===== *)
(** * What drivers share

    The private data of components, [comp_alloc] of
    [include/sof/audio/component.h] on one core, the state of a component, and the
    commits [comp_update_buffer_produce] and [comp_update_buffer_consume] on the
    buffers of the audio graph; and how they give back memory. *)

From stdpp Require Import base list numbers option gmap.
From S2P Require Import Prelude StateM AudioStream Heap Allocator Buffer CompState Pipeline PipelineOps.
From S2P Require Import PipelineWalk PipelineThms PipelineLife Topology.

Section driver.
Context {A D : Type}.
Notation MX := (ST (world A * gmap Z D)).

(** ** Private data *)

Definition in_world {B} (m : M A B) : MX B := fun s =>
  match m s.1 with Some (w, x) => Some ((w, s.2), x) | None => None end.

Definition get_drvdata (dev : Z) : MX D := fun s => x ← s.2 !! dev; Some (s, x).

Definition set_drvdata (dev : Z) (x : D) : MX unit := modify (fun s => (s.1, <[dev := x]> s.2)).

Lemma wp_in_world {B} (m : M A B) w x (P : world A * gmap Z D -> B -> Prop) :
  wp m w (fun w' r => P (w', x) r) -> wp (in_world m) (w, x) P.
Proof. intros (w' & r & E & HP). exists (w', x), r. unfold in_world. simpl. by rewrite E. Qed.

Lemma wp_get_drvdata w (x : gmap Z D) dev y (P : world A * gmap Z D -> D -> Prop) :
  x !! dev = Some y -> P (w, x) y -> wp (get_drvdata dev) (w, x) P.
Proof. intros Hx HP. exists (w, x), y. unfold get_drvdata. simpl. by rewrite Hx. Qed.

Lemma wp_set_drvdata w (x : gmap Z D) dev y (P : world A * gmap Z D -> unit -> Prop) :
  P (w, <[dev := y]> x) tt -> wp (set_drvdata dev y) (w, x) P.
Proof. intros HP. by exists (w, <[dev := y]> x), tt. Qed.
End driver.

(** One step of a computation with private data. *)
Ltac drv_step :=
  match goal with
  | |- wp (in_world _) _ _ => apply wp_in_world
  | |- wp (get_drvdata _) _ _ => eapply wp_get_drvdata; [eassumption|]
  | |- wp (set_drvdata _ _) _ _ => apply wp_set_drvdata
  | |- wp (lift _) _ _ => eapply wp_lift; [eassumption|]
  | _ => wp_step
  end; cbv beta.

(** ** Components *)

Section component.
Context {A : Type}.

(** A new component as [comp_alloc] leaves it, with the configuration. *)
Definition comp_alloc (config : comp_ipc_config) : comp_dev :=
  mk_dev COMP_STATE_INIT 0 0 0 0 false (cf_id config) (cf_pipeline_id config) (cf_type config) (cf_core config) 0 [] [].

(** [comp_set_state] of the component at an address. *)
Definition set_dev_state (dev cmd : Z) : M A Z :=
  d ← get_dev dev;
  let '(s, ret) := comp_set_state (d_state d) cmd in
  mod_dev dev (set_state s) ;;
  mret ret.

(** The component [d] at [dev] in another state. *)
Definition dev_at (w : world A) (dev : Z) (d : comp_dev) (s : Z) : world A := with_devs w (<[dev := set_state s d]> (w_devs w)).

Lemma set_dev_state_ok (w : world A) dev d cmd :
  w_devs w !! dev = Some d ->
  wp (set_dev_state dev cmd) w (fun w' r => w' = dev_at w dev d (comp_set_state (d_state d) cmd).1 /\
    r = (comp_set_state (d_state d) cmd).2).
Proof. intros Hd. unfold set_dev_state. do 2 wp_step. destruct (comp_set_state _ _) as [s r]. by do 3 wp_step. Qed.

Lemma dev_at_id (w : world A) dev d s : w_devs w !! dev = Some d -> d_state d = s -> dev_at w dev d s = w.
Proof. intros Hd <-. unfold dev_at. replace (set_state (d_state d) d) with d by (by destruct d). rewrite insert_id by done. by destruct w. Qed.

Lemma dev_at_twice (w : world A) dev d s s' : dev_at (dev_at w dev d s) dev (set_state s d) s' = dev_at w dev d s'.
Proof. unfold dev_at. simpl. by rewrite insert_insert_eq. Qed.

(** Leaving a preparation that failed: the state is reset. *)
Definition prepare_err {D : Type} (dev ret : Z) : ST (world A * gmap Z D) Z :=
  in_world (set_dev_state dev COMP_TRIGGER_RESET) ;; mret ret.

Lemma prepare_err_ok {D : Type} (w : world A) (x : gmap Z D) dev d ret :
  w_devs w !! dev = Some d -> d_state d = COMP_STATE_READY ->
  wp (prepare_err dev ret) (dev_at w dev d COMP_STATE_PREPARE, x) (fun s r => r = ret /\ s = (w, x)).
Proof.
  intros Hd Hs. unfold prepare_err. do 2 drv_step.
  eapply wp_mono; [apply (set_dev_state_ok _ dev (set_state COMP_STATE_PREPARE d)); simpl; by rewrite lookup_insert_eq|].
  intros w' r [-> ->]. drv_step. split; [done|]. f_equal. simpl. rewrite dev_at_twice. by apply dev_at_id.
Qed.

(** ** Commits *)

Fixpoint emit_all (buffer : Z) (evs : list buffer_event) : M A unit :=
  match evs with
  | [] => mret tt
  | ev :: evs => emit (BufferNotify buffer ev) ;; emit_all buffer evs
  end.

Definition produce (buffer bytes : Z) : M A unit :=
  b ← get_buf buffer;
  r ← lift (comp_update_buffer_produce b bytes);
  mod_buf buffer (fun _ => r.1) ;;
  emit_all buffer r.2.

Definition consume (buffer bytes : Z) : M A unit :=
  b ← get_buf buffer;
  r ← lift (comp_update_buffer_consume b bytes);
  mod_buf buffer (fun _ => r.1) ;;
  emit_all buffer r.2.

Fixpoint consume_all (buffers : list Z) (bytes : Z) : M A unit :=
  match buffers with
  | [] => mret tt
  | buffer :: buffers => consume buffer bytes ;; consume_all buffers bytes
  end.

End component.

(** ** Memory *)

Section memory.
Context {A D : Type} `{!Allocator A}.
Implicit Types (w : world A) (x : gmap Z D).

Lemma wp_free_block w x r p rest (P : world A * gmap Z D -> unit -> Prop) :
  al_inv (w_alloc w) -> al_live (w_alloc w) ≡ₚ r :: rest -> inside r p ->
  (forall a, al_inv a -> al_live a ≡ₚ rest -> P (with_alloc w a, x) tt) -> wp (in_world (free p)) (w, x) P.
Proof.
  intros Ha Hl Hin HP. apply wp_in_world. eapply wp_mono; [apply (free_live w r p); [done|rewrite Hl; by left|done]|].
  intros ? [] (a & -> & Ha' & Hl'). apply HP; [done|]. apply (Permutation_cons_inv (a := r)). by rewrite <- Hl', Hl.
Qed.

Lemma wp_free_two w x r1 r2 p1 p2 rest B (k : ST (world A * gmap Z D) B) P :
  al_inv (w_alloc w) -> al_live (w_alloc w) ≡ₚ r1 :: r2 :: rest -> inside r1 p1 -> inside r2 p2 ->
  (forall a, al_inv a -> al_live a ≡ₚ rest -> wp k (with_alloc w a, x) P) ->
  wp (in_world (free p1) ;; in_world (free p2) ;; k) (w, x) P.
Proof.
  intros Ha Hl H1 H2 Hk. drv_step. eapply wp_free_block; [done..|]. intros a1 Ha1 Hl1. drv_step.
  eapply wp_free_block; [done..|]. intros a2 Ha2 Hl2. by apply Hk.
Qed.

(** Objects of a map live in memory of the heap. *)
Definition in_live w {B} (y : gmap Z B) : Prop := forall q, is_Some (y !! q) -> exists r, r ∈ al_live (w_alloc w) /\ inside r q.
End memory.
