(* ===== verification/SampleQueue.v ===== *)
(** * Queues of samples

    A stream as the queue of the samples that can be read: what the components
    append and take. *)

From stdpp Require Import base list numbers option gmap.
From S2P Require Import Prelude StateM AudioStream StreamCopy Heap HeapMap HeapSpec HeapFree HeapZones Allocator.
From S2P Require Import Buffer CompState Pipeline PipelineOps PipelineWalk PipelineThms PipelineLife Format.
From S2P Require Import SampleLoop PcmConvert PcmThms Topology TopologyInv Driver.

(** Sample [k] from the read pointer. *)
Definition sample (fmt : pcm_fmt) (m : mem) (s : audio_stream) (k : nat) : Z :=
  load_le (fmt_width fmt) m (ring s (s_r_ptr s) (Z.of_nat (fmt_width fmt) * Z.of_nat k)).

Lemma stored_ext w sink q F G m m' n :
  (forall i, F i = G i) -> stored w sink q F m m' n -> stored w sink q G m m' n.
Proof. intros E [H1 H2]. split; [|done]. intros i Hi. by rewrite <- E, H1. Qed.

Section queue.
Context (fmt : pcm_fmt).
Notation width := (Z.of_nat (fmt_width fmt)).

(** The samples that can be read, oldest first. *)
Definition samples (m : mem) (s : audio_stream) : list Z := sample fmt m s <$> seq 0 (Z.to_nat (s_avail s / width)).

(** A stream of whole samples of the format, neither overrun nor underrun
    permitted. *)
Record samples_ok (channels : Z) (s : audio_stream) : Prop := {
  so_wf : stream_wf s;
  so_fmt : s_frame_fmt s = fmt_code fmt;
  so_channels : s_channels s = channels;
  so_aligned : aligned s (s_r_ptr s) width;
  so_avail : (width | s_avail s);
  so_over : s_overrun_permitted s = false;
  so_under : s_underrun_permitted s = false
}.

Lemma width_pos : 2 <= width.
Proof. destruct fmt; simpl; lia. Qed.

Lemma so_w_aligned ch s : samples_ok ch s -> aligned s (s_w_ptr s) width.
Proof.
  intros [W _ _ [A1 A2] Av _ _]. split; [done|]. rewrite (wf_w _ W). unfold ring. pose proof (geom_size _ (wf_geom _ W)).
  replace (s_addr s + (s_r_ptr s - s_addr s + s_avail s) mod s_size s - s_addr s)
    with ((s_r_ptr s - s_addr s + s_avail s) mod s_size s) by lia.
  rewrite Z.mod_eq by lia. apply Z.divide_sub_r; [by apply Z.divide_add_r|]. by apply Z.divide_mul_l.
Qed.

(** New pointers on the same ring. *)
Lemma set_ptrs_ok ch s wp rp avail free :
  samples_ok ch s -> stream_wf (set_ptrs s wp rp avail free) -> (width | rp - s_addr s) -> (width | avail) ->
  samples_ok ch (set_ptrs s wp rp avail free).
Proof. intros [W F C [A1 A2] Av O U] W' Hr Ha. by constructor. Qed.

(** The stream with [n] bytes less, and with [n] bytes more. *)
Definition taken (s : audio_stream) (n : Z) : audio_stream :=
  set_ptrs s (s_w_ptr s) (ring s (s_r_ptr s) n) (s_avail s - n) (s_free s + n).
Definition added (s : audio_stream) (n : Z) : audio_stream :=
  set_ptrs s (ring s (s_w_ptr s) n) (s_r_ptr s) (s_avail s + n) (s_free s - n).

Lemma taken_0 s : stream_wf s -> taken s 0 = s.
Proof. intros W. unfold taken. rewrite ring_0 by apply W. rewrite Z.sub_0_r, Z.add_0_r. by destruct s. Qed.

Lemma added_0 s : stream_wf s -> added s 0 = s.
Proof. intros W. unfold added. rewrite ring_0 by (apply W || by apply wf_w_in). rewrite Z.sub_0_r, Z.add_0_r. by destruct s. Qed.

(** Samples stored behind the queue and committed are appended to it. *)
Lemma produce_samples ch m m' s F n :
  samples_ok ch s -> (0 < n)%nat -> width * Z.of_nat n <= s_free s ->
  stored (fmt_width fmt) s (s_w_ptr s) F m m' n ->
  let s' := added s (width * Z.of_nat n) in
  audio_stream_produce s (width * Z.of_nat n) = Some s' /\ samples_ok ch s' /\
    samples m' s' = samples m s ++ ((fun i => pattern fmt (F i)) <$> seq 0 n).
Proof.
  intros K Hn Hf St s'. subst s'. unfold added. pose proof width_pos as Hw. pose proof K as [W _ _ [A1 A2] Av O _]. pose proof W as [G Hr Ha Hfr Hwp].
  destruct Av as [k Hk]. split; [apply audio_stream_produce_ok; [done|lia]|]. split.
  - apply set_ptrs_ok; [done| |done|exists (k + Z.of_nat n); lia].
    apply set_ptrs_wf; auto; [lia|lia|]. rewrite Hwp, ring_ring. done.
  - unfold samples. simpl. rewrite Hk. replace (k * width + width * Z.of_nat n) with ((k + Z.of_nat n) * width) by lia.
    rewrite !Z.div_mul by lia. rewrite Z2Nat.inj_add, Nat2Z.id, seq_app, fmap_app by nia. simpl. f_equal.
    + apply list_fmap_ext. intros _ i Hi%list_elem_of_lookup_2%elem_of_seq. unfold sample. simpl.
      change (ring (set_ptrs _ _ _ _ _)) with (ring s). apply le_load_ext. intros a Hin.
      destruct (sample_bytes s (s_r_ptr s) (fmt_width fmt) (Z.of_nat i) (a - ring s (s_r_ptr s) (width * Z.of_nat i)) G
        ltac:(lia) (conj A1 A2) ltac:(lia)) as [E _].
      apply (proj2 St). intros j Hj Ej. rewrite Hwp, ring_ring in Ej.
      assert (ring s (s_r_ptr s) (width * Z.of_nat i + (a - ring s (s_r_ptr s) (width * Z.of_nat i))) =
        ring s (s_r_ptr s) (s_avail s + j)) as E' by lia.
      apply ring_inj in E'; [nia|done|nia|nia].
    + replace (seq (Z.to_nat k) n) with ((fun i => (Z.to_nat k + i)%nat) <$> seq 0 n) by (by rewrite fmap_add_seq, Nat.add_0_r).
      rewrite <- list_fmap_compose. apply list_fmap_ext. intros _ i Hi%list_elem_of_lookup_2%elem_of_seq. simpl.
      unfold pattern. rewrite <- (proj1 St) by lia. unfold sample. simpl. change (ring (set_ptrs _ _ _ _ _)) with (ring s).
      f_equal. rewrite Hwp, ring_ring. f_equal. nia.
Qed.

(** Samples that are consumed leave the front of the queue. *)
Lemma consume_samples ch s n :
  samples_ok ch s -> (0 < n)%nat -> width * Z.of_nat n <= s_avail s ->
  let s' := taken s (width * Z.of_nat n) in
  audio_stream_consume s (width * Z.of_nat n) = Some s' /\ samples_ok ch s' /\
    (forall m, samples m s' = drop n (samples m s)).
Proof.
  intros K Hn Hf s'. subst s'. unfold taken. pose proof width_pos as Hw. pose proof K as [W _ _ [A1 A2] Av O _]. pose proof W as [G Hr Ha Hfr Hwp].
  destruct Av as [k Hk]. split; [apply audio_stream_consume_ok; [done|lia]|]. split.
  - apply set_ptrs_ok; [done| | |exists (k - Z.of_nat n); lia].
    + apply set_ptrs_wf; auto with sof; [lia|lia|]. rewrite ring_ring, Hwp. f_equal. lia.
    + destruct A1 as [c1 E1], A2 as [c2 E2]. unfold ring. pose proof (geom_size _ G).
      replace (s_addr s + (s_r_ptr s - s_addr s + width * Z.of_nat n) mod s_size s - s_addr s)
        with ((s_r_ptr s - s_addr s + width * Z.of_nat n) mod s_size s) by lia.
      rewrite Z.mod_eq by lia. apply Z.divide_sub_r; [exists (c2 + Z.of_nat n); lia|by apply Z.divide_mul_l; exists c1].
  - intros m. unfold samples. simpl. rewrite Hk.
    replace (k * width - width * Z.of_nat n) with ((k - Z.of_nat n) * width) by lia. rewrite !Z.div_mul by lia.
    rewrite <- fmap_drop, drop_seq. simpl. rewrite Z2Nat.inj_sub, Nat2Z.id by lia.
    replace (seq n (Z.to_nat k - n)) with ((fun i => (n + i)%nat) <$> seq 0 (Z.to_nat k - n)) by (by rewrite fmap_add_seq, Nat.add_0_r).
    rewrite <- list_fmap_compose. apply list_fmap_ext. intros _ i _. unfold sample. simpl.
    change (ring (set_ptrs _ _ _ _ _)) with (ring s). f_equal. rewrite ring_ring. f_equal. lia.
Qed.

End queue.

(** ** Numbers of frames *)

Section frames.
Context (fmt : pcm_fmt) (channels : Z).
Hypothesis Hch : 0 < channels < 2 ^ 16.
Notation width := (Z.of_nat (fmt_width fmt)).

Lemma frame_bytes_fmt s : samples_ok fmt channels s -> audio_stream_frame_bytes s = width * channels.
Proof.
  intros [_ F C _ _ _ _]. unfold audio_stream_frame_bytes, get_frame_bytes. rewrite F, C.
  replace (get_sample_bytes (fmt_code fmt)) with width by (by destruct fmt). apply u32_small. destruct fmt; simpl; lia.
Qed.

(** The frames that all sources have and the sink has room for. *)
Definition common_frames (sink : audio_stream) (sources : list audio_stream) : Z :=
  foldr (fun s n => Z.min (audio_stream_get_avail_frames s) n) (audio_stream_get_free_frames sink) sources.

Lemma frames_le sink sources s :
  common_frames sink sources <= audio_stream_get_free_frames sink /\
  (s ∈ sources -> common_frames sink sources <= audio_stream_get_avail_frames s).
Proof.
  unfold common_frames. induction sources as [|s' l [IH1 IH2]]; simpl; [split; [lia|set_solver]|].
  split; [lia|]. intros [->|Hs]%elem_of_cons; [lia|]. specialize (IH2 Hs). lia.
Qed.

Lemma foldl_frames sink sources acc :
  sources <> [] -> audio_stream_get_free_frames sink <= acc ->
  foldl (fun frames s => Z.min frames (audio_stream_avail_frames s sink)) acc sources = common_frames sink sources.
Proof.
  intros Hne Hacc. set (fr := audio_stream_get_free_frames sink) in *.
  assert (forall l acc, foldl (fun frames s => Z.min frames (audio_stream_avail_frames s sink)) acc l <= acc /\
    Z.min fr (foldl (fun frames s => Z.min frames (audio_stream_avail_frames s sink)) acc l) =
    Z.min acc (common_frames sink l)) as Hl.
  { intros l. induction l as [|s l IH]; intros a; unfold common_frames; simpl; [fold fr; lia|].
    destruct (IH (Z.min a (audio_stream_avail_frames s sink))) as [H1 H2]. split; [lia|]. rewrite H2.
    pose proof (proj1 (frames_le sink l s)). fold (common_frames sink l). fold fr in H.
    unfold audio_stream_avail_frames. fold fr. case_if; lia. }
  destruct sources as [|s l]; [done|]. destruct (Hl (s :: l) acc) as [_ H2]. cbn [foldl] in *.
  destruct (Hl l (Z.min acc (audio_stream_avail_frames s sink))) as [H3 _].
  pose proof (proj1 (frames_le sink (s :: l) s)) as H4. fold fr in H4.
  assert (audio_stream_avail_frames s sink <= fr) by (unfold audio_stream_avail_frames; fold fr; case_if; lia). lia.
Qed.

Lemma frames_bytes sink sources :
  samples_ok fmt channels sink -> Forall (samples_ok fmt channels) sources ->
  0 <= common_frames sink sources /\ width * (common_frames sink sources * channels) <= s_free sink /\
  Forall (fun s => width * (common_frames sink sources * channels) <= s_avail s) sources.
Proof.
  intros Kk Ks. pose proof (width_pos fmt). assert (0 < width * channels) as Hfb by nia.
  assert (forall s, samples_ok fmt channels s -> audio_stream_get_avail_frames s = s_avail s / (width * channels) /\
    audio_stream_get_free_frames s = s_free s / (width * channels) /\ 0 <= s_avail s /\ 0 <= s_free s) as Hs.
  { intros s K. unfold audio_stream_get_avail_frames, audio_stream_get_free_frames. rewrite frame_bytes_fmt by done.
    unfold audio_stream_get_avail_bytes, audio_stream_get_free_bytes. rewrite (so_over _ _ _ K), (so_under _ _ _ K).
    destruct (so_wf _ _ _ K). split_and!; lia. }
  assert (forall n x, n <= x / (width * channels) -> width * (n * channels) <= x) as Hdiv.
  { intros n x Hn. pose proof (Z.mul_div_le x (width * channels) Hfb). nia. }
  destruct (Hs sink Kk) as (_ & Ef & _ & Hf0). split_and!.
  - unfold common_frames. rewrite Ef. induction Ks as [|s l K Ks IH]; simpl; [by apply Z.div_pos|].
    destruct (Hs s K) as (-> & _ & Ha & _). pose proof (Z.div_pos _ _ Ha Hfb). lia.
  - apply Hdiv. rewrite <- Ef. apply (frames_le sink sources sink).
  - apply Forall_forall. intros s Hin. apply Hdiv. rewrite Forall_forall in Ks.
    destruct (Hs s (Ks s Hin)) as (<- & _). by apply (frames_le sink sources s).
Qed.
End frames.

(** ** Commits *)

Section commit.
Context {A : Type} (fmt : pcm_fmt) (channels : Z).
Implicit Types w : world A.
Notation width := (Z.of_nat (fmt_width fmt)).

Lemma emit_all_ok w a evs :
  wp (emit_all a evs) w (fun w' _ => exists tr, w' = with_trace w tr).
Proof.
  revert w. induction evs as [|ev evs IH]; intros w; simpl emit_all; [apply wp_ret; exists (w_trace w); by destruct w|].
  wp_step. eexists _, tt. split; [done|]. eapply wp_mono; [apply IH|]. intros w' _ [tr ->]. by exists tr.
Qed.

Lemma set_stream_id b : set_stream b (b_stream b) = b.
Proof. by destruct b. Qed.

(** What a buffer becomes when [n] samples are taken from it. *)
Definition drained (n : nat) (b b' : comp_buffer) : Prop :=
  let s := taken (b_stream b) (width * Z.of_nat n) in
  b' = set_stream b s /\ samples_ok fmt channels s /\ forall m, samples fmt m s = drop n (samples fmt m (b_stream b)).

Lemma consume_ok w a b n :
  w_bufs w !! a = Some b -> samples_ok fmt channels (b_stream b) -> width * Z.of_nat n <= s_avail (b_stream b) ->
  wp (consume a (width * Z.of_nat n)) w (fun w' _ => exists tr b', drained n b b' /\
    w' = with_trace (with_bufs w (<[a := b']> (w_bufs w))) tr).
Proof.
  intros Hb K Hn. pose proof (width_pos fmt). unfold consume. do 2 wp_step. wp_step.
  assert (exists b' evs, comp_update_buffer_consume b (width * Z.of_nat n) = Some (b', evs) /\ drained n b b') as (b' & evs & E & Hd).
  { unfold comp_update_buffer_consume. case_if.
    - assert (n = 0%nat) as -> by nia. exists b, []. unfold drained. rewrite Z.mul_0_r, taken_0, set_stream_id by apply K.
      split_and!; done.
    - destruct (consume_samples fmt channels (b_stream b) n K) as (E & K' & Hs); [nia|done|]. rewrite E. simpl.
      eexists _, _. split; [done|]. by split_and!. }
  rewrite E. eexists w, (b', evs). split; [done|]. wp_step. wp_step.
  eapply wp_mono; [apply emit_all_ok|]. intros w' _ [tr ->]. by exists tr, b'.
Qed.

Lemma consume_all_ok w l n :
  NoDup l ->
  Forall (fun a => exists b, w_bufs w !! a = Some b /\ samples_ok fmt channels (b_stream b) /\
    width * Z.of_nat n <= s_avail (b_stream b)) l ->
  wp (consume_all l (width * Z.of_nat n)) w (fun w' _ => exists tr bufs, w' = with_trace (with_bufs w bufs) tr /\
    (forall a, a ∉ l -> bufs !! a = w_bufs w !! a) /\
    (forall a b, a ∈ l -> w_bufs w !! a = Some b -> exists b', bufs !! a = Some b' /\ drained n b b')).
Proof.
  revert w. induction l as [|a l IH]; intros w Hnd Hl; simpl consume_all.
  { apply wp_ret. exists (w_trace w), (w_bufs w). split_and!; [by destruct w|done|]. intros a b Ha. by apply elem_of_nil in Ha. }
  apply NoDup_cons in Hnd as [Ha Hnd]. apply Forall_cons in Hl as [(b & Hb & K & Hn) Hl]. wp_step.
  eapply wp_mono; [by apply consume_ok|]. intros w1 _ (tr & b' & Hd & ->).
  eapply wp_mono; [apply IH; [done|]|].
  { apply Forall_forall. intros c Hc. rewrite Forall_forall in Hl. destruct (Hl c Hc) as (bc & Hbc & H). exists bc.
    simpl. rewrite lookup_insert_ne by set_solver. done. }
  intros w2 _ (tr2 & bufs & -> & H1 & H2). simpl in *. exists tr2, bufs. split_and!; [done| |].
  - intros c [Hca Hc]%not_elem_of_cons. rewrite H1, lookup_insert_ne by done. done.
  - intros c bc [->|Hc]%elem_of_cons Hbc.
    + simplify_eq. exists b'. rewrite H1, lookup_insert_eq by done. done.
    + apply H2; [done|]. by rewrite lookup_insert_ne by set_solver.
Qed.

(** What a buffer becomes when samples are written behind its queue and
    committed. *)
Lemma produce_ok w a b F n m :
  w_bufs w !! a = Some b -> samples_ok fmt channels (b_stream b) -> width * Z.of_nat n <= s_free (b_stream b) ->
  stored (fmt_width fmt) (b_stream b) (s_w_ptr (b_stream b)) F m (w_mem w) n ->
  wp (produce a (width * Z.of_nat n)) w (fun w' _ =>
    let s := added (b_stream b) (width * Z.of_nat n) in exists tr, samples_ok fmt channels s /\
    samples fmt (w_mem w) s = samples fmt m (b_stream b) ++ ((fun i => pattern fmt (F i)) <$> seq 0 n) /\
    w' = with_trace (with_bufs w (<[a := set_stream b s]> (w_bufs w))) tr).
Proof.
  intros Hb K Hn St. pose proof (width_pos fmt). unfold produce. do 2 wp_step. wp_step.
  set (s := added (b_stream b) (width * Z.of_nat n)).
  assert (exists evs, comp_update_buffer_produce b (width * Z.of_nat n) = Some (set_stream b s, evs) /\ samples_ok fmt channels s /\
    samples fmt (w_mem w) s = samples fmt m (b_stream b) ++ ((fun i => pattern fmt (F i)) <$> seq 0 n)) as (evs & E & K' & Hs).
  { unfold comp_update_buffer_produce. case_if.
    - assert (n = 0%nat) as -> by nia. exists []. subst s. rewrite Z.mul_0_r, added_0, set_stream_id by apply K.
      split_and!; [done|done|].
      simpl. rewrite app_nil_r. apply list_fmap_ext. intros _ i _. unfold sample. apply le_load_ext. intros y _. apply St. lia.
    - destruct (produce_samples fmt channels m (w_mem w) (b_stream b) F n K) as (E & K' & Hs); [nia|done|done|].
      rewrite E. simpl. eexists _. by split_and!. }
  rewrite E. eexists w, (set_stream b s, evs). split; [done|]. wp_step. wp_step.
  eapply wp_mono; [apply emit_all_ok|]. intros w' _ [tr ->]. by exists tr.
Qed.
End commit.
