(* ===== verification/ChannelCopy.v ===== *)
(** * Channels between two queues of samples

    The loops over channels on the streams of two buffers: whole frames of samples
    in the source, room for whole frames in the sink. What the loop writes is what
    the commit appends to the queue of the sink. *)

From stdpp Require Import base list numbers option gmap.
From S2P Require Import Prelude StateM AudioStream StreamCopy Heap HeapMap HeapSpec HeapFree HeapZones Allocator.
From S2P Require Import Buffer CompState Pipeline PipelineOps PipelineWalk PipelineThms PipelineLife Format.
From S2P Require Import SampleLoop PcmConvert PcmThms ChannelLoop Topology TopologyInv Driver SampleQueue.

(** Whole frames further on. *)
Lemma aligned_ring s r W i : 0 < s_size s -> aligned s r W -> (W | i) -> aligned s (ring s r i) W.
Proof.
  intros Hs [H1 H2] Hi. split; [done|]. unfold ring.
  replace (s_addr s + (r - s_addr s + i) mod s_size s - s_addr s) with ((r - s_addr s + i) mod s_size s) by lia.
  rewrite Z.mod_eq by lia. apply Z.divide_sub_r; [by apply Z.divide_add_r|by apply Z.divide_mul_l].
Qed.

Lemma common_frames_one s k : common_frames k [s] = audio_stream_avail_frames s k.
Proof.
  unfold common_frames, audio_stream_avail_frames. cbn [foldr]. destruct (Z.ltb_spec (audio_stream_get_avail_frames s) (audio_stream_get_free_frames k)); lia.
Qed.

(** The queue of the sink does not depend on the memory outside its ring. *)
Lemma sink_base_samples fmt ch m m' s : samples_ok fmt ch s -> samples fmt (sink_base s m m') s = samples fmt m s.
Proof.
  intros [W _ _ Al _ _ _]. pose proof (width_pos fmt). apply list_fmap_ext. intros _ i _. apply le_load_ext. intros a Ha. unfold sink_base.
  pose proof (ring_in s (s_r_ptr s) (Z.of_nat (fmt_width fmt) * Z.of_nat i) (wf_geom _ W)).
  destruct (sample_bytes s (s_r_ptr s) (fmt_width fmt) (Z.of_nat i) 0 (wf_geom _ W)) as [_ ?]; [lia|done|lia|].
  unfold in_ring in *. case_if; [done|lia].
Qed.

Lemma samples_length fmt nch m s n :
  samples_ok fmt (Z.of_nat nch) s -> Z.of_nat (fmt_width fmt) * (Z.of_nat n * Z.of_nat nch) <= s_avail s -> (n * nch <= length (samples fmt m s))%nat.
Proof.
  intros K Hn. pose proof (width_pos fmt). unfold samples. rewrite length_fmap, length_seq. apply Nat2Z.inj_le.
  destruct (so_wf _ _ _ K) as [_ _ ? _ _]. rewrite Z2Nat.id by (apply Z.div_pos; lia). apply Z.div_le_lower_bound; lia.
Qed.

Lemma stored_base w sink q F m0 m m' n : stored w sink q F m0 m' n -> (forall a, m0 a = m a) -> stored w sink q F m m' n.
Proof. intros [H1 H2] E. split; [done|]. intros a Ha. by rewrite H2. Qed.

Section io.
Context (fs fk : pcm_fmt) (nch : nat).
Hypothesis Hch : 0 < Z.of_nat nch < 2 ^ 16.
Notation ws := (fmt_width fs).
Notation wk := (fmt_width fk).

(** A source and a sink with whole frames of [nch] channels. *)
Record frames_io (source sink : audio_stream) : Prop := {
  io_source : samples_ok fs (Z.of_nat nch) source;
  io_sink : samples_ok fk (Z.of_nat nch) sink;
  io_frames_in : aligned source (s_r_ptr source) (Z.of_nat ws * Z.of_nat nch);
  io_frames_out : aligned sink (s_w_ptr sink) (Z.of_nat wk * Z.of_nat nch);
  io_rings : disjoint_rings source sink
}.

Lemma frames_io_after source sink n :
  let s := taken source (Z.of_nat ws * Z.of_nat (n * nch)) in let s' := added sink (Z.of_nat wk * Z.of_nat (n * nch)) in
  frames_io source sink -> samples_ok fs (Z.of_nat nch) s -> samples_ok fk (Z.of_nat nch) s' -> frames_io s s'.
Proof.
  intros s s' [Ks Kk A1 A2 D] Ks' Kk'. pose proof (so_wf _ _ _ Ks) as Wb. pose proof (so_wf _ _ _ Kk) as Wk.
  constructor; try done.
  - apply (aligned_ring source); [apply Wb|done|]. exists (Z.of_nat n). lia.
  - apply (aligned_ring sink); [apply Wk|done|]. exists (Z.of_nat n). lia.
Qed.

(** The limits of a copy: the frames, which fit both buffers, and the bytes per
    frame. *)
Lemma io_limits source sink :
  frames_io source sink ->
  let c := common_frames sink [source] in let cl := comp_get_copy_limits source sink in
  cl_frames cl = c /\ 0 <= c < 2 ^ 31 /\ Z.of_nat ws * (c * Z.of_nat nch) <= s_avail source < 2 ^ 31 /\
  Z.of_nat wk * (c * Z.of_nat nch) <= s_free sink < 2 ^ 31 /\
  cl_source_frame_bytes cl = Z.of_nat ws * Z.of_nat nch /\ cl_sink_frame_bytes cl = Z.of_nat wk * Z.of_nat nch.
Proof using Hch.
  intros [Ks Kk _ _ _] c cl. pose proof (width_pos fs). pose proof (width_pos fk).
  pose proof (so_wf _ _ _ Ks) as Ws. pose proof (so_wf _ _ _ Kk) as Wk.
  pose proof (size_small _ Ws) as Hs1. pose proof (size_small _ Wk) as Hs2. destruct Ws as [_ _ ? ? _], Wk as [_ _ ? ? _].
  assert (forall fmt s, samples_ok fmt (Z.of_nat nch) s -> audio_stream_frame_bytes s = Z.of_nat (fmt_width fmt) * Z.of_nat nch /\
    i32 (audio_stream_frame_bytes s) = Z.of_nat (fmt_width fmt) * Z.of_nat nch) as Hfb.
  { intros fmt s Hs. rewrite (frame_bytes_fmt fmt (Z.of_nat nch) Hch s Hs). split; [done|]. apply i32_small. destruct fmt; simpl; lia. }
  assert (forall W x, 2 <= W -> 0 <= x -> 0 <= x / (W * Z.of_nat nch) /\ forall n, 0 <= n <= x / (W * Z.of_nat nch) -> W * (n * Z.of_nat nch) <= x) as Hdiv.
  { intros W x HW Hx. assert (0 < W * Z.of_nat nch) by nia. split; [by apply Z.div_pos|]. intros n Hn.
    pose proof (Z.mul_div_le x (W * Z.of_nat nch)). nia. }
  assert (0 <= c /\ Z.of_nat ws * (c * Z.of_nat nch) <= s_avail source /\ Z.of_nat wk * (c * Z.of_nat nch) <= s_free sink) as (Hc0 & Ha & Hf).
  { unfold c, common_frames. cbn [foldr]. unfold audio_stream_get_avail_frames, audio_stream_get_free_frames.
    rewrite (proj1 (Hfb fs source Ks)), (proj1 (Hfb fk sink Kk)). unfold audio_stream_get_avail_bytes, audio_stream_get_free_bytes.
    rewrite (so_under _ _ _ Ks), (so_over _ _ _ Kk). destruct (Hdiv (Z.of_nat ws) (s_avail source)) as [P1 D1]; [lia|lia|].
    destruct (Hdiv (Z.of_nat wk) (s_free sink)) as [P2 D2]; [lia|lia|]. split_and!; [lia|apply D1; lia|apply D2; lia]. }
  assert (c <= Z.of_nat wk * (c * Z.of_nat nch)).
  { replace (Z.of_nat wk * (c * Z.of_nat nch)) with (c * (Z.of_nat wk * Z.of_nat nch)) by lia. assert (1 <= Z.of_nat wk * Z.of_nat nch) by nia. nia. }
  split_and!; try lia; [|by apply (proj2 (Hfb fs source Ks))|by apply (proj2 (Hfb fk sink Kk))].
  unfold cl, comp_get_copy_limits. simpl. rewrite <- common_frames_one. fold c. apply i32_small. lia.
Qed.

(** The frames of a copy, and the bytes of them that the limits ask for. *)
Definition io_frames (source sink : audio_stream) : nat := Z.to_nat (common_frames sink [source]).

Lemma io_limits_bytes source sink :
  frames_io source sink ->
  let cl := comp_get_copy_limits source sink in let n := (io_frames source sink * nch)%nat in
  cl_frames cl = Z.of_nat (io_frames source sink) /\ Z.of_nat ws * Z.of_nat n <= s_avail source /\ Z.of_nat wk * Z.of_nat n <= s_free sink /\
  u32 (cl_source_bytes cl) = Z.of_nat ws * Z.of_nat n /\ u32 (cl_sink_bytes cl) = Z.of_nat wk * Z.of_nat n.
Proof using Hch.
  intros I cl n. destruct (io_limits source sink I) as (Ec & Hc & Hav & Hfree & Eb1 & Eb2). fold cl in Ec, Eb1, Eb2.
  set (c := common_frames _ _) in *. assert (Z.of_nat (io_frames source sink) = c) as En by (unfold io_frames; fold c; lia).
  pose proof (width_pos fs). pose proof (width_pos fk). unfold n. rewrite Nat2Z.inj_mul, En. split_and!; [done|lia|lia|..].
  - change (cl_source_bytes cl) with (i32 (cl_frames cl * cl_source_frame_bytes cl)). rewrite Ec, Eb1.
    replace (c * (Z.of_nat ws * Z.of_nat nch)) with (Z.of_nat ws * (c * Z.of_nat nch)) by lia. rewrite i32_small, u32_small by nia. done.
  - change (cl_sink_bytes cl) with (i32 (cl_frames cl * cl_sink_frame_bytes cl)). rewrite Ec, Eb2.
    replace (c * (Z.of_nat wk * Z.of_nat nch)) with (Z.of_nat wk * (c * Z.of_nat nch)) by lia. rewrite i32_small, u32_small by nia. done.
Qed.

(** *** The loop *)

Section run.
Context {T H : Type} (step : mem -> T -> Z -> option (mem * T * Z)) `{F : !ChannelFilter step H}.
Notation progress_of source sink := (progress step ws wk nch source sink (s_r_ptr source) (s_w_ptr sink)).
Notation frame_sample_of source := (frame_sample step ws nch source (s_r_ptr source)).

Lemma io_run source sink m ts hs n :
  frames_io source sink -> channels_ok step nch source sink m ts hs -> Z.of_nat wk * (Z.of_nat n * Z.of_nat nch) <= s_free sink ->
  exists m' ts', stream_run step ws wk m ts source sink (Z.of_nat n) (Z.of_nat nch) = Some (m', ts') /\
    progress_of source sink m ts hs (fun _ => n) ts' m' /\
    stored wk sink (s_w_ptr sink) (frame_sample_of source m hs) (sink_base sink m m') m' (n * nch) /\
    (forall a, ~ in_ring sink a -> ~ owned step nch ts a -> m' a = m a).
Proof using Hch.
  intros [Ks Kk A1 A2 D] C Hn. pose proof (width_pos fs). pose proof (width_pos fk).
  pose proof (so_wf _ _ _ Ks) as Wb. pose proof (so_wf _ _ _ Kk) as Wk. pose proof (size_small _ Wk). pose proof Wk as [Gk _ Ha Hf _].
  destruct (stream_run_ok step ws wk nch source sink (s_r_ptr source) (s_w_ptr sink) m ts hs n) as (m' & ts' & E & P);
    [lia|lia|lia|apply Wb|done|done|done|done|lia|done|done|done|apply Wb|by apply wf_w_in|nia|].
  exists m', ts'. split_and!; [done|done| |].
  - eapply progress_stored; [..|exact P]; [lia|lia|lia|apply Wb|done|done|done|done|lia|done].
  - intros a. eapply progress_outside; [..|exact P]; [lia|lia|lia|apply Wb|done|done|done|done|lia|done].
Qed.

(** The same of the loops that count samples, which write from the read pointer of the
    sink on: an empty sink gains what they write. *)
Lemma io_frag_run source sink m ts hs n :
  frames_io source sink -> channels_ok step nch source sink m ts hs -> s_avail sink = 0 ->
  Z.of_nat ws * (Z.of_nat n * Z.of_nat nch) <= s_avail source -> Z.of_nat wk * (Z.of_nat n * Z.of_nat nch) <= s_free sink ->
  exists m' ts', frag_channels step ws wk nch 0 n m ts source sink (s_r_ptr source) (s_r_ptr sink) (Z.of_nat nch) = Some (m', ts') /\
    progress_of source sink m ts hs (fun _ => n) ts' m' /\
    stored wk sink (s_w_ptr sink) (frame_sample_of source m hs) (sink_base sink m m') m' (n * nch) /\
    (forall a, ~ in_ring sink a -> ~ owned step nch ts a -> m' a = m a).
Proof using Hch.
  intros [Ks Kk A1 A2 D] C H0 Hs Hn. pose proof (width_pos fs). pose proof (width_pos fk).
  pose proof (so_wf _ _ _ Ks) as Wb. pose proof (so_wf _ _ _ Kk) as Wk. pose proof (size_small _ Wk). pose proof Wk as [Gk Hr Ha Hf _].
  assert (s_r_ptr sink = s_w_ptr sink) as Ep by (rewrite (wf_w _ Wk), H0; symmetry; by apply ring_0). rewrite Ep.
  assert (s_avail source <= s_size source) by (destruct Wb; lia).
  destruct (frag_run_ok step ws wk nch source sink (s_r_ptr source) (s_w_ptr sink) m ts hs n) as (m' & ts' & E & P);
    [lia|lia|lia|apply Wb|done|done|done|done|lia|lia|apply Wb|by apply wf_w_in|nia|done|].
  exists m', ts'. split_and!; [done|done| |].
  - eapply progress_stored; [..|exact P]; [lia|lia|lia|apply Wb|done|done|done|done|lia|done].
  - intros a. eapply progress_outside; [..|exact P]; [lia|lia|lia|apply Wb|done|done|done|done|lia|done].
Qed.

(** What the sink gains, by frame and channel. *)
Lemma frame_sample_lookup source m hs n i j :
  (i < n)%nat -> (j < nch)%nat ->
  ((fun k => pattern fk (frame_sample_of source m hs k)) <$> seq 0 (n * nch)) !! (i * nch + j)%nat =
    Some (pattern fk (chan_out step ws nch source (s_r_ptr source) m hs j i)).
Proof using Hch.
  intros Hi Hj. rewrite list_lookup_fmap, lookup_seq_lt by nia. simpl. do 2 f_equal. unfold frame_sample.
  rewrite Nat.add_comm, Nat.Div0.mod_add, Nat.mod_small, Nat.div_add, Nat.div_small by lia. done.
Qed.
End run.
End io.

(** ** Components between two buffers *)

Section graph.
Context {A D : Type}.
Implicit Types (w : world A) (x : gmap Z D).

(** The component [dev] with its private data between the source [sa] and the sink
    [ka]. *)
Record io_graph w x (dev : Z) (d : comp_dev) (data : D) (sa ka : Z) (b k : comp_buffer) : Prop := {
  ig_dev : w_devs w !! dev = Some d;
  ig_data : x !! dev = Some data;
  ig_source : head (d_bsource_list d) = Some sa;
  ig_sink : head (d_bsink_list d) = Some ka;
  ig_b : w_bufs w !! sa = Some b;
  ig_k : w_bufs w !! ka = Some k;
  ig_ne : sa <> ka
}.

(** The world with new contents of the two buffers. *)
Definition io_world w (sa ka : Z) (b' k' : comp_buffer) (m' : mem) (tr : list event) : world A :=
  with_trace (with_bufs (with_mem w m') (<[ka := k']> (<[sa := b']> (w_bufs w)))) tr.

Lemma io_world_id w sa ka b k : w_bufs w !! sa = Some b -> w_bufs w !! ka = Some k -> io_world w sa ka b k (w_mem w) (w_trace w) = w.
Proof.
  intros Hb Hk. unfold io_world. rewrite (insert_id (w_bufs w) sa b) by done. simpl. rewrite insert_id by done. by destruct w.
Qed.

Lemma io_world_world w sa ka b1 k1 m1 tr1 b2 k2 m2 tr2 :
  sa <> ka -> io_world (io_world w sa ka b1 k1 m1 tr1) sa ka b2 k2 m2 tr2 = io_world w sa ka b2 k2 m2 tr2.
Proof.
  intros Hne. unfold io_world. cbn [w_bufs with_trace with_bufs with_mem].
  rewrite (insert_insert_ne (<[sa := b1]> (w_bufs w)) sa ka) by done. by rewrite !insert_insert_eq.
Qed.

Lemma io_graph_after w x dev d data data' sa ka b k b' k' m' tr :
  io_graph w x dev d data sa ka b k -> io_graph (io_world w sa ka b' k' m' tr) (<[dev := data']> x) dev d data' sa ka b' k'.
Proof.
  intros []. constructor; simpl; try done; [by rewrite lookup_insert_eq| |by rewrite lookup_insert_eq].
  by rewrite lookup_insert_ne, lookup_insert_eq.
Qed.
End graph.

(** Memory that changed in another ring only has the same queue. *)
Lemma samples_other fmt ch m m' s sink :
  samples_ok fmt ch s -> disjoint_rings s sink -> (forall a, ~ in_ring sink a -> m' a = m a) -> samples fmt m' s = samples fmt m s.
Proof.
  intros [W _ _ Al _ _ _] D Hm. pose proof (width_pos fmt). apply list_fmap_ext. intros _ i _. apply le_load_ext. intros a Ha. apply Hm.
  pose proof (ring_in s (s_r_ptr s) (Z.of_nat (fmt_width fmt) * Z.of_nat i) (wf_geom _ W)).
  destruct (sample_bytes s (s_r_ptr s) (fmt_width fmt) (Z.of_nat i) 0 (wf_geom _ W)) as [_ ?]; [lia|done|lia|].
  unfold in_ring, disjoint_rings in *. lia.
Qed.
