(* ===== verification/Mixer.v ===== *)
(** * The mixer

    [src/audio/mixer.c] for IPC version 3, with the three sample formats
    configured. The mixer adds the samples of its sources and saturates the sums. *)

From stdpp Require Import base list numbers option gmap.
From S2P Require Import Prelude StateM AudioStream Heap HeapMap HeapSpec HeapFree HeapZones Allocator Buffer.
From S2P Require Import CompState Pipeline PipelineOps PipelineWalk PipelineThms PipelineLife Format SampleLoop.
From S2P Require Import Topology TopologyInv Driver.

(** ** Sums of samples *)

(** One sample of the sink from the patterns of the sources: the accumulator has
    32 bits for 16 and 24-bit samples and 64 bits for 32-bit samples. *)
Definition mix_s16 (xs : list Z) : Z := sat_int16 (foldl (fun val x => i32 (val + i16 x)) 0 xs).

Definition mix_s24 (xs : list Z) : Z :=
  sat_int24 (foldl (fun val x => i32 (val + Z.shiftr (i32 (Z.shiftl (i32 x) 8)) 8)) 0 xs).

Definition mix_s32 (xs : list Z) : Z := sat_int32 (foldl (fun val x => i64 (val + i32 x)) 0 xs).

Section mix.
Context (PLATFORM_MAX_CHANNELS : nat) (width : nat) (f : list Z -> Z).

Fixpoint mix_chunk (n : nat) (m : mem) (dest : Z) (src : list Z) : mem :=
  match n with
  | O => m
  | S n => mix_chunk n (store_le width m dest (f (load_le width m <$> src)))
             (dest + Z.of_nat width) ((fun p => p + Z.of_nat width) <$> src)
  end.

(** The number of samples that no source wraps on. *)
Fixpoint mix_limit (sources : list audio_stream) (src : list Z) (n : Z) : option Z :=
  match sources, src with
  | s :: sources, p :: src =>
      bytes ← audio_stream_bytes_without_wrap s p;
      mix_limit sources src (Z.min n (bytes_to_samples (Z.of_nat width) bytes))
  | _, _ => Some n
  end.

Fixpoint mix_wrap (sources : list audio_stream) (src : list Z) : option (list Z) :=
  match sources, src with
  | s :: sources, p :: src => p ← audio_stream_wrap s p; src ← mix_wrap sources src; Some (p :: src)
  | _, _ => Some []
  end.

Fixpoint mix_loop (fuel : nat) (sink : audio_stream) (sources : list audio_stream) (m : mem)
    (dest : Z) (src : list Z) (processed samples : Z) : option mem :=
  match fuel with
  | O => None
  | S fuel =>
      if processed <? samples then
        let nmax := i32 (samples - processed) in
        bytes ← audio_stream_bytes_without_wrap sink dest;
        n ← mix_limit sources src (Z.min (bytes_to_samples (Z.of_nat width) bytes) nmax);
        let m := mix_chunk (Z.to_nat n) m dest src in
        dest ← audio_stream_wrap sink (dest + Z.of_nat width * n);
        src ← mix_wrap sources ((fun p => p + Z.of_nat width * n) <$> src);
        mix_loop fuel sink sources m dest src (processed + n) samples
      else Some m
  end.

(** The array of read pointers has a place for each channel; more sources are
    written behind it. *)
Definition mix_n (m : mem) (sink : audio_stream) (sources : list audio_stream) (frames : Z) : option mem :=
  let samples := i32 (frames * s_channels sink) in
  if bool_decide (PLATFORM_MAX_CHANNELS < length sources)%nat then None else
  mix_loop (S (Z.to_nat samples)) sink sources m (s_w_ptr sink) (s_r_ptr <$> sources) 0 samples.
End mix.

Definition mix_n_s16 (max : nat) := mix_n max 2 mix_s16.
Definition mix_n_s24 (max : nat) := mix_n max 4 mix_s24.
Definition mix_n_s32 (max : nat) := mix_n max 4 mix_s32.

(** ** The component *)

(** [mix_func], null at first. *)
Inductive mix_func := MixNull | MixS16 | MixS24 | MixS32.

#[export] Instance mix_func_eq_dec : EqDecision mix_func.
Proof. solve_decision. Defined.

Definition mix_with (max : nat) (fn : mix_func) : mem -> audio_stream -> list audio_stream -> Z -> option mem :=
  match fn with
  | MixNull => fun _ _ _ _ => None
  | MixS16 => mix_n_s16 max
  | MixS24 => mix_n_s24 max
  | MixS32 => mix_n_s32 max
  end.

(** The private data of a mixer: its address and [mix_func]. *)
Record mixer_data := mk_mixer { md_self : Z; md_mix_func : mix_func }.

(** The private data of each mixer, by component. *)
Abbreviation mixers := (gmap Z mixer_data) (only parsing).

Section mixer.
Context {A : Type} `{!Allocator A} (sizeof_comp_dev sizeof_mixer_data : Z).
Context (PLATFORM_MAX_CHANNELS PLATFORM_MAX_STREAMS : nat).
Notation MX := (ST (world A * mixers)).

(** The component is in the world when it is complete. *)
Definition mixer_new (_ : Z) (config : comp_ipc_config) (_ : ipc_config_specific) : MX Z :=
  dev ← in_world (zalloc sizeof_comp_dev);
  if dev =? 0 then mret 0 else
  let d := comp_alloc config in
  md ← in_world (zalloc sizeof_mixer_data);
  if md =? 0 then in_world (free dev) ;; mret 0 else
  set_drvdata dev (mk_mixer md MixNull) ;;
  in_world (modify (fun w => with_devs w (<[dev := set_state COMP_STATE_READY d]> (w_devs w)))) ;;
  mret dev.

Definition mixer_free (dev : Z) : MX unit :=
  md ← get_drvdata dev;
  in_world (free (md_self md)) ;;
  in_world (free dev) ;;
  modify (fun s => (with_devs s.1 (delete dev (w_devs s.1)), delete dev s.2)).

(** ** Parameters *)

Definition mixer_verify_params (dev : Z) (params : sof_ipc_stream_params) : M A (sof_ipc_stream_params * Z) :=
  r ← comp_verify_params dev BUFF_PARAMS_CHANNELS params;
  if r.2 <? 0 then mret r else mret (r.1, 0).

Definition mixer_params (dev : Z) (params : sof_ipc_stream_params) : M A (sof_ipc_stream_params * Z) :=
  r ← mixer_verify_params dev params;
  let '(params, err) := r in
  if err <? 0 then mret (params, - EINVAL) else
  d ← get_dev dev;
  sinkb ← lift (head (d_bsink_list d));
  b ← get_buf sinkb;
  let sink_period_bytes := audio_stream_period_bytes (b_stream b) (d_frames d) in
  if sink_period_bytes =? 0 then mret (params, - EINVAL) else
  if s_size (b_stream b) <? sink_period_bytes then mret (params, - ENOMEM) else
  mret (params, 0).

(** ** State *)

(** [dev->pipeline->source_comp->direction] *)
Definition pipeline_direction (dev : Z) : M A Z :=
  d ← get_dev dev;
  p ← get_ppl (d_pipeline d);
  c ← get_dev (p_source_comp p);
  mret (d_direction c).

Definition mixer_trigger_common (dev cmd : Z) : M A Z :=
  dir ← pipeline_direction dev;
  ret ← set_dev_state dev cmd;
  if ret <? 0 then mret ret else
  if ret =? COMP_STATUS_STATE_ALREADY_SET then mret PPL_STATUS_PATH_STOP else
  if dir =? SOF_IPC_STREAM_CAPTURE then mret ret else
  mret ret.

(** The state of the component a buffer comes from. *)
Definition source_state (source : Z) : M A Z :=
  b ← get_buf source;
  c ← get_dev (b_source b);
  mret (d_state c).

Fixpoint status_count (l : list Z) (status count : Z) : M A Z :=
  match l with
  | [] => mret count
  | source :: l =>
      s ← source_state source;
      status_count l status (if s =? status then i32 (count + 1) else count)
  end.

Definition mixer_source_status_count (dev status : Z) : M A Z :=
  d ← get_dev dev; status_count (d_bsource_list d) status 0.

(** Sources are active or paused; the second count only without the first. *)
Definition sources_running (dev : Z) : M A bool :=
  n ← mixer_source_status_count dev COMP_STATE_ACTIVE;
  if negb (n =? 0) then mret true else
  n ← mixer_source_status_count dev COMP_STATE_PAUSED;
  mret (negb (n =? 0)).

Definition mixer_trigger (dev cmd : Z) : M A Z :=
  dir ← pipeline_direction dev;
  let playback := dir =? SOF_IPC_STREAM_PLAYBACK in
  stop ← (if playback && (cmd =? COMP_TRIGGER_PRE_START) then sources_running dev else mret false);
  if stop : bool then mret PPL_STATUS_PATH_STOP else
  (if playback then
     if cmd =? COMP_TRIGGER_PRE_RELEASE then mod_dev dev (set_state COMP_STATE_PRE_ACTIVE)
     else if cmd =? COMP_TRIGGER_RELEASE then mod_dev dev (set_state COMP_STATE_ACTIVE)
     else mret tt
   else mret tt) ;;
  ret ← mixer_trigger_common dev cmd;
  if ret <? 0 then mret ret else
  keep ← (if cmd =? COMP_TRIGGER_PAUSE then mret true
          else if cmd =? COMP_TRIGGER_STOP then sources_running dev else mret false);
  if keep : bool then mod_dev dev (set_state COMP_STATE_ACTIVE) ;; mret PPL_STATUS_PATH_STOP
  else mret ret.

(** The loop of [mixer_reset]: a source is beyond state READY. *)
Fixpoint source_in_use (l : list Z) : M A bool :=
  match l with
  | [] => mret false
  | source :: l => s ← source_state source; if s >? COMP_STATE_READY then mret true else source_in_use l
  end.

Definition mixer_reset (dev : Z) : M A Z :=
  dir ← pipeline_direction dev;
  d ← get_dev dev;
  used ← (if dir =? SOF_IPC_STREAM_PLAYBACK then source_in_use (d_bsource_list d) else mret false);
  if used : bool then mret 1 else
  set_dev_state dev COMP_TRIGGER_RESET ;;
  mret 0.

Definition mix_func_of (frame_fmt : Z) : option mix_func :=
  if frame_fmt =? SOF_IPC_FRAME_S16_LE then Some MixS16
  else if frame_fmt =? SOF_IPC_FRAME_S24_4LE then Some MixS24
  else if frame_fmt =? SOF_IPC_FRAME_S32_LE then Some MixS32
  else None.

Definition mixer_prepare_common (dev : Z) : MX Z :=
  md ← get_drvdata dev;
  d ← in_world (get_dev dev);
  sink ← lift (head (d_bsink_list d));
  if negb (d_state d =? COMP_STATE_ACTIVE) then
    b ← in_world (get_buf sink);
    match mix_func_of (s_frame_fmt (b_stream b)) with
    | None => mret (- EINVAL)
    | Some fn =>
        set_drvdata dev (mk_mixer (md_self md) fn) ;;
        ret ← in_world (set_dev_state dev COMP_TRIGGER_PREPARE);
        if ret <? 0 then mret ret else
        if ret =? COMP_STATUS_STATE_ALREADY_SET then mret PPL_STATUS_PATH_STOP else mret 0
    end
  else mret 0.

(** The loop of [mixer_prepare]: a source is paused or active. *)
Fixpoint source_running (l : list Z) : M A bool :=
  match l with
  | [] => mret false
  | source :: l =>
      s ← source_state source;
      if (s =? COMP_STATE_PAUSED) || (s =? COMP_STATE_ACTIVE) then mret true else source_running l
  end.

Definition mixer_prepare (dev : Z) : MX Z :=
  ret ← mixer_prepare_common dev;
  if negb (ret =? 0) then mret ret else
  d ← in_world (get_dev dev);
  running ← in_world (source_running (d_bsource_list d));
  mret (if running : bool then PPL_STATUS_PATH_STOP else 0).

(** ** Copy *)

(** The sources in the state of the mixer; [None] when they reach the limit. *)
Fixpoint mix_sources (state : Z) (l sources : list Z) : M A (option (list Z)) :=
  match l with
  | [] => mret (Some sources)
  | source :: l =>
      s ← source_state source;
      let sources := if s =? state then sources ++ [source] else sources in
      if bool_decide (length sources = PLATFORM_MAX_STREAMS - 1)%nat then mret None
      else mix_sources state l sources
  end.

Fixpoint get_streams (buffers : list Z) : M A (list audio_stream) :=
  match buffers with
  | [] => mret []
  | buffer :: buffers => b ← get_buf buffer; l ← get_streams buffers; mret (b_stream b :: l)
  end.

Definition call_mix_func (fn : mix_func) (sink : audio_stream) (sources : list audio_stream) (frames : Z) : M A unit :=
  fun w => m ← mix_with PLATFORM_MAX_CHANNELS fn (w_mem w) sink sources frames; Some (with_mem w m, tt).

(** Buffers of one core: the calls for the caches and for coherence do nothing. *)
Definition mixer_copy (dev : Z) : MX Z :=
  md ← get_drvdata dev;
  in_world (
    d ← get_dev dev;
    sink ← lift (head (d_bsink_list d));
    found ← mix_sources (d_state d) (d_bsource_list d) [];
    match found with
    | None => mret 0
    | Some sources =>
        b ← get_buf sink;
        let stream := b_stream b in
        if bool_decide (sources = []) then
          let frames := Z.min INT32_MAX (audio_stream_get_free_frames stream) in
          let sink_bytes := u32 (frames * audio_stream_frame_bytes stream) in
          w ← gets (fun w => w);
          let '(m, ret) := audio_stream_set_zero (w_mem w) stream sink_bytes in
          if ret =? 0 then modify (fun w => with_mem w m) ;; produce sink sink_bytes ;; mret 0
          else mret 0
        else
          streams ← get_streams sources;
          let frames := foldl (fun frames s => Z.min frames (audio_stream_avail_frames s stream)) INT32_MAX streams in
          source0 ← lift (head streams);
          let source_bytes := u32 (frames * audio_stream_frame_bytes source0) in
          let sink_bytes := u32 (frames * audio_stream_frame_bytes stream) in
          call_mix_func (md_mix_func md) stream streams frames ;;
          consume_all (reverse sources) source_bytes ;;
          produce sink sink_bytes ;;
          mret 0
    end).

Definition mixer_driver : driver_ops A mixers := mk_driver_ops mixer_new mixer_free.
End mixer.

(** ** Mixers keep the contract of drivers *)

Section life.
Context {A : Type} `{!Allocator A} (sizeof_comp_dev sizeof_mixer_data : Z).
Context (Hdev : request_ok sizeof_comp_dev 0) (Hdata : request_ok sizeof_mixer_data 0).
Implicit Types (w : world A) (x : mixers).

(** A mixer owns the blocks of the component and of its private data. *)
Definition mixer_own x (dev : Z) (rs : list (Z * Z)) : Prop :=
  exists md rd rm, x !! dev = Some md /\ rs = [rd; rm] /\ inside rd dev /\ inside rm (md_self md).

Lemma mixer_new_ok drv config spec w x :
  al_inv (w_alloc w) ->
  wp (mixer_new sizeof_comp_dev sizeof_mixer_data drv config spec) (w, x) (fun s p => exists a m x', al_inv a /\
    ((p = 0 /\ al_live a ≡ₚ al_live (w_alloc w) /\ s = (with_heap w a m, x') /\ x' = x) \/
     (p <> 0 /\ exists dev r rs, al_live a ≡ₚ (r :: rs) ++ al_live (w_alloc w) /\ inside r p /\
        Forall (apart r) (al_live (w_alloc w)) /\ d_is_shared dev = false /\
        s = (with_devs (with_heap w a m) (<[p := dev]> (w_devs w)), x') /\
        mixer_own x' p (r :: rs) /\ forall q, q <> p -> x' !! q = x !! q))).
Proof.
  intros Ha. unfold mixer_new. apply wp_bind, wp_in_world. eapply wp_mono; [by apply zalloc_live|].
  intros w1 dev (a1 & m1 & -> & Ha1 & [[-> Hl1]|[Hd (rd & Hl1 & Hin & Hap)]]).
  { simpl. apply wp_ret. exists a1, m1, x. split; [done|left]. by rewrite Hl1. }
  rewrite (proj2 (Z.eqb_neq _ _) Hd). cbv zeta. apply wp_bind, wp_in_world. eapply wp_mono; [by apply zalloc_live|].
  intros w2 md (a2 & m2 & -> & Ha2 & [[-> Hl2]|[Hm (rm & Hl2 & Hin2 & _)]]); simpl in Hl2.
  - simpl. apply wp_bind, wp_in_world.
    eapply wp_mono; [apply (free_live _ rd dev); [done|simpl; rewrite Hl2, Hl1; by left|done]|].
    intros w3 [] (a3 & -> & Ha3 & Hl3). apply wp_ret. exists a3, m2, x. split; [done|left]. split_and!; try done.
    apply (Permutation_cons_inv (a := rd)). simpl in Hl3. by rewrite <- Hl3, Hl2, Hl1.
  - rewrite (proj2 (Z.eqb_neq _ _) Hm). apply wp_bind, wp_modify, wp_bind, wp_in_world, wp_modify, wp_ret. simpl.
    exists a2, m2, (<[dev := mk_mixer md MixNull]> x). split; [done|right]. split; [done|].
    eexists _, rd, [rm]. split_and!; [by rewrite Hl2, Hl1; apply perm_swap|done|done| |done| |].
    + done.
    + eexists _, rd, rm. split_and!; [apply lookup_insert_eq|done..].
    + intros q Hq. by rewrite lookup_insert_ne.
Qed.

Lemma mixer_free_ok w x dev rs rest :
  al_inv (w_alloc w) -> mixer_own x dev rs -> al_live (w_alloc w) ≡ₚ rs ++ rest ->
  wp (mixer_free dev) (w, x) (fun s _ => exists a, al_inv a /\ al_live a ≡ₚ rest /\
    s = (with_devs (with_heap w a (w_mem w)) (delete dev (w_devs w)), delete dev x)).
Proof.
  intros Ha (md & rd & rm & Hx & -> & Hin & Hinm) Hl. unfold mixer_free. apply wp_bind.
  eexists (w, x), md. split; [unfold get_drvdata; simpl; by rewrite Hx|]. apply wp_bind, wp_in_world.
  eapply wp_mono; [apply (free_live _ rm); [done|rewrite Hl; right; by left|done]|].
  intros w1 [] (a1 & -> & Ha1 & Hl1). rewrite Hl in Hl1. simpl in Hl1. rewrite perm_swap in Hl1. apply Permutation_cons_inv in Hl1.
  apply wp_bind, wp_in_world.
  eapply wp_mono; [apply (free_live _ rd); [done|simpl; rewrite <- Hl1; by left|done]|].
  intros w2 [] (a2 & -> & Ha2 & Hl2). simpl in Hl2. rewrite <- Hl1 in Hl2. apply Permutation_cons_inv in Hl2.
  apply wp_modify. exists a2. split_and!; [done|done|]. by destruct w.
Qed.

#[export] Instance mixer_topo_drivers : TopoDrivers (mixer_driver sizeof_comp_dev sizeof_mixer_data).
Proof using Hdev Hdata.
  unshelve econstructor; [exact mixer_own| |].
  - intros drv cfg spec w d Ha. eapply wp_mono; [by apply mixer_new_ok|].
    intros s p (a & m & x' & Ha' & [(-> & Hl & -> & ->)|(Hp & dev & r & rs & Hl & Hin & Hap & Hsh & -> & Ho & Hx)]);
      exists a, m; [exists d|exists x']; (split; [done|]); [by left|right]. split; [done|]. exists dev, r, rs.
    split_and!; try done. intros q rs' Hq (md & H). exists md. by rewrite Hx.
  - intros w d p rs rest Ha _ Ho Hl. eapply wp_mono; [by eapply mixer_free_ok|].
    intros s [] (a & Ha' & Hl' & ->). exists a, (w_mem w), (delete p d). split_and!; try done.
    intros q rs' Hq (md & H). exists md. by rewrite lookup_delete_ne.
Qed.
End life.
