(* ===== verification/MixerThms.v ===== *)
(** * What the mixer does to the samples

    The loops of [src/audio/mixer.c] write, for each sample of the sink, the sum of
    the samples of the sources, saturated to the range of the format, across the
    wraps of all rings. *)

From stdpp Require Import base list numbers option gmap.
From S2P Require Import Prelude AudioStream StreamCopy Format SampleLoop PcmConvert PcmThms SampleQueue Mixer.

(** ** Sums *)

Definition sum (xs : list Z) : Z := foldr Z.add 0 xs.

Lemma sum_bound B xs : 0 <= B -> Forall (fun x => Z.abs x <= B) xs -> Z.abs (sum xs) <= B * Z.of_nat (length xs).
Proof. intros HB. induction 1 as [|x xs Hx H IH]; simpl; [lia|]. fold (sum xs). lia. Qed.

(** An accumulator that is wide enough does not wrap. *)
Lemma foldl_exact (wrap g : Z -> Z) B half xs acc :
  (forall x, - half <= x < half -> wrap x = x) -> 0 <= B -> Forall (fun x => Z.abs (g x) <= B) xs ->
  Z.abs acc + B * Z.of_nat (length xs) < half ->
  foldl (fun val x => wrap (val + g x)) acc xs = acc + sum (g <$> xs).
Proof.
  intros Hw HB. revert acc. induction xs as [|x xs IH]; intros acc H Hacc; [simpl; lia|].
  apply Forall_cons in H as [Hx H]. change (sum (g <$> x :: xs)) with (g x + sum (g <$> xs)). simpl in *.
  rewrite Hw by lia. rewrite IH by (done || lia). lia.
Qed.

(** The format of a mixing function. *)
Definition func_fmt (fn : mix_func) : pcm_fmt := match fn with MixS16 => FMT_S16 | MixS24 => FMT_S24 | _ => FMT_S32 end.

(** The sum in the range of the format. *)
Definition mix_spec (fmt : pcm_fmt) (xs : list Z) : Z := fmt_clamp fmt (sum (fmt_value fmt <$> xs)).

Lemma fmt_value_abs fmt xs : Forall (fun x => Z.abs (fmt_value fmt x) <= 2 ^ fmt_frac fmt) xs.
Proof. apply Forall_forall. intros x _. pose proof (fmt_value_range fmt x). lia. Qed.

Lemma mix_s16_spec xs : (length xs <= 128)%nat -> mix_s16 xs = mix_spec FMT_S16 xs.
Proof.
  intros Hl. unfold mix_s16, mix_spec. rewrite sat_int16_clamp.
  rewrite (foldl_exact i32 i16 (2 ^ 15) (2 ^ 31)); [done|by intros; apply i32_small|lia|apply (fmt_value_abs FMT_S16)|lia].
Qed.

Lemma mix_s24_spec xs : (length xs <= 128)%nat -> mix_s24 xs = mix_spec FMT_S24 xs.
Proof.
  intros Hl. unfold mix_s24, mix_spec. rewrite sat_int24_clamp.
  rewrite (foldl_exact i32 (fun x => Z.shiftr (i32 (Z.shiftl (i32 x) 8)) 8) (2 ^ 23) (2 ^ 31));
    [done|by intros; apply i32_small|lia|apply (fmt_value_abs FMT_S24)|lia].
Qed.

Lemma mix_s32_spec xs : (length xs <= 128)%nat -> mix_s32 xs = mix_spec FMT_S32 xs.
Proof.
  intros Hl. unfold mix_s32, mix_spec. rewrite sat_int32_clamp.
  rewrite (foldl_exact i64 i32 (2 ^ 31) (2 ^ 63)); [done| |lia|apply (fmt_value_abs FMT_S32)|lia].
  intros x Hx. unfold i64. rewrite Z.mod_small; lia.
Qed.

(** ** The loop *)

Section loop.
Context (w : nat) (f : list Z -> Z) (sink : audio_stream) (sources : list audio_stream) (m0 : mem).
Hypothesis Hw : (0 < w)%nat.
Hypothesis Gk : stream_geom sink.
Hypothesis Ak : aligned sink (s_w_ptr sink) (Z.of_nat w).
Hypothesis Hs : Forall (fun s => stream_geom s /\ aligned s (s_r_ptr s) (Z.of_nat w) /\ disjoint_rings s sink) sources.

(** The address of a sample of a stream that is read, and of the sink. *)
Definition read_at (k : Z) (s : audio_stream) : Z := ring s (s_r_ptr s) (Z.of_nat w * k).
Definition write_at (k : Z) : Z := ring sink (s_w_ptr sink) (Z.of_nat w * k).

(** The samples of the sink, from the memory at the start. *)
Definition mixed (k : nat) : Z := f ((fun s => load_le w m0 (read_at (Z.of_nat k) s)) <$> sources).

(** The next [n] samples of a stream do not wrap. *)
Definition linear_for (k n : Z) (s : audio_stream) : Prop := read_at k s + Z.of_nat w * n <= s_end_addr s.

Lemma ring_next s p k n :
  stream_geom s -> 0 <= n -> ring s p (Z.of_nat w * k) + Z.of_nat w * n < s_end_addr s ->
  ring s p (Z.of_nat w * (k + n)) = ring s p (Z.of_nat w * k) + Z.of_nat w * n.
Proof.
  intros G Hn Hlt. replace (Z.of_nat w * (k + n)) with (Z.of_nat w * k + Z.of_nat w * n) by lia.
  pose proof (ring_in s p (Z.of_nat w * k) G) as Hin. rewrite <- ring_ring. apply ring_linear; [done|done|lia|lia].
Qed.

Lemma mix_chunk_ok n k m :
  Z.of_nat w * Z.of_nat (k + n) <= s_size sink -> write_at (Z.of_nat k) + Z.of_nat w * Z.of_nat n <= s_end_addr sink ->
  Forall (linear_for (Z.of_nat k) (Z.of_nat n)) sources -> stored w sink (s_w_ptr sink) mixed m0 m k ->
  stored w sink (s_w_ptr sink) mixed m0
    (mix_chunk w f n m (write_at (Z.of_nat k)) (read_at (Z.of_nat k) <$> sources)) (k + n).
Proof.
  revert k m. induction n as [|n IH]; intros k m Hsz Hd Hl St; [by rewrite Nat.add_0_r|]. cbn [mix_chunk].
  set (m1 := store_le _ _ _ _). assert (stored w sink (s_w_ptr sink) mixed m0 m1 (S k)) as St1.
  { apply stored_step; [done..|lia|done|]. unfold mixed. f_equal. rewrite <- list_fmap_compose. apply list_fmap_ext.
    intros i s Hi. rewrite Forall_forall in Hs. destruct (Hs s) as (G & Al & Dj); [by eapply list_elem_of_lookup_2|].
    simpl. eapply stored_other; try exact St; done. }
  destruct n as [|n]; [by rewrite Nat.add_1_r|]. replace (k + S (S n))%nat with (S k + S n)%nat by lia.
  assert (forall s p, stream_geom s -> ring s p (Z.of_nat w * Z.of_nat k) + Z.of_nat w * Z.of_nat (S (S n)) <= s_end_addr s ->
    ring s p (Z.of_nat w * Z.of_nat (S k)) = ring s p (Z.of_nat w * Z.of_nat k) + Z.of_nat w) as Hnext.
  { intros s p G Hle. replace (Z.of_nat (S k)) with (Z.of_nat k + 1) by lia. rewrite ring_next; [lia|done|lia|nia]. }
  rewrite Forall_forall in Hl, Hs.
  replace (write_at (Z.of_nat k) + Z.of_nat w) with (write_at (Z.of_nat (S k))) by (apply Hnext; done).
  replace ((fun p => p + Z.of_nat w) <$> (read_at (Z.of_nat k) <$> sources)) with (read_at (Z.of_nat (S k)) <$> sources).
  2:{ rewrite <- list_fmap_compose. apply list_fmap_ext. intros i s Hi. apply list_elem_of_lookup_2 in Hi.
      apply Hnext; [by apply Hs|by apply Hl]. }
  apply IH; [lia|unfold write_at in *; rewrite Hnext by done; nia| |done].
  apply Forall_forall. intros s Hi. specialize (Hl s Hi). unfold linear_for, read_at in *.
  rewrite Hnext by (done || by apply Hs). nia.
Qed.

(** What fits before the end of a ring is a whole number of samples. *)
Lemma samples_left s p k :
  stream_geom s -> aligned s p (Z.of_nat w) ->
  exists n, audio_stream_bytes_without_wrap s (ring s p (Z.of_nat w * k)) = Some (Z.of_nat w * n) /\
    bytes_to_samples (Z.of_nat w) (Z.of_nat w * n) = n /\ 1 <= n /\ ring s p (Z.of_nat w * k) + Z.of_nat w * n = s_end_addr s.
Proof.
  intros G Al. destruct (aligned_rest s p (Z.of_nat w) k G ltac:(lia) Al) as [E1 E2].
  exists ((s_end_addr s - ring s p (Z.of_nat w * k)) / Z.of_nat w). rewrite bytes_without_wrap_ok by (auto using ring_in with sof).
  split_and!; [by rewrite E1|rewrite bytes_to_samples_div, Z.mul_comm, Z.div_mul; lia|done|lia].
Qed.

Lemma mix_limit_ok l n k :
  Forall (fun s => stream_geom s /\ aligned s (s_r_ptr s) (Z.of_nat w)) l -> 1 <= n ->
  exists n', mix_limit w l (read_at k <$> l) n = Some n' /\ 1 <= n' <= n /\ Forall (linear_for k n') l.
Proof.
  intros Hl. revert n. induction Hl as [|s l [G Al] Hl IH]; intros n Hn; [by exists n; split_and!; [|lia..|]|].
  destruct (samples_left s (s_r_ptr s) k G Al) as (ns & E & En & Hn1 & He).
  rewrite fmap_cons. cbn [mix_limit]. change (read_at k s) with (ring s (s_r_ptr s) (Z.of_nat w * k)). rewrite E. cbn [mbind option_bind].
  rewrite En. destruct (IH (Z.min n ns)) as (n' & E' & Hn' & Hlin); [lia|]. exists n'. split_and!; [done|lia..|].
  constructor; [|done]. unfold linear_for, read_at. nia.
Qed.

Lemma wrap_next s p k n :
  stream_geom s -> 0 <= n -> ring s p (Z.of_nat w * k) + Z.of_nat w * n <= s_end_addr s ->
  audio_stream_wrap s (ring s p (Z.of_nat w * k) + Z.of_nat w * n) = Some (ring s p (Z.of_nat w * (k + n))).
Proof.
  intros G Hn Hle. pose proof (ring_in s p (Z.of_nat w * k) G) as Hin. pose proof (geom_end _ G). unfold in_ring in *.
  rewrite audio_stream_wrap_ring by (done || nia). rewrite ring_ring. do 2 f_equal. lia.
Qed.

Lemma mix_wrap_ok l k n :
  Forall stream_geom l -> 0 <= n -> Forall (linear_for k n) l ->
  mix_wrap l ((fun p => p + Z.of_nat w * n) <$> (read_at k <$> l)) = Some (read_at (k + n) <$> l).
Proof.
  intros G Hn Hl. induction l as [|s l IH]; [done|]. apply Forall_cons in G as [G1 G]. apply Forall_cons in Hl as [Hl1 Hl].
  rewrite !fmap_cons. cbn [mix_wrap]. change (read_at k s) with (ring s (s_r_ptr s) (Z.of_nat w * k)).
  rewrite (wrap_next s (s_r_ptr s) k n G1 Hn Hl1). cbn [mbind option_bind]. by rewrite IH.
Qed.

Lemma mix_loop_ok fuel k n m :
  Z.of_nat w * Z.of_nat (k + n) <= s_size sink -> (n < fuel)%nat -> stored w sink (s_w_ptr sink) mixed m0 m k ->
  Z.of_nat (k + n) < 2 ^ 31 ->
  exists m', mix_loop w f fuel sink sources m (write_at (Z.of_nat k)) (read_at (Z.of_nat k) <$> sources)
      (Z.of_nat k) (Z.of_nat (k + n)) = Some m' /\
    stored w sink (s_w_ptr sink) mixed m0 m' (k + n).
Proof.
  revert k n m. induction fuel as [|fuel IH]; intros k n m Hsz Hf St Hb; [lia|]. cbn [mix_loop]. case_if.
  2:{ replace n with 0%nat by lia. rewrite Nat.add_0_r. by eexists. }
  rewrite i32_small by lia. destruct (samples_left sink (s_w_ptr sink) (Z.of_nat k) Gk Ak) as (nk & Ek & Enk & Hnk & Hek).
  change (write_at (Z.of_nat k)) with (ring sink (s_w_ptr sink) (Z.of_nat w * Z.of_nat k)). rewrite Ek. cbn [mbind option_bind]. rewrite Enk.
  destruct (mix_limit_ok sources (Z.min nk (Z.of_nat (k + n) - Z.of_nat k)) (Z.of_nat k)) as (c & El & Hc & Hlin);
    [eapply Forall_impl; [exact Hs|naive_solver]|lia|].
  rewrite El. cbn [mbind option_bind]. rewrite (wrap_next sink (s_w_ptr sink)) by (done || nia || lia).
  cbn [mbind option_bind]. rewrite mix_wrap_ok; [|eapply Forall_impl; [exact Hs|naive_solver]|lia|done].
  cbn [mbind option_bind]. replace (Z.of_nat k + c) with (Z.of_nat (k + Z.to_nat c)) by lia.
  assert (Z.to_nat c <= n)%nat by lia. replace (k + n)%nat with ((k + Z.to_nat c) + (n - Z.to_nat c))%nat in * by lia.
  apply IH; [done|lia| |done].
  apply mix_chunk_ok; [nia| |by rewrite Z2Nat.id by lia|done]. unfold write_at. nia.
Qed.
End loop.

(** ** The mixing functions *)

Lemma mix_with_ok max fn m sink sources frames :
  let fmt := func_fmt fn in let w := Z.of_nat (fmt_width fmt) in
  fn <> MixNull -> (length sources <= max <= 128)%nat -> stream_wf sink -> aligned sink (s_w_ptr sink) w ->
  Forall (fun s => stream_wf s /\ aligned s (s_r_ptr s) w /\ disjoint_rings s sink) sources ->
  0 <= frames * s_channels sink -> w * (frames * s_channels sink) <= s_size sink ->
  exists m', mix_with max fn m sink sources frames = Some m' /\
    stored (fmt_width fmt) sink (s_w_ptr sink) (fun k => mix_spec fmt ((fun s => sample fmt m s k) <$> sources)) m m'
      (Z.to_nat (frames * s_channels sink)).
Proof.
  intros fmt w Hfn Hmax Wk Ak Hs H0 Hsz. pose proof (size_small _ Wk) as Hsmall.
  assert (2 <= w) as Hw by (subst w; destruct fn; simpl; lia).
  assert (Forall (fun s => stream_geom s /\ aligned s (s_r_ptr s) w /\ disjoint_rings s sink) sources) as Hs'.
  { eapply Forall_impl; [exact Hs|]. intros s ([] & ? & ?). by split_and!. }
  assert (forall f, (forall xs, (length xs <= 128)%nat -> f xs = mix_spec fmt xs) ->
    exists m', mix_n max (fmt_width fmt) f m sink sources frames = Some m' /\
      stored (fmt_width fmt) sink (s_w_ptr sink) (fun k => mix_spec fmt ((fun s => sample fmt m s k) <$> sources)) m m'
        (Z.to_nat (frames * s_channels sink))) as Hgen.
  { intros f Hf. unfold mix_n. rewrite i32_small by nia. rewrite bool_decide_false by lia.
    destruct (mix_loop_ok (fmt_width fmt) f sink sources m ltac:(lia) (wf_geom _ Wk) Ak Hs'
      (S (Z.to_nat (frames * s_channels sink))) 0 (Z.to_nat (frames * s_channels sink)) m) as (m' & E & St);
      [simpl; rewrite Z2Nat.id; lia|lia|by apply stored_0; lia|simpl; rewrite Z2Nat.id; nia|].
    exists m'. split.
    - rewrite <- E. f_equal; simpl; [|apply list_fmap_ext; intros i s Hi|by rewrite Z2Nat.id].
      + unfold write_at. rewrite Z.mul_0_r, ring_0; [done|apply Wk|by apply wf_w_in].
      + apply list_elem_of_lookup_2 in Hi. rewrite Forall_forall in Hs. destruct (Hs s Hi) as ([] & _).
        unfold read_at. rewrite Z.mul_0_r, ring_0; done.
    - eapply stored_ext; [|exact St]. intros i. unfold mixed. apply Hf. rewrite length_fmap. lia. }
  destruct fn; [done|apply Hgen, mix_s16_spec|apply Hgen, mix_s24_spec|apply Hgen, mix_s32_spec].
Qed.

(** C30: Up to as many sources as a platform has channels, the mixing functions return
    and write for every sample of the sink the sum of the corresponding samples of
    all sources, saturated to the sample format and never wrapped around, across the
    wraps of all rings, and they write no other byte. *)
Theorem mix_saturated_sums max fn m sink sources frames :
  let fmt := func_fmt fn in let w := Z.of_nat (fmt_width fmt) in
  fn <> MixNull -> (length sources <= max <= 128)%nat -> stream_wf sink -> aligned sink (s_w_ptr sink) w ->
  Forall (fun s => stream_wf s /\ aligned s (s_r_ptr s) w /\ disjoint_rings s sink) sources ->
  0 <= frames * s_channels sink -> w * (frames * s_channels sink) <= s_size sink ->
  exists m', mix_with max fn m sink sources frames = Some m' /\
    (forall k, Z.of_nat k < frames * s_channels sink ->
       load_le (fmt_width fmt) m' (ring sink (s_w_ptr sink) (w * Z.of_nat k)) =
       pattern fmt (fmt_clamp fmt (sum ((fun s => fmt_value fmt (sample fmt m s k)) <$> sources)))) /\
    (forall a, (forall j, 0 <= j < w * (frames * s_channels sink) -> a <> ring sink (s_w_ptr sink) j) -> m' a = m a).
Proof.
  intros fmt w Hfn Hmax Wk Ak Hs H0 Hsz.
  destruct (mix_with_ok max fn m sink sources frames Hfn Hmax Wk Ak Hs H0 Hsz) as (m' & E & H1 & H2).
  exists m'. split_and!; [exact E| |].
  - intros k Hk. subst w fmt. rewrite H1 by lia. unfold mix_spec. by rewrite <- list_fmap_compose.
  - intros a Ha. apply H2. intros j Hj. apply Ha. subst w fmt. rewrite Z2Nat.id in Hj by lia. lia.
Qed.

(** ** Examples *)

(** Two full sources of two 16-bit channels and an empty sink; the pointers are such
    that two rings wrap. *)
Definition demo_stream_at (a r avail : Z) : audio_stream :=
  mk_stream 8 avail (8 - avail) (a + (r + avail) mod 8) (a + r) a (a + 8) SOF_IPC_FRAME_S16_LE 0 48000 2 false false.

Definition demo_in1 : audio_stream := demo_stream_at 1000 6 8.
Definition demo_in2 : audio_stream := demo_stream_at 2000 0 8.
Definition demo_mix : audio_stream := demo_stream_at 3000 2 0.

(** 0x7001, 3, 0, 0 in the first source, 0x7002, -2, 0, 0 in the second. *)
Definition demo_pcm : mem := fun a =>
  if a =? 1006 then 1 else if a =? 1007 then 112 else if a =? 1000 then 3 else
  if a =? 2000 then 2 else if a =? 2001 then 112 else if a =? 2002 then 254 else if a =? 2003 then 255 else 0.

Lemma demo_stream_at_wf a r avail :
  0 <= a < 2 ^ 20 -> 0 <= r < 8 -> 0 <= avail <= 8 -> stream_wf (demo_stream_at a r avail).
Proof.
  intros Ha Hr Hv. constructor; simpl; [constructor; simpl; lia|unfold in_ring; simpl; lia|done|lia|].
  unfold ring. simpl. f_equal. f_equal. lia.
Qed.

Lemma mix_saturated_sums_witness :
  exists m', mix_with 4 MixS16 demo_pcm demo_mix [demo_in1; demo_in2] 2 = Some m' /\
    load_s16 m' 3002 = INT16_MAX /\ load_s16 m' 3004 = 1 /\ m' 3010 = 0.
Proof.
  destruct (mix_saturated_sums 4 MixS16 demo_pcm demo_mix [demo_in1; demo_in2] 2) as (m' & E & H1 & H2).
  - done.
  - simpl. lia.
  - apply demo_stream_at_wf; lia.
  - split; [by exists 4|by exists 1].
  - repeat constructor; try (apply demo_stream_at_wf; lia); simpl;
      first [by exists 4|by exists 3|by exists 0|unfold disjoint_rings; simpl; lia].
  - simpl. lia.
  - simpl. lia.
  - exists m'. split; [exact E|].
    assert (load_le 2 m' 3002 = 32767) as E0 by (etransitivity; [exact (H1 0%nat eq_refl)|vm_compute; reflexivity]).
    assert (load_le 2 m' 3004 = 1) as E1 by (etransitivity; [exact (H1 1%nat eq_refl)|vm_compute; reflexivity]).
    unfold load_s16. rewrite E0, E1. split_and!; [reflexivity..|].
    apply H2. intros j Hj Ej. pose proof (ring_in demo_mix 3002 j (wf_geom _ (demo_stream_at_wf 3000 2 0 ltac:(lia) ltac:(lia) ltac:(lia)))) as Hin.
    change (s_w_ptr demo_mix) with 3002 in Ej. rewrite <- Ej in Hin. unfold in_ring in Hin. simpl in Hin. lia.
Defined.

(** On a platform with 8 channels nine sources overrun the array of read pointers. *)
Example mix_nine_sources : mix_with 8 MixS16 demo_pcm demo_mix (replicate 9 demo_in1) 2 = None.
Proof. reflexivity. Qed.
