(* ===== verification/MixerCopy.v ===== *)
(** * One period of the mixer

    [mixer_copy] of [src/audio/mixer.c] on queues of samples: it takes the same
    number of samples from every source that is in the state of the mixer and
    appends their saturated sums to the sink. *)

From stdpp Require Import base list numbers option gmap.
From S2P Require Import Prelude StateM AudioStream StreamCopy Heap HeapMap HeapSpec HeapFree HeapZones Allocator.
From S2P Require Import Buffer CompState Pipeline PipelineOps PipelineWalk PipelineThms PipelineLife Format.
From S2P Require Import SampleLoop PcmConvert PcmThms Topology TopologyInv Driver SampleQueue Mixer MixerThms.

(** ** The operation *)

Section copy.
Context {A : Type} `{!Allocator A} (PLATFORM_MAX_CHANNELS PLATFORM_MAX_STREAMS : nat).
Context (fn : mix_func) (channels : Z).
Hypothesis Hfn : fn <> MixNull.
Hypothesis Hch : 0 < channels < 2 ^ 16.
Hypothesis Hmax : (PLATFORM_MAX_CHANNELS <= 128)%nat.
Implicit Types (w : world A) (x : gmap Z mixer_data).
Notation fmt := (func_fmt fn).
Notation width := (Z.of_nat (fmt_width fmt)).

(** The component at the other end of a source is in a state. *)
Definition source_in w (state a : Z) : Prop :=
  exists b c, w_bufs w !! a = Some b /\ w_devs w !! b_source b = Some c /\ d_state c = state.

#[local] Instance source_in_dec w state a : Decision (source_in w state a).
Proof.
  destruct (w_bufs w !! a) as [b|] eqn:E; [|right; by intros (? & ? & ? & _); congruence].
  destruct (w_devs w !! b_source b) as [c|] eqn:Ec; [|right; intros (? & ? & ? & ? & _); congruence].
  destruct (decide (d_state c = state)); [left; by exists b, c|right; intros (? & ? & ? & ? & ?); congruence].
Defined.

(** The sources that are mixed. *)
Definition active_sources w (d : comp_dev) : list Z := filter (source_in w (d_state d)) (d_bsource_list d).

Definition stream_at w (a : Z) : audio_stream := from_option b_stream demo_mix (w_bufs w !! a).

(** A mixer with its sink and sources in the graph; the ring of the sink is apart
    from those of the active sources. *)
Record mixer_ok w x (dev sink : Z) (d : comp_dev) (b : comp_buffer) : Prop := {
  mo_dev : w_devs w !! dev = Some d;
  mo_data : exists md, x !! dev = Some md /\ md_mix_func md = fn;
  mo_head : head (d_bsink_list d) = Some sink;
  mo_sink : w_bufs w !! sink = Some b;
  mo_stream : samples_ok fmt channels (b_stream b);
  mo_sources : Forall (fun a => exists sb c, w_bufs w !! a = Some sb /\ w_devs w !! b_source sb = Some c) (d_bsource_list d);
  mo_active : Forall (fun a => samples_ok fmt channels (stream_at w a) /\ disjoint_rings (stream_at w a) (b_stream b))
                (active_sources w d);
  mo_distinct : NoDup (sink :: d_bsource_list d)
}.

Lemma mix_sources_ok w state l acc :
  Forall (fun a => exists sb c, w_bufs w !! a = Some sb /\ w_devs w !! b_source sb = Some c) l ->
  (length acc + length (filter (source_in w state) l) < PLATFORM_MAX_STREAMS - 1)%nat ->
  wp (mix_sources PLATFORM_MAX_STREAMS state l acc) w (fun w' r => w' = w /\ r = Some (acc ++ filter (source_in w state) l)).
Proof.
  intros Hl. revert acc. induction Hl as [|a l (sb & c & Hb & Hc) Hl IH]; intros acc Hlen; simpl mix_sources.
  { apply wp_ret. by rewrite app_nil_r. }
  unfold source_state. do 6 wp_step. destruct (d_state c =? state) eqn:E.
  - rewrite filter_cons_True in Hlen |- * by (exists sb, c; split_and!; [done|done|lia]). simpl in Hlen.
    rewrite bool_decide_false by (rewrite length_app; simpl; lia).
    eapply wp_mono; [apply IH; rewrite length_app; simpl; lia|]. intros w' r [-> ->]. split; [done|]. by rewrite <- app_assoc.
  - rewrite filter_cons_False in Hlen |- * by (intros (b' & c' & H1 & H2 & H3); simplify_eq; lia).
    rewrite bool_decide_false by lia. by apply IH.
Qed.

Lemma get_streams_ok w l :
  Forall (fun a => is_Some (w_bufs w !! a)) l -> wp (get_streams l) w (fun w' r => w' = w /\ r = stream_at w <$> l).
Proof.
  induction 1 as [|a l [b Hb] Hl IH]; simpl get_streams; [by apply wp_ret|]. do 3 wp_step.
  eapply wp_mono; [exact IH|]. intros w' r [-> ->]. wp_step. split; [done|]. rewrite fmap_cons. unfold stream_at at 2. by rewrite Hb.
Qed.

(** ** One period *)

(** The number of samples of a period. *)
Definition period_samples w (d : comp_dev) (b : comp_buffer) : nat :=
  Z.to_nat (common_frames (b_stream b) (stream_at w <$> active_sources w d) * channels).

(** Sample [k] of the sum of the active sources. *)
Definition sum_sample w (d : comp_dev) (k : nat) : Z :=
  mix_spec fmt ((fun a => sample fmt (w_mem w) (stream_at w a) k) <$> active_sources w d).

(** The sums are appended to the sink, the samples leave the sources, nothing else
    changes. *)
Definition mixed_period w (sink : Z) (d : comp_dev) (b : comp_buffer) (w' : world A) : Prop :=
  exists m' bufs tr, w' = with_trace (with_bufs (with_mem w m') bufs) tr /\
    (exists s, bufs !! sink = Some (set_stream b s) /\ samples_ok fmt channels s /\
       samples fmt m' s = samples fmt (w_mem w) (b_stream b) ++
         ((fun k => pattern fmt (sum_sample w d k)) <$> seq 0 (period_samples w d b))) /\
    (forall a ba, a ∈ active_sources w d -> w_bufs w !! a = Some ba ->
       exists ba', bufs !! a = Some ba' /\ drained fmt channels (period_samples w d b) ba ba') /\
    (forall a, a ∉ sink :: active_sources w d -> bufs !! a = w_bufs w !! a) /\
    (forall p, ~ in_ring (b_stream b) p -> m' p = w_mem w p).

Lemma active_streams w d a :
  a ∈ active_sources w d -> exists ba, w_bufs w !! a = Some ba /\ stream_at w a = b_stream ba.
Proof.
  intros [(ba & c & Hb & _) _]%list_elem_of_filter. exists ba. split; [done|]. unfold stream_at. by rewrite Hb.
Qed.

Lemma stored_outside sink q F m m' n p :
  stream_geom sink -> stored (fmt_width fmt) sink q F m m' n -> ~ in_ring sink p -> m' p = m p.
Proof using. intros G [_ H] Hp. apply H. intros j _ ->. by apply Hp, ring_in. Qed.

(** From the mixed samples in memory to the end of the operation. *)
Lemma commit_ok w x dev sink d b m' :
  mixer_ok w x dev sink d b ->
  stored (fmt_width fmt) (b_stream b) (s_w_ptr (b_stream b)) (sum_sample w d) (w_mem w) m' (period_samples w d b) ->
  wp (consume_all (reverse (active_sources w d)) (width * Z.of_nat (period_samples w d b)) ;;
      produce sink (width * Z.of_nat (period_samples w d b)) ;; mret 0) (with_mem w m')
    (fun w' r => r = 0 /\ mixed_period w sink d b w').
Proof.
  intros K St. pose proof (mo_distinct _ _ _ _ _ _ K) as [Hsink Hnd]%NoDup_cons.
  pose proof (mo_active _ _ _ _ _ _ K) as Hact. rewrite Forall_forall in Hact.
  destruct (frames_bytes fmt channels Hch (b_stream b) (stream_at w <$> active_sources w d)) as (H0 & Hfree & Hav);
    [apply K|apply Forall_fmap, Forall_forall; intros a Ha; by apply Hact|].
  assert (Z.of_nat (period_samples w d b) = common_frames (b_stream b) (stream_at w <$> active_sources w d) * channels) as En
    by (unfold period_samples; rewrite Z2Nat.id; nia).
  rewrite Forall_fmap, Forall_forall in Hav. rewrite <- En in Hfree, Hav.
  assert (sink ∉ active_sources w d) as Hsink' by (intros [_ ?]%list_elem_of_filter; done).
  wp_step. eapply wp_mono; [apply (consume_all_ok fmt channels)|].
  - rewrite reverse_Permutation. by apply NoDup_filter.
  - rewrite reverse_Permutation. apply Forall_forall. intros a Ha. destruct (active_streams w d a Ha) as (ba & Hba & E).
    exists ba. rewrite <- E. split_and!; [done|by apply Hact|by apply Hav].
  - intros w1 _ (tr1 & bufs & -> & Hother & Hdrain). wp_step.
    eapply wp_mono; [apply (produce_ok fmt channels _ _ b (sum_sample w d) _ (w_mem w)); [|apply K|done|done]|].
    { simpl. rewrite Hother by (by rewrite reverse_Permutation). apply K. }
    set (s := added _ _). intros w2 _ (tr2 & Ks & Es & ->). wp_step. split; [done|]. simpl in *. exists m', (<[sink := set_stream b s]> bufs), tr2.
    split_and!; [done|by exists s; rewrite lookup_insert_eq| | |].
    + intros a ba Ha Hba. rewrite lookup_insert_ne by (intros ->; done). apply Hdrain; [by rewrite reverse_Permutation|done].
    + intros a [Hne Ha]%not_elem_of_cons. rewrite lookup_insert_ne by done. apply Hother. by rewrite reverse_Permutation.
    + intros p Hp. eapply stored_outside; [apply wf_geom, (so_wf _ _ _ (mo_stream _ _ _ _ _ _ K))|exact St|done].
Qed.

(** Zero bytes are the samples of no sources. *)
Lemma zeros_stored sink q m m' n :
  stream_geom sink -> aligned sink q width -> ring_written m m' sink q (replicate (Z.to_nat (width * Z.of_nat n)) 0) ->
  stored (fmt_width fmt) sink q (fun _ => 0) m m' n.
Proof.
  intros G Al [H1 H2]. pose proof (width_pos fmt). split.
  - intros i Hi. rewrite Z.mod_0_l by (apply Z.pow_nonzero; lia).
    assert (forall k p, (forall a, p <= a < p + Z.of_nat k -> m' a = 0) -> load_le k m' p = 0) as Hz.
    { intros k. induction k as [|k IH]; intros p Hp; [done|]. simpl. rewrite Hp, IH by (intros; apply Hp; lia) || lia. done. }
    apply Hz. intros a Ha. destruct (sample_bytes sink q (fmt_width fmt) (Z.of_nat i)
      (a - ring sink q (width * Z.of_nat i)) G ltac:(lia) Al ltac:(lia)) as [E _].
    replace a with (ring sink q (Z.of_nat (Z.to_nat (width * Z.of_nat i + (a - ring sink q (width * Z.of_nat i))))))
      by (rewrite Z2Nat.id; nia).
    apply H1. apply lookup_replicate. split; [done|]. nia.
  - intros a Ha. apply H2. intros i Hi. rewrite length_replicate in Hi. apply Ha. lia.
Qed.

(** The numbers of the period: samples, bytes, frames. *)
Lemma period_bytes w x dev sink d b :
  mixer_ok w x dev sink d b ->
  let frames := common_frames (b_stream b) (stream_at w <$> active_sources w d) in
  Z.of_nat (period_samples w d b) = frames * channels /\ width * Z.of_nat (period_samples w d b) <= s_free (b_stream b) /\
  (forall s, samples_ok fmt channels s -> u32 (frames * audio_stream_frame_bytes s) = width * Z.of_nat (period_samples w d b)) /\
  audio_stream_get_free_frames (b_stream b) <= INT32_MAX.
Proof.
  intros K frames. pose proof (mo_stream _ _ _ _ _ _ K) as Kb. pose proof (width_pos fmt) as Hw.
  destruct (frames_bytes fmt channels Hch (b_stream b) (stream_at w <$> active_sources w d)) as (H0 & Hfree & _);
    [done|apply Forall_fmap; eapply Forall_impl; [apply K|by intros a []]|].
  fold frames in H0, Hfree. pose proof (size_small _ (so_wf _ _ _ Kb)) as Hsz.
  pose proof (wf_free _ (so_wf _ _ _ Kb)) as Hf. pose proof (wf_avail _ (so_wf _ _ _ Kb)) as Ha.
  assert (Z.of_nat (period_samples w d b) = frames * channels) as En by (unfold period_samples; fold frames; rewrite Z2Nat.id; nia).
  rewrite En. split_and!; [done|done| |].
  - intros s Ks. rewrite (frame_bytes_fmt fmt channels Hch s Ks), u32_small; [lia|]. nia.
  - unfold audio_stream_get_free_frames, audio_stream_get_free_bytes.
    rewrite (so_over _ _ _ Kb), (frame_bytes_fmt fmt channels Hch) by done.
    apply Z.div_le_upper_bound; [nia|]. assert (1 <= width * channels) by nia. nia.
Qed.

(** No source is active: silence. *)
Lemma silence_ok w x dev sink d b :
  mixer_ok w x dev sink d b -> active_sources w d = [] ->
  exists m, audio_stream_set_zero (w_mem w) (b_stream b) (width * Z.of_nat (period_samples w d b)) = (m, 0) /\
    stored (fmt_width fmt) (b_stream b) (s_w_ptr (b_stream b)) (sum_sample w d) (w_mem w) m (period_samples w d b).
Proof.
  intros K Hnil. pose proof (mo_stream _ _ _ _ _ _ K) as Kb. destruct (period_bytes _ _ _ _ _ _ K) as (_ & Hfree & _ & _).
  pose proof (audio_stream_set_zero_ok (w_mem w) (b_stream b) (width * Z.of_nat (period_samples w d b))
    (so_wf _ _ _ Kb) (so_over _ _ _ Kb) ltac:(lia)) as Hz.
  rewrite (proj2 (Z.leb_le _ _) Hfree) in Hz. destruct Hz as (m & E & Hm). exists m. split; [done|].
  apply (stored_ext _ _ _ (fun _ => 0)); [|apply zeros_stored; [apply wf_geom, Kb|by eapply so_w_aligned|done]].
  intros i. unfold sum_sample. rewrite Hnil. by destruct fn.
Qed.

(** The call of the mixing function. *)
Lemma mix_call_ok w x dev sink d b :
  mixer_ok w x dev sink d b -> (length (active_sources w d) <= PLATFORM_MAX_CHANNELS)%nat ->
  exists m, mix_with PLATFORM_MAX_CHANNELS fn (w_mem w) (b_stream b) (stream_at w <$> active_sources w d)
      (common_frames (b_stream b) (stream_at w <$> active_sources w d)) = Some m /\
    stored (fmt_width fmt) (b_stream b) (s_w_ptr (b_stream b)) (sum_sample w d) (w_mem w) m (period_samples w d b).
Proof.
  intros K Hlen. pose proof (mo_stream _ _ _ _ _ _ K) as Kb. destruct (period_bytes _ _ _ _ _ _ K) as (En & Hfree & _ & _).
  pose proof (wf_free _ (so_wf _ _ _ Kb)) as Hf. pose proof (wf_avail _ (so_wf _ _ _ Kb)) as Ha.
  destruct (mix_with_ok PLATFORM_MAX_CHANNELS fn (w_mem w) (b_stream b) (stream_at w <$> active_sources w d)
    (common_frames (b_stream b) (stream_at w <$> active_sources w d))) as (m & E & St);
    [done|rewrite length_fmap; lia|apply Kb|by eapply so_w_aligned| |rewrite (so_channels _ _ _ Kb); lia..|].
  { apply Forall_fmap. eapply Forall_impl; [apply K|]. intros a [[] Hd]. by split_and!. }
  exists m. split; [exact E|]. rewrite (so_channels _ _ _ Kb) in St.
  eapply stored_ext; [|exact St]. intros i. unfold sum_sample. by rewrite <- list_fmap_compose.
Qed.

(** C28: One period of a running mixer with fewer active sources than
    [PLATFORM_MAX_STREAMS - 1], where it gives up without copying
    ([mixer_copy_at_limit]), and no more than [PLATFORM_MAX_CHANNELS], the size of
    an array that the code does not check ([mix_nine_sources]): it returns 0; every
    source that is in the state of the mixer loses the same number of samples, as
    many whole frames as all of them have and the sink has room for, and the sink
    gains the saturated sums of these samples, or silence when no source is active;
    no other buffer and no byte outside the ring of the sink changes. *)
Theorem mixer_copy_mixes w x dev sink d b :
  mixer_ok w x dev sink d b -> (length (active_sources w d) < PLATFORM_MAX_STREAMS - 1)%nat ->
  (length (active_sources w d) <= PLATFORM_MAX_CHANNELS)%nat ->
  exists w', mixer_copy PLATFORM_MAX_CHANNELS PLATFORM_MAX_STREAMS dev (w, x) = Some ((w', x), 0) /\ mixed_period w sink d b w'.
Proof.
  intros K Hlen Hlen2. destruct (mo_data _ _ _ _ _ _ K) as (md & Hx & Hmd).
  enough (wp (mixer_copy PLATFORM_MAX_CHANNELS PLATFORM_MAX_STREAMS dev) (w, x)
    (fun s r => r = 0 /\ s.2 = x /\ mixed_period w sink d b s.1)) as ([w' x'] & r & E & -> & Ex & H).
  { simpl in Ex. subst x'. by exists w'. }
  unfold mixer_copy. apply wp_bind. eexists (w, x), md. split; [unfold get_drvdata; simpl; by rewrite Hx|].
  apply wp_in_world. simpl. pose proof (mo_dev _ _ _ _ _ _ K) as Hd. pose proof (mo_sink _ _ _ _ _ _ K) as Hb.
  do 2 wp_step. wp_step. eexists w, sink. split; [unfold lift; by rewrite (mo_head _ _ _ _ _ _ K)|]. wp_step.
  eapply wp_mono; [apply mix_sources_ok; [apply K|exact Hlen]|]. intros ? r [-> ->]. simpl. fold (active_sources w d). do 2 wp_step.
  eapply (wp_mono _ _ (fun w' r => r = 0 /\ mixed_period w sink d b w')); [|naive_solver].
  pose proof (mo_stream _ _ _ _ _ _ K) as Kb. destruct (period_bytes _ _ _ _ _ _ K) as (En & _ & Ebytes & Hfr).
  case_bool_decide as Hnil.
  - replace (Z.min INT32_MAX (audio_stream_get_free_frames (b_stream b)))
      with (common_frames (b_stream b) (stream_at w <$> active_sources w d)) by (rewrite Hnil; unfold common_frames; simpl; lia).
    rewrite Ebytes by done. do 2 wp_step. destruct (silence_ok _ _ _ _ _ _ K Hnil) as (m & E & St). rewrite E. simpl. do 2 wp_step.
    pose proof (commit_ok _ _ _ _ _ _ m K St) as Hc. by rewrite Hnil in Hc.
  - wp_step. eapply wp_mono; [apply get_streams_ok|].
    { apply Forall_forall. intros a Ha. destruct (active_streams w d a Ha) as (ba & Hba & _). by exists ba. }
    intros ? streams [-> ->]. rewrite (foldl_frames channels Hch) by (done || by intros ?%fmap_nil_inv). wp_step.
    destruct (active_sources w d) as [|a0 srcs] eqn:Es; [done|]. eexists w, (stream_at w a0). split; [done|].
    rewrite <- Es in *. assert (samples_ok fmt channels (stream_at w a0)) as Ka0.
    { pose proof (mo_active _ _ _ _ _ _ K) as Hact. rewrite Es in Hact. by apply Forall_cons in Hact as [[? _] _]. }
    rewrite !Ebytes by done. destruct (mix_call_ok _ _ _ _ _ _ K Hlen2) as (m & E & St). wp_step.
    eexists (with_mem w m), tt. split; [unfold call_mix_func; by rewrite Hmd, E|]. by eapply commit_ok.
Qed.
End copy.

(** ** Examples *)

#[local] Instance mixer_allocator : Allocator mm := heap_allocator baytrail baytrail_dcache 4096 65536.

Definition buf_on (a source sink : Z) (s : audio_stream) : comp_buffer :=
  mk_buffer a s a 1 0 0 source sink 0 [] true false.

(** Mixer 1 with the sources 100 and 101, which run, and 103, which is paused; sink 102. *)
Definition demo_mixer_world : world mm := mk_world
  {[1 := set_state COMP_STATE_ACTIVE (demo_dev 1 50 0 6 [100; 101; 103] [102]);
    2 := set_state COMP_STATE_ACTIVE (demo_dev 2 50 0 SOF_COMP_HOST [] [100]);
    3 := set_state COMP_STATE_ACTIVE (demo_dev 3 50 0 SOF_COMP_HOST [] [101]);
    4 := set_state COMP_STATE_PAUSED (demo_dev 4 50 0 SOF_COMP_HOST [] [103])]}
  {[100 := buf_on 100 2 1 demo_in1; 101 := buf_on 101 3 1 demo_in2; 102 := buf_on 102 1 0 demo_mix;
    103 := buf_on 103 4 1 demo_in2]}
  {[50 := demo_ppl COMP_STATE_ACTIVE (mk_trigger COMP_TRIGGER_NO_ACTION 0 0 false)]} demo_pcm demo_mm [] ∅ (w_data demo_world) [] [].

Definition demo_mixers : gmap Z mixer_data := {[1 := mk_mixer 900 MixS16]}.

Lemma demo_stream_samples a r avail :
  0 <= a < 2 ^ 20 -> 0 <= r < 8 -> 0 <= avail <= 8 -> (2 | r) -> (2 | avail) -> samples_ok FMT_S16 2 (demo_stream_at a r avail).
Proof.
  intros Ha Hr Hv H1 H2. constructor; try done; [by apply demo_stream_at_wf|].
  split; [by exists 4|]. simpl. by replace (a + r - a) with r by lia.
Qed.

Lemma demo_mixer_ok : mixer_ok MixS16 2 demo_mixer_world demo_mixers 1 102
  (set_state COMP_STATE_ACTIVE (demo_dev 1 50 0 6 [100; 101; 103] [102])) (buf_on 102 1 0 demo_mix).
Proof.
  constructor.
  - reflexivity.
  - by eexists.
  - reflexivity.
  - reflexivity.
  - apply demo_stream_samples; try lia; [by exists 1|by exists 0].
  - repeat constructor; eexists _, _; split; reflexivity.
  - replace (active_sources _ _) with [100; 101] by (vm_compute; reflexivity).
    change (stream_at demo_mixer_world) with (fun a => from_option b_stream demo_mix (w_bufs demo_mixer_world !! a)).
    rewrite !Forall_cons. change (w_bufs demo_mixer_world !! 100) with (Some (buf_on 100 2 1 demo_in1)).
    change (w_bufs demo_mixer_world !! 101) with (Some (buf_on 101 3 1 demo_in2)). split_and!; [| | | |by constructor].
    + apply demo_stream_samples; try lia; [by exists 3|by exists 4].
    + unfold disjoint_rings. simpl. lia.
    + apply demo_stream_samples; try lia; [by exists 0|by exists 4].
    + unfold disjoint_rings. simpl. lia.
  - apply (bool_decide_unpack _). vm_compute. exact I.
Qed.

Lemma mixer_copy_mixes_witness :
  exists w', mixer_copy 4 5 1 (demo_mixer_world, demo_mixers) = Some ((w', demo_mixers), 0) /\
    exists b, w_bufs w' !! 102 = Some b /\ samples FMT_S16 (w_mem w') (b_stream b) = [32767; 1; 0; 0].
Proof.
  destruct (mixer_copy_mixes 4 5 MixS16 2 ltac:(done) ltac:(lia) ltac:(lia) demo_mixer_world demo_mixers 1 102
    (set_state COMP_STATE_ACTIVE (demo_dev 1 50 0 6 [100; 101; 103] [102])) (buf_on 102 1 0 demo_mix))
    as (w' & E & m' & bufs & tr & -> & (s & Hb & _ & Hs) & _);
    [apply demo_mixer_ok|vm_compute; lia|vm_compute; lia|].
  eexists. split; [exact E|]. eexists. split; [exact Hb|]. simpl in Hs |- *. rewrite Hs. vm_compute. reflexivity.
Defined.

(** With one source less than the limit nothing is copied at all. *)
Example mixer_copy_at_limit :
  (x ← mixer_copy 4 3 1 (demo_mixer_world, demo_mixers); Some (x.2, s_avail <$> (b_stream <$> w_bufs x.1.1 !! 102))) =
  Some (0, Some 0).
Proof. vm_compute. reflexivity. Qed.
