(* ===== verification/MixerState.v ===== *)
(** * The state of a mixer

    [mixer_trigger] and [mixer_reset] of [src/audio/mixer.c]: a mixer serves
    several pipelines, so a command for one of them must not stop it, or what is
    behind it, while the others run. *)

From stdpp Require Import base list numbers option gmap.
From S2P Require Import Prelude StateM AudioStream Heap HeapMap HeapSpec HeapFree HeapZones Allocator Buffer.
From S2P Require Import CompState Pipeline PipelineOps PipelineWalk PipelineThms PipelineLife Format SampleLoop.
From S2P Require Import Topology TopologyInv Driver SampleQueue Mixer MixerThms MixerCopy.

Section trigger.
Context {A : Type} `{!Allocator A}.
Implicit Types w : world A.
#[local] Existing Instance source_in_dec.

(** The mixer of a playback pipeline with its sources; it is not a source of its
    own. *)
Record playback_mixer w (dev : Z) (d : comp_dev) : Prop := {
  pm_dev : w_devs w !! dev = Some d;
  pm_ppl : exists p c, w_ppls w !! d_pipeline d = Some p /\ w_devs w !! p_source_comp p = Some c /\
    d_direction c = SOF_IPC_STREAM_PLAYBACK;
  pm_sources : Forall (fun a => exists b c, w_bufs w !! a = Some b /\ w_devs w !! b_source b = Some c /\ b_source b <> dev)
    (d_bsource_list d);
  pm_count : Z.of_nat (length (d_bsource_list d)) < 2 ^ 31
}.

Definition running w (d : comp_dev) : Prop :=
  Exists (fun a => source_in w COMP_STATE_ACTIVE a \/ source_in w COMP_STATE_PAUSED a) (d_bsource_list d).

Lemma dev_at_mixer w dev d s : playback_mixer w dev d -> playback_mixer (dev_at w dev d s) dev (set_state s d).
Proof.
  intros [Hd (p & c & Hp & Hc & Hdir) Hs Hn]. constructor; simpl; [apply lookup_insert_eq| | |done].
  - exists p. destruct (decide (p_source_comp p = dev)) as [E|Hne].
    + exists (set_state s d). rewrite E, lookup_insert_eq. rewrite E in Hc. simplify_eq. done.
    + exists c. by rewrite lookup_insert_ne.
  - eapply Forall_impl; [exact Hs|]. intros a (b & cb & Hb & Hcb & Hne). exists b, cb. by rewrite lookup_insert_ne.
Qed.

Lemma source_in_state w dev d s state a :
  (forall b, w_bufs w !! a = Some b -> b_source b <> dev) -> source_in (dev_at w dev d s) state a <-> source_in w state a.
Proof.
  intros Hne. unfold source_in. simpl. split; intros (b & c & Hb & Hc & Hs); exists b, c; split_and!; try done;
    [|]; rewrite lookup_insert_ne in * by (apply not_eq_sym, Hne; done); done.
Qed.

Lemma source_state_ok w a b c :
  w_bufs w !! a = Some b -> w_devs w !! b_source b = Some c -> wp (source_state a) w (fun w' r => w' = w /\ r = d_state c).
Proof. intros Hb Hc. unfold source_state. by do 5 wp_step. Qed.

Lemma status_count_ok w l status n :
  Forall (fun a => exists b c, w_bufs w !! a = Some b /\ w_devs w !! b_source b = Some c) l -> 0 <= n ->
  n + Z.of_nat (length l) < 2 ^ 31 ->
  wp (status_count l status n) w (fun w' r => w' = w /\ r = n + Z.of_nat (length (filter (source_in w status) l))).
Proof.
  intros Hl. revert n. induction Hl as [|a l (b & c & Hb & Hc) Hl IH]; intros n H0 Hn; simpl status_count.
  { apply wp_ret. rewrite filter_nil. simpl. split; [done|lia]. }
  wp_step. eapply wp_mono; [by eapply source_state_ok|]. intros ? s [-> ->]. simpl in Hn. destruct (d_state c =? status) eqn:E.
  - rewrite filter_cons_True by (exists b, c; split_and!; [done|done|lia]). rewrite i32_small by lia.
    eapply wp_mono; [apply IH; lia|]. intros w' r [-> ->]. simpl. split; [done|lia].
  - rewrite filter_cons_False by (intros (b' & c' & H1 & H2 & H3); simplify_eq; lia). apply IH; lia.
Qed.

Lemma sources_running_ok w dev d :
  playback_mixer w dev d -> wp (sources_running dev) w (fun w' r => w' = w /\ (r = true <-> running w d)).
Proof.
  intros [Hd _ Hs Hn]. unfold sources_running, mixer_source_status_count.
  assert (Forall (fun a => exists b c, w_bufs w !! a = Some b /\ w_devs w !! b_source b = Some c) (d_bsource_list d)) as Hs'
    by (eapply Forall_impl; [exact Hs|naive_solver]).
  assert (forall st, Z.of_nat (length (filter (source_in w st) (d_bsource_list d))) = 0 <->
    ~ Exists (source_in w st) (d_bsource_list d)) as Hz.
  { intros st. rewrite <- Forall_Exists_neg, Forall_forall. split.
    - intros Hlen a Ha Hin. assert (a ∈ filter (source_in w st) (d_bsource_list d)) as Hf by (by apply list_elem_of_filter).
      destruct (filter _ _); [by apply elem_of_nil in Hf|simpl in Hlen; lia].
    - intros Hno. destruct (filter _ _) as [|a l] eqn:E; [done|].
      assert (a ∈ filter (source_in w st) (d_bsource_list d)) as [? ?]%list_elem_of_filter by (rewrite E; by left). by destruct (Hno a). }
  assert (running w d <-> Exists (source_in w COMP_STATE_ACTIVE) (d_bsource_list d) \/
    Exists (source_in w COMP_STATE_PAUSED) (d_bsource_list d)) as Hrun by (unfold running; rewrite !Exists_exists; naive_solver).
  do 3 wp_step. eapply wp_mono; [apply status_count_ok; [done|lia|lia]|].
  intros ? n [-> ->]. rewrite Z.add_0_l. destruct (Z.eqb_spec (Z.of_nat (length (filter (source_in w COMP_STATE_ACTIVE) (d_bsource_list d)))) 0) as [E|E]; simpl.
  - do 3 wp_step. eapply wp_mono; [apply status_count_ok; [done|lia|lia]|]. intros ? n [-> ->]. rewrite Z.add_0_l. wp_step.
    split; [done|]. rewrite Hrun. apply Hz in E. rewrite negb_true_iff, Z.eqb_neq, Hz. destruct (Exists_dec (source_in w COMP_STATE_PAUSED) (d_bsource_list d)); tauto.
  - wp_step. split; [done|]. rewrite Hrun. rewrite Hz in E. destruct (Exists_dec (source_in w COMP_STATE_ACTIVE) (d_bsource_list d)); tauto.
Qed.

Lemma pipeline_direction_ok w dev d :
  playback_mixer w dev d -> wp (pipeline_direction dev) w (fun w' r => w' = w /\ r = SOF_IPC_STREAM_PLAYBACK).
Proof. intros [Hd (p & c & Hp & Hc & <-) _ _]. unfold pipeline_direction. by do 7 wp_step. Qed.

Lemma trigger_common_ok w dev d cmd :
  playback_mixer w dev d ->
  wp (mixer_trigger_common dev cmd) w (fun w' r => w' = dev_at w dev d (comp_set_state (d_state d) cmd).1 /\
    r = (comp_set_state (d_state d) cmd).2).
Proof.
  intros K. unfold mixer_trigger_common. wp_step. eapply wp_mono; [by eapply pipeline_direction_ok|]. intros ? ? [-> ->].
  wp_step. eapply wp_mono; [apply set_dev_state_ok, K|]. intros ? r [-> ->]. case_if; [by wp_step|].
  case_if; [|by simpl; wp_step]. wp_step. split; [done|lia].
Qed.

Lemma running_state w dev d s : playback_mixer w dev d -> running (dev_at w dev d s) (set_state s d) <-> running w d.
Proof.
  intros [_ _ Hs _]. rewrite Forall_forall in Hs. unfold running. simpl. rewrite !Exists_exists.
  split; intros (a & Ha & Hr); exists a; (split; [done|]); rewrite !source_in_state in *; try done;
    intros b Hb; destruct (Hs a Ha) as (b' & c & Hb' & _ & Hne); congruence.
Qed.

(** The end of a command that the mixer outlives. *)
Lemma trigger_rest_ok w dev d cmd :
  playback_mixer w dev d -> d_state d = COMP_STATE_ACTIVE -> cmd = COMP_TRIGGER_STOP \/ cmd = COMP_TRIGGER_PAUSE ->
  wp (ret ← mixer_trigger_common dev cmd;
      if ret <? 0 then mret ret else
      keep ← (if cmd =? COMP_TRIGGER_PAUSE then mret true
              else if cmd =? COMP_TRIGGER_STOP then sources_running dev else mret false);
      if keep : bool then mod_dev dev (set_state COMP_STATE_ACTIVE) ;; mret PPL_STATUS_PATH_STOP else mret ret) w
    (fun w' r => (cmd = COMP_TRIGGER_PAUSE \/ running w d -> w' = w /\ r = PPL_STATUS_PATH_STOP) /\
       (cmd = COMP_TRIGGER_STOP -> ~ running w d -> w' = dev_at w dev d COMP_STATE_PREPARE /\ r = 0)).
Proof.
  intros K Hst Hcmd. pose proof (pm_dev _ _ _ K) as Hd. wp_step. eapply wp_mono; [by apply trigger_common_ok|].
  assert (forall s, wp (mod_dev dev (set_state COMP_STATE_ACTIVE) ;; mret PPL_STATUS_PATH_STOP) (dev_at w dev d s)
    (fun w' r => w' = w /\ r = PPL_STATUS_PATH_STOP)) as Hkeep.
  { intros s. wp_step. eapply wp_mod_dev; [apply lookup_insert_eq|]. wp_step. split; [|done].
    change (dev_at (dev_at w dev d s) dev (set_state s d) COMP_STATE_ACTIVE = w). rewrite dev_at_twice. by apply dev_at_id. }
  intros ? r [-> ->]. rewrite Hst. destruct Hcmd as [->| ->]; simpl; wp_step.
  - eapply wp_mono; [apply sources_running_ok, dev_at_mixer, K|]. intros ? keep [-> Hk].
    rewrite (running_state w dev d _ K) in Hk. destruct keep.
    + eapply wp_mono; [apply Hkeep|]. intros ? ? ?. split; [done|]. intros _ Hno. by destruct Hno; apply Hk.
    + wp_step. split; [|done]. intros [?|Hr]; [done|]. by apply Hk in Hr.
  - wp_step. eapply wp_mono; [apply Hkeep|]. intros ? ? ?. by split.
Qed.

Lemma source_in_use_ok w d :
  Forall (fun a => exists b c, w_bufs w !! a = Some b /\ w_devs w !! b_source b = Some c) (d_bsource_list d) ->
  wp (source_in_use (d_bsource_list d)) w (fun w' r => w' = w /\ (running w d -> r = true)).
Proof.
  unfold running. induction 1 as [|a l (b & c & Hb & Hc) Hl IH]; simpl source_in_use.
  { apply wp_ret. split; [done|]. by intros ?%Exists_nil. }
  wp_step. eapply wp_mono; [by eapply source_state_ok|]. intros ? s [-> ->]. case_if; [by wp_step|].
  eapply wp_mono; [exact IH|]. intros ? r [-> Hr]. split; [done|]. intros [Ha|Ha]%Exists_cons; [exfalso|by apply Hr].
  destruct Ha as [Ha|Ha]; destruct Ha as (b' & c' & H1 & H2 & H3); simplify_eq; lia.
Qed.

(** C31: A mixer that is active for playback serves all its sources: while one of them is
    active or paused, the commands stop, pause, start, pre-start, release and
    reset of any pipeline leave it and everything else as it is and do not go on to
    the components behind it; once no source is active or paused, a stop takes it
    to the state PREPARE and goes on. *)
Theorem mixer_outlives_sources w dev d :
  playback_mixer w dev d -> d_state d = COMP_STATE_ACTIVE ->
  (running w d ->
     (forall cmd, cmd ∈ [COMP_TRIGGER_STOP; COMP_TRIGGER_PAUSE; COMP_TRIGGER_START; COMP_TRIGGER_PRE_START; COMP_TRIGGER_RELEASE] ->
        mixer_trigger dev cmd w = Some (w, PPL_STATUS_PATH_STOP)) /\
     mixer_reset dev w = Some (w, 1)) /\
  (~ running w d -> mixer_trigger dev COMP_TRIGGER_STOP w = Some (dev_at w dev d COMP_STATE_PREPARE, 0)).
Proof.
  intros K Hst. pose proof (pm_dev _ _ _ K) as Hd.
  assert (forall (m : M A Z) w' r', wp m w (fun w1 r1 => w1 = w' /\ r1 = r') -> m w = Some (w', r')) as Hwp
    by (intros m w' r' (? & ? & ? & -> & ->); done).
  split; [intros Hrun; split|intros Hno].
  - intros cmd Hcmd. apply Hwp. unfold mixer_trigger. wp_step. eapply wp_mono; [by eapply pipeline_direction_ok|].
    intros ? ? [-> ->]. simpl. wp_step.
    rewrite !elem_of_cons, elem_of_nil in Hcmd. destruct Hcmd as [->|[->|[->|[->|[->|[]]]]]]; simpl.
    + do 3 wp_step. eapply wp_mono; [apply trigger_rest_ok; [done|done|by left]|]. intros ? ? [H _]. apply H. by right.
    + do 3 wp_step. eapply wp_mono; [apply trigger_rest_ok; [done|done|by right]|]. intros ? ? [H _]. apply H. by left.
    + do 4 wp_step. eapply wp_mono; [by apply trigger_common_ok|]. intros ? ? [-> ->]. rewrite Hst. simpl. do 3 wp_step.
      split; [by apply dev_at_id|done].
    + eapply wp_mono; [by eapply sources_running_ok|]. intros ? r [-> Hr]. rewrite (proj2 Hr Hrun). by wp_step.
    + do 2 wp_step. eapply wp_mod_dev; [done|]. wp_step.
      eapply wp_mono; [apply (trigger_common_ok (dev_at w dev d COMP_STATE_ACTIVE) dev (set_state COMP_STATE_ACTIVE d)), dev_at_mixer, K|].
      intros ? ? [-> ->]. simpl. do 3 wp_step. split; [|done]. rewrite dev_at_twice. by apply dev_at_id.
  - apply Hwp. unfold mixer_reset. wp_step. eapply wp_mono; [by eapply pipeline_direction_ok|]. intros ? ? [-> ->].
    do 3 wp_step. simpl. eapply wp_mono; [apply source_in_use_ok; eapply Forall_impl; [apply K|naive_solver]|].
    intros ? r [-> Hr]. rewrite (Hr Hrun). by wp_step.
  - apply Hwp. unfold mixer_trigger. wp_step. eapply wp_mono; [by eapply pipeline_direction_ok|].
    intros ? ? [-> ->]. simpl. do 4 wp_step. eapply wp_mono; [apply trigger_rest_ok; [done|done|by left]|].
    intros ? ? [_ H]. by apply H.
Qed.
End trigger.

Lemma mixer_outlives_sources_witness :
  mixer_trigger 1 COMP_TRIGGER_STOP demo_mixer_world = Some (demo_mixer_world, PPL_STATUS_PATH_STOP) /\
  mixer_reset 1 demo_mixer_world = Some (demo_mixer_world, 1).
Proof.
  destruct (mixer_outlives_sources demo_mixer_world 1
    (set_state COMP_STATE_ACTIVE (demo_dev 1 50 0 6 [100; 101; 103] [102]))) as [H _].
  - constructor; [reflexivity| | |simpl; lia].
    + eexists _, _. split_and!; reflexivity.
    + repeat constructor; (eexists _, _; split_and!; [reflexivity|reflexivity|done]).
  - reflexivity.
  - destruct H as [H Hr]; [|split; [apply H; by left|exact Hr]].
    left. left. eexists _, _. split_and!; reflexivity.
Defined.
