(* ===== verification/EqComp.v ===== *)
(** * What the equalizers share

    [src/audio/eq_fir/eq_fir.c] and [src/audio/eq_iir/eq_iir.c] are written alike: a
    filter for each channel, a blob that assigns responses to the channels, one
    block of memory for all delay lines, and the operations of a component around
    them. The functions that are the same up to the kind of filter are here, with the
    kind as a parameter. *)

From stdpp Require Import base list numbers option gmap.
From S2P Require Import Prelude StateM AudioStream StreamCopy Heap HeapMap HeapSpec HeapFree HeapZones Allocator.
From S2P Require Import Buffer Numbers DataBlob CompState Pipeline PipelineOps Format SampleLoop.
From S2P Require Import Topology Driver.

Abbreviation SOF_CTRL_CMD_BINARY := 3 (only parsing).
Abbreviation COMP_CMD_SET_DATA := 102 (only parsing).
Abbreviation COMP_CMD_GET_DATA := 103 (only parsing).

(** A kind of filter: its state [T], what the equalizer does with it, and the blob at
    an address of the memory. *)
Record eq_kind (T : Type) := mk_kind {
  (** bypass the channel *)
  k_reset : T -> T;
  (** take the coefficients of a response *)
  k_init_coef : mem -> T -> Z -> T;
  (** the bytes of the delay line of a response, or an error *)
  k_delay_size : mem -> Z -> Z;
  (** the filter is not bypassed *)
  k_enabled : T -> bool;
  (** take a delay line; the start of the next one *)
  k_init_delay : T -> Z -> T * Z;
  k_no_delay : T -> T;
  (** a limit of the build is exceeded, by the filter and a number of channels *)
  k_exceeds : T -> Z -> bool;
  (** the fields of a blob, and the addresses of its responses *)
  k_max_responses : Z;
  k_channels : mem -> Z -> Z;
  k_responses : mem -> Z -> Z;
  k_assign : mem -> Z -> nat -> Z;
  k_lookup : mem -> Z -> list Z
}.
Arguments mk_kind {_}.
Arguments k_reset {_}.
Arguments k_init_coef {_}.
Arguments k_delay_size {_}.
Arguments k_enabled {_}.
Arguments k_init_delay {_}.
Arguments k_no_delay {_}.
Arguments k_exceeds {_}.
Arguments k_max_responses {_}.
Arguments k_channels {_}.
Arguments k_responses {_}.
Arguments k_assign {_}.
Arguments k_lookup {_}.

(** ** Coefficients and delay lines *)

Section filters.
(** [PLATFORM_MAX_CHANNELS] is the size of the arrays of channels. *)
Context {T : Type} (K : eq_kind T) (PLATFORM_MAX_CHANNELS : nat).

(** The channels from [i] on, [n] of them, of [nch]; the filters and the size of the
    delay lines or an error. *)
Fixpoint init_channels (n i : nat) (m : mem) (config : Z) (fs : list T) (nch resp size_sum : Z) : option (list T * Z) :=
  match n with
  | O => Some (fs, i32 size_sum)
  | S n =>
      let resp := if Z.of_nat i <? k_channels K m config then k_assign K m config i else resp in
      f ← fs !! i;
      if resp <? 0 then init_channels n (S i) m config (<[i := k_reset K f]> fs) nch resp size_sum else
      if resp >=? k_responses K m config then Some (fs, - EINVAL) else
      eq ← k_lookup K m config !! Z.to_nat resp;
      let s := k_delay_size K m eq in
      if negb (s >? 0) then Some (fs, - EINVAL) else
      if k_exceeds K f nch then Some (fs, - EINVAL) else
      init_channels n (S i) m config (<[i := k_init_coef K m f eq]> fs) nch resp (u32 (size_sum + s))
  end.

Definition eq_init_coef (m : mem) (config : Z) (fs : list T) (nch : Z) : option (list T * Z) :=
  let channels := k_channels K m config in
  if (nch >? Z.of_nat PLATFORM_MAX_CHANNELS) || (channels >? Z.of_nat PLATFORM_MAX_CHANNELS) || (channels =? 0)
  then Some (fs, - EINVAL) else
  if k_responses K m config >? k_max_responses K then Some (fs, - EINVAL) else
  init_channels (Z.to_nat nch) 0 m config fs nch 0 0.

(** The filters from number [i] on, [n] of them. *)
Fixpoint init_delays (n i : nat) (fs : list T) (delay : Z) : option (list T) :=
  match n with
  | O => Some fs
  | S n =>
      f ← fs !! i;
      if k_enabled K f then
        let '(f, next) := k_init_delay K f delay in init_delays n (S i) (<[i := f]> fs) next
      else init_delays n (S i) fs delay
  end.

Definition eq_init_delay (fs : list T) (delay_start nch : Z) : option (list T) := init_delays (Z.to_nat nch) 0 fs delay_start.
End filters.

(** ** The private data *)

(** [struct comp_data]: its address and fields; [F] are the processing functions. *)
Record eq_data (T F : Type) := mk_eq {
  ed_self : Z;
  ed_filters : list T;
  ed_model_handler : comp_data_blob_handler;
  ed_config : Z;
  ed_delay : Z;
  ed_delay_size : Z;
  ed_func : F
}.
Arguments mk_eq {_ _}.
Arguments ed_self {_ _}.
Arguments ed_filters {_ _}.
Arguments ed_model_handler {_ _}.
Arguments ed_config {_ _}.
Arguments ed_delay {_ _}.
Arguments ed_delay_size {_ _}.
Arguments ed_func {_ _}.

Section data.
Context {T F : Type} (ed : eq_data T F).

Definition ed_set_filters (fs : list T) : eq_data T F :=
  mk_eq (ed_self ed) fs (ed_model_handler ed) (ed_config ed) (ed_delay ed) (ed_delay_size ed) (ed_func ed).
Definition ed_set_blob (h : comp_data_blob_handler) (config : Z) : eq_data T F :=
  mk_eq (ed_self ed) (ed_filters ed) h config (ed_delay ed) (ed_delay_size ed) (ed_func ed).
Definition ed_set_delay (delay size : Z) : eq_data T F :=
  mk_eq (ed_self ed) (ed_filters ed) (ed_model_handler ed) (ed_config ed) delay size (ed_func ed).
Definition ed_set_func (fn : F) : eq_data T F :=
  mk_eq (ed_self ed) (ed_filters ed) (ed_model_handler ed) (ed_config ed) (ed_delay ed) (ed_delay_size ed) fn.
End data.

Section component.
Context {A T F : Type} `{!Allocator A, !EqDecision F} (K : eq_kind T) (PLATFORM_MAX_CHANNELS : nat).
Context (sizeof_comp_dev sizeof_comp_data sizeof_blob : Z).
Notation equalizer := (eq_data T F).
Notation MX := (ST (world A * gmap Z (eq_data T F))).

(** ** Setting up the filters *)

(** These work on private data that the caller writes back. *)
Definition eq_free_delaylines (ed : equalizer) : M A equalizer :=
  free (ed_delay ed) ;;
  mret (ed_set_filters (ed_set_delay ed 0 0) (k_no_delay K <$> ed_filters ed)).

(** [alloc] is the allocation of the delay lines. *)
Definition eq_setup (alloc : Z -> M A Z) (ed : equalizer) (nch : Z) : M A (equalizer * Z) :=
  ed ← eq_free_delaylines ed;
  m ← gets w_mem;
  r ← lift (eq_init_coef K PLATFORM_MAX_CHANNELS m (ed_config ed) (ed_filters ed) nch);
  let '(fs, delay_size) := r in
  let ed := ed_set_filters ed fs in
  if delay_size <? 0 then mret (ed, delay_size) else
  if delay_size =? 0 then mret (ed, 0) else
  delay ← alloc delay_size;
  let ed := ed_set_delay ed delay (ed_delay_size ed) in
  if delay =? 0 then mret (ed, - ENOMEM) else
  modify (fun w => with_mem w (memset (w_mem w) delay 0 delay_size)) ;;
  let ed := ed_set_delay ed delay delay_size in
  fs ← lift (eq_init_delay K (ed_filters ed) delay nch);
  mret (ed_set_filters ed fs, 0).

(** ** Creation and destruction *)

Definition blob_handler_new : M A (option comp_data_blob_handler) := fun w =>
  r ← comp_data_blob_handler_new sizeof_blob (w_alloc w); Some (with_alloc w r.1, r.2).

Definition blob_handler_free (h : comp_data_blob_handler) : M A unit := fun w =>
  a ← comp_data_blob_handler_free (w_alloc w) h; Some (with_alloc w a, tt).

Definition init_data_blob (h : comp_data_blob_handler) (size init_data : Z) : M A (comp_data_blob_handler * Z) := fun w =>
  r ← comp_init_data_blob (w_alloc w) (w_mem w) h size init_data;
  let '(a, m, h, ret) := r in Some (with_mem (with_alloc w a) m, (h, ret)).

(** [max_size] is the largest blob, [zero] a filter in cleared memory, [null] no
    function and [ipc_data] the address of the payload of the message. The component is
    in the world when it is complete. *)
Definition eq_new (max_size : Z) (zero : T) (null : F) (ipc_data : Z) (_ : Z) (config : comp_ipc_config)
    (spec : ipc_config_specific) : MX Z :=
  bs ← lift (match spec with SpecProcess _ size _ => Some size | _ => None end);
  if bs >? max_size then mret 0 else
  dev ← in_world (zalloc sizeof_comp_dev);
  if dev =? 0 then mret 0 else
  cd ← in_world (zalloc sizeof_comp_data);
  if cd =? 0 then in_world (free dev) ;; mret 0 else
  h ← in_world blob_handler_new;
  match h with
  | None => in_world (free cd) ;; in_world (free dev) ;; mret 0
  | Some h =>
      r ← in_world (init_data_blob h bs ipc_data);
      let '(h, ret) := r in
      if ret <? 0 then in_world (blob_handler_free h) ;; in_world (free cd) ;; in_world (free dev) ;; mret 0 else
      set_drvdata dev (mk_eq cd (replicate PLATFORM_MAX_CHANNELS (k_reset K zero)) h 0 0 0 null) ;;
      in_world (modify (fun w => with_devs w (<[dev := set_state COMP_STATE_READY (comp_alloc config)]> (w_devs w)))) ;;
      mret dev
  end.

Definition eq_free (dev : Z) : MX unit :=
  ed ← get_drvdata dev;
  ed ← in_world (eq_free_delaylines ed);
  in_world (blob_handler_free (ed_model_handler ed)) ;;
  in_world (free (ed_self ed)) ;;
  in_world (free dev) ;;
  modify (fun s => (with_devs s.1 (delete dev (w_devs s.1)), delete dev s.2)).

(** ** Commands *)

(** [ctrl_cmd] is [cdata->cmd]; the second result is the size in the header of the
    reply. *)
Definition eq_cmd_get_data (dev ctrl_cmd : Z) (cdata : sof_ipc_ctrl_data) (max_size : Z) : MX (Z * Z) :=
  ed ← get_drvdata dev;
  if ctrl_cmd =? SOF_CTRL_CMD_BINARY then
    w ← gets fst;
    r ← lift (comp_data_blob_get_cmd (w_mem w) (ed_model_handler ed) cdata max_size);
    let '(m, h, ret) := r in
    in_world (modify (fun w => with_mem w m)) ;;
    set_drvdata dev (ed_set_blob ed h (ed_config ed)) ;;
    mret ret
  else mret (- EINVAL, cd_data_size cdata).

Definition eq_cmd_set_data (dev ctrl_cmd : Z) (cdata : sof_ipc_ctrl_data) : MX Z :=
  ed ← get_drvdata dev;
  if ctrl_cmd =? SOF_CTRL_CMD_BINARY then
    w ← gets fst;
    d ← in_world (get_dev dev);
    r ← lift (comp_data_blob_set_cmd (w_alloc w) (w_mem w) (ed_model_handler ed) (d_state d) cdata);
    let '(a, m, h, ret) := r in
    in_world (modify (fun w => with_mem (with_alloc w a) m)) ;;
    set_drvdata dev (ed_set_blob ed h (ed_config ed)) ;;
    mret ret
  else mret (- EINVAL).

Definition eq_cmd (dev cmd ctrl_cmd : Z) (cdata : sof_ipc_ctrl_data) (max_data_size : Z) : MX (Z * Z) :=
  if cmd =? COMP_CMD_SET_DATA then ret ← eq_cmd_set_data dev ctrl_cmd cdata; mret (ret, cd_data_size cdata)
  else if cmd =? COMP_CMD_GET_DATA then eq_cmd_get_data dev ctrl_cmd cdata max_data_size
  else mret (- EINVAL, cd_data_size cdata).

(** ** State *)

Definition eq_trigger (null : F) (dev cmd : Z) : MX Z :=
  ed ← get_drvdata dev;
  if ((cmd =? COMP_TRIGGER_START) || (cmd =? COMP_TRIGGER_RELEASE)) && bool_decide (ed_func ed = null)
  then fault
  else in_world (set_dev_state dev cmd).

(** The current blob: the handler, and its address. *)
Definition get_data_blob (ed : equalizer) : M A equalizer := fun w =>
  r ← comp_get_data_blob (w_alloc w) (w_mem w) (ed_model_handler ed);
  let '(a, h, (_, _, config)) := r in Some (with_alloc w a, ed_set_blob ed h config).

Definition eq_reset (null : F) (dev : Z) : MX Z :=
  ed ← get_drvdata dev;
  ed ← in_world (eq_free_delaylines ed);
  set_drvdata dev (ed_set_filters (ed_set_func ed null) (k_reset K <$> ed_filters ed)) ;;
  in_world (set_dev_state dev COMP_TRIGGER_RESET) ;;
  mret 0.

(** ** Copy *)

(** [run] is the call through the pointer to a processing function. Buffers of one
    core: the calls for the caches do nothing. *)
Definition eq_process (run : F -> mem -> list T -> audio_stream -> audio_stream -> Z -> Z -> option (mem * list T))
    (dev source sink frames source_bytes sink_bytes : Z) : MX unit :=
  ed ← get_drvdata dev;
  b ← in_world (get_buf source);
  k ← in_world (get_buf sink);
  m ← gets (fun s => w_mem s.1);
  r ← lift (run (ed_func ed) m (ed_filters ed) (b_stream b) (b_stream k) frames (s_channels (b_stream b)));
  in_world (modify (fun w => with_mem w r.1)) ;;
  set_drvdata dev (ed_set_filters ed r.2) ;;
  in_world (consume source source_bytes) ;;
  in_world (produce sink sink_bytes).

(** The new configuration, if there is one; an error or 0. *)
Definition check_config (alloc : Z -> M A Z) (dev nch : Z) : MX Z :=
  ed ← get_drvdata dev;
  if comp_is_new_data_blob_available (ed_model_handler ed) then
    ed ← in_world (get_data_blob ed);
    r ← in_world (eq_setup alloc ed nch);
    set_drvdata dev r.1 ;;
    mret r.2
  else mret 0.
End component.
