(* ===== verification/EqSetup.v ===== *)
(** * Setting up the filters of an equalizer

    [eq_fir_setup] and [eq_iir_setup]: which blobs they accept, the filters they make
    of them, and the memory of the delay lines, for every kind of filter. What a kind
    promises is a class. *)

From stdpp Require Import base list numbers option gmap.
From S2P Require Import Prelude StateM AudioStream StreamCopy Heap HeapMap HeapSpec HeapFree HeapZones Allocator.
From S2P Require Import Buffer Numbers DataBlob CompState Pipeline PipelineOps PipelineWalk PipelineThms PipelineLife.
From S2P Require Import Format SampleLoop Topology TopologyInv Driver EqComp.

(** Every filter knows the bytes of its delay line, at most 1024. *)
Class EqKind {T : Type} (K : eq_kind T) := {
  kb_bytes : T -> Z;
  kb_reset f : kb_bytes (k_reset K f) = 0;
  kb_init m f eq : 0 < k_delay_size K m eq -> kb_bytes (k_init_coef K m f eq) = k_delay_size K m eq;
  kb_size m eq : k_delay_size K m eq <= 1024;
  kb_enabled f : k_enabled K f = (kb_bytes f >? 0);
  kb_next f p : (k_init_delay K f p).2 = p + kb_bytes f;
  kb_lookup m config : Z.of_nat (length (k_lookup K m config)) = k_max_responses K;
  kb_channels m config : 0 <= k_channels K m config
}.

(** ** The responses of the channels *)

Section blob.
Context {T : Type} (K : eq_kind T) `{!EqKind K} (PLATFORM_MAX_CHANNELS : nat) (m : mem) (config : Z).
Implicit Types (f : T) (fs : list T).

(** The response of channel [i]: channels behind the last assignment repeat it. *)
Definition response (i : nat) : Z := k_assign K m config (Nat.min i (Z.to_nat (k_channels K m config) - 1)).

(** The coefficients of a response. *)
Definition response_at (resp : Z) : Z := default 0 (k_lookup K m config !! Z.to_nat resp).

(** Channel [i], which had the filter [f], is accepted. *)
Definition channel_valid (nch : Z) f (i : nat) : bool :=
  let resp := response i in
  (resp <? 0) || (resp <? k_responses K m config) && (0 <? k_delay_size K m (response_at resp)) && negb (k_exceeds K f nch).

(** Its new filter, still without delay line. *)
Definition configured f (i : nat) : T :=
  if response i <? 0 then k_reset K f else k_init_coef K m f (response_at (response i)).

(** The bytes of the delay lines of [n] filters from number [i] on. *)
Fixpoint lines fs (i n : nat) : Z :=
  match n with O => 0 | S n => from_option kb_bytes 0 (fs !! i) + lines fs (S i) n end.

Lemma response_lookup resp :
  0 <= resp < k_responses K m config -> k_responses K m config <= k_max_responses K ->
  k_lookup K m config !! Z.to_nat resp = Some (response_at resp).
Proof.
  intros H1 H2. pose proof (kb_lookup m config). unfold response_at.
  destruct (lookup_lt_is_Some_2 (k_lookup K m config) (Z.to_nat resp)) as [e ->]; [lia|done].
Qed.

Lemma lines_ext fs fs' i n : (forall j, (i <= j < i + n)%nat -> fs' !! j = fs !! j) -> lines fs' i n = lines fs i n.
Proof.
  revert i. induction n as [|n IH]; intros i H; [done|]. simpl. rewrite H by lia. f_equal. apply IH. intros j Hj. apply H. lia.
Qed.

Lemma lines_S_end fs i n : lines fs i (S n) = lines fs i n + from_option kb_bytes 0 (fs !! (i + n)%nat).
Proof.
  revert i. induction n as [|n IH]; intros i; [simpl; rewrite Nat.add_0_r; lia|]. simpl in *. rewrite IH.
  replace (S i + n)%nat with (i + S n)%nat by lia. lia.
Qed.

(** The response that the loop finds. *)
Lemma loop_response i resp :
  1 <= k_channels K m config -> (i = 0%nat \/ resp = response (i - 1)) ->
  (if Z.of_nat i <? k_channels K m config then k_assign K m config i else resp) = response i.
Proof.
  intros Hc Hr. unfold response in *. case_if; [f_equal; lia|]. destruct Hr as [->|Hr]; [lia|]. rewrite Hr. f_equal. lia.
Qed.

(** The filters from number [i] on are valid. *)
Definition channels_valid (nch : Z) fs (i n : nat) : bool :=
  forallb (fun j => from_option (fun f => channel_valid nch f j) false (fs !! j)) (seq i n).

Lemma channels_valid_insert nch fs i n f : channels_valid nch (<[i := f]> fs) (S i) n = channels_valid nch fs (S i) n.
Proof.
  unfold channels_valid. assert (forall l, Forall (fun j => i <> j) l ->
    forallb (fun j => from_option (fun f => channel_valid nch f j) false (<[i := f]> fs !! j)) l =
    forallb (fun j => from_option (fun f => channel_valid nch f j) false (fs !! j)) l) as H.
  { induction 1 as [|j l Hj Hl IH]; [done|]. simpl. by rewrite IH, list_lookup_insert_ne. }
  apply H, Forall_forall. intros j Hj%elem_of_seq. lia.
Qed.

(** What the loop returns: the filters and the size of the delay lines. *)
Definition channels_result fs (i n : nat) (size_sum : Z) (r : option (list T * Z)) : Prop :=
  exists fs', r = Some (fs', size_sum + lines fs' i n) /\ length fs' = length fs /\
    (forall j f, (i <= j < i + n)%nat -> fs !! j = Some f -> fs' !! j = Some (configured f j)) /\
    (forall j, (j < i \/ i + n <= j)%nat -> fs' !! j = fs !! j).

Lemma channels_result_cons fs i n size_sum f r :
  fs !! i = Some f -> channels_result (<[i := configured f i]> fs) (S i) n (size_sum + kb_bytes (configured f i)) r ->
  channels_result fs i (S n) size_sum r.
Proof.
  intros Hf (fs' & -> & Hl & H1 & H2). pose proof (lookup_lt_Some _ _ _ Hf). rewrite length_insert in Hl.
  assert (fs' !! i = Some (configured f i)) as Hi by (rewrite H2 by lia; by apply list_lookup_insert_eq).
  exists fs'. split_and!; [|done| |].
  - simpl. rewrite Hi. simpl. do 2 f_equal. lia.
  - intros j g Hj Hg. destruct (decide (j = i)) as [->|]; [by simplify_eq|]. apply H1; [lia|]. by rewrite list_lookup_insert_ne.
  - intros j Hj. rewrite H2 by lia. apply list_lookup_insert_ne. lia.
Qed.

(** The loop over the channels: it accepts the blob exactly if every channel is
    valid. *)
Lemma init_channels_ok n i fs nch resp size_sum :
  k_responses K m config <= k_max_responses K -> 1 <= k_channels K m config ->
  (i + n <= length fs)%nat -> (i = 0%nat \/ resp = response (i - 1)) -> 0 <= size_sum ->
  size_sum + 1024 * Z.of_nat n < 2 ^ 31 ->
  let r := init_channels K n i m config fs nch resp size_sum in
  if channels_valid nch fs i n then channels_result fs i n size_sum r
  else exists fs', r = Some (fs', - EINVAL) /\ length fs' = length fs.
Proof.
  intros Hnr Hc. revert i fs resp size_sum. induction n as [|n IH]; intros i fs resp size_sum Hl Hr H0 Hs.
  { simpl. exists fs. split_and!; try done; [|lia]. simpl. do 2 f_equal. rewrite i32_small; lia. }
  cbn [init_channels]. rewrite loop_response by done. destruct (lookup_lt_is_Some_2 fs i) as [f Hf]; [lia|]. rewrite Hf.
  cbn [mbind option_bind]. unfold channels_valid. cbn [seq forallb]. rewrite Hf. cbn [from_option].
  change (forallb _ (seq (S i) n)) with (channels_valid nch fs (S i) n). unfold channel_valid.
  assert (forall g size, g = configured f i -> size = size_sum + kb_bytes g -> size_sum <= size <= size_sum + 1024 ->
    let r := init_channels K n (S i) m config (<[i := g]> fs) nch (response i) size in
    if channels_valid nch fs (S i) n then channels_result fs i (S n) size_sum r
    else exists fs', r = Some (fs', - EINVAL) /\ length fs' = length fs) as Hgo.
  { intros g size Eg Es Hsz r. pose proof (IH (S i) (<[i := g]> fs) (response i) size) as H.
    rewrite channels_valid_insert, length_insert in H. fold r in H. rewrite Nat.sub_succ, Nat.sub_0_r in H.
    specialize (H ltac:(lia) ltac:(by right) ltac:(lia) ltac:(lia)). destruct (channels_valid _ _ _ _); [|done].
    apply (channels_result_cons fs i n size_sum f); [done|]. by rewrite <- Eg, <- Es. }
  destruct (Z.ltb_spec (response i) 0) as [Hneg|Hpos]; cbn [orb andb].
  { apply Hgo; [unfold configured; by rewrite (proj2 (Z.ltb_lt _ _) Hneg)|rewrite kb_reset; lia|lia]. }
  destruct (Z.ltb_spec (response i) (k_responses K m config)) as [Hlt|Hge]; cbn [orb andb].
  2:{ rewrite Z.geb_leb, (proj2 (Z.leb_le _ _) Hge). by exists fs. }
  rewrite Z.geb_leb, (proj2 (Z.leb_gt _ _) Hlt), response_lookup by (done || lia). cbn [mbind option_bind].
  set (eq := response_at (response i)). assert (configured f i = k_init_coef K m f eq) as Ec
    by (unfold configured; by rewrite (proj2 (Z.ltb_ge _ _) Hpos)).
  rewrite Z.gtb_ltb. destruct (Z.ltb_spec 0 (k_delay_size K m eq)) as [H1|H1]; cbn [negb andb]; [|by exists fs].
  pose proof (kb_size m eq). pose proof (kb_init m f eq H1).
  destruct (k_exceeds K f nch); simpl negb; cbn [andb]; [by exists fs|].
  rewrite u32_small by lia. apply Hgo; [done|lia|lia].
Qed.

(** The blob is accepted for a stream of [nch] channels. *)
Definition blob_valid (nch : Z) fs : bool :=
  (nch <=? Z.of_nat PLATFORM_MAX_CHANNELS) && (k_channels K m config <=? Z.of_nat PLATFORM_MAX_CHANNELS) &&
  (1 <=? k_channels K m config) && (k_responses K m config <=? k_max_responses K) && channels_valid nch fs 0 (Z.to_nat nch).

Lemma eq_init_coef_ok fs nch :
  length fs = PLATFORM_MAX_CHANNELS -> Z.of_nat PLATFORM_MAX_CHANNELS <= 2 ^ 16 -> 0 <= nch ->
  let r := eq_init_coef K PLATFORM_MAX_CHANNELS m config fs nch in
  if blob_valid nch fs then channels_result fs 0 (Z.to_nat nch) 0 r
  else exists fs', r = Some (fs', - EINVAL) /\ length fs' = length fs.
Proof.
  intros Hl Hmax H0. unfold eq_init_coef, blob_valid. pose proof (kb_channels m config) as Hch. set (ch := k_channels K m config) in *.
  destruct (Z.leb_spec nch (Z.of_nat PLATFORM_MAX_CHANNELS)); cbn [andb].
  2:{ replace (nch >? Z.of_nat PLATFORM_MAX_CHANNELS) with true by lia. by exists fs. }
  replace (nch >? Z.of_nat PLATFORM_MAX_CHANNELS) with false by lia. cbn [orb].
  destruct (Z.leb_spec ch (Z.of_nat PLATFORM_MAX_CHANNELS)); cbn [andb].
  2:{ replace (ch >? Z.of_nat PLATFORM_MAX_CHANNELS) with true by lia. by exists fs. }
  replace (ch >? Z.of_nat PLATFORM_MAX_CHANNELS) with false by lia. cbn [orb].
  destruct (Z.leb_spec 1 ch); cbn [andb].
  2:{ replace (ch =? 0) with true by lia. by exists fs. }
  replace (ch =? 0) with false by lia.
  destruct (Z.leb_spec (k_responses K m config) (k_max_responses K)) as [Hr|Hr]; cbn [andb].
  2:{ rewrite Z.gtb_ltb, (proj2 (Z.ltb_lt _ _) Hr). by exists fs. }
  rewrite Z.gtb_ltb, (proj2 (Z.ltb_ge _ _) Hr).
  apply init_channels_ok; [done|done|lia|by left|lia|lia].
Qed.
End blob.

(** ** Delay lines *)

Section delays.
Context {T : Type} (K : eq_kind T) `{!EqKind K}.
Implicit Types (f : T) (fs : list T).

(** A filter with its delay line at [p], if it has one. *)
Definition placed f (p : Z) : T := if k_enabled K f then (k_init_delay K f p).1 else f.

Lemma init_delays_ok n i fs start :
  (i + n <= length fs)%nat -> (forall j f, fs !! j = Some f -> (i <= j < i + n)%nat -> 0 <= kb_bytes f) ->
  exists fs', init_delays K n i fs start = Some fs' /\ length fs' = length fs /\
    (forall j f, (i <= j < i + n)%nat -> fs !! j = Some f -> fs' !! j = Some (placed f (start + lines K fs i (j - i)))) /\
    (forall j, (j < i \/ i + n <= j)%nat -> fs' !! j = fs !! j).
Proof.
  revert i fs start. induction n as [|n IH]; intros i fs start Hl H0; [exists fs; split_and!; done || lia|].
  cbn [init_delays]. destruct (lookup_lt_is_Some_2 fs i) as [f Hf]; [lia|]. rewrite Hf. cbn [mbind option_bind].
  pose proof (H0 i f Hf ltac:(lia)) as Hlen. set (g := placed f start). set (next := start + kb_bytes f).
  set (r := if k_enabled K f then _ else _). assert (r = init_delays K n (S i) (<[i := g]> fs) next) as ->.
  { unfold r, g, placed, next. rewrite (surjective_pairing (k_init_delay K f start)), kb_next, kb_enabled. case_if; [done|].
    rewrite list_insert_id by done. f_equal. lia. }
  destruct (IH (S i) (<[i := g]> fs) next) as (fs' & E & Hl' & H1 & H2); [rewrite length_insert; lia| |].
  { intros j f' Hj Hin. rewrite list_lookup_insert_ne in Hj by lia. apply (H0 j); [done|lia]. }
  rewrite length_insert in Hl'. exists fs'. split_and!; [done|done| |intros j Hj; rewrite H2, list_lookup_insert_ne by lia; done].
  intros j f' Hj Hf'. destruct (decide (j = i)) as [->|Hne].
  - simplify_eq. rewrite H2, list_lookup_insert_eq, Nat.sub_diag by lia. simpl. by rewrite Z.add_0_r.
  - rewrite (H1 j f') by (lia || by rewrite list_lookup_insert_ne by lia). do 2 f_equal.
    replace (j - i)%nat with (S (j - S i)) by lia. simpl. rewrite Hf. simpl. unfold next.
    rewrite (lines_ext K fs) by (intros k Hk; apply list_lookup_insert_ne; lia). by rewrite Z.add_assoc.
Qed.
End delays.

Section configured.
#[local] Set Default Proof Using "All".
Context {T : Type} (K : eq_kind T) `{!EqKind K} (PLATFORM_MAX_CHANNELS : nat).
Context (m : mem) (config : Z) (nch : nat) (fs fs1 : list T).
Hypothesis Hvalid : blob_valid K PLATFORM_MAX_CHANNELS m config (Z.of_nat nch) fs = true.
Hypothesis Hlen : (nch <= length fs)%nat.
Hypothesis Hconf : forall j f, (j < nch)%nat -> fs !! j = Some f -> fs1 !! j = Some (configured K m config f j).

Lemma valid_at j f : (j < nch)%nat -> fs !! j = Some f -> channel_valid K m config (Z.of_nat nch) f j = true.
Proof.
  intros Hj Hf. unfold blob_valid in Hvalid. apply andb_true_iff in Hvalid as [_ Hv]. unfold channels_valid in Hv.
  rewrite Nat2Z.id in Hv. rewrite forallb_forall in Hv. specialize (Hv j). rewrite Hf in Hv. apply Hv.
  apply in_seq. lia.
Qed.

(** The filters with their responses. *)
Lemma configured_ok j : (j < nch)%nat ->
  exists f, fs !! j = Some f /\ fs1 !! j = Some (configured K m config f j) /\ 0 <= kb_bytes (configured K m config f j) <= 1024 /\
    (response K m config j < 0 /\ configured K m config f j = k_reset K f \/
     let eq := response_at K m config (response K m config j) in
     0 <= response K m config j < k_responses K m config /\ 0 < k_delay_size K m eq /\ configured K m config f j = k_init_coef K m f eq).
Proof.
  intros Hj. destruct (lookup_lt_is_Some_2 fs j) as [f Hf]; [lia|]. exists f. pose proof (valid_at j f Hj Hf) as Hv.
  split_and!; [done|by apply Hconf|..]; unfold channel_valid in Hv; unfold configured;
    (destruct (Z.ltb_spec (response K m config j) 0) as [Hneg|Hge]; [|cbn [orb] in Hv; zbool; set (eq := response_at _ _ _ _) in *;
       pose proof (kb_init m f eq); pose proof (kb_size m eq)]).
  1,3: rewrite kb_reset; lia.
  1,2: lia.
  - by left.
  - right. split_and!; lia || done.
Qed.

Lemma lines_le j j' f1 : (j < j' <= nch)%nat -> fs1 !! j = Some f1 -> lines K fs1 0 j + kb_bytes f1 <= lines K fs1 0 j'.
Proof.
  intros [Hj Hj'] Hf. induction j' as [|j' IH]; [lia|]. rewrite lines_S_end. simpl.
  destruct (configured_ok j') as (f & _ & Hf' & H0 & _); [lia|]. rewrite Hf'. simpl.
  destruct (decide (j = j')) as [->|]; [simplify_eq; lia|]. specialize (IH ltac:(lia) ltac:(lia)). lia.
Qed.

Lemma lines_bound j : (j <= nch)%nat -> 0 <= lines K fs1 0 j <= 1024 * Z.of_nat j.
Proof.
  induction j as [|j IH]; intros Hj; [simpl; lia|]. rewrite lines_S_end. simpl.
  destruct (configured_ok j) as (f & _ & Hf' & H0 & _); [lia|]. rewrite Hf'. simpl. lia.
Qed.

(** The parts of different channels do not overlap. *)
Lemma lines_apart j j' f f' a b :
  (j < nch)%nat -> (j' < nch)%nat -> fs1 !! j = Some f -> fs1 !! j' = Some f' ->
  a + lines K fs1 0 j <= b < a + lines K fs1 0 j + kb_bytes f -> a + lines K fs1 0 j' <= b < a + lines K fs1 0 j' + kb_bytes f' -> j = j'.
Proof.
  intros Hj Hj' Hf Hf' Ha Ha'. destruct (Nat.lt_trichotomy j j') as [Hlt|[E|Hlt]]; [|done|].
  - pose proof (lines_le j j' f ltac:(lia) Hf). lia.
  - pose proof (lines_le j' j f' ltac:(lia) Hf'). lia.
Qed.
End configured.

(** ** The operation *)

Section setup.
Context {A T F : Type} `{!Allocator A} (K : eq_kind T) `{!EqKind K} (PLATFORM_MAX_CHANNELS : nat).
Hypothesis Hmax : Z.of_nat PLATFORM_MAX_CHANNELS <= 2 ^ 16.
Implicit Types w : world A.

(** What the setup needs of the allocation: no memory and nothing has changed, or a
    block whose contents may have changed. *)
Definition alloc_ok (alloc : Z -> M A Z) : Prop := forall w n,
  al_inv (w_alloc w) -> 0 < n < 2 ^ 30 ->
  exists a m p, alloc n w = Some (with_heap w a m, p) /\ al_inv a /\ (forall x, ~ p <= x < p + n -> m x = w_mem w x) /\
    ((p = 0 /\ al_live a = al_live (w_alloc w) /\ m = w_mem w) \/
     (p <> 0 /\ exists r, al_live a ≡ₚ r :: al_live (w_alloc w) /\ covers r p n /\ Forall (apart r) (al_live (w_alloc w)))).

(** The memory of others stays as it is. *)
Definition mem_kept (rest : list (Z * Z)) (m m' : mem) : Prop := forall r a, r ∈ rest -> inside r a -> m' a = m a.

(** A stream whose ring is in memory that others own. *)
Definition ring_owned (rest : list (Z * Z)) (s : audio_stream) : Prop :=
  forall a, in_ring s a -> exists r, r ∈ rest /\ inside r a.

(** The filters have the responses of the blob, and the delay lines, one behind the
    other, a cleared block of their own at [delay]. *)
Record filters_placed (m m' : mem) (config : Z) (nch : nat) (rest : list (Z * Z)) (fs fs1 fs2 : list T) (delay : Z) : Prop := {
  fp_start : 0 < delay;
  fp_conf j f : (j < nch)%nat -> fs !! j = Some f -> fs1 !! j = Some (configured K m config f j);
  fp_place j f : (j < nch)%nat -> fs1 !! j = Some f -> fs2 !! j = Some (placed K f (delay + lines K fs1 0 j));
  fp_zero a : delay <= a < delay + lines K fs1 0 nch -> m' a = 0;
  fp_same a : ~ delay <= a < delay + lines K fs1 0 nch -> m' a = m a;
  fp_rest r a : r ∈ rest -> delay <= a < delay + lines K fs1 0 nch -> ~ inside r a
}.

(** The result of a setup: private data, return value and memory. *)
Record setup_result (m : mem) (ed : eq_data T F) (nch : nat) (rest : list (Z * Z)) (a : A) (m' : mem) (ed' : eq_data T F) (ret : Z) : Prop := {
  sr_inv : al_inv a;
  sr_ed : ed_set_delay (ed_set_filters ed' (ed_filters ed)) (ed_delay ed) (ed_delay_size ed) = ed;
  sr_length : length (ed_filters ed') = length (ed_filters ed);
  sr_mem : mem_kept rest m m';
  sr_live : exists ol, al_live a ≡ₚ ol ++ rest /\ opt_range (ed_delay ed') (ed_delay_size ed') ol;
  sr_ret :
    let fs := k_no_delay K <$> ed_filters ed in
    if blob_valid K PLATFORM_MAX_CHANNELS m (ed_config ed) (Z.of_nat nch) fs then
      (ret = - ENOMEM /\ ed_delay ed' = 0) \/
      (ret = 0 /\ exists fs1 delay, filters_placed m m' (ed_config ed) nch rest fs fs1 (ed_filters ed') delay)
    else ret = - EINVAL /\ ed_delay ed' = 0
}.

(** An accepted blob: the filters and the size of the delay lines. *)
Lemma setup_valid alloc w (ed : eq_data T F) nch rest fs1 :
  let fs := k_no_delay K <$> ed_filters ed in let total := lines K fs1 0 nch in
  alloc_ok alloc -> al_inv (w_alloc w) -> al_live (w_alloc w) ≡ₚ rest -> length (ed_filters ed) = PLATFORM_MAX_CHANNELS ->
  blob_valid K PLATFORM_MAX_CHANNELS (w_mem w) (ed_config ed) (Z.of_nat nch) fs = true ->
  length fs1 = length fs -> (nch <= length fs)%nat ->
  (forall j f, (j < nch)%nat -> fs !! j = Some f -> fs1 !! j = Some (configured K (w_mem w) (ed_config ed) f j)) ->
  let ed1 := ed_set_filters (ed_set_delay ed 0 0) fs1 in
  0 <= total < 2 ^ 30 /\
  (total = 0 -> setup_result (w_mem w) ed nch rest (w_alloc w) (w_mem w) ed1 0) /\
  (0 < total -> exists a m1 delay, alloc total w = Some (with_heap w a m1, delay) /\
     if delay =? 0 then m1 = w_mem w /\ setup_result (w_mem w) ed nch rest a (w_mem w) (ed_set_delay ed1 0 0) (- ENOMEM)
     else exists fs2, eq_init_delay K fs1 delay (Z.of_nat nch) = Some fs2 /\
       setup_result (w_mem w) ed nch rest a (memset m1 delay 0 total) (ed_set_filters (ed_set_delay ed1 delay total) fs2) 0).
Proof using Hmax.
  intros fs total Hal Ha Hl Hlen Hv Hl1 Hn H1 ed1.
  pose proof (lines_bound K _ _ _ _ _ _ Hv Hn H1 nch ltac:(lia)) as Hb. fold total in Hb.
  assert (Z.of_nat nch <= 2 ^ 16) by (unfold fs in Hn; rewrite length_fmap in Hn; lia).
  assert (length fs = length (ed_filters ed)) as Hfl by apply length_fmap.
  assert (forall j f, fs1 !! j = Some f -> (j < nch)%nat -> 0 <= kb_bytes f) as Hpos.
  { intros j f Hf Hj. destruct (configured_ok K _ _ _ _ _ _ Hv Hn H1 j Hj) as (f0 & _ & Hf1 & ? & _). simplify_eq. lia. }
  split_and!; [lia|lia| |].
  - intros E0. constructor; simpl; try done; [by destruct ed|lia|by exists []; split; [|left]|]. fold fs. rewrite Hv. right. split; [done|].
    exists fs1, 1. constructor; try done; fold total; try lia.
    intros j f Hj Hf. rewrite Hf. f_equal. unfold placed. rewrite kb_enabled. replace (kb_bytes f >? 0) with false; [done|].
    pose proof (lines_le K _ _ _ _ _ _ Hv Hn H1 j nch f ltac:(lia) Hf) as Hle.
    pose proof (lines_bound K _ _ _ _ _ _ Hv Hn H1 j ltac:(lia)). fold total in Hle. lia.
  - intros Ht. destruct (Hal w total Ha ltac:(lia)) as (a & m1 & delay & E & Ha' & Hm1 & Hres). exists a, m1, delay. split; [done|].
    destruct Hres as [(-> & Hl' & ->)|(Hd & r & Hl' & [Hc1 Hc2] & Hap)].
    { simpl. split; [done|]. constructor; simpl; try done; [by destruct ed|lia| |fold fs; rewrite Hv; by left].
      exists []. split; [by rewrite Hl'|by left]. }
    rewrite (proj2 (Z.eqb_neq delay 0)) by done. rewrite Hl in Hl'. setoid_rewrite Hl in Hap.
    destruct (al_live_bounds a r Ha') as (Hr1 & _); [rewrite Hl'; by left|]. rewrite Forall_forall in Hap.
    assert (forall r' x, r' ∈ rest -> delay <= x < delay + total -> ~ inside r' x) as Hap1.
    { intros r' x Hr' Hx. specialize (Hap r' Hr'). unfold apart, before, inside in *. lia. }
    destruct (init_delays_ok K nch 0 fs1 delay) as (fs2 & E2 & Hl2 & H2 & _); [lia|intros j f Hf Hj; apply (Hpos j f Hf); lia|].
    exists fs2. unfold eq_init_delay. rewrite Nat2Z.id. split; [done|]. constructor; simpl; try done; [by destruct ed|lia| | |].
    + intros r' x Hr' Hx. assert (~ delay <= x < delay + total) as Hout by (intros Hin; by apply (Hap1 r' x)).
      rewrite memset_out by lia. by apply Hm1.
    + exists [r]. split; [done|]. right. split; [done|]. exists r. split_and!; [done|done|lia|lia].
    + fold fs. rewrite Hv. right. split; [done|]. exists fs1, delay. constructor; try done; fold total; [lia| | |].
      * intros j f Hj Hf. rewrite (H2 j f) by (done || lia). by rewrite Nat.sub_0_r.
      * intros x Hx. by apply memset_in.
      * intros x Hx. rewrite memset_out by lia. by apply Hm1.
Qed.

Lemma eq_setup_ok alloc w (ed : eq_data T F) nch ol rest :
  alloc_ok alloc -> al_inv (w_alloc w) -> al_live (w_alloc w) ≡ₚ ol ++ rest -> opt_range (ed_delay ed) (ed_delay_size ed) ol ->
  length (ed_filters ed) = PLATFORM_MAX_CHANNELS ->
  wp (eq_setup K PLATFORM_MAX_CHANNELS alloc ed (Z.of_nat nch)) w (fun w' r =>
    exists a m', w' = with_heap w a m' /\ setup_result (w_mem w) ed nch rest a m' r.1 r.2).
Proof using Hmax.
  intros Hal Ha Hl Ho Hlen. destruct (free_opt _ _ _ _ _ Ha Hl Ho) as (a1 & Ef & Ha1 & Hl1).
  unfold eq_setup, eq_free_delaylines. do 2 drv_step. eexists (with_alloc w a1), tt. split; [unfold free; by rewrite Ef|].
  do 3 drv_step. cbn [ed_config ed_filters ed_set_filters ed_set_delay w_mem with_alloc]. set (fs := k_no_delay K <$> ed_filters ed). drv_step.
  assert (length fs = PLATFORM_MAX_CHANNELS) as Hfl by (unfold fs; by rewrite length_fmap).
  pose proof (eq_init_coef_ok K PLATFORM_MAX_CHANNELS (w_mem w) (ed_config ed) fs (Z.of_nat nch) Hfl Hmax ltac:(lia)) as Hi.
  rewrite Nat2Z.id in Hi. destruct (blob_valid _ _ _ _ _ _) eqn:Hv.
  2:{ destruct Hi as (fs' & Ei & Hl'). drv_step. simpl. drv_step. exists a1, (w_mem w). split; [by destruct w|].
      constructor; simpl; try done; [by destruct ed|by rewrite Hl', Hfl|by exists []; split; [|left]|]. fold fs. by rewrite Hv. }
  destruct Hi as (fs1 & Ei & Hl1' & H1 & _). rewrite Z.add_0_l in Ei. drv_step.
  assert (nch <= length fs)%nat as Hn by (rewrite Hfl; unfold blob_valid in Hv; zbool; lia).
  destruct (setup_valid alloc (with_alloc w a1) ed nch rest fs1) as (Ht & Hz & Hnz); try done.
  { intros j f Hj. apply H1. lia. }
  replace (lines K fs1 0 nch <? 0) with false by lia. destruct (Z.eqb_spec (lines K fs1 0 nch) 0) as [E0|E0].
  { drv_step. exists a1, (w_mem w). split; [by destruct w|]. by apply Hz. }
  destruct Hnz as (a & m1 & delay & Eb & Hres); [lia|]. drv_step. eexists _, _. split; [exact Eb|]. cbv zeta.
  destruct (delay =? 0) eqn:Ed.
  { apply Z.eqb_eq in Ed as ->. destruct Hres as [-> Hres]. drv_step. exists a, (w_mem w). split; [by destruct w|]. exact Hres. }
  destruct Hres as (fs2 & E2 & Hres). do 3 drv_step. cbn [ed_filters ed_set_filters ed_set_delay] in E2 |- *. drv_step. drv_step.
  exists a, (memset m1 delay 0 (lines K fs1 0 nch)). split; [by destruct w|]. exact Hres.
Qed.
End setup.

(** The allocation of cleared memory. *)
Lemma zalloc_alloc_ok {A : Type} `{!Allocator A} : alloc_ok (zalloc (A := A)).
Proof.
  intros w n Ha Hn. destruct (al_malloc_spec (w_alloc w) 0 SOF_MEM_CAPS_RAM n Ha) as (a & p & E & Ha' & Hp); [repeat split; lia|].
  unfold zalloc. rewrite E. cbn [mbind option_bind fst snd]. destruct Hp as [[-> Hl]|(Hp & r & Hl & Hc & Hap)].
  - exists a, (w_mem w), 0. simpl. split_and!; [by destruct w|done|done|by left].
  - exists a, (memset (w_mem w) p 0 n), p. rewrite (proj2 (Z.eqb_neq p 0)) by done. split_and!; [done|done| |right; eauto].
    intros x Hx. apply memset_out. lia.
Qed.
