(* ===== verification/EqPeriod.v ===== *)
(** * The processing functions of equalizers on queues of samples

    [eq_fir_process] and [eq_iir_process], for processing functions that pass every
    channel through its filter, and the conversions of samples around the filters. *)

From stdpp Require Import base list numbers option gmap.
From S2P Require Import Prelude StateM AudioStream StreamCopy Heap HeapMap HeapSpec HeapFree HeapZones Allocator.
From S2P Require Import Buffer Numbers DataBlob CompState Pipeline PipelineOps PipelineWalk PipelineThms PipelineLife.
From S2P Require Import Format SampleLoop PcmConvert PcmThms ChannelLoop Topology TopologyInv Driver SampleQueue.
From S2P Require Import ChannelCopy EqComp.

(** ** Samples before and behind a filter of 32 bits *)

Definition to_s32 (fmt : pcm_fmt) (x : Z) : Z :=
  match fmt with FMT_S16 => i32 (Z.shiftl (i16 x) 16) | FMT_S24 => i32 (Z.shiftl (i32 x) 8) | _ => i32 x end.

Definition of_s32 (fmt : pcm_fmt) (z : Z) : Z :=
  match fmt with FMT_S16 => sat_int16 (Q_SHIFT_RND z 31 15) | FMT_S24 => sat_int24 (Q_SHIFT_RND z 31 23) | _ => z end.

Lemma to_s32_spec fmt x : fmt <> FMT_FLOAT -> to_s32 fmt x = sample_spec fmt FMT_S32 x.
Proof.
  destruct fmt; simpl; intros Hf; [| | |done].
  - apply i32_small. pose proof (i16_range x). unfold is_s16 in *. rewrite Z.shiftl_mul_pow2 by lia. lia.
  - apply sign_extend_shiftl.
  - by rewrite Z.shiftl_0_r.
Qed.

Lemma to_s32_range fmt x : is_s32 (to_s32 fmt x).
Proof. destruct fmt; apply i32_range. Qed.

Lemma of_s32_spec fmt z : fmt <> FMT_FLOAT -> is_s32 z -> of_s32 fmt z = sample_spec FMT_S32 fmt z.
Proof.
  unfold is_s32. destruct fmt; simpl; intros Hf Hz; [..|done]; rewrite i32_small by done.
  - rewrite sat_int16_clamp, Q_SHIFT_RND_nearest by lia. done.
  - rewrite sat_int24_clamp, Q_SHIFT_RND_nearest by lia. done.
  - by rewrite Z.shiftl_0_r.
Qed.

(** The inputs of channel [j] in a period of [n] frames, as 32-bit samples. *)
Definition channel_in (fmt : pcm_fmt) (nch : nat) (m : mem) (s : audio_stream) (n j : nat) : list Z :=
  (fun i => sample_spec fmt FMT_S32 (sample fmt m s (i * nch + j))) <$> seq 0 n.

(** An output depends on the inputs up to it. *)
Lemma channel_in_take fmt nch m s j t n : (t <= n)%nat -> take t (channel_in fmt nch m s n j) = channel_in fmt nch m s t j.
Proof. intros Ht. unfold channel_in. rewrite <- fmap_take. f_equal. rewrite take_seq. f_equal. lia. Qed.

Lemma channel_in_S fmt nch m s j t :
  channel_in fmt nch m s (S t) j = channel_in fmt nch m s t j ++ [sample_spec fmt FMT_S32 (sample fmt m s (t * nch + j))].
Proof. unfold channel_in. by rewrite seq_S, fmap_app. Qed.

Lemma channel_in_lookup fmt nch m s j t n :
  (t < n)%nat -> channel_in fmt nch m s n j !! t = Some (sample_spec fmt FMT_S32 (sample fmt m s (t * nch + j))).
Proof. intros Ht. unfold channel_in. by rewrite list_lookup_fmap, lookup_seq_lt. Qed.

Lemma chan_in_sample fmt nch m s j i :
  fmt <> FMT_FLOAT ->
  to_s32 fmt (chan_in (fmt_width fmt) nch s (s_r_ptr s) m j i) = sample_spec fmt FMT_S32 (sample fmt m s (i * nch + j)).
Proof. intros Hf. rewrite to_s32_spec by done. unfold chan_in, src_at, sample. by rewrite Nat2Z.inj_add, Nat2Z.inj_mul. Qed.

(** The states of the channels count, not the function that names them. *)
Lemma channels_ok_states {T H : Type} (step : mem -> T -> Z -> option (mem * T * Z)) `{!ChannelFilter step H} nch source sink m ts hs hs' :
  channels_ok step nch source sink m ts hs -> (forall j, (j < nch)%nat -> hs' j = hs j) -> channels_ok step nch source sink m ts hs'.
Proof. intros [H1 H2 H3 H4] E. constructor; try done. intros j Hj. destruct (H1 j Hj) as (t & ? & ?). exists t. by rewrite E. Qed.

(** ** The process operation *)

Section process.
Context {A T F H : Type} `{!Allocator A} (fs fk : pcm_fmt) (nch : nat).
Context (step : mem -> T -> Z -> option (mem * T * Z)) `{!ChannelFilter step H}.
Hypothesis Hch : 0 < Z.of_nat nch < 2 ^ 16.
Implicit Types (w : world A) (x : gmap Z (eq_data T F)).
Notation ws := (fmt_width fs).
Notation wk := (fmt_width fk).
Notation progress_of source sink := (progress step ws wk nch source sink (s_r_ptr source) (s_w_ptr sink)).
Notation frame_sample_of source := (frame_sample step ws nch source (s_r_ptr source)).

(** The source loses [n] frames, the sink gains them filtered, the filters go on. *)
Record frames_moved (m : mem) (ts : list T) (hs : nat -> H) (b k : comp_buffer) (n : nat) (m' : mem) (ts' : list T) (b' k' : comp_buffer) : Prop := {
  fm_progress : progress_of (b_stream b) (b_stream k) m ts hs (fun _ => n) ts' m';
  fm_io : frames_io fs fk nch (b_stream b') (b_stream k');
  fm_channels : channels_ok step nch (b_stream b') (b_stream k') m' ts' (fun j => chan_state step ws nch (b_stream b) (s_r_ptr (b_stream b)) m hs j n);
  fm_source m1 : samples fs m1 (b_stream b') = drop (n * nch) (samples fs m1 (b_stream b));
  fm_sink : samples fk m' (b_stream k') =
    samples fk m (b_stream k) ++ ((fun i => pattern fk (frame_sample_of (b_stream b) m hs i)) <$> seq 0 (n * nch));
  fm_mem a : ~ in_ring (b_stream k) a -> ~ owned step nch ts a -> m' a = m a
}.

(** The commits behind a run of the filters over [n] frames. *)
Lemma commit_moved {D : Type} w (x : gmap Z D) m ts hs sa ka b k n m' ts' :
  w_bufs w !! sa = Some b -> w_bufs w !! ka = Some k -> sa <> ka -> w_mem w = m' ->
  frames_io fs fk nch (b_stream b) (b_stream k) -> channels_ok step nch (b_stream b) (b_stream k) m ts hs ->
  Z.of_nat ws * Z.of_nat (n * nch) <= s_avail (b_stream b) -> Z.of_nat wk * Z.of_nat (n * nch) <= s_free (b_stream k) ->
  progress_of (b_stream b) (b_stream k) m ts hs (fun _ => n) ts' m' ->
  stored wk (b_stream k) (s_w_ptr (b_stream k)) (frame_sample_of (b_stream b) m hs) (sink_base (b_stream k) m m') m' (n * nch) ->
  (forall a, ~ in_ring (b_stream k) a -> ~ owned step nch ts a -> m' a = m a) ->
  wp (in_world (consume sa (Z.of_nat ws * Z.of_nat (n * nch))) ;; in_world (produce ka (Z.of_nat wk * Z.of_nat (n * nch)))) (w, x)
    (fun s _ => exists tr b' k', s = (io_world w sa ka b' k' m' tr, x) /\ frames_moved m ts hs b k n m' ts' b' k').
Proof using Hch.
  intros Hb Hk Hne Em I C Hav Hfree P St Hm. pose proof (io_source _ _ _ _ _ I) as Ks. pose proof (io_sink _ _ _ _ _ I) as Kk.
  do 2 drv_step. eapply wp_mono; [by apply (consume_ok fs (Z.of_nat nch) _ sa b)|]. intros w1 _ (tr1 & b' & (-> & Kb' & Hb') & ->). drv_step.
  eapply wp_mono.
  { eapply (produce_ok fk (Z.of_nat nch) _ ka k); [|done|done|]; simpl; [by rewrite lookup_insert_ne|rewrite Em; exact St]. }
  intros w2 _ (tr2 & Kk' & Hk' & ->). eexists tr2, _, _. split; [unfold io_world; by subst m'; destruct w|]. constructor; try done.
  - by apply frames_io_after.
  - by eapply channels_after.
  - simpl in Hk'. rewrite Em in Hk'. etrans; [exact Hk'|]. f_equal. by eapply sink_base_samples.
Qed.

Lemma eq_process_ok run w x dev d (ed : eq_data T F) sa ka b k hs n :
  (forall m ts s s' frames ch, 0 <= i32 (frames * ch) -> run (ed_func ed) m ts s s' frames ch = stream_run step ws wk m ts s s' frames ch) ->
  io_graph w x dev d ed sa ka b k ->
  frames_io fs fk nch (b_stream b) (b_stream k) -> channels_ok step nch (b_stream b) (b_stream k) (w_mem w) (ed_filters ed) hs ->
  Z.of_nat ws * Z.of_nat (n * nch) <= s_avail (b_stream b) -> Z.of_nat wk * Z.of_nat (n * nch) <= s_free (b_stream k) ->
  wp (eq_process run dev sa ka (Z.of_nat n) (Z.of_nat ws * Z.of_nat (n * nch)) (Z.of_nat wk * Z.of_nat (n * nch))) (w, x)
    (fun s _ => exists m' tr ts' b' k', s = (io_world w sa ka b' k' m' tr, <[dev := ed_set_filters ed ts']> x) /\
      frames_moved (w_mem w) (ed_filters ed) hs b k n m' ts' b' k').
Proof using Hch.
  intros Er [Hd Hx Hsa Hka Hb Hk Hne] I C Hav Hfree.
  pose proof (io_source _ _ _ _ _ I) as Ks. pose proof (io_sink _ _ _ _ _ I) as Kk.
  destruct (io_run fs fk nch Hch step _ _ _ _ _ n I C) as (m' & ts' & E & P & St & Hm); [lia|]. rewrite <- Er in E.
  2:{ pose proof (width_pos fk). pose proof (size_small _ (so_wf _ _ _ Kk)). destruct (so_wf _ _ _ Kk) as [_ _ ? ? _]. rewrite i32_small; nia. }
  unfold eq_process. do 2 drv_step. do 3 drv_step. do 3 drv_step. do 2 drv_step. simpl. drv_step.
  rewrite (so_channels _ _ _ Ks). drv_step. cbn [fst snd]. do 3 drv_step. do 2 drv_step.
  eapply wp_mono; [by apply (commit_moved (with_mem w m') _ (w_mem w) (ed_filters ed) hs sa ka b k n m' ts')|].
  intros s _ (tr & b' & k' & -> & M). by exists m', tr, ts', b', k'.
Qed.
End process.
