(* ===== verification/DcBlock.v ===== *)
(** * The DC blocking filter

    [src/audio/dcblock/dcblock.c], [dcblock_generic.c] and
    [include/sof/audio/dcblock/dcblock.h], with the three sample formats configured:
    a first order filter for each channel, whose coefficients the host sets. *)

From stdpp Require Import base list numbers option gmap.
From S2P Require Import Prelude StateM AudioStream StreamCopy Heap HeapMap HeapSpec HeapFree HeapZones Allocator.
From S2P Require Import Buffer Numbers DataBlob CompState Pipeline PipelineOps Format SampleLoop.
From S2P Require Import ChannelLoop Topology Driver EqComp.

Abbreviation ONE_Q2_30 := 1073741824 (only parsing).

(** ** Filtering *)

(** The last input and the last output. *)
Record dcblock_state := mk_dcs { x_prev : Z; y_prev : Z }.

Definition dcblock_generic (state : dcblock_state) (R x : Z) : dcblock_state * Z :=
  let out := x - x_prev state + Q_SHIFT_RND (R * y_prev state) 61 31 in
  let y := sat_int32 out in
  (mk_dcs x y, y).

(** One sample of a channel, as it is in memory, with the state and the coefficient of
    the channel. *)
Definition dcblock_s16 (m : mem) (ch : dcblock_state * Z) (x : Z) : option (mem * (dcblock_state * Z) * Z) :=
  let '(state, tmp) := dcblock_generic ch.1 ch.2 (i32 (Z.shiftl (i16 x) 16)) in
  Some (m, (state, ch.2), sat_int16 (Q_SHIFT_RND tmp 31 15)).
Definition dcblock_s24 (m : mem) (ch : dcblock_state * Z) (x : Z) : option (mem * (dcblock_state * Z) * Z) :=
  let '(state, tmp) := dcblock_generic ch.1 ch.2 (i32 (Z.shiftl (i32 x) 8)) in
  Some (m, (state, ch.2), sat_int24 (Q_SHIFT_RND tmp 31 23)).
Definition dcblock_s32 (m : mem) (ch : dcblock_state * Z) (x : Z) : option (mem * (dcblock_state * Z) * Z) :=
  let '(state, y) := dcblock_generic ch.1 ch.2 (i32 x) in
  Some (m, (state, ch.2), y).

(** The loops over channels and frames. The samples of the sink are counted from its
    read pointer, like those of the source. *)
Definition dcblock_default (step : mem -> dcblock_state * Z -> Z -> option (mem * (dcblock_state * Z) * Z)) (w : nat)
    (m : mem) (states : list dcblock_state) (R_coeffs : list Z) (source sink : audio_stream) (frames : Z) :
    option (mem * list dcblock_state) :=
  r ← frag_channels step w w (Z.to_nat (s_channels source)) 0 (Z.to_nat (u32 frames)) m (zip states R_coeffs)
        source sink (s_r_ptr source) (s_r_ptr sink) (s_channels source);
  Some (r.1, r.2.*1).

Definition dcblock_s16_default := dcblock_default dcblock_s16 2.
Definition dcblock_s24_default := dcblock_default dcblock_s24 4.
Definition dcblock_s32_default := dcblock_default dcblock_s32 4.

(** [dcblock_func] *)
Inductive dcblock_func := DcbNull | DcbS16 | DcbS24 | DcbS32.

#[export] Instance dcblock_func_eq_dec : EqDecision dcblock_func.
Proof. solve_decision. Defined.

Definition dcblock_with (fn : dcblock_func) : mem -> list dcblock_state -> list Z -> audio_stream -> audio_stream -> Z ->
    option (mem * list dcblock_state) :=
  match fn with
  | DcbNull => fun _ _ _ _ _ _ => None
  | DcbS16 => dcblock_s16_default
  | DcbS24 => dcblock_s24_default
  | DcbS32 => dcblock_s32_default
  end.

Definition dcblock_fnmap : list (Z * dcblock_func) :=
  [(SOF_IPC_FRAME_S16_LE, DcbS16); (SOF_IPC_FRAME_S24_4LE, DcbS24); (SOF_IPC_FRAME_S32_LE, DcbS32)].

Fixpoint find_in (map : list (Z * dcblock_func)) (src_fmt : Z) : dcblock_func :=
  match map with
  | [] => DcbNull
  | (fmt, func) :: map => if src_fmt =? fmt then func else find_in map src_fmt
  end.

Definition dcblock_find_func (src_fmt : Z) : dcblock_func := find_in dcblock_fnmap src_fmt.

(** ** The private data *)

(** [struct comp_data]: its address and fields. *)
Record dcblock_data := mk_dcb {
  dc_self : Z;
  dc_state : list dcblock_state;
  dc_R_coeffs : list Z;
  dc_source_format : Z;
  dc_sink_format : Z;
  dc_func : dcblock_func
}.

Definition dc_set_state (cd : dcblock_data) (states : list dcblock_state) : dcblock_data :=
  mk_dcb (dc_self cd) states (dc_R_coeffs cd) (dc_source_format cd) (dc_sink_format cd) (dc_func cd).
Definition dc_set_R (cd : dcblock_data) (R_coeffs : list Z) : dcblock_data :=
  mk_dcb (dc_self cd) (dc_state cd) R_coeffs (dc_source_format cd) (dc_sink_format cd) (dc_func cd).
Definition dc_set_formats (cd : dcblock_data) (source_format sink_format : Z) : dcblock_data :=
  mk_dcb (dc_self cd) (dc_state cd) (dc_R_coeffs cd) source_format sink_format (dc_func cd).
Definition dc_set_func (cd : dcblock_data) (func : dcblock_func) : dcblock_data :=
  mk_dcb (dc_self cd) (dc_state cd) (dc_R_coeffs cd) (dc_source_format cd) (dc_sink_format cd) func.

(** The words of [R_coeffs] copied from and to memory. *)
Definition load_words (n : nat) (m : mem) (p : Z) : list Z := (fun i => load_s32 m (p + 4 * Z.of_nat i)) <$> seq 0 n.

Fixpoint store_words (m : mem) (p : Z) (l : list Z) : mem :=
  match l with
  | [] => m
  | x :: l => store_words (store_le 4 m p x) (p + 4) l
  end.

Section dcblock.
(** The size of the arrays of channels. *)
Context (PLATFORM_MAX_CHANNELS : nat).
Context {A : Type} `{!Allocator A} (sizeof_comp_dev sizeof_comp_data : Z).
Notation MX := (ST (world A * gmap Z dcblock_data)).
Notation R_bytes := (4 * Z.of_nat PLATFORM_MAX_CHANNELS).

Definition dcblock_set_passthrough (cd : dcblock_data) : dcblock_data := dc_set_R cd (replicate PLATFORM_MAX_CHANNELS ONE_Q2_30).

Definition dcblock_init_state (cd : dcblock_data) : dcblock_data := dc_set_state cd (replicate PLATFORM_MAX_CHANNELS (mk_dcs 0 0)).

(** ** Creation and destruction *)

(** [ipc_data] is the address of the payload of the message. The component is in the
    world when it is complete. *)
Definition dcblock_new (ipc_data : Z) (_ : Z) (config : comp_ipc_config) (spec : ipc_config_specific) : MX Z :=
  bs ← lift (match spec with SpecProcess _ size _ => Some size | _ => None end);
  dev ← in_world (zalloc sizeof_comp_dev);
  if dev =? 0 then mret 0 else
  cd ← in_world (zalloc sizeof_comp_data);
  if cd =? 0 then in_world (free dev) ;; mret 0 else
  let data := mk_dcb cd (replicate PLATFORM_MAX_CHANNELS (mk_dcs 0 0)) (replicate PLATFORM_MAX_CHANNELS 0) 0 0 DcbNull in
  m ← gets (fun s => w_mem s.1);
  data ← (if bs =? R_bytes
          then if ipc_data =? 0 then fault else mret (dc_set_R data (load_words PLATFORM_MAX_CHANNELS m ipc_data))
          else mret (dcblock_set_passthrough data));
  set_drvdata dev data ;;
  in_world (modify (fun w => with_devs w (<[dev := set_state COMP_STATE_READY (comp_alloc config)]> (w_devs w)))) ;;
  mret dev.

Definition dcblock_free (dev : Z) : MX unit :=
  cd ← get_drvdata dev;
  in_world (free (dc_self cd)) ;;
  in_world (free dev) ;;
  modify (fun s => (with_devs s.1 (delete dev (w_devs s.1)), delete dev s.2)).

(** ** Parameters *)

Definition dcblock_verify_params (dev : Z) (params : sof_ipc_stream_params) : M A (sof_ipc_stream_params * Z) :=
  r ← comp_verify_params dev 0 params;
  mret (r.1, if r.2 <? 0 then r.2 else 0).

Definition dcblock_params (dev : Z) (params : sof_ipc_stream_params) : M A (sof_ipc_stream_params * Z) :=
  r ← dcblock_verify_params dev params;
  mret (r.1, if r.2 <? 0 then - EINVAL else 0).

(** ** Commands *)

(** [ctrl_cmd] is [cdata->cmd]; the second result is the size in the header of the
    reply. The message and the private data do not overlap, so [memcpy_s] fails only
    for its sizes; a failure is a failed assertion. *)
Definition dcblock_cmd_get_data (dev ctrl_cmd : Z) (cdata : sof_ipc_ctrl_data) (max_size : Z) : MX (Z * Z) :=
  cd ← get_drvdata dev;
  if ctrl_cmd =? SOF_CTRL_CMD_BINARY then
    if R_bytes >? u32 max_size then mret (- EINVAL, cd_data_size cdata) else
    if R_bytes >? cd_data_size cdata then fault else
    in_world (modify (fun w => with_mem w (store_words (w_mem w) (cd_data cdata) (dc_R_coeffs cd)))) ;;
    mret (0, R_bytes)
  else mret (- EINVAL, cd_data_size cdata).

Definition dcblock_cmd_set_data (dev ctrl_cmd : Z) (cdata : sof_ipc_ctrl_data) : MX Z :=
  cd ← get_drvdata dev;
  if ctrl_cmd =? SOF_CTRL_CMD_BINARY then
    m ← gets (fun s => w_mem s.1);
    set_drvdata dev (dc_set_R cd (load_words PLATFORM_MAX_CHANNELS m (cd_data cdata))) ;;
    mret 0
  else mret (- EINVAL).

Definition dcblock_cmd (dev cmd ctrl_cmd : Z) (cdata : sof_ipc_ctrl_data) (max_data_size : Z) : MX (Z * Z) :=
  if cmd =? COMP_CMD_SET_DATA then ret ← dcblock_cmd_set_data dev ctrl_cmd cdata; mret (ret, cd_data_size cdata)
  else if cmd =? COMP_CMD_GET_DATA then dcblock_cmd_get_data dev ctrl_cmd cdata max_data_size
  else mret (- EINVAL, cd_data_size cdata).

(** ** State and copy *)

Definition dcblock_trigger (dev cmd : Z) : MX Z := in_world (set_dev_state dev cmd).

(** Buffers of one core: the calls for the caches do nothing. *)
Definition dcblock_process (dev source sink frames source_bytes sink_bytes : Z) : MX unit :=
  cd ← get_drvdata dev;
  b ← in_world (get_buf source);
  k ← in_world (get_buf sink);
  m ← gets (fun s => w_mem s.1);
  r ← lift (dcblock_with (dc_func cd) m (dc_state cd) (dc_R_coeffs cd) (b_stream b) (b_stream k) frames);
  in_world (modify (fun w => with_mem w r.1)) ;;
  set_drvdata dev (dc_set_state cd r.2) ;;
  in_world (consume source source_bytes) ;;
  in_world (produce sink sink_bytes).

Definition dcblock_copy (dev : Z) : MX Z :=
  d ← in_world (get_dev dev);
  sourceb ← lift (head (d_bsource_list d));
  sinkb ← lift (head (d_bsink_list d));
  b ← in_world (get_buf sourceb);
  k ← in_world (get_buf sinkb);
  let cl := comp_get_copy_limits (b_stream b) (b_stream k) in
  dcblock_process dev sourceb sinkb (cl_frames cl) (u32 (cl_source_bytes cl)) (u32 (cl_sink_bytes cl)) ;;
  mret 0.

Definition dcblock_prepare (dev : Z) : MX Z :=
  cd ← get_drvdata dev;
  ret ← in_world (set_dev_state dev COMP_TRIGGER_PREPARE);
  if ret <? 0 then mret ret else
  if ret =? COMP_STATUS_STATE_ALREADY_SET then mret PPL_STATUS_PATH_STOP else
  d ← in_world (get_dev dev);
  sourceb ← lift (head (d_bsource_list d));
  sinkb ← lift (head (d_bsink_list d));
  source ← in_world (get_buf sourceb);
  sink ← in_world (get_buf sinkb);
  let cd := dc_set_formats cd (s_frame_fmt (b_stream source)) (s_frame_fmt (b_stream sink)) in
  set_drvdata dev cd ;;
  if s_size (b_stream sink) <? audio_stream_period_bytes (b_stream sink) (d_frames d)
  then prepare_err dev (- ENOMEM) else
  let cd := dc_set_func (dcblock_init_state cd) (dcblock_find_func (dc_source_format cd)) in
  set_drvdata dev cd ;;
  if bool_decide (dc_func cd = DcbNull) then prepare_err dev (- EINVAL) else mret 0.

Definition dcblock_reset (dev : Z) : MX Z :=
  cd ← get_drvdata dev;
  set_drvdata dev (dcblock_init_state cd) ;;
  in_world (set_dev_state dev COMP_TRIGGER_RESET) ;;
  mret 0.

Definition comp_dcblock (ipc_data : Z) : driver_ops A (gmap Z dcblock_data) := mk_driver_ops (dcblock_new ipc_data) dcblock_free.
End dcblock.
