(* ===== verification/DcBlockThms.v ===== *)
(** * What the DC blocking filter does

    The filter of one channel as a recurrence on signals: with the coefficient 1.0 it
    passes its input on, and with a smaller one it removes a constant component up to
    the rounding of its arithmetic. *)

From stdpp Require Import base list numbers option gmap.
From S2P Require Import Prelude StateM AudioStream StreamCopy Heap HeapMap HeapSpec HeapFree HeapZones Allocator.
From S2P Require Import Buffer Numbers DataBlob CompState Pipeline PipelineOps Format SampleLoop.
From S2P Require Import PcmConvert PcmThms ChannelLoop Topology Driver EqComp DcBlock.

(** ** Signals *)

Definition dcblock_after (R : Z) (h : dcblock_state) (xs : list Z) : dcblock_state :=
  foldl (fun h x => (dcblock_generic h R x).1) h xs.

Fixpoint dcblock_outs (R : Z) (h : dcblock_state) (xs : list Z) : list Z :=
  match xs with
  | [] => []
  | x :: xs => let '(h, y) := dcblock_generic h R x in y :: dcblock_outs R h xs
  end.

(** The filter that has seen nothing. *)
Definition dcblock_start : dcblock_state := mk_dcs 0 0.

(** The recurrence: each output is the difference of the last two inputs plus the last
    output times [R], which has 30 fraction bits, rounded to nearest and limited to
    32 bits. Before the first sample both signals are 0. *)
Definition previous (l : list Z) (t : nat) : Z := match t with O => 0 | S t => nth t l 0 end.

Definition dcblock_signal (R : Z) (xs ys : list Z) : Prop :=
  length ys = length xs /\ forall t, (t < length xs)%nat ->
    nth t ys 0 = clamp INT32_MIN INT32_MAX (nth t xs 0 - previous xs t + nearest (R * previous ys t) 30).

Lemma dcblock_generic_spec h R x :
  (dcblock_generic h R x).2 = clamp INT32_MIN INT32_MAX (x - x_prev h + nearest (R * y_prev h) 30) /\
  (dcblock_generic h R x).1 = mk_dcs x (dcblock_generic h R x).2.
Proof. unfold dcblock_generic. simpl. rewrite sat_int32_clamp, Q_SHIFT_RND_nearest by lia. done. Qed.

(** The signals from a state on. *)
Lemma dcblock_outs_recurrence R h xs :
  length (dcblock_outs R h xs) = length xs /\ forall t, (t < length xs)%nat ->
    let ys := dcblock_outs R h xs in
    nth t ys 0 = clamp INT32_MIN INT32_MAX
      (nth t xs 0 - match t with O => x_prev h | S t => nth t xs 0 end +
       nearest (R * match t with O => y_prev h | S t => nth t ys 0 end) 30).
Proof.
  revert h. induction xs as [|x xs IH]; intros h; cbn [dcblock_outs length]; [split; [done|lia]|].
  destruct (dcblock_generic_spec h R x) as [Ey Eh]. destruct (dcblock_generic h R x) as [h' y]. cbn [fst snd] in Ey, Eh.
  destruct (IH h') as [El Ht]. split; [simpl; by rewrite El|]. intros [|t] Hl; [exact Ey|]. simpl. rewrite Ht by lia. rewrite Eh. by destruct t.
Qed.

Lemma dcblock_realises R xs : dcblock_signal R xs (dcblock_outs R dcblock_start xs).
Proof. destruct (dcblock_outs_recurrence R dcblock_start xs) as [El Ht]. split; [done|]. intros t Hl. rewrite Ht by done. by destruct t. Qed.

Lemma dcblock_outs_lookup R h xs t x :
  xs !! t = Some x -> dcblock_outs R h xs !! t = Some (dcblock_generic (dcblock_after R h (take t xs)) R x).2.
Proof.
  revert h t. induction xs as [|y xs IH]; intros h [|t] Ht; cbn [dcblock_outs lookup list_lookup] in *; [done|done|..].
  - injection Ht as ->. change (dcblock_after R h (take 0 (x :: xs))) with h. by destruct (dcblock_generic h R x).
  - destruct (dcblock_generic h R y) as [h' z] eqn:E. change (dcblock_outs R h' xs !! t = Some (dcblock_generic (dcblock_after R h (y :: take t xs)) R x).2).
    rewrite (IH _ _ Ht). unfold dcblock_after. cbn [foldl]. by rewrite E.
Qed.

(** ** The coefficient 1.0 *)

Lemma nearest_one y : nearest (ONE_Q2_30 * y) 30 = y.
Proof. unfold nearest. change (2 ^ 30) with ONE_Q2_30. change (2 ^ (30 - 1)) with 536870912. rewrite Z.mul_comm, Z.div_add_l by lia. change (536870912 / ONE_Q2_30) with 0. lia. Qed.

Lemma dcblock_pass xs : Forall is_s32 xs -> dcblock_outs ONE_Q2_30 dcblock_start xs = xs.
Proof.
  assert (forall xs p, Forall is_s32 xs -> dcblock_outs ONE_Q2_30 (mk_dcs p p) xs = xs) as H; [|by apply H].
  clear xs. induction xs as [|x xs IH]; intros p Hx; cbn [dcblock_outs]; [done|]. inversion_clear Hx as [|? ? Hx1 Hx2].
  destruct (dcblock_generic_spec (mk_dcs p p) ONE_Q2_30 x) as [Ey Eh]. destruct (dcblock_generic _ _ _) as [h' y]. simpl in Ey, Eh.
  rewrite nearest_one in Ey. assert (y = x) as -> by (rewrite Ey; unfold clamp, is_s32 in *; lia). rewrite Eh, IH by done. done.
Qed.

(** ** Constant inputs *)

(** A step on a constant input shrinks the output by the coefficient, up to half a
    unit. *)
Lemma decay_step R y : 0 <= R < 2 ^ 30 -> 2 ^ 30 * Z.abs (clamp INT32_MIN INT32_MAX (nearest (R * y) 30)) <= R * Z.abs y + 2 ^ 29.
Proof.
  intros HR. pose proof (nearest_bounds (R * y) 30 ltac:(lia)) as Hn. set (z := nearest (R * y) 30) in *.
  assert (Z.abs (clamp INT32_MIN INT32_MAX z) <= Z.abs z) by (unfold clamp; lia). enough (2 ^ 30 * Z.abs z <= Z.abs (R * y) + 2 ^ 29).
  { rewrite Z.abs_mul, (Z.abs_eq R) in * by lia. nia. }
  change (2 ^ (30 - 1)) with (2 ^ 29) in Hn. lia.
Qed.

Lemma decay R xs ys t n :
  0 <= R < 2 ^ 30 -> dcblock_signal R xs ys -> (t + n < length xs)%nat ->
  (forall i, (t < i <= t + n)%nat -> nth i xs 0 = nth t xs 0) ->
  (2 ^ 30 - R) * Z.abs (nth (t + n) ys 0) * (2 ^ 30) ^ Z.of_nat n <= (2 ^ 30 - R) * Z.abs (nth t ys 0) * R ^ Z.of_nat n + 2 ^ 29 * (2 ^ 30) ^ Z.of_nat n.
Proof.
  intros HR [_ Hs] Hl Hc. induction n as [|n IH].
  { rewrite Nat.add_0_r. change (Z.of_nat 0) with 0. rewrite !Z.pow_0_r. nia. }
  specialize (IH ltac:(lia) ltac:(intros; apply Hc; lia)). rewrite (Hs (t + S n)%nat Hl). rewrite Nat.add_succ_r. simpl previous.
  assert (nth (S (t + n)) xs 0 = nth (t + n) xs 0) as ->.
  { rewrite (Hc (S (t + n))) by lia. destruct n; [by rewrite Nat.add_0_r|]. symmetry. apply Hc. lia. }
  rewrite Z.sub_diag, Z.add_0_l. pose proof (decay_step R (nth (t + n) ys 0) HR) as Hd.
  set (z := Z.abs (clamp _ _ _)) in *. set (y := Z.abs (nth (t + n) ys 0)) in *. set (y0 := Z.abs (nth t ys 0)) in *.
  rewrite !Nat2Z.inj_succ, !Z.pow_succ_r by lia. set (P := (2 ^ 30) ^ Z.of_nat n) in *. set (Q := R ^ Z.of_nat n) in *.
  assert (0 <= P) by (unfold P; lia). assert (0 <= Q) by (unfold Q; apply Z.pow_nonneg; lia). assert (0 <= y0) by (unfold y0; lia).
  assert ((2 ^ 30 - R) * z * (2 ^ 30 * P) <= (2 ^ 30 - R) * (R * y + 2 ^ 29) * P).
  { replace ((2 ^ 30 - R) * z * (2 ^ 30 * P)) with ((2 ^ 30 - R) * P * (2 ^ 30 * z)) by ring.
    replace ((2 ^ 30 - R) * (R * y + 2 ^ 29) * P) with ((2 ^ 30 - R) * P * (R * y + 2 ^ 29)) by ring. apply Z.mul_le_mono_nonneg_l; [nia|done]. }
  assert (R * ((2 ^ 30 - R) * y * P) <= R * ((2 ^ 30 - R) * y0 * Q + 2 ^ 29 * P)) by (apply Z.mul_le_mono_nonneg_l; lia).
  nia.
Qed.

(** C34: The filter of a channel that starts cleared computes the recurrence of a DC
    blocker. With the coefficient 1.0 its output is its input. With a coefficient R
    from 0 to less than 1.0 it removes a constant: [n] samples after the input has
    become constant the output has shrunk to (R / 2^30)^n of what it was, but for
    the rounding, which leaves at most 2^29 / (2^30 - R). *)
Theorem dcblock_blocks_dc (R : Z) (xs : list Z) :
  let ys := dcblock_outs R dcblock_start xs in
  dcblock_signal R xs ys /\
  (R = ONE_Q2_30 -> Forall is_s32 xs -> ys = xs) /\
  (0 <= R < 2 ^ 30 -> forall t n, (t + n < length xs)%nat -> (forall i, (t < i <= t + n)%nat -> nth i xs 0 = nth t xs 0) ->
    (2 ^ 30 - R) * Z.abs (nth (t + n) ys 0) * (2 ^ 30) ^ Z.of_nat n <=
    (2 ^ 30 - R) * Z.abs (nth t ys 0) * R ^ Z.of_nat n + 2 ^ 29 * (2 ^ 30) ^ Z.of_nat n).
Proof.
  intros ys. split_and!.
  - apply dcblock_realises.
  - intros -> Hx. by apply dcblock_pass.
  - intros HR t n Hl Hc. apply (decay R xs); [done|apply dcblock_realises|done|done].
Qed.

(** A coefficient of 0.5 and a constant of 1000. *)
Lemma dcblock_blocks_dc_witness :
  let ys := dcblock_outs 536870912 dcblock_start (replicate 5 1000) in
  536870912 * Z.abs (nth 4 ys 0) * (2 ^ 30) ^ 4 <= 536870912 * Z.abs (nth 0 ys 0) * 536870912 ^ 4 + 2 ^ 29 * (2 ^ 30) ^ 4.
Proof.
  intros ys. apply (proj2 (proj2 (dcblock_blocks_dc 536870912 (replicate 5 1000))) ltac:(lia) 0%nat 4%nat); [simpl; lia|].
  intros [|[|[|[|[|i]]]]] Hi; [lia|reflexivity..|lia].
Defined.

Example dc_decays : dcblock_outs 536870912 dcblock_start (replicate 12 1000) = [1000; 500; 250; 125; 63; 32; 16; 8; 4; 2; 1; 1].
Proof. vm_compute. reflexivity. Qed.

(** The state of the filter goes on from one block of samples to the next. *)
Lemma dcblock_after_app R h xs ys : dcblock_after R h (xs ++ ys) = dcblock_after R (dcblock_after R h xs) ys.
Proof. unfold dcblock_after. by rewrite foldl_app. Qed.
