(* ===== verification/DcBlockCopy.v ===== *)
(** * The DC blocking component at work

    One period of [dcblock_copy] of [src/audio/dcblock/dcblock.c] on queues of samples,
    the preparation, and the coefficients that the host writes and reads. *)

From stdpp Require Import base list numbers option gmap.
From S2P Require Import Prelude StateM AudioStream StreamCopy Heap HeapMap HeapSpec HeapFree HeapZones Allocator.
From S2P Require Import Buffer Numbers DataBlob CompState Pipeline PipelineOps PipelineWalk PipelineThms PipelineLife.
From S2P Require Import Format SampleLoop PcmConvert PcmThms ChannelLoop Topology TopologyInv Driver SampleQueue.
From S2P Require Import ChannelCopy Mixer MixerThms MixerCopy EqComp EqSetup EqPeriod DcBlock DcBlockThms.

(** ** The functions that filter *)

Inductive dcblock_filters : dcblock_func -> Prop :=
| dcblock_filters_s16 : dcblock_filters DcbS16
| dcblock_filters_s24 : dcblock_filters DcbS24
| dcblock_filters_s32 : dcblock_filters DcbS32.

Definition dcblock_fmt (fn : dcblock_func) : pcm_fmt := match fn with DcbS16 => FMT_S16 | DcbS24 => FMT_S24 | _ => FMT_S32 end.

Definition dcblock_sample (fn : dcblock_func) : mem -> dcblock_state * Z -> Z -> option (mem * (dcblock_state * Z) * Z) :=
  match fn with DcbS16 => dcblock_s16 | DcbS24 => dcblock_s24 | _ => dcblock_s32 end.

Lemma dcblock_sample_spec fn m ch x :
  dcblock_sample fn m ch x =
  let r := dcblock_generic ch.1 ch.2 (to_s32 (dcblock_fmt fn) x) in Some (m, (r.1, ch.2), of_s32 (dcblock_fmt fn) r.2).
Proof. by destruct fn. Qed.

Lemma dcblock_with_frags fn m states R_coeffs source sink frames :
  dcblock_filters fn ->
  dcblock_with fn m states R_coeffs source sink frames =
  dcblock_default (dcblock_sample fn) (fmt_width (dcblock_fmt fn)) m states R_coeffs source sink frames.
Proof. by destruct 1. Qed.

Lemma dcblock_fmt_int fn : dcblock_fmt fn <> FMT_FLOAT.
Proof. by destruct fn. Qed.

(** The abstract state of a channel is its state with its coefficient. *)
#[export, refine] Instance dcblock_filter fn : ChannelFilter (dcblock_sample fn) (dcblock_state * Z) := {|
  fl_rep _ ch h := ch = h;
  fl_value h x := of_s32 (dcblock_fmt fn) (dcblock_generic h.1 h.2 (to_s32 (dcblock_fmt fn) x)).2;
  fl_next h x := ((dcblock_generic h.1 h.2 (to_s32 (dcblock_fmt fn) x)).1, h.2);
  fl_owns _ _ := False;
  fl_reads _ _ := False
|}.
Proof.
  - done.
  - done.
  - intros m ch h x ->. eexists _, _. split; [apply dcblock_sample_spec|]. by split_and!.
Defined.

(** ** One period *)

Section copy.
Context {A : Type} `{!Allocator A} (fn : dcblock_func) (nch : nat).
Hypothesis Hfn : dcblock_filters fn.
Hypothesis Hch : 0 < Z.of_nat nch < 2 ^ 16.
Implicit Types (w : world A) (x : gmap Z dcblock_data) (xss : nat -> list Z).
Notation fmt := (dcblock_fmt fn).
Notation width := (Z.of_nat (fmt_width fmt)).
Notation step := (dcblock_sample fn).

(** It is prepared, with whole frames in both buffers; [xss] are the inputs that the
    channels have had since. *)
Record dcblock_ok (cd : dcblock_data) (b k : comp_buffer) xss : Prop := {
  dk_func : dc_func cd = fn;
  dk_io : frames_io fmt fmt nch (b_stream b) (b_stream k);
  dk_states j : (j < nch)%nat -> exists R, dc_R_coeffs cd !! j = Some R /\ dc_state cd !! j = Some (dcblock_after R dcblock_start (xss j))
}.

Definition dcblock_frames (b k : comp_buffer) : nat := io_frames (b_stream b) (b_stream k).
Definition dcblock_inputs (m : mem) (b k : comp_buffer) (j : nat) : list Z := channel_in fmt nch m (b_stream b) (dcblock_frames b k) j.

(** What a period does: the source loses the frames, the empty sink gets the next
    outputs of every channel, the filters go on. *)
Record dcblock_period (m : mem) (cd : dcblock_data) (b k : comp_buffer) xss (m' : mem) (states' : list dcblock_state) (b' k' : comp_buffer) : Prop := {
  dp_ok : dcblock_ok (dc_set_state cd states') b' k' (fun j => xss j ++ dcblock_inputs m b k j);
  dp_source m1 : samples fmt m1 (b_stream b') = drop (dcblock_frames b k * nch) (samples fmt m1 (b_stream b));
  dp_length : length (samples fmt m' (b_stream k')) = (dcblock_frames b k * nch)%nat;
  dp_sink j R : (j < nch)%nat -> dc_R_coeffs cd !! j = Some R -> exists ys, dcblock_signal R (xss j ++ dcblock_inputs m b k j) ys /\
    forall i, (i < dcblock_frames b k)%nat ->
      samples fmt m' (b_stream k') !! (i * nch + j)%nat = Some (pattern fmt (sample_spec FMT_S32 fmt (nth (length (xss j) + i) ys 0)));
  dp_mem a : ~ in_ring (b_stream k) a -> m' a = m a
}.

(** The abstract states of the channels. *)
Definition dcblock_abs (cd : dcblock_data) xss (j : nat) : dcblock_state * Z :=
  let R := nth j (dc_R_coeffs cd) 0 in (dcblock_after R dcblock_start (xss j), R).

Lemma dcblock_channels m cd b k xss : dcblock_ok cd b k xss ->
  channels_ok step nch (b_stream b) (b_stream k) m (zip (dc_state cd) (dc_R_coeffs cd)) (dcblock_abs cd xss).
Proof.
  intros [_ _ Hst]. constructor; simpl; [|done..]. intros j Hj. destruct (Hst j Hj) as (R & HR & Hs). eexists. split; [|reflexivity].
  rewrite lookup_zip_with, HR, Hs. simpl. unfold dcblock_abs. by rewrite (nth_lookup_Some _ _ _ _ HR).
Qed.

Lemma dcblock_chan_state m s (hs : nat -> dcblock_state * Z) j t :
  chan_state step (fmt_width fmt) nch s (s_r_ptr s) m hs j t = (dcblock_after (hs j).2 (hs j).1 (channel_in fmt nch m s t j), (hs j).2).
Proof.
  induction t as [|t IH]; [cbn; by destruct (hs j)|]. simpl chan_state. rewrite IH, chan_in_sample, channel_in_S by apply dcblock_fmt_int.
  cbn [fst snd]. by rewrite dcblock_after_app.
Qed.

Lemma dcblock_generic_range h R z : is_s32 (dcblock_generic h R z).2.
Proof. destruct (dcblock_generic_spec h R z) as [-> _]. unfold clamp, is_s32. lia. Qed.

(** Output [i] of the period is the output behind those of the inputs before. *)
Lemma dcblock_chan_out m s cd xss R n i j :
  dc_R_coeffs cd !! j = Some R -> (i < n)%nat ->
  chan_out step (fmt_width fmt) nch s (s_r_ptr s) m (dcblock_abs cd xss) j i =
  sample_spec FMT_S32 fmt (nth (length (xss j) + i) (dcblock_outs R dcblock_start (xss j ++ channel_in fmt nch m s n j)) 0).
Proof.
  intros HR Hi. unfold chan_out. rewrite dcblock_chan_state. simpl fl_value. rewrite chan_in_sample by apply dcblock_fmt_int.
  pose proof (channel_in_lookup fmt nch m s j i n Hi) as Hx. set (z := sample_spec _ _ _) in *. rewrite (nth_lookup_Some _ _ _ _ HR).
  rewrite of_s32_spec by (apply dcblock_fmt_int || apply dcblock_generic_range). f_equal. symmetry. apply nth_lookup_Some.
  rewrite (dcblock_outs_lookup _ _ _ _ z); [|by rewrite lookup_app_r, Nat.add_comm, Nat.add_sub by lia].
  rewrite take_app_add, channel_in_take by lia. by rewrite dcblock_after_app.
Qed.

Lemma dcblock_period_ok m cd b k xss m' ts' b' k' :
  dcblock_ok cd b k xss -> s_avail (b_stream k) = 0 ->
  frames_moved fmt fmt nch step m (zip (dc_state cd) (dc_R_coeffs cd)) (dcblock_abs cd xss) b k (dcblock_frames b k) m' ts' b' k' ->
  dcblock_period m cd b k xss m' ts'.*1 b' k'.
Proof.
  intros K H0 [_ I' C' Hs Hs' Hm]. pose proof K as [Ef I Hst].
  assert (samples fmt m (b_stream k) = []) as E0 by (unfold samples; rewrite H0, Z.div_0_l by (pose proof (width_pos fmt); lia); done).
  rewrite E0, app_nil_l in Hs'. constructor; [constructor; try done| | | |]; try done.
  - intros j Hj. destruct (Hst j Hj) as (R & HR & _). exists R. split; [done|]. destruct (co_rep _ _ _ _ _ _ _ C' j Hj) as (t & Ht & Er).
    simpl in Er. subst t. simpl. rewrite list_lookup_fmap, Ht. simpl. rewrite dcblock_chan_state. cbn [fst snd dcblock_abs].
    rewrite (nth_lookup_Some _ _ _ _ HR). by rewrite dcblock_after_app.
  - by rewrite Hs', length_fmap, length_seq.
  - intros j R Hj HR. eexists. split; [apply dcblock_realises|]. intros i Hi. rewrite Hs', frame_sample_lookup by done. do 2 f_equal.
    by apply dcblock_chan_out.
  - intros a Ha. apply Hm; [done|]. intros (j & t & _ & _ & []).
Qed.

Lemma dcblock_process_ok w x dev d cd sa ka b k xss :
  io_graph w x dev d cd sa ka b k -> dcblock_ok cd b k xss -> s_avail (b_stream k) = 0 ->
  let n := Z.of_nat (dcblock_frames b k) in let n' := Z.of_nat (dcblock_frames b k * nch) in
  wp (dcblock_process dev sa ka n (width * n') (width * n')) (w, x) (fun s _ => exists m' tr states' b' k',
    s = (io_world w sa ka b' k' m' tr, <[dev := dc_set_state cd states']> x) /\
    dcblock_period (w_mem w) cd b k xss m' states' b' k').
Proof using Hfn Hch.
  intros [Hd Hx Hsa Hka Hb Hk Hne] K H0 n n'. pose proof K as [Ef I _].
  destruct (io_limits_bytes fmt fmt nch Hch _ _ I) as (_ & Hav & Hfree & _). fold (dcblock_frames b k) in Hav, Hfree.
  pose proof (dcblock_channels (w_mem w) _ _ _ _ K) as C. rewrite Nat2Z.inj_mul in Hav, Hfree.
  destruct (io_frag_run fmt fmt nch Hch step _ _ _ _ _ (dcblock_frames b k) I C H0 Hav Hfree) as (m' & ts' & E & P & St & Hm).
  assert (0 <= n < 2 ^ 32) as Hn.
  { pose proof (width_pos fmt). pose proof (size_small _ (so_wf _ _ _ (io_sink _ _ _ _ _ I))).
    destruct (so_wf _ _ _ (io_sink _ _ _ _ _ I)) as [_ _ ? ? _]. unfold n. nia. }
  assert (dcblock_with (dc_func cd) (w_mem w) (dc_state cd) (dc_R_coeffs cd) (b_stream b) (b_stream k) n = Some (m', ts'.*1)) as Er.
  { rewrite Ef, dcblock_with_frags by done. unfold dcblock_default. rewrite (so_channels _ _ _ (io_source _ _ _ _ _ I)), u32_small by done.
    unfold n. rewrite !Nat2Z.id. cbn [fst snd]. by rewrite E. }
  unfold dcblock_process. do 2 drv_step. do 3 drv_step. do 3 drv_step. do 2 drv_step. cbn [fst]. drv_step. drv_step.
  cbn [fst snd]. do 3 drv_step. do 2 drv_step.
  eapply wp_mono; [eapply (commit_moved fmt fmt nch step Hch (with_mem w m') _ (w_mem w) _ _ sa ka b k (dcblock_frames b k) m' ts'); try done|].
  - by rewrite Nat2Z.inj_mul.
  - by rewrite Nat2Z.inj_mul.
  - intros s _ (tr & b' & k' & -> & M). exists m', tr, (ts'.*1), b', k'. split; [done|]. by apply dcblock_period_ok.
Qed.

(** C22: One period of a prepared DC blocking component with an empty sink returns 0.
    It takes all frames that the source has and the sink has room for; the sink gets
    as many, each channel the next samples of the recurrence with its coefficient on
    the whole input of the channel since the preparation, earlier periods included,
    in the format of the streams. The filters are ready for the next period, with the
    new inputs behind the old ones. Only the ring of the sink is written. *)
Theorem dcblock_copy_filters w x dev d cd sa ka b k xss :
  io_graph w x dev d cd sa ka b k -> dcblock_ok cd b k xss -> s_avail (b_stream k) = 0 ->
  exists m' tr states' b' k',
    dcblock_copy dev (w, x) = Some ((io_world w sa ka b' k' m' tr, <[dev := dc_set_state cd states']> x), 0) /\
    dcblock_period (w_mem w) cd b k xss m' states' b' k'.
Proof using Hfn Hch.
  intros G K H0. pose proof G as [Hd Hx Hsa Hka Hb Hk Hne].
  enough (wp (dcblock_copy dev) (w, x) (fun s r => r = 0 /\
    exists m' tr states' b' k', s = (io_world w sa ka b' k' m' tr, <[dev := dc_set_state cd states']> x) /\
      dcblock_period (w_mem w) cd b k xss m' states' b' k')) as (s & r & E & -> & m' & tr & states' & b' & k' & -> & H).
  { by exists m', tr, states', b', k'. }
  unfold dcblock_copy. do 3 drv_step. do 2 drv_step. do 2 drv_step. do 3 drv_step. do 3 drv_step. cbv zeta. drv_step.
  destruct (io_limits_bytes fmt fmt nch Hch _ _ (dk_io _ _ _ _ K)) as (E1 & _ & _ & E2 & E3). rewrite E1, E2, E3.
  eapply wp_mono; [by apply (dcblock_process_ok w x dev d cd sa ka b k xss)|]. intros s [] H. drv_step. done.
Qed.
End copy.

(** ** Preparing *)

Lemma dcblock_find_fmt src_fmt :
  let fn := dcblock_find_func src_fmt in fn <> DcbNull -> dcblock_filters fn /\ fmt_code (dcblock_fmt fn) = src_fmt.
Proof.
  intros fn. subst fn. unfold dcblock_find_func, dcblock_fnmap. cbn [find_in].
  repeat match goal with |- context [?x =? ?y] => destruct (Z.eqb_spec x y) end; intros Hfn; try done; (split; [constructor|simpl; lia]).
Qed.

Section prepare.
Context {A : Type} `{!Allocator A} (PLATFORM_MAX_CHANNELS : nat).
Implicit Types (w : world A) (x : gmap Z dcblock_data) (cd : dcblock_data).

Definition dcblock_prepare_code (d : comp_dev) (b k : comp_buffer) : Z :=
  if d_state d =? COMP_STATE_PREPARE then PPL_STATUS_PATH_STOP else
  if negb (d_state d =? COMP_STATE_READY) then - EINVAL else
  if s_size (b_stream k) <? audio_stream_period_bytes (b_stream k) (d_frames d) then - ENOMEM else
  if bool_decide (dcblock_find_func (s_frame_fmt (b_stream b)) = DcbNull) then - EINVAL else 0.

(** Every outcome: the state changes only with 0, and then every channel starts
    cleared, with its coefficient. *)
Lemma dcblock_prepare_outcome w x dev d cd sa ka b k :
  io_graph w x dev d cd sa ka b k ->
  exists cd' ret, dcblock_prepare PLATFORM_MAX_CHANNELS dev (w, x) =
      Some ((if ret =? 0 then dev_at w dev d COMP_STATE_PREPARE else w, <[dev := cd']> x), ret) /\
    ret = dcblock_prepare_code d b k /\ dc_self cd' = dc_self cd /\ dc_R_coeffs cd' = dc_R_coeffs cd /\
    (ret = 0 -> dc_func cd' = dcblock_find_func (s_frame_fmt (b_stream b)) /\ dc_func cd' <> DcbNull /\
       dc_state cd' = replicate PLATFORM_MAX_CHANNELS dcblock_start).
Proof.
  intros [Hd Hx Hsa Hka Hb Hk Hne].
  enough (wp (dcblock_prepare PLATFORM_MAX_CHANNELS dev) (w, x) (fun s ret => exists cd',
    s = (if ret =? 0 then dev_at w dev d COMP_STATE_PREPARE else w, <[dev := cd']> x) /\
    ret = dcblock_prepare_code d b k /\ dc_self cd' = dc_self cd /\ dc_R_coeffs cd' = dc_R_coeffs cd /\
    (ret = 0 -> dc_func cd' = dcblock_find_func (s_frame_fmt (b_stream b)) /\ dc_func cd' <> DcbNull /\
       dc_state cd' = replicate PLATFORM_MAX_CHANNELS dcblock_start))) as (s & r & E & cd' & -> & H) by (by exists cd', r).
  unfold dcblock_prepare. do 3 drv_step. drv_step. eapply wp_mono; [by apply set_dev_state_ok|]. intros w' r [-> ->].
  assert (forall ret, ret <> 0 -> exists cd', (w, x) = (if ret =? 0 then dev_at w dev d COMP_STATE_PREPARE else w, <[dev := cd']> x) /\
    dc_self cd' = dc_self cd /\ dc_R_coeffs cd' = dc_R_coeffs cd) as Hid.
  { intros ret Hr. exists cd. rewrite (proj2 (Z.eqb_neq _ _) Hr), insert_id by done. done. }
  unfold dcblock_prepare_code. destruct (Z.eqb_spec (d_state d) COMP_STATE_PREPARE) as [Es|Es].
  { rewrite Es. change (comp_set_state COMP_STATE_PREPARE COMP_TRIGGER_PREPARE) with (COMP_STATE_PREPARE, COMP_STATUS_STATE_ALREADY_SET).
    simpl. drv_step. rewrite dev_at_id by done. destruct (Hid PPL_STATUS_PATH_STOP) as (cd' & E & H1 & H2); [done|]. by exists cd'. }
  destruct (Z.eqb_spec (d_state d) COMP_STATE_READY) as [Er|Er].
  2:{ assert (comp_set_state (d_state d) COMP_TRIGGER_PREPARE = (d_state d, - EINVAL)) as ->.
      { unfold comp_set_state. change (comp_get_requested_state COMP_TRIGGER_PREPARE) with COMP_STATE_PREPARE.
        by rewrite (proj2 (Z.eqb_neq _ _) Es), (proj2 (Z.eqb_neq _ _) Er). }
      simpl. drv_step. rewrite dev_at_id by done. destruct (Hid (- EINVAL)) as (cd' & E & H1 & H2); [done|]. by exists cd'. }
  rewrite Er. change (comp_set_state COMP_STATE_READY COMP_TRIGGER_PREPARE) with (COMP_STATE_PREPARE, 0).
  cbn [fst snd negb]. change (0 <? 0) with false. change (0 =? COMP_STATUS_STATE_ALREADY_SET) with false. cbv iota.
  assert (w_devs (dev_at w dev d COMP_STATE_PREPARE) !! dev = Some (set_state COMP_STATE_PREPARE d)) as Hd1 by (simpl; by rewrite lookup_insert_eq).
  do 3 drv_step. do 4 drv_step. do 6 drv_step. cbv zeta. cbn [d_frames set_state]. do 2 drv_step.
  destruct (Z.ltb_spec (s_size (b_stream k)) (audio_stream_period_bytes (b_stream k) (d_frames d))).
  { eapply wp_mono; [by apply prepare_err_ok|]. intros s r [-> ->]. eexists. split; [reflexivity|]. done. }
  do 2 drv_step. cbn [dc_func dc_set_func dc_source_format dc_set_formats]. rewrite insert_insert_eq. case_bool_decide as Hf.
  - eapply wp_mono; [by apply prepare_err_ok|]. intros s r [-> ->]. eexists. split; [reflexivity|]. done.
  - drv_step. eexists. split; [reflexivity|]. done.
Qed.

(** After a preparation the periods filter, from cleared states on. *)
Lemma dcblock_prepared cd cd' (b k : comp_buffer) nch :
  let fn := dcblock_find_func (s_frame_fmt (b_stream b)) in
  dc_func cd' = fn -> dc_state cd' = replicate PLATFORM_MAX_CHANNELS dcblock_start -> dc_R_coeffs cd' = dc_R_coeffs cd ->
  length (dc_R_coeffs cd) = PLATFORM_MAX_CHANNELS -> (nch <= PLATFORM_MAX_CHANNELS)%nat ->
  frames_io (dcblock_fmt fn) (dcblock_fmt fn) nch (b_stream b) (b_stream k) ->
  dcblock_ok fn nch cd' b k (fun _ => []).
Proof.
  intros fn Ef Es ER El Hn I. constructor; [done|done|]. intros j Hj. destruct (lookup_lt_is_Some_2 (dc_R_coeffs cd) j) as [R HR]; [lia|].
  exists R. rewrite ER, Es. split; [done|]. apply lookup_replicate. split; [done|lia].
Qed.
End prepare.

(** ** Coefficients of the host *)

Lemma store_words_out m p l a : a < p \/ p + 4 * Z.of_nat (length l) <= a -> store_words m p l a = m a.
Proof.
  revert m p. induction l as [|z l IH]; intros m p Ha; cbn [store_words length] in *; [done|].
  rewrite IH by lia. apply le_store_out. lia.
Qed.

Lemma load_store_words l m p : Forall is_s32 l -> load_words (length l) (store_words m p l) p = l.
Proof.
  revert m p. induction l as [|z l IH]; intros m p Hl; [done|]. inversion_clear Hl as [|? ? Hz Hl'].
  unfold load_words. cbn [length seq store_words]. rewrite fmap_cons, <- fmap_S_seq, <- list_fmap_compose. f_equal.
  - rewrite Z.add_0_r. unfold load_s32. rewrite (le_load_ext 4 (store_le 4 m p z)), le_load_store by (intros; apply store_words_out; lia).
    unfold is_s32 in Hz. unfold i32. rewrite Zplus_mod_idemp_l, Z.mod_small; lia.
  - rewrite <- (IH (store_le 4 m p z) (p + 4) Hl') at 2. unfold load_words. apply list_fmap_ext. intros _ i _. simpl. f_equal. lia.
Qed.

Lemma load_words_range n m p : Forall is_s32 (load_words n m p) /\ length (load_words n m p) = n.
Proof.
  unfold load_words. split; [|by rewrite length_fmap, length_seq]. apply Forall_fmap, Forall_forall. intros i _. apply i32_range.
Qed.

Section commands.
Context {A : Type} `{!Allocator A} (PLATFORM_MAX_CHANNELS : nat).
Notation R_bytes := (4 * Z.of_nat PLATFORM_MAX_CHANNELS).

(** The coefficients that the host has set are those that it reads back. *)
Lemma dcblock_coefficients_read_back (w : world A) x dev cd cdata cdata' max_size :
  x !! dev = Some cd -> R_bytes <= max_size < 2 ^ 32 -> R_bytes <= cd_data_size cdata' ->
  wp (dcblock_cmd PLATFORM_MAX_CHANNELS dev COMP_CMD_SET_DATA SOF_CTRL_CMD_BINARY cdata max_size ;;
      dcblock_cmd PLATFORM_MAX_CHANNELS dev COMP_CMD_GET_DATA SOF_CTRL_CMD_BINARY cdata' max_size) (w, x)
    (fun s r => r = (0, R_bytes) /\ w_alloc s.1 = w_alloc w /\
       load_words PLATFORM_MAX_CHANNELS (w_mem s.1) (cd_data cdata') = load_words PLATFORM_MAX_CHANNELS (w_mem w) (cd_data cdata)).
Proof.
  intros Hx Hmax Hsize. set (R := load_words PLATFORM_MAX_CHANNELS (w_mem w) (cd_data cdata)).
  drv_step. unfold dcblock_cmd at 1. change (COMP_CMD_SET_DATA =? COMP_CMD_SET_DATA) with true. cbv iota. unfold dcblock_cmd_set_data.
  change (SOF_CTRL_CMD_BINARY =? SOF_CTRL_CMD_BINARY) with true. cbv iota. do 6 drv_step. drv_step. drv_step. fold R.
  unfold dcblock_cmd. change (COMP_CMD_GET_DATA =? COMP_CMD_SET_DATA) with false. change (COMP_CMD_GET_DATA =? COMP_CMD_GET_DATA) with true. cbv iota.
  unfold dcblock_cmd_get_data. do 2 drv_step. eapply wp_get_drvdata; [by rewrite lookup_insert_eq|]. cbv iota. rewrite u32_small by lia.
  change (SOF_CTRL_CMD_BINARY =? SOF_CTRL_CMD_BINARY) with true. cbv iota.
  destruct (Z.gtb_spec R_bytes max_size); [lia|]. destruct (Z.gtb_spec R_bytes (cd_data_size cdata')); [lia|].
  do 3 drv_step. drv_step. split_and!; [done|done|]. simpl. destruct (load_words_range PLATFORM_MAX_CHANNELS (w_mem w) (cd_data cdata)) as [Hr El].
  fold R in Hr, El. rewrite <- El at 1. by apply load_store_words.
Qed.
End commands.

(** ** Memory *)

Section life.
Context {A : Type} `{!Allocator A} (PLATFORM_MAX_CHANNELS : nat) (sizeof_comp_dev sizeof_comp_data : Z).
Context (Hdev : 0 < sizeof_comp_dev < 2 ^ 30) (Hdata : 0 < sizeof_comp_data < 2 ^ 30).
Implicit Types (w : world A) (x : gmap Z dcblock_data).

Lemma dcblock_free_ok w x dev cd rc rd rest :
  x !! dev = Some cd -> al_inv (w_alloc w) -> al_live (w_alloc w) ≡ₚ rc :: rd :: rest -> inside rc (dc_self cd) -> inside rd dev ->
  wp (dcblock_free dev) (w, x) (fun s _ => exists a, al_inv a /\ al_live a ≡ₚ rest /\
    s = (with_devs (with_alloc w a) (delete dev (w_devs w)), delete dev x)).
Proof.
  intros Hx Ha Hl Hc Hd. unfold dcblock_free. do 2 drv_step. apply (wp_free_two _ _ rc rd _ _ rest); [done..|].
  intros a Ha' Hl'. repeat drv_step. by exists a.
Qed.

(** The coefficients of a new component: those of the message, if there are as many as
    channels, and 1.0 otherwise. *)
Definition first_coefficients (m : mem) (ipc_data size : Z) : list Z :=
  if size =? 4 * Z.of_nat PLATFORM_MAX_CHANNELS then load_words PLATFORM_MAX_CHANNELS m ipc_data
  else replicate PLATFORM_MAX_CHANNELS ONE_Q2_30.

(** What creating one leads to: nothing that stays, or a component that owns two
    blocks. *)
Definition dcblock_created w x (config : comp_ipc_config) (ipc_data size : Z) (s : world A * gmap Z dcblock_data) (p : Z) : Prop :=
  exists a m, al_inv a /\
    ((p = 0 /\ al_live a ≡ₚ al_live (w_alloc w) /\ s = (with_heap w a m, x)) \/
     (p <> 0 /\ exists cd rc rd, al_live a ≡ₚ rc :: rd :: al_live (w_alloc w) /\ inside rc (dc_self cd) /\ inside rd p /\
        dc_R_coeffs cd = first_coefficients m ipc_data size /\
        s = (with_devs (with_heap w a m) (<[p := set_state COMP_STATE_READY (comp_alloc config)]> (w_devs w)), <[p := cd]> x) /\
        forall B (y : gmap Z B), in_live w y -> y !! p = None)).

Lemma dcblock_new_ok ipc_data drv config type size data w x :
  al_inv (w_alloc w) -> ipc_data <> 0 ->
  wp (dcblock_new PLATFORM_MAX_CHANNELS sizeof_comp_dev sizeof_comp_data ipc_data drv config (SpecProcess type size data)) (w, x)
    (dcblock_created w x config ipc_data size).
Proof using Hdev Hdata.
  intros Ha Hipc. unfold dcblock_new. drv_step. eapply wp_lift; [reflexivity|]. do 2 drv_step.
  destruct (zalloc_alloc_ok w sizeof_comp_dev Ha Hdev) as (a1 & m1 & p & E1 & Ha1 & _ & Hp). eexists _, _. split; [exact E1|].
  destruct Hp as [(-> & Hl1 & ->)|(Hp & rd & Hl1 & [Hin1 Hin2] & Hap)].
  { simpl. drv_step. exists a1, (w_mem w). split; [done|left]. by rewrite Hl1. }
  rewrite (proj2 (Z.eqb_neq _ _) Hp). do 2 drv_step.
  destruct (zalloc_alloc_ok (with_heap w a1 m1) sizeof_comp_data Ha1 Hdata) as (a2 & m2 & c & E2 & Ha2 & _ & Hc). eexists _, _. split; [exact E2|].
  destruct Hc as [(-> & Hl2 & ->)|(Hc & rc & Hl2 & [Hic1 Hic2] & _)].
  { simpl. drv_step. apply (wp_free_block _ x rd _ (al_live (w_alloc w))); [done|simpl; simpl in Hl2; by rewrite Hl2|unfold inside; lia|].
    intros a Ha3 Hl3. drv_step. exists a, m1. split; [done|by left]. }
  rewrite (proj2 (Z.eqb_neq _ _) Hc). do 2 drv_step. drv_step. simpl in Hl2.
  assert (forall cd, dc_self cd = c -> dc_R_coeffs cd = first_coefficients m2 ipc_data size -> wp (set_drvdata p cd ;;
    in_world (modify (fun w => with_devs w (<[p := set_state COMP_STATE_READY (comp_alloc config)]> (w_devs w)))) ;; mret p)
    (with_heap w a2 m2, x) (dcblock_created w x config ipc_data size)) as Hend.
  { intros cd Ec ER. repeat drv_step. exists a2, m2. split; [done|right]. split; [done|]. exists cd, rc, rd.
    split_and!; [by rewrite Hl2, Hl1|unfold inside; lia|unfold inside; lia|done|done|]. intros B y Hy. apply (fresh_lookup y (al_live (w_alloc w)) rd); [done|done|unfold inside; lia]. }
  unfold first_coefficients in Hend. destruct (size =? _); [rewrite (proj2 (Z.eqb_neq _ _) Hipc)|]; drv_step; by apply Hend.
Qed.

(** Creating one either fails and gives back all memory, or it returns a component in
    state READY whose freeing gives back exactly its memory. *)
Lemma dcblock_new_free ipc_data drv config type size data w x :
  al_inv (w_alloc w) -> in_live w (w_devs w) -> in_live w x -> ipc_data <> 0 ->
  exists s p, dcblock_new PLATFORM_MAX_CHANNELS sizeof_comp_dev sizeof_comp_data ipc_data drv config (SpecProcess type size data) (w, x) = Some (s, p) /\
    let restored (s : world A * gmap Z dcblock_data) :=
      al_inv (w_alloc s.1) /\ al_live (w_alloc s.1) ≡ₚ al_live (w_alloc w) /\ w_devs s.1 = w_devs w /\ s.2 = x in
    if decide (p = 0) then restored s else
    w_devs s.1 !! p = Some (set_state COMP_STATE_READY (comp_alloc config)) /\
    (exists cd, s.2 !! p = Some cd /\ dc_R_coeffs cd = first_coefficients (w_mem s.1) ipc_data size) /\
    exists s', dcblock_free p s = Some (s', tt) /\ restored s'.
Proof using Hdev Hdata.
  intros Ha Hd Hx Hipc.
  destruct (dcblock_new_ok ipc_data drv config type size data w x Ha Hipc) as (s & p & E & a & m & Ha' & H).
  exists s, p. split; [done|]. destruct H as [(-> & Hl & ->)|(Hp & cd & rc & rd & Hl & Hc & Hr & HR & -> & Hf)]; [done|].
  rewrite decide_False by done. simpl. rewrite !lookup_insert_eq. split_and!; [done|by exists cd|].
  destruct (dcblock_free_ok (with_devs (with_heap w a m) (<[p := set_state COMP_STATE_READY (comp_alloc config)]> (w_devs w)))
    (<[p := cd]> x) p cd rc rd _ (lookup_insert_eq x p cd) Ha' Hl Hc Hr) as (s' & [] & Ef & a' & Ha2 & Hl2 & ->).
  eexists. split; [exact Ef|]. simpl. rewrite !delete_insert_id by (by apply Hf). done.
Qed.
End life.

(** ** Examples *)

#[local] Instance dcblock_allocator : Allocator mm := heap_allocator baytrail baytrail_dcache 4096 65536.

(** Two frames of two 16-bit channels, 1000, 7, 500 and 9, in a ring that wraps. The
    coefficient of channel 0 is 0.5 and that of channel 1 is 1.0. *)
Definition demo_dcb_in : audio_stream := demo_stream_at 1000 4 8.
Definition demo_dcb_out : audio_stream := demo_stream_at 3000 4 0.

Definition demo_dcb_mem : mem := fun a =>
  if a =? 1004 then 232 else if a =? 1005 then 3 else if a =? 1006 then 7 else
  if a =? 1000 then 244 else if a =? 1001 then 1 else if a =? 1002 then 9 else 0.

Definition demo_dcb_data : dcblock_data :=
  mk_dcb 900 [dcblock_start; dcblock_start] [536870912; ONE_Q2_30] SOF_IPC_FRAME_S16_LE SOF_IPC_FRAME_S16_LE DcbS16.
Definition demo_dcb_dev : comp_dev := set_state COMP_STATE_ACTIVE (demo_dev 1 50 0 SOF_COMP_DCBLOCK [100] [102]).

Definition demo_dcb_world (out : audio_stream) : world mm := mk_world
  {[1 := demo_dcb_dev]} {[100 := buf_on 100 2 1 demo_dcb_in; 102 := buf_on 102 1 3 out]}
  ∅ demo_dcb_mem demo_mm [] ∅ (w_data demo_world) [] [].

Lemma demo_dcb_graph : io_graph (demo_dcb_world demo_dcb_out) {[1 := demo_dcb_data]} 1 demo_dcb_dev demo_dcb_data 100 102
  (buf_on 100 2 1 demo_dcb_in) (buf_on 102 1 3 demo_dcb_out).
Proof. constructor; try reflexivity. done. Qed.

Lemma demo_dcb_ok : dcblock_ok DcbS16 2 demo_dcb_data (buf_on 100 2 1 demo_dcb_in) (buf_on 102 1 3 demo_dcb_out) (fun _ => []).
Proof.
  constructor; [done|constructor|].
  - apply demo_stream_samples; try lia; [by exists 2|by exists 4].
  - apply demo_stream_samples; try lia; [by exists 2|by exists 0].
  - split; [by exists 2|by exists 1].
  - split; [by exists 2|by exists 1].
  - unfold disjoint_rings. simpl. lia.
  - intros [|[|j]] Hj; [| |lia]; eexists; (split; reflexivity).
Qed.

Lemma dcblock_copy_filters_witness :
  exists m' tr states' b' k',
    dcblock_copy 1 (demo_dcb_world demo_dcb_out, {[1 := demo_dcb_data]}) =
      Some ((io_world (demo_dcb_world demo_dcb_out) 100 102 b' k' m' tr, <[1 := dc_set_state demo_dcb_data states']> {[1 := demo_dcb_data]}), 0) /\
    dcblock_period DcbS16 2 demo_dcb_mem demo_dcb_data (buf_on 100 2 1 demo_dcb_in) (buf_on 102 1 3 demo_dcb_out) (fun _ => []) m' states' b' k'.
Proof.
  apply (dcblock_copy_filters DcbS16 2 dcblock_filters_s16 ltac:(lia) (demo_dcb_world demo_dcb_out) {[1 := demo_dcb_data]} 1 demo_dcb_dev
    demo_dcb_data 100 102 (buf_on 100 2 1 demo_dcb_in) (buf_on 102 1 3 demo_dcb_out) (fun _ => []));
    [apply demo_dcb_graph|apply demo_dcb_ok|reflexivity].
Defined.

Definition copied (out : audio_stream) : option (Z * list Z) :=
  r ← dcblock_copy 1 (demo_dcb_world out, {[1 := demo_dcb_data]});
  b ← w_bufs r.1.1 !! 102; Some (r.2, samples FMT_S16 (w_mem r.1.1) (b_stream b)).

Example demo_dcb_copy : copied demo_dcb_out = Some (0, [1000; 7; 0; 9]).
Proof. vm_compute. reflexivity. Qed.

(** A sink that holds samples, here one frame of zeros: the new frame is written over
    the samples that wait at the read pointer, and the place where it should be, which
    the commit makes readable, keeps its old contents. *)
Example dcblock_overwrites_waiting : copied (demo_stream_at 3000 4 4) = Some (0, [1000; 7; 0; 0]).
Proof. vm_compute. reflexivity. Qed.

(** A request of the host for the coefficients with a size that is too small is a failed
    assertion, not an error. *)
Example dcblock_get_small_faults :
  dcblock_cmd 8 1 COMP_CMD_GET_DATA SOF_CTRL_CMD_BINARY (mk_cdata 0 0 0 31 7000) 384 (demo_dcb_world demo_dcb_out, {[1 := demo_dcb_data]}) = None.
Proof. vm_compute. reflexivity. Qed.
