(* ===== verification/EqFir.v ===== *)
(** * The FIR equalizer

    [src/audio/eq_fir/eq_fir.c] and [src/audio/eq_fir/eq_fir_generic.c] with
    [include/user/eq.h] and [include/sof/math/fir_config.h], for the generic filters
    and with the three sample formats configured. The component filters every
    channel with the response that a configuration blob assigns to it. *)

From stdpp Require Import base list numbers option gmap.
From S2P Require Import Prelude StateM AudioStream StreamCopy Heap HeapMap HeapSpec HeapFree HeapZones Allocator.
From S2P Require Import Buffer Numbers DataBlob CompState Pipeline PipelineOps Format SampleLoop.
From S2P Require Import ChannelLoop Fir Topology Driver EqComp.

Abbreviation SOF_EQ_FIR_MAX_SIZE := 4096 (only parsing).
Abbreviation SOF_EQ_FIR_MAX_RESPONSES := 8%nat (only parsing).
Abbreviation SOF_FIR_COEF_NHEADER := 10 (only parsing).

(** ** Filtering streams *)

(** One sample of a channel: [inp] is the conversion to 32 bits and [outp] the one
    back. *)
Definition eq_step (inp outp : Z -> Z) (m : mem) (filter : fir_state_32x16) (x : Z) : option (mem * fir_state_32x16 * Z) :=
  r ← fir_32x16 m filter (inp x);
  let '(m, filter, z) := r in
  Some (m, filter, outp z).

Definition eq_fir_s16 :=
  stream_run (eq_step (fun x => i32 (Z.shiftl (i16 x) 16)) (fun z => sat_int16 (Q_SHIFT_RND z 31 15))) 2 2.
Definition eq_fir_s24 :=
  stream_run (eq_step (fun x => i32 (Z.shiftl (i32 x) 8)) (fun z => sat_int24 (Q_SHIFT_RND z 31 23))) 4 4.
Definition eq_fir_s32 := stream_run (eq_step i32 (fun z => z)) 4 4.

Definition eq_fir_passthrough (m : mem) (fir : list fir_state_32x16) (source sink : audio_stream) (frames nch : Z) :
    option (mem * list fir_state_32x16) :=
  r ← audio_stream_copy m source 0 sink 0 (u32 (frames * nch));
  Some (r.1, fir).

(** [eq_fir_func] *)
Inductive eq_func := EqNull | EqS16 | EqS24 | EqS32 | EqPassthrough.

#[export] Instance eq_func_eq_dec : EqDecision eq_func.
Proof. solve_decision. Defined.

Definition eq_with (fn : eq_func) : mem -> list fir_state_32x16 -> audio_stream -> audio_stream -> Z -> Z ->
    option (mem * list fir_state_32x16) :=
  match fn with
  | EqNull => fun _ _ _ _ _ _ => None
  | EqS16 => eq_fir_s16
  | EqS24 => eq_fir_s24
  | EqS32 => eq_fir_s32
  | EqPassthrough => eq_fir_passthrough
  end.

(** ** The configuration blob *)

(** The fields of the [struct sof_eq_fir_config] at an address. *)
Definition channels_in_config (m : mem) (config : Z) : Z := load_le 2 m (config + 4).
Definition number_of_responses (m : mem) (config : Z) : Z := load_le 2 m (config + 6).
Definition config_data (config : Z) : Z := config + 24.
Definition assign_response (m : mem) (config : Z) (i : nat) : Z := load_s16 m (config_data config + 2 * Z.of_nat i).

(** The responses from number [i] on, [n] of them; [j] is the index of the next one
    in [coef_data]. *)
Fixpoint collect_responses (n : nat) (i : Z) (m : mem) (coef_data responses j : Z) : list Z :=
  match n with
  | O => []
  | S n =>
      if i <? responses then
        (coef_data + 2 * j) ::
        collect_responses n (i + 1) m coef_data responses (i32 (j + SOF_FIR_COEF_NHEADER + load_s16 m (coef_data + 2 * j)))
      else 0 :: collect_responses n (i + 1) m coef_data responses j
  end.

(** [lookup] *)
Definition eq_lookup (m : mem) (config : Z) : list Z :=
  collect_responses SOF_EQ_FIR_MAX_RESPONSES 0 m (config_data config + 2 * channels_in_config m config)
    (number_of_responses m config) 0.

(** ** The equalizer *)

Abbreviation fir_eq := (eq_data fir_state_32x16 eq_func) (only parsing).

Section eq.
(** The size of the arrays of channels, and [FIR_MAX_LENGTH_BUILD_SPECIFIC] where it
    is defined. *)
Context (PLATFORM_MAX_CHANNELS : nat) (FIR_MAX_LENGTH_BUILD_SPECIFIC : option Z).

Definition length_exceeds (fir : fir_state_32x16) (nch : Z) : bool :=
  match FIR_MAX_LENGTH_BUILD_SPECIFIC with
  | Some limit => i32 (fir_taps fir * nch) >? limit
  | None => false
  end.

Definition fir_no_delay (f : fir_state_32x16) : fir_state_32x16 :=
  mk_fir (fir_rwi f) (fir_taps f) (fir_length f) (fir_out_shift f) (fir_coef f) 0.

Definition fir_kind : eq_kind fir_state_32x16 :=
  mk_kind fir_reset fir_init_coef fir_delay_size (fun f => fir_length f >? 0) fir_init_delay fir_no_delay length_exceeds
    (Z.of_nat SOF_EQ_FIR_MAX_RESPONSES) channels_in_config number_of_responses assign_response eq_lookup.

Definition eq_fir_init_coef := eq_init_coef fir_kind PLATFORM_MAX_CHANNELS.
Definition eq_fir_init_delay := eq_init_delay fir_kind.

Section component.
Context {A : Type} `{!Allocator A} (sizeof_comp_dev sizeof_comp_data sizeof_blob : Z).
Notation MX := (ST (world A * gmap Z fir_eq)).

(** [rballoc] *)
Definition world_balloc (bytes : Z) : M A Z := fun w =>
  r ← rballoc (w_alloc w) 0 SOF_MEM_CAPS_RAM bytes; Some (with_alloc w r.1, r.2).

Definition eq_fir_free_delaylines : fir_eq -> M A fir_eq := eq_free_delaylines fir_kind.
Definition eq_fir_setup : fir_eq -> Z -> M A (fir_eq * Z) := eq_setup fir_kind PLATFORM_MAX_CHANNELS world_balloc.

(** [None] for an invalid format. *)
Definition eq_func_of (frame_fmt : Z) : option eq_func :=
  if frame_fmt =? SOF_IPC_FRAME_S16_LE then Some EqS16
  else if frame_fmt =? SOF_IPC_FRAME_S24_4LE then Some EqS24
  else if frame_fmt =? SOF_IPC_FRAME_S32_LE then Some EqS32
  else None.

Definition set_fir_func (dev : Z) (ed : fir_eq) : M A (fir_eq * Z) :=
  d ← get_dev dev;
  sourceb ← lift (head (d_bsource_list d));
  b ← get_buf sourceb;
  match eq_func_of (s_frame_fmt (b_stream b)) with
  | Some fn => mret (ed_set_func ed fn, 0)
  | None => mret (ed, - EINVAL)
  end.

Definition eq_fir_new : Z -> Z -> comp_ipc_config -> ipc_config_specific -> MX Z :=
  eq_new fir_kind PLATFORM_MAX_CHANNELS sizeof_comp_dev sizeof_comp_data sizeof_blob SOF_EQ_FIR_MAX_SIZE (mk_fir 0 0 0 0 0 0) EqNull.
Definition eq_fir_free : Z -> MX unit := eq_free fir_kind.

Definition fir_cmd_get_data : Z -> Z -> sof_ipc_ctrl_data -> Z -> MX (Z * Z) := eq_cmd_get_data.
Definition fir_cmd_set_data : Z -> Z -> sof_ipc_ctrl_data -> MX Z := eq_cmd_set_data.
Definition eq_fir_cmd : Z -> Z -> Z -> sof_ipc_ctrl_data -> Z -> MX (Z * Z) := eq_cmd.
Definition eq_fir_trigger : Z -> Z -> MX Z := eq_trigger EqNull.
Definition eq_fir_reset : Z -> MX Z := eq_reset fir_kind EqNull.

Definition eq_fir_prepare (dev : Z) : MX Z :=
  ed ← get_drvdata dev;
  ret ← in_world (set_dev_state dev COMP_TRIGGER_PREPARE);
  if ret <? 0 then mret ret else
  if ret =? COMP_STATUS_STATE_ALREADY_SET then mret PPL_STATUS_PATH_STOP else
  d ← in_world (get_dev dev);
  sinkb ← lift (head (d_bsink_list d));
  sink ← in_world (get_buf sinkb);
  if s_size (b_stream sink) <? audio_stream_period_bytes (b_stream sink) (d_frames d) then
    in_world (set_dev_state dev COMP_TRIGGER_RESET) ;; mret (- ENOMEM)
  else
  ed ← in_world (get_data_blob ed);
  if negb (ed_config ed =? 0) then
    sourceb ← lift (head (d_bsource_list d));
    source ← in_world (get_buf sourceb);
    r ← in_world (eq_fir_setup ed (s_channels (b_stream source)));
    let '(ed, ret) := r in
    set_drvdata dev ed ;;
    if ret <? 0 then in_world (set_dev_state dev COMP_TRIGGER_RESET) ;; mret ret else
    r ← in_world (set_fir_func dev ed);
    set_drvdata dev r.1 ;;
    mret r.2
  else
    set_drvdata dev (ed_set_func ed EqPassthrough) ;;
    mret ret.

Definition eq_fir_process : Z -> Z -> Z -> Z -> Z -> Z -> MX unit := eq_process eq_with.

Definition eq_fir_copy (dev : Z) : MX Z :=
  d ← in_world (get_dev dev);
  sourceb ← lift (head (d_bsource_list d));
  b ← in_world (get_buf sourceb);
  ret ← check_config fir_kind PLATFORM_MAX_CHANNELS world_balloc dev (s_channels (b_stream b));
  if ret <? 0 then mret ret else
  sinkb ← lift (head (d_bsink_list d));
  k ← in_world (get_buf sinkb);
  let cl := comp_get_copy_limits (b_stream b) (b_stream k) in
  (if cl_frames cl >=? 2 then
     let n := Z.shiftl (Z.shiftr (cl_frames cl) 1) 1 in
     eq_fir_process dev sourceb sinkb n (u32 (n * cl_source_frame_bytes cl)) (u32 (n * cl_sink_frame_bytes cl))
   else mret tt) ;;
  mret 0.

Definition eq_fir_driver (ipc_data : Z) : driver_ops A (gmap Z fir_eq) := mk_driver_ops (eq_fir_new ipc_data) eq_fir_free.
End component.
End eq.
