(* ===== verification/EqFirCopy.v ===== *)
(** * One period of the FIR equalizer

    [eq_fir_copy] of [src/audio/eq_fir/eq_fir.c] on queues of samples: every channel
    of the sink gains the convolution of the channel of the source with the response
    of that channel, and the history of the filter goes on where the period
    before ended. *)

From stdpp Require Import base list numbers option gmap.
From S2P Require Import Prelude StateM AudioStream StreamCopy Heap HeapMap HeapSpec HeapFree HeapZones Allocator.
From S2P Require Import Buffer Numbers DataBlob CompState Pipeline PipelineOps PipelineWalk PipelineThms PipelineLife.
From S2P Require Import Format SampleLoop PcmConvert PcmThms ChannelLoop Fir Topology TopologyInv Driver SampleQueue.
From S2P Require Import ChannelCopy Mixer MixerThms MixerCopy EqComp EqPeriod EqFir.

(** ** One filter, or none *)

Definition fir_chan (f : fir_state_32x16) : Prop := fir_length f = 0 \/ fir_wf f.

Definition in_coefs (f : fir_state_32x16) (a : Z) : Prop := fir_coef f <= a < fir_coef f + 2 * fir_length f.

(** What a filter is: its coefficients, its shift and the samples before, newest
    first; or nothing, and samples are passed on. *)
Definition fir_abs : Type := option (list Z * Z * list Z).

Definition fir_rep (m : mem) (f : fir_state_32x16) (h : fir_abs) : Prop :=
  match h with
  | None => fir_length f = 0
  | Some (cs, out_shift, h) =>
      fir_wf f /\ cs = coefs m (fir_coef f) (Z.to_nat (fir_length f)) /\ out_shift = fir_out_shift f /\ fir_hist m f h
  end.

Definition abs_value (h : fir_abs) (x : Z) : Z :=
  match h with None => x | Some (cs, out_shift, h) => fir_out cs out_shift (push x h) end.

Definition abs_next (h : fir_abs) (x : Z) : fir_abs :=
  match h with None => None | Some (cs, out_shift, h) => Some (cs, out_shift, push x h) end.

Lemma fir_hist_ext m m' f h : (forall a, in_delay f a -> m' a = m a) -> fir_hist m f h -> fir_hist m' f h.
Proof.
  intros H [Hl Hh]. split; [done|]. intros i x Hi. rewrite <- (Hh i x Hi). unfold load_s32. f_equal. apply le_load_ext.
  intros a Ha. apply H. unfold in_delay. pose proof (lookup_lt_Some _ _ _ Hi) as Hlt.
  pose proof (Z.mod_pos_bound (fir_rwi f - 1 - Z.of_nat i) (fir_length f) ltac:(lia)). lia.
Qed.

Lemma fir_rep_ext m m' f h :
  (forall a, in_delay f a \/ in_coefs f a -> m' a = m a) -> fir_rep m f h -> fir_rep m' f h.
Proof.
  intros H. destruct h as [[[cs sh] h]|]; [|done]. intros (W & -> & -> & Hh). split_and!; [done| |done|].
  - symmetry. apply coefs_ext. intros a Ha. apply H. right. unfold in_coefs. pose proof (fw_length _ W). lia.
  - eapply fir_hist_ext; [|exact Hh]. intros a Ha. apply H. by left.
Qed.

Lemma fir_rep_step m f h x :
  fir_rep m f h -> is_s32 x ->
  exists m' f', fir_32x16 m f x = Some (m', f', abs_value h x) /\ fir_rep m' f' (abs_next h x) /\
    (forall a, in_delay f' a <-> in_delay f a) /\ (forall a, in_coefs f' a <-> in_coefs f a) /\
    (forall a, ~ in_delay f a -> m' a = m a).
Proof.
  destruct h as [[[cs sh] h]|]; simpl; intros Hrep Hx.
  - destruct Hrep as (W & -> & -> & Hh). destruct (fir_step m f h x W Hh Hx) as (m' & E & Hh' & Hm).
    exists m', (fir_next f). split_and!; try done; [by apply fir_next_wf|]. symmetry. apply coefs_ext. intros a Ha.
    apply Hm. destruct W. simpl in Ha. unfold in_delay. lia.
  - exists m, f. unfold fir_32x16. rewrite Hrep. by split_and!.
Qed.

Section filter.
Context (inp outp : Z -> Z).
Hypothesis Hinp : forall x, is_s32 (inp x).

#[local, refine] Instance fir_filter : ChannelFilter (eq_step inp outp) fir_abs := {|
  fl_rep := fir_rep;
  fl_value h x := outp (abs_value h (inp x));
  fl_next h x := abs_next h (inp x);
  fl_owns := in_delay;
  fl_reads f a := in_delay f a \/ in_coefs f a
|}.
Proof.
  - by left.
  - apply fir_rep_ext.
  - intros m f h x Hrep. destruct (fir_rep_step m f h (inp x) Hrep (Hinp x)) as (m' & f' & E & Hrep' & H1 & H2 & H3).
    exists m', f'. unfold eq_step. rewrite E. split_and!; try done. intros a. by rewrite H1, H2.
Defined.
End filter.

(** ** All channels *)

(** A byte of some delay line. *)
Definition delay_byte (nch : nat) (firs : list fir_state_32x16) (a : Z) : Prop :=
  exists (j : nat) f, (j < nch)%nat /\ firs !! j = Some f /\ in_delay f a.

(** The filters of the channels with their histories; the delay lines, the
    coefficients and the rings are apart from one another. *)
Record filters_ok (nch : nat) (source sink : audio_stream) (m : mem) (firs : list fir_state_32x16) (hs : list (list Z)) : Prop := {
  fo_chan j : (j < nch)%nat -> exists f h, firs !! j = Some f /\ hs !! j = Some h /\ fir_chan f /\ fir_hist m f h;
  fo_delays j j' f f' a : (j < nch)%nat -> (j' < nch)%nat -> firs !! j = Some f -> firs !! j' = Some f' ->
    in_delay f a -> in_delay f' a -> j = j';
  fo_rings a : delay_byte nch firs a -> ~ in_ring source a /\ ~ in_ring sink a;
  fo_coefs j f a : (j < nch)%nat -> firs !! j = Some f -> in_coefs f a -> ~ in_ring sink a /\ ~ delay_byte nch firs a
}.

(** What a filter with a history is. *)
Definition fir_view (m : mem) (f : fir_state_32x16) (h : list Z) : fir_abs :=
  if fir_length f =? 0 then None
  else Some (coefs m (fir_coef f) (Z.to_nat (fir_length f)), fir_out_shift f, h).

Definition firs_view (m : mem) (firs : list fir_state_32x16) (hs : list (list Z)) (j : nat) : fir_abs :=
  match firs !! j, hs !! j with Some f, Some h => fir_view m f h | _, _ => None end.

Lemma fir_view_rep m f h : fir_chan f -> fir_hist m f h -> fir_rep m f (fir_view m f h).
Proof.
  intros Hc Hh. unfold fir_view. case_if; [done|]. destruct Hc as [|W]; [done|]. by split_and!.
Qed.

Section filters.
Context (inp outp : Z -> Z) (nch : nat) (source sink : audio_stream) (m : mem) (firs : list fir_state_32x16).
Hypothesis Hinp : forall x, is_s32 (inp x).

Lemma filters_channels hs :
  filters_ok nch source sink m firs hs ->
  channels_ok (eq_step inp outp) (F := fir_filter inp outp Hinp) nch source sink m firs (firs_view m firs hs).
Proof.
  intros [Hc Hd Hr Hco]. constructor; simpl.
  - intros j Hj. destruct (Hc j Hj) as (f & h & Hf & Hh & Hch & Hhist). exists f. split; [done|]. unfold firs_view. rewrite Hf, Hh.
    by apply fir_view_rep.
  - intros j j' f f' a Hj Hj' Hf Hf' Ha [Ha'|Ha']; [by eapply Hd|]. destruct (Hco j' f' a Hj' Hf' Ha') as [_ Hn].
    exfalso. apply Hn. by exists j, f.
  - intros j f a Hj Hf Ha. apply Hr. by exists j, f.
  - intros j f a Hj Hf [Ha|Ha]; [apply Hr; by exists j, f|by eapply Hco].
Qed.

Lemma channels_filters views hs :
  channels_ok (eq_step inp outp) (F := fir_filter inp outp Hinp) nch source sink m firs views ->
  (forall j, (j < nch)%nat -> hs !! j = Some (match views j with Some (_, _, h) => h | None => [] end)) ->
  filters_ok nch source sink m firs hs.
Proof.
  intros [Hrep Hap Hs Hk] Hh. simpl in *.
  assert (forall a, delay_byte nch firs a -> ~ in_ring source a /\ ~ in_ring sink a) as Hr.
  { intros a (j & f & Hj & Hf & Ha). split; [by eapply Hs|]. eapply Hk; [done..|by left]. }
  constructor; [| |done|].
  - intros j Hj. destruct (Hrep j Hj) as (f & Hf & Hr'). exists f. specialize (Hh j Hj).
    destruct (views j) as [[[cs sh] h]|]; simpl in Hr'; [|rename Hr' into H0].
    + destruct Hr' as (W & _ & _ & Hhist). exists h. split_and!; [done|done|by right|done].
    + exists []. split_and!; [done|done|by left|]. split; [by rewrite H0|done].
  - intros j j' f f' a Hj Hj' Hf Hf' Ha Ha'. eapply Hap; [done|done|exact Hf|exact Hf'|done|by left].
  - intros j f a Hj Hf Ha. split; [eapply Hk; [done..|by right]|]. intros (j' & f' & Hj' & Hf' & Ha').
    assert (j' = j) as -> by (eapply Hap; [done|done|exact Hf'|exact Hf|done|by right]). simplify_eq.
    destruct (Hrep j Hj) as (g & Hg & Hr'). simplify_eq. unfold in_coefs, in_delay in *. destruct (views j) as [[[cs sh] h]|]; simpl in Hr'.
    + destruct Hr' as ([] & _). lia.
    + lia.
Qed.
End filters.

(** ** Formats *)

(** The three functions that filter. *)
Inductive eq_filters : eq_func -> Prop :=
| eq_filters_s16 : eq_filters EqS16
| eq_filters_s24 : eq_filters EqS24
| eq_filters_s32 : eq_filters EqS32.

Definition eq_fmt (fn : eq_func) : pcm_fmt := match fn with EqS16 => FMT_S16 | EqS24 => FMT_S24 | _ => FMT_S32 end.

Lemma eq_fmt_int fn : eq_fmt fn <> FMT_FLOAT.
Proof. by destruct fn. Qed.

Lemma eq_with_stream fn :
  eq_filters fn -> eq_with fn = stream_run (eq_step (to_s32 (eq_fmt fn)) (of_s32 (eq_fmt fn))) (fmt_width (eq_fmt fn)) (fmt_width (eq_fmt fn)).
Proof. by intros []. Qed.

#[export] Instance eq_filter fn : ChannelFilter (eq_step (to_s32 (eq_fmt fn)) (of_s32 (eq_fmt fn))) fir_abs :=
  fir_filter (to_s32 (eq_fmt fn)) (of_s32 (eq_fmt fn)) (to_s32_range (eq_fmt fn)).

(** ** The result *)

(** Output [t] of a channel: the filter [f], the inputs [ys] of the period and the
    inputs [h] before it, newest first. *)
Definition eq_result (fmt : pcm_fmt) (m : mem) (f : fir_state_32x16) (h ys : list Z) (t : nat) : Z :=
  sample_spec FMT_S32 fmt
    (if fir_length f =? 0 then nth t ys 0
     else sat_int32 (Z.shiftr (dot (coefs m (fir_coef f) (Z.to_nat (fir_length f))) (reverse (take (S t) ys) ++ h))
            (15 + fir_out_shift f))).

(** The history after a period. *)
Definition history (h ys : list Z) : list Z := take (length h) (reverse ys ++ h).

Section result.
Context (fn : eq_func) (nch : nat) (source sink : audio_stream) (m : mem) (firs : list fir_state_32x16) (hs : list (list Z)).
Notation fmt := (eq_fmt fn).
Notation step := (eq_step (to_s32 (eq_fmt fn)) (of_s32 (eq_fmt fn))).
Notation views := (firs_view m firs hs).
Notation chan_in_of := (chan_in (fmt_width fmt) nch source (s_r_ptr source) m).
Notation chan_state_of := (chan_state step (fmt_width fmt) nch source (s_r_ptr source) m views).
Notation chan_out_of := (chan_out step (fmt_width fmt) nch source (s_r_ptr source) m views).

(** The state of a channel: the filter that it started with, with the history. *)
Lemma chan_state_view j f h t :
  firs !! j = Some f -> hs !! j = Some h -> chan_state_of j t = fir_view m f (history h (channel_in fmt nch m source t j)).
Proof.
  intros Hf Hh. induction t as [|t IH]; simpl chan_state.
  { unfold firs_view. rewrite Hf, Hh. unfold history. simpl. by rewrite take_ge. }
  rewrite IH, chan_in_sample by apply eq_fmt_int. unfold fir_view, abs_next. case_if; [done|]. do 2 f_equal.
  unfold history at 1. rewrite push_take. unfold history. rewrite channel_in_S, reverse_app. simpl.
  f_equal. rewrite length_take, length_app. lia.
Qed.

Lemma chan_out_result j t n f h :
  (t < n)%nat -> firs !! j = Some f -> hs !! j = Some h -> length h = Z.to_nat (fir_length f) ->
  chan_out_of j t = eq_result fmt m f h (channel_in fmt nch m source n j) t.
Proof.
  intros Ht Hf Hh Hl. unfold chan_out. rewrite (chan_state_view j f h t Hf Hh). unfold eq_result, fir_view. simpl fl_value.
  rewrite chan_in_sample by apply eq_fmt_int. destruct (Z.eqb_spec (fir_length f) 0) as [E|E]; simpl abs_value.
  - rewrite of_s32_spec; [|apply eq_fmt_int|rewrite <- to_s32_spec by apply eq_fmt_int; apply to_s32_range]. f_equal.
    symmetry. by apply nth_lookup_Some, channel_in_lookup.
  - rewrite of_s32_spec; [|apply eq_fmt_int|]. 2:{ unfold fir_out. rewrite sat_int32_clamp. unfold clamp, is_s32. lia. }
    f_equal. unfold fir_out. do 2 f_equal. unfold history. rewrite push_take.
    replace (length (take (length h) _)) with (length (coefs m (fir_coef f) (Z.to_nat (fir_length f)))).
    2:{ unfold coefs. rewrite length_fmap, length_seq, length_take, length_app. lia. }
    rewrite dot_take, channel_in_take by lia. f_equal. by rewrite channel_in_S, reverse_app.
Qed.
End result.

(** ** The operation *)

Section copy.
Context {A : Type} `{!Allocator A} (PLATFORM_MAX_CHANNELS : nat) (FIR_MAX_LENGTH_BUILD_SPECIFIC : option Z).
Context (fn : eq_func) (nch : nat).
Hypothesis Hfn : eq_filters fn.
Hypothesis Hch : 0 < Z.of_nat nch < 2 ^ 16.
Implicit Types (w : world A) (x : gmap Z fir_eq).
Notation fmt := (eq_fmt fn).
Notation width := (Z.of_nat (fmt_width fmt)).

(** It is configured, with whole frames in both buffers; [hs] are the histories of
    the channels. *)
Record eq_ok (m : mem) (ed : fir_eq) (b k : comp_buffer) (hs : list (list Z)) : Prop := {
  ek_func : ed_func ed = fn;
  ek_idle : comp_is_new_data_blob_available (ed_model_handler ed) = false;
  ek_io : frames_io fmt fmt nch (b_stream b) (b_stream k);
  ek_filters : filters_ok nch (b_stream b) (b_stream k) m (ed_filters ed) hs
}.

(** The frames of a period: what the source has and the sink has room for, as an even
    number. *)
Definition eq_frames (b k : comp_buffer) : nat := Z.to_nat (2 * (common_frames (b_stream k) [b_stream b] / 2)).

(** The frames fit both buffers, and the copy has their number. *)
Lemma eq_limits m ed b k hs :
  eq_ok m ed b k hs ->
  let cl := comp_get_copy_limits (b_stream b) (b_stream k) in
  let n := Z.shiftl (Z.shiftr (cl_frames cl) 1) 1 in let bytes := width * Z.of_nat (eq_frames b k * nch) in
  (cl_frames cl >=? 2) = negb (eq_frames b k =? 0)%nat /\ n = Z.of_nat (eq_frames b k) /\
  bytes <= s_avail (b_stream b) /\ bytes <= s_free (b_stream k) /\
  u32 (n * cl_source_frame_bytes cl) = bytes /\ u32 (n * cl_sink_frame_bytes cl) = bytes.
Proof.
  intros K cl n bytes. destruct (io_limits fmt fmt nch Hch _ _ (ek_io _ _ _ _ _ K)) as (Ec & Hc & Hav & Hfree & Eb1 & Eb2).
  fold cl in Ec, Eb1, Eb2. set (c := common_frames _ _) in *. pose proof (width_pos fmt).
  pose proof (Z.mul_div_le c 2 ltac:(lia)). pose proof (Z.mul_succ_div_gt c 2 ltac:(lia)). pose proof (Z.div_pos c 2).
  assert (Z.of_nat (eq_frames b k) = 2 * (c / 2)) as En by (unfold eq_frames; fold c; lia).
  assert (n = Z.of_nat (eq_frames b k)) as Hn.
  { unfold n. rewrite Ec, En, Z.shiftl_mul_pow2, Z.shiftr_div_pow2 by lia. change (2 ^ 1) with 2. lia. }
  assert (bytes = Z.of_nat (eq_frames b k) * (width * Z.of_nat nch)) as Hb by (unfold bytes; rewrite Nat2Z.inj_mul; ring).
  replace (width * (c * Z.of_nat nch)) with (c * (width * Z.of_nat nch)) in Hav, Hfree by ring.
  assert (0 <= width * Z.of_nat nch) by nia. assert (0 <= bytes <= c * (width * Z.of_nat nch)) by (rewrite Hb; nia).
  split_and!; [|done|lia|lia|rewrite Hn, Eb1, <- Hb; apply u32_small; lia|rewrite Hn, Eb2, <- Hb; apply u32_small; lia].
  rewrite Ec, Z.geb_leb. destruct (Nat.eqb_spec (eq_frames b k) 0); simpl; lia.
Qed.

(** The histories after a period. *)
Definition eq_histories (m : mem) (b : comp_buffer) (n : nat) (hs : list (list Z)) : list (list Z) :=
  imap (fun j h => history h (channel_in fmt nch m (b_stream b) n j)) hs.

(** The filters after a period. *)
Lemma eq_ok_after m ed b k hs m' firs' b' k' :
  eq_ok m ed b k hs ->
  frames_moved fmt fmt nch (eq_step (to_s32 (eq_fmt fn)) (of_s32 (eq_fmt fn))) m (ed_filters ed) (firs_view m (ed_filters ed) hs) b k (eq_frames b k) m' firs' b' k' ->
  eq_ok m' (ed_set_filters ed firs') b' k' (eq_histories m b (eq_frames b k) hs).
Proof.
  intros K [_ I' C' _ _ _]. pose proof K as [E1 E2 I F]. constructor; try done.
  eapply (channels_filters _ _ _ _ _ _ _ (to_s32_range (eq_fmt fn))); [exact C'|].
  intros j Hj. destruct (fo_chan _ _ _ _ _ _ F j Hj) as (f & h & Hf & Hh & _ & Hl & _).
  unfold eq_histories. rewrite list_lookup_imap, Hh. simpl. f_equal.
  rewrite (chan_state_view fn nch _ m (ed_filters ed) hs j f h _ Hf Hh).
  unfold fir_view. destruct (Z.eqb_spec (fir_length f) 0) as [E|]; [|done]. rewrite E in Hl. by destruct h.
Qed.

(** What a period does: the source loses [n] frames, the sink gains them filtered,
    the filters go on. *)
Record eq_period (m : mem) (ed : fir_eq) (b k : comp_buffer) (hs : list (list Z)) (m' : mem) (firs' : list fir_state_32x16)
    (b' k' : comp_buffer) : Prop := {
  ep_ok : eq_ok m' (ed_set_filters ed firs') b' k' (eq_histories m b (eq_frames b k) hs);
  ep_source m1 : samples fmt m1 (b_stream b') = drop (eq_frames b k * nch) (samples fmt m1 (b_stream b));
  ep_sink : exists out, samples fmt m' (b_stream k') = samples fmt m (b_stream k) ++ out /\
    length out = (eq_frames b k * nch)%nat /\
    forall i j f h, (i < eq_frames b k)%nat -> (j < nch)%nat -> ed_filters ed !! j = Some f -> hs !! j = Some h ->
      out !! (i * nch + j)%nat =
        Some (pattern fmt (eq_result fmt m f h (channel_in fmt nch m (b_stream b) (eq_frames b k) j) i));
  ep_mem a : ~ in_ring (b_stream k) a -> ~ delay_byte nch (ed_filters ed) a -> m' a = m a
}.

Lemma eq_period_ok m ed b k hs m' firs' b' k' :
  eq_ok m ed b k hs ->
  frames_moved fmt fmt nch (eq_step (to_s32 (eq_fmt fn)) (of_s32 (eq_fmt fn))) m (ed_filters ed) (firs_view m (ed_filters ed) hs) b k (eq_frames b k) m' firs' b' k' ->
  eq_period m ed b k hs m' firs' b' k'.
Proof.
  intros K M. pose proof M as [_ _ _ Hs Hs' Hm]. constructor; [by apply eq_ok_after|done| |done].
  eexists. split_and!; [exact Hs'|by rewrite length_fmap, length_seq|]. intros i j f h Hi Hj Hf Hh.
  rewrite frame_sample_lookup by done. do 2 f_equal.
  destruct (fo_chan _ _ _ _ _ _ (ek_filters _ _ _ _ _ K) j Hj) as (f' & h' & Hf' & Hh' & _ & [Hl _]). simplify_eq.
  by apply chan_out_result.
Qed.

Lemma fir_process_ok w x dev d ed sa ka b k hs :
  io_graph w x dev d ed sa ka b k -> eq_ok (w_mem w) ed b k hs ->
  let n := Z.of_nat (eq_frames b k) in let bytes := width * Z.of_nat (eq_frames b k * nch) in
  wp (eq_fir_process dev sa ka n bytes bytes) (w, x) (fun s _ => exists m' tr firs' b' k',
    s = (io_world w sa ka b' k' m' tr, <[dev := ed_set_filters ed firs']> x) /\
    eq_period (w_mem w) ed b k hs m' firs' b' k').
Proof.
  intros G K n bytes. destruct (eq_limits _ _ _ _ _ K) as (_ & _ & Hav & Hfree & _). pose proof K as [Ef _ I F].
  pose proof (filters_channels _ (of_s32 (eq_fmt fn)) _ _ _ _ _ (to_s32_range (eq_fmt fn)) hs F) as C.
  eapply wp_mono; [apply (eq_process_ok fmt fmt nch (eq_step (to_s32 (eq_fmt fn)) (of_s32 (eq_fmt fn))) Hch eq_with w x dev d ed sa ka b k
    (firs_view (w_mem w) (ed_filters ed) hs) (eq_frames b k)); try done|].
  - intros. rewrite Ef. by rewrite eq_with_stream.
  - intros s _ (m' & tr & firs' & b' & k' & -> & M). exists m', tr, firs', b', k'. split; [done|]. by apply eq_period_ok.
Qed.

(** Less than two frames: nothing is done. *)
Lemma eq_period_none m ed b k hs : eq_ok m ed b k hs -> eq_frames b k = 0%nat -> eq_period m ed b k hs m (ed_filters ed) b k.
Proof.
  intros K E. constructor; rewrite ?E; try done.
  - replace (eq_histories m b 0 hs) with hs; [by destruct ed|]. unfold eq_histories. apply list_eq. intros j.
    rewrite list_lookup_imap. destruct (hs !! j) as [h|]; [|done]. simpl. unfold history. simpl. by rewrite take_ge.
  - exists []. rewrite app_nil_r. split_and!; [done..|lia].
Qed.

(** C17: One period of a configured equalizer returns 0. It takes an even number of frames,
    all that the source has and the sink has room for but at most one, from the
    source; the sink gains as many, each sample of channel [j] the convolution
    of that channel of the source, including what came in earlier periods, with the
    response of the channel, saturated and in the format of the stream, or the
    sample itself when the channel is bypassed. The filters are ready for the next
    period, with the new inputs as their history. Only the ring of the sink and the
    delay lines are written. *)
Theorem eq_fir_copy_filters w x dev d ed sa ka b k hs :
  io_graph w x dev d ed sa ka b k -> eq_ok (w_mem w) ed b k hs ->
  exists m' tr firs' b' k',
    eq_fir_copy PLATFORM_MAX_CHANNELS FIR_MAX_LENGTH_BUILD_SPECIFIC dev (w, x) =
      Some ((io_world w sa ka b' k' m' tr, <[dev := ed_set_filters ed firs']> x), 0) /\
    eq_period (w_mem w) ed b k hs m' firs' b' k'.
Proof.
  intros G K. pose proof G as [Hd Hx Hsa Hka Hb Hk Hne].
  enough (wp (eq_fir_copy PLATFORM_MAX_CHANNELS FIR_MAX_LENGTH_BUILD_SPECIFIC dev) (w, x) (fun s r => r = 0 /\
    exists m' tr firs' b' k', s = (io_world w sa ka b' k' m' tr, <[dev := ed_set_filters ed firs']> x) /\
      eq_period (w_mem w) ed b k hs m' firs' b' k')) as (s & r & E & -> & m' & tr & firs' & b' & k' & -> & H).
  { by exists m', tr, firs', b', k'. }
  unfold eq_fir_copy. do 3 drv_step. do 2 drv_step. do 3 drv_step. drv_step.
  unfold check_config. do 2 drv_step. rewrite (ek_idle _ _ _ _ _ K). drv_step. change (0 <? 0) with false. cbv iota.
  do 2 drv_step. do 3 drv_step. cbv zeta. drv_step.
  destruct (eq_limits _ _ _ _ _ K) as (E1 & E2 & _ & _ & E3 & E4). rewrite E3, E4, E1, E2.
  destruct (Nat.eqb_spec (eq_frames b k) 0) as [E0|E0]; simpl negb; cbv iota.
  - do 2 drv_step. split; [done|]. exists (w_mem w), (w_trace w), (ed_filters ed), b, k. split; [|by apply eq_period_none].
    rewrite io_world_id by done. f_equal. symmetry. apply insert_id. rewrite Hx. by destruct ed.
  - eapply wp_mono; [by apply (fir_process_ok w x dev d ed sa ka b k hs)|]. intros s [] H. drv_step. done.
Qed.
End copy.

(** ** Examples *)

#[local] Instance eq_copy_allocator : Allocator mm := heap_allocator baytrail baytrail_dcache 4096 65536.

(** Two frames of two 16-bit channels, 1000, 7, 500 and 9, in a ring that wraps. Channel 0
    is averaged over two samples, channel 1 bypassed. *)
Definition demo_eq_in : audio_stream := demo_stream_at 1000 4 8.
Definition demo_eq_out : audio_stream := demo_stream_at 3000 4 0.

Definition demo_eq_mem : mem := fun a =>
  if a =? 1004 then 232 else if a =? 1005 then 3 else if a =? 1006 then 7 else
  if a =? 1000 then 244 else if a =? 1001 then 1 else if a =? 1002 then 9 else
  if (a =? 5001) || (a =? 5003) then 64 else 0.

Definition demo_eq_firs : list fir_state_32x16 := [mk_fir 0 2 2 0 5000 6000; mk_fir 0 0 0 0 0 0].
Definition demo_eq_data : fir_eq := mk_eq 900 demo_eq_firs (mk_blob 950 0 0 0 0 false 0) 0 6000 8 EqS16.
Definition demo_eq_dev : comp_dev := set_state COMP_STATE_ACTIVE (demo_dev 1 50 0 SOF_COMP_EQ_FIR [100] [102]).

Definition demo_eq_world : world mm := mk_world
  {[1 := demo_eq_dev]} {[100 := buf_on 100 2 1 demo_eq_in; 102 := buf_on 102 1 3 demo_eq_out]}
  ∅ demo_eq_mem demo_mm [] ∅ (w_data demo_world) [] [].

Lemma demo_eq_graph : io_graph demo_eq_world {[1 := demo_eq_data]} 1 demo_eq_dev demo_eq_data 100 102
  (buf_on 100 2 1 demo_eq_in) (buf_on 102 1 3 demo_eq_out).
Proof. constructor; try reflexivity. done. Qed.

Lemma demo_eq_filters : filters_ok 2 demo_eq_in demo_eq_out demo_eq_mem demo_eq_firs [[0; 0]; []].
Proof.
  assert (forall j f a, demo_eq_firs !! j = Some f -> in_delay f a -> j = 0%nat /\ 6000 <= a < 6008) as Hd.
  { intros [|[|j]] f a Hf Ha; simplify_eq/=; unfold in_delay in Ha; simpl in Ha; [split; [done|lia]|lia]. }
  constructor.
  - intros [|[|j]] Hj; [| |lia]; eexists _, _; split_and!; try reflexivity.
    + right. constructor; simpl; lia.
    + split; [done|]. intros [|[|i]] x Hx; simplify_eq/=; vm_compute; reflexivity.
    + by left.
    + done.
  - intros j j' f f' a _ _ Hf Hf' Ha Ha'. destruct (Hd _ _ _ Hf Ha) as [-> _]. by destruct (Hd _ _ _ Hf' Ha') as [-> _].
  - intros a (j & f & _ & Hf & Ha). destruct (Hd _ _ _ Hf Ha) as [_ ?]. unfold in_ring. simpl. lia.
  - intros [|[|j]] f a Hj Hf Ha; simplify_eq/=; unfold in_coefs in Ha; simpl in Ha; [|lia].
    split; [unfold in_ring; simpl; lia|]. intros (j & f & _ & Hf & Ha'). destruct (Hd _ _ _ Hf Ha') as [_ ?]. lia.
Qed.

Lemma demo_eq_ok : eq_ok EqS16 2 demo_eq_mem demo_eq_data (buf_on 100 2 1 demo_eq_in) (buf_on 102 1 3 demo_eq_out) [[0; 0]; []].
Proof.
  constructor; try done; [constructor|apply demo_eq_filters].
  - apply demo_stream_samples; try lia; [by exists 2|by exists 4].
  - apply demo_stream_samples; try lia; [by exists 2|by exists 0].
  - split; [by exists 2|by exists 1].
  - split; [by exists 2|by exists 1].
  - unfold disjoint_rings. simpl. lia.
Qed.

Lemma eq_fir_copy_filters_witness :
  exists m' tr firs' b' k',
    eq_fir_copy 8 None 1 (demo_eq_world, {[1 := demo_eq_data]}) =
      Some ((io_world demo_eq_world 100 102 b' k' m' tr, <[1 := ed_set_filters demo_eq_data firs']> {[1 := demo_eq_data]}), 0) /\
    eq_period EqS16 2 demo_eq_mem demo_eq_data (buf_on 100 2 1 demo_eq_in) (buf_on 102 1 3 demo_eq_out) [[0; 0]; []] m' firs' b' k'.
Proof.
  apply (eq_fir_copy_filters 8 None EqS16 2 eq_filters_s16 ltac:(lia) demo_eq_world {[1 := demo_eq_data]} 1 demo_eq_dev demo_eq_data
    100 102 (buf_on 100 2 1 demo_eq_in) (buf_on 102 1 3 demo_eq_out) [[0; 0]; []]); [apply demo_eq_graph|apply demo_eq_ok].
Defined.

Example demo_eq_copy :
  (r ← eq_fir_copy 8 None 1 (demo_eq_world, {[1 := demo_eq_data]});
   b ← w_bufs r.1.1 !! 102; Some (r.2, samples FMT_S16 (w_mem r.1.1) (b_stream b))) = Some (0, [500; 7; 750; 9]).
Proof. vm_compute. reflexivity. Qed.
