(* ===== verification/EqFirSetup.v ===== *)
(** * Configuring the FIR equalizer

    [eq_fir_setup] of [src/audio/eq_fir/eq_fir.c]: which blobs it accepts, the
    filters it makes of them, and the memory of the delay lines. *)

From stdpp Require Import base list numbers option gmap.
From S2P Require Import Prelude StateM AudioStream StreamCopy Heap HeapMap HeapSpec HeapFree HeapZones Allocator.
From S2P Require Import Buffer Numbers DataBlob CompState Pipeline PipelineOps PipelineWalk PipelineThms PipelineLife.
From S2P Require Import Format SampleLoop PcmConvert PcmThms Fir Topology TopologyInv Driver SampleQueue.
From S2P Require Import ChannelLoop ChannelCopy Mixer MixerThms MixerCopy EqComp EqSetup EqFir EqFirCopy.

(** ** The kind of filter *)

#[export, refine] Instance fir_eq_kind limit : EqKind (fir_kind limit) := {| kb_bytes f := 4 * fir_length f |}.
Proof.
  - done.
  - intros m f eq. simpl. unfold fir_delay_size. case_if; lia.
  - intros m eq. simpl. unfold fir_delay_size. case_if; lia.
  - intros f. simpl. destruct (Z.gtb_spec (fir_length f) 0), (Z.gtb_spec (4 * fir_length f) 0); done || lia.
  - done.
  - intros m config. simpl. unfold eq_lookup. assert (forall n i c r j, length (collect_responses n i m c r j) = n) as H; [|by rewrite H].
    intros n. induction n as [|n IH]; intros i c r j; [done|]. simpl. case_if; simpl; by rewrite IH.
  - intros m config. apply load_range.
Defined.

(** A filter on a cleared delay line. *)
Lemma fir_hist_zero m f :
  (forall a, in_delay f a -> m a = 0) -> fir_hist m f (replicate (Z.to_nat (fir_length f)) 0).
Proof.
  intros H. split; [by rewrite length_replicate|]. intros i x [-> Hi]%lookup_replicate. unfold load_s32. rewrite load_zero; [done|].
  intros a Ha. apply H. unfold in_delay. pose proof (Z.mod_pos_bound (fir_rwi f - 1 - Z.of_nat i) (fir_length f) ltac:(lia)). lia.
Qed.

(** What the code does not check of a blob of [size] bytes: the responses lie in it,
    and the shifts are shifts that C defines. *)
Definition blob_ok (m : mem) (config size : Z) : Prop :=
  forall resp, 0 <= resp < number_of_responses m config ->
  let eq := response_at (fir_kind None) m config resp in
  config <= eq /\ eq + sizeof_fir_coef_data + 2 * load_s16 m eq <= config + size /\ 0 <= 15 + load_s16 m (eq + 2) < 64.

(** The filter of channel [j] after the setup: the response of the channel on a
    cleared delay line, or none. *)
Definition channel_ready (m : mem) (config : Z) (j : nat) (f : fir_state_32x16) : Prop :=
  let resp := response (fir_kind None) m config j in
  let eq := response_at (fir_kind None) m config resp in
  if resp <? 0 then fir_length f = 0
  else fir_length f = load_s16 m eq /\ fir_out_shift f = load_s16 m (eq + 2) /\ fir_coef f = eq + sizeof_fir_coef_data.

Section ready.
#[local] Set Default Proof Using "All".
Context (limit : option Z) (PLATFORM_MAX_CHANNELS : nat).
Notation K := (fir_kind limit).
Context (m m' : mem) (config size delay : Z) (nch : nat) (r0 : Z * Z) (rest : list (Z * Z)) (fir fir1 fir2 : list fir_state_32x16).
Notation total := (lines K fir1 0 nch).
Hypothesis Hvalid : blob_valid K PLATFORM_MAX_CHANNELS m config (Z.of_nat nch) fir = true.
Hypothesis Hlen : (nch <= length fir)%nat.
Hypothesis Hblob : blob_ok m config size.
Hypothesis Hplaced : filters_placed K m m' config nch rest fir fir1 fir2 delay.
Hypothesis Hr0 : r0 ∈ rest.
Hypothesis Hcov : covers r0 config size.
Notation conf_ok := (configured_ok K PLATFORM_MAX_CHANNELS m config nch fir fir1 Hvalid Hlen (fp_conf _ _ _ _ _ _ _ _ _ _ Hplaced)).
Notation le_ok := (lines_le K PLATFORM_MAX_CHANNELS m config nch fir fir1 Hvalid Hlen (fp_conf _ _ _ _ _ _ _ _ _ _ Hplaced)).
Notation bound_ok := (lines_bound K PLATFORM_MAX_CHANNELS m config nch fir fir1 Hvalid Hlen (fp_conf _ _ _ _ _ _ _ _ _ _ Hplaced)).
Notation apart_ok := (lines_apart K PLATFORM_MAX_CHANNELS m config nch fir fir1 Hvalid Hlen (fp_conf _ _ _ _ _ _ _ _ _ _ Hplaced)).

(** Channel [j]: its filter, its part of the delay lines, its part of the blob. *)
Lemma filter_ready j : (j < nch)%nat ->
  exists f1 f, fir1 !! j = Some f1 /\ fir2 !! j = Some f /\ channel_ready m config j f /\ fir_chan f /\
    fir_hist m' f (replicate (Z.to_nat (fir_length f)) 0) /\
    (forall a, in_delay f a -> delay + lines K fir1 0 j <= a < delay + lines K fir1 0 j + kb_bytes (K := K) f1 /\ a < delay + total) /\
    (forall a, in_coefs f a -> config <= a < config + size).
Proof.
  intros Hj. destruct (conf_ok j Hj) as (f & _ & Hf1 & Hl & Hr). pose proof (fp_place _ _ _ _ _ _ _ _ _ _ Hplaced j _ Hj Hf1) as Hf2.
  pose proof (bound_ok j ltac:(lia)) as H0. pose proof (le_ok j nch _ ltac:(lia) Hf1) as Hle.
  pose proof (fp_start _ _ _ _ _ _ _ _ _ _ Hplaced). set (f1 := configured K m config f j) in *. eexists f1, _. split; [exact Hf1|]. split; [exact Hf2|].
  assert (forall a, in_delay (placed K f1 (delay + lines K fir1 0 j)) a ->
    delay + lines K fir1 0 j <= a < delay + lines K fir1 0 j + kb_bytes (K := K) f1 /\ a < delay + total) as Hd.
  { intros a. unfold placed. simpl in *. destruct (Z.gtb_spec (fir_length f1) 0); unfold in_delay; simpl; lia. }
  assert (fir_hist m' (placed K f1 (delay + lines K fir1 0 j)) (replicate (Z.to_nat (fir_length (placed K f1 (delay + lines K fir1 0 j)))) 0)) as Hh.
  { apply fir_hist_zero. intros a Ha. apply (fp_zero _ _ _ _ _ _ _ _ _ _ Hplaced). specialize (Hd a Ha). lia. }
  assert (placed K f1 (delay + lines K fir1 0 j) = if fir_length f1 >? 0 then (fir_init_delay f1 (delay + lines K fir1 0 j)).1 else f1) as Ep by done.
  destruct Hr as [[Hneg E]|(Hpos & Hs & E)]; fold f1 in E.
  - assert (fir_length f1 = 0) as E0 by (by rewrite E). rewrite E0 in Ep. simpl in Ep. rewrite Ep in *.
    split_and!; [|by left|done|done|unfold in_coefs; lia]. unfold channel_ready. change (response (fir_kind None) m config j) with (response K m config j). by rewrite (proj2 (Z.ltb_lt _ _) Hneg).
  - set (eq := response_at K m config (response K m config j)) in *. destruct (Hblob _ Hpos) as (B1 & B2 & B3).
    assert (1 <= load_s16 m eq) as Hlen1 by (simpl in Hs; unfold fir_delay_size in Hs; revert Hs; case_if; lia).
    assert (fir_length f1 = load_s16 m eq) as El by (by rewrite E). rewrite (proj2 (Z.gtb_lt (fir_length f1) 0)) in Ep by lia. rewrite Ep in *.
    split_and!; [| |done|done|].
    + unfold channel_ready. change (response (fir_kind None) m config j) with (response K m config j).
      rewrite (proj2 (Z.ltb_ge (response K m config j) 0)) by apply Hpos. by rewrite E.
    + right. rewrite E. change (response_at (fir_kind None) m config (response K m config j)) with eq in *. 
      rewrite E in Hl, Hle. simpl in Hl, Hle. constructor; simpl; try lia.
      destruct (Z.le_gt_cases (eq + 20 + 2 * load_s16 m eq) (delay + lines K fir1 0 j)); [by left|].
      destruct (Z.le_gt_cases (delay + lines K fir1 0 j + 4 * load_s16 m eq) (eq + 20)); [by right|]. exfalso. destruct Hcov.
      apply (fp_rest _ _ _ _ _ _ _ _ _ _ Hplaced r0 (Z.max (eq + 20) (delay + lines K fir1 0 j)) Hr0); unfold inside; lia.
    + intros a. unfold in_coefs. rewrite E. change (response_at (fir_kind None) m config (response K m config j)) with eq in *. simpl. lia.
Qed.

Lemma setup_filters_ok source sink :
  (forall a, delay <= a < delay + total -> ~ in_ring source a /\ ~ in_ring sink a) ->
  (forall a, config <= a < config + size -> ~ in_ring sink a) -> (forall a, config <= a < config + size -> ~ delay <= a < delay + total) ->
  filters_ok nch source sink m' fir2 ((fun f => replicate (Z.to_nat (fir_length f)) 0) <$> fir2).
Proof.
  intros Hrings Hcoef Hapart.
  assert (forall a, delay_byte nch fir2 a -> delay <= a < delay + total) as Hd.
  { intros a (j & f & Hj & Hf & Ha). destruct (filter_ready j Hj) as (f1 & f' & _ & Hf' & _ & _ & _ & H & _). simplify_eq.
    pose proof (bound_ok j ltac:(lia)). specialize (H a Ha). lia. }
  constructor.
  - intros j Hj. destruct (filter_ready j Hj) as (f1 & f & _ & Hf & _ & Hc & Hh & _). eexists f, _. split_and!; [done| |done|done].
    by rewrite list_lookup_fmap, Hf.
  - intros j j' f f' a Hj Hj' Hf Hf' Ha Ha'.
    destruct (filter_ready j Hj) as (f1 & g & Hf1 & Hg & _ & _ & _ & H & _).
    destruct (filter_ready j' Hj') as (f1' & g' & Hf1' & Hg' & _ & _ & _ & H' & _). simplify_eq.
    eapply (apart_ok j j' f1 f1' delay a); [done..|by apply H|by apply H'].
  - intros a Ha. by apply Hrings, Hd.
  - intros j f a Hj Hf Ha. destruct (filter_ready j Hj) as (f1 & f' & _ & Hf' & _ & _ & _ & _ & H). simplify_eq. specialize (H a Ha).
    split; [by apply Hcoef|]. intros Hb. by apply (Hapart a H), Hd.
Qed.
End ready.

(** ** The operation *)

Section setup.
Context {A : Type} `{!Allocator A} (PLATFORM_MAX_CHANNELS : nat) (limit : option Z).
Hypothesis Hmax : Z.of_nat PLATFORM_MAX_CHANNELS <= 2 ^ 16.
Implicit Types w : world A.
Notation K := (fir_kind limit).

(** Configured with the responses of the blob at [config], with no history. *)
Definition eq_ready (m : mem) (config : Z) (r0 : Z * Z) (rest : list (Z * Z)) (nch : nat) (m' : mem) (fir : list fir_state_32x16) : Prop :=
  (forall j, (j < nch)%nat -> exists f, fir !! j = Some f /\ channel_ready m config j f) /\
  (forall source sink, ring_owned rest source -> ring_owned rest sink -> (forall a, in_ring sink a -> ~ inside r0 a) ->
     filters_ok nch source sink m' fir ((fun f => replicate (Z.to_nat (fir_length f)) 0) <$> fir)).

Lemma eq_ready_ok m m' config size delay r0 rest nch fir fir1 fir2 :
  blob_valid K PLATFORM_MAX_CHANNELS m config (Z.of_nat nch) fir = true -> (nch <= length fir)%nat ->
  blob_ok m config size -> covers r0 config size -> r0 ∈ rest -> filters_placed K m m' config nch rest fir fir1 fir2 delay ->
  eq_ready m config r0 rest nch m' fir2.
Proof.
  intros Hv Hl Hb Hc Hr0 Hpl. pose proof (fp_rest _ _ _ _ _ _ _ _ _ _ Hpl) as Hr. split.
  - intros j Hj. destruct (filter_ready limit PLATFORM_MAX_CHANNELS m m' config size delay nch r0 rest fir fir1 fir2 Hv Hl Hb Hpl Hr0 Hc j Hj)
      as (_ & f & _ & Hf & H & _). by exists f.
  - intros source sink Ho1 Ho2 Hk. pose proof Hc as [Hc1 Hc2].
    eapply (setup_filters_ok limit PLATFORM_MAX_CHANNELS m m' config size delay nch r0 rest fir fir1 fir2); try done.
    + intros a Ha. split; intros Hin; [destruct (Ho1 a Hin) as (r & ? & ?)|destruct (Ho2 a Hin) as (r & ? & ?)]; by apply (Hr r a).
    + intros a Ha Hin. apply (Hk a Hin). unfold inside. lia.
    + intros a Ha Hin. apply (Hr r0 a Hr0 Hin). unfold inside. lia.
Qed.

(** The result of a setup of FIR filters. *)
Record fir_setup_result (m : mem) (ed : fir_eq) (nch : nat) (r0 : Z * Z) (rest : list (Z * Z)) (a : A) (m' : mem) (ed' : fir_eq) (ret : Z) : Prop := {
  fs_result : setup_result K PLATFORM_MAX_CHANNELS m ed nch rest a m' ed' ret;
  fs_ready : ret = 0 -> eq_ready m (ed_config ed) r0 rest nch m' (ed_filters ed')
}.

Lemma world_balloc_ok : alloc_ok world_balloc.
Proof.
  intros w n Ha Hn. assert (request_ok n al_dcache) as Hreq by (destruct al_dcache_ok as (_ & ? & ?); split; [done|by split]).
  unfold world_balloc, rballoc. destruct (al_balloc_spec (w_alloc w) 0 SOF_MEM_CAPS_RAM n al_dcache Ha Hreq) as (a & p & -> & Ha' & Hres).
  exists a, (w_mem w), p. split_and!; [by destruct w|done|done|]. destruct Hres as [[? ?]|?]; [left|right]; done.
Qed.

(** C18: For a blob whose responses lie inside it and whose shifts are in range,
    which the code does not check: setting up the filters frees the previous delay
    lines and then, for a stream of [nch] channels, returns [-EINVAL] exactly for a
    blob that is not valid, [-ENOMEM] only when no memory is left, and otherwise 0;
    then every channel has the response that the blob assigns to it, on a cleared
    delay line of its own in one new block, or is bypassed. The equalizer owns
    exactly the block of its delay lines afterwards, errors included, and the memory
    of others is unchanged. Valid ([blob_valid]) are one to [PLATFORM_MAX_CHANNELS]
    channels in the stream and the blob, odd numbers included, no more than the
    maximum of responses, and for every channel none or a defined response of a
    valid length. *)
Theorem eq_fir_setup_configures w ed nch ol r0 rest size :
  al_inv (w_alloc w) -> al_live (w_alloc w) ≡ₚ ol ++ rest -> opt_range (ed_delay ed) (ed_delay_size ed) ol ->
  length (ed_filters ed) = PLATFORM_MAX_CHANNELS ->
  r0 ∈ rest -> covers r0 (ed_config ed) size -> blob_ok (w_mem w) (ed_config ed) size ->
  exists a m' ed' ret,
    eq_fir_setup PLATFORM_MAX_CHANNELS limit ed (Z.of_nat nch) w = Some (with_heap w a m', (ed', ret)) /\
    fir_setup_result (w_mem w) ed nch r0 rest a m' ed' ret.
Proof using Hmax.
  intros Ha Hl Ho Hlen Hr0 Hcov Hblob.
  destruct (eq_setup_ok K PLATFORM_MAX_CHANNELS Hmax world_balloc w ed nch ol rest world_balloc_ok Ha Hl Ho Hlen) as (w' & [ed' ret] & E & a & m' & -> & R).
  exists a, m', ed', ret. split; [exact E|]. split; [exact R|]. intros ->. pose proof (sr_ret _ _ _ _ _ _ _ _ _ _ R) as Hret. cbv zeta in Hret.
  destruct (blob_valid _ _ _ _ _ _) eqn:Hv in Hret; [|by destruct Hret]. destruct Hret as [[? _]|(_ & fs1 & delay & Hp)]; [done|].
  eapply eq_ready_ok; [exact Hv| |done..|exact Hp].
  unfold blob_valid in Hv. zbool. rewrite length_fmap. simpl in *. lia.
Qed.
End setup.

(** ** Examples *)

#[local] Instance eq_allocator : Allocator mm := heap_allocator baytrail baytrail_dcache 4096 65536.

(** Two blobs in blocks of the heap. *)
Definition demo_blob_a : mm * Z := default (demo_mm, 0) (rballoc demo_mm 0 SOF_MEM_CAPS_RAM 52).
Definition demo_blob_b : mm * Z := default (demo_mm, 0) (rballoc demo_blob_a.1 0 SOF_MEM_CAPS_RAM 52).

(** A blob for two channels: response [resp] for channel 0, none for channel 1; one
    response of two taps, 0.5 and 0.5. *)
Definition store_blob (resp config : Z) (m : mem) : mem := fun a =>
  if (config <=? a) && (a <? config + 52) then
    nth (Z.to_nat (a - config))
      ([52; 0; 0; 0; 2; 0; 1; 0] ++ replicate 16 0 ++ [resp; 0; 255; 255; 2; 0; 0; 0] ++ replicate 16 0 ++ [0; 64; 0; 64]) 0
  else m a.

Definition demo_setup_mem : mem := store_blob 0 demo_blob_a.2 (store_blob 3 demo_blob_b.2 demo_eq_mem).

Definition demo_setup_world : world mm :=
  with_mem (with_alloc demo_eq_world demo_blob_b.1) demo_setup_mem.

Definition demo_unconfigured (config : Z) : fir_eq :=
  mk_eq 900 (replicate 8 (mk_fir 0 0 0 0 0 0)) (mk_blob 950 52 0 config 0 false 0) config 0 0 EqNull.

Lemma demo_blob_range :
  exists r rest, al_inv demo_blob_b.1 /\ al_live demo_blob_b.1 ≡ₚ rest /\ r ∈ rest /\ covers r demo_blob_a.2 52.
Proof.
  assert (request_ok 52 al_dcache) as Hreq by (apply request_okb_ok; vm_compute; reflexivity).
  destruct (@al_balloc_spec mm eq_allocator demo_mm 0 SOF_MEM_CAPS_RAM 52 al_dcache demo_mm_single Hreq) as (a1 & p1 & E1 & Ha1 & H1).
  destruct (al_balloc_spec a1 0 SOF_MEM_CAPS_RAM 52 al_dcache Ha1 Hreq) as (a2 & p2 & E2 & Ha2 & H2).
  assert (demo_blob_a = (a1, p1)) as Ea by (unfold demo_blob_a, rballoc; by rewrite E1).
  assert (demo_blob_b = (a2, p2)) as Eb by (unfold demo_blob_b, rballoc; rewrite Ea; simpl fst; by rewrite E2).
  assert (demo_blob_a.2 <> 0) as Hne by (vm_compute; done). rewrite Ea in Hne |- *. rewrite Eb. simpl fst in *. simpl snd in *.
  destruct H1 as [[-> _]|(_ & r & Hl1 & Hc & _)]; [done|]. exists r, (al_live a2). split_and!; [done|done| |apply Hc..].
  assert (r ∈ al_live a1) as Hr by (rewrite Hl1; by left).
  destruct H2 as [[_ ->]|(_ & r2 & -> & _)]; [done|by right].
Qed.

Lemma demo_blob_ok : blob_ok demo_setup_mem demo_blob_a.2 52.
Proof.
  intros resp Hr. assert (number_of_responses demo_setup_mem demo_blob_a.2 = 1) as E by (vm_compute; reflexivity).
  assert (resp = 0) as -> by lia.
  assert (response_at (fir_kind None) demo_setup_mem demo_blob_a.2 0 = demo_blob_a.2 + 28) as -> by (vm_compute; reflexivity). cbv zeta.
  assert (load_s16 demo_setup_mem (demo_blob_a.2 + 28) = 2) as -> by (vm_compute; reflexivity).
  assert (load_s16 demo_setup_mem (demo_blob_a.2 + 28 + 2) = 0) as -> by (vm_compute; reflexivity). lia.
Qed.

Lemma eq_fir_setup_configures_witness :
  exists r0 rest a m' ed' ret,
    eq_fir_setup 8 None (demo_unconfigured demo_blob_a.2) 2 demo_setup_world = Some (with_heap demo_setup_world a m', (ed', ret)) /\
    fir_setup_result 8 None demo_setup_mem (demo_unconfigured demo_blob_a.2) 2 r0 rest a m' ed' ret.
Proof.
  destruct demo_blob_range as (r & rest & Ha & Hl & Hr & Hc). exists r, rest.
  apply (eq_fir_setup_configures 8 None ltac:(lia) demo_setup_world (demo_unconfigured demo_blob_a.2) 2 [] r rest 52);
    [exact Ha|exact Hl|by left|reflexivity|exact Hr|exact Hc|exact demo_blob_ok].
Defined.

(** The setup of a stereo stream: two taps for channel 0, channel 1 bypassed. *)
Example demo_setup :
  (r ← eq_fir_setup 8 None (demo_unconfigured demo_blob_a.2) 2 demo_setup_world;
   Some (r.2.2, fir_length <$> take 2 (ed_filters r.2.1))) = Some (0, [2; 0]).
Proof. vm_compute. reflexivity. Qed.

(** The limit of the build is compared with the taps of the previous filter: the
    first filter passes with any length, and the next one is rejected. *)
Example build_limit_stale :
  (r ← eq_fir_setup 8 (Some 3) (demo_unconfigured demo_blob_a.2) 2 demo_setup_world;
   s ← eq_fir_setup 8 (Some 3) r.2.1 2 r.1;
   Some (r.2.2, fir_length <$> take 2 (ed_filters r.2.1), s.2.2)) = Some (0, [2; 0], - EINVAL).
Proof. vm_compute. reflexivity. Qed.

(** A blob that assigns a response it does not define is rejected while the equalizer
    runs; the filters keep their lengths and have no delay lines, so the next copy
    writes to the null pointer. *)
Definition copy_after_rejected_blob : option (Z * bool) :=
  r ← eq_fir_setup 8 None (demo_unconfigured demo_blob_a.2) 2 demo_setup_world;
  let ed := ed_set_func (ed_set_blob r.2.1 (mk_blob 950 52 52 demo_blob_a.2 demo_blob_b.2 true 0) demo_blob_a.2) EqS16 in
  s ← eq_fir_copy 8 None 1 (r.1, {[1 := ed]});
  Some (s.2, bool_decide (eq_fir_copy 8 None 1 s.1 = None)).

Example rejected_blob_faults : copy_after_rejected_blob = Some (- EINVAL, true).
Proof. vm_compute. reflexivity. Qed.
