(* ===== verification/Iir.v ===== *)
(** * Infinite impulse response filters

    [src/math/iir.c] and [src/math/iir_df2t_generic.c] with
    [include/sof/math/iir_df2t.h] and [include/user/eq.h]: second order sections in
    the transposed direct form II, with 64-bit state, in series and in parallel.
    Sections compute the difference equation of their coefficients. *)

From stdpp Require Import base list numbers option.
From S2P Require Import Prelude AudioStream Format SampleLoop.

Abbreviation SOF_EQ_IIR_DF2T_BIQUADS_MAX := 11 (only parsing).
(** Sizes in bytes: the header of a response, a section of coefficients, and its two
    delays. *)
Abbreviation sizeof_header_df2t := 24 (only parsing).
Abbreviation sizeof_biquad_df2t := 28 (only parsing).
Abbreviation sizeof_delays_df2t := 16 (only parsing).

Definition load_s64 (m : mem) (p : Z) : Z := i64 (load_le 8 m p).

(** ** The filter *)

Record iir_state_df2t := mk_iir {
  iir_biquads : Z;
  iir_biquads_in_series : Z;
  iir_coef : Z;
  iir_delay : Z
}.

(** [config] is the address of a [struct sof_eq_iir_header_df2t]. *)
Definition iir_delay_size_df2t (m : mem) (config : Z) : Z :=
  let n := load_s32 m config in
  if (n >? SOF_EQ_IIR_DF2T_BIQUADS_MAX) || (n <? 1) then - EINVAL else 2 * n * 8.

Definition iir_init_coef_df2t (m : mem) (iir : iir_state_df2t) (config : Z) : iir_state_df2t :=
  mk_iir (load_le 4 m config) (load_le 4 m (config + 4)) (config + sizeof_header_df2t) (iir_delay iir).

(** The filter with its delay line, and the start of the next one. *)
Definition iir_init_delay_df2t (iir : iir_state_df2t) (delay : Z) : iir_state_df2t * Z :=
  (mk_iir (iir_biquads iir) (iir_biquads_in_series iir) (iir_coef iir) delay, delay + 8 * (2 * iir_biquads iir)).

Definition iir_reset_df2t (iir : iir_state_df2t) : iir_state_df2t := mk_iir 0 0 0 (iir_delay iir).

(** One section with the coefficients at [coef] and the delays at [delay]; [None] for a
    shift that C does not define. Sums of 64 bits wrap. *)
Definition biquad_df2t (m : mem) (coef delay inp : Z) : option (mem * Z) :=
  let acc := i64 (load_s32 m (coef + 16) * inp + load_s64 m delay) in
  let tmp := sat_int32 (Q_SHIFT_RND acc 61 31) in
  let acc := load_s64 m (delay + 8) in
  let acc := i64 (acc + load_s32 m (coef + 12) * inp) in
  let acc := i64 (acc + load_s32 m (coef + 4) * tmp) in
  let m := store_le 8 m delay acc in
  let acc := load_s32 m (coef + 8) * inp in
  let acc := i64 (acc + load_s32 m coef * tmp) in
  let m := store_le 8 m (delay + 8) acc in
  let acc := load_s32 m (coef + 24) * tmp in
  let shift := 45 + load_s32 m (coef + 20) in
  if (0 <=? shift - 31 - 1) && (shift - 31 - 1 <? 64) then Some (m, sat_int32 (Q_SHIFT_RND acc shift 31)) else None.

(** [n] sections in series. *)
Fixpoint series_df2t (n : nat) (m : mem) (coef delay inp : Z) : option (mem * Z) :=
  match n with
  | O => Some (m, inp)
  | S n => r ← biquad_df2t m coef delay inp; series_df2t n r.1 (coef + sizeof_biquad_df2t) (delay + sizeof_delays_df2t) r.2
  end.

(** The outer loop, from section [j] on. *)
Fixpoint parallel_df2t (fuel : nat) (iir : iir_state_df2t) (m : mem) (j coef delay inp out : Z) : option (mem * Z) :=
  match fuel with
  | O => None
  | S fuel =>
      if u32 j <? iir_biquads iir then
        let n := iir_biquads_in_series iir in
        r ← series_df2t (Z.to_nat n) m coef delay inp;
        parallel_df2t fuel iir r.1 (i32 (j + n)) (coef + sizeof_biquad_df2t * n) (delay + sizeof_delays_df2t * n) r.2 (sat_int32 (out + r.2))
      else Some (m, out)
  end.

(** A filter without delay line faults. *)
Definition iir_df2t (m : mem) (iir : iir_state_df2t) (x : Z) : option (mem * Z) :=
  if iir_biquads iir =? 0 then Some (m, x) else
  if iir_delay iir =? 0 then None else
  parallel_df2t (S (Z.to_nat (iir_biquads iir))) iir m 0 (iir_coef iir) (iir_delay iir) x 0.

(** ** What a section computes *)

(** The coefficients of a section. *)
Record biquad := mk_biquad {
  bq_a2 : Z;
  bq_a1 : Z;
  bq_b2 : Z;
  bq_b1 : Z;
  bq_b0 : Z;
  bq_shift : Z;
  bq_gain : Z
}.

(** A section with its last two inputs and its last two outputs before the gain. *)
Record section := mk_section {
  sc_biquad : biquad;
  sc_x1 : Z;
  sc_x2 : Z;
  sc_w1 : Z;
  sc_w2 : Z
}.

(** The right side of the difference equation, in 64 bits. *)
Definition equation (c : biquad) (x x1 x2 w1 w2 : Z) : Z :=
  i64 (bq_b0 c * x + bq_b1 c * x1 + bq_b2 c * x2 + bq_a1 c * w1 + bq_a2 c * w2).

Definition rounded (acc : Z) : Z := sat_int32 (Q_SHIFT_RND acc 61 31).

Definition gained (c : biquad) (w : Z) : Z := sat_int32 (Q_SHIFT_RND (bq_gain c * w) (45 + bq_shift c) 31).

Definition sc_w (s : section) (x : Z) : Z := rounded (equation (sc_biquad s) x (sc_x1 s) (sc_x2 s) (sc_w1 s) (sc_w2 s)).
Definition sc_out (s : section) (x : Z) : Z := gained (sc_biquad s) (sc_w s x).
Definition sc_next (s : section) (x : Z) : section := mk_section (sc_biquad s) x (sc_x1 s) (sc_w s x) (sc_w1 s).

(** Sections in series, and banks of series: every one gets the output of the one
    before, and the outputs are added. *)
Fixpoint cascade (ss : list section) (x : Z) : list section * Z :=
  match ss with
  | [] => ([], x)
  | s :: ss => let r := cascade ss (sc_out s x) in (sc_next s x :: r.1, r.2)
  end.

Fixpoint bank (sss : list (list section)) (x out : Z) : list (list section) * Z :=
  match sss with
  | [] => ([], out)
  | ss :: sss => let r := cascade ss x in let r' := bank sss r.2 (sat_int32 (out + r.2)) in (r.1 :: r'.1, r'.2)
  end.

(** ** Sections in memory *)

Lemma i64_add_l x y : i64 (i64 x + y) = i64 (x + y).
Proof.
  unfold i64. f_equal. replace ((x + 2 ^ 63) mod 2 ^ 64 - 2 ^ 63 + y + 2 ^ 63) with ((x + 2 ^ 63) mod 2 ^ 64 + y) by lia.
  rewrite Zplus_mod_idemp_l. f_equal. lia.
Qed.

Lemma i64_add_r x y : i64 (x + i64 y) = i64 (x + y).
Proof. rewrite Z.add_comm, i64_add_l. f_equal. lia. Qed.

Lemma i64_mod x : i64 (x mod 2 ^ 64) = i64 x.
Proof. unfold i64. by rewrite Zplus_mod_idemp_l. Qed.

Lemma load_store_s64 m p v : load_s64 (store_le 8 m p v) p = i64 v.
Proof. unfold load_s64. rewrite le_load_store. apply i64_mod. Qed.

Lemma load_s64_ext m m' p : (forall a, p <= a < p + 8 -> m' a = m a) -> load_s64 m' p = load_s64 m p.
Proof. intros H. unfold load_s64. f_equal. by apply le_load_ext. Qed.

Lemma load_s32_ext m m' p : (forall a, p <= a < p + 4 -> m' a = m a) -> load_s32 m' p = load_s32 m p.
Proof. intros H. unfold load_s32. f_equal. by apply le_load_ext. Qed.

(** The section with its coefficients at [coef] and its delays at [delay]: the delays
    are the parts of the next difference equations that are known already. *)
Record section_at (m : mem) (coef delay : Z) (s : section) : Prop := {
  sa_biquad : sc_biquad s = mk_biquad (load_s32 m coef) (load_s32 m (coef + 4)) (load_s32 m (coef + 8)) (load_s32 m (coef + 12))
    (load_s32 m (coef + 16)) (load_s32 m (coef + 20)) (load_s32 m (coef + 24));
  sa_shift : 0 <= 13 + bq_shift (sc_biquad s) < 64;
  sa_first : load_s64 m delay =
    i64 (bq_b1 (sc_biquad s) * sc_x1 s + bq_b2 (sc_biquad s) * sc_x2 s + bq_a1 (sc_biquad s) * sc_w1 s + bq_a2 (sc_biquad s) * sc_w2 s);
  sa_second : load_s64 m (delay + 8) = i64 (bq_b2 (sc_biquad s) * sc_x1 s + bq_a2 (sc_biquad s) * sc_w1 s)
}.

Definition blocks_apart (p n q k : Z) : Prop := p + n <= q \/ q + k <= p.

Lemma section_at_ext m m' coef delay s :
  (forall a, coef <= a < coef + 28 \/ delay <= a < delay + 16 -> m' a = m a) -> section_at m coef delay s -> section_at m' coef delay s.
Proof.
  intros H [Hb Hs H1 H2].
  constructor; [|done|rewrite (load_s64_ext m) by (intros; apply H; lia); done..].
  rewrite Hb. f_equal; symmetry; apply load_s32_ext; intros; apply H; lia.
Qed.

Lemma i64_idem x : i64 (i64 x) = i64 x.
Proof. pose proof (i64_add_l x 0) as H. by rewrite !Z.add_0_r in H. Qed.

(** One sample through a section. *)
Lemma biquad_ok m coef delay s x :
  section_at m coef delay s -> blocks_apart coef 28 delay 16 ->
  exists m', biquad_df2t m coef delay x = Some (m', sc_out s x) /\ section_at m' coef delay (sc_next s x) /\
    forall a, ~ (delay <= a < delay + 16) -> m' a = m a.
Proof.
  destruct s as [c x1 x2 w1 w2]. intros [Hb Hs H1 H2] Hap. unfold blocks_apart in Hap. simpl in Hb, Hs, H1, H2.
  destruct c as [a2 a1 b2 b1 b0 shift gain]. injection Hb as Ha2 Ha1 Hb2 Hb1 Hb0 Hshift Hgain. simpl in Hs, H1, H2.
  set (c := mk_biquad a2 a1 b2 b1 b0 shift gain). set (s := mk_section c x1 x2 w1 w2). set (w := sc_w s x).
  set (m1 := store_le 8 m delay (i64 (i64 (load_s64 m (delay + 8) + b1 * x) + a1 * w))).
  set (m2 := store_le 8 m1 (delay + 8) (i64 (b2 * x + a2 * w))).
  assert (forall a, ~ (delay <= a < delay + 16) -> m2 a = m a) as Hout
    by (intros a Ha; unfold m2, m1; rewrite !le_store_out by lia; done).
  assert (forall p, coef <= p <= coef + 24 -> load_s32 m1 p = load_s32 m p /\ load_s32 m2 p = load_s32 m p) as Hco.
  { intros p Hp. split; apply load_s32_ext; intros a Ha; [unfold m1; apply le_store_out|apply Hout]; lia. }
  assert (rounded (i64 (b0 * x + load_s64 m delay)) = w) as Ew.
  { unfold w, sc_w, equation. simpl. rewrite H1, i64_add_r. do 2 f_equal. lia. }
  exists m2. split_and!; [|constructor; simpl; fold w|done].
  - unfold biquad_df2t. rewrite <- Ha1, <- Hb1, <- Hb0. fold (rounded (i64 (b0 * x + load_s64 m delay))). rewrite Ew. fold m1.
    rewrite (proj1 (Hco (coef + 8) ltac:(lia))), (proj1 (Hco coef ltac:(lia))), <- Hb2, <- Ha2. fold m2.
    rewrite (proj2 (Hco (coef + 24) ltac:(lia))), (proj2 (Hco (coef + 20) ltac:(lia))), <- Hgain, <- Hshift.
    rewrite (proj2 (Z.leb_le 0 (45 + shift - 31 - 1)) ltac:(lia)), (proj2 (Z.ltb_lt (45 + shift - 31 - 1) 64) ltac:(lia)). reflexivity.
  - unfold c. rewrite Ha2, Ha1, Hb2, Hb1, Hb0, Hshift, Hgain. f_equal; symmetry; apply Hco; lia.
  - done.
  - rewrite (load_s64_ext m1) by (intros; unfold m2; apply le_store_out; lia). unfold m1.
    rewrite load_store_s64, H2, i64_idem, i64_add_l, <- Z.add_assoc, i64_add_l. f_equal. lia.
  - unfold m2. rewrite load_store_s64, i64_idem. reflexivity.
Qed.

(** With no sections in series the loop never ends. *)
Lemma no_series_hangs fuel iir m j coef delay x out :
  iir_biquads_in_series iir = 0 -> 0 <= j < iir_biquads iir -> j < 2 ^ 31 -> parallel_df2t fuel iir m j coef delay x out = None.
Proof.
  intros Hn Hj Hl. revert m coef delay x out. induction fuel as [|fuel IH]; intros m coef delay x out; [done|]. simpl.
  rewrite u32_small by lia. replace (j <? iir_biquads iir) with true by lia. rewrite Hn. simpl. rewrite Z.add_0_r, i32_small by lia. apply IH.
Qed.

(** ** Sections in series and in banks *)

Fixpoint cascade_at (m : mem) (coef delay : Z) (ss : list section) : Prop :=
  match ss with
  | [] => True
  | s :: ss => section_at m coef delay s /\ cascade_at m (coef + 28) (delay + 16) ss
  end.

(** Series of [n] sections each. *)
Fixpoint bank_at (n : nat) (m : mem) (coef delay : Z) (sss : list (list section)) : Prop :=
  match sss with
  | [] => True
  | ss :: sss =>
      length ss = n /\ cascade_at m coef delay ss /\
      bank_at n m (coef + sizeof_biquad_df2t * Z.of_nat n) (delay + sizeof_delays_df2t * Z.of_nat n) sss
  end.

Lemma cascade_at_ext m m' coef delay ss :
  let n := Z.of_nat (length ss) in
  (forall a, coef <= a < coef + 28 * n \/ delay <= a < delay + 16 * n -> m' a = m a) ->
  cascade_at m coef delay ss -> cascade_at m' coef delay ss.
Proof.
  revert coef delay. induction ss as [|s ss IH]; intros coef delay n H; [done|]. subst n. simpl in *. intros [H1 H2]. split.
  - eapply section_at_ext; [|done]. intros a Ha. apply H. lia.
  - apply IH; [|done]. intros a Ha. apply H. lia.
Qed.

Lemma bank_at_ext n m m' coef delay sss :
  let k := Z.of_nat n * Z.of_nat (length sss) in
  (forall a, coef <= a < coef + 28 * k \/ delay <= a < delay + 16 * k -> m' a = m a) ->
  bank_at n m coef delay sss -> bank_at n m' coef delay sss.
Proof.
  revert coef delay. induction sss as [|ss sss IH]; intros coef delay k H; [done|]. subst k. simpl in *. intros (Hl & H1 & H2).
  split_and!; [done| |].
  - eapply cascade_at_ext; [|done]. rewrite Hl. intros a Ha. apply H. nia.
  - apply IH; [|done]. intros a Ha. apply H. nia.
Qed.

Lemma cascade_length ss x : length (cascade ss x).1 = length ss.
Proof. revert x. induction ss as [|s ss IH]; intros x; simpl; [done|]. by rewrite IH. Qed.

Lemma bank_length sss x out : length (bank sss x out).1 = length sss.
Proof. revert x out. induction sss as [|ss sss IH]; intros x out; simpl; [done|]. by rewrite IH. Qed.

Lemma series_ok ss m coef delay x :
  cascade_at m coef delay ss -> blocks_apart coef (28 * Z.of_nat (length ss)) delay (16 * Z.of_nat (length ss)) ->
  exists m', series_df2t (length ss) m coef delay x = Some (m', (cascade ss x).2) /\ cascade_at m' coef delay (cascade ss x).1 /\
    forall a, ~ (delay <= a < delay + 16 * Z.of_nat (length ss)) -> m' a = m a.
Proof.
  unfold blocks_apart. revert m coef delay x. induction ss as [|s ss IH]; intros m coef delay x Hat Hap; [by exists m|].
  simpl in Hat. destruct Hat as [H1 H2]. simpl length in *.
  destruct (biquad_ok m coef delay s x H1 ltac:(unfold blocks_apart; lia)) as (m1 & E1 & H1' & Hm1).
  destruct (IH m1 (coef + 28) (delay + 16) (sc_out s x)) as (m2 & E2 & H2' & Hm2);
    [eapply cascade_at_ext; [|done]; intros a Ha; apply Hm1; lia|lia|].
  exists m2. cbn [series_df2t]. rewrite E1. simpl. split_and!; [exact E2| |exact H2'|].
  - eapply section_at_ext; [|exact H1']. intros a Ha. apply Hm2. lia.
  - intros a Ha. rewrite Hm2, Hm1 by lia. done.
Qed.

(** The loop goes through the banks that are left. *)
Lemma parallel_ok iir sss fuel m j coef delay x out :
  let n := iir_biquads_in_series iir in
  0 < n -> iir_biquads iir < 2 ^ 31 -> 0 <= j -> iir_biquads iir = j + n * Z.of_nat (length sss) -> (length sss < fuel)%nat ->
  bank_at (Z.to_nat n) m coef delay sss ->
  blocks_apart coef (28 * (n * Z.of_nat (length sss))) delay (16 * (n * Z.of_nat (length sss))) ->
  exists m', parallel_df2t fuel iir m j coef delay x out = Some (m', (bank sss x out).2) /\
    bank_at (Z.to_nat n) m' coef delay (bank sss x out).1 /\
    forall a, ~ (delay <= a < delay + 16 * (n * Z.of_nat (length sss))) -> m' a = m a.
Proof.
  intros n Hn Hlim. unfold blocks_apart. revert fuel m j coef delay x out.
  induction sss as [|ss sss IH]; intros [|fuel] m j coef delay x out Hj Hk Hf Hat Hap; simpl length in Hf; try lia; cbn [parallel_df2t].
  - simpl in Hk. rewrite u32_small by lia. replace (j <? iir_biquads iir) with false by lia. by exists m.
  - cbn [length] in Hk, Hap. cbn [bank_at] in Hat. destruct Hat as (Hl & H1 & H2). assert (Z.of_nat (Z.to_nat n) = n) as En by lia. rewrite En in H2.
    rewrite u32_small by nia. replace (j <? iir_biquads iir) with true by nia. fold n.
    destruct (series_ok ss m coef delay x H1 ltac:(unfold blocks_apart; nia)) as (m1 & E1 & H1' & Hm1). rewrite Hl, En in *. rewrite E1. simpl.
    rewrite i32_small by (unfold is_s32; nia).
    destruct (IH fuel m1 (j + n) (coef + 28 * n) (delay + 16 * n) (cascade ss x).2 (sat_int32 (out + (cascade ss x).2)))
      as (m2 & E2 & H2' & Hm2); [lia|nia|lia|eapply bank_at_ext; [|exact H2]; rewrite En; intros a Ha; apply Hm1; nia|nia|].
    exists m2. split_and!; [exact E2|by rewrite cascade_length| |rewrite En; exact H2'|].
    + eapply cascade_at_ext; [|exact H1']. rewrite cascade_length, Hl, En. intros a Ha. apply Hm2. nia.
    + intros a Ha. rewrite Hm2, Hm1 by nia. done.
Qed.

(** ** The filter *)

Definition in_lines (iir : iir_state_df2t) (a : Z) : Prop := iir_delay iir <= a < iir_delay iir + 16 * iir_biquads iir.
Definition in_sections (iir : iir_state_df2t) (a : Z) : Prop := iir_coef iir <= a < iir_coef iir + 28 * iir_biquads iir.

(** The sections make whole series, and their delays are apart from the
    coefficients. *)
Record iir_wf (iir : iir_state_df2t) : Prop := {
  iw_biquads : 0 < iir_biquads iir <= SOF_EQ_IIR_DF2T_BIQUADS_MAX;
  iw_series : 0 < iir_biquads_in_series iir;
  iw_delay : 0 < iir_delay iir;
  iw_apart : blocks_apart (iir_coef iir) (28 * iir_biquads iir) (iir_delay iir) (16 * iir_biquads iir)
}.

(** What a filter is: its sections, or nothing, and samples are passed on. *)
Definition iir_abs : Type := option (list (list section)).

Definition iir_rep (m : mem) (iir : iir_state_df2t) (h : iir_abs) : Prop :=
  match h with
  | None => iir_biquads iir = 0
  | Some sss =>
      iir_wf iir /\ iir_biquads iir = iir_biquads_in_series iir * Z.of_nat (length sss) /\
      bank_at (Z.to_nat (iir_biquads_in_series iir)) m (iir_coef iir) (iir_delay iir) sss
  end.

Definition iir_value (h : iir_abs) (x : Z) : Z := match h with None => x | Some sss => (bank sss x 0).2 end.
Definition iir_next (h : iir_abs) (x : Z) : iir_abs := match h with None => None | Some sss => Some (bank sss x 0).1 end.

Lemma iir_rep_ext m m' iir h :
  (forall a, in_lines iir a \/ in_sections iir a -> m' a = m a) -> iir_rep m iir h -> iir_rep m' iir h.
Proof.
  unfold in_lines, in_sections. intros H. destruct h as [sss|]; [|done]. intros (W & Hb & Hat). split_and!; [done..|].
  pose proof (iw_series _ W). eapply bank_at_ext; [|exact Hat]. intros a Ha. apply H. rewrite Z2Nat.id, <- Hb in Ha by lia. lia.
Qed.

(** One sample: the sections move on, and only their delays are written. *)
Lemma iir_step m iir h x :
  iir_rep m iir h ->
  exists m', iir_df2t m iir x = Some (m', iir_value h x) /\ iir_rep m' iir (iir_next h x) /\ forall a, ~ in_lines iir a -> m' a = m a.
Proof.
  unfold iir_df2t, in_lines. destruct h as [sss|]; simpl; intros Hrep; [|exists m; by rewrite Hrep].
  destruct Hrep as (W & Hb & Hat). pose proof W as [H1 H2 H3 H4].
  replace (iir_biquads iir =? 0) with false by lia. replace (iir_delay iir =? 0) with false by lia.
  destruct (parallel_ok iir sss (S (Z.to_nat (iir_biquads iir))) m 0 (iir_coef iir) (iir_delay iir) x 0)
    as (m' & E & Hat' & Hm'); [lia..|nia|done|by rewrite <- Hb|].
  exists m'. rewrite <- Hb in Hm'. split_and!; [exact E|exact W|by rewrite bank_length|exact Hat'|exact Hm'].
Qed.

(** ** Streams of samples *)

Fixpoint iir_run (m : mem) (iir : iir_state_df2t) (xs : list Z) : option (mem * list Z) :=
  match xs with
  | [] => Some (m, [])
  | x :: xs => r ← iir_df2t m iir x; r' ← iir_run r.1 iir xs; Some (r'.1, r.2 :: r'.2)
  end.

(** The signal [n] samples before sample [k], and 0 before the first one. *)
Definition past (xs : list Z) (k n : nat) : Z := if decide (n <= k)%nat then nth (k - n) xs 0 else 0.

(** A section on a signal: the difference equation, its accumulator in 64 bits. *)
Definition biquad_signal (c : biquad) (xs ys : list Z) : Prop :=
  exists ws, length ws = length xs /\ length ys = length xs /\
    forall k, (k < length xs)%nat ->
      past ws k 0 = rounded (equation c (past xs k 0) (past xs k 1) (past xs k 2) (past ws k 1) (past ws k 2)) /\
      past ys k 0 = gained c (past ws k 0).

(** Sections in series: every one has the output of the one before as its input. *)
Inductive cascade_signal : list biquad -> list Z -> list Z -> Prop :=
  | cascade_nil xs : cascade_signal [] xs xs
  | cascade_cons c cs xs ys zs : biquad_signal c xs ys -> cascade_signal cs ys zs -> cascade_signal (c :: cs) xs zs.

(** Banks: the outputs are added, with saturation. *)
Inductive bank_signal : list (list biquad) -> list Z -> list Z -> list Z -> Prop :=
  | bank_nil xs outs : bank_signal [] xs outs outs
  | bank_cons cs css xs outs ys zs :
      cascade_signal cs xs ys -> bank_signal css ys (zip_with (fun o y => sat_int32 (o + y)) outs ys) zs ->
      bank_signal (cs :: css) xs outs zs.

(** *** The sections one after the other, on whole signals *)

Fixpoint sc_ws (s : section) (xs : list Z) : list Z :=
  match xs with [] => [] | x :: xs => sc_w s x :: sc_ws (sc_next s x) xs end.

Definition sc_outs (s : section) (xs : list Z) : list Z := gained (sc_biquad s) <$> sc_ws s xs.

Fixpoint cascade_outs (ss : list section) (xs : list Z) : list Z :=
  match xs with [] => [] | x :: xs => (cascade ss x).2 :: cascade_outs (cascade ss x).1 xs end.

Fixpoint bank_outs (sss : list (list section)) (xs outs : list Z) : list Z :=
  match xs, outs with
  | x :: xs, out :: outs => (bank sss x out).2 :: bank_outs (bank sss x out).1 xs outs
  | _, _ => []
  end.

Lemma cascade_outs_nil xs : cascade_outs [] xs = xs.
Proof. induction xs as [|x xs IH]; simpl; [done|]. by rewrite IH. Qed.

Lemma cascade_outs_cons s ss xs : cascade_outs (s :: ss) xs = cascade_outs ss (sc_outs s xs).
Proof. revert s ss. induction xs as [|x xs IH]; intros s ss; simpl; [done|]. by rewrite IH. Qed.

Lemma bank_outs_nil xs outs : length outs = length xs -> bank_outs [] xs outs = outs.
Proof. revert outs. induction xs as [|x xs IH]; intros [|o outs] Hl; simplify_eq/=; [done|]. by rewrite IH. Qed.

Lemma bank_outs_cons ss sss xs outs :
  bank_outs (ss :: sss) xs outs =
  bank_outs sss (cascade_outs ss xs) (zip_with (fun o y => sat_int32 (o + y)) outs (cascade_outs ss xs)).
Proof. revert ss sss outs. induction xs as [|x xs IH]; intros ss sss [|o outs]; simpl; [done..|]. by rewrite IH. Qed.

Lemma sc_ws_length s xs : length (sc_ws s xs) = length xs.
Proof. revert s. induction xs as [|x xs IH]; intros s; simpl; [done|]. by rewrite IH. Qed.

Lemma sc_outs_length s xs : length (sc_outs s xs) = length xs.
Proof. unfold sc_outs. by rewrite length_fmap, sc_ws_length. Qed.

Lemma cascade_outs_length ss xs : length (cascade_outs ss xs) = length xs.
Proof. revert ss. induction xs as [|x xs IH]; intros ss; simpl; [done|]. by rewrite IH. Qed.

Lemma past_nth xs k n : (n <= 2)%nat -> past xs k n = nth (k + 2 - n) (0 :: 0 :: xs) 0.
Proof.
  intros Hn. unfold past. case_decide as H.
  - replace (k + 2 - n)%nat with (S (S (k - n))) by lia. done.
  - assert (k + 2 - n = 0 \/ k + 2 - n = 1)%nat as [-> | ->] by lia; done.
Qed.

(** The histories of a section are the signals, from two samples before. *)
Lemma sc_ws_nth s xs k :
  (k < length xs)%nat ->
  let xs' := sc_x2 s :: sc_x1 s :: xs in let ws' := sc_w2 s :: sc_w1 s :: sc_ws s xs in
  nth (k + 2) ws' 0 = rounded (equation (sc_biquad s) (nth (k + 2) xs' 0) (nth (k + 1) xs' 0) (nth k xs' 0) (nth (k + 1) ws' 0) (nth k ws' 0)).
Proof.
  revert s k. induction xs as [|x xs IH]; intros s k Hk; [simpl in Hk; lia|]. simpl in Hk. destruct k as [|k]; [done|].
  exact (IH (sc_next s x) k ltac:(lia)).
Qed.

Definition cleared (c : biquad) : section := mk_section c 0 0 0 0.

Lemma biquad_realises c xs : biquad_signal c xs (sc_outs (cleared c) xs).
Proof.
  exists (sc_ws (cleared c) xs). split_and!; [apply sc_ws_length|apply sc_outs_length|]. intros k Hk. split.
  - rewrite !past_nth by lia. rewrite !Nat.sub_0_r. replace (k + 2 - 1)%nat with (k + 1)%nat by lia. replace (k + 2 - 2)%nat with k by lia.
    exact (sc_ws_nth (cleared c) xs k Hk).
  - unfold past, sc_outs. simpl. rewrite Nat.sub_0_r. rewrite (nth_indep _ 0 (gained c 0)) by (by rewrite length_fmap, sc_ws_length).
    apply map_nth.
Qed.

Lemma cascade_realises cs xs : cascade_signal cs xs (cascade_outs (cleared <$> cs) xs).
Proof.
  revert xs. induction cs as [|c cs IH]; intros xs; simpl; [rewrite cascade_outs_nil; constructor|].
  rewrite cascade_outs_cons. econstructor; [apply biquad_realises|apply IH].
Qed.

Definition cleared_bank (css : list (list biquad)) : list (list section) :=
  (fun cs : list biquad => cleared <$> cs) <$> (css : list (list biquad)).

Lemma bank_realises css xs outs :
  length outs = length xs -> bank_signal css xs outs (bank_outs (cleared_bank css) xs outs).
Proof.
  revert xs outs. induction css as [|cs css IH]; intros xs outs Hl; simpl; [rewrite bank_outs_nil by done; constructor|].
  rewrite bank_outs_cons. econstructor; [apply cascade_realises|]. apply IH. rewrite length_zip_with_l; [by rewrite cascade_outs_length|].
  rewrite cascade_outs_length. lia.
Qed.

Lemma iir_run_bank m iir sss xs :
  iir_rep m iir (Some sss) ->
  exists m', iir_run m iir xs = Some (m', bank_outs sss xs (replicate (length xs) 0)) /\ forall a, ~ in_lines iir a -> m' a = m a.
Proof.
  revert m sss. induction xs as [|x xs IH]; intros m sss Hrep; [by exists m|].
  destruct (iir_step m iir _ x Hrep) as (m1 & E1 & Hrep1 & Hm1). destruct (IH m1 _ Hrep1) as (m2 & E2 & Hm2).
  exists m2. simpl. rewrite E1. simpl. rewrite E2. split; [done|]. intros a Ha. by rewrite Hm2, Hm1.
Qed.

(** *** From a cleared delay line *)

Definition biquad_at (m : mem) (coef : Z) : biquad :=
  mk_biquad (load_s32 m coef) (load_s32 m (coef + 4)) (load_s32 m (coef + 8)) (load_s32 m (coef + 12))
    (load_s32 m (coef + 16)) (load_s32 m (coef + 20)) (load_s32 m (coef + 24)).

Fixpoint series_at (m : mem) (coef : Z) (n : nat) : list biquad :=
  match n with O => [] | S n => biquad_at m coef :: series_at m (coef + sizeof_biquad_df2t) n end.

Fixpoint banks_at (m : mem) (coef : Z) (n k : nat) : list (list biquad) :=
  match k with O => [] | S k => series_at m coef n :: banks_at m (coef + sizeof_biquad_df2t * Z.of_nat n) n k end.

(** The coefficients of a filter: the series, each of [iir_biquads_in_series]
    sections. *)
Definition iir_banks (m : mem) (iir : iir_state_df2t) : list (list biquad) :=
  banks_at m (iir_coef iir) (Z.to_nat (iir_biquads_in_series iir)) (Z.to_nat (iir_biquads iir / iir_biquads_in_series iir)).

(** The shifts are ones that C defines. *)
Definition shift_ok (c : biquad) : bool := (0 <=? 13 + bq_shift c) && (13 + bq_shift c <? 64).

Lemma cleared_section m coef delay :
  (forall a, delay <= a < delay + 16 -> m a = 0) -> shift_ok (biquad_at m coef) -> section_at m coef delay (cleared (biquad_at m coef)).
Proof.
  intros Hz Hs. apply andb_True in Hs as [H1%Is_true_true%Z.leb_le H2%Is_true_true%Z.ltb_lt]. constructor; [done|simpl in *; lia|..];
    unfold load_s64; rewrite load_zero by (intros; apply Hz; lia); simpl; f_equal; lia.
Qed.

Lemma cleared_cascade m coef delay n :
  (forall a, delay <= a < delay + 16 * Z.of_nat n -> m a = 0) -> Forall shift_ok (series_at m coef n) ->
  cascade_at m coef delay (cleared <$> series_at m coef n).
Proof.
  revert coef delay. induction n as [|n IH]; intros coef delay Hz Hs; [done|]. simpl in *. inversion_clear Hs. split.
  - apply cleared_section; [|done]. intros a Ha. apply Hz. lia.
  - apply IH; [|done]. intros a Ha. apply Hz. lia.
Qed.

Lemma series_at_length m coef n : length (series_at m coef n) = n.
Proof. revert coef. induction n as [|n IH]; intros coef; simpl; [done|]. by rewrite IH. Qed.

Lemma banks_at_length m coef n k : length (banks_at m coef n k) = k.
Proof. revert coef. induction k as [|k IH]; intros coef; simpl; [done|]. by rewrite IH. Qed.

Lemma cleared_banks m coef delay n k :
  (forall a, delay <= a < delay + 16 * (Z.of_nat n * Z.of_nat k) -> m a = 0) -> Forall (Forall shift_ok) (banks_at m coef n k) ->
  bank_at n m coef delay (cleared_bank (banks_at m coef n k)).
Proof.
  revert coef delay. induction k as [|k IH]; intros coef delay Hz Hs; [done|]. simpl in *. inversion_clear Hs. split_and!.
  - by rewrite length_fmap, series_at_length.
  - apply cleared_cascade; [|done]. intros a Ha. apply Hz. nia.
  - apply IH; [|done]. intros a Ha. apply Hz. nia.
Qed.

(** A filter whose series are whole, whose shifts are defined and whose delays are
    zero. *)
Record iir_fresh (m : mem) (iir : iir_state_df2t) : Prop := {
  if_wf : iir_wf iir;
  if_whole : (iir_biquads_in_series iir | iir_biquads iir);
  if_shifts : Forall (Forall shift_ok) (iir_banks m iir);
  if_zero a : in_lines iir a -> m a = 0
}.

Lemma iir_fresh_rep m iir : iir_fresh m iir -> iir_rep m iir (Some (cleared_bank (iir_banks m iir))).
Proof.
  intros [W [k Hk] Hs Hz]. pose proof W as [H1 H2 _ _]. unfold iir_banks in *. set (n := iir_biquads_in_series iir) in *.
  rewrite Hk, Z.div_mul in * by lia. assert (0 < k) by nia. split_and!; [done| |].
  - unfold cleared_bank. rewrite length_fmap, banks_at_length, Z2Nat.id by lia. fold n. lia.
  - apply cleared_banks; [|done]. intros a Ha. apply Hz. unfold in_lines. rewrite Hk. lia.
Qed.

(** With coefficients of absolute sum below 4.0 the accumulator does not wrap, and
    the difference equation is exact. *)
Lemma equation_exact c x x1 x2 w1 w2 :
  is_s32 x -> is_s32 x1 -> is_s32 x2 -> is_s32 w1 -> is_s32 w2 ->
  Z.abs (bq_b0 c) + Z.abs (bq_b1 c) + Z.abs (bq_b2 c) + Z.abs (bq_a1 c) + Z.abs (bq_a2 c) < 2 ^ 32 ->
  equation c x x1 x2 w1 w2 = bq_b0 c * x + bq_b1 c * x1 + bq_b2 c * x2 + bq_a1 c * w1 + bq_a2 c * w2.
Proof.
  intros Hx Hx1 Hx2 Hw1 Hw2 Hs. unfold equation. apply i64_small.
  assert (forall b z, is_s32 z -> Z.abs (b * z) <= Z.abs b * 2 ^ 31) as Hb.
  { intros b z Hz. rewrite Z.abs_mul. apply Z.mul_le_mono_nonneg_l; unfold is_s32 in Hz; lia. }
  pose proof (Hb (bq_b0 c) x Hx). pose proof (Hb (bq_b1 c) x1 Hx1). pose proof (Hb (bq_b2 c) x2 Hx2).
  pose proof (Hb (bq_a1 c) w1 Hw1). pose proof (Hb (bq_a2 c) w2 Hw2). lia.
Qed.

(** C33: A filter whose delays are cleared computes, sample by sample and for inputs of
    any length, the difference equations of its coefficients: every section is the
    second order recursion on its whole input signal (0 before the first sample)
    with its accumulator in 64 bits, rounded, saturated, scaled by its gain and
    shift; sections of a series feed one another, every series gets the output of
    the one before, and the outputs of the series are added with saturation. Only the
    delays are written. *)
Theorem iir_realises_equations m iir xs :
  iir_fresh m iir ->
  exists m' ys, iir_run m iir xs = Some (m', ys) /\ bank_signal (iir_banks m iir) xs (replicate (length xs) 0) ys /\
    forall a, ~ in_lines iir a -> m' a = m a.
Proof.
  intros Hf. destruct (iir_run_bank m iir _ xs (iir_fresh_rep m iir Hf)) as (m' & E & Hm).
  eexists m', _. split_and!; [exact E| |exact Hm]. apply bank_realises. by rewrite length_replicate.
Qed.

(** ** Examples *)

(** Two series of one section at 1000, each with a pole at 0.5: 1.0 has the bytes
    0, 0, 0, 64, and 0.5 and the gain of 1.0 have one byte each. *)
Definition demo_iir_mem : mem := fun a =>
  let i := a - 1000 in
  if (0 <=? i) && (i <? 56) then
    match i mod 28 with 7 => 32 | 19 => 64 | 25 => 64 | _ => 0 end
  else 0.
Definition demo_iir : iir_state_df2t := mk_iir 2 1 1000 2000.

Lemma demo_iir_fresh : iir_fresh demo_iir_mem demo_iir.
Proof.
  constructor.
  - constructor; unfold blocks_apart; simpl; lia.
  - by exists 2.
  - vm_compute. repeat constructor.
  - unfold in_lines, demo_iir_mem. simpl. intros a Ha. replace (a - 1000 <? 56) with false by lia. by rewrite andb_false_r.
Qed.

Lemma iir_realises_equations_witness :
  exists m' ys, iir_run demo_iir_mem demo_iir [1000; 0; 0] = Some (m', ys) /\
    bank_signal (iir_banks demo_iir_mem demo_iir) [1000; 0; 0] (replicate 3 0) ys /\
    forall a, ~ in_lines demo_iir a -> m' a = demo_iir_mem a.
Proof. apply (iir_realises_equations demo_iir_mem demo_iir [1000; 0; 0]). apply demo_iir_fresh. Defined.

(** The impulse response of one pole, and that of two behind one another, added. *)
Example demo_iir_impulse : (r ← iir_run demo_iir_mem demo_iir [1000; 0; 0]; Some r.2) = Some [2000; 1500; 1000].
Proof. vm_compute. reflexivity. Qed.

(** The flat section that [eq.h] gives has a gain above 1.0: 16484 is not 1.0 in
    Q2.14, which is 16384. *)
Example flat_section_gain :
  sc_out (cleared (mk_biquad 0 0 0 0 1073741824 0 16484)) 1000000 = 1006104 /\
  sc_out (cleared (mk_biquad 0 0 0 0 1073741824 0 16384)) 1000000 = 1000000.
Proof. vm_compute. split; reflexivity. Qed.

(** One section in series of two: the filter uses a second one, and writes the two
    delays behind its delay line. *)
Example partial_series_overruns :
  (r ← iir_df2t demo_iir_mem (mk_iir 1 2 1000 2000) 1000; Some (load_s64 r.1 2016)) = Some 536870912000 /\
  load_s64 demo_iir_mem 2016 = 0.
Proof. vm_compute. split; reflexivity. Qed.
