(* ===== verification/EqIir.v ===== *)
(** * The IIR equalizer

    [src/audio/eq_iir/eq_iir.c] with [include/sof/math/iir_df2t_generic.h] and
    [include/user/eq.h], for the generic filters and with the three sample formats
    configured. The component filters every channel with the response that a
    configuration blob assigns to it, and converts the format on the way. *)

From stdpp Require Import base list numbers option gmap.
From S2P Require Import Prelude StateM AudioStream StreamCopy Heap HeapMap HeapSpec HeapFree HeapZones Allocator.
From S2P Require Import Buffer Numbers DataBlob CompState Pipeline PipelineOps Format SampleLoop.
From S2P Require Import ChannelLoop Iir Topology Driver EqComp.

Abbreviation SOF_EQ_IIR_MAX_SIZE := 1024 (only parsing).
Abbreviation SOF_EQ_IIR_MAX_RESPONSES := 8%nat (only parsing).
Abbreviation SOF_EQ_IIR_NHEADER_DF2T := 6 (only parsing).
Abbreviation SOF_EQ_IIR_NBIQUAD_DF2T := 7 (only parsing).

(** ** Filtering streams *)

(** One sample of a channel, as it is in memory, with the memory and the output. *)
Definition iir_df2t_s16 (m : mem) (iir : iir_state_df2t) (x : Z) : option (mem * Z) :=
  r ← iir_df2t m iir (i32 (Z.shiftl (i16 x) 16)); Some (r.1, sat_int16 (Q_SHIFT_RND r.2 31 15)).
Definition iir_df2t_s24 (m : mem) (iir : iir_state_df2t) (x : Z) : option (mem * Z) :=
  r ← iir_df2t m iir (i32 (Z.shiftl (i32 x) 8)); Some (r.1, sat_int24 (Q_SHIFT_RND r.2 31 23)).
Definition iir_df2t_s32 (m : mem) (iir : iir_state_df2t) (x : Z) : option (mem * Z) := iir_df2t m iir (i32 x).
Definition iir_df2t_s32_s16 (m : mem) (iir : iir_state_df2t) (x : Z) : option (mem * Z) :=
  r ← iir_df2t m iir (i32 x); Some (r.1, sat_int16 (Q_SHIFT_RND r.2 31 15)).
Definition iir_df2t_s32_s24 (m : mem) (iir : iir_state_df2t) (x : Z) : option (mem * Z) :=
  r ← iir_df2t m iir (i32 x); Some (r.1, sat_int24 (Q_SHIFT_RND r.2 31 23)).

(** The state of a filter is in memory; its record stays as it is. *)
Definition filter_step (filter : mem -> iir_state_df2t -> Z -> option (mem * Z)) (m : mem) (iir : iir_state_df2t) (x : Z) :
    option (mem * iir_state_df2t * Z) :=
  r ← filter m iir x; Some (r.1, iir, r.2).

(** The loop runs while samples are left; a negative number of samples is none. *)
Definition eq_iir_default (filter : mem -> iir_state_df2t -> Z -> option (mem * Z)) (ws wk : nat) (m : mem) (iir : list iir_state_df2t)
    (source sink : audio_stream) (frames nch : Z) : option (mem * list iir_state_df2t) :=
  if i32 (frames * nch) <? 0 then Some (m, iir) else stream_run (filter_step filter) ws wk m iir source sink frames nch.

Definition eq_iir_s16_default := eq_iir_default iir_df2t_s16 2 2.
Definition eq_iir_s24_default := eq_iir_default iir_df2t_s24 4 4.
Definition eq_iir_s32_default := eq_iir_default iir_df2t_s32 4 4.
Definition eq_iir_s32_16_default := eq_iir_default iir_df2t_s32_s16 4 2.
Definition eq_iir_s32_24_default := eq_iir_default iir_df2t_s32_s24 4 4.

Definition eq_iir_pass (m : mem) (iir : list iir_state_df2t) (source sink : audio_stream) (frames nch : Z) :
    option (mem * list iir_state_df2t) :=
  r ← audio_stream_copy m source 0 sink 0 (u32 (frames * nch)); Some (r.1, iir).

(** Samples [i] and on, [n] of them: those of the sink are [size] bytes apart, and
    [width] bytes are written. *)
Fixpoint pass_loop (n : nat) (size : Z) (width : nat) (f : Z -> Z) (m : mem) (source sink : audio_stream) (i : Z) : option mem :=
  match n with
  | O => Some m
  | S n =>
      x ← audio_stream_get_frag source (s_r_ptr source) i 4;
      y ← audio_stream_get_frag sink (s_w_ptr sink) i size;
      pass_loop n size width f (store_le width m y (f (load_s32 m x))) source sink (i + 1)
  end.

Definition eq_iir_s32_s16_pass (m : mem) (iir : list iir_state_df2t) (source sink : audio_stream) (frames nch : Z) :
    option (mem * list iir_state_df2t) :=
  m ← pass_loop (Z.to_nat (i32 (frames * nch))) 2 2 (fun x => sat_int16 (Q_SHIFT_RND x 31 15)) m source sink 0; Some (m, iir).

(** The samples of 32 bits are written at the places of samples of 16 bits. *)
Definition eq_iir_s32_s24_pass (m : mem) (iir : list iir_state_df2t) (source sink : audio_stream) (frames nch : Z) :
    option (mem * list iir_state_df2t) :=
  m ← pass_loop (Z.to_nat (i32 (frames * nch))) 2 4 (fun x => sat_int24 (Q_SHIFT_RND x 31 23)) m source sink 0; Some (m, iir).

(** [eq_iir_func] *)
Inductive iir_func := IirNull | IirS16 | IirS24 | IirS32 | IirS32S16 | IirS32S24 | IirPass | IirPassS32S16 | IirPassS32S24.

#[export] Instance iir_func_eq_dec : EqDecision iir_func.
Proof. solve_decision. Defined.

Definition iir_with (fn : iir_func) : mem -> list iir_state_df2t -> audio_stream -> audio_stream -> Z -> Z ->
    option (mem * list iir_state_df2t) :=
  match fn with
  | IirNull => fun _ _ _ _ _ _ => None
  | IirS16 => eq_iir_s16_default
  | IirS24 => eq_iir_s24_default
  | IirS32 => eq_iir_s32_default
  | IirS32S16 => eq_iir_s32_16_default
  | IirS32S24 => eq_iir_s32_24_default
  | IirPass => eq_iir_pass
  | IirPassS32S16 => eq_iir_s32_s16_pass
  | IirPassS32S24 => eq_iir_s32_s24_pass
  end.

(** Source format, sink format and function. *)
Definition fm_configured : list (Z * Z * iir_func) :=
  [(SOF_IPC_FRAME_S16_LE, SOF_IPC_FRAME_S16_LE, IirS16);
   (SOF_IPC_FRAME_S16_LE, SOF_IPC_FRAME_S24_4LE, IirNull);
   (SOF_IPC_FRAME_S24_4LE, SOF_IPC_FRAME_S16_LE, IirNull);
   (SOF_IPC_FRAME_S16_LE, SOF_IPC_FRAME_S32_LE, IirNull);
   (SOF_IPC_FRAME_S32_LE, SOF_IPC_FRAME_S16_LE, IirS32S16);
   (SOF_IPC_FRAME_S24_4LE, SOF_IPC_FRAME_S24_4LE, IirS24);
   (SOF_IPC_FRAME_S24_4LE, SOF_IPC_FRAME_S32_LE, IirNull);
   (SOF_IPC_FRAME_S32_LE, SOF_IPC_FRAME_S24_4LE, IirS32S24);
   (SOF_IPC_FRAME_S32_LE, SOF_IPC_FRAME_S32_LE, IirS32)].

Definition fm_passthrough : list (Z * Z * iir_func) :=
  [(SOF_IPC_FRAME_S16_LE, SOF_IPC_FRAME_S16_LE, IirPass);
   (SOF_IPC_FRAME_S16_LE, SOF_IPC_FRAME_S24_4LE, IirNull);
   (SOF_IPC_FRAME_S24_4LE, SOF_IPC_FRAME_S16_LE, IirNull);
   (SOF_IPC_FRAME_S16_LE, SOF_IPC_FRAME_S32_LE, IirNull);
   (SOF_IPC_FRAME_S32_LE, SOF_IPC_FRAME_S16_LE, IirPassS32S16);
   (SOF_IPC_FRAME_S24_4LE, SOF_IPC_FRAME_S24_4LE, IirPass);
   (SOF_IPC_FRAME_S24_4LE, SOF_IPC_FRAME_S32_LE, IirNull);
   (SOF_IPC_FRAME_S32_LE, SOF_IPC_FRAME_S24_4LE, IirPassS32S24);
   (SOF_IPC_FRAME_S32_LE, SOF_IPC_FRAME_S32_LE, IirPass)].

Fixpoint eq_iir_find_func (source_format sink_format : Z) (map : list (Z * Z * iir_func)) : iir_func :=
  match map with
  | [] => IirNull
  | (source, sink, func) :: map =>
      if negb (u8 source_format =? source) then eq_iir_find_func source_format sink_format map else
      if negb (u8 sink_format =? sink) then eq_iir_find_func source_format sink_format map else
      func
  end.

(** ** The configuration blob *)

(** The fields of the [struct sof_eq_iir_config] at an address. *)
Definition iir_channels_in_config (m : mem) (config : Z) : Z := load_le 4 m (config + 4).
Definition iir_number_of_responses (m : mem) (config : Z) : Z := load_le 4 m (config + 8).
Definition iir_config_data (config : Z) : Z := config + 28.
Definition iir_assign_response (m : mem) (config : Z) (i : nat) : Z := load_s32 m (iir_config_data config + 4 * Z.of_nat i).

(** The responses from number [i] on, [n] of them; [j] is the index of the next one
    in [coef_data]. *)
Fixpoint iir_collect_responses (n : nat) (i : Z) (m : mem) (coef_data responses j : Z) : list Z :=
  match n with
  | O => []
  | S n =>
      if i <? responses then
        let eq := coef_data + 4 * j in
        eq :: iir_collect_responses n (i + 1) m coef_data responses
                (i32 (j + (SOF_EQ_IIR_NHEADER_DF2T + SOF_EQ_IIR_NBIQUAD_DF2T * load_le 4 m eq)))
      else 0 :: iir_collect_responses n (i + 1) m coef_data responses j
  end.

(** [lookup] *)
Definition iir_lookup (m : mem) (config : Z) : list Z :=
  iir_collect_responses SOF_EQ_IIR_MAX_RESPONSES 0 m (iir_config_data config + 4 * iir_channels_in_config m config)
    (iir_number_of_responses m config) 0.

(** ** The equalizer *)

Abbreviation iir_eq := (eq_data iir_state_df2t iir_func) (only parsing).

Definition iir_no_delay (iir : iir_state_df2t) : iir_state_df2t :=
  mk_iir (iir_biquads iir) (iir_biquads_in_series iir) (iir_coef iir) 0.

Definition iir_kind : eq_kind iir_state_df2t :=
  mk_kind iir_reset_df2t iir_init_coef_df2t iir_delay_size_df2t (fun f => iir_biquads f >? 0) iir_init_delay_df2t iir_no_delay
    (fun _ _ => false) (Z.of_nat SOF_EQ_IIR_MAX_RESPONSES) iir_channels_in_config iir_number_of_responses iir_assign_response iir_lookup.

Section eq.
(** The size of the arrays of channels. *)
Context (PLATFORM_MAX_CHANNELS : nat).
Context {A : Type} `{!Allocator A} (sizeof_comp_dev sizeof_comp_data sizeof_blob : Z).
Notation MX := (ST (world A * gmap Z iir_eq)).

Definition eq_iir_init_coef := eq_init_coef iir_kind PLATFORM_MAX_CHANNELS.
Definition eq_iir_init_delay := eq_init_delay iir_kind.
Definition eq_iir_free_delaylines : iir_eq -> M A iir_eq := eq_free_delaylines iir_kind.
Definition eq_iir_setup : iir_eq -> Z -> M A (iir_eq * Z) := eq_setup iir_kind PLATFORM_MAX_CHANNELS zalloc.

Definition eq_iir_new : Z -> Z -> comp_ipc_config -> ipc_config_specific -> MX Z :=
  eq_new iir_kind PLATFORM_MAX_CHANNELS sizeof_comp_dev sizeof_comp_data sizeof_blob SOF_EQ_IIR_MAX_SIZE (mk_iir 0 0 0 0) IirNull.
Definition eq_iir_free : Z -> MX unit := eq_free iir_kind.

Definition eq_iir_verify_params (dev : Z) (params : sof_ipc_stream_params) : M A (sof_ipc_stream_params * Z) :=
  d ← get_dev dev;
  sourceb ← lift (head (d_bsource_list d));
  sinkb ← lift (head (d_bsink_list d));
  source ← get_buf sourceb;
  sink ← get_buf sinkb;
  let buffer_flag :=
    if bool_decide (eq_iir_find_func (s_frame_fmt (b_stream source)) (s_frame_fmt (b_stream sink)) fm_configured = IirNull)
    then 0 else BUFF_PARAMS_FRAME_FMT in
  r ← comp_verify_params dev buffer_flag params;
  mret (r.1, if r.2 <? 0 then r.2 else 0).

Definition eq_iir_params (dev : Z) (params : sof_ipc_stream_params) : M A (sof_ipc_stream_params * Z) :=
  r ← eq_iir_verify_params dev params;
  mret (r.1, if r.2 <? 0 then - EINVAL else 0).

Definition iir_cmd_get_data : Z -> Z -> sof_ipc_ctrl_data -> Z -> MX (Z * Z) := eq_cmd_get_data.
Definition iir_cmd_set_data : Z -> Z -> sof_ipc_ctrl_data -> MX Z := eq_cmd_set_data.
Definition eq_iir_cmd : Z -> Z -> Z -> sof_ipc_ctrl_data -> Z -> MX (Z * Z) := eq_cmd.
Definition eq_iir_trigger : Z -> Z -> MX Z := eq_trigger IirNull.
Definition eq_iir_reset : Z -> MX Z := eq_reset iir_kind IirNull.

Definition eq_iir_process : Z -> Z -> Z -> Z -> Z -> Z -> MX unit := eq_process iir_with.

Definition eq_iir_copy (dev : Z) : MX Z :=
  d ← in_world (get_dev dev);
  sourceb ← lift (head (d_bsource_list d));
  b ← in_world (get_buf sourceb);
  ret ← check_config iir_kind PLATFORM_MAX_CHANNELS zalloc dev (s_channels (b_stream b));
  if ret <? 0 then mret ret else
  sinkb ← lift (head (d_bsink_list d));
  k ← in_world (get_buf sinkb);
  let cl := comp_get_copy_limits (b_stream b) (b_stream k) in
  eq_iir_process dev sourceb sinkb (cl_frames cl) (u32 (cl_source_bytes cl)) (u32 (cl_sink_bytes cl)) ;;
  mret 0.

(** The function of the formats, which [map] has to have. *)
Definition prepare_func (dev : Z) (ed : iir_eq) (source_format sink_format : Z) (map : list (Z * Z * iir_func)) : MX Z :=
  let func := eq_iir_find_func source_format sink_format map in
  set_drvdata dev (ed_set_func ed func) ;;
  if bool_decide (func = IirNull) then prepare_err dev (- EINVAL) else mret 0.

Definition eq_iir_prepare (dev : Z) : MX Z :=
  ed ← get_drvdata dev;
  ret ← in_world (set_dev_state dev COMP_TRIGGER_PREPARE);
  if ret <? 0 then mret ret else
  if ret =? COMP_STATUS_STATE_ALREADY_SET then mret PPL_STATUS_PATH_STOP else
  d ← in_world (get_dev dev);
  sourceb ← lift (head (d_bsource_list d));
  sinkb ← lift (head (d_bsink_list d));
  source ← in_world (get_buf sourceb);
  sink ← in_world (get_buf sinkb);
  let source_format := s_frame_fmt (b_stream source) in
  let sink_format := s_frame_fmt (b_stream sink) in
  if s_size (b_stream sink) <? audio_stream_period_bytes (b_stream sink) (d_frames d) then prepare_err dev (- ENOMEM) else
  ed ← in_world (get_data_blob ed);
  if negb (ed_config ed =? 0) then
    r ← in_world (eq_iir_setup ed (s_channels (b_stream source)));
    let '(ed, ret) := r in
    set_drvdata dev ed ;;
    if ret <? 0 then prepare_err dev ret else
    prepare_func dev ed source_format sink_format fm_configured
  else prepare_func dev ed source_format sink_format fm_passthrough.

Definition eq_iir_driver (ipc_data : Z) : driver_ops A (gmap Z iir_eq) := mk_driver_ops (eq_iir_new ipc_data) eq_iir_free.
End eq.
