(* ===== verification/EqIirCopy.v ===== *)
(** * One period of the IIR equalizer

    [eq_iir_copy] of [src/audio/eq_iir/eq_iir.c] on queues of samples: every channel
    of the sink gains the next outputs of the difference equations of its
    response, on all that the channel of the source has had since the equalizer was
    configured. *)

From stdpp Require Import base list numbers option gmap.
From S2P Require Import Prelude StateM AudioStream StreamCopy Heap HeapMap HeapSpec HeapFree HeapZones Allocator.
From S2P Require Import Buffer Numbers DataBlob CompState Pipeline PipelineOps PipelineWalk PipelineThms PipelineLife.
From S2P Require Import Format SampleLoop PcmConvert PcmThms ChannelLoop Iir Topology TopologyInv Driver SampleQueue.
From S2P Require Import ChannelCopy Mixer MixerThms MixerCopy EqComp EqPeriod EqIir.

(** ** The functions that filter *)

Inductive iir_filters : iir_func -> Prop :=
| iir_filters_s16 : iir_filters IirS16
| iir_filters_s24 : iir_filters IirS24
| iir_filters_s32 : iir_filters IirS32
| iir_filters_s32_s16 : iir_filters IirS32S16
| iir_filters_s32_s24 : iir_filters IirS32S24.

Definition iir_source_fmt (fn : iir_func) : pcm_fmt := match fn with IirS16 => FMT_S16 | IirS24 => FMT_S24 | _ => FMT_S32 end.
Definition iir_sink_fmt (fn : iir_func) : pcm_fmt :=
  match fn with IirS16 | IirS32S16 => FMT_S16 | IirS24 | IirS32S24 => FMT_S24 | _ => FMT_S32 end.

Definition iir_sample (fn : iir_func) : mem -> iir_state_df2t -> Z -> option (mem * Z) :=
  match fn with
  | IirS16 => iir_df2t_s16
  | IirS24 => iir_df2t_s24
  | IirS32S16 => iir_df2t_s32_s16
  | IirS32S24 => iir_df2t_s32_s24
  | _ => iir_df2t_s32
  end.

Lemma iir_sample_spec fn m iir x :
  iir_sample fn m iir x = r ← iir_df2t m iir (to_s32 (iir_source_fmt fn) x); Some (r.1, of_s32 (iir_sink_fmt fn) r.2).
Proof. destruct fn; simpl; try done; unfold iir_df2t_s32; by destruct (iir_df2t m iir _) as [[]|]. Qed.

Lemma iir_with_stream fn m iir source sink frames nch :
  iir_filters fn -> 0 <= i32 (frames * nch) ->
  iir_with fn m iir source sink frames nch =
  stream_run (filter_step (iir_sample fn)) (fmt_width (iir_source_fmt fn)) (fmt_width (iir_sink_fmt fn)) m iir source sink frames nch.
Proof.
  intros Hfn H0. assert (i32 (frames * nch) <? 0 = false) as E by lia. destruct Hfn; simpl;
    unfold eq_iir_s16_default, eq_iir_s24_default, eq_iir_s32_default, eq_iir_s32_16_default, eq_iir_s32_24_default, eq_iir_default; by rewrite E.
Qed.

Lemma iir_source_fmt_int fn : iir_source_fmt fn <> FMT_FLOAT.
Proof. by destruct fn. Qed.

Lemma iir_sink_fmt_int fn : iir_sink_fmt fn <> FMT_FLOAT.
Proof. by destruct fn. Qed.

(** The filter between the conversions implements the interface of the loops. *)
#[export, refine] Instance iir_filter fn : ChannelFilter (filter_step (iir_sample fn)) iir_abs := {|
  fl_rep := iir_rep;
  fl_value h x := of_s32 (iir_sink_fmt fn) (iir_value h (to_s32 (iir_source_fmt fn) x));
  fl_next h x := iir_next h (to_s32 (iir_source_fmt fn) x);
  fl_owns := in_lines;
  fl_reads f a := in_lines f a \/ in_sections f a
|}.
Proof.
  - by left.
  - apply iir_rep_ext.
  - intros m f h x Hrep. destruct (iir_step m f h (to_s32 (iir_source_fmt fn) x) Hrep) as (m' & E & Hrep' & Hm).
    exists m', f. unfold filter_step. rewrite iir_sample_spec, E. by split_and!.
Defined.

(** ** Signals of channels *)

Definition iir_after (h : iir_abs) (xs : list Z) : iir_abs := foldl iir_next h xs.

Fixpoint iir_outs (h : iir_abs) (xs : list Z) : list Z :=
  match xs with [] => [] | x :: xs => iir_value h x :: iir_outs (iir_next h x) xs end.

Lemma iir_outs_lookup h xs t x : xs !! t = Some x -> iir_outs h xs !! t = Some (iir_value (iir_after h (take t xs)) x).
Proof. revert h t. induction xs as [|y xs IH]; intros h [|t] Ht; simplify_eq/=; [done|]. by apply IH. Qed.

(** The filter of a response, or none, that has seen nothing. *)
Definition iir_start (css : option (list (list biquad))) : iir_abs := cleared_bank <$> css.

(** The output signal of a channel: the difference equations of its response, or the
    input when it is bypassed. *)
Definition channel_signal (css : option (list (list biquad))) (xs zs : list Z) : Prop :=
  match css with None => zs = xs | Some css => bank_signal css xs (replicate (length xs) 0) zs end.

Lemma iir_outs_bank sss xs : iir_outs (Some sss) xs = bank_outs sss xs (replicate (length xs) 0).
Proof. revert sss. induction xs as [|x xs IH]; intros sss; simpl; [done|]. by rewrite IH. Qed.

Lemma iir_outs_signal css xs : channel_signal css xs (iir_outs (iir_start css) xs).
Proof.
  destruct css as [css|]; simpl.
  - rewrite iir_outs_bank. apply bank_realises. by rewrite length_replicate.
  - induction xs as [|x xs IH]; simpl; [done|]. by rewrite IH.
Qed.

Lemma bank_range sss x out : is_s32 out -> is_s32 (bank sss x out).2.
Proof.
  revert x out. induction sss as [|ss sss IH]; intros x out Ho; simpl; [done|]. apply IH.
  rewrite sat_int32_clamp. unfold clamp, is_s32. lia.
Qed.

Lemma iir_value_range h x : is_s32 x -> is_s32 (iir_value h x).
Proof. intros Hx. destruct h as [sss|]; simpl; [|done]. apply bank_range. unfold is_s32. lia. Qed.

(** ** The operation *)

Section copy.
Context {A : Type} `{!Allocator A} (PLATFORM_MAX_CHANNELS : nat) (fn : iir_func) (nch : nat).
Hypothesis Hfn : iir_filters fn.
Hypothesis Hch : 0 < Z.of_nat nch < 2 ^ 16.
Implicit Types (w : world A) (x : gmap Z iir_eq) (css : nat -> option (list (list biquad))) (xss : nat -> list Z).
Notation fs := (iir_source_fmt fn).
Notation fk := (iir_sink_fmt fn).
Notation ws := (Z.of_nat (fmt_width fs)).
Notation wk := (Z.of_nat (fmt_width fk)).
Notation step := (filter_step (iir_sample fn)).

(** It is configured, with whole frames in both buffers; [css] are the responses of
    the channels and [xss] the inputs that they have had. *)
Record iir_ok (m : mem) (ed : iir_eq) (b k : comp_buffer) css xss : Prop := {
  ik_func : ed_func ed = fn;
  ik_idle : comp_is_new_data_blob_available (ed_model_handler ed) = false;
  ik_io : frames_io fs fk nch (b_stream b) (b_stream k);
  ik_channels : channels_ok step nch (b_stream b) (b_stream k) m (ed_filters ed) (fun j => iir_after (iir_start (css j)) (xss j))
}.

(** The frames of a period: what the source has and the sink has room for. *)
Definition iir_frames (b k : comp_buffer) : nat := io_frames (b_stream b) (b_stream k).

Definition iir_inputs (m : mem) (b k : comp_buffer) (j : nat) : list Z := channel_in fs nch m (b_stream b) (iir_frames b k) j.

(** What a period does: the source loses the frames, the sink gains the next outputs
    of every channel, the filters go on. *)
Record iir_period (m : mem) (ed : iir_eq) (b k : comp_buffer) css xss (m' : mem) (iirs' : list iir_state_df2t) (b' k' : comp_buffer) : Prop := {
  ip_ok : iir_ok m' (ed_set_filters ed iirs') b' k' css (fun j => xss j ++ iir_inputs m b k j);
  ip_source m1 : samples fs m1 (b_stream b') = drop (iir_frames b k * nch) (samples fs m1 (b_stream b));
  ip_sink : exists out, samples fk m' (b_stream k') = samples fk m (b_stream k) ++ out /\ length out = (iir_frames b k * nch)%nat /\
    forall j, (j < nch)%nat -> exists zs, channel_signal (css j) (xss j ++ iir_inputs m b k j) zs /\
      forall i, (i < iir_frames b k)%nat ->
        out !! (i * nch + j)%nat = Some (pattern fk (sample_spec FMT_S32 fk (nth (length (xss j) + i) zs 0)));
  ip_mem a : ~ in_ring (b_stream k) a -> ~ owned step nch (ed_filters ed) a -> m' a = m a
}.

Lemma chan_state_after m s (hs : nat -> iir_abs) j t :
  chan_state step (fmt_width fs) nch s (s_r_ptr s) m hs j t = iir_after (hs j) (channel_in fs nch m s t j).
Proof.
  induction t as [|t IH]; [done|]. simpl chan_state. rewrite IH, chan_in_sample, channel_in_S by apply iir_source_fmt_int.
  unfold iir_after. by rewrite foldl_app.
Qed.

(** Output [i] of the period is the output behind those of the inputs before. *)
Lemma chan_out_signal m s (hs : nat -> iir_abs) css xss n i j :
  hs j = iir_after (iir_start (css j)) (xss j) -> (i < n)%nat ->
  chan_out step (fmt_width fs) nch s (s_r_ptr s) m hs j i =
  sample_spec FMT_S32 fk (nth (length (xss j) + i) (iir_outs (iir_start (css j)) (xss j ++ channel_in fs nch m s n j)) 0).
Proof.
  intros Hh Hi. unfold chan_out. rewrite chan_state_after. simpl fl_value. rewrite chan_in_sample by apply iir_source_fmt_int.
  pose proof (channel_in_lookup fs nch m s j i n Hi) as Hx. set (x := sample_spec _ _ _) in *.
  assert (is_s32 x) by (unfold x; rewrite <- to_s32_spec by apply iir_source_fmt_int; apply to_s32_range).
  rewrite of_s32_spec by (apply iir_sink_fmt_int || by apply iir_value_range). f_equal. symmetry. apply nth_lookup_Some.
  rewrite (iir_outs_lookup _ _ _ x); [|by rewrite lookup_app_r, Nat.add_comm, Nat.add_sub by lia].
  rewrite take_app_add, channel_in_take by lia. rewrite Hh. unfold iir_after. by rewrite foldl_app.
Qed.

Lemma iir_limits m ed b k css xss :
  iir_ok m ed b k css xss ->
  let cl := comp_get_copy_limits (b_stream b) (b_stream k) in let n := (iir_frames b k * nch)%nat in
  cl_frames cl = Z.of_nat (iir_frames b k) /\ ws * Z.of_nat n <= s_avail (b_stream b) /\ wk * Z.of_nat n <= s_free (b_stream k) /\
  u32 (cl_source_bytes cl) = ws * Z.of_nat n /\ u32 (cl_sink_bytes cl) = wk * Z.of_nat n.
Proof.
  intros K. apply (io_limits_bytes fs fk nch Hch), (ik_io _ _ _ _ _ _ K).
Qed.

Lemma iir_period_ok m ed b k css xss m' iirs' b' k' :
  iir_ok m ed b k css xss ->
  frames_moved fs fk nch step m (ed_filters ed) (fun j => iir_after (iir_start (css j)) (xss j)) b k (iir_frames b k) m' iirs' b' k' ->
  iir_period m ed b k css xss m' iirs' b' k'.
Proof.
  intros [Ef Ei I C] [_ I' C' Hs Hs' Hm]. constructor; [constructor; try done| |eexists; split_and!; [exact Hs'|..]|]; try done.
  - eapply channels_ok_states; [exact C'|]. intros j Hj. simpl. rewrite chan_state_after. unfold iir_after, iir_inputs. by rewrite foldl_app.
  - by rewrite length_fmap, length_seq.
  - intros j Hj. eexists. split; [apply iir_outs_signal|]. intros i Hi. rewrite frame_sample_lookup by done. do 2 f_equal.
    by apply chan_out_signal.
Qed.

Lemma iir_process_ok w x dev d ed sa ka b k css xss :
  io_graph w x dev d ed sa ka b k -> iir_ok (w_mem w) ed b k css xss ->
  let n := Z.of_nat (iir_frames b k) in let n' := Z.of_nat (iir_frames b k * nch) in
  wp (eq_iir_process dev sa ka n (ws * n') (wk * n')) (w, x) (fun s _ => exists m' tr iirs' b' k',
    s = (io_world w sa ka b' k' m' tr, <[dev := ed_set_filters ed iirs']> x) /\
    iir_period (w_mem w) ed b k css xss m' iirs' b' k').
Proof.
  intros G K n n'. destruct (iir_limits _ _ _ _ _ _ K) as (_ & Hav & Hfree & _). pose proof K as [Ef _ I C].
  eapply wp_mono; [apply (eq_process_ok fs fk nch step Hch iir_with w x dev d ed sa ka b k
    (fun j => iir_after (iir_start (css j)) (xss j)) (iir_frames b k)); try done|].
  - intros. rewrite Ef. by apply iir_with_stream.
  - intros s _ (m' & tr & iirs' & b' & k' & -> & M). exists m', tr, iirs', b', k'. split; [done|]. by apply iir_period_ok.
Qed.

(** C19: One period of a configured equalizer returns 0. It takes all frames that the
    source has and the sink has room for; the sink gains as many, each channel the
    next samples of the output of its response: the difference equations of its
    sections on the whole input of the channel since the configuration, earlier
    periods included, in the format of the sink; or the input itself, converted, when
    the channel is bypassed. The filters are ready for the next period, with the new
    inputs behind the old ones. Only the ring of the sink and the delay lines are
    written. *)
Theorem eq_iir_copy_filters w x dev d ed sa ka b k css xss :
  io_graph w x dev d ed sa ka b k -> iir_ok (w_mem w) ed b k css xss ->
  exists m' tr iirs' b' k',
    eq_iir_copy PLATFORM_MAX_CHANNELS dev (w, x) =
      Some ((io_world w sa ka b' k' m' tr, <[dev := ed_set_filters ed iirs']> x), 0) /\
    iir_period (w_mem w) ed b k css xss m' iirs' b' k'.
Proof.
  intros G K. pose proof G as [Hd Hx Hsa Hka Hb Hk Hne].
  enough (wp (eq_iir_copy PLATFORM_MAX_CHANNELS dev) (w, x) (fun s r => r = 0 /\
    exists m' tr iirs' b' k', s = (io_world w sa ka b' k' m' tr, <[dev := ed_set_filters ed iirs']> x) /\
      iir_period (w_mem w) ed b k css xss m' iirs' b' k')) as (s & r & E & -> & m' & tr & iirs' & b' & k' & -> & H).
  { by exists m', tr, iirs', b', k'. }
  unfold eq_iir_copy. do 3 drv_step. do 2 drv_step. do 3 drv_step. drv_step.
  unfold check_config. do 2 drv_step. rewrite (ik_idle _ _ _ _ _ _ K). drv_step. change (0 <? 0) with false. cbv iota.
  do 2 drv_step. do 3 drv_step. cbv zeta. drv_step.
  destruct (iir_limits _ _ _ _ _ _ K) as (E1 & _ & _ & E2 & E3). rewrite E1, E2, E3.
  eapply wp_mono; [by apply (iir_process_ok w x dev d ed sa ka b k css xss)|]. intros s [] H. drv_step. done.
Qed.
End copy.

(** ** Examples *)

#[local] Instance iir_copy_allocator : Allocator mm := heap_allocator baytrail baytrail_dcache 4096 65536.

(** Two frames of two 16-bit channels, 1000, 7, 500 and 9, in a ring that wraps. Channel 0
    has one section with a pole at 0.5, channel 1 is bypassed. *)
Definition demo_iir_in : audio_stream := demo_stream_at 1000 4 8.
Definition demo_iir_out : audio_stream := demo_stream_at 3000 4 0.

Definition demo_iir_copy_mem : mem := fun a =>
  if a =? 1004 then 232 else if a =? 1005 then 3 else if a =? 1006 then 7 else
  if a =? 1000 then 244 else if a =? 1001 then 1 else if a =? 1002 then 9 else
  if a =? 5007 then 32 else if (a =? 5019) || (a =? 5025) then 64 else 0.

Definition demo_iirs : list iir_state_df2t := [mk_iir 1 1 5000 6000; mk_iir 0 0 0 0].
Definition demo_iir_data : iir_eq := mk_eq 900 demo_iirs (mk_blob 950 0 0 0 0 false 0) 0 6000 16 IirS16.
Definition demo_iir_dev : comp_dev := set_state COMP_STATE_ACTIVE (demo_dev 1 50 0 SOF_COMP_EQ_IIR [100] [102]).

Definition demo_iir_world : world mm := mk_world
  {[1 := demo_iir_dev]} {[100 := buf_on 100 2 1 demo_iir_in; 102 := buf_on 102 1 3 demo_iir_out]}
  ∅ demo_iir_copy_mem demo_mm [] ∅ (w_data demo_world) [] [].

Definition demo_responses (j : nat) : option (list (list biquad)) :=
  match j with O => Some [[mk_biquad 0 536870912 0 0 1073741824 0 16384]] | _ => None end.

Lemma demo_iir_graph : io_graph demo_iir_world {[1 := demo_iir_data]} 1 demo_iir_dev demo_iir_data 100 102
  (buf_on 100 2 1 demo_iir_in) (buf_on 102 1 3 demo_iir_out).
Proof. constructor; try reflexivity. done. Qed.

Lemma demo_iir_fresh_copy : iir_fresh demo_iir_copy_mem (mk_iir 1 1 5000 6000).
Proof.
  constructor; [constructor; unfold blocks_apart; simpl; lia|by exists 1|vm_compute; repeat constructor|].
  unfold in_lines, demo_iir_copy_mem. simpl. intros a Ha. repeat (case_if; zbool; try lia).
Qed.

Lemma demo_iir_channels : channels_ok (filter_step (iir_sample IirS16)) 2 demo_iir_in demo_iir_out demo_iir_copy_mem demo_iirs
  (fun j => iir_after (iir_start (demo_responses j)) []).
Proof.
  assert (forall j f a, demo_iirs !! j = Some f -> in_lines f a \/ in_sections f a ->
    j = 0%nat /\ (6000 <= a < 6016 \/ 5000 <= a < 5028)) as Hd.
  { unfold in_lines, in_sections. intros [|[|j]] f a Hf Ha; simplify_eq/=; [split; [done|lia]|lia]. }
  constructor; simpl fl_owns; simpl fl_reads.
  - intros [|[|j]] Hj; [| |lia]; eexists; (split; [reflexivity|]); [|done]. apply (iir_fresh_rep _ _ demo_iir_fresh_copy).
  - intros j j' f f' a _ _ Hf Hf' Ha Ha'. destruct (Hd _ _ _ Hf (or_introl Ha)) as [-> _]. by destruct (Hd _ _ _ Hf' Ha') as [-> _].
  - intros j f a _ Hf Ha. destruct (Hd _ _ _ Hf (or_introl Ha)) as [_ ?]. unfold in_ring. simpl. lia.
  - intros j f a _ Hf Ha. destruct (Hd _ _ _ Hf Ha) as [_ ?]. unfold in_ring. simpl. lia.
Qed.

Lemma demo_iir_ok : iir_ok IirS16 2 demo_iir_copy_mem demo_iir_data (buf_on 100 2 1 demo_iir_in) (buf_on 102 1 3 demo_iir_out)
  demo_responses (fun _ => []).
Proof.
  constructor; try done; [constructor|apply demo_iir_channels].
  - apply demo_stream_samples; try lia; [by exists 2|by exists 4].
  - apply demo_stream_samples; try lia; [by exists 2|by exists 0].
  - split; [by exists 2|by exists 1].
  - split; [by exists 2|by exists 1].
  - unfold disjoint_rings. simpl. lia.
Qed.

Lemma eq_iir_copy_filters_witness :
  exists m' tr iirs' b' k',
    eq_iir_copy 8 1 (demo_iir_world, {[1 := demo_iir_data]}) =
      Some ((io_world demo_iir_world 100 102 b' k' m' tr, <[1 := ed_set_filters demo_iir_data iirs']> {[1 := demo_iir_data]}), 0) /\
    iir_period IirS16 2 demo_iir_copy_mem demo_iir_data (buf_on 100 2 1 demo_iir_in) (buf_on 102 1 3 demo_iir_out)
      demo_responses (fun _ => []) m' iirs' b' k'.
Proof.
  apply (eq_iir_copy_filters 8 IirS16 2 iir_filters_s16 ltac:(lia) demo_iir_world {[1 := demo_iir_data]} 1 demo_iir_dev demo_iir_data
    100 102 (buf_on 100 2 1 demo_iir_in) (buf_on 102 1 3 demo_iir_out) demo_responses (fun _ => [])); [apply demo_iir_graph|apply demo_iir_ok].
Defined.

Example demo_iir_copy :
  (r ← eq_iir_copy 8 1 (demo_iir_world, {[1 := demo_iir_data]});
   b ← w_bufs r.1.1 !! 102; Some (r.2, samples FMT_S16 (w_mem r.1.1) (b_stream b))) = Some (0, [1000; 7; 1000; 9]).
Proof. vm_compute. reflexivity. Qed.

(** The conversion of 32-bit samples to 24 bits without a filter writes at the places
    of 16-bit samples: of the samples 256 and 512, two channels of one frame, the second
    is at byte 2 of the sink and not at byte 4. *)
Example pass_s32_s24_places :
  let m := fun a => if a =? 1001 then 1 else if a =? 1005 then 2 else 0 in
  (r ← eq_iir_s32_s24_pass m [] (demo_stream_at 1000 0 8) (demo_stream_at 3000 0 0) 1 2;
   Some (load_s32 r.1 3000, load_s32 r.1 3002, load_s32 r.1 3004)) = Some (131073, 2, 0).
Proof. vm_compute. reflexivity. Qed.
