(* ===== verification/EqIirSetup.v ===== *)
(** * Configuring the IIR equalizer

    [eq_iir_setup] of [src/audio/eq_iir/eq_iir.c]: which blobs it accepts, the
    filters it makes of them, and the memory of the delay lines. *)

From stdpp Require Import base list numbers option gmap.
From S2P Require Import Prelude StateM AudioStream StreamCopy Heap HeapMap HeapSpec HeapFree HeapZones Allocator.
From S2P Require Import Buffer Numbers DataBlob CompState Pipeline PipelineOps PipelineWalk PipelineThms PipelineLife.
From S2P Require Import Format SampleLoop PcmConvert PcmThms ChannelLoop Topology TopologyInv Driver SampleQueue.
From S2P Require Import ChannelCopy Mixer MixerThms MixerCopy EqComp EqSetup EqPeriod Iir EqIir EqIirCopy.

(** ** The kind of filter *)

(** The number of sections that an accepted response has, as the filter reads it. *)
Lemma sections_read m eq :
  0 < iir_delay_size_df2t m eq -> iir_delay_size_df2t m eq = 16 * load_le 4 m eq /\ 1 <= load_le 4 m eq <= SOF_EQ_IIR_DF2T_BIQUADS_MAX.
Proof.
  unfold iir_delay_size_df2t. destruct (_ || _) eqn:Eb; [done|]. intros _. zbool. pose proof (load_range 4 m eq) as Hr.
  assert (load_s32 m eq = load_le 4 m eq) as E; [|lia]. unfold load_s32 in *. change (8 * Z.of_nat 4) with 32 in Hr.
  destruct (Z.le_gt_cases (2 ^ 31) (load_le 4 m eq)) as [Hge|Hlt]; [|apply i32_small; lia]. exfalso.
  assert (i32 (load_le 4 m eq) = load_le 4 m eq - 2 ^ 32) as E; [|lia].
  unfold i32. rewrite <- (Z.mod_add _ (-1)) by lia. rewrite Z.mod_small; lia.
Qed.

#[export, refine] Instance iir_eq_kind : EqKind iir_kind := {| kb_bytes f := 16 * iir_biquads f |}.
Proof.
  - done.
  - intros m f eq. simpl. intros Hs. by destruct (sections_read m eq Hs) as [-> _].
  - intros m eq. simpl. unfold iir_delay_size_df2t. case_if; zbool; lia.
  - intros f. simpl. destruct (Z.gtb_spec (iir_biquads f) 0), (Z.gtb_spec (16 * iir_biquads f) 0); done || lia.
  - intros f p. simpl. lia.
  - intros m config. simpl. unfold iir_lookup. assert (forall n i c r j, length (iir_collect_responses n i m c r j) = n) as H; [|by rewrite H].
    intros n. induction n as [|n IH]; intros i c r j; [done|]. simpl. case_if; simpl; by rewrite IH.
  - intros m config. apply load_range.
Defined.

(** ** Responses *)

(** The sections of the response at an address. *)
Definition response_banks (m : mem) (eq : Z) : list (list biquad) := iir_banks m (iir_init_coef_df2t m (mk_iir 0 0 0 0) eq).

(** The response that a blob gives a channel, or none. *)
Definition channel_response (m : mem) (config : Z) (j : nat) : option (list (list biquad)) :=
  let resp := response iir_kind m config j in
  if resp <? 0 then None else Some (response_banks m (response_at iir_kind m config resp)).

(** What the code does not check of a blob of [size] bytes: the responses that it can
    use lie in it, their sections make whole series, and the shifts are shifts that C
    defines. *)
Definition iir_blob_ok (m : mem) (config size : Z) : Prop :=
  forall resp, 0 <= resp < iir_number_of_responses m config ->
  let eq := response_at iir_kind m config resp in
  config <= eq /\ eq + sizeof_header_df2t + sizeof_biquad_df2t * load_le 4 m eq <= config + size /\
  0 < load_le 4 m (eq + 4) /\ (load_le 4 m (eq + 4) | load_le 4 m eq) /\ Forall (Forall shift_ok) (response_banks m eq).

Lemma series_at_ext m m' coef n :
  (forall a, coef <= a < coef + 28 * Z.of_nat n -> m' a = m a) -> series_at m' coef n = series_at m coef n.
Proof.
  revert coef. induction n as [|n IH]; intros coef H; [done|]. cbn [series_at]. f_equal; [|apply IH; intros; apply H; lia].
  unfold biquad_at. f_equal; apply load_s32_ext; intros; apply H; lia.
Qed.

Lemma banks_at_ext m m' coef n k :
  (forall a, coef <= a < coef + 28 * (Z.of_nat n * Z.of_nat k) -> m' a = m a) -> banks_at m' coef n k = banks_at m coef n k.
Proof.
  revert coef. induction k as [|k IH]; intros coef H; [done|]. cbn [banks_at]. f_equal; [apply series_at_ext|apply IH]; intros; apply H; nia.
Qed.

Lemma iir_banks_ext m m' iir :
  0 < iir_biquads_in_series iir -> (forall a, in_sections iir a -> m' a = m a) -> iir_banks m' iir = iir_banks m iir.
Proof.
  intros Hn H. unfold iir_banks. apply banks_at_ext. intros a Ha. apply H. unfold in_sections. split; [lia|].
  destruct (Z.le_gt_cases 0 (iir_biquads iir / iir_biquads_in_series iir)) as [H0|H0]; [|lia].
  pose proof (Z.mul_div_le (iir_biquads iir) (iir_biquads_in_series iir) Hn). rewrite !Z2Nat.id in Ha by lia. lia.
Qed.

(** ** The filters after the setup *)

Section ready.
#[local] Set Default Proof Using "All".
Context (PLATFORM_MAX_CHANNELS : nat).
Notation K := iir_kind.
Context (m m' : mem) (config size delay : Z) (nch : nat) (r0 : Z * Z) (rest : list (Z * Z)) (iir iir1 iir2 : list iir_state_df2t).
Notation total := (lines K iir1 0 nch).
Hypothesis Hvalid : blob_valid K PLATFORM_MAX_CHANNELS m config (Z.of_nat nch) iir = true.
Hypothesis Hlen : (nch <= length iir)%nat.
Hypothesis Hblob : iir_blob_ok m config size.
Hypothesis Hplaced : filters_placed K m m' config nch rest iir iir1 iir2 delay.
Hypothesis Hr0 : r0 ∈ rest.
Hypothesis Hcov : covers r0 config size.
Notation conf_ok := (configured_ok K PLATFORM_MAX_CHANNELS m config nch iir iir1 Hvalid Hlen (fp_conf _ _ _ _ _ _ _ _ _ _ Hplaced)).
Notation le_ok := (lines_le K PLATFORM_MAX_CHANNELS m config nch iir iir1 Hvalid Hlen (fp_conf _ _ _ _ _ _ _ _ _ _ Hplaced)).
Notation bound_ok := (lines_bound K PLATFORM_MAX_CHANNELS m config nch iir iir1 Hvalid Hlen (fp_conf _ _ _ _ _ _ _ _ _ _ Hplaced)).
Notation apart_ok := (lines_apart K PLATFORM_MAX_CHANNELS m config nch iir iir1 Hvalid Hlen (fp_conf _ _ _ _ _ _ _ _ _ _ Hplaced)).

(** The blob is not in the new block. *)
Lemma blob_apart a : config <= a < config + size -> ~ delay <= a < delay + total.
Proof. intros Ha Hin. destruct Hcov. apply (fp_rest _ _ _ _ _ _ _ _ _ _ Hplaced r0 a Hr0 Hin). unfold inside. lia. Qed.

(** A response on its part of the delay lines. *)
Lemma response_fresh (f : iir_state_df2t) (resp start : Z) :
  let eq := response_at K m config resp in let g := (iir_init_delay_df2t (iir_init_coef_df2t m f eq) start).1 in
  0 <= resp < k_responses K m config -> 0 < k_delay_size K m eq -> delay <= start -> start + 16 * load_le 4 m eq <= delay + total ->
  iir_fresh m' g /\ iir_banks m' g = response_banks m eq /\ (forall a, in_sections g a -> config <= a < config + size).
Proof.
  intros eq g0 Hresp Hs Hst Hend. set (g := mk_iir (load_le 4 m eq) (load_le 4 m (eq + 4)) (eq + 24) start). change g0 with g. clear g0. destruct (Hblob resp Hresp) as (B1 & B2 & B3 & B4 & B5). fold eq in B1, B2, B3, B4, B5.
  destruct (sections_read m eq Hs) as [_ Hn]. pose proof (fp_start _ _ _ _ _ _ _ _ _ _ Hplaced) as Hd.
  assert (forall a, in_sections g a -> config <= a < config + size) as Hin
    by (intros a; unfold in_sections, g; cbn [iir_coef iir_biquads]; lia).
  assert (iir_banks m' g = response_banks m eq) as Eb.
  { change (response_banks m eq) with (iir_banks m g). apply iir_banks_ext; [done|]. intros a Ha.
    apply (fp_same _ _ _ _ _ _ _ _ _ _ Hplaced). by apply blob_apart, Hin. }
  split_and!; [|done|done]. constructor.
  - constructor; unfold g; cbn [iir_coef iir_biquads iir_biquads_in_series iir_delay]; [lia|done|lia|]. unfold blocks_apart.
    destruct (Z.le_gt_cases (eq + 24 + 28 * load_le 4 m eq) start); [by left|].
    destruct (Z.le_gt_cases (start + 16 * load_le 4 m eq) (eq + 24)); [by right|]. exfalso.
    apply (blob_apart (Z.max (eq + 24) start)); lia.
  - done.
  - by rewrite Eb.
  - intros a. unfold in_lines, g. cbn [iir_delay iir_biquads]. intros Ha. apply (fp_zero _ _ _ _ _ _ _ _ _ _ Hplaced). lia.
Qed.

(** Channel [j]: its filter, its part of the delay lines, its part of the blob. *)
Lemma iir_filter_ready j : (j < nch)%nat ->
  exists f1 f, iir1 !! j = Some f1 /\ iir2 !! j = Some f /\ iir_rep m' f (iir_start (channel_response m config j)) /\
    (forall a, in_lines f a -> delay + lines K iir1 0 j <= a < delay + lines K iir1 0 j + kb_bytes (K := K) f1 /\ a < delay + total) /\
    (forall a, in_sections f a -> config <= a < config + size).
Proof.
  intros Hj. destruct (conf_ok j Hj) as (f & _ & Hf1 & Hl & Hr). pose proof (fp_place _ _ _ _ _ _ _ _ _ _ Hplaced j _ Hj Hf1) as Hf2.
  pose proof (bound_ok j ltac:(lia)) as H0. pose proof (le_ok j nch _ ltac:(lia) Hf1) as Hle.
  set (f1 := configured K m config f j) in *. set (start := delay + lines K iir1 0 j) in *. eexists f1, _. split; [exact Hf1|]. split; [exact Hf2|].
  assert (placed K f1 start = if iir_biquads f1 >? 0 then (iir_init_delay_df2t f1 start).1 else f1) as Ep by done.
  unfold channel_response. destruct Hr as [[Hneg E]|(Hpos & Hs & E)]; fold f1 in E.
  - assert (iir_biquads f1 = 0) as E0 by (by rewrite E). rewrite E0 in Ep. change (0 >? 0) with false in Ep. rewrite Ep, (proj2 (Z.ltb_lt _ _) Hneg).
    unfold in_lines, in_sections. split_and!; [done|lia..].
  - rewrite (proj2 (Z.ltb_ge _ _)) by apply Hpos. set (eq := response_at K m config (response K m config j)) in *.
    destruct (sections_read m eq Hs) as [_ Hn]. assert (iir_biquads f1 = load_le 4 m eq) as El by (by rewrite E).
    rewrite (proj2 (Z.gtb_lt (iir_biquads f1) 0)) in Ep by lia. simpl kb_bytes in Hle, Hl |- *. rewrite El in *.
    destruct (response_fresh f (response K m config j) start Hpos Hs) as (Hfresh & Eb & Hsec); [unfold start; lia|fold eq; lia|].
    fold eq in Hfresh, Eb, Hsec. change (k_init_coef K m f eq) with (iir_init_coef_df2t m f eq) in E. rewrite <- E in Hfresh, Eb, Hsec. rewrite Ep. split_and!; [|unfold in_lines; cbn [iir_init_delay_df2t fst iir_delay iir_biquads]; lia|done].
    simpl iir_start. rewrite <- Eb. by apply iir_fresh_rep.
Qed.

Lemma setup_channels_ok fn source sink :
  (forall a, delay <= a < delay + total -> ~ in_ring source a /\ ~ in_ring sink a) ->
  (forall a, config <= a < config + size -> ~ in_ring sink a) ->
  channels_ok (filter_step (iir_sample fn)) nch source sink m' iir2 (fun j => iir_start (channel_response m config j)).
Proof.
  intros Hrings Hcoef.
  assert (forall j f a, (j < nch)%nat -> iir2 !! j = Some f -> in_lines f a -> delay <= a < delay + total) as Hd.
  { intros j f a Hj Hf Ha. destruct (iir_filter_ready j Hj) as (f1 & f' & _ & Hf' & _ & H & _). simplify_eq.
    pose proof (bound_ok j ltac:(lia)). specialize (H a Ha). lia. }
  assert (forall j f a, (j < nch)%nat -> iir2 !! j = Some f -> in_sections f a -> config <= a < config + size) as Hc.
  { intros j f a Hj Hf Ha. destruct (iir_filter_ready j Hj) as (f1 & f' & _ & Hf' & _ & _ & H). simplify_eq. by apply H. }
  constructor; simpl fl_rep; simpl fl_owns; simpl fl_reads.
  - intros j Hj. destruct (iir_filter_ready j Hj) as (_ & f & _ & Hf & Hr & _). by exists f.
  - intros j j' f f' a Hj Hj' Hf Hf' Ha [Ha'|Ha'].
    + destruct (iir_filter_ready j Hj) as (f1 & g & Hf1 & Hg & _ & H & _). destruct (iir_filter_ready j' Hj') as (f1' & g' & Hf1' & Hg' & _ & H' & _).
      simplify_eq. eapply (apart_ok j j' f1 f1' delay a); [done..|by apply H|by apply H'].
    + exfalso. apply (blob_apart a); [by apply (Hc j' f')|by apply (Hd j f)].
  - intros j f a Hj Hf Ha. by apply Hrings, (Hd j f).
  - intros j f a Hj Hf [Ha|Ha]; [by apply Hrings, (Hd j f)|by apply Hcoef, (Hc j f)].
Qed.
End ready.

(** ** The operation *)

Section setup.
Context {A : Type} `{!Allocator A} (PLATFORM_MAX_CHANNELS : nat).
Hypothesis Hmax : Z.of_nat PLATFORM_MAX_CHANNELS <= 2 ^ 16.
Implicit Types w : world A.

(** Configured with the responses of the blob at [config], with no input so far,
    between any two streams of others. *)
Definition iir_ready (m : mem) (config : Z) (r0 : Z * Z) (rest : list (Z * Z)) (nch : nat) (m' : mem) (iir : list iir_state_df2t) : Prop :=
  forall fn source sink, ring_owned rest source -> ring_owned rest sink -> (forall a, in_ring sink a -> ~ inside r0 a) ->
  channels_ok (filter_step (iir_sample fn)) nch source sink m' iir (fun j => iir_start (channel_response m config j)).

Lemma iir_ready_ok m m' config size delay r0 rest nch iir iir1 iir2 :
  blob_valid iir_kind PLATFORM_MAX_CHANNELS m config (Z.of_nat nch) iir = true -> (nch <= length iir)%nat ->
  iir_blob_ok m config size -> covers r0 config size -> r0 ∈ rest -> filters_placed iir_kind m m' config nch rest iir iir1 iir2 delay ->
  iir_ready m config r0 rest nch m' iir2.
Proof.
  intros Hv Hl Hb Hc Hr0 Hpl fn source sink Ho1 Ho2 Hk. pose proof (fp_rest _ _ _ _ _ _ _ _ _ _ Hpl) as Hr. pose proof Hc as [Hc1 Hc2].
  eapply (setup_channels_ok PLATFORM_MAX_CHANNELS m m' config size delay nch r0 rest iir iir1 iir2); try done.
  - intros a Ha. split; intros Hin; [destruct (Ho1 a Hin) as (r & ? & ?)|destruct (Ho2 a Hin) as (r & ? & ?)]; by apply (Hr r a).
  - intros a Ha Hin. apply (Hk a Hin). unfold inside. lia.
Qed.

(** The result of a setup of IIR filters. *)
Record iir_setup_result (m : mem) (ed : iir_eq) (nch : nat) (r0 : Z * Z) (rest : list (Z * Z)) (a : A) (m' : mem) (ed' : iir_eq) (ret : Z) : Prop := {
  is_result : setup_result iir_kind PLATFORM_MAX_CHANNELS m ed nch rest a m' ed' ret;
  is_ready : ret = 0 -> iir_ready m (ed_config ed) r0 rest nch m' (ed_filters ed')
}.

Lemma iir_setup_ok w ed nch ol r0 rest size :
  al_inv (w_alloc w) -> al_live (w_alloc w) ≡ₚ ol ++ rest -> opt_range (ed_delay ed) (ed_delay_size ed) ol ->
  length (ed_filters ed) = PLATFORM_MAX_CHANNELS ->
  r0 ∈ rest -> covers r0 (ed_config ed) size -> iir_blob_ok (w_mem w) (ed_config ed) size ->
  wp (eq_iir_setup PLATFORM_MAX_CHANNELS ed (Z.of_nat nch)) w (fun w' r =>
    exists a m', w' = with_heap w a m' /\ iir_setup_result (w_mem w) ed nch r0 rest a m' r.1 r.2).
Proof using Hmax.
  intros Ha Hl Ho Hlen Hr0 Hcov Hblob.
  eapply wp_mono; [by apply (eq_setup_ok iir_kind PLATFORM_MAX_CHANNELS Hmax zalloc w ed nch ol rest zalloc_alloc_ok)|].
  intros w' [ed' ret] (a & m' & -> & R). exists a, m'. split; [done|]. split; [exact R|]. simpl. intros ->.
  pose proof (sr_ret _ _ _ _ _ _ _ _ _ _ R) as Hret. cbv zeta in Hret.
  destruct (blob_valid _ _ _ _ _ _) eqn:Hv in Hret; [|by destruct Hret]. destruct Hret as [[? _]|(_ & fs1 & delay & Hp)]; [done|].
  eapply iir_ready_ok; [exact Hv| |done..|exact Hp].
  unfold blob_valid in Hv. zbool. rewrite length_fmap. simpl in *. lia.
Qed.

(** C24: For a blob whose responses lie inside it, whose sections make whole series
    and whose shifts are in range, which the code does not check: setting up the
    filters frees the previous delay lines and then, for a stream of [nch] channels,
    returns [-EINVAL] exactly for a blob that is not valid, [-ENOMEM] only when no
    memory is left, and otherwise 0; then every channel has the response that the
    blob assigns to it, on cleared delays of its own in one new block, or is
    bypassed, and is ready for the loops of every format. The equalizer owns exactly
    the block of its delay lines afterwards, errors included, and the memory of
    others is unchanged. *)
Theorem eq_iir_setup_configures w ed nch ol r0 rest size :
  al_inv (w_alloc w) -> al_live (w_alloc w) ≡ₚ ol ++ rest -> opt_range (ed_delay ed) (ed_delay_size ed) ol ->
  length (ed_filters ed) = PLATFORM_MAX_CHANNELS ->
  r0 ∈ rest -> covers r0 (ed_config ed) size -> iir_blob_ok (w_mem w) (ed_config ed) size ->
  exists a m' ed' ret,
    eq_iir_setup PLATFORM_MAX_CHANNELS ed (Z.of_nat nch) w = Some (with_heap w a m', (ed', ret)) /\
    iir_setup_result (w_mem w) ed nch r0 rest a m' ed' ret.
Proof using Hmax.
  intros Ha Hl Ho Hlen Hr0 Hcov Hblob. destruct (iir_setup_ok w ed nch ol r0 rest size Ha Hl Ho Hlen Hr0 Hcov Hblob) as (w' & [ed' ret] & E & a & m' & -> & R).
  by exists a, m', ed', ret.
Qed.
End setup.

(** ** Examples *)

#[local] Instance iir_setup_allocator : Allocator mm := heap_allocator baytrail baytrail_dcache 4096 65536.

Definition demo_words (ws : list Z) : list Z :=
  concat ((fun v => [v mod 256; v / 256 mod 256; v / 65536 mod 256; v / 16777216]) <$> ws).

(** A blob for two channels: one section with a pole at 0.5 for channel 0, none for
    channel 1. *)
Definition demo_iir_blob : list Z :=
  demo_words ([88; 2; 1; 0; 0; 0; 0; 0; 2 ^ 32 - 1; 1; 1; 0; 0; 0; 0] ++ [0; 536870912; 0; 0; 1073741824; 0; 16384]).

(** The blob in a mailbox, and in memory of a handler. *)
Definition demo_setup_base : mem := store demo_iir_copy_mem 70000 demo_iir_blob.

Definition demo_handler : mm * mem * comp_data_blob_handler * Z :=
  default (demo_mm, demo_setup_base, demo_blob, - EINVAL) (comp_init_data_blob demo_blob_mm demo_setup_base demo_blob 88 70000).

Definition demo_handler_mm : mm := demo_handler.1.1.1.
Definition demo_handler_mem : mem := demo_handler.1.1.2.
Definition demo_handler_blob : comp_data_blob_handler := demo_handler.1.2.

Lemma demo_handler_owns : exists rs r, blob_owns demo_handler_mm demo_handler_blob rs [r] [] (al_live demo_mm).
Proof.
  destruct demo_blob_owns as [rs Ho]. exists rs.
  assert (request_ok 88 al_dcache) as Hreq by (apply request_okb_ok; vm_compute; reflexivity).
  destruct (@comp_init_data_blob_spec mm iir_setup_allocator demo_blob_mm demo_setup_base demo_blob rs [] _ 88 70000 Ho Hreq) as (a & m & h & ret & E & H).
  { right. unfold mailbox_ok. simpl. lia. }
  assert (demo_handler = (a, m, h, ret)) as Eh by (unfold demo_handler; by rewrite E).
  assert (demo_handler.2 = 0) as E0 by (vm_compute; reflexivity).
  unfold demo_handler_mm, demo_handler_blob. rewrite Eh in E0 |- *. simpl in E0 |- *.
  destruct H as [(-> & _)|(_ & _ & _ & [r Hr] & _)]; [done|by exists r].
Qed.

Lemma demo_iir_blob_ok : iir_blob_ok demo_handler_mem (bh_data demo_handler_blob) 88.
Proof.
  intros resp Hr. assert (iir_number_of_responses demo_handler_mem (bh_data demo_handler_blob) = 1) as E by (vm_compute; reflexivity).
  assert (resp = 0) as -> by lia.
  assert (response_at iir_kind demo_handler_mem (bh_data demo_handler_blob) 0 = bh_data demo_handler_blob + 36) as -> by (vm_compute; reflexivity).
  cbv zeta. set (eq := bh_data demo_handler_blob + 36).
  assert (load_le 4 demo_handler_mem eq = 1) as -> by (vm_compute; reflexivity).
  assert (load_le 4 demo_handler_mem (eq + 4) = 1) as -> by (vm_compute; reflexivity).
  unfold eq. split_and!; [lia|lia|lia|done|]. vm_compute. repeat constructor.
Qed.

Definition demo_iir_ed : iir_eq :=
  mk_eq 900 (replicate 8 (mk_iir 0 0 0 0)) demo_handler_blob (bh_data demo_handler_blob) 0 0 IirNull.

Definition demo_iir_setup_world : world mm := with_mem (with_alloc demo_iir_world demo_handler_mm) demo_handler_mem.

Lemma eq_iir_setup_configures_witness :
  exists r0 rest a m' ed' ret,
    eq_iir_setup 8 demo_iir_ed 2 demo_iir_setup_world = Some (with_heap demo_iir_setup_world a m', (ed', ret)) /\
    iir_setup_result 8 demo_handler_mem demo_iir_ed 2 r0 rest a m' ed' ret.
Proof.
  destruct demo_handler_owns as (rs & r & [Hi Hl Hs Hd _]). exists r, (rs :: [r] ++ [] ++ al_live demo_mm).
  assert (bh_data demo_handler_blob <> 0 /\ bh_data_size demo_handler_blob = 88) as [H0 H88] by (vm_compute; done).
  destruct Hd as [[? _]|(_ & r' & Er & Hc & _)]; [done|]. injection Er as <-. rewrite H88 in Hc.
  apply (eq_iir_setup_configures 8 ltac:(lia) demo_iir_setup_world demo_iir_ed 2 [] r (rs :: [r] ++ [] ++ al_live demo_mm) 88);
    [exact Hi|exact Hl|by left|reflexivity|right; left|exact Hc|exact demo_iir_blob_ok].
Defined.

(** The setup of a stereo stream: one section for channel 0, channel 1 bypassed. *)
Example demo_iir_setup :
  (r ← eq_iir_setup 8 demo_iir_ed 2 demo_iir_setup_world;
   Some (r.2.2, iir_biquads <$> take 2 (ed_filters r.2.1))) = Some (0, [1; 0]).
Proof. vm_compute. reflexivity. Qed.
