(* ===== verification/EqLife.v ===== *)
(** * The memory of equalizers

    [eq_fir_new], [eq_fir_free], [eq_iir_new] and [eq_iir_free]: what an equalizer
    owns, from its creation on. *)

From stdpp Require Import base list numbers option gmap.
From S2P Require Import Prelude StateM AudioStream StreamCopy Heap HeapMap HeapSpec HeapFree HeapZones Allocator.
From S2P Require Import Buffer Numbers DataBlob CompState Pipeline PipelineOps PipelineWalk PipelineThms PipelineLife.
From S2P Require Import Format SampleLoop Topology TopologyInv Driver EqComp EqSetup Iir EqIir.

(** ** Ownership *)

Section owns.
Context {A T F : Type} `{!Allocator A}.
Implicit Types (w : world A) (ed : eq_data T F).

(** The handler of the blob with its blobs, [od] the current one and [on] the one that
    is being received, and the delay lines [ol]; [rest] belongs to others. *)
Record eq_owns (a : A) ed (rs : Z * Z) (od on ol rest : list (Z * Z)) : Prop := {
  eo_blob : blob_owns a (ed_model_handler ed) rs od on (ol ++ rest);
  eo_delay : opt_range (ed_delay ed) (ed_delay_size ed) ol
}.

(** The blob that the next setup gets: address and size. *)
Definition current_blob (h : comp_data_blob_handler) : Z * Z :=
  if comp_is_new_data_blob_available h then (bh_data_new h, bh_new_data_size h) else (bh_data h, bh_data_size h).

Lemma get_data_blob_ok w ed rs od on ol rest :
  eq_owns (w_alloc w) ed rs od on ol rest ->
  wp (get_data_blob ed) w (fun w' ed' => exists a h od' on', w' = with_alloc w a /\ ed' = ed_set_blob ed h (bh_data h) /\
    eq_owns a ed' rs od' on' ol rest /\ (bh_data h, bh_data_size h) = current_blob (ed_model_handler ed) /\
    comp_is_new_data_blob_available h = false).
Proof.
  intros [[Hi Hl Hs Hd Hn] Ho]. set (h := ed_model_handler ed) in *. unfold wp, get_data_blob, comp_get_data_blob, current_blob. fold h.
  destruct (comp_is_new_data_blob_available h) eqn:E.
  - destruct (free_opt (w_alloc w) (bh_data h) (bh_data_size h) od (rs :: on ++ ol ++ rest)) as (a & Ef & Ha & Hl');
      [done|rewrite Hl; apply Permutation_middle|done|].
    rewrite Ef. cbn [mbind option_bind]. eexists _, _. split; [reflexivity|]. eexists a, _, on, []. split; [done|]. split; [reflexivity|].
    split_and!; [|done|done]. constructor; [|done]. constructor; simpl; try done. by left.
  - cbn [mbind option_bind]. eexists _, _. split; [reflexivity|]. eexists (w_alloc w), h, od, on. split_and!; try done.
Qed.
End owns.

(** ** Creating and freeing *)

Section memory.
Context {A T F : Type} `{!Allocator A, !EqDecision F} (K : eq_kind T) (PLATFORM_MAX_CHANNELS : nat).
Context (sizeof_comp_dev sizeof_comp_data sizeof_blob max_size : Z) (zero : T) (null : F).
Context (Hdev : request_ok sizeof_comp_dev 0) (Hdata : request_ok sizeof_comp_data 0) (Hblob : request_ok sizeof_blob 0) (Hmax : max_size < 2 ^ 30).
Implicit Types (w : world A) (x : gmap Z (eq_data T F)).
Notation eq_new := (eq_new K PLATFORM_MAX_CHANNELS sizeof_comp_dev sizeof_comp_data sizeof_blob max_size zero null).

(** The component at [dev] owns its block, its data and what its data own; a blob that
    is being received does not come before the first one. *)
Record eq_comp_owns (a : A) x (dev : Z) (ed : eq_data T F) (rs rc rd : Z * Z) (od on ol rest : list (Z * Z)) : Prop := {
  ec_data : x !! dev = Some ed;
  ec_dev : inside rd dev;
  ec_self : inside rc (ed_self ed);
  ec_owns : eq_owns a ed rs od on ol (rc :: rd :: rest);
  ec_first : bh_data (ed_model_handler ed) = 0 -> on = []
}.

Lemma eq_free_ok w x dev ed rs rc rd od on ol rest :
  eq_comp_owns (w_alloc w) x dev ed rs rc rd od on ol rest ->
  wp (eq_free K dev) (w, x) (fun s _ => exists a, al_inv a /\ al_live a ≡ₚ rest /\
    s = (with_devs (with_alloc w a) (delete dev (w_devs w)), delete dev x)).
Proof.
  intros [Hx Hrd Hrc [[Hi Hl Hs Hd Hn] Ho] Hfst]. unfold eq_free, eq_free_delaylines. repeat drv_step.
  destruct (free_opt (w_alloc w) (ed_delay ed) (ed_delay_size ed) ol (rs :: od ++ on ++ rc :: rd :: rest)) as (a1 & Ef & Ha1 & Hl1);
    [done| |done|].
  { rewrite Hl. change (rs :: od ++ on ++ ol ++ rc :: rd :: rest) with ((rs :: od) ++ on ++ ol ++ rc :: rd :: rest).
    rewrite (Permutation_app_swap_app on ol). by rewrite (Permutation_app_swap_app (rs :: od) ol). }
  eexists _, _. split; [unfold free; by rewrite Ef|]. repeat drv_step. cbn [ed_model_handler ed_self ed_set_filters ed_set_delay].
  assert (blob_owns a1 (ed_model_handler ed) rs od on (rc :: rd :: rest)) as Hbo by done.
  destruct (blob_handler_free_ok _ _ _ _ _ _ Hbo) as (a2 & Eh & Ha2 & Hl2).
  eexists _, _. split; [unfold blob_handler_free; simpl; by rewrite Eh|].
  apply (wp_free_two _ _ rc rd _ _ rest); [done| |done|done|].
  - simpl. rewrite Hl2. case_if; [|done]. rewrite Hfst by lia. done.
  - intros a3 Ha3 Hl3. repeat drv_step. by exists a3.
Qed.

(** A new handler with a first blob, or none for a size of 0. *)
Lemma init_data_blob_ok w h rs rest size ipc_data :
  blob_owns (w_alloc w) h rs [] [] rest -> bh_data h = 0 -> 0 <= size <= max_size -> ipc_data = 0 \/ mailbox_ok ipc_data size ->
  wp (init_data_blob h size ipc_data) w (fun w' r => exists a m od, w' = with_heap w a m /\ blob_owns a r.1 rs od [] rest /\
    (r.2 = - ENOMEM \/ r.2 = 0 /\ (size = 0 -> bh_data r.1 = 0) /\
       (0 < size -> bh_data r.1 <> 0 /\ bh_data_size r.1 = size /\
          load m (bh_data r.1) (Z.to_nat size) = if ipc_data =? 0 then replicate (Z.to_nat size) 0 else load (w_mem w) ipc_data (Z.to_nat size)))).
Proof using Hmax.
  intros Ho H0 Hs Hipc. unfold wp, init_data_blob. destruct (Z.eq_dec size 0) as [->|Hne].
  - unfold comp_init_data_blob, comp_free_data_blob. rewrite H0. simpl. eexists _, _. split; [reflexivity|].
    exists (w_alloc w), (w_mem w), []. split_and!; [done|done|]. right. split_and!; [done|done|lia].
  - assert (request_ok size al_dcache) as Hreq by (destruct al_dcache_ok as (_ & ? & ?); split_and!; [lia|lia|lia|lia|done]).
    destruct (comp_init_data_blob_spec _ (w_mem w) h rs [] rest size ipc_data Ho Hreq Hipc) as (a & m & h' & ret & E & Hres).
    rewrite E. simpl. eexists _, _. split; [reflexivity|]. exists a, m. destruct Hres as [(-> & _ & -> & Ho')|(-> & Hd & Hsz & [r Ho'] & Hl)].
    + exists []. split_and!; [done|done|by left].
    + exists [r]. split_and!; [done|done|]. right. split_and!; [done|lia|]. intros _. by split_and!.
Qed.

(** The data of a new equalizer with the blob that came with it. *)
Definition new_data (m : mem) (size ipc_data : Z) (m' : mem) (ed : eq_data T F) : Prop :=
  let h := ed_model_handler ed in
  ed = mk_eq (ed_self ed) (replicate PLATFORM_MAX_CHANNELS (k_reset K zero)) h 0 0 0 null /\
  if size =? 0 then bh_data h = 0 else
  bh_data h <> 0 /\ bh_data_size h = size /\
  load m' (bh_data h) (Z.to_nat size) = if ipc_data =? 0 then replicate (Z.to_nat size) 0 else load m ipc_data (Z.to_nat size).

(** Allocations do not write to a mailbox outside the heaps. *)
Lemma zalloc_mailbox w bytes :
  al_inv (w_alloc w) -> request_ok bytes 0 ->
  wp (zalloc bytes) w (fun w' p => exists a m, w' = with_heap w a m /\ al_inv a /\
    (forall mb n, mailbox_ok mb (Z.of_nat n) -> load m mb n = load (w_mem w) mb n) /\
    ((p = 0 /\ al_live a = al_live (w_alloc w)) \/
     (p <> 0 /\ exists r, al_live a ≡ₚ r :: al_live (w_alloc w) /\ inside r p /\ Forall (apart r) (al_live (w_alloc w))))).
Proof.
  intros Ha Hb. pose proof Hb as [Hn _]. destruct (zalloc_alloc_ok w bytes Ha Hn) as (a & m & p & E & Ha' & Hm & Hp). eexists _, _. split; [exact E|].
  exists a, m. destruct Hp as [(-> & Hl & ->)|(Hp & r & Hl & [Hc1 Hc2] & Hap)]; split_and!; try done; [by left| |].
  - intros mb n (H1 & H2 & H3). apply load_ext. intros x Hx. apply Hm.
    destruct (al_live_bounds a r Ha') as (_ & _ & _ & _ & ? & ?); [rewrite Hl; by left|]. lia.
  - right. split; [done|]. exists r. split_and!; [done| |done]. unfold inside. lia.
Qed.

Lemma eq_new_ok ipc_data drv config type size data w x :
  al_inv (w_alloc w) -> 0 <= size -> ipc_data = 0 \/ mailbox_ok ipc_data size ->
  wp (eq_new ipc_data drv config (SpecProcess type size data)) (w, x) (fun s p => exists a m, al_inv a /\
    ((p = 0 /\ al_live a ≡ₚ al_live (w_alloc w) /\ s = (with_heap w a m, x)) \/
     (p <> 0 /\ exists ed rs rc rd od, new_data (w_mem w) size ipc_data m ed /\
        s = (with_devs (with_heap w a m) (<[p := set_state COMP_STATE_READY (comp_alloc config)]> (w_devs w)), <[p := ed]> x) /\
        eq_comp_owns a (<[p := ed]> x) p ed rs rc rd od [] [] (al_live (w_alloc w)) /\ forall B (y : gmap Z B), in_live w y -> y !! p = None))).
Proof using Hdev Hdata Hblob Hmax.
  intros Ha Hsz Hipc. unfold EqComp.eq_new. drv_step. eapply wp_lift; [reflexivity|]. destruct (Z.gtb_spec size max_size) as [Hgt|Hle].
  { drv_step. exists (w_alloc w), (w_mem w). split; [done|left]. split_and!; [done..|by destruct w]. }
  do 2 drv_step. eapply wp_mono; [by apply zalloc_mailbox|].
  intros w1 dev (a1 & m1 & -> & Ha1 & Hm1 & [[-> Hl1]|[Hd (rd & Hl1 & Hin & Hap)]]).
  { simpl. drv_step. exists a1, m1. split; [done|left]. by rewrite Hl1. }
  rewrite (proj2 (Z.eqb_neq _ _) Hd). do 2 drv_step. eapply wp_mono; [by apply zalloc_mailbox|].
  intros w2 c (a2 & m2 & -> & Ha2 & Hm2 & [[-> Hl2]|[Hc (rc & Hl2 & Hinc & _)]]); simpl in Hl2, Hm2.
  { simpl. drv_step. apply (wp_free_block _ x rd _ (al_live (w_alloc w))); [done|simpl; by rewrite Hl2|done|].
    intros a Ha3 Hl3. drv_step. exists a, m2. split; [done|by left]. }
  rewrite (proj2 (Z.eqb_neq _ _) Hc), Hl1 in *. do 2 drv_step.
  destruct (blob_new_owns sizeof_blob Hblob a2 Ha2) as (a3 & oh & Eh & Ha3 & Hoh). eexists _, _. split; [unfold blob_handler_new; simpl; by rewrite Eh|].
  destruct oh as [h|].
  2:{ simpl. apply (wp_free_two _ x rc rd _ _ (al_live (w_alloc w))); [done|simpl; by rewrite Hoh|done|done|].
      intros a4 Ha4 Hl4. drv_step. exists a4, m2. split; [done|by left]. }
  destruct Hoh as [rs Ho]. assert (blob_owns a3 h rs [] [] (rc :: rd :: al_live (w_alloc w))) as Ho3.
  { destruct Ho. constructor; try done. by rewrite <- Hl2. }
  assert (bh_data h = 0) as H0 by (destruct (bo_data _ _ _ _ _ _ Ho) as [[? _]|(_ & r & ? & _)]; done).
  cbn [fst snd]. do 2 drv_step. eapply wp_mono; [by apply (init_data_blob_ok _ h rs (rc :: rd :: al_live (w_alloc w)) size ipc_data)|].
  intros w4 [h' ret] (a4 & m4 & od & -> & Ho4 & Hret). cbn [fst snd] in Ho4, Hret. destruct Hret as [->|(-> & Hz & Hnz)].
  - change (- ENOMEM <? 0) with true. cbv iota. destruct (blob_handler_free_ok _ _ _ _ _ _ Ho4) as (a5 & Ef & Ha5 & Hl5).
    do 2 drv_step. eexists _, _. split; [unfold blob_handler_free; simpl; by rewrite Ef|].
    apply (wp_free_two _ x rc rd _ _ (al_live (w_alloc w))); [done|simpl; by destruct (bh_data h' =? 0)|done|done|].
    intros a6 Ha6 Hl6. drv_step. exists a6, m4. split; [done|by left].
  - change (0 <? 0) with false. cbv iota. do 2 drv_step. do 3 drv_step. drv_step. exists a4, m4. split; [by destruct Ho4|right]. split; [done|].
    eexists _, rs, rc, rd, od. split_and!; [|done| |].
    + split; [done|]. simpl. simpl in Hnz. destruct (Z.eqb_spec size 0) as [E|E]; [by apply Hz|].
      destruct Hnz as (? & ? & Hload); [lia|]. split_and!; [done..|]. rewrite Hload. destruct (Z.eqb_spec ipc_data 0) as [|Hi]; [done|].
      destruct Hipc as [?|Hmb]; [done|]. rewrite Hm2, Hm1 by (by rewrite Z2Nat.id). done.
    + constructor; simpl; [by rewrite lookup_insert_eq|done|done| |done]. constructor; [done|by left].
    + intros B y Hy. by eapply fresh_lookup.
Qed.

(** An equalizer of any kind: creating one either returns no component and has given back
    all memory it took, on each of its error paths (a blob that is too large, no
    memory for the component, its data, the handler or the blob), or it returns a
    component in state READY with bypassed filters and, in memory of its own, a copy
    of the blob that came with it; then freeing it gives back exactly its memory
    and leaves the components and their data as they were before. *)
Theorem eq_new_free ipc_data drv config type size data w x :
  al_inv (w_alloc w) -> in_live w (w_devs w) -> in_live w x -> 0 <= size -> ipc_data = 0 \/ mailbox_ok ipc_data size ->
  exists s p, eq_new ipc_data drv config (SpecProcess type size data) (w, x) = Some (s, p) /\
    let restored (s : world A * gmap Z (eq_data T F)) :=
      al_inv (w_alloc s.1) /\ al_live (w_alloc s.1) ≡ₚ al_live (w_alloc w) /\ w_devs s.1 = w_devs w /\ s.2 = x in
    if decide (p = 0) then restored s else
    w_devs s.1 !! p = Some (set_state COMP_STATE_READY (comp_alloc config)) /\
    (exists ed, s.2 !! p = Some ed /\ new_data (w_mem w) size ipc_data (w_mem s.1) ed) /\
    exists s', eq_free K p s = Some (s', tt) /\ restored s'.
Proof using Hdev Hdata Hblob Hmax.
  intros Ha Hd Hx Hsz Hipc.
  destruct (eq_new_ok ipc_data drv config type size data w x Ha Hsz Hipc) as (s & p & E & a & m & Ha' & H).
  exists s, p. split; [done|]. destruct H as [(-> & Hl & ->)|(Hp & ed & rs & rc & rd & od & Hnew & -> & Ho & Hf)]; [done|].
  rewrite decide_False by done. simpl. rewrite !lookup_insert_eq. split_and!; [done|by exists ed|].
  destruct (eq_free_ok (with_devs (with_heap w a m) (<[p := set_state COMP_STATE_READY (comp_alloc config)]> (w_devs w)))
    (<[p := ed]> x) p ed rs rc rd od [] [] _ Ho) as (s' & [] & Ef & a' & Ha2 & Hl2 & ->).
  eexists. split; [exact Ef|]. simpl. rewrite !delete_insert_id by (by apply Hf). done.
Qed.
End memory.

(** ** Examples *)

#[local] Instance life_allocator : Allocator mm := heap_allocator baytrail baytrail_dcache 4096 65536.

Definition demo_eq_life_world : world mm := mk_world ∅ ∅ ∅ (fun a => a mod 256) demo_mm [] ∅ (w_data demo_world) [] [].
Definition demo_iir_config : comp_ipc_config := mk_ipc_config 0 1 1 SOF_COMP_EQ_IIR 0 0 0 0.

(** A blob of 60 bytes in the mailbox at 70000. *)
Lemma eq_new_free_witness :
  exists s p, eq_new iir_kind 8 100 300 28 SOF_EQ_IIR_MAX_SIZE (mk_iir 0 0 0 0) IirNull 70000 0 demo_iir_config (SpecProcess 0 60 []) (demo_eq_life_world, ∅) = Some (s, p) /\ p <> 0 /\
    exists s', eq_free iir_kind p s = Some (s', tt) /\ al_live (w_alloc s'.1) ≡ₚ al_live demo_mm /\ w_devs s'.1 = ∅ /\ s'.2 = ∅.
Proof.
  assert ((fun r => r.2 =? 0) <$> eq_new iir_kind 8 100 300 28 SOF_EQ_IIR_MAX_SIZE (mk_iir 0 0 0 0) IirNull 70000 0 demo_iir_config (SpecProcess 0 60 []) (demo_eq_life_world, ∅) = Some false)
    as Hp by (vm_compute; reflexivity).
  destruct (eq_new_free iir_kind 8 100 300 28 SOF_EQ_IIR_MAX_SIZE (mk_iir 0 0 0 0) IirNull ltac:(by apply request_okb_ok) ltac:(by apply request_okb_ok)
    ltac:(by apply request_okb_ok) ltac:(lia) 70000 0 demo_iir_config 0 60 [] demo_eq_life_world ∅) as (s & p & E & H).
  - apply demo_mm_single.
  - intros q [d Hq]. simpl in Hq. by rewrite lookup_empty in Hq.
  - intros q [d Hq]. by rewrite lookup_empty in Hq.
  - lia.
  - right. unfold mailbox_ok. simpl. lia.
  - rewrite E in Hp. simpl in Hp. assert (p <> 0) as Hne by (intros ->; done). rewrite decide_False in H by done.
    destruct H as (_ & _ & s' & Ef & _ & Hl & Hd & Hx). exists s, p. split; [exact E|]. split; [exact Hne|].
    exists s'. split; [exact Ef|]. split; [exact Hl|]. split; [exact Hd|exact Hx].
Defined.

(** The new component has the blob. *)
Example demo_new_blob :
  (r ← eq_iir_new 8 100 300 28 70000 0 demo_iir_config (SpecProcess 0 60 []) (demo_eq_life_world, ∅);
   ed ← r.1.2 !! r.2; Some (load (w_mem r.1.1) (bh_data (ed_model_handler ed)) 4)) = Some [112; 113; 114; 115].
Proof. vm_compute. reflexivity. Qed.
