(* ===== verification/EqIirPrepare.v ===== *)
(** * Preparing the IIR equalizer

    [eq_iir_prepare] of [src/audio/eq_iir/eq_iir.c]: on every path, and up to the
    state in which the periods of the equalizer filter. *)

From stdpp Require Import base list numbers option gmap.
From S2P Require Import Prelude StateM AudioStream StreamCopy Heap HeapMap HeapSpec HeapFree HeapZones Allocator.
From S2P Require Import Buffer Numbers DataBlob CompState Pipeline PipelineOps PipelineWalk PipelineThms PipelineLife.
From S2P Require Import Format SampleLoop PcmConvert PcmThms ChannelLoop Topology TopologyInv Driver SampleQueue.
From S2P Require Import ChannelCopy Mixer MixerThms MixerCopy EqComp EqSetup EqPeriod Iir EqIir EqIirCopy EqIirSetup EqLife.


Section prepare.
Context {A : Type} `{!Allocator A} (PLATFORM_MAX_CHANNELS : nat).
Hypothesis Hmax : Z.of_nat PLATFORM_MAX_CHANNELS <= 2 ^ 16.
Implicit Types (w : world A) (x : gmap Z iir_eq) (ed : iir_eq).

(** ** The function *)


(** ** The outcome *)





(** ** A configured equalizer *)





(** ** Every path *)



End prepare.

(** ** Examples *)

#[local] Instance iir_prepare_allocator : Allocator mm := heap_allocator baytrail baytrail_dcache 4096 65536.

(** The equalizer with its blob between two rings, in state READY. *)
Definition demo_ready_dev : comp_dev := mk_dev COMP_STATE_READY 2 50 125 0 false 1 1 SOF_COMP_EQ_IIR 0 0 [100] [102].
Definition demo_ready_world : world mm := with_devs demo_iir_setup_world {[1 := demo_ready_dev]}.


(** From READY to a period that filters. *)
Example demo_prepare_and_copy :
  (r ← eq_iir_prepare 8 1 (demo_ready_world, {[1 := demo_iir_ed]});
   s ← eq_iir_copy 8 1 r.1;
   b ← w_bufs s.1.1 !! 102; Some (r.2, s.2, samples FMT_S16 (w_mem s.1.1) (b_stream b))) = Some (0, 0, [1000; 7; 1000; 9]).
Proof. vm_compute. reflexivity. Qed.

(** A blob of no channels that arrives while the equalizer runs is rejected; the filters
    keep their sections and have no delays, so the next period writes to the null
    pointer. *)
Definition copy_after_rejected_iir_blob : option (Z * bool) :=
  r ← eq_iir_prepare 8 1 (demo_ready_world, {[1 := demo_iir_ed]});
  ed ← r.1.2 !! 1;
  let h := mk_blob (bh_self demo_handler_blob) 88 88 (bh_data demo_handler_blob) 80000 true 0 in
  s ← eq_iir_copy 8 1 (r.1.1, {[1 := ed_set_blob ed h (ed_config ed)]});
  Some (s.2, bool_decide (eq_iir_copy 8 1 s.1 = None)).

Example rejected_iir_blob_faults : copy_after_rejected_iir_blob = Some (- EINVAL, true).
Proof. vm_compute. reflexivity. Qed.
