(* ===== verification/Volume.v ===== *)
(** * The volume component

    [src/audio/volume/volume.c] and [src/audio/volume/volume_generic.c] with
    [include/sof/audio/volume.h] and
    [include/sof/audio/coefficients/volume/windows_fade.h], for version 3 of the host
    protocol, with both ramp shapes and the three sample formats configured. The
    component multiplies every channel with a gain; a new gain is approached by a
    ramp. *)

From stdpp Require Import base list numbers option gmap.
From S2P Require Import Prelude StateM AudioStream StreamCopy Heap HeapMap HeapSpec HeapFree HeapZones Allocator.
From S2P Require Import Buffer Numbers CompState Pipeline PipelineOps Format SampleLoop ChannelLoop Topology Driver.

Abbreviation SOF_IPC_MAX_CHANNELS := 8%nat (only parsing).
Abbreviation VOL_QXY_Y := 16 (only parsing).
Abbreviation VOL_MAX := 8388607 (only parsing).
Abbreviation VOL_ZERO_DB := 65536 (only parsing).
Abbreviation VOL_MIN := 0 (only parsing).

Abbreviation SOF_VOLUME_LINEAR := 0 (only parsing).
Abbreviation SOF_VOLUME_LINEAR_ZC := 2 (only parsing).
Abbreviation SOF_VOLUME_WINDOWS_FADE := 4 (only parsing).

Abbreviation SOF_CTRL_CMD_VOLUME := 0 (only parsing).
Abbreviation SOF_CTRL_CMD_SWITCH := 2 (only parsing).
Abbreviation COMP_CMD_SET_VALUE := 100 (only parsing).
Abbreviation COMP_CMD_GET_VALUE := 101 (only parsing).

(** ** Gains on samples *)

(** The function pointers of the tables [func_map] and [zc_func_map]. *)
Inductive vol_func := VolNull | VolS16 | VolS24 | VolS32.

#[export] Instance vol_func_eq_dec : EqDecision vol_func.
Proof. solve_decision. Defined.

Definition vol_mult_s24_to_s24 (x vol : Z) : Z := q_multsr_sat_32x32_24 (sign_extend_s24 x) vol VOL_QXY_Y.

(** The gain of a channel does not change with the samples. *)
Definition vol_step (mult : Z -> Z -> Z) (m : mem) (vol x : Z) : option (mem * Z * Z) := Some (m, vol, mult x vol).

Definition vol_s16_to_s16 := stream_run (vol_step (fun x vol => q_multsr_sat_32x32_16 (i16 x) vol VOL_QXY_Y)) 2 2.
Definition vol_s24_to_s24 := stream_run (vol_step (fun x vol => vol_mult_s24_to_s24 (i32 x) vol)) 4 4.
Definition vol_s32_to_s32 := stream_run (vol_step (fun x vol => q_multsr_sat_32x32 (i32 x) vol VOL_QXY_Y)) 4 4.

(** [func_map]: the function for a frame format. *)
Definition vol_func_of (frame_fmt : Z) : vol_func :=
  if frame_fmt =? SOF_IPC_FRAME_S16_LE then VolS16
  else if frame_fmt =? SOF_IPC_FRAME_S24_4LE then VolS24
  else if frame_fmt =? SOF_IPC_FRAME_S32_LE then VolS32
  else VolNull.

(** The call through the pointer; the gains of the channels. *)
Definition scale_with (fn : vol_func) : mem -> list Z -> audio_stream -> audio_stream -> Z -> Z -> option (mem * list Z) :=
  match fn with
  | VolNull => fun _ _ _ _ _ _ => None
  | VolS16 => vol_s16_to_s16
  | VolS24 => vol_s24_to_s24
  | VolS32 => vol_s32_to_s32
  end.

(** ** Zero crossings *)

Section zc.
(** The value of the sample at an address, its size and the width of the sum. *)
Context (value : mem -> Z -> Z) (width : Z) (wrap : Z -> Z).

(** The sum of [n] samples from [buff_frag] downwards, and the next [buff_frag]. *)
Fixpoint zc_sum (n : nat) (m : mem) (source : audio_stream) (buff_frag sum : Z) : option (Z * Z) :=
  match n with
  | O => Some (sum, buff_frag)
  | S n =>
      src ← audio_stream_get_frag source (s_r_ptr source) buff_frag width;
      zc_sum n m source (u32 (buff_frag - 1)) (wrap (sum + value m src))
  end.

(** [n] more frames, the last of them number [curr_frames]; the result and the
    new [prev_sum]. *)
Fixpoint zc_loop (n : nat) (m : mem) (source : audio_stream) (frames curr_frames buff_frag prev_sum : Z) : option (Z * Z) :=
  match n with
  | O => Some (frames, prev_sum)
  | S n =>
      r ← zc_sum (Z.to_nat (s_channels source)) m source buff_frag 0;
      let '(sum, buff_frag) := r in
      if Z.lxor sum prev_sum <? 0 then Some (curr_frames, prev_sum)
      else zc_loop n m source frames (curr_frames - 1) buff_frag sum
  end.

Definition vol_zc_get (m : mem) (source : audio_stream) (frames prev_sum : Z) : option (Z * Z) :=
  zc_loop (Z.to_nat frames) m source frames frames (u32 (frames * s_channels source - 1)) prev_sum.
End zc.

Definition vol_zc_get_s16 := vol_zc_get load_s16 2 i32.
Definition vol_zc_get_s24 := vol_zc_get (fun m a => sign_extend_s24 (load_s32 m a)) 4 i64.
Definition vol_zc_get_s32 := vol_zc_get load_s32 4 i64.

Definition zc_with (fn : vol_func) : mem -> audio_stream -> Z -> Z -> option (Z * Z) :=
  match fn with
  | VolNull => fun _ _ _ _ => None
  | VolS16 => vol_zc_get_s16
  | VolS24 => vol_zc_get_s24
  | VolS32 => vol_zc_get_s32
  end.

(** ** The fade *)

Abbreviation WINDOWS_FADE_LUT_SIZE := 128 (only parsing).
(** 1 / 127 with 30 fractional bits. *)
Abbreviation WINDOWS_FADE_LUT_STEP := 8454660 (only parsing).

Definition windows_fade_lookup : list Z := [
  0x0000; 0x0007; 0x0017; 0x002f; 0x004d; 0x0072; 0x009d; 0x00cd;
  0x0104; 0x013f; 0x0180; 0x01c5; 0x0210; 0x025f; 0x02b3; 0x030c;
  0x0369; 0x03cb; 0x0431; 0x049b; 0x050a; 0x057d; 0x05f4; 0x066f;
  0x06ef; 0x0772; 0x07fa; 0x0885; 0x0914; 0x09a8; 0x0a3f; 0x0ada;
  0x0b78; 0x0c1b; 0x0cc1; 0x0d6b; 0x0e18; 0x0eca; 0x0f7f; 0x1037;
  0x10f3; 0x11b3; 0x1276; 0x133d; 0x1407; 0x14d4; 0x15a5; 0x167a;
  0x1752; 0x182d; 0x190c; 0x19ee; 0x1ad4; 0x1bbc; 0x1ca8; 0x1d98;
  0x1e8a; 0x1f80; 0x207a; 0x2176; 0x2276; 0x2379; 0x247f; 0x2588;
  0x2695; 0x27a4; 0x28b7; 0x29cd; 0x2ae6; 0x2c02; 0x2d22; 0x2e44;
  0x2f69; 0x3092; 0x31be; 0x32ec; 0x341e; 0x3553; 0x368a; 0x37c5;
  0x3903; 0x3a44; 0x3b87; 0x3cce; 0x3e18; 0x3f64; 0x40b4; 0x4207;
  0x435c; 0x44b4; 0x4610; 0x476e; 0x48cf; 0x4a33; 0x4b9a; 0x4d04;
  0x4e70; 0x4fe0; 0x5152; 0x52c7; 0x543f; 0x55ba; 0x5738; 0x58b8;
  0x5a3b; 0x5bc2; 0x5d4a; 0x5ed6; 0x6065; 0x61f6; 0x638a; 0x6521;
  0x66ba; 0x6856; 0x69f5; 0x6b97; 0x6d3c; 0x6ee3; 0x708d; 0x723a;
  0x73e9; 0x759b; 0x7750; 0x7907; 0x7ac1; 0x7c7e; 0x7e3e; 0x7fff].

(** [None]: an index before the table. *)
Definition volume_pow_175 (val : Z) : option Z :=
  if val =? 0 then Some 0 else
  let i := i32 (Z.shiftr (i64 (val * (WINDOWS_FADE_LUT_SIZE - 1))) 30) in
  if i >=? WINDOWS_FADE_LUT_SIZE - 1 then Some (2 ^ 30) else
  if i <? 0 then None else
  y0 ← windows_fade_lookup !! Z.to_nat i;
  y1 ← windows_fade_lookup !! S (Z.to_nat i);
  let c := i32 ((y1 - y0) * (WINDOWS_FADE_LUT_SIZE - 1)) in
  let dx := i32 (val - i32 (i * WINDOWS_FADE_LUT_STEP)) in
  Some (i32 (i32 (Z.shiftl y0 15) + Z.shiftr (i64 (Z.shiftr (i64 (dx * c)) 14 + 1)) 1)).

(** ** The private data *)

(** One entry of each of the arrays [volume], [tvolume], [mvolume], [rvolume],
    [ramp_coef] and [muted]. *)
Record vol_chan := mk_chan {
  vc_volume : Z;
  vc_tvolume : Z;
  vc_mvolume : Z;
  vc_rvolume : Z;
  vc_ramp_coef : Z;
  vc_muted : bool
}.

Inductive vol_ramp_func := RampNull | RampLinear | RampWindowsFade.

#[export] Instance vol_ramp_func_eq_dec : EqDecision vol_ramp_func.
Proof. solve_decision. Defined.

(** [struct vol_data]: its address, the entries of its arrays by channel and the
    other fields. *)
Record vol_data := mk_vol {
  vd_self : Z;
  vd_chan : list vol_chan;
  vd_vol : Z;
  vd_initial_ramp : Z;
  vd_ramp_type : Z;
  vd_vol_min : Z;
  vd_vol_max : Z;
  vd_vol_ramp_range : Z;
  vd_vol_ramp_frames : Z;
  vd_vol_ramp_elapsed_frames : Z;
  vd_sample_rate : Z;
  vd_channels : Z;
  vd_vol_ramp_active : bool;
  vd_ramp_finished : bool;
  vd_scale_vol : vol_func;
  vd_zc_get : vol_func;
  vd_ramp_func : vol_ramp_func
}.

Definition set_chans (cd : vol_data) (l : list vol_chan) : vol_data :=
  mk_vol (vd_self cd) l (vd_vol cd) (vd_initial_ramp cd) (vd_ramp_type cd) (vd_vol_min cd) (vd_vol_max cd)
    (vd_vol_ramp_range cd) (vd_vol_ramp_frames cd) (vd_vol_ramp_elapsed_frames cd) (vd_sample_rate cd) (vd_channels cd)
    (vd_vol_ramp_active cd) (vd_ramp_finished cd) (vd_scale_vol cd) (vd_zc_get cd) (vd_ramp_func cd).
Definition set_elapsed (cd : vol_data) (n : Z) : vol_data :=
  mk_vol (vd_self cd) (vd_chan cd) (vd_vol cd) (vd_initial_ramp cd) (vd_ramp_type cd) (vd_vol_min cd) (vd_vol_max cd)
    (vd_vol_ramp_range cd) (vd_vol_ramp_frames cd) n (vd_sample_rate cd) (vd_channels cd)
    (vd_vol_ramp_active cd) (vd_ramp_finished cd) (vd_scale_vol cd) (vd_zc_get cd) (vd_ramp_func cd).
Definition set_ramp (cd : vol_data) (active finished : bool) : vol_data :=
  mk_vol (vd_self cd) (vd_chan cd) (vd_vol cd) (vd_initial_ramp cd) (vd_ramp_type cd) (vd_vol_min cd) (vd_vol_max cd)
    (vd_vol_ramp_range cd) (vd_vol_ramp_frames cd) (vd_vol_ramp_elapsed_frames cd) (vd_sample_rate cd) (vd_channels cd)
    active finished (vd_scale_vol cd) (vd_zc_get cd) (vd_ramp_func cd).
Definition set_stream_info (cd : vol_data) (channels rate : Z) : vol_data :=
  mk_vol (vd_self cd) (vd_chan cd) (vd_vol cd) (vd_initial_ramp cd) (vd_ramp_type cd) (vd_vol_min cd) (vd_vol_max cd)
    (vd_vol_ramp_range cd) (vd_vol_ramp_frames cd) (vd_vol_ramp_elapsed_frames cd) rate channels
    (vd_vol_ramp_active cd) (vd_ramp_finished cd) (vd_scale_vol cd) (vd_zc_get cd) (vd_ramp_func cd).
Definition set_ramp_frames (cd : vol_data) (n : Z) : vol_data :=
  mk_vol (vd_self cd) (vd_chan cd) (vd_vol cd) (vd_initial_ramp cd) (vd_ramp_type cd) (vd_vol_min cd) (vd_vol_max cd)
    (vd_vol_ramp_range cd) n (vd_vol_ramp_elapsed_frames cd) (vd_sample_rate cd) (vd_channels cd)
    (vd_vol_ramp_active cd) (vd_ramp_finished cd) (vd_scale_vol cd) (vd_zc_get cd) (vd_ramp_func cd).
Definition set_funcs (cd : vol_data) (scale zc : vol_func) : vol_data :=
  mk_vol (vd_self cd) (vd_chan cd) (vd_vol cd) (vd_initial_ramp cd) (vd_ramp_type cd) (vd_vol_min cd) (vd_vol_max cd)
    (vd_vol_ramp_range cd) (vd_vol_ramp_frames cd) (vd_vol_ramp_elapsed_frames cd) (vd_sample_rate cd) (vd_channels cd)
    (vd_vol_ramp_active cd) (vd_ramp_finished cd) scale zc (vd_ramp_func cd).

Definition set_volume (c : vol_chan) (v : Z) : vol_chan :=
  mk_chan v (vc_tvolume c) (vc_mvolume c) (vc_rvolume c) (vc_ramp_coef c) (vc_muted c).
Definition set_mute (c : vol_chan) (mvolume : Z) (muted : bool) : vol_chan :=
  mk_chan (vc_volume c) (vc_tvolume c) mvolume (vc_rvolume c) (vc_ramp_coef c) muted.

(** The target is reached. *)
Definition at_target (c : vol_chan) : vol_chan :=
  mk_chan (vc_tvolume c) (vc_tvolume c) (vc_mvolume c) (vc_rvolume c) 0 (vc_muted c).

(** ** Ramps *)

Definition volume_linear_ramp (c : vol_chan) (ramp_time : Z) : Z :=
  i32 (vc_rvolume c + i32 (ramp_time * vc_ramp_coef c)).

(** [None]: division by zero. *)
Definition volume_windows_fade_ramp (cd : vol_data) (c : vol_chan) (ramp_time : Z) : option Z :=
  let volume_delta := i32 (vc_tvolume c - vc_rvolume c) in
  let d := u32 (Z.shiftl (vd_initial_ramp cd) 3) in
  if d =? 0 then None else
  pow_value ← volume_pow_175 (i32 (Z.quot (i64 (Z.shiftl ramp_time 30)) d));
  Some (i32 (vc_rvolume c + Z.shiftr (i64 (Z.shiftr (i64 (volume_delta * pow_value)) 29 + 1)) 1)).

(** The call through [ramp_func]. *)
Definition ramp_with (cd : vol_data) (c : vol_chan) (ramp_time : Z) : option Z :=
  match vd_ramp_func cd with
  | RampNull => None
  | RampLinear => Some (volume_linear_ramp c ramp_time)
  | RampWindowsFade => volume_windows_fade_ramp cd c ramp_time
  end.

(** One channel: its gain, and whether it is still on its way. *)
Definition ramp_channel (cd : vol_data) (ramp_time : Z) (c : vol_chan) : option (vol_chan * bool) :=
  if vc_volume c =? vc_tvolume c then Some (c, false) else
  vol ← ramp_with cd c ramp_time;
  if vc_volume c <? vc_tvolume c then
    if (vol >=? vc_tvolume c) || (vol >=? vd_vol_max cd) then Some (at_target c, false)
    else Some (set_volume c vol, true)
  else
    if vol <=? 0 then Some (at_target c, false)
    else if (vol <=? vc_tvolume c) || (vol <=? vd_vol_min cd) then Some (at_target c, false)
    else Some (set_volume c vol, true).

(** The channels from [i] on, [n] of them; whether the ramp is finished. *)
Fixpoint ramp_channels (n i : nat) (cd : vol_data) (ramp_time : Z) (l : list vol_chan) (finished : bool) :
    option (list vol_chan * bool) :=
  match n with
  | O => Some (l, finished)
  | S n =>
      c ← l !! i;
      r ← ramp_channel cd ramp_time c;
      ramp_channels n (S i) cd ramp_time (<[i := r.1]> l) (finished && negb r.2)
  end.

Definition ramp_time_of (cd : vol_data) : Z :=
  i32 (u32 (vd_vol_ramp_elapsed_frames cd * 8000) / vd_sample_rate cd).

Section volume.
Context (PLATFORM_MAX_CHANNELS : nat).

(** The first [PLATFORM_MAX_CHANNELS] channels. *)
Definition jump (l : list vol_chan) : list vol_chan :=
  ((fun c => set_volume c (vc_tvolume c)) <$> take PLATFORM_MAX_CHANNELS l) ++ drop PLATFORM_MAX_CHANNELS l.

(** The ramp in a state of the component. *)
Definition volume_ramp (state : Z) (cd : vol_data) : option vol_data :=
  if state =? COMP_STATE_READY then
    Some (set_ramp (set_chans cd (jump (vd_chan cd))) (vd_vol_ramp_active cd) true)
  else
  if vd_sample_rate cd =? 0 then None else
  r ← ramp_channels (Z.to_nat (vd_channels cd)) 0 cd (ramp_time_of cd) (vd_chan cd) true;
  let cd := set_chans cd r.1 in
  Some (if r.2 : bool then set_ramp cd false true else set_ramp cd true (vd_ramp_finished cd)).

(** ** Controls *)

(** The slope of a linear ramp. *)
Definition ramp_coef_of (cd : vol_data) (delta : Z) (constant_rate_ramp : bool) : Z :=
  let delta_abs := if delta <? 0 then - delta else delta in
  let coef :=
    if vd_initial_ramp cd >? 0 then
      let coef := if constant_rate_ramp && (vd_vol_ramp_range cd >? 0) then vd_vol_ramp_range cd else delta_abs in
      i32 (Z.shiftr (u32 (u32 (i32 (2 * coef)) / vd_initial_ramp cd + 1)) 1)
    else delta_abs in
  let coef := Z.max (Z.shiftr (Z.shiftr coef 2 + 1) 1) 1 in
  if delta <? 0 then - coef else coef.

(** [None]: no such channel. *)
Definition volume_set_chan (cd : vol_data) (chan : nat) (vol : Z) (constant_rate_ramp : bool) : option vol_data :=
  let v := if vol <? VOL_MIN then VOL_MIN else vol in
  let v := if v >? VOL_MAX then VOL_MAX else v in
  c ← vd_chan cd !! chan;
  let coef :=
    if (vd_ramp_type cd =? SOF_VOLUME_LINEAR) || (vd_ramp_type cd =? SOF_VOLUME_LINEAR_ZC)
    then ramp_coef_of cd (i32 (v - vc_volume c)) constant_rate_ramp
    else vc_ramp_coef c in
  let c := mk_chan (vc_volume c) v (vc_mvolume c) (vc_volume c) coef (vc_muted c) in
  Some (set_elapsed (set_chans cd (<[chan := c]> (vd_chan cd))) 0).

(** The fields of a channel that muting changes. *)
Definition mute_chan (cd : vol_data) (chan : nat) (mvolume : Z -> Z) (muted : bool) : option vol_data :=
  c ← vd_chan cd !! chan;
  Some (set_chans cd (<[chan := set_mute c (mvolume (vc_mvolume c)) muted]> (vd_chan cd))).

Definition volume_set_chan_mute (cd : vol_data) (chan : nat) : option vol_data :=
  c ← vd_chan cd !! chan;
  if vc_muted c then Some cd else
  cd ← mute_chan cd chan (fun _ => vc_tvolume c) (vc_muted c);
  cd ← volume_set_chan cd chan 0 true;
  mute_chan cd chan (fun v => v) true.

Definition volume_set_chan_unmute (cd : vol_data) (chan : nat) : option vol_data :=
  c ← vd_chan cd !! chan;
  if vc_muted c then
    cd ← mute_chan cd chan (fun v => v) false;
    volume_set_chan cd chan (vc_mvolume c) true
  else Some cd.

(** The [struct sof_ipc_ctrl_data] of a control with channels: the command, the
    number of elements and the pairs of channel and value. *)
Record vol_ctrl := mk_ctrl {
  ct_cmd : Z;
  ct_num_elems : Z;
  ct_chanv : list (Z * Z)
}.

(** One element of a command that sets volumes, and of one that mutes. *)
Definition set_volume_elem (cd : vol_data) (ch : nat) (val : Z) : option vol_data :=
  c ← vd_chan cd !! ch;
  if vc_muted c then mute_chan cd ch (fun _ => i32 val) true
  else volume_set_chan cd ch (i32 val) true.

Definition set_switch_elem (cd : vol_data) (ch : nat) (val : Z) : option vol_data :=
  if negb (val =? 0) then volume_set_chan_unmute cd ch else volume_set_chan_mute cd ch.

(** The elements from [j] on, [n] of them; the data and the error of an illegal
    channel. *)
Fixpoint set_elems (f : vol_data -> nat -> Z -> option vol_data) (n j : nat) (chanv : list (Z * Z)) (cd : vol_data) :
    option (vol_data * Z) :=
  match n with
  | O => Some (cd, 0)
  | S n =>
      e ← chanv !! j;
      if e.1 >=? Z.of_nat SOF_IPC_MAX_CHANNELS then Some (cd, - EINVAL) else
      cd ← f cd (Z.to_nat e.1) e.2;
      set_elems f n (S j) chanv cd
  end.

(** The ramp starts unless it is under way. *)
Definition start_ramp (state : Z) (cd : vol_data) : option vol_data :=
  if vd_vol_ramp_active cd then Some cd else volume_ramp state (set_ramp cd (vd_vol_ramp_active cd) false).

Definition volume_ctrl_set_cmd (state : Z) (cd : vol_data) (cdata : vol_ctrl) : option (vol_data * Z) :=
  if (ct_num_elems cdata =? 0) || (ct_num_elems cdata >? Z.of_nat SOF_IPC_MAX_CHANNELS) then Some (cd, - EINVAL) else
  let n := Z.to_nat (ct_num_elems cdata) in
  let run f :=
    r ← set_elems f n 0 (ct_chanv cdata) cd;
    let '(cd, ret) := r in
    if negb (ret =? 0) then Some (cd, ret) else cd ← start_ramp state cd; Some (cd, 0) in
  if ct_cmd cdata =? SOF_CTRL_CMD_VOLUME then run set_volume_elem
  else if ct_cmd cdata =? SOF_CTRL_CMD_SWITCH then run set_switch_elem
  else Some (cd, - EINVAL).

(** The first [n] elements of the reply. *)
Definition get_elems (n : nat) (value : vol_chan -> Z) (l : list vol_chan) : option (list (Z * Z)) :=
  if (n <=? length l)%nat then Some (imap (fun j c => (Z.of_nat j, value c)) (take n l)) else None.

(** The reply and the result. *)
Definition volume_ctrl_get_cmd (cd : vol_data) (cdata : vol_ctrl) : option (vol_ctrl * Z) :=
  if (ct_num_elems cdata =? 0) || (ct_num_elems cdata >? Z.of_nat SOF_IPC_MAX_CHANNELS) then Some (cdata, - EINVAL) else
  let n := Z.to_nat (ct_num_elems cdata) in
  let reply value :=
    l ← get_elems n value (vd_chan cd);
    Some (mk_ctrl (ct_cmd cdata) (ct_num_elems cdata) (l ++ drop n (ct_chanv cdata)), 0) in
  if ct_cmd cdata =? SOF_CTRL_CMD_VOLUME then reply (fun c => u32 (vc_tvolume c))
  else if ct_cmd cdata =? SOF_CTRL_CMD_SWITCH then reply (fun c => if vc_muted c then 0 else 1)
  else Some (cdata, - EINVAL).

(** ** Initial values *)

Definition reset_state (cd : vol_data) : vol_data :=
  let clear c := mk_chan (vc_volume c) (vc_tvolume c) (vc_mvolume c) 0 0 (vc_muted c) in
  let l := (clear <$> take PLATFORM_MAX_CHANNELS (vd_chan cd)) ++ drop PLATFORM_MAX_CHANNELS (vd_chan cd) in
  set_ramp_frames (set_elapsed (set_stream_info (set_ramp (set_chans cd l) false false) 0 0) 0) 0.

(** The limits of the gain and the range of the ramp, from unsigned values of the host. *)
Definition vol_limits (min_value max_value : Z) : Z * Z * Z :=
  if negb (min_value =? 0) || negb (max_value =? 0) then
    (i32 min_value, if max_value >? VOL_MAX then VOL_MAX else i32 max_value, i32 (u32 (max_value - min_value)))
  else (VOL_MIN, VOL_MAX, 0).

Definition ramp_func_of (ramp_type : Z) : vol_ramp_func :=
  if (ramp_type =? SOF_VOLUME_LINEAR) || (ramp_type =? SOF_VOLUME_LINEAR_ZC) then RampLinear
  else if ramp_type =? SOF_VOLUME_WINDOWS_FADE then RampWindowsFade
  else RampNull.

(** The data of a new component at [self], whose other memory is at [vol]; [None] for
    an invalid ramp type. The default gain is compared as an unsigned number. *)
Definition init_volume (self vol initial_ramp max_value min_value ramp : Z) : option vol_data :=
  let '(vol_min, vol_max, range) := vol_limits min_value max_value in
  let volume := i32 (Z.max (Z.min (u32 vol_max) VOL_ZERO_DB) (u32 vol_min)) in
  let chan := mk_chan volume volume volume 0 0 false in
  let zero := mk_chan 0 0 0 0 0 false in
  let l := replicate PLATFORM_MAX_CHANNELS chan ++ replicate (SOF_IPC_MAX_CHANNELS - PLATFORM_MAX_CHANNELS) zero in
  let fn := ramp_func_of ramp in
  if bool_decide (fn = RampNull) then None
  else Some (reset_state (mk_vol self l vol initial_ramp ramp vol_min vol_max range 0 0 0 0 false false VolNull VolNull fn)).

(** The update period of the ramp in microseconds, from its length in
    milliseconds. *)
Definition ramp_update_us (initial_ramp : Z) : Z :=
  if initial_ramp <? 32 then 125
  else if initial_ramp <? 64 then 250
  else if initial_ramp <? 128 then 500
  else 1000.

Definition ramp_frames (initial_ramp frames period : Z) : Z :=
  if ramp_update_us initial_ramp >? period then frames else frames / (period / ramp_update_us initial_ramp).

(** The gains of the channels from [i] on, [n] of them, at the start of a stream. *)
Fixpoint prepare_channels (n i : nat) (cd : vol_data) : option vol_data :=
  match n with
  | O => Some cd
  | S n =>
      c ← vd_chan cd !! i;
      let cd := set_chans cd (<[i := set_volume c (vd_vol_min cd)]> (vd_chan cd)) in
      cd ← volume_set_chan cd i (vc_tvolume c) false;
      c ← vd_chan cd !! i;
      prepare_channels n (S i)
        (if negb (vc_volume c =? vc_tvolume c) then set_ramp cd (vd_vol_ramp_active cd) false else cd)
  end.

(** ** The component *)

Section component.
Context {A : Type} `{!Allocator A} (sizeof_comp_dev sizeof_vol_data : Z).
Notation MX := (ST (world A * gmap Z vol_data)).

(** [rballoc_align] *)
Definition world_balloc_align (bytes alignment : Z) : M A Z := fun w =>
  r ← al_balloc (w_alloc w) 0 SOF_MEM_CAPS_RAM bytes alignment; Some (with_alloc w r.1, r.2).

(** [spec] is read as a [struct ipc_config_volume]. The component is in the world
    when it is complete. *)
Definition volume_new (_ : Z) (config : comp_ipc_config) (spec : ipc_config_specific) : MX Z :=
  let vol_size := 4 * Z.of_nat SOF_IPC_MAX_CHANNELS * 4 in
  dev ← in_world (zalloc sizeof_comp_dev);
  if dev =? 0 then mret 0 else
  cd ← in_world (zalloc sizeof_vol_data);
  if cd =? 0 then in_world (free dev) ;; mret 0 else
  vol ← in_world (world_balloc_align vol_size 8);
  if vol =? 0 then in_world (free vol) ;; in_world (free cd) ;; in_world (free dev) ;; mret 0 else
  s ← lift (match spec with
            | SpecVolume _ initial_ramp max_value min_value ramp => Some (init_volume cd vol initial_ramp max_value min_value ramp)
            | _ => None
            end);
  match s with
  | None => in_world (free vol) ;; in_world (free cd) ;; in_world (free dev) ;; mret 0
  | Some data =>
      set_drvdata dev data ;;
      in_world (modify (fun w => with_devs w (<[dev := set_state COMP_STATE_READY (comp_alloc config)]> (w_devs w)))) ;;
      mret dev
  end.

Definition volume_free (dev : Z) : MX unit :=
  cd ← get_drvdata dev;
  in_world (free (vd_vol cd)) ;;
  in_world (free (vd_self cd)) ;;
  in_world (free dev) ;;
  modify (fun s => (with_devs s.1 (delete dev (w_devs s.1)), delete dev s.2)).

(** The result and the reply. *)
Definition volume_cmd (dev cmd : Z) (cdata : vol_ctrl) : MX (Z * vol_ctrl) :=
  cd ← get_drvdata dev;
  d ← in_world (get_dev dev);
  if cmd =? COMP_CMD_SET_VALUE then
    r ← lift (volume_ctrl_set_cmd (d_state d) cd cdata);
    set_drvdata dev r.1 ;;
    mret (r.2, cdata)
  else if cmd =? COMP_CMD_GET_VALUE then
    r ← lift (volume_ctrl_get_cmd cd cdata);
    mret (r.2, r.1)
  else mret (- EINVAL, cdata).

Definition volume_trigger (dev cmd : Z) : MX Z := in_world (set_dev_state dev cmd).

(** The error path of [volume_prepare]. *)
Definition prepare_fails (dev ret : Z) : MX Z := in_world (set_dev_state dev COMP_TRIGGER_RESET) ;; mret ret.

Definition volume_prepare (dev : Z) : MX Z :=
  cd ← get_drvdata dev;
  ret ← in_world (set_dev_state dev COMP_TRIGGER_PREPARE);
  if ret <? 0 then mret ret else
  if ret =? COMP_STATUS_STATE_ALREADY_SET then mret PPL_STATUS_PATH_STOP else
  d ← in_world (get_dev dev);
  sinkb ← lift (head (d_bsink_list d));
  k ← in_world (get_buf sinkb);
  let sink := b_stream k in
  if s_size sink <? audio_stream_period_bytes sink (d_frames d) then prepare_fails dev (- ENOMEM) else
  let cd := set_funcs cd (vol_func_of (s_frame_fmt sink)) (vd_zc_get cd) in
  set_drvdata dev cd ;;
  if bool_decide (vd_scale_vol cd = VolNull) then prepare_fails dev (- EINVAL) else
  let cd := set_funcs cd (vd_scale_vol cd) (vol_func_of (s_frame_fmt sink)) in
  set_drvdata dev cd ;;
  if bool_decide (vd_zc_get cd = VolNull) then prepare_fails dev (- EINVAL) else
  if bool_decide (vd_ramp_func cd = RampNull) then prepare_fails dev (- EINVAL) else
  let cd := set_stream_info (set_ramp cd (vd_vol_ramp_active cd) true) (s_channels sink) (s_rate sink) in
  cd ← lift (prepare_channels (Z.to_nat (vd_channels cd)) 0 cd);
  set_drvdata dev (set_ramp_frames cd (ramp_frames (vd_initial_ramp cd) (d_frames d) (d_period d))) ;;
  mret 0.

Definition volume_reset (dev : Z) : MX Z :=
  cd ← get_drvdata dev;
  set_drvdata dev (reset_state cd) ;;
  in_world (set_dev_state dev COMP_TRIGGER_RESET) ;;
  mret 0.

(** *** Copy *)

(** The frames to process at once, of [frames] that are left, and [prev_sum]. *)
Definition chunk_frames (cd : vol_data) (m : mem) (source : audio_stream) (frames prev_sum : Z) : option (Z * Z) :=
  if vd_ramp_finished cd || (vd_vol_ramp_frames cd >? frames) then Some (frames, prev_sum)
  else if vd_ramp_type cd =? SOF_VOLUME_LINEAR_ZC then
    zc_with (vd_zc_get cd) m source (vd_vol_ramp_frames cd) prev_sum
  else Some (vd_vol_ramp_frames cd, prev_sum).

(** What a chunk of [frames] does to the ramp. *)
Definition chunk_ramp (state : Z) (cd : vol_data) (frames : Z) : option vol_data :=
  let cd := if vd_vol_ramp_active cd then set_elapsed cd (u32 (vd_vol_ramp_elapsed_frames cd + frames)) else cd in
  if negb (vd_ramp_finished cd) then volume_ramp state cd else Some cd.

(** The loop; buffers of one core: the calls for the caches do nothing. *)
Fixpoint copy_chunks (fuel : nat) (dev source sink source_frame_bytes sink_frame_bytes frames prev_sum : Z) : MX unit :=
  match fuel with
  | O => fault
  | S fuel =>
      if frames =? 0 then mret tt else
      cd ← get_drvdata dev;
      b ← in_world (get_buf source);
      k ← in_world (get_buf sink);
      m ← gets (fun s => w_mem s.1);
      r ← lift (chunk_frames cd m (b_stream b) frames prev_sum);
      let '(n, prev_sum) := r in
      r ← lift (scale_with (vd_scale_vol cd) m (vc_volume <$> vd_chan cd) (b_stream b) (b_stream k) n (s_channels (b_stream b)));
      in_world (modify (fun w => with_mem w r.1)) ;;
      in_world (produce sink (u32 (n * sink_frame_bytes))) ;;
      in_world (consume source (u32 (n * source_frame_bytes))) ;;
      d ← in_world (get_dev dev);
      cd ← lift (chunk_ramp (d_state d) cd n);
      set_drvdata dev cd ;;
      copy_chunks fuel dev source sink source_frame_bytes sink_frame_bytes (frames - n) prev_sum
  end.

(** A chunk has a frame at least unless the loop does not end. *)
Definition volume_copy (dev : Z) : MX Z :=
  d ← in_world (get_dev dev);
  source ← lift (head (d_bsource_list d));
  sink ← lift (head (d_bsink_list d));
  b ← in_world (get_buf source);
  k ← in_world (get_buf sink);
  let cl := comp_get_copy_limits (b_stream b) (b_stream k) in
  let frames := Z.land (cl_frames cl) (Z.lnot 3) in
  copy_chunks (S (Z.to_nat frames)) dev source sink (cl_source_frame_bytes cl) (cl_sink_frame_bytes cl) frames 0 ;;
  mret 0.

Definition volume_driver : driver_ops A (gmap Z vol_data) := mk_driver_ops volume_new volume_free.
End component.
End volume.
