(* ===== verification/VolumeRamp.v ===== *)
(** * The ramps of the volume component

    Both ramp shapes stay between the gain that they start from and the target; a
    ramp of any shape keeps the gains within the range that the multiplication
    supports. *)

From stdpp Require Import base list numbers option gmap.
From S2P Require Import Prelude StateM AudioStream StreamCopy CompState Format SampleLoop ChannelLoop Volume.

Definition between (a b x : Z) : Prop := Z.min a b <= x <= Z.max a b.

(** ** The fade *)

(** The table rises, and a segment of it does not leave the unit interval. *)
Definition fade_segment (i : nat) : bool :=
  match windows_fade_lookup !! i, windows_fade_lookup !! S i with
  | Some y0, Some y1 =>
      (0 <=? y0) && (y0 <=? y1) && (y0 * 2 ^ 15 + (8454664 * ((y1 - y0) * 127)) / 2 ^ 15 + 2 <=? 2 ^ 30)
  | _, _ => false
  end.

Lemma fade_segments i : (i < 127)%nat -> fade_segment i = true.
Proof.
  intros Hi. assert (forallb fade_segment (seq 0 127) = true) as H by (vm_compute; reflexivity).
  rewrite forallb_forall in H. apply H. apply in_seq. lia.
Qed.

Lemma volume_pow_175_ok val :
  0 <= val < 2 ^ 31 -> exists p, volume_pow_175 val = Some p /\ 0 <= p <= 2 ^ 30 /\ (2 ^ 30 <= val -> p = 2 ^ 30) /\ (val = 0 -> p = 0).
Proof.
  intros Hv. unfold volume_pow_175. destruct (Z.eqb_spec val 0) as [->|Hne].
  { exists 0. split_and!; [done|lia..]. }
  change (128 - 1) with 127. rewrite (i64_small (val * 127)) by lia. rewrite Z.shiftr_div_pow2 by lia.
  set (i := val * 127 / 2 ^ 30). pose proof (Z.mul_div_le (val * 127) (2 ^ 30) ltac:(lia)) as H1.
  pose proof (Z.mul_succ_div_gt (val * 127) (2 ^ 30) ltac:(lia)) as H2. fold i in H1, H2.
  assert (0 <= i) by (apply Z.div_pos; lia). rewrite i32_small by lia.
  destruct (Z.geb_spec i 127) as [Hi|Hi]; [exists (2 ^ 30); split_and!; [done|lia..]|].
  replace (i <? 0) with false by lia. pose proof (fade_segments (Z.to_nat i) ltac:(lia)) as Hs. unfold fade_segment in Hs.
  destruct (windows_fade_lookup !! Z.to_nat i) as [y0|]; [|done]. destruct (windows_fade_lookup !! S (Z.to_nat i)) as [y1|]; [|done].
  cbn [mbind option_bind]. apply andb_true_iff in Hs as [[Hy0 Hy1]%andb_true_iff Hb].
  apply Z.leb_le in Hy0, Hy1, Hb. set (c := (y1 - y0) * 127) in *.
  assert (0 <= c) by (unfold c; lia).
  set (dx := val - i * 8454660). assert (0 <= dx <= 8454664) as Hdx by (unfold dx; lia).
  assert (y0 <= 2 ^ 15) by (pose proof (Z.div_pos (8454664 * c) (2 ^ 15)); lia).
  assert (c * 258 <= 2 ^ 30) as Hc by (pose proof (Z.mul_succ_div_gt (8454664 * c) (2 ^ 15)); lia).
  rewrite (i32_small c) by lia. rewrite (i32_small (i * _)) by lia. fold dx. rewrite (i32_small dx) by lia.
  assert (0 <= dx * c <= 8454664 * c) as Hp by nia. rewrite (i64_small (dx * c)) by lia.
  rewrite !Z.shiftr_div_pow2 by lia. pose proof (Z.div_pos (dx * c) (2 ^ 14) ltac:(lia) ltac:(lia)).
  assert (dx * c / 2 ^ 14 <= 8454664 * c / 2 ^ 14) by (apply Z.div_le_mono; lia).
  assert (8454664 * c / 2 ^ 14 < 2 ^ 40) by (apply Z.div_lt_upper_bound; lia).
  rewrite (i64_small (_ + 1)) by lia. change (2 ^ 1) with 2.
  assert (0 <= (dx * c / 2 ^ 14 + 1) / 2 <= 8454664 * c / 2 ^ 15 + 1).
  { split; [apply Z.div_pos; lia|]. replace (8454664 * c / 2 ^ 15) with (8454664 * c / 2 ^ 14 / 2) by (rewrite Z.div_div by lia; done).
    replace (8454664 * c / 2 ^ 14 / 2 + 1) with ((8454664 * c / 2 ^ 14 + 1 * 2) / 2) by (by rewrite Z.div_add by lia).
    apply Z.div_le_mono; lia. }
  rewrite Z.shiftl_mul_pow2 by lia. rewrite (i32_small (y0 * 2 ^ 15)) by lia. rewrite i32_small by lia.
  eexists. split; [done|]. split_and!; lia.
Qed.

Definition is_gain (x : Z) : Prop := 0 <= x <= VOL_MAX.

Lemma fade_between cd c t :
  is_gain (vc_tvolume c) -> is_gain (vc_rvolume c) -> 0 < vd_initial_ramp cd < 2 ^ 29 -> 0 <= t < 16 * vd_initial_ramp cd -> t < 2 ^ 31 ->
  exists v, volume_windows_fade_ramp cd c t = Some v /\ between (vc_rvolume c) (vc_tvolume c) v /\
    (8 * vd_initial_ramp cd <= t -> v = vc_tvolume c).
Proof.
  unfold is_gain. intros Ht Hr Hi Ht1 Ht2. unfold volume_windows_fade_ramp. set (R := vd_initial_ramp cd) in *.
  rewrite !Z.shiftl_mul_pow2 by lia. rewrite (u32_small (R * 2 ^ 3)) by lia. replace (R * 2 ^ 3 =? 0) with false by lia.
  rewrite (i64_small (t * 2 ^ 30)) by lia. rewrite Z.quot_div_nonneg by lia. set (q := t * 2 ^ 30 / (R * 2 ^ 3)).
  assert (0 <= q < 2 ^ 31) as Hq by (split; [apply Z.div_pos; lia|apply Z.div_lt_upper_bound; lia]).
  rewrite (i32_small q) by lia. destruct (volume_pow_175_ok q Hq) as (p & -> & Hp & Hp1 & _). cbn [mbind option_bind].
  set (d := vc_tvolume c - vc_rvolume c). rewrite (i32_small d) by (unfold d; lia).
  assert (- 2 ^ 54 <= d * p <= 2 ^ 54) as Hdp by (unfold d; nia). rewrite (i64_small (d * p)) by lia.
  rewrite (i64_small (_ + 1)). 2:{ rewrite Z.shiftr_div_pow2 by lia. enough (- 2 ^ 62 <= d * p / 2 ^ 29 < 2 ^ 62) by lia.
    split; [apply Z.div_le_lower_bound; lia|apply Z.div_lt_upper_bound; lia]. }
  pose proof (shift_round (d * p) 30 ltac:(lia)) as E. change (30 - 1) with 29 in E. rewrite E. unfold nearest. change (30 - 1) with 29.
  set (z := (d * p + 2 ^ 29) / 2 ^ 30). pose proof (Z.mul_div_le (d * p + 2 ^ 29) (2 ^ 30) ltac:(lia)) as B1.
  pose proof (Z.mul_succ_div_gt (d * p + 2 ^ 29) (2 ^ 30) ltac:(lia)) as B2. fold z in B1, B2.
  assert (Z.min 0 d <= z <= Z.max 0 d) as Hz by (destruct (Z.le_ge_cases 0 d); nia).
  eexists. split; [done|]. rewrite i32_small by (unfold d in *; lia). unfold between. split; [unfold d in *; lia|].
  intros Hle. rewrite Hp1 in B1, B2 by (apply Z.div_le_lower_bound; lia). assert (z = d) by lia. unfold d in *. lia.
Qed.

(** ** One channel *)

(** The steepest slope of a linear ramp. *)
Abbreviation SLOPE := 2097152 (only parsing).

Record chan_ok (c : vol_chan) : Prop := {
  ck_volume : is_gain (vc_volume c);
  ck_tvolume : is_gain (vc_tvolume c);
  ck_rvolume : is_gain (vc_rvolume c);
  ck_mvolume : is_s32 (vc_mvolume c);
  ck_coef : is_s32 (vc_ramp_coef c)
}.

(** The gain is on its way from the start of the ramp to the target. *)
Definition on_way (fn : vol_ramp_func) (c : vol_chan) : Prop :=
  (vc_volume c < vc_tvolume c -> vc_rvolume c <= vc_volume c /\ (fn = RampLinear -> 0 < vc_ramp_coef c <= SLOPE)) /\
  (vc_tvolume c < vc_volume c -> vc_volume c <= vc_rvolume c /\ (fn = RampLinear -> - SLOPE <= vc_ramp_coef c < 0)).

(** The time of the ramp is not over, and not over by far. *)
Definition in_time (fn : vol_ramp_func) (initial_ramp t : Z) (c : vol_chan) : Prop :=
  vc_volume c <> vc_tvolume c ->
  match fn with
  | RampNull => False
  | RampLinear => t * Z.abs (vc_ramp_coef c) <= 2 ^ 23
  | RampWindowsFade => t < 8 * initial_ramp
  end.

Definition near_time (fn : vol_ramp_func) (initial_ramp t : Z) (c : vol_chan) : Prop :=
  vc_volume c <> vc_tvolume c ->
  match fn with
  | RampNull => False
  | RampLinear => t * Z.abs (vc_ramp_coef c) <= 2 ^ 30
  | RampWindowsFade => t < 16 * initial_ramp
  end.

(** The limits that the ramps need of the data. *)
Record ramp_conf (cd : vol_data) : Prop := {
  rc_min : is_gain (vd_vol_min cd);
  rc_max : is_gain (vd_vol_max cd);
  rc_range : vd_vol_ramp_range cd <= VOL_MAX;
  rc_initial : 0 <= vd_initial_ramp cd < 2 ^ 29;
  rc_type : vd_ramp_func cd = ramp_func_of (vd_ramp_type cd);
  rc_func : vd_ramp_func cd <> RampNull;
  rc_fade : vd_ramp_func cd = RampWindowsFade -> 0 < vd_initial_ramp cd
}.

(** Where the two shapes are at a time. *)
Lemma ramp_with_ok cd c t :
  ramp_conf cd -> chan_ok c -> on_way (vd_ramp_func cd) c -> near_time (vd_ramp_func cd) (vd_initial_ramp cd) t c ->
  0 <= t < 2 ^ 31 -> vc_volume c <> vc_tvolume c ->
  exists v, ramp_with cd c t = Some v /\
    (vc_volume c < vc_tvolume c -> vc_rvolume c <= v) /\ (vc_tvolume c < vc_volume c -> v <= vc_rvolume c) /\
    (vd_ramp_func cd = RampLinear -> v = vc_rvolume c + t * vc_ramp_coef c) /\
    (vd_ramp_func cd = RampWindowsFade -> 8 * vd_initial_ramp cd <= t -> v = vc_tvolume c).
Proof.
  intros K [Kv Kt Kr _ _] [Hup Hdn] Hn Ht Hne. unfold ramp_with, is_gain in *. specialize (Hn Hne). pose proof K as [_ _ _ Hi _ Hf Hp].
  destruct (vd_ramp_func cd) eqn:E; [done| |].
  - set (k := vc_ramp_coef c) in *. assert (- 2 ^ 30 <= t * k <= 2 ^ 30) by (destruct (Z.abs_spec k) as [[_ Ek]|[_ Ek]]; rewrite Ek in Hn; lia).
    unfold volume_linear_ramp. fold k. rewrite (i32_small (t * k)), i32_small by lia. eexists. split; [done|].
    split_and!; [intros; destruct Hup as [? Hk]; [lia|]; specialize (Hk eq_refl); nia| |lia|done].
    intros. destruct Hdn as [? Hk]; [lia|]. specialize (Hk eq_refl). nia.
  - destruct (fade_between cd c t) as (v & -> & Hv & Hend); [done..|split; [by apply Hp|lia]|lia|lia|].
    exists v. unfold between in Hv. split_and!; [done|lia|lia|done|auto].
Qed.

(** A step of the ramp: the channel arrives, or is still on its way and in time. *)
Lemma ramp_channel_ok cd t c :
  ramp_conf cd -> chan_ok c -> on_way (vd_ramp_func cd) c -> near_time (vd_ramp_func cd) (vd_initial_ramp cd) t c -> 0 <= t < 2 ^ 31 ->
  exists c' more, ramp_channel cd t c = Some (c', more) /\ chan_ok c' /\ on_way (vd_ramp_func cd) c' /\
    in_time (vd_ramp_func cd) (vd_initial_ramp cd) t c' /\ vc_tvolume c' = vc_tvolume c /\
    (more = negb (vc_volume c' =? vc_tvolume c')).
Proof.
  intros K C Hw Hn Ht. unfold ramp_channel. destruct (Z.eqb_spec (vc_volume c) (vc_tvolume c)) as [E|Hne].
  { exists c, false. split_and!; try done; [by intros ?|]. by replace (_ =? _) with true by lia. }
  destruct (ramp_with_ok cd c t K C Hw Hn Ht Hne) as (v & -> & Hup & Hdn & Hlin & Hfade). cbn [mbind option_bind].
  pose proof C as [Kv Kt Kr Km Kc]. destruct Hw as [Wu Wd]. unfold is_gain in *. pose proof (rc_func _ K) as Hf. pose proof (rc_max _ K). unfold is_gain in *.
  assert (exists c' more, Some (at_target c, false) = Some (c', more) /\ chan_ok c' /\ on_way (vd_ramp_func cd) c' /\
    in_time (vd_ramp_func cd) (vd_initial_ramp cd) t c' /\ vc_tvolume c' = vc_tvolume c /\ more = negb (vc_volume c' =? vc_tvolume c')) as Hend.
  { exists (at_target c), false. split_and!; [done|by constructor|split; simpl; lia|by intros ?|done|simpl; by rewrite Z.eqb_refl]. }
  assert (0 <= v <= VOL_MAX -> between (vc_rvolume c) (vc_tvolume c) v -> v <> vc_tvolume c ->
    (vc_volume c < vc_tvolume c <-> v < vc_tvolume c) ->
    exists c' more, Some (set_volume c v, true) = Some (c', more) /\ chan_ok c' /\ on_way (vd_ramp_func cd) c' /\
    in_time (vd_ramp_func cd) (vd_initial_ramp cd) t c' /\ vc_tvolume c' = vc_tvolume c /\ more = negb (vc_volume c' =? vc_tvolume c')) as Hgo.
  { intros Hv Hb Hvt Hiff. eexists (set_volume c v), true. unfold between in Hb. split_and!; try done.
    - split; simpl; intros; [destruct Wu|destruct Wd]; try lia; split; try done; lia.
    - intros _. simpl. destruct (vd_ramp_func cd) eqn:E; [done| |].
      + specialize (Hlin eq_refl). assert (Z.abs (t * vc_ramp_coef c) <= 2 ^ 23) as Hab by lia. rewrite Z.abs_mul in Hab. lia.
      + destruct (Z.lt_ge_cases t (8 * vd_initial_ramp cd)); [done|]. by specialize (Hfade eq_refl ltac:(lia)).
    - simpl. by replace (v =? vc_tvolume c) with false by lia. }
  unfold between in Hgo.
  destruct (Z.ltb_spec (vc_volume c) (vc_tvolume c)) as [Hlt|Hge].
  - destruct ((v >=? vc_tvolume c) || (v >=? vd_vol_max cd)) eqn:Eb; [done|]. apply orb_false_iff in Eb as [E1 _].
    specialize (Hup Hlt). rewrite Z.geb_leb in E1. apply Z.leb_gt in E1. apply Hgo; lia.
  - specialize (Hdn ltac:(lia)). destruct (Z.leb_spec v 0); [done|].
    destruct ((v <=? vc_tvolume c) || (v <=? vd_vol_min cd)) eqn:Eb; [done|]. apply orb_false_iff in Eb as [E1 _]. apply Z.leb_gt in E1.
    apply Hgo; lia.
Qed.

(** ** All channels *)

Definition ready_chan (cd : vol_data) (t : Z) (c : vol_chan) : Prop :=
  chan_ok c /\ on_way (vd_ramp_func cd) c /\ near_time (vd_ramp_func cd) (vd_initial_ramp cd) t c.

Definition moving_chan (cd : vol_data) (t : Z) (c : vol_chan) : Prop :=
  chan_ok c /\ on_way (vd_ramp_func cd) c /\ in_time (vd_ramp_func cd) (vd_initial_ramp cd) t c.

Lemma ramp_channels_ok n i cd t l fin :
  ramp_conf cd -> 0 <= t < 2 ^ 31 -> (i + n <= length l)%nat ->
  (forall k c, (i <= k < i + n)%nat -> l !! k = Some c -> ready_chan cd t c) ->
  exists l' fin', ramp_channels n i cd t l fin = Some (l', fin') /\ length l' = length l /\
    (forall k, ~ (i <= k < i + n)%nat -> l' !! k = l !! k) /\
    (forall k c, (i <= k < i + n)%nat -> l !! k = Some c -> exists c' more, l' !! k = Some c' /\ ramp_channel cd t c = Some (c', more) /\
       moving_chan cd t c') /\
    (fin' = true <-> fin = true /\ forall k c', (i <= k < i + n)%nat -> l' !! k = Some c' -> vc_volume c' = vc_tvolume c').
Proof.
  intros K Ht. revert i l fin. induction n as [|n IH]; intros i l fin Hl Hr; cbn [ramp_channels].
  { exists l, fin. split_and!; [done|done|done|lia|]. split; [intros ->; split; [done|lia]|by intros []]. }
  destruct (lookup_lt_is_Some_2 l i) as [c Hc]; [lia|]. rewrite Hc. cbn [mbind option_bind].
  destruct (Hr i c ltac:(lia) Hc) as (C & W & N). destruct (ramp_channel_ok cd t c K C W N Ht) as (c1 & more & E & C1 & W1 & T1 & _ & Em).
  rewrite E. cbn [mbind option_bind fst snd].
  destruct (IH (S i) (<[i := c1]> l) (fin && negb more)) as (l' & fin' & E' & Hlen & Hout & Hin & Hfin).
  { rewrite length_insert. lia. }
  { intros k ck Hk Hck. rewrite list_lookup_insert_ne in Hck by lia. apply (Hr k); [lia|done]. }
  rewrite E'. rewrite length_insert in Hlen.
  assert (l' !! i = Some c1) as Hi by (rewrite Hout, list_lookup_insert_eq by lia; done).
  exists l', fin'. split_and!; [done|done| | |].
  - intros k Hk. rewrite Hout, list_lookup_insert_ne by lia. done.
  - intros k ck Hk Hck. destruct (decide (k = i)) as [->|].
    + simplify_eq. by eexists c1, _.
    + apply Hin; [lia|]. by rewrite list_lookup_insert_ne by lia.
  - rewrite Hfin, andb_true_iff, negb_true_iff. split.
    + intros ((-> & ->) & H). split; [done|]. intros k ck Hk Hck. destruct (decide (k = i)) as [->|]; [|apply (H k); [lia|done]].
      simplify_eq. symmetry in Em. apply negb_false_iff, Z.eqb_eq in Em. done.
    + intros (-> & H). split_and!; [done| |intros k ck Hk Hck; apply (H k); [lia|done]].
      rewrite Em, negb_false_iff. apply Z.eqb_eq. apply (H i); [lia|done].
Qed.

(** The channels in use are on their way, the others have gains in range. *)
Record vol_inv (cd : vol_data) : Prop := {
  vi_conf : ramp_conf cd;
  vi_len : length (vd_chan cd) = SOF_IPC_MAX_CHANNELS;
  vi_chan : Forall chan_ok (vd_chan cd);
  vi_channels : 0 <= vd_channels cd <= Z.of_nat SOF_IPC_MAX_CHANNELS;
  vi_elapsed : 0 <= vd_vol_ramp_elapsed_frames cd < 2 ^ 32;
  vi_active : vd_vol_ramp_active cd = true -> vd_ramp_finished cd = false;
  vi_way i c : Z.of_nat i < vd_channels cd -> vd_chan cd !! i = Some c -> moving_chan cd (ramp_time_of cd) c
}.

(** A stream is prepared. *)
Record vol_stream (cd : vol_data) : Prop := {
  vs_rate : 1 < vd_sample_rate cd;
  vs_frames : 0 < vd_vol_ramp_frames cd < 2 ^ 31;
  vs_step : vd_vol_ramp_frames cd * 8000 <= 400 * vd_sample_rate cd;
  vs_fade : vd_ramp_func cd = RampWindowsFade -> vd_vol_ramp_frames cd * 8000 < 8 * vd_initial_ramp cd * vd_sample_rate cd
}.

Lemma ramp_time_bound cd : 1 < vd_sample_rate cd -> ramp_time_of cd = u32 (vd_vol_ramp_elapsed_frames cd * 8000) / vd_sample_rate cd /\
  0 <= ramp_time_of cd < 2 ^ 31.
Proof.
  intros Hr. unfold ramp_time_of. pose proof (Z.mod_pos_bound (vd_vol_ramp_elapsed_frames cd * 8000) (2 ^ 32) ltac:(lia)) as Hu.
  unfold u32. set (u := _ mod 2 ^ 32) in *.
  assert (0 <= u / vd_sample_rate cd < 2 ^ 31) by (split; [apply Z.div_pos; lia|apply Z.div_lt_upper_bound; nia]).
  rewrite i32_small by lia. done.
Qed.

(** The time goes on by that of the frames at most. *)
Lemma ramp_time_step cd n :
  1 < vd_sample_rate cd -> 0 <= n -> 0 <= vd_vol_ramp_elapsed_frames cd ->
  ramp_time_of (set_elapsed cd (u32 (vd_vol_ramp_elapsed_frames cd + n))) <= ramp_time_of cd + n * 8000 / vd_sample_rate cd + 1.
Proof.
  intros Hr Hn He. destruct (ramp_time_bound cd Hr) as [-> _].
  destruct (ramp_time_bound (set_elapsed cd (u32 (vd_vol_ramp_elapsed_frames cd + n)))) as [-> _]; [done|]. simpl.
  set (e := vd_vol_ramp_elapsed_frames cd) in *. set (R := vd_sample_rate cd) in *.
  assert (u32 (u32 (e + n) * 8000) <= u32 (e * 8000) + n * 8000) as Hu.
  { unfold u32. rewrite Zmult_mod_idemp_l, Z.mul_add_distr_r. rewrite Zplus_mod. rewrite (Z.add_mod_idemp_r _ (n * 8000)) by lia.
    etransitivity; [apply Z.mod_le; [|lia]|lia]. pose proof (Z.mod_pos_bound (e * 8000) (2 ^ 32)). lia. }
  set (a := u32 (e * 8000)) in *. set (b := n * 8000) in *.
  assert (u32 (u32 (e + n) * 8000) / R <= (a + b) / R) by (apply Z.div_le_mono; lia).
  enough ((a + b) / R <= a / R + b / R + 1) by lia. apply Z.lt_succ_r. apply Z.div_lt_upper_bound; [lia|].
  pose proof (Z.mul_succ_div_gt a R ltac:(lia)). pose proof (Z.mul_succ_div_gt b R ltac:(lia)). nia.
Qed.

(** ** The ramp *)

(** The channels in use have arrived. *)
Definition arrived (cd : vol_data) : Prop :=
  forall i c, Z.of_nat i < vd_channels cd -> vd_chan cd !! i = Some c -> vc_volume c = vc_tvolume c.

(** Data that differs in the gains and the flags of the ramp only. *)
Definition ramped (cd cd' : vol_data) : Prop := exists l a f, cd' = set_ramp (set_chans cd l) a f.

Lemma Forall_channels (P : vol_chan -> Prop) l l' n :
  length l' = length l -> (n <= length l)%nat -> (forall k, ~ (0 <= k < 0 + n)%nat -> l' !! k = l !! k) ->
  (forall k c, (0 <= k < 0 + n)%nat -> l !! k = Some c -> exists c', l' !! k = Some c' /\ P c') -> Forall P l -> Forall P l'.
Proof.
  intros Hlen Hn Hout Hin HP. rewrite Forall_lookup in HP |- *. intros k c' Hk. destruct (decide (k < n)%nat) as [Hlt|Hge].
  - destruct (lookup_lt_is_Some_2 l k) as [c Hc]; [lia|]. destruct (Hin k c ltac:(lia) Hc) as (c'' & Hc'' & H). by simplify_eq.
  - rewrite Hout in Hk by lia. by eapply HP.
Qed.

Section ramp.
Context (PLATFORM_MAX_CHANNELS : nat) (state : Z) (cd : vol_data).
Hypothesis Hconf : ramp_conf cd.
Hypothesis Hlen : length (vd_chan cd) = SOF_IPC_MAX_CHANNELS.
Hypothesis Hchan : Forall chan_ok (vd_chan cd).
Hypothesis Hchs : 0 <= vd_channels cd <= Z.of_nat SOF_IPC_MAX_CHANNELS.
Hypothesis Hel : 0 <= vd_vol_ramp_elapsed_frames cd < 2 ^ 32.
Hypothesis Hfin : vd_ramp_finished cd = false.

Lemma volume_ramp_ok :
  state <> COMP_STATE_READY -> 1 < vd_sample_rate cd ->
  (forall i c, Z.of_nat i < vd_channels cd -> vd_chan cd !! i = Some c -> ready_chan cd (ramp_time_of cd) c) ->
  exists cd', volume_ramp PLATFORM_MAX_CHANNELS state cd = Some cd' /\ vol_inv cd' /\ ramped cd cd' /\
    (vd_ramp_finished cd' = true <-> arrived cd') /\ vd_vol_ramp_active cd' = negb (vd_ramp_finished cd') /\
    (forall i c, Z.of_nat i < vd_channels cd -> vd_chan cd !! i = Some c ->
       exists c' more, vd_chan cd' !! i = Some c' /\ ramp_channel cd (ramp_time_of cd) c = Some (c', more)).
Proof using Hconf Hlen Hchan Hchs Hel Hfin.
  intros Hst Hr Hrd. unfold volume_ramp. replace (state =? COMP_STATE_READY) with false by lia.
  replace (vd_sample_rate cd =? 0) with false by lia. destruct (ramp_time_bound cd Hr) as [_ Ht].
  destruct (ramp_channels_ok (Z.to_nat (vd_channels cd)) 0 cd (ramp_time_of cd) (vd_chan cd) true Hconf Ht) as (l' & fin & E & Hl & Hout & Hin & Hf).
  { lia. }
  { intros k c Hk. apply Hrd. lia. }
  rewrite E. cbn [mbind option_bind fst snd].
  set (cd' := if fin : bool then _ else _).
  assert (vd_chan cd' = l' /\ vd_ramp_finished cd' = fin /\ vd_vol_ramp_active cd' = negb fin /\ vd_channels cd' = vd_channels cd) as (E1 & E2 & E3 & E4)
    by (unfold cd'; destruct fin; simpl; by rewrite ?Hfin).
  exists cd'. rewrite E1, E2, E3.
  assert (forall k c, (0 <= k < 0 + Z.to_nat (vd_channels cd))%nat -> vd_chan cd !! k = Some c -> exists c', l' !! k = Some c' /\ chan_ok c') as Hok.
  { intros k c Hk Hc. destruct (Hin k c Hk Hc) as (c' & more & H1 & _ & H2 & _). by exists c'. }
  split_and!; [done| | | |done|].
  - assert (ramp_conf cd') as Kc by (unfold cd'; destruct fin, Hconf; by constructor).
    constructor; [done|by rewrite E1, Hl| | | | |].
    + rewrite E1. eapply (Forall_channels _ (vd_chan cd)); [done|..|done]; [|done|done]. lia.
    + by rewrite E4.
    + unfold cd'; by destruct fin.
    + rewrite E2, E3. by destruct fin.
    + intros i c Hi Hc. rewrite E1 in Hc. rewrite E4 in Hi. destruct (lookup_lt_is_Some_2 (vd_chan cd) i) as [c0 Hc0]; [lia|].
      destruct (Hin i c0 ltac:(lia) Hc0) as (c' & more & H1 & _ & H2). simplify_eq. unfold cd'. by destruct fin.
  - unfold cd'. destruct fin; eexists _, _, _; reflexivity.
  - rewrite Hf. unfold arrived. rewrite E1, E4. split; [intros [_ H] i c Hi Hc; apply (H i); [lia|done]|].
    intros H. split; [done|]. intros k c Hk Hc. apply (H k); [lia|done].
  - intros i c Hi Hc. destruct (Hin i c ltac:(lia) Hc) as (c' & more & H1 & H2 & _). by exists c', more.
Qed.

(** A component that is not streaming takes the targets at once. *)
Lemma volume_ramp_idle :
  state = COMP_STATE_READY -> vd_vol_ramp_active cd = false ->
  (forall i c, Z.of_nat i < vd_channels cd -> vd_chan cd !! i = Some c -> moving_chan cd (ramp_time_of cd) c) ->
  exists cd', volume_ramp PLATFORM_MAX_CHANNELS state cd = Some cd' /\ vol_inv cd' /\ ramped cd cd' /\
    vd_ramp_finished cd' = true /\ vd_vol_ramp_active cd' = false /\
    (forall i c, (i < PLATFORM_MAX_CHANNELS)%nat -> vd_chan cd' !! i = Some c -> vc_volume c = vc_tvolume c).
Proof using Hconf Hlen Hchan Hchs Hel.
  intros -> Ha Hmv. unfold volume_ramp. cbn [Z.eqb Pos.eqb].
  assert (forall i c, jump PLATFORM_MAX_CHANNELS (vd_chan cd) !! i = Some c -> exists c0, vd_chan cd !! i = Some c0 /\
    ((i < PLATFORM_MAX_CHANNELS)%nat /\ c = set_volume c0 (vc_tvolume c0) \/ (PLATFORM_MAX_CHANNELS <= i)%nat /\ c = c0)) as Hj.
  { intros i c. unfold jump. set (P := PLATFORM_MAX_CHANNELS). intros [H|[Hle H]]%lookup_app_Some.
    - rewrite list_lookup_fmap in H. destruct (take P (vd_chan cd) !! i) as [c0|] eqn:E; [|done]. simplify_eq/=.
      apply lookup_take_Some in E as [E Hi]. exists c0. split; [done|]. by left.
    - rewrite length_fmap in Hle, H. rewrite lookup_drop in H. rewrite length_take in Hle, H.
      assert ((i < length (vd_chan cd))%nat) by (pose proof (lookup_lt_Some _ _ _ H); lia).
      exists c. replace (P + (i - P `min` length (vd_chan cd)))%nat with i in H by lia. split; [done|]. right. split; [lia|done]. }
  eexists. split_and!; [done| |by eexists _, _, _|done|done|].
  - constructor; simpl; try done.
    + destruct Hconf. by constructor.
    + unfold jump. rewrite length_app, length_fmap, length_take, length_drop. lia.
    + apply Forall_lookup. intros i c Hc. destruct (Hj i c Hc) as (c0 & H0 & H). rewrite Forall_lookup in Hchan. specialize (Hchan i c0 H0).
      destruct H as [[_ ->]|[_ ->]]; [|done]. destruct Hchan. by constructor.
    + by rewrite Ha.
    + intros i c Hi Hc. destruct (Hj i c Hc) as (c0 & H0 & H). destruct (Hmv i c0 Hi H0) as (C & W & T).
      destruct H as [[_ ->]|[_ ->]]; [|done]. split_and!; [destruct C; by constructor|split; simpl; lia|by intros ?].
  - intros i c Hi Hc. destruct (Hj i c Hc) as (c0 & H0 & [[_ ->]|[? _]]); [done|lia].
Qed.
End ramp.
