(* ===== verification/VolumeCtl.v ===== *)
(** * The controls of the volume component

    Commands of the host of any content keep the invariant of the gains: the
    component limits what it receives. *)

From stdpp Require Import base list numbers option gmap.
From S2P Require Import Prelude StateM AudioStream StreamCopy CompState Format SampleLoop ChannelLoop Volume VolumeRamp.

(** Data that differs in the gains and the progress of the ramp only. *)
Definition same_setup (cd cd' : vol_data) : Prop := exists l e a f, cd' = set_ramp (set_elapsed (set_chans cd l) e) a f.

Lemma same_setup_refl cd : same_setup cd cd.
Proof. exists (vd_chan cd), (vd_vol_ramp_elapsed_frames cd), (vd_vol_ramp_active cd), (vd_ramp_finished cd). by destruct cd. Qed.

Lemma same_setup_trans cd1 cd2 cd3 : same_setup cd1 cd2 -> same_setup cd2 cd3 -> same_setup cd1 cd3.
Proof. intros (l & e & a & f & ->) (l' & e' & a' & f' & ->). by exists l', e', a', f'. Qed.

Lemma ramped_same_setup cd cd' : ramped cd cd' -> same_setup cd cd'.
Proof. intros (l & a & f & ->). exists l, (vd_vol_ramp_elapsed_frames cd), a, f. by destruct cd. Qed.


Lemma same_setup_conf cd cd' : same_setup cd cd' -> ramp_conf cd -> ramp_conf cd'.
Proof. intros (l & e & a & f & ->) []. by constructor. Qed.

Lemma same_setup_stream cd cd' : same_setup cd cd' -> vol_stream cd -> vol_stream cd'.
Proof. intros (l & e & a & f & ->) []. by constructor. Qed.

(** Data that differs in the gains and the time of the ramp only. *)
Definition same_run (cd cd' : vol_data) : Prop := exists l e, cd' = set_elapsed (set_chans cd l) e.

Lemma same_run_setup cd cd' : same_run cd cd' -> same_setup cd cd'.
Proof. intros (l & e & ->). exists l, e, (vd_vol_ramp_active cd), (vd_ramp_finished cd). by destruct cd. Qed.

Lemma same_run_refl cd : same_run cd cd.
Proof. exists (vd_chan cd), (vd_vol_ramp_elapsed_frames cd). by destruct cd. Qed.

Lemma same_run_trans cd1 cd2 cd3 : same_run cd1 cd2 -> same_run cd2 cd3 -> same_run cd1 cd3.
Proof. intros (l & e & ->) (l' & e' & ->). by exists l', e'. Qed.

Lemma set_chans_run cd l : same_run cd (set_chans cd l).
Proof. exists l, (vd_vol_ramp_elapsed_frames cd). by destruct cd. Qed.

#[export] Hint Resolve same_setup_refl ramped_same_setup same_run_refl same_run_setup : sof.

(** ** One channel *)

Lemma ramp_coef_bounds cd delta constant_rate :
  ramp_conf cd -> - VOL_MAX <= delta <= VOL_MAX ->
  let k := ramp_coef_of cd delta constant_rate in
  (delta < 0 -> - SLOPE <= k < 0) /\ (0 <= delta -> 0 < k <= SLOPE).
Proof.
  intros K Hd k. unfold k, ramp_coef_of. set (d := if delta <? 0 then - delta else delta).
  assert (0 <= d <= VOL_MAX) as Hd' by (unfold d; destruct (Z.ltb_spec delta 0); lia). pose proof (rc_range _ K). pose proof (rc_initial _ K).
  set (c := if vd_initial_ramp cd >? 0 then _ else d).
  assert (0 <= c <= 2 ^ 23) as Hc.
  { unfold c. destruct (Z.gtb_spec (vd_initial_ramp cd) 0); [|lia]. set (r := vd_vol_ramp_range cd) in *.
    assert (exists e, (if constant_rate && (r >? 0) then r else d) = e /\ 0 <= e <= VOL_MAX) as (e & -> & He).
    { eexists. split; [done|]. destruct constant_rate; simpl; [destruct (Z.gtb_spec r 0); lia|lia]. }
    rewrite (i32_small (2 * e)), (u32_small (2 * e)) by lia. pose proof (Z.div_pos (2 * e) (vd_initial_ramp cd) ltac:(lia) ltac:(lia)).
    assert (2 * e / vd_initial_ramp cd <= 2 * e) by (apply Z.div_le_upper_bound; nia).
    rewrite u32_small by lia. rewrite Z.shiftr_div_pow2 by lia. change (2 ^ 1) with 2.
    pose proof (Z.mul_div_le (2 * e / vd_initial_ramp cd + 1) 2). pose proof (Z.div_pos (2 * e / vd_initial_ramp cd + 1) 2).
    rewrite i32_small; lia. }
  rewrite !Z.shiftr_div_pow2 by lia. change (2 ^ 1) with 2. change (2 ^ 2) with 4.
  pose proof (Z.mul_div_le c 4). pose proof (Z.div_pos c 4). pose proof (Z.mul_div_le (c / 4 + 1) 2). pose proof (Z.div_pos (c / 4 + 1) 2).
  destruct (Z.ltb_spec delta 0); lia.
Qed.

Definition clamp_gain (v : Z) : Z := Z.max VOL_MIN (Z.min v VOL_MAX).

Lemma ramp_time_0 cd : vd_vol_ramp_elapsed_frames cd = 0 -> ramp_time_of cd = 0.
Proof. intros E. unfold ramp_time_of. by rewrite E. Qed.

(** At time 0 every channel that is on its way is in time. *)
Lemma start_in_time cd c : ramp_conf cd -> in_time (vd_ramp_func cd) (vd_initial_ramp cd) 0 c.
Proof.
  intros K Hne. pose proof (rc_func _ K). pose proof (rc_fade _ K). destruct (vd_ramp_func cd); [done|lia|].
  assert (0 < vd_initial_ramp cd) by auto. lia.
Qed.

Lemma set_chan_core cd chan vol constant_rate c :
  ramp_conf cd -> vd_chan cd !! chan = Some c -> chan_ok c ->
  exists c', volume_set_chan cd chan vol constant_rate = Some (set_elapsed (set_chans cd (<[chan := c']> (vd_chan cd))) 0) /\
    chan_ok c' /\ on_way (vd_ramp_func cd) c' /\ vc_tvolume c' = clamp_gain vol /\ vc_volume c' = vc_volume c.
Proof.
  intros K Ec C. pose proof C as [Cv Ct Cr Cm Ck]. unfold volume_set_chan. rewrite Ec. cbn [mbind option_bind].
  replace (if (if vol <? VOL_MIN then VOL_MIN else vol) >? VOL_MAX then VOL_MAX else if vol <? VOL_MIN then VOL_MIN else vol) with (clamp_gain vol).
  2:{ unfold clamp_gain. destruct (Z.ltb_spec vol VOL_MIN); [simpl; lia|]. destruct (Z.gtb_spec vol VOL_MAX); lia. }
  set (v := clamp_gain vol). assert (is_gain v) as Hv by (unfold v, clamp_gain, is_gain; lia).
  eexists. split; [reflexivity|]. unfold is_gain in Cv, Hv.
  pose proof (ramp_coef_bounds cd (v - vc_volume c) constant_rate K ltac:(lia)) as Hk. cbn zeta in Hk.
  rewrite (rc_type _ K). unfold ramp_func_of. rewrite i32_small by lia.
  destruct ((_ =? 0) || (_ =? 2)).
  - split_and!; [constructor; try done; unfold is_s32; simpl; lia|split; simpl; intros; split; lia|done|done].
  - split_and!; [by constructor|split; simpl; repeat case_if; split; (lia || done)|done|done].
Qed.

Lemma volume_set_chan_ok cd chan vol constant_rate :
  vol_inv cd -> (chan < SOF_IPC_MAX_CHANNELS)%nat ->
  exists cd', volume_set_chan cd chan vol constant_rate = Some cd' /\ vol_inv cd' /\ same_run cd cd'.
Proof.
  intros I Hc. pose proof I as [K Hl HF Hch He Ha Hw]. destruct (lookup_lt_is_Some_2 (vd_chan cd) chan) as [c Ec]; [lia|].
  pose proof (Forall_lookup_1 _ _ _ _ HF Ec) as C. destruct (set_chan_core cd chan vol constant_rate c K Ec C) as (c' & E & C' & W' & _).
  eexists. split; [exact E|]. split; [|by eexists _, _].
  assert (forall i d, <[chan := c']> (vd_chan cd) !! i = Some d -> d = c' \/ vd_chan cd !! i = Some d) as Hi.
  { intros i d Hd. apply list_lookup_insert_Some in Hd as [(_ & <- & _)|[_ ?]]; auto. }
  constructor; simpl; try done.
  - by destruct K; constructor.
  - by rewrite length_insert.
  - apply Forall_lookup. intros i d Hd. destruct (Hi i d Hd) as [->|Hd']; [done|by eapply Forall_lookup_1].
  - intros i d Hlt Hd. unfold moving_chan. rewrite ramp_time_0 by done.
    assert (chan_ok d /\ on_way (vd_ramp_func cd) d) as [Cd Wd].
    { destruct (Hi i d Hd) as [->|Hd']; [done|]. by destruct (Hw i d Hlt Hd') as (? & ? & _). }
    split_and!; [done|done|]. exact (start_in_time cd d K).
Qed.

(** Fields that the ramp does not use. *)
Lemma set_mute_inv cd chan c mvolume muted :
  vol_inv cd -> vd_chan cd !! chan = Some c -> is_s32 mvolume -> vol_inv (set_chans cd (<[chan := set_mute c mvolume muted]> (vd_chan cd))).
Proof.
  intros [K Hl HF Hch He Ha Hw] Ec Hm.
  assert (forall i d, <[chan := set_mute c mvolume muted]> (vd_chan cd) !! i = Some d ->
    exists d0 mv mu, vd_chan cd !! i = Some d0 /\ is_s32 mv /\ d = set_mute d0 mv mu) as Hi.
  { intros i d Hd. apply list_lookup_insert_Some in Hd as [(-> & <- & _)|[_ Hd]]; [by exists c, mvolume, muted|].
    exists d, (vc_mvolume d), (vc_muted d). split_and!; [done| |by destruct d]. by apply (Forall_lookup_1 _ _ _ _ HF Hd). }
  constructor; simpl; try done; [by destruct K; constructor|by rewrite length_insert| |].
  - apply Forall_lookup. intros i d Hd. destruct (Hi i d Hd) as (d0 & mv & mu & Hd0 & Hmv & ->).
    destruct (Forall_lookup_1 _ _ _ _ HF Hd0). by constructor.
  - intros i d Hlt Hd. destruct (Hi i d Hd) as (d0 & mv & mu & Hd0 & Hmv & ->). destruct (Hw i d0 Hlt Hd0) as ([] & Wd & Td).
    split_and!; [by constructor|exact Wd|exact Td].
Qed.

Lemma mute_chan_ok cd chan mvolume muted :
  vol_inv cd -> (chan < SOF_IPC_MAX_CHANNELS)%nat -> (forall v, is_s32 v -> is_s32 (mvolume v)) ->
  exists cd', mute_chan cd chan mvolume muted = Some cd' /\ vol_inv cd' /\ same_run cd cd'.
Proof.
  intros I Hc Hm. pose proof (vi_len _ I). destruct (lookup_lt_is_Some_2 (vd_chan cd) chan) as [c Ec]; [lia|].
  unfold mute_chan. rewrite Ec. cbn [mbind option_bind]. eexists. split_and!; [done| |].
  - apply set_mute_inv; [done..|]. apply Hm. by apply (Forall_lookup_1 _ _ _ _ (vi_chan _ I) Ec).
  - apply set_chans_run.
Qed.

(** An operation on a channel that keeps the invariant. *)
Definition keeps (cd : vol_data) (r : option vol_data) : Prop := exists cd', r = Some cd' /\ vol_inv cd' /\ same_run cd cd'.

Lemma keeps_bind cd r f : keeps cd r -> (forall cd', vol_inv cd' -> same_run cd cd' -> keeps cd' (f cd')) -> keeps cd (r ≫= f).
Proof.
  intros (cd' & -> & I & S) Hf. destruct (Hf cd' I S) as (cd2 & E & I2 & S2). exists cd2. split_and!; [done|done|by eapply same_run_trans].
Qed.

Lemma keeps_ret cd : vol_inv cd -> keeps cd (Some cd).
Proof. intros I. exists cd. auto with sof. Qed.

Lemma keeps_set_chan cd chan vol constant_rate :
  vol_inv cd -> (chan < SOF_IPC_MAX_CHANNELS)%nat -> keeps cd (volume_set_chan cd chan vol constant_rate).
Proof.
  by apply volume_set_chan_ok.
Qed.

Lemma volume_set_chan_mute_ok cd chan : vol_inv cd -> (chan < SOF_IPC_MAX_CHANNELS)%nat -> keeps cd (volume_set_chan_mute cd chan).
Proof.
  intros I Hc. pose proof (vi_len _ I). destruct (lookup_lt_is_Some_2 (vd_chan cd) chan) as [c Ec]; [lia|].
  unfold volume_set_chan_mute. rewrite Ec. cbn [mbind option_bind]. destruct (vc_muted c); [by apply keeps_ret|].
  apply keeps_bind; [|intros cd1 I1 _; apply keeps_bind; [by apply keeps_set_chan|intros cd2 I2 _; by apply mute_chan_ok]].
  apply mute_chan_ok; [done|done|]. intros _ _. destruct (ck_tvolume _ (Forall_lookup_1 _ _ _ _ (vi_chan _ I) Ec)). unfold is_s32. lia.
Qed.

Lemma volume_set_chan_unmute_ok cd chan : vol_inv cd -> (chan < SOF_IPC_MAX_CHANNELS)%nat -> keeps cd (volume_set_chan_unmute cd chan).
Proof.
  intros I Hc. pose proof (vi_len _ I). destruct (lookup_lt_is_Some_2 (vd_chan cd) chan) as [c Ec]; [lia|].
  unfold volume_set_chan_unmute. rewrite Ec. cbn [mbind option_bind]. destruct (vc_muted c); [|by apply keeps_ret].
  apply keeps_bind; [by apply mute_chan_ok|]. intros cd1 I1 _. by apply keeps_set_chan.
Qed.

(** ** Commands *)

Lemma set_volume_elem_ok cd ch val : vol_inv cd -> (ch < SOF_IPC_MAX_CHANNELS)%nat -> keeps cd (set_volume_elem cd ch val).
Proof.
  intros I Hc. pose proof (vi_len _ I). destruct (lookup_lt_is_Some_2 (vd_chan cd) ch) as [c Ec]; [lia|].
  unfold set_volume_elem. rewrite Ec. cbn [mbind option_bind]. destruct (vc_muted c); [|by apply keeps_set_chan].
  apply mute_chan_ok; [done|done|]. intros _ _. apply i32_range.
Qed.

Lemma set_switch_elem_ok cd ch val : vol_inv cd -> (ch < SOF_IPC_MAX_CHANNELS)%nat -> keeps cd (set_switch_elem cd ch val).
Proof. intros I Hc. unfold set_switch_elem. destruct (val =? 0); [by apply volume_set_chan_mute_ok|by apply volume_set_chan_unmute_ok]. Qed.

Lemma set_elems_ok f n j chanv cd :
  (forall cd ch val, vol_inv cd -> (ch < SOF_IPC_MAX_CHANNELS)%nat -> keeps cd (f cd ch val)) ->
  Forall (fun e => 0 <= e.1) chanv -> (j + n <= length chanv)%nat -> vol_inv cd ->
  exists cd' ret, set_elems f n j chanv cd = Some (cd', ret) /\ vol_inv cd' /\ same_run cd cd'.
Proof.
  intros Hf Hch. revert j cd. induction n as [|n IH]; intros j cd Hj I; cbn [set_elems]; [by eexists cd, 0; auto with sof|].
  destruct (lookup_lt_is_Some_2 chanv j) as [e Ee]; [lia|]. rewrite Ee. cbn [mbind option_bind].
  pose proof (Forall_lookup_1 _ _ _ _ Hch Ee). destruct (Z.geb_spec e.1 (Z.of_nat SOF_IPC_MAX_CHANNELS)); [by eexists cd, _; auto with sof|].
  destruct (Hf cd (Z.to_nat e.1) e.2 I) as (cd1 & -> & I1 & S1); [lia|]. cbn [mbind option_bind].
  destruct (IH (S j) cd1) as (cd' & ret & E & I' & S'); [lia|done|]. exists cd', ret. split_and!; [done|done|by eapply same_run_trans].
Qed.

Lemma moving_ready cd c t : ramp_conf cd -> moving_chan cd t c -> ready_chan cd t c.
Proof.
  intros K (C & W & T). split_and!; [done|done|]. intros Hne. specialize (T Hne). pose proof (rc_initial _ K). destruct (vd_ramp_func cd); lia.
Qed.

(** In which states the data is how. *)
Record vol_state (state : Z) (cd : vol_data) : Prop := {
  vt_inv : vol_inv cd;
  vt_idle : state = COMP_STATE_READY -> vd_vol_ramp_active cd = false;
  vt_stream : state <> COMP_STATE_READY -> vol_stream cd
}.

Lemma same_run_state state cd cd' : vol_state state cd -> same_run cd cd' -> vol_inv cd' -> vol_state state cd'.
Proof.
  intros [_ H1 H2] S I. constructor; [done| |intros Hs; eapply same_setup_stream, H2; auto with sof].
  destruct S as (l & e & ->). exact H1.
Qed.

Lemma set_finished_inv cd f : vol_inv cd -> vd_vol_ramp_active cd = false -> vol_inv (set_ramp cd (vd_vol_ramp_active cd) f).
Proof. intros [K Hl HF Hch He Ha Hw] E. constructor; simpl; try done; [by destruct K; constructor|by rewrite E]. Qed.

Lemma set_ramp_setup cd a f : same_setup cd (set_ramp cd a f).
Proof. exists (vd_chan cd), (vd_vol_ramp_elapsed_frames cd), a, f. by destruct cd. Qed.

Lemma start_ramp_ok pmc state cd :
  vol_state state cd -> exists cd', start_ramp pmc state cd = Some cd' /\ vol_state state cd' /\ same_setup cd cd'.
Proof.
  intros V. pose proof V as [I Hidle Hstr]. unfold start_ramp. destruct (vd_vol_ramp_active cd) eqn:Ea; [exists cd; by auto with sof|].
  set (cd0 := set_ramp cd false false). assert (vol_inv cd0) as I0 by (unfold cd0; rewrite <- Ea; by apply set_finished_inv).
  pose proof I0 as [K Hl HF Hch He Ha Hw]. pose proof (set_ramp_setup cd false false) as S0. fold cd0 in S0.
  destruct (decide (state = COMP_STATE_READY)) as [Es|Es].
  - destruct (volume_ramp_idle pmc state cd0 K Hl HF Hch He Es) as (cd' & E & I' & R & _ & Hact & _); [done|done|].
    exists cd'. split_and!; [done|by constructor|eapply same_setup_trans; [exact S0|by apply ramped_same_setup]].
  - destruct (volume_ramp_ok pmc state cd0 K Hl HF Hch He eq_refl Es) as (cd' & E & I' & R & _).
    { by apply (same_setup_stream _ _ S0); apply Hstr. }
    { intros i c Hi Hc. apply moving_ready; [done|]. by apply (Hw i c). }
    exists cd'. apply ramped_same_setup in R. pose proof (same_setup_trans _ _ _ S0 R) as S.
    split_and!; [done| |done]. constructor; [done|done|]. intros _. by eapply same_setup_stream, Hstr.
Qed.

(** The elements of a control are unsigned and as many as it says. *)
Definition ctrl_ok (cdata : vol_ctrl) : Prop :=
  Forall (fun e => 0 <= e.1) (ct_chanv cdata) /\ 0 <= ct_num_elems cdata <= Z.of_nat (length (ct_chanv cdata)).

Lemma volume_ctrl_set_cmd_ok pmc state cd cdata :
  vol_state state cd -> ctrl_ok cdata ->
  exists cd' ret, volume_ctrl_set_cmd pmc state cd cdata = Some (cd', ret) /\ vol_state state cd' /\ same_setup cd cd'.
Proof.
  intros V [Hch Hn]. pose proof V as [I Hidle Hstr]. unfold volume_ctrl_set_cmd. case_if; [by exists cd, (- EINVAL); auto with sof|].
  assert (forall f, (forall cd ch val, vol_inv cd -> (ch < SOF_IPC_MAX_CHANNELS)%nat -> keeps cd (f cd ch val)) ->
    exists cd' ret, (r ← set_elems f (Z.to_nat (ct_num_elems cdata)) 0 (ct_chanv cdata) cd;
      let '(cd, ret) := r in if negb (ret =? 0) then Some (cd, ret) else cd ← start_ramp pmc state cd; Some (cd, 0)) = Some (cd', ret) /\
      vol_state state cd' /\ same_setup cd cd') as Hrun.
  { intros f Hf. destruct (set_elems_ok f (Z.to_nat (ct_num_elems cdata)) 0 (ct_chanv cdata) cd Hf Hch) as (cd1 & ret & -> & I1 & S1); [lia|done|].
    cbn [mbind option_bind]. pose proof (same_run_state _ _ _ V S1 I1) as V1. apply same_run_setup in S1.
    case_if; [by exists cd1, ret|]. destruct (start_ramp_ok pmc state cd1 V1) as (cd2 & -> & V2 & S2). cbn [mbind option_bind].
    eexists _, _. split_and!; [done|done|by eapply same_setup_trans]. }
  case_if; [apply Hrun, set_volume_elem_ok|]. case_if; [apply Hrun, set_switch_elem_ok|]. by exists cd, (- EINVAL); auto with sof.
Qed.

(** ** The start of a stream *)

(** The channels begin at the lowest gain, on their way to the targets. *)
Lemma prepare_channels_ok n i cd :
  ramp_conf cd -> length (vd_chan cd) = SOF_IPC_MAX_CHANNELS -> Forall chan_ok (vd_chan cd) -> (i + n <= SOF_IPC_MAX_CHANNELS)%nat ->
  exists l e f, prepare_channels n i cd = Some (set_ramp (set_elapsed (set_chans cd l) e) (vd_vol_ramp_active cd) f) /\
    length l = SOF_IPC_MAX_CHANNELS /\ Forall chan_ok l /\ (e = if decide (n = 0%nat) then vd_vol_ramp_elapsed_frames cd else 0) /\
    (forall k, ~ (i <= k < i + n)%nat -> l !! k = vd_chan cd !! k) /\
    (forall k c, (i <= k < i + n)%nat -> l !! k = Some c -> on_way (vd_ramp_func cd) c /\ vc_volume c = vd_vol_min cd /\
       exists c0, vd_chan cd !! k = Some c0 /\ vc_tvolume c = vc_tvolume c0).
Proof.
  intros K Hl HF. revert i cd K Hl HF. induction n as [|n IH]; intros i cd K Hl HF Hi; cbn [prepare_channels].
  { exists (vd_chan cd), (vd_vol_ramp_elapsed_frames cd), (vd_ramp_finished cd). split_and!; [by destruct cd|done..|lia]. }
  destruct (lookup_lt_is_Some_2 (vd_chan cd) i) as [c Ec]; [lia|]. rewrite Ec. cbn [mbind option_bind].
  pose proof (Forall_lookup_1 _ _ _ _ HF Ec) as C. set (cd1 := set_chans cd (<[i := set_volume c (vd_vol_min cd)]> (vd_chan cd))).
  assert (ramp_conf cd1) as K1 by (destruct K; by constructor).
  destruct (set_chan_core cd1 i (vc_tvolume c) false (set_volume c (vd_vol_min cd)) K1) as (c' & E & C' & W' & Et & Ev).
  { simpl. rewrite list_lookup_insert_eq by lia. done. }
  { destruct C. constructor; try done. apply K. }
  rewrite E. cbn [mbind option_bind]. simpl vd_chan. rewrite list_insert_insert_eq, list_lookup_insert_eq by lia. cbn [mbind option_bind].
  set (l1 := <[i := c']> (vd_chan cd)). set (cd2 := if negb _ then _ else _).
  assert (exists f, cd2 = set_ramp (set_elapsed (set_chans cd l1) 0) (vd_vol_ramp_active cd) f) as (f & E2).
  { unfold cd2. case_if; eexists; [reflexivity|]. instantiate (1 := vd_ramp_finished cd). by destruct cd. }
  clearbody cd2. subst cd2.
  destruct (IH (S i) (set_ramp (set_elapsed (set_chans cd l1) 0) (vd_vol_ramp_active cd) f)) as (l & e & f' & E' & Hl' & HF' & He & Hout & Hin).
  { destruct K; by constructor. }
  { simpl. unfold l1. by rewrite length_insert. }
  { simpl. unfold l1. by apply Forall_insert. }
  { lia. }
  exists l, e, f'. split_and!; [exact E'|done|done|rewrite He; simpl; by case_decide| |].
  - intros k Hk. rewrite Hout by lia. simpl. unfold l1. by rewrite list_lookup_insert_ne by lia.
  - intros k d Hk Hd. destruct (decide (k = i)) as [->|Hne].
    + rewrite Hout in Hd by lia. simpl in Hd. unfold l1 in Hd. rewrite list_lookup_insert_eq in Hd by lia. simplify_eq.
      split_and!; [done|done|]. exists c. split; [done|]. rewrite Et. destruct (ck_tvolume _ C). unfold clamp_gain. lia.
    + destruct (Hin k d ltac:(lia) Hd) as (W & V & c0 & Hc0 & Ht). split_and!; [done|done|]. exists c0. simpl in Hc0. unfold l1 in Hc0.
      by rewrite list_lookup_insert_ne in Hc0 by lia.
Qed.

(** The data is complete, and the component may be anywhere. *)
Lemma prepared_state cd l e f state :
  ramp_conf cd -> vol_stream cd -> 0 < vd_channels cd <= Z.of_nat SOF_IPC_MAX_CHANNELS -> vd_vol_ramp_active cd = false ->
  length l = SOF_IPC_MAX_CHANNELS -> Forall chan_ok l -> e = 0 ->
  (forall k c, Z.of_nat k < vd_channels cd -> l !! k = Some c -> on_way (vd_ramp_func cd) c) ->
  vol_state state (set_ramp (set_elapsed (set_chans cd l) e) (vd_vol_ramp_active cd) f).
Proof.
  intros K S Hch Ha Hl HF -> Hw. assert (same_setup cd (set_ramp (set_elapsed (set_chans cd l) 0) (vd_vol_ramp_active cd) f)) as Hs by (by eexists _, _, _, _).
  constructor; [|done|intros _; by eapply same_setup_stream]. constructor; simpl; try done.
  - by eapply same_setup_conf.
  - lia.
  - by rewrite Ha.
  - intros i c Hi Hc. unfold moving_chan. rewrite ramp_time_0 by done. split_and!; [by eapply Forall_lookup_1|by eapply Hw|exact (start_in_time cd c K)].
Qed.

(** Without a stream the channels are not in use. *)
Lemma reset_state_ok pmc cd : vol_inv cd -> vol_state COMP_STATE_READY (reset_state pmc cd).
Proof.
  intros [K Hl HF Hch He Ha Hw]. constructor; [|done|done]. constructor; simpl; try done.
  - destruct K. by constructor.
  - rewrite length_app, length_fmap, length_take, length_drop. lia.
  - apply Forall_app. split; [|by apply Forall_drop]. apply Forall_fmap. eapply Forall_impl; [by apply Forall_take|].
    intros c []. by constructor.
  - intros i c Hi. lia.
Qed.

(** ** Chunks *)

(** The time after a chunk. *)
Lemma chunk_ready cd n c :
  vol_inv cd -> vol_stream cd -> 0 <= n <= vd_vol_ramp_frames cd -> moving_chan cd (ramp_time_of cd) c ->
  ready_chan cd (ramp_time_of (set_elapsed cd (u32 (vd_vol_ramp_elapsed_frames cd + n)))) c.
Proof.
  intros I S Hn (C & W & T). split_and!; [done|done|]. intros Hne. specialize (T Hne). pose proof S as [Hr Hf Hst Hfd].
  pose proof (ramp_time_step cd n Hr ltac:(lia) ltac:(apply I)) as Ht. set (t := ramp_time_of cd) in *.
  set (t' := ramp_time_of (set_elapsed _ _)) in *.
  destruct (ramp_time_bound cd Hr) as [_ Ht0]. fold t in Ht0.
  assert (forall x, n * 8000 < x * vd_sample_rate cd -> n * 8000 / vd_sample_rate cd <= x - 1) as Hdiv.
  { intros x Hx. assert (n * 8000 / vd_sample_rate cd < x) by (apply Z.div_lt_upper_bound; lia). lia. }
  destruct (vd_ramp_func cd) eqn:E; [done| |].
  - specialize (Hdiv 401 ltac:(nia)). assert (Z.abs (vc_ramp_coef c) <= SLOPE) as Hk.
    { destruct W as [Wu Wd]. destruct (Z.lt_ge_cases (vc_volume c) (vc_tvolume c)) as [Hlt|Hge].
      - destruct (Wu Hlt) as [_ Hk]. specialize (Hk eq_refl). lia.
      - destruct (Wd ltac:(lia)) as [_ Hk]. specialize (Hk eq_refl). lia. }
    pose proof (Z.abs_nonneg (vc_ramp_coef c)). generalize dependent (Z.abs (vc_ramp_coef c)). intros k T Hk Hk0.
    assert (t' * k <= (t + 401) * k) by (apply Z.mul_le_mono_nonneg_r; lia). lia.
  - specialize (Hfd eq_refl). specialize (Hdiv (8 * vd_initial_ramp cd) ltac:(nia)). lia.
Qed.

Lemma chunk_ramp_ok pmc state cd n :
  vol_state state cd -> state <> COMP_STATE_READY -> 0 <= n -> (vd_ramp_finished cd = false -> n <= vd_vol_ramp_frames cd) ->
  exists cd', chunk_ramp pmc state cd n = Some cd' /\ vol_state state cd' /\ same_setup cd cd' /\
    (vd_ramp_finished cd = true -> cd' = cd) /\
    (vd_ramp_finished cd = false -> (vd_ramp_finished cd' = true <-> arrived cd') /\ vd_vol_ramp_active cd' = negb (vd_ramp_finished cd') /\
      let t := ramp_time_of (if vd_vol_ramp_active cd then set_elapsed cd (u32 (vd_vol_ramp_elapsed_frames cd + n)) else cd) in
      ramp_time_of cd' = t /\
      vd_vol_ramp_elapsed_frames cd' = (if vd_vol_ramp_active cd then u32 (vd_vol_ramp_elapsed_frames cd + n) else vd_vol_ramp_elapsed_frames cd) /\
      forall i c, Z.of_nat i < vd_channels cd -> vd_chan cd !! i = Some c -> ready_chan cd t c /\
         exists c' more, vd_chan cd' !! i = Some c' /\ ramp_channel cd t c = Some (c', more)).
Proof.
  intros V Hst Hn Hle. pose proof V as [I _ Hs]. specialize (Hs Hst). pose proof I as [K Hl HF Hch He Ha Hw]. unfold chunk_ramp.
  set (cd1 := if vd_vol_ramp_active cd then _ else _).
  assert (same_setup cd cd1 /\ vd_chan cd1 = vd_chan cd /\ vd_channels cd1 = vd_channels cd /\ vd_ramp_finished cd1 = vd_ramp_finished cd /\
    0 <= vd_vol_ramp_elapsed_frames cd1 < 2 ^ 32) as (S1 & E1 & E2 & E3 & E4).
  { unfold cd1. destruct (vd_vol_ramp_active cd); simpl; split_and!; auto with sof; try apply He.
    - exists (vd_chan cd), (u32 (vd_vol_ramp_elapsed_frames cd + n)), (vd_vol_ramp_active cd), (vd_ramp_finished cd). by destruct cd.
    - apply Z.mod_pos_bound. lia.
    - apply Z.mod_pos_bound. lia. }
  rewrite E3. destruct (vd_ramp_finished cd) eqn:Ef; simpl negb; cbv iota.
  { destruct (vd_vol_ramp_active cd) eqn:Eact; [by specialize (Ha eq_refl)|]. exists cd1. unfold cd1. split_and!; auto with sof. done. }
  assert (forall i c, Z.of_nat i < vd_channels cd -> vd_chan cd !! i = Some c -> ready_chan cd (ramp_time_of cd1) c) as Hrd.
  { intros i c Hi Hc. specialize (Hw i c Hi Hc). unfold cd1. destruct (vd_vol_ramp_active cd); [apply chunk_ready; auto; lia|by apply moving_ready]. }
  pose proof (same_setup_conf _ _ S1 K) as K1.
  destruct (volume_ramp_ok pmc state cd1 K1) as (cd' & E & I' & R & Hfin & Hact & Hc'); rewrite ?E1, ?E2; try done.
  { apply (same_setup_stream _ _ S1 Hs). }
  { intros i c Hi Hc. destruct (Hrd i c Hi Hc) as (C & W & N). by destruct S1 as (l & e & a & f & ->). }
  assert (same_setup cd cd') as S by (eapply same_setup_trans; [exact S1|by apply ramped_same_setup]).
  exists cd'. split_and!; [done| |done|done|].
  - constructor; [done|done|]. intros _. by eapply same_setup_stream.
  - intros _. split_and!; [exact Hfin|done|by destruct R as (l & a & f & ->)| |].
    { destruct R as (l & a & f & ->). simpl. unfold cd1. by destruct (vd_vol_ramp_active cd). }
    intros i c Hi Hc. split; [by eapply Hrd|].
    destruct (Hc' i c) as (c' & more & H1 & H2); [by rewrite E2|by rewrite E1|]. exists c', more. split; [done|].
    rewrite <- H2. by destruct S1 as (l & e & a & f & ->).
Qed.
