(* ===== verification/VolumeReach.v ===== *)
(** * Ramps end

    The gain of every channel arrives at its target: a ramp of either shape takes no
    longer than twice the length that the topology gives it. *)

From stdpp Require Import base list numbers option gmap.
From S2P Require Import Prelude StateM AudioStream StreamCopy CompState Format SampleLoop ChannelLoop.
From S2P Require Import Volume VolumeRamp VolumeCtl.

(** ** Slopes *)

(** The slope of the ramp was computed for the way that it has to go. *)
Definition started (cd : vol_data) (c : vol_chan) : Prop :=
  vc_volume c <> vc_tvolume c -> vd_ramp_func cd = RampLinear ->
  exists constant_rate, vc_ramp_coef c = ramp_coef_of cd (vc_tvolume c - vc_rvolume c) constant_rate /\
    (constant_rate = true -> 0 < vd_vol_ramp_range cd -> Z.abs (vc_tvolume c - vc_rvolume c) <= vd_vol_ramp_range cd).

(** Twice the length of the ramp, in eighths of a millisecond. *)
Definition ramp_length (cd : vol_data) : Z := 16 * Z.max 1 (vd_initial_ramp cd).

(** A quotient that is rounded, divided by eight and rounded again is not too small. *)
Lemma slope_reaches x : 0 <= x -> 2 * x + 1 <= 32 * Z.max (Z.shiftr (Z.shiftr x 2 + 1) 1) 1.
Proof.
  intros Hx. rewrite !Z.shiftr_div_pow2 by lia. change (2 ^ 1) with 2. change (2 ^ 2) with 4.
  pose proof (Z.mul_succ_div_gt x 4). pose proof (Z.mul_succ_div_gt (x / 4 + 1) 2). lia.
Qed.

Lemma ramp_coef_reaches cd delta constant_rate t :
  ramp_conf cd -> - VOL_MAX <= delta <= VOL_MAX -> ramp_length cd <= t ->
  (constant_rate = true -> 0 < vd_vol_ramp_range cd -> Z.abs delta <= vd_vol_ramp_range cd) ->
  Z.abs delta <= t * Z.abs (ramp_coef_of cd delta constant_rate).
Proof.
  intros K Hd Ht Hcr. unfold ramp_length in Ht. unfold ramp_coef_of. set (d := if delta <? 0 then - delta else delta).
  assert (d = Z.abs delta) as Ed by (unfold d; destruct (Z.ltb_spec delta 0); lia). pose proof (rc_range _ K). pose proof (rc_initial _ K) as HR.
  set (R := vd_initial_ramp cd) in *. set (c := if R >? 0 then _ else d).
  enough (d <= 16 * Z.max 1 R * Z.max (Z.shiftr (Z.shiftr c 2 + 1) 1) 1) as H0.
  { rewrite <- Ed. set (k := Z.max _ 1) in *. assert (Z.abs (if delta <? 0 then - k else k) = k) as -> by (destruct (delta <? 0); lia). nia. }
  unfold c. destruct (Z.gtb_spec R 0) as [HR0|HR0].
  - assert (exists e, (if constant_rate && (vd_vol_ramp_range cd >? 0) then vd_vol_ramp_range cd else d) = e /\ d <= e <= VOL_MAX) as (e & -> & He).
    { eexists. split; [done|]. destruct constant_rate; simpl; [destruct (Z.gtb_spec (vd_vol_ramp_range cd) 0)|]; lia. }
    rewrite (i32_small (2 * e)), (u32_small (2 * e)) by lia. pose proof (Z.div_pos (2 * e) R ltac:(lia) ltac:(lia)).
    assert (2 * e / R <= 2 * e) by (apply Z.div_le_upper_bound; nia). rewrite u32_small by lia.
    rewrite (Z.shiftr_div_pow2 (2 * e / R + 1) 1) by lia. change (2 ^ 1) with 2.
    pose proof (Z.mul_div_le (2 * e / R + 1) 2 ltac:(lia)). pose proof (Z.div_pos (2 * e / R + 1) 2). rewrite i32_small by lia.
    set (x := (2 * e / R + 1) / 2) in *. pose proof (Z.mul_succ_div_gt (2 * e / R + 1) 2 ltac:(lia)) as Hx1. fold x in Hx1.
    pose proof (Z.mul_succ_div_gt (2 * e) R ltac:(lia)). assert (2 * e < R * (2 * x + 1)) by nia.
    pose proof (slope_reaches x ltac:(lia)) as Hx. nia.
  - pose proof (slope_reaches d ltac:(lia)) as Hx. nia.
Qed.

(** ** One step *)

Lemma ramp_channel_cases cd t c c' more :
  ramp_channel cd t c = Some (c', more) ->
  c' = c /\ vc_volume c = vc_tvolume c \/ c' = at_target c \/ vc_volume c <> vc_tvolume c /\ exists v, c' = set_volume c v /\ ramp_with cd c t = Some v.
Proof.
  unfold ramp_channel. destruct (Z.eqb_spec (vc_volume c) (vc_tvolume c)); [intros; simplify_eq; by left|].
  destruct (ramp_with cd c t) as [v|] eqn:E; [|done]. cbn [mbind option_bind]. repeat case_if; intros; simplify_eq; eauto 6.
Qed.

(** With enough time a channel arrives. *)
Lemma ramp_channel_arrives cd t c c' more :
  ramp_conf cd -> ready_chan cd t c -> started cd c -> ramp_length cd <= t < 2 ^ 31 ->
  ramp_channel cd t c = Some (c', more) -> vc_volume c' = vc_tvolume c'.
Proof.
  intros K (C & W & N) Hs Ht E. destruct (ramp_channel_cases _ _ _ _ _ E) as [[-> ?]|[->|(Hne & v & -> & Ev)]]; [done|done|].
  unfold ramp_length in Ht. pose proof (rc_initial _ K). pose proof C as [Cv Ct Cr _ _]. unfold is_gain in *.
  destruct (ramp_with_ok cd c t K C W N) as (v' & Ev' & Hup & Hdn & Hlin & Hfade); [lia|done|]. simplify_eq.
  assert (vc_volume c < vc_tvolume c -> vc_tvolume c <= v) as Hu.
  { intros Hlt. pose proof (rc_func _ K). destruct (vd_ramp_func cd) eqn:Ef; [done| |].
    - destruct (Hs Hne Ef) as (cr & Ek & Hr). pose proof (ramp_coef_reaches cd (vc_tvolume c - vc_rvolume c) cr t K ltac:(lia)) as H1.
      unfold ramp_length in H1. rewrite <- Ek in H1. specialize (H1 ltac:(lia) Hr). specialize (Hlin eq_refl).
      destruct W as [Wu _]. destruct (Wu Hlt) as [? Hk]. specialize (Hk eq_refl). rewrite (Z.abs_eq (vc_ramp_coef c)) in H1 by lia. lia.
    - rewrite Hfade by (done || lia). lia. }
  assert (vc_tvolume c < vc_volume c -> v <= vc_tvolume c) as Hd.
  { intros Hlt. pose proof (rc_func _ K). destruct (vd_ramp_func cd) eqn:Ef; [done| |].
    - destruct (Hs Hne Ef) as (cr & Ek & Hr). pose proof (ramp_coef_reaches cd (vc_tvolume c - vc_rvolume c) cr t K ltac:(lia)) as H1.
      unfold ramp_length in H1. rewrite <- Ek in H1. specialize (H1 ltac:(lia) Hr). specialize (Hlin eq_refl).
      destruct W as [_ Wd]. destruct (Wd Hlt) as [? Hk]. specialize (Hk eq_refl). rewrite (Z.abs_neq (vc_ramp_coef c)) in H1 by lia. lia.
    - rewrite Hfade by (done || lia). lia. }
  unfold ramp_channel in E. rewrite Ev in E. replace (vc_volume c =? vc_tvolume c) with false in E by lia. cbn [mbind option_bind] in E.
  destruct (Z.ltb_spec (vc_volume c) (vc_tvolume c)).
  - replace (v >=? vc_tvolume c) with true in E by (rewrite Z.geb_leb; lia). simpl in E. injection E as E _. by rewrite <- E.
  - replace (v <=? vc_tvolume c) with true in E by lia. simpl in E. destruct (v <=? 0); injection E as E _; by rewrite <- E.
Qed.

Lemma ramp_channel_started cd t c c' more : ramp_channel cd t c = Some (c', more) -> started cd c -> started cd c' /\ vc_tvolume c' = vc_tvolume c.
Proof.
  intros E Hs. destruct (ramp_channel_cases _ _ _ _ _ E) as [[-> ?]|[->|(Hne & v & -> & _)]]; [done|by split; [intros ?|]|].
  split; [|done]. intros _ Hl. by destruct (Hs Hne Hl) as (cr & ? & ?); exists cr.
Qed.

Lemma started_setup cd cd' c : same_setup cd cd' -> started cd c -> started cd' c.
Proof. by intros (l & e & a & f & ->) H. Qed.

(** ** The ramp *)

(** The ramp as chunks of frames go by. *)
Fixpoint ramp_run (pmc : nat) (state : Z) (cd : vol_data) (chunks : list Z) : option vol_data :=
  match chunks with
  | [] => Some cd
  | n :: chunks => cd ← chunk_ramp pmc state cd n; ramp_run pmc state cd chunks
  end.

Lemma ramp_run_finished pmc state cd chunks :
  vol_state state cd -> state <> COMP_STATE_READY -> vd_ramp_finished cd = true -> Forall (fun n => 0 < n) chunks ->
  ramp_run pmc state cd chunks = Some cd.
Proof.
  intros V Hst Hf Hc. induction Hc as [|n chunks Hn Hc IH]; cbn [ramp_run]; [done|].
  destruct (chunk_ramp_ok pmc state cd n V Hst ltac:(lia)) as (cd' & -> & _ & _ & H & _); [by rewrite Hf|]. rewrite H by done. done.
Qed.

Definition total (chunks : list Z) : Z := foldr Z.add 0 chunks.

Lemma total_nonneg chunks : Forall (fun n => 0 < n) chunks -> 0 <= total chunks.
Proof. induction 1; simpl in *; lia. Qed.

(** The channels in use keep their targets. *)
Definition same_targets (cd cd' : vol_data) : Prop :=
  forall i c, Z.of_nat i < vd_channels cd -> vd_chan cd !! i = Some c -> exists c', vd_chan cd' !! i = Some c' /\ vc_tvolume c' = vc_tvolume c.

(** The time from the elapsed frames, as long as it does not wrap. *)
Lemma ramp_time_exact cd e :
  1 < vd_sample_rate cd -> 0 <= e -> e * 8000 < 2 ^ 32 -> ramp_time_of (set_elapsed cd (u32 e)) = e * 8000 / vd_sample_rate cd.
Proof.
  intros Hr He Hlt. destruct (ramp_time_bound (set_elapsed cd (u32 e))) as [-> _]; [done|]. simpl. by rewrite (u32_small e), u32_small by lia.
Qed.

(** C27: A ramp that has begun ends within twice its configured length: when the
    chunks that go by add up to that (2 ms at least) and the count of frames is
    below 2^32 / 8000, where the product of the code wraps ([long_ramp_wraps]),
    every channel in use has the gain that was asked for, whichever shape the ramp
    has and wherever it stood; the ramp is marked as finished, no fault occurs on
    the way and the targets are those of the beginning. (The slope is rounded, so
    that the configured length alone need not be enough.) *)
Theorem volume_ramp_completes pmc state chunks cd :
  vol_state state cd -> state <> COMP_STATE_READY -> vd_ramp_finished cd = false -> vd_vol_ramp_active cd = true ->
  chunks <> [] -> Forall (fun n => 0 < n <= vd_vol_ramp_frames cd) chunks ->
  (vd_vol_ramp_elapsed_frames cd + total chunks) * 8000 < 2 ^ 32 ->
  ramp_length cd <= (vd_vol_ramp_elapsed_frames cd + total chunks) * 8000 / vd_sample_rate cd ->
  (forall i c, Z.of_nat i < vd_channels cd -> vd_chan cd !! i = Some c -> started cd c) ->
  exists cd', ramp_run pmc state cd chunks = Some cd' /\ vol_state state cd' /\ vd_ramp_finished cd' = true /\
    vd_vol_ramp_active cd' = false /\ arrived cd' /\ same_targets cd cd'.
Proof.
  intros V Hst. revert cd V. induction chunks as [|n chunks IH]; intros cd V Hf Ha Hne Hch Hmax Hlen Hs; [done|]. cbn [ramp_run].
  apply Forall_cons in Hch as [Hn Hch]. cbn [total foldr] in Hmax, Hlen. fold (total chunks) in Hmax, Hlen.
  assert (Forall (fun n => 0 < n) chunks) as Hpos by (eapply Forall_impl; [exact Hch|simpl; lia]). pose proof (total_nonneg _ Hpos) as Htot.
  pose proof (vs_rate _ (vt_stream _ _ V Hst)) as Hr. pose proof (vi_elapsed _ (vt_inv _ _ V)) as He.
  destruct (chunk_ramp_ok pmc state cd n V Hst ltac:(lia) ltac:(lia)) as (cd1 & -> & V1 & S1 & _ & H1). cbn [mbind option_bind].
  destruct (H1 Hf) as (Hfin & Hact & Et & Ee & Hc). rewrite Ha in Et, Ee, Hc.
  rewrite ramp_time_exact in Et, Hc by lia. set (t := (vd_vol_ramp_elapsed_frames cd + n) * 8000 / vd_sample_rate cd) in *.
  assert (vd_channels cd1 = vd_channels cd) as Ech by (by destruct S1 as (? & ? & ? & ? & ->)).
  assert (forall i c1, Z.of_nat i < vd_channels cd -> vd_chan cd1 !! i = Some c1 ->
    exists c more, vd_chan cd !! i = Some c /\ ready_chan cd t c /\ ramp_channel cd t c = Some (c1, more) /\ started cd c) as Hback.
  { intros i c1 Hi Hc1. pose proof (vi_channels _ (vt_inv _ _ V)). pose proof (vi_len _ (vt_inv _ _ V)).
    destruct (lookup_lt_is_Some_2 (vd_chan cd) i) as [c Ec]; [lia|]. destruct (Hc i c Hi Ec) as (R & c' & more & E1 & E2). simplify_eq.
    exists c, more. split_and!; [done..|]. by eapply Hs. }
  assert (same_targets cd cd1) as Hst1.
  { intros i c Hi Ec. destruct (Hc i c Hi Ec) as (_ & c' & more & E1 & E2). exists c'. split; [done|].
    by eapply ramp_channel_started; [|eapply Hs]. }
  destruct (vd_ramp_finished cd1) eqn:Ef1.
  { rewrite ramp_run_finished by done. exists cd1. split_and!; try done. by apply Hfin. }
  destruct chunks as [|n2 chunks].
  { exfalso. enough (false = true) by done. apply Hfin. intros i c1 Hi Hc1. rewrite Ech in Hi. destruct (Hback i c1 Hi Hc1) as (c & more & Ec & R & E & S).
    eapply ramp_channel_arrives; [apply (vt_inv _ _ V)|exact R|exact S| |exact E]. simpl in Hlen. rewrite Z.add_0_r in Hlen. fold t in Hlen.
    destruct (ramp_time_bound cd1) as [_ Hb]; [by destruct S1 as (? & ? & ? & ? & ->)|]. rewrite Et in Hb. lia. }
  rewrite u32_small in Ee by lia.
  destruct (IH cd1 V1) as (cd' & E & V' & F' & A' & Arr & Tg); try done.
  - by destruct S1 as (? & ? & ? & ? & ->).
  - rewrite Ee. lia.
  - rewrite Ee. destruct S1 as (? & ? & ? & ? & ->). unfold ramp_length in *. simpl in *. by rewrite <- Z.add_assoc.
  - intros i c1 Hi Hc1. rewrite Ech in Hi. destruct (Hback i c1 Hi Hc1) as (c & more & Ec & R & E & S).
    eapply started_setup; [exact S1|]. by eapply ramp_channel_started.
  - exists cd'. split_and!; try done. intros i c Hi Ec. destruct (Hst1 i c Hi Ec) as (c1 & Ec1 & T1).
    destruct (Tg i c1) as (c2 & Ec2 & T2); [by rewrite Ech|done|]. exists c2. split; [done|congruence].
Qed.

(** ** Examples *)

(** Two channels at 48 kHz on their way from 0 to full scale and half of it, with an
    update every [due] frames. *)
Definition demo_ramp (type initial_ramp due elapsed : Z) (v : list Z) : vol_data :=
  let coef t := if type =? SOF_VOLUME_WINDOWS_FADE then 0 else
    ramp_coef_of (mk_vol 0 [] 0 initial_ramp type 0 VOL_MAX 0 48 0 48000 2 true false VolS16 VolS16 (ramp_func_of type)) t false in
  let chan t v := mk_chan v t t 0 (coef t) false in
  mk_vol 900 ([chan 65536 (nth 0 v 0); chan 32768 (nth 1 v 0)] ++ replicate 6 (mk_chan 0 0 0 0 0 false)) 950 initial_ramp type 0 VOL_MAX 0 due
    elapsed 48000 2 true false VolS16 VolS16 (ramp_func_of type).

Lemma demo_ramp_state type due : 0 < due < 960 -> type = SOF_VOLUME_LINEAR \/ type = SOF_VOLUME_WINDOWS_FADE -> vol_state COMP_STATE_ACTIVE (demo_ramp type 20 due 0 []).
Proof.
  intros Hdue Ht. assert (ramp_conf (demo_ramp type 20 due 0 [])) as K.
  { destruct Ht as [-> | ->]; constructor; unfold is_gain; simpl; try done; lia. }
  assert (Forall chan_ok (vd_chan (demo_ramp type 20 due 0 []))) as HF.
  { destruct Ht as [-> | ->]; vm_compute vd_chan; repeat constructor; unfold is_gain, is_s32; simpl; lia. }
  constructor; [|done|].
  - constructor; try done.
    intros i c Hi Hc. split; [by eapply Forall_lookup_1|]. rewrite ramp_time_0 by done. split; [|exact (start_in_time _ c K)].
    destruct i as [|[|i]]; [| |simpl in Hi; lia]; destruct Ht as [-> | ->]; vm_compute in Hc; simplify_eq; split; simpl; try lia; try (intros; split; [lia|done || lia]).
  - intros _. destruct Ht as [-> | ->]; constructor; simpl; lia || done.
Qed.

Lemma volume_ramp_completes_witness :
  exists cd', ramp_run 8 COMP_STATE_ACTIVE (demo_ramp SOF_VOLUME_LINEAR 20 48 0 []) (replicate 40 48) = Some cd' /\ vol_state COMP_STATE_ACTIVE cd' /\
    vd_ramp_finished cd' = true /\ vd_vol_ramp_active cd' = false /\ arrived cd' /\ same_targets (demo_ramp SOF_VOLUME_LINEAR 20 48 0 []) cd'.
Proof.
  apply (volume_ramp_completes 8 COMP_STATE_ACTIVE (replicate 40 48) (demo_ramp SOF_VOLUME_LINEAR 20 48 0 [])); try done.
  - apply demo_ramp_state; [lia|by left].
  - apply Forall_replicate. simpl. lia.
  - intros i c Hi Hc _ _. exists false. split; [|done]. destruct i as [|[|i]]; [| |simpl in Hi; lia]; vm_compute in Hc; by simplify_eq.
Defined.

(** The gains in the middle and at the end, of both shapes. *)
Example demo_ramp_values :
  let gains r := (fun cd => (vc_volume <$> take 2 (vd_chan cd), vd_ramp_finished cd)) <$> r in
  gains (ramp_run 8 COMP_STATE_ACTIVE (demo_ramp SOF_VOLUME_LINEAR 20 48 0 []) (replicate 10 48)) = Some ([32800; 16400], false) /\
  gains (ramp_run 8 COMP_STATE_ACTIVE (demo_ramp SOF_VOLUME_LINEAR 20 48 0 []) (replicate 20 48)) = Some ([65536; 32768], true) /\
  gains (ramp_run 8 COMP_STATE_ACTIVE (demo_ramp SOF_VOLUME_WINDOWS_FADE 20 48 0 []) (replicate 10 48)) = Some ([19485; 9743], false) /\
  gains (ramp_run 8 COMP_STATE_ACTIVE (demo_ramp SOF_VOLUME_WINDOWS_FADE 20 48 0 []) (replicate 20 48)) = Some ([65536; 32768], true).
Proof. vm_compute. repeat split; reflexivity. Qed.

(** A ramp of 4 s at 192 kHz starts again when the product of the frames and 8000
    wraps at 32 bits. *)
Example long_ramp_wraps :
  let gain r := (fun cd => vc_volume <$> head (vd_chan cd)) <$> r in
  let cd := set_stream_info (demo_ramp SOF_VOLUME_LINEAR 4000 48 536784 [44732]) 2 192000 in
  gain (chunk_ramp 8 COMP_STATE_ACTIVE cd 48) = Some (Some 44736) /\
  gain (ramp_run 8 COMP_STATE_ACTIVE cd [48; 48]) = Some (Some 0).
Proof. vm_compute. split; reflexivity. Qed.
