(* ===== verification/VolumeCopy.v ===== *)
(** * One period of the volume component

    [volume_copy] of [src/audio/volume/volume.c] on queues of samples: the frames are
    scaled chunk by chunk, up to a zero crossing during a ramp, every chunk with the gains
    that the ramp has reached. *)

From stdpp Require Import base list numbers option gmap.
From S2P Require Import Prelude StateM AudioStream StreamCopy Heap HeapMap HeapSpec HeapFree HeapZones Allocator.
From S2P Require Import Buffer CompState Pipeline PipelineOps PipelineWalk PipelineThms PipelineLife Format.
From S2P Require Import SampleLoop PcmConvert PcmThms ChannelLoop Topology TopologyInv Driver SampleQueue ChannelCopy.
From S2P Require Import Mixer MixerThms MixerCopy Volume VolumeRamp VolumeCtl VolumeReach.

(** The format of the functions in the tables. *)
Inductive vol_fmt : vol_func -> pcm_fmt -> Prop :=
| vol_fmt_s16 : vol_fmt VolS16 FMT_S16
| vol_fmt_s24 : vol_fmt VolS24 FMT_S24
| vol_fmt_s32 : vol_fmt VolS32 FMT_S32.

(** A sample as it is in memory, as a signed number. *)
Definition signed (fmt : pcm_fmt) (x : Z) : Z :=
  match fmt with FMT_S16 => i16 x | FMT_S24 => sign_extend_s24 (i32 x) | _ => i32 x end.

Lemma signed_range fn fmt x : vol_fmt fn fmt -> is_s32 (signed fmt x) /\ Z.abs (signed fmt x) <= 2 ^ 31.
Proof.
  intros []; simpl.
  - pose proof (i16_range x). unfold is_s16, is_s32 in *. lia.
  - pose proof (sign_extend_range (i32 x)). unfold is_s24, is_s32 in *. lia.
  - pose proof (i32_range x). unfold is_s32 in *. lia.
Qed.

(** The sum of the channels of frame [i], added up from the last one. *)
Definition frame_sum (fmt : pcm_fmt) (nch : nat) (m : mem) (s : audio_stream) (i : nat) : Z :=
  foldr Z.add 0 ((fun j => signed fmt (sample fmt m s (i * nch + j))) <$> seq 0 nch).

Definition sign_change (a b : Z) : Prop := (a < 0 <-> 0 <= b).

Lemma lxor_sign a b : (Z.lxor a b <? 0) = true <-> sign_change a b.
Proof.
  unfold sign_change. rewrite Z.ltb_lt. split; intros H.
  - pose proof (Z.lxor_nonneg a b). destruct (Z.le_gt_cases 0 a), (Z.le_gt_cases 0 b); lia.
  - pose proof (Z.lxor_nonneg a b). destruct (Z.le_gt_cases 0 a), (Z.le_gt_cases 0 b); lia.
Qed.

(** The result [r] on frames with the sums [sum], from frame [n] backwards, [prev] being
    the sum behind them: the nearest change of sign, or [frames] without one. *)
Definition zc_result (sum : nat -> Z) (frames n : nat) (prev : Z) (r prev' : Z) : Prop :=
  let next i := if decide (i = n) then prev else sum i in
  (exists k, (0 < k <= n)%nat /\ r = Z.of_nat k /\ prev' = next k /\ sign_change (sum (k - 1)%nat) (next k) /\
     forall i, (k < i <= n)%nat -> ~ sign_change (sum (i - 1)%nat) (next i)) \/
  (r = Z.of_nat frames /\ prev' = next 0%nat /\ forall i, (0 < i <= n)%nat -> ~ sign_change (sum (i - 1)%nat) (next i)).

Section zc.
Context (fn : vol_func) (fmt : pcm_fmt) (nch : nat) (m : mem) (source : audio_stream) (wrap : Z -> Z).
Hypothesis Hfmt : vol_fmt fn fmt.
Hypothesis Hnch : 0 < Z.of_nat nch < 2 ^ 16.
Hypothesis Hs : samples_ok fmt (Z.of_nat nch) source.
Notation width := (Z.of_nat (fmt_width fmt)).
Notation value := (fun m a => signed fmt (load_le (fmt_width fmt) m a)).
(** The sum of a frame fits. *)
Hypothesis Hwrap : forall x, Z.abs x <= Z.of_nat nch * match fmt with FMT_S16 => 2 ^ 15 | _ => 2 ^ 31 end -> wrap x = x.

Lemma frag_sample k : 0 <= k -> width * k < s_size source ->
  audio_stream_get_frag source (s_r_ptr source) k width = Some (ring source (s_r_ptr source) (width * k)).
Proof using Hs.
  intros Hk Hlt. pose proof (so_wf _ _ _ Hs) as [G Hr _ _ _]. unfold audio_stream_get_frag. rewrite (Z.mul_comm k). apply audio_stream_wrap_ring; [done|done|lia].
Qed.

Lemma sample_bound k : Z.abs (signed fmt (sample fmt m source k)) <= match fmt with FMT_S16 => 2 ^ 15 | _ => 2 ^ 31 end.
Proof using Hfmt.
  clear Hs Hwrap Hnch. destruct Hfmt; simpl.
  - pose proof (i16_range (sample FMT_S16 m source k)). unfold is_s16 in *. lia.
  - pose proof (sign_extend_range (i32 (sample FMT_S24 m source k))). unfold is_s24 in *. lia.
  - pose proof (i32_range (sample FMT_S32 m source k)). lia.
Qed.

(** The channels below [j] of frame [i]. *)
Definition part_sum (i j : nat) : Z := foldr Z.add 0 ((fun c => signed fmt (sample fmt m source (i * nch + c))) <$> seq 0 j).

Lemma part_sum_S i j : part_sum i (S j) = part_sum i j + signed fmt (sample fmt m source (i * nch + j)).
Proof using Type.
  unfold part_sum. rewrite seq_S, fmap_app, foldr_app. simpl. generalize ((fun c => signed fmt (sample fmt m source (i * nch + c))) <$> seq 0 j).
  intros l. induction l; simpl; lia.
Qed.

Lemma zc_sum_ok j i sum :
  (j <= nch)%nat -> width * Z.of_nat ((i + 1) * nch) <= s_size source -> width * Z.of_nat ((i + 1) * nch) < 2 ^ 31 ->
  Z.abs sum <= Z.of_nat (nch - j) * match fmt with FMT_S16 => 2 ^ 15 | _ => 2 ^ 31 end ->
  zc_sum value width wrap j m source (u32 (Z.of_nat (i * nch + j) - 1)) sum = Some (sum + part_sum i j, u32 (Z.of_nat (i * nch) - 1)).
Proof using All.
  pose proof (width_pos fmt) as Hw. intros Hj Hsz H31. revert sum. induction j as [|j IH]; intros sum Hsum; cbn [zc_sum].
  { rewrite Nat.add_0_r. unfold part_sum. simpl. by rewrite Z.add_0_r. }
  assert (Z.of_nat (i * nch + j) < Z.of_nat ((i + 1) * nch)) by nia. assert (Z.of_nat (i * nch + j) < 2 ^ 31) by nia.
  replace (Z.of_nat (i * nch + S j) - 1) with (Z.of_nat (i * nch + j)) by lia. rewrite (u32_small (Z.of_nat (i * nch + j))) by lia.
  rewrite frag_sample by nia. cbn [mbind option_bind]. fold (sample fmt m source (i * nch + j)).
  pose proof (sample_bound (i * nch + j)) as Hb. set (v := signed fmt (sample fmt m source (i * nch + j))) in *.
  set (B := match fmt with FMT_S16 => 2 ^ 15 | _ => 2 ^ 31 end) in *. assert (0 < B) by (unfold B; destruct fmt; lia).
  assert (Z.abs (sum + v) <= Z.of_nat (nch - j) * B) as Hsv.
  { replace (Z.of_nat (nch - j)) with (Z.of_nat (nch - S j) + 1) by lia. lia. }
  rewrite Hwrap by (etransitivity; [exact Hsv|apply Z.mul_le_mono_nonneg_r; lia]).
  rewrite IH by (lia || done). rewrite part_sum_S. fold v. do 2 f_equal. lia.
Qed.

Lemma zc_loop_ok n frames prev :
  width * Z.of_nat (n * nch) <= s_size source -> width * Z.of_nat (n * nch) < 2 ^ 31 ->
  exists r prev', zc_loop value width wrap n m source (Z.of_nat frames) (Z.of_nat n) (u32 (Z.of_nat (n * nch) - 1)) prev = Some (r, prev') /\
    zc_result (frame_sum fmt nch m source) frames n prev r prev'.
Proof using All.
  pose proof (width_pos fmt) as Hw. revert prev. induction n as [|n IH]; intros prev Hsz H31; cbn [zc_loop].
  { eexists _, _. split; [done|]. right. split_and!; [done|done|lia]. }
  rewrite (so_channels _ _ _ Hs), Nat2Z.id. pose proof (zc_sum_ok nch n 0 ltac:(lia)) as E.
  replace ((n + 1) * nch)%nat with (S n * nch)%nat in E by lia. replace (n * nch + nch)%nat with (S n * nch)%nat in E by lia.
  rewrite E by (done || lia). cbn [mbind option_bind]. rewrite Z.add_0_l. change (part_sum n nch) with (frame_sum fmt nch m source n).
  destruct (Z.lxor (frame_sum fmt nch m source n) prev <? 0) eqn:Ex.
  - apply lxor_sign in Ex. eexists _, _. split; [done|]. left. exists (S n). rewrite decide_True by done.
    replace (S n - 1)%nat with n by lia. split_and!; try done; lia.
  - assert (~ sign_change (frame_sum fmt nch m source n) prev) as Hn by (rewrite <- lxor_sign; by rewrite Ex).
    replace (Z.of_nat (S n) - 1) with (Z.of_nat n) by lia.
    destruct (IH (frame_sum fmt nch m source n)) as (r & prev' & E' & R); [nia|nia|]. exists r, prev'. split; [done|].
    assert (forall i, (i <= n)%nat -> (if decide (i = S n) then prev else frame_sum fmt nch m source i) =
      (if decide (i = n) then frame_sum fmt nch m source n else frame_sum fmt nch m source i)) as Hnext.
    { intros i Hi. rewrite decide_False by lia. case_decide; by subst. }
    assert (forall k, (k <= n)%nat -> (forall i, (k < i <= n)%nat -> ~ sign_change (frame_sum fmt nch m source (i - 1))
        (if decide (i = n) then frame_sum fmt nch m source n else frame_sum fmt nch m source i)) ->
      forall i, (k < i <= S n)%nat -> ~ sign_change (frame_sum fmt nch m source (i - 1)) (if decide (i = S n) then prev else frame_sum fmt nch m source i)) as Hall.
    { intros k Hk H i Hi. destruct (decide (i = S n)) as [->|]; [by replace (S n - 1)%nat with n by lia|].
      pose proof (H i ltac:(lia)) as Hi'. rewrite <- Hnext in Hi' by lia. by rewrite decide_False in Hi' by done. }
    destruct R as [(k & Hk & -> & -> & Hc & Hrest)|(-> & -> & Hrest)].
    + left. exists k. rewrite Hnext by lia. split_and!; try done; try lia. apply Hall; [lia|done].
    + right. rewrite Hnext by lia. split_and!; try done. apply Hall; [lia|done].
Qed.
End zc.

(** ** The functions of the table *)

Lemma zc_with_ok fn fmt nch m source n prev :
  vol_fmt fn fmt -> 0 < Z.of_nat nch < 2 ^ 16 -> samples_ok fmt (Z.of_nat nch) source ->
  Z.of_nat (fmt_width fmt) * Z.of_nat (n * nch) <= s_size source ->
  exists r prev', zc_with fn m source (Z.of_nat n) prev = Some (r, prev') /\
    zc_result (frame_sum fmt nch m source) n n prev r prev'.
Proof.
  intros Hfmt Hnch Hs Hn. pose proof (size_small _ (so_wf _ _ _ Hs)) as Hsz.
  assert (exists wrap, zc_with fn = vol_zc_get (fun m a => signed fmt (load_le (fmt_width fmt) m a)) (Z.of_nat (fmt_width fmt)) wrap /\
    forall x, Z.abs x <= Z.of_nat nch * match fmt with FMT_S16 => 2 ^ 15 | _ => 2 ^ 31 end -> wrap x = x) as (wrap & E & Hwrap).
  { destruct Hfmt; eexists; (split; [reflexivity|]); intros x Hx; [apply i32_small|apply i64_small|apply i64_small]; lia. }
  rewrite E. unfold vol_zc_get. rewrite Nat2Z.id, (so_channels _ _ _ Hs), <- Nat2Z.inj_mul.
  by apply (zc_loop_ok fn fmt nch m source wrap); try done; lia.
Qed.

(** Between one frame and all of them. *)
Lemma zc_result_bounds sum n prev r prev' : (0 < n)%nat -> zc_result sum n n prev r prev' -> 0 < r <= Z.of_nat n.
Proof. intros Hn [(k & Hk & -> & _)|(-> & _)]; lia. Qed.

(** The sums on a list of samples. *)
Definition list_sum (fmt : pcm_fmt) (nch : nat) (xs : list Z) (i : nat) : Z :=
  foldr Z.add 0 (signed fmt <$> take nch (drop (i * nch) xs)).

Lemma samples_lookup fmt m s k : (k < length (samples fmt m s))%nat -> samples fmt m s !! k = Some (sample fmt m s k).
Proof. intros Hk. unfold samples in *. rewrite length_fmap, length_seq in Hk. by rewrite list_lookup_fmap, lookup_seq_lt. Qed.

Lemma frame_sum_list fmt nch m s n i :
  (i < n)%nat -> (n * nch <= length (samples fmt m s))%nat -> frame_sum fmt nch m s i = list_sum fmt nch (take (n * nch) (samples fmt m s)) i.
Proof.
  intros Hi Hn. unfold frame_sum, list_sum. f_equal. apply list_eq. intros j. rewrite !list_lookup_fmap.
  destruct (decide (j < nch)%nat) as [Hj|Hj].
  - assert (i * nch + j < n * nch)%nat by nia. rewrite lookup_seq_lt by done. rewrite lookup_take_lt by done. rewrite lookup_drop, lookup_take_lt by done.
    rewrite samples_lookup by lia. done.
  - rewrite (lookup_seq_ge 0) by lia. rewrite lookup_take_ge by lia. done.
Qed.

(** Only the frames that are looked at matter. *)
Lemma zc_result_ext sum sum' frames n prev r prev' :
  (forall i, (i < n)%nat -> sum i = sum' i) -> (0 < n)%nat -> zc_result sum frames n prev r prev' -> zc_result sum' frames n prev r prev'.
Proof.
  intros H Hn. unfold zc_result. assert (forall i, (i <= n)%nat -> (if decide (i = n) then prev else sum i) = (if decide (i = n) then prev else sum' i)) as Hx.
  { intros i Hi. case_decide; [done|]. apply H. lia. }
  intros [(k & Hk & -> & -> & Hc & Hr)|(-> & -> & Hr)]; [left; exists k|right].
  - rewrite <- (Hx k), <- (H (k - 1)%nat) by lia. split_and!; try done; try lia. intros i Hi. rewrite <- (Hx i), <- H by lia. by apply Hr.
  - rewrite <- Hx by lia. split_and!; try done. intros i Hi. rewrite <- (Hx i), <- H by lia. by apply Hr.
Qed.

(** ** Gains *)

(** A sample times a gain with 16 fractional bits, rounded and saturated. *)
Definition scaled (fmt : pcm_fmt) (gain x : Z) : Z :=
  let y := nearest (signed fmt x * gain) VOL_QXY_Y in
  match fmt with
  | FMT_S16 => clamp INT16_MIN INT16_MAX y
  | FMT_S24 => clamp INT24_MINVALUE INT24_MAXVALUE y
  | _ => clamp INT32_MIN INT32_MAX y
  end.

(** The multiplication of the functions of the table. *)
Definition vol_mult (fn : vol_func) (x vol : Z) : Z :=
  match fn with
  | VolS16 => q_multsr_sat_32x32_16 (i16 x) vol VOL_QXY_Y
  | VolS24 => vol_mult_s24_to_s24 (i32 x) vol
  | _ => q_multsr_sat_32x32 (i32 x) vol VOL_QXY_Y
  end.

Lemma scale_with_stream fn fmt :
  vol_fmt fn fmt -> scale_with fn = stream_run (vol_step (vol_mult fn)) (fmt_width fmt) (fmt_width fmt).
Proof. intros []; unfold scale_with, vol_s16_to_s16, vol_s24_to_s24, vol_s32_to_s32, vol_mult, fmt_width; reflexivity. Qed.

(** No gain makes the products too large for the multiplication. *)
Lemma vol_mult_scaled fn fmt x gain : vol_fmt fn fmt -> is_gain gain -> vol_mult fn x gain = scaled fmt gain x.
Proof.
  unfold is_gain. intros Hf Hg. destruct (signed_range fn fmt x Hf) as [Hs _].
  assert (is_s32 gain) as Hg32 by (unfold is_s32; lia).
  assert (forall y, Z.abs y <= 2 ^ 23 -> i32 (nearest (y * gain) 16) = nearest (y * gain) 16) as Hfit.
  { intros y Hy. apply i32_small. assert (- 2 ^ 46 <= y * gain <= 2 ^ 46) by nia. unfold nearest. change (2 ^ (16 - 1)) with (2 ^ 15).
    split; [apply Z.div_le_lower_bound; lia|apply Z.div_lt_upper_bound; lia]. }
  destruct Hf; simpl in *; unfold scaled, signed.
  - unfold q_multsr_sat_32x32_16. rewrite q_multsr_32x32_nearest, sat_int16_clamp by (done || lia). rewrite Hfit; [done|].
    pose proof (i16_range x). unfold is_s16 in *. lia.
  - unfold vol_mult_s24_to_s24, q_multsr_sat_32x32_24. rewrite q_multsr_32x32_nearest, sat_int24_clamp by (done || lia). rewrite Hfit; [done|].
    pose proof (sign_extend_range (i32 x)). unfold is_s24 in *. lia.
  - unfold q_multsr_sat_32x32. by rewrite q_multsr_32x32_nearest, sat_int32_clamp by (done || lia).
Qed.

(** Gains are channels whose state does not change. *)
#[export, refine] Instance vol_filter mult : ChannelFilter (vol_step mult) Z := {|
  fl_rep _ vol gain := vol = gain;
  fl_value gain x := mult x gain;
  fl_next gain _ := gain;
  fl_owns _ _ := False;
  fl_reads _ _ := False
|}.
Proof.
  - done.
  - done.
  - intros m t h x ->. by exists m, h.
Defined.

(** The gain of a channel. *)
Definition gain_of (cd : vol_data) (j : nat) : Z := default 0 (vc_volume <$> vd_chan cd !! j).

Lemma gain_of_range cd j : vol_inv cd -> is_gain (gain_of cd j).
Proof.
  intros I. unfold gain_of. destruct (vd_chan cd !! j) as [c|] eqn:E; simpl; [|unfold is_gain; lia].
  apply (Forall_lookup_1 _ _ _ _ (vi_chan _ I) E).
Qed.

(** Frames with the gains of their channels. *)
Definition scale (fmt : pcm_fmt) (nch : nat) (cd : vol_data) (xs : list Z) : list Z :=
  imap (fun k x => pattern fmt (scaled fmt (gain_of cd (k mod nch)) x)) xs.

Section run.
Context (fn : vol_func) (fmt : pcm_fmt) (nch : nat).
Hypothesis Hfmt : vol_fmt fn fmt.
Hypothesis Hnch : (0 < nch <= SOF_IPC_MAX_CHANNELS)%nat.
Notation width := (Z.of_nat (fmt_width fmt)).

Lemma gains_channels cd m source sink :
  vol_inv cd -> channels_ok (vol_step (vol_mult fn)) nch source sink m (vc_volume <$> vd_chan cd) (gain_of cd).
Proof using Hnch.
  intros I. pose proof (vi_len _ I). constructor; try done. intros j Hj.
  destruct (lookup_lt_is_Some_2 (vd_chan cd) j) as [c Hc]; [lia|]. exists (vc_volume c). unfold gain_of. rewrite list_lookup_fmap, Hc. done.
Qed.

(** The work of a chunk: [n] frames of the source are scaled into the sink. *)
Lemma scale_run_ok cd m source sink n :
  vol_inv cd -> frames_io fmt fmt nch source sink -> width * (Z.of_nat n * Z.of_nat nch) <= s_free sink ->
  width * (Z.of_nat n * Z.of_nat nch) <= s_avail source ->
  exists m' F, scale_with fn m (vc_volume <$> vd_chan cd) source sink (Z.of_nat n) (Z.of_nat nch) = Some (m', vc_volume <$> vd_chan cd) /\
    stored (fmt_width fmt) sink (s_w_ptr sink) F m m' (n * nch) /\
    (fun i => pattern fmt (F i)) <$> seq 0 (n * nch) = scale fmt nch cd (take (n * nch) (samples fmt m source)) /\
    (forall a, ~ in_ring sink a -> m' a = m a).
Proof using All.
  intros I Hio Hfree Hav. pose proof (gains_channels cd m source sink I) as C. pose proof (io_source _ _ _ _ _ Hio) as Ks. pose proof (width_pos fmt).
  destruct (io_run fmt fmt nch ltac:(lia) (vol_step (vol_mult fn)) source sink m _ _ n Hio C Hfree) as (m' & ts' & E & P & St & Hm).
  assert (ts' = vc_volume <$> vd_chan cd) as ->.
  { apply list_eq. intros j. destruct (decide (j < nch)%nat) as [Hj|Hj]; [|apply (pg_rest _ _ _ _ _ _ _ _ _ _ _ _ _ _ P); lia].
    destruct (co_rep _ _ _ _ _ _ _ C j Hj) as (t & Ht & Er). destruct (pg_chan _ _ _ _ _ _ _ _ _ _ _ _ _ _ P j t Hj Ht) as (t' & Ht' & Er' & _).
    rewrite Ht, Ht'. simpl in Er, Er'. f_equal. rewrite Er, Er'. clear. induction n; simpl; [done|exact IHn]. }
  assert (forall a, ~ in_ring sink a -> m' a = m a) as Hm'.
  { intros a Ha. apply Hm; [done|]. by intros (j & t & _ & _ & []). }
  exists m', (frame_sample (vol_step (vol_mult fn)) (fmt_width fmt) nch source (s_r_ptr source) m (gain_of cd)).
  split_and!; [by rewrite (scale_with_stream fn fmt Hfmt)| |  |done].
  - eapply stored_base; [exact St|]. intros a. unfold sink_base. case_if; [done|]. apply Hm'. unfold in_ring. lia.
  - pose proof (samples_length fmt nch m source n Ks Hav) as Hle.
    apply list_eq. intros k. unfold scale. rewrite list_lookup_imap, list_lookup_fmap. destruct (decide (k < n * nch)%nat) as [Hk|Hk].
    + rewrite lookup_seq_lt, lookup_take_lt, samples_lookup by lia. simpl. do 2 f_equal. rewrite <- (vol_mult_scaled fn) by (done || by apply gain_of_range).
      unfold frame_sample, chan_out. simpl.
      assert (forall i, chan_state (vol_step (vol_mult fn)) (fmt_width fmt) nch source (s_r_ptr source) m (gain_of cd) (k mod nch) i = gain_of cd (k mod nch)) as ->
        by (intros i; induction i; simpl; done).
      f_equal. unfold chan_in, src_at, sample. do 2 f_equal. pose proof (Nat.div_mod_eq k nch). nia.
    + rewrite (lookup_seq_ge 0) by lia. rewrite lookup_take_ge by lia. done.
Qed.
End run.

(** ** The chunks of a period *)

Section period.
Context (PLATFORM_MAX_CHANNELS : nat) (fn : vol_func) (fmt : pcm_fmt) (nch : nat) (state : Z).

(** How many of the [frames] frames [xs] are processed at once: all without a ramp or
    when the ramp is not due, otherwise up to the next change of the gain, or the
    zero crossing next to it. *)
Definition chunk_rule (cd : vol_data) (xs : list Z) (frames : nat) (prev : Z) (n : nat) (prev' : Z) : Prop :=
  if vd_ramp_finished cd || (vd_vol_ramp_frames cd >? Z.of_nat frames) then n = frames /\ prev' = prev
  else if vd_ramp_type cd =? SOF_VOLUME_LINEAR_ZC then
    let due := Z.to_nat (vd_vol_ramp_frames cd) in zc_result (list_sum fmt nch xs) due due prev (Z.of_nat n) prev'
  else Z.of_nat n = vd_vol_ramp_frames cd /\ prev' = prev.

(** From the gains [cd] the frames [xs] become [out]: chunk after chunk is scaled with
    the gains of its time, and the ramp moves on. *)
Inductive vol_period : Z -> vol_data -> list Z -> vol_data -> list Z -> Prop :=
| vp_end prev cd : vol_period prev cd [] cd []
| vp_chunk prev cd xs frames n prev' cd1 cd' out :
    length xs = (frames * nch)%nat -> (0 < n <= frames)%nat -> chunk_rule cd xs frames prev n prev' ->
    chunk_ramp PLATFORM_MAX_CHANNELS state cd (Z.of_nat n) = Some cd1 ->
    vol_period prev' cd1 (drop (n * nch) xs) cd' out ->
    vol_period prev cd xs cd' (scale fmt nch cd (take (n * nch) xs) ++ out).

Context (Hfmt : vol_fmt fn fmt) (Hnch : (0 < nch <= SOF_IPC_MAX_CHANNELS)%nat).
Notation width := (Z.of_nat (fmt_width fmt)).

Lemma chunk_frames_ok cd m source frames prev :
  vol_stream cd -> vd_zc_get cd = fn -> samples_ok fmt (Z.of_nat nch) source -> (0 < frames)%nat ->
  width * (Z.of_nat frames * Z.of_nat nch) <= s_avail source ->
  exists n prev', chunk_frames cd m source (Z.of_nat frames) prev = Some (Z.of_nat n, prev') /\ (0 < n <= frames)%nat /\
    (vd_ramp_finished cd = false -> Z.of_nat n <= vd_vol_ramp_frames cd) /\
    chunk_rule cd (take (frames * nch) (samples fmt m source)) frames prev n prev'.
Proof using Hfmt Hnch.
  intros S Ez K Hf Hav. pose proof (vs_frames _ S) as Hrf. unfold chunk_frames, chunk_rule. pose proof (width_pos fmt).
  destruct (vd_ramp_finished cd || (vd_vol_ramp_frames cd >? Z.of_nat frames)) eqn:E.
  { exists frames, prev. split_and!; try done. intros Hr. rewrite Hr in E. simpl in E. lia. }
  apply orb_false_iff in E as [_ E]. set (due := vd_vol_ramp_frames cd) in *.
  destruct (vd_ramp_type cd =? SOF_VOLUME_LINEAR_ZC).
  - rewrite Ez. set (k := Z.to_nat due). assert (Z.of_nat k = due /\ (k <= frames)%nat) as [Ek Hk] by lia.
    destruct (so_wf _ _ _ K) as [_ _ Ha Hfr _].
    destruct (zc_with_ok fn fmt nch m source k prev Hfmt) as (r & prev' & E' & R); [lia|done|nia|]. rewrite Ek in E'. rewrite E'.
    pose proof (zc_result_bounds _ k _ _ _ ltac:(lia) R). exists (Z.to_nat r), prev'. rewrite Z2Nat.id by lia.
    split_and!; [done|lia|lia|lia|]. eapply zc_result_ext; [|lia|exact R]. intros i Hi. apply frame_sum_list; [lia|by eapply samples_length].
  - exists (Z.to_nat due), prev. rewrite Z2Nat.id by lia. split_and!; try done; lia.
Qed.

Context {A : Type} `{!Allocator A}.
Implicit Types (w : world A) (x : gmap Z vol_data).

Lemma copy_chunks_ok fuel w x dev d cd sa ka b k frames prev :
  io_graph w x dev d cd sa ka b k -> d_state d = state -> state <> COMP_STATE_READY -> vol_state state cd ->
  vd_scale_vol cd = fn -> vd_zc_get cd = fn -> frames_io fmt fmt nch (b_stream b) (b_stream k) ->
  width * (Z.of_nat frames * Z.of_nat nch) <= s_avail (b_stream b) -> width * (Z.of_nat frames * Z.of_nat nch) <= s_free (b_stream k) ->
  (frames < fuel)%nat ->
  wp (copy_chunks PLATFORM_MAX_CHANNELS fuel dev sa ka (width * Z.of_nat nch) (width * Z.of_nat nch) (Z.of_nat frames) prev) (w, x)
    (fun s _ => exists m' tr cd' b' k' out, s = (io_world w sa ka b' k' m' tr, <[dev := cd']> x) /\
      vol_state state cd' /\ same_setup cd cd' /\ frames_io fmt fmt nch (b_stream b') (b_stream k') /\
      (forall m1, samples fmt m1 (b_stream b') = drop (frames * nch) (samples fmt m1 (b_stream b))) /\
      samples fmt m' (b_stream k') = samples fmt (w_mem w) (b_stream k) ++ out /\
      vol_period prev cd (take (frames * nch) (samples fmt (w_mem w) (b_stream b))) cd' out /\
      s_rate (b_stream k') = s_rate (b_stream k) /\ (forall a, ~ in_ring (b_stream k) a -> m' a = w_mem w a)).
Proof using All.
  intros G Ed Hst. revert w x cd b k frames prev G. induction fuel as [|fuel IH]; intros w x cd b k frames prev G V Es Ez Hio Hav Hfree Hfuel; [lia|].
  cbn [copy_chunks]. pose proof G as [Hd Hx Hsa Hka Hb Hk Hne]. destruct (Z.eqb_spec (Z.of_nat frames) 0) as [E0|E0].
  { assert (frames = 0)%nat as -> by lia. drv_step. exists (w_mem w), (w_trace w), cd, b, k, []. rewrite io_world_id by done.
    rewrite insert_id, app_nil_r by done. split_and!; auto with sof. constructor. }
  pose proof V as [I _ Hstr]. specialize (Hstr Hst). pose proof (io_source _ _ _ _ _ Hio) as Ks. pose proof (io_sink _ _ _ _ _ Hio) as Kk.
  pose proof (width_pos fmt) as Hw. pose proof (size_small _ (so_wf _ _ _ Ks)) as Hsz. pose proof (so_wf _ _ _ Ks) as [_ _ Ha1 Ha2 _].
  destruct (chunk_frames_ok cd (w_mem w) (b_stream b) frames prev Hstr Ez Ks ltac:(lia) Hav) as (n & prev' & En & Hn & Hdue & Hrule).
  assert (forall y, width * (Z.of_nat frames * Z.of_nat nch) <= y -> width * (Z.of_nat n * Z.of_nat nch) <= y) as Hle by (intros; nia).
  destruct (scale_run_ok fn fmt nch Hfmt Hnch cd (w_mem w) (b_stream b) (b_stream k) n I Hio) as (m1 & F & Er & St & Eout & Hm1); [auto..|].
  destruct (chunk_ramp_ok PLATFORM_MAX_CHANNELS state cd (Z.of_nat n) V Hst ltac:(lia) Hdue) as (cd1 & Ec & V1 & S1 & _).
  assert (u32 (Z.of_nat n * (width * Z.of_nat nch)) = width * Z.of_nat (n * nch)) as Eu by (rewrite u32_small by nia; lia).
  repeat drv_step. cbn [fst]. repeat drv_step. rewrite Es, (so_channels _ _ _ Ks). repeat drv_step. rewrite Eu.
  eapply wp_mono; [apply (produce_ok fmt (Z.of_nat nch) _ ka k F (n * nch) (w_mem w)); [done|done|rewrite Nat2Z.inj_mul; auto|exact St]|].
  intros w1 _ (tr1 & Kk1 & Hk1 & ->). repeat drv_step.
  eapply wp_mono; [apply (consume_ok fmt (Z.of_nat nch) _ sa b (n * nch)); [simpl; by rewrite lookup_insert_ne|done|rewrite Nat2Z.inj_mul; auto]|].
  intros w2 _ (tr2 & b1 & (-> & Kb1 & Hb1) & ->). simpl. rewrite insert_insert_ne by done.
  set (s1 := taken (b_stream b) (width * Z.of_nat (n * nch))) in *. set (k1 := added (b_stream k) (width * Z.of_nat (n * nch))) in *.
  do 2 drv_step. eapply wp_get_dev; [exact Hd|]. rewrite Ed. repeat drv_step.
  change (with_trace _ tr2) with (io_world w sa ka (set_stream b s1) (set_stream k k1) m1 tr2).
  pose proof (io_graph_after w x dev d cd cd1 sa ka b k (set_stream b s1) (set_stream k k1) m1 tr2 G) as G1.
  replace (Z.of_nat frames - Z.of_nat n) with (Z.of_nat (frames - n)) by lia.
  assert (frames_io fmt fmt nch s1 k1) as Hio1 by (by apply frames_io_after).
  assert (samples fmt m1 (b_stream b) = samples fmt (w_mem w) (b_stream b)) as Eb by (eapply samples_other; [exact Ks|apply Hio|done]).
  eapply wp_mono; [apply (IH _ _ cd1 _ _ (frames - n)%nat prev' G1 V1)|].
  1,2: by destruct S1 as (? & ? & ? & ? & ->).
  1: done.
  1,2: simpl; unfold s1, k1; simpl; nia.
  1: lia.
  intros s _ (m' & tr & cd' & b' & k' & out & -> & V' & S' & Hio' & Hb' & Hk' & Hp & Hr' & Hm').
  eexists m', tr, cd', b', k', _. rewrite io_world_world, insert_insert_eq by done. simpl in Hb', Hk', Hp, Hm'.
  split_and!; [done|done|by eapply same_setup_trans|done| | | |by rewrite Hr'|].
  - intros m2. rewrite Hb', Hb1, drop_drop. f_equal. nia.
  - simpl in Hk1. rewrite Hk', Hk1, <- app_assoc, Eout. done.
  - rewrite Hb1, Eb in Hp. replace (take (n * nch) (samples fmt (w_mem w) (b_stream b)))
      with (take (n * nch) (take (frames * nch) (samples fmt (w_mem w) (b_stream b)))) by (rewrite take_take; f_equal; nia).
    eapply (vp_chunk prev cd _ frames n); [|lia|exact Hrule|exact Ec|].
    + rewrite length_take. pose proof (samples_length fmt nch (w_mem w) (b_stream b) frames Ks Hav). lia.
    + rewrite take_drop_commute in Hp. replace (n * nch + (frames - n) * nch)%nat with (frames * nch)%nat in Hp by nia. exact Hp.
  - intros a Ha. rewrite Hm' by done. by apply Hm1.
Qed.
End period.

(** ** The operation *)

(** The frames of a period: a multiple of four. *)
Definition vol_frames (b k : comp_buffer) : nat := Z.to_nat (4 * (common_frames (b_stream k) [b_stream b] / 4)).

Lemma land_frames c : Z.land c (Z.lnot 3) = 4 * (c / 4).
Proof.
  rewrite <- Z.ldiff_land. change 3 with (Z.ones 2). rewrite Z.ldiff_ones_r, Z.shiftl_mul_pow2, Z.shiftr_div_pow2 by lia. change (2 ^ 2) with 4. lia.
Qed.

(** A component with a stream: [fn] are the functions of its format. *)
Record vol_running (fn : vol_func) (fmt : pcm_fmt) (nch : nat) (d : comp_dev) (cd : vol_data) (b k : comp_buffer) : Prop := {
  vr_fmt : vol_fmt fn fmt;
  vr_nch : (0 < nch <= SOF_IPC_MAX_CHANNELS)%nat;
  vr_up : d_state d <> COMP_STATE_READY;
  vr_state : vol_state (d_state d) cd;
  vr_scale : vd_scale_vol cd = fn;
  vr_zc : vd_zc_get cd = fn;
  vr_io : frames_io fmt fmt nch (b_stream b) (b_stream k)
}.

Section copy.
Context {A : Type} `{!Allocator A} (PLATFORM_MAX_CHANNELS : nat).
Implicit Types (w : world A) (x : gmap Z vol_data).

(** What a period does to the gains and the queues. *)
Record vol_copied (fn : vol_func) (fmt : pcm_fmt) (nch : nat) (d : comp_dev) (m m' : mem) (cd cd' : vol_data) (b k b' k' : comp_buffer) : Prop := {
  vp_running : vol_running fn fmt nch d cd' b' k';
  vp_setup : same_setup cd cd';
  vp_source m1 : samples fmt m1 (b_stream b') = drop (vol_frames b k * nch) (samples fmt m1 (b_stream b));
  vp_sink : exists out, samples fmt m' (b_stream k') = samples fmt m (b_stream k) ++ out /\
    vol_period PLATFORM_MAX_CHANNELS fmt nch (d_state d) 0 cd (take (vol_frames b k * nch) (samples fmt m (b_stream b))) cd' out;
  vp_rate : s_rate (b_stream k') = s_rate (b_stream k);
  vp_mem a : ~ in_ring (b_stream k) a -> m' a = m a
}.

Lemma volume_copy_ok fn fmt nch w x dev d cd sa ka b k :
  io_graph w x dev d cd sa ka b k -> vol_running fn fmt nch d cd b k ->
  wp (volume_copy PLATFORM_MAX_CHANNELS dev) (w, x) (fun s r => r = 0 /\ exists m' tr cd' b' k',
    s = (io_world w sa ka b' k' m' tr, <[dev := cd']> x) /\ vol_copied fn fmt nch d (w_mem w) m' cd cd' b k b' k').
Proof.
  intros G R. pose proof G as [Hd Hx Hsa Hka Hb Hk Hne]. pose proof R as [Hfmt Hnch Hup V Es Ez Hio].
  destruct (io_limits fmt fmt nch ltac:(lia) _ _ Hio) as (Ec & Hc & Hav & Hfree & Eb1 & Eb2). pose proof (width_pos fmt).
  unfold volume_copy. repeat drv_step. cbv zeta. rewrite Ec, Eb1, Eb2, land_frames. set (c := common_frames _ _) in *.
  pose proof (Z.mul_div_le c 4 ltac:(lia)). pose proof (Z.div_pos c 4 ltac:(lia) ltac:(lia)).
  replace (4 * (c / 4)) with (Z.of_nat (vol_frames b k)) by (unfold vol_frames; fold c; lia). rewrite Nat2Z.id.
  assert (Z.of_nat (fmt_width fmt) * (Z.of_nat (vol_frames b k) * Z.of_nat nch) <= Z.of_nat (fmt_width fmt) * (c * Z.of_nat nch)).
  { apply Z.mul_le_mono_nonneg_l; [lia|]. apply Z.mul_le_mono_nonneg_r; [lia|]. unfold vol_frames. fold c. lia. }
  eapply wp_mono; [apply (copy_chunks_ok PLATFORM_MAX_CHANNELS fn fmt nch (d_state d) Hfmt Hnch _ w x dev d cd sa ka b k (vol_frames b k) 0); try done; lia|].
  intros s _ (m' & tr & cd' & b' & k' & out & -> & V' & S & Hio' & Hb' & Hk' & Hp & Hr & Hm). drv_step. split; [done|].
  exists m', tr, cd', b', k'. split; [done|]. constructor; try done; [|by exists out].
  constructor; try done; by destruct S as (? & ? & ? & ? & ->).
Qed.
(** C25: One period of a volume component that has a stream and whose updates of the
    ramp are of one frame at least, 50 ms at most and shorter than a fade
    ([vol_running]; with updates of no frame the code does not end,
    [volume_copy_spins]) ends and returns 0. It takes the largest multiple of four
    frames that the source has and the sink has room for. They are processed in
    chunks: all at once when the ramp is finished or not yet due, otherwise as many
    as the ramp update asks for, or up to the zero crossing nearest to that. Each
    sample of a chunk goes to the sink multiplied with the gain that its channel has
    at that time, rounded to nearest and saturated to the format; after each chunk
    the ramp moves on. The gains stay in range, the component can go on with the
    next period, and no byte outside the ring of the sink is written. *)
Theorem volume_copy_scales fn fmt nch w x dev d cd sa ka b k :
  io_graph w x dev d cd sa ka b k -> vol_running fn fmt nch d cd b k ->
  exists m' tr cd' b' k',
    volume_copy PLATFORM_MAX_CHANNELS dev (w, x) = Some ((io_world w sa ka b' k' m' tr, <[dev := cd']> x), 0) /\
    vol_copied fn fmt nch d (w_mem w) m' cd cd' b k b' k'.
Proof.
  intros G R. destruct (volume_copy_ok fn fmt nch w x dev d cd sa ka b k G R) as (s & r & E & -> & m' & tr & cd' & b' & k' & -> & H).
  by exists m', tr, cd', b', k'.
Qed.
End copy.

(** ** Examples *)

#[local] Instance vol_allocator : Allocator mm := heap_allocator baytrail baytrail_dcache 4096 65536.

(** Rings of eight frames of two 16-bit channels. *)
Definition vol_stream_at (a r avail : Z) : audio_stream :=
  mk_stream 32 avail (32 - avail) (a + (r + avail) mod 32) (a + r) a (a + 32) SOF_IPC_FRAME_S16_LE 0 48000 2 false false.

Lemma vol_stream_at_ok a r avail :
  0 <= a < 2 ^ 20 -> 0 <= r < 32 -> 0 <= avail <= 32 -> (2 | r) -> (2 | avail) -> samples_ok FMT_S16 2 (vol_stream_at a r avail).
Proof.
  intros Ha Hr Hv H1 H2. constructor; try done.
  - constructor; simpl; [constructor; simpl; lia|unfold in_ring; simpl; lia|done|lia|]. unfold ring. simpl. f_equal. f_equal. lia.
  - split; [by exists 16|]. simpl. by replace (a + r - a) with r by lia.
Qed.

(** 1000 in all samples of the source, which wraps; an update of the ramp every four frames. *)
Definition demo_vol_in : audio_stream := vol_stream_at 1000 12 32.
Definition demo_vol_out : audio_stream := vol_stream_at 3000 28 0.
Definition demo_vol_mem : mem := fun a => if (1000 <=? a) && (a <? 1032) then (if Z.even a then 232 else 3) else 0.
Definition demo_vol_data : vol_data := demo_ramp SOF_VOLUME_LINEAR 20 4 0 [].
Definition demo_vol_dev : comp_dev := set_state COMP_STATE_ACTIVE (demo_dev 1 50 0 SOF_COMP_VOLUME [100] [102]).

Definition demo_vol_world : world mm := mk_world
  {[1 := demo_vol_dev]} {[100 := buf_on 100 2 1 demo_vol_in; 102 := buf_on 102 1 3 demo_vol_out]}
  ∅ demo_vol_mem demo_mm [] ∅ (w_data demo_world) [] [].

Lemma demo_vol_running : vol_running VolS16 FMT_S16 2 demo_vol_dev demo_vol_data (buf_on 100 2 1 demo_vol_in) (buf_on 102 1 3 demo_vol_out).
Proof.
  constructor; try done; [constructor|lia|apply demo_ramp_state; [lia|by left]|]. constructor.
  - apply vol_stream_at_ok; try lia; [by exists 6|by exists 16].
  - apply vol_stream_at_ok; try lia; [by exists 14|by exists 0].
  - split; [by exists 8|by exists 3].
  - split; [by exists 8|by exists 7].
  - unfold disjoint_rings. simpl. lia.
Qed.

Lemma volume_copy_scales_witness :
  exists m' tr cd' b' k',
    volume_copy 8 1 (demo_vol_world, {[1 := demo_vol_data]}) =
      Some ((io_world demo_vol_world 100 102 b' k' m' tr, <[1 := cd']> {[1 := demo_vol_data]}), 0) /\
    vol_copied 8 VolS16 FMT_S16 2 demo_vol_dev demo_vol_mem m' demo_vol_data cd' (buf_on 100 2 1 demo_vol_in) (buf_on 102 1 3 demo_vol_out) b' k'.
Proof.
  apply (volume_copy_scales 8 VolS16 FMT_S16 2 demo_vol_world {[1 := demo_vol_data]} 1 demo_vol_dev demo_vol_data 100 102);
    [constructor; try reflexivity; done|apply demo_vol_running].
Defined.

(** The first four frames are muted; then the time of the ramp is over and the next
    ones have the gains asked for. *)
Example demo_vol_copy :
  (r ← volume_copy 8 1 (demo_vol_world, {[1 := set_elapsed demo_vol_data 960]});
   b ← w_bufs r.1.1 !! 102; Some (r.2, samples FMT_S16 (w_mem r.1.1) (b_stream b))) =
  Some (0, [0; 0; 0; 0; 0; 0; 0; 0; 1000; 500; 1000; 500; 1000; 500; 1000; 500]).
Proof. vm_compute. reflexivity. Qed.
