(* ===== verification/VolumeLife.v ===== *)
(** * The life of a volume component

    From its creation on, in any order of the commands, triggers and periods that
    reach it, a volume component keeps the type of its data: it never faults, its
    gains are gains, and the ramp stays between its ends. It accounts for its memory
    as the contract of drivers asks. *)

From stdpp Require Import base list numbers option gmap.
From S2P Require Import Prelude StateM AudioStream StreamCopy Heap HeapMap HeapSpec HeapFree HeapZones Allocator Buffer CompState Pipeline PipelineOps.
From S2P Require Import PipelineWalk PipelineThms PipelineLife Format SampleLoop PcmConvert PcmThms ChannelLoop.
From S2P Require Import Topology TopologyInv Driver SampleQueue ChannelCopy MixerCopy Volume VolumeRamp VolumeCtl VolumeReach VolumeCopy.

(** ** New data *)

(** What the host may ask for: a known ramp that is not too long, and limits that
    are gains. *)
Record vol_config (initial_ramp max_value min_value ramp : Z) : Prop := {
  vg_initial : 0 <= initial_ramp < 2 ^ 29;
  vg_type : ramp_func_of ramp <> RampNull;
  vg_fade : ramp = SOF_VOLUME_WINDOWS_FADE -> 0 < initial_ramp;
  vg_min : 0 <= min_value <= VOL_MAX;
  vg_max : min_value <= max_value < 2 ^ 32;
  vg_range : max_value - min_value <= VOL_MAX
}.

Lemma ramp_func_fade ramp : ramp_func_of ramp = RampWindowsFade -> ramp = SOF_VOLUME_WINDOWS_FADE.
Proof. unfold ramp_func_of. by repeat case_if. Qed.

Lemma vol_limits_ok initial_ramp max_value min_value ramp :
  vol_config initial_ramp max_value min_value ramp ->
  exists lo hi range, vol_limits min_value max_value = (lo, hi, range) /\ is_gain lo /\ is_gain hi /\ lo <= hi /\ range <= VOL_MAX.
Proof.
  intros [_ _ _ H1 H2 H3]. unfold vol_limits. case_if; [|by eexists _, _, _; unfold is_gain; split_and!; (reflexivity || lia)].
  eexists _, _, _. split; [reflexivity|]. rewrite u32_small, !i32_small by lia. unfold is_gain.
  destruct (Z.gtb_spec max_value VOL_MAX); split_and!; lia.
Qed.

Lemma init_volume_ok pmc self vol initial_ramp max_value min_value ramp :
  vol_config initial_ramp max_value min_value ramp -> (pmc <= SOF_IPC_MAX_CHANNELS)%nat ->
  exists cd, init_volume pmc self vol initial_ramp max_value min_value ramp = Some cd /\ vol_state COMP_STATE_READY cd /\
    vd_initial_ramp cd = initial_ramp /\ vd_ramp_func cd = ramp_func_of ramp.
Proof.
  intros C Hp. destruct (vol_limits_ok _ _ _ _ C) as (lo & hi & range & E & Hlo & Hhi & Hle & Hr). destruct C as [Hi Ht Hf _ _ _].
  unfold init_volume. rewrite E. rewrite bool_decide_eq_false_2 by done. eexists. split; [reflexivity|]. split; [|done].
  apply reset_state_ok. set (v := i32 _). assert (is_gain v) as Hv.
  { unfold v, is_gain in *. rewrite !u32_small by lia. rewrite i32_small by lia. lia. }
  assert (chan_ok (mk_chan v v v 0 0 false)) as Cv by (constructor; try done; unfold is_gain, is_s32 in *; simpl; lia).
  constructor; simpl; try done.
  - constructor; try done. intros Hfn. apply Hf. by apply ramp_func_fade.
  - rewrite length_app, !length_replicate. lia.
  - apply Forall_app. split; apply Forall_replicate; [done|]. by constructor.
  - intros i c Hlt. lia.
Qed.

(** ** Any order of operations *)

(** What reaches a component: commands, triggers, the start and the end of a stream,
    periods, and between them the neighbours, which fill and empty the buffers. *)
Inductive vol_op :=
| OpCmd (cmd : Z) (cdata : vol_ctrl)
| OpTrigger (cmd : Z)
| OpPrepare
| OpReset
| OpCopy
| OpNeighbours (m : mem) (source sink : audio_stream).

Section history.
Context {A : Type} `{!Allocator A} (PLATFORM_MAX_CHANNELS : nat) (fn : vol_func) (fmt : pcm_fmt) (nch : nat) (rate dev : Z).
Context (Hfmt : vol_fmt fn fmt) (Hnch : (0 < nch <= SOF_IPC_MAX_CHANNELS)%nat).
Notation MX := (ST (world A * gmap Z vol_data)).
Implicit Types (w : world A) (x : gmap Z vol_data).

(** The pipeline copies a component that is active only. *)
Definition vol_op_run (op : vol_op) : MX unit :=
  match op with
  | OpCmd cmd cdata => volume_cmd PLATFORM_MAX_CHANNELS dev cmd cdata ;; mret tt
  | OpTrigger cmd => volume_trigger dev cmd ;; mret tt
  | OpPrepare => volume_prepare dev ;; mret tt
  | OpReset => volume_reset PLATFORM_MAX_CHANNELS dev ;; mret tt
  | OpCopy =>
      d ← in_world (get_dev dev);
      if d_state d =? COMP_STATE_ACTIVE then volume_copy PLATFORM_MAX_CHANNELS dev ;; mret tt else mret tt
  | OpNeighbours m source sink =>
      in_world (
        d ← get_dev dev;
        sa ← lift (head (d_bsource_list d));
        ka ← lift (head (d_bsink_list d));
        modify (fun w => with_mem w m) ;;
        mod_buf sa (fun b => set_stream b source) ;;
        mod_buf ka (fun k => set_stream k sink))
  end.

Fixpoint vol_ops_run (ops : list vol_op) : MX unit :=
  match ops with
  | [] => mret tt
  | op :: ops => vol_op_run op ;; vol_ops_run ops
  end.

(** The reset and the start of a stream have operations of their own. *)
Definition vol_op_ok (op : vol_op) : Prop :=
  match op with
  | OpCmd _ cdata => ctrl_ok cdata
  | OpTrigger cmd => cmd <> COMP_TRIGGER_RESET /\ cmd <> COMP_TRIGGER_PREPARE
  | OpNeighbours _ source sink => frames_io fmt fmt nch source sink /\ s_rate sink = rate
  | _ => True
  end.

(** The period of the pipeline suits the ramp: an update of the ramp takes a frame at
    least and 50 ms at most, and less than a fade. *)
Record vol_timing (d : comp_dev) (cd : vol_data) : Prop := {
  vm_rate : 1 < rate;
  vm_frames : 0 < ramp_frames (vd_initial_ramp cd) (d_frames d) (d_period d) < 2 ^ 31;
  vm_step : ramp_frames (vd_initial_ramp cd) (d_frames d) (d_period d) * 8000 <= 400 * rate;
  vm_fade : vd_ramp_func cd = RampWindowsFade ->
    ramp_frames (vd_initial_ramp cd) (d_frames d) (d_period d) * 8000 < 8 * vd_initial_ramp cd * rate
}.

(** The type of a component in its pipeline. *)
Record vol_sys (s : world A * gmap Z vol_data) (d : comp_dev) (cd : vol_data) (sa ka : Z) (b k : comp_buffer) : Prop := {
  sy_graph : io_graph s.1 s.2 dev d cd sa ka b k;
  sy_io : frames_io fmt fmt nch (b_stream b) (b_stream k);
  sy_rate : s_rate (b_stream k) = rate;
  sy_timing : vol_timing d cd;
  sy_state : vol_state (d_state d) cd;
  sy_funcs : d_state d <> COMP_STATE_READY -> vd_scale_vol cd = fn /\ vd_zc_get cd = fn
}.

Definition vol_typed (s : world A * gmap Z vol_data) : Prop := exists d cd sa ka b k, vol_sys s d cd sa ka b k.

Lemma same_setup_timing d cd cd' : same_setup cd cd' -> vol_timing d cd -> vol_timing d cd'.
Proof. intros (l & e & a & f & ->) []. by constructor. Qed.

(** New data in the same state. *)
Lemma sys_data w x d cd cd' sa ka b k :
  vol_sys (w, x) d cd sa ka b k -> same_setup cd cd' -> vol_state (d_state d) cd' -> vol_sys (w, <[dev := cd']> x) d cd' sa ka b k.
Proof.
  intros [G Hio Hr Ht V Hf] S V'. constructor; try done.
  - destruct G. constructor; try done. simpl. by rewrite lookup_insert_eq.
  - by eapply same_setup_timing.
  - intros Hs. specialize (Hf Hs). by destruct S as (l & e & a & f & ->).
Qed.

(** A new state with data that suits it. *)
Lemma sys_at w x d cd cd' sa ka b k s :
  vol_sys (w, x) d cd sa ka b k -> vd_initial_ramp cd' = vd_initial_ramp cd -> vd_ramp_func cd' = vd_ramp_func cd ->
  vol_state s cd' -> (s <> COMP_STATE_READY -> vd_scale_vol cd' = fn /\ vd_zc_get cd' = fn) ->
  vol_sys (dev_at w dev d s, <[dev := cd']> x) (set_state s d) cd' sa ka b k.
Proof.
  intros [G Hio Hr Ht V Hf] E1 E2 V' Hf'. constructor; try done.
  - destruct G. constructor; simpl; try done; by rewrite lookup_insert_eq.
  - destruct Ht as [H1 H2 H3 H4]. constructor; simpl; rewrite ?E1, ?E2; done.
Qed.

Lemma vol_state_up s s' cd : vol_state s cd -> s <> COMP_STATE_READY -> s' <> COMP_STATE_READY -> vol_state s' cd.
Proof. intros [I _ Hs] H1 H2. constructor; [done|done|]. intros _. by apply Hs. Qed.

Lemma trigger_typed w x d cd sa ka b k cmd :
  vol_sys (w, x) d cd sa ka b k -> cmd <> COMP_TRIGGER_RESET -> cmd <> COMP_TRIGGER_PREPARE ->
  wp (volume_trigger dev cmd) (w, x) (fun s _ => vol_typed s).
Proof.
  intros Y H1 H2. pose proof Y as [G _ _ _ V Hf]. unfold volume_trigger. drv_step.
  eapply wp_mono; [apply set_dev_state_ok, G|]. intros ? r [-> _]. destruct (comp_set_state (d_state d) cmd) as [s' r'] eqn:E.
  assert (s' = d_state d \/ d_state d <> COMP_STATE_READY /\ s' <> COMP_STATE_READY) as Hs.
  { apply comp_set_state_edge in E as [[He _]|[-> _]]; [right|by left]. by destruct He. }
  exists (set_state s' d), cd, sa, ka, b, k. rewrite <- (insert_id x dev cd) by apply G. simpl. eapply sys_at; [exact Y|done|done| |].
  - destruct Hs as [->|[? ?]]; [done|by eapply vol_state_up].
  - destruct Hs as [->|[? ?]]; [done|]. intros _. by apply Hf.
Qed.

Lemma cmd_typed w x d cd sa ka b k cmd cdata :
  vol_sys (w, x) d cd sa ka b k -> ctrl_ok cdata ->
  wp (volume_cmd PLATFORM_MAX_CHANNELS dev cmd cdata) (w, x) (fun s _ => vol_typed s).
Proof.
  intros Y H. pose proof Y as [[Hd Hx _ _ _ _ _] _ _ _ V _]. pose proof (vi_len _ (vt_inv _ _ V)) as Hl. unfold volume_cmd. repeat drv_step.
  case_if.
  - destruct (volume_ctrl_set_cmd_ok PLATFORM_MAX_CHANNELS _ cd cdata V H) as (cd' & ret & E & V' & S). repeat drv_step.
    exists d, cd', sa, ka, b, k. by apply sys_data with cd.
  - case_if; [|drv_step; by exists d, cd, sa, ka, b, k].
    assert (exists r, volume_ctrl_get_cmd cd cdata = Some r) as [r E]; [|repeat drv_step; by exists d, cd, sa, ka, b, k].
    unfold volume_ctrl_get_cmd. case_if; [eauto|]. unfold get_elems.
    destruct (Nat.leb_spec (Z.to_nat (ct_num_elems cdata)) (length (vd_chan cd))); [|lia].
    repeat case_if; cbn [mbind option_bind]; eauto.
Qed.

Lemma reset_typed w x d cd sa ka b k :
  vol_sys (w, x) d cd sa ka b k -> wp (volume_reset PLATFORM_MAX_CHANNELS dev) (w, x) (fun s _ => vol_typed s).
Proof.
  intros Y. pose proof Y as [[Hd Hx _ _ _ _ _] _ _ _ V _]. unfold volume_reset. repeat drv_step.
  eapply wp_mono; [by apply set_dev_state_ok|]. intros ? r [-> _]. drv_step.
  assert ((comp_set_state (d_state d) COMP_TRIGGER_RESET).1 = COMP_STATE_READY) as ->.
  { unfold comp_set_state. change (comp_get_requested_state _) with COMP_STATE_READY. by destruct (Z.eqb_spec (d_state d) COMP_STATE_READY) as [->|]. }
  exists (set_state COMP_STATE_READY d), (reset_state PLATFORM_MAX_CHANNELS cd), sa, ka, b, k.
  eapply sys_at; [exact Y|done|done| |done]. apply reset_state_ok, V.
Qed.

Lemma copy_typed w x d cd sa ka b k :
  vol_sys (w, x) d cd sa ka b k -> d_state d = COMP_STATE_ACTIVE ->
  wp (volume_copy PLATFORM_MAX_CHANNELS dev) (w, x) (fun s _ => vol_typed s).
Proof using All.
  intros Y E. pose proof Y as [G Hio Hr Ht V Hf]. assert (d_state d <> COMP_STATE_READY) as Hup by congruence. destruct (Hf Hup) as [F1 F2].
  eapply wp_mono; [apply (volume_copy_ok PLATFORM_MAX_CHANNELS fn fmt nch w x dev d cd sa ka b k G); by constructor|].
  intros s r (_ & m' & tr & cd' & b' & k' & -> & [R S _ _ Er _]). exists d, cd', sa, ka, b', k'. destruct R as [_ _ _ V' F1' F2' Hio'].
  constructor; try done; [by eapply io_graph_after|congruence|by eapply same_setup_timing].
Qed.

(** The data at the start of a stream. *)
Lemma prepared_typed d cd cd1 :
  vol_state COMP_STATE_READY cd -> vol_timing d cd ->
  cd1 = set_stream_info (set_ramp (set_funcs cd fn fn) (vd_vol_ramp_active cd) true) (Z.of_nat nch) rate ->
  exists cd2, prepare_channels nch 0 cd1 = Some cd2 /\ vd_initial_ramp cd2 = vd_initial_ramp cd /\ vd_ramp_func cd2 = vd_ramp_func cd /\
    vd_scale_vol cd2 = fn /\ vd_zc_get cd2 = fn /\
    vol_state COMP_STATE_PREPARE (set_ramp_frames cd2 (ramp_frames (vd_initial_ramp cd) (d_frames d) (d_period d))).
Proof using Hnch.
  intros [[K Hl HF Hch He Ha Hw] Hidle _] [T1 T2 T3 T4] ->. specialize (Hidle eq_refl). set (cd1 := set_stream_info _ _ _).
  destruct (prepare_channels_ok nch 0 cd1) as (l & e & f & E & Hl' & HF' & Hee & _ & Hin); [by destruct K|done|done|lia|].
  eexists. split; [exact E|]. split_and!; [done..|]. rewrite decide_False in Hee by lia.
  set (cd2 := set_ramp_frames cd1 (ramp_frames (vd_initial_ramp cd) (d_frames d) (d_period d))).
  change (set_ramp_frames (set_ramp _ _ f) _) with (set_ramp (set_elapsed (set_chans cd2 l) e) (vd_vol_ramp_active cd2) f).
  apply prepared_state; try done; [by destruct K|simpl; lia|]. intros j c Hj Hc. apply (Hin j c); [simpl in Hj; lia|done].
Qed.

(** The error paths leave the component as it was but for the functions. *)
Lemma prepare_fails_typed w x d cd cd' sa ka b k ret f g :
  vol_sys (w, x) d cd sa ka b k -> d_state d = COMP_STATE_READY -> cd' = set_funcs cd f g ->
  wp (prepare_fails dev ret) (dev_at w dev d COMP_STATE_PREPARE, <[dev := cd']> x) (fun s _ => vol_typed s).
Proof.
  intros Y E ->. unfold prepare_fails. repeat drv_step.
  eapply wp_mono; [apply (set_dev_state_ok _ dev (set_state COMP_STATE_PREPARE d)); simpl; by rewrite lookup_insert_eq|].
  intros ? r [-> _]. drv_step. rewrite dev_at_twice. change (comp_set_state _ _).1 with COMP_STATE_READY. eexists _, _, sa, ka, b, k.
  apply (sys_at _ _ _ cd); [done..| |done]. pose proof (sy_state _ _ _ _ _ _ _ Y) as V. rewrite E in V.
  destruct V as [[K Hl HF Hch He Ha Hw] Hidle Hs]. constructor; [|done|done]. constructor; try done. by destruct K.
Qed.

Lemma prepare_refused s :
  s <> COMP_STATE_READY ->
  comp_set_state s COMP_TRIGGER_PREPARE = (s, COMP_STATUS_STATE_ALREADY_SET) \/ comp_set_state s COMP_TRIGGER_PREPARE = (s, - EINVAL).
Proof.
  intros Hs. unfold comp_set_state. change (comp_get_requested_state _) with COMP_STATE_PREPARE.
  destruct (Z.eqb_spec s COMP_STATE_PREPARE); [by left|right]. rewrite (proj2 (Z.eqb_neq s COMP_STATE_READY)); done.
Qed.

Lemma prepare_typed w x d cd sa ka b k :
  vol_sys (w, x) d cd sa ka b k -> wp (volume_prepare dev) (w, x) (fun s _ => vol_typed s).
Proof using All.
  intros Y. pose proof Y as [[Hd Hx Hsa Hka Hb Hk Hne] Hio Hr Ht V Hf]. unfold volume_prepare. repeat drv_step.
  eapply wp_mono; [by apply set_dev_state_ok|]. intros ? r [-> ->].
  destruct (Z.eq_dec (d_state d) COMP_STATE_READY) as [Es|Es].
  2:{ destruct (prepare_refused _ Es) as [-> | ->]; cbn [fst snd]; rewrite dev_at_id by done; simpl; drv_step; by exists d, cd, sa, ka, b, k. }
  rewrite Es. change (comp_set_state _ _) with (COMP_STATE_PREPARE, 0). simpl.
  assert (vol_func_of (s_frame_fmt (b_stream k)) = fn /\ fn <> VolNull) as [Ef Hn].
  { rewrite (so_fmt _ _ _ (io_sink _ _ _ _ _ Hio)). by destruct Hfmt. }
  rewrite Es in V. pose proof (rc_func _ (vi_conf _ (vt_inv _ _ V))) as Hrn.
  assert (w_devs (dev_at w dev d COMP_STATE_PREPARE) !! dev = Some (set_state COMP_STATE_PREPARE d)) as Hd' by (simpl; apply lookup_insert_eq).
  do 2 drv_step. eapply wp_get_dev; [exact Hd'|]. do 4 drv_step. eapply wp_get_buf; [exact Hk|]. case_if.
  { rewrite <- (insert_id x dev cd Hx). apply (prepare_fails_typed w x d cd cd sa ka b k _ (vd_scale_vol cd) (vd_zc_get cd)); [done..|by destruct cd]. }
  repeat drv_step. rewrite Ef, !bool_decide_eq_false_2 by done. repeat drv_step.
  rewrite Hr, (so_channels _ _ _ (io_sink _ _ _ _ _ Hio)), Nat2Z.id.
  destruct (prepared_typed d cd _ V Ht eq_refl) as (cd2 & E & E1 & E2 & E3 & E4 & V'). eapply wp_lift; [exact E|]. repeat drv_step.
  simpl d_frames. simpl d_period. rewrite !insert_insert_eq, E1. eexists _, _, sa, ka, b, k. by eapply sys_at.
Qed.

Lemma neighbours_typed w x d cd sa ka b k m source sink :
  vol_sys (w, x) d cd sa ka b k -> frames_io fmt fmt nch source sink -> s_rate sink = rate ->
  wp (vol_op_run (OpNeighbours m source sink)) (w, x) (fun s _ => vol_typed s).
Proof using All.
  intros [[Hd Hx Hsa Hka Hb Hk Hne] Hio Hr Ht V Hf] Hio' Hr'. simpl in *. unfold vol_op_run. repeat drv_step.
  eapply wp_mod_buf; [simpl; by rewrite lookup_insert_ne|].
  exists d, cd, sa, ka, (set_stream b source), (set_stream k sink). constructor; try done.
  constructor; simpl; try done; [by rewrite lookup_insert_ne, lookup_insert_eq|by rewrite lookup_insert_eq].
Qed.

Lemma vol_op_typed op s : vol_typed s -> vol_op_ok op -> wp (vol_op_run op) s (fun s' _ => vol_typed s').
Proof using All.
  destruct s as [w x]. intros (d & cd & sa & ka & b & k & Y) Hop. pose proof Y as [[Hd _ _ _ _ _ _] _ _ _ _ _]. simpl in Hd.
  assert (forall B (m : MX B), wp m (w, x) (fun s' _ => vol_typed s') -> wp (m ;; mret tt) (w, x) (fun s' _ => vol_typed s')) as Hseq.
  { intros B m Hm. drv_step. eapply wp_mono; [exact Hm|]. intros. by drv_step. }
  destruct op; cbn [vol_op_run].
  - by eapply Hseq, cmd_typed.
  - destruct Hop. by eapply Hseq, trigger_typed.
  - by eapply Hseq, prepare_typed.
  - by eapply Hseq, reset_typed.
  - repeat drv_step. destruct (Z.eqb_spec (d_state d) COMP_STATE_ACTIVE); [by eapply Hseq, copy_typed|drv_step; by exists d, cd, sa, ka, b, k].
  - destruct Hop. by eapply neighbours_typed.
Qed.

(** A new component in its place. *)
Lemma new_typed self vol initial_ramp max_value min_value ramp w d sa ka b k cd x :
  vol_config initial_ramp max_value min_value ramp -> (PLATFORM_MAX_CHANNELS <= SOF_IPC_MAX_CHANNELS)%nat ->
  init_volume PLATFORM_MAX_CHANNELS self vol initial_ramp max_value min_value ramp = Some cd ->
  io_graph w x dev d cd sa ka b k -> d_state d = COMP_STATE_READY -> frames_io fmt fmt nch (b_stream b) (b_stream k) ->
  s_rate (b_stream k) = rate -> vol_timing d cd -> vol_typed (w, x).
Proof.
  intros C Hp E G Hs Hio Hr Ht. destruct (init_volume_ok PLATFORM_MAX_CHANNELS self vol _ _ _ _ C Hp) as (cd0 & E0 & V & _).
  simplify_eq. exists d, cd, sa, ka, b, k. constructor; try done. by rewrite Hs.
Qed.

(** C26: A volume component keeps the type of its data, which it has when it is new
    with limits that are gains, a ramp type of the code, a fade of some length, and
    periods for which an update of the ramp takes a frame at least, 50 ms at most
    and less than a fade ([vol_typed]). Commands of the host with any values for the
    elements that the message has, triggers but those for the reset and the
    preparation, which have operations of their own, starts and ends of streams of
    up to eight channels and periods reach it in any order, and the neighbours fill
    and empty its buffers in between. None of them faults or fails to end, and
    afterwards the gains and targets of all channels are between [VOL_MIN] and
    [VOL_MAX], every ramp is between its start and its target, and the functions for
    the samples are those of the stream whenever there is one. *)
Theorem volume_history_typed ops s :
  vol_typed s -> Forall vol_op_ok ops -> exists s', vol_ops_run ops s = Some (s', tt) /\ vol_typed s'.
Proof using All.
  intros T Hops. enough (wp (vol_ops_run ops) s (fun s' _ => vol_typed s')) as (s' & [] & ? & ?) by eauto.
  revert s T. induction Hops as [|op ops Hop _ IH]; intros s T; cbn [vol_ops_run]; [by drv_step|].
  drv_step. eapply wp_mono; [by apply vol_op_typed|]. intros s1 [] T1. by apply IH.
Qed.
End history.

(** ** Creating and freeing *)

Section memory.
Context {A : Type} `{!Allocator A} (PLATFORM_MAX_CHANNELS : nat) (sizeof_comp_dev sizeof_vol_data : Z).
Context (Hdev : request_ok sizeof_comp_dev 0) (Hdata : request_ok sizeof_vol_data 0).
Implicit Types (w : world A) (x : gmap Z vol_data).
Notation volume_new := (volume_new PLATFORM_MAX_CHANNELS sizeof_comp_dev sizeof_vol_data).

Lemma init_volume_at self vol initial_ramp max_value min_value ramp cd :
  init_volume PLATFORM_MAX_CHANNELS self vol initial_ramp max_value min_value ramp = Some cd -> vd_self cd = self /\ vd_vol cd = vol.
Proof. unfold init_volume. destruct (vol_limits _ _) as [[lo hi] range]. case_bool_decide; [done|]. intros. by simplify_eq. Qed.

Lemma balloc_live w bytes alignment :
  al_inv (w_alloc w) -> request_ok bytes alignment ->
  wp (world_balloc_align bytes alignment) w (fun w' p => exists a, w' = with_alloc w a /\ al_inv a /\
    ((p = 0 /\ al_live a = al_live (w_alloc w)) \/
     (p <> 0 /\ exists r, al_live a ≡ₚ r :: al_live (w_alloc w) /\ inside r p))).
Proof.
  intros Ha Hb. destruct (al_balloc_spec (w_alloc w) 0 SOF_MEM_CAPS_RAM bytes alignment Ha Hb) as (a' & p & E & Ha' & Hp).
  unfold wp, world_balloc_align. rewrite E. eexists _, p. split; [done|]. exists a'. split_and!; [done|done|].
  destruct Hp as [?|[? (r & ? & Hc & ?)]]; [by left|right]. split; [done|]. exists r. split; [done|].
  unfold covers, inside in *. destruct Hb. lia.
Qed.

(** A component owns its block, its data and the gains. *)
Definition vol_own x (dev : Z) (rs : list (Z * Z)) : Prop :=
  exists cd rd rc rv, x !! dev = Some cd /\ rs = [rv; rc; rd] /\ inside rd dev /\ inside rc (vd_self cd) /\ inside rv (vd_vol cd).

Lemma volume_new_ok drv config channels initial_ramp max_value min_value ramp w x :
  al_inv (w_alloc w) ->
  wp (volume_new drv config (SpecVolume channels initial_ramp max_value min_value ramp)) (w, x) (fun s p => exists a m, al_inv a /\
    ((p = 0 /\ al_live a ≡ₚ al_live (w_alloc w) /\ s = (with_heap w a m, x)) \/
     (p <> 0 /\ exists rs cd, al_live a ≡ₚ rs ++ al_live (w_alloc w) /\
        init_volume PLATFORM_MAX_CHANNELS (vd_self cd) (vd_vol cd) initial_ramp max_value min_value ramp = Some cd /\
        s = (with_devs (with_heap w a m) (<[p := set_state COMP_STATE_READY (comp_alloc config)]> (w_devs w)), <[p := cd]> x) /\
        vol_own (<[p := cd]> x) p rs /\ forall B (y : gmap Z B), in_live w y -> y !! p = None))).
Proof using Hdev Hdata.
  intros Ha. unfold Volume.volume_new. cbv zeta. repeat drv_step. eapply wp_mono; [by apply zalloc_live|].
  intros w1 dev (a1 & m1 & -> & Ha1 & [[-> Hl1]|[Hd (rd & Hl1 & Hin & Hap)]]).
  { simpl. drv_step. exists a1, m1. split; [done|left]. by rewrite Hl1. }
  rewrite (proj2 (Z.eqb_neq _ _) Hd). repeat drv_step. eapply wp_mono; [by apply zalloc_live|].
  intros w2 c (a2 & m2 & -> & Ha2 & [[-> Hl2]|[Hc (rc & Hl2 & Hinc & _)]]); simpl in Hl2.
  { simpl. drv_step. apply (wp_free_block _ x rd _ (al_live (w_alloc w))); [done|simpl; by rewrite Hl2|done|].
    intros a Ha3 Hl3. drv_step. exists a, m2. split; [done|by left]. }
  rewrite (proj2 (Z.eqb_neq _ _) Hc). repeat drv_step. rewrite Hl1 in Hl2.
  eapply wp_mono; [apply balloc_live; [done|by apply request_okb_ok]|].
  intros w3 v (a3 & -> & Ha3 & [[-> Hl3]|[Hv (rv & Hl3 & Hinv)]]); simpl in Hl3.
  { simpl. do 2 drv_step. eexists _, _. split; [unfold free; by rewrite al_free_null|].
    apply (wp_free_two _ x rc rd _ _ (al_live (w_alloc w))); [done|simpl; by rewrite Hl3|done|done|]. intros a4 Ha4 Hl4. drv_step.
    exists a4, m2. split; [done|by left]. }
  rewrite (proj2 (Z.eqb_neq _ _) Hv). rewrite Hl2 in Hl3. drv_step. eapply wp_lift; [done|].
  destruct (init_volume _ _ _ _ _ _ _) as [cd|] eqn:E.
  - repeat drv_step. exists a3, m2. split; [done|right]. split; [done|]. exists [rv; rc; rd], cd. split_and!; [done| | | |].
    + by destruct (init_volume_at _ _ _ _ _ _ _ E) as [-> ->].
    + done.
    + destruct (init_volume_at _ _ _ _ _ _ _ E) as [E1 E2]. exists cd, rd, rc, rv. by rewrite lookup_insert_eq, E1, E2.
    + intros B y Hy. by eapply fresh_lookup.
  - drv_step. apply (wp_free_block _ x rv _ (rc :: rd :: al_live (w_alloc w))); [done|done|done|]. intros a4 Ha4 Hl4.
    apply (wp_free_two _ x rc rd _ _ (al_live (w_alloc w))); [done..|]. intros a5 Ha5 Hl5. drv_step.
    exists a5, m2. split; [done|by left].
Qed.

Lemma volume_free_ok w x dev rs rest :
  al_inv (w_alloc w) -> vol_own x dev rs -> al_live (w_alloc w) ≡ₚ rs ++ rest ->
  wp (volume_free dev) (w, x) (fun s _ => exists a, al_inv a /\ al_live a ≡ₚ rest /\
    s = (with_devs (with_alloc w a) (delete dev (w_devs w)), delete dev x)).
Proof.
  intros Ha (cd & rd & rc & rv & Hx & -> & Hd & Hc & Hv) Hl. unfold volume_free. do 3 drv_step.
  apply (wp_free_block w x rv _ (rc :: rd :: rest)); [done..|]. intros a1 Ha1 Hl1.
  apply (wp_free_two _ x rc rd _ _ rest); [done..|]. intros a2 Ha2 Hl2. repeat drv_step. by exists a2.
Qed.

(** [volume_new] either returns no component and has given back all memory it took,
    on each of its four error paths, or it returns a component in state READY with the
    data of [init_volume]; then [volume_free] gives back exactly its memory and
    leaves the components and their data as they were before. *)
Theorem volume_new_free drv config channels initial_ramp max_value min_value ramp w x :
  al_inv (w_alloc w) -> in_live w (w_devs w) -> in_live w x ->
  exists s p, volume_new drv config (SpecVolume channels initial_ramp max_value min_value ramp) (w, x) = Some (s, p) /\
    let restored (s : world A * gmap Z vol_data) :=
      al_inv (w_alloc s.1) /\ al_live (w_alloc s.1) ≡ₚ al_live (w_alloc w) /\ w_devs s.1 = w_devs w /\ s.2 = x in
    if decide (p = 0) then restored s else
    w_devs s.1 !! p = Some (set_state COMP_STATE_READY (comp_alloc config)) /\
    (exists cd, s.2 !! p = Some cd /\
       init_volume PLATFORM_MAX_CHANNELS (vd_self cd) (vd_vol cd) initial_ramp max_value min_value ramp = Some cd) /\
    exists s', volume_free p s = Some (s', tt) /\ restored s'.
Proof using Hdev Hdata.
  intros Ha Hd Hx.
  destruct (volume_new_ok drv config channels initial_ramp max_value min_value ramp w x Ha) as (s & p & E & a & m & Ha' & H).
  exists s, p. split; [done|]. destruct H as [(-> & Hl & ->)|(Hp & rs & cd & Hl & Ei & -> & Ho & Hf)]; [done|].
  rewrite decide_False by done. simpl. rewrite !lookup_insert_eq. split_and!; [done|by exists cd|].
  destruct (volume_free_ok (with_devs (with_heap w a m) (<[p := set_state COMP_STATE_READY (comp_alloc config)]> (w_devs w)))
    (<[p := cd]> x) p rs _ Ha' Ho Hl) as (s' & [] & Ef & a' & Ha2 & Hl2 & ->).
  eexists. split; [exact Ef|]. simpl. rewrite !delete_insert_id by (by apply Hf). done.
Qed.
End memory.

(** ** Examples *)

#[local] Existing Instance vol_allocator.

(** A new component with a linear ramp of 20 ms, between two rings. *)
Definition demo_life_data : vol_data :=
  default demo_vol_data (init_volume 8 900 950 20 65536 0 SOF_VOLUME_LINEAR).
Definition demo_life_dev : comp_dev := mk_dev COMP_STATE_READY 6 50 125 0 false 1 1 SOF_COMP_VOLUME 0 0 [100] [102].
Definition demo_life_world : world mm := mk_world
  {[1 := demo_life_dev]} {[100 := buf_on 100 2 1 demo_vol_in; 102 := buf_on 102 1 3 demo_vol_out]}
  ∅ demo_vol_mem demo_mm [] ∅ (w_data demo_world) [] [].

(** A stream that starts, a command in the middle of its periods and a pause. *)
Definition demo_life : list vol_op :=
  [OpPrepare; OpTrigger COMP_TRIGGER_PRE_START; OpTrigger COMP_TRIGGER_START; OpCopy;
   OpCmd COMP_CMD_SET_VALUE (mk_ctrl SOF_CTRL_CMD_VOLUME 2 [(0, 2 ^ 32 - 1); (1, 2 ^ 30)]);
   OpNeighbours demo_vol_mem demo_vol_in demo_vol_out; OpCopy; OpTrigger COMP_TRIGGER_PAUSE; OpCopy; OpReset].

Lemma volume_history_typed_witness :
  exists s', vol_ops_run 8 1 demo_life (demo_life_world, {[1 := demo_life_data]}) = Some (s', tt) /\
    vol_typed VolS16 FMT_S16 2 48000 1 s'.
Proof.
  apply (volume_history_typed 8 VolS16 FMT_S16 2 48000 1); [constructor|lia| |].
  - apply (new_typed 8 VolS16 FMT_S16 2 48000 1 900 950 20 65536 0 SOF_VOLUME_LINEAR demo_life_world demo_life_dev 100 102
      (buf_on 100 2 1 demo_vol_in) (buf_on 102 1 3 demo_vol_out) demo_life_data).
    + constructor; simpl; lia || done.
    + lia.
    + vm_compute. reflexivity.
    + by constructor.
    + done.
    + apply demo_vol_running.
    + done.
    + by constructor.
  - repeat constructor; simpl; try lia; try apply demo_vol_running.
Defined.

(** After the command channel 0 goes down to the lowest gain and channel 1 up to the highest. *)
Example demo_life_gains :
  (r ← vol_ops_run 8 1 (take 7 demo_life) (demo_life_world, {[1 := demo_life_data]});
   cd ← r.1.2 !! 1; Some ((fun c => (vc_volume c, vc_tvolume c)) <$> take 2 (vd_chan cd), vd_ramp_finished cd)) =
  Some ([(0, 0); (410, VOL_MAX)], false).
Proof. vm_compute. reflexivity. Qed.

Definition demo_bare_world : world mm := mk_world ∅ ∅ ∅ (fun _ => 0) demo_mm [] ∅ (w_data demo_world) [] [].
Definition demo_vol_config : comp_ipc_config := mk_ipc_config 0 1 1 SOF_COMP_VOLUME 0 0 0 0.

Lemma volume_new_free_witness :
  exists s p, volume_new 8 100 300 0 demo_vol_config (SpecVolume 2 20 65536 0 SOF_VOLUME_LINEAR) (demo_bare_world, ∅) = Some (s, p) /\
    p <> 0 /\ exists s', volume_free p s = Some (s', tt) /\ al_live (w_alloc s'.1) ≡ₚ al_live demo_mm /\ w_devs s'.1 = ∅ /\ s'.2 = ∅.
Proof.
  assert ((fun r => r.2 =? 0) <$> volume_new 8 100 300 0 demo_vol_config (SpecVolume 2 20 65536 0 SOF_VOLUME_LINEAR) (demo_bare_world, ∅) = Some false)
    as Hp by (vm_compute; reflexivity).
  destruct (volume_new_free 8 100 300 ltac:(by apply request_okb_ok) ltac:(by apply request_okb_ok) 0 demo_vol_config 2 20 65536 0 SOF_VOLUME_LINEAR
    demo_bare_world ∅) as (s & p & E & H).
  - apply demo_mm_single.
  - intros q [? Hq]. simpl in Hq. by rewrite lookup_empty in Hq.
  - intros q [? Hq]. by rewrite lookup_empty in Hq.
  - rewrite E in Hp. simpl in Hp. assert (p <> 0) as Hne by (intros ->; done). rewrite decide_False in H by done.
    destruct H as (_ & _ & s' & Ef & _ & Hl & Hd & Hx). exists s, p. split; [exact E|]. split; [exact Hne|].
    exists s'. split; [exact Ef|]. split; [exact Hl|]. split; [exact Hd|exact Hx].
Defined.

(** *** What the code does not check *)

(** At 5512 Hz and periods of 1 ms a period has 5 frames, and the updates of a ramp
    below 32 ms are 0 frames apart; then the loop of a period makes no progress. *)
Definition spin_data : vol_data := set_ramp_frames demo_vol_data (ramp_frames 20 5 1000).

Example volume_copy_spins fuel :
  copy_chunks 8 fuel 1 100 102 4 4 8 0 (demo_vol_world, {[1 := spin_data]}) = None.
Proof.
  induction fuel as [|fuel IH]; [done|]. cbn [copy_chunks]. exact IH.
Qed.

(** A fade of no length divides by zero. *)
Example fade_of_no_length : volume_ramp 8 COMP_STATE_ACTIVE (demo_ramp SOF_VOLUME_WINDOWS_FADE 0 48 0 []) = None.
Proof. vm_compute. reflexivity. Qed.

(** A command for one channel starts the time of the ramp again: channel 0 in the
    middle of its ramp falls back to the start. *)
Example other_channel_falls_back :
  let gains r := (fun cd => vc_volume <$> take 2 (vd_chan cd)) <$> r in
  let half := ramp_run 8 COMP_STATE_ACTIVE (demo_ramp SOF_VOLUME_LINEAR 20 48 0 []) (replicate 10 48) in
  gains half = Some [32800; 16400] /\
  gains (cd ← half; r ← volume_ctrl_set_cmd 8 COMP_STATE_ACTIVE cd (mk_ctrl SOF_CTRL_CMD_VOLUME 1 [(1, 20000)]);
         ramp_run 8 COMP_STATE_ACTIVE r.1 [48]) = Some [3280; 16584].
Proof. vm_compute. split; reflexivity. Qed.

(** The limit from below compares an unsigned number with 0: a minimum from 2^31 on
    is a negative gain. *)
Example negative_gain :
  (fun cd => (vd_vol_min cd, vc_volume <$> head (vd_chan cd))) <$> init_volume 8 900 950 20 65536 (2 ^ 31) SOF_VOLUME_LINEAR =
  Some (- 2 ^ 31, Some (- 2 ^ 31)).
Proof. vm_compute. reflexivity. Qed.

(** A stream of more channels than the data has. *)
Example too_many_channels : prepare_channels 9 0 demo_life_data = None.
Proof. vm_compute. reflexivity. Qed.

(** An illegal channel in a command: the error comes when the channels before it have
    new targets, and without a ramp towards them. *)
Example partial_command :
  (fun r => (vc_volume <$> head (vd_chan r.1), vc_tvolume <$> head (vd_chan r.1), vd_vol_ramp_active r.1, r.2)) <$>
    volume_ctrl_set_cmd 8 COMP_STATE_ACTIVE demo_life_data (mk_ctrl SOF_CTRL_CMD_VOLUME 2 [(0, 1000); (8, 1000)]) =
  Some (Some 65536, Some 1000, false, - EINVAL).
Proof. vm_compute. reflexivity. Qed.
