(* ===== verification/TopologyThms.v ===== *)
(** * The host's commands as a whole

    Any sequence of commands that create, connect, complete and free components,
    buffers and pipelines acts on an abstract registry of identifiers and
    accounts for all memory. *)

From stdpp Require Import base list numbers option gmap sets.
From S2P Require Import Prelude StateM AudioStream Heap HeapMap HeapSpec HeapFree HeapZones Allocator Buffer.
From S2P Require Import CompState Pipeline PipelineOps PipelineWalk PipelineThms PipelineLife PipelineComplete.
From S2P Require Import Topology TopologyInv TopologyOps Mixer.

(** ** Graphs without dangling pointers, decidably *)

Definition graph_sound {A} (w : world A) : Prop :=
  map_Forall (fun _ d => Forall (fun b => is_Some (w_bufs w !! b)) (d_bsource_list d ++ d_bsink_list d) /\
    (d_pipeline d = 0 \/ is_Some (w_ppls w !! d_pipeline d))) (w_devs w) /\
  map_Forall (fun _ b => (b_source b = 0 \/ is_Some (w_devs w !! b_source b)) /\
    (b_sink b = 0 \/ is_Some (w_devs w !! b_sink b))) (w_bufs w) /\ w_ppls w !! 0 = None.

#[export] Instance graph_sound_dec {A} (w : world A) : Decision (graph_sound w).
Proof. apply _. Defined.

Lemma graph_sound_ok {A} (w : world A) : graph_sound w -> graph_ok w.
Proof.
  intros (Hd & Hb & Hp). constructor.
  - intros a d b Ha Hin. destruct (Hd a d Ha) as [Hl _]. rewrite Forall_forall in Hl. apply Hl. set_solver.
  - intros a b c Ha Hc H0. destruct (Hb a b Ha) as [H1 H2]. destruct Hc as [->| ->]; [by destruct H1|by destruct H2].
  - intros a d Ha H0. by destruct (Hd a d Ha) as [_ [?|?]].
  - unfold is_ppl. rewrite Hp. by intros [].
Qed.

(** ** Commands *)

Inductive ipc_cmd :=
| CompNew (comp : sof_ipc_comp)
| BufferNew (desc : sof_ipc_buffer)
| PipelineNew (desc : sof_ipc_pipe_new)
| CompConnect (source_id sink_id : Z)
| PipelineComplete (comp_id : Z)
| CompFree (comp_id : Z)
| BufferFree (buffer_id : Z)
| PipelineFree (comp_id : Z)
(** the component of an entry changes its state, as pipeline commands do *)
| StateChange (comp_id state : Z).

(** The registry the host sees: identifier and type of each entry. *)
Abbreviation registry := (list (Z * Z)) (only parsing).

Definition reg_find (id : Z) (reg : registry) : option Z := snd <$> List.find (fun x => x.1 =? id) reg.
Definition reg_del (id : Z) (reg : registry) : registry := filter (fun x => x.1 <> id) reg.

(** The entry a command creates, or frees. *)
Definition new_of (cmd : ipc_cmd) : option (Z * Z) :=
  match cmd with
  | CompNew comp => Some (cm_id comp, COMP_TYPE_COMPONENT)
  | BufferNew desc => Some (cm_id (ib_comp desc), COMP_TYPE_BUFFER)
  | PipelineNew desc => Some (pp_comp_id desc, COMP_TYPE_PIPELINE)
  | _ => None
  end.

Definition free_of (cmd : ipc_cmd) : option (Z * Z) :=
  match cmd with
  | CompFree id => Some (id, COMP_TYPE_COMPONENT)
  | BufferFree id => Some (id, COMP_TYPE_BUFFER)
  | PipelineFree id => Some (id, COMP_TYPE_PIPELINE)
  | _ => None
  end.

Definition connectable (source sink : option Z) : bool :=
  bool_decide ((source, sink) = (Some COMP_TYPE_BUFFER, Some COMP_TYPE_COMPONENT)) ||
  bool_decide ((source, sink) = (Some COMP_TYPE_COMPONENT, Some COMP_TYPE_BUFFER)).

(** What a command returns and does to the registry: a new identifier is added
    unless the command fails, a taken one is refused; an entry of the right type is
    removed unless a component is in use. *)
Definition reg_step (reg : registry) (cmd : ipc_cmd) (r : Z) (reg' : registry) : Prop :=
  match new_of cmd, free_of cmd, cmd with
  | Some (id, type), _, _ =>
      (r = 0 /\ reg_find id reg = None /\ reg' = reg ++ [(id, type)]) \/
      (r < 0 /\ reg' = reg /\ (reg_find id reg <> None -> r = - EINVAL))
  | _, Some (id, type), _ =>
      match reg_find id reg with
      | None => r = - ENODEV /\ reg' = reg
      | Some type' =>
          if negb (type' =? type) then r = - EINVAL /\ reg' = reg else
          (r = 0 /\ reg' = reg_del id reg) \/ (type <> COMP_TYPE_PIPELINE /\ r = - EINVAL /\ reg' = reg)
      end
  | _, _, CompConnect source_id sink_id =>
      reg' = reg /\ r = if connectable (reg_find source_id reg) (reg_find sink_id reg) then 0 else - EINVAL
  | _, _, _ => reg' = reg
  end.

Inductive reg_steps : registry -> list ipc_cmd -> list Z -> registry -> Prop :=
| reg_nil reg : reg_steps reg [] [] reg
| reg_cons reg cmd cmds r rs reg1 reg2 :
    reg_step reg cmd r reg1 -> reg_steps reg1 cmds rs reg2 -> reg_steps reg (cmd :: cmds) (r :: rs) reg2.

#[export] Instance request_ok_dec bytes alignment : Decision (request_ok bytes alignment).
Proof. unfold request_ok. apply _. Defined.

Section commands.
Context {A D : Type} `{!Allocator A} (e : env A) (fuel : nat) (data0 : pipeline_data).
Context (sizeof_buffer sizeof_ipc_comp_dev CONFIG_CORE_COUNT : Z) (stream_hdr : Z -> Z).
Context (dops : driver_ops A D) (ipc_process_on_core : Z -> T A D Z).
Implicit Types t : topo A D.

Definition exec_cmd (cmd : ipc_cmd) : T A D Z :=
  match cmd with
  | CompNew comp => ipc_comp_new sizeof_ipc_comp_dev CONFIG_CORE_COUNT dops comp
  | BufferNew desc => ipc_buffer_new sizeof_buffer sizeof_ipc_comp_dev desc
  | PipelineNew desc => ipc_pipeline_new e sizeof_ipc_comp_dev stream_hdr desc
  | CompConnect source_id sink_id => ipc_comp_connect e ipc_process_on_core source_id sink_id
  | PipelineComplete id => ipc_pipeline_complete e fuel data0 ipc_process_on_core id
  | CompFree id => ipc_comp_free e dops ipc_process_on_core id
  | BufferFree id => ipc_buffer_free e ipc_process_on_core id
  | PipelineFree id => ipc_pipeline_free e ipc_process_on_core id
  | StateChange id state =>
      icd ← ipc_get_comp_by_id id;
      if icd =? 0 then mret 0 else
      i ← get_icd icd;
      if negb (ic_type i =? COMP_TYPE_COMPONENT) then mret 0 else
      on_world (mod_dev (ic_ptr i) (set_state state)) ;; mret 0
  end.

Fixpoint exec_cmds (cmds : list ipc_cmd) : T A D (list Z) :=
  match cmds with
  | [] => mret []
  | cmd :: cmds => r ← exec_cmd cmd; rs ← exec_cmds cmds; mret (r :: rs)
  end.

(** Every entry with the identifier has a property. *)
Definition entry_is t (id : Z) (P : ipc_comp_dev -> Prop) : Prop :=
  Forall (fun icd => match tp_icds t !! icd with Some i => ic_id i <> id \/ P i | None => True end) (tp_comp_list t).

#[export] Instance entry_is_dec t id P : (forall i, Decision (P i)) -> Decision (entry_is t id P).
Proof. intros. apply Forall_dec. intros icd. destruct (tp_icds t !! icd); apply _. Defined.

(** No component has the buffer of the entry on its list for one direction: an
    item of an intrusive list can be on one list only. *)
Definition unlisted t (id : Z) (list_of : comp_dev -> list Z) : Prop :=
  entry_is t id (fun i => ic_type i = COMP_TYPE_BUFFER -> map_Forall (fun _ d => ic_ptr i ∉ list_of d) (w_devs (tp_world t))).

#[export] Instance unlisted_dec t id list_of : Decision (unlisted t id list_of).
Proof. apply entry_is_dec. intros i. apply _. Defined.

(** The buffers on the lists of a component have not been freed. *)
Definition lists_alive t (d : comp_dev) : Prop :=
  Forall (fun b => is_Some (w_bufs (tp_world t) !! b)) (d_bsource_list d ++ d_bsink_list d).

(** The component of the entry, if it is one, has such lists. *)
Definition relinkable t (id : Z) : Prop :=
  entry_is t id (fun i => ic_type i = COMP_TYPE_COMPONENT ->
    map_Forall (fun c d => c = ic_ptr i -> lists_alive t d) (w_devs (tp_world t))).

#[export] Instance relinkable_dec t id : Decision (relinkable t id).
Proof. apply entry_is_dec. intros i. apply _. Defined.

(** One core; sizes within the limits of the allocator; no buffer is connected
    twice on one side; a list that is changed links to no freed buffer; the graph of
    a pipeline to be completed is whole, and the identifier is one of a pipeline. *)
Definition cmd_ok t (cmd : ipc_cmd) : Prop :=
  match cmd with
  | CompNew comp => CONFIG_CORE_COUNT <= cm_core comp \/ u16 (cm_core comp) = cpu_id e
  | BufferNew desc => (ib_size desc = 0 \/ request_ok (ib_size desc) al_dcache) /\ u16 (cm_core (ib_comp desc)) = cpu_id e
  | PipelineNew desc => u16 (pp_core desc) = cpu_id e
  | CompConnect source_id sink_id => (unlisted t source_id d_bsource_list /\ unlisted t sink_id d_bsink_list) /\
      relinkable t source_id /\ relinkable t sink_id
  | PipelineComplete id => graph_sound (tp_world t) /\ (size (w_bufs (tp_world t)) < fuel)%nat /\
      entry_is t id (fun i => ic_type i = COMP_TYPE_PIPELINE)
  | BufferFree _ => map_Forall (fun _ d => d_state d = COMP_STATE_READY \/ lists_alive t d) (w_devs (tp_world t))
  | _ => True
  end.

#[export] Instance cmd_ok_dec t cmd : Decision (cmd_ok t cmd).
Proof. destruct cmd; simpl; apply _. Defined.

Fixpoint history_ok t (cmds : list ipc_cmd) : Prop :=
  match cmds with
  | [] => True
  | cmd :: cmds => cmd_ok t cmd /\ match exec_cmd cmd t with Some (t', _) => history_ok t' cmds | None => True end
  end.

#[export] Instance history_ok_dec t cmds : Decision (history_ok t cmds).
Proof.
  revert t. induction cmds as [|cmd cmds IH]; intros t; simpl; [apply _|].
  apply and_dec; [apply _|]. destruct (exec_cmd cmd t) as [[t' r]|]; [apply IH|apply _].
Defined.
End commands.

(** ** The registry of the entries *)

Definition reg_of (L : list entry) : registry := (fun x => (en_id x, ic_type (en_dev x))) <$> L.

Lemma reg_find_None id L : id ∉ en_id <$> L -> reg_find id (reg_of L) = None.
Proof.
  intros H. unfold reg_find. destruct (List.find _ _) as [[i ty]|] eqn:E; [|done]. exfalso.
  apply List.find_some in E as [Hin Hi]. simpl in Hi. apply H. apply list_elem_of_In, list_elem_of_fmap in Hin as (x & [= -> _] & Hx).
  apply list_elem_of_fmap. exists x. split; [lia|done].
Qed.

Lemma reg_find_app L1 x L2 :
  NoDup (en_id <$> L1 ++ x :: L2) -> reg_find (en_id x) (reg_of (L1 ++ x :: L2)) = Some (ic_type (en_dev x)).
Proof.
  intros N. unfold reg_find. induction L1 as [|y L1 IH]; simpl; [by rewrite Z.eqb_refl|].
  simpl in N. apply NoDup_cons in N as [Hy N]. destruct (en_id y =? en_id x) eqn:E; [|by apply IH].
  exfalso. apply Hy. rewrite fmap_app. simpl. assert (en_id y = en_id x) as -> by lia. set_solver.
Qed.

Lemma reg_find_elem L x : NoDup (en_id <$> L) -> x ∈ L -> reg_find (en_id x) (reg_of L) = Some (ic_type (en_dev x)).
Proof. intros N (L1 & L2 & ->)%list_elem_of_split. by apply reg_find_app. Qed.

Lemma reg_del_app L1 x L2 :
  NoDup (en_id <$> L1 ++ x :: L2) -> reg_del (en_id x) (reg_of (L1 ++ x :: L2)) = reg_of (L1 ++ L2).
Proof.
  intros N. rewrite fmap_app in N. simpl in N. rewrite <- Permutation_middle in N. apply NoDup_cons in N as [Hx _].
  assert (forall L, en_id x ∉ en_id <$> L -> reg_del (en_id x) (reg_of L) = reg_of L) as Hdel.
  { intros L HL. unfold reg_del. induction L as [|y L IH]; [done|]. rewrite fmap_cons, not_elem_of_cons in HL.
    unfold reg_of. rewrite fmap_cons, filter_cons_True by (simpl; intuition congruence). f_equal. apply IH. by destruct HL. }
  unfold reg_of at 1. rewrite fmap_app, fmap_cons. unfold reg_del. rewrite filter_app, filter_cons_False by (simpl; auto).
  fold (reg_of L1) (reg_of L2) (reg_del (en_id x) (reg_of L1)) (reg_del (en_id x) (reg_of L2)).
  rewrite !Hdel by set_solver. unfold reg_of. by rewrite fmap_app.
Qed.

Section histories.
Context {A D : Type} `{!Allocator A} (e : env A) (fuel : nat) (data0 : pipeline_data).
Context (sizeof_buffer sizeof_ipc_comp_dev CONFIG_CORE_COUNT : Z) (stream_hdr : Z -> Z).
Context (dops : driver_ops A D) `{!TopoDrivers dops} (ipc_process_on_core : Z -> T A D Z).
Context (Hbuffer : request_ok sizeof_buffer 0) (Hentry : request_ok sizeof_ipc_comp_dev 0).
Context (Hpipeline : request_ok (sizeof_pipeline e) 0) (Hmsg : request_ok (sizeof_ipc_msg e) 0)
  (Hposn : request_ok (sizeof_posn e) 0).
Implicit Types t : topo A D.

Abbreviation topo_ok := (topo_ok e sizeof_buffer dops).
Abbreviation exec_cmd := (exec_cmd e fuel data0 sizeof_buffer sizeof_ipc_comp_dev CONFIG_CORE_COUNT stream_hdr dops ipc_process_on_core).
Abbreviation exec_cmds := (exec_cmds e fuel data0 sizeof_buffer sizeof_ipc_comp_dev CONFIG_CORE_COUNT stream_hdr dops ipc_process_on_core).
Abbreviation history_ok := (history_ok e fuel data0 sizeof_buffer sizeof_ipc_comp_dev CONFIG_CORE_COUNT stream_hdr dops ipc_process_on_core).

(** A component could not be registered for lack of memory. *)
Definition lost_comp (cmd : ipc_cmd) (r : Z) : Prop := (exists comp, cmd = CompNew comp) /\ r = - ENOMEM.

(** The effect of one command. *)
Definition cmd_post base L (cmd : ipc_cmd) t' (r : Z) : Prop :=
  exists L' leak, topo_ok (leak ++ base) L' t' /\ reg_step (reg_of L) cmd r (reg_of L') /\ (leak = [] \/ lost_comp cmd r).

Lemma new_step base L cmd id type t t' r :
  NoDup (en_id <$> L) -> new_of cmd = Some (id, type) -> (type = COMP_TYPE_COMPONENT -> exists comp, cmd = CompNew comp) ->
  new_post e sizeof_buffer dops base L id type t t' r -> cmd_post base L cmd t' r.
Proof.
  intros N Hnew Hc [(-> & Hid & x & Hx & Ht & K)|(Hr & Hin & leak & K & Hleak)]; unfold cmd_post, reg_step; rewrite Hnew.
  - exists (L ++ [x]), []. split_and!; [done| |by left]. left. split_and!; [done|by apply reg_find_None|].
    unfold reg_of. rewrite fmap_app. simpl. by rewrite Hx, Ht.
  - exists L, leak. split_and!; [done| |].
    + right. split_and!; [done|done|]. intros Hf. apply Hin. destruct (decide (id ∈ en_id <$> L)); [done|].
      by rewrite reg_find_None in Hf.
    + destruct (decide (type = COMP_TYPE_COMPONENT)) as [->|]; [|left; auto].
      destruct (decide (r = - ENOMEM)) as [->|]; [|left; auto]. right. split; [by apply Hc|done].
Qed.

Lemma free_step base L cmd id type t t' r :
  topo_ok base L t -> new_of cmd = None -> free_of cmd = Some (id, type) ->
  free_post e sizeof_buffer dops base L id type t t' r -> cmd_post base L cmd t' r.
Proof.
  intros K Hnew Hfree [(Hid & -> & ->)|(L1 & x & L2 & -> & <- & Hcase)]; unfold cmd_post, reg_step; rewrite Hnew, Hfree.
  - exists L, []. split_and!; [done| |by left]. by rewrite reg_find_None.
  - pose proof (tk_ids _ _ _ _ _ _ K) as N. destruct Hcase as [(Ht & -> & ->)|[(Ht & Hp & -> & ->)|(Ht & -> & K')]].
    + exists (L1 ++ x :: L2), []. split_and!; [done| |by left]. rewrite (reg_find_app L1 x L2 N), (proj2 (Z.eqb_neq _ _) Ht). done.
    + exists (L1 ++ x :: L2), []. split_and!; [done| |by left]. rewrite (reg_find_app L1 x L2 N), Ht, Z.eqb_refl. simpl. by right.
    + exists (L1 ++ L2), []. split_and!; [done| |by left]. rewrite (reg_find_app L1 x L2 N), Ht, Z.eqb_refl. simpl. left.
      split; [done|]. symmetry. by apply reg_del_app.
Qed.

Lemma keep_step base L cmd t' r :
  topo_ok base L t' -> reg_step (reg_of L) cmd r (reg_of L) -> cmd_post base L cmd t' r.
Proof. intros K Hr. exists L, []. split_and!; [done|done|by left]. Qed.

Lemma connect_reg L source_id sink_id r :
  NoDup (en_id <$> L) ->
  (r = 0 /\ exists s k, s ∈ L /\ k ∈ L /\ en_id s = source_id /\ en_id k = sink_id /\ joins s k) \/
  (r = - EINVAL /\ forall s k, s ∈ L -> k ∈ L -> en_id s = source_id -> en_id k = sink_id -> ~ joins s k) ->
  r = if connectable (reg_find source_id (reg_of L)) (reg_find sink_id (reg_of L)) then 0 else - EINVAL.
Proof.
  intros N [(-> & s & k & Hs & Hk & <- & <- & Hj)|(-> & Hno)].
  - rewrite !reg_find_elem by done. unfold connectable. destruct Hj as [[-> ->]|[-> ->]]; done.
  - destruct (connectable _ _) eqn:E; [exfalso|done]. unfold connectable in E.
    assert (forall id ty, reg_find id (reg_of L) = Some ty -> exists x, x ∈ L /\ en_id x = id /\ ic_type (en_dev x) = ty) as Hfind.
    { intros id ty. unfold reg_find. destruct (List.find _ _) as [[i ty']|] eqn:Ef; [|done]. intros [= <-].
      apply List.find_some in Ef as [Hin Hi]. apply list_elem_of_In, list_elem_of_fmap in Hin as (x & [= -> ->] & Hx).
      exists x. split_and!; [done|simpl in Hi; lia|done]. }
    apply orb_true_iff in E as [E|E]; apply bool_decide_eq_true in E; injection E as E1 E2;
      destruct (Hfind _ _ E1) as (s & Hs & Es & Ts), (Hfind _ _ E2) as (k & Hk & Ek & Tk);
      apply (Hno s k Hs Hk Es Ek); [by left|by right].
Qed.

(** The lemma of an operation at the parameters of the section. *)
Ltac by_op l := eapply wp_mono;
  [by apply (l A D _ e fuel data0 sizeof_buffer sizeof_ipc_comp_dev CONFIG_CORE_COUNT stream_hdr dops _ ipc_process_on_core)|].

Lemma exec_cmd_ok base L t cmd :
  topo_ok base L t -> cmd_ok e fuel CONFIG_CORE_COUNT t cmd -> wp (exec_cmd cmd) t (cmd_post base L cmd).
Proof.
  intros K Hok. pose proof (tk_ids _ _ _ _ _ _ K) as N. destruct cmd; simpl in Hok |- *.
  - by_op (@comp_entry_new_ok). intros t' r. apply new_step; [done|done|]. intros _. by eexists.
  - destruct Hok. by_op (@buffer_entry_new_ok). intros t' r. by apply new_step.
  - by_op (@pipeline_entry_new_ok). intros t' r. by apply new_step.
  - by_op (@comp_connect_ok). intros t' r [K' Hr]. apply keep_step; [done|]. split; [done|]. by apply connect_reg.
  - destruct Hok as (G & Hf & Hid). apply graph_sound_ok in G. assert (forall x, x ∈ L -> en_id x = comp_id ->
      ic_type (en_dev x) = COMP_TYPE_PIPELINE) as Hty.
    { intros x Hx Ex. pose proof (tk_entries _ _ _ _ _ _ K) as HL. rewrite Forall_forall in HL.
      unfold entry_is in Hid. rewrite (tk_list _ _ _ _ _ _ K), Forall_fmap, Forall_forall in Hid.
      specialize (Hid x Hx). simpl in Hid. rewrite (eo_icd _ _ _ _ _ (HL x Hx)) in Hid. by destruct Hid. }
    by_op (@entry_complete_ok). intros t' r K'. by apply keep_step.
  - by_op (@comp_entry_free_ok). intros t' r. by apply (free_step base L _ comp_id COMP_TYPE_COMPONENT t).
  - by_op (@buffer_entry_free_ok). intros t' r. by apply (free_step base L _ buffer_id COMP_TYPE_BUFFER t).
  - by_op (@pipeline_entry_free_ok). intros t' r. by apply (free_step base L _ comp_id COMP_TYPE_PIPELINE t).
  - by_op (@state_change_ok). intros t' r K'. by apply keep_step.
Qed.

Lemma exec_cmds_ok base L t cmds :
  topo_ok base L t -> history_ok t cmds ->
  wp (exec_cmds cmds) t (fun t' rs => exists L' leak, topo_ok (leak ++ base) L' t' /\
    reg_steps (reg_of L) cmds rs (reg_of L') /\ (leak = [] \/ Exists (fun x => lost_comp x.1 x.2) (zip cmds rs))).
Proof.
  revert base L t. induction cmds as [|cmd cmds IH]; intros base L t K Hh; simpl.
  { apply wp_ret. exists L, []. split_and!; [done|constructor|by left]. }
  destruct Hh as [Hc Hh]. destruct (exec_cmd_ok base L t cmd K Hc) as (t1 & r & E & L1 & leak1 & K1 & S1 & Hl1).
  rewrite E in Hh. apply wp_bind. exists t1, r. split; [exact E|]. apply wp_bind.
  eapply wp_mono; [by apply (IH _ _ _ K1)|]. intros t2 rs (L2 & leak2 & K2 & S2 & Hl2). apply wp_ret.
  exists L2, (leak2 ++ leak1). rewrite <- app_assoc. split_and!; [done|by econstructor|]. simpl.
  destruct Hl2 as [->|Hl2]; [|right; by apply Exists_cons_tl]. destruct Hl1 as [->|Hl1]; [by left|right; by apply Exists_cons_hd].
Qed.

(** C5: Every proper sequence of commands of the host on an empty topology runs
    without a fault ([history_ok]): all objects are on this core; a completion names
    a pipeline or an unused identifier and finds a sound graph within the fuel of
    the walk; a buffer is not connected twice in one direction; components that are
    connected, and those not ready when a buffer is freed, have only live buffers on
    their lists; and the sizes are requests that the allocator accepts.
    ([complete_confuses_types] and [buffer_free_dangles] show faults of the code
    outside of this.) Each command returns what the registry of identifiers
    prescribes and changes it so: new identifiers are added, taken ones refused,
    entries of the right type removed. At the end every entry has its object with
    memory of its own, and the live memory is that of the entries and what was live
    before, so that nothing is lost when all entries are freed; only a component
    that could not be registered for lack of memory can leave something ([leak]). *)
Theorem ipc_commands_accounted t (cmds : list ipc_cmd) :
  al_inv (w_alloc (tp_world t)) -> Z.of_nat (length (w_posn (tp_world t))) * sizeof_posn e < 2 ^ 32 ->
  no_flags (tp_world t) -> tp_comp_list t = [] -> history_ok t cmds ->
  exists t' rs L leak, exec_cmds cmds t = Some (t', rs) /\ tp_comp_list t' = en_icd <$> L /\
    reg_steps [] cmds rs (reg_of L) /\ NoDup (en_id <$> L) /\ Forall (entry_ok e sizeof_buffer dops t') L /\
    al_live (w_alloc (tp_world t')) ≡ₚ ranges_of L ++ leak ++ al_live (w_alloc (tp_world t)) /\
    (leak = [] \/ Exists (fun x => lost_comp x.1 x.2) (zip cmds rs)).
Proof.
  intros Ha Ht Hf Hl Hh. assert (topo_ok (al_live (w_alloc (tp_world t))) [] t) as K.
  { constructor; try done; constructor. }
  destruct (exec_cmds_ok _ _ _ _ K Hh) as (t' & rs & E & L & leak & [] & S & Hleak).
  exists t', rs, L, leak. by split_and!.
Qed.
End histories.

(** ** Examples *)

#[local] Instance topology_allocator : Allocator mm := heap_allocator baytrail baytrail_dcache 4096 65536.

Abbreviation SOF_COMP_MIXER := 6 (only parsing).

(** Mixers are the only components; nothing is created yet. *)
Definition demo_topo_of (a : mm) : topo mm (gmap Z mixer_data) :=
  mk_topo (mk_world ∅ ∅ ∅ (fun _ => 0) a [false; false] ∅ (w_data demo_world) [] []) ∅
    [mk_driver_info SOF_COMP_MIXER [] 1] ∅ [].

Definition demo_topo : topo mm (gmap Z mixer_data) := demo_topo_of demo_mm.

Definition demo_comp (id : Z) : sof_ipc_comp :=
  mk_ipc_comp 64 id SOF_COMP_MIXER 7 0 0 [] sizeof_sof_ipc_comp_config 0 0 0 0 [].

Definition demo_bufcomp (id : Z) : sof_ipc_comp := mk_ipc_comp 64 id SOF_COMP_BUFFER 7 0 0 [] 0 0 0 0 0 [].

(** Two mixers with a buffer between them; then requests that are refused; then
    all is freed. *)
Definition demo_cmds : list ipc_cmd :=
  [CompNew (demo_comp 1); BufferNew (mk_ipc_buffer (demo_bufcomp 10) 384 SOF_MEM_CAPS_RAM 0); CompNew (demo_comp 2);
   CompConnect 1 10; CompConnect 10 2; PipelineNew (mk_pipe_new 20 7 2 0 1000 0 0 48 0 1); PipelineComplete 20;
   CompNew (demo_comp 10); CompConnect 1 2; BufferFree 1; CompFree 3;
   StateChange 1 COMP_STATE_ACTIVE; CompFree 1; StateChange 1 COMP_STATE_READY;
   BufferFree 10; CompFree 1; CompFree 2; PipelineFree 20].

Abbreviation on_demo f :=
  (f state_env 3%nat (w_data demo_world) 120 16 1 (fun id => id) (mixer_driver 64 16) (fun _ => mret 0)) (only parsing).

Lemma demo_history : on_demo (@history_ok mm (gmap Z mixer_data) _) demo_topo demo_cmds.
Proof. apply (bool_decide_unpack _). vm_compute. exact I. Qed.

Example demo_results :
  (snd <$> on_demo (@exec_cmds mm (gmap Z mixer_data) _) demo_cmds demo_topo) =
  Some [0; 0; 0; 0; 0; 0; 0; - EINVAL; - EINVAL; - EINVAL; - ENODEV; 0; - EINVAL; 0; 0; 0; 0; 0].
Proof. vm_compute. reflexivity. Qed.

Lemma ipc_commands_accounted_witness :
  exists t' rs, on_demo (@exec_cmds mm (gmap Z mixer_data) _) demo_cmds demo_topo = Some (t', rs) /\
    tp_comp_list t' = [] /\ al_live (w_alloc (tp_world t')) ≡ₚ al_live demo_mm.
Proof.
  assert (Hok : forall n, request_okb n 0 = true -> request_ok n 0) by (intros; by apply request_okb_ok).
  destruct (ipc_commands_accounted (TopoDrivers0 := mixer_topo_drivers 64 16 (Hok 64 eq_refl) (Hok 16 eq_refl))
    state_env 3 (w_data demo_world) 120 16 1 (fun id => id) (mixer_driver 64 16) (fun _ => mret 0)
    (Hok 120 eq_refl) (Hok 16 eq_refl) (Hok (sizeof_pipeline state_env) eq_refl)
    (Hok (sizeof_ipc_msg state_env) eq_refl) (Hok (sizeof_posn state_env) eq_refl) demo_topo demo_cmds)
    as (t' & rs & L & leak & E & Hl & Hr & _ & _ & Hlive & Hleak);
    [apply demo_mm_single|simpl; lia|intros b bf Hb; simpl in Hb; by rewrite lookup_empty in Hb|done|exact demo_history|].
  pose proof demo_results as Er. exists t', rs. split; [exact E|].
  assert ((length ∘ tp_comp_list ∘ fst <$> on_demo (@exec_cmds mm (gmap Z mixer_data) _) demo_cmds demo_topo) = Some 0%nat) as E0
    by (vm_compute; reflexivity).
  set (o := exec_cmds _ _ _ _ _ _ _ _ _ _ _) in *. clearbody o. subst o. injection E0 as E0. injection Er as ->.
  apply nil_length_inv in E0. split; [done|]. rewrite Hl in E0. apply fmap_nil_inv in E0 as ->.
  destruct Hleak as [->|Hleak]; [exact Hlive|].
  exfalso. repeat (apply Exists_cons in Hleak as [[_ ?]|Hleak]; [done|]). by apply Exists_nil in Hleak.
Defined.

(** A heap with two blocks: the component and its private data are created, the
    entry is not. The component is freed without its driver, and the private data
    stays allocated for ever. *)
Definition two_blocks : mm :=
  default demo_mm_raw (init_heap baytrail 65536
    (mk_mm [declared [] 65536 4096 SOF_MEM_CAPS_RAM] [declared [(64, 8%nat)] 4096 1024 SOF_MEM_CAPS_RAM] [] []
      [declared [(128, 2%nat)] 8192 256 SOF_MEM_CAPS_RAM] [declared [(384, 8%nat)] 16384 4096 SOF_MEM_CAPS_RAM] 0)).

Example comp_new_leaks :
  (x ← on_demo (@exec_cmds mm (gmap Z mixer_data) _) [CompNew (demo_comp 1)] (demo_topo_of two_blocks);
   Some (x.2, tp_comp_list x.1, length (al_live (w_alloc (tp_world x.1))))) = Some ([- ENOMEM], [], 1%nat).
Proof. vm_compute. reflexivity. Qed.

(** The completion of a "pipeline" with the identifier of a component: the pointer
    to the component is used as one to a pipeline. *)
Example complete_confuses_types :
  on_demo (@exec_cmds mm (gmap Z mixer_data) _) [CompNew (demo_comp 1); PipelineComplete 1] demo_topo = None.
Proof. vm_compute. reflexivity. Qed.

(** A buffer between two components in state READY is freed: both keep it on their
    lists. *)
Example buffer_free_dangles :
  (x ← on_demo (@exec_cmds mm (gmap Z mixer_data) _) (take 5 demo_cmds ++ [BufferFree 10]) demo_topo;
   Some (last x.2, bool_decide (graph_sound (tp_world x.1)))) = Some (Some 0, false).
Proof. vm_compute. reflexivity. Qed.
