(* ===== verification/Edf.v ===== *)
(** * The earliest-deadline-first scheduler

    [src/schedule/edf_schedule.c], for the scheduler of one core. A task is named
    by its address and the tasks of the scheduler are the sequence of their list
    items. Setting the context of a task, which is assembler, is recorded in
    [ed_current]: the task that runs when the interrupt returns. The scheduler
    interrupt that [schedule_edf] raises is [ed_irq]. [W] is the state of the rest
    of the program, which the completion of a task can change. *)

From stdpp Require Import base list numbers option gmap.
From S2P Require Import Prelude StateM LlSchedule.

Abbreviation SOF_TASK_DEADLINE_NOW := 0 (only parsing).
Abbreviation SOF_TASK_DEADLINE_IDLE := 18446744073709551615 (only parsing).

(** [et_pdata] is the private data with the context of the task, 0 when there is
    none. *)
Record edf_task := mk_edf_task {
  et_state : Z;
  et_pdata : Z
}.

Record edf (W : Type) := mk_edf {
  ed_list : list Z;
  ed_tasks : gmap Z edf_task;
  ed_current : Z;
  ed_irq : bool;
  ed_world : W
}.
Arguments mk_edf {W}. Arguments ed_list {W}. Arguments ed_tasks {W}. Arguments ed_current {W}.
Arguments ed_irq {W}. Arguments ed_world {W}.

Section edf.
Context {W : Type}.
Implicit Types (s : edf W) (t : Z).

Definition with_list s l := mk_edf l (ed_tasks s) (ed_current s) (ed_irq s) (ed_world s).
Definition with_edf_tasks s m := mk_edf (ed_list s) m (ed_current s) (ed_irq s) (ed_world s).
Definition with_current s t := mk_edf (ed_list s) (ed_tasks s) t (ed_irq s) (ed_world s).
Definition with_irq s b := mk_edf (ed_list s) (ed_tasks s) (ed_current s) b (ed_world s).
Definition with_world s (w : W) := mk_edf (ed_list s) (ed_tasks s) (ed_current s) (ed_irq s) w.

Definition get_edf_task t : ST (edf W) edf_task := fun s => k ← ed_tasks s !! t; Some (s, k).

Definition set_edf_state t (st : Z) : ST (edf W) unit := fun s =>
  k ← ed_tasks s !! t;
  Some (with_edf_tasks s (<[t := mk_edf_task st (et_pdata k)]> (ed_tasks s)), tt).

Definition edf_item_del t : ST (edf W) unit :=
  modify (fun s => with_list s (filter (fun u => u <> t) (ed_list s))).

(** ** Operations *)

Definition schedule_edf : ST (edf W) unit := modify (fun s => with_irq s true).

Definition is_queued_or_running (st : Z) : bool :=
  (st =? SOF_TASK_STATE_QUEUED) || (st =? SOF_TASK_STATE_RUNNING).

Definition schedule_edf_task t : ST (edf W) Z :=
  k ← get_edf_task t;
  if is_queued_or_running (et_state k) then mret (- EALREADY) else
  modify (fun s => with_list s (ed_list s ++ [t])) ;;
  set_edf_state t SOF_TASK_STATE_QUEUED ;;
  schedule_edf ;;
  mret 0.

Definition schedule_edf_task_running t : ST (edf W) Z :=
  k ← get_edf_task t;
  if et_pdata k =? 0 then fault else
  modify (fun s => with_current s t) ;;
  set_edf_state t SOF_TASK_STATE_RUNNING ;;
  mret 0.

(** The search of [edf_scheduler_run], from the item list [l] with the candidate
    [next] of deadline [deadline_next]. *)
Fixpoint edf_next (deadline : Z -> Z) (tasks : gmap Z edf_task) (l : list Z)
    (deadline_next next : Z) : option Z :=
  match l with
  | [] => Some next
  | t :: l =>
    k ← tasks !! t;
    if negb (is_queued_or_running (et_state k)) then edf_next deadline tasks l deadline_next next else
    if deadline t =? SOF_TASK_DEADLINE_NOW then Some t else
    if deadline t <=? deadline_next then edf_next deadline tasks l (deadline t) t
    else edf_next deadline tasks l deadline_next next
  end.

Definition edf_scheduler_run (deadline : Z -> Z) : ST (edf W) unit :=
  s ← gets id;
  next ← lift (edf_next deadline (ed_tasks s) (ed_list s) SOF_TASK_DEADLINE_IDLE 0);
  if next =? 0 then mret tt else schedule_edf_task_running next ;; mret tt.

(** [complete] is the completion operation of the task, if it has one. *)
Definition schedule_edf_task_complete (complete : option (ST (edf W) unit)) t : ST (edf W) Z :=
  default (mret tt) complete ;;
  set_edf_state t SOF_TASK_STATE_COMPLETED ;;
  edf_item_del t ;;
  mret 0.

Definition schedule_edf_task_cancel t : ST (edf W) Z :=
  k ← get_edf_task t;
  if et_state k =? SOF_TASK_STATE_QUEUED then
    set_edf_state t SOF_TASK_STATE_CANCEL ;;
    edf_item_del t ;;
    mret 0
  else mret 0.

Definition schedule_edf_task_free t : ST (edf W) Z :=
  k ← get_edf_task t;
  if et_pdata k =? 0 then fault else
  modify (fun s => with_edf_tasks s (<[t := mk_edf_task SOF_TASK_STATE_FREE 0]> (ed_tasks s))) ;;
  mret 0.

(** One turn of the loop of [schedule_edf_task_run]: [run] is the operation of
    the task. *)
Definition schedule_edf_task_run (run : ST (edf W) Z) (complete : option (ST (edf W) unit)) t :
    ST (edf W) unit :=
  st ← run;
  (if st =? SOF_TASK_STATE_COMPLETED then schedule_edf_task_complete complete t else mret 0) ;;
  schedule_edf.

(** ** Invariant *)

(** The list holds each active task once, and only tasks that can be switched
    to. *)
Record edf_ok s : Prop := {
  eo_nodup : NoDup (ed_list s);
  eo_null : 0 ∉ ed_list s;
  eo_list t : t ∈ ed_list s -> exists k, ed_tasks s !! t = Some k /\
    is_queued_or_running (et_state k) = true /\ et_pdata k <> 0;
  eo_idle t k : ed_tasks s !! t = Some k -> t ∉ ed_list s -> is_queued_or_running (et_state k) = false
}.

Lemma set_edf_state_ok s t k st : ed_tasks s !! t = Some k ->
  set_edf_state t st s = Some (with_edf_tasks s (<[t := mk_edf_task st (et_pdata k)]> (ed_tasks s)), tt).
Proof. intros Hk. unfold set_edf_state. by rewrite Hk. Qed.

Lemma edf_ok_frame s s' : ed_list s' = ed_list s -> ed_tasks s' = ed_tasks s -> edf_ok s -> edf_ok s'.
Proof. intros Hl Ht [H1 H2 H3 H4]. by split; rewrite ?Hl, ?Ht. Qed.

(** A task of the list changes between two active states. *)
Lemma edf_ok_active s t k st :
  edf_ok s -> ed_tasks s !! t = Some k -> t ∈ ed_list s -> is_queued_or_running st = true ->
  edf_ok (with_edf_tasks s (<[t := mk_edf_task st (et_pdata k)]> (ed_tasks s))).
Proof.
  intros [H1 H2 H3 H4] Hk Ht Hst. split; simpl; [done..| |].
  - intros u Hu. destruct (decide (u = t)) as [->|Hn]; [|rewrite lookup_insert_ne by done; eauto].
    rewrite lookup_insert_eq. eexists. split; [done|]. split; [done|].
    destruct (H3 t Ht) as (k' & Hk' & _ & Hp). simplify_eq. done.
  - intros u k' Hu Hn. rewrite lookup_insert_ne in Hu by (intros ->; done). eauto.
Qed.

(** A task leaves the list with an inactive state. *)
Lemma edf_ok_leave s t k st :
  edf_ok s -> ed_tasks s !! t = Some k -> is_queued_or_running st = false ->
  edf_ok (with_list (with_edf_tasks s (<[t := mk_edf_task st (et_pdata k)]> (ed_tasks s)))
    (filter (fun u => u <> t) (ed_list s))).
Proof.
  intros [H1 H2 H3 H4] Hk Hst. split; simpl.
  - by apply NoDup_filter.
  - intros [_ ?]%list_elem_of_filter. done.
  - intros u [Hn Hu]%list_elem_of_filter. rewrite lookup_insert_ne by done. eauto.
  - intros u k' Hu Hn. destruct (decide (u = t)) as [->|Hne].
    + rewrite lookup_insert_eq in Hu. by simplify_eq.
    + rewrite lookup_insert_ne in Hu by done. apply (H4 u k' Hu). intros Hin. apply Hn.
      by apply list_elem_of_filter.
Qed.

(** Queueing adds an inactive task once, at the end, and raises the interrupt; an
    active task is left where it is. *)
Lemma schedule_edf_task_wp s t k :
  edf_ok s -> t <> 0 -> ed_tasks s !! t = Some k -> et_pdata k <> 0 ->
  wp (schedule_edf_task t) s (fun s' r => edf_ok s' /\ ed_world s' = ed_world s /\
    ed_current s' = ed_current s /\
    if is_queued_or_running (et_state k) then r = - EALREADY /\ s' = s
    else r = 0 /\ ed_list s' = ed_list s ++ [t] /\ ed_irq s' = true /\
      ed_tasks s' = <[t := mk_edf_task SOF_TASK_STATE_QUEUED (et_pdata k)]> (ed_tasks s)).
Proof.
  intros Hok Ht Hk Hp. unfold schedule_edf_task, wp, get_edf_task. unfold mbind at 1, ST_bind. simpl. rewrite Hk. simpl.
  destruct (is_queued_or_running (et_state k)) eqn:Ea; [by eexists s, _|].
  unfold mbind, ST_bind, modify, set_edf_state. simpl. rewrite Hk. simpl. do 2 eexists. split; [reflexivity|]. simpl.
  assert (t ∉ ed_list s) as Hn.
  { intros Hin. destruct (eo_list s Hok t Hin) as (k' & Hk' & Ha & _). simplify_eq. congruence. }
  split; [|done]. destruct Hok as [H1 H2 H3 H4]. split; simpl.
  - apply NoDup_app. split; [done|]. split; [|apply NoDup_singleton].
    intros u Hu ->%list_elem_of_singleton. done.
  - rewrite elem_of_app, list_elem_of_singleton. intros [?|?]; [done|]. by apply Ht.
  - intros u [Hu | ->%list_elem_of_singleton]%elem_of_app.
    + rewrite lookup_insert_ne by (intros ->; done). eauto.
    + rewrite lookup_insert_eq. eauto.
  - intros u k' Hu Hnu. rewrite elem_of_app, list_elem_of_singleton in Hnu.
    rewrite lookup_insert_ne in Hu by (intros ->; apply Hnu; by right). apply (H4 u k' Hu). intros ?. apply Hnu. by left.
Qed.

Lemma schedule_edf_task_running_wp s t :
  edf_ok s -> t ∈ ed_list s ->
  wp (schedule_edf_task_running t) s (fun s' _ => edf_ok s' /\ exists k, ed_tasks s !! t = Some k /\
    s' = with_edf_tasks (with_current s t)
      (<[t := mk_edf_task SOF_TASK_STATE_RUNNING (et_pdata k)]> (ed_tasks s))).
Proof.
  intros Hok Ht. destruct (eo_list s Hok t Ht) as (k & Hk & Ha & Hp).
  unfold schedule_edf_task_running, wp, get_edf_task. unfold mbind at 1, ST_bind. simpl. rewrite Hk. simpl.
  case_if; zbool; [done|]. unfold mbind, ST_bind, modify. erewrite set_edf_state_ok by exact Hk. simpl.
  do 2 eexists. split; [reflexivity|]. split; [|by eauto].
  apply (edf_ok_active (with_current s t)); [|done..]. by eapply edf_ok_frame; [..|exact Hok].
Qed.

(** [complete] may change the rest of the program but not the tasks. *)
Lemma schedule_edf_task_complete_wp s t k (complete : option (ST (edf W) unit)) (Q : W -> Prop) :
  edf_ok s -> ed_tasks s !! t = Some k ->
  wp (default (mret tt) complete) s (fun s1 _ => exists w, Q w /\ s1 = with_world s w) ->
  wp (schedule_edf_task_complete complete t) s (fun s' r => edf_ok s' /\ r = 0 /\ Q (ed_world s') /\
    ed_list s' = filter (fun u => u <> t) (ed_list s) /\ ed_current s' = ed_current s /\ ed_irq s' = ed_irq s /\
    ed_tasks s' = <[t := mk_edf_task SOF_TASK_STATE_COMPLETED (et_pdata k)]> (ed_tasks s)).
Proof.
  intros Hok Hk (s1 & [] & Hc & w & Hq & ->). unfold schedule_edf_task_complete, wp.
  erewrite bind_Some by exact Hc. unfold mbind, ST_bind. erewrite set_edf_state_ok by exact Hk.
  do 2 eexists. split; [reflexivity|]. split; [|done].
  apply (edf_ok_leave (with_world s w)); [|done..]. by eapply edf_ok_frame; [..|exact Hok].
Qed.

Lemma schedule_edf_task_cancel_wp s t k :
  edf_ok s -> ed_tasks s !! t = Some k ->
  wp (schedule_edf_task_cancel t) s (fun s' r => edf_ok s' /\ r = 0 /\
    if et_state k =? SOF_TASK_STATE_QUEUED then t ∉ ed_list s' else s' = s).
Proof.
  intros Hok Hk. unfold schedule_edf_task_cancel, wp, get_edf_task. unfold mbind at 1, ST_bind. simpl. rewrite Hk. simpl.
  case_if; [|by eexists s, _]. unfold mbind, ST_bind. erewrite set_edf_state_ok by exact Hk.
  do 2 eexists. split; [reflexivity|]. split; [exact (edf_ok_leave s t k SOF_TASK_STATE_CANCEL Hok Hk eq_refl)|]. split; [done|]. simpl.
  rewrite list_elem_of_filter. by intros [? _].
Qed.

(** ** The task that is chosen *)

(** The search from a candidate of deadline [d] finds a task of the list with
    the least deadline, or keeps the candidate when none is earlier. *)
Lemma edf_next_least (deadline : Z -> Z) tasks l : forall d next,
  (forall t, t ∈ l -> exists k, tasks !! t = Some k /\ is_queued_or_running (et_state k) = true /\ 0 <= deadline t) ->
  0 <= d ->
  exists t, edf_next deadline tasks l d next = Some t /\
    ((t = next /\ forall u, u ∈ l -> d < deadline u) \/
     (t ∈ l /\ deadline t <= d /\ forall u, u ∈ l -> deadline t <= deadline u)).
Proof.
  induction l as [|x l IH]; intros d next Hl Hd; simpl.
  { exists next. split; [done|]. left. split; [done|]. intros u Hu. by apply not_elem_of_nil in Hu. }
  destruct (Hl x) as (k & Hk & Ha & Hx); [apply elem_of_cons; by left|]. rewrite Hk. simpl. rewrite Ha. simpl.
  assert (forall t, t ∈ l -> exists k, tasks !! t = Some k /\ is_queued_or_running (et_state k) = true /\ 0 <= deadline t) as Hl'.
  { intros t Ht. apply Hl. apply elem_of_cons. by right. }
  assert (forall u, u ∈ x :: l -> u = x \/ u ∈ l) as Hcons by (intros u Hu; by apply elem_of_cons in Hu).
  case_if; zbool.
  { exists x. split; [done|]. right. split; [apply elem_of_cons; by left|]. split; [lia|].
    intros u [->|Hu]%Hcons; [lia|]. destruct (Hl' u Hu) as (? & _ & _ & ?). lia. }
  case_if; zbool.
  - destruct (IH (deadline x) x Hl' Hx) as (t & -> & Ht). exists t. split; [done|]. right.
    destruct Ht as [[-> Hlt]|(Hin & Hle & Hmin)].
    + split; [apply elem_of_cons; by left|]. split; [lia|].
      intros u [->|Hu]%Hcons; [lia|]. specialize (Hlt u Hu). lia.
    + split; [apply elem_of_cons; by right|]. split; [lia|]. intros u [->|Hu]%Hcons; [lia|by apply Hmin].
  - destruct (IH d next Hl' Hd) as (t & -> & [[-> Hlt]|(Hin & Hle & Hmin)]).
    + exists next. split; [done|]. left. split; [done|]. intros u [->|Hu]%Hcons; [lia|by apply Hlt].
    + exists t. split; [done|]. right. split; [apply elem_of_cons; by right|]. split; [done|].
      intros u [->|Hu]%Hcons; [lia|by apply Hmin].
Qed.

(** The scheduler interrupt switches to an active task with the earliest deadline
    and leaves the other tasks and the queue alone. *)
Lemma edf_runs_earliest s (deadline : Z -> Z) :
  edf_ok s -> ed_list s <> [] -> (forall t, t ∈ ed_list s -> 0 <= deadline t <= SOF_TASK_DEADLINE_IDLE) ->
  wp (edf_scheduler_run deadline) s (fun s' _ => edf_ok s' /\ exists t k,
    t ∈ ed_list s /\ (forall u, u ∈ ed_list s -> deadline t <= deadline u) /\
    ed_tasks s !! t = Some k /\
    s' = with_edf_tasks (with_current s t)
      (<[t := mk_edf_task SOF_TASK_STATE_RUNNING (et_pdata k)]> (ed_tasks s))).
Proof.
  intros Hok Hne Hd.
  destruct (edf_next_least deadline (ed_tasks s) (ed_list s) SOF_TASK_DEADLINE_IDLE 0) as (t & Hn & Ht); [|lia|].
  { intros t Ht. destruct (eo_list s Hok t Ht) as (k & Hk & Ha & _). exists k. specialize (Hd t Ht). split_and!; [done..|lia]. }
  destruct Ht as [[-> Hlt]|(Hin & _ & Hmin)].
  { exfalso. destruct (ed_list s) as [|u l] eqn:El; [done|].
    assert (u ∈ u :: l) as Hu by (apply elem_of_cons; by left). specialize (Hlt u Hu). specialize (Hd u Hu). lia. }
  unfold edf_scheduler_run. apply wp_bind, wp_gets. apply wp_bind. eapply wp_lift; [exact Hn|].
  case_if; zbool; [subst t; by destruct (eo_null s Hok)|].
  apply wp_bind. eapply wp_mono; [by apply schedule_edf_task_running_wp|].
  intros s' _ (Hok' & k & Hk & ->). apply wp_ret. split; [done|]. by exists t, k.
Qed.
End edf.
