(* ===== verification/IpcTransport.v ===== *)
(** * Messages to and from the host

    The queue of notifications and the processing of commands in
    [src/ipc/ipc-common.c], the reply and the dispatch of [src/ipc/ipc3], the
    main task of [src/schedule/task.c] and the driver of the Baytrail platform,
    [src/drivers/intel/baytrail/ipc.c], which talks to the host through two pairs
    of registers and two mailboxes.

    The registers of the shim are a function of their offset. The interrupt
    status [SHIM_ISRD] is computed by the hardware from the other registers and is
    a parameter. A payload is the sequence of its bytes. The handlers of the
    command groups are a parameter [glb] that gives the outcome of a command. The
    functions that take the lock of the IPC run with interrupts disabled and are
    single steps. *)

From stdpp Require Import base list numbers option gmap.
From S2P Require Import Prelude StateM LlSchedule Edf.

(** ** Data *)

Abbreviation SHIM_ISRD := 32 (only parsing).
Abbreviation SHIM_IMRD := 48 (only parsing).
Abbreviation SHIM_IPCXL := 56 (only parsing).
Abbreviation SHIM_IPCXH := 60 (only parsing).
Abbreviation SHIM_IPCDL := 64 (only parsing).
Abbreviation SHIM_IPCDH := 68 (only parsing).

Definition BIT (n : Z) : Z := Z.shiftl 1 n.
#[global] Arguments BIT : simpl never.

Abbreviation SHIM_ISRD_DONE := (BIT 0) (only parsing).
Abbreviation SHIM_ISRD_BUSY := (BIT 1) (only parsing).
Abbreviation SHIM_IMRD_DONE := (BIT 0) (only parsing).
Abbreviation SHIM_IMRD_BUSY := (BIT 1) (only parsing).
Abbreviation SHIM_IPCXH_DONE := (BIT 30) (only parsing).
Abbreviation SHIM_IPCXH_BUSY := (BIT 31) (only parsing).
Abbreviation SHIM_IPCDH_DONE := (BIT 30) (only parsing).
Abbreviation SHIM_IPCDH_BUSY := (BIT 31) (only parsing).

Abbreviation IPC_TASK_INLINE := (BIT 0) (only parsing).
Abbreviation IPC_TASK_IN_THREAD := (BIT 1) (only parsing).

Abbreviation SOF_IPC_MSG_MAX_SIZE := 384 (only parsing).
Abbreviation MAILBOX_DSPBOX_SIZE := 1024 (only parsing).
Abbreviation MAILBOX_HOSTBOX_SIZE := 1024 (only parsing).
Abbreviation SIZEOF_CMD_HDR := 8 (only parsing).
Abbreviation SIZEOF_REPLY := 12 (only parsing).

Definition SOF_GLB_TYPE (x : Z) : Z := Z.shiftl x 28.
Definition SOF_IPC_GLB_REPLY : Z := SOF_GLB_TYPE 1.
Definition SOF_IPC_GLB_COMPOUND : Z := SOF_GLB_TYPE 2.
Definition SOF_IPC_GLB_TEST : Z := SOF_GLB_TYPE 11.

(** The groups with a handler of their own: topology, power management,
    components, streams, DAIs, trace, debugger, probes and debug. *)
Definition glb_groups : list Z := SOF_GLB_TYPE <$> [3; 4; 5; 6; 8; 9; 10; 12; 13].

(** A message and its payload of [x_tx_size] bytes. *)
Record tx_msg := mk_tx {
  x_header : Z;
  x_tx_size : Z;
  x_tx_data : list Z
}.

Record sof_ipc_reply := mk_reply {
  r_size : Z;
  r_cmd : Z;
  r_error : Z
}.

(** The IPC context of the firmware, the registers and the mailboxes. *)
Record ipc := mk_ipc {
  i_regs : Z -> Z;
  i_msgs : gmap Z tx_msg;
  i_msg_list : list Z;
  i_is_notification_pending : bool;
  i_task_mask : Z;
  i_pm_prepare_D3 : Z;
  i_comp_data : list Z;
  i_dspbox : list Z;
  i_hostbox : list Z
}.

Definition set_regs (w : ipc) r := mk_ipc r (i_msgs w) (i_msg_list w) (i_is_notification_pending w)
  (i_task_mask w) (i_pm_prepare_D3 w) (i_comp_data w) (i_dspbox w) (i_hostbox w).
Definition set_msgs (w : ipc) m := mk_ipc (i_regs w) m (i_msg_list w) (i_is_notification_pending w)
  (i_task_mask w) (i_pm_prepare_D3 w) (i_comp_data w) (i_dspbox w) (i_hostbox w).
Definition set_msg_list (w : ipc) l := mk_ipc (i_regs w) (i_msgs w) l (i_is_notification_pending w)
  (i_task_mask w) (i_pm_prepare_D3 w) (i_comp_data w) (i_dspbox w) (i_hostbox w).
Definition set_pending (w : ipc) b := mk_ipc (i_regs w) (i_msgs w) (i_msg_list w) b
  (i_task_mask w) (i_pm_prepare_D3 w) (i_comp_data w) (i_dspbox w) (i_hostbox w).
Definition set_task_mask (w : ipc) m := mk_ipc (i_regs w) (i_msgs w) (i_msg_list w)
  (i_is_notification_pending w) m (i_pm_prepare_D3 w) (i_comp_data w) (i_dspbox w) (i_hostbox w).
Definition set_pm_prepare_D3 (w : ipc) d := mk_ipc (i_regs w) (i_msgs w) (i_msg_list w)
  (i_is_notification_pending w) (i_task_mask w) d (i_comp_data w) (i_dspbox w) (i_hostbox w).
Definition set_comp_data (w : ipc) c := mk_ipc (i_regs w) (i_msgs w) (i_msg_list w)
  (i_is_notification_pending w) (i_task_mask w) (i_pm_prepare_D3 w) c (i_dspbox w) (i_hostbox w).
Definition set_dspbox (w : ipc) b := mk_ipc (i_regs w) (i_msgs w) (i_msg_list w)
  (i_is_notification_pending w) (i_task_mask w) (i_pm_prepare_D3 w) (i_comp_data w) b (i_hostbox w).
Definition set_hostbox (w : ipc) b := mk_ipc (i_regs w) (i_msgs w) (i_msg_list w)
  (i_is_notification_pending w) (i_task_mask w) (i_pm_prepare_D3 w) (i_comp_data w) (i_dspbox w) b.

Abbreviation M := (ST (edf ipc)).

Definition get {B} (f : ipc -> B) : M B := gets (fun s => f (ed_world s)).
Definition upd (f : ipc -> ipc) : M unit := modify (fun s => with_world s (f (ed_world s))).

(** ** Bytes *)

Definition le32 (x : Z) : list Z :=
  [x mod 256; x / 256 mod 256; x / 65536 mod 256; x / 16777216 mod 256].

Definition read32 (l : list Z) (off : nat) : Z :=
  nth off l 0 + 256 * nth (off + 1) l 0 + 65536 * nth (off + 2) l 0 + 16777216 * nth (off + 3) l 0.

Definition reply_bytes (r : sof_ipc_reply) : list Z :=
  le32 (r_size r) ++ le32 (r_cmd r) ++ le32 (u32 (r_error r)).

(** [memcpy_s] of [n] bytes of [src] over the start of a box of [size] bytes,
    whose error the callers assert not to happen. *)
Definition box_write (size : Z) (box src : list Z) (n : Z) : option (list Z) :=
  if n >? size then None else
  if Z.of_nat (length src) <? n then None else
  Some (take (Z.to_nat n) src ++ drop (Z.to_nat n) box).

Definition mailbox_dspbox_write (src : list Z) (n : Z) : M unit :=
  box ← get i_dspbox;
  box ← lift (box_write MAILBOX_DSPBOX_SIZE box src n);
  upd (fun w => set_dspbox w box).

Definition mailbox_hostbox_write (src : list Z) (n : Z) : M unit :=
  box ← get i_hostbox;
  box ← lift (box_write MAILBOX_HOSTBOX_SIZE box src n);
  upd (fun w => set_hostbox w box).

Section driver.
Context (isrd : (Z -> Z) -> Z) (ipc_task : Z) (CONFIG_DEBUG : bool).

(** ** Registers *)

Definition shim_value (r : Z -> Z) (reg : Z) : Z := if reg =? SHIM_ISRD then isrd r else r reg.

Definition shim_read (reg : Z) : M Z := get (fun w => shim_value (i_regs w) reg).

Definition shim_write (reg val : Z) : M unit :=
  upd (fun w => set_regs w (fun x => if x =? reg then val else i_regs w x)).

(** ** Notifications *)

Definition get_tx (msg : Z) : M tx_msg := fun s => m ← i_msgs (ed_world s) !! msg; Some (s, m).

Definition msg_item_del (msg : Z) : M unit :=
  upd (fun w => set_msg_list w (filter (fun u => u <> msg) (i_msg_list w))).

Definition ipc_platform_send_msg (msg : Z) : M Z :=
  pending ← get i_is_notification_pending;
  ipcdh ← shim_read SHIM_IPCDH;
  if (pending : bool) || negb (Z.land ipcdh (Z.lor SHIM_IPCDH_BUSY SHIM_IPCDH_DONE) =? 0) then mret (- EBUSY) else
  m ← get_tx msg;
  mailbox_dspbox_write (x_tx_data m) (x_tx_size m) ;;
  msg_item_del msg ;;
  upd (fun w => set_pending w true) ;;
  shim_write SHIM_IPCDL (x_header m) ;;
  shim_write SHIM_IPCDH SHIM_IPCDH_BUSY ;;
  mret 0.

Definition ipc_send_queued_msg : M unit :=
  q ← get i_msg_list;
  match (q : list Z) with
  | [] => mret tt
  | msg :: _ => ipc_platform_send_msg msg ;; mret tt
  end.

(** The copy of the payload at the start of [ipc_msg_send]. *)
Definition copy_payload (msg : Z) (data : list Z) : M unit :=
  m ← get_tx msg;
  if (x_tx_size m >? 0) && (x_tx_size m <? SOF_IPC_MSG_MAX_SIZE) then
    d ← lift (box_write (x_tx_size m) (x_tx_data m) data (x_tx_size m));
    upd (fun w => set_msgs w (<[msg := mk_tx (x_header m) (x_tx_size m) d]> (i_msgs w)))
  else mret tt.

Definition ipc_msg_send (msg : Z) (data : list Z) (high_priority : bool) : M unit :=
  copy_payload msg data ;;
  ret ← (if high_priority then ipc_platform_send_msg msg else mret (- EBUSY));
  if ret =? 0 then mret tt else
  q ← get i_msg_list;
  if bool_decide (msg ∈ (q : list Z)) then mret tt else
  upd (fun w => set_msg_list w (if high_priority then msg :: i_msg_list w else i_msg_list w ++ [msg])).

(** ** Commands *)

Definition ipc_schedule_process : M unit := schedule_edf_task ipc_task ;; mret tt.

(** A reply of the host to a notification, in [irq_handler]. *)
Definition irq_done (isr imrd : Z) : M unit :=
  if negb (Z.land isr SHIM_ISRD_DONE =? 0) && (Z.land imrd SHIM_IMRD_DONE =? 0) then
    x ← shim_read SHIM_IMRD; shim_write SHIM_IMRD (Z.lor x SHIM_IMRD_DONE) ;;
    x ← shim_read SHIM_IPCDH; shim_write SHIM_IPCDH (Z.ldiff x SHIM_IPCDH_DONE) ;;
    upd (fun w => set_pending w false) ;;
    x ← shim_read SHIM_IMRD; shim_write SHIM_IMRD (Z.ldiff x SHIM_IMRD_DONE)
  else mret tt.

(** A new command of the host, in [irq_handler]. *)
Definition irq_busy (isr imrd : Z) : M unit :=
  if negb (Z.land isr SHIM_ISRD_BUSY =? 0) && (Z.land imrd SHIM_IMRD_BUSY =? 0) then
    x ← shim_read SHIM_IMRD; shim_write SHIM_IMRD (Z.lor x SHIM_IMRD_BUSY) ;;
    ipc_schedule_process
  else mret tt.

Definition irq_handler : M unit :=
  isr ← shim_read SHIM_ISRD;
  imrd ← shim_read SHIM_IMRD;
  irq_done isr imrd ;;
  irq_busy isr imrd.

Definition ipc_platform_complete_cmd : M unit :=
  ipcxh ← shim_read SHIM_IPCXH;
  shim_write SHIM_IPCXH (Z.lor (Z.ldiff ipcxh SHIM_IPCXH_BUSY) SHIM_IPCXH_DONE) ;;
  x ← shim_read SHIM_IMRD; shim_write SHIM_IMRD (Z.ldiff x SHIM_IMRD_BUSY).

Definition ipc_complete_cmd : M unit :=
  mask ← get i_task_mask;
  if negb (mask =? 0) then mret tt else ipc_platform_complete_cmd.

Definition ipc_complete_task : M unit :=
  upd (fun w => set_task_mask w (Z.ldiff (i_task_mask w) IPC_TASK_INLINE)) ;;
  ipc_complete_cmd.

Definition ipc_msg_reply (reply : sof_ipc_reply) : M unit :=
  mailbox_hostbox_write (reply_bytes reply) (r_size reply) ;;
  upd (fun w => set_task_mask w (Z.ldiff (i_task_mask w) IPC_TASK_IN_THREAD)) ;;
  ipc_complete_cmd.

(** The command in the mailbox, [None] when its size is wrong. The hostbox is
    read into the command buffer, the header first. *)
Definition mailbox_validate : M (option Z) :=
  host ← get i_hostbox;
  comp_data ← get i_comp_data;
  let hdr := take 8 (host : list Z) ++ drop 8 (comp_data : list Z) in
  upd (fun w => set_comp_data w hdr) ;;
  let size := read32 hdr 0 in
  if (size <? SIZEOF_CMD_HDR) || (size >? SOF_IPC_MSG_MAX_SIZE) then mret None else
  upd (fun w => set_comp_data w (take (Z.to_nat size) host ++ drop (Z.to_nat size) hdr)) ;;
  mret (Some (read32 hdr 4)).

(** What the handler of a command group does: its result, whether it leaves the
    reply to the pipeline task, as a trigger does that the pipeline delays, the
    reply it writes itself when the result is positive, and the value it gives
    [pm_prepare_D3], as the commands do that save and restore the context. *)
Record glb_outcome := mk_outcome {
  g_ret : Z;
  g_in_thread : bool;
  g_reply : list Z;
  g_prepare_D3 : option Z
}.

Definition run_glb (o : glb_outcome) : M Z :=
  (if g_in_thread o then upd (fun w => set_task_mask w (Z.lor (i_task_mask w) IPC_TASK_IN_THREAD))
   else mret tt) ;;
  (if g_ret o >? 0 then mailbox_hostbox_write (g_reply o) (Z.of_nat (length (g_reply o))) else mret tt) ;;
  upd (fun w => set_pm_prepare_D3 w (default (i_pm_prepare_D3 w) (g_prepare_D3 o))) ;;
  mret (g_ret o).

(** [glb] is given the group, the command and the command buffer. *)
Definition ipc_cmd (glb : Z -> Z -> list Z -> glb_outcome) (hdr : option Z) : M unit :=
  ret ← match hdr with
    | None => mret (- EINVAL)
    | Some cmd =>
      let type := Z.land cmd (SOF_GLB_TYPE 15) in
      if type =? SOF_IPC_GLB_REPLY then mret 0 else
      if type =? SOF_IPC_GLB_COMPOUND then mret (- EINVAL) else
      if bool_decide (type ∈ glb_groups) || (CONFIG_DEBUG && (type =? SOF_IPC_GLB_TEST)) then
        c ← get i_comp_data; run_glb (glb type cmd c)
      else mret (- EINVAL)
    end;
  if ret <=? 0 then
    mailbox_hostbox_write (reply_bytes (mk_reply SIZEOF_REPLY SOF_IPC_GLB_REPLY ret)) SIZEOF_REPLY
  else mret tt.

Definition ipc_platform_do_cmd (glb : Z -> Z -> list Z -> glb_outcome) : M Z :=
  hdr ← mailbox_validate;
  ipc_cmd glb hdr ;;
  mret SOF_TASK_STATE_COMPLETED.

Definition ipc_do_cmd (glb : Z -> Z -> list Z -> glb_outcome) : M Z :=
  upd (fun w => set_task_mask w IPC_TASK_INLINE) ;;
  ipc_platform_do_cmd glb.

(** One turn of the loop of [task_main_primary_core]. *)
Definition task_main_turn : M unit :=
  d3 ← get i_pm_prepare_D3;
  if d3 =? 0 then ipc_send_queued_msg else mret tt.

(** The end of [platform_ipc_init]: both interrupts are unmasked. *)
Definition platform_ipc_unmask : M unit :=
  imrd ← shim_read SHIM_IMRD;
  shim_write SHIM_IMRD (Z.ldiff imrd (Z.lor SHIM_IMRD_BUSY SHIM_IMRD_DONE)).
End driver.
