(* ===== verification/IpcSystem.v ===== *)
(** * The firmware and the host

    The firmware of [IpcTransport] and the host side by side: an action is a step
    of the firmware that is not interrupted, or of the host. The host follows the
    protocol of the registers: it takes a notification while [BUSY] is set in
    [SHIM_IPCDH] and answers with [DONE], it sends a command when [SHIM_IPCXH] is
    clear, and it takes the answer when [DONE] is set. The EDF scheduler has the
    main task and the IPC task. Any history of actions keeps the invariants
    [note_inv] of the notifications and [cmd_inv] of the commands. *)

From stdpp Require Import base list numbers option gmap.
From S2P Require Import Prelude StateM LlSchedule Edf IpcTransport.

#[local] Arguments Z.testbit : simpl never.
#[local] Arguments Z.lor : simpl never.
#[local] Arguments Z.ldiff : simpl never.

(** ** The system *)

(** Beside the firmware, the record of what happened: messages accepted by the
    queue, messages transmitted with the data last sent for them, what the host
    received, the commands of the host, the commands the firmware dispatched, the
    replies it wrote and the answers the host took. [y_last] is the data last sent
    for each message and [y_high] tells whether a message of high priority was
    sent. *)
Record sys := mk_sys {
  y_fw : edf ipc;
  y_accepted : list Z;
  y_due : list (Z * list Z);
  y_received : list (Z * list Z);
  y_last : gmap Z (list Z);
  y_high : bool;
  y_cmds : list (list Z);
  y_runs : list (option (list Z));
  y_replies : list (list Z);
  y_answers : list (list Z)
}.

Abbreviation world s := (ed_world (y_fw s)).

Definition with_fw (s : sys) f := mk_sys f (y_accepted s) (y_due s) (y_received s) (y_last s) (y_high s)
  (y_cmds s) (y_runs s) (y_replies s) (y_answers s).
Definition with_sent (s : sys) acc last high := mk_sys (y_fw s) acc (y_due s) (y_received s) last high
  (y_cmds s) (y_runs s) (y_replies s) (y_answers s).
Definition with_due (s : sys) d := mk_sys (y_fw s) (y_accepted s) d (y_received s) (y_last s) (y_high s)
  (y_cmds s) (y_runs s) (y_replies s) (y_answers s).
Definition with_received (s : sys) r := mk_sys (y_fw s) (y_accepted s) (y_due s) r (y_last s) (y_high s)
  (y_cmds s) (y_runs s) (y_replies s) (y_answers s).
Definition with_commands (s : sys) c r p a := mk_sys (y_fw s) (y_accepted s) (y_due s) (y_received s)
  (y_last s) (y_high s) c r p a.

Inductive action :=
| MsgSend (msg : Z) (data : list Z) (high_priority : bool)
| MainLoop
| Irq
| EdfIrq
| RunTask (glb : Z -> Z -> list Z -> glb_outcome)
| CompleteTask
| ThreadReply (r : sof_ipc_reply)
| HostRead
| HostCommand (c : list Z)
| HostAnswer.

Section system.
Context (isrd : (Z -> Z) -> Z) (ipc_task main_task : Z) (CONFIG_DEBUG : bool).

(** A step of the firmware. *)
Definition step {B} (m : M B) (s : sys) : option sys := f ← m (y_fw s); Some (with_fw s f.1).

(** A step of the host on the registers and mailboxes. *)
Definition host (f : ipc -> ipc) (s : sys) : sys :=
  with_fw s (with_world (y_fw s) (f (world s))).

(** Note the transmission of [msg] when it happened. *)
Definition note_due (msg : Z) (s s' : sys) : sys :=
  if negb (i_is_notification_pending (world s)) && i_is_notification_pending (world s')
  then with_due s' (y_due s' ++ [(msg, default [] (y_last s' !! msg))]) else s'.

Definition deadline (t : Z) : Z := if t =? ipc_task then SOF_TASK_DEADLINE_NOW else SOF_TASK_DEADLINE_IDLE.

Definition ipc_task_runs (s : sys) : bool :=
  (ed_current (y_fw s) =? ipc_task) &&
  bool_decide (et_state <$> ed_tasks (y_fw s) !! ipc_task = Some SOF_TASK_STATE_RUNNING).

(** The command that [mailbox_validate] finds. *)
Definition dispatched (s : sys) : option (list Z) :=
  match mailbox_validate (y_fw s) with
  | Some (f, Some _) =>
    let c := i_comp_data (ed_world f) in Some (take (Z.to_nat (read32 c 0)) c)
  | _ => None
  end.

Definition act_send (msg : Z) (data : list Z) (high : bool) (s : sys) : option sys :=
  let acc := if bool_decide (msg ∈ i_msg_list (world s)) then y_accepted s else y_accepted s ++ [msg] in
  let s1 := with_sent s acc (<[msg := data]> (y_last s)) (y_high s || high) in
  s' ← step (ipc_msg_send isrd msg data high) s1;
  Some (note_due msg s s').

Definition act_main (s : sys) : option sys :=
  if negb (ed_current (y_fw s) =? main_task) then Some s else
  s' ← step (task_main_turn isrd) s;
  Some (note_due (default 0 (head (i_msg_list (world s)))) s s').

Definition act_edf (s : sys) : option sys :=
  if negb (ed_irq (y_fw s)) then Some s else
  step (modify (fun f => with_irq f false) ;; edf_scheduler_run deadline) s.

Definition act_run (glb : Z -> Z -> list Z -> glb_outcome) (s : sys) : option sys :=
  if negb (ipc_task_runs s) || Z.testbit (i_task_mask (world s)) 0 then Some s else
  s' ← step (ipc_do_cmd CONFIG_DEBUG glb) s;
  Some (with_commands s' (y_cmds s) (y_runs s ++ [dispatched s])
    (y_replies s ++ if Z.testbit (i_task_mask (world s')) 1 then [] else [i_hostbox (world s')]) (y_answers s)).

Definition act_complete (s : sys) : option sys :=
  if negb (ipc_task_runs s) || negb (Z.testbit (i_task_mask (world s)) 0) then Some s else
  step (schedule_edf_task_complete (Some (ipc_complete_task isrd)) ipc_task ;; schedule_edf) s.

Definition act_reply (r : sof_ipc_reply) (s : sys) : option sys :=
  if negb (Z.testbit (i_task_mask (world s)) 1) then Some s else
  s' ← step (ipc_msg_reply isrd r) s;
  Some (with_commands s' (y_cmds s) (y_runs s) (y_replies s ++ [i_hostbox (world s')]) (y_answers s)).

Definition set_reg (reg val : Z) (w : ipc) : ipc :=
  set_regs w (fun x => if x =? reg then val else i_regs w x).

Definition act_host_read (s : sys) : sys :=
  let r := i_regs (world s) in
  if negb (Z.testbit (r SHIM_IPCDH) 31) then s else
  with_received (host (set_reg SHIM_IPCDH (Z.lor (Z.ldiff (r SHIM_IPCDH) SHIM_IPCDH_BUSY) SHIM_IPCDH_DONE)) s)
    (y_received s ++ [(r SHIM_IPCDL, i_dspbox (world s))]).

Definition act_host_command (c : list Z) (s : sys) : sys :=
  let r := i_regs (world s) in
  if Z.testbit (r SHIM_IPCXH) 31 || Z.testbit (r SHIM_IPCXH) 30 then s else
  with_commands (host (fun w => set_hostbox (set_reg SHIM_IPCXH SHIM_IPCXH_BUSY w) c) s)
    (y_cmds s ++ [c]) (y_runs s) (y_replies s) (y_answers s).

Definition act_host_answer (s : sys) : sys :=
  let r := i_regs (world s) in
  if negb (Z.testbit (r SHIM_IPCXH) 30) then s else
  with_commands (host (set_reg SHIM_IPCXH (Z.ldiff (r SHIM_IPCXH) SHIM_IPCXH_DONE)) s)
    (y_cmds s) (y_runs s) (y_replies s) (y_answers s ++ [i_hostbox (world s)]).

(** An action that cannot happen in a state leaves it unchanged; [None] is a
    panic of the firmware. *)
Definition act (a : action) (s : sys) : option sys :=
  match a with
  | MsgSend msg data high => act_send msg data high s
  | MainLoop => act_main s
  | Irq => step (irq_handler isrd ipc_task) s
  | EdfIrq => act_edf s
  | RunTask glb => act_run glb s
  | CompleteTask => act_complete s
  | ThreadReply r => act_reply r s
  | HostRead => Some (act_host_read s)
  | HostCommand c => Some (act_host_command c s)
  | HostAnswer => Some (act_host_answer s)
  end.

Fixpoint run (l : list action) (s : sys) : option sys :=
  match l with
  | [] => Some s
  | a :: l => s' ← act a s; run l s'
  end.

Lemma run_app l1 l2 s : run (l1 ++ l2) s = s' ← run l1 s; run l2 s'.
Proof.
  revert s. induction l1 as [|a l1 IH]; intros s; simpl; [done|]. destruct (act a s); simpl; [apply IH|done].
Qed.

(** ** Bits *)

Lemma land_bit x n : 0 <= n -> negb (Z.land x (BIT n) =? 0) = Z.testbit x n.
Proof.
  intros Hn. unfold BIT. rewrite Z.shiftl_1_l. destruct (Z.testbit x n) eqn:E.
  - apply negb_true_iff, Z.eqb_neq. intros H. assert (Z.testbit (Z.land x (2 ^ n)) n = true) as H1.
    { rewrite Z.land_spec, E, Z.pow2_bits_true by lia. done. }
    rewrite H, Z.bits_0 in H1. done.
  - apply negb_false_iff, Z.eqb_eq. apply Z.bits_inj'. intros k Hk. rewrite Z.land_spec, Z.bits_0.
    destruct (decide (k = n)) as [->|]; [by rewrite E|]. rewrite Z.pow2_bits_false by lia. apply andb_false_r.
Qed.

Lemma land_bit_0 x n : 0 <= n -> (Z.land x (BIT n) =? 0) = negb (Z.testbit x n).
Proof. intros. rewrite <- land_bit by done. by rewrite negb_involutive. Qed.

Lemma land_two_bits x a b : 0 <= a -> 0 <= b ->
  negb (Z.land x (Z.lor (BIT a) (BIT b)) =? 0) = Z.testbit x a || Z.testbit x b.
Proof.
  intros Ha Hb. rewrite <- !land_bit, Z.land_lor_distr_r by done. rewrite <- negb_andb. f_equal.
  apply eq_true_iff_eq. rewrite andb_true_iff, !Z.eqb_eq, Z.lor_eq_0_iff. done.
Qed.
End system.

(** Bits of a register after writes. *)
Ltac bits :=
  repeat (rewrite Z.lor_spec || rewrite Z.ldiff_spec);
  repeat match goal with
  | |- context [Z.testbit (BIT ?a) ?b] =>
    let v := eval vm_compute in (Z.testbit (BIT a) b) in change (Z.testbit (BIT a) b) with v
  end;
  rewrite ?andb_true_r, ?andb_false_r, ?orb_false_r, ?orb_true_r; simpl.

(** Bits of a register after the writes of a function. *)
Ltac regs := simpl; unfold shim_value; simpl; bits.

(** ** Invariants *)

(** The stages of a command. *)
Inductive stage := Idle | Requested | Queued | Picked | Inline | Both | Thread.

#[global] Instance stage_eq_dec : EqDecision stage.
Proof. solve_decision. Defined.

Section invariants.
Context (ipc_task main_task : Z) (sig : gmap Z (Z * Z)).

(** [sig] gives the header and the size of the payload of each message. *)
Definition msg_sig (m : tx_msg) : Z * Z := (x_header m, x_tx_size m).

Definition line (w : ipc) (pending busy done : bool) : Prop :=
  i_is_notification_pending w = pending /\ Z.testbit (i_regs w SHIM_IPCDH) 31 = busy /\
  Z.testbit (i_regs w SHIM_IPCDH) 30 = done.

(** The payload of a message of [size] bytes that was sent with the data [d]: the
    data, which [ipc_msg_send] copies when the message is smaller than
    [SOF_IPC_MSG_MAX_SIZE], and the zeros the message was created with otherwise. *)
Definition payload (size : Z) (d : list Z) : list Z :=
  if size <? SOF_IPC_MSG_MAX_SIZE then take (Z.to_nat size) d else replicate (Z.to_nat size) 0.

(** What the host finds is the header of the message and the payload of the data
    last sent for it. *)
Definition carries (x : Z * list Z) (d : Z * list Z) : Prop := exists size,
  sig !! d.1 = Some (x.1, size) /\ take (Z.to_nat size) x.2 = payload size d.2.

Definition in_flight (w : ipc) : list (Z * list Z) :=
  if Z.testbit (i_regs w SHIM_IPCDH) 31 then [(i_regs w SHIM_IPCDL, i_dspbox w)] else [].

(** Notifications: the line is free, holds a message the host has not read, or
    waits for the interrupt of its answer. *)
Record note_inv (s : sys) : Prop := {
  ni_line : line (world s) false false false \/ line (world s) true true false \/
    line (world s) true false true;
  ni_mask : Z.testbit (i_regs (world s) SHIM_IMRD) 0 = false;
  ni_sig : msg_sig <$> i_msgs (world s) = sig;
  ni_data m x : i_msgs (world s) !! m = Some x -> Z.of_nat (length (x_tx_data x)) = x_tx_size x;
  ni_zero m x : i_msgs (world s) !! m = Some x -> SOF_IPC_MSG_MAX_SIZE <= x_tx_size x ->
    x_tx_data x = replicate (Z.to_nat (x_tx_size x)) 0;
  ni_nodup : NoDup (i_msg_list (world s));
  ni_last m : m ∈ i_msg_list (world s) -> exists x d, i_msgs (world s) !! m = Some x /\
    y_last s !! m = Some d /\ x_tx_data x = payload (x_tx_size x) d;
  ni_box : length (i_dspbox (world s)) = 1024%nat;
  ni_delivered : Forall2 carries (y_received s ++ in_flight (world s)) (y_due s);
  ni_accounted : y_accepted s ≡ₚ (y_due s).*1 ++ i_msg_list (world s);
  ni_order : y_high s = false -> y_accepted s = (y_due s).*1 ++ i_msg_list (world s)
}.

Definition stage_busy (g : stage) : bool := match g with Idle => false | _ => true end.

Definition stage_masked (g : stage) : bool := match g with Idle | Requested => false | _ => true end.

Definition stage_mask (g : stage) : Z := match g with Inline => 1 | Both => 3 | Thread => 2 | _ => 0 end.

Definition stage_task (g : stage) (f : edf ipc) : Prop :=
  let st := et_state <$> ed_tasks f !! ipc_task in
  match g with
  | Queued => st = Some SOF_TASK_STATE_QUEUED /\ ed_list f = [main_task; ipc_task] /\ ed_irq f = true /\
      (ed_current f = main_task \/ ed_current f = ipc_task)
  | Picked | Inline | Both => st = Some SOF_TASK_STATE_RUNNING /\ ed_list f = [main_task; ipc_task] /\
      ed_current f = ipc_task
  | _ => (exists x, st = Some x /\ is_queued_or_running x = false) /\ ed_list f = [main_task] /\
      (ed_current f = main_task \/ (ed_current f = ipc_task /\ ed_irq f = true))
  end.

(** The command that a full mailbox holds. *)
Definition valid_cmd (c : list Z) : option (list Z) :=
  let size := read32 c 0 in
  if (size <? SIZEOF_CMD_HDR) || (size >? SOF_IPC_MSG_MAX_SIZE) then None else Some (take (Z.to_nat size) c).

(** Commands, the dispatches, replies and answers that belong to a stage; [done]
    is the [DONE] bit of the command register. *)
Definition stage_log (g : stage) (done : bool) (s : sys) : Prop :=
  match g with
  | Idle => y_runs s = valid_cmd <$> y_cmds s /\
      if done then y_replies s = y_answers s ++ [i_hostbox (world s)] /\ length (y_cmds s) = S (length (y_answers s))
      else y_replies s = y_answers s /\ length (y_cmds s) = length (y_answers s)
  | Requested | Queued | Picked => done = false /\ y_replies s = y_answers s /\
      exists cs, y_cmds s = cs ++ [i_hostbox (world s)] /\ y_runs s = valid_cmd <$> cs /\
        length cs = length (y_answers s)
  | Inline => done = false /\ y_runs s = valid_cmd <$> y_cmds s /\
      y_replies s = y_answers s ++ [i_hostbox (world s)] /\ length (y_cmds s) = S (length (y_answers s))
  | Both | Thread => done = false /\ y_runs s = valid_cmd <$> y_cmds s /\
      y_replies s = y_answers s /\ length (y_cmds s) = S (length (y_answers s))
  end.

Record cmd_at (s : sys) (g : stage) : Prop := {
  ca_busy : Z.testbit (i_regs (world s) SHIM_IPCXH) 31 = stage_busy g;
  ca_masked : Z.testbit (i_regs (world s) SHIM_IMRD) 1 = stage_masked g;
  ca_mask : i_task_mask (world s) = stage_mask g;
  ca_task : stage_task g (y_fw s);
  ca_edf : edf_ok (y_fw s);
  ca_pdata : exists k, ed_tasks (y_fw s) !! ipc_task = Some k /\ et_pdata k <> 0;
  ca_log : stage_log g (Z.testbit (i_regs (world s) SHIM_IPCXH) 30) s;
  ca_box : length (i_hostbox (world s)) = 1024%nat
}.

Definition cmd_inv (s : sys) : Prop := exists g, cmd_at s g.

(** Steps that leave the notifications, or the commands, alone. *)
Record note_same (w w' : ipc) : Prop := {
  ns_busy : Z.testbit (i_regs w' SHIM_IPCDH) 31 = Z.testbit (i_regs w SHIM_IPCDH) 31;
  ns_done : Z.testbit (i_regs w' SHIM_IPCDH) 30 = Z.testbit (i_regs w SHIM_IPCDH) 30;
  ns_header : i_regs w' SHIM_IPCDL = i_regs w SHIM_IPCDL;
  ns_imrd : Z.testbit (i_regs w' SHIM_IMRD) 0 = Z.testbit (i_regs w SHIM_IMRD) 0;
  ns_rest : (i_msgs w', i_msg_list w', i_is_notification_pending w', i_dspbox w') =
    (i_msgs w, i_msg_list w, i_is_notification_pending w, i_dspbox w)
}.

Record cmd_same (w w' : ipc) : Prop := {
  cs_busy : Z.testbit (i_regs w' SHIM_IPCXH) 31 = Z.testbit (i_regs w SHIM_IPCXH) 31;
  cs_done : Z.testbit (i_regs w' SHIM_IPCXH) 30 = Z.testbit (i_regs w SHIM_IPCXH) 30;
  cs_imrd : Z.testbit (i_regs w' SHIM_IMRD) 1 = Z.testbit (i_regs w SHIM_IMRD) 1;
  cs_rest : (i_task_mask w', i_hostbox w') = (i_task_mask w, i_hostbox w)
}.

Definition note_ghosts (s : sys) := (y_accepted s, y_due s, y_received s, y_last s, y_high s).
Definition cmd_ghosts (s : sys) := (y_cmds s, y_runs s, y_replies s, y_answers s).

Lemma note_inv_frame s s' :
  note_same (world s) (world s') -> note_ghosts s' = note_ghosts s -> note_inv s -> note_inv s'.
Proof.
  intros [H1 H2 H3 H4 H5] Hg [I1 I2 I3 I4 I4z I5 I6 I7 I8 I9 I10]. unfold note_ghosts in Hg.
  injection H5 as E1 E2 E3 E4. injection Hg as G1 G2 G3 G4 G5.
  split; unfold line, in_flight; rewrite ?E1, ?E2, ?E3, ?E4, ?G1, ?G2, ?G3, ?G4, ?G5, ?H1, ?H2, ?H3, ?H4; done.
Qed.

Lemma cmd_at_frame s s' g :
  cmd_same (world s) (world s') -> cmd_ghosts s' = cmd_ghosts s ->
  y_fw s' = with_world (y_fw s) (world s') -> cmd_at s g -> cmd_at s' g.
Proof.
  intros [H1 H2 H3 H4] Hg Hf [I1 I2 I3 I4 I5 Ip I6 I7]. unfold cmd_ghosts in Hg.
  injection H4 as E1 E2. injection Hg as G1 G2 G3 G4.
  split; rewrite ?E1, ?E2, ?H1, ?H2, ?H3; try done.
  - by rewrite Hf.
  - rewrite Hf. by eapply edf_ok_frame; [..|exact I5].
  - by rewrite Hf.
  - destruct g; simpl in I6 |- *; by rewrite ?G1, ?G2, ?G3, ?G4, ?E2.
Qed.
End invariants.
