(* ===== verification/IpcThms.v ===== *)
(** * Notifications arrive and commands are answered

    Every history of the firmware and the host keeps the invariants of
    [IpcSystem]; each accepted notification reaches the host once, in order and
    with the data last sent, and each command is dispatched and answered once. *)

From stdpp Require Import base list numbers option gmap.
From S2P Require Import Prelude StateM LlSchedule Edf IpcTransport IpcSystem.

#[local] Arguments Z.testbit : simpl never.
#[local] Arguments Z.lor : simpl never.
#[local] Arguments Z.ldiff : simpl never.

Section thms.
Context (isrd : (Z -> Z) -> Z) (ipc_task main_task : Z) (CONFIG_DEBUG : bool) (sig : gmap Z (Z * Z)).

(** The interrupt status shows the answer of the host to a notification and a
    command of the host. *)
Hypothesis isrd_done : forall r, Z.testbit (isrd r) 0 = Z.testbit (r SHIM_IPCDH) 30.
Hypothesis isrd_busy : forall r, Z.testbit (isrd r) 1 = Z.testbit (r SHIM_IPCXH) 31.
Hypothesis tasks_differ : ipc_task <> main_task.
Hypothesis ipc_task_valid : ipc_task <> 0.
Hypothesis main_task_valid : main_task <> 0.

(** The messages fit the mailbox. *)
Hypothesis sig_fits : forall m h n, sig !! m = Some (h, n) -> 0 <= n <= MAILBOX_DSPBOX_SIZE.

Local Abbreviation note_inv := (note_inv sig).
Local Abbreviation cmd_at := (cmd_at ipc_task main_task).
Local Abbreviation cmd_inv := (cmd_inv ipc_task main_task).
Local Abbreviation run := (run isrd ipc_task main_task CONFIG_DEBUG).
Local Abbreviation act := (act isrd ipc_task main_task CONFIG_DEBUG).
Implicit Types (s : sys) (f : edf ipc) (w : ipc).

(** ** Transmission of a message *)

(** The state after [msg] was put on the line. *)
Definition transmit (msg : Z) (m : tx_msg) (w : ipc) : ipc :=
  mk_ipc (fun x => if x =? SHIM_IPCDH then SHIM_IPCDH_BUSY else if x =? SHIM_IPCDL then x_header m else i_regs w x)
    (i_msgs w) (filter (fun u => u <> msg) (i_msg_list w)) true (i_task_mask w) (i_pm_prepare_D3 w) (i_comp_data w)
    (x_tx_data m ++ drop (length (x_tx_data m)) (i_dspbox w)) (i_hostbox w).

Lemma box_write_all size box d n : n <= size -> Z.of_nat (length d) = n ->
  box_write size box d n = Some (d ++ drop (length d) box).
Proof.
  intros Hn Hl. unfold box_write. case_if; [lia|]. case_if; [lia|]. subst n.
  by rewrite Nat2Z.id, take_ge.
Qed.

Lemma send_free f msg m :
  line (ed_world f) false false false -> i_msgs (ed_world f) !! msg = Some m ->
  Z.of_nat (length (x_tx_data m)) = x_tx_size m -> x_tx_size m <= MAILBOX_DSPBOX_SIZE ->
  ipc_platform_send_msg isrd msg f = Some (with_world f (transmit msg m (ed_world f)), 0).
Proof.
  intros (H1 & H2 & H3) Hm Hl Hs. unfold ipc_platform_send_msg, mbind, ST_bind, shim_read, get, gets, shim_value.
  simpl. rewrite H1, land_two_bits, H2, H3 by lia. simpl. unfold get_tx. rewrite Hm. simpl.
  unfold mailbox_dspbox_write, mbind, ST_bind, get, gets, lift. simpl.
  by erewrite box_write_all by done.
Qed.

Lemma send_busy f msg busy done :
  line (ed_world f) true busy done -> ipc_platform_send_msg isrd msg f = Some (f, - EBUSY).
Proof.
  intros (H1 & H2 & H3). unfold ipc_platform_send_msg, mbind, ST_bind, shim_read, get, gets, shim_value. simpl.
  by rewrite H1.
Qed.

Lemma transmit_cmd_same msg m w : cmd_same w (transmit msg m w).
Proof. by split. Qed.

(** A message that leaves the queue, or goes past it, reaches the line with its
    data. *)
Lemma note_inv_transmit s s' msg m d :
  note_inv s -> line (world s) false false false ->
  i_msgs (world s) !! msg = Some m -> y_last s !! msg = Some d -> x_tx_data m = payload (x_tx_size m) d ->
  world s' = transmit msg m (world s) ->
  y_due s' = y_due s ++ [(msg, d)] ->
  y_received s' = y_received s -> y_last s' = y_last s ->
  y_accepted s' ≡ₚ (y_due s').*1 ++ i_msg_list (world s') ->
  (y_high s' = false -> y_accepted s' = (y_due s').*1 ++ i_msg_list (world s')) ->
  note_inv s'.
Proof.
  intros [I1 I2 I3 I4 I4z I5 I6 I7 I8 I9 I10] (L1 & L2 & L3) Hm Hd Hx Hw Hdue Hrec Hlast Hacc Hord.
  pose proof (I4 msg m Hm) as Hlen.
  assert (sig !! msg = Some (x_header m, x_tx_size m)) as Hsig.
  { rewrite <- I3, lookup_fmap, Hm. done. }
  pose proof (sig_fits _ _ _ Hsig) as Hsmall.
  split; rewrite ?Hw; simpl.
  - right. left. by split.
  - done.
  - done.
  - done.
  - done.
  - by apply NoDup_filter.
  - intros u [_ Hu]%list_elem_of_filter. rewrite Hlast. by apply I6.
  - rewrite length_app, length_drop, I7. lia.
  - unfold in_flight. simpl. rewrite Hrec, Hdue. unfold in_flight in I8. rewrite L2, app_nil_r in I8.
    apply Forall2_app; [done|]. constructor; [|done]. exists (x_tx_size m). simpl. split; [done|].
    rewrite take_app_le by lia. rewrite <- Hx. by rewrite take_ge by lia.
  - by rewrite Hw in Hacc.
  - by rewrite Hw in Hord.
Qed.

(** ** Sending *)

Lemma length_payload n d : 0 <= n <= Z.of_nat (length d) -> Z.of_nat (length (payload n d)) = n.
Proof. intros H. unfold payload. case_if; rewrite ?length_take, ?length_replicate; lia. Qed.

Definition new_data (d : list Z) (m : tx_msg) : tx_msg :=
  mk_tx (x_header m) (x_tx_size m) (payload (x_tx_size m) d).

Lemma copy_payload_ok f msg m d :
  i_msgs (ed_world f) !! msg = Some m -> Z.of_nat (length (x_tx_data m)) = x_tx_size m ->
  (SOF_IPC_MSG_MAX_SIZE <= x_tx_size m -> x_tx_data m = replicate (Z.to_nat (x_tx_size m)) 0) ->
  x_tx_size m <= Z.of_nat (length d) ->
  copy_payload msg d f = Some (with_world f
    (set_msgs (ed_world f) (<[msg := new_data d m]> (i_msgs (ed_world f)))), tt).
Proof.
  intros Hm Hl Hz Hd. unfold copy_payload, get_tx, mbind, ST_bind. rewrite Hm. simpl. unfold new_data, payload. case_if; zbool.
  - unfold lift, box_write, upd, modify. case_if; [lia|]. case_if; [lia|]. simpl.
    rewrite drop_ge, app_nil_r by lia. rewrite (proj2 (Z.ltb_lt _ _)) by lia. done.
  - assert ((if x_tx_size m <? SOF_IPC_MSG_MAX_SIZE then take (Z.to_nat (x_tx_size m)) d
      else replicate (Z.to_nat (x_tx_size m)) 0) = x_tx_data m) as ->.
    { case_if; zbool; [|by rewrite Hz]. assert (x_tx_size m = 0) as E by lia. rewrite E in *.
      destruct (x_tx_data m); [done|simpl in *; lia]. }
    rewrite insert_id by (by rewrite Hm; destruct m). by destruct f as [? ? ? ? []].
Qed.

(** New data for a message. *)
Lemma note_inv_payload s s' msg m d :
  note_inv s -> i_msgs (world s) !! msg = Some m -> x_tx_size m <= Z.of_nat (length d) ->
  world s' = set_msgs (world s) (<[msg := new_data d m]> (i_msgs (world s))) ->
  note_ghosts s' = (y_accepted s, y_due s, y_received s, <[msg := d]> (y_last s), y_high s) ->
  note_inv s'.
Proof.
  intros [I1 I2 I3 I4 I4z I5 I6 I7 I8 I9 I10] Hm Hd Hw Hg. pose proof (I4 msg m Hm) as Hlen.
  injection Hg as G1 G2 G3 G4 G5.
  split; unfold line, in_flight; rewrite ?Hw, ?G1, ?G2, ?G3, ?G4, ?G5; simpl; try done.
  - rewrite fmap_insert, I3. apply insert_id. by rewrite <- I3, lookup_fmap, Hm.
  - intros u x. destruct (decide (u = msg)) as [->|Hn].
    + rewrite lookup_insert_eq. intros [= <-]. simpl. apply length_payload. lia.
    + rewrite lookup_insert_ne by done. apply I4.
  - intros u x. destruct (decide (u = msg)) as [->|Hn].
    + rewrite lookup_insert_eq. intros [= <-]. simpl. intros Hbig. unfold payload. case_if; [lia|done].
    + rewrite lookup_insert_ne by done. apply I4z.
  - intros u Hu. destruct (decide (u = msg)) as [->|Hn].
    + rewrite !lookup_insert_eq. by eexists _, d.
    + rewrite !lookup_insert_ne by done. by apply I6.
Qed.

(** A message joins the queue. *)
Lemma note_inv_push s s' msg x d (high : bool) :
  note_inv s -> msg ∉ i_msg_list (world s) -> i_msgs (world s) !! msg = Some x -> y_last s !! msg = Some d ->
  x_tx_data x = payload (x_tx_size x) d ->
  world s' = set_msg_list (world s) (if high then msg :: i_msg_list (world s) else i_msg_list (world s) ++ [msg]) ->
  note_ghosts s' = (y_accepted s ++ [msg], y_due s, y_received s, y_last s, y_high s || high) ->
  note_inv s'.
Proof.
  intros [I1 I2 I3 I4 I4z I5 I6 I7 I8 I9 I10] Hn Hx Hd Hdata Hw Hg. injection Hg as G1 G2 G3 G4 G5.
  split; unfold line, in_flight; rewrite ?Hw, ?G1, ?G2, ?G3, ?G4, ?G5; simpl; try done.
  - destruct high; [by apply NoDup_cons|]. apply NoDup_app. split; [done|]. split; [|apply NoDup_singleton].
    intros u Hu ->%list_elem_of_singleton. done.
  - intros u Hu. assert (u = msg \/ u ∈ i_msg_list (world s)) as [->|Hu']; [|by eexists _, _|by apply I6].
    destruct high; [by apply elem_of_cons|]. apply elem_of_app in Hu as [?| ->%list_elem_of_singleton]; auto.
  - rewrite I9. destruct high; [|by rewrite <- app_assoc]. rewrite <- app_assoc.
    f_equiv. symmetry. apply Permutation_cons_append.
  - destruct high; [by rewrite orb_true_r|]. rewrite orb_false_r. intros Hh. by rewrite I10, app_assoc.
Qed.

(** Transmission or queueing after the data was copied. *)
Definition queue_msg (msg : Z) (high_priority : bool) : M unit :=
  ret ← (if high_priority then ipc_platform_send_msg isrd msg else mret (- EBUSY));
  if ret =? 0 then mret tt else
  q ← get i_msg_list;
  if bool_decide (msg ∈ (q : list Z)) then mret tt else
  upd (fun w => set_msg_list w (if high_priority then msg :: i_msg_list w else i_msg_list w ++ [msg])).

(** Without transmission the message is in the queue. *)
Lemma queue_msg_waits f msg high :
  (high = true -> exists busy done, line (ed_world f) true busy done) ->
  queue_msg msg high f = Some (with_world f (if bool_decide (msg ∈ i_msg_list (ed_world f)) then ed_world f else
    set_msg_list (ed_world f)
      (if high then msg :: i_msg_list (ed_world f) else i_msg_list (ed_world f) ++ [msg])), tt).
Proof.
  intros Hb. unfold queue_msg. erewrite bind_Some.
  2:{ instantiate (1 := - EBUSY). instantiate (1 := f). destruct high; [|done].
      destruct (Hb eq_refl) as (b & d & Hl). by eapply send_busy. }
  unfold mbind, ST_bind, get, gets, upd, modify. simpl. destruct (bool_decide _); [|done]. by destruct f.
Qed.

Lemma queue_msg_transmits f msg m :
  line (ed_world f) false false false -> i_msgs (ed_world f) !! msg = Some m ->
  Z.of_nat (length (x_tx_data m)) = x_tx_size m -> x_tx_size m <= MAILBOX_DSPBOX_SIZE ->
  queue_msg msg true f = Some (with_world f (transmit msg m (ed_world f)), tt).
Proof. intros. unfold queue_msg. by erewrite bind_Some by (by apply send_free). Qed.

(** What an action of the notifications leaves unchanged for the commands. *)
Definition note_step s s' : Prop :=
  cmd_same (world s) (world s') /\ cmd_ghosts s' = cmd_ghosts s /\ y_fw s' = with_world (y_fw s) (world s') /\
  i_pm_prepare_D3 (world s') = i_pm_prepare_D3 (world s).

Lemma filter_ne_absent (x : Z) (l : list Z) : x ∉ l -> filter (fun u => u <> x) l = l.
Proof.
  induction l as [|y l IH]; [done|]. intros [Hy Hl]%not_elem_of_cons.
  rewrite filter_cons_True by (intros ->; done). by rewrite IH.
Qed.

Lemma filter_ne_present (x : Z) (l : list Z) : NoDup l -> x ∈ l -> l ≡ₚ x :: filter (fun u => u <> x) l.
Proof.
  induction l as [|y l IH]; intros Hn Hx; [by apply not_elem_of_nil in Hx|].
  apply NoDup_cons in Hn as [Hy Hn]. destruct (decide (y = x)) as [->|Hyx].
  - rewrite filter_cons_False by auto. by rewrite filter_ne_absent.
  - rewrite filter_cons_True by done. apply elem_of_cons in Hx as [->|Hx]; [done|].
    rewrite (IH Hn Hx) at 1. apply Permutation_swap.
Qed.

Lemma note_inv_high s s' (b : bool) :
  world s' = world s -> note_ghosts s' = (y_accepted s, y_due s, y_received s, y_last s, y_high s || b) ->
  note_inv s -> note_inv s'.
Proof.
  intros Hw Hg [I1 I2 I3 I4 I4z I5 I6 I7 I8 I9 I10]. injection Hg as G1 G2 G3 G4 G5.
  split; rewrite ?Hw, ?G1, ?G2, ?G3, ?G4, ?G5; try done. intros [? _]%orb_false_iff. by apply I10.
Qed.

(** A message of high priority on a free line. *)
Lemma send_now s msg d m :
  note_inv s -> line (world s) false false false -> i_msgs (world s) !! msg = Some m ->
  y_last s !! msg = Some d -> x_tx_data m = payload (x_tx_size m) d ->
  let acc := if bool_decide (msg ∈ i_msg_list (world s)) then y_accepted s else y_accepted s ++ [msg] in
  forall s', world s' = transmit msg m (world s) -> y_due s' = y_due s ++ [(msg, d)] ->
  y_received s' = y_received s -> y_last s' = y_last s -> y_accepted s' = acc -> y_high s' = true ->
  note_inv s'.
Proof.
  intros I L Hm Hd Hx acc s' Hw Hdue Hr Hl Ha Hh. eapply (note_inv_transmit s s'); try done; [|by rewrite Hh].
  rewrite Ha, Hdue, Hw, fmap_app. simpl. unfold acc. case_bool_decide as Hin; rewrite (ni_accounted _ _ I).
  - pose proof (filter_ne_present msg _ (ni_nodup _ _ I) Hin) as Hp. rewrite <- app_assoc. by f_equiv.
  - rewrite filter_ne_absent by done. rewrite <- !app_assoc. f_equiv. symmetry. apply Permutation_cons_append.
Qed.

Lemma act_send_ok s msg d high h n :
  note_inv s -> sig !! msg = Some (h, n) -> n <= Z.of_nat (length d) ->
  exists s', act_send isrd msg d high s = Some s' /\ note_inv s' /\ note_step s s'.
Proof.
  intros I Hsig Hd. pose proof (sig_fits _ _ _ Hsig) as Hn.
  assert (exists m, i_msgs (world s) !! msg = Some m /\ x_tx_size m = n) as (m & Hm & Hmn).
  { rewrite <- (ni_sig _ _ I), lookup_fmap in Hsig. destruct (i_msgs (world s) !! msg) as [m|]; [|done].
    injection Hsig as ? ?. by exists m. }
  pose proof (ni_data _ _ I msg m Hm) as Hlen.
  set (w2 := set_msgs (world s) (<[msg := new_data d m]> (i_msgs (world s)))).
  set (s2 := with_fw (with_sent s (y_accepted s) (<[msg := d]> (y_last s)) (y_high s)) (with_world (y_fw s) w2)).
  assert (note_inv s2) as I2 by (apply (note_inv_payload s s2 msg m d); try done; lia).
  assert (forall s1, y_fw s1 = y_fw s -> step (ipc_msg_send isrd msg d high) s1 =
    f ← queue_msg msg high (with_world (y_fw s) w2); Some (with_fw s1 f.1)) as Hstep.
  { intros s1 E1. unfold step. rewrite E1. change (ipc_msg_send isrd msg d high) with
      (copy_payload msg d ≫= fun _ => queue_msg msg high).
    by erewrite bind_Some by (apply (copy_payload_ok (y_fw s) msg m d); [done|done|apply (ni_zero _ _ I msg m Hm)|lia]). }
  assert (i_msgs w2 !! msg = Some (new_data d m)) as Hm2 by (simpl; by rewrite lookup_insert_eq).
  assert (y_last s2 !! msg = Some d) as Hl2 by (simpl; by rewrite lookup_insert_eq).
  unfold act_send. rewrite Hstep by done.
  assert (line w2 false false false /\ high = true \/ (high = true -> exists busy done, line w2 true busy done)) as [[L ->]|L].
  { destruct high; [|by right]. destruct (ni_line _ _ I) as [?|[?|?]]; [by left|right; eauto|right; eauto]. }
  - rewrite (queue_msg_transmits (with_world (y_fw s) w2) msg (new_data d m)); [|done|done|simpl; apply length_payload; lia|simpl; lia].
    simpl. unfold note_due. simpl. destruct L as (L1 & L2 & L3). simpl in L1. rewrite L1. simpl. rewrite lookup_insert_eq. simpl.
    eexists. split; [reflexivity|]. split; [|by split_and!].
    eapply (send_now s2 msg d (new_data d m)); try done. by rewrite orb_true_r.
  - rewrite queue_msg_waits by done. simpl. unfold note_due. simpl.
    match goal with |- context [if negb ?a && ?b then _ else _] => replace (negb a && b) with false end.
    2:{ case_bool_decide; simpl; by destruct (i_is_notification_pending (world s)). }
    eexists. split; [reflexivity|]. split.
    + case_bool_decide as Hin.
      * eapply (note_inv_high s2); [done| |done]. done.
      * eapply (note_inv_push s2 _ msg (new_data d m) d high); done.
    + case_bool_decide; by split_and!.
Qed.

(** ** The main task and the host *)

Lemma note_step_refl s : note_step s s.
Proof. by destruct s as [[]]. Qed.

Lemma note_due_idle msg s s' :
  i_is_notification_pending (world s') = i_is_notification_pending (world s) -> note_due msg s s' = s'.
Proof. intros E. unfold note_due. by rewrite E, andb_comm, andb_negb_r. Qed.

Lemma step_Some {B} (m : M B) s f x : m (y_fw s) = Some (f, x) -> step m s = Some (with_fw s f).
Proof. intros E. unfold step. by rewrite E. Qed.

Lemma with_fw_same s : with_fw s (y_fw s) = s.
Proof. by destruct s. Qed.

Lemma main_turn_idle f :
  i_pm_prepare_D3 (ed_world f) <> 0 \/ i_msg_list (ed_world f) = [] \/
    (exists busy done, line (ed_world f) true busy done) ->
  task_main_turn isrd f = Some (f, tt).
Proof.
  intros H. unfold task_main_turn, mbind, ST_bind, get, gets. case_if; [|done].
  unfold ipc_send_queued_msg, mbind, ST_bind, get, gets. destruct H as [?|[E|(b & e & L)]]; [done|by rewrite E|].
  destruct (i_msg_list (ed_world f)) as [|msg l]; [done|]. by erewrite send_busy.
Qed.

Lemma main_turn_sends f msg l m :
  i_pm_prepare_D3 (ed_world f) = 0 -> i_msg_list (ed_world f) = msg :: l ->
  line (ed_world f) false false false -> i_msgs (ed_world f) !! msg = Some m ->
  Z.of_nat (length (x_tx_data m)) = x_tx_size m -> x_tx_size m <= MAILBOX_DSPBOX_SIZE ->
  task_main_turn isrd f = Some (with_world f (transmit msg m (ed_world f)), tt).
Proof.
  intros Hp Hq L Hm Hl Hs. unfold task_main_turn, mbind, ST_bind, get, gets. rewrite Hp. simpl.
  unfold ipc_send_queued_msg, mbind, ST_bind, get, gets. rewrite Hq. by erewrite send_free.
Qed.

(** A turn of the main task sends the first message when the line is free. *)
Lemma act_main_ok s :
  note_inv s -> exists s', act_main isrd main_task s = Some s' /\ note_inv s' /\ note_step s s' /\
    y_accepted s' = y_accepted s /\ y_received s' = y_received s /\
    (ed_current (y_fw s) = main_task -> i_pm_prepare_D3 (world s) = 0 -> line (world s) false false false ->
     i_msg_list (world s') = tail (i_msg_list (world s))).
Proof.
  intros I. unfold act_main. case_if; zbool; [exists s; split_and!; (done || apply note_step_refl)|].
  assert ((i_pm_prepare_D3 (world s) <> 0 \/ i_msg_list (world s) = [] \/ exists busy done, line (world s) true busy done) \/
    exists msg l, i_pm_prepare_D3 (world s) = 0 /\ i_msg_list (world s) = msg :: l /\ line (world s) false false false)
    as [Hi|(msg & l & Hp & El & L)].
  { destruct (decide (i_pm_prepare_D3 (world s) = 0)); [|by left; left].
    destruct (i_msg_list (world s)) as [|msg l]; [by left; right; left|].
    destruct (ni_line _ _ I) as [?|[?|?]]; [right; by exists msg, l|left; right; right; eauto..]. }
  { erewrite step_Some by (by apply main_turn_idle). simpl. rewrite with_fw_same, note_due_idle by done.
    exists s. split_and!; try done; [apply note_step_refl|]. intros _ Hp (L1 & _).
    destruct Hi as [?|[E|(b & e & (? & _))]]; [done|by rewrite E|congruence]. }
  destruct (ni_last _ _ I msg) as (m & d & Hm & Hd & Hx); [rewrite El; apply elem_of_cons; by left|].
  pose proof (ni_data _ _ I msg m Hm) as Hlen.
  assert (sig !! msg = Some (x_header m, x_tx_size m)) as Hsig by (by rewrite <- (ni_sig _ _ I), lookup_fmap, Hm).
  pose proof (sig_fits _ _ _ Hsig) as Hsmall. pose proof (ni_nodup _ _ I) as Hnd. rewrite El in Hnd.
  apply NoDup_cons in Hnd as [Hnin Hnd].
  erewrite step_Some by (eapply (main_turn_sends _ msg l m); (done || lia)). simpl.
  destruct L as (L1 & L2 & L3). unfold note_due. simpl. rewrite L1, El. simpl. rewrite Hd. simpl.
  assert (filter (fun u => u <> msg) (i_msg_list (world s)) = l) as Hf.
  { rewrite El, filter_cons_False by auto. by apply filter_ne_absent. }
  rewrite El in Hf. eexists. split; [reflexivity|]. split; [|split_and!; try done; by simpl; rewrite El].
  eapply (note_inv_transmit s _ msg m d); try done; simpl; rewrite El, Hf, fmap_app, <- app_assoc; simpl; rewrite <- El;
    [apply (ni_accounted _ _ I)|apply (ni_order _ _ I)].
Qed.

(** The main task sends nothing while the firmware prepares for D3. *)
Lemma act_main_D3 s : i_pm_prepare_D3 (world s) <> 0 -> act_main isrd main_task s = Some s.
Proof.
  intros Hp. unfold act_main. case_if; [done|]. erewrite step_Some by (apply main_turn_idle; by left).
  simpl. by rewrite with_fw_same, note_due_idle.
Qed.

(** The host takes the notification on the line. *)
Lemma act_host_read_ok s :
  note_inv s -> note_inv (act_host_read s) /\ note_step s (act_host_read s) /\
    i_msg_list (world (act_host_read s)) = i_msg_list (world s) /\
    y_due (act_host_read s) = y_due s /\ y_accepted (act_host_read s) = y_accepted s /\
    Z.testbit (i_regs (world (act_host_read s)) SHIM_IPCDH) 31 = false.
Proof.
  intros I. unfold act_host_read. case_if.
  { split_and!; try done. apply note_step_refl. }
  split; [|split_and!; try done; simpl; by bits].
  destruct I as [I1 I2 I3 I4 I4z I5 I6 I7 I8 I9 I10]. split; unfold line, in_flight; simpl; try done; rewrite ?Z.eqb_refl; bits.
  - right. right. split_and!; try done. destruct I1 as [(_ & ? & _)|[(? & _)|(_ & ? & _)]]; congruence.
  - unfold in_flight in I8. rewrite app_nil_r. destruct (Z.testbit _ 31); [done|]. by simplify_eq.
Qed.

(** ** The interrupt of the host *)

Lemma irq_done_ok f :
  let w := ed_world f in
  exists w', irq_done isrd (isrd (i_regs w)) (i_regs w SHIM_IMRD) f = Some (with_world f w', tt) /\ cmd_same w w' /\
    if Z.testbit (i_regs w SHIM_IPCDH) 30 && negb (Z.testbit (i_regs w SHIM_IMRD) 0) then
      line w' false (Z.testbit (i_regs w SHIM_IPCDH) 31) false /\ Z.testbit (i_regs w' SHIM_IMRD) 0 = false /\
      i_regs w' SHIM_IPCDL = i_regs w SHIM_IPCDL /\
      (i_msgs w', i_msg_list w', i_dspbox w', i_pm_prepare_D3 w') = (i_msgs w, i_msg_list w, i_dspbox w, i_pm_prepare_D3 w)
    else w' = w.
Proof.
  intros w. unfold irq_done. rewrite land_bit, land_bit_0, isrd_done by lia. case_if.
  2:{ exists w. split; [|done]. by destruct f. }
  eexists. split; [reflexivity|]. split.
  - split; regs; done.
  - split; [split_and!; regs; done|]. split; [by regs|]. done.
Qed.

(** What an action of the commands leaves unchanged for the notifications. *)
Definition cmd_step s s' : Prop := note_same (world s) (world s') /\ note_ghosts s' = note_ghosts s.

Lemma note_same_refl w : note_same w w.
Proof. done. Qed.

Lemma note_inv_step s s' : cmd_step s s' -> note_inv s -> note_inv s'.
Proof. intros [H1 H2]. by apply note_inv_frame. Qed.

Lemma cmd_at_step s s' g : note_step s s' -> cmd_at s g -> cmd_at s' g.
Proof. intros (H1 & H2 & H3 & _). by apply cmd_at_frame. Qed.

(** The answer of the host frees the line. *)
Lemma irq_done_note s :
  note_inv s -> exists s1, step (irq_done isrd (isrd (i_regs (world s))) (i_regs (world s) SHIM_IMRD)) s = Some s1 /\
    note_inv s1 /\ note_step s s1 /\ note_ghosts s1 = note_ghosts s /\
    i_msg_list (world s1) = i_msg_list (world s) /\
    (Z.testbit (i_regs (world s) SHIM_IPCDH) 31 = false -> line (world s1) false false false).
Proof.
  intros I. destruct (irq_done_ok (y_fw s)) as (w' & Hd & Hc & Hw). simpl in Hd, Hc, Hw.
  erewrite step_Some by exact Hd. eexists. split; [reflexivity|]. rewrite (ni_mask _ _ I) in Hw.
  destruct I as [I1 I2 I3 I4 I4z I5 I6 I7 I8 I9 I10].
  destruct (Z.testbit (i_regs (world s) SHIM_IPCDH) 30) eqn:Ed; simpl in Hw.
  - destruct Hw as ((W1 & W2 & W3) & W4 & W5 & W6). injection W6 as W6 W7 W8 W9.
    assert (Z.testbit (i_regs (world s) SHIM_IPCDH) 31 = false) as Eb.
    { destruct I1 as [(_ & ? & _)|[(_ & _ & ?)|(_ & ? & _)]]; congruence. }
    rewrite Eb in W2. unfold in_flight in I8. rewrite Eb in I8.
    split; [|by split_and!].
    split; unfold line, in_flight; simpl; rewrite ?W1, ?W2, ?W3, ?W4, ?W6, ?W7, ?W8; auto.
  - subst w'. split; [by split|]. split; [by split_and!|]. split; [done|]. split; [done|].
    intros Eb. destruct I1 as [?|[(_ & ? & _)|(_ & _ & ?)]]; [done|congruence..].
Qed.

Definition after_irq (g : stage) : stage := match g with Requested => Queued | _ => g end.

(** A new command queues the IPC task, once. *)
Lemma irq_busy_ok s g isr imrd :
  cmd_at s g -> Z.testbit isr 1 = stage_busy g -> Z.testbit imrd 1 = stage_masked g ->
  exists s', step (irq_busy isrd ipc_task isr imrd) s = Some s' /\ cmd_at s' (after_irq g) /\ cmd_step s s' /\
    cmd_ghosts s' = cmd_ghosts s /\ i_pm_prepare_D3 (world s') = i_pm_prepare_D3 (world s).
Proof.
  intros [C1 C2 C3 C4 C5 (k & Hk & Hp) C6 C7] Hi Hm. unfold irq_busy. rewrite land_bit, land_bit_0, Hi, Hm by lia.
  destruct g; simpl; try (erewrite step_Some by reflexivity; eexists; split; [reflexivity|]; rewrite with_fw_same;
    split_and!; try done; split; by eauto).
  destruct C4 as ((x & Hx & Hinact) & Hl & Hcur). rewrite Hk in Hx. injection Hx as <-.
  set (f1 := with_world (y_fw s) (set_reg SHIM_IMRD (Z.lor (i_regs (world s) SHIM_IMRD) SHIM_IMRD_BUSY) (world s))).
  assert (edf_ok f1) as Hok1 by (by eapply edf_ok_frame; [..|exact C5]).
  destruct (schedule_edf_task_wp f1 ipc_task k) as (f2 & r & Hs & Hok2 & Hw2 & Hc2 & Hres); [done..|].
  rewrite Hinact in Hres. destruct Hres as (-> & Hl2 & Hi2 & Ht2).
  erewrite step_Some.
  2:{ unfold mbind, ST_bind, shim_read, get, gets, shim_write, upd, modify, shim_value, ipc_schedule_process. simpl.
      by erewrite bind_Some by exact Hs. }
  eexists. split; [reflexivity|]. split.
  - split; simpl; rewrite ?Hw2; simpl; try done.
    + regs. done.
    + rewrite Ht2, Hl2, Hc2, Hi2, lookup_insert_eq. simpl. rewrite Hl. split_and!; try done. tauto.
    + rewrite Ht2, lookup_insert_eq. eexists. split; [reflexivity|]. done.
  - simpl. unfold cmd_step. simpl. rewrite Hw2. split_and!; try done. split; regs; done.
Qed.

Lemma act_irq_ok s g :
  note_inv s -> cmd_at s g ->
  exists s', step (irq_handler isrd ipc_task) s = Some s' /\ note_inv s' /\ cmd_at s' (after_irq g) /\
    cmd_ghosts s' = cmd_ghosts s /\ note_ghosts s' = note_ghosts s /\
    i_pm_prepare_D3 (world s') = i_pm_prepare_D3 (world s) /\ i_msg_list (world s') = i_msg_list (world s) /\
    (Z.testbit (i_regs (world s) SHIM_IPCDH) 31 = false -> line (world s') false false false).
Proof.
  intros I C. destruct (irq_done_note s I) as (s1 & H1 & I1 & N1 & G1 & Q1 & L1).
  pose proof (cmd_at_step s s1 g N1 C) as C1.
  destruct (irq_busy_ok s1 g (isrd (i_regs (world s))) (i_regs (world s) SHIM_IMRD) C1) as (s2 & H2 & C2 & N2 & G2 & P2).
  { rewrite isrd_busy. apply (ca_busy _ _ _ _ C). }
  { apply (ca_masked _ _ _ _ C). }
  exists s2. split.
  { unfold step in *. unfold irq_handler. unfold mbind, ST_bind in *. unfold shim_read, get, gets, shim_value. simpl.
    destruct (irq_done _ _ _ _) as [[f1 x1]|]; [|done]. simpl in H1. injection H1 as <-. done. }
  destruct N1 as (_ & N1 & _ & P1). destruct (N2) as [[S1 S2 S3 S4 S5] S6]. injection S5 as E1 E2 E3 E4.
  split; [by eapply note_inv_step|]. split; [done|]. split_and!; [congruence..|].
  intros Hb. destruct (L1 Hb) as (X1 & X2 & X3). split_and!; congruence.
Qed.

(** ** The scheduler interrupt *)

Definition after_edf (g : stage) : stage := match g with Queued => Picked | _ => g end.

Definition stage_off (g : stage) : bool :=
  match g with Queued | Picked | Inline | Both => false | _ => true end.

Lemma act_edf_ok s g :
  cmd_at s g -> exists s', act_edf ipc_task s = Some s' /\ cmd_at s' (after_edf g) /\ world s' = world s /\
    note_ghosts s' = note_ghosts s /\ cmd_ghosts s' = cmd_ghosts s /\
    (stage_off g = true -> ed_current (y_fw s') = main_task).
Proof.
  intros C. unfold act_edf. destruct (ed_irq (y_fw s)) eqn:Eirq; simpl.
  2:{ exists s. pose proof (ca_task _ _ _ _ C) as T. split; [done|].
      assert (g <> Queued) as Hg by (intros ->; destruct T as (_ & _ & ? & _); congruence).
      split; [by destruct g|]. split_and!; try done. intros Ho.
      destruct g; try done; destruct T as (_ & _ & [?|[_ ?]]); congruence. }
  destruct C as [C1 C2 C3 C4 C5 (kp & Hkp & Hp) C6 C7].
  set (f1 := with_irq (y_fw s) false).
  assert (edf_ok f1) as Hok1 by (by eapply edf_ok_frame; [..|exact C5]).
  assert (main_task ∈ ed_list f1) as Hmain.
  { destruct g; destruct C4 as (_ & Hl & _); unfold f1; simpl; rewrite Hl; apply elem_of_cons; by left. }
  destruct (edf_runs_earliest f1 (deadline ipc_task)) as (f2 & [] & Hf2 & Hok2 & t & k & Ht & Hmin & Hk & E2); [done| | |].
  { intros E. rewrite E in Hmain. by apply not_elem_of_nil in Hmain. }
  { intros t _. unfold deadline. case_if; lia. }
  erewrite step_Some by (simpl; unfold mbind, ST_bind, modify; exact Hf2).
  eexists. split; [reflexivity|].
  assert (t = if stage_off g then main_task else ipc_task) as Et.
  { unfold f1 in Ht, Hmin. simpl in Ht, Hmin. destruct g; simpl; destruct C4 as (_ & Hl & _); rewrite Hl in Ht, Hmin;
      try (by apply list_elem_of_singleton in Ht);
      apply elem_of_cons in Ht as [->| ->%list_elem_of_singleton]; try done;
      specialize (Hmin ipc_task ltac:(apply elem_of_cons; right; by apply list_elem_of_singleton));
      unfold deadline in Hmin; rewrite Z.eqb_refl in Hmin; destruct (Z.eqb_spec main_task ipc_task); congruence || lia. }
  split; [|split_and!; try done; [by subst f2|by subst f2; simpl; destruct g]].
  assert (ed_tasks f2 !! ipc_task = if stage_off g then ed_tasks (y_fw s) !! ipc_task else
    Some (mk_edf_task SOF_TASK_STATE_RUNNING (et_pdata kp))) as Hst.
  { subst f2 t. simpl in *. destruct (stage_off g).
    - by rewrite lookup_insert_ne by done.
    - rewrite lookup_insert_eq. by simplify_eq. }
  split; simpl; rewrite ?E2; simpl; try (by destruct g).
  - rewrite E2 in Hst. simpl in Hst. destruct g; simpl in *; rewrite Hst; destruct C4 as (X & Hl & Hc); split_and!; try done; by left.
  - rewrite E2 in Hok2. exact Hok2.
  - rewrite E2 in Hst. simpl in Hst. rewrite Hst. destruct (stage_off g); eauto.
Qed.

(** ** Commands *)

(** Outcomes of the handlers: a reply fits the mailbox, and a command whose reply
    is left to the pipeline task has a positive result and no reply of its own. *)
Definition glb_ok (glb : Z -> Z -> list Z -> glb_outcome) : Prop := forall t c l,
  Z.of_nat (length (g_reply (glb t c l))) <= MAILBOX_HOSTBOX_SIZE /\
  (g_in_thread (glb t c l) = true -> 0 < g_ret (glb t c l) /\ g_reply (glb t c l) = []).

(** Handlers that leave [pm_prepare_D3] as it is: all but those of the commands
    that save and restore the context. *)
Definition glb_keeps_pm (glb : Z -> Z -> list Z -> glb_outcome) : Prop :=
  forall t c l, g_prepare_D3 (glb t c l) = None.

Lemma nth_app_take (l r : list Z) (n i : nat) : (i < n)%nat -> (n <= length l)%nat ->
  nth i (take n l ++ r) 0 = nth i l 0.
Proof.
  intros Hi Hn. rewrite app_nth1 by (rewrite length_take; lia).
  rewrite <- (take_drop n l) at 2. rewrite app_nth1 by (rewrite length_take; lia). done.
Qed.

Lemma read32_app (l r : list Z) n off : (off + 4 <= n)%nat -> (n <= length l)%nat ->
  read32 (take n l ++ r) off = read32 l off.
Proof. intros. unfold read32. by rewrite !nth_app_take by lia. Qed.

Lemma mailbox_validate_ok f :
  length (i_hostbox (ed_world f)) = 1024%nat ->
  exists w', mailbox_validate f = Some (with_world f w',
      (fun _ => read32 (i_hostbox (ed_world f)) 4) <$> valid_cmd (i_hostbox (ed_world f))) /\
    w' = set_comp_data (ed_world f) (i_comp_data w') /\
    match valid_cmd (i_hostbox (ed_world f)) with
    | Some c => take (Z.to_nat (read32 (i_comp_data w') 0)) (i_comp_data w') = c
    | None => True
    end.
Proof.
  intros Hl. unfold mailbox_validate, valid_cmd, mbind, ST_bind, get, gets, upd, modify. simpl.
  rewrite !read32_app by lia. case_if; [by eexists|]. zbool. eexists. split; [done|]. split; [done|]. simpl.
  rewrite read32_app by lia. rewrite take_app_le by (rewrite length_take; lia). by rewrite take_take, Nat.min_id.
Qed.

Lemma dispatched_valid s : length (i_hostbox (world s)) = 1024%nat ->
  dispatched s = valid_cmd (i_hostbox (world s)).
Proof.
  intros Hl. unfold dispatched. destruct (mailbox_validate_ok (y_fw s) Hl) as (w' & -> & _ & Hc).
  destruct (valid_cmd _); simpl; [by rewrite Hc|done].
Qed.

Lemma hostbox_write_ok f d n :
  length (i_hostbox (ed_world f)) = 1024%nat -> n <= MAILBOX_HOSTBOX_SIZE -> Z.of_nat (length d) = n ->
  exists box, mailbox_hostbox_write d n f = Some (with_world f (set_hostbox (ed_world f) box), tt) /\
    length box = 1024%nat.
Proof.
  intros Hl Hn Hd. unfold mailbox_hostbox_write, mbind, ST_bind, get, gets, lift. simpl.
  erewrite box_write_all by done. simpl. eexists. split; [reflexivity|]. rewrite length_app, length_drop. lia.
Qed.

(** A handler or the dispatcher writes at most a reply and [pm_prepare_D3]. *)
Definition cmd_result w (m : Z) (b : list Z) (p : option Z) : ipc :=
  set_pm_prepare_D3 (set_hostbox (set_task_mask w m) b) (default (i_pm_prepare_D3 w) p).

Lemma run_glb_ok f o :
  length (i_hostbox (ed_world f)) = 1024%nat -> i_task_mask (ed_world f) = IPC_TASK_INLINE ->
  Z.of_nat (length (g_reply o)) <= MAILBOX_HOSTBOX_SIZE ->
  exists box, run_glb o f = Some (with_world f
    (cmd_result (ed_world f) (if g_in_thread o then 3 else 1) box (g_prepare_D3 o)), g_ret o) /\ length box = 1024%nat.
Proof.
  intros Hl Hm Ho. unfold run_glb, mbind, ST_bind, upd, modify.
  set (f1 := with_world f (set_task_mask (ed_world f) (if g_in_thread o then 3 else 1))).
  assert ((if g_in_thread o then fun s : edf ipc => Some (with_world s (set_task_mask (ed_world s)
    (Z.lor (i_task_mask (ed_world s)) IPC_TASK_IN_THREAD)), tt) else mret tt) f = Some (f1, tt)) as ->.
  { unfold f1. destruct (g_in_thread o); [by rewrite Hm|]. change 1 with (BIT 0). rewrite <- Hm. by destruct f as [? ? ? ? []]. }
  case_if.
  - destruct (hostbox_write_ok f1 (g_reply o) (Z.of_nat (length (g_reply o)))) as (box & -> & Hb); [done..|]. by exists box.
  - exists (i_hostbox (ed_world f)). split; [|done]. by destruct f as [? ? ? ? []].
Qed.

Lemma reply_bytes_length r : length (reply_bytes r) = 12%nat.
Proof. done. Qed.

Lemma ipc_cmd_ok f glb hdr :
  glb_ok glb -> length (i_hostbox (ed_world f)) = 1024%nat -> i_task_mask (ed_world f) = IPC_TASK_INLINE ->
  exists (thread : bool) box p, ipc_cmd CONFIG_DEBUG glb hdr f = Some (with_world f
    (cmd_result (ed_world f) (if thread then 3 else 1) box p), tt) /\ length box = 1024%nat /\
    (glb_keeps_pm glb -> p = None).
Proof.
  intros Hg Hl Hm. unfold ipc_cmd.
  match goal with |- context [?m ≫= _] =>
    assert (exists (thread : bool) box p ret, m f = Some (with_world f
      (cmd_result (ed_world f) (if thread then 3 else 1) box p), ret) /\ length box = 1024%nat /\
      (glb_keeps_pm glb -> p = None) /\ (thread = true -> 0 < ret)) as (thread & box & p & ret & Hr & Hb & Hp & Ht) end.
  { assert (forall r, exists (thread : bool) box p ret, (mret r : M Z) f = Some (with_world f
      (cmd_result (ed_world f) (if thread then 3 else 1) box p), ret) /\ length box = 1024%nat /\
      (glb_keeps_pm glb -> p = None) /\ (thread = true -> 0 < ret)) as Hret.
    { intros r. exists false, (i_hostbox (ed_world f)), None, r. split; [|done]. destruct f as [? ? ? ? []]. simpl in Hm. by subst. }
    destruct hdr as [cmd|]; [|apply Hret]. case_if; [apply Hret|]. case_if; [apply Hret|]. case_if; [|apply Hret].
    unfold mbind, ST_bind, get, gets. set (o := glb _ _ _). destruct (Hg (Z.land cmd (SOF_GLB_TYPE 15)) cmd (i_comp_data (ed_world f))) as [H1 H2].
    destruct (run_glb_ok f o Hl Hm H1) as (box & Hbox & Hlen). exists (g_in_thread o), box, (g_prepare_D3 o), (g_ret o).
    split; [done|]. split; [done|]. split; [by intros Hk; apply Hk|]. intros Hth. by destruct (H2 Hth). }
  erewrite bind_Some by exact Hr. case_if.
  - destruct thread; [specialize (Ht eq_refl); lia|].
    destruct (hostbox_write_ok (with_world f (cmd_result (ed_world f) 1 box p))
      (reply_bytes (mk_reply SIZEOF_REPLY SOF_IPC_GLB_REPLY ret)) SIZEOF_REPLY) as (box' & -> & Hb'); [done..|].
    by exists false, box', p.
  - by exists thread, box, p.
Qed.

Lemma ipc_do_cmd_ok f glb :
  glb_ok glb -> length (i_hostbox (ed_world f)) = 1024%nat ->
  exists w', ipc_do_cmd CONFIG_DEBUG glb f = Some (with_world f w', SOF_TASK_STATE_COMPLETED) /\
    (i_task_mask w' = 1 \/ i_task_mask w' = 3) /\ length (i_hostbox w') = 1024%nat /\
    i_regs w' = i_regs (ed_world f) /\ note_same (ed_world f) w' /\
    (glb_keeps_pm glb -> i_pm_prepare_D3 w' = i_pm_prepare_D3 (ed_world f)).
Proof.
  intros Hg Hl. unfold ipc_do_cmd, mbind, ST_bind, upd, modify. simpl.
  set (f1 := with_world f (set_task_mask (ed_world f) IPC_TASK_INLINE)).
  unfold ipc_platform_do_cmd, mbind, ST_bind.
  destruct (mailbox_validate_ok f1 Hl) as (w1 & -> & Hw1 & _).
  destruct (ipc_cmd_ok (with_world f1 w1) glb
    ((fun _ => read32 (i_hostbox (ed_world f1)) 4) <$> valid_cmd (i_hostbox (ed_world f1))) Hg)
    as (thread & box & p & -> & Hb & Hp); [simpl; rewrite Hw1; done..|].
  eexists. split; [reflexivity|]. simpl. split; [destruct thread; auto|]. split; [done|].
  rewrite Hw1. split; [done|]. split; [by split|]. intros Hk. by rewrite Hp.
Qed.

Lemma cmd_task_state s g : cmd_at s g ->
  ipc_task_runs ipc_task s = match g with Picked | Inline | Both => true | _ => false end.
Proof.
  intros C. pose proof (ca_task _ _ _ _ C) as T. unfold ipc_task_runs.
  destruct g; simpl in T; destruct T as (X & _ & Y);
    try (rewrite Y, X, Z.eqb_refl; by rewrite bool_decide_true);
    apply andb_false_intro2, bool_decide_false; intros E.
  all: try (destruct X as (x & X & Hx); rewrite X in E; injection E as ->; done).
  congruence.
Qed.

(** The IPC task takes the command out of the mailbox. *)
Lemma act_run_ok s g glb :
  glb_ok glb -> cmd_at s g -> exists s' g', act_run ipc_task CONFIG_DEBUG glb s = Some s' /\ cmd_at s' g' /\ cmd_step s s' /\
    y_fw s' = with_world (y_fw s) (world s') /\
    (glb_keeps_pm glb -> i_pm_prepare_D3 (world s') = i_pm_prepare_D3 (world s)) /\
    match g with Picked => g' = Inline \/ g' = Both | _ => g' = g /\ s' = s end.
Proof.
  intros Hg C. unfold act_run. rewrite (cmd_task_state s g C), (ca_mask _ _ _ _ C).
  destruct (decide (g = Picked)) as [->|Hn].
  2:{ exists s, g. split; [by destruct g|]. split; [done|]. split; [done|]. split; [by destruct s as [[]]|]. split; [done|]. by destruct g. }
  simpl. destruct C as [C1 C2 C3 C4 C5 C8 (Hd & Hrep & cs & Hcs & Hruns & Hlen) C7].
  pose proof (dispatched_valid s C7) as Hdis.
  destruct (ipc_do_cmd_ok (y_fw s) glb Hg C7) as (w' & Hdo & Hmask & Hbox & Hregs & Hsame & Hpm).
  erewrite step_Some by exact Hdo. simpl. eexists _, (if i_task_mask w' =? 1 then Inline else Both). split; [reflexivity|].
  split; [|split; [by split|split; [done|split; [done|case_if; auto]]]].
  assert (length (y_cmds s) = S (length (y_answers s))) as Hlc by (rewrite Hcs, length_app; simpl; lia).
  assert (y_runs s ++ [dispatched s] = valid_cmd <$> y_cmds s) as Hr by (by rewrite Hcs, fmap_app, Hruns, Hdis).
  destruct Hmask as [E|E]; rewrite E; simpl; split; simpl; rewrite ?Hregs, ?E, ?Hd, ?Hrep; simpl; try done;
    try (by eapply edf_ok_frame; [..|exact C5]).
  by rewrite app_nil_r.
Qed.

(** Only the last of the contexts of a command signals the host. *)
Lemma complete_cmd_ok f :
  exists w', ipc_complete_cmd isrd f = Some (with_world f w', tt) /\ note_same (ed_world f) w' /\
    i_task_mask w' = i_task_mask (ed_world f) /\ i_hostbox w' = i_hostbox (ed_world f) /\
    i_pm_prepare_D3 w' = i_pm_prepare_D3 (ed_world f) /\
    if i_task_mask (ed_world f) =? 0 then
      Z.testbit (i_regs w' SHIM_IPCXH) 31 = false /\ Z.testbit (i_regs w' SHIM_IPCXH) 30 = true /\
      Z.testbit (i_regs w' SHIM_IMRD) 1 = false
    else w' = ed_world f.
Proof.
  unfold ipc_complete_cmd, mbind, ST_bind, get, gets. destruct (i_task_mask (ed_world f) =? 0) eqn:E; simpl.
  - eexists. split; [reflexivity|]. split; [split; regs; done|]. do 3 (split; [done|]). split_and!; regs; done.
  - exists (ed_world f). split; [by destruct f|]. done.
Qed.

Definition after_complete (g : stage) : stage := match g with Inline => Idle | Both => Thread | _ => g end.

(** The completion of the IPC task. *)
Lemma complete_task_ok f g :
  i_task_mask (ed_world f) = stage_mask g -> g = Inline \/ g = Both ->
  exists w', ipc_complete_task isrd f = Some (with_world f w', tt) /\ note_same (ed_world f) w' /\
    i_task_mask w' = stage_mask (after_complete g) /\ i_hostbox w' = i_hostbox (ed_world f) /\
    i_pm_prepare_D3 w' = i_pm_prepare_D3 (ed_world f) /\
    if decide (g = Inline) then
      Z.testbit (i_regs w' SHIM_IPCXH) 31 = false /\ Z.testbit (i_regs w' SHIM_IPCXH) 30 = true /\
      Z.testbit (i_regs w' SHIM_IMRD) 1 = false
    else i_regs w' = i_regs (ed_world f).
Proof.
  intros Hm Hg. unfold ipc_complete_task, mbind, ST_bind, upd, modify.
  set (f1 := with_world f (set_task_mask (ed_world f) (Z.ldiff (i_task_mask (ed_world f)) IPC_TASK_INLINE))).
  destruct (complete_cmd_ok f1) as (w' & -> & [N1 N2 N3 N4 N5] & Hm' & Hb & Hpm & Hr).
  exists w'. split; [done|]. split; [by split|]. unfold f1 in Hm', Hb, Hr. simpl in Hm', Hb, Hr. rewrite Hm in Hm', Hr.
  split; [rewrite Hm'; by destruct Hg as [-> | ->]|]. do 2 (split; [done|]).
  destruct Hg as [-> | ->]; vm_compute (Z.ldiff _ _) in Hr; simpl in Hr; [done|]. by rewrite Hr.
Qed.

Lemma act_complete_ok s g :
  cmd_at s g -> exists s', act_complete isrd ipc_task s = Some s' /\ cmd_at s' (after_complete g) /\ cmd_step s s' /\
    i_pm_prepare_D3 (world s') = i_pm_prepare_D3 (world s) /\
    if decide (g = Inline \/ g = Both) then ed_irq (y_fw s') = true else s' = s.
Proof.
  intros C. unfold act_complete. rewrite (cmd_task_state s g C), (ca_mask _ _ _ _ C).
  destruct (decide (g = Inline \/ g = Both)) as [Hg|Hn].
  2:{ exists s. split; [destruct g; naive_solver|]. split; [destruct g; naive_solver|]. done. }
  replace (negb _ || negb _) with false by (by destruct Hg as [-> | ->]).
  destruct C as [C1 C2 C3 C4 C5 (k & Hk & Hp) C6 C7].
  destruct (complete_task_ok (y_fw s) g C3 Hg) as (w' & Hct & Hsame & Hm & Hb & Hpm & Hr).
  destruct (schedule_edf_task_complete_wp (y_fw s) ipc_task k (Some (ipc_complete_task isrd)) (fun w => w = w'))
    as (f2 & r & Hf2 & Hok2 & -> & Hw2 & Hl2 & Hc2 & Hi2 & Ht2); [done..|by eexists _, _; split; [exact Hct|]; eauto|].
  erewrite step_Some by (unfold mbind, ST_bind; rewrite Hf2; reflexivity).
  eexists. split; [reflexivity|]. split; [|by split; [split; simpl; rewrite ?Hw2|simpl; rewrite ?Hw2]].
  assert (ed_list f2 = [main_task] /\ ed_current f2 = ipc_task) as [Hl Hcur].
  { rewrite Hl2, Hc2. destruct Hg as [-> | ->]; destruct C4 as (_ & -> & ->); split; try done;
      rewrite filter_cons_True by auto; by rewrite filter_cons_False by auto. }
  split; simpl; rewrite ?Hw2, ?Hm, ?Hb; try done.
  - destruct Hg as [-> | ->]; simpl in *; [tauto|by rewrite Hr].
  - destruct Hg as [-> | ->]; simpl in *; [tauto|by rewrite Hr].
  - destruct Hg as [-> | ->]; simpl; rewrite Ht2, lookup_insert_eq; (split_and!; [by eexists|done|by right]).
  - by eapply edf_ok_frame; [..|exact Hok2].
  - rewrite Ht2, lookup_insert_eq. by eexists.
  - destruct Hg as [-> | ->]; simpl in *.
    + destruct Hr as (_ & -> & _). destruct C6 as (_ & ? & ? & ?). rewrite ?Hw2, Hb. done.
    + by rewrite Hr.
Qed.

Definition after_reply (g : stage) : stage := match g with Both => Inline | Thread => Idle | _ => g end.

(** The reply of the pipeline task. *)
Lemma act_reply_ok s g r :
  r_size r = SIZEOF_REPLY -> cmd_at s g -> exists s', act_reply isrd r s = Some s' /\
    cmd_at s' (after_reply g) /\ cmd_step s s'.
Proof.
  intros Hr C. unfold act_reply. rewrite (ca_mask _ _ _ _ C).
  destruct (decide (g = Both \/ g = Thread)) as [Hg|Hn].
  2:{ exists s. split; [destruct g; naive_solver|]. split; [destruct g; naive_solver|]. done. }
  replace (negb _) with false by (by destruct Hg as [-> | ->]).
  destruct C as [C1 C2 C3 C4 C5 C8 C6 C7]. unfold ipc_msg_reply.
  destruct (hostbox_write_ok (y_fw s) (reply_bytes r) (r_size r) C7) as (box & Hw & Hlen); [rewrite Hr; done..|].
  set (f1 := with_world (y_fw s) (set_task_mask (set_hostbox (world s) box)
    (Z.ldiff (i_task_mask (world s)) IPC_TASK_IN_THREAD))).
  destruct (complete_cmd_ok f1) as (w' & Hc & [N1 N2 N3 N4 N5] & Hm & Hb & _ & Hrg).
  unfold f1 in Hm, Hb, Hrg. simpl in Hm, Hb, Hrg.
  erewrite step_Some by (erewrite bind_Some by exact Hw; exact Hc). simpl.
  eexists. split; [reflexivity|]. split; [|by split; [split|]].
  rewrite C3 in Hm, Hrg. split; simpl; rewrite ?Hb; try done.
  - destruct Hg as [-> | ->]; vm_compute (Z.ldiff _ _) in Hrg; simpl in *; [by rewrite Hrg|tauto].
  - destruct Hg as [-> | ->]; vm_compute (Z.ldiff _ _) in Hrg; simpl in *; [by rewrite Hrg|tauto].
  - rewrite Hm. by destruct Hg as [-> | ->].
  - by destruct Hg as [-> | ->].
  - by eapply edf_ok_frame; [..|exact C5].
  - destruct Hg as [-> | ->]; vm_compute (Z.ldiff _ _) in Hrg; simpl in *; destruct C6 as (Hd & H1 & H2 & H3).
    + rewrite Hrg. simpl. by rewrite H2.
    + destruct Hrg as (_ & -> & _). rewrite H2, Hb. done.
Qed.

Lemma act_host_command_ok s g c :
  length c = 1024%nat -> cmd_at s g -> exists g', cmd_at (act_host_command c s) g' /\ cmd_step s (act_host_command c s).
Proof.
  intros Hc C. unfold act_host_command. rewrite (ca_busy _ _ _ _ C). destruct (stage_busy g || _) eqn:E.
  { by exists g. }
  apply orb_false_iff in E as [Eb Ed]. destruct g; try done. exists Requested. destruct C as [C1 C2 C3 C4 C5 C8 C6 C7].
  rewrite Ed in C6. destruct C6 as (H1 & H2 & H3). split; [|by split].
  split; simpl; try done; [by eapply edf_ok_frame; [..|exact C5]|]. bits. split_and!; [done..|]. by exists (y_cmds s).
Qed.

Lemma act_host_answer_ok s g :
  cmd_at s g -> cmd_at (act_host_answer s) g /\ cmd_step s (act_host_answer s) /\ y_cmds (act_host_answer s) = y_cmds s /\
    Z.testbit (i_regs (world (act_host_answer s)) SHIM_IPCXH) 30 = false.
Proof.
  intros C. unfold act_host_answer. destruct (Z.testbit (i_regs (world s) SHIM_IPCXH) 30) eqn:E; simpl; [|by split_and!].
  destruct C as [C1 C2 C3 C4 C5 C8 C6 C7]. rewrite E in C6.
  destruct g; simpl in C6; try (by destruct C6).
  split; [|split; [by split|split; [done|by bits]]].
  destruct C6 as (H1 & H2 & H3). split; simpl; try done; [by bits|by eapply edf_ok_frame; [..|exact C5]|].
  bits. rewrite H1, H2, length_app. simpl. split; [done|]. split; [done|lia].
Qed.

(** ** Histories *)

Definition action_ok (a : action) : Prop :=
  match a with
  | MsgSend msg data _ => exists h n, sig !! msg = Some (h, n) /\ n <= Z.of_nat (length data)
  | RunTask glb => glb_ok glb
  | ThreadReply r => r_size r = SIZEOF_REPLY
  | HostCommand c => length c = 1024%nat
  | _ => True
  end.

Record inv s : Prop := {
  inv_note : note_inv s;
  inv_cmd : cmd_inv s
}.

Lemma inv_cmd_step s s' g : inv s -> cmd_step s s' -> cmd_at s' g -> inv s'.
Proof.
  intros [I C] N C'. split; [by eapply note_inv_step|by exists g].
Qed.

Lemma inv_note_step s s' : inv s -> note_inv s' -> note_step s s' -> inv s'.
Proof.
  intros [I (g & C)] I' N. split; [done|exists g; by eapply cmd_at_step].
Qed.

Lemma act_ok s a : inv s -> action_ok a -> exists s', act a s = Some s' /\ inv s'.
Proof.
  intros V Ha. pose proof V as [I (g & C)]. destruct a as [msg d high| | | |glb| |r| |c|]; simpl in Ha |- *.
  - destruct Ha as (h & n & Hs & Hn). destruct (act_send_ok s msg d high h n I Hs Hn) as (s' & -> & I' & N).
    eauto using inv_note_step.
  - destruct (act_main_ok s I) as (s' & -> & I' & N & _). eauto using inv_note_step.
  - destruct (act_irq_ok s g I C) as (s' & -> & I' & C' & _ & _ & P' & _). exists s'. split; [done|].
    split; [done|by eexists].
  - destruct (act_edf_ok s g C) as (s' & -> & C' & W & G & _). exists s'. split; [done|].
    eapply inv_cmd_step; [done| |done]. split; [by rewrite W|done].
  - destruct (act_run_ok s g glb Ha C) as (s' & g' & -> & C' & N & _). eauto using inv_cmd_step.
  - destruct (act_complete_ok s g C) as (s' & -> & C' & N & _). eauto using inv_cmd_step.
  - destruct (act_reply_ok s g r Ha C) as (s' & -> & C' & N). eauto using inv_cmd_step.
  - destruct (act_host_read_ok s I) as (I' & N & _). eauto using inv_note_step.
  - destruct (act_host_command_ok s g c Ha C) as (g' & C' & N). eauto using inv_cmd_step.
  - destruct (act_host_answer_ok s g C) as (C' & N & _). eauto using inv_cmd_step.
Qed.

Lemma run_ok l : forall s, inv s -> Forall action_ok l -> exists s', run l s = Some s' /\ inv s'.
Proof.
  induction l as [|a l IH]; intros s V Hl; simpl; [by exists s|]. apply Forall_cons in Hl as [Ha Hl].
  destruct (act_ok s a V Ha) as (s1 & -> & V1). simpl. by apply IH.
Qed.

(** The start: both lines are clear, the messages are new, the main task runs,
    and the driver unmasks its interrupts. *)
Definition reset (r : Z -> Z) : sys :=
  mk_sys (mk_edf [main_task]
      (<[ipc_task := mk_edf_task SOF_TASK_STATE_INIT 1]> {[main_task := mk_edf_task SOF_TASK_STATE_RUNNING 1]})
      main_task false
      (mk_ipc r ((fun x => mk_tx x.1 x.2 (replicate (Z.to_nat x.2) 0)) <$> sig) [] false 0 0
        (replicate 384 0) (replicate 1024 0) (replicate 1024 0)))
    [] [] [] ∅ false [] [] [] [].

Definition boot (r : Z -> Z) (l : list action) : option sys :=
  s ← step (platform_ipc_unmask isrd) (reset r); run l s.

Definition regs_clear (r : Z -> Z) : Prop :=
  Z.testbit (r SHIM_IPCDH) 31 = false /\ Z.testbit (r SHIM_IPCDH) 30 = false /\
  Z.testbit (r SHIM_IPCXH) 31 = false /\ Z.testbit (r SHIM_IPCXH) 30 = false.

Lemma edf_ok_reset r : edf_ok (y_fw (reset r)).
Proof.
  split; simpl.
  - apply NoDup_singleton.
  - rewrite list_elem_of_singleton. auto.
  - intros t ->%list_elem_of_singleton. rewrite lookup_insert_ne, lookup_singleton_eq by done. by eexists.
  - intros t k Hk Hn. rewrite list_elem_of_singleton in Hn. destruct (decide (t = ipc_task)) as [->|Ht].
    + rewrite lookup_insert_eq in Hk. by simplify_eq.
    + rewrite lookup_insert_ne, lookup_singleton_ne in Hk by done. done.
Qed.

Lemma boot_inv r : regs_clear r -> exists s, step (platform_ipc_unmask isrd) (reset r) = Some s /\ inv s /\
  y_high s = false.
Proof.
  intros (R1 & R2 & R3 & R4). eexists. split; [reflexivity|]. split; [|done]. split; [|exists Idle].
  - split; simpl; try done.
    + left. unfold line. regs. by rewrite R1, R2.
    + regs. by rewrite ?andb_false_r.
    + rewrite <- map_fmap_compose. rewrite <- (map_fmap_id sig) at 2. apply map_fmap_ext. by intros i [].
    + intros m x. rewrite lookup_fmap. destruct (sig !! m) as [[h n]|] eqn:E; [|done]. intros [= <-]. simpl.
      rewrite length_replicate. pose proof (sig_fits _ _ _ E). lia.
    + intros m x. rewrite lookup_fmap. destruct (sig !! m) as [[h n]|] eqn:E; [|done]. by intros [= <-].
    + apply NoDup_nil_2.
    + intros m Hm. by apply not_elem_of_nil in Hm.
    + unfold in_flight. regs. by rewrite R1.
  - split; simpl; try done.
    + regs. by rewrite ?andb_false_r.
    + rewrite lookup_insert_eq. split_and!; [by eexists|done|by left].
    + by eapply edf_ok_frame; [..|apply (edf_ok_reset r)].
    + rewrite lookup_insert_eq. by eexists.
    + regs. by rewrite R4.
Qed.

Definition is_high (a : action) : bool := match a with MsgSend _ _ b => b | _ => false end.

Lemma step_high {B} (m : M B) s s' : step m s = Some s' -> y_high s' = y_high s.
Proof. unfold step. destruct (m (y_fw s)) as [[f x]|]; [|done]. by intros [= <-]. Qed.

Lemma note_due_high msg s s' : y_high (note_due msg s s') = y_high s'.
Proof. unfold note_due. by case_if. Qed.

Lemma act_high a s s' : act a s = Some s' -> y_high s' = y_high s || is_high a.
Proof.
  destruct a as [msg d high| | | |glb| |r| |c|]; simpl; rewrite ?orb_false_r;
    unfold act_send, act_main, act_edf, act_run, act_complete, act_reply, act_host_read, act_host_command, act_host_answer;
    try case_if; try (by intros [= <-]); try (by apply step_high);
    destruct (step _ _) as [s1|] eqn:E; try done; intros [= <-]; apply step_high in E; by rewrite ?note_due_high.
Qed.

Lemma run_high l : forall s s', run l s = Some s' -> y_high s' = y_high s || existsb is_high l.
Proof.
  induction l as [|a l IH]; intros s s'; simpl; [intros [= <-]; by rewrite orb_false_r|].
  destruct (act a s) as [s1|] eqn:E; [|done]. intros H. rewrite (IH _ _ H), (act_high _ _ _ E). by rewrite orb_assoc.
Qed.

(** ** Progress *)

(** The host reads, its interrupt and the scheduler interrupt come, the IPC task
    runs if it was picked, and the main task gets a turn. *)
Definition round (glb : Z -> Z -> list Z -> glb_outcome) : list action :=
  [HostRead; Irq; EdfIrq; RunTask glb; CompleteTask; EdfIrq; MainLoop].

Lemma cmd_step_trans s1 s2 s3 : cmd_step s1 s2 -> cmd_step s2 s3 -> cmd_step s1 s3.
Proof. intros [[] H] [[] H']. split; [split|]; congruence. Qed.

Lemma cmd_step_world s s' : world s' = world s -> note_ghosts s' = note_ghosts s -> cmd_step s s'.
Proof. intros Hw Hg. split; [by rewrite Hw|done]. Qed.

Lemma act_cmds a s s' : act a s = Some s' ->
  match a with HostCommand _ => True | _ => y_cmds s' = y_cmds s end.
Proof.
  assert (forall B (m : M B) s0 s1, step m s0 = Some s1 -> y_cmds s1 = y_cmds s0) as Hstep.
  { intros B m s0 s1. unfold step. destruct (m (y_fw s0)) as [[f x]|]; [|done]. by intros [= <-]. }
  assert (forall msg s0 s1, y_cmds (note_due msg s0 s1) = y_cmds s1) as Hdue.
  { intros. unfold note_due. by case_if. }
  destruct a as [msg d high| | | |glb| |r| |c|]; simpl; try done;
    unfold act_send, act_main, act_edf, act_run, act_complete, act_reply, act_host_read, act_host_answer;
    try case_if; try (by intros [= <-]); try (by apply Hstep);
    destruct (step _ _) as [s1|] eqn:E; try done; intros [= <-]; apply Hstep in E; by rewrite ?Hdue.
Qed.

Lemma run_cmds l : forall s s', run l s = Some s' -> (forall c, HostCommand c ∉ l) -> y_cmds s' = y_cmds s.
Proof.
  induction l as [|a l IH]; intros s s'; simpl; [by intros [= <-]|].
  destruct (act a s) as [s1|] eqn:E; [|done]. simpl. intros H Hn. rewrite (IH _ _ H).
  - apply act_cmds in E. destruct a as [| | | | | | | |c|]; try done. destruct (Hn c). apply elem_of_cons. by left.
  - intros c Hc. apply (Hn c). apply elem_of_cons. by right.
Qed.

(** The scheduler picks the IPC task when it is queued, the task runs, and the
    main task is back; at most the reply of the pipeline task is missing. *)
Lemma task_turn s g glb :
  cmd_at s g -> g <> Requested -> glb_ok glb ->
  exists s' g', run [EdfIrq; RunTask glb; CompleteTask; EdfIrq] s = Some s' /\ cmd_at s' g' /\
    (g' = Idle \/ g' = Thread) /\ ed_current (y_fw s') = main_task /\ cmd_step s s' /\
    (glb_keeps_pm glb -> i_pm_prepare_D3 (world s') = i_pm_prepare_D3 (world s)).
Proof.
  intros C Hn Hg. destruct (act_edf_ok s g C) as (s1 & R1 & C1 & W1 & H1 & _).
  destruct (act_run_ok s1 _ glb Hg C1) as (s2 & g2 & R2 & C2 & N2 & _ & P2 & S2).
  destruct (act_complete_ok s2 g2 C2) as (s3 & R3 & C3 & N3 & P3 & _).
  destruct (act_edf_ok s3 _ C3) as (s4 & R4 & C4 & W4 & H4 & _ & M4).
  assert (after_complete g2 = Idle \/ after_complete g2 = Thread) as Hg2.
  { destruct g; try done; simpl in S2; (destruct S2 as [-> _] || destruct S2 as [-> | ->]); simpl; auto. }
  assert (after_edf (after_complete g2) = after_complete g2) as E by (destruct Hg2 as [-> | ->]; done). rewrite E in C4.
  exists s4, (after_complete g2). split_and!; [|done|done|apply M4; destruct Hg2 as [-> | ->]; done| |].
  - simpl. rewrite R1. simpl. rewrite R2. simpl. rewrite R3. simpl. by rewrite R4.
  - apply (cmd_step_trans s s1); [by apply cmd_step_world|]. apply (cmd_step_trans s1 s2); [done|].
    apply (cmd_step_trans s2 s3); [done|]. by apply cmd_step_world.
  - intros Hk. rewrite W4, P3, P2, W1 by done. done.
Qed.

(** A round hands over the first message of the queue, unless the firmware
    prepares for D3, and a command that was sent is dispatched. *)
Lemma round_ok s glb :
  inv s -> glb_ok glb -> exists s' g, run (round glb) s = Some s' /\ inv s' /\ cmd_at s' g /\ (g = Idle \/ g = Thread) /\
    y_accepted s' = y_accepted s /\
    (i_pm_prepare_D3 (world s) = 0 -> glb_keeps_pm glb ->
      i_msg_list (world s') = tail (i_msg_list (world s)) /\ i_pm_prepare_D3 (world s') = 0).
Proof.
  intros V Hg. pose proof V as [I (g & C)].
  destruct (act_host_read_ok s I) as (I1 & N1 & Q1 & _ & A1 & B1). set (s1 := act_host_read s) in *.
  pose proof (cmd_at_step s s1 g N1 C) as C1. pose proof (inv_note_step s s1 V I1 N1) as V1.
  destruct (act_irq_ok s1 g I1 C1) as (s2 & R2 & I2 & C2 & _ & H2 & P2 & Q2 & L2). specialize (L2 B1).
  assert (inv s2) as V2 by (split; [done|by eexists]).
  destruct (task_turn s2 (after_irq g) glb C2) as (s3 & g3 & R3 & C3 & Hg3 & M3 & N3 & P3); [by destruct g|done|].
  pose proof (inv_cmd_step _ _ _ V2 N3 C3) as V3.
  destruct (act_main_ok s3 (inv_note _ V3)) as (s4 & R4 & I4 & N4 & A4 & _ & Q4).
  exists s4, g3. split.
  { assert (run [HostRead; Irq] s = Some s2) as R12 by (simpl; fold s1; by rewrite R2).
    change (round glb) with ([HostRead; Irq] ++ [EdfIrq; RunTask glb; CompleteTask; EdfIrq] ++ [MainLoop]).
    rewrite run_app, R12.
    change (run ([EdfIrq; RunTask glb; CompleteTask; EdfIrq] ++ [MainLoop]) s2 = Some s4).
    rewrite run_app, R3. simpl. by rewrite R4. }
  split; [by eapply inv_note_step|]. split; [by eapply cmd_at_step|]. split; [done|].
  destruct N3 as [[B3 D3 _ _ E3] X3]. injection E3 as ? ? ? ?. injection X3 as ? ? ? ? ?. injection H2 as ? ? ? ? ?.
  destruct L2 as (X1 & X2 & X3). split; [congruence|]. intros P Hk. specialize (P3 Hk).
  destruct N1 as (_ & _ & _ & P1). destruct N4 as (_ & _ & _ & P4).
  split; [|congruence]. rewrite Q4; [congruence|done|congruence|]. split_and!; congruence.
Qed.

Lemma rounds_ok n glb : glb_ok glb -> glb_keeps_pm glb -> forall s,
  inv s -> i_pm_prepare_D3 (world s) = 0 -> length (i_msg_list (world s)) = n ->
  exists s', run (concat (replicate n (round glb))) s = Some s' /\ inv s' /\ i_msg_list (world s') = [] /\
    y_accepted s' = y_accepted s.
Proof.
  intros Hg Hk. induction n as [|n IH]; intros s V P Hn.
  { exists s. split_and!; try done. by apply length_zero_iff_nil. }
  change (concat (replicate (S n) (round glb))) with (round glb ++ concat (replicate n (round glb))).
  rewrite run_app. destruct (round_ok s glb V Hg) as (s1 & g & R1 & V1 & _ & _ & A1 & Q1).
  destruct (Q1 P Hk) as [Q1' P1].
  destruct (IH s1 V1 P1) as (s2 & R2 & V2 & Q2 & A2); [rewrite Q1'; destruct (i_msg_list (world s)); [done|]; simpl in *; lia|].
  exists s2. rewrite R1. split_and!; try done. congruence.
Qed.

(** ** What the host sees *)

(** C15: In every history of sends, turns of the main task, interrupts, commands
    and steps of the host after the start, with messages that fit the mailbox, the
    firmware does not panic; what the host has received, with the notification on
    the line, is the sequence of the transmitted messages, each with its header and
    its payload: the data last sent for it when the message is smaller than
    [SOF_IPC_MSG_MAX_SIZE], and the zeros it was created with when it is not, as
    [ipc_msg_send] does not copy the data then. The accepted messages are the
    transmitted and the waiting ones, each once and, when no message had high
    priority, in the order in which they were accepted. While a command has the
    firmware prepare for D3, a turn of the main task sends nothing; otherwise, as
    many rounds as messages are waiting, with commands that do not ask for it, and a
    last read of the host deliver all of them. *)
Theorem ipc_notifications_delivered (r : Z -> Z) (l : list action) (glb : Z -> Z -> list Z -> glb_outcome) :
  regs_clear r -> Forall action_ok l -> glb_ok glb ->
  exists s, boot r l = Some s /\
    Forall2 (carries sig) (y_received s ++ in_flight (world s)) (y_due s) /\
    NoDup (i_msg_list (world s)) /\
    y_accepted s ≡ₚ (y_due s).*1 ++ i_msg_list (world s) /\
    (existsb is_high l = false -> y_accepted s = (y_due s).*1 ++ i_msg_list (world s)) /\
    (i_pm_prepare_D3 (world s) <> 0 -> act MainLoop s = Some s) /\
    (i_pm_prepare_D3 (world s) = 0 -> glb_keeps_pm glb -> exists s', run (concat (replicate (length (i_msg_list (world s))) (round glb)) ++ [HostRead]) s = Some s' /\
      Forall2 (carries sig) (y_received s') (y_due s') /\ y_accepted s ≡ₚ (y_due s').*1 /\
      (existsb is_high l = false -> y_accepted s = (y_due s').*1)).
Proof.
  intros Hr Hl Hg. destruct (boot_inv r Hr) as (s0 & R0 & V0 & H0). destruct (run_ok l s0 V0 Hl) as (s & R & V).
  pose proof (run_high l s0 s R) as Hh. rewrite H0 in Hh. simpl in Hh.
  exists s. unfold boot. rewrite R0. pose proof V as [I _]. split; [exact R|].
  split; [apply I|]. split; [apply I|]. split; [apply I|]. rewrite <- Hh. split; [apply I|].
  split; [apply act_main_D3|]. intros P Hk.
  destruct (rounds_ok _ glb Hg Hk s V P eq_refl) as (s1 & R1 & V1 & Q1 & A1).
  destruct (act_host_read_ok s1 (inv_note _ V1)) as (I2 & _ & Q2 & D2 & A2 & B2).
  exists (act_host_read s1). rewrite run_app, R1. split; [done|]. destruct I2 as [_ _ _ _ _ _ _ _ J1 J2 J3].
  unfold in_flight in J1. rewrite B2, app_nil_r in J1. split; [done|].
  rewrite Q2, Q1, app_nil_r, A2, A1 in J2, J3. split; [done|]. intros Hn. apply J3.
  assert (y_high (act_host_read s1) = y_high s1) as -> by (unfold act_host_read; by case_if).
  rewrite (run_high _ _ _ R1), Hn. simpl. generalize (length (i_msg_list (world s))) as n.
  induction n as [|n IH]; [done|]. exact IH.
Qed.

Lemma cmd_at_logs s g : cmd_at s g ->
  y_runs s `prefix_of` (valid_cmd <$> y_cmds s) /\ y_answers s `prefix_of` y_replies s /\
  (length (y_replies s) <= length (y_runs s) <= length (y_cmds s))%nat /\
  (length (y_cmds s) <= S (length (y_answers s)))%nat.
Proof.
  intros [_ _ _ _ _ _ L _]. destruct g; simpl in L.
  - destruct L as [-> L]. rewrite length_fmap. destruct (Z.testbit _ 30); destruct L as [-> E].
    + rewrite length_app. simpl. split_and!; (done || lia || by apply prefix_app_r).
    + split_and!; (done || lia).
  - destruct L as (_ & -> & cs & -> & -> & E). rewrite fmap_app, length_fmap, length_app. simpl.
    split_and!; (done || lia || by apply prefix_app_r).
  - destruct L as (_ & -> & cs & -> & -> & E). rewrite fmap_app, length_fmap, length_app. simpl.
    split_and!; (done || lia || by apply prefix_app_r).
  - destruct L as (_ & -> & cs & -> & -> & E). rewrite fmap_app, length_fmap, length_app. simpl.
    split_and!; (done || lia || by apply prefix_app_r).
  - destruct L as (_ & -> & -> & E). rewrite length_fmap, length_app. simpl.
    split_and!; (done || lia || by apply prefix_app_r).
  - destruct L as (_ & -> & -> & E). rewrite length_fmap. split_and!; (done || lia).
  - destruct L as (_ & -> & -> & E). rewrite length_fmap. split_and!; (done || lia).
Qed.

(** C16: In every history, the commands the firmware dispatches are the commands
    of the host, in order and once each; the host takes the replies in the order
    in which they were written; at most one command is without its answer, and
    when the host is signalled, every command was dispatched and the mailbox holds
    the reply to the last. From there a round, the reply of the pipeline task if
    it owes one, and a read of the host leave every command answered. *)
Theorem ipc_commands_answered (r : Z -> Z) (l : list action) (glb : Z -> Z -> list Z -> glb_outcome)
    (reply : sof_ipc_reply) :
  regs_clear r -> Forall action_ok l -> glb_ok glb -> r_size reply = SIZEOF_REPLY ->
  exists s, boot r l = Some s /\
    y_runs s `prefix_of` (valid_cmd <$> y_cmds s) /\ y_answers s `prefix_of` y_replies s /\
    (length (y_replies s) <= length (y_runs s) <= length (y_cmds s))%nat /\
    (length (y_cmds s) <= S (length (y_answers s)))%nat /\
    (Z.testbit (i_regs (world s) SHIM_IPCXH) 30 = true ->
      y_runs s = valid_cmd <$> y_cmds s /\ y_replies s = y_answers s ++ [i_hostbox (world s)]) /\
    exists s', run (round glb ++ [ThreadReply reply; HostAnswer]) s = Some s' /\
      y_cmds s' = y_cmds s /\ y_runs s' = valid_cmd <$> y_cmds s /\ y_replies s' = y_answers s' /\
      length (y_answers s') = length (y_cmds s).
Proof.
  intros Hr Hl Hg Hrep. destruct (boot_inv r Hr) as (s0 & R0 & V0 & _). destruct (run_ok l s0 V0 Hl) as (s & R & V).
  exists s. unfold boot. rewrite R0. pose proof V as [I (g & C)]. split; [exact R|].
  destruct (cmd_at_logs s g C) as (L1 & L2 & L3 & L4). do 4 (split; [done|]). split.
  { intros Hd. pose proof (ca_log _ _ _ _ C) as L. rewrite Hd in L. destruct g; simpl in L; tauto || (by destruct L). }
  destruct (round_ok s glb V Hg) as (s1 & g1 & R1 & V1 & C1 & Hg1 & _).
  destruct (act_reply_ok s1 g1 reply Hrep C1) as (s2 & R2 & C2 & _).
  assert (after_reply g1 = Idle) as E by (by destruct Hg1 as [-> | ->]). rewrite E in C2.
  destruct (act_host_answer_ok s2 Idle C2) as (C3 & _ & K3 & D3).
  assert (run (round glb ++ [ThreadReply reply; HostAnswer]) s = Some (act_host_answer s2)) as R3.
  { rewrite run_app, R1. simpl. by rewrite R2. }
  exists (act_host_answer s2). split; [done|].
  assert (y_cmds (act_host_answer s2) = y_cmds s) as K.
  { apply (run_cmds _ _ _ R3). intros c Hc. simpl in Hc. repeat (apply elem_of_cons in Hc as [Hc|Hc]; [done|]).
    by apply not_elem_of_nil in Hc. }
  pose proof (ca_log _ _ _ _ C3) as L. rewrite D3 in L. destruct L as (X1 & X2 & X3).
  rewrite K in X1, X3. split_and!; done.
Qed.
End thms.

(** ** A run *)

(** The interrupt status as the registers determine it. *)
Definition hw_isrd (r : Z -> Z) : Z :=
  (if Z.testbit (r SHIM_IPCDH) 30 then 1 else 0) + (if Z.testbit (r SHIM_IPCXH) 31 then 2 else 0).

Lemma hw_isrd_done r : Z.testbit (hw_isrd r) 0 = Z.testbit (r SHIM_IPCDH) 30.
Proof. unfold hw_isrd. by destruct (Z.testbit (r SHIM_IPCDH) 30), (Z.testbit (r SHIM_IPCXH) 31). Qed.

Lemma hw_isrd_busy r : Z.testbit (hw_isrd r) 1 = Z.testbit (r SHIM_IPCXH) 31.
Proof. unfold hw_isrd. by destruct (Z.testbit (r SHIM_IPCDH) 30), (Z.testbit (r SHIM_IPCXH) 31). Qed.

(** Three messages of four bytes. *)
Definition some_sig : gmap Z (Z * Z) := {[100 := (7, 4); 101 := (8, 4); 102 := (9, 4)]}.

Lemma some_sig_fits m h n : some_sig !! m = Some (h, n) -> 0 <= n <= MAILBOX_DSPBOX_SIZE.
Proof. intros H. apply elem_of_map_to_list in H. revert H. vm_compute map_to_list. set_solver by (simplify_eq; lia). Qed.

(** Handlers that leave stream commands to the pipeline task. *)
Definition some_glb (t cmd : Z) (c : list Z) : glb_outcome :=
  if t =? SOF_GLB_TYPE 6 then mk_outcome 1 true [] None else mk_outcome 0 false [] None.

Lemma some_glb_ok : glb_ok some_glb.
Proof. intros t c l. unfold some_glb. by case_if. Qed.

Definition some_cmd : list Z := le32 12 ++ le32 (SOF_GLB_TYPE 6) ++ replicate 1016 0.

Definition some_history : list action :=
  [MsgSend 100 [1; 2; 3; 4] false; MainLoop; MsgSend 101 [5; 6; 7; 8] true; HostCommand some_cmd;
   MsgSend 102 [9; 10; 11; 12] true; Irq; EdfIrq; RunTask some_glb; HostRead; CompleteTask; EdfIrq; Irq; MainLoop].

Definition some_boot := boot hw_isrd 1 2 false some_sig (fun _ => 0).

(** Two messages of high priority that find the line busy are sent in the reverse
    of the order in which they were accepted. *)
Example high_priority_reversed :
  (fun s => (y_accepted s, (y_due s).*1, i_msg_list (world s))) <$> some_boot some_history =
  Some ([100; 101; 102], [100; 102], [101]).
Proof. vm_compute. reflexivity. Qed.

(** A message that waits keeps its place when it is sent again with high
    priority. *)
Example high_priority_not_promoted :
  (fun s => i_msg_list (world s)) <$>
    some_boot [MsgSend 100 [1; 2; 3; 4] true; MsgSend 101 [1; 2; 3; 4] false; MsgSend 102 [1; 2; 3; 4] false;
               MsgSend 102 [1; 2; 3; 4] true] = Some [101; 102].
Proof. vm_compute. reflexivity. Qed.

(** A message of the maximal size is transmitted without the data it was sent
    with. *)
Example full_size_message_stale :
  (fun s => (fun x => take 2 x.2) <$> y_received s) <$>
    boot hw_isrd 1 2 false {[100 := (7, 384)]} (fun _ => 0) [MsgSend 100 (replicate 384 5) true; HostRead] =
  Some [[0; 0]].
Proof. vm_compute. reflexivity. Qed.

Lemma some_history_ok : Forall (action_ok some_sig) some_history.
Proof.
  unfold some_history. repeat (apply Forall_cons_2; [try done|]); [..|apply Forall_nil_2];
    [exists 7, 4|exists 8, 4|exists 9, 4|apply some_glb_ok]; by split.
Qed.

Lemma some_history_cmds : (fun s => length (y_cmds s)) <$> some_boot some_history = Some 1%nat.
Proof. vm_compute. reflexivity. Qed.

Lemma some_history_awake : (fun s => i_pm_prepare_D3 (world s)) <$> some_boot some_history = Some 0.
Proof. vm_compute. reflexivity. Qed.

Lemma some_glb_keeps_pm : glb_keeps_pm some_glb.
Proof. intros t c l. unfold some_glb. by case_if. Qed.

(** After the command that saves the context, the main task sends nothing. *)
Example context_save_stops_messages :
  (fun s => (i_msg_list (world s), y_due s)) <$>
    some_boot [HostCommand some_cmd; Irq; EdfIrq; RunTask (fun _ _ _ => mk_outcome 0 false [] (Some 1)); CompleteTask;
               EdfIrq; MsgSend 100 [1; 2; 3; 4] false; MainLoop] = Some ([100], []).
Proof. vm_compute. reflexivity. Qed.

Lemma ipc_notifications_delivered_witness : exists s s', some_boot some_history = Some s /\
  y_accepted s ≡ₚ (y_due s).*1 ++ i_msg_list (world s) /\
  run hw_isrd 1 2 false (concat (replicate (length (i_msg_list (world s))) (round some_glb)) ++ [HostRead]) s = Some s' /\
  y_accepted s ≡ₚ (y_due s').*1.
Proof.
  destruct (ipc_notifications_delivered hw_isrd 1 2 false some_sig hw_isrd_done hw_isrd_busy ltac:(done) ltac:(done)
    ltac:(done) some_sig_fits (fun _ => 0) some_history some_glb) as (s & Hs & _ & _ & Ha & _ & _ & H);
    [done|apply some_history_ok|apply some_glb_ok|].
  destruct H as (s' & Hr & _ & Ha' & _); [|apply some_glb_keeps_pm|].
  { pose proof some_history_awake as E. unfold some_boot in E. rewrite Hs in E. exact (Some_inj _ _ E). }
  exists s, s'. split; [exact Hs|]. split; [exact Ha|]. split; [exact Hr|exact Ha'].
Defined.

Lemma ipc_commands_answered_witness : exists s s', some_boot some_history = Some s /\ length (y_cmds s) = 1%nat /\
  run hw_isrd 1 2 false (round some_glb ++ [ThreadReply (mk_reply 12 SOF_IPC_GLB_REPLY 0); HostAnswer]) s = Some s' /\
  length (y_answers s') = 1%nat.
Proof.
  pose proof (ipc_commands_answered hw_isrd 1 2 false some_sig hw_isrd_done hw_isrd_busy ltac:(done) ltac:(done)
    ltac:(done) some_sig_fits (fun _ => 0) some_history some_glb (mk_reply 12 SOF_IPC_GLB_REPLY 0)
    ltac:(done) some_history_ok some_glb_ok eq_refl) as H.
  destruct H as (s & Hs & _ & _ & _ & _ & _ & H).
  destruct H as (s' & Hr & _ & _ & _ & Hl).
  assert (length (y_cmds s) = 1%nat) as E.
  { pose proof some_history_cmds as E. unfold some_boot in E. rewrite Hs in E. exact (Some_inj _ _ E). }
  exists s, s'. split; [exact Hs|]. split; [exact E|]. split; [exact Hr|]. by rewrite Hl.
Defined.
