(* ===== verification/RealBounds.v ===== *)
(** * Bounds on elementary functions

    Logarithm, arc tangent and exponential function over the real numbers, between
    partial sums of their series, which are evaluated on rational numbers; complex numbers
    as a ring, and their magnitude. *)

From Stdlib Require Import Reals Lra Lia QArith Qreals Ring.
From stdpp Require Import base list numbers.
From S2P Require Import Prelude.

Local Open Scope R_scope.
Local Close Scope Q_scope.

(** ** From derivatives to bounds *)

Lemma increasing_on f f' a b : a <= b ->
  (forall c, a <= c <= b -> derivable_pt_lim f c (f' c)) -> (forall c, a <= c <= b -> 0 <= f' c) -> f a <= f b.
Proof.
  intros Hab Hd Hp. destruct (Req_dec a b) as [->|Hne]; [lra|].
  destruct (MVT_cor2 f f' a b ltac:(lra) Hd) as (c & E & Hc). specialize (Hp c ltac:(lra)).
  assert (0 <= f' c * (b - a)) by (apply Rmult_le_pos; lra). lra.
Qed.

Lemma abs_between x b : Rabs x <= b -> - b <= x <= b.
Proof. intros H. pose proof (Rle_abs x). pose proof (Rle_abs (- x)) as H2. rewrite Rabs_Ropp in H2. lra. Qed.

Lemma power_integral_lim M n c : derivable_pt_lim (fun t => M * (t ^ S n / INR (S n))) c (M * c ^ n).
Proof.
  apply derivable_pt_lim_scal. unfold Rdiv.
  replace (c ^ n) with (INR (S n) * c ^ pred (S n) * / INR (S n)) by (cbn [pred]; field; apply not_0_INR; lia).
  apply (derivable_pt_lim_ext (fun t => / INR (S n) * t ^ S n)); [intros; lra|].
  rewrite (Rmult_comm _ (/ _)). apply derivable_pt_lim_scal, derivable_pt_lim_pow.
Qed.

(** A function from 0 whose derivative is at most [M c^n] in magnitude. *)
Lemma integral_bound f f' b M n : 0 <= b -> f 0 = 0 ->
  (forall c, 0 <= c <= b -> derivable_pt_lim f c (f' c)) ->
  (forall c, 0 <= c <= b -> Rabs (f' c) <= M * c ^ n) -> Rabs (f b) <= M * (b ^ S n / INR (S n)).
Proof.
  intros Hb E0 Hd Hm. set (g := fun t => M * (t ^ S n / INR (S n))).
  assert (g 0 = 0) as Eg by (unfold g; cbn [pow]; unfold Rdiv; lra).
  assert (forall c, 0 <= c <= b -> - (M * c ^ n) <= f' c <= M * c ^ n) as Hr.
  { intros c Hc. apply abs_between. by apply Hm. }
  assert (f 0 + g 0 <= f b + g b) as H1.
  { apply (increasing_on (fun t => f t + g t) (fun t => f' t + M * t ^ n)); [done| |intros c Hc; specialize (Hr c Hc); lra].
    intros c Hc. apply derivable_pt_lim_plus; [by apply Hd|apply power_integral_lim]. }
  assert (g 0 - f 0 <= g b - f b) as H2.
  { apply (increasing_on (fun t => g t - f t) (fun t => M * t ^ n - f' t)); [done| |intros c Hc; specialize (Hr c Hc); lra].
    intros c Hc. apply derivable_pt_lim_minus; [apply power_integral_lim|by apply Hd]. }
  fold (g b). apply Rabs_le. lra.
Qed.

(** ** Series

    The sum of [a i * z^(2 i + 1) / (2 i + 1)] for the [n] numbers [i] from [k] on, and its
    derivative. *)

Fixpoint odd_sum (a : nat -> R) (n k : nat) (z : R) : R :=
  match n with
  | O => 0
  | S n => a k * (z ^ S (2 * k) / INR (S (2 * k))) + odd_sum a n (S k) z
  end.

Fixpoint even_sum (a : nat -> R) (n k : nat) (z : R) : R :=
  match n with
  | O => 0
  | S n => a k * z ^ (2 * k) + even_sum a n (S k) z
  end.

Lemma odd_sum_0 a n k : odd_sum a n k 0 = 0.
Proof. revert k. induction n as [|n IH]; intros k; [done|]. cbn [odd_sum]. rewrite IH. cbn [pow]. unfold Rdiv. lra. Qed.

Lemma odd_sum_lim a n k c : derivable_pt_lim (odd_sum a n k) c (even_sum a n k c).
Proof.
  revert k. induction n as [|n IH]; intros k; [apply derivable_pt_lim_const|]. cbn [odd_sum even_sum].
  apply (derivable_pt_lim_plus (fun t => a k * (t ^ S (2 * k) / INR (S (2 * k)))) (odd_sum a n (S k))); [apply power_integral_lim|apply IH].
Qed.

Lemma even_sum_ones n k z : (1 - z ^ 2) * even_sum (fun _ => 1) n k z = z ^ (2 * k) - z ^ (2 * (k + n)).
Proof.
  revert k. induction n as [|n IH]; intros k; [rewrite Nat.add_0_r; simpl; lra|]. cbn [even_sum]. rewrite Rmult_plus_distr_l, IH.
  replace (S k + n)%nat with (k + S n)%nat by lia. replace (2 * S k)%nat with (2 + 2 * k)%nat by lia. rewrite pow_add. lra.
Qed.

Lemma even_sum_signs n k z : (1 + z ^ 2) * even_sum (fun i => (-1) ^ i) n k z = (-1) ^ k * z ^ (2 * k) - (-1) ^ (k + n) * z ^ (2 * (k + n)).
Proof.
  revert k. induction n as [|n IH]; intros k; [rewrite Nat.add_0_r; simpl; lra|]. cbn [even_sum]. rewrite Rmult_plus_distr_l, IH.
  replace (S k + n)%nat with (k + S n)%nat by lia. replace (2 * S k)%nat with (2 + 2 * k)%nat by lia. rewrite pow_add. cbn [pow]. lra.
Qed.

(** ** Logarithm *)

Lemma ln_ratio_lim c : -1 < c < 1 -> derivable_pt_lim (fun t => ln (1 + t) - ln (1 - t)) c (2 / (1 - c ^ 2)).
Proof.
  intros Hc. replace (2 / (1 - c ^ 2)) with (/ (1 + c) * (0 + 1) - / (1 - c) * (0 - 1)) by (field; nra).
  apply derivable_pt_lim_minus.
  - apply (derivable_pt_lim_comp (fun t => 1 + t) ln); [|apply derivable_pt_lim_ln; lra].
    apply derivable_pt_lim_plus; [apply derivable_pt_lim_const|apply derivable_pt_lim_id].
  - apply (derivable_pt_lim_comp (fun t => 1 - t) ln); [|apply derivable_pt_lim_ln; lra].
    apply derivable_pt_lim_minus; [apply derivable_pt_lim_const|apply derivable_pt_lim_id].
Qed.

Lemma ln_ratio_near b n : 0 <= b < 1 ->
  Rabs (ln (1 + b) - ln (1 - b) - 2 * odd_sum (fun _ => 1) n 0 b) <= 2 / (1 - b ^ 2) * (b ^ S (2 * n) / INR (S (2 * n))).
Proof.
  intros Hb. apply (integral_bound (fun t => ln (1 + t) - ln (1 - t) - 2 * odd_sum (fun _ => 1) n 0 t)
    (fun t => 2 / (1 - t ^ 2) - 2 * even_sum (fun _ => 1) n 0 t)); [lra|rewrite odd_sum_0, Rplus_0_r, Rminus_0_r; lra| |].
  - intros c Hc. apply derivable_pt_lim_minus; [apply ln_ratio_lim; lra|]. apply derivable_pt_lim_scal, odd_sum_lim.
  - intros c Hc. assert (0 < 1 - c ^ 2) as Hp by nra. assert (0 < 1 - b ^ 2) as Hq by nra.
    replace (2 / (1 - c ^ 2) - 2 * even_sum (fun _ => 1) n 0 c) with (2 / (1 - c ^ 2) * c ^ (2 * n)).
    2:{ apply (Rmult_eq_reg_l (1 - c ^ 2)); [|lra]. pose proof (even_sum_ones n 0 c) as E. rewrite Rmult_minus_distr_l.
        replace ((1 - c ^ 2) * (2 * even_sum (fun _ => 1) n 0 c)) with (2 * ((1 - c ^ 2) * even_sum (fun _ => 1) n 0 c)) by ring.
        rewrite E, Nat.add_0_l, Nat.mul_0_r. field. lra. }
    assert (0 <= c ^ (2 * n)) by (apply pow_le; lra). rewrite Rabs_pos_eq.
    + apply Rmult_le_compat_r; [done|]. apply Rmult_le_compat_l; [lra|]. apply Rinv_le_contravar; nra.
    + apply Rmult_le_pos; [|done]. left. apply Rdiv_lt_0_compat; lra.
Qed.

(** ** Arc tangent *)

Lemma atan_lim c : derivable_pt_lim atan c (/ (1 + c ^ 2)).
Proof. apply derivable_pt_lim_atan. Qed.

Lemma atan_near b n : 0 <= b ->
  Rabs (atan b - odd_sum (fun i => (-1) ^ i) n 0 b) <= 1 * (b ^ S (2 * n) / INR (S (2 * n))).
Proof.
  intros Hb. apply (integral_bound (fun t => atan t - odd_sum (fun i => (-1) ^ i) n 0 t)
    (fun t => / (1 + t ^ 2) - even_sum (fun i => (-1) ^ i) n 0 t)); [lra|rewrite odd_sum_0, atan_0; lra| |].
  - intros c Hc. apply derivable_pt_lim_minus; [apply atan_lim|apply odd_sum_lim].
  - intros c Hc. assert (0 < 1 + c ^ 2) as Hp by nra.
    replace (/ (1 + c ^ 2) - even_sum (fun i => (-1) ^ i) n 0 c) with ((-1) ^ n * (c ^ (2 * n) * / (1 + c ^ 2))).
    2:{ apply (Rmult_eq_reg_l (1 + c ^ 2)); [|lra]. rewrite Rmult_minus_distr_l, even_sum_signs, Nat.add_0_l, Nat.mul_0_r. field. lra. }
    rewrite Rabs_mult, pow_1_abs, Rmult_1_l, Rmult_1_l. assert (0 <= c ^ (2 * n)) by (apply pow_le; lra).
    assert (0 < / (1 + c ^ 2) <= 1) as Hi.
    { split; [by apply Rinv_0_lt_compat|]. rewrite <- Rinv_1. apply Rinv_le_contravar; nra. }
    rewrite Rabs_pos_eq by (apply Rmult_le_pos; lra). nra.
Qed.

(** ** Evaluation

    The sums at a rational number. *)

Fixpoint powQ (n : nat) (z : Q) : Q := match n with O => 1 | S n => z * powQ n z end%Q.

(** The sum divided by [z^(2 k + 1)], with [w] for [z^2]. *)
Fixpoint horner (a : nat -> R) (n k : nat) (w : R) : R :=
  match n with
  | O => 0
  | S n => a k * / INR (S (2 * k)) + w * horner a n (S k) w
  end.

Fixpoint hornerQ (a : nat -> Z) (n k : nat) (w : Q) : Q :=
  match n with
  | O => 0
  | S n => (a k # Pos.of_succ_nat (2 * k)) + w * hornerQ a n (S k) w
  end%Q.

Definition odd_sumQ (a : nat -> Z) (n : nat) (z : Q) : Q := (z * hornerQ a n 0 (z * z))%Q.

Lemma Q2R_Z z : Q2R (inject_Z z) = IZR z.
Proof. unfold Q2R. simpl. lra. Qed.

Lemma Q2R_pow z n : Q2R (powQ n z) = Q2R z ^ n.
Proof. induction n as [|n IH]; [apply Q2R_Z|]. cbn [powQ pow]. by rewrite Q2R_mult, IH. Qed.

Lemma Q2R_inv_nat a n : Q2R (a # Pos.of_succ_nat n) = IZR a * / INR (S n).
Proof. unfold Q2R. cbn [Qnum Qden]. f_equal. f_equal. rewrite INR_IZR_INZ. f_equal. Qed.

Lemma odd_sum_horner a n k z : odd_sum a n k z = z ^ S (2 * k) * horner a n k (z ^ 2).
Proof.
  revert k. induction n as [|n IH]; intros k; cbn [odd_sum horner]; [lra|]. rewrite IH.
  replace (S (2 * S k)) with (2 + S (2 * k))%nat by lia. rewrite pow_add. unfold Rdiv. ring.
Qed.

Lemma Q2R_horner a n k w : Q2R (hornerQ a n k w) = horner (fun i => IZR (a i)) n k (Q2R w).
Proof.
  revert k. induction n as [|n IH]; intros k; [apply Q2R_Z|]. cbn [hornerQ horner]. by rewrite Q2R_plus, Q2R_mult, IH, Q2R_inv_nat.
Qed.

Lemma Q2R_odd_sum a n z : Q2R (odd_sumQ a n z) = odd_sum (fun i => IZR (a i)) n 0 (Q2R z).
Proof. unfold odd_sumQ. rewrite odd_sum_horner, Q2R_mult, Q2R_horner, Q2R_mult. simpl. by rewrite !Rmult_1_r. Qed.

Lemma odd_sum_ext a a' n k z : (forall i, a i = a' i) -> odd_sum a n k z = odd_sum a' n k z.
Proof. intros H. revert k. induction n as [|n IH]; intros k; [done|]. cbn [odd_sum]. by rewrite IH, H. Qed.

(** [ln (a / b)] for [b <= a <= 2 b], from the sum at [(a - b) / (a + b)]. *)
Definition ratioQ (a b : positive) : Q := (Zpos a - Zpos b) # (a + b).
Definition lnQ (n : nat) (a b : positive) : Q := (2 * odd_sumQ (fun _ => 1%Z) n (ratioQ a b))%Q.
Definition ln_errQ (n : nat) (a b : positive) : Q := ((9 # 4) * (powQ (S (2 * n)) (ratioQ a b) * (1 # Pos.of_succ_nat (2 * n))))%Q.

Lemma ln_evaluated n a b : (Zpos b <= Zpos a <= 2 * Zpos b)%Z ->
  Q2R (lnQ n a b - ln_errQ n a b) <= ln (IZR (Zpos a) / IZR (Zpos b)) <= Q2R (lnQ n a b + ln_errQ n a b).
Proof.
  intros [H1 H2]. set (z := Q2R (ratioQ a b)). set (x := IZR (Zpos a)). set (y := IZR (Zpos b)).
  assert (0 < y) by (apply IZR_lt; lia). assert (y <= x <= 2 * y) as Hx.
  { unfold x, y. rewrite <- (mult_IZR 2). split; apply IZR_le; lia. }
  assert (z = (x - y) / (x + y)) as Ez.
  { unfold z, ratioQ, Q2R. cbn [Qnum Qden]. rewrite minus_IZR, Pos2Z.inj_add, plus_IZR. done. }
  assert (0 <= z <= 1 / 3) as Hz.
  { rewrite Ez. split; [apply Rmult_le_pos; [lra|left; apply Rinv_0_lt_compat; lra]|]. apply Rmult_le_reg_r with (x + y); [lra|].
    unfold Rdiv. rewrite Rmult_assoc, Rinv_l by lra. lra. }
  assert (ln (x / y) = ln (1 + z) - ln (1 - z)) as ->.
  { assert (0 < x / y) by (apply Rdiv_lt_0_compat; lra). replace (1 + z) with (x / y * (1 - z)) by (rewrite Ez; field; lra). rewrite ln_mult by lra. lra. }
  pose proof (ln_ratio_near z n ltac:(lra)) as H3. apply abs_between in H3.
  assert (2 / (1 - z ^ 2) <= 9 / 4) as H4.
  { apply (Rmult_le_reg_r (1 - z ^ 2)); [nra|]. unfold Rdiv. rewrite Rmult_assoc, Rinv_l by nra. nra. }
  assert (0 <= z ^ S (2 * n) / INR (S (2 * n))) as H5.
  { apply Rmult_le_pos; [apply pow_le; lra|]. left. apply Rinv_0_lt_compat, lt_0_INR. lia. }
  unfold lnQ, ln_errQ. rewrite Q2R_minus, Q2R_plus, !Q2R_mult, Q2R_odd_sum, Q2R_pow, Q2R_inv_nat. fold z.
  replace (Q2R 2) with 2 by (unfold Q2R; simpl; lra). replace (Q2R (9 # 4)) with (9 / 4) by (unfold Q2R; simpl; lra).
  unfold Rdiv in *. nra.
Qed.

(** The first twelve digits of [ln 2]. *)
Definition ln2_lo : Q := 693147180559 # 1000000000000.
Definition ln2_hi : Q := 693147180560 # 1000000000000.

Lemma ln2_near : Q2R ln2_lo <= ln 2 <= Q2R ln2_hi.
Proof.
  destruct (ln_evaluated 14 2 1 ltac:(lia)) as [H1 H2]. replace (IZR 2 / IZR 1) with 2 in * by lra.
  split; (eapply Rle_trans; [|eassumption]) || (eapply Rle_trans; [eassumption|]); apply Qle_Rle, Qle_bool_iff; vm_compute; reflexivity.
Qed.

(** ** Exponential function *)

(** The first [n] terms of the series. *)
Fixpoint exp_sum (n : nat) (s : R) : R :=
  match n with
  | O => 0
  | S n => exp_sum n s + s ^ n / INR (fact n)
  end.

Lemma fact_pos n : 0 < INR (fact n).
Proof. apply lt_0_INR, lt_O_fact. Qed.

Lemma exp_sum_0 n : exp_sum (S n) 0 = 1.
Proof.
  induction n as [|n IH]; [simpl; lra|]. change (exp_sum (S n) 0 + 0 ^ S n / INR (fact (S n)) = 1). rewrite IH, pow_i by lia. unfold Rdiv. lra.
Qed.

Lemma exp_sum_lim n c : derivable_pt_lim (exp_sum (S n)) c (exp_sum n c).
Proof.
  induction n as [|n IH].
  - cbn [exp_sum]. eapply derivable_pt_lim_ext; [|apply (derivable_pt_lim_const 1)]. intros z. unfold fct_cte. simpl. field.
  - change (exp_sum (S n) c) with (exp_sum n c + c ^ n / INR (fact n)). apply (derivable_pt_lim_plus (exp_sum (S n))); [done|].
    replace (c ^ n / INR (fact n)) with (/ INR (fact n) * c ^ n) by (unfold Rdiv; ring).
    eapply derivable_pt_lim_ext; [|apply (power_integral_lim (/ INR (fact n)) n c)]. intros z. simpl fact. rewrite plus_INR, mult_INR, S_INR.
    pose proof (fact_pos n). pose proof (pos_INR n). field. split; nra.
Qed.

Lemma fact_bound M b n : M / INR (fact n) * (b ^ S n / INR (S n)) = M * (b ^ S n / INR (fact (S n))).
Proof. rewrite fact_simpl, mult_INR. pose proof (fact_pos n). pose proof (lt_0_INR (S n) ltac:(lia)). field. split; lra. Qed.

Lemma exp_taylor_pos n b : 0 <= b -> Rabs (exp b - exp_sum n b) <= exp b * (b ^ n / INR (fact n)).
Proof.
  revert b. induction n as [|n IH]; intros b Hb.
  { simpl. rewrite Rminus_0_r, Rabs_pos_eq by (left; apply exp_pos). lra. }
  rewrite <- fact_bound. apply (integral_bound (fun t => exp t - exp_sum (S n) t) (fun t => exp t - exp_sum n t)); [done|rewrite exp_0, exp_sum_0; lra| |].
  - intros c Hc. apply derivable_pt_lim_minus; [apply derivable_pt_lim_exp|apply exp_sum_lim].
  - intros c Hc. eapply Rle_trans; [apply IH; lra|]. unfold Rdiv. rewrite Rmult_assoc, (Rmult_comm (/ _)).
    apply Rmult_le_compat_r; [apply Rmult_le_pos; [apply pow_le; lra|left; apply Rinv_0_lt_compat, fact_pos]|].
    destruct (Req_dec c b) as [->|]; [lra|]. left. apply exp_increasing. lra.
Qed.

Lemma exp_taylor_neg n b : 0 <= b -> Rabs (exp (- b) - exp_sum n (- b)) <= 1 * (b ^ n / INR (fact n)).
Proof.
  revert b. induction n as [|n IH]; intros b Hb.
  { simpl. rewrite Rminus_0_r, Rabs_pos_eq by (left; apply exp_pos). rewrite <- exp_0 at 1. destruct (Req_dec b 0) as [->|]; [rewrite Ropp_0, exp_0; lra|].
    pose proof (exp_increasing (- b) 0 ltac:(lra)). rewrite exp_0 in *. lra. }
  rewrite <- fact_bound. apply (integral_bound (fun t => exp (- t) - exp_sum (S n) (- t)) (fun t => - (exp (- t) - exp_sum n (- t)))); [done|rewrite Ropp_0, exp_0, exp_sum_0; lra| |].
  - intros c Hc. replace (- (exp (- c) - exp_sum n (- c))) with ((exp (- c) - exp_sum n (- c)) * -1) by ring.
    apply (derivable_pt_lim_comp Ropp (fun t => exp t - exp_sum (S n) t)); [|apply derivable_pt_lim_minus; [apply derivable_pt_lim_exp|apply exp_sum_lim]].
    apply (derivable_pt_lim_opp (fun t => t)), derivable_pt_lim_id.
  - intros c Hc. rewrite Rabs_Ropp. eapply Rle_trans; [apply IH; lra|]. unfold Rdiv. lra.
Qed.

Lemma exp_taylor_abs n s b : - b <= s <= b -> Rabs (exp s - exp_sum n s) <= Rmax 1 (exp s) * (b ^ n / INR (fact n)).
Proof.
  intros Hs. pose proof (Rinv_0_lt_compat _ (fact_pos n)) as Hf.
  assert (forall t, 0 <= t <= b -> 0 <= t ^ n / INR (fact n) <= b ^ n / INR (fact n)) as Ht.
  { intros t Ht. split; [apply Rmult_le_pos; [apply pow_le|]; lra|]. apply Rmult_le_compat_r; [lra|]. by apply pow_incr. }
  destruct (Rle_or_lt 0 s) as [Hp|Hp].
  - eapply Rle_trans; [by apply exp_taylor_pos|]. apply Rmult_le_compat; [left; apply exp_pos|apply Ht; lra|apply Rmax_r|apply Ht; lra].
  - replace s with (- - s) at 1 2 by ring. eapply Rle_trans; [apply exp_taylor_neg; lra|]. apply Rmult_le_compat; [lra|apply Ht; lra|apply Rmax_l|apply Ht; lra].
Qed.

(** ** Complex numbers *)

Definition C : Type := R * R.
Definition c0 : C := (0, 0).
Definition c1 : C := (1, 0).
Definition cadd (a b : C) : C := (fst a + fst b, snd a + snd b).
Definition csub (a b : C) : C := (fst a - fst b, snd a - snd b).
Definition copp (a : C) : C := (- fst a, - snd a).
Definition cmul (a b : C) : C := (fst a * fst b - snd a * snd b, fst a * snd b + snd a * fst b).
Definition norm (a : C) : R := sqrt (fst a * fst a + snd a * snd a).

Lemma complex_ring : ring_theory c0 c1 cadd cmul csub copp eq.
Proof.
  split; intros; unfold c0, c1, cadd, csub, copp, cmul;
    repeat match goal with x : C |- _ => destruct x end; simpl; f_equal; ring.
Qed.

Add Ring complex : complex_ring.

Lemma norm_0 : norm c0 = 0.
Proof. unfold norm, c0. simpl. rewrite Rmult_0_l, Rplus_0_l. apply sqrt_0. Qed.

Lemma norm_pos a : 0 <= norm a.
Proof. apply sqrt_pos. Qed.

Lemma norm_mul a b : norm (cmul a b) = norm a * norm b.
Proof.
  unfold norm, cmul. simpl. rewrite <- sqrt_mult by nra. f_equal. ring.
Qed.

Lemma norm_opp a : norm (copp a) = norm a.
Proof. unfold norm, copp. simpl. f_equal. ring. Qed.

Lemma norm_sqr a : norm a * norm a = fst a * fst a + snd a * snd a.
Proof. unfold norm. apply sqrt_sqrt. nra. Qed.

(** [norm a <= r] from squares. *)
Lemma norm_le a r : 0 <= r -> fst a * fst a + snd a * snd a <= r * r -> norm a <= r.
Proof. intros Hr H. unfold norm. rewrite <- (sqrt_square r) by done. apply sqrt_le_1_alt. lra. Qed.

Lemma norm_add a b : norm (cadd a b) <= norm a + norm b.
Proof.
  pose proof (norm_pos a). pose proof (norm_pos b). apply norm_le; [lra|]. pose proof (norm_sqr a) as Ha. pose proof (norm_sqr b) as Hb.
  assert (fst a * fst b + snd a * snd b <= norm a * norm b) as Hcs.
  { apply Rsqr_incr_0_var; [|nra]. unfold Rsqr. replace (norm a * norm b * (norm a * norm b)) with ((norm a * norm a) * (norm b * norm b)) by ring.
    rewrite Ha, Hb. pose proof (Rle_0_sqr (fst a * snd b - snd a * fst b)) as Hs. unfold Rsqr in Hs. nra. }
  unfold cadd. simpl. nra.
Qed.

Lemma norm_sub a b : norm (csub a b) <= norm a + norm b.
Proof. replace (csub a b) with (cadd a (copp b)) by ring. rewrite <- (norm_opp b). apply norm_add. Qed.

(** The triangle inequality through a third number. *)
Lemma norm_via a b c : norm (csub a c) <= norm (csub a b) + norm (csub b c).
Proof. replace (csub a c) with (cadd (csub a b) (csub b c)) by ring. apply norm_add. Qed.

Lemma norm_near a b r : norm (csub a b) <= r -> norm a <= norm b + r.
Proof. intros H. replace a with (cadd (csub a b) b) by ring. pose proof (norm_add (csub a b) b). lra. Qed.

Lemma norm_fst a : Rabs (fst a) <= norm a.
Proof. apply Rsqr_incr_0_var; [|apply norm_pos]. unfold Rsqr. rewrite norm_sqr, <- Rabs_mult, Rabs_pos_eq; nra. Qed.

Lemma norm_snd a : Rabs (snd a) <= norm a.
Proof. apply Rsqr_incr_0_var; [|apply norm_pos]. unfold Rsqr. rewrite norm_sqr, <- Rabs_mult, Rabs_pos_eq; nra. Qed.
