(* ===== verification/FftThms.v ===== *)
(** * The loops of the transform

    [fft_execute] of [src/math/fft/fft.c] against a recursive definition of the
    transform: the indices of a plan reverse bits, and the stages in place compute the
    transforms of the even and odd elements from the smallest ones on. Making and freeing
    plans. *)

From stdpp Require Import base list numbers option gmap.
From S2P Require Import Prelude StateM AudioStream Heap HeapMap HeapSpec HeapFree HeapZones Allocator.
From S2P Require Import Buffer CompState Pipeline PipelineOps PipelineWalk PipelineThms PipelineLife Format SampleLoop Topology.
From S2P Require Import Fft Numbers.

(** ** The reference *)

(** The transform of [2 ^ d] elements by halving, from any arithmetic; [tw] are the
    powers of the root of unity of order [2 ^ D]. *)
Section transform.
Context {C : Type} (add sub mul : C -> C -> C) (tw : Z -> C) (D : nat).

Fixpoint fft_rec (d : nat) (x : Z -> C) (k : Z) : C :=
  match d with
  | O => x 0
  | S d =>
      let n := 2 ^ Z.of_nat d in let j := k mod n in
      let even := fft_rec d (fun i => x (2 * i)) j in
      let odd := mul (tw (2 ^ Z.of_nat (D - S d) * j)) (fft_rec d (fun i => x (2 * i + 1)) j) in
      if k <? n then add even odd else sub even odd
  end.

Lemma fft_rec_ext d x y k : (forall i, 0 <= i < 2 ^ Z.of_nat d -> x i = y i) -> 0 <= k < 2 ^ Z.of_nat d -> fft_rec d x k = fft_rec d y k.
Proof.
  revert x y k. induction d as [|d IH]; intros x y k E Hk; cbn [fft_rec]; [apply E; simpl; lia|].
  rewrite Nat2Z.inj_succ, Z.pow_succ_r in * by lia. pose proof (Z.mod_pos_bound k (2 ^ Z.of_nat d) ltac:(lia)).
  rewrite (IH (fun i => x (2 * i)) (fun i => y (2 * i))), (IH (fun i => x (2 * i + 1)) (fun i => y (2 * i + 1))); try lia; [done| |];
    intros i Hi; apply E; lia.
Qed.
End transform.

(** The lowest [d] bits of [i] in reverse order. *)
Fixpoint rev_bits (d : nat) (i : Z) : Z :=
  match d with
  | O => 0
  | S d => (i mod 2) * 2 ^ Z.of_nat d + rev_bits d (i / 2)
  end.

Lemma rev_bits_range d i : 0 <= rev_bits d i < 2 ^ Z.of_nat d.
Proof.
  revert i. induction d as [|d IH]; intros i; cbn [rev_bits]; [simpl; lia|]. rewrite Nat2Z.inj_succ, Z.pow_succ_r by lia.
  specialize (IH (i / 2)). pose proof (Z.mod_pos_bound i 2). nia.
Qed.

Lemma rev_bits_inj d i j : 0 <= i < 2 ^ Z.of_nat d -> 0 <= j < 2 ^ Z.of_nat d -> rev_bits d i = rev_bits d j -> i = j.
Proof.
  revert i j. induction d as [|d IH]; intros i j Hi Hj E; cbn [rev_bits] in *; [simpl in *; lia|]. rewrite Nat2Z.inj_succ, Z.pow_succ_r in Hi, Hj by lia.
  pose proof (rev_bits_range d (i / 2)). pose proof (rev_bits_range d (j / 2)). pose proof (Z.mod_pos_bound i 2). pose proof (Z.mod_pos_bound j 2).
  assert (i mod 2 = j mod 2) as Em by nia. rewrite Em in E. rewrite (Z.div_mod i 2), (Z.div_mod j 2), Em by lia. do 2 f_equal.
  apply IH; [split; [apply Z.div_pos; lia|apply Z.div_lt_upper_bound; lia]..|lia].
Qed.

Lemma rev_bits_0 d : rev_bits d 0 = 0.
Proof. induction d as [|d IH]; [done|]. cbn [rev_bits]. rewrite Z.mod_0_l, Z.div_0_l, IH by lia. lia. Qed.

Lemma rev_bits_even d i : rev_bits (S d) (2 * i) = rev_bits d i.
Proof. cbn [rev_bits]. replace ((2 * i) mod 2) with 0 by mlia. replace ((2 * i) / 2) with i by mlia. lia. Qed.

Lemma rev_bits_odd d i : rev_bits (S d) (2 * i + 1) = 2 ^ Z.of_nat d + rev_bits d i.
Proof. cbn [rev_bits]. replace ((2 * i + 1) mod 2) with 1 by mlia. replace ((2 * i + 1) / 2) with i by mlia. lia. Qed.

(** A small number has a zero at the end of its reverse. *)
Lemma rev_bits_small d i : 0 <= i < 2 ^ Z.of_nat d -> rev_bits (S d) i = 2 * rev_bits d i.
Proof.
  revert i. induction d as [|d IH]; intros i Hi; [simpl in *; by replace i with 0 by lia|].
  rewrite Nat2Z.inj_succ, Z.pow_succ_r in Hi by lia.
  change (rev_bits (S (S d)) i) with ((i mod 2) * 2 ^ Z.of_nat (S d) + rev_bits (S d) (i / 2)).
  rewrite IH by (split; [apply Z.div_pos; lia|apply Z.div_lt_upper_bound; lia]). cbn [rev_bits]. rewrite Nat2Z.inj_succ, Z.pow_succ_r by lia. lia.
Qed.

(** The recurrence of [fft_plan_new]. *)
Lemma rev_bits_step d i :
  0 <= i < 2 ^ Z.of_nat (S d) ->
  Z.lor (Z.shiftr (rev_bits (S d) (Z.shiftr i 1)) 1) (Z.shiftl (Z.land i 1) (Z.of_nat (S d) - 1)) = rev_bits (S d) i.
Proof.
  intros Hi. rewrite Nat2Z.inj_succ, Z.pow_succ_r in Hi by lia. replace (Z.of_nat (S d) - 1) with (Z.of_nat d) by lia.
  assert (0 <= Z.shiftr i 1 < 2 ^ Z.of_nat d) as Hh.
  { rewrite Z.shiftr_div_pow2 by lia. split; [apply Z.div_pos; lia|apply Z.div_lt_upper_bound; lia]. }
  rewrite rev_bits_small by done. cbn [rev_bits]. rewrite Z.shiftr_div_pow2 with (a := i) by lia. change (2 ^ 1) with 2.
  replace (Z.shiftr (2 * rev_bits d (i / 2)) 1) with (rev_bits d (i / 2)) by (rewrite Z.shiftr_div_pow2 by lia; change (2 ^ 1) with 2; mlia).
  replace (Z.land i 1) with (i mod 2) by (change 1 with (Z.ones 1); by rewrite Z.land_ones by lia).
  pose proof (rev_bits_range d (i / 2)) as Hr. set (r := rev_bits d (i / 2)) in *.
  pose proof (Z.add_lor_land r (Z.shiftl (i mod 2) (Z.of_nat d))) as E. assert (Z.land r (Z.shiftl (i mod 2) (Z.of_nat d)) = 0) as E0.
  { apply Z.bits_inj'. intros n Hn. rewrite Z.land_spec, Z.bits_0. destruct (Z.lt_ge_cases n (Z.of_nat d)).
    - rewrite Z.shiftl_spec_low by lia. apply andb_false_r.
    - rewrite <- (Z.mod_small r (2 ^ Z.of_nat d)), Z.mod_pow2_bits_high by lia. done. }
  rewrite E0, Z.shiftl_mul_pow2 in E by lia. rewrite Z.shiftl_mul_pow2 by lia. lia.
Qed.

(** ** Elements of buffers *)

Definition is_ic (c : icomplex32) : Prop := is_s32 (ic_real c) /\ is_s32 (ic_imag c).

Lemma load_s32_store m p v : is_s32 v -> load_s32 (store_le 4 m p v) p = v.
Proof. intros Hv. unfold load_s32. rewrite le_load_store. unfold is_s32 in Hv. unfold i32. rewrite Zplus_mod_idemp_l, Z.mod_small; lia. Qed.

Lemma load_s32_out m m' p : (forall a, p <= a < p + 4 -> m' a = m a) -> load_s32 m' p = load_s32 m p.
Proof. intros H. unfold load_s32. f_equal. by apply le_load_ext. Qed.

Lemma put_out m p i c a : a < p + 8 * i \/ p + 8 * i + 8 <= a -> put_ic m p i c a = m a.
Proof. intros Ha. unfold put_ic. rewrite !le_store_out by lia. done. Qed.

Lemma get_put_eq m p i c : is_ic c -> get_ic (put_ic m p i c) p i = c.
Proof.
  intros [H1 H2]. unfold get_ic, put_ic. rewrite load_s32_store by done. rewrite (load_s32_out (store_le 4 m (p + 8 * i) (ic_real c))).
  - rewrite load_s32_store by done. by destruct c.
  - intros a Ha. apply le_store_out. lia.
Qed.

Lemma get_ext m m' p i : (forall a, p + 8 * i <= a < p + 8 * i + 8 -> m' a = m a) -> get_ic m' p i = get_ic m p i.
Proof. intros H. unfold get_ic. f_equal; apply load_s32_out; intros; apply H; lia. Qed.

Lemma get_put_ne m p i j c : i <> j -> get_ic (put_ic m p i c) p j = get_ic m p j.
Proof. intros Hne. apply get_ext. intros a Ha. apply put_out. lia. Qed.

Lemma get_is m p i : is_ic (get_ic m p i).
Proof. split; apply i32_range. Qed.

Lemma add_is a b : is_ic (icomplex32_add a b).
Proof. split; apply i32_range. Qed.

Lemma sub_is a b : is_ic (icomplex32_sub a b).
Proof. split; apply i32_range. Qed.

Lemma mul_is a b : is_ic (icomplex32_mul a b).
Proof. split; apply i32_range. Qed.

Lemma shiftr_is c n : 0 <= n -> is_ic c -> is_ic (icomplex_shift c (- n)).
Proof.
  intros Hn [H1 H2]. unfold icomplex_shift. destruct (Z.gtb_spec (- n) 0); [lia|]. rewrite Z.opp_involutive.
  assert (forall x, is_s32 x -> is_s32 (Z.shiftr x n)) as Hs; [|by split; apply Hs].
  unfold is_s32. intros x Hx. rewrite Z.shiftr_div_pow2 by lia. assert (1 <= 2 ^ n) by (pose proof (Z.pow_pos_nonneg 2 n); lia).
  split; [apply Z.div_le_lower_bound; nia|apply Z.div_lt_upper_bound; nia].
Qed.

#[local] Hint Resolve get_is add_is sub_is mul_is : sof.

(** ** The butterflies *)

(** Element [q] after a stage of transforms of size [s]; the factors are [i] apart. *)
Definition stage_val (V : Z -> icomplex32) (s i q : Z) : icomplex32 :=
  let n := s / 2 in let t := q mod s in
  if t <? n then icomplex32_add (V q) (icomplex32_mul (twiddle (i * t)) (V (q + n)))
  else icomplex32_sub (V (q - n)) (icomplex32_mul (twiddle (i * (t - n))) (V q)).

Lemma butterfly_get m p top bottom index q :
  top <> bottom ->
  let t := icomplex32_mul (twiddle index) (get_ic m p bottom) in
  get_ic (butterfly m p top bottom index) p q =
  if q =? bottom then icomplex32_sub (get_ic m p top) t else if q =? top then icomplex32_add (get_ic m p top) t else get_ic m p q.
Proof.
  intros Hne t. unfold butterfly. fold t. destruct (Z.eqb_spec q bottom) as [->|Hb]; [apply get_put_eq; sof|].
  rewrite get_put_ne by done. destruct (Z.eqb_spec q top) as [->|Ht]; [apply get_put_eq; sof|]. by apply get_put_ne.
Qed.

Lemma butterfly_out m p top bottom index a :
  (a < p + 8 * top \/ p + 8 * top + 8 <= a) -> (a < p + 8 * bottom \/ p + 8 * bottom + 8 <= a) -> butterfly m p top bottom index a = m a.
Proof. intros H1 H2. unfold butterfly. rewrite !put_out by lia. done. Qed.

(** Comparisons are decided by arithmetic. *)
Ltac blia :=
  match goal with |- ?a = ?b =>
    let E1 := fresh in let E2 := fresh in
    destruct a eqn:E1, b eqn:E2; try reflexivity; exfalso;
    repeat (progress (zbool; destruct_or?)); first [lia|congruence]
  end.

(** One transform of size [2 * n] at [k]: the butterflies from [j] on. *)
Lemma block_get c j m p k n i q :
  0 <= j -> j + Z.of_nat c <= n ->
  let V := get_ic m p in
  get_ic (block_loop c j m p k n i) p q =
  let t := q - k in
  if (j <=? t) && (t <? j + Z.of_nat c) then icomplex32_add (V q) (icomplex32_mul (twiddle (i * t)) (V (q + n)))
  else if (j <=? t - n) && (t - n <? j + Z.of_nat c) then icomplex32_sub (V (q - n)) (icomplex32_mul (twiddle (i * (t - n))) (V q))
  else V q.
Proof.
  revert j m. induction c as [|c IH]; intros j m Hj Hc V; cbn [block_loop]; cbv zeta.
  { assert (forall b, (j <=? b) && (b <? j + Z.of_nat 0) = false) as E by (intros; blia). by rewrite !E. }
  rewrite IH by lia. cbv zeta. rewrite !butterfly_get by lia. fold V. remember (q - k) as t eqn:Hqt. remember (j + 1 + Z.of_nat c) as C eqn:HC.
  assert (forall b, (j <=? b) && (b <? j + Z.of_nat (S c)) = (b =? j) || (j + 1 <=? b) && (b <? C)) as E by (intros; blia).
  rewrite !E. destruct (Z.eqb_spec t j) as [Et|Et]; [|destruct (Z.eqb_spec (t - n) j) as [Eb|Eb]]; cbn [orb].
  - replace ((j + 1 <=? t) && (t <? C)) with false by blia. replace ((j + 1 <=? t - n) && (t - n <? C)) with false by blia.
    replace (q =? k + j + n) with false by blia. replace (q =? k + j) with true by blia. rewrite Et.
    replace (k + j + n) with (q + n) by lia. by replace (k + j) with q by lia.
  - replace ((j + 1 <=? t) && (t <? C)) with false by blia. replace ((j + 1 <=? t - n) && (t - n <? C)) with false by blia.
    replace (q =? k + j + n) with true by blia. rewrite Eb.
    replace (k + j + n) with q by lia. by replace (k + j) with (q - n) by lia.
  - replace (q =? k + j + n) with false by blia. replace (q =? k + j) with false by blia.
    destruct ((j + 1 <=? t) && (t <? C)) eqn:E1; [replace (q + n =? k + j + n) with false by blia; by replace (q + n =? k + j) with false by blia|].
    destruct ((j + 1 <=? t - n) && (t - n <? C)) eqn:E2; [|done].
    replace (q - n =? k + j + n) with false by blia. by replace (q - n =? k + j) with false by blia.
Qed.

Lemma block_out c j m p k n i a :
  0 <= j -> j + Z.of_nat c <= n -> a < p + 8 * k \/ p + 8 * (k + 2 * n) <= a -> block_loop c j m p k n i a = m a.
Proof.
  revert j m. induction c as [|c IH]; intros j m Hj Hc Ha; cbn [block_loop]; [done|]. rewrite IH by lia. apply butterfly_out; lia.
Qed.

(** ** Stages *)

(** A complete transform of the block at [k]. *)
Lemma block_all m p k s i q :
  0 < s -> (2 | s) -> (s | k) ->
  get_ic (block_loop (Z.to_nat (Z.shiftr s 1)) 0 m p k (Z.shiftr s 1) i) p q =
  if (k <=? q) && (q <? k + s) then stage_val (get_ic m p) s i q else get_ic m p q.
Proof.
  intros Hs [n ->] [b ->]. replace (Z.shiftr (n * 2) 1) with n by (rewrite Z.shiftr_div_pow2 by lia; change (2 ^ 1) with 2; mlia).
  rewrite block_get by lia. cbv zeta. rewrite !Z2Nat.id by lia. unfold stage_val. replace (n * 2 / 2) with n by mlia.
  destruct ((b * (n * 2) <=? q) && (q <? b * (n * 2) + n * 2)) eqn:E.
  - zbool. replace (q mod (n * 2)) with (q - b * (n * 2)) by (apply (Z.mod_unique_pos q (n * 2) b); lia). set (t := q - b * (n * 2)) in *.
    destruct (Z.ltb_spec t n).
    + replace ((0 <=? t) && (t <? 0 + n)) with true by blia. done.
    + replace ((0 <=? t) && (t <? 0 + n)) with false by blia. replace ((0 <=? t - n) && (t - n <? 0 + n)) with true by blia. done.
  - replace ((0 <=? q - b * (n * 2)) && (q - b * (n * 2) <? 0 + n)) with false by blia.
    replace ((0 <=? q - b * (n * 2) - n) && (q - b * (n * 2) - n <? 0 + n)) with false by blia. done.
Qed.

Lemma stage_val_ext V V' s i q :
  0 < s -> (2 | s) -> (forall q', q' / s = q / s -> V q' = V' q') -> stage_val V s i q = stage_val V' s i q.
Proof.
  intros Hs [n ->] E. unfold stage_val. replace (n * 2 / 2) with n by mlia. pose proof (Z.div_mod q (n * 2) ltac:(lia)) as Hq.
  pose proof (Z.mod_pos_bound q (n * 2) Hs). rewrite (E q) by done. destruct (Z.ltb_spec (q mod (n * 2)) n).
  - rewrite E; [done|]. symmetry. apply (Z.div_unique_pos _ _ _ (q mod (n * 2) + n)); lia.
  - rewrite (E (q - n)); [done|]. symmetry. apply (Z.div_unique_pos _ _ _ (q mod (n * 2) - n)); lia.
Qed.

Lemma stage_get c m p k s i q :
  0 < s -> (2 | s) -> (s | k) ->
  get_ic (stage_loop c k m p s i) p q =
  if (k <=? q) && (q <? k + Z.of_nat c * s) then stage_val (get_ic m p) s i q else get_ic m p q.
Proof.
  intros Hs H2. revert k m. induction c as [|c IH]; intros k m Hk; cbn [stage_loop].
  { by replace ((k <=? q) && (q <? k + Z.of_nat 0 * s)) with false by blia. }
  rewrite IH by (by apply Z.divide_add_r). rewrite block_all by done.
  replace ((k <=? q) && (q <? k + Z.of_nat (S c) * s)) with
    ((k <=? q) && (q <? k + s) || (k + s <=? q) && (q <? k + s + Z.of_nat c * s)) by blia.
  destruct ((k + s <=? q) && (q <? k + s + Z.of_nat c * s)) eqn:E.
  - rewrite orb_true_r. replace ((k <=? q) && (q <? k + s)) with false by blia. cbv iota. apply stage_val_ext; [done..|].
    intros q' Eq. rewrite block_all by done. destruct Hk as [b ->]. zbool. pose proof (Z.div_mod q s ltac:(lia)). pose proof (Z.div_mod q' s ltac:(lia)).
    pose proof (Z.mod_pos_bound q s Hs). pose proof (Z.mod_pos_bound q' s Hs). assert (b + 1 <= q / s) by (apply Z.div_le_lower_bound; lia).
    replace ((b * s <=? q') && (q' <? b * s + s)) with false by (symmetry; apply andb_false_iff; right; apply Z.ltb_ge; nia). done.
  - by rewrite orb_false_r.
Qed.

Lemma stage_out c m p k s i a :
  0 < s -> (2 | s) -> a < p + 8 * k \/ p + 8 * (k + Z.of_nat c * s) <= a -> stage_loop c k m p s i a = m a.
Proof.
  intros Hs [n ->]. revert k m. induction c as [|c IH]; intros k m Ha; cbn [stage_loop]; [done|]. rewrite IH by lia.
  replace (Z.shiftr (n * 2) 1) with n by (rewrite Z.shiftr_div_pow2 by lia; change (2 ^ 1) with 2; mlia). apply block_out; lia.
Qed.

Lemma same_block s N q q' : 0 < s -> q' / s = q / s -> 0 <= q < N * s -> 0 <= q' < N * s.
Proof.
  intros Hs E Hq. assert (0 <= q / s < N) as Hd by (split; [apply Z.div_pos; lia|apply Z.div_lt_upper_bound; lia]). rewrite <- E in Hd.
  pose proof (Z.div_mod q' s ltac:(lia)). pose proof (Z.mod_pos_bound q' s Hs). nia.
Qed.

(** ** Depths *)

(** The elements after [d] stages. *)
Fixpoint depth_val (d : nat) (V : Z -> icomplex32) : Z -> icomplex32 :=
  match d with
  | O => V
  | S d => stage_val (depth_val d V) (2 ^ Z.of_nat (S d)) (2 ^ Z.of_nat (10 - S d))
  end.

Lemma depth_val_ext d V V' len q :
  (d <= len)%nat -> (forall q, 0 <= q < 2 ^ Z.of_nat len -> V q = V' q) -> 0 <= q < 2 ^ Z.of_nat len -> depth_val d V q = depth_val d V' q.
Proof.
  revert q. induction d as [|d IH]; intros q Hd E Hq; [by apply E|]. cbn [depth_val]. apply stage_val_ext; [lia| |].
  - rewrite Nat2Z.inj_succ, Z.pow_succ_r by lia. by exists (2 ^ Z.of_nat d); lia.
  - intros q' Eq. apply IH; [lia|done|]. set (s := 2 ^ Z.of_nat (S d)) in *. assert (0 < s) by (unfold s; lia).
    assert (2 ^ Z.of_nat len = 2 ^ Z.of_nat (len - S d) * s) as El by (unfold s; rewrite <- Z.pow_add_r by lia; f_equal; lia). rewrite El in *. by apply (same_block s _ q).
Qed.

Lemma depth_get c d len m p V :
  (d + c <= len <= 10)%nat -> (forall q, 0 <= q < 2 ^ Z.of_nat len -> get_ic m p q = depth_val d V q) ->
  let m' := depth_loop c (Z.of_nat d + 1) m p (2 ^ Z.of_nat len) in
  (forall q, 0 <= q < 2 ^ Z.of_nat len -> get_ic m' p q = depth_val (d + c) V q) /\
  (forall a, a < p \/ p + 8 * 2 ^ Z.of_nat len <= a -> m' a = m a).
Proof.
  revert d m. induction c as [|c IH]; intros d m Hd Hm; cbn [depth_loop]; cbv zeta; [by rewrite Nat.add_0_r|].
  replace (Z.of_nat d + 1) with (Z.of_nat (S d)) by lia. set (s := Z.shiftl 1 (Z.of_nat (S d))).
  assert (s = 2 ^ Z.of_nat (S d)) as Es by (unfold s; rewrite Z.shiftl_mul_pow2 by lia; lia).
  assert (0 < s /\ (2 | s)) as [Hs H2].
  { rewrite Es, Nat2Z.inj_succ, Z.pow_succ_r by lia. split; [lia|]. by exists (2 ^ Z.of_nat d); lia. }
  assert (2 ^ Z.of_nat len = 2 ^ Z.of_nat (len - S d) * s) as El by (rewrite Es, <- Z.pow_add_r by lia; f_equal; lia).
  replace ((2 ^ Z.of_nat len + s - 1) / s) with (2 ^ Z.of_nat (len - S d)) by (apply (Z.div_unique_pos _ _ _ (s - 1)); lia).
  replace (Z.shiftr FFT_SIZE_MAX (Z.of_nat (S d))) with (2 ^ Z.of_nat (10 - S d)).
  2:{ rewrite Z.shiftr_div_pow2 by lia. change FFT_SIZE_MAX with (2 ^ 10). apply (Z.div_unique_exact); [lia|]. rewrite <- Z.pow_add_r by lia. f_equal. lia. }
  set (m1 := stage_loop _ _ _ _ _ _). set (N := 2 ^ Z.of_nat (len - S d)) in *. assert (0 < N) by (unfold N; lia).
  destruct (IH (S d) m1) as [H1 H3]; [lia| |].
  - intros q Hq. unfold m1. rewrite stage_get by (done || by exists 0). rewrite Z2Nat.id by lia.
    replace ((0 <=? q) && (q <? 0 + N * s)) with true by blia. cbn [depth_val]. rewrite <- Es. apply stage_val_ext; [done..|].
    intros q' Eq. apply Hm. rewrite El in *. by apply (same_block s _ q).
  - replace (Z.of_nat (S d) + 1) with (Z.of_nat (S d) + 1) in * by lia. split.
    + intros q Hq. rewrite H1 by done. by replace (S d + c)%nat with (d + S c)%nat by lia.
    + intros a Ha. rewrite H3 by done. unfold m1. apply stage_out; [done..|]. rewrite Z2Nat.id by lia. lia.
Qed.

Notation fft_ic := (fft_rec icomplex32_add icomplex32_sub icomplex32_mul twiddle 10).

(** The stages in place are the recursion on the elements in the order of reversed
    bits. *)
Lemma depth_val_rec d V b j :
  (d <= 10)%nat -> 0 <= j < 2 ^ Z.of_nat d ->
  depth_val d V (b * 2 ^ Z.of_nat d + j) = fft_ic d (fun i => V (b * 2 ^ Z.of_nat d + rev_bits d i)) j.
Proof.
  revert b j. induction d as [|d IH]; intros b j Hd Hj.
  { simpl in *. f_equal. lia. }
  cbn [depth_val fft_rec]. set (n := 2 ^ Z.of_nat d) in *. assert (2 ^ Z.of_nat (S d) = 2 * n) as En by (unfold n; rewrite Nat2Z.inj_succ, Z.pow_succ_r; lia).
  rewrite En in *. assert (0 < n) by (unfold n; lia). unfold stage_val. replace (2 * n / 2) with n by mlia.
  replace ((b * (2 * n) + j) mod (2 * n)) with j by (apply (Z.mod_unique_pos _ _ b); lia).
  assert (forall j', 0 <= j' < n -> depth_val d V (b * (2 * n) + j') = fft_ic d (fun i => V (b * (2 * n) + rev_bits (S d) (2 * i))) j') as He.
  { intros j' Hj'. replace (b * (2 * n) + j') with ((2 * b) * n + j') by lia. rewrite IH by lia. apply fft_rec_ext; [|done].
    intros i _. rewrite rev_bits_even. f_equal. lia. }
  assert (forall j', 0 <= j' < n -> depth_val d V (b * (2 * n) + n + j') = fft_ic d (fun i => V (b * (2 * n) + rev_bits (S d) (2 * i + 1))) j') as Ho.
  { intros j' Hj'. replace (b * (2 * n) + n + j') with ((2 * b + 1) * n + j') by lia. rewrite IH by lia. apply fft_rec_ext; [|done].
    intros i _. rewrite rev_bits_odd. fold n. f_equal. lia. }
  destruct (Z.ltb_spec j n).
  - rewrite Z.mod_small by lia. rewrite <- He, <- Ho by lia. do 3 f_equal. lia.
  - replace (j mod n) with (j - n) by (apply (Z.mod_unique_pos _ _ 1); lia). rewrite <- He, <- Ho by lia. f_equal; [f_equal; lia|]. do 2 f_equal. lia.
Qed.

(** ** The other loops *)

Lemma at_ext m m' idx i : (forall a, idx + 4 * i <= a < idx + 4 * i + 4 -> m' a = m a) -> bit_reverse_at m' idx i = bit_reverse_at m idx i.
Proof. intros H. by apply le_load_ext. Qed.

Lemma bit_reverse_ok d n i m idx :
  (S d <= 32)%nat -> 1 <= i -> i + Z.of_nat n <= 2 ^ Z.of_nat (S d) ->
  (forall i', 0 <= i' < i -> bit_reverse_at m idx i' = rev_bits (S d) i') ->
  let m' := bit_reverse n i m idx (Z.of_nat (S d)) in
  (forall i', 0 <= i' < i + Z.of_nat n -> bit_reverse_at m' idx i' = rev_bits (S d) i') /\
  (forall a, a < idx + 4 \/ idx + 4 * 2 ^ Z.of_nat (S d) <= a -> m' a = m a).
Proof.
  intros Hd. revert i m. induction n as [|n IH]; intros i m Hi Hn Hm; cbn [bit_reverse]; cbv zeta; [split; [|done]; intros; apply Hm; lia|].
  rewrite Hm, rev_bits_step.
  2: lia.
  2: { rewrite Z.shiftr_div_pow2 by lia. change (2 ^ 1) with 2. split; [apply Z.div_pos; lia|apply Z.div_lt_upper_bound; lia]. }
  set (m1 := store_le 4 m (idx + 4 * i) (rev_bits (S d) i)). destruct (IH (i + 1) m1) as [H1 H2]; [lia|lia| |].
  - intros i' Hi'. destruct (Z.eq_dec i' i) as [->|Hne].
    + unfold bit_reverse_at, m1. rewrite le_load_store. apply Z.mod_small. pose proof (rev_bits_range (S d) i).
      assert (2 ^ Z.of_nat (S d) <= 2 ^ 32) by (apply Z.pow_le_mono_r; lia). change (2 ^ (8 * Z.of_nat 4)) with (2 ^ 32). lia.
    + rewrite (at_ext m); [apply Hm; lia|]. intros a Ha. unfold m1. apply le_store_out. lia.
  - split; [intros; apply H1; lia|]. intros a Ha. rewrite H2 by done. unfold m1. apply le_store_out. lia.
Qed.

Lemma conj_ok n i m p :
  0 <= i -> let m' := conj_loop n i m p in
  (forall q, get_ic m' p q = if (i <=? q) && (q <? i + Z.of_nat n) then icomplex_conj (get_ic m p q) else get_ic m p q) /\
  (forall a, a < p + 8 * i \/ p + 8 * (i + Z.of_nat n) <= a -> m' a = m a).
Proof.
  revert i m. induction n as [|n IH]; intros i m Hi; cbn [conj_loop]; cbv zeta.
  { split; [|done]. intros q. by replace ((i <=? q) && (q <? i + Z.of_nat 0)) with false by blia. }
  set (c := icomplex_conj (get_ic m p i)). set (m1 := store_le 4 m (p + 8 * i + 4) (ic_imag c)).
  assert (forall q, get_ic m1 p q = if q =? i then c else get_ic m p q) as E1.
  { intros q. destruct (Z.eqb_spec q i) as [->|Hne]; [|apply get_ext; intros a Ha; apply le_store_out; lia].
    unfold get_ic at 1. unfold m1. rewrite load_s32_store, (load_s32_out m).
    - by destruct c eqn:E; unfold c in E; injection E as <- <-.
    - intros a Ha. apply le_store_out. lia.
    - unfold c. cbn [ic_imag icomplex_conj]. pose proof (get_is m p i) as [_ H]. unfold is_s32, SATP_INT32 in *. case_if; lia. }
  destruct (IH (i + 1) m1) as [H1 H2]; [lia|]. split.
  - intros q. rewrite H1, !E1. destruct (Z.eqb_spec q i) as [->|Hne].
    + replace ((i + 1 <=? i) && (i <? i + 1 + Z.of_nat n)) with false by blia. by replace ((i <=? i) && (i <? i + Z.of_nat (S n))) with true by blia.
    + by replace ((i <=? q) && (q <? i + Z.of_nat (S n))) with ((i + 1 <=? q) && (q <? i + 1 + Z.of_nat n)) by blia.
  - intros a Ha. rewrite H2 by lia. apply le_store_out. lia.
Qed.

Lemma shift_is c n : is_ic c -> 0 <= n <= 31 -> is_ic (icomplex_shift c n).
Proof.
  intros [H1 H2] Hn. unfold icomplex_shift. destruct (Z.gtb_spec n 0).
  - assert (forall x, is_s32 (SATP_INT32 (SATM_INT32 x))) as Hs by (intros; unfold is_s32, SATP_INT32, SATM_INT32; repeat case_if; lia). by split; apply Hs.
  - replace (- n) with 0 by lia. by rewrite !Z.shiftr_0_r.
Qed.

Lemma shift_ok n i m p len :
  0 <= i -> 0 <= len <= 31 -> let m' := shift_loop n i m p len in
  (forall q, get_ic m' p q = if (i <=? q) && (q <? i + Z.of_nat n) then icomplex_shift (get_ic m p q) len else get_ic m p q) /\
  (forall a, a < p + 8 * i \/ p + 8 * (i + Z.of_nat n) <= a -> m' a = m a).
Proof.
  intros Hi Hlen. revert i m Hi. induction n as [|n IH]; intros i m Hi; cbn [shift_loop]; cbv zeta.
  { split; [|done]. intros q. by replace ((i <=? q) && (q <? i + Z.of_nat 0)) with false by blia. }
  set (m1 := put_ic m p i _). destruct (IH (i + 1) m1) as [H1 H2]; [lia|]. split.
  - intros q. rewrite H1. unfold m1. destruct (Z.eq_dec q i) as [->|Hne].
    + replace ((i + 1 <=? i) && (i <? i + 1 + Z.of_nat n)) with false by blia. replace ((i <=? i) && (i <? i + Z.of_nat (S n))) with true by blia.
      apply get_put_eq, shift_is; [apply get_is|done].
    + rewrite get_put_ne by lia. by replace ((i <=? q) && (q <? i + Z.of_nat (S n))) with ((i + 1 <=? q) && (q <? i + 1 + Z.of_nat n)) by blia.
  - intros a Ha. rewrite H2 by lia. apply put_out. lia.
Qed.

(** ** Executing a plan *)

(** Two areas of memory apart. *)
Definition areas_apart (p n q k : Z) : Prop := p + n <= q \/ q + k <= p.

(** A plan for [2 ^ len] elements, its indices in memory and its buffers apart. *)
Record plan_ok (m : mem) (plan : fft_plan) (len : nat) : Prop := {
  po_len : (len <= 10)%nat;
  po_size : pl_size plan = 2 ^ Z.of_nat len;
  po_exp : pl_len plan = Z.of_nat len;
  po_idx : pl_bit_reverse_idx plan <> 0;
  po_rev i : 0 <= i < pl_size plan -> bit_reverse_at m (pl_bit_reverse_idx plan) i = rev_bits len i;
  po_io : areas_apart (pl_inb plan) (8 * pl_size plan) (pl_outb plan) (8 * pl_size plan);
  po_out_idx : areas_apart (pl_bit_reverse_idx plan) (4 * pl_size plan) (pl_outb plan) (8 * pl_size plan);
  po_in_idx : areas_apart (pl_bit_reverse_idx plan) (4 * pl_size plan) (pl_inb plan) (8 * pl_size plan)
}.

Section execute.
Context (plan : fft_plan) (len : nat).
Notation size := (2 ^ Z.of_nat len).
Notation inb := (pl_inb plan).
Notation outb := (pl_outb plan).

(** The elements from [i] on go to their places. *)
Lemma reorder_ok n i m :
  plan_ok m plan len -> 0 <= i -> i + Z.of_nat n <= size ->
  let m' := reorder_loop n i m plan in
  (forall j, 0 <= j < size -> get_ic m' outb (rev_bits len j) =
     if (i <=? j) && (j <? i + Z.of_nat n) then icomplex_shift (get_ic m inb j) (- Z.of_nat len) else get_ic m outb (rev_bits len j)) /\
  (forall a, a < outb \/ outb + 8 * size <= a -> m' a = m a).
Proof.
  revert i m. induction n as [|n IH]; intros i m P Hi Hn; cbn [reorder_loop]; cbv zeta.
  { split; [|done]. intros j Hj. by replace ((i <=? j) && (j <? i + Z.of_nat 0)) with false by blia. }
  pose proof P as [Hlen Esize Eexp Hidx Hrev Hio Hoi Hii]. rewrite Hrev, Eexp by lia. set (c := icomplex_shift _ _).
  pose proof (rev_bits_range len i) as Hr. set (m1 := put_ic m outb (rev_bits len i) c).
  assert (forall a, a < outb \/ outb + 8 * size <= a -> m1 a = m a) as Hm1 by (intros a Ha; apply put_out; lia).
  unfold areas_apart in *. rewrite Esize in *.
  destruct (IH (i + 1) m1) as [H1 H2]; [|lia|lia|].
  - constructor; unfold areas_apart; rewrite ?Esize; try done. intros j Hj. rewrite (at_ext m); [by apply Hrev|]. intros a Ha. apply Hm1. lia.
  - split; [|intros a Ha; by rewrite H2, Hm1]. intros j Hj. rewrite H1 by done. rewrite (get_ext m m1 inb) by (intros a Ha; apply Hm1; lia).
    destruct (Z.eq_dec j i) as [->|Hne].
    + replace ((i + 1 <=? i) && (i <? i + 1 + Z.of_nat n)) with false by blia. replace ((i <=? i) && (i <? i + Z.of_nat (S n))) with true by blia.
      apply get_put_eq, shiftr_is; [lia|apply get_is].
    + replace ((i <=? j) && (j <? i + Z.of_nat (S n))) with ((i + 1 <=? j) && (j <? i + 1 + Z.of_nat n)) by blia.
      unfold m1. rewrite get_put_ne; [done|]. intros E. apply Hne. symmetry. by apply (rev_bits_inj len); [lia|lia|].
Qed.

(** What the transform is applied to: the input, scaled down. Its first element is what
    the output buffer held at index 0. *)
Definition fft_input (m : mem) (ifft : bool) (i : Z) : icomplex32 :=
  if i =? 0 then get_ic m outb 0 else
  let c := get_ic m inb i in icomplex_shift (if ifft then icomplex_conj c else c) (- Z.of_nat len).

Lemma plan_ok_ext m m' : plan_ok m plan len -> (forall a, (a < inb \/ inb + 8 * size <= a) -> m' a = m a) -> plan_ok m' plan len.
Proof.
  intros [Hlen Esize Eexp Hidx Hrev Hio Hoi Hii] E. constructor; try done. intros i Hi. rewrite (at_ext m); [by apply Hrev|].
  unfold areas_apart in *. rewrite Esize in *. intros a Ha. apply E. lia.
Qed.

Lemma transform_ok m :
  plan_ok m plan len ->
  let m1 := reorder_loop (Z.to_nat size - 1) 1 m plan in
  let m2 := depth_loop len 1 m1 outb size in
  (forall k, 0 <= k < size -> get_ic m2 outb k =
     fft_ic len (fun i => if i =? 0 then get_ic m outb 0 else icomplex_shift (get_ic m inb i) (- Z.of_nat len)) k) /\
  (forall a, a < outb \/ outb + 8 * size <= a -> m2 a = m a).
Proof.
  intros P m1 m2. assert (0 < size) by lia. destruct (reorder_ok (Z.to_nat size - 1) 1 m P) as [H1 H2]; [lia|lia|]. fold m1 in H1, H2.
  pose proof (po_len _ _ _ P). destruct (depth_get len 0 len m1 outb (get_ic m1 outb)) as [H3 H4]; [lia|done|].
  change (Z.of_nat 0 + 1) with 1 in H3, H4. fold m2 in H3, H4. split; [|intros a Ha; by rewrite H4, H2].
  intros k Hk. rewrite H3 by done. simpl (0 + len)%nat. pose proof (depth_val_rec len (get_ic m1 outb) 0 k ltac:(lia) Hk) as Er.
  rewrite Z.mul_0_l, Z.add_0_l in Er. rewrite Er. apply fft_rec_ext; [|done]. intros i Hi. rewrite Z.add_0_l, H1 by done.
  destruct (Z.eqb_spec i 0) as [->|Hne].
  - replace ((1 <=? 0) && (0 <? 1 + Z.of_nat (Z.to_nat size - 1))) with false by blia. by rewrite rev_bits_0.
  - by replace ((1 <=? i) && (i <? 1 + Z.of_nat (Z.to_nat size - 1))) with true by blia.
Qed.

Lemma fft_forward m : plan_ok m plan len ->
  let m' := fft_execute (Some plan) false m in
  (forall k, 0 <= k < size -> get_ic m' outb k = fft_ic len (fft_input m false) k) /\
  (forall a, (a < outb \/ outb + 8 * size <= a) -> m' a = m a).
Proof.
  intros P m'. pose proof P as [Hlen Esize Eexp Hidx _ Hio _ _]. subst m'. unfold fft_execute.
  rewrite (proj2 (Z.eqb_neq _ _) Hidx), Esize, Eexp, Nat2Z.id. exact (transform_ok m P).
Qed.

(** C21: Executing a plan computes the recursive transform in the output buffer, in
    natural order: every element of the output buffer is the one that the recursion
    on even and odd elements gives with the same arithmetic and twiddle factors, on
    elements 1 and on of the input, scaled down, for an inverse transform
    conjugated, and, as its element 0, what the output buffer held at index 0 before
    the call, as the code does not use element 0 of the input; the result of an
    inverse transform is scaled back. The input buffer keeps its elements, or for an
    inverse transform has their conjugates, and no other memory is written. *)
Theorem fft_execute_transforms m ifft :
  plan_ok m plan len ->
  let m' := fft_execute (Some plan) ifft m in
  (forall k, 0 <= k < size -> get_ic m' outb k =
     let y := fft_ic len (fft_input m ifft) k in if ifft then icomplex_shift y (Z.of_nat len) else y) /\
  (forall i, 0 <= i < size -> get_ic m' inb i = let c := get_ic m inb i in if ifft then icomplex_conj c else c) /\
  (forall a, (a < outb \/ outb + 8 * size <= a) -> (a < inb \/ inb + 8 * size <= a) \/ ifft = false -> m' a = m a).
Proof.
  intros P m'. pose proof P as [Hlen Esize Eexp Hidx _ Hio _ _]. unfold areas_apart in Hio. rewrite Esize in Hio. subst m'. unfold fft_execute.
  rewrite (proj2 (Z.eqb_neq _ _) Hidx), Esize, Eexp, Nat2Z.id. destruct ifft.
  - destruct (conj_ok (Z.to_nat size) 0 m inb) as [H1 H2]; [lia|]. set (m1 := conj_loop _ _ _ _) in *. rewrite Z2Nat.id in H1, H2 by lia.
    assert (forall a, a < inb \/ inb + 8 * size <= a -> m1 a = m a) as Hm1 by (intros; apply H2; lia).
    destruct (transform_ok m1 (plan_ok_ext m m1 P Hm1)) as [H3 H4]. set (m2 := depth_loop _ _ _ _ _) in *.
    destruct (shift_ok (Z.to_nat size) 0 m2 outb (Z.of_nat len)) as [H5 H6]; [lia|lia|]. rewrite Z2Nat.id in H5, H6 by lia. set (m3 := shift_loop _ _ _ _ _) in *.
    split_and!.
    + intros k Hk. rewrite H5. replace ((0 <=? k) && (k <? 0 + size)) with true by blia. cbv zeta. rewrite H3 by done. f_equal. apply fft_rec_ext; [|done].
      intros i Hi. unfold fft_input. rewrite H1. replace ((0 <=? i) && (i <? 0 + size)) with true by blia.
      by rewrite (get_ext m m1 outb) by (intros a Ha; apply Hm1; lia).
    + intros i Hi. rewrite (get_ext m1 m3 inb) by (intros a Ha; rewrite H6, H4 by lia; done). rewrite H1. by replace ((0 <=? i) && (i <? 0 + size)) with true by blia.
    + intros a Ha [Hb|?]; [|done]. rewrite H6, H4, Hm1 by lia. done.
  - destruct (transform_ok m P) as [H3 H4]. set (m2 := depth_loop _ _ _ _ _) in *. split_and!; [done| |].
    + intros i Hi. apply get_ext. intros a Ha. apply H4. lia.
    + intros a Ha _. by apply H4.
Qed.
End execute.

(** ** Examples *)

(** A plan for four elements: the indices at 100, the buffers at 200 and 300. *)
Definition demo_plan : fft_plan := mk_plan 50 4 2 100 200 300.

(** The inputs are 4000, 8000, -4000 and 400 in their real parts. *)
Definition demo_fft_mem : mem := fun a =>
  if a =? 104 then 2 else if a =? 108 then 1 else if a =? 112 then 3 else
  if a =? 200 then 160 else if a =? 201 then 15 else if a =? 208 then 64 else if a =? 209 then 31 else
  if a =? 216 then 96 else if a =? 217 then 240 else if (a =? 218) || (a =? 219) then 255 else
  if a =? 224 then 144 else if a =? 225 then 1 else 0.

Lemma demo_plan_ok : plan_ok demo_fft_mem demo_plan 2.
Proof.
  constructor; try done; [lia| |unfold areas_apart; simpl; lia..].
  intros i Hi. simpl in Hi. assert (i = 0 \/ i = 1 \/ i = 2 \/ i = 3) as [-> | [-> | [-> | ->]]] by lia; vm_compute; reflexivity.
Qed.

Lemma fft_execute_transforms_witness :
  get_ic (fft_execute (Some demo_plan) true demo_fft_mem) 300 1 = icomplex_shift (fft_ic 2 (fft_input demo_plan 2 demo_fft_mem true) 1) 2.
Proof. exact (proj1 (fft_execute_transforms demo_plan 2 demo_fft_mem true demo_plan_ok) 1 ltac:(simpl; lia)). Defined.

Definition elements (m : mem) (p n : Z) : list (Z * Z) := (fun i => let c := get_ic m p (Z.of_nat i) in (ic_real c, ic_imag c)) <$> seq 0 (Z.to_nat n).

(** The first input, 4000, is not part of the result: the transform of 0, 8000, -4000
    and 400 divided by 4 is 1100, 1000 - 1900i, -3100 and 1000 + 1900i. *)
Example fft_drops_first :
  elements (fft_execute (Some demo_plan) false demo_fft_mem) 300 4 = [(1098, 0); (1000, -1901); (-3098, 0); (1000, 1901)].
Proof. vm_compute. reflexivity. Qed.

(** ** Plans *)

(** The size is the next power of two. *)
Lemma plan_size_ok fuel size l :
  (l <= 30)%nat -> size <= 2 ^ 30 -> (31 - l < fuel)%nat -> (l = 0%nat \/ 2 ^ Z.of_nat (l - 1) < size) ->
  exists len, plan_size fuel size (2 ^ Z.of_nat l) (Z.of_nat l) = Some (2 ^ Z.of_nat len, Z.of_nat len) /\
    size <= 2 ^ Z.of_nat len /\ (len = 0%nat \/ 2 ^ Z.of_nat (len - 1) < size).
Proof.
  intros Hl Hs Hf Hprev. remember (31 - l)%nat as k eqn:Ek. revert l fuel Hl Hf Hprev Ek.
  induction k as [|k IH]; intros l [|fuel] Hl Hf Hprev Ek; try lia. cbn [plan_size].
  assert (2 ^ Z.of_nat l <= 2 ^ 30) as Hp by (apply Z.pow_le_mono_r; lia). assert (0 < 2 ^ Z.of_nat l) by lia. rewrite !u32_small by lia.
  destruct (Z.ltb_spec (2 ^ Z.of_nat l) size) as [Hlt|Hge]; [|by exists l].
  assert (l <> 30%nat) as Hl' by (intros E; rewrite E in Hlt; change (2 ^ Z.of_nat 30) with (2 ^ 30) in Hlt; lia).
  assert (i32 (Z.shiftl (2 ^ Z.of_nat l) 1) = 2 ^ Z.of_nat (S l)) as ->.
  { rewrite Z.shiftl_mul_pow2, Nat2Z.inj_succ, Z.pow_succ_r by lia. change (2 ^ 1) with 2. assert (2 ^ Z.of_nat l <= 2 ^ 29) by (apply Z.pow_le_mono_r; lia).
    rewrite i32_small; lia. }
  replace (Z.of_nat l + 1) with (Z.of_nat (S l)) by lia. apply IH; try lia. right. simpl (S l - 1)%nat. by rewrite Nat.sub_0_r.
Qed.

Section plan.
Context {A : Type} `{!Allocator A} (sizeof_fft_plan : Z).
Hypothesis Hplan : request_ok sizeof_fft_plan 0.
Implicit Types (w : world A).

Lemma zalloc_cleared w bytes :
  al_inv (w_alloc w) -> request_ok bytes 0 ->
  wp (zalloc bytes) w (fun w' p => exists a, al_inv a /\
    ((p = 0 /\ al_live a = al_live (w_alloc w) /\ w' = with_alloc w a) \/
     (p <> 0 /\ w' = with_heap w a (memset (w_mem w) p 0 bytes) /\
      exists r, al_live a ≡ₚ r :: al_live (w_alloc w) /\ covers r p bytes /\ Forall (apart r) (al_live (w_alloc w))))).
Proof.
  intros Ha Hb. destruct (al_malloc_spec (w_alloc w) 0 SOF_MEM_CAPS_RAM bytes Ha Hb) as (a & p & E & Ha' & Hp).
  unfold wp, zalloc. rewrite E. cbn [mbind option_bind fst snd]. destruct Hp as [[-> Hl]|(Hp & r & Hl & Hc & Hap)].
  - eexists _, 0. split; [done|]. exists a. split; [done|]. by left.
  - rewrite (proj2 (Z.eqb_neq p 0)) by done. eexists _, p. split; [done|]. exists a. split; [done|]. right. split_and!; [done|done|eauto].
Qed.

(** The indices of a plan in cleared memory. *)
Lemma indices_ok m idx len :
  (len <= 10)%nat -> let N := 2 ^ Z.of_nat len in
  (forall a, idx <= a < idx + 4 * N -> m a = 0) ->
  let m' := bit_reverse (Z.to_nat (N - 1)) 1 m idx (Z.of_nat len) in
  (forall i, 0 <= i < N -> bit_reverse_at m' idx i = rev_bits len i) /\ (forall a, a < idx \/ idx + 4 * N <= a -> m' a = m a).
Proof.
  intros Hlen N H0 m'. assert (1 <= N) by (unfold N; lia).
  assert (bit_reverse_at m idx 0 = 0) as E0 by (apply load_zero; intros a Ha; apply H0; lia). destruct len as [|d].
  - split; [|done]. intros i Hi. assert (i = 0) as -> by (change N with 1 in Hi; lia). exact E0.
  - destruct (bit_reverse_ok d (Z.to_nat (N - 1)) 1 m idx) as [H1 H2]; [lia|lia|fold N; lia| |].
    + intros i Hi. assert (i = 0) as -> by lia. by rewrite rev_bits_0.
    + fold m' N in H1, H2. split; [intros; apply H1; lia|intros; apply H2; lia].
Qed.

(** A buffer in memory that is in use. *)
Definition area_owned w (p n : Z) : Prop := forall a, p <= a < p + n -> exists r, r ∈ al_live (w_alloc w) /\ inside r a.

Lemma fresh_area w r p n q k :
  0 < n -> 0 < k -> area_owned w p n -> Forall (apart r) (al_live (w_alloc w)) -> covers r q k -> areas_apart q k p n.
Proof.
  intros Hn Hk Ho Hap [H1 H2]. unfold areas_apart. destruct (Z.le_gt_cases (q + k) p); [by left|]. right.
  destruct (Z.le_gt_cases (p + n) q); [done|]. exfalso. set (a := Z.max p q). destruct (Ho a) as (r' & Hr & Hin); [lia|].
  rewrite Forall_forall in Hap. specialize (Hap r' Hr). unfold apart, before, inside in *. lia.
Qed.

(** What a new plan is, and what was taken for it. *)
Record new_plan w (inb outb size : Z) (w' : world A) (plan : fft_plan) (rp ri : Z * Z) : Prop := {
  np_ok : exists len, plan_ok (w_mem w') plan len /\ size <= 2 ^ Z.of_nat len /\ (len = 0%nat \/ 2 ^ Z.of_nat (len - 1) < size);
  np_inb : pl_inb plan = inb;
  np_outb : pl_outb plan = outb;
  np_inv : al_inv (w_alloc w');
  np_live : al_live (w_alloc w') ≡ₚ ri :: rp :: al_live (w_alloc w);
  np_self : inside rp (pl_self plan);
  np_idx : inside ri (pl_bit_reverse_idx plan);
  np_mem r a : r ∈ al_live (w_alloc w) -> inside r a -> w_mem w' a = w_mem w a
}.

(** For up to 1024 elements: no plan and all memory given back, or a plan that can be
    executed. *)
Lemma fft_plan_new_ok w inb outb size :
  al_inv (w_alloc w) -> 0 < size <= 1024 -> inb <> 0 -> outb <> 0 ->
  area_owned w inb (8 * 1024) -> area_owned w outb (8 * 1024) -> areas_apart inb (8 * 1024) outb (8 * 1024) ->
  wp (fft_plan_new sizeof_fft_plan inb outb size) w (fun w' r =>
    match r with
    | None => al_inv (w_alloc w') /\ al_live (w_alloc w') ≡ₚ al_live (w_alloc w)
    | Some plan => exists rp ri, new_plan w inb outb size w' plan rp ri
    end).
Proof using Hplan.
  intros Ha Hsize Hin Hout Oin Oout Aio. unfold fft_plan_new. rewrite (proj2 (Z.eqb_neq _ _) Hin), (proj2 (Z.eqb_neq _ _) Hout). cbn [orb].
  wp_step. eapply wp_mono; [by apply zalloc_cleared|]. intros w1 p (a1 & Ha1 & [(-> & Hl1 & ->)|(Hp & -> & rp & Hl1 & Hc1 & Hap1)]).
  { simpl. wp_step. simpl. split; [done|]. by rewrite Hl1. }
  rewrite (proj2 (Z.eqb_neq _ _) Hp). destruct (plan_size_ok 32 size 0) as (len & El & Hge & Hlt); [lia|lia|lia|by left|].
  change (2 ^ Z.of_nat 0) with 1 in El. change (Z.of_nat 0) with 0 in El. wp_step. eapply wp_lift; [exact El|]. cbv beta iota.
  assert (len <= 10)%nat as Hlen.
  { destruct Hlt as [->|Hlt]; [lia|]. destruct (Nat.le_gt_cases len 10); [done|]. exfalso. assert (2 ^ 10 <= 2 ^ Z.of_nat (len - 1)) by (apply Z.pow_le_mono_r; lia). lia. }
  set (N := 2 ^ Z.of_nat len) in *. assert (1 <= N <= 1024) as HN.
  { unfold N. split; [lia|]. change 1024 with (2 ^ 10). apply Z.pow_le_mono_r; lia. }
  rewrite u32_small by lia. wp_step. eapply wp_mono; [apply zalloc_cleared; [done|repeat split; try lia; by left]|].
  intros w2 idx (a2 & Ha2 & [(-> & Hl2 & ->)|(Hi & -> & ri & Hl2 & Hc2 & Hap2)]); cbn [w_alloc with_heap with_mem with_alloc] in Hl2.
  { simpl. wp_step. eapply wp_mono; [apply (free_live _ rp p); simpl; [done|rewrite Hl2, Hl1; by left|unfold inside, covers in *; destruct Hplan; lia]|].
    intros w3 [] (a3 & -> & Ha3 & Hl3). wp_step. cbn [w_alloc with_alloc with_mem with_heap] in *. split; [done|]. apply (Permutation_cons_inv (a := rp)). by rewrite <- Hl3, Hl2, Hl1. }
  rewrite (proj2 (Z.eqb_neq _ _) Hi). do 2 wp_step. wp_step. exists rp, ri. cbn [w_mem w_alloc with_heap with_mem with_alloc].
  destruct (indices_ok (memset (memset (w_mem w) p 0 sizeof_fft_plan) idx 0 (N * 4)) idx len Hlen) as [Hrev Hm].
  { intros a Ha'. apply memset_in. fold N in Ha'. lia. }
  fold N in Hrev, Hm. set (m' := bit_reverse _ _ _ _ _) in *.
  assert (forall B, covers ri idx B -> 0 < B -> inside ri idx) as Hii by (intros B [? ?] ?; unfold inside; lia).
  assert (Forall (apart ri) (al_live (w_alloc w))) as Hap3 by (rewrite Hl1 in Hap2; by inversion Hap2).
  assert (forall b, area_owned w b (8 * 1024) -> areas_apart idx (N * 4) b (8 * 1024)) as Hfr.
  { intros b Hb. apply (fresh_area w ri); [lia|lia|done|done|done]. }
  constructor; cbn [pl_inb pl_outb pl_self pl_bit_reverse_idx w_mem w_alloc with_heap with_mem with_alloc]; try done.
  - exists len. split; [|by split]. pose proof (Hfr inb Oin). pose proof (Hfr outb Oout). unfold areas_apart in *.
    constructor; unfold areas_apart; cbn [pl_size pl_len pl_inb pl_outb pl_self pl_bit_reverse_idx]; fold N; try done; lia.
  - by rewrite Hl2, Hl1.
  - unfold inside, covers in *. destruct Hplan. lia.
  - apply (Hii (N * 4)); [done|lia].
  - intros r a Hr Hra. rewrite Forall_forall in Hap1, Hap3. specialize (Hap1 r Hr). specialize (Hap3 r Hr). unfold apart, before, covers, inside in *.
    rewrite Hm by lia. rewrite !memset_out by lia. done.
Qed.

Lemma fft_plan_free_ok w inb outb size w' plan rp ri :
  new_plan w inb outb size w' plan rp ri ->
  wp (fft_plan_free (Some plan)) w' (fun w2 _ => al_inv (w_alloc w2) /\ al_live (w_alloc w2) ≡ₚ al_live (w_alloc w)).
Proof.
  intros [_ _ _ Ha Hl Hs Hi _]. unfold fft_plan_free. wp_step. eapply wp_mono; [apply (free_live _ ri); [done|rewrite Hl; by left|done]|].
  intros w1 [] (a1 & -> & Ha1 & Hl1). assert (al_live a1 ≡ₚ rp :: al_live (w_alloc w)) as Hl1' by (apply (Permutation_cons_inv (a := ri)); by rewrite <- Hl1, Hl).
  eapply wp_mono; [apply (free_live _ rp); simpl; [done|rewrite Hl1'; by left|done]|].
  intros w2 [] (a2 & -> & Ha2 & Hl2). simpl in *. split; [done|]. apply (Permutation_cons_inv (a := rp)). by rewrite <- Hl2, Hl1'.
Qed.
End plan.

(** ** Examples *)

(** A full-scale signal of eight elements with both parts of each in the direction of the
    second output: in a circle the result would be within the range, but the signal is
    on the corners of the square. *)
Definition corner_plan : fft_plan := mk_plan 50 8 3 100 200 300.

Definition corner_mem : mem :=
  let M := 2147483647 in
  let put m x := put_ic m 200 x.1 (mk_ic x.2.1 x.2.2) in
  put_ic (foldl put (bit_reverse 7 1 (fun _ => 0) 100 3)
    [(1, (M, M)); (2, (M, M)); (3, (-M, M)); (4, (-M, M)); (5, (-M, -M)); (6, (-M, -M)); (7, (M, -M))]) 300 0 (mk_ic (M / 8) (- M / 8)).

(** The real part of element 1 should be about 1.207 times the full scale; it has wrapped
    around. *)
Example fft_wraps : get_ic (fft_execute (Some corner_plan) false corner_mem) 300 1 = mk_ic (-1702725230) (-1073741822).
Proof. vm_compute. reflexivity. Qed.

(** A plan for more than 1024 elements is made, but all factors of its last stages are 1. *)
Example large_plan_size : plan_size 32 2048 1 0 = Some (2048, 11) /\ Z.shiftr FFT_SIZE_MAX 11 = 0.
Proof. vm_compute. done. Qed.
