(* ===== verification/FftError.v ===== *)
(** * The accuracy of the transform

    The recursion of [FftThms] is the discrete Fourier transform in exact arithmetic.
    How far the fixed-point arithmetic of [src/math/fft/fft.c] is from the discrete
    Fourier transform: the twiddle factors are the powers of the root of unity up to
    about a unit, no sum overflows, and the errors of the stages add up to less than
    two units for each element. *)

From Stdlib Require Import Reals Lra Lia Ring.
From stdpp Require Import base list numbers.
From S2P Require Import Prelude Format Fft FftThms RealBounds.

#[local] Open Scope R_scope.

(** ** Roots of unity *)

(** The powers of the root of order 1024. *)
Definition omega (i : Z) : C := (cos (2 * PI * IZR i / 1024), - sin (2 * PI * IZR i / 1024)).

Lemma omega_add i j : omega (i + j) = cmul (omega i) (omega j).
Proof.
  unfold omega, cmul. simpl. rewrite plus_IZR. replace (2 * PI * (IZR i + IZR j) / 1024) with (2 * PI * IZR i / 1024 + 2 * PI * IZR j / 1024) by lra.
  rewrite cos_plus, sin_plus. f_equal; ring.
Qed.

Lemma omega_norm i : norm (omega i) = 1.
Proof.
  unfold norm, omega. simpl. rewrite <- sqrt_1. f_equal. pose proof (sin2_cos2 (2 * PI * IZR i / 1024)) as H. unfold Rsqr in H. lra.
Qed.

Lemma omega_0 : omega 0 = c1.
Proof. unfold omega, c1. rewrite Rmult_0_r. replace (0 / 1024) with 0 by lra. rewrite cos_0, sin_0. f_equal. lra. Qed.

Lemma omega_half : omega 512 = copp c1.
Proof. unfold omega, copp, c1. simpl. replace (2 * PI * 512 / 1024) with PI by lra. rewrite cos_PI, sin_PI. done. Qed.

Lemma omega_quarter : omega 256 = (0, -1).
Proof. unfold omega. replace (2 * PI * 256 / 1024) with (PI / 2) by lra. rewrite cos_PI2, sin_PI2. done. Qed.

Lemma omega_period i : omega (1024 * i) = c1.
Proof.
  unfold omega, c1. rewrite mult_IZR. replace (2 * PI * (1024 * IZR i) / 1024) with (0 + 2 * IZR i * PI) by lra.
  assert (cos (0 + 2 * IZR i * PI) = 1 /\ sin (0 + 2 * IZR i * PI) = 0) as [-> ->]; [|f_equal; lra].
  destruct (Z.le_ge_cases 0 i) as [Hi|Hi].
  - rewrite <- (Z2Nat.id i), <- INR_IZR_INZ by done. by rewrite cos_period, sin_period, cos_0, sin_0.
  - replace (0 + 2 * IZR i * PI) with (- (0 + 2 * IZR (- i) * PI)) by (rewrite opp_IZR; lra). rewrite cos_neg, sin_neg.
    rewrite <- (Z2Nat.id (- i)), <- INR_IZR_INZ by lia. rewrite cos_period, sin_period, cos_0, sin_0. split; lra.
Qed.

(** ** Sums *)

Fixpoint csum (n : nat) (f : Z -> C) : C :=
  match n with
  | O => c0
  | S n => cadd (csum n f) (f (Z.of_nat n))
  end.

Lemma csum_ext n f g : (forall i, (0 <= i < Z.of_nat n)%Z -> f i = g i) -> csum n f = csum n g.
Proof. induction n as [|n IH]; intros E; simpl; [done|]. rewrite IH, E by (intros; try apply E; lia). done. Qed.

Lemma csum_scale n f a : cmul a (csum n f) = csum n (fun i => cmul a (f i)).
Proof. induction n as [|n IH]; simpl; [ring|]. rewrite <- IH. ring. Qed.

(** Even and odd terms. *)
Lemma csum_halves n f : csum (n + n) f = cadd (csum n (fun i => f (2 * i)%Z)) (csum n (fun i => f (2 * i + 1)%Z)).
Proof.
  induction n as [|n IH]; [simpl; ring|]. replace (S n + S n)%nat with (S (S (n + n))) by lia. cbn [csum]. rewrite IH.
  replace (Z.of_nat (n + n)) with (2 * Z.of_nat n)%Z by lia. replace (Z.of_nat (S (n + n))) with (2 * Z.of_nat n + 1)%Z by lia. ring.
Qed.

Lemma csum_norm n f b : (forall i, (0 <= i < Z.of_nat n)%Z -> norm (f i) <= b) -> norm (csum n f) <= INR n * b.
Proof.
  induction n as [|n IH]; intros H; [simpl; rewrite norm_0; lra|]. rewrite S_INR. cbn [csum]. pose proof (norm_add (csum n f) (f (Z.of_nat n))) as Ha.
  assert (norm (csum n f) <= INR n * b) by (apply IH; intros; apply H; lia). pose proof (H (Z.of_nat n) ltac:(lia)). lra.
Qed.

(** ** The discrete Fourier transform *)

Definition dft (d : nat) (x : Z -> C) (k : Z) : C :=
  csum (2 ^ d) (fun i => cmul (omega (2 ^ Z.of_nat (10 - d) * (i * k))) (x i)).

Notation fft_exact := (fft_rec cadd csub cmul omega 10).

Lemma pow_split d : (S d <= 10)%nat -> (2 ^ Z.of_nat (10 - d) = 2 * 2 ^ Z.of_nat (10 - S d) /\ 2 ^ Z.of_nat (10 - S d) * 2 ^ Z.of_nat d = 512)%Z.
Proof.
  intros Hd. replace (10 - d)%nat with (S (10 - S d)) by lia. rewrite Nat2Z.inj_succ, Z.pow_succ_r by lia. split; [done|].
  rewrite <- Z.pow_add_r by lia. replace (Z.of_nat (10 - S d) + Z.of_nat d)%Z with 9%Z by lia. done.
Qed.

(** In exact arithmetic the recursion computes the transform. *)
Lemma fft_exact_dft d x k : (d <= 10)%nat -> (0 <= k < 2 ^ Z.of_nat d)%Z -> fft_exact d x k = dft d x k.
Proof.
  revert x k. induction d as [|d IH]; intros x k Hd Hk.
  { unfold dft. change (2 ^ 0)%nat with 1%nat. cbn [csum fft_rec]. change (Z.of_nat 0) with 0%Z. rewrite Z.mul_0_l, Z.mul_0_r, omega_0. ring. }
  cbn [fft_rec]. rewrite Nat2Z.inj_succ, Z.pow_succ_r in Hk by lia. set (n := (2 ^ Z.of_nat d)%Z) in *. assert (0 < n)%Z by (unfold n; lia).
  pose proof (Z.mod_pos_bound k n ltac:(done)) as Hj. set (j := (k mod n)%Z) in *. rewrite !IH by (done || lia).
  destruct (pow_split d Hd) as [E1 E2]. fold n in E2. set (u := (2 ^ Z.of_nat (10 - S d))%Z) in *.
  unfold dft at 5. change (2 ^ S d)%nat with (2 ^ d + (2 ^ d + 0))%nat. rewrite Nat.add_0_r, csum_halves. fold u.
  assert (exists b, (b = 0 \/ b = 1)%Z /\ (k = j + b * n)%Z /\ (k <? n)%Z = (b =? 0)%Z) as (b & Hb & Ek & Eb).
  { destruct (Z.ltb_spec k n) as [Hlt|Hge].
    - exists 0%Z. split; [by left|]. split; [|done]. unfold j. rewrite Z.mod_small; lia.
    - exists 1%Z. split; [by right|]. split; [|done]. unfold j. replace (k mod n)%Z with (k - n)%Z by (apply (Z.mod_unique_pos _ _ 1); lia). lia. }
  assert (csum (2 ^ d) (fun i => cmul (omega (u * (2 * i * k))) (x (2 * i)%Z)) = dft d (fun i => x (2 * i)%Z) j) as ->.
  { apply csum_ext. intros i _. f_equal. rewrite E1. replace (u * (2 * i * k))%Z with (2 * u * (i * j) + 1024 * (i * b))%Z by (rewrite Ek; change 1024%Z with (2 * 512)%Z; rewrite <- E2; ring).
    rewrite omega_add, omega_period. ring. }
  assert (csum (2 ^ d) (fun i => cmul (omega (u * ((2 * i + 1) * k))) (x (2 * i + 1)%Z)) = cmul (omega (u * k)) (dft d (fun i => x (2 * i + 1)%Z) j)) as ->.
  { unfold dft. rewrite csum_scale. apply csum_ext. intros i _. rewrite E1.
    replace (u * ((2 * i + 1) * k))%Z with (u * k + (2 * u * (i * j) + 1024 * (i * b)))%Z by (rewrite Ek; change 1024%Z with (2 * 512)%Z; rewrite <- E2; ring). rewrite !omega_add, omega_period. ring. }
  rewrite Eb. destruct Hb as [-> | ->]; simpl (_ =? _)%Z.
  - replace (u * k)%Z with (u * j)%Z by lia. done.
  - replace (u * k)%Z with (u * j + 512)%Z by (rewrite Ek, <- E2; ring). rewrite omega_add, omega_half. ring.
Qed.

Lemma dft_norm d x k b : (forall i, (0 <= i < 2 ^ Z.of_nat d)%Z -> norm (x i) <= b) -> norm (dft d x k) <= 2 ^ d * b.
Proof.
  intros H. unfold dft. eapply Rle_trans; [apply csum_norm|].
  - intros i Hi. rewrite norm_mul, omega_norm, Rmult_1_l. apply H. by rewrite Nat2Z.inj_pow in Hi.
  - rewrite pow_INR. replace (INR 2) with 2 by (simpl; lra). lra.
Qed.

(** ** Integers as complex numbers *)

(** The number with the parts [a] and [b] in units of 1 / [s]. *)
Definition scaled (s : Z) (z : Z * Z) : C := (IZR z.1 / IZR s, IZR z.2 / IZR s).

Lemma norm_scaled s z r : (0 < s)%Z -> (0 <= r)%Z -> (z.1 * z.1 + z.2 * z.2 <= r * r)%Z -> norm (scaled s z) <= IZR r / IZR s.
Proof.
  intros Hs Hr H. pose proof (IZR_lt 0 s Hs). pose proof (IZR_le 0 r Hr). apply IZR_le in H. rewrite plus_IZR, !mult_IZR in H.
  apply norm_le; [apply Rmult_le_pos; [lra|left; by apply Rinv_0_lt_compat]|]. unfold scaled. simpl. unfold Rdiv.
  replace (IZR z.1 * / IZR s * (IZR z.1 * / IZR s) + IZR z.2 * / IZR s * (IZR z.2 * / IZR s)) with
    ((IZR z.1 * IZR z.1 + IZR z.2 * IZR z.2) * (/ IZR s * / IZR s)) by ring.
  replace (IZR r * / IZR s * (IZR r * / IZR s)) with (IZR r * IZR r * (/ IZR s * / IZR s)) by ring.
  apply Rmult_le_compat_r; [|lra]. apply Rle_0_sqr.
Qed.

(** ** Roots of unity to 60 bits *)

Definition P60 : Z := 1152921504606846976.

(** The powers 1, 2, 4 and so on up to 256 of the root, in units of 2^-60. *)
Definition roots60 : list (Z * Z) := [
  (1152899801185339687, -7074193361797233);
  (1152834691737939372, -14148120384212745);
  (1152574266204915294, -28294110113536504);
  (1151532760162549490, -56571176913125535);
  (1147369872436662991, -113006068906017470);
  (1130768441178740757, -224923827593068887);
  (1065160580698383124, -441203958630471860);
  (815238614083298888, -815238614083298888);
  (0, -1152921504606846976)]%Z.

Definition square (z : Z * Z) : Z * Z := (z.1 * z.1 - z.2 * z.2, 2 * (z.1 * z.2))%Z.

(** Each is the square root of the next one, on the right half of the plane. *)
Fixpoint squares_ok (l : list (Z * Z)) : bool :=
  match l with
  | z :: (z' :: _) as l =>
      (Z.abs ((square z).1 - z'.1 * P60) <=? 3 * P60)%Z && (Z.abs ((square z).2 - z'.2 * P60) <=? 3 * P60)%Z &&
      (7 * P60 <=? 10 * z.1)%Z && squares_ok l
  | _ => true
  end.

Lemma roots60_squares : squares_ok roots60 = true.
Proof. vm_compute. reflexivity. Qed.

Lemma abs_square x r : (Z.abs x <= r -> x * x <= r * r)%Z.
Proof. intros. assert (- r <= x <= r)%Z by lia. nia. Qed.

Notation u60 := (/ IZR P60).

Lemma u60_pos : 0 < u60.
Proof. apply Rinv_0_lt_compat. unfold P60. lra. Qed.

(** An approximation of a square gives one of the root. *)
Lemma root_step z z' i d :
  (Z.abs ((square z).1 - z'.1 * P60) <= 3 * P60)%Z -> (Z.abs ((square z).2 - z'.2 * P60) <= 3 * P60)%Z -> (7 * P60 <= 10 * z.1)%Z ->
  (0 <= i <= 256)%Z -> norm (csub (scaled P60 z') (omega (i + i))) <= d * u60 ->
  norm (csub (scaled P60 z) (omega i)) <= (d + 5) * (10 / 7) * u60.
Proof.
  intros H1 H2 H3 Hi Hd. set (a := scaled P60 z) in *. set (w := omega i) in *. pose proof u60_pos as Hu.
  assert (norm (csub (cmul a a) (scaled P60 z')) <= 5 * u60) as Hq.
  { assert (csub (cmul a a) (scaled P60 z') = scaled (P60 * P60) ((square z).1 - z'.1 * P60, (square z).2 - z'.2 * P60)%Z) as ->.
    { unfold a, scaled, csub, cmul, square. simpl. rewrite !minus_IZR, !mult_IZR. f_equal; field; unfold P60; lra. }
    eapply Rle_trans; [apply (norm_scaled _ _ (5 * P60)); [done|done|]|].
    - cbn [fst snd]. pose proof (abs_square _ _ H1). pose proof (abs_square _ _ H2). unfold P60 in *. lia.
    - rewrite !mult_IZR. unfold P60. lra. }
  assert (0 <= fst w) as Hw.
  { apply cos_ge_0; pose proof PI_RGT_0; destruct Hi as [Hi1 Hi2]; apply IZR_le in Hi1, Hi2; nra. }
  assert (7 / 10 <= fst a) as Ha.
  { unfold a, scaled. simpl. apply IZR_le in H3. rewrite !mult_IZR in H3. unfold P60 in *. lra. }
  assert (norm (cmul (csub a w) (cadd a w)) <= (5 + d) * u60) as Hp.
  { replace (cmul (csub a w) (cadd a w)) with (csub (cmul a a) (cmul w w)) by ring. replace (cmul w w) with (omega (i + i)) by apply omega_add.
    pose proof (norm_via (cmul a a) (scaled P60 z') (omega (i + i))). rewrite Rmult_plus_distr_r. lra. }
  rewrite norm_mul in Hp. assert (7 / 10 <= norm (cadd a w)) as Hs.
  { eapply Rle_trans; [|apply norm_fst]. change (fst (cadd a w)) with (fst a + fst w). rewrite Rabs_pos_eq; lra. }
  pose proof (norm_pos (csub a w)). nra.
Qed.

Fixpoint root_error (k : nat) : R := match k with O => 0 | S k => (root_error k + 5) * (10 / 7) end.

Lemma last_irrelevant {T : Type} (x : T) l d d' : List.last (x :: l) d = List.last (x :: l) d'.
Proof. revert x. induction l as [|y l IH]; intros x; [done|]. apply (IH y). Qed.

Lemma roots_near k l z :
  (k <= 8)%nat -> squares_ok (z :: l) = true -> length l = k -> List.last (z :: l) z = (0, -1152921504606846976)%Z ->
  norm (csub (scaled P60 z) (omega (2 ^ (8 - Z.of_nat k)))) <= root_error k * u60.
Proof.
  revert l z. induction k as [|k IH]; intros l z Hk Hsq Hl Hlast.
  - destruct l; [|done]. simpl in Hlast. subst z. change (2 ^ (8 - Z.of_nat 0))%Z with 256%Z. rewrite omega_quarter. simpl root_error. rewrite Rmult_0_l.
    apply norm_le; [lra|]. unfold csub, scaled, P60. simpl. lra.
  - destruct l as [|z' l]; [done|]. cbn [squares_ok] in Hsq.
    repeat match goal with H : (_ && _)%bool = true |- _ => apply andb_true_iff in H; destruct H end.
    cbn [root_error]. eapply (root_step z z'); [by apply Z.leb_le..| |].
    + split; [apply Z.pow_nonneg; lia|]. change 256%Z with (2 ^ 8)%Z. apply Z.pow_le_mono_r; lia.
    + replace (2 ^ (8 - Z.of_nat (S k)) + 2 ^ (8 - Z.of_nat (S k)))%Z with (2 ^ (8 - Z.of_nat k))%Z; [apply (IH l); [lia|done|by injection Hl|]|].
      { rewrite <- Hlast. change (List.last (z :: z' :: l) z) with (List.last (z' :: l) z). apply last_irrelevant. }
      replace (8 - Z.of_nat k)%Z with (1 + (8 - Z.of_nat (S k)))%Z by lia. rewrite Z.pow_add_r by lia. lia.
Qed.

Definition root60 : Z * Z := (1152899801185339687, -7074193361797233)%Z.

Lemma root60_near : norm (csub (scaled P60 root60) (omega 1)) <= 300 * u60.
Proof.
  pose proof u60_pos as Hu. pose proof (roots_near 8 (tail roots60) root60 ltac:(lia) roots60_squares eq_refl eq_refl) as H.
  change (2 ^ (8 - Z.of_nat 8))%Z with 1%Z in H. eapply Rle_trans; [exact H|]. apply Rmult_le_compat_r; [lra|]. simpl. lra.
Qed.

(** ** The twiddle factors *)

(** A product in units of 2^-60. *)
Definition times60 (a b : Z * Z) : Z * Z := ((a.1 * b.1 - a.2 * b.2) / P60, (a.1 * b.2 + a.2 * b.1) / P60)%Z.

Fixpoint power60 (i : nat) : Z * Z := match i with O => (P60, 0%Z) | S i => times60 (power60 i) root60 end.

(** Entries are within 1 + 1/8 units of 2^-31 of the powers. *)
Definition close (t p : Z * Z) : bool :=
  let a := (t.1 * 2 ^ 29 - p.1)%Z in let b := (t.2 * 2 ^ 29 - p.2)%Z in (a * a + b * b <=? (2 ^ 29 + 2 ^ 26) * (2 ^ 29 + 2 ^ 26))%Z.

Fixpoint all_close (re im : list Z) (p : Z * Z) : bool :=
  match re, im with
  | a :: re, b :: im => close (a, b) p && all_close re im (times60 p root60)
  | [], [] => true
  | _, _ => false
  end.

Lemma twiddle_close : all_close twiddle_real twiddle_imag (power60 0) = true.
Proof. vm_compute. reflexivity. Qed.

Lemma all_close_nth re im j i : all_close re im (power60 j) = true -> (i < length re)%nat -> close (nth i re 0%Z, nth i im 0%Z) (power60 (j + i)) = true.
Proof.
  revert im j i. induction re as [|a re IH]; intros [|b im] j i H Hi; simpl in Hi; try lia; [done|].
  cbn [all_close] in H. apply andb_true_iff in H as [H1 H2]. destruct i as [|i]; [by rewrite Nat.add_0_r|].
  rewrite Nat.add_succ_r. apply (IH im (S j) i); [exact H2|lia].
Qed.

(** Rounding down both parts. *)
Lemma floor_near x y p : (0 < p)%Z -> norm (csub (IZR (x / p), IZR (y / p)) (IZR x / IZR p, IZR y / IZR p)) <= 17 / 12.
Proof.
  intros Hp. pose proof (IZR_lt 0 p Hp) as Hp'.
  assert (forall v, - 1 <= IZR (v / p) - IZR v / IZR p <= 0) as Hf.
  { intros v. pose proof (Z.mul_div_le v p Hp) as H1. pose proof (Z.mul_succ_div_gt v p Hp) as H2. apply IZR_le in H1. apply IZR_lt in H2.
    rewrite mult_IZR in H1, H2. unfold Z.succ in H2. rewrite plus_IZR in H2. set (f := IZR (v / p)) in *.
    assert (IZR v / IZR p * IZR p = IZR v) by (field; lra). set (g := IZR v / IZR p) in *. split; nra. }
  apply norm_le; [lra|]. unfold csub. simpl. pose proof (Hf x). pose proof (Hf y). nra.
Qed.

Lemma times60_near a b :
  norm (csub (scaled P60 (times60 a b)) (cmul (scaled P60 a) (scaled P60 b))) <= 2 * u60.
Proof.
  pose proof u60_pos as Hu. set (x := (a.1 * b.1 - a.2 * b.2)%Z). set (y := (a.1 * b.2 + a.2 * b.1)%Z).
  pose proof (floor_near x y P60 eq_refl) as Hf.
  assert (csub (scaled P60 (times60 a b)) (cmul (scaled P60 a) (scaled P60 b)) =
    cmul (u60, 0) (csub (IZR (x / P60), IZR (y / P60)) (IZR x / IZR P60, IZR y / IZR P60))) as ->.
  { assert (IZR x = IZR a.1 * IZR b.1 - IZR a.2 * IZR b.2) as Ex by (unfold x; by rewrite minus_IZR, !mult_IZR).
    assert (IZR y = IZR a.1 * IZR b.2 + IZR a.2 * IZR b.1) as Ey by (unfold y; by rewrite plus_IZR, !mult_IZR).
    unfold scaled, times60, csub, cmul. cbn [fst snd]. fold x y. rewrite Ex, Ey. f_equal; field; unfold P60; lra. }
  rewrite norm_mul. assert (norm (u60, 0) = u60) as ->.
  { unfold norm. simpl. rewrite Rmult_0_l, Rplus_0_r. apply sqrt_square. lra. }
  nra.
Qed.

Lemma power60_near i : (i <= 1024)%nat -> norm (csub (scaled P60 (power60 i)) (omega (Z.of_nat i))) <= INR i * 602 * u60.
Proof.
  pose proof u60_pos as Hu. induction i as [|i IH]; intros Hi.
  { change (Z.of_nat 0) with 0%Z. rewrite omega_0. simpl (INR 0). rewrite !Rmult_0_l. cbn [power60].
    replace (csub (scaled P60 (P60, 0%Z)) c1) with c0 by (unfold csub, scaled, c0, c1, P60; cbn [fst snd]; f_equal; lra). rewrite norm_0. lra. }
  specialize (IH ltac:(lia)). cbn [power60]. rewrite Nat2Z.inj_succ. unfold Z.succ. rewrite omega_add, S_INR.
  set (p := scaled P60 (power60 i)) in *. set (w := omega (Z.of_nat i)) in *. set (r := scaled P60 root60).
  pose proof (times60_near (power60 i) root60) as H1. fold p r in H1. pose proof root60_near as H2. fold r in H2.
  assert (INR i <= 1024) as Hi' by (rewrite INR_IZR_INZ; apply IZR_le; lia).
  assert (norm p <= 2) as Hp.
  { pose proof (norm_near p w _ IH) as Hn. unfold w in Hn. rewrite omega_norm in Hn. pose proof (pos_INR i).
    assert (INR i * 602 * u60 <= 1); [|lra]. unfold P60 in *. nra. }
  pose proof (norm_via (scaled P60 (times60 (power60 i) root60)) (cmul p r) (cmul w (omega 1))) as H3.
  pose proof (norm_via (cmul p r) (cmul p (omega 1)) (cmul w (omega 1))) as H4.
  replace (csub (cmul p r) (cmul p (omega 1))) with (cmul p (csub r (omega 1))) in H4 by ring.
  replace (csub (cmul p (omega 1)) (cmul w (omega 1))) with (cmul (csub p w) (omega 1)) in H4 by ring.
  rewrite !norm_mul, omega_norm in H4. pose proof (norm_pos (csub r (omega 1))). nra.
Qed.

Lemma twiddle_power i : (0 <= i < 1024)%Z -> close (ic_real (twiddle i), ic_imag (twiddle i)) (power60 (Z.to_nat i)) = true.
Proof.
  intros Hi. apply (all_close_nth twiddle_real twiddle_imag 0 (Z.to_nat i) twiddle_close).
  assert (Z.of_nat (length twiddle_real) = 1024%Z) as El by (vm_compute; reflexivity). lia.
Qed.

Lemma close_near t p i :
  close t p = true -> norm (csub (scaled P60 p) (omega i)) <= 1024 * 602 * u60 ->
  norm (csub (scaled (2 ^ 31) t) (omega i)) <= 113 / 100 / IZR (2 ^ 31).
Proof.
  intros Hc Hp. pose proof u60_pos as Hu.
  unfold close in Hc. apply Z.leb_le in Hc. pose proof (norm_scaled P60 (t.1 * 2 ^ 29 - p.1, t.2 * 2 ^ 29 - p.2)%Z (2 ^ 29 + 2 ^ 26) eq_refl ltac:(lia) Hc) as Hn.
  assert (scaled P60 (t.1 * 2 ^ 29 - p.1, t.2 * 2 ^ 29 - p.2)%Z = csub (scaled (2 ^ 31) t) (scaled P60 p)) as E.
  { unfold csub, scaled. cbn [fst snd]. rewrite !minus_IZR, !mult_IZR. replace (IZR (2 ^ 31)) with 2147483648 by (f_equal; reflexivity).
    replace (IZR (2 ^ 29)) with 536870912 by (f_equal; reflexivity). unfold P60. f_equal; lra. }
  rewrite E in Hn. pose proof (norm_via (scaled (2 ^ 31) t) (scaled P60 p) (omega i)) as Hv.
  replace (IZR (2 ^ 29 + 2 ^ 26)) with 603979776 in Hn by (f_equal; reflexivity). replace (IZR (2 ^ 31)) with 2147483648 by (f_equal; reflexivity).
  assert (603979776 / IZR P60 + 1024 * 602 * u60 <= 113 / 100 / 2147483648) by (unfold P60; lra). lra.
Qed.

(** The table holds the powers of the root of unity up to 1.13 units. *)
Lemma twiddle_near i : (0 <= i < 1024)%Z -> norm (csub (scaled (2 ^ 31) (ic_real (twiddle i), ic_imag (twiddle i))) (omega i)) <= 113 / 100 / IZR (2 ^ 31).
Proof.
  intros Hi. pose proof u60_pos as Hu. apply (close_near _ _ _ (twiddle_power i Hi)).
  assert (Z.to_nat i <= 1024)%nat as Hn by lia. pose proof (power60_near (Z.to_nat i) Hn) as Hp. rewrite INR_IZR_INZ, Z2Nat.id in Hp by lia.
  assert (IZR i <= 1024) as Hi' by (apply IZR_le; lia). nra.
Qed.

(** ** The arithmetic *)

Definition icC (c : icomplex32) : C := (IZR (ic_real c), IZR (ic_imag c)).

(** Parts of a number of limited size fit. *)
Lemma parts_small a b r : norm (IZR a, IZR b) <= r -> r < 2147483648 -> (i32 a = a /\ i32 b = b /\ - 2 ^ 31 < a < 2 ^ 31 /\ - 2 ^ 31 < b < 2 ^ 31)%Z.
Proof.
  intros Hn Hr. assert (forall x, Rabs (IZR x) <= norm (IZR a, IZR b) -> (- 2 ^ 31 < x < 2 ^ 31)%Z) as Hx.
  { intros x Hx. rewrite <- abs_IZR in Hx. assert (Z.abs x < 2147483648)%Z; [|lia]. apply lt_IZR. lra. }
  pose proof (Hx a (norm_fst (IZR a, IZR b))). pose proof (Hx b (norm_snd (IZR a, IZR b))). rewrite !i32_small by lia. lia.
Qed.

Lemma add_exact a b r : norm (cadd (icC a) (icC b)) <= r -> r < 2147483648 -> icC (icomplex32_add a b) = cadd (icC a) (icC b).
Proof.
  unfold cadd, icC. cbn [fst snd]. rewrite <- !plus_IZR. intros Hn Hr. destruct (parts_small _ _ r Hn Hr) as (E1 & E2 & _).
  unfold icomplex32_add. cbn [ic_real ic_imag]. by rewrite E1, E2.
Qed.

Lemma sub_exact a b r : norm (csub (icC a) (icC b)) <= r -> r < 2147483648 -> icC (icomplex32_sub a b) = csub (icC a) (icC b).
Proof.
  unfold csub, icC. cbn [fst snd]. rewrite <- !minus_IZR. intros Hn Hr. destruct (parts_small _ _ r Hn Hr) as (E1 & E2 & _).
  unfold icomplex32_sub. cbn [ic_real ic_imag]. by rewrite E1, E2.
Qed.

(** A product with a twiddle factor is off by less than two units. *)
Lemma mul_near t w o :
  norm (csub (scaled (2 ^ 31) (ic_real t, ic_imag t)) w) <= 113 / 100 / IZR (2 ^ 31) -> norm w = 1 -> norm (icC o) <= 1073741824 ->
  norm (csub (icC (icomplex32_mul t o)) (cmul w (icC o))) <= 2.
Proof.
  intros Ht Hw Ho. replace (IZR (2 ^ 31)) with 2147483648 in Ht by (f_equal; reflexivity). set (ts := scaled (2 ^ 31) (ic_real t, ic_imag t)) in *.
  assert (norm ts <= 3) as Hts by (pose proof (norm_near _ _ _ Ht); lra).
  set (x := (ic_real t * ic_real o - ic_imag t * ic_imag o)%Z). set (y := (ic_real t * ic_imag o + ic_imag t * ic_real o)%Z).
  assert (cmul ts (icC o) = (IZR x / IZR (2 ^ 31), IZR y / IZR (2 ^ 31))) as Ep.
  { unfold ts, scaled, icC, cmul, x, y. cbn [fst snd]. rewrite minus_IZR, plus_IZR, !mult_IZR. unfold Rdiv. f_equal; ring. }
  pose proof (floor_near x y (2 ^ 31) eq_refl) as Hf. rewrite <- Ep in Hf. set (q := (IZR (x / 2 ^ 31), IZR (y / 2 ^ 31))) in *.
  assert (norm (csub q (cmul w (icC o))) <= 2) as Hq.
  { pose proof (norm_via q (cmul ts (icC o)) (cmul w (icC o))) as Hv.
    replace (csub (cmul ts (icC o)) (cmul w (icC o))) with (cmul (csub ts w) (icC o)) in Hv by ring. rewrite norm_mul in Hv.
    pose proof (norm_pos (icC o)). pose proof (norm_pos (csub ts w)). nra. }
  assert (norm q <= 1073741826) as Hn.
  { pose proof (norm_near _ _ _ Hq) as Hn. rewrite norm_mul, Hw in Hn. lra. }
  destruct (parts_small _ _ _ Hn ltac:(lra)) as (E1 & E2 & B1 & B2).
  assert (icC (icomplex32_mul t o) = q) as ->; [|done]. unfold icC, icomplex32_mul, q. cbn [ic_real ic_imag]. fold x y.
  rewrite !Z.shiftr_div_pow2 by lia. pose proof (Z.div_mod x (2 ^ 31) ltac:(lia)). pose proof (Z.mod_pos_bound x (2 ^ 31) ltac:(lia)).
  pose proof (Z.div_mod y (2 ^ 31) ltac:(lia)). pose proof (Z.mod_pos_bound y (2 ^ 31) ltac:(lia)).
  assert (forall v, (- 2 ^ 63 <= v < 2 ^ 63)%Z -> i64 v = v) as Hi64 by (intros v Hv; unfold i64; rewrite Z.mod_small; lia).
  rewrite !Hi64 by lia. by rewrite E1, E2.
Qed.

(** ** The stages *)

Notation fft_ic := (fft_rec icomplex32_add icomplex32_sub icomplex32_mul twiddle 10).

Lemma exact_norm d x k b :
  (d <= 10)%nat -> (0 <= k < 2 ^ Z.of_nat d)%Z -> (forall i, (0 <= i < 2 ^ Z.of_nat d)%Z -> norm (x i) <= b) -> norm (fft_exact d x k) <= 2 ^ d * b.
Proof. intros Hd Hk Hx. rewrite fft_exact_dft by done. by apply dft_norm. Qed.

(** Elements of [2 ^ d] inputs of size at most [b]: the errors stay below two units for
    each input, and nothing overflows. *)
Lemma fft_error d x k b :
  (d <= 10)%nat -> (0 <= k < 2 ^ Z.of_nat d)%Z -> 2 ^ d * (b + 2) <= 2147483648 ->
  (forall i, (0 <= i < 2 ^ Z.of_nat d)%Z -> norm (icC (x i)) <= b) ->
  norm (csub (icC (fft_ic d x k)) (fft_exact d (fun i => icC (x i)) k)) <= 2 * (2 ^ d - 1).
Proof.
  revert x k. induction d as [|d IH]; intros x k Hd Hk Hb Hx.
  { simpl. replace (csub (icC (x 0%Z)) (icC (x 0%Z))) with c0 by ring. rewrite norm_0. lra. }
  cbn [fft_rec]. rewrite Nat2Z.inj_succ, Z.pow_succ_r in * by lia. set (n := (2 ^ Z.of_nat d)%Z) in *. assert (0 < n)%Z by (unfold n; lia).
  pose proof (Z.mod_pos_bound k n ltac:(done)) as Hj. set (j := (k mod n)%Z) in *.
  change (2 ^ S d) with (2 * 2 ^ d) in *. set (N := 2 ^ d) in *. assert (1 <= N) by (unfold N; apply pow_R1_Rle; lra).
  assert (0 <= b) as Hb0 by (pose proof (norm_pos (icC (x 0%Z))); pose proof (Hx 0%Z ltac:(lia)); lra).
  assert (forall i, (0 <= i < n)%Z -> norm (icC (x (2 * i)%Z)) <= b) as Hxe by (intros; apply Hx; lia).
  assert (forall i, (0 <= i < n)%Z -> norm (icC (x (2 * i + 1)%Z)) <= b) as Hxo by (intros; apply Hx; lia).
  pose proof (IH (fun i => x (2 * i)%Z) j ltac:(lia) Hj ltac:(nra) Hxe) as He. pose proof (IH (fun i => x (2 * i + 1)%Z) j ltac:(lia) Hj ltac:(nra) Hxo) as Ho.
  pose proof (exact_norm d (fun i => icC (x (2 * i)%Z)) j b ltac:(lia) Hj Hxe) as Ne. pose proof (exact_norm d (fun i => icC (x (2 * i + 1)%Z)) j b ltac:(lia) Hj Hxo) as No.
  cbv beta in *. set (e := fft_ic d (fun i => x (2 * i)%Z) j) in *. set (o := fft_ic d (fun i => x (2 * i + 1)%Z) j) in *.
  set (E := fft_exact d (fun i => icC (x (2 * i)%Z)) j) in *. set (O := fft_exact d (fun i => icC (x (2 * i + 1)%Z)) j) in *. fold N in Ne, No.
  set (u := (2 ^ Z.of_nat (10 - S d))%Z). destruct (pow_split d ltac:(lia)) as [_ Eu]. fold n u in Eu.
  pose proof (norm_near _ _ _ Ho) as Bo. pose proof (norm_near _ _ _ He) as Be.
  pose proof (mul_near (twiddle (u * j)) (omega (u * j)) o (twiddle_near (u * j) ltac:(nia)) (omega_norm _) ltac:(nra)) as Ht.
  set (t := icomplex32_mul (twiddle (u * j)) o) in *. set (W := omega (u * j)) in *.
  assert (norm (csub (icC t) (cmul W O)) <= 2 * (N - 1) + 2) as Hto.
  { pose proof (norm_via (icC t) (cmul W (icC o)) (cmul W O)) as Hv. replace (csub (cmul W (icC o)) (cmul W O)) with (cmul W (csub (icC o) O)) in Hv by ring.
    rewrite norm_mul in Hv. unfold W in Hv at 3. rewrite omega_norm in Hv. lra. }
  assert (norm (icC t) <= N * b + (2 * (N - 1) + 2)) as Bt.
  { pose proof (norm_near _ _ _ Hto) as Hn. rewrite norm_mul in Hn. unfold W in Hn at 1. rewrite omega_norm in Hn. lra. }
  pose proof (norm_add (icC e) (icC t)). pose proof (norm_sub (icC e) (icC t)). destruct (k <? n)%Z.
  - rewrite (add_exact e t (2 * N * (b + 2) - 2)) by nra.
    replace (csub (cadd (icC e) (icC t)) (cadd E (cmul W O))) with (cadd (csub (icC e) E) (csub (icC t) (cmul W O))) by ring.
    pose proof (norm_add (csub (icC e) E) (csub (icC t) (cmul W O))). lra.
  - rewrite (sub_exact e t (2 * N * (b + 2) - 2)) by nra.
    replace (csub (csub (icC e) (icC t)) (csub E (cmul W O))) with (csub (csub (icC e) E) (csub (icC t) (cmul W O))) by ring.
    pose proof (norm_sub (csub (icC e) E) (csub (icC t) (cmul W O))). lra.
Qed.

(** ** Executing a plan *)

Lemma dft_sub d x y k : csub (dft d x k) (dft d y k) = dft d (fun i => csub (x i) (y i)) k.
Proof.
  unfold dft. generalize (2 ^ d)%nat as n. induction n as [|n IH]; cbn [csum]; [ring|]. rewrite <- IH. ring.
Qed.

Lemma dft_scale d x k a : cmul a (dft d x k) = dft d (fun i => cmul a (x i)) k.
Proof. unfold dft. rewrite csum_scale. apply csum_ext. intros i _. ring. Qed.

Section execute.
Context (plan : fft_plan) (len : nat) (m : mem).
Notation N := (2 ^ len).
Notation inb := (pl_inb plan).
Notation outb := (pl_outb plan).

(** The signal that is transformed: the input buffer, but for its first element. *)
Definition signal (i : Z) : C := if (i =? 0)%Z then cmul (N, 0) (icC (get_ic m outb 0)) else icC (get_ic m inb i).

Lemma input_near i : norm (csub (icC (fft_input plan len m false i)) (cmul (/ N, 0) (signal i))) <= 17 / 12.
Proof.
  assert (0 < N) as HN by (apply pow_lt; lra). unfold fft_input, signal. destruct (i =? 0)%Z.
  - replace (csub _ _) with c0; [rewrite norm_0; lra|]. unfold csub, cmul, c0, icC. cbn [fst snd]. f_equal; field; lra.
  - unfold icomplex_shift. destruct (Z.gtb_spec (- Z.of_nat len) 0); [lia|]. rewrite Z.opp_involutive. unfold icC. cbn [ic_real ic_imag].
    rewrite !Z.shiftr_div_pow2 by lia. pose proof (floor_near (ic_real (get_ic m inb i)) (ic_imag (get_ic m inb i)) (2 ^ Z.of_nat len) ltac:(lia)) as Hf.
    rewrite <- pow_IZR in Hf. replace (cmul _ _) with (IZR (ic_real (get_ic m inb i)) / N, IZR (ic_imag (get_ic m inb i)) / N); [exact Hf|].
    unfold cmul. cbn [fst snd]. f_equal; field; lra.
Qed.

(** C20: Executing a plan for a forward transform computes the discrete Fourier
    transform, in natural order and divided by its length [N], of the signal whose
    element 0 is [N] times what the output buffer held at index 0 before the call
    and whose other elements are those of the input buffer, up to 3.5 units of the
    last place for each element of the signal; in particular nothing overflows.
    Element 0 of the input buffer is not used ([fft_drops_first]): the result is the
    transform of the input only if the caller has put its first element, divided by
    [N], into the output buffer. The elements may have any magnitude of up to 2^31
    but for the last 4 [N] units. *)
Theorem fft_execute_dft k :
  plan_ok m plan len -> (0 <= k < 2 ^ Z.of_nat len)%Z ->
  (forall i, (0 <= i < 2 ^ Z.of_nat len)%Z -> norm (signal i) <= 2147483648 - 4 * N) ->
  norm (csub (icC (get_ic (fft_execute (Some plan) false m) outb k)) (cmul (/ N, 0) (dft len signal k))) <= 7 / 2 * N.
Proof.
  intros P Hk Hs. assert (1 <= N) as HN by (apply pow_R1_Rle; lra). destruct (fft_forward plan len m P) as [Hf _].
  rewrite (Hf k Hk). pose proof (po_len _ _ _ P) as Hlen. set (x := fft_input plan len m false).
  assert (norm (/ N, 0) = / N) as Hi.
  { unfold norm. cbn [fst snd]. rewrite Rmult_0_l, Rplus_0_r. apply sqrt_square. left. apply Rinv_0_lt_compat. lra. }
  assert (N * / N = 1) as HI by (apply Rinv_r; lra).
  assert (forall i, (0 <= i < 2 ^ Z.of_nat len)%Z -> norm (icC (x i)) <= 2147483648 * / N - 2) as Hx.
  { intros i Hi'. pose proof (norm_near _ _ _ (input_near i)) as Hn. rewrite norm_mul, Hi in Hn. specialize (Hs i Hi').
    assert (/ N * norm (signal i) <= / N * (2147483648 - 4 * N)) by (apply Rmult_le_compat_l; [left; apply Rinv_0_lt_compat; lra|done]).
    fold x in Hn. nra. }
  pose proof (fft_error len x k (2147483648 * / N - 2) Hlen Hk ltac:(nra) Hx) as He. rewrite fft_exact_dft in He by done.
  pose proof (norm_via (icC (fft_ic len x k)) (dft len (fun i => icC (x i)) k) (cmul (/ N, 0) (dft len signal k))) as Hv.
  rewrite dft_scale, dft_sub in Hv. pose proof (dft_norm len (fun i => csub (icC (x i)) (cmul (/ N, 0) (signal i))) k (17 / 12) (fun i _ => input_near i)).
  rewrite dft_scale. lra.
Qed.
End execute.

Lemma demo_signal i : (0 <= i < 4)%Z -> norm (signal demo_plan 2 demo_fft_mem i) <= 2147483648 - 4 * 2 ^ 2.
Proof.
  intros Hi. assert (i = 0 \/ i = 1 \/ i = 2 \/ i = 3)%Z as [-> | [-> | [-> | ->]]] by lia; unfold signal; cbn [Z.eqb Pos.eqb].
  - replace (get_ic demo_fft_mem (pl_outb demo_plan) 0) with (mk_ic 0 0) by (vm_compute; reflexivity). apply norm_le; [lra|]. unfold cmul, icC. simpl. lra.
  - replace (get_ic demo_fft_mem (pl_inb demo_plan) 1) with (mk_ic 8000 0) by (vm_compute; reflexivity). apply norm_le; [lra|]. unfold icC. simpl. lra.
  - replace (get_ic demo_fft_mem (pl_inb demo_plan) 2) with (mk_ic (-4000) 0) by (vm_compute; reflexivity). apply norm_le; [lra|]. unfold icC. simpl. lra.
  - replace (get_ic demo_fft_mem (pl_inb demo_plan) 3) with (mk_ic 400 0) by (vm_compute; reflexivity). apply norm_le; [lra|]. unfold icC. simpl. lra.
Qed.

Lemma fft_execute_dft_witness :
  norm (csub (icC (get_ic (fft_execute (Some demo_plan) false demo_fft_mem) 300 1))
    (cmul (/ 2 ^ 2, 0) (dft 2 (signal demo_plan 2 demo_fft_mem) 1))) <= 7 / 2 * 2 ^ 2.
Proof. apply (fft_execute_dft demo_plan 2 demo_fft_mem 1 demo_plan_ok); [simpl; lia|exact demo_signal]. Defined.
