(* ===== verification/Maths.v ===== *)
(** * Mathematical functions in fixed point

    [math/sqrt_int16.c], [math/base2log.c], [math/log_e.c], [math/log_10.c],
    [math/power.c] and [math/decibels.c]. An index outside a table is [None]. *)

From stdpp Require Import base list numbers option.
From S2P Require Import Prelude Format.

(** ** Tables *)

(** [iv1] of [sqrt_int16]: square roots at 64/64 to 256/64, times 2^15 and more bits. *)
Definition sqrt_iv1 : list Z := [
  46341; 46702; 47059; 47415; 47767; 48117; 48465; 48809; 49152; 49492; 49830; 50166; 50499;
  50830; 51159; 51486; 51811; 52134; 52454; 52773; 53090; 53405; 53719; 54030; 54340; 54647;
  54954; 55258; 55561; 55862; 56162; 56459; 56756; 57051; 57344; 57636; 57926; 58215; 58503;
  58789; 59073; 59357; 59639; 59919; 60199; 60477; 60753; 61029; 61303; 61576; 61848; 62119;
  62388; 62657; 62924; 63190; 63455; 63719; 63982; 64243; 64504; 64763; 65022; 65279; 65536;
  65792; 66046; 66300; 66552; 66804; 67054; 67304; 67553; 67801; 68048; 68294; 68539; 68784;
  69027; 69270; 69511; 69752; 69992; 70232; 70470; 70708; 70945; 71181; 71416; 71651; 71885;
  72118; 72350; 72581; 72812; 73042; 73271; 73500; 73728; 73955; 74182; 74408; 74633; 74857;
  75081; 75304; 75527; 75748; 75969; 76190; 76410; 76629; 76848; 77066; 77283; 77500; 77716;
  77932; 78147; 78361; 78575; 78788; 79001; 79213; 79424; 79635; 79846; 80056; 80265; 80474;
  80682; 80890; 81097; 81303; 81509; 81715; 81920; 82125; 82329; 82532; 82735; 82938; 83140;
  83341; 83542; 83743; 83943; 84143; 84342; 84540; 84739; 84936; 85134; 85331; 85527; 85723;
  85918; 86113; 86308; 86502; 86696; 86889; 87082; 87275; 87467; 87658; 87849; 88040; 88231;
  88420; 88610; 88799; 88988; 89176; 89364; 89552; 89739; 89926; 90112; 90298; 90484; 90669;
  90854; 91038; 91222; 91406; 91589; 91772; 91955; 92137; 92319; 92501; 92682].

(** [iv] of [sqrt_int16] and of [base2_logarithm]: the leading zeros of a byte. *)
Definition leading_zeros : list Z := [
  8; 7; 6; 6; 5; 5; 5; 5; 4; 4; 4; 4; 4; 4; 4; 4; 3; 3; 3; 3; 3; 3; 3; 3; 3; 3; 3; 3; 3; 3; 3;
  3; 2; 2; 2; 2; 2; 2; 2; 2; 2; 2; 2; 2; 2; 2; 2; 2; 2; 2; 2; 2; 2; 2; 2; 2; 2; 2; 2; 2; 2; 2;
  2; 2; 1; 1; 1; 1; 1; 1; 1; 1; 1; 1; 1; 1; 1; 1; 1; 1; 1; 1; 1; 1; 1; 1; 1; 1; 1; 1; 1; 1; 1;
  1; 1; 1; 1; 1; 1; 1; 1; 1; 1; 1; 1; 1; 1; 1; 1; 1; 1; 1; 1; 1; 1; 1; 1; 1; 1; 1; 1; 1; 1; 1;
  1; 1; 1; 1; 0; 0; 0; 0; 0; 0; 0; 0; 0; 0; 0; 0; 0; 0; 0; 0; 0; 0; 0; 0; 0; 0; 0; 0; 0; 0; 0;
  0; 0; 0; 0; 0; 0; 0; 0; 0; 0; 0; 0; 0; 0; 0; 0; 0; 0; 0; 0; 0; 0; 0; 0; 0; 0; 0; 0; 0; 0; 0;
  0; 0; 0; 0; 0; 0; 0; 0; 0; 0; 0; 0; 0; 0; 0; 0; 0; 0; 0; 0; 0; 0; 0; 0; 0; 0; 0; 0; 0; 0; 0;
  0; 0; 0; 0; 0; 0; 0; 0; 0; 0; 0; 0; 0; 0; 0; 0; 0; 0; 0; 0; 0; 0; 0; 0; 0; 0; 0; 0; 0; 0; 0;
  0; 0; 0; 0; 0; 0; 0; 0].

(** [iv1] of [base2_logarithm]: logarithms of 1 + i / 128, times 2^16. *)
Definition log2_iv1 : list Z := [
  0; 736; 1466; 2190; 2909; 3623; 4331; 5034; 5732; 6425; 7112; 7795; 8473; 9146; 9814; 10477;
  11136; 11791; 12440; 13086; 13727; 14363; 14996; 15624; 16248; 16868; 17484; 18096; 18704;
  19308; 19909; 20505; 21098; 21687; 22272; 22854; 23433; 24007; 24579; 25146; 25711; 26272;
  26830; 27384; 27936; 28484; 29029; 29571; 30109; 30645; 31178; 31707; 32234; 32758; 33279;
  33797; 34312; 34825; 35334; 35841; 36346; 36847; 37346; 37842; 38336; 38827; 39316; 39802;
  40286; 40767; 41246; 41722; 42196; 42667; 43137; 43603; 44068; 44530; 44990; 45448; 45904;
  46357; 46809; 47258; 47705; 48150; 48593; 49034; 49472; 49909; 50344; 50776; 51207; 51636;
  52063; 52488; 52911; 53332; 53751; 54169; 54584; 54998; 55410; 55820; 56229; 56635; 57040;
  57443; 57845; 58245; 58643; 59039; 59434; 59827; 60219; 60609; 60997; 61384; 61769; 62152;
  62534; 62915; 63294; 63671; 64047; 64421; 64794; 65166; 65536].

(** The angles atan (2^-i), times 2^30. *)
Definition cordic_lookup : list Z := [
  843314857; 497837829; 263043837; 133525159; 67021687; 33543516; 16775851; 8388437; 4194283;
  2097149; 1048576; 524288; 262144; 131072; 65536; 32768; 16384; 8192; 4096; 2048; 1024; 512;
  256; 128; 64; 32; 16; 8; 4; 2; 1].

(** The angles 2 atan (2^-(i + 1)), times 2^29. *)
Definition cordic_ilookup : list Z := [
  497837829; 263043836; 133525158; 67021686; 33543515; 16775850; 8388437; 4194282; 2097149;
  1048575; 524287; 262143; 131071; 65535; 32767; 16383; 8191; 4095; 2047; 1023; 511; 255; 127;
  63; 31; 15; 8; 4; 2; 1].

(** The element of a table; indices are not negative. *)
Definition table_at (table : list Z) (i : Z) : option Z := if i <? 0 then None else table !! Z.to_nat i.

(** ** The square root

    [u] is a Q4.12 number, and so is the result. *)

Definition sqrt_int16 (u : Z) : option Z :=
  if u =? 0 then Some 0 else
  shift_factor ← table_at leading_zeros (Z.shiftr u 8);
  let v := u16 (Z.shiftl u shift_factor) in
  let num_left_shifts := shift_factor in
  shift_factor ← table_at leading_zeros (Z.shiftr v 8);
  let num_left_shifts := num_left_shifts + shift_factor in
  let xfi_tmp := Z.land (3 - num_left_shifts) 1 in
  let v := u16 (Z.shiftr (Z.shiftl v shift_factor) xfi_tmp) in
  let slice_temp := Z.land 255 (Z.shiftr v 8) in
  a_i ← table_at sqrt_iv1 (Z.shiftr v 8 - 63 - 1);
  let a_i := i32 (Z.shiftl a_i 8) in
  l1_i ← table_at sqrt_iv1 (Z.land 255 (u32 (slice_temp + 194 - 1)));
  l2_i ← table_at sqrt_iv1 (u32 (slice_temp - 63 - 1));
  let y := i32 (a_i + Z.land v 255 * (l1_i - l2_i)) in
  let xfi := Z.shiftr (xfi_tmp - num_left_shifts + 3) 1 in
  let y := if negb (xfi =? 0)
           then if xfi >? 0 then i32 (Z.shiftl y (if xfi >=? 32 then 0 else xfi)) else Z.shiftr y (- xfi)
           else y in
  Some (u16 (Z.shiftr (Z.shiftr y 11 + 1) 1)).

(** ** Logarithms *)

(** To base 2 of an integer [u]; the result is Q16.16. *)
Definition base2_logarithm (u : Z) : option Z :=
  shift_factor ← table_at leading_zeros (Z.shiftr u 24);
  let v := u64 (Z.shiftl u shift_factor) in
  let num_left_shifts := shift_factor in
  shift_factor ← table_at leading_zeros (Z.shiftr v 24);
  let v := u64 (Z.shiftl v shift_factor) in
  let num_left_shifts := num_left_shifts + shift_factor in
  shift_factor ← table_at leading_zeros (Z.shiftr v 24);
  let v := u64 (Z.shiftl v shift_factor) in
  let num_left_shifts := num_left_shifts + shift_factor in
  shift_factor ← table_at leading_zeros (Z.shiftr v 24);
  let num_left_shifts := num_left_shifts + shift_factor in
  let x := u32 (Z.shiftl (u32 v) shift_factor) in
  let slice_temp := u32 (Z.shiftr (u64 (Z.shiftl v shift_factor)) 24) in
  let a_i := i32 (Z.shiftl (31 - num_left_shifts) 16) in
  l1_i ← table_at log2_iv1 (u32 (Z.land 255 (Z.shiftr x 24 + 129) - 1));
  let s_v := i32 (a_i + l1_i) in
  l2_i ← table_at log2_iv1 (u32 (Z.land 255 (u32 (slice_temp + 130)) - 1));
  l3_i ← table_at log2_iv1 (u32 (slice_temp - 127 - 1));
  Some (i32 (s_v + Z.shiftr (i64 (Z.land x 16777215 * (l2_i - l3_i))) 24)).

(** The constants are 1 / log2 (e) and 1 / log2 (10) times 2^43; the products are
    unsigned. The results are UQ5.27 and UQ4.28. *)
Abbreviation ONE_OVER_LOG2_E := 6096987078286 (only parsing).
Abbreviation ONE_OVER_LOG2_10 := 2647887844335 (only parsing).

Definition ln_int32 (numerator : Z) : option Z :=
  l ← base2_logarithm numerator;
  Some (u32 (Q_SHIFT_RND (u64 (l * ONE_OVER_LOG2_E)) 64 32)).

Definition log10_int32 (numerator : Z) : option Z :=
  l ← base2_logarithm numerator;
  Some (u32 (Q_SHIFT_RND (u64 (l * ONE_OVER_LOG2_10)) 63 32)).

(** ** Powers with a whole exponent

    [b] is Q7.25, [e] is Q3.29 and the result Q17.15. *)

Abbreviation POWER_MAX_LIMIT := 32768 (only parsing).

Fixpoint power_loop (n : nat) (p multiplier : Z) : Z :=
  match n with
  | O => p
  | S n => power_loop n (sat_int32 (Z.shiftr (Z.shiftr (p * multiplier) 24 + 1) 1)) multiplier
  end.

Definition power_int32 (b e : Z) : Z :=
  let '(multiplier, e) :=
    if e <? 0 then (if negb (b =? 0) then i32 (Z.quot (Z.shiftl 1 50) b) else INT32_MAX, i32 (- e)) else (b, e) in
  power_loop (Z.to_nat (Z.shiftr e 29)) POWER_MAX_LIMIT multiplier.

(** ** Exponential function and decibels

    The constants are those that [Q_CONVERT_FLOAT] gives; it rounds negative numbers up. *)

Abbreviation ONE_Q20 := 1048576 (only parsing).
Abbreviation ONE_Q23 := 8388608 (only parsing).
Abbreviation TWO_Q27 := 268435456 (only parsing).
Abbreviation MINUS_TWO_Q27 := (-268435455) (only parsing).
Abbreviation LOG10_DIV20_Q27 := 15452387 (only parsing).

Definition Q_MULTSR_32X32 (px py qx qy qp : Z) : Z := Z.shiftr (Z.shiftr (i64 (px * py)) (qx + qy - qp - 1) + 1) 1.

(** The terms [k] to [k + n - 1] of the series. *)
Fixpoint exp_terms (n : nat) (k num y0 den x : Z) : Z :=
  match n with
  | O => y0
  | S n =>
      let p := i64 (num * x) in
      let num := Q_SHIFT_RND p 52 23 in
      let den := i32 (den * k) in
      let inc := i32 (Z.quot num den) in
      exp_terms n (k + 1) num (i32 (y0 + inc)) den x
  end.

(** From Q3.29 to Q9.23. *)
Definition exp_small_fixed (x : Z) : Z :=
  let num := Q_SHIFT_RND x 29 23 in
  i32 (exp_terms 10 2 num (i32 num) 1 x + ONE_Q23).

(** Halve [xs] until it is between -2 and 2; [None] is missing fuel. *)
Fixpoint exp_halve (fuel : nat) (xs n : Z) : option (Z * Z) :=
  match fuel with
  | O => None
  | S fuel =>
      if (xs >=? TWO_Q27) || (xs <=? MINUS_TWO_Q27) then exp_halve fuel (Z.shiftr xs 1) (n + 1) else Some (xs, n)
  end.

Fixpoint exp_power (n : nat) (y y0 : Z) : Z :=
  match n with
  | O => y
  | S n => exp_power n (i32 (Q_MULTSR_32X32 y y0 20 20 20)) y0
  end.

(** From Q5.27 to Q12.20. *)
Definition exp_fixed (x : Z) : option Z :=
  if x <? -1543503871 then Some 0 else
  if x >? 1023343067 then Some INT32_MAX else
  '(xs, n) ← exp_halve 5 x 0;
  let y0 := Q_SHIFT_RND (exp_small_fixed (i32 (Z.shiftl xs 2))) 23 20 in
  Some (exp_power (Z.to_nat (Z.shiftl 1 n)) ONE_Q20 y0).

(** From Q8.24 to Q12.20. *)
Definition db2lin_fixed (db : Z) : option Z :=
  if db <? -1677721599 then Some 0 else
  exp_fixed (i32 (Q_MULTSR_32X32 db LOG10_DIV20_Q27 24 27 27)).

(** 2.0 and its square root, 1000 and its logarithms, 2.0 to the powers 3 and -2, e and
    -6 dB, which is 0.50118. *)
Example maths_run :
  sqrt_int16 8192 = Some 5793 /\ base2_logarithm 1000 = Some 653118 /\ ln_int32 1000 = Some 927143732 /\
  log10_int32 1000 = Some 805306813 /\ power_int32 67108864 1610612736 = 262144 /\ power_int32 67108864 (-1073741824) = 8192 /\
  exp_fixed 134217728 = Some 2850325 /\ db2lin_fixed (-100663296) = Some 525533.
Proof. vm_compute. split_and!; reflexivity. Qed.
