(* ===== verification/MathThms.v ===== *)
(** * The square root and the tables

    Normalisation by the table of leading zeros, which the square root and the logarithm
    share, and the error of the square root. *)

From stdpp Require Import base list numbers option.
From S2P Require Import Prelude Format Maths.

(** ** Tables *)

(** A test of all indices below [n]. *)
Definition all_below (n : nat) (f : Z -> bool) : bool := forallb (fun i => f (Z.of_nat i)) (seq 0 n).

Lemma all_below_spec n f i : all_below n f = true -> 0 <= i < Z.of_nat n -> f i = true.
Proof.
  unfold all_below. rewrite forallb_forall. intros H Hi. specialize (H (Z.to_nat i)). rewrite Z2Nat.id in H by lia.
  apply H, in_seq. lia.
Qed.

Lemma table_nth table i : 0 <= i < Z.of_nat (length table) -> table_at table i = Some (nth (Z.to_nat i) table 0).
Proof.
  intros Hi. unfold table_at. rewrite (proj2 (Z.ltb_ge _ _)) by lia. destruct (lookup_lt_is_Some_2 table (Z.to_nat i)) as [x E]; [lia|].
  rewrite E. f_equal. by rewrite (nth_lookup_Some _ _ 0 _ E).
Qed.

(** ** Normalisation *)

Definition zeros_ok (b : Z) : bool :=
  let z := nth (Z.to_nat b) leading_zeros 0 in
  (0 <=? z) && (if b =? 0 then z =? 8 else (z <=? 7) && (128 <=? b * 2 ^ z) && ((b + 1) * 2 ^ z <=? 256)).

Lemma zeros_checked : all_below 256 zeros_ok = true.
Proof. vm_compute. reflexivity. Qed.

(** One step: the leading zeros of the upper byte of a number of [8 + s] bits. *)
Lemma zeros_step s v : 0 <= s -> 0 < v < 2 ^ (8 + s) ->
  exists z, table_at leading_zeros (Z.shiftr v s) = Some z /\ 0 <= z <= 8 /\ Z.shiftl v z < 2 ^ (8 + s) /\
    (2 ^ (7 + s) <= Z.shiftl v z \/ z = 8 /\ v < 2 ^ s) /\ (2 ^ (7 + s) <= v -> z = 0).
Proof.
  intros Hs Hv. rewrite Z.shiftr_div_pow2 by done. rewrite !Z.pow_add_r in * by lia. set (S := 2 ^ s) in *.
  assert (0 < S) by (unfold S; lia). change (2 ^ 8) with 256 in *. change (2 ^ 7) with 128 in *. set (b := v / S).
  assert (0 <= b < 256) as Hb by (unfold b; split; [apply Z.div_pos; lia|apply Z.div_lt_upper_bound; lia]).
  pose proof (Z.mul_div_le v S ltac:(done)) as L1. pose proof (Z.mul_succ_div_gt v S ltac:(done)) as L2. fold b in L1, L2.
  pose proof (all_below_spec 256 zeros_ok b zeros_checked ltac:(lia)) as C. unfold zeros_ok in C.
  exists (nth (Z.to_nat b) leading_zeros 0). split; [apply table_nth; change (length leading_zeros) with 256%nat; lia|].
  set (z := nth (Z.to_nat b) leading_zeros 0) in *. destruct (Z.eqb_spec b 0) as [E|Hne]; zbool.
  - subst z. rewrite H1, E in *. rewrite Z.shiftl_mul_pow2 by lia. change (2 ^ 8) with 256. split_and!; [lia|lia|nia|right; lia|nia].
  - assert (0 <= z) by lia. rewrite Z.shiftl_mul_pow2 by lia. set (P := 2 ^ z) in *. assert (1 <= P) by (unfold P; pose proof (Z.pow_pos_nonneg 2 z); lia).
    split_and!; [lia|lia|nia|left; nia|]. intros Hbig. assert (128 <= b) by nia. assert (P < 2) by nia.
    destruct (Z.eq_dec z 0) as [|Hz]; [done|]. pose proof (Z.pow_le_mono_r 2 1 z ltac:(lia) ltac:(lia)). unfold P in *. lia.
Qed.

(** ** The square root *)

Definition sqrt_T (i : Z) : Z := nth (Z.to_nat i) sqrt_iv1 0.

(** Interpolation in the table, for [v] of 16 bits from [2^14] on. *)
Definition sqrt_interp (v : Z) : Z :=
  let a := v / 256 - 64 in 256 * sqrt_T a + v mod 256 * (sqrt_T (a + 1) - sqrt_T a).

(** The interpolation is at most [E] away from [2^16.5 sqrt v]. On a segment the squares
    of the lower line are below the values at both ends, and the upper line does not meet
    the curve. *)
Abbreviation E := 300 (only parsing).

Definition segment_ok (i : Z) : bool :=
  let a := i + 64 in let A := 256 * sqrt_T i in let d := sqrt_T (i + 1) - sqrt_T i in
  (46341 <=? sqrt_T i) && (sqrt_T i <=? 92682) && (0 <=? d) && (d <=? 400) &&
  ((A - E) * (A - E) <=? 2 ^ 41 * a) && ((A + 256 * d - E) * (A + 256 * d - E) <=? 2 ^ 41 * (a + 1)) &&
  (2 ^ 33 + 1024 * d * d * a <=? 4 * d * (A + E)).

Lemma segments_checked : all_below 192 segment_ok = true.
Proof. vm_compute. reflexivity. Qed.

(** A line between the ends of a segment, and one that does not meet the curve. *)
Lemma chord_below p d a r : 0 <= r <= 256 -> p * p <= 2 ^ 41 * a -> (p + 256 * d) * (p + 256 * d) <= 2 ^ 41 * (a + 1) ->
  (p + r * d) * (p + r * d) <= 2 ^ 33 * (256 * a + r).
Proof.
  intros Hr H1 H2. assert (256 * ((p + r * d) * (p + r * d)) + 256 * (d * d) * (r * (256 - r)) = (256 - r) * (p * p) + r * ((p + 256 * d) * (p + 256 * d))) by ring.
  assert (0 <= d * d * (r * (256 - r))) by (apply Z.mul_nonneg_nonneg; nia). change (2 ^ 41) with (256 * 2 ^ 33) in *. nia.
Qed.

Lemma tangent_above b d a r : 0 < d -> 2 ^ 33 + 1024 * d * d * a <= 4 * d * b -> 2 ^ 33 * (256 * a + r) <= (b + r * d) * (b + r * d).
Proof.
  intros Hd H. set (w := b + r * d). assert (0 <= (2 * d * w - 2 ^ 33) * (2 * d * w - 2 ^ 33)) by apply Z.square_nonneg.
  assert (4 * d * d * (2 ^ 33 * (256 * a + r)) = 2 ^ 33 * (1024 * d * d * a) + 4 * d * 2 ^ 33 * (w - b)) as Er by (unfold w; ring).
  apply (Z.mul_le_mono_pos_l _ _ (4 * d * d)); [nia|]. nia.
Qed.

Lemma interp_near v : 2 ^ 14 <= v < 2 ^ 16 ->
  let Y := sqrt_interp v in 256 * 46341 <= Y <= 2 ^ 25 /\ (Y - E) * (Y - E) <= 2 ^ 33 * v <= (Y + E) * (Y + E).
Proof.
  intros Hv. unfold sqrt_interp. set (i := v / 256 - 64). set (r := v mod 256).
  pose proof (Z.div_mod v 256 ltac:(lia)) as Ev. pose proof (Z.mod_pos_bound v 256 ltac:(lia)) as Hr. fold r in Ev, Hr.
  assert (v = 256 * (i + 64) + r) as Ev' by (unfold i; lia). assert (0 <= i < 192) as Hi by lia.
  pose proof (all_below_spec 192 segment_ok i segments_checked ltac:(lia)) as C. unfold segment_ok in C. zbool.
  set (A := 256 * sqrt_T i) in *. set (d := sqrt_T (i + 1) - sqrt_T i) in *.
  pose proof (chord_below (A - E) d (i + 64) r ltac:(lia) ltac:(lia)) as L1. pose proof (tangent_above (A + E) d (i + 64) r) as L2.
  assert (0 < d) by nia. replace (A + r * d - E) with (A - E + r * d) by ring. replace (A + r * d + E) with (A + E + r * d) by ring.
  rewrite Ev'. split_and!; [nia|nia|apply L1; replace (A - E + 256 * d) with (A + 256 * d - E) by ring; lia|apply L2; lia].
Qed.

(** The input shifted so that its highest bit is 1. *)
Lemma sqrt_normal u : 0 < u < 2 ^ 16 ->
  exists n, 0 <= n <= 15 /\ 2 ^ 15 <= u * 2 ^ n < 2 ^ 16 /\
    let t := Z.land (3 - n) 1 in let v := Z.shiftr (u * 2 ^ n) t in let xfi := Z.shiftr (t - n + 3) 1 in
    let Y := sqrt_interp v in
    sqrt_int16 u = Some (u16 (Z.shiftr (Z.shiftr (if xfi >? 0 then i32 (Z.shiftl Y xfi) else Z.shiftr Y (- xfi)) 11 + 1) 1)).
Proof.
  intros Hu. destruct (zeros_step 8 u ltac:(lia) ltac:(simpl; lia)) as (z1 & E1 & Hz1 & L1 & N1 & _).
  change (2 ^ (8 + 8)) with (2 ^ 16) in *. change (2 ^ (7 + 8)) with (2 ^ 15) in *. rewrite Z.shiftl_mul_pow2 in L1, N1 by lia.
  assert (0 < u * 2 ^ z1) as P1 by (apply Z.mul_pos_pos; [|apply Z.pow_pos_nonneg]; lia).
  destruct (zeros_step 8 (u * 2 ^ z1) ltac:(lia) ltac:(simpl in *; lia)) as (z2 & E2 & Hz2 & L2 & N2 & I2).
  change (2 ^ (8 + 8)) with (2 ^ 16) in *. change (2 ^ (7 + 8)) with (2 ^ 15) in *. rewrite Z.shiftl_mul_pow2 in L2, N2 by lia.
  rewrite <- Z.mul_assoc, <- Z.pow_add_r in L2, N2 by lia.
  assert (2 ^ 15 <= u * 2 ^ (z1 + z2)) as N.
  { destruct N1 as [N1|[-> N1]]; [rewrite (I2 N1), Z.add_0_r; lia|]. destruct N2 as [N2|[-> N2]]; [done|]. change (2 ^ 8) with 256 in *. lia. }
  set (n := z1 + z2) in *. assert (n <= 15) as Hn.
  { destruct (Z.le_gt_cases n 15) as [|Hn]; [done|]. pose proof (Z.pow_le_mono_r 2 16 n ltac:(lia) ltac:(lia)). nia. }
  exists n. split; [lia|]. split; [lia|]. cbv zeta. unfold sqrt_int16. rewrite (proj2 (Z.eqb_neq _ _)) by lia.
  rewrite E1. cbn [mbind option_bind]. rewrite (Z.shiftl_mul_pow2 u), (u16_small (u * 2 ^ z1)), E2 by lia. cbn [mbind option_bind].
  rewrite Z.shiftl_mul_pow2, <- Z.mul_assoc, <- Z.pow_add_r by lia. fold n. set (x := u * 2 ^ n) in *. set (t := Z.land (3 - n) 1).
  assert (t = 0 \/ t = 1) as Ht by (unfold t; rewrite (Z.land_ones _ 1) by lia; pose proof (Z.mod_pos_bound (3 - n) (2 ^ 1)); lia).
  assert (2 ^ 14 <= Z.shiftr x t < 2 ^ 16) as Hv by (destruct Ht as [-> | ->]; rewrite Z.shiftr_div_pow2 by lia; [rewrite Z.div_1_r; lia|change (2 ^ 1) with 2; mlia]).
  set (v := Z.shiftr x t) in *. rewrite (u16_small v) by lia. rewrite (Z.shiftr_div_pow2 v 8) by lia. change (2 ^ 8) with 256.
  set (a := v / 256) in *. assert (64 <= a < 256) as Ha by (unfold a; mlia).
  rewrite (Z.land_comm 255 a), (Z.land_comm 255 (u32 _)), !(Z.land_ones _ 8) by lia. change (2 ^ 8) with 256.
  rewrite (Z.mod_small a 256), (u32_small (a + 194 - 1)), (u32_small (a - 63 - 1)) by lia.
  replace ((a + 194 - 1) mod 256) with (a - 64 + 1) by (replace (a + 194 - 1) with (a - 63 + 1 * 256) by lia; rewrite Z.mod_add, Z.mod_small by lia; lia).
  replace (a - 63 - 1) with (a - 64) by lia. rewrite !table_nth by (change (length sqrt_iv1) with 193%nat; lia). cbn [mbind option_bind].
  fold (sqrt_T (a - 64)) (sqrt_T (a - 64 + 1)). destruct (interp_near v Hv) as [HY _].
  pose proof (all_below_spec 192 segment_ok (a - 64) segments_checked ltac:(lia)) as C. unfold segment_ok in C. zbool.
  replace (i32 (Z.shiftl (sqrt_T (a - 64)) 8)) with (256 * sqrt_T (a - 64))
    by (rewrite Z.shiftl_mul_pow2 by lia; change (2 ^ 8) with 256; rewrite i32_small; lia).
  change (256 * sqrt_T (a - 64) + v mod 256 * (sqrt_T (a - 64 + 1) - sqrt_T (a - 64))) with (sqrt_interp v). rewrite (i32_small (sqrt_interp v)) by lia. f_equal. f_equal. f_equal. f_equal. f_equal.
  set (xfi := Z.shiftr (t - n + 3) 1). assert (xfi < 32) by (unfold xfi; rewrite Z.shiftr_div_pow2 by lia; change (2 ^ 1) with 2; mlia).
  destruct (Z.eqb_spec xfi 0) as [->|]; [cbn; by rewrite Z.shiftr_0_r|]. cbn [negb]. by rewrite Z.geb_leb, (proj2 (Z.leb_gt 32 xfi)) by lia.
Qed.

(** [Y] scaled by [xfi] and rounded to 12 bits less. *)
Lemma scale_round Y xfi : 0 <= Y <= 2 ^ 25 -> -6 <= xfi <= 2 ->
  Z.shiftr (Z.shiftr (if xfi >? 0 then i32 (Z.shiftl Y xfi) else Z.shiftr Y (- xfi)) 11 + 1) 1 = nearest Y (12 - xfi).
Proof.
  intros HY Hx. assert (xfi = 1 \/ xfi = 2 \/ xfi <= 0) as [-> | [-> |Hle]] by lia.
  - change (1 >? 0) with true. cbv iota. rewrite (shift_round _ 12) by lia. rewrite Z.shiftl_mul_pow2, i32_small by lia. unfold nearest. simpl. mlia.
  - change (2 >? 0) with true. cbv iota. rewrite (shift_round _ 12) by lia. rewrite Z.shiftl_mul_pow2, i32_small by lia. unfold nearest. simpl. mlia.
  - rewrite Z.gtb_ltb, (proj2 (Z.ltb_ge _ _)) by lia. rewrite Z.shiftr_shiftr by lia.
    replace (- xfi + 11) with (12 - xfi - 1) by lia. apply shift_round. lia.
Qed.

Lemma rounding_near Y X k : 10 <= k <= 18 -> 256 * 46341 <= Y <= 2 ^ 25 ->
  (Y - E) * (Y - E) <= X -> X <= (Y + E) * (Y + E) + 2 ^ 32 ->
  let y := nearest Y k in 1 <= y /\ (y - 1) * (y - 1) * 2 ^ (2 * k) < X < (y + 1) * (y + 1) * 2 ^ (2 * k).
Proof.
  intros Hk HY H1 H2 y. pose proof (nearest_bounds Y k ltac:(lia)) as [B1 B2]. fold y in B1, B2.
  replace (2 ^ (2 * k)) with (2 ^ k * 2 ^ k) by (rewrite <- Z.pow_add_r by lia; f_equal; lia).
  assert (2 ^ k = 2 * 2 ^ (k - 1)) as Ek by (replace k with (1 + (k - 1)) at 1 by lia; by rewrite Z.pow_add_r by lia).
  assert (512 <= 2 ^ (k - 1) <= 131072) as Hh by (split; [change 512 with (2 ^ 9)|change 131072 with (2 ^ 17)]; apply Z.pow_le_mono_r; lia).
  rewrite Ek in *. set (h := 2 ^ (k - 1)) in *. assert (1 <= y) by nia. split; [done|].
  assert (0 <= 2 * h * (y - 1) < Y - E) by nia. assert (Y + h <= 2 * h * (y + 1)) by nia. split.
  - apply Z.lt_le_trans with ((Y - E) * (Y - E)); [|done].
    replace ((y - 1) * (y - 1) * (2 * h * (2 * h))) with ((2 * h * (y - 1)) * (2 * h * (y - 1))) by ring. nia.
  - apply Z.le_lt_trans with ((Y + E) * (Y + E) + 2 ^ 32); [done|].
    replace ((y + 1) * (y + 1) * (2 * h * (2 * h))) with ((2 * h * (y + 1)) * (2 * h * (y + 1))) by ring.
    apply Z.lt_le_trans with ((Y + h) * (Y + h)); [|nia]. assert ((Y + 512) * (Y + 512) <= (Y + h) * (Y + h)) by nia. nia.
Qed.

(** The square root returns for every input, 0 for 0, and its result is less than one
    unit away from the root of the Q4.12 number [u]: with [y / 4096] for the result,
    [y] is next to the square root of [4096 u]. *)
Theorem sqrt_int16_near u : 0 <= u < 2 ^ 16 ->
  exists y, sqrt_int16 u = Some y /\ 0 <= y <= 2 ^ 14 /\
    (u = 0 -> y = 0) /\ (0 < u -> 1 <= y /\ (y - 1) * (y - 1) < 4096 * u < (y + 1) * (y + 1)).
Proof.
  intros Hu. destruct (Z.eq_dec u 0) as [->|Hne]; [exists 0; split_and!; [done|lia..]|].
  destruct (sqrt_normal u ltac:(lia)) as (n & Hn & Hx & Es). cbv zeta in Es. set (t := Z.land (3 - n) 1) in *.
  assert (t = (3 - n) mod 2) as Et by (unfold t; by rewrite (Z.land_ones _ 1)).
  set (v := Z.shiftr (u * 2 ^ n) t) in *. set (xfi := Z.shiftr (t - n + 3) 1) in *.
  assert (2 * xfi = t - n + 3) as Ex by (unfold xfi; rewrite Z.shiftr_div_pow2 by lia; change (2 ^ 1) with 2; rewrite Et; mlia).
  assert (t = 0 \/ t = 1) as Ht by (rewrite Et; mlia).
  assert (u * 2 ^ n - (2 ^ t - 1) <= 2 ^ t * v <= u * 2 ^ n) as Hv.
  { unfold v. rewrite Z.shiftr_div_pow2 by lia. destruct Ht as [-> | ->]; [rewrite Z.div_1_r; lia|change (2 ^ 1) with 2; mlia]. }
  assert (2 ^ 14 <= v < 2 ^ 16) as Hv2 by (destruct Ht as [E0 | E0]; rewrite E0 in Hv; simpl in *; lia).
  destruct (interp_near v Hv2) as (HY & L1 & L2). rewrite scale_round in Es by lia.
  set (k := 12 - xfi) in *. assert (4096 * u * 2 ^ (2 * k) = 2 ^ (33 - t) * (u * 2 ^ n)) as EX.
  { change 4096 with (2 ^ 12). replace (2 ^ (2 * k)) with (2 ^ (21 - t) * 2 ^ n) by (rewrite <- Z.pow_add_r by lia; f_equal; lia).
    replace (33 - t) with (12 + (21 - t)) by lia. rewrite (Z.pow_add_r 2 12 (21 - t)) by lia. ring. }
  destruct (rounding_near (sqrt_interp v) (4096 * u * 2 ^ (2 * k)) k ltac:(lia) HY) as (Hy & B1 & B2).
  { rewrite EX. destruct Ht as [E0 | E0]; rewrite E0 in *; simpl in *; lia. }
  { rewrite EX. destruct Ht as [E0 | E0]; rewrite E0 in *; simpl in *; lia. }
  cbv zeta in Hy, B1, B2. set (y := nearest (sqrt_interp v) k) in *.
  apply Z.mul_lt_mono_pos_r in B1; [|apply Z.pow_pos_nonneg; lia]. apply Z.mul_lt_mono_pos_r in B2; [|apply Z.pow_pos_nonneg; lia].
  assert (y <= 2 ^ 14) by nia. exists y. rewrite Es, u16_small by lia. split_and!; [done|lia..].
Qed.

Lemma sqrt_int16_near_witness : exists y, sqrt_int16 50000 = Some y /\ 0 <= y <= 2 ^ 14 /\
  (50000 = 0 -> y = 0) /\ (0 < 50000 -> 1 <= y /\ (y - 1) * (y - 1) < 4096 * 50000 < (y + 1) * (y + 1)).
Proof. apply (sqrt_int16_near 50000). lia. Defined.
