(* ===== verification/LogThms.v ===== *)
(** * Logarithms

    [base2_logarithm], [ln_int32] and [log10_int32] against the logarithms of the real
    numbers: the table is rounded correctly, and interpolation and rounding together stay
    within a few units of the last place. *)

From Stdlib Require Import Reals Lra Lia QArith Qreals.
From stdpp Require Import base list numbers option.
From S2P Require Import Prelude Format Maths MathThms RealBounds.

Local Open Scope Z_scope.
Local Close Scope Q_scope.

(** ** The steps of the code *)

Definition log2_T (i : Z) : Z := nth (Z.to_nat i) log2_iv1 0.

(** The fraction of the logarithm of [x / 2^31]. *)
Definition log2_interp (x : Z) : Z :=
  let i := x / 2 ^ 24 - 128 in log2_T i + x mod 2 ^ 24 * (log2_T (i + 1) - log2_T i) / 2 ^ 24.

Definition log2_steps_ok (i : Z) : bool :=
  let d := log2_T (i + 1) - log2_T i in (0 <=? log2_T i) && (log2_T i <=? 65536) && (0 <=? d) && (d <=? 1000).

Lemma log2_steps : all_below 128 log2_steps_ok = true.
Proof. vm_compute. reflexivity. Qed.

Lemma u64_small x : 0 <= x < 2 ^ 64 -> u64 x = x.
Proof. intros. unfold u64. apply Z.mod_small. lia. Qed.

(** Shifting out the leading zeros of a byte, once more. *)
Lemma zeros_again u n : 0 < u -> 0 <= n -> u * 2 ^ n < 2 ^ 32 ->
  exists z, table_at leading_zeros (Z.shiftr (u * 2 ^ n) 24) = Some z /\ 0 <= z <= 8 /\
    Z.shiftl (u * 2 ^ n) z = u * 2 ^ (n + z) /\ u * 2 ^ (n + z) < 2 ^ 32 /\
    (2 ^ 31 <= u * 2 ^ (n + z) \/ z = 8 /\ u * 2 ^ n < 2 ^ 24).
Proof.
  intros Hu Hn Hl. assert (0 < u * 2 ^ n) as Hp by (apply Z.mul_pos_pos; [|apply Z.pow_pos_nonneg]; lia).
  destruct (zeros_step 24 (u * 2 ^ n) ltac:(lia) ltac:(simpl in *; lia)) as (z & E & Hz & L & N & _).
  change (2 ^ (8 + 24)) with (2 ^ 32) in *. change (2 ^ (7 + 24)) with (2 ^ 31) in *.
  assert (Z.shiftl (u * 2 ^ n) z = u * 2 ^ (n + z)) as Es by (rewrite Z.shiftl_mul_pow2, <- Z.mul_assoc, <- Z.pow_add_r by lia; done).
  rewrite Es in *. exists z. split_and!; [done|lia|lia|done|done|done].
Qed.

Lemma log2_normal u : 0 < u < 2 ^ 32 ->
  exists n, 0 <= n <= 31 /\ 2 ^ 31 <= u * 2 ^ n < 2 ^ 32 /\ base2_logarithm u = Some ((31 - n) * 65536 + log2_interp (u * 2 ^ n)).
Proof.
  intros Hu. destruct (zeros_again u 0) as (z1 & E1 & Hz1 & S1 & L1 & N1); [lia..|]. rewrite Z.pow_0_r, Z.mul_1_r, Z.add_0_l in *.
  destruct (zeros_again u z1) as (z2 & E2 & Hz2 & S2 & L2 & N2); [lia..|].
  destruct (zeros_again u (z1 + z2)) as (z3 & E3 & Hz3 & S3 & L3 & N3); [lia..|].
  destruct (zeros_again u (z1 + z2 + z3)) as (z4 & E4 & Hz4 & S4 & L4 & N4); [lia..|].
  set (n := z1 + z2 + z3 + z4) in *. assert (2 ^ 31 <= u * 2 ^ n) as N.
  { assert (forall a b, 0 <= a <= b -> u * 2 ^ a <= u * 2 ^ b) as M by (intros; apply Z.mul_le_mono_nonneg_l; [lia|apply Z.pow_le_mono_r; lia]).
    destruct N4 as [N4|[-> N4]]; [done|]. destruct N3 as [N3|[-> N3]]; [specialize (M (z1 + z2 + z3) n); unfold n in *; lia|].
    destruct N2 as [N2|[-> N2]]; [specialize (M (z1 + z2) n); unfold n in *; lia|].
    destruct N1 as [N1|[-> N1]]; [specialize (M z1 n); unfold n in *; lia|]. unfold n. change (2 ^ (8 + 8 + 8 + 8)) with 4294967296. lia. }
  assert (n <= 31) as Hn.
  { destruct (Z.le_gt_cases n 31) as [|Hn]; [done|]. pose proof (Z.pow_le_mono_r 2 32 n ltac:(lia) ltac:(lia)). nia. }
  exists n. split; [lia|]. split; [lia|]. unfold base2_logarithm.
  assert (forall k, 0 <= u * 2 ^ k) as P by (intros; apply Z.mul_nonneg_nonneg; [lia|apply Z.pow_nonneg; lia]).
  pose proof (P z1). pose proof (P (z1 + z2)). pose proof (P (z1 + z2 + z3)). pose proof (P n).
  rewrite E1. cbn [mbind option_bind]. rewrite S1, (u64_small (u * 2 ^ z1)) by lia.
  rewrite E2. cbn [mbind option_bind]. rewrite S2, (u64_small (u * 2 ^ (z1 + z2))) by lia.
  rewrite E3. cbn [mbind option_bind]. rewrite S3, (u64_small (u * 2 ^ (z1 + z2 + z3))) by lia.
  rewrite E4. cbn [mbind option_bind]. rewrite (u32_small (u * 2 ^ (z1 + z2 + z3))), S4 by lia. fold n.
  rewrite (u32_small (u * 2 ^ n)), (u64_small (u * 2 ^ n)) by lia. set (x := u * 2 ^ n) in *.
  rewrite (Z.shiftr_div_pow2 x 24) by lia. set (s := x / 2 ^ 24) in *. assert (128 <= s < 256) as Hs by (unfold s; simpl; mlia).
  change 16777215 with (Z.ones 24). rewrite (Z.land_ones x 24), !(Z.land_comm 255), !(Z.land_ones _ 8) by lia. change (2 ^ 8) with 256.
  rewrite !(u32_small s), (u32_small (s + 130)), (u32_small (s - 127 - 1)) by lia.
  replace ((s + 129) mod 256) with (s - 128 + 1) by (replace (s + 129) with (s - 127 + 1 * 256) by lia; rewrite Z.mod_add, Z.mod_small by lia; lia).
  replace ((s + 130) mod 256) with (s - 128 + 1 + 1) by (replace (s + 130) with (s - 126 + 1 * 256) by lia; rewrite Z.mod_add, Z.mod_small by lia; lia).
  replace (s - 128 + 1 - 1) with (s - 128) by lia. replace (s - 128 + 1 + 1 - 1) with (s - 128 + 1) by lia. replace (s - 127 - 1) with (s - 128) by lia.
  rewrite (u32_small (s - 128)), (u32_small (s - 128 + 1)) by lia.
  rewrite !table_nth by (change (length log2_iv1) with 129%nat; lia). cbn [mbind option_bind]. fold (log2_T (s - 128)) (log2_T (s - 128 + 1)).
  pose proof (all_below_spec 128 log2_steps_ok (s - 128) log2_steps ltac:(lia)) as C. unfold log2_steps_ok in C. zbool.
  unfold log2_interp. fold s. set (T := log2_T (s - 128)) in *. set (d := log2_T (s - 128 + 1) - T) in *.
  pose proof (Z.mod_pos_bound x (2 ^ 24) ltac:(lia)) as Hr. set (r := x mod 2 ^ 24) in *.
  rewrite Z.shiftl_mul_pow2, i64_small, Z.shiftr_div_pow2 by nia. change (2 ^ 16) with 65536.
  assert (0 <= r * d / 2 ^ 24 <= 1000) as Hq by (split; [apply Z.div_pos; nia|apply Z.div_le_upper_bound; nia]).
  rewrite (i32_small ((31 - n) * 65536)), (i32_small ((31 - n) * 65536 + T)), i32_small by lia. f_equal. lia.
Qed.

Local Open Scope R_scope.

(** ** The table *)

Definition entry_okQ (i : Z) : bool :=
  (let a := Z.to_pos (128 + i) in let T := inject_Z (log2_T i) in
   let l := lnQ 9 a 128 in let e := ln_errQ 9 a 128 in
   Qle_bool (T * ln2_hi - (1 # 2) * ln2_lo) (65536 * (l - e)) && Qle_bool (65536 * (l + e)) (T * ln2_lo + (1 # 2) * ln2_lo))%Q.

Lemma entries_checked : all_below 129 entry_okQ = true.
Proof. vm_compute. reflexivity. Qed.

(** Every entry is the logarithm of [1 + i / 128] times 65536, rounded to nearest. *)
Lemma table_near i : (0 <= i <= 128)%Z -> Rabs (IZR (log2_T i) * ln 2 - 65536 * ln (IZR (128 + i) / 128)) <= ln 2 / 2.
Proof.
  intros Hi. pose proof (all_below_spec 129 entry_okQ i entries_checked ltac:(lia)) as C. unfold entry_okQ in C. cbv zeta in C. apply andb_true_iff in C as [C1 C2].
  apply Qle_bool_iff, Qle_Rle in C1, C2. rewrite Q2R_minus, !Q2R_mult, Q2R_minus, Q2R_Z in C1. rewrite Q2R_plus, !Q2R_mult, Q2R_plus, Q2R_Z in C2.
  destruct (ln_evaluated 9 (Z.to_pos (128 + i)) 128) as [H1 H2]; [rewrite Z2Pos.id; lia|]. rewrite Z2Pos.id in H1, H2 by lia.
  rewrite Q2R_minus in H1. rewrite Q2R_plus in H2. pose proof ln2_near as [L1 L2].
  replace (Q2R 65536) with 65536 in * by (unfold Q2R; simpl; lra). replace (Q2R (1 # 2)) with (/ 2) in * by (unfold Q2R; simpl; lra).
  assert (0 <= IZR (log2_T i)) as Hp.
  { apply IZR_le. destruct (Z.eq_dec i 128%Z) as [->|]; [vm_compute; discriminate|].
    pose proof (all_below_spec 128 log2_steps_ok i log2_steps ltac:(lia)) as C. unfold log2_steps_ok in C. zbool. lia. }
  apply Rabs_le. nra.
Qed.

(** ** Interpolation *)

Lemma ln_plus_lim a c : 0 < a + c -> derivable_pt_lim (fun t => ln (a + t)) c (/ (a + c)).
Proof.
  intros H. replace (/ (a + c)) with (/ (a + c) * (0 + 1)) by lra.
  apply (derivable_pt_lim_comp (fun t => a + t) ln); [|by apply derivable_pt_lim_ln].
  apply derivable_pt_lim_plus; [apply derivable_pt_lim_const|apply derivable_pt_lim_id].
Qed.

Lemma square_lim c : derivable_pt_lim (fun t => t ^ 2 / 2) c c.
Proof. pose proof (power_integral_lim 1 1 c) as H. rewrite Rmult_1_l in H. replace (c ^ 1) with c in H by ring. eapply derivable_pt_lim_ext; [|exact H]. intros z. simpl. field. Qed.

Lemma cube_lim c : derivable_pt_lim (fun t => t ^ 3 / 3) c (c ^ 2).
Proof. pose proof (power_integral_lim 1 2 c) as H. rewrite Rmult_1_l in H. eapply derivable_pt_lim_ext; [|exact H]. intros z. simpl. field. Qed.

Lemma ln_low z : 0 <= z -> z - z ^ 2 / 2 <= ln (1 + z).
Proof.
  intros Hz. assert (ln (1 + 0) - (0 - 0 ^ 2 / 2) <= ln (1 + z) - (z - z ^ 2 / 2)) as H.
  { apply (increasing_on (fun t => ln (1 + t) - (t - t ^ 2 / 2)) (fun t => / (1 + t) - (1 - t))); [done| |].
    - intros c Hc. apply derivable_pt_lim_minus; [apply ln_plus_lim; lra|]. apply derivable_pt_lim_minus; [apply derivable_pt_lim_id|apply square_lim].
    - intros c Hc. replace (/ (1 + c) - (1 - c)) with (c ^ 2 * / (1 + c)) by (field; lra).
      apply Rmult_le_pos; [nra|]. left. apply Rinv_0_lt_compat. lra. }
  rewrite Rplus_0_r, ln_1 in H. lra.
Qed.

Lemma ln_high z : 0 <= z -> ln (1 + z) <= z - z ^ 2 / 2 + z ^ 3 / 3.
Proof.
  intros Hz. assert (0 - 0 ^ 2 / 2 + 0 ^ 3 / 3 - ln (1 + 0) <= z - z ^ 2 / 2 + z ^ 3 / 3 - ln (1 + z)) as H.
  { apply (increasing_on (fun t => t - t ^ 2 / 2 + t ^ 3 / 3 - ln (1 + t)) (fun t => 1 - t + t ^ 2 - / (1 + t))); [done| |].
    - intros c Hc. apply derivable_pt_lim_minus; [|apply ln_plus_lim; lra]. apply derivable_pt_lim_plus; [|apply cube_lim].
      apply derivable_pt_lim_minus; [apply derivable_pt_lim_id|apply square_lim].
    - intros c Hc. replace (1 - c + c ^ 2 - / (1 + c)) with (c ^ 3 * / (1 + c)) by (field; lra).
      apply Rmult_le_pos; [apply pow_le; lra|]. left. apply Rinv_0_lt_compat. lra. }
  rewrite Rplus_0_r, ln_1 in H. lra.
Qed.

(** The chord of the logarithm over [[a, a + 1]] is below it, by at most
    [1 / (8 a^2) + 1 / (3 a^3)]. *)
Lemma chord_low a l : 0 < a -> 0 <= l <= 1 -> (1 - l) * ln a + l * ln (a + 1) <= ln (a + l).
Proof.
  intros Ha Hl. destruct (Req_dec l 0) as [->|]; [rewrite Rplus_0_r; lra|]. destruct (Req_dec l 1) as [->|]; [lra|].
  destruct (MVT_cor2 ln (fun x => / x) a (a + l) ltac:(lra)) as (c1 & E1 & H1); [intros; apply derivable_pt_lim_ln; lra|].
  destruct (MVT_cor2 ln (fun x => / x) (a + l) (a + 1) ltac:(lra)) as (c2 & E2 & H2); [intros; apply derivable_pt_lim_ln; lra|].
  assert (/ c2 <= / c1) by (apply Rinv_le_contravar; lra). replace (a + l - a) with l in E1 by ring. replace (a + 1 - (a + l)) with (1 - l) in E2 by ring.
  assert (0 <= l * (1 - l) * (/ c1 - / c2)) by (apply Rmult_le_pos; nra).
  assert (ln (a + l) - ((1 - l) * ln a + l * ln (a + 1)) = (1 - l) * (ln (a + l) - ln a) - l * (ln (a + 1) - ln (a + l))) as Ed by ring.
  rewrite E1, E2 in Ed. lra.
Qed.

Lemma chord_high a l : 128 <= a -> 0 <= l <= 1 -> ln (a + l) <= (1 - l) * ln a + l * ln (a + 1) + 1 / (8 * 128 ^ 2) + 1 / (3 * 128 ^ 3).
Proof.
  intros Ha Hl. set (z := / a). assert (0 < z <= / 128) as Hz by (unfold z; split; [apply Rinv_0_lt_compat; lra|apply Rinv_le_contravar; lra]).
  assert (forall t, 0 <= t -> ln (a + t) = ln a + ln (1 + t * z)) as Es.
  { intros t Ht. rewrite <- ln_mult by nra. f_equal. unfold z. field. lra. }
  rewrite (Es l), (Es 1) by lra. pose proof (ln_high (l * z) ltac:(nra)) as H1. pose proof (ln_low (1 * z) ltac:(nra)) as H2.
  assert (z ^ 2 <= (/ 128) ^ 2) by (apply pow_incr; lra). assert (z ^ 3 <= (/ 128) ^ 3) by (apply pow_incr; lra).
  assert (0 <= z ^ 2) by nra. assert (0 <= z ^ 3) by (apply pow_le; lra). assert (l * (1 - l) <= / 4) by (pose proof (pow2_ge_0 (l - / 2)); nra).
  assert (l ^ 3 * z ^ 3 <= z ^ 3) by (assert (0 <= l ^ 3 <= 1) by (split; [apply pow_le; lra|rewrite <- (pow1 3); apply pow_incr; lra]); nra).
  assert (l * (1 - l) * z ^ 2 <= / 4 * (/ 128) ^ 2) by (apply Rmult_le_compat; nra). apply (Rmult_le_compat_l l) in H2; [|lra].
  rewrite (Rpow_mult_distr l z 2), (Rpow_mult_distr l z 3) in H1. lra.
Qed.

Definition log2R (x : R) : R := ln x / ln 2.

Lemma ln2_pos : 0 < ln 2.
Proof. pose proof ln2_near as [H _]. eapply Rlt_le_trans; [|exact H]. unfold ln2_lo, Q2R. simpl. lra. Qed.

(** The interpolation, in units of [ln 2]. *)
Lemma interp_log x : (2 ^ 31 <= x < 2 ^ 32)%Z ->
  - (9 / 4 * ln 2) <= IZR (log2_interp x) * ln 2 - 65536 * ln (IZR x / 2147483648) <= / 2 * ln 2.
Proof.
  intros Hx. unfold log2_interp. set (i := (x / 2 ^ 24 - 128)%Z). set (r := (x mod 2 ^ 24)%Z).
  pose proof (Z.div_mod x (2 ^ 24) ltac:(lia)) as Ex. pose proof (Z.mod_pos_bound x (2 ^ 24) ltac:(lia)) as Hr. fold r in Ex, Hr.
  assert (x = 16777216 * (128 + i) + r)%Z as Ex' by (unfold i; lia). assert (0 <= i < 128)%Z as Hi by lia. clear Ex.
  pose proof (table_near i ltac:(lia)) as T1. pose proof (table_near (i + 1) ltac:(lia)) as T2. apply abs_between in T1, T2.
  set (T := log2_T i) in *. set (T' := log2_T (i + 1)) in *. set (q := (r * (T' - T) / 2 ^ 24)%Z).
  assert (16777216 * q <= r * (T' - T) < 16777216 * q + 16777216)%Z as Hq.
  { unfold q. pose proof (Z.mul_div_le (r * (T' - T)) (2 ^ 24) ltac:(lia)). pose proof (Z.mul_succ_div_gt (r * (T' - T)) (2 ^ 24) ltac:(lia)). lia. }
  destruct Hq as [Q1 Q2]. apply IZR_le in Q1. apply IZR_lt in Q2. rewrite plus_IZR in Q2. rewrite !mult_IZR, minus_IZR in Q1, Q2. rewrite (plus_IZR T q).
  set (l := IZR r / 16777216). assert (IZR r = 16777216 * l) as Er by (unfold l; field). assert (0 <= l <= 1) as Hl.
  { destruct Hr as [R1 R2]. apply IZR_le in R1. apply IZR_lt in R2. change (2 ^ 24)%Z with 16777216%Z in R2. lra. }
  set (a := IZR (128 + i)). assert (128 <= a) as Ha by (apply IZR_le; lia).
  assert (IZR x / 2147483648 = (a + l) / 128) as ->.
  { rewrite Ex', plus_IZR, mult_IZR, Er. fold a. field. }
  replace (IZR (128 + (i + 1))) with (a + 1) in T2 by (unfold a; rewrite <- plus_IZR; f_equal; lia). fold a in T1.
  unfold Rdiv in *. rewrite !ln_mult in * by lra. pose proof (chord_low a l ltac:(lra) Hl) as C1. pose proof (chord_high a l Ha Hl) as C2.
  rewrite Er in Q1, Q2. pose proof ln2_pos as Hp. pose proof ln2_near as [L1 _]. unfold ln2_lo, Q2R in L1. cbn [Qnum Qden] in L1.
  set (A := ln a) in *. set (B := ln (a + 1)) in *. set (D := ln (/ 128)) in *. set (F := ln (a + l)) in *. set (w := ln 2) in *.
  assert (IZR T + IZR q <= (1 - l) * IZR T + l * IZR T') as Y1 by lra. assert ((1 - l) * IZR T + l * IZR T' - 1 <= IZR T + IZR q) as Y2 by lra.
  apply (Rmult_le_compat_r w) in Y1; [|lra]. apply (Rmult_le_compat_r w) in Y2; [|lra].
  assert ((1 - l) * (IZR T * w - 65536 * (A + D)) <= (1 - l) * (w * / 2)) by (apply Rmult_le_compat_l; lra).
  assert (l * (IZR T' * w - 65536 * (B + D)) <= l * (w * / 2)) by (apply Rmult_le_compat_l; lra).
  assert ((1 - l) * - (w * / 2) <= (1 - l) * (IZR T * w - 65536 * (A + D))) by (apply Rmult_le_compat_l; lra).
  assert (l * - (w * / 2) <= l * (IZR T' * w - 65536 * (B + D))) by (apply Rmult_le_compat_l; lra).
  split; nra.
Qed.

(** ** The functions *)

Lemma log2_interp_range x : (2 ^ 31 <= x < 2 ^ 32 -> 0 <= log2_interp x <= 66536)%Z.
Proof.
  intros Hx. unfold log2_interp. set (i := (x / 2 ^ 24 - 128)%Z). assert (0 <= i < 128)%Z as Hi by (unfold i; simpl; mlia).
  pose proof (all_below_spec 128 log2_steps_ok i log2_steps ltac:(lia)) as C. unfold log2_steps_ok in C. zbool.
  pose proof (Z.mod_pos_bound x (2 ^ 24) ltac:(lia)) as Hr. set (r := (x mod 2 ^ 24)%Z) in *. set (d := (log2_T (i + 1) - log2_T i)%Z) in *.
  assert (0 <= r * d / 2 ^ 24 <= 1000)%Z by (split; [apply Z.div_pos; nia|apply Z.div_le_upper_bound; nia]). lia.
Qed.

Lemma base2_near u : (0 < u < 2 ^ 32)%Z ->
  exists y, base2_logarithm u = Some y /\ (0 <= y <= 2098152)%Z /\ - (9 / 4 * ln 2) <= IZR y * ln 2 - 65536 * ln (IZR u) <= / 2 * ln 2.
Proof.
  intros Hu. destruct (log2_normal u Hu) as (n & Hn & Hx & ->). eexists. split; [done|].
  pose proof (log2_interp_range _ Hx) as Hr. pose proof (interp_log _ Hx) as Hi. split; [lia|].
  rewrite plus_IZR, mult_IZR. replace (ln (IZR u)) with (IZR (31 - n) * ln 2 + ln (IZR (u * 2 ^ n) / 2147483648)); [lra|].
  assert (0 < IZR u) by (apply IZR_lt; lia). rewrite mult_IZR. replace n with (Z.of_nat (Z.to_nat n)) at 2 by lia. rewrite <- pow_IZR.
  set (k := Z.to_nat n). replace (31 - n)%Z with (31 - Z.of_nat k)%Z by lia. rewrite minus_IZR, <- INR_IZR_INZ.
  assert (0 < 2 ^ k) by (apply pow_lt; lra). replace 2147483648 with (2 ^ 31) by (simpl; lra). assert (0 < 2 ^ 31) by (apply pow_lt; lra).
  unfold Rdiv. rewrite ln_mult, ln_mult, ln_Rinv, !ln_pow by (done || lra || by (apply Rmult_lt_0_compat) || by (apply Rinv_0_lt_compat)).
  replace (INR 31) with 31 by (simpl; lra). lra.
Qed.

(** A product with a constant of 43 fractional bits, rounded. *)
Lemma scaled_log y c q k : (0 <= y <= 2098152 -> 0 <= c < 6200000000000 -> q - 32 = k -> k = 31 \/ k = 32 -> y * c < (2 ^ 32 - 1) * 2 ^ k ->
  u32 (Q_SHIFT_RND (u64 (y * c)) q 32) = nearest (y * c) k)%Z.
Proof.
  intros Hy Hc Hq Hk Hl. rewrite u64_small by (destruct Hk as [-> | ->]; nia). rewrite Q_SHIFT_RND_nearest, Hq by lia. apply u32_small.
  pose proof (nearest_bounds (y * c) k ltac:(lia)) as [B1 B2]. assert (0 <= y * c)%Z by nia. destruct Hk as [-> | ->]; simpl in *; lia.
Qed.

Lemma nearest_R x k : (1 <= k)%Z -> Rabs (IZR (nearest x k) - IZR x / IZR (2 ^ k)) <= / 2.
Proof.
  intros Hk. pose proof (nearest_bounds x k Hk) as [B1 B2]. replace (2 ^ k)%Z with (2 * 2 ^ (k - 1))%Z in *.
  2:{ replace k with (1 + (k - 1))%Z at 2 by lia. rewrite Z.pow_add_r by lia. done. }
  assert (0 < 2 ^ (k - 1))%Z as Hp by (apply Z.pow_pos_nonneg; lia). set (h := (2 ^ (k - 1))%Z) in *. apply IZR_lt in Hp, B2. apply IZR_le in B1.
  rewrite minus_IZR in B1. rewrite plus_IZR in B2. rewrite !mult_IZR in *. set (v := IZR (nearest x k)) in *.
  replace (v - IZR x / (2 * IZR h)) with ((2 * IZR h * v - IZR x) * / (2 * IZR h)) by (field; lra).
  rewrite Rabs_mult, (Rabs_pos_eq (/ _)) by (left; apply Rinv_0_lt_compat; lra). apply Rmult_le_reg_r with (2 * IZR h); [lra|].
  rewrite Rmult_assoc, Rinv_l, Rmult_1_r by lra. apply Rabs_le. lra.
Qed.

Definition log10R (x : R) : R := ln x / ln 10.

(** [ln 10] is [3 ln 2 + ln (5 / 4)]. *)
Lemma ln10_near : 2302585092987 / 1000000000000 <= ln 10 <= 2302585092995 / 1000000000000.
Proof.
  assert (ln 10 = 3 * ln 2 + ln (IZR 5 / IZR 4)) as ->.
  { replace 10 with (2 ^ 3 * (5 / 4)) by (simpl; field). rewrite ln_mult, ln_pow by (simpl; lra). simpl (INR 3). lra. }
  destruct (ln_evaluated 9 5 4 ltac:(lia)) as [H1 H2]. pose proof ln2_near as [L1 L2].
  assert (Q2R (22314355131 # 100000000000) <= Q2R (lnQ 9 5 4 - ln_errQ 9 5 4)) as E1 by (apply Qle_Rle, Qle_bool_iff; vm_compute; reflexivity).
  assert (Q2R (lnQ 9 5 4 + ln_errQ 9 5 4) <= Q2R (223143551315 # 1000000000000)) as E2 by (apply Qle_Rle, Qle_bool_iff; vm_compute; reflexivity).
  unfold ln2_lo, ln2_hi, Q2R in *. cbn [Qnum Qden] in *. lra.
Qed.

(** The rounded product of [y] with [c / 2^43], where [y ln 2] is close to [65536 l] and
    [c / 2^43] to [ln 2 / m]. *)
Lemma scaled_near y c k l m d : (0 <= y <= 2098152)%Z -> (k = 31 \/ k = 32)%Z -> 0 < m ->
  - (9 / 4 * ln 2) <= IZR y * ln 2 - 65536 * l <= / 2 * ln 2 ->
  Rabs (IZR c / 8796093022208 * m - ln 2) <= d * m ->
  let s := 8796093022208 / IZR (2 ^ k) in
  - (s * (9 / 4) * (ln 2 / m) + 2098152 * d * s + / 2) <= IZR (nearest (y * c) k) - s * 65536 * (l / m) <= s * / 2 * (ln 2 / m) + 2098152 * d * s + / 2.
Proof.
  intros Hy Hk Hm Hl Hc s. pose proof (nearest_R (y * c) k ltac:(lia)) as Hn. apply abs_between in Hn. set (v := IZR (nearest (y * c) k)) in *.
  assert (0 < IZR (2 ^ k)) as Hp by (apply IZR_lt, Z.pow_pos_nonneg; lia). assert (0 < s) as Hs by (apply Rdiv_lt_0_compat; [lra|done]).
  rewrite mult_IZR in Hn. replace (IZR y * IZR c / IZR (2 ^ k)) with (s * (IZR y * (IZR c / 8796093022208))) in Hn by (unfold s; field; lra).
  set (e := IZR c / 8796093022208 - ln 2 / m). assert (Rabs e <= d) as He.
  { apply (Rmult_le_reg_r m); [done|]. rewrite <- (Rabs_pos_eq m) at 1 by lra. rewrite <- Rabs_mult.
    replace (e * m) with (IZR c / 8796093022208 * m - ln 2) by (unfold e; field; lra). done. }
  assert (0 <= IZR y <= 2098152) as HY by (split; apply IZR_le; lia). apply abs_between in He.
  replace (IZR c / 8796093022208) with (ln 2 / m + e) in Hn by (unfold e; ring).
  assert (- (2098152 * d) <= IZR y * e <= 2098152 * d) as Hye by nra.
  assert (- (9 / 4) * (ln 2 / m) <= IZR y * (ln 2 / m) - 65536 * (l / m) <= / 2 * (ln 2 / m)) as Hlm.
  { replace (IZR y * (ln 2 / m) - 65536 * (l / m)) with ((IZR y * ln 2 - 65536 * l) * / m) by (unfold Rdiv; ring).
    replace (- (9 / 4) * (ln 2 / m)) with (- (9 / 4 * ln 2) * / m) by (unfold Rdiv; ring). replace (/ 2 * (ln 2 / m)) with (/ 2 * ln 2 * / m) by (unfold Rdiv; ring).
    assert (0 < / m) by (by apply Rinv_0_lt_compat). split; apply Rmult_le_compat_r; lra. }
  set (g := ln 2 / m) in *. set (h := l / m) in *.
  assert (s * (IZR y * (g + e)) = s * (IZR y * g - 65536 * h) + s * (IZR y * e) + s * 65536 * h) as E by ring. rewrite E in Hn.
  assert (s * (- (9 / 4) * g) <= s * (IZR y * g - 65536 * h) <= s * (/ 2 * g)) by (split; apply Rmult_le_compat_l; lra).
  assert (s * - (2098152 * d) <= s * (IZR y * e) <= s * (2098152 * d)) by (split; apply Rmult_le_compat_l; lra). lra.
Qed.

(** C36: The logarithms return for every positive input of 32 bits. To base 2 the result is
    at most 0.5 units above and 2.25 units below the logarithm in Q16.16; to base e it is
    within 711 units above and 3195 below in Q5.27, to base 10 within 618 above and 2776
    below in Q4.28: all three have an error of less than 0.000035 in value. *)
Theorem logarithms_near u : (0 < u < 2 ^ 32)%Z ->
  exists y v w, base2_logarithm u = Some y /\ ln_int32 u = Some v /\ log10_int32 u = Some w /\
    - (9 / 4) <= IZR y - 65536 * log2R (IZR u) <= 1 / 2 /\
    -3195 <= IZR v - 2 ^ 27 * ln (IZR u) <= 711 /\
    -2776 <= IZR w - 2 ^ 28 * log10R (IZR u) <= 618.
Proof.
  intros Hu. destruct (base2_near u Hu) as (y & Ey & Hy & H1 & H2). unfold ln_int32, log10_int32. rewrite Ey. cbn [mbind option_bind].
  rewrite (scaled_log y ONE_OVER_LOG2_E 64 32), (scaled_log y ONE_OVER_LOG2_10 63 31) by lia.
  pose proof ln2_near as [L1 L2]. unfold ln2_lo, ln2_hi, Q2R in L1, L2. cbn [Qnum Qden] in L1, L2. pose proof ln10_near as [T1 T2].
  pose proof (scaled_near y ONE_OVER_LOG2_E 32 (ln (IZR u)) 1 (2 / 1000000000000) Hy ltac:(by right) ltac:(lra) ltac:(lra)) as Hv.
  pose proof (scaled_near y ONE_OVER_LOG2_10 31 (ln (IZR u)) (ln 10) (10 / 1000000000000) Hy ltac:(by left) ltac:(lra) ltac:(lra)) as Hw.
  specialize (Hv ltac:(apply Rabs_le; lra)). specialize (Hw ltac:(apply Rabs_le; lra)). cbv zeta in Hv, Hw.
  change (IZR (2 ^ 32)) with 4294967296 in Hv. change (IZR (2 ^ 31)) with 2147483648 in Hw.
  replace (2 ^ 27) with 134217728 by (simpl; lra). replace (2 ^ 28) with 268435456 by (simpl; lra).
  eexists y, _, _. split; [done|]. split; [done|]. split; [done|]. split; [|split].
  - unfold log2R. replace (IZR y - 65536 * (ln (IZR u) / ln 2)) with ((IZR y * ln 2 - 65536 * ln (IZR u)) / ln 2) by (field; lra).
    split; (apply (Rmult_le_reg_r (ln 2)); [lra|]); unfold Rdiv; rewrite Rmult_assoc, Rinv_l by lra; lra.
  - lra.
  - unfold log10R. assert (ln 2 / ln 10 <= 30103 / 100000) as Hq.
    { apply (Rmult_le_reg_r (ln 10)); [lra|]. unfold Rdiv at 1. rewrite Rmult_assoc, Rinv_l by lra. lra. }
    lra.
Qed.

Lemma logarithms_near_witness : exists y v w, base2_logarithm 1000 = Some y /\ ln_int32 1000 = Some v /\ log10_int32 1000 = Some w /\
  - (9 / 4) <= IZR y - 65536 * log2R 1000 <= 1 / 2 /\ -3195 <= IZR v - 2 ^ 27 * ln 1000 <= 711 /\ -2776 <= IZR w - 2 ^ 28 * log10R 1000 <= 618.
Proof. apply (logarithms_near 1000). lia. Defined.

(** Without a positive input the function reads outside its table. *)
Example log_of_zero : base2_logarithm 0 = None.
Proof. vm_compute. reflexivity. Qed.
