(* ===== verification/ExpThms.v ===== *)
(** * Exponential function and decibels

    [exp_fixed] and [db2lin_fixed] against the exponential function of the real numbers:
    nothing overflows, the series is cut and rounded within a known distance, and the
    repeated multiplication keeps the relative error. *)

From Stdlib Require Import Reals Lra Lia Factorial QArith Qreals.
From stdpp Require Import base list numbers option.
From S2P Require Import Prelude Format Maths MathThms RealBounds LogThms.

Local Open Scope R_scope.
Local Close Scope Q_scope.

(** ** The series *)

Lemma fact_pow2 k : (2 ^ Z.of_nat k <= Z.of_nat (fact (S k)))%Z.
Proof.
  induction k as [|k IH]; [done|]. rewrite Nat2Z.inj_succ, Z.pow_succ_r by lia.
  change (fact (S (S k))) with (S (S k) * fact (S k))%nat. rewrite Nat2Z.inj_mul. nia.
Qed.

Lemma fact_11 k : (k <= 11)%nat -> (0 < Z.of_nat (fact k) <= 39916800)%Z.
Proof.
  intros Hk. pose proof (lt_O_fact k) as H1. pose proof (fact_le k 11 Hk) as H2. apply Nat2Z.inj_le in H2.
  rewrite !(fact_simpl (S _)), (fact_simpl 0), !Nat2Z.inj_mul in H2. change (Z.of_nat (fact 0)) with 1%Z in H2. lia.
Qed.

Lemma quot_near a b : (0 < b)%Z -> Rabs (IZR (Z.quot a b) - IZR a / IZR b) <= 1.
Proof.
  intros Hb. pose proof (Z.quot_rem a b ltac:(lia)) as E. pose proof (Z.rem_bound_abs a b ltac:(lia)) as Hr. assert (0 < IZR b) as Hb' by (by apply IZR_lt).
  assert (IZR a = IZR b * IZR (Z.quot a b) + IZR (Z.rem a b)) as Ea by (rewrite <- mult_IZR, <- plus_IZR; f_equal; lia).
  replace (IZR (Z.quot a b) - IZR a / IZR b) with (- (IZR (Z.rem a b) * / IZR b)) by (rewrite Ea; field; lra).
  rewrite Rabs_Ropp, Rabs_mult, (Rabs_pos_eq (/ _)) by (left; by apply Rinv_0_lt_compat). apply (Rmult_le_reg_r (IZR b)); [done|].
  rewrite Rmult_assoc, Rinv_l, Rmult_1_r, Rmult_1_l, <- abs_IZR by lra. apply IZR_le. lia.
Qed.

(** The error of the sum after [k] terms, in units. *)
Fixpoint exp_err (k : nat) : R := match k with O => 0 | S k => exp_err k + 2 ^ k / INR (fact (S k)) + 1 end.

Section small.
Context (x : Z) (Hx : (Z.abs x < 2 ^ 30)%Z).
Notation s := (IZR x / 536870912).

Lemma small_arg : -2 <= s <= 2.
Proof using Hx. assert (-1073741824 <= x <= 1073741824)%Z as [H1 H2] by lia. apply IZR_le in H1, H2. lra. Qed.

(** The numerator after [k] steps. *)
Definition num_ok (k : nat) (num : Z) : Prop :=
  (Z.abs num <= 2 ^ (23 + Z.of_nat k))%Z /\ Rabs (IZR num - 8388608 * s ^ k) <= 2 ^ k / 2 - / 2.

Lemma num_step k num : (k <= 10)%nat -> num_ok k num ->
  i64 (num * x) = (num * x)%Z /\ num_ok (S k) (Q_SHIFT_RND (num * x) 52 23).
Proof using Hx.
  intros Hk [H1 H2]. set (P := (2 ^ (23 + Z.of_nat k))%Z) in *. assert (0 < P <= 2 ^ 33)%Z as HP.
  { unfold P. split; [apply Z.pow_pos_nonneg; lia|apply Z.pow_le_mono_r; lia]. }
  assert (Z.abs (num * x) <= P * (2 ^ 30 - 1))%Z as Hp by (rewrite Z.abs_mul; apply Z.mul_le_mono_nonneg; lia).
  split; [apply i64_small; lia|]. rewrite Q_SHIFT_RND_nearest by lia. change (52 - 23)%Z with 29%Z.
  pose proof (nearest_bounds (num * x) 29 ltac:(lia)) as B. pose proof (nearest_R (num * x) 29 ltac:(lia)) as N. set (num' := nearest (num * x) 29) in *.
  split; [replace (23 + Z.of_nat (S k))%Z with (1 + (23 + Z.of_nat k))%Z by lia; rewrite Z.pow_add_r by lia; fold P; simpl in B; lia|].
  change (IZR (2 ^ 29)) with 536870912 in N. rewrite mult_IZR in N.
  replace (IZR num' - 8388608 * s ^ S k) with ((IZR num' - IZR num * IZR x / 536870912) + s * (IZR num - 8388608 * s ^ k)) by (simpl; field).
  eapply Rle_trans; [apply Rabs_triang|]. rewrite (Rabs_mult s). pose proof small_arg. assert (Rabs s <= 2) by (by apply Rabs_le).
  assert (Rabs s * Rabs (IZR num - 8388608 * s ^ k) <= 2 * (2 ^ k / 2 - / 2)) by (apply Rmult_le_compat; auto using Rabs_pos).
  assert (1 <= 2 ^ k) by (apply pow_R1_Rle; lra). cbn [pow]. lra.
Qed.

Lemma exp_terms_near n k kz den num y0 : (k + n = 11)%nat -> kz = Z.of_nat (S k) -> den = Z.of_nat (fact k) -> num_ok k num -> (Z.abs y0 <= Z.of_nat k * 2 ^ 24)%Z ->
  Rabs (IZR y0 - 8388608 * (exp_sum (S k) s - 1)) <= exp_err k ->
  let y := exp_terms n kz num y0 den x in
  (Z.abs y <= 11 * 2 ^ 24)%Z /\ Rabs (IZR y - 8388608 * (exp_sum 12 s - 1)) <= exp_err 11.
Proof using Hx.
  revert k kz den num y0. induction n as [|n IH]; intros k kz den num y0 Hk -> -> Hn Hy Hs; cbn [exp_terms].
  { assert (k = 11)%nat as -> by lia. split; [lia|done]. }
  destruct (num_step k num ltac:(lia) Hn) as [-> Hn']. set (num' := Q_SHIFT_RND (num * x) 52 23) in *.
  pose proof (fact_11 (S k) ltac:(lia)) as Hf. assert (Z.of_nat (fact k) * Z.of_nat (S k) = Z.of_nat (fact (S k)))%Z as -> by (rewrite fact_simpl; lia).
  rewrite (i32_small (Z.of_nat _)) by lia. pose proof (quot_near num' (Z.of_nat (fact (S k))) ltac:(lia)) as Q.
  assert (Z.abs (Z.quot num' (Z.of_nat (fact (S k)))) <= 2 ^ 24)%Z as Hi.
  { rewrite <- Z.quot_abs by lia. rewrite Z.quot_div_nonneg by lia. apply Z.div_le_upper_bound; [lia|]. pose proof (fact_pow2 k). destruct Hn' as [Hn' _].
    eapply Z.le_trans; [exact Hn'|]. replace (23 + Z.of_nat (S k))%Z with (24 + Z.of_nat k)%Z by lia. rewrite Z.pow_add_r by lia. lia. }
  set (inc := Z.quot num' (Z.of_nat (fact (S k)))) in *. rewrite (i32_small inc), (i32_small (y0 + inc)) by lia.
  apply (IH (S k)); [lia|lia|done|done|lia|].
  rewrite plus_IZR. change (exp_sum (S (S k)) s) with (exp_sum (S k) s + s ^ S k / INR (fact (S k))). cbn [exp_err].
  pose proof (fact_pos (S k)) as Hfp. rewrite <- INR_IZR_INZ in Q. destruct Hn' as [_ Hn'].
  replace (IZR y0 + IZR inc - 8388608 * (exp_sum (S k) s + s ^ S k / INR (fact (S k)) - 1)) with
    ((IZR y0 - 8388608 * (exp_sum (S k) s - 1)) + (IZR num' - 8388608 * s ^ S k) * / INR (fact (S k)) + (IZR inc - IZR num' / INR (fact (S k)))) by (field; lra).
  eapply Rle_trans; [apply Rabs_triang|]. apply Rplus_le_compat; [|done]. eapply Rle_trans; [apply Rabs_triang|]. apply Rplus_le_compat; [done|].
  rewrite Rabs_mult, (Rabs_pos_eq (/ _)) by (left; by apply Rinv_0_lt_compat). apply Rmult_le_compat_r; [left; by apply Rinv_0_lt_compat|]. cbn [pow] in *. lra.
Qed.
End small.

Lemma INR_fact_12 : INR (fact 12) = 479001600.
Proof. rewrite !(fact_simpl (S _)), (fact_simpl 0), !mult_INR. change (fact 0) with 1%nat. simpl INR. lra. Qed.

Lemma exp_err_11 : exp_err 11 <= 22.
Proof.
  enough (forall k, exp_err k <= 2 * INR k) as H by (pose proof (H 11%nat) as H11; simpl INR in H11; lra).
  induction k as [|k IH]; [simpl; lra|]. cbn [exp_err]. rewrite S_INR.
  enough (2 ^ k / INR (fact (S k)) <= 1) by lra. apply (Rmult_le_reg_r (INR (fact (S k)))); [apply fact_pos|].
  unfold Rdiv. rewrite Rmult_assoc, Rinv_l by (pose proof (fact_pos (S k)); lra). rewrite Rmult_1_r, Rmult_1_l, INR_IZR_INZ.
  rewrite pow_IZR. apply IZR_le, fact_pow2.
Qed.

(** The sum of the series, and the exponential function, in units of Q9.23. *)
Lemma exp_small_sum x : (Z.abs x < 2 ^ 30)%Z -> let s := IZR x / 536870912 in
  (Z.abs (exp_small_fixed x) <= 12 * 2 ^ 24)%Z /\ Rabs (IZR (exp_small_fixed x) - 8388608 * exp_sum 12 s) <= exp_err 11.
Proof.
  intros Hx s. unfold exp_small_fixed. rewrite Q_SHIFT_RND_nearest by lia. change (29 - 23)%Z with 6%Z. set (num := nearest x 6).
  pose proof (nearest_bounds x 6 ltac:(lia)) as B. pose proof (nearest_R x 6 ltac:(lia)) as N. fold num in B, N. simpl in B. change (IZR (2 ^ 6)) with 64 in N.
  assert (num_ok x 1 num) as Hn.
  { split; [simpl; lia|]. cbn [pow]. rewrite !Rmult_1_r. replace (8388608 * (IZR x / 536870912)) with (IZR x / 64) by field. lra. }
  rewrite (i32_small num) by lia.
  assert (Rabs (IZR num - 8388608 * (exp_sum 2 s - 1)) <= exp_err 1) as H0.
  { cbn [exp_sum exp_err fact pow Nat.mul Nat.add INR]. unfold s. replace (IZR num - _) with (IZR num - IZR x / 64) by field. lra. }
  destruct (exp_terms_near x Hx 10 1 2 1 num num eq_refl eq_refl eq_refl Hn ltac:(simpl; lia) H0) as [H1 H2].
  generalize dependent (exp_terms 10 2 num num 1 x). intros y H1 H2. rewrite i32_small by lia. split; [lia|]. rewrite plus_IZR.
  replace (IZR y + 8388608 - 8388608 * exp_sum 12 s) with (IZR y - 8388608 * (exp_sum 12 s - 1)); [done|].
  generalize (exp_sum 12 s). intros e. ring.
Qed.

Lemma exp_small_near x : (Z.abs x < 2 ^ 30)%Z -> let s := IZR x / 536870912 in
  Rabs (IZR (exp_small_fixed x) - 8388608 * exp s) <= 22 + 72 * Rmax 1 (exp s).
Proof.
  intros Hx s. destruct (exp_small_sum x Hx) as [_ H2]. fold s in H2. pose proof exp_err_11 as He.
  pose proof (exp_taylor_abs 12 s 2 (small_arg x Hx)) as Ht. rewrite INR_fact_12 in Ht.
  generalize dependent (exp_sum 12 s). generalize dependent (exp_err 11). generalize (exp_small_fixed x).
  intros y d Hd e He Ht. replace (2 ^ 12) with 4096 in Ht by (simpl; lra).
  replace (IZR y - 8388608 * exp s) with ((IZR y - 8388608 * e) + - (8388608 * (exp s - e))) by ring.
  eapply Rle_trans; [apply Rabs_triang|]. rewrite Rabs_Ropp, Rabs_mult, (Rabs_pos_eq 8388608) by lra. pose proof (Rmax_l 1 (exp s)). lra.
Qed.

(** ** Repeated multiplication *)

(** The sum of the first [j] powers of [r]. *)
Fixpoint powers (r : R) (j : nat) : R := match j with O => 0 | S j => 1 + r * powers r j end.

Lemma powers_pos r j : 0 <= r -> 0 <= powers r j.
Proof. intros Hr. induction j as [|j IH]; [simpl; lra|]. cbn [powers]. nra. Qed.

Lemma powers_small r j : 0 <= r <= / 2 -> powers r j <= 2.
Proof. intros Hr. induction j as [|j IH]; [simpl; lra|]. pose proof (powers_pos r j ltac:(lra)). cbn [powers]. nra. Qed.

Lemma powers_large r j : 2 <= r -> powers r j <= r ^ j.
Proof.
  intros Hr. enough (powers r j + 1 <= r ^ j) by lra. induction j as [|j IH]; [simpl; lra|]. pose proof (powers_pos r j ltac:(lra)). cbn [powers pow].
  assert (r * (powers r j + 1) <= r * r ^ j) by (apply Rmult_le_compat_l; lra). lra.
Qed.

Section power.
Context (y0 : Z).
Notation r := (IZR y0 / 1048576).

(** Each product is rounded by at most half a unit. *)
Lemma exp_power_near n j y : (0 <= y0 < 2 ^ 26)%Z ->
  (forall i, (i <= j + n)%nat -> 1048576 * r ^ i + powers r i / 2 <= 2147483647) ->
  Rabs (IZR y - 1048576 * r ^ j) <= powers r j / 2 ->
  Rabs (IZR (exp_power n y y0) - 1048576 * r ^ (j + n)) <= powers r (j + n) / 2.
Proof.
  intros H0. assert (0 <= r) as Hr by (apply Rmult_le_pos; [apply IZR_le; lia|lra]). revert j y. induction n as [|n IH]; intros j y Hb Hy.
  { by rewrite Nat.add_0_r. }
  cbn [exp_power]. assert (0 <= r ^ j) by (by apply pow_le). pose proof (powers_pos r j Hr) as Hg. apply abs_between in Hy.
  assert (-2147483648 <= y <= 2147483647)%Z as Hy'.
  { pose proof (Hb j ltac:(lia)) as Hbj. split; apply le_IZR; lra. }
  replace (j + S n)%nat with (S j + n)%nat by lia. apply IH; [intros i Hi; apply Hb; lia|].
  unfold Q_MULTSR_32X32. rewrite i64_small by nia. change (20 + 20 - 20 - 1)%Z with (20 - 1)%Z. rewrite shift_round by lia.
  pose proof (nearest_R (y * y0) 20 ltac:(lia)) as N. change (IZR (2 ^ 20)) with 1048576 in N. rewrite mult_IZR in N.
  set (v := nearest (y * y0) 20) in *. assert (Rabs (IZR v - 1048576 * r ^ S j) <= powers r (S j) / 2) as Hv.
  { apply abs_between in N. cbn [pow powers]. replace (IZR y * IZR y0 / 1048576) with (r * IZR y) in N by field.
    assert (r * (1048576 * r ^ j - powers r j / 2) <= r * IZR y <= r * (1048576 * r ^ j + powers r j / 2)) by (split; apply Rmult_le_compat_l; lra). apply Rabs_le. lra. }
  rewrite i32_small; [done|]. pose proof (Hb (S j) ltac:(lia)) as Hbj. apply abs_between in Hv. assert (0 <= r ^ S j) by (by apply pow_le).
  assert (-2147483648 <= v <= 2147483647)%Z by (split; apply le_IZR; lra). lia.
Qed.
End power.

(** ** The argument *)

Lemma exp_halve_ok x : (-1543503871 <= x <= 1023343067)%Z ->
  exists xs n, exp_halve 5 x 0 = Some (xs, n) /\ (0 <= n <= 3)%Z /\ xs = (x / 2 ^ n)%Z /\ (-268435455 < xs < 268435456)%Z /\
    (n = 0 \/ 134217728 <= xs \/ xs <= -134217728)%Z /\ (0 <= x -> n <= 2)%Z.
Proof.
  intros Hx. assert (forall y, Z.shiftr y 1 = y / 2)%Z as E by (intros; by rewrite Z.shiftr_div_pow2 by lia).
  destruct (decide (-268435455 < x < 268435456)%Z) as [H0|H0].
  { exists x, 0%Z. cbn [exp_halve]. rewrite Z.div_1_r. case_if; [lia|]. split_and!; [done|lia..]. }
  destruct (decide (-268435455 < x / 2 < 268435456)%Z) as [H1|H1].
  { exists (x / 2)%Z, 1%Z. cbn [exp_halve]. rewrite E. case_if; [|lia]. case_if; [lia|]. split_and!; [done|lia|lia|done|lia|lia|Z.div_mod_to_equations; lia|lia]. }
  destruct (decide (-268435455 < x / 2 / 2 < 268435456)%Z) as [H2|H2].
  { exists (x / 4)%Z, 2%Z. cbn [exp_halve]. rewrite !E. case_if; [|lia]. case_if; [|lia]. case_if; [lia|]. rewrite Z.div_div in * by lia. change (2 * 2)%Z with 4%Z in *. split_and!; [done|lia|lia|done|lia|lia|Z.div_mod_to_equations; lia|lia]. }
  exists (x / 8)%Z, 3%Z. cbn [exp_halve]. rewrite !E. case_if; [|lia]. case_if; [|lia]. case_if; [|lia]. case_if.
  { exfalso. Z.div_mod_to_equations. lia. }
  rewrite !Z.div_div in * by lia. change (2 * 2 * 2)%Z with 8%Z in *. change (2 * 2)%Z with 4%Z in *.
  split_and!; [done|lia|lia|done|Z.div_mod_to_equations; lia|Z.div_mod_to_equations; lia|Z.div_mod_to_equations; lia|Z.div_mod_to_equations; lia].
Qed.

(** ** Errors *)

Lemma exp_1_bounds : 9 / 4 <= exp 1 <= 3.
Proof.
  split; [|apply exp_le_3]. pose proof (exp_ineq1_le (1 / 2)) as H. replace 1 with (1 / 2 + 1 / 2) by lra. rewrite exp_plus.
  assert (3 / 2 * (3 / 2) <= exp (1 / 2) * exp (1 / 2)) by (apply Rmult_le_compat; lra). lra.
Qed.

Lemma exp_mono a b : a <= b -> exp a <= exp b.
Proof. intros [H| ->]; [|lra]. left. by apply exp_increasing. Qed.

Lemma exp_minus_1 : exp (-1) <= 4 / 9.
Proof.
  pose proof exp_1_bounds as [H _]. assert (exp (-1) * exp 1 = 1) as E by (rewrite <- exp_plus; replace (-1 + 1) with 0 by lra; apply exp_0). pose proof (exp_pos (-1)). nra.
Qed.

Lemma exp_minus_2 : / 9 <= exp (-2).
Proof.
  pose proof exp_1_bounds as [_ H]. assert (exp (-2) * (exp 1 * exp 1) = 1) as E by (rewrite <- !exp_plus; replace (-2 + (1 + 1)) with 0 by lra; apply exp_0).
  pose proof (exp_pos (-2)). pose proof (exp_pos 1). assert (exp 1 * exp 1 <= 9) by nra. nra.
Qed.

Lemma exp_small_up z : 0 <= z <= / 2 -> exp z <= 1 + 2 * z.
Proof.
  intros Hz. pose proof (exp_ineq1_le (- z)) as H. assert (exp z * exp (- z) = 1) as E by (rewrite <- exp_plus, Rplus_opp_r; apply exp_0).
  pose proof (exp_pos z). assert (exp z * (1 - z) <= 1) by nra. nra.
Qed.

(** The relative error of the root: [12] or [106] millionths. *)
Definition root_err (s : R) : R := if Rle_dec 0 s then 12 / 1000000 else 106 / 1000000.

Lemma exp_root_near xs : (-268435455 < xs < 268435456)%Z -> let s := IZR xs / 134217728 in
  let y0 := Q_SHIFT_RND (exp_small_fixed (i32 (Z.shiftl xs 2))) 23 20 in
  (0 <= y0 < 2 ^ 26)%Z /\ Rabs (IZR y0 / 1048576 - exp s) <= root_err s * exp s.
Proof.
  intros Hx s y0. unfold y0. rewrite Z.shiftl_mul_pow2, i32_small by lia. change (2 ^ 2)%Z with 4%Z. assert (Z.abs (xs * 4) < 2 ^ 30)%Z as Hx4 by lia.
  destruct (exp_small_sum _ Hx4) as [Ha _]. pose proof (exp_small_near _ Hx4) as He. cbv zeta in He.
  replace (IZR (xs * 4) / 536870912) with s in He by (unfold s; rewrite mult_IZR; field). set (y := exp_small_fixed (xs * 4)) in *. clearbody y.
  rewrite Q_SHIFT_RND_nearest by lia. change (23 - 20)%Z with 3%Z. pose proof (nearest_R y 3 ltac:(lia)) as N. change (IZR (2 ^ 3)) with 8 in N.
  pose proof (nearest_bounds y 3 ltac:(lia)) as B. simpl in B. set (v := nearest y 3) in *. apply abs_between in N, He.
  assert (Rabs (IZR v / 1048576 - exp s) <= root_err s * exp s) as Hr.
  { pose proof (exp_pos s). unfold root_err. destruct (Rle_dec 0 s) as [Hp|Hp].
    - pose proof (exp_mono 0 s Hp) as H1. rewrite exp_0 in H1. rewrite Rmax_right in He by done. apply Rabs_le. lra.
    - pose proof (exp_mono s 0 ltac:(lra)) as H1. rewrite exp_0 in H1. rewrite Rmax_left in He by done.
      assert (-2 <= s) as H2 by (destruct Hx as [Hx _]; apply IZR_lt in Hx; unfold s; lra).
      pose proof (exp_mono (-2) s H2) as H3. pose proof exp_minus_2. apply Rabs_le. lra. }
  split; [|done]. split; [|lia]. apply abs_between in Hr. assert (root_err s <= / 2) by (unfold root_err; destruct (Rle_dec 0 s); lra).
  pose proof (exp_pos s). assert (0 <= IZR v) as Hv0 by nra. by apply le_IZR.
Qed.

Lemma rel_pow r e k m : 0 <= r -> 0 < e -> 0 <= k -> Rabs (r - e) <= k * e -> Rabs (r ^ m - e ^ m) <= ((1 + k) ^ m - 1) * e ^ m.
Proof.
  intros Hr He Hk H. induction m as [|m IH]; [simpl; rewrite Rminus_diag, Rabs_R0; lra|]. cbn [pow].
  replace (r * r ^ m - e * e ^ m) with (r * (r ^ m - e ^ m) + (r - e) * e ^ m) by ring. eapply Rle_trans; [apply Rabs_triang|].
  assert (0 < e ^ m) by (by apply pow_lt). rewrite !Rabs_mult, (Rabs_pos_eq r), (Rabs_pos_eq (e ^ m)) by lra. apply abs_between in H as Hb.
  assert (r * Rabs (r ^ m - e ^ m) <= (1 + k) * e * (((1 + k) ^ m - 1) * e ^ m)) by (apply Rmult_le_compat; [lra|apply Rabs_pos|nra|done]).
  assert (Rabs (r - e) * e ^ m <= k * e * e ^ m) by (apply Rmult_le_compat_r; lra). nra.
Qed.

Lemma exp_mult_nat s m : exp s ^ m = exp (INR m * s).
Proof.
  induction m as [|m IH]; [simpl; by rewrite Rmult_0_l, exp_0|]. cbn [pow]. rewrite IH, <- exp_plus, S_INR. f_equal. ring.
Qed.

(** The largest argument stays below [2048]. *)
Lemma exp_top X : X <= 1023343067 / 134217728 -> exp X <= 2048 * (1 - 118 / 1000000).
Proof.
  intros HX. pose proof ln2_near as [L _]. unfold ln2_lo, Q2R in L. cbn [Qnum Qden] in L. set (d := 11 * ln 2 - X). assert (118 / 1000000 + 8 / 10000000 <= d) as Hd by (unfold d; lra).
  assert (exp X * exp d = 2048) as E.
  { rewrite <- exp_plus. replace (X + d) with (INR 11 * ln 2) by (unfold d; simpl; ring). rewrite <- exp_mult_nat, exp_ln by lra. simpl. lra. }
  pose proof (exp_ineq1_le d). pose proof (exp_pos X). assert (exp X * (1 + 118 / 1000000 + 8 / 10000000) <= 2048) by (rewrite <- E; apply Rmult_le_compat_l; lra). lra.
Qed.

Lemma root_power s m : (m <= 8)%nat -> (0 <= s -> (m <= 4)%nat) ->
  0 <= (1 + root_err s) ^ m - 1 <= 86 / 100000 /\ (0 <= s -> (1 + root_err s) ^ m - 1 <= 49 / 1000000).
Proof.
  intros H8 H4. unfold root_err. destruct (Rle_dec 0 s) as [Hs|Hs].
  - specialize (H4 Hs). pose proof (Rle_pow (1 + 12 / 1000000) m 4 ltac:(lra) H4) as H. pose proof (pow_R1_Rle (1 + 12 / 1000000) m ltac:(lra)). simpl in H. lra.
  - pose proof (Rle_pow (1 + 106 / 1000000) m 8 ltac:(lra) H8) as H. pose proof (pow_R1_Rle (1 + 106 / 1000000) m ltac:(lra)). simpl in H. split; [lra|done].
Qed.

(** Bounds on the powers of the root [r], for each sign of the argument. *)
Lemma root_bounds r s m : 0 <= r -> Rabs (r - exp s) <= root_err s * exp s -> (1 <= m <= 8)%nat -> (0 <= s -> (m <= 4)%nat) ->
  (m = 1%nat /\ -2 <= s <= 2) \/ s <= -1 \/ 1 <= s -> exp s ^ m <= 2048 * (1 - 118 / 1000000) ->
  powers r m / 2 <= 1 + r ^ m / 2 /\ (forall i, (i <= m)%nat -> 1048576 * r ^ i + powers r i / 2 <= 2147483647).
Proof.
  intros Hr He Hm Hm4 Hs Ht. pose proof (exp_pos s) as Hp. pose proof (root_power s m ltac:(lia) Hm4) as [K1 K2].
  assert (0 <= root_err s) as Hk by (unfold root_err; destruct (Rle_dec 0 s); lra). pose proof (rel_pow r (exp s) (root_err s) m Hr Hp Hk He) as Hrel.
  apply abs_between in Hrel, He. assert (0 <= r ^ m) by (by apply pow_le). destruct Hs as [[-> Hs]|[Hs|Hs]].
  - simpl in *. split; [lra|]. intros i Hi. assert (i = 0 \/ i = 1)%nat as [-> | ->] by lia; simpl; [lra|].
    assert (root_err s * exp s <= 106 / 1000000 * exp s) by (apply Rmult_le_compat_r; [lra|]; unfold root_err; destruct (Rle_dec 0 s); lra). lra.
  - pose proof (exp_mono s (-1) Hs). pose proof exp_minus_1. assert (r <= / 2) as Hr2.
    { unfold root_err in He. destruct (Rle_dec 0 s); lra. }
    split; [pose proof (powers_small r m ltac:(lra)); lra|]. intros i Hi. pose proof (powers_small r i ltac:(lra)).
    assert (r ^ i <= 1 ^ i) as Hri by (apply pow_incr; lra). rewrite pow1 in Hri. lra.
  - pose proof (exp_mono 1 s Hs). pose proof exp_1_bounds. assert (2 <= r) as Hr2.
    { unfold root_err in He. destruct (Rle_dec 0 s); lra. }
    split; [pose proof (powers_large r m Hr2); lra|]. intros i Hi. pose proof (powers_large r i Hr2).
    pose proof (Rle_pow r i m ltac:(lra) Hi). specialize (K2 ltac:(lra)).
    assert (((1 + root_err s) ^ m - 1) * exp s ^ m <= 49 / 1000000 * exp s ^ m) by (apply Rmult_le_compat_r; [apply pow_le; lra|lra]). lra.
Qed.

Lemma exp_fixed_near x : (-1543503871 <= x <= 1023343067)%Z -> let t := 1048576 * exp (IZR x / 134217728) in
  exists y, exp_fixed x = Some y /\ Rabs (IZR y - t) <= 1 + t / 1000.
Proof.
  intros Hx t. unfold exp_fixed. case_if; [lia|]. case_if; [lia|].
  destruct (exp_halve_ok x Hx) as (xs & n & -> & Hn & Exs & Hxs & Hbig & Hpos). cbn [mbind option_bind]. eexists. split; [done|].
  destruct (exp_root_near xs Hxs) as [Hy0 Hr]. set (y0 := Q_SHIFT_RND _ 23 20) in *. clearbody y0. set (s := IZR xs / 134217728) in *. set (r := IZR y0 / 1048576) in *.
  set (m := Z.to_nat (Z.shiftl 1 n)). assert (Z.of_nat m = 2 ^ n)%Z as Em by (unfold m; rewrite Z.shiftl_mul_pow2, Z.mul_1_l, Z2Nat.id; [done|apply Z.pow_nonneg|]; lia).
  assert (n = 0 \/ n = 1 \/ n = 2 \/ n = 3)%Z as Hn4 by lia. assert (1 <= m <= 8)%nat as Hm by (destruct Hn4 as [-> | [-> | [-> | ->]]]; simpl in Em; lia).
  assert (Z.of_nat m * xs <= x <= Z.of_nat m * xs + 7)%Z as Hmx.
  { rewrite Em, Exs. destruct Hn4 as [-> | [-> | [-> | ->]]]; [rewrite Z.div_1_r; lia|..]; Z.div_mod_to_equations; lia. }
  assert (0 <= s -> (m <= 4)%nat) as Hm4.
  { intros H0. assert (0 <= xs)%Z as Hxs0 by (apply le_IZR; unfold s in H0; lra). assert (0 <= x)%Z by nia. specialize (Hpos ltac:(lia)).
    destruct Hn4 as [-> | [-> | [-> | ->]]]; simpl in Em; lia. }
  set (X := IZR x / 134217728) in *. assert (0 <= X - INR m * s <= 7 / 134217728) as HX.
  { destruct Hmx as [M1 M2]. apply IZR_le in M1, M2. rewrite plus_IZR in M2. rewrite mult_IZR, <- INR_IZR_INZ in M1, M2. unfold X, s.
    replace (INR m * (IZR xs / 134217728)) with (INR m * IZR xs / 134217728) by field. lra. }
  assert (exp s ^ m <= exp X <= exp s ^ m * (1 + 2 * (7 / 134217728))) as HE.
  { rewrite exp_mult_nat. split; [apply exp_mono; lra|]. replace X with (INR m * s + (X - INR m * s)) by ring. rewrite exp_plus.
    apply Rmult_le_compat_l; [left; apply exp_pos|]. pose proof (exp_small_up (X - INR m * s) ltac:(lra)). lra. }
  assert (exp X <= 2048 * (1 - 118 / 1000000)) as Htop.
  { apply exp_top. destruct Hx as [_ Hx]. apply IZR_le in Hx. unfold X. lra. }
  assert (0 <= r) as Hr0 by (apply Rmult_le_pos; [apply IZR_le; lia|lra]).
  destruct (root_bounds r s m Hr0 Hr Hm Hm4) as [G1 G2]; [|lra|].
  { destruct Hbig as [-> |[Hb|Hb]]; [left; simpl in Em; split; [lia|]|right; right|right; left]; destruct Hxs as [A1 A2]; apply IZR_lt in A1, A2; try apply IZR_le in Hb; unfold s; lra. }
  pose proof (exp_power_near y0 m 0 1048576 Hy0 G2) as Hy. rewrite Nat.add_0_l in Hy. fold r in Hy.
  specialize (Hy ltac:(simpl; rewrite Rmult_1_r, Rminus_diag, Rabs_R0; lra)).
  pose proof (exp_pos s). pose proof (root_power s m ltac:(lia) Hm4) as [K1 _]. assert (0 <= root_err s) as Hk by (unfold root_err; destruct (Rle_dec 0 s); lra).
  pose proof (rel_pow r (exp s) (root_err s) m Hr0 ltac:(done) Hk Hr) as Hrel. apply abs_between in Hy, Hrel. set (y := exp_power m 1048576 y0) in *. clearbody y.
  assert (0 <= exp s ^ m) by (apply pow_le; lra).
  assert (((1 + root_err s) ^ m - 1) * exp s ^ m <= 86 / 100000 * exp s ^ m) by (apply Rmult_le_compat_r; lra).
  unfold t. apply Rabs_le. lra.
Qed.

(** ** Decibels *)

Lemma ln_upper v : 0 < v -> ln v <= v - 1.
Proof.
  intros Hv. pose proof (exp_ineq1_le (v - 1)) as H. assert (v <= exp (v - 1)) as [Hl|El] by lra; rewrite <- (ln_exp (v - 1)).
  - left. by apply ln_increasing.
  - rewrite <- El. lra.
Qed.

Lemma ln_lower v : 0 < v -> 1 - / v <= ln v.
Proof. intros Hv. pose proof (ln_upper (/ v) ltac:(by apply Rinv_0_lt_compat)) as H. rewrite ln_Rinv in H by done. lra. Qed.

(** 10^(d / 20). *)
Definition gain_of_db (d : R) : R := exp (d / 20 * ln 10).

Lemma db_arg db : (-1660944384 <= db <= 1107296256)%Z ->
  exists arg, i32 (Q_MULTSR_32X32 db LOG10_DIV20_Q27 24 27 27) = arg /\ (-1543503871 <= arg <= 1023343067)%Z /\
    Rabs (IZR arg / 134217728 - IZR db / 16777216 / 20 * ln 10) <= 5 / 10000000.
Proof.
  intros Hd. unfold Q_MULTSR_32X32. rewrite i64_small by lia. change (24 + 27 - 27 - 1)%Z with (24 - 1)%Z. rewrite shift_round by lia.
  pose proof (nearest_bounds (db * 15452387) 24 ltac:(lia)) as B. pose proof (nearest_R (db * 15452387) 24 ltac:(lia)) as N. simpl in B.
  change (IZR (2 ^ 24)) with 16777216 in N. rewrite mult_IZR in N. set (arg := nearest (db * 15452387) 24) in *. exists arg.
  split; [apply i32_small; lia|]. split; [lia|]. apply abs_between in N. destruct Hd as [D1 D2]. apply IZR_le in D1, D2. pose proof ln10_near as [T1 T2].
  set (d := IZR db / 16777216). assert (-99 <= d <= 66) as Hd by (unfold d; lra). replace (IZR db) with (16777216 * d) in * by (unfold d; field).
  set (e := 15452387 / 134217728 - ln 10 / 20). assert (- (4 / 1000000000) <= e <= 4 / 1000000000) as He by (unfold e; lra).
  replace (ln 10) with (20 * (15452387 / 134217728 - e)) by (unfold e; field).
  replace (IZR arg / 134217728 - d / 20 * (20 * (15452387 / 134217728 - e))) with ((IZR arg - 16777216 * d * 15452387 / 16777216) / 134217728 + d * e) by field.
  assert (-99 * (4 / 1000000000) <= d * e <= 99 * (4 / 1000000000)) by nra. apply Rabs_le. lra.
Qed.

(** C37: Between -99 and 66 dB the conversion returns the gain in Q12.20 up to one unit and
    1.1 thousandths of it, without overflow; from -80 dB on the error is less than 0.1 dB. *)
Theorem db2lin_near db : (-1660944384 <= db <= 1107296256)%Z ->
  let d := IZR db / 16777216 in let t := 1048576 * gain_of_db d in
  exists y, db2lin_fixed db = Some y /\ Rabs (IZR y - t) <= 1 + 11 / 10000 * t /\
    (-80 <= d -> Rabs (20 * log10R (IZR y / 1048576) - d) < 1 / 10).
Proof.
  intros Hd d t. unfold db2lin_fixed. case_if; [lia|]. destruct (db_arg db Hd) as (arg & -> & Ha & He). fold d in He.
  destruct (exp_fixed_near arg Ha) as (y & -> & Hy). exists y. split; [done|]. set (A := IZR arg / 134217728) in *. set (z := d / 20 * ln 10) in *.
  assert (exp A = gain_of_db d * exp (A - z)) as EA by (unfold gain_of_db; fold z; rewrite <- exp_plus; f_equal; ring).
  assert (Rabs (exp (A - z) - 1) <= 11 / 10000000) as Hz.
  { apply abs_between in He. apply Rabs_le. split; [pose proof (exp_ineq1_le (A - z)); lra|]. pose proof (exp_mono (A - z) (5 / 10000000) ltac:(lra)).
    pose proof (exp_small_up (5 / 10000000) ltac:(lra)). lra. }
  assert (0 < gain_of_db d) as Hg by apply exp_pos. apply abs_between in Hy, Hz. set (g := gain_of_db d) in *. set (u := exp (A - z)) in *.
  assert (g * (1 - 11 / 10000000) <= exp A <= g * (1 + 11 / 10000000)) as HA by (rewrite EA; split; apply Rmult_le_compat_l; lra).
  assert (Rabs (IZR y - t) <= 1 + 11 / 10000 * t) as Hyt by (unfold t; apply Rabs_le; lra). split; [done|]. intros H80.
  pose proof ln10_near as [T1 _]. assert (104 <= t) as Ht.
  { unfold t. assert (/ 10 ^ 4 <= g) as H4; [|simpl in H4; lra]. replace (/ 10 ^ 4) with (exp (- (INR 4 * ln 10))) by (rewrite exp_Ropp, <- exp_mult_nat, exp_ln by lra; done).
    apply exp_mono. simpl INR. unfold z. nra. }
  apply abs_between in Hyt. set (v := IZR y / t). assert (IZR y = v * t) as Ev by (unfold v; field; lra). rewrite Ev in Hyt.
  assert (1 - 1072 / 100000 <= v <= 1 + 1072 / 100000) as Hv by (split; apply (Rmult_le_reg_r t); lra).
  replace (IZR y / 1048576) with (v * g) by (rewrite Ev; unfold t; field). unfold log10R. rewrite ln_mult by lra.
  replace (ln g) with (d / 20 * ln 10) by (unfold g, gain_of_db; by rewrite ln_exp).
  replace (20 * ((ln v + d / 20 * ln 10) / ln 10) - d) with (20 * ln v / ln 10) by (field; lra).
  pose proof (ln_upper v ltac:(lra)). pose proof (ln_lower v ltac:(lra)). assert (/ v <= 1 + 1084 / 100000) as Hi.
  { apply (Rmult_le_reg_r v); [lra|]. rewrite Rinv_l by lra. nra. }
  assert (0 < / ln 10 <= 10 / 23) as Hl by (split; [apply Rinv_0_lt_compat; lra|replace (10 / 23) with (/ (23 / 10)) by field; apply Rinv_le_contravar; lra]).
  apply Rabs_def1; unfold Rdiv; nra.
Qed.

Lemma db2lin_near_witness : let d := IZR (-100663296) / 16777216 in let t := 1048576 * gain_of_db d in
  exists y, db2lin_fixed (-100663296) = Some y /\ Rabs (IZR y - t) <= 1 + 11 / 10000 * t /\
    (-80 <= d -> Rabs (20 * log10R (IZR y / 1048576) - d) < 1 / 10).
Proof. apply (db2lin_near (-100663296)). lia. Defined.

(** At -88.964 dB, inside the range that is given for it, the error is more than 0.1 dB. *)
Example db2lin_coarse : db2lin_fixed (-1492576632) = Some 38%Z /\ 1 / 10 < 20 * log10R (38 / 1048576) - IZR (-1492576632) / 16777216.
Proof.
  split; [vm_compute; reflexivity|]. destruct (ln_evaluated 9 19 16 ltac:(lia)) as [H _]. pose proof ln2_near as [L1 L2]. pose proof ln10_near as [T1 T2].
  assert (Q2R (1718 # 10000) <= Q2R (lnQ 9 19 16 - ln_errQ 9 19 16)) as E by (apply Qle_Rle, Qle_bool_iff; vm_compute; reflexivity).
  assert (ln (38 / 1048576) = ln (19 / 16) - INR 15 * ln 2) as E2.
  { rewrite <- ln_pow by lra. replace (38 / 1048576) with (19 / 16 * / 2 ^ 15) by (simpl; field). rewrite ln_mult, ln_Rinv by (simpl; lra). lra. }
  unfold log10R. rewrite E2. replace (INR 15) with 15 by (simpl; lra). unfold ln2_lo, ln2_hi, Q2R in *. cbn [Qnum Qden] in *. set (w := ln 10) in *.
  assert (88860 / 1000 * w <= 20 * (15 * ln 2 - ln (19 / 16)) -> False) by lra.
  set (q := (ln (19 / 16) - 15 * ln 2) / w). assert (q * w = ln (19 / 16) - 15 * ln 2) as Eq by (unfold q; field; lra).
  assert (- (88860 / 1000) < 20 * q) by nra. lra.
Qed.

(** ** Powers *)

(** Each product of [power_int32] is rounded by at most half a unit as long as nothing is
    saturated. *)
Lemma power_near b n j p : let r := IZR b / 33554432 in (- 2 ^ 31 <= b < 2 ^ 31)%Z ->
  (forall i, (i <= j + n)%nat -> 32768 * Rabs r ^ i + powers (Rabs r) i / 2 <= 2147483647) ->
  Rabs (IZR p - 32768 * r ^ j) <= powers (Rabs r) j / 2 ->
  Rabs (IZR (power_loop n p b) - 32768 * r ^ (j + n)) <= powers (Rabs r) (j + n) / 2.
Proof.
  intros r Hb. revert j p. induction n as [|n IH]; intros j p Hl Hp; [by rewrite Nat.add_0_r|]. cbn [power_loop].
  change 24%Z with (25 - 1)%Z. rewrite shift_round by lia. replace (j + S n)%nat with (S j + n)%nat by lia. apply IH; [intros i Hi; apply Hl; lia|].
  pose proof (nearest_R (p * b) 25 ltac:(lia)) as N. change (IZR (2 ^ 25)) with 33554432 in N. rewrite mult_IZR in N. set (v := nearest (p * b) 25) in *.
  assert (Rabs (IZR v - 32768 * r ^ S j) <= powers (Rabs r) (S j) / 2) as Hv.
  { cbn [powers pow]. replace (IZR v - 32768 * (r * r ^ j)) with ((IZR v - IZR p * IZR b / 33554432) + r * (IZR p - 32768 * r ^ j)) by (unfold r; field).
    eapply Rle_trans; [apply Rabs_triang|]. rewrite Rabs_mult. assert (Rabs r * Rabs (IZR p - 32768 * r ^ j) <= Rabs r * (powers (Rabs r) j / 2)) by (apply Rmult_le_compat_l; [apply Rabs_pos|done]). lra. }
  rewrite sat_int32_clamp. unfold clamp. replace (Z.max _ _) with v; [done|]. specialize (Hl (S j) ltac:(lia)). apply abs_between in Hv.
  assert (- (32768 * Rabs r ^ S j) <= 32768 * r ^ S j <= 32768 * Rabs r ^ S j) as Hr by (rewrite RPow_abs; pose proof (Rle_abs (r ^ S j)); pose proof (Rle_abs (- r ^ S j)) as H2; rewrite Rabs_Ropp in H2; lra).
  assert (-2147483648 <= v <= 2147483647)%Z by (split; apply le_IZR; lra). lia.
Qed.

(** The reciprocal of a base below 1/64 does not fit 32 bits and wraps around: the power -1
    of 2^-25 is 0. *)
Example power_reciprocal_wraps : power_int32 1 (-536870912) = 0%Z.
Proof. vm_compute. reflexivity. Qed.
