(* ===== verification/Trig.v ===== *)
(** * Trigonometric functions by CORDIC

    [math/trig.c] and [include/sof/math/trig.h]: sine, cosine and complex exponential by
    rotations whose angles are in a table, and the inverse functions by double rotations.
    An index outside a table is [None]. *)

From stdpp Require Import base list numbers option.
From S2P Require Import Prelude Format Maths.

(** 2^30 divided by the gain of the rotations, and pi / 2, pi and 2 pi in Q4.28. *)
Abbreviation cordic_sine_cos_lut_q29fl := 652032874 (only parsing).
Abbreviation cord_sincos_piovertwo_q28fl := 421657428 (only parsing).
Abbreviation cord_sincos_piovertwo_q29fl := 843314857 (only parsing).
Abbreviation cordic_sine_cos_piovertwo_q30fl := 1686629713 (only parsing).
Abbreviation cord_arcsincos_q28fl := 189812531 (only parsing).
Abbreviation cord_arcsincos_q30fl := 1073741824 (only parsing).
Abbreviation PI_DIV2_Q3_29 := 843314856 (only parsing).
Abbreviation PI_MUL2_Q4_28 := 1686629713 (only parsing).
Abbreviation CORDIC_31B_TABLE_SIZE := 31 (only parsing).
Abbreviation CORDIC_15B_TABLE_SIZE := 15 (only parsing).
Abbreviation CORDIC_16B_ITABLE_SIZE := 16 (only parsing).

(** ** Rotations *)

(** The sign, and the angle between -pi/2 and pi/2. *)
Definition quadrant (th : Z) : Z * Z :=
  if th >? cord_sincos_piovertwo_q28fl then
    if th - cord_sincos_piovertwo_q29fl <=? cord_sincos_piovertwo_q28fl
    then (-1, i32 (th - cord_sincos_piovertwo_q29fl)) else (1, i32 (th - cordic_sine_cos_piovertwo_q30fl))
  else if th <? - cord_sincos_piovertwo_q28fl then
    if th + cord_sincos_piovertwo_q29fl >=? - cord_sincos_piovertwo_q28fl
    then (-1, i32 (th + cord_sincos_piovertwo_q29fl)) else (1, i32 (th + cordic_sine_cos_piovertwo_q30fl))
  else (1, th).

(** The rotations from [b_idx] on, [n] of them: [xtmp] and [ytmp] are [xn] and [b_yn]
    shifted by [b_idx]. *)
Fixpoint cordic_loop (n : nat) (b_idx th xn b_yn xtmp ytmp : Z) : option (Z * Z * Z) :=
  match n with
  | O => Some (b_yn, xn, th)
  | S n =>
      a ← table_at cordic_lookup b_idx;
      let '(th, xn, b_yn) :=
        if th <? 0 then (i32 (th + a), i32 (xn + ytmp), i32 (b_yn - xtmp)) else (i32 (th - a), i32 (xn - ytmp), i32 (b_yn + xtmp)) in
      cordic_loop n (b_idx + 1) th xn b_yn (Z.shiftr xn (b_idx + 1)) (Z.shiftr b_yn (b_idx + 1))
  end.

(** Sign, sine, cosine and the angle that is left. *)
Definition cordic_approx (th_rad_fxp a_idx : Z) : option (Z * Z * Z * Z) :=
  let '(sign, th) := quadrant th_rad_fxp in
  '(b_yn, xn, th_cdc) ← cordic_loop (Z.to_nat a_idx) 0 (i32 (Z.shiftl th 2)) cordic_sine_cos_lut_q29fl 0 cordic_sine_cos_lut_q29fl 0;
  Some (sign, b_yn, xn, th_cdc).

(** ** Sine and cosine *)

Definition sin_fixed_32b (th_rad_fxp : Z) : option Z :=
  '(sign, b_yn, xn, _) ← cordic_approx th_rad_fxp CORDIC_31B_TABLE_SIZE;
  Some (sat_int32 (Z.shiftl (i32 (sign * b_yn)) 1)).

Definition cos_fixed_32b (th_rad_fxp : Z) : option Z :=
  '(sign, b_yn, xn, _) ← cordic_approx th_rad_fxp CORDIC_31B_TABLE_SIZE;
  Some (sat_int32 (Z.shiftl (i32 (sign * xn)) 1)).

Definition sin_fixed_16b (th_rad_fxp : Z) : option Z :=
  '(sign, b_yn, xn, _) ← cordic_approx th_rad_fxp CORDIC_15B_TABLE_SIZE;
  Some (sat_int16 (Q_SHIFT_RND (i32 (sign * b_yn)) 30 15)).

Definition cos_fixed_16b (th_rad_fxp : Z) : option Z :=
  '(sign, b_yn, xn, _) ← cordic_approx th_rad_fxp CORDIC_15B_TABLE_SIZE;
  Some (sat_int16 (Q_SHIFT_RND (i32 (sign * xn)) 30 15)).

(** ** Complex exponential *)

Inductive cordic_cfg :=
  | EN_32B_CORDIC_SINE | EN_32B_CORDIC_COSINE | EN_32B_CORDIC_CEXP
  | EN_16B_CORDIC_SINE | EN_16B_CORDIC_COSINE | EN_16B_CORDIC_CEXP.

Record cordic_cmpx := mk_cmpx { cx_re : Z; cx_im : Z }.

Definition cmpx_cexp (sign b_yn xn : Z) (type : cordic_cfg) : cordic_cmpx :=
  let re := i32 (sign * xn) in
  let im := i32 (sign * b_yn) in
  match type with
  | EN_16B_CORDIC_CEXP => mk_cmpx (sat_int16 (Q_SHIFT_RND re 30 15)) (sat_int16 (Q_SHIFT_RND im 30 15))
  | _ => mk_cmpx re im
  end.

Definition cmpx_exp_32b (th_rad_fxp : Z) : option cordic_cmpx :=
  '(sign, b_yn, xn, _) ← cordic_approx th_rad_fxp CORDIC_31B_TABLE_SIZE;
  Some (cmpx_cexp sign b_yn xn EN_32B_CORDIC_CEXP).

Definition cmpx_exp_16b (th_rad_fxp : Z) : option cordic_cmpx :=
  '(sign, b_yn, xn, _) ← cordic_approx th_rad_fxp CORDIC_15B_TABLE_SIZE;
  Some (cmpx_cexp sign b_yn xn EN_16B_CORDIC_CEXP).

(** ** Inverse functions *)

(** The double rotations from [b_i] on, [n] of them. *)
Fixpoint acos_loop (n : nat) (b_i x y z cosvalue : Z) : option Z :=
  match n with
  | O => Some z
  | S n =>
      let j := if Z.shiftl (b_i + 1) 1 >=? 31 then 31 else Z.shiftl (b_i + 1) 1 in
      let k := if b_i <? 31 then b_i else 31 in
      let '(xshift, xdshift, yshift, ydshift) := (Z.shiftr x k, Z.shiftr x j, Z.shiftr y k, Z.shiftr y j) in
      '(x, y, z) ← (if x =? cosvalue then Some (i32 (x + xdshift), i32 (y + ydshift), z)
                    else a ← table_at cordic_ilookup b_i;
                         let sign := if ((x >? cosvalue) && (y >=? 0)) || ((x <? cosvalue) && (y <? 0)) then 1 else -1 in
                         Some (i32 (x - xdshift - sign * yshift), i32 (y - ydshift + sign * xshift), i32 (z + sign * a)));
      acos_loop n (b_i + 1) x y z (i32 (cosvalue + Z.shiftr cosvalue j))
  end.

Definition is_scalar_cordic_acos (cosvalue numiters : Z) : option Z :=
  let '(x, y, z) := if Z.shiftr cosvalue 1 <? cord_arcsincos_q28fl then (0, cord_arcsincos_q30fl, PI_DIV2_Q3_29) else (cord_arcsincos_q30fl, 0, 0) in
  z ← acos_loop (Z.to_nat (numiters - 1)) 0 x y z cosvalue;
  Some (if z <? 0 then i32 (- z) else z).

Fixpoint asin_loop (n : nat) (b_i x y z sinvalue : Z) : option Z :=
  match n with
  | O => Some z
  | S n =>
      let j := if Z.shiftl (b_i + 1) 1 >=? 31 then 31 else Z.shiftl (b_i + 1) 1 in
      let k := if b_i <? 31 then b_i else 31 in
      let '(xshift, xdshift, yshift, ydshift) := (Z.shiftr x k, Z.shiftr x j, Z.shiftr y k, Z.shiftr y j) in
      '(x, y, z) ← (if y =? sinvalue then Some (i32 (x + xdshift), i32 (y + ydshift), z)
                    else a ← table_at cordic_ilookup b_i;
                         let sign := if ((y >=? sinvalue) && (x >=? 0)) || ((y <? sinvalue) && (x <? 0)) then 1 else -1 in
                         Some (i32 (x - xdshift + sign * yshift), i32 (y - ydshift - sign * xshift), i32 (z - sign * a)));
      asin_loop n (b_i + 1) x y z (i32 (sinvalue + Z.shiftr sinvalue j))
  end.

Definition is_scalar_cordic_asin (sinvalue numiters : Z) : option Z :=
  let '(x, y, z) := if Z.shiftr sinvalue 1 >? cord_arcsincos_q28fl then (0, cord_arcsincos_q30fl, PI_DIV2_Q3_29) else (cord_arcsincos_q30fl, 0, 0) in
  z ← asin_loop (Z.to_nat (numiters - 1)) 0 x y z sinvalue;
  Some (if z <? 0 then i32 (- z) else z).

Definition asin_fixed_32b (cdc_asin_th : Z) : option Z :=
  if cdc_asin_th >=? 0 then is_scalar_cordic_asin cdc_asin_th CORDIC_31B_TABLE_SIZE
  else z ← is_scalar_cordic_asin (i32 (- cdc_asin_th)) CORDIC_31B_TABLE_SIZE; Some (i32 (- z)).

Definition acos_fixed_32b (cdc_acos_th : Z) : option Z :=
  if cdc_acos_th >=? 0 then is_scalar_cordic_acos cdc_acos_th CORDIC_31B_TABLE_SIZE
  else z ← is_scalar_cordic_acos (i32 (- cdc_acos_th)) CORDIC_31B_TABLE_SIZE; Some (i32 (PI_MUL2_Q4_28 - z)).

Definition asin_fixed_16b (cdc_asin_th : Z) : option Z :=
  th ← (if cdc_asin_th >=? 0 then is_scalar_cordic_asin cdc_asin_th CORDIC_16B_ITABLE_SIZE
        else z ← is_scalar_cordic_asin (i32 (- cdc_asin_th)) CORDIC_16B_ITABLE_SIZE; Some (i32 (- z)));
  Some (sat_int16 (Q_SHIFT_RND th 30 14)).

Definition acos_fixed_16b (cdc_acos_th : Z) : option Z :=
  th ← (if cdc_acos_th >=? 0 then is_scalar_cordic_acos cdc_acos_th CORDIC_16B_ITABLE_SIZE
        else z ← is_scalar_cordic_acos (i32 (- cdc_acos_th)) CORDIC_16B_ITABLE_SIZE; Some (i32 (PI_MUL2_Q4_28 - z)));
  Some (sat_int16 (Q_SHIFT_RND th 29 13)).

(** The sine and the cosine of pi / 6, and their inverses at 0.5: pi / 6 and pi / 3. *)
Example trig_run :
  sin_fixed_32b 140552476 = Some 1073741826 /\ cos_fixed_16b 140552476 = Some 28377 /\
  asin_fixed_32b 536870912 = Some 281104940 /\ acos_fixed_16b 536870912 = Some 8578.
Proof. vm_compute. split_and!; reflexivity. Qed.
