(* ===== verification/TrigThms.v ===== *)
(** * Sine and cosine

    The rotations of [cordic_approx] against sine and cosine of the real numbers: the table
    holds the arc tangents, the angle that is left vanishes, and rounding moves the vector
    by a known distance. *)

From Stdlib Require Import Reals Lra Lia Ring QArith Qreals.
From stdpp Require Import base list numbers option.
From S2P Require Import Prelude Format Maths MathThms RealBounds LogThms Trig.

Local Open Scope R_scope.
Local Close Scope Q_scope.

(** ** The table of angles *)

Definition signZ (i : nat) : Z := if Nat.even i then 1%Z else (-1)%Z.

Lemma signZ_pow i : IZR (signZ i) = (-1) ^ i.
Proof.
  unfold signZ. induction i as [|i IH]; [done|]. rewrite Nat.even_succ, <- Nat.negb_even. cbn [pow]. rewrite <- IH. destruct (Nat.even i); simpl; lra.
Qed.

(** [atan (1 / q)], from [n] terms, and its error. *)
Definition atanQ (n : nat) (q : positive) : Q := odd_sumQ signZ n (1 # q).
Definition atan_errQ (n : nat) (q : positive) : Q := (powQ (S (2 * n)) (1 # q) * (1 # Pos.of_succ_nat (2 * n)))%Q.

Lemma atan_evaluated n q : Rabs (atan (/ IZR (Zpos q)) - Q2R (atanQ n q)) <= Q2R (atan_errQ n q).
Proof.
  assert (Q2R (1 # q) = / IZR (Zpos q)) as E by (unfold Q2R; simpl; lra).
  unfold atanQ, atan_errQ. rewrite Q2R_odd_sum, Q2R_mult, Q2R_pow, Q2R_inv_nat, E.
  assert (0 <= / IZR (Zpos q)) as Hq by (left; apply Rinv_0_lt_compat, IZR_lt; lia). pose proof (atan_near (/ IZR (Zpos q)) n Hq) as H.
  rewrite (odd_sum_ext _ (fun i => (-1) ^ i)) by (intros; apply signZ_pow). unfold Rdiv in H. lra.
Qed.

Lemma pi_near : 3141592653589 / 1000000000000 <= PI <= 3141592653590 / 1000000000000.
Proof.
  pose proof Machin_4_5_239 as M. pose proof (atan_evaluated 10 5) as H5. pose proof (atan_evaluated 4 239) as H239. apply abs_between in H5, H239.
  assert (Q2R (3141592653589 # 1000000000000) <= Q2R (16 * (atanQ 10 5 - atan_errQ 10 5) - 4 * (atanQ 4 239 + atan_errQ 4 239))) as E1
    by (apply Qle_Rle, Qle_bool_iff; vm_compute; reflexivity).
  assert (Q2R (16 * (atanQ 10 5 + atan_errQ 10 5) - 4 * (atanQ 4 239 - atan_errQ 4 239)) <= Q2R (3141592653590 # 1000000000000)) as E2
    by (apply Qle_Rle, Qle_bool_iff; vm_compute; reflexivity).
  rewrite Q2R_minus, !Q2R_mult, Q2R_minus, Q2R_plus in E1. rewrite Q2R_minus, !Q2R_mult, Q2R_minus, Q2R_plus in E2.
  replace (Q2R 16) with 16 in * by (unfold Q2R; simpl; lra). replace (Q2R 4) with 4 in * by (unfold Q2R; simpl; lra).
  replace (Q2R (3141592653589 # 1000000000000)) with (3141592653589 / 1000000000000) in E1 by (unfold Q2R; simpl; lra).
  replace (Q2R (3141592653590 # 1000000000000)) with (3141592653590 / 1000000000000) in E2 by (unfold Q2R; simpl; lra). lra.
Qed.

Definition cordic_T (j : Z) : Z := nth (Z.to_nat j) cordic_lookup 0%Z.

Definition angle_okQ (j : Z) : bool :=
  (let q := Z.to_pos (2 ^ (j + 1)) in let a := atanQ 16 q in let e := atan_errQ 16 q in let T := inject_Z (cordic_T (j + 1)) in
   Qle_bool (T - (1 # 2)) (1073741824 * (a - e)) && Qle_bool (1073741824 * (a + e)) (T + (1 # 2)))%Q.

Lemma angles_checked : all_below 30 angle_okQ = true.
Proof. vm_compute. reflexivity. Qed.

(** Every entry is the angle of its rotation in Q2.30, rounded to nearest. *)
Lemma angle_near j : (0 <= j <= 30)%Z -> Rabs (IZR (cordic_T j) - 1073741824 * atan (/ 2 ^ Z.to_nat j)) <= / 2.
Proof.
  intros Hj. destruct (Z.eq_dec j 0%Z) as [->|Hne].
  { change (cordic_T 0) with 843314857%Z. replace (/ 2 ^ Z.to_nat 0) with 1 by (simpl; lra). rewrite atan_1. pose proof pi_near. apply Rabs_le. lra. }
  pose proof (all_below_spec 30 angle_okQ (j - 1) angles_checked ltac:(lia)) as C. unfold angle_okQ in C. cbv zeta in C. replace (j - 1 + 1)%Z with j in C by lia.
  apply andb_true_iff in C as [C1 C2]. apply Qle_bool_iff, Qle_Rle in C1, C2. rewrite Q2R_minus, Q2R_mult, Q2R_minus, Q2R_Z in C1. rewrite Q2R_mult, !Q2R_plus, Q2R_Z in C2.
  pose proof (atan_evaluated 16 (Z.to_pos (2 ^ j))) as H. rewrite Z2Pos.id in H by (apply Z.pow_pos_nonneg; lia).
  replace (IZR (2 ^ j)) with (2 ^ Z.to_nat j) in H by (rewrite pow_IZR, Z2Nat.id; [done|lia]). apply abs_between in H.
  replace (Q2R 1073741824) with 1073741824 in * by (unfold Q2R; simpl; lra). replace (Q2R (1 # 2)) with (/ 2) in * by (unfold Q2R; simpl; lra). apply Rabs_le. lra.
Qed.

(** ** Rotations *)

Definition cis (t : R) : C := (cos t, sin t).
Definition cscale (r : R) (a : C) : C := (r * fst a, r * snd a).

Lemma norm_cscale r a : 0 <= r -> norm (cscale r a) = r * norm a.
Proof.
  intros Hr. unfold norm, cscale. simpl. replace (r * fst a * (r * fst a) + r * snd a * (r * snd a)) with (r * r * (fst a * fst a + snd a * snd a)) by ring.
  rewrite sqrt_mult_alt, sqrt_square by nra. done.
Qed.

Lemma cis_norm t : norm (cis t) = 1.
Proof. unfold norm, cis. simpl. rewrite <- sqrt_1. f_equal. pose proof (sin2_cos2 t) as H. unfold Rsqr in H. lra. Qed.

Lemma cos_low x : 1 - x ^ 2 / 2 <= cos x.
Proof.
  assert (forall t, 0 <= t -> 1 - t ^ 2 / 2 <= cos t) as H.
  { intros t Ht. assert (cos 0 - (1 - 0 ^ 2 / 2) <= cos t - (1 - t ^ 2 / 2)) as Hi; [|rewrite cos_0 in Hi; lra].
    apply (increasing_on (fun u => cos u - (1 - u ^ 2 / 2)) (fun u => - sin u - (0 - u))); [done| |].
    - intros c Hc. apply derivable_pt_lim_minus; [apply derivable_pt_lim_cos|]. apply derivable_pt_lim_minus; [apply derivable_pt_lim_const|apply square_lim].
    - intros c Hc. destruct (Req_dec c 0) as [->|]; [rewrite sin_0; lra|]. pose proof (sin_lt_x c ltac:(lra)). lra. }
  destruct (Rle_or_lt 0 x) as [Hx|Hx]; [by apply H|]. rewrite <- cos_neg. replace (x ^ 2) with ((- x) ^ 2) by ring. apply H. lra.
Qed.

Lemma cis_close a b : norm (csub (cis a) (cis b)) <= Rabs (a - b).
Proof.
  apply norm_le; [apply Rabs_pos|]. change (Rabs (a - b) * Rabs (a - b)) with (Rsqr (Rabs (a - b))). rewrite <- Rsqr_abs. unfold Rsqr, csub, cis. simpl. pose proof (cos_low (a - b)) as H. rewrite cos_minus in H.
  pose proof (sin2_cos2 a) as Ha. pose proof (sin2_cos2 b) as Hb. unfold Rsqr in Ha, Hb. nra.
Qed.

(** The magnitude of the rotation [b]. *)
Definition rho (b : nat) : R := sqrt (1 + (/ 2 ^ b) ^ 2).

Lemma rho_bounds b : 1 <= rho b <= 1 + (/ 2 ^ b) ^ 2 / 2.
Proof.
  pose proof (pow2_ge_0 (/ 2 ^ b)) as H. set (t := (/ 2 ^ b) ^ 2) in *. unfold rho. fold t. split.
  - rewrite <- sqrt_1 at 1. apply sqrt_le_1_alt. lra.
  - rewrite <- (sqrt_square (1 + t / 2)) by lra. apply sqrt_le_1_alt. nra.
Qed.

(** A rotation multiplies by [1 + s i / 2^b], where [s] is 1 or -1. *)
Lemma rotation b (s : R) (g phi : R) : s = 1 \/ s = -1 ->
  cmul (1, s * / 2 ^ b) (cscale g (cis phi)) = cscale (g * rho b) (cis (phi + s * atan (/ 2 ^ b))).
Proof.
  intros Hs. set (t := / 2 ^ b). assert (rho b <> 0) as Hr by (pose proof (rho_bounds b); lra).
  assert (cos (s * atan t) = 1 / rho b /\ sin (s * atan t) = s * (t / rho b)) as [Ec Es].
  { destruct Hs as [-> | ->]; [rewrite !Rmult_1_l|replace (-1 * atan t) with (- atan t) by lra; rewrite cos_neg, sin_neg];
      rewrite cos_atan, sin_atan; unfold rho; fold t; replace (t ^ 2) with (Rsqr t) by (unfold Rsqr; ring); split; lra. }
  unfold cscale, cis, cmul. simpl. rewrite cos_plus, sin_plus, Ec, Es. f_equal; field; done.
Qed.

(** The magnitude of the vector before the rotation [b], and its square. *)
Fixpoint gain (b : nat) : R := match b with O => 652032874 | S b => gain b * rho b end.

Fixpoint gainQ (b : nat) : Q := match b with O => inject_Z (652032874 * 652032874) | S b => (gainQ b * (1 + powQ (2 * b) (1 # 2))) end%Q.

Lemma gain_pos b : 0 < gain b.
Proof. induction b as [|b IH]; simpl; [lra|]. pose proof (rho_bounds b). nra. Qed.

Lemma gain_mono b c : (b <= c)%nat -> gain b <= gain c.
Proof. induction 1 as [|c H IH]; [lra|]. simpl. pose proof (rho_bounds c). pose proof (gain_pos c). nra. Qed.

Lemma gain_square b : gain b * gain b = Q2R (gainQ b).
Proof.
  induction b as [|b IH]; cbn [gain gainQ]; [by rewrite Q2R_Z, mult_IZR|]. rewrite Q2R_mult, Q2R_plus, Q2R_pow, <- IH.
  replace (gain b * rho b * (gain b * rho b)) with (gain b * gain b * (rho b * rho b)) by ring. f_equal.
  unfold rho. rewrite sqrt_sqrt by (pose proof (pow2_ge_0 (/ 2 ^ b)); lra). rewrite <- pow_inv, <- pow_mult, Nat.mul_comm. unfold Q2R. simpl. f_equal; [lra|f_equal; lra].
Qed.

Lemma square_between x a b : 0 <= x -> 0 <= a -> 0 <= b -> a * a <= x * x <= b * b -> a <= x <= b.
Proof. intros. nra. Qed.

Lemma gain_near n : n = 15%nat \/ n = 31%nat -> 1073741822 <= gain n <= 1073741826.
Proof.
  intros Hn. apply square_between; [left; apply gain_pos|lra|lra|]. rewrite gain_square, <- !mult_IZR, <- !Q2R_Z.
  destruct Hn as [-> | ->]; split; apply Qle_Rle, Qle_bool_iff; vm_compute; reflexivity.
Qed.

(** The largest angle that the [n] rotations from [b] on can turn to 0, up to [last]. *)
Fixpoint rest (last : Z) (n : nat) (b : Z) : Z := match n with O => last | S n => cordic_T b + rest last n (b + 1) end%Z.

Fixpoint rest_ok (last : Z) (n : nat) (b : Z) : bool :=
  match n with O => true | S n => (0 <=? cordic_T b) && (cordic_T b <=? rest last n (b + 1)) && (rest last (S n) b <? 2 ^ 31) && rest_ok last n (b + 1) end%Z.

Section cordic.
Context (theta : Z).

(** The vector and the angle before the rotation [b]; [phi] is the angle of the vector but
    for rounding. *)
Definition turned (b : nat) (th xn yn : Z) : Prop :=
  exists phi, norm (csub (IZR xn, IZR yn) (cscale (gain b) (cis phi))) <= 2 * INR b /\ Rabs (1073741824 * phi - IZR (theta - th)) <= INR b / 2.

Lemma shiftr_near x b : (0 <= b)%Z -> exists f, IZR (Z.shiftr x b) = IZR x * / 2 ^ Z.to_nat b - f /\ 0 <= f < 1.
Proof.
  intros Hb. rewrite Z.shiftr_div_pow2 by done. assert (0 < 2 ^ b)%Z as Hp by (apply Z.pow_pos_nonneg; lia).
  exists (IZR (x mod 2 ^ b) * / IZR (2 ^ b)). assert (0 < IZR (2 ^ b)) by (by apply IZR_lt).
  replace (2 ^ Z.to_nat b) with (IZR (2 ^ b)) by (rewrite pow_IZR, Z2Nat.id; [done|lia]). pose proof (Z.mod_pos_bound x (2 ^ b) Hp) as [M1 M2]. apply IZR_le in M1. apply IZR_lt in M2. split.
  - rewrite (Z.div_mod x (2 ^ b)) at 2 by lia. rewrite plus_IZR, mult_IZR. field. lra.
  - assert (0 < / IZR (2 ^ b)) by (by apply Rinv_0_lt_compat). split; [apply Rmult_le_pos; lra|]. apply (Rmult_lt_reg_r (IZR (2 ^ b))); [done|]. rewrite Rmult_assoc, Rinv_l by lra. lra.
Qed.

(** One rotation in the direction [s]: what rounding adds is shorter than 3 / 2. *)
Lemma turn_step b th xn yn s : (b <= 30)%nat -> s = 1%Z \/ s = (-1)%Z -> turned b th xn yn ->
  turned (S b) (th - s * cordic_T (Z.of_nat b)) (xn - s * Z.shiftr yn (Z.of_nat b)) (yn + s * Z.shiftr xn (Z.of_nat b)).
Proof.
  intros Hb Hs (phi & Hv & Ha). assert (IZR s = 1 \/ IZR s = -1) as HsR by (destruct Hs as [-> | ->]; [left|right]; done).
  destruct (shiftr_near xn (Z.of_nat b) ltac:(lia)) as (f & Ef & Hf). destruct (shiftr_near yn (Z.of_nat b) ltac:(lia)) as (h & Eh & Hh). rewrite Nat2Z.id in Ef, Eh.
  exists (phi + IZR s * atan (/ 2 ^ b)). split.
  - cbn [gain]. rewrite <- rotation by done. set (w := (IZR xn, IZR yn)) in *. set (v := cscale (gain b) (cis phi)) in *. set (q := (1, IZR s * / 2 ^ b)).
    assert ((IZR (xn - s * Z.shiftr yn (Z.of_nat b)), IZR (yn + s * Z.shiftr xn (Z.of_nat b))) = cadd (cmul q w) (IZR s * h, - (IZR s * f))) as ->.
    { rewrite minus_IZR, plus_IZR, !mult_IZR, Ef, Eh. unfold cadd, cmul, q, w. simpl. f_equal; ring. }
    replace (csub (cadd (cmul q w) (IZR s * h, - (IZR s * f))) (cmul q v)) with (cadd (cmul q (csub w v)) (IZR s * h, - (IZR s * f))) by ring.
    eapply Rle_trans; [apply norm_add|]. rewrite norm_mul. assert (norm q = rho b) as ->.
    { unfold norm, q, rho. simpl. f_equal. destruct HsR as [-> | ->]; ring. }
    assert (norm (IZR s * h, - (IZR s * f)) <= 3 / 2) as Hd by (apply norm_le; [lra|]; simpl; destruct HsR as [-> | ->]; nra).
    pose proof (rho_bounds b) as [R1 R2]. pose proof (norm_pos (csub w v)). rewrite S_INR. pose proof (pos_INR b) as Hb0.
    assert (rho b * norm (csub w v) <= rho b * (2 * INR b)) by (apply Rmult_le_compat_l; lra). set (t := / 2 ^ b) in *.
    assert (INR b * t ^ 2 <= / 2); [|nra]. destruct b as [|b']; [simpl INR; lra|].
    assert (0 < t <= / 2) as Ht.
    { unfold t. split; [apply Rinv_0_lt_compat, pow_lt; lra|]. apply Rinv_le_contravar; [lra|]. simpl. pose proof (pow_R1_Rle 2 b' ltac:(lra)). lra. }
    assert (INR (S b') * t <= 1) as Hbt.
    { unfold t. apply (Rmult_le_reg_r (2 ^ S b')); [apply pow_lt; lra|]. rewrite Rmult_assoc, Rinv_l by (apply pow_nonzero; lra).
      rewrite Rmult_1_r, Rmult_1_l, INR_IZR_INZ, pow_IZR. apply IZR_le. pose proof (Z.pow_gt_lin_r 2 (Z.of_nat (S b')) ltac:(lia) ltac:(lia)). lia. }
    replace (INR (S b') * t ^ 2) with (INR (S b') * t * t) by ring. rewrite <- (Rmult_1_l (/ 2)). apply Rmult_le_compat; [apply Rmult_le_pos|..]; lra.
  - pose proof (angle_near (Z.of_nat b) ltac:(lia)) as Hn. rewrite Nat2Z.id in Hn. apply abs_between in Hn, Ha. rewrite S_INR.
    replace (theta - (th - s * cordic_T (Z.of_nat b)))%Z with (theta - th + s * cordic_T (Z.of_nat b))%Z by lia. rewrite plus_IZR, mult_IZR.
    apply Rabs_le. destruct HsR as [-> | ->]; lra.
Qed.

Lemma turned_range b th xn yn : (b <= 31)%nat -> gain b <= 1073741826 -> turned b th xn yn -> (Z.abs xn <= 1073742000 /\ Z.abs yn <= 1073742000)%Z.
Proof.
  intros Hb Hg (phi & Hv & _). pose proof (norm_near _ _ _ Hv) as Hn. rewrite norm_cscale, cis_norm in Hn by (left; apply gain_pos).
  assert (INR b <= 31) as Hi by (replace 31 with (INR 31) by (simpl; lra); by apply le_INR).
  pose proof (norm_fst (IZR xn, IZR yn)) as H1. pose proof (norm_snd (IZR xn, IZR yn)) as H2. simpl in H1, H2. rewrite <- abs_IZR in H1, H2. split; apply le_IZR; lra.
Qed.

(** The loop: the angle that is left is at most [last]. *)
Lemma loop_turned last n b th xn yn : (b + n <= 31)%nat -> gain (b + n) <= 1073741826 ->
  rest_ok last n (Z.of_nat b) = true -> (Z.abs th <= rest last n (Z.of_nat b))%Z -> turned b th xn yn ->
  exists yn' xn' th', cordic_loop n (Z.of_nat b) th xn yn (Z.shiftr xn (Z.of_nat b)) (Z.shiftr yn (Z.of_nat b)) = Some (yn', xn', th') /\
    (Z.abs th' <= last)%Z /\ turned (b + n) th' xn' yn'.
Proof.
  revert b th xn yn. induction n as [|n IH]; intros b th xn yn Hb Hg Hok Hth Ht.
  { rewrite Nat.add_0_r. exists yn, xn, th. split_and!; [done|done|done]. }
  cbn [rest_ok] in Hok. apply andb_true_iff in Hok as [Hok Hok']. zbool. cbn [rest] in *. cbn [cordic_loop].
  rewrite table_nth by (change (length cordic_lookup) with 31%nat; lia). fold (cordic_T (Z.of_nat b)). cbn [mbind option_bind]. set (a := cordic_T (Z.of_nat b)) in *.
  set (s := if (th <? 0)%Z then (-1)%Z else 1%Z). assert (s = 1 \/ s = -1)%Z as Hs by (unfold s; case_if; auto).
  pose proof (turn_step b th xn yn s ltac:(lia) Hs Ht) as Ht'. fold a in Ht'.
  pose proof (gain_mono (S b) (b + S n) ltac:(lia)) as Hm. destruct (turned_range (S b) _ _ _ ltac:(lia) ltac:(lra) Ht') as [Rx Ry].
  set (X := (xn - s * Z.shiftr yn (Z.of_nat b))%Z) in *. set (Y := (yn + s * Z.shiftr xn (Z.of_nat b))%Z) in *. set (T := (th - s * a)%Z) in *.
  assert (Z.abs T <= rest last n (Z.of_nat b + 1))%Z as HT by (unfold T, s; case_if; lia).
  assert (Z.of_nat b + 1 = Z.of_nat (S b))%Z as Eb by lia. rewrite Eb in *.
  destruct (IH (S b) T X Y) as (yn' & xn' & th' & E & H1' & H2'); [lia|by replace (S b + n)%nat with (b + S n)%nat by lia|done|done|done|].
  exists yn', xn', th'. split; [|by replace (b + S n)%nat with (S b + n)%nat by lia]. rewrite <- E. clear E.
  destruct (th <? 0)%Z; unfold s in X, Y, T.
  - replace (th + a)%Z with T by (unfold T; lia). replace (xn + Z.shiftr yn (Z.of_nat b))%Z with X by (unfold X; lia). replace (yn - Z.shiftr xn (Z.of_nat b))%Z with Y by (unfold Y; lia).
    rewrite !i32_small by lia. done.
  - replace (th - a)%Z with T by (unfold T; lia). replace (xn - Z.shiftr yn (Z.of_nat b))%Z with X by (unfold X; lia). replace (yn + Z.shiftr xn (Z.of_nat b))%Z with Y by (unfold Y; lia).
    rewrite !i32_small by lia. done.
Qed.
End cordic.

(** ** The angle *)

Lemma quadrant_ok th : (Z.abs th <= 1686629713)%Z -> let a := IZR th / 268435456 in
  exists s t a', quadrant th = (s, t) /\ (s = 1 \/ s = -1)%Z /\ (Z.abs t <= 421657428)%Z /\
    cis a = cscale (IZR s) (cis a') /\ Rabs (IZR (4 * t) - 1073741824 * a') <= 2.
Proof.
  intros Hth a. unfold quadrant. pose proof pi_near as [P1 P2]. assert (IZR th = 268435456 * a) as Ea by (unfold a; field).
  assert (forall x, cis x = cscale (-1) (cis (x - PI)) /\ cis x = cscale (-1) (cis (x + PI)) /\ cis x = cscale 1 (cis (x - 2 * PI)) /\ cis x = cscale 1 (cis (x + 2 * PI))) as HC.
  { intros x. unfold cis, cscale. simpl. rewrite !cos_minus, !sin_minus, !cos_plus, !sin_plus, cos_PI, sin_PI, cos_2PI, sin_2PI. split_and!; f_equal; ring. }
  destruct (HC a) as (C1 & C2 & C3 & C4). case_if; [case_if|case_if; [case_if|]].
  - rewrite i32_small by lia. eexists _, _, (a - PI). split; [done|]. split_and!; [by right|lia|done|]. rewrite mult_IZR, minus_IZR, Ea. apply Rabs_le. lra.
  - rewrite i32_small by lia. eexists _, _, (a - 2 * PI). split; [done|]. split_and!; [by left|lia|done|]. rewrite mult_IZR, minus_IZR, Ea. apply Rabs_le. lra.
  - rewrite i32_small by lia. eexists _, _, (a + PI). split; [done|]. split_and!; [by right|lia|done|]. rewrite mult_IZR, plus_IZR, Ea. apply Rabs_le. lra.
  - rewrite i32_small by lia. eexists _, _, (a + 2 * PI). split; [done|]. split_and!; [by left|lia|done|]. rewrite mult_IZR, plus_IZR, Ea. apply Rabs_le. lra.
  - eexists _, _, a. split; [done|]. split_and!; [by left|lia|unfold cscale, cis; simpl; f_equal; ring|]. rewrite mult_IZR, Ea. apply Rabs_le. lra.
Qed.

Lemma norm_gain g h t : norm (csub (cscale g (cis t)) (cscale h (cis t))) <= Rabs (g - h).
Proof.
  replace (csub _ _) with (cmul (g - h, 0) (cis t)) by (unfold csub, cmul, cscale, cis; simpl; f_equal; ring). rewrite norm_mul, cis_norm.
  unfold norm. simpl. rewrite Rmult_0_l, Rplus_0_r. fold (Rsqr (g - h)). rewrite sqrt_Rsqr_abs. lra.
Qed.

(** After [n] rotations the vector, times the sign, is close to 2^30 times cosine and sine. *)
Lemma cordic_near n last th : (n = 15 /\ last = 65536 \/ n = 31 /\ last = 1)%Z -> (Z.abs th <= 1686629713)%Z -> let a := IZR th / 268435456 in
  exists s yn xn r, cordic_approx th n = Some (s, yn, xn, r) /\ (s = 1 \/ s = -1)%Z /\ (Z.abs xn <= 1073742000 /\ Z.abs yn <= 1073742000)%Z /\
    norm (csub (IZR (s * xn), IZR (s * yn)) (cscale 1073741824 (cis a))) <= 5 / 2 * IZR n + IZR last + 4.
Proof.
  intros Hn Hth a. destruct (quadrant_ok th Hth) as (s & t & a' & Eq & Hs & Ht & Ec & Ha). fold a in Ec. unfold cordic_approx. rewrite Eq.
  rewrite Z.shiftl_mul_pow2, i32_small by lia. change (t * 2 ^ 2)%Z with (t * 4)%Z. replace (t * 4)%Z with (4 * t)%Z by lia. set (theta := (4 * t)%Z) in *.
  set (N := Z.to_nat n). assert (IZR n = INR N /\ (N = 15 \/ N = 31)%nat) as [En HN] by (unfold N; destruct Hn as [[-> _]|[-> _]]; simpl; split; [lra|auto|lra|auto]).
  pose proof (gain_near N HN) as Hg. assert (turned theta 0 theta 652032874 0) as H0.
  { exists 0. simpl. split; [|rewrite Z.sub_diag, Rmult_0_r, Rminus_0_r, Rabs_R0; lra].
    replace (csub _ _) with c0; [rewrite norm_0; lra|]. unfold csub, cscale, cis, c0. simpl. rewrite cos_0, sin_0. f_equal; ring. }
  destruct (loop_turned theta last N 0 theta 652032874 0) as (yn & xn & r & E & Hr & Hv); [destruct HN; lia|rewrite Nat.add_0_l; lra|..].
  { destruct Hn as [[En' ->]|[En' ->]]; unfold N; rewrite En'; vm_compute; reflexivity. }
  { apply Z.le_trans with 1686629712%Z; [lia|]. destruct Hn as [[En' ->]|[En' ->]]; unfold N; rewrite En'; vm_compute; discriminate. }
  { done. }
  change (Z.of_nat 0) with 0%Z in E. rewrite !Z.shiftr_0_r in E. fold N. rewrite E. cbn [mbind option_bind]. exists s, yn, xn, r. split; [done|]. split; [done|].
  rewrite Nat.add_0_l in Hv. split; [apply (turned_range theta N r); [destruct HN; lia|lra|done]|].
  destruct Hv as (phi & Hv & Hp). rewrite Ec.
  replace (csub (IZR (s * xn), IZR (s * yn)) (cscale 1073741824 (cscale (IZR s) (cis a')))) with (cmul (IZR s, 0) (csub (IZR xn, IZR yn) (cscale 1073741824 (cis a')))).
  2:{ unfold cmul, csub, cscale. simpl. rewrite !mult_IZR. f_equal; ring. }
  rewrite norm_mul. assert (norm (IZR s, 0) = 1) as ->.
  { unfold norm. simpl. rewrite <- sqrt_1. f_equal. destruct Hs as [-> | ->]; ring. }
  rewrite Rmult_1_l. eapply Rle_trans; [apply (norm_via _ (cscale (gain N) (cis phi)))|].
  pose proof (norm_via (cscale (gain N) (cis phi)) (cscale 1073741824 (cis phi)) (cscale 1073741824 (cis a'))) as H2. pose proof (norm_gain (gain N) 1073741824 phi) as H3.
  assert (Rabs (gain N - 1073741824) <= 2) by (apply Rabs_le; lra).
  assert (norm (csub (cscale 1073741824 (cis phi)) (cscale 1073741824 (cis a'))) <= Rabs (1073741824 * phi - 1073741824 * a')) as H4.
  { replace (csub _ _) with (cscale 1073741824 (csub (cis phi) (cis a'))) by (unfold cscale, csub; simpl; f_equal; ring). rewrite norm_cscale by lra.
    replace (1073741824 * phi - 1073741824 * a') with (1073741824 * (phi - a')) by ring. rewrite Rabs_mult, (Rabs_pos_eq 1073741824) by lra. apply Rmult_le_compat_l; [lra|]. apply cis_close. }
  assert (Rabs (1073741824 * phi - 1073741824 * a') <= INR N / 2 + IZR last + 2) as H5.
  { apply IZR_le in Hr. rewrite abs_IZR in Hr. apply abs_between in Hr, Hp, Ha. rewrite minus_IZR in Hp. apply Rabs_le. lra. }
  rewrite En. lra.
Qed.

(** ** The functions *)

(** Saturation to [[-m, m - 1]] next to a value of at most [m] costs one unit. *)
Lemma clamp_near m v t d : (0 < m)%Z -> Rabs t <= IZR m -> Rabs (IZR v - t) <= d -> Rabs (IZR (clamp (- m) (m - 1) v) - t) <= d + 1.
Proof.
  intros Hm Ht Hv. apply abs_between in Ht, Hv. unfold clamp.
  assert (v < - m \/ - m <= v <= m - 1 \/ v = m \/ m < v)%Z as [H|[H|[H|H]]] by lia.
  - replace (Z.max _ _) with (- m)%Z by lia. apply IZR_lt in H. rewrite opp_IZR in *. apply Rabs_le. lra.
  - replace (Z.max _ _) with v by lia. apply Rabs_le. lra.
  - replace (Z.max _ _) with (m - 1)%Z by lia. rewrite H in Hv. rewrite minus_IZR. apply Rabs_le. lra.
  - replace (Z.max _ _) with (m - 1)%Z by lia. apply IZR_lt in H. rewrite minus_IZR. apply Rabs_le. lra.
Qed.

Lemma to_q31 v t d : (Z.abs v <= 1073742000)%Z -> Rabs t <= 1 -> Rabs (IZR v - 1073741824 * t) <= d ->
  Rabs (IZR (sat_int32 (Z.shiftl (i32 v) 1)) - 2 ^ 31 * t) <= 2 * d + 1.
Proof.
  intros Hv Ht H. rewrite i32_small, Z.shiftl_mul_pow2, sat_int32_clamp by lia. replace (2 ^ 31) with 2147483648 by (simpl; lra).
  apply (clamp_near 2147483648); [lia|rewrite Rabs_mult, Rabs_pos_eq; lra|]. apply abs_between in H. rewrite mult_IZR. change (IZR (2 ^ 1)) with 2. apply Rabs_le. lra.
Qed.

Lemma to_q15 v t d : (Z.abs v <= 1073742000)%Z -> Rabs t <= 1 -> Rabs (IZR v - 1073741824 * t) <= d ->
  Rabs (IZR (sat_int16 (Q_SHIFT_RND (i32 v) 30 15)) - 2 ^ 15 * t) <= d / 32768 + 3 / 2.
Proof.
  intros Hv Ht H. rewrite i32_small, Q_SHIFT_RND_nearest, sat_int16_clamp by lia. change (30 - 15)%Z with 15%Z. replace (2 ^ 15) with 32768 by (simpl; lra).
  replace (d / 32768 + 3 / 2) with ((d / 32768 + / 2) + 1) by lra. apply (clamp_near 32768); [lia|rewrite Rabs_mult, Rabs_pos_eq; lra|].
  pose proof (nearest_R v 15 ltac:(lia)) as N. change (IZR (2 ^ 15)) with 32768 in N. apply abs_between in N, H. apply Rabs_le. lra.
Qed.

Lemma parts_near x y r a d : norm (csub (x, y) (cscale r (cis a))) <= d -> Rabs (x - r * cos a) <= d /\ Rabs (y - r * sin a) <= d.
Proof.
  intros H. pose proof (norm_fst (csub (x, y) (cscale r (cis a)))) as H1. pose proof (norm_snd (csub (x, y) (cscale r (cis a)))) as H2.
  unfold csub, cscale, cis in *. simpl in *. split; lra.
Qed.

(** C35: For every angle of magnitude up to 2 pi in Q4.28 the four functions return. The 32-bit
    sine and cosine are within 166 units of the last place (0.00000008) of the real ones,
    the 16-bit ones within 4 units. *)
Theorem sin_cos_near th : (Z.abs th <= 1686629713)%Z -> let a := IZR th / 268435456 in
  exists s c s' c', sin_fixed_32b th = Some s /\ cos_fixed_32b th = Some c /\ sin_fixed_16b th = Some s' /\ cos_fixed_16b th = Some c' /\
    Rabs (IZR s - 2 ^ 31 * sin a) <= 166 /\ Rabs (IZR c - 2 ^ 31 * cos a) <= 166 /\
    Rabs (IZR s' - 2 ^ 15 * sin a) <= 4 /\ Rabs (IZR c' - 2 ^ 15 * cos a) <= 4.
Proof.
  intros Hth a. unfold sin_fixed_32b, cos_fixed_32b, sin_fixed_16b, cos_fixed_16b.
  destruct (cordic_near 31 1 th ltac:(by right) Hth) as (s1 & y1 & x1 & r1 & E1 & S1 & R1 & N1). destruct (cordic_near 15 65536 th ltac:(by left) Hth) as (s2 & y2 & x2 & r2 & E2 & S2 & R2 & N2).
  rewrite E1, E2. cbn [mbind option_bind]. fold a in N1, N2. apply parts_near in N1 as [C1 D1], N2 as [C2 D2].
  assert (Rabs (sin a) <= 1) as Hs by (apply Rabs_le; pose proof (SIN_bound a); lra). assert (Rabs (cos a) <= 1) as Hc by (apply Rabs_le; pose proof (COS_bound a); lra).
  eexists _, _, _, _. split; [done|]. split; [done|]. split; [done|]. split; [done|]. split_and!.
  - eapply Rle_trans; [apply to_q31; [destruct S1 as [-> | ->]; lia|done|exact D1]|lra].
  - eapply Rle_trans; [apply to_q31; [destruct S1 as [-> | ->]; lia|done|exact C1]|lra].
  - eapply Rle_trans; [apply to_q15; [destruct S2 as [-> | ->]; lia|done|exact D2]|lra].
  - eapply Rle_trans; [apply to_q15; [destruct S2 as [-> | ->]; lia|done|exact C2]|lra].
Qed.

Lemma sin_cos_near_witness : let a := IZR (-1000000000) / 268435456 in
  exists s c s' c', sin_fixed_32b (-1000000000) = Some s /\ cos_fixed_32b (-1000000000) = Some c /\ sin_fixed_16b (-1000000000) = Some s' /\
    cos_fixed_16b (-1000000000) = Some c' /\ Rabs (IZR s - 2 ^ 31 * sin a) <= 166 /\ Rabs (IZR c - 2 ^ 31 * cos a) <= 166 /\
    Rabs (IZR s' - 2 ^ 15 * sin a) <= 4 /\ Rabs (IZR c' - 2 ^ 15 * cos a) <= 4.
Proof. apply (sin_cos_near (-1000000000)). lia. Defined.

(** The complex exponential, in Q2.30 and Q1.15. *)
Lemma cmpx_exp_near th : (Z.abs th <= 1686629713)%Z -> let a := IZR th / 268435456 in
  exists z z', cmpx_exp_32b th = Some z /\ cmpx_exp_16b th = Some z' /\
    norm (csub (IZR (cx_re z), IZR (cx_im z)) (cscale (2 ^ 30) (cis a))) <= 83 /\
    Rabs (IZR (cx_re z') - 2 ^ 15 * cos a) <= 4 /\ Rabs (IZR (cx_im z') - 2 ^ 15 * sin a) <= 4.
Proof.
  intros Hth a. unfold cmpx_exp_32b, cmpx_exp_16b.
  destruct (cordic_near 31 1 th ltac:(by right) Hth) as (s1 & y1 & x1 & r1 & E1 & S1 & R1 & N1). destruct (cordic_near 15 65536 th ltac:(by left) Hth) as (s2 & y2 & x2 & r2 & E2 & S2 & R2 & N2).
  rewrite E1, E2. cbn [mbind option_bind]. fold a in N1, N2. apply parts_near in N2 as [C2 D2].
  assert (Rabs (sin a) <= 1) as Hs by (apply Rabs_le; pose proof (SIN_bound a); lra). assert (Rabs (cos a) <= 1) as Hc by (apply Rabs_le; pose proof (COS_bound a); lra).
  eexists _, _. split; [done|]. split; [done|]. unfold cmpx_cexp. cbn [cx_re cx_im]. split_and!.
  - rewrite !i32_small by (destruct S1 as [-> | ->]; lia). replace (2 ^ 30) with 1073741824 by (simpl; lra). lra.
  - eapply Rle_trans; [apply to_q15; [destruct S2 as [-> | ->]; lia|done|exact C2]|lra].
  - eapply Rle_trans; [apply to_q15; [destruct S2 as [-> | ->]; lia|done|exact D2]|lra].
Qed.

(** ** The inverse functions near 1 *)

(** Next to 1 the rotations for the arc sine pass pi / 2, where the comparison with the sine
    no longer says on which side the angle is: the result is larger than pi / 2 in Q3.29,
    by 0.0013. The arc cosine of 1 - 2^-30 is 0.00018 instead of 0.00004. *)
Example asin_passes_pi_2 : asin_fixed_32b 1073740904 = Some 844021383%Z /\ acos_fixed_32b 1073741823 = Some 94497%Z.
Proof. vm_compute. done. Qed.

(** The arc sine of 1 is 12868 = pi / 2 in Q3.13, not in the Q2.14 that is given for it. *)
Example asin_16b_format : asin_fixed_16b 1073741824 = Some 12868%Z.
Proof. vm_compute. reflexivity. Qed.
